(* ===== verification/_CoqProject ===== *)
-Q . S2P
Prelude.v
RustStr.v
BTree.v
Traversal.v
Ordering.v
Contracts.v
OperationContracts.v
AssuranceContracts.v
Calendar.v
Rfc3339.v
PathScope.v
ClaimEngine.v
WalFrame.v
ClaimWal.v
WalRecovery.v
ReplayWal.v
ReplayCommands.v
ReplayLog.v
ReplaySafety.v
ReplayClaims.v
ClaimProjection.v
ClaimBus.v
WriteCheck.v
ClaimExamples.v
ExecutionAdmission.v
AdmissionSpec.v
AdmissionExamples.v
Diagnostics.v
ObligationEngine.v
AssuranceValidation.v
DerivedCase.v
DerivedExamples.v
Isolation.v
IsolationRegistry.v
Promotion.v
Graph.v
GraphOrder.v
GraphValid.v
GraphRun.v
EventLog.v
GovernanceLedger.v
MemoryContract.v
MemoryLedger.v
ResearchLedger.v
EventExamples.v
Phase.v
AutonomyRouter.v
WorkflowContracts.v
DomainPackContracts.v
PackRegistry.v
PackResolution.v
PackOrder.v
PackSearch.v
PackSpec.v
PackTrust.v
PackTrustSpec.v
PackExamples.v
StatePaths.v
EffectTypes.v
CrashIo.v
EffectStore.v
EffectLog.v
EffectCrash.v
EffectRecovery.v
EffectPlan.v
EffectAtomic.v
EffectSafety.v
EffectPreflight.v
EffectReplay.v
EffectPending.v
EffectExamples.v
ExecutionAuthority.v
PrincipalRegistry.v
OperationBundle.v
ReplayDisk.v
PreparedPlan.v
PreparedExecution.v
ExecutionCrash.v
ExecutionRun.v
ExecutionExamples.v
