(* ===== verification/Prelude.v ===== *)
(** * Verification of the Forge Method Core governance runtime

    Forge Method Core keeps several agents from stepping on each other in one repository.  Agents
    take leases ("claims") on paths before they write; an execution is admitted only when its
    assurance case, operation, principal, nonce, claims and gates all agree; conflicts between
    agents, and the project's memory and research sources, are kept in append-only logs; workflows
    are graphs whose plans pass verifiers; phases, autonomy lanes, worktree isolation and promotions
    are decided by pure functions; domain packs are resolved to exact versions and trusted by policy;
    and the effect of an admitted execution is applied to files under a write-ahead log, bound to the
    replay reservation that lets it happen once.  This development models those parts from the Rust sources under
    [src/crates/] and proves what makes them correct.

    ** The program's parts and the files that model them

    - Shared: this file (results, machine integers, tactics, list lemmas), [RustStr] (the parts of
      [str] and [String] the sources use: trimming, splitting, integer parsing and printing, lossy
      UTF-8 decoding, on byte strings), [BTree] (ordered iteration of [BTreeMap] and [BTreeSet] as
      [gmap] and [gset]), [Traversal] (walks in finite relations), [Ordering] (sorting and deduplication
      by a comparator), [Contracts] (the
      data types of [forge-core-contracts]: [common.rs], [claim.rs], [governance.rs]),
      [OperationContracts] ([operation.rs], [command.rs], [tool_effect.rs], [gate.rs]),
      [AssuranceContracts] ([assurance.rs]), [Diagnostics] ([forge-core-validate/src/lib.rs], the
      report), [WalFrame] (the framing both binary logs use).
    - Time: [Calendar] (civil dates) and [Rfc3339] (the fixed-shape timestamps), both of
      [forge-core-decisions/src/claim_engine.rs].
    - Claims: [PathScope] ([conflict_detection.rs], lexical paths, containment, overlap),
      [ClaimEngine] ([claim_engine.rs]: [acquire], [heartbeat], [release], [record_handoff],
      [expire_stale], [reconcile_claims], [project_active], as pure functions of the bus and the
      clock), [ClaimWal] ([forge-core-store/src/claim_wal.rs]: records, recovery, repair, append over
      the bytes of the log), [WalRecovery] (recovery on arbitrary bytes), [ClaimProjection] (the fold
      of the records and its checkpoint seed, same file), [ClaimBus]
      ([forge-core-cli/src/claim.rs] and [derive_state.rs]: the commands over a disk of log bytes and
      cache files), [WriteCheck] (the write gate), [ClaimExamples].
    - Replay protection: [ReplayWal] and [ReplayCommands] ([forge-core-store/src/replay_wal.rs]: the
      records, the decoder, the reservation transitions; the commands over the manifest and log
      files), [ReplayLog] (what the decoder reads back), [ReplaySafety] (the nonce machine and the
      refinement), [ReplayClaims].
    - Assurance and admission: [ObligationEngine] ([decisions/src/obligation_engine.rs]: from
      observations to an assurance case), [AssuranceValidation] ([validate/src/assurance.rs]),
      [DerivedCase] and [DerivedExamples] (the derived case against the validator and against
      admission), [ExecutionAdmission] ([decisions/src/execution_admission.rs]), [AdmissionSpec] (the
      specification of an admissible execution), [AdmissionExamples].
    - Isolation and promotion: [Isolation] ([decisions/src/isolation.rs], [contracts/src/isolation.rs]),
      [IsolationRegistry] ([cli/src/isolation.rs]: the commands over a directory of contracts),
      [Promotion] ([decisions/src/promotion.rs], [contracts/src/promotion.rs]).
    - Graphs: [Graph] (the data), [GraphOrder] (topological sort), [GraphValid] (the validator),
      [GraphRun] (the dry run), all of [forge-core-graph/src/lib.rs].
    - Event logs: [EventLog] ([forge-core-eventlog/src/tcb.rs], [error.rs]: the transaction engine,
      replay, strict validation, quiesced capture), and its three domains as instances of one class:
      [GovernanceLedger] ([governance/*.rs]), [MemoryContract] and [MemoryLedger]
      ([contracts/src/memory.rs], [memory/*.rs]), [ResearchLedger] ([contracts/src/research.rs],
      [research/*.rs]); [EventExamples].
    - Decisions: [Phase] ([contracts/src/phase.rs], [decisions/src/phase_transition.rs]) and
      [AutonomyRouter] ([decisions/src/autonomy_router.rs] with its two contracts).
    - Domain packs: [WorkflowContracts] and [DomainPackContracts] (the wire types), [PackRegistry]
      ([contracts/src/domain_pack_remote_acquisition.rs]: structural checks of a registry snapshot and
      its mirror order), [PackResolution] ([decisions/src/domain_pack_resolution.rs]: admission of
      candidates, the version search, the install order, [resolve_domain_packs]), [PackOrder],
      [PackSearch] and [PackSpec] (the graph, the search and the whole of a resolution against their
      specifications), [PackTrust] and [PackTrustSpec] ([decisions/src/domain_pack_trust.rs]),
      [PackExamples].
    - Effects: [StatePaths] ([contracts/src/reserved_state_paths.rs] and the path functions of
      [forge-core-store/src/lib.rs]), [EffectTypes] (the records of that file), [CrashIo] (files,
      faults, the program type [Io] and its weakest preconditions, and what [retained_dir.rs] keeps
      under quarantine names), [EffectStore] (resolving targets,
      preparing, applying and rolling back writes), [EffectLog] (the transaction, the recovery, the
      projection of open replay commits), [EffectReplay] (the completion of one), all of
      [forge-core-store/src/lib.rs], and [reconcile_effects], the half of the reconciliation in
      [forge-core-kernel/src/prepared_execution.rs] that repairs and recovers.  The proofs are in
      [EffectCrash] (log encoding, tail repair, [Recoverable]), [EffectRecovery] (recovery restores
      before images), [EffectPlan] (the change an effect asks for), [EffectAtomic] (publication and
      rollback), [EffectSafety], [EffectPreflight] and [EffectPending] (the claims, and logs in which
      every transaction is decided), [EffectExamples] (a codec with its laws, and runs).
    - Prepared executions: [ExecutionAuthority] (principals, authorizations and requests of
      [forge-core-authority/src/principal_registry.rs] and [execution_handoff.rs]; the trace events of
      [forge-core-trace/src/lib.rs]), [PrincipalRegistry] ([attestation.rs] and [principal_registry.rs]:
      the signed intent of a call, the operator's registry and what it authorizes), [OperationBundle]
      ([kernel/src/operation_effect_bundle.rs] and [validate_operation]), [PreparedPlan] and
      [PreparedExecution] ([kernel/src/prepared_execution.rs]: the checks and the descriptor of a plan;
      preparing, admitting, committing and reconciling; [execute_without_anchor] of
      [forge-core-protocol-mcp/src/trusted_runtime.rs]; what a commit writes is what recovery accepts).
      [ReplayDisk] puts the replay log among the files of the disk, so that one script of faults drives
      the whole.  The proofs are in [ExecutionCrash] (the states a crash leaves and what reconciling makes
      of them) and [ExecutionRun] (where an execution ends, and the claims), [ExecutionExamples].

    ** How state and effects are modelled

    Pure functions are Rocq functions with the source's names.  A [w]-bit integer is a [Z] with its
    range written out; a [String] is its bytes; [Result] is the type below.  A vector that a function
    of the source pushes diagnostics or issues to is the list it returns.  The claim bus is a disk
    record; an event stream is [option bytes]; the replay store is its two files; the isolation
    registry is a map from file names to contracts.  What the operating system may do is data given
    to a command: whether opening, reading, truncating and appending succeed, how many bytes of an
    append reach the disk, and whether a failure is reported; a crash is an append that stops early.
    Runs are sequences of commands as step relations, so every theorem about a reachable state holds
    for any interleaving of commands under the exclusive locks the code takes.

    The effect store runs many operations per call, so its programs are values of [Io]: they thread a
    disk (files by their path components) and a script of faults, one for each operation.  An
    operation works, reports a failure that may leave the file partly changed, or the process dies in
    it.  [wp] is a weakest precondition with a crash condition; a claim holds for every script, or for
    every script without failures where it says so.  The disk of these programs holds the files proper:
    a replacement or a removal also keeps what it displaces beside the file, under a random quarantine
    name, and never unlinks it.  [CrashIo] says what the two calls do to the whole directory tree and
    proves that a tree made by them is the disk and such files ([tree_of_keeps]); the claim that nothing
    else changes is made of the tree.

    Parameters stand for code outside the repository: the JSON encoding of claim payloads
    ([WalCodec]), of replay payloads ([ReplayCodec]) and of events ([EventCodec]), the checksums and
    digests ([AdmissionDigests], [PromotionDigest] and fields of the codecs), the [semver] crate
    ([Semver]), canonical JSON and SHA-256 ([Canonical], [Sha256]), the JSON of effect records and the
    canonical form of a project root ([EffectCodec]), the JSON of the replay manifest and of provenance
    ([ManifestCodec], [KernelCodec]), the signature scheme ([Ed25519]), and the Unicode lower-case mapping.  What is assumed of each is a
    class of laws (an encoded value reads back, unless one of its fields is refused when it is read, which
    the instances of [EventBounds] say; a proper part of an encoded event does not, nor do several on one
    line; a checksum fits its width; a token starts with the name of its algorithm), and each class has a
    concrete instance on which the witnesses run.  Freedom from digest collisions is a hypothesis of
    the theorems that need it and of no other.

    ** What the theorems show

    - One writer: after any sequence of commands, failures and crashes, and before an append goes on to
      rotate the log ([ClaimBus.unrotated]), open claims never contend
      ([ClaimBus.bus_mutual_exclusion]); the holder of a live claim may write its paths and nobody
      else may ([WriteCheck.single_writer]); an acknowledged command is in the next load
      ([ClaimBus.acknowledged_is_durable]).
    - Admission: an execution is admitted exactly under the conditions of [AdmissionSpec.admissible], and
      otherwise blocked with an issue or refused with the error of its schema or its canonical form;
      on any bus reachable before a rotation its writes are governed by its own principal's claim alone; an attested
      intent fixes every document the admission read.
    - Replay: the replay log refines a machine in which a nonce is absent, reserved or consumed, so a
      nonce is used once whatever crashes; keys of different requests differ.
    - Assurance: a derived case passes its validator but for the ids the input chose, is ready
      exactly when nothing is due, and a ready case passes the assurance checks of admission.
    - Isolation and promotion: live contracts never share a branch or a worktree; suggested commands
      survive the shell's word splitting; a promotion plan turns the destination into the source and
      an eligible one loses nothing.
    - The claim engine: exact conditions for granting, renewing and releasing, the lifecycle as a
      state machine, reconciliation, lease lifetimes, overlap exact for containment, calendar and
      timestamp round trips.
    - The claim log: recovery ends on any bytes and repair converges, recovery returns exactly the
      complete records after any crash, append extends the log by one record, the projection and its
      checkpoint agree with the history.
    - Graphs: the sort terminates and is correct, the validator is sound and complete, a planned run
      has no mutating step behind a verifier that has not passed.
    - Event logs: what replay returns after a crash, strict validation, stable capture; the
      governance ledger, with any I/O, refines an abstract ledger or cannot be read any more, and decisions
      are final in it when no append is cut; each memory command, when no append is cut,
      changes exactly the entry its gate allows, or admits an entry whose confidence makes the store
      unreadable; admissions to the research ledger are exact.
    - Decisions: the transition verdict is exact and no run of transitions passes a gate that was not
      cleared; the fast lane is taken exactly under its conditions.
    - Domain packs: the search returns a solution or there is none, and the preferred one at every
      decision; the install order exists exactly for acyclic selections and puts dependencies first; a
      selected package comes from the signed registry; a request that has a solution within the budget
      resolves, unless the solution found names a coordinate twice in one pack and is reported as a cycle;
      an approved trust evaluation has established every grant it rests on.
    - Effects: the status of an application is truthful whatever faults occur; if the process may die
      anywhere, then after any number of interrupted reconciliations an undisturbed one leaves all of
      the effect or nothing, in agreement with the log; a preflight decides the application; the open
      replay commits are those of a reference definition, an applied effect adds exactly its own, and
      a completion closes exactly one.  The theorems ask that no target of the effect is the log
      itself ([spares_log]).
    - Executions: one that is planned takes effect exactly once or not at all, whatever the process
      dies in and however often reconciliation is interrupted, and its answer agrees
      ([ExecutionRun.execution_exactly_once]); a nonce that was used is refused for good
      ([ExecutionRun.used_nonce_refused]); an authorization exists exactly for a signed call an entry of
      the registry stands for ([PrincipalRegistry.authorization_exact]), and what is committed was so
      authorized and admitted twice ([ExecutionRun.committed_is_authorized]); the effects of an
      operation-wide bundle name disjoint files ([OperationBundle.bundle_disjoint]).  The first asks that the effect writes none of the
      files an execution relies on ([spares_execution]), that references and ids of effects are
      not blank ([named_effects]), that the log has no record of the transaction yet, and that the state
      root is at rest ([at_rest]); examples show that the code needs the first two and does not check them.
    - Divergences that the proofs exposed are theorems too: leases past year 9999 are born expired,
      repair drops intact records after a damaged one, edge kinds do not matter to planning, an
      append after a torn event line makes the stream unreadable, so does an admitted memory entry with a
      confidence over 100, entries can claim authority for themselves, a forgotten entry that returns cannot be forgotten, a proposal can replace another
      agent's live isolation contract, a base ref can be read as an option, ids of a derived case can
      collide; a transaction that dies right after its [Begin] record makes the open replay commits
      unreadable, a failed rollback is recorded as complete, a rollback that is not recorded undoes
      later commits, a recovery without tail repair makes the log unreadable, and a commit record
      that was written although its append reported a failure leaves a part of an effect.

    ** Bounds and fuel

    Recursion follows the data where it can.  The exceptions carry fuel that is proved enough:
    trimming and lossy decoding use the length of the text, decimal printing the binary logarithm,
    recovery of both binary logs the number of bytes, the topological sort the number of nodes,
    the search for upstream verifiers the number of edges and nodes, the version search the state
    budget of the request, the cycle check one more than the selected packages and the loop of the
    install order as many; no result depends on running out.

    ** Not modelled

    File handles, locks, permissions and path identities are only the outcomes above.  Of the claim
    log, the decision to rotate is modelled ([rotation_due]: over 64 MiB, over 100,000 records, or a
    recovery of over 250 ms) and the rotation is not, nor the witness files of checkpoints: the theorems
    on the bus speak of runs before the first rotation, since a rotation that crashed leaves a residue
    with which every later load fails ([ClaimBus.residue_refuses]).  Of the effect store: compaction
    of its log, the queries of the metadata index, the publication over split roots, the application
    without a log, and the lock it holds throughout.  Of the kernel: loading contracts and capturing
    snapshots (their results are data), the audits of the project for risks and citations (their
    reports are data), the producer admission, and the orchestration of unprepared transactions.
    Backup and restore are operating-system calls on directory handles; the authorities of workflows and
    domain packs repeat the pattern of the execution authority for other documents; the remaining decision modules (durable assurance, funnel and agent
    autonomy, workflow governance, pack composition and discovery) are off the path from a claim to an
    effect; so are the table-driven validators of other contracts, the command-line adapters and tooling. *)

From stdpp Require Export base tactics decidable list option numbers strings gmap sorting relations.
From Stdlib Require Export ZArith Lia.

(** ** Scope and result type *)

Declare Scope forge_scope.
Delimit Scope forge_scope with forge.

(** [Result<T, E>] of the Rust standard library. *)
Inductive Result (T E : Type) : Type :=
| Ok (value : T)
| Err (error : E).
Arguments Ok {T E} value.
Arguments Err {T E} error.

(** The [?] operator on [Result]. *)
Definition result_bind {T U E : Type} (r : Result T E) (k : T -> Result U E) : Result U E :=
  match r with Ok v => k v | Err e => Err e end.

(** [Result::map_err]. *)
Definition map_err {T E F : Type} (f : E -> F) (r : Result T E) : Result T F :=
  match r with Ok v => Ok v | Err e => Err (f e) end.

Notation "'try' x <- r ; k" := (result_bind r (fun x => k))
  (at level 10, x pattern, r at level 100, k at level 200) : forge_scope.

(** ** Machine integers: a w-bit integer is a [Z] with its range written out *)

Definition u8_max : Z := 255.
Definition u32_max : Z := 4294967295.
Definition u64_max : Z := 18446744073709551615.
Definition i64_max : Z := 9223372036854775807.
Definition i64_min : Z := -9223372036854775808.

Definition in_i64 (z : Z) : bool := (i64_min <=? z)%Z && (z <=? i64_max)%Z.
Definition in_u64 (z : Z) : bool := (0 <=? z)%Z && (z <=? u64_max)%Z.
Definition in_u8 (z : Z) : bool := (0 <=? z)%Z && (z <=? u8_max)%Z.

(** [i64::checked_add], [u64::checked_add], [i64::try_from(u64)], [u64::try_from(i64)]. *)
Definition i64_checked_add (a b : Z) : option Z :=
  if in_i64 (a + b) then Some (a + b)%Z else None.
Definition u64_checked_add (a b : Z) : option Z :=
  if in_u64 (a + b) then Some (a + b)%Z else None.
Definition i64_try_from (z : Z) : option Z := if in_i64 z then Some z else None.
Definition u64_try_from (z : Z) : option Z := if in_u64 z then Some z else None.

(** ** Shared tactics *)

(** Splits the innermost [match]/[if] scrutinee of the goal. *)
Ltac split_match :=
  match goal with
  | |- context [match ?x with _ => _ end] =>
      lazymatch x with
      | context [match _ with _ => _ end] => fail
      | _ => destruct x eqn:?
      end
  end.

Ltac split_match_in H :=
  match type of H with
  | context [match ?x with _ => _ end] =>
      lazymatch x with
      | context [match _ with _ => _ end] => fail
      | _ => destruct x eqn:?
      end
  end.

(** Boolean connectives in every hypothesis and the goal, as propositions. *)
Ltac bool_simpl :=
  repeat match goal with
  | H : (_ && _)%bool = true |- _ => apply andb_true_iff in H as [? ?]
  | H : (_ || _)%bool = false |- _ => apply orb_false_iff in H as [? ?]
  | H : negb _ = true |- _ => apply negb_true_iff in H
  | H : negb _ = false |- _ => apply negb_false_iff in H
  | H : bool_decide _ = true |- _ => apply bool_decide_eq_true_1 in H
  | H : bool_decide _ = false |- _ => apply bool_decide_eq_false_1 in H
  | H : (_ <=? _)%Z = true |- _ => apply Z.leb_le in H
  | H : (_ <=? _)%Z = false |- _ => apply Z.leb_gt in H
  | H : (_ <? _)%Z = true |- _ => apply Z.ltb_lt in H
  | H : (_ <? _)%Z = false |- _ => apply Z.ltb_ge in H
  | H : (_ =? _)%Z = true |- _ => apply Z.eqb_eq in H
  | H : (_ =? _)%Z = false |- _ => apply Z.eqb_neq in H
  | H : (_ =? _) = true |- _ => apply Nat.eqb_eq in H
  | H : (_ =? _) = false |- _ => apply Nat.eqb_neq in H
  end.

(** Case analysis on one hypothesis until it is contradictory or atomic. *)
Ltac inv_match H := repeat (split_match_in H; simplify_eq/=; try discriminate).

(** ** Hint database shared by the components *)

Create HintDb forge discriminated.

(** ** List lemmas shared by the components *)

Lemma existsb_In {A} (f : A -> bool) (l : list A) :
  existsb f l = true <-> exists x, x ∈ l /\ f x = true.
Proof.
  rewrite List.existsb_exists. split; intros (x & Hx & Hf); exists x; split;
    try done; by apply list_elem_of_In.
Qed.

Lemma existsb_not_In {A} (f : A -> bool) (l : list A) :
  existsb f l = false <-> forall x, x ∈ l -> f x = false.
Proof.
  rewrite <- not_true_iff_false, existsb_In. split.
  - intros Hn x Hx. apply not_true_iff_false. intros Hf. apply Hn. eauto.
  - intros Hall (x & Hx & Hf). rewrite Hall in Hf; done.
Qed.

Lemma forallb_In {A} (f : A -> bool) (l : list A) :
  forallb f l = true <-> forall x, x ∈ l -> f x = true.
Proof.
  rewrite List.forallb_forall. split; intros H x Hx; apply H; by apply list_elem_of_In.
Qed.

Lemma find_some_In {A} (f : A -> bool) (l : list A) x :
  List.find f l = Some x -> x ∈ l /\ f x = true.
Proof. intros [Hin Hf]%List.find_some. split; [by apply list_elem_of_In | done]. Qed.

Lemma find_none_In {A} (f : A -> bool) (l : list A) :
  List.find f l = None <-> forall x, x ∈ l -> f x = false.
Proof.
  split.
  - intros Hn x Hx. eapply List.find_none; [done | by apply list_elem_of_In].
  - intros Hall. induction l as [|y l IH]; [done|]. simpl.
    rewrite Hall by (by left). apply IH. intros x Hx. apply Hall. by right.
Qed.

Lemma find_is_some_In {A} (f : A -> bool) (l : list A) :
  is_Some (List.find f l) <-> exists x, x ∈ l /\ f x = true.
Proof.
  split.
  - intros [x Hx]. exists x. by apply find_some_In.
  - intros (x & Hx & Hf). destruct (List.find f l) eqn:E; [done|].
    rewrite (proj1 (find_none_In f l) E x Hx) in Hf. done.
Qed.

(** A boolean-filtered list, by membership. *)
Lemma filter_In_iff {A} (f : A -> bool) (l : list A) x :
  x ∈ List.filter f l <-> x ∈ l /\ f x = true.
Proof. rewrite !list_elem_of_In. apply List.filter_In. Qed.

Lemma map_In_iff {A B} (f : A -> B) (l : list A) y :
  y ∈ List.map f l <-> exists x, y = f x /\ x ∈ l.
Proof.
  rewrite list_elem_of_In, List.in_map_iff. setoid_rewrite list_elem_of_In. naive_solver.
Qed.

#[export] Hint Resolve list_elem_of_here list_elem_of_further : forge.

Lemma filter_all {A} (f : A -> bool) (l : list A) :
  (forall x, x ∈ l -> f x = true) -> List.filter f l = l.
Proof.
  induction l as [|x l IH]; intros Hall; simpl; [done|]. rewrite Hall by (by left).
  f_equal. apply IH. intros y Hy. apply Hall. by right.
Qed.

Lemma filter_none {A} (f : A -> bool) (l : list A) :
  (forall x, x ∈ l -> f x = false) -> List.filter f l = [].
Proof.
  induction l as [|x l IH]; intros Hall; simpl; [done|]. rewrite Hall by (by left).
  apply IH. intros y Hy. apply Hall. by right.
Qed.

(** Position of the first occurrence in a table. *)
Fixpoint index_of {A} `{EqDecision A} (x : A) (l : list A) : option nat :=
  match l with
  | [] => None
  | y :: l => if decide (x = y) then Some 0 else S <$> index_of x l
  end.

Lemma index_of_lookup {A} `{EqDecision A} (x : A) (l : list A) n : index_of x l = Some n -> l !! n = Some x.
Proof.
  revert n. induction l as [|y l IH]; intros n; simpl; [done|].
  destruct (decide (x = y)) as [->|]; [by intros [= <-]|].
  destruct (index_of x l) as [m|]; [|done]. intros [= <-]. simpl. by apply IH.
Qed.

Lemma app_nil_iff {A} (l k : list A) : (l ++ k)%list = [] <-> l = [] /\ k = [].
Proof. split; [apply app_eq_nil | by intros [-> ->]]. Qed.

Lemma concat_map_nil {A B} (f : A -> list B) l : concat (map f l) = [] <-> forall x, x ∈ l -> f x = [].
Proof.
  induction l as [|x l IH]; simpl; [split; [by intros _ ? ?%elem_of_nil | done]|].
  rewrite app_nil_iff, IH. setoid_rewrite elem_of_cons. naive_solver.
Qed.

(** [Vec::is_empty]. *)
Definition is_nil {A} (l : list A) : bool := match l with [] => true | _ => false end.

(** [Option::is_none], [is_some_and] and [is_none_or]; [Result::is_ok]. *)
Definition is_none {T} (o : option T) : bool := match o with None => true | Some _ => false end.
Definition option_any {T} (f : T -> bool) (o : option T) : bool := match o with Some x => f x | None => false end.
Definition option_all {T} (f : T -> bool) (o : option T) : bool := match o with Some x => f x | None => true end.
Definition is_ok {T E} (r : Result T E) : bool := match r with Ok _ => true | Err _ => false end.

(** [Iterator::find_map]. *)
Fixpoint find_map {A B} (f : A -> option B) (l : list A) : option B :=
  match l with
  | [] => None
  | x :: r => match f x with Some y => Some y | None => find_map f r end
  end.

Lemma is_nil_false {A} (l : list A) : is_nil l = false <-> l ≠ [].
Proof. by destruct l. Qed.

Lemma filter_sublist {A} (f : A -> bool) (l : list A) : List.filter f l `sublist_of` l.
Proof. induction l as [|x l IH]; simpl; [constructor|]. destruct (f x); by constructor. Qed.

Lemma map_sublist {A B} (f : A -> B) (l k : list A) : l `sublist_of` k -> map f l `sublist_of` map f k.
Proof. induction 1; simpl; by constructor. Qed.

(** ** Lists searched by a key *)

Lemma find_key {A} (key : A -> string) (l : list A) k x :
  NoDup (map key l) ->
  List.find (fun y => bool_decide (key y = k)) l = Some x <-> x ∈ l /\ key x = k.
Proof.
  intros Hnd. split; [intros [Hin Hk]%find_some_In; by bool_simpl|]. intros [Hin Hk]. subst k.
  induction l as [|y l IH]; [by apply elem_of_nil in Hin|]. simpl in *. apply NoDup_cons in Hnd as [Hy Hnd].
  apply elem_of_cons in Hin as [->|Hin]; [by rewrite bool_decide_eq_true_2|].
  rewrite bool_decide_eq_false_2; [by apply IH|]. intros E. apply Hy. rewrite E. apply map_In_iff. eauto.
Qed.

Lemma find_key_none {A} (key : A -> string) (l : list A) k :
  List.find (fun y => bool_decide (key y = k)) l = None <-> forall x, x ∈ l -> key x ≠ k.
Proof. rewrite find_none_In. setoid_rewrite bool_decide_eq_false. done. Qed.

Lemma key_unique {A} (key : A -> string) (l : list A) x y :
  NoDup (map key l) -> x ∈ l -> y ∈ l -> key x = key y -> x = y.
Proof.
  intros Hnd Hx Hy E. apply (inj Some).
  by rewrite <- (proj2 (find_key key l (key x) x Hnd) (conj Hx eq_refl)), (proj2 (find_key key l (key x) y Hnd) (conj Hy (eq_sym E))).
Qed.

(** The size of the set of a list of strings. *)
Lemma size_list_to_set_le (l : list string) : (size (list_to_set (C := gset string) l) <= length l)%nat.
Proof.
  induction l as [|y l IH]; [done|]; cbn [list_to_set length].
  pose proof (size_union_alt (C := gset string) {[y]} (list_to_set l)) as E. rewrite E, size_singleton.
  assert (size (list_to_set (C := gset string) l ∖ {[y]}) <= size (list_to_set (C := gset string) l))%nat
    by (apply subseteq_size; set_solver). lia.
Qed.

Lemma size_list_to_set_eq (l : list string) : size (list_to_set (C := gset string) l) = length l <-> NoDup l.
Proof.
  split; [|apply size_list_to_set].
  induction l as [|x l IH]; simpl; [constructor|]. intros E.
  destruct (decide (x ∈ l)) as [Hin|Hin].
  - replace ({[x]} ∪ list_to_set l) with (list_to_set (C := gset string) l) in E by set_solver.
    pose proof (size_list_to_set_le l). lia.
  - rewrite size_union in E by set_solver. rewrite size_singleton in E. constructor; [done | apply IH; lia].
Qed.
