(* ===== verification/RustStr.v ===== *)
(** * Rust strings and text

    The part of [core::str], [core::num] and [alloc::fmt] the modelled crates use.
    A [&str] is a Rocq [string], one [ascii] per UTF-8 byte: [len], [==] and [Ord] of
    [str] are byte-wise in Rust too.  [trim] removes the code points of the Unicode
    property [White_Space] by matching their UTF-8 encodings, [utf8_lossy] is the
    replacement decoder of [String::from_utf8_lossy].  [str::to_lowercase] needs the
    Unicode case tables and is the class [ToLowercase], an argument of the definitions
    that use it. *)

From S2P Require Import Prelude.
From Stdlib Require Import Ascii.
Export Stdlib.Strings.Ascii (ascii(..), N_of_ascii, ascii_of_N).
Export (notations) Stdlib.Strings.Ascii.

Abbreviation bytes := (list ascii).

Definition code (c : ascii) : N := N_of_ascii c.
Definition to_bytes (s : string) : bytes := String.list_ascii_of_string s.
Definition of_bytes (l : bytes) : string := String.string_of_list_ascii l.

(** ** [str::is_empty], [str::starts_with(char)], [str::ends_with(char)] *)

Definition str_is_empty (s : string) : bool :=
  match s with EmptyString => true | String _ _ => false end.

Definition starts_with_char (c : ascii) (s : string) : bool :=
  match to_bytes s with d :: _ => bool_decide (c = d) | [] => false end.

Definition ends_with_char (c : ascii) (s : string) : bool :=
  match rev (to_bytes s) with d :: _ => bool_decide (c = d) | [] => false end.

(** ** [str::trim] *)

Definition in_range (lo hi n : N) : bool := (lo <=? n)%N && (n <=? hi)%N.

(** One-, two- and three-byte encodings of the [White_Space] code points: U+0009..U+000D,
    U+0020, U+0085, U+00A0, U+1680, U+2000..U+200A, U+2028, U+2029, U+202F, U+205F, U+3000. *)
Definition is_ws1 (a : ascii) : bool := in_range 9 13 (code a) || (code a =? 32)%N.
Definition is_ws2 (a b : ascii) : bool :=
  (code a =? 194)%N && ((code b =? 133)%N || (code b =? 160)%N).
Definition is_ws3 (a b c : ascii) : bool :=
  ((code a =? 225)%N && (code b =? 154)%N && (code c =? 128)%N)
  || ((code a =? 226)%N && (code b =? 128)%N
      && (in_range 128 138 (code c) || (code c =? 168)%N || (code c =? 169)%N || (code c =? 175)%N))
  || ((code a =? 226)%N && (code b =? 129)%N && (code c =? 159)%N)
  || ((code a =? 227)%N && (code b =? 128)%N && (code c =? 128)%N).

(** Strips one leading white-space character. *)
Definition ws_prefix (l : bytes) : option bytes :=
  match l with
  | a :: r =>
      if is_ws1 a then Some r else
      match r with
      | b :: r2 =>
          if is_ws2 a b then Some r2 else
          match r2 with
          | c :: r3 => if is_ws3 a b c then Some r3 else None
          | [] => None
          end
      | [] => None
      end
  | [] => None
  end.

(** Strips one trailing white-space character of a reversed text. *)
Definition ws_suffix (l : bytes) : option bytes :=
  match l with
  | a :: r =>
      if is_ws1 a then Some r else
      match r with
      | b :: r2 =>
          if is_ws2 b a then Some r2 else
          match r2 with
          | c :: r3 => if is_ws3 c b a then Some r3 else None
          | [] => None
          end
      | [] => None
      end
  | [] => None
  end.

(** Applies a stripping step until it fails; the length of the text is enough fuel. *)
Fixpoint strip (step : bytes -> option bytes) (fuel : nat) (l : bytes) : bytes :=
  match fuel with
  | O => l
  | S fuel => match step l with Some r => strip step fuel r | None => l end
  end.

Definition trim_bytes (l : bytes) : bytes :=
  let l := strip ws_prefix (length l) l in
  rev_append (strip ws_suffix (length l) (rev_append l [])) [].

Definition trim (s : string) : string := of_bytes (trim_bytes (to_bytes s)).

(** [!s.trim().is_empty()]. *)
Definition nonblank (s : string) : Prop := str_is_empty (trim s) = false.

(** ** [str::split], [str::lines], [str::split_terminator] *)

Fixpoint split_go (sep : ascii -> bool) (cur : bytes) (l : bytes) : list string :=
  match l with
  | [] => [of_bytes (rev cur)]
  | c :: r => if sep c then of_bytes (rev cur) :: split_go sep [] r
              else split_go sep (c :: cur) r
  end.

(** [s.split(pred)]: n separators give n + 1 pieces. *)
Definition split (sep : ascii -> bool) (s : string) : list string :=
  split_go sep [] (to_bytes s).

(** [s.split_once(c)]. *)
Fixpoint split_once_go (c : ascii) (cur l : bytes) : option (string * string) :=
  match l with
  | [] => None
  | d :: r => if bool_decide (c = d) then Some (of_bytes (rev cur), of_bytes r)
              else split_once_go c (d :: cur) r
  end.
Definition split_once (c : ascii) (s : string) : option (string * string) :=
  split_once_go c [] (to_bytes s).

Definition LF : ascii := ascii_of_N 10.
Definition CR : ascii := ascii_of_N 13.

(** A reversed line without the carriage return that precedes its line feed. *)
Definition strip_cr (cur : bytes) : bytes :=
  match cur with c :: r => if bool_decide (c = CR) then r else cur | [] => [] end.

Fixpoint lines_go (cur : bytes) (l : bytes) : list string :=
  match l with
  | [] => match cur with [] => [] | _ => [of_bytes (rev cur)] end
  | c :: r => if bool_decide (c = LF) then of_bytes (rev (strip_cr cur)) :: lines_go [] r
              else lines_go (c :: cur) r
  end.

Definition lines (s : string) : list string := lines_go [] (to_bytes s).

Fixpoint split_terminator_go (cur : bytes) (l : bytes) : list string :=
  match l with
  | [] => match cur with [] => [] | _ => [of_bytes (rev cur)] end
  | c :: r => if bool_decide (c = LF) then of_bytes (rev cur) :: split_terminator_go [] r
              else split_terminator_go (c :: cur) r
  end.

(** [s.split_terminator('\n')]. *)
Definition split_terminator (s : string) : list string := split_terminator_go [] (to_bytes s).

(** ** [str::to_ascii_lowercase], [str::eq_ignore_ascii_case], [str::to_lowercase] *)

Definition lower_byte (c : ascii) : ascii :=
  if in_range 65 90 (code c) then ascii_of_N (code c + 32) else c.
Definition to_ascii_lowercase (s : string) : string := of_bytes (map lower_byte (to_bytes s)).
Definition eq_ignore_ascii_case (a b : string) : bool :=
  bool_decide (to_ascii_lowercase a = to_ascii_lowercase b).

(** [str::to_lowercase]: the Unicode lower-case mapping. *)
Class ToLowercase := to_lowercase : string -> string.

(** What the callers rely on: the mapping produces the segment [..] only from itself (no
    code point has a full stop in its lower-case expansion but the full stop). *)
Class LowercaseLaws `{ToLowercase} : Prop := {
  lowercase_dotdot : forall s, to_lowercase s = ".." -> s = ".."
}.

(** The mapping on ASCII text. *)
Definition ascii_lowercase : ToLowercase := to_ascii_lowercase.

(** ** Integer parsing: [str::parse::<i64>], [str::parse::<u8>], [str::parse::<u64>] *)

Definition digit_value (c : ascii) : option Z :=
  if in_range 48 57 (code c) then Some (Z.of_N (code c) - 48)%Z else None.

Fixpoint parse_digits (acc : Z) (l : bytes) : option Z :=
  match l with
  | [] => Some acc
  | c :: r => match digit_value c with
              | Some d => parse_digits (acc * 10 + d) r
              | None => None
              end
  end.

(** At least one digit. *)
Definition parse_magnitude (l : bytes) : option Z :=
  match l with [] => None | _ => parse_digits 0 l end.

Definition parse_signed (lo hi : Z) (s : string) : option Z :=
  let checked z := if (lo <=? z)%Z && (z <=? hi)%Z then Some z else None in
  match to_bytes s with
  | c :: r =>
      if bool_decide (c = "+"%char) then z ← parse_magnitude r; checked z
      else if bool_decide (c = "-"%char) then z ← parse_magnitude r; checked (- z)%Z
      else z ← parse_magnitude (c :: r); checked z
  | [] => None
  end.

Definition parse_unsigned (hi : Z) (s : string) : option Z :=
  let checked z := if (z <=? hi)%Z then Some z else None in
  match to_bytes s with
  | c :: r =>
      if bool_decide (c = "+"%char) then z ← parse_magnitude r; checked z
      else z ← parse_magnitude (c :: r); checked z
  | [] => None
  end.

Definition parse_i64 : string -> option Z := parse_signed i64_min i64_max.
Definition parse_u8 : string -> option Z := parse_unsigned u8_max.
Definition parse_u64 : string -> option Z := parse_unsigned u64_max.

(** ** Integer formatting: [{}], [{:02}], [{:04}] *)

Definition digit_char (d : Z) : ascii := ascii_of_N (Z.to_N (d + 48)).

Fixpoint digits_go (fuel : nat) (z : Z) (acc : bytes) : bytes :=
  match fuel with
  | O => acc
  | S fuel =>
      let acc := digit_char (z mod 10) :: acc in
      if (z <? 10)%Z then acc else digits_go fuel (z / 10) acc
  end.

(** Decimal digits of a non-negative integer; a number has at most [log2 z + 1] of them. *)
Definition digits (z : Z) : bytes := digits_go (S (Z.to_nat (Z.log2 z))) z [].

Definition zero_pad (width : nat) (l : bytes) : bytes :=
  replicate (width - length l) "0"%char ++ l.

(** [{z:0width}]: zero padding is sign-aware. *)
Definition fmt_padded_bytes (width : nat) (z : Z) : bytes :=
  if (z <? 0)%Z then "-"%char :: zero_pad (width - 1) (digits (- z)) else zero_pad width (digits z).

Definition fmt_padded (width : nat) (z : Z) : string := of_bytes (fmt_padded_bytes width z).

(** [{z}]. *)
Definition fmt_int (z : Z) : string := fmt_padded 0 z.
Definition fmt_nat (n : nat) : string := fmt_int (Z.of_nat n).
Definition fmt_bool (b : bool) : string := if b then "true" else "false".

(** [char::is_ascii_digit] and [char::is_ascii_alphanumeric]. *)
Definition is_ascii_digit (c : ascii) : bool := in_range 48 57 (code c).
Definition is_ascii_alphanumeric (c : ascii) : bool :=
  is_ascii_digit c || in_range 65 90 (code c) || in_range 97 122 (code c).

(** ** [String::from_utf8_lossy], [str::from_utf8] *)

Definition is_cont (c : ascii) : bool := in_range 128 191 (code c).
Definition nth_code (l : bytes) (i : nat) : N := default 0%N (code <$> l !! i).
Definition is_cont_at (l : bytes) (i : nat) : bool := in_range 128 191 (nth_code l i).

(** The first character of a non-empty text: whether it is well formed, and the number of
    bytes the decoder consumes for it. *)
Definition utf8_first (l : bytes) : bool * nat :=
  let a := nth_code l 0 in
  let b := nth_code l 1 in
  if (a <? 128)%N then (true, 1)
  else if in_range 194 223 a then (if is_cont_at l 1 then (true, 2) else (false, 1))
  else if in_range 224 239 a then
    if ((a =? 224)%N && in_range 160 191 b) || (in_range 225 236 a && in_range 128 191 b)
       || ((a =? 237)%N && in_range 128 159 b) || (in_range 238 239 a && in_range 128 191 b)
    then (if is_cont_at l 2 then (true, 3) else (false, 2)) else (false, 1)
  else if in_range 240 244 a then
    if ((a =? 240)%N && in_range 144 191 b) || (in_range 241 243 a && in_range 128 191 b)
       || ((a =? 244)%N && in_range 128 143 b)
    then (if is_cont_at l 2 then (if is_cont_at l 3 then (true, 4) else (false, 3)) else (false, 2))
    else (false, 1)
  else (false, 1).

(** U+FFFD. *)
Definition replacement : bytes := [ascii_of_N 239; ascii_of_N 191; ascii_of_N 189].

Fixpoint utf8_lossy_go (fuel : nat) (l : bytes) : bytes :=
  match fuel, l with
  | O, _ | _, [] => []
  | S fuel, _ =>
      let (ok, n) := utf8_first l in
      (if ok then take n l else replacement) ++ utf8_lossy_go fuel (drop n l)
  end.

Definition from_utf8_lossy (l : bytes) : string := of_bytes (utf8_lossy_go (length l) l).

(** [Utf8Error::valid_up_to], or [None] for a well-formed text. *)
Fixpoint utf8_error_go (fuel : nat) (pos : nat) (l : bytes) : option nat :=
  match fuel, l with
  | O, _ | _, [] => None
  | S fuel, _ =>
      let (ok, n) := utf8_first l in
      if ok then utf8_error_go fuel (pos + n) (drop n l) else Some pos
  end.

Definition utf8_error (l : bytes) : option nat := utf8_error_go (length l) 0 l.

(** ** Lemmas: bytes and strings *)

Lemma to_of_bytes l : to_bytes (of_bytes l) = l.
Proof. apply String.list_ascii_of_string_of_list_ascii. Qed.

Lemma of_to_bytes s : of_bytes (to_bytes s) = s.
Proof. apply String.string_of_list_ascii_of_string. Qed.

Lemma of_bytes_inj l k : of_bytes l = of_bytes k -> l = k.
Proof. intros H. by rewrite <- (to_of_bytes l), H, to_of_bytes. Qed.

Lemma to_bytes_app s t : to_bytes (s +:+ t) = to_bytes s ++ to_bytes t.
Proof.
  induction s as [|c s IH]; [done|].
  change (c :: to_bytes (s +:+ t) = c :: (to_bytes s ++ to_bytes t)). by rewrite IH.
Qed.

Lemma of_bytes_app l k : of_bytes (l ++ k) = of_bytes l +:+ of_bytes k.
Proof. by rewrite <- (of_to_bytes (_ +:+ _)), to_bytes_app, !to_of_bytes. Qed.

Lemma of_bytes_cons c l : of_bytes (c :: l) = String c "" +:+ of_bytes l.
Proof. reflexivity. Qed.

(** ** Lemmas: [trim] *)

(** A byte that can neither be nor begin nor end a white-space character. *)
Definition solid (c : ascii) : bool := (code c <? 128)%N && negb (is_ws1 c).

Lemma ws_prefix_solid c l : solid c = true -> ws_prefix (c :: l) = None.
Proof.
  unfold solid. intros H. apply andb_true_iff in H as [H1 H2].
  apply negb_true_iff in H2. apply N.ltb_lt in H1.
  assert (is_ws2 c = fun _ => false) as E2.
  { unfold is_ws2. destruct (N.eqb_spec (code c) 194); [lia | done]. }
  assert (is_ws3 c = fun _ _ => false) as E3.
  { unfold is_ws3. destruct (N.eqb_spec (code c) 225), (N.eqb_spec (code c) 226),
      (N.eqb_spec (code c) 227); [lia..| done]. }
  simpl. rewrite H2, E2, E3. by destruct l as [|? [|? ?]].
Qed.

Lemma ws_suffix_solid c l : solid c = true -> ws_suffix (c :: l) = None.
Proof.
  unfold solid. intros H. apply andb_true_iff in H as [H1 H2].
  apply negb_true_iff in H2. apply N.ltb_lt in H1.
  assert (forall b, is_ws2 b c = false) as E2.
  { intros b. unfold is_ws2. destruct (N.eqb_spec (code c) 133), (N.eqb_spec (code c) 160);
      [lia..|apply andb_false_r]. }
  assert (forall a b, is_ws3 a b c = false) as E3.
  { intros a b. unfold is_ws3, in_range.
    destruct (N.leb_spec 128 (code c)); [lia|].
    destruct (N.eqb_spec (code c) 128), (N.eqb_spec (code c) 168), (N.eqb_spec (code c) 169),
      (N.eqb_spec (code c) 175), (N.eqb_spec (code c) 159); lia. }
  simpl. rewrite H2. destruct l as [|b [|a l]]; rewrite ?E2, ?E3; done.
Qed.

#[global] Arguments ws_prefix : simpl never.
#[global] Arguments ws_suffix : simpl never.

Lemma trim_bytes_rev l :
  trim_bytes l = rev (strip ws_suffix (length (strip ws_prefix (length l) l)) (rev (strip ws_prefix (length l) l))).
Proof. unfold trim_bytes. by rewrite <- !rev_alt. Qed.

(** A text whose first and last bytes are solid is not changed by [trim]. *)
Lemma trim_bytes_solid (l : bytes) c d :
  head l = Some c -> last l = Some d -> solid c = true -> solid d = true -> trim_bytes l = l.
Proof.
  intros Hc Hd Sc Sd. rewrite trim_bytes_rev.
  assert (strip ws_prefix (length l) l = l) as ->.
  { destruct l as [|x l]; [done|]. simplify_eq/=. by rewrite (ws_prefix_solid c). }
  assert (strip ws_suffix (length l) (rev l) = rev l) as ->; [|apply rev_involutive].
  apply last_Some in Hd as [l' ->]. rewrite rev_app_distr, length_app, Nat.add_comm. simpl.
  by rewrite ws_suffix_solid.
Qed.

Lemma trim_of_bytes l : trim (of_bytes l) = of_bytes (trim_bytes l).
Proof. unfold trim. by rewrite to_of_bytes. Qed.

(** ** Lemmas: [lines] and [split_terminator] of newline-terminated records *)

Lemma lines_go_record (r : bytes) cur k :
  LF ∉ r -> last (rev cur ++ r) ≠ Some CR ->
  lines_go cur (r ++ LF :: k) = of_bytes (rev cur ++ r) :: lines_go [] k.
Proof.
  revert cur. induction r as [|c r IH]; intros cur Hr Hl; simpl.
  - rewrite app_nil_r in *. assert (strip_cr cur = cur) as ->; [|done].
    destruct cur as [|c cur]; [done|]. simpl in *. rewrite last_snoc in Hl.
    by rewrite bool_decide_eq_false_2 by congruence.
  - apply not_elem_of_cons in Hr as [Hc Hr]. rewrite bool_decide_eq_false_2 by congruence.
    rewrite IH; cbn; rewrite <- ?app_assoc; done.
Qed.

Lemma split_terminator_go_record (r : bytes) cur k :
  LF ∉ r ->
  split_terminator_go cur (r ++ LF :: k) = of_bytes (rev cur ++ r) :: split_terminator_go [] k.
Proof.
  revert cur. induction r as [|c r IH]; intros cur Hr; simpl.
  - by rewrite app_nil_r.
  - apply not_elem_of_cons in Hr as [Hc Hr]. rewrite bool_decide_eq_false_2 by congruence.
    rewrite IH; cbn; rewrite <- ?app_assoc; done.
Qed.

Lemma lines_go_tail (r : bytes) cur :
  LF ∉ r -> rev cur ++ r ≠ [] -> lines_go cur r = [of_bytes (rev cur ++ r)].
Proof.
  revert cur. induction r as [|c r IH]; intros cur Hr Hne; simpl.
  - rewrite app_nil_r in *. by destruct cur.
  - apply not_elem_of_cons in Hr as [Hc Hr]. rewrite bool_decide_eq_false_2 by congruence.
    rewrite IH; cbn; rewrite <- ?app_assoc; try done.
Qed.

(** ** Lemmas: UTF-8 *)

(** Well-formed UTF-8 text, character by character. *)
Inductive Utf8 : bytes -> Prop :=
| Utf8_nil : Utf8 []
| Utf8_char c r : c ≠ [] -> utf8_first (c ++ r) = (true, length c) -> Utf8 r -> Utf8 (c ++ r).

Ltac destr_ifs :=
  repeat match goal with
  | |- context [if ?b then _ else _] => destruct b eqn:?
  | H : context [if ?b then _ else _] |- _ => destruct b eqn:?
  end.

(** A complete character is read the same whatever follows it. *)
Lemma utf8_first_complete c r n :
  utf8_first (c ++ r) = (true, n) -> length c = n -> c ≠ [] -> forall k, utf8_first (c ++ k) = (true, n).
Proof.
  intros H Hn Hne k.
  destruct c as [|c0 [|c1 [|c2 [|c3 [|c4 c]]]]]; try done; subst n; revert H;
    unfold utf8_first, is_cont_at, nth_code; simpl; intros H; destr_ifs; congruence.
Qed.

Lemma utf8_first_ok l n :
  l ≠ [] -> utf8_first l = (true, n) -> 1 <= n <= length l.
Proof.
  destruct l as [|c0 [|c1 [|c2 [|c3 l]]]]; intros Hne; try done;
    unfold utf8_first, is_cont_at, nth_code; simpl; intros H; destr_ifs;
    simplify_eq; simpl; try lia; cbn in *; try discriminate.
  all: repeat rewrite andb_false_r in *; discriminate.
Qed.

Lemma Utf8_app l k : Utf8 l -> Utf8 k -> Utf8 (l ++ k).
Proof.
  induction 1 as [|c r Hc Hf _ IH]; intros Hk; [done|].
  rewrite <- app_assoc. constructor; [done| |by apply IH].
  by eapply utf8_first_complete.
Qed.

Lemma Utf8_ascii c : (code c <? 128)%N = true -> Utf8 [c].
Proof.
  intros H. change [c] with ([c] ++ []). constructor; [done| |constructor].
  unfold utf8_first, nth_code. simpl. by rewrite H.
Qed.

Lemma Utf8_lossy_go l fuel : Utf8 l -> length l <= fuel -> utf8_lossy_go fuel l = l.
Proof.
  intros H. revert fuel. induction H as [|c r Hc Hf Hr IH]; intros [|fuel] Hlen; try done.
  - rewrite length_app in Hlen. destruct c; simpl in *; [done|lia].
  - simpl. destruct (c ++ r) eqn:E; [done|]. rewrite <- E in *. rewrite Hf.
    rewrite take_app_length, drop_app_length. f_equal. apply IH.
    rewrite length_app in Hlen. destruct c; simpl in *; [done|lia].
Qed.

Lemma Utf8_from_lossy l : Utf8 l -> from_utf8_lossy l = of_bytes l.
Proof. intros H. unfold from_utf8_lossy. by rewrite Utf8_lossy_go. Qed.

Lemma Utf8_no_error_go l fuel pos : Utf8 l -> length l <= fuel -> utf8_error_go fuel pos l = None.
Proof.
  intros H. revert fuel pos. induction H as [|c r Hc Hf Hr IH]; intros [|fuel] pos Hlen; try done.
  simpl. destruct (c ++ r) eqn:E; [done|]. rewrite <- E in *. rewrite Hf.
  rewrite drop_app_length. apply IH. rewrite length_app in Hlen. destruct c; simpl in *; [done|lia].
Qed.

Lemma Utf8_no_error l : Utf8 l -> utf8_error l = None.
Proof. intros H. by apply Utf8_no_error_go. Qed.

Lemma Utf8_of_no_error l : utf8_error l = None -> Utf8 l.
Proof.
  unfold utf8_error. generalize 0 as pos. remember (length l) as fuel eqn:Hf.
  assert (length l <= fuel) as Hlen by lia. clear Hf. revert l Hlen.
  induction fuel as [|fuel IH]; intros l Hlen pos H.
  - destruct l; [constructor | simpl in *; lia].
  - destruct l as [|a l]; [constructor|]. remember (a :: l) as t eqn:Et.
    simpl in H. rewrite Et in H. rewrite <- Et in H.
    destruct (utf8_first t) as [[] n] eqn:E; [|done].
    assert (1 <= n <= length t) as Hn by (apply utf8_first_ok; [by subst | done]).
    rewrite <- (take_drop n t). constructor.
    + intros Ht. apply (f_equal length) in Ht. rewrite length_take in Ht. simpl in Ht. lia.
    + rewrite take_drop, length_take. rewrite E. f_equal. lia.
    + eapply IH; [|exact H]. rewrite length_drop. lia.
Qed.

(** ** Lemmas: lossy decoding of a text with a damaged tail *)

Lemma utf8_first_pos l : 1 <= snd (utf8_first l).
Proof. unfold utf8_first. destr_ifs; simpl; lia. Qed.

(** More fuel than bytes changes nothing. *)
Lemma utf8_lossy_fuel f g l : length l <= f -> length l <= g -> utf8_lossy_go f l = utf8_lossy_go g l.
Proof.
  revert g l. induction f as [|f IH]; intros g l Hf Hg.
  - destruct l; [by destruct g | simpl in *; lia].
  - destruct l as [|c l]; [by destruct g|]. destruct g as [|g]; [simpl in *; lia|].
    cbn [utf8_lossy_go]. pose proof (utf8_first_pos (c :: l)) as Hn.
    destruct (utf8_first (c :: l)) as [ok n]. f_equal. simpl in Hn.
    apply IH; rewrite length_drop; simpl in *; lia.
Qed.

Lemma utf8_lossy_app l k f : Utf8 l -> length (l ++ k) <= f ->
  utf8_lossy_go f (l ++ k) = l ++ utf8_lossy_go (length k) k.
Proof.
  intros Hl. revert f. induction Hl as [|c r Hc Hf Hr IH]; intros f Hlen.
  - by apply utf8_lossy_fuel.
  - rewrite <- app_assoc in *. rewrite length_app in Hlen.
    assert (0 < length c) as Hpos by (destruct c; [done | simpl; lia]).
    destruct f as [|f]; [lia|]. cbn [utf8_lossy_go]. destruct (c ++ r ++ k) eqn:E; [by destruct c|].
    rewrite <- E in *. rewrite (utf8_first_complete c r (length c) Hf eq_refl Hc (r ++ k)).
    rewrite take_app_length, drop_app_length, IH by lia. by rewrite app_assoc.
Qed.

Lemma from_utf8_lossy_app l k :
  Utf8 l -> to_bytes (from_utf8_lossy (l ++ k)) = l ++ to_bytes (from_utf8_lossy k).
Proof. intros Hl. unfold from_utf8_lossy. rewrite !to_of_bytes. by apply utf8_lossy_app. Qed.

(** The decoder adds no byte but those of the replacement character. *)
Lemma elem_of_lossy f l c : c ∈ utf8_lossy_go f l -> c ∈ l \/ c ∈ replacement.
Proof.
  revert l. induction f as [|f IH]; intros l; [intros H; by apply elem_of_nil in H|].
  destruct l as [|a l]; [intros H; by apply elem_of_nil in H|]. cbn [utf8_lossy_go].
  destruct (utf8_first (a :: l)) as [[] n]; rewrite elem_of_app; intros [H|H]; auto.
  - left. rewrite <- (take_drop n (a :: l)), elem_of_app. auto.
  - destruct (IH _ H) as [H'|]; [|auto]. left. rewrite <- (take_drop n (a :: l)), elem_of_app. auto.
  - destruct (IH _ H) as [H'|]; [|auto]. left. rewrite <- (take_drop n (a :: l)), elem_of_app. auto.
Qed.

Lemma lossy_no_LF l : LF ∉ l -> LF ∉ to_bytes (from_utf8_lossy l).
Proof.
  unfold from_utf8_lossy. rewrite to_of_bytes. intros Hl [H|H]%elem_of_lossy; [done|].
  revert H. apply (bool_decide_unpack (LF ∉ replacement)). by vm_compute.
Qed.

(** An ASCII first byte survives. *)
Lemma lossy_head c l : (code c <? 128)%N = true ->
  exists k, to_bytes (from_utf8_lossy (c :: l)) = c :: k.
Proof.
  intros Hc. change (c :: l) with ([c] ++ l). rewrite from_utf8_lossy_app by (by apply Utf8_ascii). by eexists.
Qed.

(** A byte below 128 ends whatever character precedes it: reading stops at the same place as at
    the end of the text. *)
Lemma utf8_first_ascii_tail x c k :
  x ≠ [] -> (code c <? 128)%N = true ->
  utf8_first (x ++ c :: k) = utf8_first x /\ snd (utf8_first x) <= length x.
Proof.
  intros Hx Hc. apply N.ltb_lt in Hc.
  assert (forall lo hi, (128 <= lo)%N -> in_range lo hi (code c) = false) as Hr.
  { intros lo hi Hlo. unfold in_range. apply andb_false_iff. left. apply N.leb_gt. lia. }
  destruct x as [|x0 [|x1 [|x2 [|x3 x]]]]; [done|..];
    unfold utf8_first, is_cont_at, nth_code; simpl; rewrite ?Hr by lia; cbn [in_range N.leb];
    rewrite ?andb_false_r; simpl; (split; [done | destr_ifs; simpl; lia]).
Qed.

Lemma utf8_lossy_app_ascii x c k f :
  (code c <? 128)%N = true -> length (x ++ c :: k) <= f ->
  utf8_lossy_go f (x ++ c :: k) = utf8_lossy_go (length x) x ++ utf8_lossy_go (length (c :: k)) (c :: k).
Proof.
  intros Hc. remember (length x) as n eqn:Hn. assert (length x <= n) as Hle by lia. clear Hn.
  revert x f Hle. induction n as [|n IH]; intros x f Hle Hf.
  - destruct x; [|simpl in *; lia]. apply utf8_lossy_fuel; [done | simpl; lia].
  - destruct x as [|a x]; [apply utf8_lossy_fuel; [done | simpl; lia]|].
    destruct (utf8_first_ascii_tail (a :: x) c k) as [Hs Hb]; [done|done|].
    pose proof (utf8_first_pos (a :: x)) as Hp. destruct f as [|f]; [simpl in *; lia|].
    cbn [app] in *. cbn [utf8_lossy_go]. rewrite Hs. destruct (utf8_first (a :: x)) as [ok m].
    simpl in Hb, Hp. change (a :: x ++ c :: k) with ((a :: x) ++ c :: k).
    rewrite take_app_le, drop_app_le by (simpl; lia). rewrite IH.
    + by rewrite app_assoc.
    + rewrite length_drop. simpl in *. lia.
    + rewrite length_app, length_drop. simpl in *. rewrite length_app in Hf. simpl in Hf. lia.
Qed.

Lemma lossy_app_ascii x c k :
  (code c <? 128)%N = true ->
  to_bytes (from_utf8_lossy (x ++ c :: k)) = to_bytes (from_utf8_lossy x) ++ to_bytes (from_utf8_lossy (c :: k)).
Proof. intros Hc. unfold from_utf8_lossy. rewrite !to_of_bytes. by apply utf8_lossy_app_ascii. Qed.

(** Trimming keeps a solid first byte. *)
Lemma ws_suffix_keeps r c x : solid c = true -> ws_suffix (r ++ [c]) = Some x -> exists r', x = r' ++ [c].
Proof.
  intros Hc Hx. pose proof Hc as Hs. unfold solid in Hs. apply andb_true_iff in Hs as [H1 H2].
  apply N.ltb_lt in H1. apply negb_true_iff in H2.
  destruct r as [|a [|b [|d r]]].
  - simpl in Hx. by rewrite ws_suffix_solid in Hx.
  - unfold ws_suffix in Hx. simpl in Hx. destruct (is_ws1 a); [simplify_eq; by exists []|].
    assert (is_ws2 c a = false) as E.
    { unfold is_ws2. destruct (N.eqb_spec (code c) 194); [lia|done]. }
    by rewrite E in Hx.
  - unfold ws_suffix in Hx. simpl in Hx. destruct (is_ws1 a); [simplify_eq; by exists [b]|].
    destruct (is_ws2 b a); [simplify_eq; by exists []|].
    assert (is_ws3 c b a = false) as E.
    { unfold is_ws3. destruct (N.eqb_spec (code c) 225), (N.eqb_spec (code c) 226), (N.eqb_spec (code c) 227);
        [lia..|done]. }
    by rewrite E in Hx.
  - unfold ws_suffix in Hx. simpl in Hx. destruct (is_ws1 a); [simplify_eq; by exists (b :: d :: r)|].
    destruct (is_ws2 b a); [simplify_eq; by exists (d :: r)|].
    destruct (is_ws3 d b a); [simplify_eq; by exists r | done].
Qed.

Lemma strip_suffix_keeps f r c : solid c = true -> exists r', strip ws_suffix f (r ++ [c]) = r' ++ [c].
Proof.
  intros Hc. revert r. induction f as [|f IH]; intros r; simpl; [by eexists|].
  destruct (ws_suffix (r ++ [c])) as [x|] eqn:E; [|by eexists].
  destruct (ws_suffix_keeps r c x Hc E) as [r' ->]. apply IH.
Qed.

Lemma trim_bytes_head c l : solid c = true -> exists l', trim_bytes (c :: l) = c :: l'.
Proof.
  intros Hc. rewrite trim_bytes_rev.
  assert (strip ws_prefix (length (c :: l)) (c :: l) = c :: l) as ->.
  { simpl. by rewrite (ws_prefix_solid c). }
  change (rev (c :: l)) with (rev l ++ [c]).
  destruct (strip_suffix_keeps (length (c :: l)) (rev l) c Hc) as [r' ->].
  rewrite rev_app_distr. by eexists.
Qed.
