(* ===== verification/BTree.v ===== *)
(** * Ordered collections

    [BTreeMap<String, V>] and [BTreeSet<String>] are stdpp's [gmap] and [gset]; what Rust
    adds is the iteration order, ascending in the byte order of [String], and
    [BTreeSet::pop_first].  [Vec::sort_by] (stable), [sort_unstable] on strings and
    [Vec::dedup] complete the file. *)

From S2P Require Import Prelude RustStr.

(** ** Iteration order *)

Definition sort_strings (l : list string) : list string := merge_sort String.le l.

(** [set.iter()]. *)
Definition set_iter (s : gset string) : list string := sort_strings (elements s).

(** [map.keys()], [map.values()], [map.iter()]. *)
Definition map_keys {V} (m : gmap string V) : list string := sort_strings ((map_to_list m).*1).
Definition map_values {V} (m : gmap string V) : list V := omap (fun k => m !! k) (map_keys m).

(** [set.pop_first()]. *)
Definition pop_first (s : gset string) : option (string * gset string) :=
  match set_iter s with
  | [] => None
  | x :: _ => Some (x, s ∖ {[x]})
  end.

(** [vec.dedup()]: drops consecutive repetitions. *)
Fixpoint dedup (l : list string) : list string :=
  match l with
  | x :: ((y :: _) as r) => if bool_decide (x = y) then dedup r else x :: dedup r
  | _ => l
  end.

(** [vec.sort_by(|a, b| key(a).cmp(key(b)))], stable. *)
Fixpoint insert_by {A} (key : A -> string) (x : A) (l : list A) : list A :=
  match l with
  | [] => [x]
  | y :: r => if String.leb (key x) (key y) then x :: y :: r else y :: insert_by key x r
  end.

Definition sort_by {A} (key : A -> string) (l : list A) : list A := foldr (insert_by key) [] l.

(** ** Lemmas *)

Lemma sort_strings_perm l : sort_strings l ≡ₚ l.
Proof. apply merge_sort_Permutation. Qed.

Lemma elem_of_sort_strings l x : x ∈ sort_strings l <-> x ∈ l.
Proof. by rewrite sort_strings_perm. Qed.

Lemma elem_of_set_iter s x : x ∈ set_iter s <-> x ∈ s.
Proof. unfold set_iter. by rewrite elem_of_sort_strings, elem_of_elements. Qed.

Lemma NoDup_set_iter s : NoDup (set_iter s).
Proof. unfold set_iter. rewrite sort_strings_perm. apply NoDup_elements. Qed.

Lemma length_set_iter s : length (set_iter s) = size s.
Proof. unfold set_iter. by rewrite sort_strings_perm. Qed.

Lemma set_iter_sorted s : Sorted String.le (set_iter s).
Proof. apply (Sorted_merge_sort String.le). Qed.

Lemma elem_of_map_keys {V} (m : gmap string V) k : k ∈ map_keys m <-> is_Some (m !! k).
Proof.
  unfold map_keys. rewrite elem_of_sort_strings, list_elem_of_fmap. split.
  - intros ([k' v] & -> & H%elem_of_map_to_list). eauto.
  - intros [v H]. exists (k, v). split; [done|]. by apply elem_of_map_to_list.
Qed.

Lemma NoDup_map_keys {V} (m : gmap string V) : NoDup (map_keys m).
Proof. unfold map_keys. rewrite sort_strings_perm. apply NoDup_fst_map_to_list. Qed.

Lemma elem_of_map_values {V} (m : gmap string V) v :
  v ∈ map_values m <-> exists k, m !! k = Some v.
Proof.
  unfold map_values. rewrite list_elem_of_omap. setoid_rewrite elem_of_map_keys. naive_solver.
Qed.

Lemma pop_first_None s : pop_first s = None <-> s = ∅.
Proof.
  unfold pop_first. split.
  - destruct (set_iter s) eqn:E; [|done]. intros _. apply set_eq. intros x.
    rewrite <- elem_of_set_iter, E. set_solver.
  - intros ->. unfold set_iter. by rewrite elements_empty.
Qed.

(** [pop_first] takes out an element, the least one. *)
Lemma pop_first_Some s x s' :
  pop_first s = Some (x, s') -> x ∈ s /\ s' = s ∖ {[x]} /\ forall y, y ∈ s -> String.le x y.
Proof.
  unfold pop_first. destruct (set_iter s) as [|z l] eqn:E; [done|]. intros H. simplify_eq.
  split; [apply elem_of_set_iter; rewrite E; set_solver|]. split; [done|].
  intros y Hy%elem_of_set_iter. pose proof (set_iter_sorted s) as Hs. rewrite E in *.
  apply Sorted_StronglySorted in Hs; [|apply _]. apply elem_of_cons in Hy as [->|Hy]; [done|].
  inversion Hs as [|? ? ? Hall]. by eapply Forall_forall in Hall.
Qed.

Lemma elem_of_dedup l x : x ∈ dedup l <-> x ∈ l.
Proof.
  induction l as [|y [|z r] IH]; [done..|].
  simpl dedup. case_bool_decide as E.
  - rewrite IH. subst z. rewrite !elem_of_cons. naive_solver.
  - rewrite !elem_of_cons, IH, !elem_of_cons. naive_solver.
Qed.

Lemma insert_by_perm {A} (key : A -> string) x l : insert_by key x l ≡ₚ x :: l.
Proof.
  induction l as [|y l IH]; [done|]. simpl. destruct (String.leb _ _); [done|].
  rewrite IH. apply Permutation_swap.
Qed.

Lemma sort_by_perm {A} (key : A -> string) l : sort_by key l ≡ₚ l.
Proof. induction l as [|x l IH]; [done|]. simpl. by rewrite insert_by_perm, IH. Qed.

Definition key_le {A} (key : A -> string) (x y : A) : Prop := String.le (key x) (key y).

#[export] Instance key_le_trans {A} (key : A -> string) : Transitive (key_le key).
Proof. intros x y z. unfold key_le. apply transitivity. Qed.

Lemma leb_false_le s t : String.leb s t = false -> String.le t s.
Proof.
  intros H. destruct (String.leb_total s t) as [E|E]; [congruence|].
  unfold String.le. by rewrite E.
Qed.

Lemma insert_by_sorted {A} (key : A -> string) x l :
  Sorted (key_le key) l -> Sorted (key_le key) (insert_by key x l).
Proof.
  induction 1 as [|y l Hs IH Hd]; simpl; [repeat constructor|].
  destruct (String.leb (key x) (key y)) eqn:E.
  - constructor; [by constructor|]. constructor. unfold key_le, String.le. by rewrite E.
  - constructor; [done|]. apply leb_false_le in E.
    destruct l as [|z l]; simpl; [by constructor|].
    destruct (String.leb (key x) (key z)); constructor; [done|by inversion Hd].
Qed.

Lemma sort_by_sorted {A} (key : A -> string) l : Sorted (key_le key) (sort_by key l).
Proof. induction l; simpl; [constructor|]. by apply insert_by_sorted. Qed.

(** On a duplicate-free key the order is the only sorted one, so sorting forgets the order
    of the input. *)
Lemma sort_by_unique {A} (key : A -> string) (l k : list A) :
  NoDup (key <$> l) -> l ≡ₚ k -> sort_by key l = sort_by key k.
Proof.
  intros Hnd Hp.
  assert (NoDup (key <$> sort_by key l)) as Hs by (by rewrite sort_by_perm).
  assert (sort_by key l ≡ₚ sort_by key k) as Hp'.
  { by rewrite !sort_by_perm. }
  eapply (Sorted_unique_strong (key_le key)); [|apply sort_by_sorted..|done].
  intros x y Hx Hy Hxy Hyx.
  assert (key x = key y) as E by (by apply (anti_symm String.le)).
  assert (y ∈ sort_by key l) as Hy' by (by rewrite Hp').
  apply list_elem_of_lookup in Hx as [i Hi]. apply list_elem_of_lookup in Hy' as [j Hj].
  assert (i = j) as ->; [|congruence].
  apply (NoDup_lookup _ i j (key y) Hs); rewrite list_lookup_fmap; [rewrite Hi|rewrite Hj]; cbn; congruence.
Qed.

#[export] Hint Resolve NoDup_set_iter NoDup_map_keys set_iter_sorted : forge.

(** Iteration order depends on the keys alone. *)
Lemma sort_strings_unique l k : l ≡ₚ k -> sort_strings l = sort_strings k.
Proof.
  intros Hp. apply (Sorted_unique String.le).
  - apply (Sorted_merge_sort String.le).
  - apply (Sorted_merge_sort String.le).
  - by rewrite !sort_strings_perm.
Qed.

Lemma map_keys_fmap {A B} (f : A -> B) (m : gmap string A) : map_keys (f <$> m) = map_keys m.
Proof.
  apply sort_strings_unique. rewrite map_to_list_fmap, <- list_fmap_compose. by apply Permutation_refl'.
Qed.

Lemma map_values_fmap {A B} (f : A -> B) (m : gmap string A) : map_values (f <$> m) = map f (map_values m).
Proof.
  unfold map_values. rewrite map_keys_fmap. induction (map_keys m) as [|k l IH]; simpl; [done|].
  rewrite lookup_fmap. destruct (m !! k); simpl; [f_equal|]; exact IH.
Qed.

Lemma length_omap_le {A B} (f : A -> option B) (l : list A) : length (omap f l) <= length l.
Proof. induction l as [|x l IH]; [done|]. cbn. destruct (f x); cbn in *; lia. Qed.

(** Lookups after an update, by case on the key. *)
Lemma lookup_insert_if {V} (m : gmap string V) k p j : <[k := p]> m !! j = if decide (j = k) then Some p else m !! j.
Proof. destruct (decide (j = k)) as [->|]; [by rewrite lookup_insert_eq | by rewrite lookup_insert_ne]. Qed.

Lemma lookup_delete_if {V} (m : gmap string V) k j : delete k m !! j = if decide (j = k) then None else m !! j.
Proof. destruct (decide (j = k)) as [->|]; [by rewrite lookup_delete_eq | by rewrite lookup_delete_ne]. Qed.
