(* ===== verification/Traversal.v ===== *)
(** * Walks in finite relations

    What the graph algorithms of several components share: a finite set in which everyone has a
    predecessor contains a cycle, and a list that puts predecessors first rules cycles out. *)

From S2P Require Import Prelude RustStr BTree.

(** ** Finite acyclic relations have sources *)

Lemma iterate_path (R : string -> string -> Prop) (p : string -> string) (s : gset string) y :
  (forall z, z ∈ s -> p z ∈ s /\ R (p z) z) -> y ∈ s ->
  forall i d, tc R (Nat.iter (i + S d) p y) (Nat.iter i p y).
Proof.
  intros Hp Hy.
  assert (forall i, Nat.iter i p y ∈ s) as Hin by (induction i; simpl; [done | by apply Hp]).
  intros i d. induction d as [|d IH].
  - rewrite Nat.add_1_r. simpl. apply tc_once. by apply Hp.
  - rewrite Nat.add_succ_r. simpl. eapply tc_l; [|exact IH]. by apply Hp.
Qed.

Lemma acyclic_no_trap (R : string -> string -> Prop) (p : string -> string) (s : gset string) :
  (forall x, ~ tc R x x) -> (forall z, z ∈ s -> p z ∈ s /\ R (p z) z) -> s ≡ ∅.
Proof.
  intros Hac Hp. destruct (set_choose_or_empty s) as [[y Hy]|]; [exfalso|done].
  assert (forall i, Nat.iter i p y ∈ s) as Hin by (induction i; simpl; [done | by apply Hp]).
  set (l := map (fun i => Nat.iter i p y) (seq 0 (S (size s)))).
  assert (NoDup l) as Hnd.
  { apply NoDup_fmap_2_strong; [|apply NoDup_seq]. intros i j _ _ E.
    destruct (lt_eq_lt_dec i j) as [[Hlt|]|Hlt]; [exfalso|done|exfalso].
    - apply (Hac (Nat.iter i p y)). rewrite E at 1. replace j with (i + S (j - S i)) by lia.
      by eapply iterate_path.
    - apply (Hac (Nat.iter j p y)). rewrite <- E at 1. replace i with (j + S (i - S j)) by lia.
      by eapply iterate_path. }
  assert (length l <= size s) as Hle.
  { rewrite <- (size_list_to_set l (C := gset string)) by done. apply subseteq_size. intros x.
    rewrite elem_of_list_to_set. unfold l. intros (i & -> & _)%map_In_iff. apply Hin. }
  unfold l in Hle. rewrite length_map, length_seq in Hle. lia.
Qed.

(** The predecessor may be any one, when the relation can be decided. *)
Lemma acyclic_no_trap_dec (R : string -> string -> Prop) `{forall x y, Decision (R x y)} (s : gset string) :
  (forall x, ~ tc R x x) -> (forall z, z ∈ s -> exists w, w ∈ s /\ R w z) -> s ≡ ∅.
Proof.
  intros Hac Hp.
  apply (acyclic_no_trap R (fun z => default z (head (elements (filter (fun w => R w z) s))))); [done|].
  intros z Hz. destruct (elements (filter (fun w => R w z) s)) as [|w l] eqn:E; simpl.
  - exfalso. apply elements_empty_iff in E. destruct (Hp z Hz) as (w & Hw & Hr).
    assert (w ∈ filter (fun w => R w z) s) as Hw' by (by apply elem_of_filter). rewrite E in Hw'. set_solver.
  - assert (w ∈ filter (fun w => R w z) s) as Hw by (apply elem_of_elements; rewrite E; by left).
    apply elem_of_filter in Hw. naive_solver.
Qed.

(** Predecessors of a listed element are listed before it. *)
Definition precedes (R : string -> string -> Prop) (order : list string) : Prop :=
  forall j x y, order !! j = Some y -> R x y -> exists i, i < j /\ order !! i = Some x.

Lemma precedes_tc R order x y :
  precedes R order -> tc R x y -> forall j, order !! j = Some y -> exists i, i < j /\ order !! i = Some x.
Proof.
  intros Hp. induction 1 as [x y Hxy|x y z Hxy _ IH]; intros j Hj; [by eapply Hp|].
  destruct (IH j Hj) as (i & Hi & Hy). destruct (Hp i x y Hy Hxy) as (k & Hk & Hx). exists k. split; [lia | done].
Qed.

Lemma precedes_acyclic R order x : precedes R order -> NoDup order -> x ∈ order -> ~ tc R x x.
Proof.
  intros Hp Hnd [j Hj]%list_elem_of_lookup Htc. destruct (precedes_tc R order x x Hp Htc j Hj) as (i & Hi & Hx).
  pose proof (NoDup_lookup _ _ _ _ Hnd Hx Hj). lia.
Qed.

Lemma precedes_snoc R order y :
  precedes R order -> (forall x, R x y -> x ∈ order) -> precedes R (order ++ [y]).
Proof.
  intros Hp Hy j x z Hj Hr. destruct (decide (j < length order)) as [Hl|Hl].
  - rewrite lookup_app_l in Hj by done. destruct (Hp j x z Hj Hr) as (i & Hi & Hx). exists i. split; [done|].
    rewrite lookup_app_l; [done | lia].
  - rewrite lookup_app_r in Hj by lia. destruct (j - length order) as [|n] eqn:En; simpl in Hj; [|by rewrite lookup_nil in Hj].
    simplify_eq. apply Hy in Hr as [i Hi]%list_elem_of_lookup. exists i. apply lookup_lt_Some in Hi as Hlt.
    split; [lia|]. by rewrite lookup_app_l.
Qed.
