(* ===== verification/Ordering.v ===== *)
(** * Sorting by a comparator

    [Vec::sort], [Vec::sort_by] with a chain of [then_with], and [Vec::dedup], for a comparator given
    as a boolean "not greater than".  The sort is stable, as the standard library's is. *)

From S2P Require Import Prelude RustStr BTree.

Local Open Scope Z_scope.

Section sort_with.
Context {A : Type} (le : A -> A -> bool).

Fixpoint insert_with (x : A) (l : list A) : list A :=
  match l with
  | [] => [x]
  | y :: r => if le x y then x :: y :: r else y :: insert_with x r
  end.

Definition sort_with (l : list A) : list A := foldr insert_with [] l.

Lemma insert_with_perm x l : insert_with x l ≡ₚ x :: l.
Proof.
  induction l as [|y l IH]; [done|]. simpl. destruct (le x y); [done|]. rewrite IH. apply Permutation_swap.
Qed.

Lemma sort_with_perm l : sort_with l ≡ₚ l.
Proof. induction l as [|x l IH]; [done|]. simpl. by rewrite insert_with_perm, IH. Qed.

Lemma elem_of_sort_with l x : x ∈ sort_with l <-> x ∈ l.
Proof. by rewrite sort_with_perm. Qed.

Lemma sort_with_nil l : sort_with l = [] <-> l = [].
Proof.
  split; [|by intros ->]. intros E. pose proof (sort_with_perm l) as Hp. rewrite E in Hp.
  by apply Permutation_nil_l in Hp.
Qed.

(** The comparator never answers that two elements are both greater than the other. *)
Definition total_le : Prop := forall x y, le x y = true \/ le y x = true.
Definition trans_le : Prop := forall x y z, le x y = true -> le y z = true -> le x z = true.

Definition Le (x y : A) : Prop := le x y = true.

Lemma insert_with_sorted x l : total_le -> Sorted Le l -> Sorted Le (insert_with x l).
Proof.
  intros Htot. induction 1 as [|y l Hs IH Hhd]; simpl; [by repeat constructor|].
  destruct (le x y) eqn:E; [by repeat constructor|].
  constructor; [done|]. destruct (Htot x y) as [?|Hyx]; [congruence|].
  destruct Hhd as [|z l Hz]; simpl; [by constructor|]. destruct (le x z); by constructor.
Qed.

Lemma sort_with_sorted l : total_le -> Sorted Le (sort_with l).
Proof. intros Htot. induction l as [|x l IH]; simpl; [constructor | by apply insert_with_sorted]. Qed.

Lemma sort_with_strongly_sorted l : total_le -> trans_le -> StronglySorted Le (sort_with l).
Proof. intros Htot Htr. apply Sorted_StronglySorted; [exact Htr | by apply sort_with_sorted]. Qed.

(** A list that is already in order is left alone. *)
Lemma sort_with_id l : Sorted Le l -> sort_with l = l.
Proof.
  induction 1 as [|x l Hs IH Hhd]; [done|]. simpl. rewrite IH. destruct Hhd as [|y l Hxy]; [done|].
  simpl. unfold Le in Hxy. by rewrite Hxy.
Qed.

End sort_with.

(** Compare by an integer first, then by the rest of the chain. *)
Definition le_then {A} (f : A -> Z) (le : A -> A -> bool) (x y : A) : bool :=
  if f x <? f y then true else if f x =? f y then le x y else false.

Definition le_string {A} (f : A -> string) (x y : A) : bool := String.leb (f x) (f y).

Lemma total_le_string {A} (f : A -> string) : total_le (le_string f).
Proof.
  intros x y. unfold le_string. destruct (String.leb (f x) (f y)) eqn:E; [by left|right].
  destruct (String.leb_total (f x) (f y)) as [H|H]; [congruence | done].
Qed.

Lemma string_leb_trans (a b c : string) : String.leb a b = true -> String.leb b c = true -> String.leb a c = true.
Proof.
  intros H1 H2. apply Is_true_true. apply (transitivity (R := String.le) (y := b)); by apply Is_true_true.
Qed.

Lemma trans_le_string {A} (f : A -> string) : trans_le (le_string f).
Proof. intros x y z. apply string_leb_trans. Qed.

Lemma total_le_then {A} (f : A -> Z) le : total_le le -> total_le (le_then f le).
Proof.
  intros Ht x y. unfold le_then. destruct (Z.ltb_spec (f x) (f y)); [by left|].
  destruct (Z.ltb_spec (f y) (f x)); [by right|].
  destruct (Z.eqb_spec (f x) (f y)); [|lia]. destruct (Z.eqb_spec (f y) (f x)); [apply Ht | lia].
Qed.

Lemma trans_le_then {A} (f : A -> Z) le : trans_le le -> trans_le (le_then f le).
Proof.
  intros Ht x y z. unfold le_then.
  destruct (Z.ltb_spec (f x) (f y)), (Z.ltb_spec (f y) (f z)), (Z.ltb_spec (f x) (f z)),
    (Z.eqb_spec (f x) (f y)), (Z.eqb_spec (f y) (f z)), (Z.eqb_spec (f x) (f z)); try lia; try done. apply Ht.
Qed.

#[export] Hint Resolve total_le_string trans_le_string total_le_then trans_le_then : forge.

(** [vec.dedup()]: drops consecutive repetitions. *)
Fixpoint vec_dedup {A} `{EqDecision A} (l : list A) : list A :=
  match l with
  | x :: ((y :: _) as r) => if bool_decide (x = y) then vec_dedup r else x :: vec_dedup r
  | _ => l
  end.

Lemma vec_dedup_cons2 {A} `{EqDecision A} (x y : A) r :
  vec_dedup (x :: y :: r) = if bool_decide (x = y) then vec_dedup (y :: r) else x :: vec_dedup (y :: r).
Proof. reflexivity. Qed.

Lemma elem_of_vec_dedup {A} `{EqDecision A} (l : list A) x : x ∈ vec_dedup l <-> x ∈ l.
Proof.
  induction l as [|y [|z r] IH]; [done..|]. rewrite vec_dedup_cons2. case_bool_decide as E.
  - rewrite IH. subst z. rewrite !elem_of_cons. naive_solver.
  - rewrite !elem_of_cons, IH, !elem_of_cons. naive_solver.
Qed.

Lemma vec_dedup_nil {A} `{EqDecision A} (l : list A) : vec_dedup l = [] <-> l = [].
Proof.
  split; [|by intros ->]. intros E. destruct l as [|x l]; [done|].
  assert (x ∈ vec_dedup (x :: l)) as Hx by (apply elem_of_vec_dedup; by left). rewrite E in Hx. by apply elem_of_nil in Hx.
Qed.

(** On a list sorted by an antisymmetric comparator no repetition is left. *)
Lemma NoDup_vec_dedup {A} `{EqDecision A} (le : A -> A -> bool) (l : list A) :
  (forall x y, le x y = true -> le y x = true -> x = y) -> StronglySorted (Le le) l -> NoDup (vec_dedup l).
Proof.
  intros Hanti. induction 1 as [|x l Hs IH Hall]; [constructor|]. destruct l as [|y r]; [simpl; apply NoDup_singleton|].
  rewrite vec_dedup_cons2. case_bool_decide as E; [exact IH|]. constructor; [|exact IH].
  rewrite elem_of_vec_dedup, elem_of_cons. intros [?|Hin]; [done|]. apply E. apply Hanti.
  - by inversion Hall.
  - inversion Hs as [|? ? ? Hy]. by apply (proj1 (Forall_forall _ _) Hy).
Qed.

(** ** Comparators

    [sort_by] takes a function to [std::cmp::Ordering]; chains are built with [then_with], keys with
    [cmp] on the key.  A comparator is lawful when it is antisymmetric and its "not greater than" is
    transitive, which is what [sort_by] asks for. *)

Section comparators.
Context {A : Type}.
Implicit Types c d : A -> A -> comparison.

Definition then_with c d (x y : A) : comparison :=
  match c x y with Eq => d x y | o => o end.

(** [reverse]: compare right to left. *)
Definition rev_cmp c (x y : A) : comparison := c y x.

(** [left.key.cmp(&right.key)]. *)
Definition cmp_on {B} (key : A -> B) (e : B -> B -> comparison) (x y : A) : comparison := e (key x) (key y).

Definition le_of c (x y : A) : bool := match c x y with Gt => false | _ => true end.

Record lawful_cmp c : Prop := {
  cmp_antisym x y : c y x = CompOpp (c x y);
  cmp_trans x y z : c x y <> Gt -> c y z <> Gt -> c x z <> Gt
}.

Lemma lawful_total c : lawful_cmp c -> total_le (le_of c).
Proof. intros [Ha _] x y. unfold le_of. rewrite (Ha x y). destruct (c x y); auto. Qed.

Lemma lawful_trans c : lawful_cmp c -> trans_le (le_of c).
Proof.
  intros [_ Ht] x y z. unfold le_of. specialize (Ht x y z). destruct (c x y), (c y z), (c x z); try done; intros _ _;
    by destruct Ht.
Qed.

(** A chain of two steps, one of them strict, is strict. *)
Lemma lawful_lt c x y z : lawful_cmp c -> c x y <> Gt -> c y z <> Gt -> c x z = Eq -> c x y = Eq /\ c y z = Eq.
Proof.
  intros [Ha Ht] H1 H2 E. assert (c z x <> Gt) as H3 by (rewrite (Ha x z), E; done).
  split.
  - specialize (Ht y z x H2 H3). rewrite (Ha x y) in Ht. by destruct (c x y).
  - specialize (Ht z x y H3 H1). rewrite (Ha y z) in Ht. by destruct (c y z).
Qed.

Lemma lawful_eq_l c x y z : lawful_cmp c -> c x y = Eq -> c y z = Eq -> c x z = Eq.
Proof.
  intros [Ha Ht] E1 E2. pose proof (Ht x y z) as H1. pose proof (Ht z y x) as H2. rewrite (Ha y z), (Ha x y), (Ha x z), E1, E2 in H2.
  rewrite E1, E2 in H1. destruct (c x z); [done| |]; [by destruct H2 | by destruct H1].
Qed.

Lemma lawful_then c d : lawful_cmp c -> lawful_cmp d -> lawful_cmp (then_with c d).
Proof.
  intros Hc Hd. unfold then_with. split.
  - intros x y. rewrite (cmp_antisym c Hc x y). destruct (c x y); simpl; [apply Hd | done..].
  - intros x y z H1 H2.
    assert (c x y <> Gt) as C1 by (by destruct (c x y)). assert (c y z <> Gt) as C2 by (by destruct (c y z)).
    pose proof (cmp_trans c Hc x y z C1 C2) as C3. destruct (c x z) eqn:E; [|done|done].
    destruct (lawful_lt c x y z Hc C1 C2 E) as [E1 E2]. rewrite E1 in H1. rewrite E2 in H2. by eapply cmp_trans.
Qed.

Lemma lawful_rev c : lawful_cmp c -> lawful_cmp (rev_cmp c).
Proof.
  intros [Ha Ht]. unfold rev_cmp. split; [intros x y; apply Ha|]. intros x y z H1 H2. by apply (Ht z y x).
Qed.

Lemma lawful_on {B} (key : A -> B) e :
  (forall x y, e y x = CompOpp (e x y)) -> (forall x y z, e x y <> Gt -> e y z <> Gt -> e x z <> Gt) ->
  lawful_cmp (cmp_on key e).
Proof. intros Ha Ht. unfold cmp_on. split; [intros; apply Ha | intros x y z; apply Ht]. Qed.

End comparators.

Lemma string_cmp_trans (a b c : string) : String.compare a b <> Gt -> String.compare b c <> Gt -> String.compare a c <> Gt.
Proof.
  intros H1 H2. assert (String.leb a c = true) as H.
  { apply (string_leb_trans a b c); unfold String.leb; [by destruct (String.compare a b) | by destruct (String.compare b c)]. }
  unfold String.leb in H. by destruct (String.compare a c).
Qed.

Lemma lawful_string {A} (key : A -> string) : lawful_cmp (cmp_on key String.compare).
Proof. apply lawful_on; [intros; apply String.compare_antisym | apply string_cmp_trans]. Qed.

Lemma lawful_Z {A} (key : A -> Z) : lawful_cmp (cmp_on key Z.compare).
Proof. apply lawful_on; [intros; apply Z.compare_antisym | intros x y z; rewrite !Z.compare_ngt_iff; lia]. Qed.

(** [bool::cmp]: [false] is less than [true]. *)
Definition bool_cmp (a b : bool) : comparison :=
  match a, b with false, true => Lt | true, false => Gt | _, _ => Eq end.

Lemma lawful_bool {A} (key : A -> bool) : lawful_cmp (cmp_on key bool_cmp).
Proof. apply lawful_on; [by intros [] [] | by intros [] [] []]. Qed.

(** [Option<String>::cmp]: [None] comes first. *)
Definition option_string_cmp (a b : option string) : comparison :=
  match a, b with
  | None, None => Eq
  | None, Some _ => Lt
  | Some _, None => Gt
  | Some x, Some y => String.compare x y
  end.

Lemma lawful_option_string {A} (key : A -> option string) : lawful_cmp (cmp_on key option_string_cmp).
Proof.
  apply lawful_on.
  - intros [] []; try done. apply String.compare_antisym.
  - intros [] [] []; try done. apply string_cmp_trans.
Qed.

#[export] Hint Resolve lawful_then lawful_rev lawful_string lawful_Z lawful_bool lawful_option_string
  lawful_total lawful_trans : forge.
