(* ===== verification/Contracts.v ===== *)
(** * Contract data: identifiers, claims, governance

    The structs and enums of [forge-core-contracts] that the claim engine, the write gate
    and the event ledgers pass around ([common.rs], [claim.rs], [governance.rs], [gate.rs],
    [tool_effect.rs]).  Identifiers are newtypes here as they are there, so that a scope id
    and a claim id cannot be compared.  [Enum::Variant] is written [Enum_Variant], a struct
    field carries the initials of its struct. *)

From S2P Require Import Prelude RustStr.

(** ** Identifiers ([common.rs]) *)

Record StableId := mk_StableId { StableId_0 : string }.
Record ScopeId := mk_ScopeId { ScopeId_0 : string }.
Record ClaimId := mk_ClaimId { ClaimId_0 : string }.
Record PrincipalId := mk_PrincipalId { PrincipalId_0 : string }.
Record SourceId := mk_SourceId { SourceId_0 : string }.
Record RepoPath := mk_RepoPath { RepoPath_0 : string }.

#[export] Instance StableId_eq_dec : EqDecision StableId.
Proof. solve_decision. Defined.
#[export] Instance ScopeId_eq_dec : EqDecision ScopeId.
Proof. solve_decision. Defined.
#[export] Instance ClaimId_eq_dec : EqDecision ClaimId.
Proof. solve_decision. Defined.
#[export] Instance PrincipalId_eq_dec : EqDecision PrincipalId.
Proof. solve_decision. Defined.
#[export] Instance SourceId_eq_dec : EqDecision SourceId.
Proof. solve_decision. Defined.
#[export] Instance RepoPath_eq_dec : EqDecision RepoPath.
Proof. solve_decision. Defined.

Definition is_ascii_lowercase (c : ascii) : bool := in_range 97 122 (code c).

Definition stable_id_byte (index : nat) (byte : ascii) : bool :=
  is_ascii_lowercase byte
  || is_ascii_digit byte
  || (bool_decide (byte = "."%char) || bool_decide (byte = "_"%char) || bool_decide (byte = "-"%char))
  || ((0 <? index) && bool_decide (byte = ":"%char)).

Definition is_valid_stable_id (stable_id : StableId) : bool :=
  let value := to_bytes (StableId_0 stable_id) in
  negb (str_is_empty (StableId_0 stable_id))
  && (length value <=? 128)
  && forallb (fun '(index, byte) => stable_id_byte index byte) (imap pair value).

(** ** Claims ([claim.rs]) *)

Inductive ClaimKind :=
| ClaimKind_Driver | ClaimKind_Lane | ClaimKind_Story | ClaimKind_ProductArea | ClaimKind_Integration.

Inductive ActorRole :=
| ActorRole_Driver | ActorRole_Worker | ActorRole_Human | ActorRole_Runtime | ActorRole_Unknown.

Inductive ClaimScopeKind :=
| ClaimScopeKind_Project | ClaimScopeKind_ProductArea | ClaimScopeKind_Story
| ClaimScopeKind_Lane | ClaimScopeKind_Integration | ClaimScopeKind_IntegrationState.

Inductive ClaimStatus :=
| ClaimStatus_Active | ClaimStatus_Stale | ClaimStatus_Expired
| ClaimStatus_HandoffRequired | ClaimStatus_HandoffRecorded | ClaimStatus_Released.

Inductive ExpiryAction :=
| ExpiryAction_RecordHandoffRequest | ExpiryAction_DriverReview
| ExpiryAction_HumanReview | ExpiryAction_BlockUntilRecovered.

Inductive ReclaimPolicy :=
| ReclaimPolicy_SameAgentOnly | ReclaimPolicy_DriverReview | ReclaimPolicy_OwnerReview
| ReclaimPolicy_HumanReview | ReclaimPolicy_Forbidden.

#[export] Instance ClaimKind_eq_dec : EqDecision ClaimKind.
Proof. solve_decision. Defined.
#[export] Instance ActorRole_eq_dec : EqDecision ActorRole.
Proof. solve_decision. Defined.
#[export] Instance ClaimScopeKind_eq_dec : EqDecision ClaimScopeKind.
Proof. solve_decision. Defined.
#[export] Instance ClaimStatus_eq_dec : EqDecision ClaimStatus.
Proof. solve_decision. Defined.
#[export] Instance ExpiryAction_eq_dec : EqDecision ExpiryAction.
Proof. solve_decision. Defined.
#[export] Instance ReclaimPolicy_eq_dec : EqDecision ReclaimPolicy.
Proof. solve_decision. Defined.

Record ClaimIdentity := {
  ci_kind : ClaimKind;
  ci_claimant_principal_id : option PrincipalId;
  ci_claimant_agent_id : StableId;
  ci_claimant_role : ActorRole;
  ci_registry_ref : option RepoPath
}.

Record ClaimScope := {
  cs_kind : ClaimScopeKind;
  cs_id : ScopeId;
  cs_product_area : option StableId;
  cs_paths : list RepoPath
}.

Record ClaimLease := {
  cl_acquired_at : string;
  cl_last_heartbeat_at : string;
  cl_expires_at : string;
  cl_ttl_seconds : Z;
  cl_heartbeat_interval_seconds : Z;
  cl_expected_state_version : Z
}.

Record ClaimStatusRecord := {
  csr_value : ClaimStatus;
  csr_evaluated_at : string;
  csr_reason_code : option StableId
}.

Record ExpiryPolicy := {
  ep_on_expiry : ExpiryAction;
  ep_handoff_required : bool;
  ep_release_without_handoff_allowed : bool;
  ep_reclaim_policy : ReclaimPolicy;
  ep_handoff_request_ref : option RepoPath
}.

Record ClaimContract := {
  cc_id : ClaimId;
  cc_contract_ref : RepoPath;
  cc_claim : ClaimIdentity;
  cc_scope : ClaimScope;
  cc_lease : ClaimLease;
  cc_status : ClaimStatusRecord;
  cc_expiry_policy : ExpiryPolicy;
  cc_evidence_refs : list string
}.

#[export] Instance ClaimIdentity_eq_dec : EqDecision ClaimIdentity.
Proof. solve_decision. Defined.
#[export] Instance ClaimScope_eq_dec : EqDecision ClaimScope.
Proof. solve_decision. Defined.
#[export] Instance ClaimLease_eq_dec : EqDecision ClaimLease.
Proof. solve_decision. Defined.
#[export] Instance ClaimStatusRecord_eq_dec : EqDecision ClaimStatusRecord.
Proof. solve_decision. Defined.
#[export] Instance ExpiryPolicy_eq_dec : EqDecision ExpiryPolicy.
Proof. solve_decision. Defined.
#[export] Instance ClaimContract_eq_dec : EqDecision ClaimContract.
Proof. solve_decision. Defined.

(** [next.status = ...], [next.lease = ...], [next.evidence_refs = ...] on a clone. *)
Definition set_status (st : ClaimStatusRecord) (c : ClaimContract) : ClaimContract :=
  {| cc_id := cc_id c; cc_contract_ref := cc_contract_ref c; cc_claim := cc_claim c;
     cc_scope := cc_scope c; cc_lease := cc_lease c; cc_status := st;
     cc_expiry_policy := cc_expiry_policy c; cc_evidence_refs := cc_evidence_refs c |}.

Definition set_lease (l : ClaimLease) (c : ClaimContract) : ClaimContract :=
  {| cc_id := cc_id c; cc_contract_ref := cc_contract_ref c; cc_claim := cc_claim c;
     cc_scope := cc_scope c; cc_lease := l; cc_status := cc_status c;
     cc_expiry_policy := cc_expiry_policy c; cc_evidence_refs := cc_evidence_refs c |}.

Definition set_evidence_refs (e : list string) (c : ClaimContract) : ClaimContract :=
  {| cc_id := cc_id c; cc_contract_ref := cc_contract_ref c; cc_claim := cc_claim c;
     cc_scope := cc_scope c; cc_lease := cc_lease c; cc_status := cc_status c;
     cc_expiry_policy := cc_expiry_policy c; cc_evidence_refs := e |}.

(** ** Multi-principal governance ([governance.rs]) *)

Inductive IntentScopeKind :=
| IntentScopeKind_Project | IntentScopeKind_Repo
| IntentScopeKind_PathPrefix | IntentScopeKind_MemoryEntry.

Record IntentScope := { is_kind : IntentScopeKind; is_target : StableId }.

Record IntentContract := {
  ic_intent_id : StableId;
  ic_principal : PrincipalId;
  ic_goal : string;
  ic_authority_scope : IntentScope;
  ic_expires_at : Z;
  ic_declared_at : Z
}.

Inductive ConflictDetectionReason :=
| ConflictDetectionReason_PathOverlap
| ConflictDetectionReason_AuthorityScopeOverlap
| ConflictDetectionReason_ConcurrentMutate.

Inductive ResolutionDecision :=
| ResolutionDecision_AwardedTo (principal : PrincipalId)
| ResolutionDecision_BothReleased
| ResolutionDecision_SplitScope.

Inductive ConflictResolutionState :=
| ConflictResolutionState_Pending
| ConflictResolutionState_Resolved (arbiter : PrincipalId) (decided_at : Z) (decision : ResolutionDecision)
| ConflictResolutionState_Escalated.

Record ConflictContract := {
  cf_conflict_id : StableId;
  cf_intent_a : StableId;
  cf_intent_b : StableId;
  cf_principal_a : PrincipalId;
  cf_principal_b : PrincipalId;
  cf_contested_scope : IntentScope;
  cf_detection_reason : ConflictDetectionReason;
  cf_detected_at : Z;
  cf_resolution : ConflictResolutionState
}.

Definition set_resolution (r : ConflictResolutionState) (c : ConflictContract) : ConflictContract :=
  {| cf_conflict_id := cf_conflict_id c; cf_intent_a := cf_intent_a c; cf_intent_b := cf_intent_b c;
     cf_principal_a := cf_principal_a c; cf_principal_b := cf_principal_b c;
     cf_contested_scope := cf_contested_scope c; cf_detection_reason := cf_detection_reason c;
     cf_detected_at := cf_detected_at c; cf_resolution := r |}.

Inductive ConflictPolicy :=
| ConflictPolicy_EmitContract
| ConflictPolicy_SilentLastWriterWins.

Definition ConflictPolicy_default : ConflictPolicy := ConflictPolicy_EmitContract.

Record GovernancePolicy := {
  gp_policy_id : StableId;
  gp_permitted_principals : list PrincipalId;
  gp_authorized_reviewers : list PrincipalId;
  gp_conflict_policy : ConflictPolicy
}.

Definition can_arbitrate (self : GovernancePolicy) (principal : PrincipalId) : bool :=
  existsb (fun p => bool_decide (p = principal)) (gp_authorized_reviewers self).

(** ** Gates and effects ([gate.rs], [tool_effect.rs]) *)

Inductive GateStatus :=
| GateStatus_Pass | GateStatus_Fail | GateStatus_Concerns | GateStatus_Missing | GateStatus_NotApplicable.

Inductive ConflictCode :=
| ConflictCode_ReadTargetChanged | ConflictCode_WriteTargetChanged | ConflictCode_WriteTargetClaimed
| ConflictCode_ExpectedStateVersionMismatch | ConflictCode_CompletionNowDone
| ConflictCode_PathOutsideScope | ConflictCode_OverlappingWriteSet
| ConflictCode_MissingInverseForDestructiveWrite.

#[export] Instance IntentScopeKind_eq_dec : EqDecision IntentScopeKind.
Proof. solve_decision. Defined.
#[export] Instance IntentScope_eq_dec : EqDecision IntentScope.
Proof. solve_decision. Defined.
#[export] Instance ConflictDetectionReason_eq_dec : EqDecision ConflictDetectionReason.
Proof. solve_decision. Defined.
#[export] Instance ResolutionDecision_eq_dec : EqDecision ResolutionDecision.
Proof. solve_decision. Defined.
#[export] Instance ConflictResolutionState_eq_dec : EqDecision ConflictResolutionState.
Proof. solve_decision. Defined.
#[export] Instance ConflictContract_eq_dec : EqDecision ConflictContract.
Proof. solve_decision. Defined.
#[export] Instance GateStatus_eq_dec : EqDecision GateStatus.
Proof. solve_decision. Defined.

(** ** Lemmas *)

(** The arbitration gate is exactly membership of the reviewer list, so an empty list denies
    everyone. *)
Lemma can_arbitrate_iff policy principal :
  can_arbitrate policy principal = true <-> principal ∈ gp_authorized_reviewers policy.
Proof.
  unfold can_arbitrate. rewrite existsb_In. split.
  - intros (p & Hp & ->%bool_decide_eq_true_1). done.
  - intros H. exists principal. split; [done|]. by apply bool_decide_eq_true_2.
Qed.
