(* ===== verification/OperationContracts.v ===== *)
(** * Operation, command, effect and gate contracts

    The structs and enums of [forge-core-contracts] that an operation is described with
    ([operation.rs], [command.rs], [tool_effect.rs], [gate.rs]), as plain data.  Names that another
    contract module also uses carry the name of their module. *)

From S2P Require Import Prelude RustStr Contracts.

(** ** Operations ([operation.rs]) *)

Inductive OperationSurface :=
| OperationSurface_CliJson | OperationSurface_Mcp | OperationSurface_Skill
| OperationSurface_App.

Inductive ForgeOperation :=
| ForgeOperation_Guide | ForgeOperation_Gate | ForgeOperation_ClaimLane
| ForgeOperation_RecordArtifact | ForgeOperation_RecordRequest.

Inductive OperationAutonomyMode :=
| OperationAutonomyMode_Observe | OperationAutonomyMode_Facilitate
| OperationAutonomyMode_Research | OperationAutonomyMode_Plan | OperationAutonomyMode_Execute
| OperationAutonomyMode_Repair | OperationAutonomyMode_GateReview
| OperationAutonomyMode_Diagnose.

Inductive NextActor :=
| NextActor_Human | NextActor_HostAgent | NextActor_ForgeCore.

Inductive HostAction :=
| HostAction_ShowStatus | HostAction_CallOperation | HostAction_RequestConfirmation.

Inductive MutationPolicy :=
| MutationPolicy_Allowed | MutationPolicy_Forbidden | MutationPolicy_RequiresReview.

Inductive OperationSideEffectPolicy :=
| OperationSideEffectPolicy_ReadOnly | OperationSideEffectPolicy_WriteProjectFiles
| OperationSideEffectPolicy_RunCommands | OperationSideEffectPolicy_Publish.

Inductive TargetKind :=
| TargetKind_None | TargetKind_Project | TargetKind_Story | TargetKind_Lane
| TargetKind_Artifact | TargetKind_IntegrationState.

Inductive CallerRole :=
| CallerRole_Human | CallerRole_Driver | CallerRole_Worker | CallerRole_Runtime
| CallerRole_Unknown.

Inductive ExecutionMode :=
| ExecutionMode_ObserveOnly | ExecutionMode_SingleStep | ExecutionMode_AutonomousSequence
| ExecutionMode_BoundedLoop.

Inductive RetryFailureAction :=
| RetryFailureAction_Stop | RetryFailureAction_RunGate | RetryFailureAction_RecordRequest
| RetryFailureAction_AskHuman.

Inductive HumanInputRequirement :=
| HumanInputRequirement_None | HumanInputRequirement_Checkpoint | HumanInputRequirement_Required.

Inductive PromptMode :=
| PromptMode_None | PromptMode_Status | PromptMode_Decision | PromptMode_Question.

Inductive OperationGateStatus :=
| OperationGateStatus_Pass | OperationGateStatus_Pending | OperationGateStatus_Blocked
| OperationGateStatus_Missing | OperationGateStatus_NotApplicable.

Inductive OperationGateScope :=
| OperationGateScope_Lane | OperationGateScope_ProductArea | OperationGateScope_Integration
| OperationGateScope_Destructive | OperationGateScope_Release | OperationGateScope_Authority.

Inductive OperationRiskBoundary :=
| OperationRiskBoundary_Destructive | OperationRiskBoundary_Release
| OperationRiskBoundary_Authority.

Record ProjectRef := {
  pr_root : RepoPath;
  pr_project_id : StableId;
  pr_state_version : Z
}.

Record OperationSource := {
  os_host : StableId;
  os_surface : OperationSurface;
  os_operation : ForgeOperation;
  os_human_input_digest : string
}.

Record AutonomyPolicy := {
  aup_mode : OperationAutonomyMode;
  aup_rationale : string
}.

Record Recommendation := {
  rec_next_actor : NextActor;
  rec_next_operation : option ForgeOperation;
  rec_host_action : HostAction;
  rec_phase : StableId;
  rec_workflow : StableId;
  rec_action : StableId
}.

Record AuthorityEvidence := {
  aev_kind : StableId;
  aev_reference : string
}.

Record AuthorityPolicy := {
  aut_mutation_policy : MutationPolicy;
  aut_side_effect_policy : OperationSideEffectPolicy;
  aut_authority_sources : list StableId;
  aut_authority_evidence : list AuthorityEvidence;
  aut_missing_authority : list StableId
}.

Record CoordinationTarget := {
  cot_kind : TargetKind;
  cot_id : option StableId;
  cot_product_area : option StableId;
  cot_paths : list RepoPath
}.

Record ConcurrencyScope := {
  con_expected_state_version : Z;
  con_agent_id : option StableId;
  con_caller_role : CallerRole;
  con_fleet_mode : bool;
  con_registry_ref : option RepoPath
}.

Record WriteAuthority := {
  wa_requires_driver_claim : bool;
  wa_requires_lane_claim : bool;
  wa_claim_contract_ref : option RepoPath
}.

Record CompletionScope := {
  cmp_must_check_completion : bool;
  cmp_completion_contract_ref : option RepoPath
}.

Record CoordinationScope := {
  cos_target : CoordinationTarget;
  cos_concurrency : ConcurrencyScope;
  cos_write_authority : WriteAuthority;
  cos_completion : CompletionScope
}.

Record RetryPolicy := {
  rtp_max_attempts : Z;
  rtp_on_failure : RetryFailureAction
}.

Record BranchPolicy := {
  brp_allowed_branches : list StableId;
  brp_default_branch : StableId
}.

Record ExecutionPolicy := {
  exp_mode : ExecutionMode;
  exp_max_steps : Z;
  exp_retry_policy : RetryPolicy;
  exp_branch_policy : BranchPolicy
}.

Record StopHandoff := {
  sth_next_actor : NextActor;
  sth_next_operation : option ForgeOperation;
  sth_host_action : HostAction
}.

Record StopPolicy := {
  stp_stop_when : list StableId;
  stp_on_stop : StopHandoff
}.

Record SideContractRef := {
  scr_reference : RepoPath
}.

Record HumanPrompt := {
  hpr_mode : PromptMode;
  hpr_text : string;
  hpr_options : list string
}.

Record HumanPolicy := {
  hup_input_requirement : HumanInputRequirement;
  hup_prompt : HumanPrompt;
  hup_tone_contract : StableId
}.

Record LoadSet := {
  lds_required : list RepoPath;
  lds_optional : list RepoPath
}.

Record RequiredGate := {
  rqg_scope : OperationGateScope;
  rqg_gate_contract_ref : RepoPath;
  rqg_reason : option string
}.

Record GatePolicy := {
  gap_required_before_mutation : list RequiredGate;
  gap_current_gate_status : OperationGateStatus;
  gap_gate_contract_refs : list RepoPath
}.

Record CommandRef := {
  cmr_id : StableId;
  cmr_required : bool
}.

Record OperationDiagnostics := {
  dia_warnings : list string;
  dia_errors : list string
}.

Record OperationContract := {
  oc_schema_version : string;
  oc_contract_id : StableId;
  oc_created_at : string;
  oc_project_ref : ProjectRef;
  oc_source : OperationSource;
  oc_autonomy : AutonomyPolicy;
  oc_recommendation : Recommendation;
  oc_authority : AuthorityPolicy;
  oc_coordination_scope : CoordinationScope;
  oc_execution_policy : ExecutionPolicy;
  oc_stop_policy : StopPolicy;
  oc_request : option SideContractRef;
  oc_decision_close : option SideContractRef;
  oc_runtime_handoff : option SideContractRef;
  oc_allowed_actions : list StableId;
  oc_forbidden_actions : list StableId;
  oc_human : HumanPolicy;
  oc_loads : LoadSet;
  oc_gates : GatePolicy;
  oc_stop_conditions : list StableId;
  oc_command_refs : list CommandRef;
  oc_effect_contract_refs : list RepoPath;
  oc_risk_boundaries : list OperationRiskBoundary;
  oc_diagnostics : OperationDiagnostics
}.

Record OperationContractDocument := {
  ocd_operation_contract : OperationContract
}.

(** ** Commands ([command.rs]) *)

Inductive CommandKind :=
| CommandKind_Test | CommandKind_Build | CommandKind_Lint | CommandKind_Format
| CommandKind_Smoke | CommandKind_Release.

Inductive CommandExecutor :=
| CommandExecutor_Cargo | CommandExecutor_Node | CommandExecutor_Bun
| CommandExecutor_Powershell | CommandExecutor_Sh | CommandExecutor_Git.

Inductive CwdPolicy :=
| CwdPolicy_ProjectRoot | CwdPolicy_RepoRoot | CwdPolicy_PackageRoot.

Inductive CommandSideEffectPolicy :=
| CommandSideEffectPolicy_ReadOnly | CommandSideEffectPolicy_WriteProjectFiles
| CommandSideEffectPolicy_Network | CommandSideEffectPolicy_Publish.

Inductive CommandPlatform :=
| CommandPlatform_Windows | CommandPlatform_Macos | CommandPlatform_Linux.

Inductive NetworkPolicy :=
| NetworkPolicy_Disabled | NetworkPolicy_Allowed | NetworkPolicy_Required.

Inductive OutputCapture :=
| OutputCapture_Summary | OutputCapture_Full | OutputCapture_Structured.

Inductive EnvInheritPolicy :=
| EnvInheritPolicy_Minimal | EnvInheritPolicy_None | EnvInheritPolicy_Project.

Record EnvPolicy := {
  env_inherit : EnvInheritPolicy;
  env_required : list string;
  env_forbidden : list string
}.

Record OutputPolicy := {
  out_capture : OutputCapture;
  out_max_bytes : Z
}.

Record CommandSafety := {
  saf_shell_string_allowed : bool;
  saf_writes_files : bool;
  saf_publishes : bool;
  saf_installs_packages : bool
}.

Record CommandContract := {
  cmd_id : StableId;
  cmd_contract_ref : RepoPath;
  cmd_kind : CommandKind;
  cmd_executor : CommandExecutor;
  cmd_args : list string;
  cmd_cwd_policy : CwdPolicy;
  cmd_side_effect_policy : CommandSideEffectPolicy;
  cmd_platforms : list CommandPlatform;
  cmd_timeout_ms : Z;
  cmd_env_policy : EnvPolicy;
  cmd_network_policy : NetworkPolicy;
  cmd_output_policy : OutputPolicy;
  cmd_authority_required : list StableId;
  cmd_safety : CommandSafety
}.

Record CommandContractDocument := {
  ccd_schema_version : string;
  ccd_command_contract : CommandContract
}.

(** ** Tool effects ([tool_effect.rs]) *)

Inductive EffectKind :=
| EffectKind_OperationTransaction | EffectKind_FileEdit | EffectKind_StateWrite
| EffectKind_ArtifactWrite | EffectKind_EvidenceAppend | EffectKind_RequestAppend
| EffectKind_CommandRun | EffectKind_GitStage.

Inductive EffectTargetKind :=
| EffectTargetKind_FilePath | EffectTargetKind_Glob | EffectTargetKind_StateKey
| EffectTargetKind_ArtifactId | EffectTargetKind_EvidenceId | EffectTargetKind_LedgerStream
| EffectTargetKind_RequestStream | EffectTargetKind_CompletionId.

Inductive AccessMode :=
| AccessMode_Read | AccessMode_Write | AccessMode_Append | AccessMode_Create | AccessMode_Delete.

Inductive EffectConflictPolicy :=
| EffectConflictPolicy_Allow | EffectConflictPolicy_Block | EffectConflictPolicy_NotifyAndRepair
| EffectConflictPolicy_DriverReview | EffectConflictPolicy_HumanReview.

Inductive RepairStrategy :=
| RepairStrategy_None | RepairStrategy_RebasePlan | RepairStrategy_RefreshReads
| RepairStrategy_RecordRequest | RepairStrategy_RunGate | RepairStrategy_AskHuman
| RepairStrategy_CompensateThenRetry.

Inductive InverseKind :=
| InverseKind_None | InverseKind_ExactRollback | InverseKind_LogicalCompensation
| InverseKind_RestoreSnapshot | InverseKind_AppendReversal | InverseKind_ManualRepair.

Inductive InverseSource :=
| InverseSource_Unavailable | InverseSource_ToolContract | InverseSource_McpAnnotation
| InverseSource_CommandContract | InverseSource_Snapshot | InverseSource_HumanApproval.

Record EffectActor := {
  ea_agent_id : StableId;
  ea_role : ActorRole
}.

Record EffectRead := {
  er_target_kind : EffectTargetKind;
  er_reference : string;
  er_expected_hash : option string;
  er_expected_version : option Z;
  er_required_for_plan : bool
}.

Record EffectWrite := {
  ew_target_kind : EffectTargetKind;
  ew_reference : string;
  ew_access_mode : AccessMode;
  ew_expected_hash : option string;
  ew_expected_version : option Z;
  ew_destructive : bool
}.

Record ConflictDetection := {
  cd_check_against : StableId;
  cd_granularity : StableId;
  cd_conflict_codes : list ConflictCode;
  cd_policy : EffectConflictPolicy
}.

Record EffectNotification := {
  en_required : bool;
  en_recipients : list StableId;
  en_request_contract_ref : option RepoPath
}.

Record InverseMetadata := {
  inv_kind : InverseKind;
  inv_source : InverseSource;
  inv_reference : option string;
  inv_input_mapping_refs : list string;
  inv_validation_gate_refs : list RepoPath;
  inv_review_required : bool
}.

Record EffectRepair := {
  erp_strategy : RepairStrategy;
  erp_automatic_repair_allowed : bool;
  erp_inverse_operation_ref : option string;
  erp_stop_if_inverse_missing : bool;
  erp_inverse : InverseMetadata
}.

Record ToolEffectContract := {
  te_id : StableId;
  te_contract_ref : RepoPath;
  te_effect_kind : EffectKind;
  te_operation_ref : StableId;
  te_actor : EffectActor;
  te_read_set : list EffectRead;
  te_write_set : list EffectWrite;
  te_conflict_detection : ConflictDetection;
  te_notification : EffectNotification;
  te_repair : EffectRepair
}.

Record ToolEffectContractDocument := {
  ted_schema_version : string;
  ted_tool_effect_contract : ToolEffectContract
}.

(** ** Gates ([gate.rs]) *)

Inductive GateScope :=
| GateScope_Lane | GateScope_ProductArea | GateScope_Integration | GateScope_Destructive
| GateScope_Release | GateScope_Authority.

Inductive GateTargetKind :=
| GateTargetKind_Lane | GateTargetKind_ProductArea | GateTargetKind_Project
| GateTargetKind_Release.

Inductive GateEvidenceKind :=
| GateEvidenceKind_TestReport | GateEvidenceKind_ArtifactCheck
| GateEvidenceKind_IntegrationCheck | GateEvidenceKind_ReleaseCheck
| GateEvidenceKind_HumanApproval | GateEvidenceKind_SecurityReview.

Inductive PromotionPolicy :=
| PromotionPolicy_NoPromotion | PromotionPolicy_MayFeedParentGate
| PromotionPolicy_RequiresParentGate.

Record GateResult := {
  gr_scope : GateScope;
  gr_status : GateStatus;
  gr_checked_at : string;
  gr_checked_by : StableId
}.

Record GateTarget := {
  gtg_kind : GateTargetKind;
  gtg_id : StableId;
  gtg_product_area : option StableId;
  gtg_paths : list RepoPath
}.

Record GateEvidenceRef := {
  ger_kind : GateEvidenceKind;
  ger_reference : string
}.

Record GatePromotion := {
  gpr_policy : PromotionPolicy;
  gpr_parent_gate_ref : option RepoPath
}.

Record GateBlocks := {
  gb_operations : list StableId
}.

Record GateContract := {
  gc_id : StableId;
  gc_contract_ref : RepoPath;
  gc_gate : GateResult;
  gc_target : GateTarget;
  gc_evidence_refs : list GateEvidenceRef;
  gc_promotion : GatePromotion;
  gc_blocks : GateBlocks
}.

Record GateContractDocument := {
  gcd_schema_version : string;
  gcd_gate_contract : GateContract
}.

(** ** Decidable equality *)

#[export] Instance ConflictCode_eq_dec : EqDecision ConflictCode.
Proof. solve_decision. Defined.
#[export] Instance OperationSurface_eq_dec : EqDecision OperationSurface.
Proof. solve_decision. Defined.
#[export] Instance ForgeOperation_eq_dec : EqDecision ForgeOperation.
Proof. solve_decision. Defined.
#[export] Instance OperationAutonomyMode_eq_dec : EqDecision OperationAutonomyMode.
Proof. solve_decision. Defined.
#[export] Instance NextActor_eq_dec : EqDecision NextActor.
Proof. solve_decision. Defined.
#[export] Instance HostAction_eq_dec : EqDecision HostAction.
Proof. solve_decision. Defined.
#[export] Instance MutationPolicy_eq_dec : EqDecision MutationPolicy.
Proof. solve_decision. Defined.
#[export] Instance OperationSideEffectPolicy_eq_dec : EqDecision OperationSideEffectPolicy.
Proof. solve_decision. Defined.
#[export] Instance TargetKind_eq_dec : EqDecision TargetKind.
Proof. solve_decision. Defined.
#[export] Instance CallerRole_eq_dec : EqDecision CallerRole.
Proof. solve_decision. Defined.
#[export] Instance ExecutionMode_eq_dec : EqDecision ExecutionMode.
Proof. solve_decision. Defined.
#[export] Instance RetryFailureAction_eq_dec : EqDecision RetryFailureAction.
Proof. solve_decision. Defined.
#[export] Instance HumanInputRequirement_eq_dec : EqDecision HumanInputRequirement.
Proof. solve_decision. Defined.
#[export] Instance PromptMode_eq_dec : EqDecision PromptMode.
Proof. solve_decision. Defined.
#[export] Instance OperationGateStatus_eq_dec : EqDecision OperationGateStatus.
Proof. solve_decision. Defined.
#[export] Instance OperationGateScope_eq_dec : EqDecision OperationGateScope.
Proof. solve_decision. Defined.
#[export] Instance OperationRiskBoundary_eq_dec : EqDecision OperationRiskBoundary.
Proof. solve_decision. Defined.
#[export] Instance ProjectRef_eq_dec : EqDecision ProjectRef.
Proof. solve_decision. Defined.
#[export] Instance OperationSource_eq_dec : EqDecision OperationSource.
Proof. solve_decision. Defined.
#[export] Instance AutonomyPolicy_eq_dec : EqDecision AutonomyPolicy.
Proof. solve_decision. Defined.
#[export] Instance Recommendation_eq_dec : EqDecision Recommendation.
Proof. solve_decision. Defined.
#[export] Instance AuthorityEvidence_eq_dec : EqDecision AuthorityEvidence.
Proof. solve_decision. Defined.
#[export] Instance AuthorityPolicy_eq_dec : EqDecision AuthorityPolicy.
Proof. solve_decision. Defined.
#[export] Instance CoordinationTarget_eq_dec : EqDecision CoordinationTarget.
Proof. solve_decision. Defined.
#[export] Instance ConcurrencyScope_eq_dec : EqDecision ConcurrencyScope.
Proof. solve_decision. Defined.
#[export] Instance WriteAuthority_eq_dec : EqDecision WriteAuthority.
Proof. solve_decision. Defined.
#[export] Instance CompletionScope_eq_dec : EqDecision CompletionScope.
Proof. solve_decision. Defined.
#[export] Instance CoordinationScope_eq_dec : EqDecision CoordinationScope.
Proof. solve_decision. Defined.
#[export] Instance RetryPolicy_eq_dec : EqDecision RetryPolicy.
Proof. solve_decision. Defined.
#[export] Instance BranchPolicy_eq_dec : EqDecision BranchPolicy.
Proof. solve_decision. Defined.
#[export] Instance ExecutionPolicy_eq_dec : EqDecision ExecutionPolicy.
Proof. solve_decision. Defined.
#[export] Instance StopHandoff_eq_dec : EqDecision StopHandoff.
Proof. solve_decision. Defined.
#[export] Instance StopPolicy_eq_dec : EqDecision StopPolicy.
Proof. solve_decision. Defined.
#[export] Instance SideContractRef_eq_dec : EqDecision SideContractRef.
Proof. solve_decision. Defined.
#[export] Instance HumanPrompt_eq_dec : EqDecision HumanPrompt.
Proof. solve_decision. Defined.
#[export] Instance HumanPolicy_eq_dec : EqDecision HumanPolicy.
Proof. solve_decision. Defined.
#[export] Instance LoadSet_eq_dec : EqDecision LoadSet.
Proof. solve_decision. Defined.
#[export] Instance RequiredGate_eq_dec : EqDecision RequiredGate.
Proof. solve_decision. Defined.
#[export] Instance GatePolicy_eq_dec : EqDecision GatePolicy.
Proof. solve_decision. Defined.
#[export] Instance CommandRef_eq_dec : EqDecision CommandRef.
Proof. solve_decision. Defined.
#[export] Instance OperationDiagnostics_eq_dec : EqDecision OperationDiagnostics.
Proof. solve_decision. Defined.
#[export] Instance OperationContract_eq_dec : EqDecision OperationContract.
Proof. solve_decision. Defined.
#[export] Instance OperationContractDocument_eq_dec : EqDecision OperationContractDocument.
Proof. solve_decision. Defined.
#[export] Instance CommandKind_eq_dec : EqDecision CommandKind.
Proof. solve_decision. Defined.
#[export] Instance CommandExecutor_eq_dec : EqDecision CommandExecutor.
Proof. solve_decision. Defined.
#[export] Instance CwdPolicy_eq_dec : EqDecision CwdPolicy.
Proof. solve_decision. Defined.
#[export] Instance CommandSideEffectPolicy_eq_dec : EqDecision CommandSideEffectPolicy.
Proof. solve_decision. Defined.
#[export] Instance CommandPlatform_eq_dec : EqDecision CommandPlatform.
Proof. solve_decision. Defined.
#[export] Instance NetworkPolicy_eq_dec : EqDecision NetworkPolicy.
Proof. solve_decision. Defined.
#[export] Instance OutputCapture_eq_dec : EqDecision OutputCapture.
Proof. solve_decision. Defined.
#[export] Instance EnvInheritPolicy_eq_dec : EqDecision EnvInheritPolicy.
Proof. solve_decision. Defined.
#[export] Instance EnvPolicy_eq_dec : EqDecision EnvPolicy.
Proof. solve_decision. Defined.
#[export] Instance OutputPolicy_eq_dec : EqDecision OutputPolicy.
Proof. solve_decision. Defined.
#[export] Instance CommandSafety_eq_dec : EqDecision CommandSafety.
Proof. solve_decision. Defined.
#[export] Instance CommandContract_eq_dec : EqDecision CommandContract.
Proof. solve_decision. Defined.
#[export] Instance CommandContractDocument_eq_dec : EqDecision CommandContractDocument.
Proof. solve_decision. Defined.
#[export] Instance EffectKind_eq_dec : EqDecision EffectKind.
Proof. solve_decision. Defined.
#[export] Instance EffectTargetKind_eq_dec : EqDecision EffectTargetKind.
Proof. solve_decision. Defined.
#[export] Instance AccessMode_eq_dec : EqDecision AccessMode.
Proof. solve_decision. Defined.
#[export] Instance EffectConflictPolicy_eq_dec : EqDecision EffectConflictPolicy.
Proof. solve_decision. Defined.
#[export] Instance RepairStrategy_eq_dec : EqDecision RepairStrategy.
Proof. solve_decision. Defined.
#[export] Instance InverseKind_eq_dec : EqDecision InverseKind.
Proof. solve_decision. Defined.
#[export] Instance InverseSource_eq_dec : EqDecision InverseSource.
Proof. solve_decision. Defined.
#[export] Instance EffectActor_eq_dec : EqDecision EffectActor.
Proof. solve_decision. Defined.
#[export] Instance EffectRead_eq_dec : EqDecision EffectRead.
Proof. solve_decision. Defined.
#[export] Instance EffectWrite_eq_dec : EqDecision EffectWrite.
Proof. solve_decision. Defined.
#[export] Instance ConflictDetection_eq_dec : EqDecision ConflictDetection.
Proof. solve_decision. Defined.
#[export] Instance EffectNotification_eq_dec : EqDecision EffectNotification.
Proof. solve_decision. Defined.
#[export] Instance InverseMetadata_eq_dec : EqDecision InverseMetadata.
Proof. solve_decision. Defined.
#[export] Instance EffectRepair_eq_dec : EqDecision EffectRepair.
Proof. solve_decision. Defined.
#[export] Instance ToolEffectContract_eq_dec : EqDecision ToolEffectContract.
Proof. solve_decision. Defined.
#[export] Instance ToolEffectContractDocument_eq_dec : EqDecision ToolEffectContractDocument.
Proof. solve_decision. Defined.
#[export] Instance GateScope_eq_dec : EqDecision GateScope.
Proof. solve_decision. Defined.
#[export] Instance GateTargetKind_eq_dec : EqDecision GateTargetKind.
Proof. solve_decision. Defined.
#[export] Instance GateEvidenceKind_eq_dec : EqDecision GateEvidenceKind.
Proof. solve_decision. Defined.
#[export] Instance PromotionPolicy_eq_dec : EqDecision PromotionPolicy.
Proof. solve_decision. Defined.
#[export] Instance GateResult_eq_dec : EqDecision GateResult.
Proof. solve_decision. Defined.
#[export] Instance GateTarget_eq_dec : EqDecision GateTarget.
Proof. solve_decision. Defined.
#[export] Instance GateEvidenceRef_eq_dec : EqDecision GateEvidenceRef.
Proof. solve_decision. Defined.
#[export] Instance GatePromotion_eq_dec : EqDecision GatePromotion.
Proof. solve_decision. Defined.
#[export] Instance GateBlocks_eq_dec : EqDecision GateBlocks.
Proof. solve_decision. Defined.
#[export] Instance GateContract_eq_dec : EqDecision GateContract.
Proof. solve_decision. Defined.
#[export] Instance GateContractDocument_eq_dec : EqDecision GateContractDocument.
Proof. solve_decision. Defined.
