(* ===== verification/AssuranceContracts.v ===== *)
(** * Assurance cases

    The proposal part of [forge-core-contracts/src/assurance.rs]: the case an agent builds for one
    intent, its claims and obligations, and the readiness horizon they are due at. *)

From S2P Require Import Prelude RustStr Contracts.

Local Open Scope string_scope.
Local Open Scope Z_scope.

Inductive UniversalAssuranceLens :=
| UniversalAssuranceLens_IntendedOutcome | UniversalAssuranceLens_CriticalJourneys
| UniversalAssuranceLens_SystemIntegrity | UniversalAssuranceLens_QualityAttributes
| UniversalAssuranceLens_Operability | UniversalAssuranceLens_LifecycleCoverage
| UniversalAssuranceLens_RiskAndFailure | UniversalAssuranceLens_EvidenceRepresentativeness.

Inductive ObligationCriticality :=
| ObligationCriticality_Advisory | ObligationCriticality_Required
| ObligationCriticality_Critical.

Inductive ObligationStatus :=
| ObligationStatus_Pending | ObligationStatus_InProgress | ObligationStatus_Satisfied
| ObligationStatus_Blocked.

Inductive AssuranceClaimStatus :=
| AssuranceClaimStatus_Unknown | AssuranceClaimStatus_Hypothesized
| AssuranceClaimStatus_Supported | AssuranceClaimStatus_Verified
| AssuranceClaimStatus_Disproven | AssuranceClaimStatus_Waived.

Inductive HumanDecisionReason :=
| HumanDecisionReason_Preference | HumanDecisionReason_ValueJudgment
| HumanDecisionReason_MaterialCost | HumanDecisionReason_IrreversibleRisk
| HumanDecisionReason_ProductDirection | HumanDecisionReason_ExternalAuthority.

Inductive CapabilityGapKind :=
| CapabilityGapKind_Agent | CapabilityGapKind_Tool | CapabilityGapKind_Environment
| CapabilityGapKind_Knowledge | CapabilityGapKind_Evaluator | CapabilityGapKind_Authority
| CapabilityGapKind_DomainPack.

Inductive NextActionKind :=
| NextActionKind_Research | NextActionKind_Experiment | NextActionKind_Implement
| NextActionKind_Evaluate | NextActionKind_Challenge | NextActionKind_AskHuman
| NextActionKind_AcquireCapability | NextActionKind_DeclareGap | NextActionKind_Proceed.

Inductive ReadinessTarget :=
| ReadinessTarget_Explore | ReadinessTarget_Execute | ReadinessTarget_Release.

Inductive ReadinessVerdict :=
| ReadinessVerdict_Blocked | ReadinessVerdict_Ready.

Record IntentProposal := {
  ip_id : StableId;
  ip_desired_outcome : string;
  ip_constraints : list string;
  ip_preferences : list string;
  ip_unacceptable_outcomes : list string;
  ip_uncertainties : list string
}.

Record ProjectSnapshot := {
  psn_id : StableId;
  psn_state_version : Z;
  psn_observed_at : string;
  psn_evidence_refs : list string;
  psn_phase_projection : option string
}.

Record Obligation := {
  ob_id : StableId;
  ob_description : string;
  ob_criticality : ObligationCriticality;
  ob_status : ObligationStatus;
  ob_required_before : ReadinessTarget;
  ob_claim_refs : list StableId
}.

Record AssuranceWaiver := {
  aw_authorized_by : PrincipalId;
  aw_reason : string;
  aw_consequences : list string;
  aw_expires_at : option string
}.

Record AssuranceClaim := {
  acl_id : StableId;
  acl_statement : string;
  acl_status : AssuranceClaimStatus;
  acl_evidence_refs : list string;
  acl_waiver : option AssuranceWaiver
}.

Record DecisionAlternative := {
  da_id : StableId;
  da_description : string;
  da_consequences : list string
}.

Record DecisionRequest := {
  dr_id : StableId;
  dr_question : string;
  dr_reason : HumanDecisionReason;
  dr_alternatives : list DecisionAlternative;
  dr_recommended_alternative_ref : StableId;
  dr_blocking : bool;
  dr_blocks_before : ReadinessTarget
}.

Record CapabilityGap := {
  cg_id : StableId;
  cg_kind : CapabilityGapKind;
  cg_description : string;
  cg_affected_claim_refs : list StableId;
  cg_resolution_options : list string;
  cg_blocking : bool;
  cg_blocks_before : ReadinessTarget
}.

Record NextAction := {
  na_id : StableId;
  na_kind : NextActionKind;
  na_description : string;
  na_addresses_claim_refs : list StableId;
  na_rationale : string;
  na_rank : Z
}.

Record ReadinessAssessment := {
  ra_target : ReadinessTarget;
  ra_verdict : ReadinessVerdict;
  ra_blocker_refs : list StableId;
  ra_rationale : string
}.

Record AssuranceCase := {
  ac_id : StableId;
  ac_intent : IntentProposal;
  ac_project_snapshot : ProjectSnapshot;
  ac_obligations : list Obligation;
  ac_claims : list AssuranceClaim;
  ac_decision_requests : list DecisionRequest;
  ac_capability_gaps : list CapabilityGap;
  ac_next_actions : list NextAction;
  ac_readiness : ReadinessAssessment
}.

Record AssuranceCaseDocument := {
  acd_schema_version : string;
  acd_assurance_case : AssuranceCase
}.

(** ** Operations on the enums *)

Definition ASSURANCE_CASE_SCHEMA_VERSION : string := "0.1".

(** [UniversalAssuranceLens::ALL]. *)
Definition lens_ALL : list UniversalAssuranceLens :=
  [UniversalAssuranceLens_IntendedOutcome; UniversalAssuranceLens_CriticalJourneys;
   UniversalAssuranceLens_SystemIntegrity; UniversalAssuranceLens_QualityAttributes;
   UniversalAssuranceLens_Operability; UniversalAssuranceLens_LifecycleCoverage;
   UniversalAssuranceLens_RiskAndFailure; UniversalAssuranceLens_EvidenceRepresentativeness].

(** [UniversalAssuranceLens::id]. *)
Definition lens_id (self : UniversalAssuranceLens) : string :=
  match self with
  | UniversalAssuranceLens_IntendedOutcome => "intended_outcome"
  | UniversalAssuranceLens_CriticalJourneys => "critical_journeys"
  | UniversalAssuranceLens_SystemIntegrity => "system_integrity"
  | UniversalAssuranceLens_QualityAttributes => "quality_attributes"
  | UniversalAssuranceLens_Operability => "operability"
  | UniversalAssuranceLens_LifecycleCoverage => "lifecycle_coverage"
  | UniversalAssuranceLens_RiskAndFailure => "risk_and_failure"
  | UniversalAssuranceLens_EvidenceRepresentativeness => "evidence_representativeness"
  end.

Definition satisfies_obligation (self : AssuranceClaimStatus) : bool :=
  match self with AssuranceClaimStatus_Verified | AssuranceClaimStatus_Waived => true | _ => false end.

(** [ReadinessTarget::rank]. *)
Definition readiness_rank (self : ReadinessTarget) : Z :=
  match self with
  | ReadinessTarget_Explore => 0
  | ReadinessTarget_Execute => 1
  | ReadinessTarget_Release => 2
  end.

(** ** Decidable equality *)

#[export] Instance UniversalAssuranceLens_eq_dec : EqDecision UniversalAssuranceLens.
Proof. solve_decision. Defined.
#[export] Instance ObligationCriticality_eq_dec : EqDecision ObligationCriticality.
Proof. solve_decision. Defined.
#[export] Instance ObligationStatus_eq_dec : EqDecision ObligationStatus.
Proof. solve_decision. Defined.
#[export] Instance AssuranceClaimStatus_eq_dec : EqDecision AssuranceClaimStatus.
Proof. solve_decision. Defined.
#[export] Instance HumanDecisionReason_eq_dec : EqDecision HumanDecisionReason.
Proof. solve_decision. Defined.
#[export] Instance CapabilityGapKind_eq_dec : EqDecision CapabilityGapKind.
Proof. solve_decision. Defined.
#[export] Instance NextActionKind_eq_dec : EqDecision NextActionKind.
Proof. solve_decision. Defined.
#[export] Instance ReadinessTarget_eq_dec : EqDecision ReadinessTarget.
Proof. solve_decision. Defined.
#[export] Instance ReadinessVerdict_eq_dec : EqDecision ReadinessVerdict.
Proof. solve_decision. Defined.
#[export] Instance IntentProposal_eq_dec : EqDecision IntentProposal.
Proof. solve_decision. Defined.
#[export] Instance ProjectSnapshot_eq_dec : EqDecision ProjectSnapshot.
Proof. solve_decision. Defined.
#[export] Instance Obligation_eq_dec : EqDecision Obligation.
Proof. solve_decision. Defined.
#[export] Instance AssuranceWaiver_eq_dec : EqDecision AssuranceWaiver.
Proof. solve_decision. Defined.
#[export] Instance AssuranceClaim_eq_dec : EqDecision AssuranceClaim.
Proof. solve_decision. Defined.
#[export] Instance DecisionAlternative_eq_dec : EqDecision DecisionAlternative.
Proof. solve_decision. Defined.
#[export] Instance DecisionRequest_eq_dec : EqDecision DecisionRequest.
Proof. solve_decision. Defined.
#[export] Instance CapabilityGap_eq_dec : EqDecision CapabilityGap.
Proof. solve_decision. Defined.
#[export] Instance NextAction_eq_dec : EqDecision NextAction.
Proof. solve_decision. Defined.
#[export] Instance ReadinessAssessment_eq_dec : EqDecision ReadinessAssessment.
Proof. solve_decision. Defined.
#[export] Instance AssuranceCase_eq_dec : EqDecision AssuranceCase.
Proof. solve_decision. Defined.
#[export] Instance AssuranceCaseDocument_eq_dec : EqDecision AssuranceCaseDocument.
Proof. solve_decision. Defined.

Lemma elem_of_lens_ALL lens : lens ∈ lens_ALL.
Proof. destruct lens; set_solver. Qed.
