(* ===== verification/Calendar.v ===== *)
(** * The civil calendar of the claim engine

    Hinnant's civil-calendar algorithms on [i64] ([claim_engine.rs]), proved inverse to each
    other over the proleptic Gregorian calendar.  Rust's [/] and [%] truncate: [Z.quot] and
    [Z.rem]. *)

From S2P Require Import Prelude RustStr.
Local Open Scope Z_scope.

Definition is_leap_year (year : Z) : bool :=
  ((Z.rem year 4 =? 0) && negb (Z.rem year 100 =? 0)) || (Z.rem year 400 =? 0).

Definition days_in_month (year month : Z) : option Z :=
  if existsb (Z.eqb month) [1; 3; 5; 7; 8; 10; 12] then Some 31
  else if existsb (Z.eqb month) [4; 6; 9; 11] then Some 30
  else if (month =? 2) && is_leap_year year then Some 29
  else if month =? 2 then Some 28
  else None.

Definition days_from_civil (y m d : Z) : Z :=
  let y := if m <=? 2 then y - 1 else y in
  let era := Z.quot (if 0 <=? y then y else y - 399) 400 in
  let yoe := y - era * 400 in
  let m_adj := if 2 <? m then m - 3 else m + 9 in
  let doy := Z.quot (153 * m_adj + 2) 5 + d - 1 in
  let doe := yoe * 365 + Z.quot yoe 4 - Z.quot yoe 100 + doy in
  era * 146097 + doe - 719468.

Definition civil_from_days (z : Z) : Z * Z * Z :=
  let z := z + 719468 in
  let era := Z.quot (if 0 <=? z then z else z - 146096) 146097 in
  let doe := z - era * 146097 in
  let yoe := Z.quot (doe - Z.quot doe 1460 + Z.quot doe 36524 - Z.quot doe 146096) 365 in
  let y := yoe + era * 400 in
  let doy := doe - (365 * yoe + Z.quot yoe 4 - Z.quot yoe 100) in
  let mp := Z.quot (5 * doy + 2) 153 in
  let d := doy - Z.quot (153 * mp + 2) 5 + 1 in
  let m := if mp <? 10 then mp + 3 else mp - 9 in
  (if m <=? 2 then y + 1 else y, m, d).

(** ** The calendar *)

Example civil_epoch : civil_from_days 0 = (1970, 1, 1).
Proof. reflexivity. Qed.

(** Case analysis on the [Z] comparisons of the goal. *)
Ltac zcase :=
  repeat match goal with
  | |- context [?a <=? ?b] => destruct (Z.leb_spec a b)
  | |- context [?a <? ?b] => destruct (Z.ltb_spec a b)
  end.

(** A civil date of the proleptic Gregorian calendar. *)
Definition valid_date (y m d : Z) : Prop :=
  exists max_day, days_in_month y m = Some max_day /\ 1 <= d <= max_day.

#[local] Ltac Zify.zify_post_hook ::= Z.to_euclidean_division_equations.

(** Both algorithms count years from the first of March inside a 400-year era: [year_start]
    is the first day of a year of the era, [year_len] its length. *)
Definition year_start (yoe : Z) : Z := 365 * yoe + yoe / 4 - yoe / 100.
Definition leap_after (yoe : Z) : bool :=
  (((yoe + 1) mod 4 =? 0) && negb ((yoe + 1) mod 100 =? 0)) || (yoe =? 399).
Definition year_len (yoe : Z) : Z := 365 + Z.b2z (leap_after yoe).
Definition yoe_of (doe : Z) : Z := (doe - doe / 1460 + doe / 36524 - doe / 146096) / 365.

Ltac split_leap Y :=
  destruct (Z.eqb_spec ((Y + 1) mod 4) 0), (Z.eqb_spec ((Y + 1) mod 100) 0), (Z.eqb_spec Y 399);
  simpl in *.

Lemma yoe_of_bounds doe :
  0 <= doe < 146097 ->
  0 <= yoe_of doe < 400 /\ 0 <= doe - year_start (yoe_of doe) < year_len (yoe_of doe).
Proof.
  intros H. unfold yoe_of, year_start, year_len, leap_after.
  assert (let Y := (doe - doe / 1460 + doe / 36524 - doe / 146096) / 365 in
          0 <= Y < 400 /\ 365 * Y + Y / 4 - Y / 100 <= doe /\
          (doe < 365 * (Y + 1) + (Y + 1) / 4 - (Y + 1) / 100 \/ doe = 146096 /\ Y = 399)) as HH
    by (cbv zeta; lia).
  set (Y := (doe - doe / 1460 + doe / 36524 - doe / 146096) / 365) in *. clearbody Y.
  cbv zeta in HH. split_leap Y; lia.
Qed.

Lemma yoe_of_unique doy Y :
  0 <= Y < 400 -> 0 <= doy < year_len Y -> yoe_of (year_start Y + doy) = Y.
Proof.
  unfold yoe_of, year_start, year_len, leap_after. intros HY Hd. split_leap Y; lia.
Qed.

(** The civil date of a March-based one. *)
Definition march_civil (era yoe doy : Z) : Z * Z * Z :=
  let mp := (5 * doy + 2) / 153 in
  let m := if mp <? 10 then mp + 3 else mp - 9 in
  (yoe + era * 400 + (if mp <? 10 then 0 else 1), m, doy - (153 * mp + 2) / 5 + 1).

Lemma civil_from_days_march era yoe doy :
  0 <= yoe < 400 -> 0 <= doy < year_len yoe ->
  civil_from_days (era * 146097 + year_start yoe + doy - 719468) = march_civil era yoe doy.
Proof.
  intros Hy Hd. pose proof (yoe_of_unique doy yoe Hy Hd) as Hu.
  assert (0 <= year_start yoe + doy < 146097) as Hdoe.
  { revert Hd. unfold year_start, year_len, leap_after. split_leap yoe; lia. }
  assert (0 <= doy <= 365) as Hdoy by (revert Hd; unfold year_len, leap_after; split_leap yoe; lia).
  unfold civil_from_days, march_civil.
  set (doe := year_start yoe + doy) in *.
  replace (era * 146097 + year_start yoe + doy - 719468 + 719468) with (era * 146097 + doe) by lia.
  assert (Z.quot (if 0 <=? era * 146097 + doe then era * 146097 + doe
                  else era * 146097 + doe - 146096) 146097 = era) as ->.
  { destruct (Z.leb_spec 0 (era * 146097 + doe)); lia. }
  replace (era * 146097 + doe - era * 146097) with doe by lia.
  assert (Z.quot (doe - Z.quot doe 1460 + Z.quot doe 36524 - Z.quot doe 146096) 365 = yoe) as ->.
  { rewrite <- Hu. unfold yoe_of. rewrite !(Z.quot_div_nonneg doe) by lia.
    apply Z.quot_div_nonneg; lia. }
  rewrite !(Z.quot_div_nonneg yoe) by lia.
  replace (doe - (365 * yoe + yoe / 4 - yoe / 100)) with doy by (unfold doe, year_start; lia).
  rewrite (Z.quot_div_nonneg (5 * doy + 2)) by lia.
  rewrite (Z.quot_div_nonneg (153 * _ + 2)) by lia.
  zcase; f_equal; try f_equal; lia.
Qed.

Lemma days_from_civil_march era yoe doy :
  0 <= yoe < 400 -> 0 <= doy < year_len yoe ->
  let '(y, m, d) := march_civil era yoe doy in
  days_from_civil y m d = era * 146097 + year_start yoe + doy - 719468.
Proof.
  intros Hy Hd. cbv zeta beta delta [march_civil].
  assert (0 <= doy <= 365) as Hdoy by (revert Hd; unfold year_len, leap_after; split_leap yoe; lia).
  unfold days_from_civil, year_start. set (mp := (5 * doy + 2) / 153) in *.
  assert (0 <= mp <= 11 /\ 153 * mp <= 5 * doy + 2) as Hmp by (unfold mp; lia).
  zcase; lia.
Qed.

Lemma march_of_days z :
  exists era yoe doy, 0 <= yoe < 400 /\ 0 <= doy < year_len yoe /\
                      z = era * 146097 + year_start yoe + doy - 719468.
Proof.
  set (doe := (z + 719468) mod 146097).
  assert (0 <= doe < 146097) as Hdoe by (unfold doe; lia).
  destruct (yoe_of_bounds doe Hdoe) as [Hy Hd].
  exists ((z + 719468) / 146097), (yoe_of doe), (doe - year_start (yoe_of doe)).
  repeat split; try tauto. unfold doe. lia.
Qed.

Lemma is_leap_year_mod y :
  is_leap_year y = ((y mod 4 =? 0) && negb (y mod 100 =? 0)) || (y mod 400 =? 0).
Proof.
  unfold is_leap_year.
  destruct (Z.eqb_spec (Z.rem y 4) 0), (Z.eqb_spec (Z.rem y 100) 0), (Z.eqb_spec (Z.rem y 400) 0),
    (Z.eqb_spec (y mod 4) 0), (Z.eqb_spec (y mod 100) 0), (Z.eqb_spec (y mod 400) 0); simpl; lia.
Qed.

(** The leap day closes the March-based year before a leap year. *)
Lemma leap_after_spec era yoe :
  0 <= yoe < 400 -> leap_after yoe = is_leap_year (yoe + era * 400 + 1).
Proof.
  intros H. rewrite is_leap_year_mod. unfold leap_after.
  replace ((yoe + era * 400 + 1) mod 4) with ((yoe + 1) mod 4) by lia.
  replace ((yoe + era * 400 + 1) mod 100) with ((yoe + 1) mod 100) by lia.
  f_equal. destruct (Z.eqb_spec yoe 399), (Z.eqb_spec ((yoe + era * 400 + 1) mod 400) 0); lia.
Qed.

Lemma month_cases m max_day y :
  days_in_month y m = Some max_day ->
  1 <= m <= 12 /\
  (m = 2 /\ max_day = 28 + Z.b2z (is_leap_year y) \/
   (m = 4 \/ m = 6 \/ m = 9 \/ m = 11) /\ max_day = 30 \/
   (m = 1 \/ m = 3 \/ m = 5 \/ m = 7 \/ m = 8 \/ m = 10 \/ m = 12) /\ max_day = 31).
Proof.
  unfold days_in_month. intros H.
  destruct (existsb (Z.eqb m) [1; 3; 5; 7; 8; 10; 12]) eqn:E1.
  { simplify_eq. cbn in E1. lia. }
  destruct (existsb (Z.eqb m) [4; 6; 9; 11]) eqn:E2.
  { simplify_eq. cbn in E2. lia. }
  destruct (Z.eqb_spec m 2) as [->|]; simpl in H; [|done].
  destruct (is_leap_year y); simplify_eq; simpl; lia.
Qed.

Lemma month_len m y :
  1 <= m <= 12 ->
  exists max_day, days_in_month y m = Some max_day.
Proof.
  intros H. assert (m = 1 \/ m = 2 \/ m = 3 \/ m = 4 \/ m = 5 \/ m = 6 \/ m = 7 \/ m = 8 \/ m = 9
    \/ m = 10 \/ m = 11 \/ m = 12) as C by lia.
  unfold days_in_month. destruct_or! C; subst; simpl; eauto. destruct (is_leap_year y); eauto.
Qed.

Lemma march_of_date y m d :
  valid_date y m d ->
  exists era yoe doy, 0 <= yoe < 400 /\ 0 <= doy < year_len yoe /\ march_civil era yoe doy = (y, m, d).
Proof.
  intros (max_day & Hmax & Hd). apply month_cases in Hmax as [Hm Hc].
  set (y' := if 2 <? m then y else y - 1).
  set (doy := (153 * (if 2 <? m then m - 3 else m + 9) + 2) / 5 + d - 1).
  exists (y' / 400), (y' mod 400), doy. split; [lia|].
  assert (leap_after (y' mod 400) = is_leap_year (y' + 1)) as HL.
  { rewrite (leap_after_spec (y' / 400)) by lia. f_equal. lia. }
  unfold year_len. rewrite HL. unfold march_civil, doy, y'. clear HL doy y'.
  destruct (Z.ltb_spec 2 m).
  - assert (max_day <= 31) as Hmax by (destruct (is_leap_year y); simpl in *; lia).
    split; [destruct (is_leap_year (y + 1)); simpl; lia|].
    destruct Hc as [[? _]|[[Hc ?]|[Hc ?]]]; [lia|..]; destruct_or! Hc; subst; try lia;
      zcase; f_equal; try f_equal; lia.
  - replace (y - 1 + 1) with y by lia.
    split; [destruct (is_leap_year y); simpl in *; lia|].
    assert (m = 1 \/ m = 2) as [-> | ->] by lia; destruct (is_leap_year y); simpl in Hc;
      zcase; f_equal; try f_equal; lia.
Qed.

Lemma march_valid era yoe doy :
  0 <= yoe < 400 -> 0 <= doy < year_len yoe ->
  let '(y, m, d) := march_civil era yoe doy in valid_date y m d.
Proof.
  intros Hy Hd. unfold year_len in Hd. rewrite (leap_after_spec era) in Hd by lia.
  unfold march_civil. set (mp := (5 * doy + 2) / 153).
  assert (0 <= mp <= 11) as Hmp by (unfold mp; destruct (is_leap_year _); simpl in Hd; lia).
  set (m := if mp <? 10 then mp + 3 else mp - 9).
  assert (1 <= m <= 12) as Hm by (unfold m; zcase; lia).
  set (y := yoe + era * 400 + (if mp <? 10 then 0 else 1)).
  destruct (month_len m y Hm) as [md Hmd]. exists md. split; [done|].
  apply month_cases in Hmd as [_ Hc]. revert Hc. unfold m, y, mp. zcase; intros Hc;
    rewrite ?Z.add_0_r in Hc; try (destruct (is_leap_year _); simpl in *; lia).
Qed.

Lemma civil_from_days_valid z :
  let '(y, m, d) := civil_from_days z in valid_date y m d /\ days_from_civil y m d = z.
Proof.
  destruct (march_of_days z) as (era & yoe & doy & Hy & Hd & ->).
  pose proof (march_valid era yoe doy Hy Hd) as Hv.
  pose proof (days_from_civil_march era yoe doy Hy Hd) as He.
  rewrite (civil_from_days_march era yoe doy Hy Hd).
  destruct (march_civil era yoe doy) as [[y m] d]. done.
Qed.

Lemma civil_from_days_from_civil y m d :
  valid_date y m d -> civil_from_days (days_from_civil y m d) = (y, m, d).
Proof.
  intros (era & yoe & doy & Hy & Hd & E)%march_of_date.
  pose proof (days_from_civil_march era yoe doy Hy Hd) as He. rewrite E in He.
  by rewrite He, civil_from_days_march.
Qed.


(** The civil-date conversion is a bijection between day numbers and the valid dates of the
    proleptic Gregorian calendar: every day number gives a valid date that converts back to it,
    every valid date converts to a day number and back, and the epoch is 1970-01-01. *)
Theorem civil_days_bijection :
  (forall z, let '(y, m, d) := civil_from_days z in valid_date y m d /\ days_from_civil y m d = z)
  /\ (forall y m d, valid_date y m d -> civil_from_days (days_from_civil y m d) = (y, m, d))
  /\ days_from_civil 1970 1 1 = 0%Z.
Proof.
  split; [exact civil_from_days_valid|]. split; [exact civil_from_days_from_civil | reflexivity].
Qed.

Lemma civil_days_bijection_witness : civil_from_days (days_from_civil 2024 2 29) = (2024, 2, 29)%Z.
Proof.
  apply civil_days_bijection. exists 29%Z. split; [reflexivity | lia].
Defined.
