(* ===== verification/Rfc3339.v ===== *)
(** * RFC 3339 timestamps

    The fixed-shape parser [rfc3339_to_unix] and the formatter [unix_to_rfc3339] of
    [claim_engine.rs], with the range on which they are inverse. *)

From S2P Require Import Prelude RustStr Calendar.
Local Open Scope Z_scope.

(** [str::is_char_boundary] and [str::get(a..b)]. *)
Definition is_char_boundary (l : bytes) (i : nat) : bool :=
  if (i =? 0)%nat || (i =? length l)%nat then true
  else if (length l <? i)%nat then false
  else negb (in_range 128 191 (nth_code l i)).

Definition str_get (l : bytes) (a b : nat) : option string :=
  if (a <=? b)%nat && is_char_boundary l a && is_char_boundary l b
  then Some (of_bytes (take (b - a) (drop a l))) else None.

Definition byte_is (l : bytes) (i : nat) (c : ascii) : bool := bool_decide (l !! i = Some c).

Definition rfc3339_to_unix (ts : string) : option Z :=
  let bytes := to_bytes ts in
  if negb (length bytes =? 20)%nat || negb (byte_is bytes 19 "Z"%char) then None else
  y ← str_get bytes 0 4 ≫= parse_i64;
  if negb (byte_is bytes 4 "-"%char) || negb (byte_is bytes 7 "-"%char)
     || negb (byte_is bytes 10 "T"%char) || negb (byte_is bytes 13 ":"%char)
     || negb (byte_is bytes 16 ":"%char) then None else
  mo ← str_get bytes 5 7 ≫= parse_i64;
  d ← str_get bytes 8 10 ≫= parse_i64;
  h ← str_get bytes 11 13 ≫= parse_i64;
  mi ← str_get bytes 14 16 ≫= parse_i64;
  s ← str_get bytes 17 19 ≫= parse_i64;
  max_day ← days_in_month y mo;
  if negb ((1 <=? d) && (d <=? max_day)) || negb ((0 <=? h) && (h <=? 23))
     || negb ((0 <=? mi) && (mi <=? 59)) || negb ((0 <=? s) && (s <=? 59)) then None else
  let days := days_from_civil y mo d in
  Some (days * 86400 + h * 3600 + mi * 60 + s).

(** [div_euclid] and [rem_euclid] by the positive 86400 are [Z.div] and [Z.modulo]. *)
Definition unix_to_rfc3339 (unix : Z) : string :=
  let days := unix / 86400 in
  let secs := unix mod 86400 in
  let '(y, mo, d) := civil_from_days days in
  let h := Z.quot secs 3600 in
  let mi := Z.quot (Z.rem secs 3600) 60 in
  let s := Z.rem secs 60 in
  fmt_padded 4 y +:+ "-" +:+ fmt_padded 2 mo +:+ "-" +:+ fmt_padded 2 d +:+ "T"
    +:+ fmt_padded 2 h +:+ ":" +:+ fmt_padded 2 mi +:+ ":" +:+ fmt_padded 2 s +:+ "Z".

Example civil_leap : unix_to_rfc3339 1709164800 = "2024-02-29T00:00:00Z".
Proof. reflexivity. Qed.
Example parse_leap : rfc3339_to_unix "2024-02-29T00:00:00Z" = Some 1709164800.
Proof. reflexivity. Qed.
Example parse_no_leap : rfc3339_to_unix "2023-02-29T00:00:00Z" = None.
Proof. reflexivity. Qed.

(** ** Fields of a fixed width *)

Definition field_check (width : nat) (n : Z) : bool :=
  let l := fmt_padded_bytes width n in
  (length l =? width)%nat && negb (in_range 128 191 (nth_code l 0))
  && bool_decide (parse_i64 (of_bytes l) = Some n).

Lemma field2_checks : forallb (field_check 2) (seqZ 0 100) = true.
Proof. vm_compute. reflexivity. Qed.

(** Sign-aware padding makes a four-character year of every year from -999 to 9999. *)
Lemma field4_checks : forallb (field_check 4) (seqZ (-999) 10999) = true.
Proof. vm_compute. reflexivity. Qed.

Lemma field_check_spec width n :
  field_check width n = true ->
  length (fmt_padded_bytes width n) = width /\
  in_range 128 191 (nth_code (fmt_padded_bytes width n) 0) = false /\
  parse_i64 (of_bytes (fmt_padded_bytes width n)) = Some n.
Proof. unfold field_check. intros H. bool_simpl. done. Qed.

Lemma field2 n :
  0 <= n <= 99 ->
  exists a b, fmt_padded_bytes 2 n = [a; b] /\ in_range 128 191 (code a) = false /\
              parse_i64 (of_bytes [a; b]) = Some n.
Proof.
  intros Hn.
  pose proof (proj1 (forallb_In _ _) field2_checks n) as H.
  apply field_check_spec in H as (Hl & Ha & Hp); [|apply elem_of_seqZ; lia].
  destruct (fmt_padded_bytes 2 n) as [|a [|b [|c l]]] eqn:E; try discriminate.
  exists a, b. done.
Qed.

Lemma field4 n :
  -999 <= n <= 9999 ->
  exists a b c d, fmt_padded_bytes 4 n = [a; b; c; d] /\ in_range 128 191 (code a) = false /\
                  parse_i64 (of_bytes [a; b; c; d]) = Some n.
Proof.
  intros Hn.
  pose proof (proj1 (forallb_In _ _) field4_checks n) as H.
  apply field_check_spec in H as (Hl & Ha & Hp); [|apply elem_of_seqZ; lia].
  destruct (fmt_padded_bytes 4 n) as [|a [|b [|c [|d [|e l]]]]] eqn:E; try discriminate.
  exists a, b, c, d. done.
Qed.

Lemma str_get_field (l : bytes) (a b : nat) c :
  (a < b < length l)%nat -> (0 < a)%nat -> l !! a = Some c -> in_range 128 191 (code c) = false ->
  in_range 128 191 (nth_code l b) = false ->
  str_get l a b = Some (of_bytes (take (b - a) (drop a l))).
Proof.
  intros Hab Ha Hc Hr Hb. unfold str_get, is_char_boundary.
  assert (nth_code l a = code c) as E by (unfold nth_code; by rewrite Hc). rewrite E, Hr, Hb.
  destruct (Nat.eqb_spec a 0), (Nat.eqb_spec b 0), (Nat.eqb_spec a (length l)),
    (Nat.eqb_spec b (length l)), (Nat.ltb_spec (length l) a), (Nat.ltb_spec (length l) b),
    (Nat.leb_spec a b); try lia. done.
Qed.

(** The parser on the bytes of a well-shaped timestamp whose fields parse. *)
Lemma rfc3339_shape (y0 y1 y2 y3 m0 m1 d0 d1 h0 h1 i0 i1 s0 s1 : ascii) y mo d h mi s :
  in_range 128 191 (code m0) = false -> in_range 128 191 (code d0) = false ->
  in_range 128 191 (code h0) = false -> in_range 128 191 (code i0) = false ->
  in_range 128 191 (code s0) = false ->
  parse_i64 (of_bytes [y0; y1; y2; y3]) = Some y -> parse_i64 (of_bytes [m0; m1]) = Some mo ->
  parse_i64 (of_bytes [d0; d1]) = Some d -> parse_i64 (of_bytes [h0; h1]) = Some h ->
  parse_i64 (of_bytes [i0; i1]) = Some mi -> parse_i64 (of_bytes [s0; s1]) = Some s ->
  valid_date y mo d -> 0 <= h <= 23 -> 0 <= mi <= 59 -> 0 <= s <= 59 ->
  rfc3339_to_unix (of_bytes ([y0; y1; y2; y3] ++ "-"%char :: [m0; m1] ++ "-"%char :: [d0; d1]
    ++ "T"%char :: [h0; h1] ++ ":"%char :: [i0; i1] ++ ":"%char :: [s0; s1] ++ ["Z"%char]))
  = Some (days_from_civil y mo d * 86400 + h * 3600 + mi * 60 + s).
Proof.
  intros Hm Hd Hh Hi Hs Py Pm Pd Ph Pi Ps (md & Hmd & Hday) Rh Ri Rs.
  unfold rfc3339_to_unix. rewrite to_of_bytes.
  set (l := [y0; y1; y2; y3] ++ _).
  assert (str_get l 0 4 = Some (of_bytes [y0; y1; y2; y3])) as -> by done.
  assert (str_get l 5 7 = Some (of_bytes [m0; m1])) as -> by (eapply str_get_field; [simpl; lia..|reflexivity|done|done]).
  assert (str_get l 8 10 = Some (of_bytes [d0; d1])) as -> by (eapply str_get_field; [simpl; lia..|reflexivity|done|done]).
  assert (str_get l 11 13 = Some (of_bytes [h0; h1])) as -> by (eapply str_get_field; [simpl; lia..|reflexivity|done|done]).
  assert (str_get l 14 16 = Some (of_bytes [i0; i1])) as -> by (eapply str_get_field; [simpl; lia..|reflexivity|done|done]).
  assert (str_get l 17 19 = Some (of_bytes [s0; s1])) as -> by (eapply str_get_field; [simpl; lia..|reflexivity|done|done]).
  assert (length l = 20%nat) as -> by done.
  assert (byte_is l 19 "Z" && byte_is l 4 "-" && byte_is l 7 "-" && byte_is l 10 "T"
          && byte_is l 13 ":" && byte_is l 16 ":" = true) as Hsep by done.
  apply andb_true_iff in Hsep as [Hsep ->]. apply andb_true_iff in Hsep as [Hsep ->].
  apply andb_true_iff in Hsep as [Hsep ->]. apply andb_true_iff in Hsep as [Hsep ->].
  apply andb_true_iff in Hsep as [-> ->].
  cbn [option_bind mbind]. rewrite Py, Pm, Pd, Ph, Pi, Ps. cbn [option_bind mbind]. rewrite Hmd.
  simpl. rewrite !(proj2 (Z.leb_le _ _)) by lia. done.
Qed.

(** ** The range on which formatting and parsing are inverse *)

(** 0000-01-01 minus 999 years, and 9999-12-31T23:59:59Z. *)
Definition rfc3339_min : Z := days_from_civil (-999) 1 1 * 86400.
Definition rfc3339_max : Z := days_from_civil 9999 12 31 * 86400 + 86399.
Definition rfc3339_representable (unix : Z) : bool :=
  (rfc3339_min <=? unix) && (unix <=? rfc3339_max).

#[local] Ltac Zify.zify_post_hook ::= Z.to_euclidean_division_equations.

Lemma civil_year_bounds z y m d :
  civil_from_days z = (y, m, d) ->
  (-999 <= y <-> days_from_civil (-999) 1 1 <= z) /\ (y <= 9999 <-> z <= days_from_civil 9999 12 31).
Proof.
  intros E. destruct (march_of_days z) as (era & yoe & doy & Hy & Hd & ->).
  rewrite (civil_from_days_march era yoe doy Hy Hd) in E. unfold march_civil in E.
  assert (0 <= doy <= 365) as Hdoy by (revert Hd; unfold year_len; destruct (leap_after yoe); simpl; lia).
  set (mp := (5 * doy + 2) / 153) in *. injection E as <- _ _.
  assert (mp < 10 <-> doy < 306) as Hmp by (unfold mp; lia).
  change (days_from_civil (-999) 1 1) with (-1084405).
  change (days_from_civil 9999 12 31) with 2932896.
  unfold year_start. zcase; lia.
Qed.

Lemma digits_go_length k : forall fuel z acc,
  (S k <= fuel)%nat -> 10 ^ Z.of_nat k <= z ->
  (S k + length acc <= length (digits_go fuel z acc))%nat.
Proof.
  induction k as [|k IH]; intros [|fuel] z acc Hf Hz; try lia; cbn [digits_go].
  - assert (forall f x a, (length a <= length (digits_go f x a))%nat) as Hmono.
    { induction f as [|f IH]; intros x a; simpl; [lia|]. destruct (x <? 10); simpl; [lia|].
      etransitivity; [|apply IH]. simpl. lia. }
    destruct (z <? 10); [simpl; lia|]. etransitivity; [|apply Hmono]. simpl. lia.
  - rewrite Nat2Z.inj_succ, Z.pow_succ_r in Hz by lia.
    assert (0 < 10 ^ Z.of_nat k) as Hp by (apply Z.pow_pos_nonneg; lia).
    rewrite (proj2 (Z.ltb_ge _ _)) by lia.
    etransitivity; [|apply IH; [lia|]].
    + simpl. lia.
    + apply Z.div_le_lower_bound; lia.
Qed.

Lemma digits_length k z :
  10 ^ Z.of_nat k <= z -> (S k <= length (digits z))%nat.
Proof.
  intros Hz. unfold digits. etransitivity; [|apply (digits_go_length k); [|done]]; [simpl; lia|].
  assert (0 < 10 ^ Z.of_nat k) as Hp by (apply Z.pow_pos_nonneg; lia).
  assert (2 ^ Z.of_nat k <= 10 ^ Z.of_nat k) as H2 by (apply Z.pow_le_mono_l; lia).
  assert (Z.of_nat k <= Z.log2 z) by (apply Z.log2_le_pow2; lia). lia.
Qed.

(** A year outside -999..9999 does not fit four characters. *)
Lemma year_field_long y :
  ~ (-999 <= y <= 9999) -> (5 <= length (fmt_padded_bytes 4 y))%nat.
Proof.
  intros Hy. unfold fmt_padded_bytes, zero_pad. destruct (Z.ltb_spec y 0); simpl.
  - pose proof (digits_length 3 (- y)) as Hlen. rewrite length_app. simpl in Hlen. lia.
  - pose proof (digits_length 4 y) as Hlen. rewrite length_app. simpl in Hlen. lia.
Qed.

Lemma unix_to_rfc3339_bytes u y mo d :
  civil_from_days (u / 86400) = (y, mo, d) ->
  exists h mi s, 0 <= h <= 23 /\ 0 <= mi <= 59 /\ 0 <= s <= 59 /\
    u = u / 86400 * 86400 + h * 3600 + mi * 60 + s /\
    unix_to_rfc3339 u = of_bytes (fmt_padded_bytes 4 y ++ "-"%char :: fmt_padded_bytes 2 mo
      ++ "-"%char :: fmt_padded_bytes 2 d ++ "T"%char :: fmt_padded_bytes 2 h
      ++ ":"%char :: fmt_padded_bytes 2 mi ++ ":"%char :: fmt_padded_bytes 2 s ++ ["Z"%char]).
Proof.
  intros E. exists (Z.quot (u mod 86400) 3600), (Z.quot (Z.rem (u mod 86400) 3600) 60), (Z.rem (u mod 86400) 60).
  repeat split; [lia..|]. unfold unix_to_rfc3339. rewrite E. unfold fmt_padded.
  repeat (rewrite of_bytes_app || rewrite of_bytes_cons). reflexivity.
Qed.

Lemma rfc3339_length ts : length (to_bytes ts) ≠ 20%nat -> rfc3339_to_unix ts = None.
Proof. intros H. unfold rfc3339_to_unix. by rewrite (proj2 (Nat.eqb_neq _ _) H). Qed.

Lemma valid_date_fields y m d : valid_date y m d -> 0 <= m <= 99 /\ 0 <= d <= 99.
Proof.
  intros (md & Hmd & Hd). apply month_cases in Hmd as [Hm Hc].
  destruct (is_leap_year y); simpl in Hc; lia.
Qed.

(** Formatting then parsing is the identity on exactly the representable instants. *)
Lemma rfc3339_to_unix_format u :
  rfc3339_to_unix (unix_to_rfc3339 u) = if rfc3339_representable u then Some u else None.
Proof.
  destruct (civil_from_days (u / 86400)) as [[y mo] d] eqn:E.
  destruct (unix_to_rfc3339_bytes u y mo d E) as (h & mi & s & Hh & Hmi & Hs & Hu & ->).
  pose proof (civil_from_days_valid (u / 86400)) as Hv. rewrite E in Hv. destruct Hv as [Hv Hdays].
  destruct (valid_date_fields _ _ _ Hv) as [Hmo Hd].
  destruct (civil_year_bounds _ _ _ _ E) as [Hlo Hhi].
  destruct (field2 mo Hmo) as (m0 & m1 & -> & Rm & Pm), (field2 d Hd) as (d0 & d1 & -> & Rd & Pd),
    (field2 h ltac:(lia)) as (h0 & h1 & -> & Rh & Ph), (field2 mi ltac:(lia)) as (i0 & i1 & -> & Ri & Pi),
    (field2 s ltac:(lia)) as (s0 & s1 & -> & Rs & Ps).
  assert (rfc3339_representable u = true <-> -999 <= y <= 9999) as Hrep.
  { unfold rfc3339_representable, rfc3339_min, rfc3339_max.
    rewrite andb_true_iff, !Z.leb_le, Hlo, Hhi. lia. }
  destruct (rfc3339_representable u) eqn:R.
  - destruct (field4 y) as (y0 & y1 & y2 & y3 & -> & Ry & Py); [by apply Hrep|].
    rewrite (rfc3339_shape y0 y1 y2 y3 m0 m1 d0 d1 h0 h1 i0 i1 s0 s1 y mo d h mi s) by done.
    rewrite Hdays. f_equal. lia.
  - apply rfc3339_length. rewrite to_of_bytes, length_app. simpl.
    pose proof (year_field_long y) as Hlong. destruct (decide (-999 <= y <= 9999)) as [Hr|Hr].
    + apply Hrep in Hr. discriminate.
    + specialize (Hlong Hr). lia.
Qed.

(** ** Claims about timestamps *)

(** Printing an instant and parsing it back gives the same instant exactly when its year has
    four characters (-999 to 9999); outside that range the printed text does not parse. *)
Theorem rfc3339_round_trip u :
  rfc3339_to_unix (unix_to_rfc3339 u) = if rfc3339_representable u then Some u else None.
Proof. apply rfc3339_to_unix_format. Qed.

(** The parser does not insist on digits: each numeric field is read by the integer parser of
    the standard library, so any five fields that it reads to a valid date and time are accepted,
    and with them a leading plus sign in place of a digit. *)
Theorem rfc3339_accepts_signed_fields :
  rfc3339_to_unix "+999-+1-+1T+0:+0:+0Z" = Some (days_from_civil 999 1 1 * 86400)%Z
  /\ rfc3339_to_unix "-001-01-01T00:00:00Z" = Some (days_from_civil (-1) 1 1 * 86400)%Z.
Proof. split; vm_compute; reflexivity. Qed.
