(* ===== verification/PathScope.v ===== *)
(** * Path scopes: lexical normalization and containment

    The path half of [conflict_detection.rs]: [normalize_segments], [path_covers],
    [claim_path_covers] and [repo_paths_overlap].  Segments are lower-cased by
    [str::to_lowercase], the parameter [ToLowercase]; every lemma holds for any such
    function unless it names [LowercaseLaws]. *)

From S2P Require Import Prelude RustStr Contracts.

Definition is_separator (c : ascii) : bool := bool_decide (c = "/"%char) || bool_decide (c = "\"%char).

Section paths.
Context `{ToLowercase}.

(** One round of the loop of [normalize_segments]; [rout] is the vector [out] reversed, so
    that its head is [out.last()]. *)
Definition normalize_step (rout : list string) (part : string) : list string :=
  if bool_decide (part = "") || bool_decide (part = ".") then rout
  else if bool_decide (part = "..") then
    match rout with
    | s :: rest => if bool_decide (s ≠ "..") then rest else ".." :: rout
    | [] => ".." :: rout
    end
  else to_lowercase part :: rout.

Definition normalize_segments (raw : string) : list string :=
  rev (foldl normalize_step [] (split is_separator raw)).

Definition path_covers (claim_segments target_segments : list string) : bool :=
  if bool_decide (claim_segments = []) || bool_decide (target_segments = []) then false
  else if bool_decide (claim_segments = target_segments) then true
  else if length target_segments <=? length claim_segments then false
  else forallb (fun '(c, t) => bool_decide (c = t)) (zip claim_segments target_segments).

Definition escapes_repo_root (segments : list string) : bool :=
  match segments with segment :: _ => bool_decide (segment = "..") | [] => false end.

Definition is_explicit_repo_root_path (raw : string) : bool :=
  forallb (fun part => str_is_empty part || bool_decide (part = ".")) (split is_separator raw).

Definition claim_path_covers (raw_claim_path : string) (target_segments : list string) : bool :=
  if bool_decide (target_segments = []) then false
  else if is_explicit_repo_root_path raw_claim_path then true
  else path_covers (normalize_segments raw_claim_path) target_segments.

Definition repo_paths_overlap (left right : RepoPath) : bool :=
  let left_is_root := is_explicit_repo_root_path (RepoPath_0 left) in
  let right_is_root := is_explicit_repo_root_path (RepoPath_0 right) in
  if left_is_root && right_is_root then true else
  let left_segments := normalize_segments (RepoPath_0 left) in
  let right_segments := normalize_segments (RepoPath_0 right) in
  if escapes_repo_root left_segments || escapes_repo_root right_segments then false
  else if left_is_root then negb (bool_decide (right_segments = []))
  else if right_is_root then negb (bool_decide (left_segments = []))
  else path_covers left_segments right_segments || path_covers right_segments left_segments.

(** ** Containment is the prefix order on segments *)

Lemma zip_all_eq_prefix (c t : list string) :
  length c <= length t ->
  forallb (fun '(c, t) => bool_decide (c = t)) (zip c t) = true <-> c `prefix_of` t.
Proof.
  revert t. induction c as [|x c IH]; intros [|y t] Hl; simpl in *; try lia.
  - split; [intros _; by exists [] | done].
  - split; [intros _; by exists (y :: t) | done].
  - rewrite andb_true_iff, IH, bool_decide_eq_true by lia. split.
    + intros [-> ?]. by apply prefix_cons.
    + intros Hp. split; [by eapply prefix_cons_inv_1 | by eapply prefix_cons_inv_2].
Qed.

Lemma path_covers_prefix c t :
  path_covers c t = true <-> c ≠ [] /\ c `prefix_of` t.
Proof.
  unfold path_covers. destruct (bool_decide_reflect (c = [])) as [->|Hc]; [naive_solver|].
  destruct (bool_decide_reflect (t = [])) as [->|Ht]; simpl.
  { split; [done|]. intros [_ Hp%prefix_nil_inv]. done. }
  destruct (bool_decide_reflect (c = t)) as [->|Hct]; [by split|].
  destruct (Nat.leb_spec (length t) (length c)) as [Hl|Hl].
  - split; [done|]. intros [_ Hp]. exfalso. apply Hct. by apply prefix_length_eq.
  - rewrite zip_all_eq_prefix by lia. naive_solver.
Qed.

Lemma claim_path_covers_spec raw t :
  claim_path_covers raw t = true <->
  t ≠ [] /\ (is_explicit_repo_root_path raw = true \/
             normalize_segments raw ≠ [] /\ normalize_segments raw `prefix_of` t).
Proof.
  unfold claim_path_covers. case_bool_decide; [naive_solver|].
  destruct (is_explicit_repo_root_path raw); [naive_solver|].
  rewrite path_covers_prefix. naive_solver.
Qed.

Lemma repo_paths_overlap_sym p q : repo_paths_overlap p q = repo_paths_overlap q p.
Proof.
  unfold repo_paths_overlap.
  destruct (is_explicit_repo_root_path (RepoPath_0 p)), (is_explicit_repo_root_path (RepoPath_0 q));
    simpl; [done|rewrite (orb_comm (escapes_repo_root _)); done..|].
  rewrite (orb_comm (escapes_repo_root _)). by rewrite (orb_comm (path_covers _ _)).
Qed.

Lemma prefix_not_escaping (c t : list string) :
  c `prefix_of` t -> c ≠ [] -> escapes_repo_root t = false -> escapes_repo_root c = false.
Proof. intros [k ->]. by destruct c. Qed.

(** An explicit root spelling normalizes to no segment. *)
Lemma root_normalizes_empty raw :
  is_explicit_repo_root_path raw = true -> normalize_segments raw = [].
Proof.
  unfold is_explicit_repo_root_path, normalize_segments. intros Hall.
  assert (foldl normalize_step [] (split is_separator raw) = []) as ->; [|done].
  induction (split is_separator raw) as [|p l IH]; [done|]. simpl in *.
  apply andb_true_iff in Hall as [Hp Hl].
  assert (normalize_step [] p = []) as ->; [|by apply IH].
  unfold normalize_step. destruct p; simpl in *; [done|]. by rewrite Hp.
Qed.

(** Two claim paths that cover one target inside the repository overlap: the overlap test
    used at acquire time is complete for the containment test used at write time. *)
Lemma cover_both_overlap p q t :
  escapes_repo_root t = false ->
  claim_path_covers (RepoPath_0 p) t = true -> claim_path_covers (RepoPath_0 q) t = true ->
  repo_paths_overlap p q = true.
Proof.
  intros Ht Hp Hq. apply claim_path_covers_spec in Hp as [Hne Hp].
  apply claim_path_covers_spec in Hq as [_ Hq]. unfold repo_paths_overlap.
  destruct (is_explicit_repo_root_path (RepoPath_0 p)) eqn:Rp,
    (is_explicit_repo_root_path (RepoPath_0 q)) eqn:Rq; simpl; [done|..].
  - destruct Hq as [|[Hqn Hqp]]; [done|].
    rewrite (root_normalizes_empty _ Rp), (prefix_not_escaping _ _ Hqp Hqn Ht). simpl.
    by rewrite bool_decide_eq_false_2.
  - destruct Hp as [|[Hpn Hpp]]; [done|].
    rewrite (root_normalizes_empty _ Rq), (prefix_not_escaping _ _ Hpp Hpn Ht). simpl.
    by rewrite bool_decide_eq_false_2.
  - destruct Hp as [|[Hpn Hpp]], Hq as [|[Hqn Hqp]]; try done.
    rewrite (prefix_not_escaping _ _ Hpp Hpn Ht), (prefix_not_escaping _ _ Hqp Hqn Ht). simpl.
    apply orb_true_iff. destruct (prefix_weak_total _ _ _ Hpp Hqp) as [Hpq|Hqp'];
      [left | right]; by apply path_covers_prefix.
Qed.

(** ** Normal form *)

Section normal_form.
Context `{!LowercaseLaws}.

(** The reversed accumulator: ordinary segments on top of preserved [..] segments. *)
Definition normal_rev (l : list string) : Prop :=
  exists k rest, l = rest ++ replicate k ".." /\ Forall (fun s => s ≠ "..") rest.

Lemma normalize_step_normal l part : normal_rev l -> normal_rev (normalize_step l part).
Proof.
  intros (k & rest & -> & Hrest). unfold normalize_step.
  case_bool_decide; simpl; [by exists k, rest|]. case_bool_decide; [by exists k, rest|].
  case_bool_decide as Hdd.
  - destruct rest as [|s rest]; simpl.
    + exists (S k), []. split; [|done]. by destruct k.
    + inversion Hrest; subst. rewrite bool_decide_eq_true_2 by done. by exists k, rest.
  - exists k, (to_lowercase part :: rest). split; [done|]. constructor; [|done].
    intros Hl. by apply lowercase_dotdot in Hl.
Qed.

Lemma normalize_normal raw : normal_rev (rev (normalize_segments raw)).
Proof.
  unfold normalize_segments. rewrite rev_involutive.
  assert (normal_rev []) as Hn by (by exists 0, []).
  revert Hn. generalize (@nil string). induction (split is_separator raw) as [|p l IH]; simpl; [done|].
  intros acc Hacc. apply IH. by apply normalize_step_normal.
Qed.

(** A normalized path is a run of [..] followed by ordinary segments. *)
Lemma normalize_shape raw :
  exists k rest, normalize_segments raw = replicate k ".." ++ rest /\ Forall (fun s => s ≠ "..") rest.
Proof.
  destruct (normalize_normal raw) as (k & rest & E & Hrest). exists k, (rev rest).
  split; [|by apply Forall_rev]. apply (f_equal (@rev string)) in E. rewrite rev_involutive in E.
  rewrite E, rev_app_distr. f_equal. by rewrite List.rev_alt; apply reverse_replicate.
Qed.

End normal_form.
End paths.

(** ** Claims about path scopes *)

Lemma overlap_shared `{ToLowercase} p q :
  repo_paths_overlap p q = true ->
  exists t, escapes_repo_root t = false
    /\ claim_path_covers (RepoPath_0 p) t = true /\ claim_path_covers (RepoPath_0 q) t = true.
Proof.
  unfold repo_paths_overlap. setoid_rewrite claim_path_covers_spec.
  destruct (is_explicit_repo_root_path (RepoPath_0 p)), (is_explicit_repo_root_path (RepoPath_0 q)); simpl.
  { intros _. exists ["x"]. naive_solver. }
  all: destruct (escapes_repo_root (normalize_segments (RepoPath_0 p))) eqn:Ep,
         (escapes_repo_root (normalize_segments (RepoPath_0 q))) eqn:Eq; simpl; try done.
  - intros Hq%negb_true_iff%bool_decide_eq_false. exists (normalize_segments (RepoPath_0 q)). naive_solver.
  - intros Hp%negb_true_iff%bool_decide_eq_false. exists (normalize_segments (RepoPath_0 p)). naive_solver.
  - intros [[Hn Hp]%path_covers_prefix|[Hn Hp]%path_covers_prefix]%orb_true_iff.
    + exists (normalize_segments (RepoPath_0 q)).
      assert (normalize_segments (RepoPath_0 q) ≠ []) by (intros E; rewrite E in Hp; by apply prefix_nil_inv in Hp).
      naive_solver.
    + exists (normalize_segments (RepoPath_0 p)).
      assert (normalize_segments (RepoPath_0 p) ≠ []) by (intros E; rewrite E in Hp; by apply prefix_nil_inv in Hp).
      naive_solver.
Qed.

(** The overlap test used when a claim is acquired is exact for the containment test used when
    a write is checked: two claim paths overlap if and only if some target inside the repository is
    covered by both, and the test is symmetric. *)
Theorem overlap_iff_shared_target `{ToLowercase} p q :
  (repo_paths_overlap p q = true <->
   exists t, escapes_repo_root t = false
     /\ claim_path_covers (RepoPath_0 p) t = true /\ claim_path_covers (RepoPath_0 q) t = true)
  /\ repo_paths_overlap p q = repo_paths_overlap q p.
Proof.
  split; [|apply repo_paths_overlap_sym]. split; [apply overlap_shared|].
  intros (t & Ht & Hp & Hq). by eapply cover_both_overlap.
Qed.

(** Normalization leaves no parent step after an ordinary segment: what remains is a run of
    [..], present exactly when the path leaves the repository, followed by ordinary segments. *)
Theorem normal_form_exact `{ToLowercase} `{!LowercaseLaws} raw :
  exists k rest, normalize_segments raw = replicate k ".." ++ rest
    /\ Forall (fun s => s ≠ "..") rest /\ (escapes_repo_root (normalize_segments raw) = true <-> k ≠ 0).
Proof.
  destruct (normalize_shape raw) as (k & rest & E & Hr). exists k, rest. split; [done|]. split; [done|].
  rewrite E. destruct k as [|k]; simpl; [|done].
  split; [|done]. destruct rest as [|s rest]; simpl; [done|]. apply Forall_cons in Hr as [Hs _].
  by rewrite bool_decide_eq_false_2.
Qed.

Lemma lower_byte_dot c : lower_byte c = "."%char -> c = "."%char.
Proof. destruct c as [[] [] [] [] [] [] [] []]; vm_compute; intros E; (reflexivity || discriminate E). Qed.

Lemma ascii_lowercase_laws : @LowercaseLaws ascii_lowercase.
Proof.
  split. intros s. cbv [to_lowercase ascii_lowercase]. unfold to_ascii_lowercase. intros E.
  destruct s as [|a [|b [|c s]]]; simpl in E; try done. injection E as Ea Eb.
  by rewrite (lower_byte_dot _ Ea), (lower_byte_dot _ Eb).
Qed.

