(* ===== verification/ClaimEngine.v ===== *)
(** * The claim lifecycle engine

    [forge-core-decisions/src/claim_engine.rs]: the pure state machine that grants, renews,
    releases, hands over and reconciles claims.  Every operation takes the claims it looks at
    and an injected clock and returns a typed verdict; the two loops of [acquire] are the
    fixpoints [acquire_scope_loop] and [acquire_path_loop]. *)

From S2P Require Import Prelude RustStr Contracts Calendar Rfc3339 PathScope.

Local Open Scope string_scope.

(** ** Requests and verdicts *)

Record AcquireRequest := {
  ar_scope_kind : ClaimScopeKind;
  ar_scope_id : ScopeId;
  ar_principal_id : option PrincipalId;
  ar_agent_id : StableId;
  ar_role : ActorRole;
  ar_ttl_seconds : Z;
  ar_heartbeat_interval_seconds : Z;
  ar_paths : list RepoPath;
  ar_product_area : option StableId;
  ar_expected_state_version : option Z
}.

Record RecordHandoffRequest := {
  rh_recorder_agent_id : StableId;
  rh_summary : string;
  rh_evidence_refs : list string
}.

Definition default_kind (self : AcquireRequest) : ClaimKind :=
  match ar_scope_kind self with
  | ClaimScopeKind_Story => ClaimKind_Story
  | ClaimScopeKind_Lane => ClaimKind_Lane
  | ClaimScopeKind_ProductArea => ClaimKind_ProductArea
  | ClaimScopeKind_Integration | ClaimScopeKind_IntegrationState => ClaimKind_Integration
  | ClaimScopeKind_Project => ClaimKind_Driver
  end.

Inductive ClaimRejection :=
| AlreadyClaimedByOther (scope_id : ScopeId) (holder : StableId) (expires_at : string)
    (conflict : option ConflictContract)
| PathAlreadyClaimed (path : RepoPath) (blocking_claim_id : ClaimId) (holder : StableId)
    (expires_at : string) (conflict : option ConflictContract)
| NotClaimant (claim_id : ClaimId) (claimant : StableId) (requested_by : StableId)
| ExpiredRequiresHandoff (claim_id : ClaimId)
| IllegalTransition (claim_id : ClaimId) (from to : ClaimStatus)
| InvalidRequest (field : string) (message : string).

Inductive ClaimLifecycleDecision :=
| Accepted (claim : ClaimContract)
| Rejected (rejection : ClaimRejection).

Record ActiveClaimSummary := {
  acs_claim_id : string;
  acs_scope_kind : string;
  acs_scope_id : string;
  acs_principal_id : option string;
  acs_agent_id : string;
  acs_role : string;
  acs_acquired_at : string;
  acs_expires_at : string;
  acs_status : string;
  acs_paths : list string
}.

Record ActiveClaimsView := { acv_active : list ActiveClaimSummary }.

Record ClaimExpiry := { ce_claim_id : ClaimId; ce_transitioned_to : ClaimStatus }.

Record ClaimReconcileTransition := {
  crt_claim_id : ClaimId;
  crt_from : ClaimStatus;
  crt_to : ClaimStatus;
  crt_reason_code : StableId;
  crt_updated : ClaimContract
}.

Record ClaimReconcileReport := {
  crr_scanned : nat;
  crr_transitions : list ClaimReconcileTransition
}.

(** ** Slugs, policy, lease arithmetic, conflict objects *)

Definition scope_kind_slug (k : ClaimScopeKind) : string :=
  match k with
  | ClaimScopeKind_Project => "project"
  | ClaimScopeKind_ProductArea => "product_area"
  | ClaimScopeKind_Story => "story"
  | ClaimScopeKind_Lane => "lane"
  | ClaimScopeKind_Integration => "integration"
  | ClaimScopeKind_IntegrationState => "integration_state"
  end.

Definition actor_role_slug (r : ActorRole) : string :=
  match r with
  | ActorRole_Driver => "driver"
  | ActorRole_Worker => "worker"
  | ActorRole_Human => "human"
  | ActorRole_Runtime => "runtime"
  | ActorRole_Unknown => "unknown"
  end.

Definition status_slug (s : ClaimStatus) : string :=
  match s with
  | ClaimStatus_Active => "active"
  | ClaimStatus_Stale => "stale"
  | ClaimStatus_Expired => "expired"
  | ClaimStatus_HandoffRequired => "handoff_required"
  | ClaimStatus_HandoffRecorded => "handoff_recorded"
  | ClaimStatus_Released => "released"
  end.

Definition default_expiry_policy : ExpiryPolicy := {|
  ep_on_expiry := ExpiryAction_RecordHandoffRequest;
  ep_handoff_required := true;
  ep_release_without_handoff_allowed := false;
  ep_reclaim_policy := ReclaimPolicy_DriverReview;
  ep_handoff_request_ref := Some (mk_RepoPath "contracts/requests/claim-expiry-handoff-request.yaml")
|}.

Definition checked_lease_expiry (now_unix ttl_seconds : Z) (field : string) : Result Z ClaimRejection :=
  match i64_try_from ttl_seconds with
  | None => Err (InvalidRequest field "lease ttl_seconds exceeds the supported signed epoch range")
  | Some ttl =>
      match i64_checked_add now_unix ttl with
      | Some e => Ok e
      | None => Err (InvalidRequest field
                  "lease expires_at would overflow the supported signed epoch range")
      end
  end.

Record ConflictActor := { ca_principal : option PrincipalId; ca_agent : StableId }.

Definition actor_principal (a : ConflictActor) : PrincipalId :=
  default (mk_PrincipalId (StableId_0 (ca_agent a))) (ca_principal a).

Definition build_conflict (requester holder : ConflictActor) (scope_kind : IntentScopeKind)
    (contested_target : string) (reason : ConflictDetectionReason) (now_unix : Z)
    : option ConflictContract :=
  let principal_a := actor_principal requester in
  let principal_b := actor_principal holder in
  if bool_decide (principal_a = principal_b) then None
  else
    let '(lo, hi) :=
      if String.leb (PrincipalId_0 principal_a) (PrincipalId_0 principal_b)
      then (PrincipalId_0 principal_a, PrincipalId_0 principal_b)
      else (PrincipalId_0 principal_b, PrincipalId_0 principal_a) in
    Some {|
      cf_conflict_id := mk_StableId ("conflict." +:+ lo +:+ "." +:+ hi +:+ "." +:+ contested_target);
      cf_intent_a := mk_StableId (PrincipalId_0 principal_a);
      cf_intent_b := mk_StableId (PrincipalId_0 principal_b);
      cf_principal_a := principal_a;
      cf_principal_b := principal_b;
      cf_contested_scope := {| is_kind := scope_kind; is_target := mk_StableId contested_target |};
      cf_detection_reason := reason;
      cf_detected_at := default 0%Z (u64_try_from (Z.max now_unix 0));
      cf_resolution := ConflictResolutionState_Pending
    |}.

(** ** Predicates *)

(** [matches!(status, ClaimStatus::Active | ClaimStatus::Stale)]. *)
Definition is_active_or_stale (s : ClaimStatus) : bool :=
  match s with ClaimStatus_Active | ClaimStatus_Stale => true | _ => false end.

Definition is_expired (claim : ClaimContract) (now_unix : Z) : bool :=
  match rfc3339_to_unix (cl_expires_at (cc_lease claim)) with
  | Some exp => (exp <=? now_unix)%Z
  | None => true
  end.

Definition is_live (claim : ClaimContract) (now_unix : Z) : bool :=
  is_active_or_stale (csr_value (cc_status claim)) && negb (is_expired claim now_unix).

Definition claim_holds_scope (claim : ClaimContract) (scope_kind : ClaimScopeKind) (scope_id : ScopeId)
    : bool :=
  bool_decide (cs_kind (cc_scope claim) = scope_kind) && bool_decide (cs_id (cc_scope claim) = scope_id).

(** ** [acquire] *)

Section acquire.
Context `{ToLowercase}.

Definition first_overlapping_path (requested existing : list RepoPath) : option RepoPath :=
  List.find (fun requested_path =>
    existsb (fun existing_path => repo_paths_overlap requested_path existing_path) existing) requested.

Definition req_actor (req : AcquireRequest) : ConflictActor :=
  {| ca_principal := ar_principal_id req; ca_agent := ar_agent_id req |}.
Definition claim_actor (c : ClaimContract) : ConflictActor :=
  {| ca_principal := ci_claimant_principal_id (cc_claim c); ca_agent := ci_claimant_agent_id (cc_claim c) |}.

Fixpoint acquire_scope_loop (active : list ClaimContract) (req : AcquireRequest) (now_unix : Z)
    : option ClaimRejection :=
  match active with
  | [] => None
  | c :: rest =>
      if negb (claim_holds_scope c (ar_scope_kind req) (ar_scope_id req))
      then acquire_scope_loop rest req now_unix
      else if is_live c now_unix then
        Some (AlreadyClaimedByOther (ar_scope_id req) (ci_claimant_agent_id (cc_claim c))
          (cl_expires_at (cc_lease c))
          (build_conflict (req_actor req) (claim_actor c) IntentScopeKind_Project
             (ScopeId_0 (ar_scope_id req)) ConflictDetectionReason_AuthorityScopeOverlap now_unix))
      else if is_active_or_stale (csr_value (cc_status c)) && is_expired c now_unix
              && ep_handoff_required (cc_expiry_policy c)
      then Some (ExpiredRequiresHandoff (cc_id c))
      else if bool_decide (csr_value (cc_status c) = ClaimStatus_HandoffRequired)
      then Some (ExpiredRequiresHandoff (cc_id c))
      else acquire_scope_loop rest req now_unix
  end.

Fixpoint acquire_path_loop (active : list ClaimContract) (req : AcquireRequest) (now_unix : Z)
    : option ClaimRejection :=
  match active with
  | [] => None
  | c :: rest =>
      match first_overlapping_path (ar_paths req) (cs_paths (cc_scope c)) with
      | None => acquire_path_loop rest req now_unix
      | Some path =>
          if is_live c now_unix then
            Some (PathAlreadyClaimed path (cc_id c) (ci_claimant_agent_id (cc_claim c))
              (cl_expires_at (cc_lease c))
              (build_conflict (req_actor req) (claim_actor c) IntentScopeKind_PathPrefix
                 (RepoPath_0 path) ConflictDetectionReason_PathOverlap now_unix))
          else if is_active_or_stale (csr_value (cc_status c)) && is_expired c now_unix
                  && ep_handoff_required (cc_expiry_policy c)
          then Some (ExpiredRequiresHandoff (cc_id c))
          else if bool_decide (csr_value (cc_status c) = ClaimStatus_HandoffRequired)
          then Some (ExpiredRequiresHandoff (cc_id c))
          else acquire_path_loop rest req now_unix
      end
  end.

(** The [ClaimId(format!(...))] of a new claim. *)
Definition claim_id_of (kind : ClaimScopeKind) (scope_id : ScopeId) : ClaimId :=
  mk_ClaimId ("claim." +:+ scope_kind_slug kind +:+ "." +:+ ScopeId_0 scope_id +:+ "." +:+ ScopeId_0 scope_id).

Definition new_claim (req : AcquireRequest) (now_unix expires_unix : Z) : ClaimContract :=
  let now := unix_to_rfc3339 now_unix in {|
    cc_id := claim_id_of (ar_scope_kind req) (ar_scope_id req);
    cc_contract_ref := mk_RepoPath "contracts/claims/claim-contract-v0.yaml";
    cc_claim := {| ci_kind := default_kind req;
                   ci_claimant_principal_id := ar_principal_id req;
                   ci_claimant_agent_id := ar_agent_id req;
                   ci_claimant_role := ar_role req;
                   ci_registry_ref := None |};
    cc_scope := {| cs_kind := ar_scope_kind req; cs_id := ar_scope_id req;
                   cs_product_area := ar_product_area req; cs_paths := ar_paths req |};
    cc_lease := {| cl_acquired_at := now; cl_last_heartbeat_at := now;
                   cl_expires_at := unix_to_rfc3339 expires_unix;
                   cl_ttl_seconds := ar_ttl_seconds req;
                   cl_heartbeat_interval_seconds := ar_heartbeat_interval_seconds req;
                   cl_expected_state_version := default 0%Z (ar_expected_state_version req) |};
    cc_status := {| csr_value := ClaimStatus_Active; csr_evaluated_at := now; csr_reason_code := None |};
    cc_expiry_policy := default_expiry_policy;
    cc_evidence_refs := []
  |}.

Definition acquire (active : list ClaimContract) (req : AcquireRequest) (now_unix : Z)
    : ClaimLifecycleDecision :=
  match acquire_scope_loop active req now_unix with
  | Some rejection => Rejected rejection
  | None =>
      match acquire_path_loop active req now_unix with
      | Some rejection => Rejected rejection
      | None =>
          match checked_lease_expiry now_unix (ar_ttl_seconds req) "ttl_seconds" with
          | Err rejection => Rejected rejection
          | Ok expires_unix => Accepted (new_claim req now_unix expires_unix)
          end
      end
  end.

End acquire.

(** ** [heartbeat], [release], [record_handoff] *)

Definition heartbeat (claim : ClaimContract) (agent_id : StableId) (now_unix : Z) : ClaimLifecycleDecision :=
  if bool_decide (ci_claimant_agent_id (cc_claim claim) ≠ agent_id)
  then Rejected (NotClaimant (cc_id claim) (ci_claimant_agent_id (cc_claim claim)) agent_id)
  else if bool_decide (csr_value (cc_status claim) = ClaimStatus_HandoffRequired)
  then Rejected (ExpiredRequiresHandoff (cc_id claim))
  else if negb (is_active_or_stale (csr_value (cc_status claim)))
  then Rejected (IllegalTransition (cc_id claim) (csr_value (cc_status claim)) ClaimStatus_Active)
  else if is_expired claim now_unix
  then Rejected (ExpiredRequiresHandoff (cc_id claim))
  else
    match checked_lease_expiry now_unix (cl_ttl_seconds (cc_lease claim)) "lease.ttl_seconds" with
    | Err rejection => Rejected rejection
    | Ok expires_unix =>
        let now := unix_to_rfc3339 now_unix in
        let lease := {|
          cl_acquired_at := cl_acquired_at (cc_lease claim);
          cl_last_heartbeat_at := now;
          cl_expires_at := unix_to_rfc3339 expires_unix;
          cl_ttl_seconds := cl_ttl_seconds (cc_lease claim);
          cl_heartbeat_interval_seconds := cl_heartbeat_interval_seconds (cc_lease claim);
          cl_expected_state_version := cl_expected_state_version (cc_lease claim) |} in
        Accepted (set_status {| csr_value := ClaimStatus_Active; csr_evaluated_at := unix_to_rfc3339 now_unix;
                                csr_reason_code := None |} (set_lease lease claim))
    end.

Definition release (claim : ClaimContract) (agent_id : StableId) (now_unix : Z) : ClaimLifecycleDecision :=
  if bool_decide (ci_claimant_agent_id (cc_claim claim) ≠ agent_id)
  then Rejected (NotClaimant (cc_id claim) (ci_claimant_agent_id (cc_claim claim)) agent_id)
  else if bool_decide (csr_value (cc_status claim) = ClaimStatus_HandoffRequired)
  then Rejected (ExpiredRequiresHandoff (cc_id claim))
  else if negb (is_active_or_stale (csr_value (cc_status claim)))
  then Rejected (IllegalTransition (cc_id claim) (csr_value (cc_status claim)) ClaimStatus_Released)
  else if is_expired claim now_unix
          && (ep_handoff_required (cc_expiry_policy claim)
              || negb (ep_release_without_handoff_allowed (cc_expiry_policy claim)))
  then Rejected (ExpiredRequiresHandoff (cc_id claim))
  else
    let now := unix_to_rfc3339 now_unix in
    Accepted (set_status {| csr_value := ClaimStatus_Released; csr_evaluated_at := now;
                            csr_reason_code := Some (mk_StableId "released_by_claimant") |} claim).

(** [if !next.evidence_refs.contains(r) { next.evidence_refs.push(r) }] for every [r]. *)
Definition push_missing (refs : list string) (evidence_ref : string) : list string :=
  if existsb (String.eqb evidence_ref) refs then refs else refs ++ [evidence_ref].

Definition record_handoff (claim : ClaimContract) (req : RecordHandoffRequest) (now_unix : Z)
    : ClaimLifecycleDecision :=
  let illegal := Rejected (IllegalTransition (cc_id claim) (csr_value (cc_status claim))
                             ClaimStatus_HandoffRecorded) in
  let record :=
    Accepted (set_evidence_refs (foldl push_missing (cc_evidence_refs claim) (rh_evidence_refs req))
      (set_status {| csr_value := ClaimStatus_HandoffRecorded;
                     csr_evaluated_at := unix_to_rfc3339 now_unix;
                     csr_reason_code := Some (mk_StableId
                       ("handoff_recorded_by_" +:+ StableId_0 (rh_recorder_agent_id req))) |} claim)) in
  if str_is_empty (trim (rh_summary req))
  then Rejected (InvalidRequest "summary" "handoff summary is required")
  else if negb (ep_handoff_required (cc_expiry_policy claim)) then illegal
  else
    match csr_value (cc_status claim) with
    | ClaimStatus_Active | ClaimStatus_Stale =>
        if negb (is_expired claim now_unix) then illegal else record
    | ClaimStatus_HandoffRequired => record
    | _ => illegal
    end.

(** ** Expiry sweep, reconciliation, the bus view *)

Definition expire_stale (claims : list ClaimContract) (now_unix : Z) : list ClaimExpiry :=
  map (fun c => {| ce_claim_id := cc_id c;
                   ce_transitioned_to := if ep_handoff_required (cc_expiry_policy c)
                                         then ClaimStatus_HandoffRequired else ClaimStatus_Expired |})
    (List.filter (fun c => is_active_or_stale (csr_value (cc_status c)) && is_expired c now_unix) claims).

Definition reconciled_transition (claim : ClaimContract) (now_unix : Z) (to : ClaimStatus)
    (reason_code : StableId) : ClaimReconcileTransition := {|
  crt_claim_id := cc_id claim;
  crt_from := csr_value (cc_status claim);
  crt_to := to;
  crt_reason_code := reason_code;
  crt_updated := set_status {| csr_value := to; csr_evaluated_at := unix_to_rfc3339 now_unix;
                               csr_reason_code := Some reason_code |} claim
|}.

Definition heartbeat_stale_reason (claim : ClaimContract) (now_unix : Z) : option StableId :=
  match rfc3339_to_unix (cl_last_heartbeat_at (cc_lease claim)) with
  | None => Some (mk_StableId "last_heartbeat_unparseable")
  | Some last_heartbeat_unix =>
      match i64_try_from (cl_heartbeat_interval_seconds (cc_lease claim)) with
      | None => Some (mk_StableId "heartbeat_interval_unrepresentable")
      | Some interval =>
          match i64_checked_add last_heartbeat_unix interval with
          | None => Some (mk_StableId "heartbeat_stale_at_overflow")
          | Some stale_at =>
              if (stale_at <=? now_unix)%Z then Some (mk_StableId "heartbeat_overdue") else None
          end
      end
  end.

Definition reconcile_claim (claim : ClaimContract) (now_unix : Z) : option ClaimReconcileTransition :=
  if is_active_or_stale (csr_value (cc_status claim)) && is_expired claim now_unix then
    let to := if ep_handoff_required (cc_expiry_policy claim)
              then ClaimStatus_HandoffRequired else ClaimStatus_Expired in
    Some (reconciled_transition claim now_unix to (mk_StableId "lease_expired"))
  else
    match csr_value (cc_status claim) with
    | ClaimStatus_Active =>
        option_map (reconciled_transition claim now_unix ClaimStatus_Stale)
          (heartbeat_stale_reason claim now_unix)
    | ClaimStatus_Stale | ClaimStatus_Expired | ClaimStatus_HandoffRequired
    | ClaimStatus_HandoffRecorded | ClaimStatus_Released => None
    end.

Definition reconcile_claims (claims : list ClaimContract) (now_unix : Z) : ClaimReconcileReport := {|
  crr_scanned := length claims;
  crr_transitions := omap (fun claim => reconcile_claim claim now_unix) claims
|}.

Definition claim_summary (c : ClaimContract) : ActiveClaimSummary := {|
  acs_claim_id := ClaimId_0 (cc_id c);
  acs_scope_kind := scope_kind_slug (cs_kind (cc_scope c));
  acs_scope_id := ScopeId_0 (cs_id (cc_scope c));
  acs_principal_id := option_map PrincipalId_0 (ci_claimant_principal_id (cc_claim c));
  acs_agent_id := StableId_0 (ci_claimant_agent_id (cc_claim c));
  acs_role := actor_role_slug (ci_claimant_role (cc_claim c));
  acs_acquired_at := cl_acquired_at (cc_lease c);
  acs_expires_at := cl_expires_at (cc_lease c);
  acs_status := status_slug (csr_value (cc_status c));
  acs_paths := map RepoPath_0 (cs_paths (cc_scope c))
|}.

Definition project_active (claims : list ClaimContract) (now_unix : Z) : ActiveClaimsView :=
  {| acv_active := map claim_summary (List.filter (fun c => is_live c now_unix) claims) |}.

(** ** What the operations promise *)

(** A claim in one of these states still owns its scope and its paths. *)
Definition is_open (c : ClaimContract) : bool :=
  match csr_value (cc_status c) with
  | ClaimStatus_Active | ClaimStatus_Stale | ClaimStatus_HandoffRequired => true
  | _ => false
  end.

(** The expiry a lease of [ttl] seconds taken at [now] gets, when it fits the clock. *)
Definition lease_in_range (now ttl : Z) : bool := in_i64 ttl && in_i64 (now + ttl).

Lemma checked_lease_expiry_spec now ttl field :
  checked_lease_expiry now ttl field =
  if in_i64 ttl then
    if in_i64 (now + ttl) then Ok (now + ttl)%Z
    else Err (InvalidRequest field "lease expires_at would overflow the supported signed epoch range")
  else Err (InvalidRequest field "lease ttl_seconds exceeds the supported signed epoch range").
Proof.
  unfold checked_lease_expiry, i64_try_from, i64_checked_add. by repeat split_match.
Qed.

Lemma checked_lease_expiry_Ok now ttl field e :
  checked_lease_expiry now ttl field = Ok e <-> lease_in_range now ttl = true /\ e = (now + ttl)%Z.
Proof.
  rewrite checked_lease_expiry_spec. unfold lease_in_range.
  destruct (in_i64 ttl), (in_i64 (now + ttl)); simpl; naive_solver.
Qed.

Lemma checked_lease_expiry_Err now ttl field r :
  checked_lease_expiry now ttl field = Err r ->
  lease_in_range now ttl = false /\ exists message, r = InvalidRequest field message.
Proof.
  rewrite checked_lease_expiry_spec. unfold lease_in_range.
  destruct (in_i64 ttl), (in_i64 (now + ttl)); simpl; naive_solver.
Qed.

Section acquire_spec.
Context `{ToLowercase}.

(** Two claims contend when they name the same scope or own overlapping paths. *)
Definition paths_overlap (ps qs : list RepoPath) : bool :=
  existsb (fun p => existsb (fun q => repo_paths_overlap p q) qs) ps.

Definition scopes_contend (s t : ClaimScope) : bool :=
  (bool_decide (cs_kind s = cs_kind t) && bool_decide (cs_id s = cs_id t))
  || paths_overlap (cs_paths s) (cs_paths t).

Lemma paths_overlap_spec ps qs :
  paths_overlap ps qs = true <-> exists p q, p ∈ ps /\ q ∈ qs /\ repo_paths_overlap p q = true.
Proof. unfold paths_overlap. rewrite existsb_In. setoid_rewrite existsb_In. naive_solver. Qed.

Lemma paths_overlap_sym ps qs : paths_overlap ps qs = paths_overlap qs ps.
Proof.
  apply eq_true_iff_eq. rewrite !paths_overlap_spec.
  split; intros (p & q & ? & ? & ?); exists q, p; rewrite repo_paths_overlap_sym; naive_solver.
Qed.

Lemma scopes_contend_sym s t : scopes_contend s t = scopes_contend t s.
Proof.
  unfold scopes_contend. rewrite paths_overlap_sym. f_equal.
  by rewrite (bool_decide_ext (cs_kind s = _) (cs_kind t = cs_kind s)),
    (bool_decide_ext (cs_id s = _) (cs_id t = cs_id s)) by done.
Qed.

Lemma first_overlapping_path_None ps qs :
  first_overlapping_path ps qs = None <-> paths_overlap ps qs = false.
Proof. unfold first_overlapping_path, paths_overlap. by rewrite find_none_In, existsb_not_In. Qed.

Lemma first_overlapping_path_Some ps qs p :
  first_overlapping_path ps qs = Some p ->
  p ∈ ps /\ (exists q, q ∈ qs /\ repo_paths_overlap p q = true) /\ paths_overlap ps qs = true.
Proof.
  unfold first_overlapping_path. intros Hf. apply find_some_In in Hf as [Hp Ho].
  split; [done|]. split; [by apply existsb_In|].
  unfold paths_overlap. apply existsb_In. eauto.
Qed.

(** The scope a request asks for. *)
Definition req_scope (req : AcquireRequest) : ClaimScope :=
  {| cs_kind := ar_scope_kind req; cs_id := ar_scope_id req;
     cs_product_area := ar_product_area req; cs_paths := ar_paths req |}.

(** The claim still needs its recorded handoff before anyone else may own the scope. *)
Definition awaits_handoff (c : ClaimContract) (now : Z) : bool :=
  (is_active_or_stale (csr_value (cc_status c)) && is_expired c now && ep_handoff_required (cc_expiry_policy c))
  || bool_decide (csr_value (cc_status c) = ClaimStatus_HandoffRequired).

Definition blocks (req : AcquireRequest) (now : Z) (c : ClaimContract) : bool :=
  scopes_contend (cc_scope c) (req_scope req) && (is_live c now || awaits_handoff c now).

Lemma claim_holds_scope_req c req :
  claim_holds_scope c (ar_scope_kind req) (ar_scope_id req)
  = (bool_decide (cs_kind (cc_scope c) = cs_kind (req_scope req))
     && bool_decide (cs_id (cc_scope c) = cs_id (req_scope req))).
Proof. done. Qed.

Definition same_scope_blocks (req : AcquireRequest) (now : Z) (c : ClaimContract) : bool :=
  claim_holds_scope c (ar_scope_kind req) (ar_scope_id req) && (is_live c now || awaits_handoff c now).
Definition same_path_blocks (req : AcquireRequest) (now : Z) (c : ClaimContract) : bool :=
  paths_overlap (ar_paths req) (cs_paths (cc_scope c)) && (is_live c now || awaits_handoff c now).

Lemma blocks_split req now c : blocks req now c = same_scope_blocks req now c || same_path_blocks req now c.
Proof.
  unfold blocks, same_scope_blocks, same_path_blocks, scopes_contend.
  rewrite claim_holds_scope_req, paths_overlap_sym. simpl. by rewrite andb_orb_distrib_l.
Qed.

(** What each rejection says about the claims the engine looked at. *)
Definition rejection_justified (active : list ClaimContract) (req : AcquireRequest) (now : Z)
    (r : ClaimRejection) : Prop :=
  match r with
  | AlreadyClaimedByOther scope_id holder expires_at conflict =>
      exists c, c ∈ active /\ is_live c now = true
        /\ claim_holds_scope c (ar_scope_kind req) (ar_scope_id req) = true
        /\ scope_id = ar_scope_id req /\ holder = ci_claimant_agent_id (cc_claim c)
        /\ expires_at = cl_expires_at (cc_lease c)
        /\ (conflict = None <-> actor_principal (req_actor req) = actor_principal (claim_actor c))
  | PathAlreadyClaimed path blocking_claim_id holder expires_at conflict =>
      exists c, c ∈ active /\ is_live c now = true
        /\ path ∈ ar_paths req /\ (exists q, q ∈ cs_paths (cc_scope c) /\ repo_paths_overlap path q = true)
        /\ blocking_claim_id = cc_id c /\ holder = ci_claimant_agent_id (cc_claim c)
        /\ expires_at = cl_expires_at (cc_lease c)
        /\ (conflict = None <-> actor_principal (req_actor req) = actor_principal (claim_actor c))
  | ExpiredRequiresHandoff claim_id =>
      exists c, c ∈ active /\ claim_id = cc_id c /\ is_live c now = false
        /\ awaits_handoff c now = true /\ scopes_contend (cc_scope c) (req_scope req) = true
  | InvalidRequest field _ =>
      field = "ttl_seconds" /\ lease_in_range now (ar_ttl_seconds req) = false
      /\ Forall (fun c => blocks req now c = false) active
  | NotClaimant _ _ _ | IllegalTransition _ _ _ => False
  end.

Lemma build_conflict_None a b k t r now :
  build_conflict a b k t r now = None <-> actor_principal a = actor_principal b.
Proof. unfold build_conflict. case_bool_decide; [done|]. by split_match. Qed.

Lemma rejection_justified_cons c active req now r :
  (forall f m, r ≠ InvalidRequest f m) ->
  rejection_justified active req now r -> rejection_justified (c :: active) req now r.
Proof.
  intros Hne. destruct r; simpl; try naive_solver;
    intros (d & Hd & Hrest); exists d; (split; [by right|done]).
Qed.

(** The two-step tail both loops share. *)
Lemma awaits_handoff_tail c now (k : option ClaimRejection) :
  (if is_active_or_stale (csr_value (cc_status c)) && is_expired c now && ep_handoff_required (cc_expiry_policy c)
   then Some (ExpiredRequiresHandoff (cc_id c))
   else if bool_decide (csr_value (cc_status c) = ClaimStatus_HandoffRequired)
   then Some (ExpiredRequiresHandoff (cc_id c)) else k)
  = if awaits_handoff c now then Some (ExpiredRequiresHandoff (cc_id c)) else k.
Proof. unfold awaits_handoff. by repeat split_match. Qed.

Lemma acquire_scope_loop_None active req now :
  acquire_scope_loop active req now = None <-> Forall (fun c => same_scope_blocks req now c = false) active.
Proof.
  induction active as [|c active IH]; simpl; [by split; [constructor|]|].
  rewrite Forall_cons, <- IH. unfold same_scope_blocks at 1.
  destruct (claim_holds_scope _ _ _); simpl; [|naive_solver].
  destruct (is_live c now) eqn:Hl; simpl; [naive_solver|].
  rewrite awaits_handoff_tail. destruct (awaits_handoff c now); naive_solver.
Qed.

Lemma acquire_path_loop_None active req now :
  acquire_path_loop active req now = None <-> Forall (fun c => same_path_blocks req now c = false) active.
Proof.
  induction active as [|c active IH]; simpl; [by split; [constructor|]|].
  rewrite Forall_cons, <- IH. unfold same_path_blocks at 1.
  destruct (first_overlapping_path _ _) as [p|] eqn:Hp.
  - apply first_overlapping_path_Some in Hp as (_ & _ & ->). simpl.
    destruct (is_live c now) eqn:Hl; simpl; [naive_solver|].
    rewrite awaits_handoff_tail. destruct (awaits_handoff c now); naive_solver.
  - apply first_overlapping_path_None in Hp as ->. simpl. naive_solver.
Qed.

Lemma acquire_scope_loop_Some active req now r :
  acquire_scope_loop active req now = Some r ->
  rejection_justified active req now r /\ forall f m, r ≠ InvalidRequest f m.
Proof.
  induction active as [|c active IH]; simpl; [done|]. intros Hr.
  assert (acquire_scope_loop active req now = Some r ->
    rejection_justified (c :: active) req now r /\ forall f m, r ≠ InvalidRequest f m) as IH'.
  { intros [? ?]%IH. split; [by apply rejection_justified_cons | done]. }
  destruct (claim_holds_scope _ _ _) eqn:Hs; simpl in Hr; [|auto].
  destruct (is_live c now) eqn:Hl.
  - simplify_eq. split; [|done]. exists c. rewrite build_conflict_None. repeat split; try done; by left.
  - rewrite awaits_handoff_tail in Hr. destruct (awaits_handoff c now) eqn:Ha; [|auto].
    simplify_eq. split; [|done]. exists c. repeat split; try done; [by left|].
    unfold scopes_contend. by rewrite <- claim_holds_scope_req, Hs.
Qed.

Lemma acquire_path_loop_Some active req now r :
  acquire_path_loop active req now = Some r ->
  rejection_justified active req now r /\ forall f m, r ≠ InvalidRequest f m.
Proof.
  induction active as [|c active IH]; simpl; [done|]. intros Hr.
  assert (acquire_path_loop active req now = Some r ->
    rejection_justified (c :: active) req now r /\ forall f m, r ≠ InvalidRequest f m) as IH'.
  { intros [? ?]%IH. split; [by apply rejection_justified_cons | done]. }
  destruct (first_overlapping_path _ _) as [p|] eqn:Hp; [|auto].
  apply first_overlapping_path_Some in Hp as (Hin & Hq & Hov).
  destruct (is_live c now) eqn:Hl.
  - simplify_eq. split; [|done]. exists c. rewrite build_conflict_None. repeat split; try done; by left.
  - rewrite awaits_handoff_tail in Hr. destruct (awaits_handoff c now) eqn:Ha; [|auto].
    simplify_eq. split; [|done]. exists c. repeat split; try done; [by left|].
    unfold scopes_contend. rewrite paths_overlap_sym. simpl. rewrite Hov. apply orb_true_r.
Qed.

Lemma acquire_loops_None active req now :
  acquire_scope_loop active req now = None /\ acquire_path_loop active req now = None
  <-> Forall (fun c => blocks req now c = false) active.
Proof.
  rewrite acquire_scope_loop_None, acquire_path_loop_None, <- Forall_and.
  apply Forall_proper; [|done]. intros c. by rewrite blocks_split, orb_false_iff.
Qed.

(** The verdict of [acquire], on every branch. *)
Lemma acquire_verdict active req now :
  match acquire active req now with
  | Accepted c =>
      Forall (fun d => blocks req now d = false) active
      /\ lease_in_range now (ar_ttl_seconds req) = true
      /\ c = new_claim req now (now + ar_ttl_seconds req)
  | Rejected r => rejection_justified active req now r
  end.
Proof.
  unfold acquire. destruct (acquire_scope_loop active req now) as [r|] eqn:Hs.
  { by apply acquire_scope_loop_Some in Hs as [? _]. }
  destruct (acquire_path_loop active req now) as [r|] eqn:Hp.
  { by apply acquire_path_loop_Some in Hp as [? _]. }
  pose proof (conj Hs Hp) as Hn. apply acquire_loops_None in Hn.
  destruct (checked_lease_expiry _ _ _) as [e|r] eqn:He.
  - by apply checked_lease_expiry_Ok in He as [? ->].
  - apply checked_lease_expiry_Err in He as [? [m ->]]. done.
Qed.

Lemma acquire_Accepted active req now c :
  acquire active req now = Accepted c <->
  Forall (fun d => blocks req now d = false) active
  /\ lease_in_range now (ar_ttl_seconds req) = true
  /\ c = new_claim req now (now + ar_ttl_seconds req).
Proof.
  split.
  - intros E. pose proof (acquire_verdict active req now) as Hv. by rewrite E in Hv.
  - intros (Hb & Hl & ->). apply acquire_loops_None in Hb as [Hs Hp]. unfold acquire. rewrite Hs, Hp.
    destruct (checked_lease_expiry _ _ _) as [e|r] eqn:He.
    + by apply checked_lease_expiry_Ok in He as [_ ->].
    + apply checked_lease_expiry_Err in He as [? _]. congruence.
Qed.

End acquire_spec.

(** ** Leases *)

(** The lease of [ttl] seconds written by [acquire] and [heartbeat], read back. *)
Lemma is_expired_formatted c e now :
  cl_expires_at (cc_lease c) = unix_to_rfc3339 e ->
  is_expired c now = negb (rfc3339_representable e && (now <? e)%Z).
Proof.
  intros He. unfold is_expired. rewrite He, rfc3339_to_unix_format.
  destruct (rfc3339_representable e); simpl; [|done]. by rewrite Z.ltb_antisym, negb_involutive.
Qed.

Lemma is_live_granted c e now :
  csr_value (cc_status c) = ClaimStatus_Active -> cl_expires_at (cc_lease c) = unix_to_rfc3339 e ->
  is_live c now = rfc3339_representable e && (now <? e)%Z.
Proof.
  intros Hs He. unfold is_live. by rewrite Hs, (is_expired_formatted c e), negb_involutive.
Qed.

(** ** Renewal, release, handoff *)

(** The claim a successful heartbeat at [now] leaves behind. *)
Definition renewed (now : Z) (claim : ClaimContract) : ClaimContract :=
  set_status {| csr_value := ClaimStatus_Active; csr_evaluated_at := unix_to_rfc3339 now; csr_reason_code := None |}
    (set_lease {| cl_acquired_at := cl_acquired_at (cc_lease claim);
                  cl_last_heartbeat_at := unix_to_rfc3339 now;
                  cl_expires_at := unix_to_rfc3339 (now + cl_ttl_seconds (cc_lease claim));
                  cl_ttl_seconds := cl_ttl_seconds (cc_lease claim);
                  cl_heartbeat_interval_seconds := cl_heartbeat_interval_seconds (cc_lease claim);
                  cl_expected_state_version := cl_expected_state_version (cc_lease claim) |} claim).

Lemma heartbeat_Accepted claim agent now c :
  heartbeat claim agent now = Accepted c <->
  ci_claimant_agent_id (cc_claim claim) = agent /\ is_live claim now = true
  /\ lease_in_range now (cl_ttl_seconds (cc_lease claim)) = true /\ c = renewed now claim.
Proof.
  unfold heartbeat, is_live. case_bool_decide as Ha; [naive_solver|].
  case_bool_decide as Hh; [rewrite Hh; simpl; naive_solver|].
  destruct (is_active_or_stale _); simpl; [|naive_solver].
  destruct (is_expired claim now); simpl; [naive_solver|].
  destruct (checked_lease_expiry _ _ _) as [e|r] eqn:He.
  - apply checked_lease_expiry_Ok in He as [? ->]. unfold renewed. split; [|naive_solver].
    by intros [= <-].
  - apply checked_lease_expiry_Err in He as [? _]. split; [done|].
    intros (_ & _ & ? & _). congruence.
Qed.

Lemma release_Accepted claim agent now c :
  release claim agent now = Accepted c <->
  ci_claimant_agent_id (cc_claim claim) = agent
  /\ is_active_or_stale (csr_value (cc_status claim)) = true
  /\ (is_expired claim now = false
      \/ ep_handoff_required (cc_expiry_policy claim) = false
         /\ ep_release_without_handoff_allowed (cc_expiry_policy claim) = true)
  /\ c = set_status {| csr_value := ClaimStatus_Released; csr_evaluated_at := unix_to_rfc3339 now;
                       csr_reason_code := Some (mk_StableId "released_by_claimant") |} claim.
Proof.
  unfold release. case_bool_decide as Ha; [naive_solver|].
  case_bool_decide as Hh; [rewrite Hh; simpl; naive_solver|].
  destruct (is_active_or_stale _); simpl; [|naive_solver].
  destruct (is_expired claim now), (ep_handoff_required _), (ep_release_without_handoff_allowed _);
    simpl; naive_solver.
Qed.

Lemma record_handoff_Accepted claim req now c :
  record_handoff claim req now = Accepted c <->
  str_is_empty (trim (rh_summary req)) = false
  /\ ep_handoff_required (cc_expiry_policy claim) = true
  /\ awaits_handoff claim now = true
  /\ c = set_evidence_refs (foldl push_missing (cc_evidence_refs claim) (rh_evidence_refs req))
           (set_status {| csr_value := ClaimStatus_HandoffRecorded;
                          csr_evaluated_at := unix_to_rfc3339 now;
                          csr_reason_code := Some (mk_StableId
                            ("handoff_recorded_by_" +:+ StableId_0 (rh_recorder_agent_id req))) |} claim).
Proof.
  unfold record_handoff, awaits_handoff.
  destruct (str_is_empty _); [naive_solver|].
  destruct (ep_handoff_required _); simpl; [|naive_solver].
  destruct (csr_value (cc_status claim)), (is_expired claim now); simpl; naive_solver.
Qed.

(** No evidence is lost when a handoff is recorded, and everything submitted is kept. *)
Lemma foldl_push_missing refs acc x : x ∈ foldl push_missing acc refs <-> x ∈ acc \/ x ∈ refs.
Proof.
  revert acc. induction refs as [|r refs IH]; intros acc; simpl; [set_solver|].
  rewrite IH. unfold push_missing at 1. destruct (existsb (String.eqb r) acc) eqn:E; [|set_solver].
  apply existsb_In in E as (y & Hy & ->%String.eqb_eq). set_solver.
Qed.

(** ** The transition relation *)

(** The documented state machine, with the two recovery edges. *)
Inductive claim_edge : ClaimStatus -> ClaimStatus -> Prop :=
| edge_heartbeat s : is_active_or_stale s = true -> claim_edge s ClaimStatus_Active
| edge_stale : claim_edge ClaimStatus_Active ClaimStatus_Stale
| edge_release s : is_active_or_stale s = true -> claim_edge s ClaimStatus_Released
| edge_expire s : is_active_or_stale s = true -> claim_edge s ClaimStatus_Expired
| edge_handoff_required s : is_active_or_stale s = true -> claim_edge s ClaimStatus_HandoffRequired
| edge_handoff_expired s : is_active_or_stale s = true -> claim_edge s ClaimStatus_HandoffRecorded
| edge_handoff : claim_edge ClaimStatus_HandoffRequired ClaimStatus_HandoffRecorded.

(** One lifecycle operation on an existing claim. *)
Inductive claim_op : ClaimContract -> ClaimContract -> Prop :=
| op_heartbeat claim agent now c : heartbeat claim agent now = Accepted c -> claim_op claim c
| op_release claim agent now c : release claim agent now = Accepted c -> claim_op claim c
| op_handoff claim req now c : record_handoff claim req now = Accepted c -> claim_op claim c
| op_reconcile claim now t : reconcile_claim claim now = Some t -> claim_op claim (crt_updated t).

Lemma reconcile_claim_Some claim now t :
  reconcile_claim claim now = Some t ->
  exists to reason, t = reconciled_transition claim now to reason
    /\ is_active_or_stale (csr_value (cc_status claim)) = true
    /\ (is_expired claim now = true
        /\ to = (if ep_handoff_required (cc_expiry_policy claim)
                 then ClaimStatus_HandoffRequired else ClaimStatus_Expired)
        /\ reason = mk_StableId "lease_expired"
        \/ is_expired claim now = false /\ csr_value (cc_status claim) = ClaimStatus_Active
           /\ to = ClaimStatus_Stale /\ heartbeat_stale_reason claim now = Some reason).
Proof.
  unfold reconcile_claim. destruct (csr_value (cc_status claim)) eqn:Hs; simpl; try done.
  - destruct (is_expired claim now) eqn:He; simpl.
    + intros [= <-]. naive_solver.
    + destruct (heartbeat_stale_reason claim now) eqn:Hr; simpl; [|done]. intros [= <-]. naive_solver.
  - destruct (is_expired claim now) eqn:He; simpl; [|done]. intros [= <-]. naive_solver.
Qed.

(** An operation rewrites the status, the lease or the evidence of a claim and nothing else. *)
Definition same_authority (c d : ClaimContract) : Prop :=
  cc_id d = cc_id c /\ cc_claim d = cc_claim c /\ cc_scope d = cc_scope c
  /\ cc_expiry_policy d = cc_expiry_policy c.

Lemma claim_op_sound c d :
  claim_op c d -> claim_edge (csr_value (cc_status c)) (csr_value (cc_status d)) /\ same_authority c d.
Proof.
  intros [claim agent now d' E|claim agent now d' E|claim req now d' E|claim now t E].
  - apply heartbeat_Accepted in E as (_ & Hl & _ & ->). unfold is_live in Hl. bool_simpl.
    split; [by constructor | done].
  - apply release_Accepted in E as (_ & Hs & _ & ->). split; [by constructor | done].
  - apply record_handoff_Accepted in E as (_ & _ & Ha & ->). split; [|done]. simpl.
    unfold awaits_handoff in Ha. apply orb_true_iff in Ha as [Ha|Ha]; bool_simpl.
    + by constructor.
    + rewrite Ha. apply edge_handoff.
  - apply reconcile_claim_Some in E as (to & reason & -> & Hs & Hcase). split; [|done]. simpl.
    destruct Hcase as [(_ & -> & _)|(_ & Ha & -> & _)].
    + destruct (ep_handoff_required _); by constructor.
    + rewrite Ha. constructor.
Qed.

Definition is_terminal (s : ClaimStatus) : bool :=
  match s with
  | ClaimStatus_Expired | ClaimStatus_HandoffRecorded | ClaimStatus_Released => true
  | _ => false
  end.

(** ** Claims about the engine *)

(** C35: [acquire] grants exactly when no claim on the bus that is live or awaiting its handoff
    shares the requested scope or overlaps a requested path, and the lease fits the clock; the
    claim granted is the requested one.  Every refusal names a claim of the bus that justifies it
    (with a conflict object exactly when the holder is another principal), or the lease overflow. *)
Theorem acquire_correct `{ToLowercase} active req now :
  match acquire active req now with
  | Accepted c =>
      Forall (fun d => blocks req now d = false) active
      /\ lease_in_range now (ar_ttl_seconds req) = true
      /\ c = new_claim req now (now + ar_ttl_seconds req)
  | Rejected r => rejection_justified active req now r
  end.
Proof. apply acquire_verdict. Qed.

(** C37: a granted or renewed claim is live exactly until [now + ttl] when that instant has a
    four-digit year; past 9999-12-31T23:59:59Z the stored expiry no longer parses and the claim
    is expired from the moment it is granted. *)
Theorem granted_claim_lifetime `{ToLowercase} active req now c t :
  (acquire active req now = Accepted c ->
   is_live c t = rfc3339_representable (now + ar_ttl_seconds req) && (t <? now + ar_ttl_seconds req)%Z)
  /\ (forall agent d, heartbeat c agent now = Accepted d ->
   is_live d t = rfc3339_representable (now + cl_ttl_seconds (cc_lease c))
                 && (t <? now + cl_ttl_seconds (cc_lease c))%Z).
Proof.
  split.
  - intros (_ & _ & ->)%acquire_Accepted. by apply is_live_granted.
  - intros agent d (_ & _ & _ & ->)%heartbeat_Accepted. by apply is_live_granted.
Qed.

(** Only the claimant can renew or release a claim; a renewal needs a live claim and a
    representable lease, a release a claim that is Active or Stale and either unexpired or free of
    any handoff duty.  These conditions are also sufficient. *)
Theorem claimant_authority claim agent now :
  ((exists c, heartbeat claim agent now = Accepted c) <->
     ci_claimant_agent_id (cc_claim claim) = agent /\ is_live claim now = true
     /\ lease_in_range now (cl_ttl_seconds (cc_lease claim)) = true)
  /\ ((exists c, release claim agent now = Accepted c) <->
     ci_claimant_agent_id (cc_claim claim) = agent
     /\ is_active_or_stale (csr_value (cc_status claim)) = true
     /\ (is_expired claim now = false
         \/ ep_handoff_required (cc_expiry_policy claim) = false
            /\ ep_release_without_handoff_allowed (cc_expiry_policy claim) = true)).
Proof.
  split; split.
  - intros [c Hc%heartbeat_Accepted]. naive_solver.
  - intros (? & ? & ?). eexists. by apply heartbeat_Accepted.
  - intros [c Hc%release_Accepted]. naive_solver.
  - intros (? & ? & ?). eexists. by apply release_Accepted.
Qed.

(** Every accepted lifecycle operation follows an edge of the state machine and keeps the
    claim's identity, holder, scope and expiry policy; no operation leaves Expired, Released or
    HandoffRecorded. *)
Theorem claim_lifecycle c d :
  claim_op c d ->
  claim_edge (csr_value (cc_status c)) (csr_value (cc_status d)) /\ same_authority c d
  /\ is_terminal (csr_value (cc_status c)) = false.
Proof.
  intros Hop. apply claim_op_sound in Hop as [He Ha]. split; [done|]. split; [done|].
  inversion He as [s Hs|Hs|s Hs|s Hs|s Hs|s Hs|Hs]; try done; by destruct (csr_value (cc_status c)).
Qed.

(** The status the reconciler leaves on a claim. *)
Definition reconciled (now : Z) (c : ClaimContract) : ClaimContract :=
  match reconcile_claim c now with Some t => crt_updated t | None => c end.

Lemma reconciled_stable now c : reconcile_claim (reconciled now c) now = None.
Proof.
  unfold reconciled. destruct (reconcile_claim c now) as [t|] eqn:E; [|done].
  apply reconcile_claim_Some in E as (to & reason & -> & Hs & Hcase). simpl.
  destruct Hcase as [(He & -> & _)|(He & Ha & -> & _)].
  - by destruct (ep_handoff_required (cc_expiry_policy c)).
  - unfold reconcile_claim. simpl. unfold is_expired in *. simpl. by rewrite He.
Qed.

(** A reconcile pass is idempotent at a fixed instant, never resurrects or drops a live claim
    (liveness of every claim is the same before and after), and its lease-expired transitions are
    the sweep of [expire_stale], in the same order. *)
Theorem reconcile_correct claims now :
  crr_transitions (reconcile_claims (map (reconciled now) claims) now) = []
  /\ Forall (fun c => is_live (reconciled now c) now = is_live c now) claims
  /\ map (fun t => {| ce_claim_id := crt_claim_id t; ce_transitioned_to := crt_to t |})
       (List.filter (fun t => bool_decide (crt_to t ≠ ClaimStatus_Stale))
          (crr_transitions (reconcile_claims claims now)))
     = expire_stale claims now.
Proof.
  split; [|split].
  - simpl. induction claims as [|c claims IH]; [done|]. simpl. by rewrite reconciled_stable.
  - apply Forall_true. intros c. unfold reconciled.
    destruct (reconcile_claim c now) as [t|] eqn:E; [|done].
    apply reconcile_claim_Some in E as (to & reason & -> & Hs & Hcase). unfold is_live. simpl.
    unfold is_expired in *. simpl. rewrite Hs. destruct Hcase as [(He & -> & _)|(He & Ha & -> & _)].
    + rewrite He. by destruct (ep_handoff_required (cc_expiry_policy c)).
    + by rewrite He.
  - simpl. unfold expire_stale. induction claims as [|c claims IH]; [done|]. simpl.
    destruct (reconcile_claim c now) as [t|] eqn:E; simpl.
    + apply reconcile_claim_Some in E as (to & reason & -> & Hs & Hcase). simpl. rewrite Hs. simpl.
      destruct Hcase as [(He & -> & _)|(He & Ha & -> & _)]; rewrite He; simpl.
      * rewrite bool_decide_eq_true_2 by (by destruct (ep_handoff_required _)). simpl. f_equal. apply IH.
      * apply IH.
    + unfold reconcile_claim in E.
      destruct (is_active_or_stale _ && is_expired _ _) ; [done|].
      apply IH.
Qed.

(** The bus view lists exactly the live claims, in bus order, with their own scope and paths. *)
Theorem project_active_correct claims now s :
  s ∈ acv_active (project_active claims now) <->
  exists c, c ∈ claims /\ is_live c now = true /\ s = claim_summary c.
Proof. simpl. rewrite map_In_iff. setoid_rewrite filter_In_iff. naive_solver. Qed.

(** A conflict object is built exactly when the two parties are different principals; it names
    both of them, starts Pending, and its id does not depend on who asked. *)
Theorem build_conflict_correct a b kind target reason now :
  (build_conflict a b kind target reason now = None <-> actor_principal a = actor_principal b)
  /\ (forall c, build_conflict a b kind target reason now = Some c ->
       cf_principal_a c = actor_principal a /\ cf_principal_b c = actor_principal b
       /\ cf_principal_a c ≠ cf_principal_b c
       /\ cf_contested_scope c = {| is_kind := kind; is_target := mk_StableId target |}
       /\ cf_resolution c = ConflictResolutionState_Pending
       /\ exists d, build_conflict b a kind target reason now = Some d /\ cf_conflict_id d = cf_conflict_id c).
Proof.
  split; [apply build_conflict_None|]. intros c. unfold build_conflict.
  case_bool_decide as Hab; [done|]. rewrite (bool_decide_eq_false_2 (actor_principal b = _)) by auto.
  destruct (String.leb _ _) eqn:L; intros [= <-]; simpl; repeat (split; [done|]).
  - destruct (String.leb (PrincipalId_0 (actor_principal b)) _) eqn:L'; eexists; (split; [done|]); simpl; [|done].
    exfalso. apply Hab. destruct (actor_principal a), (actor_principal b). simpl in *. f_equal.
    by apply String.leb_antisym.
  - destruct (String.leb (PrincipalId_0 (actor_principal b)) _) eqn:L'; [by eexists|].
    destruct (String.leb_total (PrincipalId_0 (actor_principal a)) (PrincipalId_0 (actor_principal b))); congruence.
Qed.

(** ** A concrete lifecycle *)

Module EngineExample.

#[local] Existing Instance ascii_lowercase.

Definition request : AcquireRequest := {|
  ar_scope_kind := ClaimScopeKind_Story; ar_scope_id := mk_ScopeId "story-7"; ar_principal_id := None;
  ar_agent_id := mk_StableId "worker-1"; ar_role := ActorRole_Worker; ar_ttl_seconds := 900;
  ar_heartbeat_interval_seconds := 90; ar_paths := [mk_RepoPath "src/api"]; ar_product_area := None;
  ar_expected_state_version := None |}%list.

Definition start : Z := 1750000000.
Definition held : ClaimContract := new_claim request start (start + 900).

Definition actor (name : string) : ConflictActor := {| ca_principal := None; ca_agent := mk_StableId name |}.

Lemma acquired : acquire [] request start = Accepted held.
Proof. vm_compute. reflexivity. Qed.

End EngineExample.

Lemma granted_claim_lifetime_witness :
  is_live EngineExample.held (EngineExample.start + 899) = true
  /\ is_live EngineExample.held (EngineExample.start + 900) = false.
Proof.
  pose proof (fun t => proj1 (@granted_claim_lifetime ascii_lowercase [] EngineExample.request
    EngineExample.start EngineExample.held t) EngineExample.acquired) as Hlife.
  split; rewrite Hlife; vm_compute; reflexivity.
Defined.

Lemma claim_lifecycle_witness :
  exists d, claim_op EngineExample.held d
    /\ claim_edge (csr_value (cc_status EngineExample.held)) (csr_value (cc_status d))
    /\ is_terminal (csr_value (cc_status EngineExample.held)) = false.
Proof.
  destruct (release EngineExample.held (mk_StableId "worker-1") EngineExample.start) as [d|r] eqn:E;
    [|vm_compute in E; discriminate].
  exists d. assert (claim_op EngineExample.held d) as Hop by exact (op_release _ _ _ _ E).
  split; [exact Hop|]. destruct (claim_lifecycle _ _ Hop) as (He & _ & Ht). split; [exact He | exact Ht].
Defined.

