(* ===== verification/WalFrame.v ===== *)
(** * Framed records

    What the claim log and the replay log share at the byte level: little-endian integers, slices,
    and records of a 24-byte header (magic, version, type, flags, sequence, payload length, header
    checksum), a payload and a payload checksum.  The two logs differ in their magic and in what
    their decoders accept; the constants below are declared alike in
    [forge-core-store/src/claim_wal.rs] and [replay_wal.rs].  The lemmas say what reading the header
    and the payload of a record gives, when the record is whole and when it is cut short. *)

From S2P Require Import Prelude RustStr.

(** ** Little-endian integers *)

Definition byte_of (z : Z) : ascii := ascii_of_N (Z.to_N (z mod 256)).

Fixpoint to_le_bytes (width : nat) (z : Z) : bytes :=
  match width with
  | 0 => []
  | S width => byte_of z :: to_le_bytes width (z / 256)
  end.

Fixpoint from_le_bytes (l : bytes) : Z :=
  match l with
  | [] => 0
  | c :: l => Z.of_N (code c) + 256 * from_le_bytes l
  end%Z.

(** [slice[a..b]] of an in-range range. *)
Definition slice (l : bytes) (a b : nat) : bytes := take (b - a) (drop a l).

(** [u64::try_from(usize).unwrap_or(u64::MAX)], [u64::saturating_add]. *)
Definition usize_to_u64 (n : nat) : Z := default u64_max (u64_try_from (Z.of_nat n)).
Definition u64_saturating_add (a b : Z) : Z := Z.min u64_max (a + b).

(** ** Framing constants *)

Definition VERSION : Z := 1.
Definition HEADER_LEN : nat := 24.
Definition HEADER_CRC_OFFSET : nat := 20.
Definition TRAILER_LEN : nat := 4.
Definition FLAG_PAYLOAD_JSON : Z := 4.

(** ** Lemmas: integers and slices *)

Lemma length_to_le_bytes w z : length (to_le_bytes w z) = w.
Proof. revert z. induction w as [|w IH]; intros z; simpl; [done|]. by rewrite IH. Qed.

Lemma code_byte_of z : Z.of_N (code (byte_of z)) = (z mod 256)%Z.
Proof.
  unfold code, byte_of. pose proof (Z.mod_pos_bound z 256).
  rewrite Ascii.N_ascii_embedding by lia. lia.
Qed.

Lemma from_to_le_bytes w z : from_le_bytes (to_le_bytes w z) = (z mod 256 ^ Z.of_nat w)%Z.
Proof.
  revert z. induction w as [|w IH]; intros z.
  - simpl. by rewrite Z.mod_1_r.
  - simpl from_le_bytes. rewrite IH, code_byte_of, Nat2Z.inj_succ, Z.pow_succ_r by lia.
    rewrite Z.rem_mul_r by lia. lia.
Qed.

Lemma from_to_le_small w z :
  (0 <= z < 256 ^ Z.of_nat w)%Z -> from_le_bytes (to_le_bytes w z) = z.
Proof. intros Hz. rewrite from_to_le_bytes. by apply Z.mod_small. Qed.

Lemma from_to_le_u32 z : (0 <= z <= u32_max)%Z -> from_le_bytes (to_le_bytes 4 z) = z.
Proof.
  unfold u32_max. intros Hz. apply from_to_le_small. change (256 ^ Z.of_nat 4)%Z with 4294967296%Z. lia.
Qed.

Lemma from_to_le_u64 z : in_u64 z = true -> from_le_bytes (to_le_bytes 8 z) = z.
Proof.
  unfold in_u64, u64_max. intros Hz. bool_simpl. apply from_to_le_small.
  change (256 ^ Z.of_nat 8)%Z with 18446744073709551616%Z. lia.
Qed.

Lemma from_le_one z : (0 <= z <= 255)%Z -> from_le_bytes [byte_of z] = z.
Proof. intros Hz. change [byte_of z] with (to_le_bytes 1 z). apply from_to_le_small. lia. Qed.

Lemma slice_app (a m z : bytes) i j :
  i = length a -> j = length a + length m -> slice (a ++ m ++ z) i j = m.
Proof.
  intros -> ->. unfold slice. rewrite drop_app_length.
  replace (length a + length m - length a) with (length m) by lia. apply take_app_length.
Qed.

Lemma slice_take (b : bytes) n i j : j <= n -> slice (take n b) i j = slice b i j.
Proof.
  intros Hj. unfold slice. destruct (decide (i <= j)) as [Hi|Hi].
  - rewrite !take_drop_commute, take_take. do 2 f_equal. lia.
  - by replace (j - i) with 0 by lia.
Qed.

Lemma usize_to_u64_small n : (Z.of_nat n <= i64_max)%Z -> usize_to_u64 n = Z.of_nat n.
Proof.
  intros Hn. unfold usize_to_u64, u64_try_from.
  assert (in_u64 (Z.of_nat n) = true) as ->; [|done].
  unfold in_u64, u64_max, i64_max in *. apply andb_true_iff. rewrite !Z.leb_le. lia.
Qed.

(** ** Records as bytes *)

Section frame.
Context (crc : bytes -> Z) (m0 m1 m2 m3 : ascii).

(** The first 20 header bytes of a record, and the record. *)
Definition frame_prefix (seq ty : Z) (payload : bytes) : bytes :=
  [m0; m1; m2; m3] ++ [byte_of VERSION] ++ [byte_of ty] ++ to_le_bytes 2 FLAG_PAYLOAD_JSON
    ++ to_le_bytes 8 seq ++ to_le_bytes 4 (Z.of_nat (length payload)).

Definition frame_bytes (seq ty : Z) (payload : bytes) : bytes :=
  frame_prefix seq ty payload ++ to_le_bytes 4 (crc (frame_prefix seq ty payload))
    ++ payload ++ to_le_bytes 4 (crc (frame_prefix seq ty payload ++ payload)).

(** The fields fit the header. *)
Definition fields_fit (seq ty : Z) (payload : bytes) : Prop :=
  in_u64 seq = true /\ (0 <= ty <= 255)%Z /\ (Z.of_nat (length payload) <= u32_max)%Z.

(** What a decoder reads from a header. *)
Record header_read (header : bytes) (seq ty : Z) (payload : bytes) : Prop := {
  hr_magic : slice header 0 4 = [m0; m1; m2; m3];
  hr_version : from_le_bytes (slice header 4 5) = VERSION;
  hr_type : from_le_bytes (slice header 5 6) = ty;
  hr_flags : from_le_bytes (slice header 6 8) = FLAG_PAYLOAD_JSON;
  hr_seq : from_le_bytes (slice header 8 16) = seq;
  hr_len : from_le_bytes (slice header 16 20) = Z.of_nat (length payload);
  hr_crc : from_le_bytes (slice header HEADER_CRC_OFFSET HEADER_LEN) = crc (frame_prefix seq ty payload);
  hr_prefix : slice header 0 HEADER_CRC_OFFSET = frame_prefix seq ty payload
}.

Lemma length_frame_prefix seq ty payload : length (frame_prefix seq ty payload) = HEADER_CRC_OFFSET.
Proof. done. Qed.

Lemma length_frame_bytes seq ty payload :
  length (frame_bytes seq ty payload) = HEADER_LEN + length payload + TRAILER_LEN.
Proof.
  unfold frame_bytes. rewrite !length_app, !length_to_le_bytes, length_frame_prefix.
  unfold HEADER_LEN, HEADER_CRC_OFFSET, TRAILER_LEN. lia.
Qed.

Context (crc_range : forall b, (0 <= crc b <= u32_max)%Z).

Lemma header_of_record pre seq ty payload rest :
  fields_fit seq ty payload ->
  let b := pre ++ frame_prefix seq ty payload ++ to_le_bytes 4 (crc (frame_prefix seq ty payload)) ++ rest in
  (length b - length pre <? HEADER_LEN) = false
  /\ header_read (slice b (length pre) (length pre + HEADER_LEN)) seq ty payload.
Proof.
  intros (Hseq & Hty & Hlen). set (h := frame_prefix seq ty payload). set (c := to_le_bytes 4 (crc h)). split.
  { apply Nat.ltb_ge. rewrite !length_app. simpl. unfold HEADER_LEN. lia. }
  assert (slice (pre ++ h ++ c ++ rest) (length pre) (length pre + HEADER_LEN) = h ++ c) as ->.
  { rewrite (app_assoc h c rest). by apply slice_app. }
  split; try reflexivity.
  - by apply from_le_one.
  - by apply from_to_le_u64.
  - apply from_to_le_u32. lia.
  - by apply from_to_le_u32.
Qed.

Lemma payload_of_record pre seq ty payload post :
  let b := pre ++ frame_bytes seq ty payload ++ post in
  let payload_end := length pre + HEADER_LEN + length payload in
  (length b <? payload_end + TRAILER_LEN) = false
  /\ slice b (length pre + HEADER_LEN) payload_end = payload
  /\ from_le_bytes (slice b payload_end (payload_end + TRAILER_LEN)) = crc (frame_prefix seq ty payload ++ payload).
Proof.
  intros b payload_end. split; [|split].
  - apply Nat.ltb_ge. unfold b, payload_end. rewrite !length_app, length_frame_bytes. lia.
  - unfold b, frame_bytes. rewrite <- !app_assoc.
    rewrite (app_assoc (frame_prefix _ _ _)), (app_assoc pre). apply slice_app;
      unfold payload_end; rewrite !length_app, length_to_le_bytes, length_frame_prefix;
      unfold HEADER_LEN, HEADER_CRC_OFFSET; lia.
  - rewrite <- (from_to_le_u32 (crc _)) by done. f_equal. unfold b, frame_bytes. rewrite <- !app_assoc.
    rewrite (app_assoc (frame_prefix _ _ _)), (app_assoc pre), (app_assoc (pre ++ _)).
    apply slice_app; unfold payload_end; rewrite !length_app, !length_to_le_bytes, length_frame_prefix;
      unfold HEADER_LEN, HEADER_CRC_OFFSET, TRAILER_LEN; lia.
Qed.

(** A record cut short has no whole header, or a whole header and not enough bytes after it. *)
Lemma torn_record pre seq ty payload k :
  k < length (frame_bytes seq ty payload) ->
  let b := pre ++ take k (frame_bytes seq ty payload) in
  (length b - length pre <? HEADER_LEN) = true
  \/ (length b <? length pre + HEADER_LEN + length payload + TRAILER_LEN) = true
     /\ exists rest, b = pre ++ frame_prefix seq ty payload
          ++ to_le_bytes 4 (crc (frame_prefix seq ty payload)) ++ rest.
Proof.
  intros Hk b. assert (length b = length pre + k) as Hb by (unfold b; rewrite length_app, length_take; lia).
  rewrite length_frame_bytes in Hk. destruct (decide (k < HEADER_LEN)) as [Hh|Hh].
  - left. apply Nat.ltb_lt. lia.
  - right. split; [apply Nat.ltb_lt; lia|]. unfold b, frame_bytes. rewrite app_assoc.
    rewrite take_app_ge by (rewrite length_app, length_to_le_bytes, length_frame_prefix;
      unfold HEADER_LEN, HEADER_CRC_OFFSET in *; lia).
    rewrite <- app_assoc. by eexists.
Qed.

End frame.
