(* ===== verification/ClaimWal.v ===== *)
(** * The claim write-ahead log: records, framing, recovery

    [forge-core-store/src/claim_wal.rs], the byte level.  A record is a 24-byte header
    (magic, version, type, flags, sequence, payload length, header CRC), a JSON payload and a
    payload CRC.  [encode_record] writes one, [decode_prefix] reads back the longest valid
    prefix, [recover_claim_wal] truncates a repairable tail, [append_record] is the append path.

    [crc32c], [serde_json] and [serde_json_canonicalizer] are other crates: the class
    [WalCodec], with what the log relies on in [WalCodecLaws].  The witness bundle that
    authenticates a checkpoint lives in the file system: [CheckpointAuthority]. *)

From S2P Require Import Prelude RustStr BTree Contracts WalFrame.

(** ** Records *)

Inductive ClaimWalOperation :=
| ClaimWalOperation_Acquire
| ClaimWalOperation_Release
| ClaimWalOperation_Heartbeat
| ClaimWalOperation_HandoffRecorded
| ClaimWalOperation_ReconcileStatus.

#[export] Instance ClaimWalOperation_eq_dec : EqDecision ClaimWalOperation.
Proof. solve_decision. Defined.

Definition record_type (self : ClaimWalOperation) : Z :=
  match self with
  | ClaimWalOperation_Acquire => 1
  | ClaimWalOperation_Release => 2
  | ClaimWalOperation_Heartbeat => 3
  | ClaimWalOperation_HandoffRecorded => 5
  | ClaimWalOperation_ReconcileStatus => 7
  end.

Definition from_record_type (value : Z) : option ClaimWalOperation :=
  match value with
  | 1 => Some ClaimWalOperation_Acquire
  | 2 => Some ClaimWalOperation_Release
  | 3 => Some ClaimWalOperation_Heartbeat
  | 5 => Some ClaimWalOperation_HandoffRecorded
  | 7 => Some ClaimWalOperation_ReconcileStatus
  | _ => None
  end%Z.

Record ClaimWalPayload := {
  wp_schema_version : string;
  wp_operation : ClaimWalOperation;
  wp_recorded_at : string;
  wp_claim_contract : ClaimContract
}.

#[export] Instance ClaimWalPayload_eq_dec : EqDecision ClaimWalPayload.
Proof. solve_decision. Defined.

Record ClaimWalFileAnchorBinding := {
  ab_schema_version : string;
  ab_anchor_relative_path : string;
  ab_nonce : string;
  ab_content_digest : string;
  ab_byte_length : Z
}.

Record ClaimWalCheckpointPayload := {
  cp_schema_version : string;
  cp_snapshot_path : string;
  cp_snapshot_crc32c : Z;
  cp_last_seq_in_snapshot : Z;
  cp_archived_wal_path : option string;
  cp_archived_wal_sha256 : option string;
  cp_generation_path : option string;
  cp_generation_sha256 : option string;
  cp_generation_anchor : option ClaimWalFileAnchorBinding;
  cp_created_at : string;
  cp_created_at_ms : Z
}.

Record ClaimWalSnapshotClaim := {
  sc_claim_contract : ClaimContract;
  sc_last_seq : Z;
  sc_last_operation : ClaimWalOperation;
  sc_recorded_at : string
}.

Record ClaimWalSnapshotPayload := {
  sp_schema_version : string;
  sp_created_at : string;
  sp_created_at_ms : Z;
  sp_last_seq : Z;
  sp_latest_claims : list ClaimWalSnapshotClaim
}.

Record ClaimWalRecord := {
  wr_seq : Z;
  wr_operation : ClaimWalOperation;
  wr_payload : ClaimWalPayload;
  wr_offset : Z;
  wr_record_len : Z
}.

Record ClaimWalCheckpointRecord := {
  ck_seq : Z;
  ck_payload : ClaimWalCheckpointPayload;
  ck_snapshot : ClaimWalSnapshotPayload;
  ck_offset : Z;
  ck_record_len : Z
}.

Inductive ClaimWalStopReason :=
| CleanEof | TruncatedHeader | InvalidHeader | PayloadTooLarge | TruncatedPayload
| PayloadChecksumMismatch | UnsupportedRecordType | SequenceGap | PayloadDecodeFailed
| CheckpointNotAtStart | CheckpointSnapshotInvalid | CheckpointArchiveInvalid
| CheckpointGenerationInvalid.

#[export] Instance ClaimWalStopReason_eq_dec : EqDecision ClaimWalStopReason.
Proof. solve_decision. Defined.

Record ClaimWalRecovery := {
  rc_records : list ClaimWalRecord;
  rc_checkpoint : option ClaimWalCheckpointRecord;
  rc_last_observed_seq : Z;
  rc_valid_record_count : nat;
  rc_last_good_offset : Z;
  rc_original_len : Z;
  rc_repaired : bool;
  rc_stop_reason : ClaimWalStopReason
}.

(** ** The crates the log calls *)

Class WalCodec := {
  crc32c : bytes -> Z;
  payload_to_vec : ClaimWalPayload -> option bytes;
  payload_from_slice : bytes -> option ClaimWalPayload;
  checkpoint_from_slice : bytes -> option ClaimWalCheckpointPayload;
  checkpoint_canonical_to_vec : ClaimWalCheckpointPayload -> option bytes
}.

(** A CRC-32C fits 32 bits; deserializing what was serialized gives it back. *)
Class WalCodecLaws (codec : WalCodec) := {
  crc32c_range b : (0 <= crc32c b <= u32_max)%Z;
  payload_roundtrip p b : payload_to_vec p = Some b -> payload_from_slice b = Some p
}.

(** [retain_checkpoint_witness_bundle]: the snapshot a checkpoint selects, or why it is refused. *)
Definition CheckpointAuthority : Type :=
  ClaimWalCheckpointPayload -> Z -> Result ClaimWalSnapshotPayload ClaimWalStopReason.

(** ** Framing constants *)

Definition MAGIC : bytes := to_bytes "FMW1".
Definition FLAG_SKIPPABLE_UNKNOWN : Z := 1.
Definition ALLOWED_FLAGS : Z := Z.lor FLAG_SKIPPABLE_UNKNOWN FLAG_PAYLOAD_JSON.
Definition DEFAULT_MAX_PAYLOAD_LEN : Z := 16 * 1024 * 1024.
Definition RECORD_TYPE_CHECKPOINT_REF : Z := 4.
(** [!flags] on [u16]. *)
Definition u16_not (z : Z) : Z := 65535 - z.

Record DecodedRecordFrame := {
  fr_flags : Z;
  fr_record_type : Z;
  fr_seq : Z;
  fr_payload : bytes;
  fr_record_end : nat
}.

Inductive DecodeRecordOutcome :=
| Known (record : ClaimWalRecord) (next_offset : nat)
| Checkpoint (checkpoint : ClaimWalCheckpointRecord) (next_offset : nat)
| SkippedUnknown (seq : Z) (next_offset : nat)
| Stop (reason : ClaimWalStopReason).

Section wal.
Context {codec : WalCodec}.

Definition payload_crc32c (header_prefix payload : bytes) : Z := crc32c (header_prefix ++ payload).

(** ** Encoding *)

Inductive EncodeError := EncodePayloadTooLarge (byte_len : nat).

Definition encode_record (seq record_type : Z) (payload : bytes) : Result bytes EncodeError :=
  if (Z.of_nat (length payload) <=? u32_max)%Z then
    let header := MAGIC ++ [byte_of VERSION] ++ [byte_of record_type] ++ to_le_bytes 2 FLAG_PAYLOAD_JSON
                    ++ to_le_bytes 8 seq ++ to_le_bytes 4 (Z.of_nat (length payload)) in
    let header := header ++ to_le_bytes 4 (crc32c header) in
    Ok (header ++ payload ++ to_le_bytes 4 (payload_crc32c (take HEADER_CRC_OFFSET header) payload))
  else Err (EncodePayloadTooLarge (length payload)).

(** ** Decoding *)

Definition checked_record_end (offset payload_len : nat) : Result nat ClaimWalStopReason :=
  if in_u64 (Z.of_nat (offset + HEADER_LEN + payload_len + TRAILER_LEN))
  then Ok (offset + HEADER_LEN + payload_len + TRAILER_LEN) else Err PayloadTooLarge.

Definition decode_record_frame (b : bytes) (offset : nat) : Result DecodedRecordFrame ClaimWalStopReason :=
  if length b - offset <? HEADER_LEN then Err TruncatedHeader else
  let header := slice b offset (offset + HEADER_LEN) in
  if negb (bool_decide (slice header 0 4 = MAGIC)) || negb (from_le_bytes (slice header 4 5) =? VERSION)%Z
  then Err InvalidHeader else
  let flags := from_le_bytes (slice header 6 8) in
  if negb (Z.land flags (u16_not ALLOWED_FLAGS) =? 0)%Z || (Z.land flags FLAG_PAYLOAD_JSON =? 0)%Z
  then Err InvalidHeader else
  let payload_len := from_le_bytes (slice header 16 20) in
  if (DEFAULT_MAX_PAYLOAD_LEN <? payload_len)%Z then Err PayloadTooLarge else
  let header_crc := from_le_bytes (slice header HEADER_CRC_OFFSET HEADER_LEN) in
  if negb (crc32c (slice header 0 HEADER_CRC_OFFSET) =? header_crc)%Z then Err InvalidHeader else
  let payload_len_usize := Z.to_nat payload_len in
  match checked_record_end offset payload_len_usize with
  | Err e => Err e
  | Ok record_end =>
      if length b <? record_end then Err TruncatedPayload else
      let payload_start := offset + HEADER_LEN in
      let payload_end := payload_start + payload_len_usize in
      let payload := slice b payload_start payload_end in
      let payload_crc := from_le_bytes (slice b payload_end record_end) in
      if negb (payload_crc32c (slice header 0 HEADER_CRC_OFFSET) payload =? payload_crc)%Z
      then Err PayloadChecksumMismatch
      else Ok {| fr_flags := flags; fr_record_type := from_le_bytes (slice header 5 6);
                 fr_seq := from_le_bytes (slice header 8 16); fr_payload := payload;
                 fr_record_end := record_end |}
  end.

Definition decode_checkpoint_record (offset : nat) (frame : DecodedRecordFrame)
    (authority : option CheckpointAuthority) : DecodeRecordOutcome :=
  if negb (offset =? 0) then Stop CheckpointNotAtStart else
  match checkpoint_from_slice (fr_payload frame) with
  | None => Stop PayloadDecodeFailed
  | Some decoded_payload =>
      if negb (bool_decide (checkpoint_canonical_to_vec decoded_payload = Some (fr_payload frame)))
      then Stop CheckpointGenerationInvalid else
      match u64_checked_add (cp_last_seq_in_snapshot decoded_payload) 1 with
      | None => Stop SequenceGap
      | Some expected_checkpoint_seq =>
          if negb (fr_seq frame =? expected_checkpoint_seq)%Z then Stop SequenceGap else
          match authority with
          | None => Stop CheckpointGenerationInvalid
          | Some retain =>
              match retain decoded_payload (fr_seq frame) with
              | Err reason => Stop reason
              | Ok snapshot =>
                  Checkpoint {| ck_seq := fr_seq frame; ck_payload := decoded_payload; ck_snapshot := snapshot;
                                ck_offset := usize_to_u64 offset;
                                ck_record_len := usize_to_u64 (fr_record_end frame - offset) |}
                    (fr_record_end frame)
              end
          end
      end
  end.

Definition decode_lifecycle_record (offset : nat) (operation : ClaimWalOperation)
    (frame : DecodedRecordFrame) : DecodeRecordOutcome :=
  match payload_from_slice (fr_payload frame) with
  | None => Stop PayloadDecodeFailed
  | Some decoded_payload =>
      if bool_decide (wp_operation decoded_payload ≠ operation) then Stop PayloadDecodeFailed else
      Known {| wr_seq := fr_seq frame; wr_operation := operation; wr_payload := decoded_payload;
               wr_offset := usize_to_u64 offset;
               wr_record_len := usize_to_u64 (fr_record_end frame - offset) |}
        (fr_record_end frame)
  end.

Definition decode_record_at (b : bytes) (offset : nat) (expected_seq : Z)
    (authority : option CheckpointAuthority) : DecodeRecordOutcome :=
  match decode_record_frame b offset with
  | Err reason => Stop reason
  | Ok frame =>
      if (fr_record_type frame =? RECORD_TYPE_CHECKPOINT_REF)%Z
      then decode_checkpoint_record offset frame authority
      else if negb (fr_seq frame =? expected_seq)%Z then Stop SequenceGap
      else
        match from_record_type (fr_record_type frame) with
        | None =>
            if negb (Z.land (fr_flags frame) FLAG_SKIPPABLE_UNKNOWN =? 0)%Z
            then SkippedUnknown (fr_seq frame) (fr_record_end frame)
            else Stop UnsupportedRecordType
        | Some operation => decode_lifecycle_record offset operation frame
        end
  end.

(** The locals of the loop of [decode_prefix]. *)
Record PrefixState := {
  ps_records : list ClaimWalRecord;
  ps_checkpoint : option ClaimWalCheckpointRecord;
  ps_offset : nat;
  ps_expected_seq : Z;
  ps_last_observed_seq : Z;
  ps_valid_record_count : nat;
  ps_stop_reason : ClaimWalStopReason
}.

Definition prefix_start : PrefixState := {|
  ps_records := []; ps_checkpoint := None; ps_offset := 0; ps_expected_seq := 1;
  ps_last_observed_seq := 0; ps_valid_record_count := 0; ps_stop_reason := CleanEof |}.

(** One round of the loop and whether it goes round again. *)
Definition prefix_step (b : bytes) (authority : option CheckpointAuthority) (s : PrefixState)
    : PrefixState * bool :=
  match decode_record_at b (ps_offset s) (ps_expected_seq s) authority with
  | Known record next_offset =>
      ({| ps_records := ps_records s ++ [record]; ps_checkpoint := ps_checkpoint s;
          ps_offset := next_offset; ps_expected_seq := u64_saturating_add (ps_expected_seq s) 1;
          ps_last_observed_seq := wr_seq record;
          ps_valid_record_count := S (ps_valid_record_count s);
          ps_stop_reason := ps_stop_reason s |}, true)
  | Checkpoint checkpoint next_offset =>
      ({| ps_records := ps_records s; ps_checkpoint := Some checkpoint;
          ps_offset := next_offset; ps_expected_seq := u64_saturating_add (ck_seq checkpoint) 1;
          ps_last_observed_seq := ck_seq checkpoint;
          ps_valid_record_count := S (ps_valid_record_count s);
          ps_stop_reason := ps_stop_reason s |}, true)
  | SkippedUnknown seq next_offset =>
      ({| ps_records := ps_records s; ps_checkpoint := ps_checkpoint s;
          ps_offset := next_offset; ps_expected_seq := u64_saturating_add (ps_expected_seq s) 1;
          ps_last_observed_seq := seq;
          ps_valid_record_count := S (ps_valid_record_count s);
          ps_stop_reason := ps_stop_reason s |}, true)
  | Stop reason =>
      ({| ps_records := ps_records s; ps_checkpoint := ps_checkpoint s;
          ps_offset := ps_offset s; ps_expected_seq := ps_expected_seq s;
          ps_last_observed_seq := ps_last_observed_seq s;
          ps_valid_record_count := ps_valid_record_count s;
          ps_stop_reason := reason |}, false)
  end.

(** The loop; [None] is running out of fuel, which [decode_loop_enough] excludes. *)
Fixpoint decode_loop (fuel : nat) (b : bytes) (authority : option CheckpointAuthority) (s : PrefixState)
    : option PrefixState :=
  match fuel with
  | 0 => None
  | S fuel =>
      if length b - ps_offset s =? 0 then Some s
      else
        let '(s', continue) := prefix_step b authority s in
        if continue then decode_loop fuel b authority s' else Some s'
  end.

Definition recovery_of (b : bytes) (s : PrefixState) : ClaimWalRecovery := {|
  rc_records := ps_records s; rc_checkpoint := ps_checkpoint s;
  rc_last_observed_seq := ps_last_observed_seq s;
  rc_valid_record_count := ps_valid_record_count s;
  rc_last_good_offset := usize_to_u64 (ps_offset s);
  rc_original_len := usize_to_u64 (length b);
  rc_repaired := false;
  rc_stop_reason := ps_stop_reason s |}.

Definition decode_prefix (b : bytes) (authority : option CheckpointAuthority) : ClaimWalRecovery :=
  recovery_of b (default prefix_start (decode_loop (S (length b)) b authority prefix_start)).

(** ** Recovery and append *)

Definition reject_unselected_checkpoint_residue (r : ClaimWalRecovery) : ClaimWalRecovery := {|
  rc_records := []; rc_checkpoint := None; rc_last_observed_seq := 0; rc_valid_record_count := 0;
  rc_last_good_offset := 0; rc_original_len := rc_original_len r; rc_repaired := false;
  rc_stop_reason := CheckpointGenerationInvalid |}.

Definition is_repairable_stop_reason (reason : ClaimWalStopReason) : bool :=
  match reason with
  | CleanEof | CheckpointSnapshotInvalid | CheckpointArchiveInvalid | CheckpointGenerationInvalid
  | CheckpointNotAtStart => false
  | _ => true
  end.

(** What recovery sees of the directory around the log: the checkpoint authority, and whether a
    log that selects no checkpoint lies beside checkpoint files it does not name. *)
Record WalDirectory := {
  wd_authority : CheckpointAuthority;
  wd_unselected_residue : bool
}.

Definition set_repaired (r : ClaimWalRecovery) : ClaimWalRecovery := {|
  rc_records := rc_records r; rc_checkpoint := rc_checkpoint r;
  rc_last_observed_seq := rc_last_observed_seq r; rc_valid_record_count := rc_valid_record_count r;
  rc_last_good_offset := rc_last_good_offset r; rc_original_len := rc_original_len r;
  rc_repaired := true; rc_stop_reason := rc_stop_reason r |}.

(** [recover_claim_wal_file_under_lock] with the repair done in place ([set_len]): the recovery
    and the bytes the log has afterwards. *)
Definition recover_claim_wal (dir : WalDirectory) (b : bytes) (repair : bool) : ClaimWalRecovery * bytes :=
  let decoded := decode_prefix b (Some (wd_authority dir)) in
  let original_len := rc_original_len decoded in
  let decoded := match rc_checkpoint decoded with
                 | None => if wd_unselected_residue dir
                           then reject_unselected_checkpoint_residue decoded else decoded
                 | Some _ => decoded
                 end in
  if repair && (rc_last_good_offset decoded <? original_len)%Z
     && is_repairable_stop_reason (rc_stop_reason decoded)
  then (set_repaired decoded, take (Z.to_nat (rc_last_good_offset decoded)) b)
  else (decoded, b).

Inductive ClaimWalAppendError :=
| AppendRecoveryStopped (stop_reason : ClaimWalStopReason) (last_good_offset original_len : Z)
| AppendSerialize
| AppendPayloadTooLarge (byte_len : nat)
| AppendSequenceOverflow (last_seq : Z).

Definition ensure_recovered_appendable (r : ClaimWalRecovery) : Result unit ClaimWalAppendError :=
  if bool_decide (rc_stop_reason r = CleanEof) || rc_repaired r then Ok tt
  else Err (AppendRecoveryStopped (rc_stop_reason r) (rc_last_good_offset r) (rc_original_len r)).

Definition lifecycle_payload_bytes (operation : ClaimWalOperation) (claim_contract : ClaimContract)
    (recorded_at : string) : Result bytes ClaimWalAppendError :=
  let payload := {| wp_schema_version := "0.1"; wp_operation := operation;
                    wp_recorded_at := recorded_at; wp_claim_contract := claim_contract |} in
  match payload_to_vec payload with
  | None => Err AppendSerialize
  | Some payload_bytes =>
      if (DEFAULT_MAX_PAYLOAD_LEN <? Z.of_nat (length payload_bytes))%Z
      then Err (AppendPayloadTooLarge (length payload_bytes)) else Ok payload_bytes
  end.

(** *** Rotation thresholds *)

Inductive ClaimWalRotationReason := WalSizeBytes | RecordCount | ReplayDurationMillis.

Definition DEFAULT_ROTATE_MAX_WAL_BYTES : Z := 64 * 1024 * 1024.
Definition DEFAULT_ROTATE_MAX_RECORDS : Z := 100000.
Definition DEFAULT_ROTATE_MAX_REPLAY_MILLIS : Z := 250.

Record ClaimWalRotationOptions := {
  max_wal_bytes : Z;
  max_records : Z;
  max_replay_millis : Z
}.

Definition ClaimWalRotationOptions_default : ClaimWalRotationOptions := {|
  max_wal_bytes := DEFAULT_ROTATE_MAX_WAL_BYTES;
  max_records := DEFAULT_ROTATE_MAX_RECORDS;
  max_replay_millis := DEFAULT_ROTATE_MAX_REPLAY_MILLIS |}.

Definition rotation_reason (wal_bytes record_count replay_millis : Z) (options : ClaimWalRotationOptions)
    : option ClaimWalRotationReason :=
  if (max_wal_bytes options <? wal_bytes)%Z then Some WalSizeBytes
  else if (max_records options <? record_count)%Z then Some RecordCount
  else if (max_replay_millis options <? replay_millis)%Z then Some ReplayDurationMillis
  else None.

(** The decision of [maybe_rotate_after_append]; the rotation it starts is not modelled. *)
Definition rotation_due (recovery : ClaimWalRecovery) (record_byte_len : nat) (recovery_elapsed_ms : Z)
    : option ClaimWalRotationReason :=
  let post_append_len := u64_saturating_add (rc_last_good_offset recovery) (usize_to_u64 record_byte_len) in
  let post_append_records := u64_saturating_add (usize_to_u64 (rc_valid_record_count recovery)) 1 in
  rotation_reason post_append_len post_append_records recovery_elapsed_ms ClaimWalRotationOptions_default.

(** What [append_claim_wal_record] is about to write, and whether it will rotate the log once the
    record is written. *)
Record ClaimWalAppend := {
  wa_record : bytes;
  wa_rotation : option ClaimWalRotationReason
}.

(** [append_claim_wal_record_under_retained_lock]: the log after its repair, and either the record
    to be written at its end with the rotation that follows, or the refusal. *)
Definition append_claim_wal_record (dir : WalDirectory) (b : bytes) (operation : ClaimWalOperation)
    (claim_contract : ClaimContract) (recorded_at : string) (recovery_elapsed_ms : Z)
    : Result ClaimWalAppend ClaimWalAppendError * bytes :=
  let '(recovery, b') := recover_claim_wal dir b true in
  (match ensure_recovered_appendable recovery with
   | Err e => Err e
   | Ok _ =>
       match u64_checked_add (rc_last_observed_seq recovery) 1 with
       | None => Err (AppendSequenceOverflow (rc_last_observed_seq recovery))
       | Some seq =>
           match lifecycle_payload_bytes operation claim_contract recorded_at with
           | Err e => Err e
           | Ok payload_bytes =>
               match encode_record seq (record_type operation) payload_bytes with
               | Err (EncodePayloadTooLarge n) => Err (AppendPayloadTooLarge n)
               | Ok record_bytes =>
                   Ok {| wa_record := record_bytes;
                         wa_rotation := rotation_due recovery (length record_bytes) recovery_elapsed_ms |}
               end
           end
       end
   end, b').

(** ** Lemmas: termination of the decoder *)

Lemma decode_record_frame_end b offset frame :
  decode_record_frame b offset = Ok frame ->
  offset + HEADER_LEN + TRAILER_LEN <= fr_record_end frame <= length b.
Proof.
  unfold decode_record_frame, checked_record_end. intros Hd.
  destruct (length b - offset <? HEADER_LEN); [done|].
  repeat (match type of Hd with (if ?c then _ else _) = _ => destruct c; [done|] end).
  destruct (in_u64 _); [|done].
  destruct (length b <? _) eqn:L; [done|]. destruct (negb _); [done|].
  simplify_eq. simpl. apply Nat.ltb_ge in L. lia.
Qed.

Lemma prefix_step_advances b authority s s' :
  prefix_step b authority s = (s', true) -> ps_offset s < ps_offset s' <= length b.
Proof.
  unfold prefix_step, decode_record_at.
  destruct (decode_record_frame b (ps_offset s)) as [frame|] eqn:Hf; [|done].
  apply decode_record_frame_end in Hf. unfold HEADER_LEN, TRAILER_LEN in Hf.
  destruct (fr_record_type frame =? RECORD_TYPE_CHECKPOINT_REF)%Z.
  - unfold decode_checkpoint_record. intros Hs. inv_match Hs; simpl; lia.
  - destruct (negb _); [done|]. destruct (from_record_type _).
    + unfold decode_lifecycle_record. intros Hs. inv_match Hs; simpl; lia.
    + intros Hs. inv_match Hs; simpl; lia.
Qed.

(** The fuel [decode_prefix] gives its loop is enough. *)
Lemma decode_loop_enough fuel b authority s :
  length b - ps_offset s < fuel -> is_Some (decode_loop fuel b authority s).
Proof.
  revert s. induction fuel as [|fuel IH]; intros s Hf; [lia|]. simpl.
  destruct (_ =? 0) eqn:E; [by eexists|]. apply Nat.eqb_neq in E.
  destruct (prefix_step b authority s) as [s' []] eqn:Hs; [|by eexists].
  apply prefix_step_advances in Hs. apply IH. lia.
Qed.

Lemma decode_loop_mono fuel fuel' b authority s r :
  decode_loop fuel b authority s = Some r -> fuel <= fuel' -> decode_loop fuel' b authority s = Some r.
Proof.
  revert fuel' s. induction fuel as [|fuel IH]; intros [|fuel'] s; simpl; try done; [lia|].
  intros Hd Hle. destruct (_ =? 0); [done|].
  destruct (prefix_step b authority s) as [s' []]; [|done]. apply IH; [done|lia].
Qed.

Lemma decode_prefix_loop fuel b authority r :
  decode_loop fuel b authority prefix_start = Some r -> decode_prefix b authority = recovery_of b r.
Proof.
  intros Hr. unfold decode_prefix.
  destruct (decode_loop_enough (S (length b)) b authority prefix_start) as [r' Hr']; [simpl; lia|].
  rewrite Hr'. simpl.
  apply (decode_loop_mono _ (Nat.max fuel (S (length b)))) in Hr; [|lia].
  apply (decode_loop_mono _ (Nat.max fuel (S (length b)))) in Hr'; [|lia]. congruence.
Qed.

End wal.

(** ** Well-formed logs *)

Section log.
Context {codec : WalCodec} {laws : WalCodecLaws codec}.

(** A record as it is written. *)
Definition record_bytes (seq ty : Z) (payload : bytes) : bytes := frame_bytes crc32c "F" "M" "W" "1" seq ty payload.

Lemma encode_record_bytes seq ty payload :
  (Z.of_nat (length payload) <= DEFAULT_MAX_PAYLOAD_LEN)%Z ->
  encode_record seq ty payload = Ok (record_bytes seq ty payload).
Proof.
  intros Hl. unfold encode_record.
  assert ((Z.of_nat (length payload) <=? u32_max)%Z = true) as ->
    by (apply Z.leb_le; unfold DEFAULT_MAX_PAYLOAD_LEN, u32_max in *; lia).
  unfold record_bytes, frame_bytes. fold (frame_prefix "F" "M" "W" "1" seq ty payload).
  rewrite take_app_length' by done. by rewrite <- app_assoc.
Qed.

Lemma length_record_bytes seq ty payload :
  length (record_bytes seq ty payload) = HEADER_LEN + length payload + TRAILER_LEN.
Proof. apply length_frame_bytes. Qed.

(** A record is well formed when its fields fit the header. *)
Definition frame_ok (seq ty : Z) (payload : bytes) : Prop :=
  in_u64 seq = true /\ (0 <= ty <= 255)%Z /\ (Z.of_nat (length payload) <= DEFAULT_MAX_PAYLOAD_LEN)%Z.

Lemma frame_ok_fits seq ty payload : frame_ok seq ty payload -> fields_fit seq ty payload.
Proof. intros (? & ? & ?). unfold fields_fit, DEFAULT_MAX_PAYLOAD_LEN, u32_max in *. repeat split; (done || lia). Qed.

(** Everything [decode_record_frame] checks before it looks at the payload. *)
Lemma decode_record_header b offset seq ty payload :
  frame_ok seq ty payload -> (Z.of_nat offset <= i64_max)%Z ->
  (length b - offset <? HEADER_LEN) = false ->
  header_read crc32c "F" "M" "W" "1" (slice b offset (offset + HEADER_LEN)) seq ty payload ->
  decode_record_frame b offset
  = let payload_end := offset + HEADER_LEN + length payload in
    let record_end := payload_end + TRAILER_LEN in
    if length b <? record_end then Err TruncatedPayload else
    let body := slice b (offset + HEADER_LEN) payload_end in
    if negb (crc32c (frame_prefix "F" "M" "W" "1" seq ty payload ++ body)
             =? from_le_bytes (slice b payload_end record_end))%Z
    then Err PayloadChecksumMismatch
    else Ok {| fr_flags := FLAG_PAYLOAD_JSON; fr_record_type := ty; fr_seq := seq;
               fr_payload := body; fr_record_end := record_end |}.
Proof.
  intros (Hseq & Hty & Hlen) Ho Hb [E1 E2 E3 E4 E5 E6 E7 E8]. unfold decode_record_frame.
  rewrite Hb, E1, E2, E3, E4, E5, E6, E7, E8. rewrite bool_decide_eq_true_2 by done. rewrite Z.eqb_refl. simpl orb. cbv iota.
  change (negb (Z.land FLAG_PAYLOAD_JSON (u16_not ALLOWED_FLAGS) =? 0)%Z
          || (Z.land FLAG_PAYLOAD_JSON FLAG_PAYLOAD_JSON =? 0)%Z) with false. cbv iota.
  assert ((DEFAULT_MAX_PAYLOAD_LEN <? Z.of_nat (length payload))%Z = false) as -> by (apply Z.ltb_ge; lia).
  rewrite Z.eqb_refl, Nat2Z.id. simpl negb. cbv iota. unfold checked_record_end, payload_crc32c.
  assert (in_u64 (Z.of_nat (offset + HEADER_LEN + length payload + TRAILER_LEN)) = true) as ->; [|done].
  unfold in_u64, u64_max, i64_max, DEFAULT_MAX_PAYLOAD_LEN, HEADER_LEN, TRAILER_LEN in *.
  apply andb_true_iff. rewrite !Z.leb_le. lia.
Qed.

Lemma decode_record_frame_encoded pre seq ty payload post :
  frame_ok seq ty payload -> (Z.of_nat (length pre) <= i64_max)%Z ->
  decode_record_frame (pre ++ record_bytes seq ty payload ++ post) (length pre)
  = Ok {| fr_flags := FLAG_PAYLOAD_JSON; fr_record_type := ty; fr_seq := seq; fr_payload := payload;
          fr_record_end := length pre + length (record_bytes seq ty payload) |}.
Proof.
  intros Hok Hpre.
  destruct (payload_of_record crc32c "F" "M" "W" "1" crc32c_range pre seq ty payload post) as (Hl & Hp & Ht).
  destruct (header_of_record crc32c "F" "M" "W" "1" crc32c_range pre seq ty payload
    (payload ++ to_le_bytes 4 (crc32c (frame_prefix "F" "M" "W" "1" seq ty payload ++ payload)) ++ post)) as [Hb Hh];
    [by apply frame_ok_fits|].
  rewrite length_record_bytes. unfold record_bytes. unfold frame_bytes in *. rewrite <- !app_assoc in *.
  rewrite (decode_record_header _ _ seq ty payload) by done. cbv zeta. rewrite Hl, Hp, Ht, Z.eqb_refl, !Nat.add_assoc. done.
Qed.

(** A record cut short anywhere is a truncation, never a checksum or header error. *)
Lemma decode_record_frame_torn pre seq ty payload k :
  frame_ok seq ty payload -> (Z.of_nat (length pre) <= i64_max)%Z ->
  k < length (record_bytes seq ty payload) ->
  exists reason, decode_record_frame (pre ++ take k (record_bytes seq ty payload)) (length pre) = Err reason
    /\ (reason = TruncatedHeader \/ reason = TruncatedPayload).
Proof.
  intros Hok Hpre Hk. destruct (torn_record crc32c "F" "M" "W" "1" pre seq ty payload k Hk) as [Hb|[Hl [rest Hr]]].
  - exists TruncatedHeader. split; [|by left]. unfold decode_record_frame, record_bytes. by rewrite Hb.
  - exists TruncatedPayload. split; [|by right]. unfold record_bytes. rewrite Hr in *.
    destruct (header_of_record crc32c "F" "M" "W" "1" crc32c_range pre seq ty payload rest) as [Hb Hh]; [by apply frame_ok_fits|].
    rewrite (decode_record_header _ _ seq ty payload) by done. cbv zeta. by rewrite Hl.
Qed.

(** A log written record by record: sequence numbers 1, 2, ..., offsets as written. *)
Definition next_seq (rs : list ClaimWalRecord) : Z := Z.of_nat (length rs) + 1.

Definition log_record (b : bytes) (rs : list ClaimWalRecord) (p : ClaimWalPayload) (v : bytes) : ClaimWalRecord := {|
  wr_seq := next_seq rs; wr_operation := wp_operation p; wr_payload := p;
  wr_offset := Z.of_nat (length b);
  wr_record_len := Z.of_nat (length (record_bytes (next_seq rs) (record_type (wp_operation p)) v)) |}.

Inductive wal_log : bytes -> list ClaimWalRecord -> Prop :=
| wal_log_nil : wal_log [] []
| wal_log_snoc b rs p v :
    wal_log b rs -> payload_to_vec p = Some v ->
    (Z.of_nat (length v) <= DEFAULT_MAX_PAYLOAD_LEN)%Z ->
    (next_seq rs <= u64_max)%Z ->
    wal_log (b ++ record_bytes (next_seq rs) (record_type (wp_operation p)) v) (rs ++ [log_record b rs p v]).

(** The decoder state after reading exactly the records [rs]. *)
Definition read_state (b : bytes) (rs : list ClaimWalRecord) : PrefixState := {|
  ps_records := rs; ps_checkpoint := None; ps_offset := length b;
  ps_expected_seq := Z.min u64_max (next_seq rs); ps_last_observed_seq := Z.of_nat (length rs);
  ps_valid_record_count := length rs; ps_stop_reason := CleanEof |}.

Lemma record_type_facts op :
  (0 <= record_type op <= 255)%Z /\ from_record_type (record_type op) = Some op
  /\ (record_type op =? RECORD_TYPE_CHECKPOINT_REF)%Z = false.
Proof. by destruct op. Qed.

Lemma next_seq_frame_ok rs p v :
  (Z.of_nat (length v) <= DEFAULT_MAX_PAYLOAD_LEN)%Z -> (next_seq rs <= u64_max)%Z ->
  frame_ok (next_seq rs) (record_type (wp_operation p)) v.
Proof.
  intros Hv Hs. split; [|split; [apply record_type_facts | done]].
  unfold in_u64, next_seq in *. apply andb_true_iff. rewrite !Z.leb_le. lia.
Qed.

Lemma prefix_step_log b rs p v post authority :
  payload_to_vec p = Some v -> (Z.of_nat (length v) <= DEFAULT_MAX_PAYLOAD_LEN)%Z ->
  (next_seq rs <= u64_max)%Z ->
  let rec := record_bytes (next_seq rs) (record_type (wp_operation p)) v in
  (Z.of_nat (length (b ++ rec)) <= i64_max)%Z ->
  prefix_step (b ++ rec ++ post) authority (read_state b rs)
  = (read_state (b ++ rec) (rs ++ [log_record b rs p v]), true).
Proof.
  intros Hp Hv Hs rec Hlen. rewrite length_app in Hlen. unfold prefix_step, decode_record_at. simpl ps_offset.
  unfold rec. rewrite decode_record_frame_encoded by (lia || by apply next_seq_frame_ok). fold rec.
  destruct (record_type_facts (wp_operation p)) as (_ & Hop & Hck). cbv [fr_record_type fr_seq fr_flags].
  rewrite Hck, Hop. simpl ps_expected_seq. rewrite Z.min_r, Z.eqb_refl by done. simpl negb. cbv iota.
  unfold decode_lifecycle_record. simpl fr_payload. rewrite (payload_roundtrip _ _ Hp).
  rewrite bool_decide_eq_false_2 by (intros Hn; by apply Hn).
  unfold read_state, log_record. fold rec. clearbody rec. simpl. rewrite !length_app. unfold u64_saturating_add, next_seq.
  replace (length b + length rec - length b) with (length rec) by lia.
  rewrite !usize_to_u64_small by lia. repeat f_equal; rewrite ?length_app; simpl; lia.
Qed.

Lemma wal_log_len b rs : wal_log b rs -> length rs <= length b.
Proof.
  induction 1 as [|b rs p v _ IH _ _ _]; [done|]. rewrite !length_app, length_record_bytes.
  simpl. unfold HEADER_LEN. lia.
Qed.

Lemma decode_loop_S fuel b authority s :
  decode_loop (S fuel) b authority s =
  if length b - ps_offset s =? 0 then Some s
  else if (prefix_step b authority s).2 then decode_loop fuel b authority (prefix_step b authority s).1
       else Some (prefix_step b authority s).1.
Proof. simpl. by destruct (prefix_step b authority s) as [? []]. Qed.

Lemma decode_loop_log b rs post authority fuel :
  wal_log b rs -> (Z.of_nat (length b) <= i64_max)%Z ->
  decode_loop (length rs + fuel) (b ++ post) authority prefix_start
  = decode_loop fuel (b ++ post) authority (read_state b rs).
Proof.
  intros Hlog. revert post fuel. induction Hlog as [|b rs p v Hlog IH Hp Hv Hs]; intros post fuel Hlen.
  - done.
  - rewrite length_app in Hlen. pose proof (prefix_step_log b rs p v post authority Hp Hv Hs) as Hstep.
    cbv zeta in Hstep. rewrite length_app in Hstep. specialize (Hstep Hlen).
    rewrite (length_app rs), <- Nat.add_assoc, <- app_assoc, IH by lia. simpl (length [_] + fuel).
    rewrite decode_loop_S, Hstep. cbv [ps_offset read_state fst snd].
    assert ((_ =? 0) = false) as ->; [|done].
    apply Nat.eqb_neq. rewrite !length_app, length_record_bytes. unfold HEADER_LEN. lia.
Qed.

(** A state that met a record it could not read. *)
Definition stopped (s : PrefixState) (reason : ClaimWalStopReason) : PrefixState := {|
  ps_records := ps_records s; ps_checkpoint := ps_checkpoint s; ps_offset := ps_offset s;
  ps_expected_seq := ps_expected_seq s; ps_last_observed_seq := ps_last_observed_seq s;
  ps_valid_record_count := ps_valid_record_count s; ps_stop_reason := reason |}.

Lemma decode_loop_stop b authority s reason :
  ps_offset s < length b -> decode_record_frame b (ps_offset s) = Err reason ->
  decode_loop 1 b authority s = Some (stopped s reason).
Proof.
  intros Hl Hd. simpl. assert ((length b - ps_offset s =? 0) = false) as -> by (apply Nat.eqb_neq; lia).
  unfold prefix_step, decode_record_at. by rewrite Hd.
Qed.

(** What recovery reports of a well-formed log, and of one with a torn record at its end. *)
Definition log_recovery (b : bytes) (rs : list ClaimWalRecord) (original_len : nat)
    (reason : ClaimWalStopReason) : ClaimWalRecovery := {|
  rc_records := rs; rc_checkpoint := None; rc_last_observed_seq := Z.of_nat (length rs);
  rc_valid_record_count := length rs; rc_last_good_offset := Z.of_nat (length b);
  rc_original_len := Z.of_nat original_len; rc_repaired := false; rc_stop_reason := reason |}.

Lemma decode_prefix_log b rs authority :
  wal_log b rs -> (Z.of_nat (length b) <= i64_max)%Z ->
  decode_prefix b authority = log_recovery b rs (length b) CleanEof.
Proof.
  intros Hlog Hlen. rewrite (decode_prefix_loop (length rs + 1) b authority (read_state b rs)).
  - unfold recovery_of, log_recovery. simpl. by rewrite !usize_to_u64_small.
  - rewrite <- (app_nil_r b) at 1. rewrite (decode_loop_log b rs [] authority 1) by done.
    rewrite app_nil_r. simpl. by rewrite Nat.sub_diag.
Qed.

Lemma decode_prefix_torn b rs p v k authority :
  wal_log b rs -> (Z.of_nat (length v) <= DEFAULT_MAX_PAYLOAD_LEN)%Z -> (next_seq rs <= u64_max)%Z ->
  let rec := record_bytes (next_seq rs) (record_type (wp_operation p)) v in
  0 < k < length rec -> (Z.of_nat (length (b ++ rec)) <= i64_max)%Z ->
  exists reason, (reason = TruncatedHeader \/ reason = TruncatedPayload)
    /\ decode_prefix (b ++ take k rec) authority = log_recovery b rs (length b + k) reason.
Proof.
  intros Hlog Hv Hs rec [Hk0 Hk] Hlen. rewrite length_app in Hlen.
  destruct (decode_record_frame_torn b (next_seq rs) (record_type (wp_operation p)) v k)
    as (reason & Hd & Hr); [by apply next_seq_frame_ok | lia | done|]. fold rec in Hd.
  exists reason. split; [done|].
  assert (length (b ++ take k rec) = length b + k) as Hl by (rewrite length_app, length_take; lia).
  rewrite (decode_prefix_loop (length rs + 1) _ authority (stopped (read_state b rs) reason)).
  - unfold recovery_of, log_recovery. simpl. by rewrite Hl, !usize_to_u64_small by lia.
  - rewrite decode_loop_log by (done || lia). apply decode_loop_stop; [simpl; lia | done].
Qed.

(** ** Images: what a crash can leave on disk *)

(** [b] is the log [good] of the records [rs], possibly followed by a strict prefix of one more
    record, the trace of an append that was cut short. *)
Inductive wal_image (rs : list ClaimWalRecord) (good : bytes) : bytes -> Prop :=
| image_clean : wal_log good rs -> wal_image rs good good
| image_torn p v k :
    wal_log good rs -> payload_to_vec p = Some v ->
    (Z.of_nat (length v) <= DEFAULT_MAX_PAYLOAD_LEN)%Z -> (next_seq rs <= u64_max)%Z ->
    0 < k < length (record_bytes (next_seq rs) (record_type (wp_operation p)) v) ->
    wal_image rs good (good ++ take k (record_bytes (next_seq rs) (record_type (wp_operation p)) v)).

(** Room for one more record below the largest length a vector can have. *)
Definition roomy (b : bytes) : Prop := (Z.of_nat (length b) + 2 * DEFAULT_MAX_PAYLOAD_LEN <= i64_max)%Z.

Lemma wal_image_log rs good b : wal_image rs good b -> wal_log good rs.
Proof. by destruct 1. Qed.

Lemma wal_image_length rs good b : wal_image rs good b -> length good <= length b.
Proof. destruct 1; [done|]. rewrite length_app. lia. Qed.

(** A torn tail is shorter than the largest record. *)
Lemma wal_image_bound rs good b :
  wal_image rs good b -> (Z.of_nat (length b) <= Z.of_nat (length good) + 2 * DEFAULT_MAX_PAYLOAD_LEN)%Z.
Proof.
  unfold DEFAULT_MAX_PAYLOAD_LEN. destruct 1 as [|p v k _ _ Hv _ [_ Hk]]; [lia|]. rewrite length_record_bytes in Hk.
  rewrite length_app, length_take, length_record_bytes. unfold DEFAULT_MAX_PAYLOAD_LEN, HEADER_LEN, TRAILER_LEN in *. lia.
Qed.

Lemma roomy_record good seq ty v :
  roomy good -> (Z.of_nat (length v) <= DEFAULT_MAX_PAYLOAD_LEN)%Z ->
  (Z.of_nat (length (good ++ record_bytes seq ty v)) <= i64_max)%Z.
Proof.
  unfold roomy. intros Hr Hv. rewrite length_app, length_record_bytes.
  unfold DEFAULT_MAX_PAYLOAD_LEN, HEADER_LEN, TRAILER_LEN in *. lia.
Qed.

Lemma decode_prefix_image rs good b authority :
  wal_image rs good b -> roomy b ->
  exists reason, decode_prefix b authority = log_recovery good rs (length b) reason
    /\ (length good = length b /\ b = good /\ reason = CleanEof
        \/ length good < length b /\ (reason = TruncatedHeader \/ reason = TruncatedPayload)
           /\ take (length good) b = good).
Proof.
  intros Hi Hr. pose proof (wal_image_length _ _ _ Hi) as Hle.
  destruct Hi as [Hlog|p v k Hlog Hp Hv Hs Hk].
  - exists CleanEof. split; [|by left]. apply decode_prefix_log; [done|].
    unfold roomy, DEFAULT_MAX_PAYLOAD_LEN in Hr. lia.
  - assert (roomy good) as Hrg by (unfold roomy in *; lia).
    destruct (decode_prefix_torn good rs p v k authority) as (reason & Hreason & Hd);
      try done; [by apply roomy_record|].
    exists reason. rewrite Hd, length_app, length_take. split; [f_equal; lia|].
    right. split; [lia|]. split; [done|]. apply take_app_length.
Qed.

(** Reading an image finds exactly the records of the intact log, and touches nothing. *)
Lemma recover_read dir rs good b :
  wd_unselected_residue dir = false -> wal_image rs good b -> roomy b ->
  exists r, recover_claim_wal dir b false = (r, b)
    /\ rc_records r = rs /\ rc_checkpoint r = None
    /\ (b = good /\ rc_stop_reason r = CleanEof
        \/ b ≠ good /\ (rc_stop_reason r = TruncatedHeader \/ rc_stop_reason r = TruncatedPayload)).
Proof.
  intros Hres Hi Hr. destruct (decode_prefix_image rs good b (Some (wd_authority dir)) Hi Hr)
    as (reason & Hd & Hcase).
  unfold recover_claim_wal. rewrite Hd. simpl. rewrite Hres. eexists. split; [done|]. simpl.
  destruct Hcase as [(_ & -> & ->)|(Hl & Hreason & _)]; [naive_solver|].
  split; [done|]. split; [done|]. right. split; [|done]. intros ->. lia.
Qed.

(** Repair keeps what precedes the record that stopped the decoder. *)
Lemma recover_truncates dir rs good b reason :
  wd_unselected_residue dir = false -> length good < length b -> take (length good) b = good ->
  is_repairable_stop_reason reason = true ->
  decode_prefix b (Some (wd_authority dir)) = log_recovery good rs (length b) reason ->
  recover_claim_wal dir b true = (set_repaired (log_recovery good rs (length b) reason), good).
Proof.
  intros Hres Hl Hb Hreason Hd. unfold recover_claim_wal. rewrite Hd. unfold log_recovery.
  cbn [rc_checkpoint rc_last_good_offset rc_original_len rc_stop_reason]. rewrite Hres.
  cbn [rc_last_good_offset rc_stop_reason]. rewrite Hreason.
  assert ((Z.of_nat (length good) <? Z.of_nat (length b))%Z = true) as -> by (apply Z.ltb_lt; lia).
  simpl. by rewrite Nat2Z.id, Hb.
Qed.

(** Repairing an image leaves the intact log. *)
Lemma recover_repair dir rs good b :
  wd_unselected_residue dir = false -> wal_image rs good b -> roomy b ->
  exists r, recover_claim_wal dir b true = (r, good)
    /\ rc_last_observed_seq r = Z.of_nat (length rs)
    /\ (rc_stop_reason r = CleanEof \/ rc_repaired r = true)
    /\ rc_last_good_offset r = Z.of_nat (length good) /\ rc_valid_record_count r = length rs.
Proof.
  intros Hres Hi Hr. destruct (decode_prefix_image rs good b (Some (wd_authority dir)) Hi Hr)
    as (reason & Hd & Hcase).
  destruct Hcase as [(_ & -> & ->)|(Hl & Hreason & Hb)].
  - unfold recover_claim_wal. rewrite Hd. simpl. rewrite Hres. simpl. rewrite andb_false_r.
    eexists. split; [done|]. simpl. naive_solver.
  - rewrite (recover_truncates dir rs good b reason) by (done || by destruct Hreason; subst).
    eexists. split; [done|]. simpl. naive_solver.
Qed.

(** A log that is not rotated stays below the size threshold. *)
Lemma rotation_due_None r n ms :
  rotation_due r n ms = None -> (0 <= rc_last_good_offset r /\ rc_last_good_offset r + Z.of_nat n <= i64_max)%Z ->
  (rc_last_good_offset r + Z.of_nat n <= DEFAULT_ROTATE_MAX_WAL_BYTES)%Z.
Proof.
  unfold rotation_due, rotation_reason. intros Hn Hb. simpl in Hn.
  rewrite usize_to_u64_small in Hn by lia. unfold u64_saturating_add in Hn.
  destruct (Z.ltb_spec DEFAULT_ROTATE_MAX_WAL_BYTES (Z.min u64_max (rc_last_good_offset r + Z.of_nat n))) as [|Hle]; [done|].
  unfold u64_max, i64_max in *. lia.
Qed.

(** The append path on an image: it repairs the tail and hands over the one record that extends
    the log; it refuses only what cannot be serialized, a payload over the limit, or the last
    sequence number. *)
Lemma append_image dir rs good b op claim at_ ms :
  wd_unselected_residue dir = false -> wal_image rs good b -> roomy b ->
  let payload := {| wp_schema_version := "0.1"; wp_operation := op; wp_recorded_at := at_;
                    wp_claim_contract := claim |} in
  match append_claim_wal_record dir b op claim at_ ms with
  | (Ok a, b') =>
      b' = good /\ exists v, payload_to_vec payload = Some v
        /\ (Z.of_nat (length v) <= DEFAULT_MAX_PAYLOAD_LEN)%Z /\ (next_seq rs <= u64_max)%Z
        /\ wa_record a = record_bytes (next_seq rs) (record_type op) v
        /\ (wa_rotation a = None ->
              (Z.of_nat (length (good ++ wa_record a)) <= DEFAULT_ROTATE_MAX_WAL_BYTES)%Z)
  | (Err e, b') =>
      b' = good /\
      match e with
      | AppendSerialize => payload_to_vec payload = None
      | AppendPayloadTooLarge n =>
          exists v, payload_to_vec payload = Some v /\ n = length v /\ (DEFAULT_MAX_PAYLOAD_LEN < Z.of_nat n)%Z
      | AppendSequenceOverflow last => last = Z.of_nat (length rs) /\ (u64_max < next_seq rs)%Z
      | AppendRecoveryStopped _ _ _ => False
      end
  end.
Proof.
  intros Hres Hi Hr payload. unfold append_claim_wal_record.
  destruct (recover_repair dir rs good b Hres Hi Hr) as (r & -> & Hlast & Hstop & Hoff & _).
  unfold ensure_recovered_appendable.
  assert (bool_decide (rc_stop_reason r = CleanEof) || rc_repaired r = true) as ->.
  { destruct Hstop as [->| ->]; [done|]. apply orb_true_r. }
  rewrite Hlast. unfold u64_checked_add, lifecycle_payload_bytes. fold payload. fold (next_seq rs).
  destruct (in_u64 (next_seq rs)) eqn:Hseq.
  - assert (next_seq rs <= u64_max)%Z as Hs by (unfold in_u64 in Hseq; bool_simpl; lia).
    destruct (payload_to_vec payload) as [v|] eqn:Hv; [|done].
    destruct (Z.ltb_spec DEFAULT_MAX_PAYLOAD_LEN (Z.of_nat (length v))) as [Hlt|Hle].
    + split; [done|]. by exists v.
    + rewrite encode_record_bytes by done. cbn [wa_record wa_rotation]. split; [done|]. exists v. split_and!; [done..|].
      assert (roomy good) as Hg by (pose proof (wal_image_length _ _ _ Hi); unfold roomy in *; lia).
      pose proof (roomy_record good (next_seq rs) (record_type op) v Hg Hle) as Hb.
      rewrite length_app, Nat2Z.inj_add, <- Hoff in *. intros Hn. apply rotation_due_None in Hn; lia.
  - split; [done|]. split; [done|]. unfold in_u64, next_seq in *.
    apply andb_false_iff in Hseq as [Hs|Hs]; apply Z.leb_gt in Hs; lia.
Qed.

(** Writing any number of bytes of that record leaves an image. *)
Lemma write_image rs good p v k :
  wal_log good rs -> payload_to_vec p = Some v ->
  (Z.of_nat (length v) <= DEFAULT_MAX_PAYLOAD_LEN)%Z -> (next_seq rs <= u64_max)%Z ->
  let rec := record_bytes (next_seq rs) (record_type (wp_operation p)) v in
  if length rec <=? k
  then wal_image (rs ++ [log_record good rs p v]) (good ++ rec) (good ++ take k rec)
  else wal_image rs good (good ++ take k rec).
Proof.
  intros Hlog Hp Hv Hs rec. destruct (Nat.leb_spec (length rec) k) as [Hk|Hk].
  - rewrite take_ge by done. constructor. by constructor.
  - destruct k as [|k].
    + rewrite take_0, app_nil_r. by constructor.
    + apply image_torn; [done..|]. split; [lia | exact Hk].
Qed.

End log.

(** ** Claims about the log *)

(** C11: the log survives any crash during an append.  Whatever part of the next record reached the
    disk, recovery reads back exactly the completely written records, reports a clean end or a
    truncation, never a checksum or header error, and repair leaves the log of those records. *)
Theorem crash_safe_append {codec : WalCodec} {laws : WalCodecLaws codec} dir log rs p v k :
  wd_unselected_residue dir = false ->
  wal_log log rs -> payload_to_vec p = Some v ->
  (Z.of_nat (length v) <= DEFAULT_MAX_PAYLOAD_LEN)%Z -> (next_seq rs <= u64_max)%Z ->
  (Z.of_nat (length log) + 4 * DEFAULT_MAX_PAYLOAD_LEN <= i64_max)%Z ->
  let rec := record_bytes (next_seq rs) (record_type (wp_operation p)) v in
  let complete := length rec <=? k in
  let disk := log ++ take k rec in
  exists r r',
    encode_record (next_seq rs) (record_type (wp_operation p)) v = Ok rec
    /\ recover_claim_wal dir disk false = (r, disk)
    /\ rc_records r = (if complete then rs ++ [log_record log rs p v] else rs)
    /\ (rc_stop_reason r = CleanEof \/ rc_stop_reason r = TruncatedHeader \/ rc_stop_reason r = TruncatedPayload)
    /\ recover_claim_wal dir disk true = (r', if complete then log ++ rec else log).
Proof.
  intros Hres Hlog Hp Hv Hs Hr rec complete disk.
  assert (wal_image (if complete then rs ++ [log_record log rs p v] else rs)
            (if complete then log ++ rec else log) disk) as Hi.
  { pose proof (write_image rs log p v k Hlog Hp Hv Hs) as Hw. cbv zeta in Hw. fold rec in Hw.
    unfold complete, disk. by destruct (length rec <=? k). }
  assert (roomy disk) as Hroom.
  { unfold roomy, disk. rewrite length_app, length_take. pose proof (length_record_bytes (next_seq rs)
      (record_type (wp_operation p)) v) as Hl. fold rec in Hl.
    unfold DEFAULT_MAX_PAYLOAD_LEN, HEADER_LEN, TRAILER_LEN in *. lia. }
  destruct (recover_read dir _ _ _ Hres Hi Hroom) as (r & E & Hrec & _ & Hstop).
  destruct (recover_repair dir _ _ _ Hres Hi Hroom) as (r' & E' & _).
  exists r, r'. split; [by apply encode_record_bytes|]. naive_solver.
Qed.

(** Appending to an image repairs the torn tail and produces exactly the record that extends
    the log with the next sequence number; the only refusals are a payload that does not serialize
    or is over 16 MiB, and the last sequence number. *)
Theorem append_extends_log {codec : WalCodec} {laws : WalCodecLaws codec} dir rs good b op claim at_ ms a b' :
  wd_unselected_residue dir = false -> wal_image rs good b -> roomy b ->
  append_claim_wal_record dir b op claim at_ ms = (Ok a, b') ->
  b' = good
  /\ exists r, wr_seq r = next_seq rs /\ wr_operation r = op /\ wp_claim_contract (wr_payload r) = claim
       /\ wal_log (b' ++ wa_record a) (rs ++ [r]).
Proof.
  intros Hres Hi Hr E. pose proof (append_image dir rs good b op claim at_ ms Hres Hi Hr) as Happ.
  cbv zeta in Happ. rewrite E in Happ. destruct Happ as (-> & v & Hv & Hlen & Hseq & -> & _). split; [done|].
  set (p := {| wp_schema_version := "0.1"; wp_operation := op; wp_recorded_at := at_;
               wp_claim_contract := claim |}) in *.
  exists (log_record good rs p v). split; [done|]. split; [done|]. split; [done|].
  apply (wal_log_snoc good rs p v); [by eapply wal_image_log|done..].
Qed.

(** Repair is not limited to torn tails: a record in the middle of the log whose payload
    checksum is wrong makes repair, and with it the append path, truncate the log there, dropping
    every record that follows however intact. *)
Theorem repair_drops_after_corruption {codec : WalCodec} {laws : WalCodecLaws codec} dir log rs tail :
  wd_unselected_residue dir = false -> wal_log log rs ->
  (Z.of_nat (length (log ++ tail)) <= i64_max)%Z ->
  decode_record_frame (log ++ tail) (length log) = Err PayloadChecksumMismatch -> tail ≠ [] ->
  exists r, recover_claim_wal dir (log ++ tail) true = (r, log) /\ ensure_recovered_appendable r = Ok tt.
Proof.
  intros Hres Hlog Hlen Hd Hne.
  assert (decode_prefix (log ++ tail) (Some (wd_authority dir))
          = log_recovery log rs (length (log ++ tail)) PayloadChecksumMismatch) as Hp.
  { rewrite (decode_prefix_loop (length rs + 1) _ _ (stopped (read_state log rs) PayloadChecksumMismatch)).
    - unfold recovery_of, log_recovery. simpl. rewrite length_app in Hlen.
      by rewrite !usize_to_u64_small by (rewrite ?length_app; lia).
    - rewrite length_app in Hlen. rewrite decode_loop_log by (done || lia).
      apply decode_loop_stop; [|by simpl]. rewrite length_app. simpl. destruct tail; [done|]. simpl. lia. }
  rewrite (recover_truncates dir rs log (log ++ tail) PayloadChecksumMismatch);
    [by eexists | done | | by apply take_app_length | done | done].
  rewrite length_app. destruct tail; [done|]. simpl. lia.
Qed.

(** ** A concrete codec *)

Module TableCodec.

(** Payloads drawn from a table, written as their index in unary; the checksum is a byte sum. *)
Definition byte_sum (b : bytes) : Z := (foldr (fun c n => Z.of_N (code c) + n) 0 b mod 4294967296)%Z.

Definition codec (tbl : list ClaimWalPayload) : WalCodec := {|
  crc32c := byte_sum;
  payload_to_vec p := (fun n => repeat "x"%char n) <$> index_of p tbl;
  payload_from_slice b := tbl !! length b;
  checkpoint_from_slice _ := None;
  checkpoint_canonical_to_vec _ := None
|}.

Lemma codec_laws tbl : WalCodecLaws (codec tbl).
Proof.
  split.
  - intros b. cbn. unfold byte_sum, u32_max.
    pose proof (Z.mod_pos_bound (foldr (fun c n => Z.of_N (code c) + n) 0 b)%Z 4294967296). lia.
  - intros p b. cbn. destruct (index_of p tbl) as [n|] eqn:E; [|done]. intros [= <-].
    rewrite repeat_length. by apply index_of_lookup.
Qed.

(** A directory with no checkpoint in it. *)
Definition fresh_directory : WalDirectory := {|
  wd_authority := fun _ _ => Err CheckpointGenerationInvalid; wd_unselected_residue := false |}.

End TableCodec.
