(* ===== verification/WalRecovery.v ===== *)
(** * Recovery of the claim log from arbitrary bytes

    [ClaimWal] says what recovery returns on logs the append path wrote, whole or torn.  This file
    is about any file content: the decoding loop ends, it reads at least a header and a trailer per
    round, and the prefix a repair keeps is a fixed point of recovery, with the same records. *)

From S2P Require Import Prelude RustStr Contracts ClaimEngine WalFrame ClaimWal.

Section recovery.
Context {codec : WalCodec}.

(** ** Decoding a record looks only at its own bytes *)

Lemma frame_take b n offset frame :
  decode_record_frame b offset = Ok frame -> fr_record_end frame <= n -> n <= length b ->
  decode_record_frame (take n b) offset = Ok frame.
Proof.
  intros Hd He Hn. pose proof (decode_record_frame_end _ _ _ Hd) as [Hlow _]. revert Hd.
  unfold decode_record_frame at 1. destruct (length b - offset <? HEADER_LEN) eqn:E1; [done|]. intros Hd.
  unfold decode_record_frame. rewrite length_take, (Nat.min_l n) by done.
  assert (n - offset <? HEADER_LEN = false) as -> by (apply Nat.ltb_ge; lia).
  rewrite (slice_take b n offset) by lia.
  repeat (match type of Hd with (if ?c then _ else _) = _ => destruct c; [done|] end).
  destruct (checked_record_end _ _) as [record_end|] eqn:Er; [|done].
  destruct (length b <? record_end); [done|].
  assert (record_end = fr_record_end frame) as Hre.
  { destruct (negb _); [done|]. by injection Hd as <-. }
  assert (n <? record_end = false) as -> by (apply Nat.ltb_ge; lia).
  assert (offset + HEADER_LEN + Z.to_nat (from_le_bytes (slice (slice b offset (offset + HEADER_LEN)) 16 20)) <= record_end).
  { unfold checked_record_end in Er. destruct (in_u64 _); [|done]. injection Er as <-. lia. }
  rewrite !slice_take by lia. exact Hd.
Qed.

(** A step that goes on moved to the end of the frame at its offset, and depends on the frame only. *)
Lemma prefix_step_frame b authority s s' :
  prefix_step b authority s = (s', true) ->
  ps_stop_reason s' = ps_stop_reason s /\ ps_valid_record_count s' = S (ps_valid_record_count s)
  /\ exists frame, decode_record_frame b (ps_offset s) = Ok frame /\ ps_offset s' = fr_record_end frame
       /\ forall b', decode_record_frame b' (ps_offset s) = Ok frame -> prefix_step b' authority s = (s', true).
Proof.
  unfold prefix_step at 1, decode_record_at. destruct (decode_record_frame b (ps_offset s)) as [frame|] eqn:Hf; [|done].
  intros Hs.
  assert (forall b', decode_record_frame b' (ps_offset s) = Ok frame -> prefix_step b' authority s = (s', true)) as Hb'.
  { intros b' Hb'. unfold prefix_step, decode_record_at. by rewrite Hb'. }
  enough (ps_stop_reason s' = ps_stop_reason s /\ ps_valid_record_count s' = S (ps_valid_record_count s)
    /\ ps_offset s' = fr_record_end frame) as (? & ? & ?) by eauto 10.
  clear Hb'. destruct (fr_record_type frame =? RECORD_TYPE_CHECKPOINT_REF)%Z.
  - unfold decode_checkpoint_record in Hs. by inv_match Hs.
  - destruct (negb _); [done|]. destruct (from_record_type _).
    + unfold decode_lifecycle_record in Hs. by inv_match Hs.
    + by inv_match Hs.
Qed.

Lemma prefix_step_take b n authority s s' :
  prefix_step b authority s = (s', true) -> ps_offset s' <= n -> n <= length b ->
  prefix_step (take n b) authority s = (s', true).
Proof.
  intros (_ & _ & frame & Hf & Ho & Hb')%prefix_step_frame Hn Hlen. apply Hb', frame_take; [done | lia | done].
Qed.

(** A step keeps the reason, and counts one record for at least 28 bytes. *)
Lemma prefix_step_counts b authority s s' :
  prefix_step b authority s = (s', true) ->
  ps_stop_reason s' = ps_stop_reason s /\ ps_valid_record_count s' = S (ps_valid_record_count s)
  /\ ps_offset s + (HEADER_LEN + TRAILER_LEN) <= ps_offset s' <= length b.
Proof.
  intros (Hr & Hc & frame & Hf & Ho & _)%prefix_step_frame. apply decode_record_frame_end in Hf. repeat split; (done || lia).
Qed.

(** ** The loop *)

Definition with_reason (s : PrefixState) (reason : ClaimWalStopReason) : PrefixState := {|
  ps_records := ps_records s; ps_checkpoint := ps_checkpoint s; ps_offset := ps_offset s;
  ps_expected_seq := ps_expected_seq s; ps_last_observed_seq := ps_last_observed_seq s;
  ps_valid_record_count := ps_valid_record_count s; ps_stop_reason := reason |}.

Lemma prefix_step_stop b authority s s' :
  prefix_step b authority s = (s', false) -> s' = with_reason s (ps_stop_reason s').
Proof. unfold prefix_step. destruct (decode_record_at _ _ _ _); [done..|]. by intros [= <-]. Qed.

Lemma decode_loop_bounds fuel b authority s r :
  decode_loop fuel b authority s = Some r -> ps_offset s <= length b ->
  ps_offset s <= ps_offset r <= length b
  /\ ps_valid_record_count r * (HEADER_LEN + TRAILER_LEN) + ps_offset s
     <= ps_offset r + ps_valid_record_count s * (HEADER_LEN + TRAILER_LEN).
Proof.
  unfold HEADER_LEN, TRAILER_LEN. revert s. induction fuel as [|fuel IH]; intros s; [done|]. simpl. intros Hd Hs.
  destruct (_ =? 0); [simplify_eq; lia|]. destruct (prefix_step b authority s) as [s' []] eqn:Hp.
  - apply prefix_step_counts in Hp as (_ & Hc & Ho & Hl). destruct (IH _ Hd Hl) as [Hr Hn].
    rewrite Hc in Hn. unfold HEADER_LEN, TRAILER_LEN in Ho. lia.
  - apply prefix_step_stop in Hp. injection Hd as <-. rewrite Hp. simpl. lia.
Qed.

(** Reading the prefix that was kept ends at its end, with the same records. *)
Lemma decode_loop_kept fuel b authority s r :
  decode_loop fuel b authority s = Some r -> ps_offset s <= length b ->
  decode_loop fuel (take (ps_offset r) b) authority s = Some (with_reason r (ps_stop_reason s)).
Proof.
  revert s. induction fuel as [|fuel IH]; intros s; [done|]. intros Hd Hs.
  pose proof (decode_loop_bounds _ _ _ _ _ Hd Hs) as [Hr _]. revert Hd. simpl.
  rewrite length_take, Nat.min_l by lia. destruct (length b - ps_offset s =? 0) eqn:E.
  - intros [= <-]. rewrite Nat.sub_diag. by destruct s.
  - destruct (prefix_step b authority s) as [s' []] eqn:Hp; intros Hd.
    + pose proof (prefix_step_counts _ _ _ _ Hp) as (Hreason & _ & Ho).
      destruct (decode_loop_bounds _ _ _ _ _ Hd) as [Hr' _]; [lia|].
      assert (ps_offset r - ps_offset s =? 0 = false) as ->.
      { apply Nat.eqb_neq. unfold HEADER_LEN, TRAILER_LEN in Ho. lia. }
      rewrite (prefix_step_take b (ps_offset r) authority s s' Hp) by lia. rewrite <- Hreason. apply IH; [done|lia].
    + apply prefix_step_stop in Hp. injection Hd as <-. rewrite Hp. simpl. rewrite Nat.sub_diag. by destruct s.
Qed.

(** ** Decoding the whole file *)

Lemma decode_prefix_state b authority :
  exists s, decode_loop (S (length b)) b authority prefix_start = Some s /\ decode_prefix b authority = recovery_of b s.
Proof.
  destruct (decode_loop_enough (S (length b)) b authority prefix_start) as [s Hs]; [simpl; lia|].
  exists s. split; [done|]. by apply (decode_prefix_loop (S (length b))).
Qed.

Lemma decode_prefix_kept b authority s :
  decode_loop (S (length b)) b authority prefix_start = Some s ->
  decode_prefix (take (ps_offset s) b) authority = recovery_of (take (ps_offset s) b) (with_reason s CleanEof).
Proof.
  intros Hs. apply (decode_prefix_loop (S (length b))). apply (decode_loop_kept _ _ _ prefix_start); [done | simpl; lia].
Qed.

(** What two recoveries agree on when they hold the same claims. *)
Definition same_records (r r' : ClaimWalRecovery) : Prop :=
  rc_records r = rc_records r' /\ rc_checkpoint r = rc_checkpoint r'
  /\ rc_last_observed_seq r = rc_last_observed_seq r' /\ rc_valid_record_count r = rc_valid_record_count r'
  /\ rc_last_good_offset r = rc_last_good_offset r'.

Lemma recover_kept dir b r b' :
  (Z.of_nat (length b) <= i64_max)%Z -> recover_claim_wal dir b true = (r, b') ->
  b' `prefix_of` b
  /\ exists r', recover_claim_wal dir b' true = (r', b') /\ same_records r r'
       /\ (rc_repaired r = true -> rc_stop_reason r' = CleanEof).
Proof.
  intros Hlen Hr. pose proof Hr as Hr0. unfold recover_claim_wal in Hr.
  destruct (decode_prefix_state b (Some (wd_authority dir))) as (s & Hs & Ed). rewrite Ed in Hr.
  destruct (_ && is_repairable_stop_reason _) eqn:Erep in Hr; injection Hr as Hr <-.
  2: { split; [done|]. exists r. split; [exact Hr0|]. split; [repeat split|].
       rewrite <- Hr. simpl. by destruct (ps_checkpoint s), (wd_unselected_residue dir). }
  subst r. clear Hr0.
  destruct (decode_loop_bounds _ _ _ _ _ Hs) as [[_ Ho] _]; [simpl; lia|].
  apply andb_true_iff in Erep as [_ Hrepair].
  assert (ps_checkpoint s = None -> wd_unselected_residue dir = false) as Hres.
  { intros Hn. simpl in Hrepair. rewrite Hn in Hrepair. by destruct (wd_unselected_residue dir). }
  assert ((match ps_checkpoint s with
    | Some _ => recovery_of b s
    | None => if wd_unselected_residue dir then reject_unselected_checkpoint_residue (recovery_of b s) else recovery_of b s
    end) = recovery_of b s) as Esel.
  { destruct (ps_checkpoint s); [done|]. by rewrite Hres. }
  cbn [rc_checkpoint recovery_of]. rewrite Esel. cbn [rc_last_good_offset recovery_of].
  rewrite usize_to_u64_small, Nat2Z.id by lia. split; [apply prefix_take|].
  unfold recover_claim_wal. rewrite (decode_prefix_kept _ _ _ Hs). cbn [rc_checkpoint recovery_of with_reason ps_checkpoint].
  assert ((match ps_checkpoint s with
    | Some _ => recovery_of (take (ps_offset s) b) (with_reason s CleanEof)
    | None => if wd_unselected_residue dir
              then reject_unselected_checkpoint_residue (recovery_of (take (ps_offset s) b) (with_reason s CleanEof))
              else recovery_of (take (ps_offset s) b) (with_reason s CleanEof)
    end) = recovery_of (take (ps_offset s) b) (with_reason s CleanEof)) as ->.
  { destruct (ps_checkpoint s); [done|]. by rewrite Hres. }
  simpl. rewrite andb_false_r. eexists. split; [reflexivity|]. by repeat split.
Qed.

End recovery.

(** C32: recovery ends on any bytes and repairing converges.  Whatever the file holds, the decoding
    loop returns within one round per record, of at least 28 bytes each, and one more; the log left
    by a repair is a prefix of the file on which recovery changes nothing and returns the same
    records, sequence number and checkpoint, and which ends cleanly when the repair cut it. *)
Theorem recovery_terminates {codec : WalCodec} dir b r b' :
  (Z.of_nat (length b) <= i64_max)%Z -> recover_claim_wal dir b true = (r, b') ->
  (exists s, decode_loop (S (length b)) b (Some (wd_authority dir)) prefix_start = Some s
     /\ ps_valid_record_count s * (HEADER_LEN + TRAILER_LEN) <= ps_offset s <= length b
     /\ forall fuel, length b < fuel -> decode_loop fuel b (Some (wd_authority dir)) prefix_start = Some s)
  /\ b' `prefix_of` b
  /\ exists r', recover_claim_wal dir b' true = (r', b') /\ same_records r r'
       /\ (rc_repaired r = true -> rc_stop_reason r' = CleanEof).
Proof.
  intros Hlen Hr. split; [|by apply recover_kept].
  destruct (decode_prefix_state b (Some (wd_authority dir))) as (s & Hs & _). exists s. split; [done|]. split.
  - destruct (decode_loop_bounds _ _ _ _ _ Hs); simpl in *; lia.
  - intros fuel Hf. by apply (decode_loop_mono (S (length b))); [|lia].
Qed.

(** A file that never held a log is cut to nothing. *)
Lemma recovery_terminates_witness :
  exists r b', recover_claim_wal (codec := TableCodec.codec []) TableCodec.fresh_directory (to_bytes "not a log") true = (r, b')
    /\ b' `prefix_of` to_bytes "not a log"
    /\ exists r', recover_claim_wal (codec := TableCodec.codec []) TableCodec.fresh_directory b' true = (r', b')
         /\ same_records r r'.
Proof.
  destruct (recover_claim_wal (codec := TableCodec.codec []) TableCodec.fresh_directory (to_bytes "not a log") true)
    as [r b'] eqn:E.
  exists r, b'. split; [reflexivity|].
  destruct (@recovery_terminates (TableCodec.codec []) TableCodec.fresh_directory (to_bytes "not a log") r b')
    as (_ & Hp & r' & Hr & Hs & _).
  - vm_compute. discriminate.
  - exact E.
  - split; [exact Hp|]. exists r'. split; [exact Hr | exact Hs].
Defined.
