(* ===== verification/ReplayWal.v ===== *)
(** * The replay log

    [forge-core-store/src/replay_wal.rs].  Each request that changes something carries a nonce; the
    nonce is reserved for one intent and one commit digest before the effect, and consumed after it.
    Reservations live in an append-only log of framed records beside a manifest.  This file has the
    framing, the decoder, the transitions of a reservation and the commands, over a store of the two
    files.  [serde_json], [crc32c] and [sha2] are other crates: the class [ReplayCodec].  The locks
    are held for the whole of a command, and a guard holds them until it is consumed or dropped; a
    lock that cannot be taken, or whose scope does not match, ends a command with no effect
    ([scope]). *)

From S2P Require Import Prelude RustStr BTree Contracts WalFrame.

Local Open Scope string_scope.
Local Open Scope forge_scope.

(** ** Data *)

Record ReplayWalManifest := {
  rm_schema_version : string;
  rm_format_magic : string;
  rm_wal_relative_path : string
}.

Inductive ReplayWalOperation := ReplayWalOperation_Reserve | ReplayWalOperation_Consume.

Inductive ReplayReservationState := ReplayReservationState_Reserved | ReplayReservationState_Consumed.

Record ReplayWalPayload := {
  rp_schema_version : string;
  rp_operation : ReplayWalOperation;
  rp_key_hash : string;
  rp_intent_digest : string;
  rp_commit_digest : string;
  rp_revision : Z;
  rp_expected_revision : option Z
}.

Record ReplayWalRecord := {
  rr_seq : Z;
  rr_operation : ReplayWalOperation;
  rr_payload : ReplayWalPayload;
  rr_offset : Z;
  rr_record_len : Z
}.

Record ReplayReservation := {
  rv_key_hash : string;
  rv_intent_digest : string;
  rv_commit_digest : string;
  rv_revision : Z;
  rv_state : ReplayReservationState;
  rv_reserved_seq : Z;
  rv_consumed_seq : option Z
}.

Inductive ReplayWalStopReason :=
| ReplayStop_CleanEof
| ReplayStop_TruncatedHeader
| ReplayStop_InvalidHeader
| ReplayStop_PayloadTooLarge
| ReplayStop_TruncatedPayload
| ReplayStop_PayloadChecksumMismatch
| ReplayStop_UnsupportedRecordType
| ReplayStop_SequenceGap
| ReplayStop_PayloadDecodeFailed
| ReplayStop_InvalidTransition
| ReplayStop_RecordCapacityExceeded.

#[export] Instance ReplayWalManifest_eq_dec : EqDecision ReplayWalManifest.
Proof. solve_decision. Defined.
#[export] Instance ReplayWalOperation_eq_dec : EqDecision ReplayWalOperation.
Proof. solve_decision. Defined.
#[export] Instance ReplayReservationState_eq_dec : EqDecision ReplayReservationState.
Proof. solve_decision. Defined.
#[export] Instance ReplayWalStopReason_eq_dec : EqDecision ReplayWalStopReason.
Proof. solve_decision. Defined.

Record ReplayWalRecovery := {
  rw_records : list ReplayWalRecord;
  rw_reservations : gmap string ReplayReservation;
  rw_last_observed_seq : Z;
  rw_valid_record_count : nat;
  rw_last_good_offset : Z;
  rw_original_len : Z;
  rw_repaired : bool;
  rw_stop_reason : ReplayWalStopReason
}.

Inductive ReplayWalCapacityKind := ReplayCapacity_Bytes | ReplayCapacity_Records.

(** The errors without their paths and source texts; the last four stand for failed I/O. *)
Inductive ReplayWalError :=
| Replay_InvalidInput (field reason : string)
| Replay_NotInitialized
| Replay_InitializationMismatch (manifest_exists wal_exists : bool)
| Replay_InvalidManifest
| Replay_EffectLockScopeMismatch
| Replay_CapacityExceeded (kind : ReplayWalCapacityKind) (limit observed : Z)
| Replay_RecoveryStopped (stop_reason : ReplayWalStopReason) (last_good_offset original_len : Z)
| Replay_DuplicateNonce (key_hash : string) (revision : Z) (state : ReplayReservationState)
| Replay_ReservationMissing (key_hash : string)
| Replay_IntentDigestMismatch (key_hash : string)
| Replay_CommitDigestMismatch (key_hash : string)
| Replay_ReservationNotReserved (key_hash : string) (state : ReplayReservationState)
| Replay_ReservationNotConsumed (key_hash : string) (state : ReplayReservationState)
| Replay_RevisionMismatch (key_hash : string) (expected actual : Z)
| Replay_RevisionOverflow (key_hash : string) (revision : Z)
| Replay_SequenceOverflow (last_seq : Z)
| Replay_PayloadTooLarge (byte_len : nat)
| Replay_Serialize
| Replay_CreateWal
| Replay_RepairWal
| Replay_WriteWal.

Record ReplayReserveResult := {
  rres_seq : Z;
  rres_bytes_appended : Z;
  rres_reservation : ReplayReservation
}.

Record ReplayConsumeResult := {
  rcon_seq : Z;
  rcon_bytes_appended : Z;
  rcon_appended : bool;
  rcon_reservation : ReplayReservation
}.

(** What a guard holds besides the locks. *)
Record ReplayGuardState := {
  rg_reserved : ReplayReservation;
  rg_seq : Z;
  rg_bytes : bytes;
  rg_consumed : ReplayReservation
}.

(** ** Other crates *)

Class ReplayCodec := {
  replay_crc32c : bytes -> Z;
  replay_to_vec : ReplayWalPayload -> option bytes;
  replay_from_slice : bytes -> option ReplayWalPayload;
  sha256 : bytes -> bytes
}.

(** A CRC-32C fits 32 bits, deserializing what was serialized gives it back, and a SHA-256 digest
    has 32 bytes. *)
Class ReplayCodecLaws (codec : ReplayCodec) := {
  replay_crc32c_range b : (0 <= replay_crc32c b <= u32_max)%Z;
  replay_roundtrip p b : replay_to_vec p = Some b -> replay_from_slice b = Some p;
  sha256_length b : length (sha256 b) = 32
}.

(** ** Constants *)

Definition REPLAY_MAGIC : bytes := to_bytes "FMR1".
Definition MAX_PAYLOAD_LEN : Z := 1024 * 1024.
Definition RECORD_TYPE_RESERVE : Z := 1.
Definition RECORD_TYPE_CONSUME : Z := 2.
Definition KEY_HASH_DOMAIN : bytes := to_bytes "forge-method:replay-nonce-key:v1" ++ [ascii_of_N 0].
Definition REPLAY_WAL_RELATIVE_PATH : string := "wal/replay.fmr1".
Definition REPLAY_WAL_SCHEMA_VERSION : string := "0.1".
Definition REPLAY_WAL_MAX_BYTES : Z := 8 * 1024 * 1024.
Definition REPLAY_WAL_MAX_RECORDS : Z := 10000.

Definition replay_record_type (operation : ReplayWalOperation) : Z :=
  match operation with
  | ReplayWalOperation_Reserve => RECORD_TYPE_RESERVE
  | ReplayWalOperation_Consume => RECORD_TYPE_CONSUME
  end.

Definition replay_from_record_type (value : Z) : option ReplayWalOperation :=
  if (value =? RECORD_TYPE_RESERVE)%Z then Some ReplayWalOperation_Reserve
  else if (value =? RECORD_TYPE_CONSUME)%Z then Some ReplayWalOperation_Consume else None.

(** ** Input checks *)

Definition validate_nonblank (field value : string) : Result unit ReplayWalError :=
  if str_is_empty (trim value) then Err (Replay_InvalidInput field "must not be blank") else Ok tt.

Definition is_lower_hex (c : ascii) : bool := is_ascii_digit c || in_range 97 102 (code c).

Definition is_sha256_token (value : string) : bool :=
  bool_decide (take 7 (to_bytes value) = to_bytes "sha256:")
  && (length (drop 7 (to_bytes value)) =? 64)%nat && forallb is_lower_hex (drop 7 (to_bytes value)).

Definition validate_sha256_field (field value : string) : Result unit ReplayWalError :=
  if is_sha256_token value then Ok tt
  else Err (Replay_InvalidInput field "must be a lowercase sha256:<64-hex> token").

Definition validate_sha256_digest (value : string) : Result unit ReplayWalError := validate_sha256_field "intent_digest" value.
Definition validate_commit_digest (value : string) : Result unit ReplayWalError := validate_sha256_field "commit_digest" value.

Definition validate_revision (field : string) (revision : Z) : Result unit ReplayWalError :=
  if (revision =? 0)%Z then Err (Replay_InvalidInput field "must be greater than zero") else Ok tt.

(** The bytes [update_length_prefixed] feeds to the hasher. *)
Definition length_prefixed (value : string) : bytes :=
  to_le_bytes 8 (usize_to_u64 (length (to_bytes value))) ++ to_bytes value.

(** [{byte:02x}]. *)
Definition hex_digit (n : N) : ascii := ascii_of_N (if (n <? 10)%N then 48 + n else 87 + n)%N.
Definition hex_byte (c : ascii) : bytes := [hex_digit (code c / 16)%N; hex_digit (code c mod 16)%N].
Definition format_sha256 (digest : bytes) : string := "sha256:" ++ of_bytes (concat (map hex_byte digest)).

Definition replay_next_sequence (last_seq : Z) : Result Z ReplayWalError :=
  match u64_checked_add last_seq 1 with Some seq => Ok seq | None => Err (Replay_SequenceOverflow last_seq) end.

Section replay.
Context {codec : ReplayCodec}.

(** What is hashed, and the key. *)
Definition nonce_key_bytes (principal_id audience nonce : string) : bytes :=
  (KEY_HASH_DOMAIN ++ length_prefixed principal_id ++ length_prefixed audience ++ length_prefixed nonce)%list.

Definition replay_nonce_key_hash (principal_id : PrincipalId) (audience nonce : string) : Result string ReplayWalError :=
  try _ <- validate_nonblank "principal_id" (PrincipalId_0 principal_id);
  try _ <- validate_nonblank "audience" audience;
  try _ <- validate_nonblank "nonce" nonce;
  Ok (format_sha256 (sha256 (nonce_key_bytes (PrincipalId_0 principal_id) audience nonce))).

(** ** Encoding *)

Definition replay_encode_record (seq record_type : Z) (payload : bytes) : Result bytes ReplayWalError :=
  if (Z.of_nat (length payload) <=? u32_max)%Z then
    let header := (REPLAY_MAGIC ++ [byte_of VERSION] ++ [byte_of record_type] ++ to_le_bytes 2 FLAG_PAYLOAD_JSON
                    ++ to_le_bytes 8 seq ++ to_le_bytes 4 (Z.of_nat (length payload)))%list in
    let header := (header ++ to_le_bytes 4 (replay_crc32c header))%list in
    Ok (header ++ payload ++ to_le_bytes 4 (replay_crc32c (take HEADER_CRC_OFFSET header ++ payload)))%list
  else Err (Replay_PayloadTooLarge (length payload)).

Definition encode_payload_record (seq : Z) (payload : ReplayWalPayload) : Result bytes ReplayWalError :=
  match replay_to_vec payload with
  | None => Err Replay_Serialize
  | Some payload_bytes =>
      if (MAX_PAYLOAD_LEN <? Z.of_nat (length payload_bytes))%Z then Err (Replay_PayloadTooLarge (length payload_bytes))
      else replay_encode_record seq (replay_record_type (rp_operation payload)) payload_bytes
  end.

(** ** Decoding *)

Record ReplayFrame := {
  rf_record_type : Z;
  rf_seq : Z;
  rf_payload : bytes;
  rf_record_end : nat
}.

Definition decode_frame (b : bytes) (offset : nat) : Result ReplayFrame ReplayWalStopReason :=
  if (length b - offset <? HEADER_LEN)%nat then Err ReplayStop_TruncatedHeader else
  let header := slice b offset (offset + HEADER_LEN) in
  if negb (bool_decide (slice header 0 4 = REPLAY_MAGIC)) || negb (from_le_bytes (slice header 4 5) =? VERSION)%Z
  then Err ReplayStop_InvalidHeader else
  let flags := from_le_bytes (slice header 6 8) in
  if negb (flags =? FLAG_PAYLOAD_JSON)%Z then Err ReplayStop_InvalidHeader else
  let payload_len := from_le_bytes (slice header 16 20) in
  if (MAX_PAYLOAD_LEN <? payload_len)%Z then Err ReplayStop_PayloadTooLarge else
  let expected_header_crc := from_le_bytes (slice header HEADER_CRC_OFFSET HEADER_LEN) in
  if negb (replay_crc32c (slice header 0 HEADER_CRC_OFFSET) =? expected_header_crc)%Z
  then Err ReplayStop_InvalidHeader else
  let payload_len := Z.to_nat payload_len in
  let record_end := (offset + HEADER_LEN + payload_len + TRAILER_LEN)%nat in
  if negb (in_u64 (Z.of_nat record_end)) then Err ReplayStop_PayloadTooLarge else
  if (length b <? record_end)%nat then Err ReplayStop_TruncatedPayload else
  let payload_start := (offset + HEADER_LEN)%nat in
  let payload_end := (payload_start + payload_len)%nat in
  let payload := slice b payload_start payload_end in
  let expected_payload_crc := from_le_bytes (slice b payload_end record_end) in
  if negb (replay_crc32c (slice header 0 HEADER_CRC_OFFSET ++ payload) =? expected_payload_crc)%Z
  then Err ReplayStop_PayloadChecksumMismatch
  else Ok {| rf_record_type := from_le_bytes (slice header 5 6); rf_seq := from_le_bytes (slice header 8 16);
             rf_payload := payload; rf_record_end := record_end |}.

Definition replay_decode_record_at (b : bytes) (offset : nat) (expected_seq : Z)
    : Result ReplayWalRecord ReplayWalStopReason :=
  try frame <- decode_frame b offset;
  if negb (rf_seq frame =? expected_seq)%Z then Err ReplayStop_SequenceGap else
  match replay_from_record_type (rf_record_type frame) with
  | None => Err ReplayStop_UnsupportedRecordType
  | Some operation =>
      match replay_from_slice (rf_payload frame) with
      | None => Err ReplayStop_PayloadDecodeFailed
      | Some payload =>
          if negb (bool_decide (rp_schema_version payload = REPLAY_WAL_SCHEMA_VERSION))
             || negb (bool_decide (rp_operation payload = operation))
             || negb (is_sha256_token (rp_key_hash payload))
             || negb (is_sha256_token (rp_intent_digest payload))
             || negb (is_sha256_token (rp_commit_digest payload))
          then Err ReplayStop_PayloadDecodeFailed
          else Ok {| rr_seq := rf_seq frame; rr_operation := operation; rr_payload := payload;
                     rr_offset := usize_to_u64 offset;
                     rr_record_len := usize_to_u64 (rf_record_end frame - offset) |}
      end
  end.

(** [apply_record]: the new reservations, or [None] for a transition that is not allowed. *)
Definition replay_apply_record (reservations : gmap string ReplayReservation) (record : ReplayWalRecord)
    : option (gmap string ReplayReservation) :=
  let payload := rr_payload record in
  match rp_operation payload with
  | ReplayWalOperation_Reserve =>
      if negb (rp_revision payload =? 1)%Z || bool_decide (is_Some (rp_expected_revision payload))
         || bool_decide (is_Some (reservations !! rp_key_hash payload))
      then None
      else Some (<[rp_key_hash payload := {|
             rv_key_hash := rp_key_hash payload; rv_intent_digest := rp_intent_digest payload;
             rv_commit_digest := rp_commit_digest payload; rv_revision := 1;
             rv_state := ReplayReservationState_Reserved; rv_reserved_seq := rr_seq record;
             rv_consumed_seq := None |}]> reservations)
  | ReplayWalOperation_Consume =>
      match reservations !! rp_key_hash payload with
      | None => None
      | Some current =>
          if bool_decide (rv_state current = ReplayReservationState_Reserved)
             && bool_decide (rv_intent_digest current = rp_intent_digest payload)
             && bool_decide (rv_commit_digest current = rp_commit_digest payload)
             && bool_decide (rp_expected_revision payload = Some (rv_revision current))
             && bool_decide (u64_checked_add (rv_revision current) 1 = Some (rp_revision payload))
          then Some (<[rp_key_hash payload := {|
                 rv_key_hash := rv_key_hash current; rv_intent_digest := rv_intent_digest current;
                 rv_commit_digest := rv_commit_digest current; rv_revision := rp_revision payload;
                 rv_state := ReplayReservationState_Consumed; rv_reserved_seq := rv_reserved_seq current;
                 rv_consumed_seq := Some (rr_seq record) |}]> reservations)
          else None
      end
  end.

(** The locals of the loop of [decode_prefix_with_record_limit]. *)
Record ReplayPrefix := {
  rx_records : list ReplayWalRecord;
  rx_reservations : gmap string ReplayReservation;
  rx_offset : nat;
  rx_expected_seq : Z;
  rx_stop_reason : ReplayWalStopReason
}.

Definition replay_prefix_start : ReplayPrefix := {|
  rx_records := []; rx_reservations := ∅; rx_offset := 0; rx_expected_seq := 1; rx_stop_reason := ReplayStop_CleanEof |}.

Definition replay_stopped (s : ReplayPrefix) (reason : ReplayWalStopReason) : ReplayPrefix := {|
  rx_records := rx_records s; rx_reservations := rx_reservations s; rx_offset := rx_offset s;
  rx_expected_seq := rx_expected_seq s; rx_stop_reason := reason |}.

(** One round of the loop and whether it goes round again.  The new offset is the end of a record
    inside the file, so the addition does not saturate. *)
Definition replay_prefix_step (b : bytes) (max_records : Z) (s : ReplayPrefix) : ReplayPrefix * bool :=
  if (max_records <=? Z.of_nat (length (rx_records s)))%Z
  then (replay_stopped s ReplayStop_RecordCapacityExceeded, false) else
  match replay_decode_record_at b (rx_offset s) (rx_expected_seq s) with
  | Err reason => (replay_stopped s reason, false)
  | Ok record =>
      match replay_apply_record (rx_reservations s) record with
      | None => (replay_stopped s ReplayStop_InvalidTransition, false)
      | Some reservations =>
          let s' := {| rx_records := rx_records s ++ [record]; rx_reservations := reservations;
                       rx_offset := rx_offset s + Z.to_nat (rr_record_len record);
                       rx_expected_seq := rx_expected_seq s; rx_stop_reason := rx_stop_reason s |} in
          if (rx_offset s' <? length b)%nat then
            match u64_checked_add (rx_expected_seq s) 1 with
            | None => (replay_stopped s' ReplayStop_SequenceGap, false)
            | Some next_seq =>
                ({| rx_records := rx_records s'; rx_reservations := rx_reservations s'; rx_offset := rx_offset s';
                    rx_expected_seq := next_seq; rx_stop_reason := rx_stop_reason s' |}, true)
            end
          else (s', true)
      end
  end.

(** The loop; [None] is running out of fuel, which [replay_loop_enough] excludes. *)
Fixpoint replay_loop (fuel : nat) (b : bytes) (max_records : Z) (s : ReplayPrefix) : option ReplayPrefix :=
  match fuel with
  | O => None
  | S fuel =>
      if (rx_offset s <? length b)%nat then
        let '(s', continue) := replay_prefix_step b max_records s in
        if continue then replay_loop fuel b max_records s' else Some s'
      else Some s
  end.

Definition replay_recovery_of (b : bytes) (s : ReplayPrefix) : ReplayWalRecovery := {|
  rw_records := rx_records s; rw_reservations := rx_reservations s;
  rw_last_observed_seq := match last (rx_records s) with Some record => rr_seq record | None => 0 end;
  rw_valid_record_count := length (rx_records s);
  rw_last_good_offset := usize_to_u64 (rx_offset s);
  rw_original_len := usize_to_u64 (length b); rw_repaired := false; rw_stop_reason := rx_stop_reason s |}.

Definition decode_prefix_with_record_limit (b : bytes) (max_records : Z) : ReplayWalRecovery :=
  replay_recovery_of b (default replay_prefix_start (replay_loop (S (length b)) b max_records replay_prefix_start)).

Definition replay_decode_prefix (b : bytes) : ReplayWalRecovery := decode_prefix_with_record_limit b REPLAY_WAL_MAX_RECORDS.

Definition is_safe_torn_tail (reason : ReplayWalStopReason) : bool :=
  match reason with ReplayStop_TruncatedHeader | ReplayStop_TruncatedPayload => true | _ => false end.

Definition is_clean (recovery : ReplayWalRecovery) : bool :=
  bool_decide (rw_stop_reason recovery = ReplayStop_CleanEof)
  || (rw_repaired recovery && is_safe_torn_tail (rw_stop_reason recovery)).

Definition ensure_appendable (recovery : ReplayWalRecovery) : Result unit ReplayWalError :=
  if is_clean recovery then Ok tt
  else Err (Replay_RecoveryStopped (rw_stop_reason recovery) (rw_last_good_offset recovery) (rw_original_len recovery)).

Definition ensure_append_capacity (recovery : ReplayWalRecovery) (record_bytes : nat) : Result unit ReplayWalError :=
  let next_records := (Z.of_nat (rw_valid_record_count recovery) + 1)%Z in
  if (REPLAY_WAL_MAX_RECORDS <? next_records)%Z
  then Err (Replay_CapacityExceeded ReplayCapacity_Records REPLAY_WAL_MAX_RECORDS next_records) else
  let next_bytes := u64_saturating_add (rw_last_good_offset recovery) (usize_to_u64 record_bytes) in
  if (REPLAY_WAL_MAX_BYTES <? next_bytes)%Z
  then Err (Replay_CapacityExceeded ReplayCapacity_Bytes REPLAY_WAL_MAX_BYTES next_bytes) else Ok tt.

End replay.
