(* ===== verification/ReplayCommands.v ===== *)
(** * Commands on the replay store

    The manifest and the log of [replay_wal.rs] as files, and the commands that initialize, recover,
    reserve, consume, verify and inspect.  What the operating system does is data: how far creating
    the files got, whether truncating a torn tail reached the disk and was reported, how many bytes
    of an append reached the disk and whether its sync was reported.  A crash is I/O that stops and
    reports nothing. *)

From S2P Require Import Prelude RustStr BTree Contracts WalFrame ReplayWal.

Local Open Scope string_scope.
Local Open Scope forge_scope.

(** The two files: absent, or with content; a manifest that does not parse is [Some None]. *)
Record ReplayStore := {
  rst_manifest : option (option ReplayWalManifest);
  rst_wal : option bytes
}.

Definition set_wal (st : ReplayStore) (wal : bytes) : ReplayStore := {|
  rst_manifest := rst_manifest st; rst_wal := Some wal |}.

Record ReplayIo := {
  rio_truncated : bool;
  rio_truncation_reported : bool;
  rio_written : nat;
  rio_append_reported : bool
}.

(** How far creating the files got. *)
Inductive InitProgress := Init_Nothing | Init_WalCreated | Init_ManifestCreated | Init_ManifestWritten | Init_Done.

Definition expected_manifest : ReplayWalManifest := {|
  rm_schema_version := REPLAY_WAL_SCHEMA_VERSION; rm_format_magic := of_bytes REPLAY_MAGIC;
  rm_wal_relative_path := REPLAY_WAL_RELATIVE_PATH |}.

(** [initialize_replay_files]; a manifest whose bytes are not all written does not parse. *)
Definition initialize_replay_files (st : ReplayStore) (progress : InitProgress) : Result unit ReplayWalError * ReplayStore :=
  match progress with
  | Init_Nothing => (Err Replay_CreateWal, st)
  | Init_WalCreated => (Err Replay_CreateWal, set_wal st [])
  | Init_ManifestCreated => (Err Replay_CreateWal, {| rst_manifest := Some None; rst_wal := Some [] |})
  | Init_ManifestWritten => (Err Replay_CreateWal, {| rst_manifest := Some (Some expected_manifest); rst_wal := Some [] |})
  | Init_Done => (Ok tt, {| rst_manifest := Some (Some expected_manifest); rst_wal := Some [] |})
  end.

Definition validate_replay_manifest (manifest : option ReplayWalManifest) : Result unit ReplayWalError :=
  match manifest with
  | None => Err Replay_InvalidManifest
  | Some m => if bool_decide (m = expected_manifest) then Ok tt else Err Replay_InvalidManifest
  end.

(** [create] is how far creation gets when it is asked for, [None] when it is not. *)
Definition ensure_replay_initialized_under_lock (st : ReplayStore) (create : option InitProgress)
    : Result bool ReplayWalError * ReplayStore :=
  match rst_manifest st, rst_wal st with
  | None, None =>
      match create with
      | None => (Err Replay_NotInitialized, st)
      | Some progress => let '(r, st') := initialize_replay_files st progress in (result_bind r (fun _ => Ok true), st')
      end
  | Some manifest, Some _ => (result_bind (validate_replay_manifest manifest) (fun _ => Ok false), st)
  | m, w => (Err (Replay_InitializationMismatch (bool_decide (is_Some m)) (bool_decide (is_Some w))), st)
  end.

Section commands.
Context {codec : ReplayCodec}.

(** [recover_replay_wal_file_under_lock]. *)
Definition recover_replay_wal_file (wal : bytes) (repair : bool) (io : ReplayIo)
    : Result ReplayWalRecovery ReplayWalError * bytes :=
  if (REPLAY_WAL_MAX_BYTES <? Z.of_nat (length wal))%Z
  then (Err (Replay_CapacityExceeded ReplayCapacity_Bytes REPLAY_WAL_MAX_BYTES (Z.of_nat (length wal))), wal) else
  let recovery := replay_decode_prefix wal in
  if bool_decide (rw_stop_reason recovery = ReplayStop_RecordCapacityExceeded)
  then (Err (Replay_CapacityExceeded ReplayCapacity_Records REPLAY_WAL_MAX_RECORDS (REPLAY_WAL_MAX_RECORDS + 1)), wal) else
  if repair && (rw_last_good_offset recovery <? usize_to_u64 (length wal))%Z
     && is_safe_torn_tail (rw_stop_reason recovery)
  then
    let wal' := if rio_truncated io then take (Z.to_nat (rw_last_good_offset recovery)) wal else wal in
    if rio_truncated io && rio_truncation_reported io then
      (Ok {| rw_records := rw_records recovery; rw_reservations := rw_reservations recovery;
             rw_last_observed_seq := rw_last_observed_seq recovery;
             rw_valid_record_count := rw_valid_record_count recovery;
             rw_last_good_offset := rw_last_good_offset recovery; rw_original_len := rw_original_len recovery;
             rw_repaired := true; rw_stop_reason := rw_stop_reason recovery |}, wal')
    else (Err Replay_RepairWal, wal')
  else (Ok recovery, wal).

(** [recover_replay_wal_under_retained_lock]. *)
Definition recover_replay_wal (st : ReplayStore) (repair : bool) (io : ReplayIo)
    : Result ReplayWalRecovery ReplayWalError * ReplayStore :=
  match ensure_replay_initialized_under_lock st None with
  | (Err e, st) => (Err e, st)
  | (Ok _, st) =>
      match rst_wal st with
      | None => (Err Replay_NotInitialized, st)
      | Some wal => let '(r, wal') := recover_replay_wal_file wal repair io in (r, set_wal st wal')
      end
  end.

(** [append_wal]: whether it succeeded, and the file. *)
Definition append_wal (wal record : bytes) (io : ReplayIo) : bool * bytes :=
  ((length record <=? rio_written io)%nat && rio_append_reported io, wal ++ take (rio_written io) record)%list.

(** Recovers, checks that the log can be appended to, and goes on with the recovery and the log. *)
Definition with_recovery {A} (st : ReplayStore) (repair : bool) (io : ReplayIo)
    (k : ReplayWalRecovery -> bytes -> Result A ReplayWalError * bytes) : Result A ReplayWalError * ReplayStore :=
  match recover_replay_wal st repair io with
  | (Err e, st) => (Err e, st)
  | (Ok recovery, st) =>
      match ensure_appendable recovery, rst_wal st with
      | Err e, _ => (Err e, st)
      | Ok _, None => (Err Replay_NotInitialized, st)
      | Ok _, Some wal => let '(r, wal') := k recovery wal in (r, set_wal st wal')
      end
  end.

(** A check before anything is touched. *)
Definition checked {A B} (r : Result A ReplayWalError) (st : ReplayStore)
    (k : A -> Result B ReplayWalError * ReplayStore) : Result B ReplayWalError * ReplayStore :=
  match r with Ok a => k a | Err e => (Err e, st) end.

Definition initialize_replay_wal (st : ReplayStore) (progress : InitProgress) (io : ReplayIo)
    : Result bool ReplayWalError * ReplayStore :=
  match ensure_replay_initialized_under_lock st (Some progress) with
  | (Err e, st) => (Err e, st)
  | (Ok true, st) => (Ok true, st)
  | (Ok false, st) => with_recovery st false io (fun _ wal => (Ok false, wal))
  end.

(** ** Reserving *)

Definition reserve_payload (key_hash intent_digest commit_digest : string) : ReplayWalPayload := {|
  rp_schema_version := REPLAY_WAL_SCHEMA_VERSION; rp_operation := ReplayWalOperation_Reserve;
  rp_key_hash := key_hash; rp_intent_digest := intent_digest; rp_commit_digest := commit_digest;
  rp_revision := 1; rp_expected_revision := None |}.

Definition reserve_replay_nonce_recovered (recovery : ReplayWalRecovery) (wal : bytes)
    (key_hash intent_digest commit_digest : string) (io : ReplayIo) : Result ReplayReserveResult ReplayWalError * bytes :=
  match rw_reservations recovery !! key_hash with
  | Some existing => (Err (Replay_DuplicateNonce key_hash (rv_revision existing) (rv_state existing)), wal)
  | None =>
      let prepared :=
        try seq <- replay_next_sequence (rw_last_observed_seq recovery);
        try record <- encode_payload_record seq (reserve_payload key_hash intent_digest commit_digest);
        try _ <- ensure_append_capacity recovery (length record);
        Ok (seq, record) in
      match prepared with
      | Err e => (Err e, wal)
      | Ok (seq, record) =>
          let '(appended, wal') := append_wal wal record io in
          (if appended then
             Ok {| rres_seq := seq; rres_bytes_appended := usize_to_u64 (length record);
                   rres_reservation := {|
                     rv_key_hash := key_hash; rv_intent_digest := intent_digest; rv_commit_digest := commit_digest;
                     rv_revision := 1; rv_state := ReplayReservationState_Reserved; rv_reserved_seq := seq;
                     rv_consumed_seq := None |} |}
           else Err Replay_WriteWal, wal')
      end
  end.

Definition reserve_replay_nonce_under_effect_lock (st : ReplayStore) (scope : Result unit ReplayWalError)
    (principal_id : PrincipalId) (audience nonce intent_digest commit_digest : string) (io : ReplayIo)
    : Result ReplayReserveResult ReplayWalError * ReplayStore :=
  checked (validate_sha256_digest intent_digest) st (fun _ =>
  checked (validate_commit_digest commit_digest) st (fun _ =>
  checked (replay_nonce_key_hash principal_id audience nonce) st (fun key_hash =>
  checked scope st (fun _ =>
  with_recovery st true io (fun recovery wal =>
    reserve_replay_nonce_recovered recovery wal key_hash intent_digest commit_digest io))))).

(** The same without an effect lock. *)
Definition reserve_replay_nonce (st : ReplayStore) (principal_id : PrincipalId)
    (audience nonce intent_digest commit_digest : string) (io : ReplayIo)
    : Result ReplayReserveResult ReplayWalError * ReplayStore :=
  reserve_replay_nonce_under_effect_lock st (Ok tt) principal_id audience nonce intent_digest commit_digest io.

(** ** Consuming *)

(** The binding a command names, checked against the reservation of its key. *)
Definition matching_reservation (recovery : ReplayWalRecovery) (key_hash intent_digest commit_digest : string)
    : Result ReplayReservation ReplayWalError :=
  match rw_reservations recovery !! key_hash with
  | None => Err (Replay_ReservationMissing key_hash)
  | Some existing =>
      if negb (bool_decide (rv_intent_digest existing = intent_digest)) then Err (Replay_IntentDigestMismatch key_hash)
      else if negb (bool_decide (rv_commit_digest existing = commit_digest)) then Err (Replay_CommitDigestMismatch key_hash)
      else Ok existing
  end.

Definition consume_payload (key_hash intent_digest commit_digest : string) (revision expected_revision : Z)
    : ReplayWalPayload := {|
  rp_schema_version := REPLAY_WAL_SCHEMA_VERSION; rp_operation := ReplayWalOperation_Consume;
  rp_key_hash := key_hash; rp_intent_digest := intent_digest; rp_commit_digest := commit_digest;
  rp_revision := revision; rp_expected_revision := Some expected_revision |}.

(** The record that consumes a reservation, and the reservation after it. *)
Definition prepare_consume (recovery : ReplayWalRecovery) (existing : ReplayReservation)
    (key_hash intent_digest commit_digest : string) (expected_revision : Z)
    : Result (Z * bytes * ReplayReservation) ReplayWalError :=
  if negb (rv_revision existing =? expected_revision)%Z
  then Err (Replay_RevisionMismatch key_hash expected_revision (rv_revision existing)) else
  match u64_checked_add expected_revision 1 with
  | None => Err (Replay_RevisionOverflow key_hash expected_revision)
  | Some revision =>
      try seq <- replay_next_sequence (rw_last_observed_seq recovery);
      try record <- encode_payload_record seq
                      (consume_payload key_hash intent_digest commit_digest revision expected_revision);
      try _ <- ensure_append_capacity recovery (length record);
      Ok (seq, record, {|
        rv_key_hash := key_hash; rv_intent_digest := intent_digest; rv_commit_digest := commit_digest;
        rv_revision := revision; rv_state := ReplayReservationState_Consumed;
        rv_reserved_seq := rv_reserved_seq existing; rv_consumed_seq := Some seq |})
  end.

Definition consume_replay_recovered (recovery : ReplayWalRecovery) (wal : bytes)
    (key_hash intent_digest commit_digest : string) (expected_revision : Z) (io : ReplayIo)
    : Result ReplayConsumeResult ReplayWalError * bytes :=
  match matching_reservation recovery key_hash intent_digest commit_digest with
  | Err e => (Err e, wal)
  | Ok existing =>
      if bool_decide (rv_state existing = ReplayReservationState_Consumed) then
        let reservation_revision := Z.max 0 (rv_revision existing - 1) in
        (if (expected_revision =? reservation_revision)%Z
         then Ok {| rcon_seq := default (rv_reserved_seq existing) (rv_consumed_seq existing);
                    rcon_bytes_appended := 0; rcon_appended := false; rcon_reservation := existing |}
         else Err (Replay_RevisionMismatch key_hash expected_revision reservation_revision), wal)
      else
        match prepare_consume recovery existing key_hash intent_digest commit_digest expected_revision with
        | Err e => (Err e, wal)
        | Ok (seq, record, reservation) =>
            let '(appended, wal') := append_wal wal record io in
            (if appended then Ok {| rcon_seq := seq; rcon_bytes_appended := usize_to_u64 (length record);
                                    rcon_appended := true; rcon_reservation := reservation |}
             else Err Replay_WriteWal, wal')
        end
  end.

Definition consume_replay_key_hash_under_effect_lock (st : ReplayStore) (scope : Result unit ReplayWalError)
    (key_hash intent_digest commit_digest : string) (expected_revision : Z) (io : ReplayIo)
    : Result ReplayConsumeResult ReplayWalError * ReplayStore :=
  checked (validate_sha256_field "key_hash" key_hash) st (fun _ =>
  checked (validate_sha256_digest intent_digest) st (fun _ =>
  checked (validate_commit_digest commit_digest) st (fun _ =>
  checked (validate_revision "expected_revision" expected_revision) st (fun _ =>
  checked scope st (fun _ =>
  with_recovery st true io (fun recovery wal =>
    consume_replay_recovered recovery wal key_hash intent_digest commit_digest expected_revision io)))))).

Definition consume_replay_nonce_non_boundary (st : ReplayStore) (principal_id : PrincipalId)
    (audience nonce intent_digest commit_digest : string) (expected_revision : Z) (io : ReplayIo)
    : Result ReplayConsumeResult ReplayWalError * ReplayStore :=
  checked (validate_sha256_digest intent_digest) st (fun _ =>
  checked (validate_commit_digest commit_digest) st (fun _ =>
  checked (validate_revision "expected_revision" expected_revision) st (fun _ =>
  checked (replay_nonce_key_hash principal_id audience nonce) st (fun key_hash =>
  with_recovery st true io (fun recovery wal =>
    consume_replay_recovered recovery wal key_hash intent_digest commit_digest expected_revision io))))).

(** ** The commit guard *)

Definition prepare_replay_guard_state (st : ReplayStore) (scope : Result unit ReplayWalError)
    (principal_id : PrincipalId) (audience nonce intent_digest commit_digest : string) (expected_revision : Z)
    (io : ReplayIo) : Result ReplayGuardState ReplayWalError * ReplayStore :=
  checked (validate_sha256_digest intent_digest) st (fun _ =>
  checked (validate_commit_digest commit_digest) st (fun _ =>
  checked (validate_revision "expected_revision" expected_revision) st (fun _ =>
  checked (replay_nonce_key_hash principal_id audience nonce) st (fun key_hash =>
  checked scope st (fun _ =>
  with_recovery st true io (fun recovery wal =>
    (try existing <- matching_reservation recovery key_hash intent_digest commit_digest;
     if negb (bool_decide (rv_state existing = ReplayReservationState_Reserved))
     then Err (Replay_ReservationNotReserved key_hash (rv_state existing)) else
     try prepared <- prepare_consume recovery existing key_hash intent_digest commit_digest expected_revision;
     let '(seq, record, consumed) := prepared in
     Ok {| rg_reserved := existing; rg_seq := seq; rg_bytes := record; rg_consumed := consumed |}, wal))))))).

(** [ReplayCommitGuard::consume], on the store the guard has kept locked. *)
Definition guard_consume (st : ReplayStore) (guard : ReplayGuardState) (io : ReplayIo)
    : Result ReplayConsumeResult ReplayWalError * ReplayStore :=
  match rst_wal st with
  | None => (Err Replay_WriteWal, st)
  | Some wal =>
      let '(appended, wal') := append_wal wal (rg_bytes guard) io in
      (if appended then Ok {| rcon_seq := rg_seq guard; rcon_bytes_appended := usize_to_u64 (length (rg_bytes guard));
                              rcon_appended := true; rcon_reservation := rg_consumed guard |}
       else Err Replay_WriteWal, set_wal st wal')
  end.

(** ** Reading *)

Definition verify_consumed_replay_key_hash_under_effect_lock (st : ReplayStore) (scope : Result unit ReplayWalError)
    (key_hash intent_digest commit_digest : string) (reservation_revision : Z) (io : ReplayIo)
    : Result ReplayReservation ReplayWalError * ReplayStore :=
  checked (validate_sha256_field "key_hash" key_hash) st (fun _ =>
  checked (validate_sha256_digest intent_digest) st (fun _ =>
  checked (validate_commit_digest commit_digest) st (fun _ =>
  checked (validate_revision "reservation_revision" reservation_revision) st (fun _ =>
  checked scope st (fun _ =>
  with_recovery st false io (fun recovery wal =>
    (try existing <- matching_reservation recovery key_hash intent_digest commit_digest;
     if negb (bool_decide (rv_state existing = ReplayReservationState_Consumed))
        || bool_decide (rv_consumed_seq existing = None)
     then Err (Replay_ReservationNotConsumed key_hash (rv_state existing)) else
     match u64_checked_add reservation_revision 1 with
     | None => Err (Replay_RevisionOverflow key_hash reservation_revision)
     | Some consumed_revision =>
         if negb (rv_revision existing =? consumed_revision)%Z
         then Err (Replay_RevisionMismatch key_hash consumed_revision (rv_revision existing)) else Ok existing
     end, wal))))))).

Definition inspect_replay_key_hash_under_effect_lock (st : ReplayStore) (scope : Result unit ReplayWalError)
    (key_hash intent_digest commit_digest : string) (io : ReplayIo)
    : Result (option ReplayReservation) ReplayWalError * ReplayStore :=
  checked (validate_sha256_field "key_hash" key_hash) st (fun _ =>
  checked (validate_sha256_digest intent_digest) st (fun _ =>
  checked (validate_commit_digest commit_digest) st (fun _ =>
  checked scope st (fun _ =>
  with_recovery st false io (fun recovery wal =>
    (match matching_reservation recovery key_hash intent_digest commit_digest with
     | Ok existing => Ok (Some existing)
     | Err (Replay_ReservationMissing _) => Ok None
     | Err e => Err e
     end, wal)))))).

End commands.
