(* ===== verification/ReplayLog.v ===== *)
(** * Reading back the replay log

    What the decoder of [ReplayWal] returns on the bytes the append path leaves: a log of whole
    records, possibly followed by a strict prefix of one more.  The loop ends on any bytes. *)

From S2P Require Import Prelude RustStr BTree Contracts WalFrame ReplayWal ReplayCommands.

(** ** The loop ends *)

Section termination.
Context {codec : ReplayCodec}.

Lemma decode_frame_end b offset frame :
  decode_frame b offset = Ok frame -> offset + HEADER_LEN + TRAILER_LEN <= rf_record_end frame <= length b.
Proof.
  unfold decode_frame. intros Hd.
  repeat (match type of Hd with (if ?c then _ else _) = _ => let E := fresh "E" in destruct c eqn:E; [done|] end).
  injection Hd as <-. simpl. match goal with H : (length b <? _) = false |- _ => apply Nat.ltb_ge in H end. lia.
Qed.

Lemma replay_step_advances b max s s' :
  (Z.of_nat (length b) <= i64_max)%Z -> replay_prefix_step b max s = (s', true) -> rx_offset s < rx_offset s'.
Proof.
  unfold replay_prefix_step, replay_decode_record_at. intros Hlen Hs. destruct (_ <=? _)%Z; [done|].
  destruct (decode_frame b (rx_offset s)) as [frame|] eqn:Hf; simpl in Hs; [|done].
  apply decode_frame_end in Hf. unfold HEADER_LEN, TRAILER_LEN in Hf.
  destruct (negb _); [done|]. destruct (replay_from_record_type _); [|done]. destruct (replay_from_slice _); [|done].
  destruct (_ || _); [done|]. destruct (replay_apply_record _ _); [|done]. cbn [rx_offset rr_record_len] in Hs.
  rewrite usize_to_u64_small, Nat2Z.id in Hs by lia.
  destruct (_ <? _); [destruct (u64_checked_add _ _)|]; simplify_eq; simpl; lia.
Qed.

(** The fuel [decode_prefix_with_record_limit] gives its loop is enough. *)
Lemma replay_loop_enough fuel b max s :
  (Z.of_nat (length b) <= i64_max)%Z -> length b - rx_offset s < fuel -> is_Some (replay_loop fuel b max s).
Proof.
  intros Hlen. revert s. induction fuel as [|fuel IH]; intros s Hf; [lia|]. simpl.
  destruct (rx_offset s <? length b) eqn:E; [|by eexists]. apply Nat.ltb_lt in E.
  destruct (replay_prefix_step b max s) as [s' []] eqn:Hs; [|by eexists].
  apply replay_step_advances in Hs; [|done]. apply IH. lia.
Qed.

Lemma replay_loop_mono fuel fuel' b max s r :
  replay_loop fuel b max s = Some r -> fuel <= fuel' -> replay_loop fuel' b max s = Some r.
Proof.
  revert fuel' s. induction fuel as [|fuel IH]; intros [|fuel'] s; simpl; try done; [lia|].
  intros Hd Hle. destruct (_ <? _); [|done].
  destruct (replay_prefix_step b max s) as [s' []]; [|done]. apply IH; [done|lia].
Qed.

Lemma decode_replay_loop fuel b r :
  replay_loop fuel b REPLAY_WAL_MAX_RECORDS replay_prefix_start = Some r -> fuel <= S (length b) ->
  replay_decode_prefix b = replay_recovery_of b r.
Proof.
  intros Hr Hf. unfold replay_decode_prefix, decode_prefix_with_record_limit. by rewrite (replay_loop_mono _ _ _ _ _ _ Hr Hf).
Qed.

End termination.

Section log.
Context {codec : ReplayCodec} {laws : ReplayCodecLaws codec}.

(** ** One record *)

Definition nonce_record_bytes (seq ty : Z) (payload : bytes) : bytes := frame_bytes replay_crc32c "F" "M" "R" "1" seq ty payload.

Definition replay_fits (seq ty : Z) (payload : bytes) : Prop :=
  in_u64 seq = true /\ (0 <= ty <= 255)%Z /\ (Z.of_nat (length payload) <= MAX_PAYLOAD_LEN)%Z.

Lemma replay_fits_fields seq ty payload : replay_fits seq ty payload -> fields_fit seq ty payload.
Proof. intros (? & ? & ?). unfold fields_fit, MAX_PAYLOAD_LEN, u32_max in *. repeat split; (done || lia). Qed.

Lemma encode_nonce_record seq ty payload :
  (Z.of_nat (length payload) <= MAX_PAYLOAD_LEN)%Z -> replay_encode_record seq ty payload = Ok (nonce_record_bytes seq ty payload).
Proof.
  intros Hl. unfold replay_encode_record.
  assert ((Z.of_nat (length payload) <=? u32_max)%Z = true) as ->
    by (apply Z.leb_le; unfold MAX_PAYLOAD_LEN, u32_max in *; lia).
  unfold nonce_record_bytes, frame_bytes. fold (frame_prefix "F" "M" "R" "1" seq ty payload).
  rewrite take_app_length' by done. by rewrite <- app_assoc.
Qed.

Lemma length_nonce_record seq ty payload : length (nonce_record_bytes seq ty payload) = HEADER_LEN + length payload + TRAILER_LEN.
Proof. apply length_frame_bytes. Qed.

(** Everything [decode_frame] checks before it looks at the payload. *)
Lemma decode_frame_header b offset seq ty payload :
  replay_fits seq ty payload -> (Z.of_nat offset <= i64_max)%Z -> (length b - offset <? HEADER_LEN) = false ->
  header_read replay_crc32c "F" "M" "R" "1" (slice b offset (offset + HEADER_LEN)) seq ty payload ->
  decode_frame b offset
  = let payload_end := offset + HEADER_LEN + length payload in
    let record_end := payload_end + TRAILER_LEN in
    if length b <? record_end then Err ReplayStop_TruncatedPayload else
    let body := slice b (offset + HEADER_LEN) payload_end in
    if negb (replay_crc32c (frame_prefix "F" "M" "R" "1" seq ty payload ++ body)
             =? from_le_bytes (slice b payload_end record_end))%Z
    then Err ReplayStop_PayloadChecksumMismatch
    else Ok {| rf_record_type := ty; rf_seq := seq; rf_payload := body; rf_record_end := record_end |}.
Proof.
  intros (Hseq & Hty & Hlen) Ho Hb [E1 E2 E3 E4 E5 E6 E7 E8]. unfold decode_frame.
  rewrite Hb, E1, E2, E3, E4, E5, E6, E7, E8. rewrite bool_decide_eq_true_2 by done. rewrite !Z.eqb_refl. simpl orb. cbv iota.
  assert ((MAX_PAYLOAD_LEN <? Z.of_nat (length payload))%Z = false) as -> by (apply Z.ltb_ge; lia).
  rewrite Nat2Z.id. simpl negb. cbv iota zeta.
  assert (in_u64 (Z.of_nat (offset + HEADER_LEN + length payload + TRAILER_LEN)) = true) as ->; [|done].
  unfold in_u64, u64_max, i64_max, MAX_PAYLOAD_LEN, HEADER_LEN, TRAILER_LEN in *.
  apply andb_true_iff. rewrite !Z.leb_le. lia.
Qed.

Lemma decode_frame_encoded pre seq ty payload post :
  replay_fits seq ty payload -> (Z.of_nat (length pre) <= i64_max)%Z ->
  decode_frame (pre ++ nonce_record_bytes seq ty payload ++ post) (length pre)
  = Ok {| rf_record_type := ty; rf_seq := seq; rf_payload := payload;
          rf_record_end := length pre + length (nonce_record_bytes seq ty payload) |}.
Proof.
  intros Hok Hpre.
  destruct (payload_of_record replay_crc32c "F" "M" "R" "1" replay_crc32c_range pre seq ty payload post) as (Hl & Hp & Ht).
  destruct (header_of_record replay_crc32c "F" "M" "R" "1" replay_crc32c_range pre seq ty payload
    (payload ++ to_le_bytes 4 (replay_crc32c (frame_prefix "F" "M" "R" "1" seq ty payload ++ payload)) ++ post)) as [Hb Hh];
    [by apply replay_fits_fields|].
  rewrite length_nonce_record. unfold nonce_record_bytes. unfold frame_bytes in *. rewrite <- !app_assoc in *.
  rewrite (decode_frame_header _ _ seq ty payload) by done. cbv zeta. rewrite Hl, Hp, Ht, Z.eqb_refl, !Nat.add_assoc. done.
Qed.

(** A record cut short anywhere is a torn tail that may be repaired. *)
Lemma decode_frame_torn pre seq ty payload k :
  replay_fits seq ty payload -> (Z.of_nat (length pre) <= i64_max)%Z -> k < length (nonce_record_bytes seq ty payload) ->
  exists reason, decode_frame (pre ++ take k (nonce_record_bytes seq ty payload)) (length pre) = Err reason
    /\ is_safe_torn_tail reason = true.
Proof.
  intros Hok Hpre Hk. destruct (torn_record replay_crc32c "F" "M" "R" "1" pre seq ty payload k Hk) as [Hb|[Hl [rest Hr]]].
  - exists ReplayStop_TruncatedHeader. split; [|done]. unfold decode_frame, nonce_record_bytes. by rewrite Hb.
  - exists ReplayStop_TruncatedPayload. split; [|done]. unfold nonce_record_bytes. rewrite Hr in *.
    destruct (header_of_record replay_crc32c "F" "M" "R" "1" replay_crc32c_range pre seq ty payload rest) as [Hb Hh];
      [by apply replay_fits_fields|].
    rewrite (decode_frame_header _ _ seq ty payload) by done. cbv zeta. by rewrite Hl.
Qed.

(** ** Logs *)

Definition replay_next (rs : list ReplayWalRecord) : Z := Z.of_nat (length rs) + 1.

Definition replay_rec_bytes (rs : list ReplayWalRecord) (p : ReplayWalPayload) (v : bytes) : bytes :=
  nonce_record_bytes (replay_next rs) (replay_record_type (rp_operation p)) v.

Definition replay_rec (b : bytes) (rs : list ReplayWalRecord) (p : ReplayWalPayload) (v : bytes) : ReplayWalRecord := {|
  rr_seq := replay_next rs; rr_operation := rp_operation p; rr_payload := p; rr_offset := Z.of_nat (length b);
  rr_record_len := Z.of_nat (length (replay_rec_bytes rs p v)) |}.

(** What the decoder demands of a payload. *)
Definition payload_shape (p : ReplayWalPayload) : Prop :=
  rp_schema_version p = REPLAY_WAL_SCHEMA_VERSION /\ is_sha256_token (rp_key_hash p) = true
  /\ is_sha256_token (rp_intent_digest p) = true /\ is_sha256_token (rp_commit_digest p) = true.

(** The record of [p] fits behind [b]. *)
Record has_room (b : bytes) (rs : list ReplayWalRecord) (p : ReplayWalPayload) (v : bytes) : Prop := {
  room_vec : replay_to_vec p = Some v;
  room_payload : (Z.of_nat (length v) <= MAX_PAYLOAD_LEN)%Z;
  room_bytes : (Z.of_nat (length (b ++ replay_rec_bytes rs p v)) <= REPLAY_WAL_MAX_BYTES)%Z;
  room_records : (Z.of_nat (length rs) < REPLAY_WAL_MAX_RECORDS)%Z
}.

(** A log written record by record, with the reservations its records add up to. *)
Inductive replay_log : bytes -> list ReplayWalRecord -> gmap string ReplayReservation -> Prop :=
| replay_log_nil : replay_log [] [] ∅
| replay_log_snoc b rs m p v m' :
    replay_log b rs m -> has_room b rs p v -> payload_shape p ->
    replay_apply_record m (replay_rec b rs p v) = Some m' ->
    replay_log (b ++ replay_rec_bytes rs p v) (rs ++ [replay_rec b rs p v]) m'.

(** The log [good], possibly followed by part of one more record. *)
Inductive replay_image (good : bytes) (rs : list ReplayWalRecord) (m : gmap string ReplayReservation) : bytes -> Prop :=
| replay_clean : replay_log good rs m -> replay_image good rs m good
| replay_torn p v k :
    replay_log good rs m -> has_room good rs p v -> 0 < k < length (replay_rec_bytes rs p v) ->
    replay_image good rs m (good ++ take k (replay_rec_bytes rs p v)).

Lemma length_replay_rec rs p v : length (replay_rec_bytes rs p v) = HEADER_LEN + length v + TRAILER_LEN.
Proof. apply length_nonce_record. Qed.

Lemma replay_rec_nonempty rs p v : replay_rec_bytes rs p v ≠ [].
Proof. intros E. apply (f_equal length) in E. by rewrite length_replay_rec in E. Qed.

Lemma replay_log_len b rs m : replay_log b rs m -> length rs <= length b.
Proof.
  induction 1 as [|b rs m p v m' _ IH _ _ _]; [done|].
  rewrite !length_app, length_replay_rec. simpl. unfold HEADER_LEN. lia.
Qed.

Lemma replay_log_bounds b rs m :
  replay_log b rs m ->
  (Z.of_nat (length b) <= REPLAY_WAL_MAX_BYTES)%Z /\ (Z.of_nat (length rs) <= REPLAY_WAL_MAX_RECORDS)%Z
  /\ length rs <= length b.
Proof.
  intros Hlog. split; [|split; [|by eapply replay_log_len]]; destruct Hlog as [|b rs m p v m' _ [? ? ? ?] _ _]; try done.
  rewrite length_app. simpl. lia.
Qed.

Lemma replay_next_fits b rs p v : has_room b rs p v -> replay_fits (replay_next rs) (replay_record_type (rp_operation p)) v.
Proof.
  intros [_ Hv _ Hr]. split; [|split; [by destruct (rp_operation p) | done]].
  unfold in_u64, replay_next, u64_max, REPLAY_WAL_MAX_RECORDS in *. apply andb_true_iff. rewrite !Z.leb_le. lia.
Qed.

(** The state of the decoder after the records [rs], when it looks for another one. *)
Definition replay_read (b : bytes) (rs : list ReplayWalRecord) (m : gmap string ReplayReservation) (seq : Z) : ReplayPrefix := {|
  rx_records := rs; rx_reservations := m; rx_offset := length b; rx_expected_seq := seq;
  rx_stop_reason := ReplayStop_CleanEof |}.

Lemma decode_replay_rec b rs p v post :
  has_room b rs p v -> payload_shape p ->
  replay_decode_record_at (b ++ replay_rec_bytes rs p v ++ post) (length b) (replay_next rs) = Ok (replay_rec b rs p v).
Proof.
  intros Hroom (Hs & Hk & Hi & Hc). pose proof (replay_next_fits _ _ _ _ Hroom) as Hfit. destruct Hroom as [Hv Hp Hb Hr].
  rewrite length_app in Hb. unfold REPLAY_WAL_MAX_BYTES in Hb.
  unfold replay_decode_record_at, replay_rec_bytes. rewrite decode_frame_encoded by (done || unfold i64_max; lia).
  cbn [result_bind rf_seq rf_record_type rf_payload rf_record_end]. rewrite Z.eqb_refl. simpl negb. cbv iota.
  assert (replay_from_record_type (replay_record_type (rp_operation p)) = Some (rp_operation p)) as -> by (by destruct (rp_operation p)).
  rewrite (replay_roundtrip _ _ Hv), Hs, Hk, Hi, Hc, !bool_decide_eq_true_2 by done. cbn [negb orb].
  fold (replay_rec_bytes rs p v). rewrite Nat.add_comm, Nat.add_sub, !usize_to_u64_small by (unfold i64_max; lia). done.
Qed.

Lemma replay_step_rec b rs m p v m' post :
  has_room b rs p v -> payload_shape p -> replay_apply_record m (replay_rec b rs p v) = Some m' ->
  replay_prefix_step (b ++ replay_rec_bytes rs p v ++ post) REPLAY_WAL_MAX_RECORDS (replay_read b rs m (replay_next rs))
  = (replay_read (b ++ replay_rec_bytes rs p v) (rs ++ [replay_rec b rs p v]) m'
       (replay_next rs + (if decide (post = []) then 0 else 1)), true).
Proof.
  intros Hroom Hshape Hap. unfold replay_prefix_step. cbn [rx_records rx_offset rx_expected_seq rx_reservations replay_read].
  pose proof (room_records _ _ _ _ Hroom) as Hr.
  assert ((REPLAY_WAL_MAX_RECORDS <=? Z.of_nat (length rs))%Z = false) as -> by (apply Z.leb_gt; lia).
  rewrite decode_replay_rec, Hap by done. cbn [rx_offset rr_record_len replay_rec]. rewrite Nat2Z.id.
  assert (u64_checked_add (replay_next rs) 1 = Some (replay_next rs + 1)%Z) as ->.
  { unfold u64_checked_add, in_u64, u64_max, replay_next, REPLAY_WAL_MAX_RECORDS in *.
    assert ((0 <=? Z.of_nat (length rs) + 1 + 1)%Z && (Z.of_nat (length rs) + 1 + 1 <=? 18446744073709551615)%Z = true) as ->; [|done].
    apply andb_true_iff. rewrite !Z.leb_le. lia. }
  destruct (decide (post = [])) as [->|Hne].
  - rewrite app_nil_r, length_app, Nat.ltb_irrefl. unfold replay_read. by rewrite length_app, Z.add_0_r.
  - assert (length b + length (replay_rec_bytes rs p v) <? length (b ++ replay_rec_bytes rs p v ++ post) = true) as ->.
    { apply Nat.ltb_lt. rewrite !length_app. destruct post; [done|]. simpl. lia. }
    unfold replay_read. by rewrite length_app.
Qed.

(** With more bytes behind the log, the loop reads the log and looks at them. *)
Lemma replay_loop_log b rs m post fuel :
  replay_log b rs m -> post ≠ [] ->
  replay_loop (length rs + fuel) (b ++ post) REPLAY_WAL_MAX_RECORDS replay_prefix_start
  = replay_loop fuel (b ++ post) REPLAY_WAL_MAX_RECORDS (replay_read b rs m (replay_next rs)).
Proof.
  intros Hlog. revert post fuel. induction Hlog as [|b rs m p v m' Hlog IH Hroom Hshape Hap]; intros post fuel Hne; [done|].
  rewrite <- app_assoc, length_app, <- Nat.add_assoc, IH.
  2: { intros [E _]%app_eq_nil. by apply replay_rec_nonempty in E. }
  simpl (length [_] + fuel). cbn [replay_loop]. cbn [rx_offset replay_read].
  assert (length b <? length (b ++ replay_rec_bytes rs p v ++ post) = true) as ->.
  { apply Nat.ltb_lt. rewrite !length_app, length_replay_rec. unfold HEADER_LEN. lia. }
  rewrite (replay_step_rec _ _ _ _ _ m') by done. rewrite decide_False by done.
  unfold replay_next. rewrite length_app. simpl. do 2 f_equal. lia.
Qed.

(** The recovery of a log of [rs] in a file of [len] bytes. *)
Definition replay_recovered (good : bytes) (rs : list ReplayWalRecord) (m : gmap string ReplayReservation) (len : nat)
    (reason : ReplayWalStopReason) : ReplayWalRecovery := {|
  rw_records := rs; rw_reservations := m; rw_last_observed_seq := Z.of_nat (length rs);
  rw_valid_record_count := length rs; rw_last_good_offset := Z.of_nat (length good);
  rw_original_len := Z.of_nat len; rw_repaired := false; rw_stop_reason := reason |}.

Lemma replay_last_seq b rs m :
  replay_log b rs m -> match last rs with Some record => rr_seq record | None => 0%Z end = Z.of_nat (length rs).
Proof. destruct 1; [done|]. rewrite last_snoc, length_app. unfold replay_rec, replay_next. simpl. lia. Qed.

Lemma decode_log b rs m : replay_log b rs m -> replay_decode_prefix b = replay_recovered b rs m (length b) ReplayStop_CleanEof.
Proof.
  intros Hlog. pose proof (replay_log_bounds _ _ _ Hlog) as (Hb & _ & Hn). pose proof (replay_last_seq _ _ _ Hlog) as Hlast.
  assert (exists seq, replay_loop (S (length rs)) b REPLAY_WAL_MAX_RECORDS replay_prefix_start = Some (replay_read b rs m seq)) as (seq & Hl).
  { destruct Hlog as [|b rs m p v m' Hlog Hroom Hshape Hap]; [by exists 1%Z|]. eexists.
    rewrite length_app. simpl (length [_]). rewrite <- Nat.add_succ_r, (replay_loop_log b rs m) by (done || apply replay_rec_nonempty).
    cbn [replay_loop]. cbn [rx_offset replay_read].
    assert (length b <? length (b ++ replay_rec_bytes rs p v) = true) as ->.
    { apply Nat.ltb_lt. rewrite length_app, length_replay_rec. unfold HEADER_LEN. lia. }
    rewrite <- (app_nil_r (replay_rec_bytes rs p v)) at 1. rewrite (replay_step_rec _ _ _ _ _ m') by done.
    cbn [replay_loop rx_offset replay_read]. by rewrite Nat.ltb_irrefl. }
  rewrite (decode_replay_loop _ _ _ Hl) by lia. unfold replay_recovery_of, replay_recovered, replay_read. cbn.
  rewrite Hlast, !usize_to_u64_small by (unfold REPLAY_WAL_MAX_BYTES, i64_max in *; lia). done.
Qed.

Lemma decode_torn good rs m p v k :
  replay_log good rs m -> has_room good rs p v -> 0 < k < length (replay_rec_bytes rs p v) ->
  exists reason, is_safe_torn_tail reason = true
    /\ replay_decode_prefix (good ++ take k (replay_rec_bytes rs p v)) = replay_recovered good rs m (length good + k) reason.
Proof.
  intros Hlog Hroom [Hk0 Hk]. pose proof (replay_log_bounds _ _ _ Hlog) as (Hb & _ & Hn). pose proof (replay_last_seq _ _ _ Hlog) as Hlast.
  pose proof (replay_next_fits _ _ _ _ Hroom) as Hfit. destruct Hroom as [_ _ Hbytes Hr]. rewrite length_app in Hbytes.
  unfold REPLAY_WAL_MAX_BYTES in *.
  destruct (decode_frame_torn good (replay_next rs) (replay_record_type (rp_operation p)) v k Hfit)
    as (reason & Hd & Hsafe); [unfold i64_max; lia | done|]. exists reason. split; [done|].
  assert (length (good ++ take k (replay_rec_bytes rs p v)) = length good + k) as Hl by (rewrite length_app, length_take; lia).
  rewrite (decode_replay_loop (length rs + 1) _ (replay_stopped (replay_read good rs m (replay_next rs)) reason)).
  - unfold replay_recovery_of, replay_recovered. cbn [rx_records rx_offset rx_reservations rx_stop_reason replay_stopped replay_read].
    by rewrite Hlast, Hl, !usize_to_u64_small by (unfold i64_max; lia).
  - rewrite (replay_loop_log good rs m); [|done|].
    2: { intros E. apply (f_equal length) in E. rewrite length_take in E. simpl in E. lia. }
    cbn [replay_loop]. cbn [rx_offset replay_read]. rewrite Hl.
    assert (length good <? length good + k = true) as -> by (apply Nat.ltb_lt; lia).
    unfold replay_prefix_step. cbn [rx_records rx_offset rx_expected_seq replay_read].
    assert ((REPLAY_WAL_MAX_RECORDS <=? Z.of_nat (length rs))%Z = false) as -> by (apply Z.leb_gt; lia).
    unfold replay_decode_record_at, replay_rec_bytes. by rewrite Hd.
  - rewrite Hl. lia.
Qed.

End log.
