(* ===== verification/ReplaySafety.v ===== *)
(** * A nonce is used once

    The commands of [ReplayCommands] refine a small machine on nonces: absent, reserved for an
    intent and a commit digest, consumed.  Every reachable store reads back, whatever I/O failed. *)

From S2P Require Import Prelude RustStr BTree Contracts WalFrame ReplayWal ReplayCommands ReplayLog.

Local Open Scope forge_scope.

(** ** The abstract machine *)

Record Nonce := { nc_intent : string; nc_commit : string; nc_state : ReplayReservationState }.

Definition reserved (i c : string) : Nonce := {| nc_intent := i; nc_commit := c; nc_state := ReplayReservationState_Reserved |}.
Definition consumed (i c : string) : Nonce := {| nc_intent := i; nc_commit := c; nc_state := ReplayReservationState_Consumed |}.

Inductive nonce_step (s : gmap string Nonce) : gmap string Nonce -> Prop :=
| nonce_keep : nonce_step s s
| nonce_reserve k i c : s !! k = None -> nonce_step s (<[k := reserved i c]> s)
| nonce_consume k i c : s !! k = Some (reserved i c) -> nonce_step s (<[k := consumed i c]> s).

Definition nonce_of (r : ReplayReservation) : Nonce := {|
  nc_intent := rv_intent_digest r; nc_commit := rv_commit_digest r; nc_state := rv_state r |}.

Definition nonces (m : gmap string ReplayReservation) : gmap string Nonce := nonce_of <$> m.

(** ** Commands as steps *)

Inductive replay_command :=
| Cmd_Initialize (progress : InitProgress) (io : ReplayIo)
| Cmd_Recover (repair : bool) (io : ReplayIo)
| Cmd_Reserve (scope : Result unit ReplayWalError) (principal_id : PrincipalId) (audience nonce intent commit : string) (io : ReplayIo)
| Cmd_ConsumeKey (scope : Result unit ReplayWalError) (key intent commit : string) (expected_revision : Z) (io : ReplayIo)
| Cmd_ConsumeNonce (principal_id : PrincipalId) (audience nonce intent commit : string) (expected_revision : Z) (io : ReplayIo)
| Cmd_Guard (scope : Result unit ReplayWalError) (principal_id : PrincipalId) (audience nonce intent commit : string)
    (expected_revision : Z) (io : ReplayIo) (consume : option ReplayIo)
| Cmd_Verify (scope : Result unit ReplayWalError) (key intent commit : string) (revision : Z) (io : ReplayIo)
| Cmd_Inspect (scope : Result unit ReplayWalError) (key intent commit : string) (io : ReplayIo).

(** What the caller is told, for a key with its intent and commit. *)
Inductive replay_ack :=
| Ack_Reserved (key intent commit : string)
| Ack_Consumed (key intent commit : string)
| Ack_AlreadyConsumed (key intent commit : string)
| Ack_Other.

Section exec.
Context {codec : ReplayCodec}.

Definition ack_reserved (r : Result ReplayReserveResult ReplayWalError) : replay_ack :=
  match r with
  | Ok x => Ack_Reserved (rv_key_hash (rres_reservation x)) (rv_intent_digest (rres_reservation x)) (rv_commit_digest (rres_reservation x))
  | Err _ => Ack_Other
  end.

Definition ack_consumed (r : Result ReplayConsumeResult ReplayWalError) : replay_ack :=
  match r with
  | Ok x =>
      let v := rcon_reservation x in
      if rcon_appended x then Ack_Consumed (rv_key_hash v) (rv_intent_digest v) (rv_commit_digest v)
      else Ack_AlreadyConsumed (rv_key_hash v) (rv_intent_digest v) (rv_commit_digest v)
  | Err _ => Ack_Other
  end.

Definition replay_exec (st : ReplayStore) (cmd : replay_command) : replay_ack * ReplayStore :=
  match cmd with
  | Cmd_Initialize progress io => (Ack_Other, (initialize_replay_wal st progress io).2)
  | Cmd_Recover repair io => (Ack_Other, (recover_replay_wal st repair io).2)
  | Cmd_Reserve scope p a n i c io =>
      let '(r, st') := reserve_replay_nonce_under_effect_lock st scope p a n i c io in (ack_reserved r, st')
  | Cmd_ConsumeKey scope k i c rev io =>
      let '(r, st') := consume_replay_key_hash_under_effect_lock st scope k i c rev io in (ack_consumed r, st')
  | Cmd_ConsumeNonce p a n i c rev io =>
      let '(r, st') := consume_replay_nonce_non_boundary st p a n i c rev io in (ack_consumed r, st')
  | Cmd_Guard scope p a n i c rev io consume =>
      match prepare_replay_guard_state st scope p a n i c rev io, consume with
      | (Ok guard, st'), Some io' => let '(r, st'') := guard_consume st' guard io' in (ack_consumed r, st'')
      | (_, st'), _ => (Ack_Other, st')
      end
  | Cmd_Verify scope k i c rev io =>
      (Ack_Other, (verify_consumed_replay_key_hash_under_effect_lock st scope k i c rev io).2)
  | Cmd_Inspect scope k i c io => (Ack_Other, (inspect_replay_key_hash_under_effect_lock st scope k i c io).2)
  end.

Definition replay_empty : ReplayStore := {| rst_manifest := None; rst_wal := None |}.

(** Runs from the empty store, with what was acknowledged, latest last. *)
Inductive replay_trace : list replay_ack -> ReplayStore -> Prop :=
| trace_start : replay_trace [] replay_empty
| trace_step acks st cmd ack st' :
    replay_trace acks st -> replay_exec st cmd = (ack, st') -> replay_trace (acks ++ [ack]) st'.

(** The reservations a store holds. *)
Definition view (st : ReplayStore) : gmap string ReplayReservation :=
  match rst_wal st with Some wal => rw_reservations (replay_decode_prefix wal) | None => ∅ end.

End exec.

Section safety.
Context {codec : ReplayCodec} {laws : ReplayCodecLaws codec}.

(** ** Reservations *)

Record reservation_ok (k : string) (r : ReplayReservation) : Prop := {
  rok_key : rv_key_hash r = k;
  rok_revision : rv_revision r = match rv_state r with ReplayReservationState_Reserved => 1 | _ => 2 end%Z;
  rok_seq : rv_consumed_seq r = None <-> rv_state r = ReplayReservationState_Reserved
}.

Lemma log_reservations b rs m k r : replay_log b rs m -> m !! k = Some r -> reservation_ok k r.
Proof.
  intros Hlog. revert k r. induction Hlog as [|b rs m p v m' _ IH _ _ Hap]; intros k r Hk; [by rewrite lookup_empty in Hk|].
  unfold replay_apply_record in Hap. cbn [rr_payload rr_seq replay_rec] in Hap. destruct (rp_operation p).
  - destruct (_ || _ || _) in Hap; [done|]. injection Hap as <-. rewrite lookup_insert_if in Hk.
    case_decide; [|by apply IH]. simplify_eq. by split.
  - destruct (m !! rp_key_hash p) as [c|] eqn:Ec; [|done]. destruct (_ && _ && _ && _ && _) eqn:E in Hap; [|done].
    injection Hap as <-. bool_simpl. rewrite lookup_insert_if in Hk. case_decide; [|by apply IH]. simplify_eq.
    destruct (IH _ _ Ec) as [Hkey Hrev _]. split; simpl; [done| |done].
    match goal with H : rv_state c = _ |- _ => rewrite H in Hrev end.
    match goal with H : u64_checked_add _ _ = _ |- _ => rewrite Hrev in H; change (Some 2%Z = Some (rp_revision p)) in H end.
    congruence.
Qed.

(** ** The store reads back *)

Definition holds (st : ReplayStore) (m : gmap string ReplayReservation) : Prop :=
  match rst_wal st with
  | Some wal => exists good rs, replay_image good rs m wal
  | None => m = ∅ /\ rst_manifest st = None
  end.

Lemma image_log good rs m wal : replay_image good rs m wal -> replay_log good rs m.
Proof. by destruct 1. Qed.

Lemma image_decoded good rs m wal :
  replay_image good rs m wal ->
  exists reason, replay_decode_prefix wal = replay_recovered good rs m (length wal) reason
    /\ (reason = ReplayStop_CleanEof /\ wal = good
        \/ is_safe_torn_tail reason = true /\ length good < length wal /\ good = take (length good) wal)
    /\ (Z.of_nat (length wal) <= REPLAY_WAL_MAX_BYTES)%Z.
Proof.
  intros [Hlog|p v k Hlog Hroom Hk].
  - exists ReplayStop_CleanEof. split; [by apply decode_log|]. split; [by left|]. by apply replay_log_bounds in Hlog as [? _].
  - destruct (decode_torn _ _ _ _ _ _ Hlog Hroom Hk) as (reason & Hsafe & Hd). exists reason.
    rewrite length_app, length_take. pose proof (room_bytes _ _ _ _ Hroom) as Hb. rewrite length_app in Hb.
    split; [|split; [right; split; [done|]; split; [lia | by rewrite take_app_length] | lia]].
    rewrite Hd. f_equal. lia.
Qed.

Lemma holds_view st m : holds st m -> view st = m.
Proof.
  unfold holds, view. destruct (rst_wal st) as [wal|]; [|by intros [-> _]]. intros (good & rs & Hi).
  destruct (image_decoded _ _ _ _ Hi) as (reason & -> & _). done.
Qed.

(** What recovery gives on a store: the same reservations on the disk, and on success a recovery
    that is clean exactly when the file is now the log itself. *)
Lemma recover_holds st m repair io r st' :
  holds st m -> recover_replay_wal st repair io = (r, st') ->
  holds st' m
  /\ (forall recovery, r = Ok recovery -> ensure_appendable recovery = Ok tt ->
        exists good rs, rst_wal st' = Some good /\ replay_log good rs m /\ rw_reservations recovery = m
          /\ rw_last_observed_seq recovery = Z.of_nat (length rs) /\ rw_valid_record_count recovery = length rs
          /\ rw_last_good_offset recovery = Z.of_nat (length good)).
Proof.
  unfold recover_replay_wal, ensure_replay_initialized_under_lock, holds. intros Hh Hr.
  destruct (rst_manifest st) as [mf|] eqn:Em, (rst_wal st) as [wal|] eqn:Ew; try (simplify_eq; by rewrite Ew, ?Em).
  destruct (validate_replay_manifest mf); simpl in Hr; [|simplify_eq; by rewrite Ew].
  destruct Hh as (good & rs & Hi). destruct (image_decoded _ _ _ _ Hi) as (reason & Hd & Hcase & Hb).
  rewrite Ew in Hr. unfold recover_replay_wal_file in Hr. rewrite Hd in Hr.
  assert ((REPLAY_WAL_MAX_BYTES <? Z.of_nat (length wal))%Z = false) as E1 by (apply Z.ltb_ge; lia). rewrite E1 in Hr.
  cbn [rw_stop_reason replay_recovered rw_last_good_offset] in Hr.
  rewrite usize_to_u64_small, Nat2Z.id in Hr by (unfold REPLAY_WAL_MAX_BYTES, i64_max in *; lia).
  pose proof (image_log _ _ _ _ Hi) as Hlog.
  destruct Hcase as [[-> ->]|(Hsafe & Hlt & Hgood)].
  - rewrite Z.ltb_irrefl, andb_false_r in Hr. simpl in Hr. simplify_eq. simpl. split; [by eauto|].
    intros recovery [= <-] _. by exists good, rs.
  - assert (bool_decide (reason = ReplayStop_RecordCapacityExceeded) = false) as E2
      by (apply bool_decide_eq_false_2; by intros ->). rewrite E2, Hsafe, andb_true_r in Hr.
    assert ((Z.of_nat (length good) <? Z.of_nat (length wal))%Z = true) as E3 by (apply Z.ltb_lt; lia).
    rewrite E3, andb_true_r, <- Hgood in Hr.
    destruct repair.
    + destruct (rio_truncated io); simpl in Hr; [destruct (rio_truncation_reported io)|]; simplify_eq; simpl;
        (split; [by eauto using replay_clean|]); try done. intros recovery [= <-] _. by exists good, rs.
    + simplify_eq. simpl. split; [by eauto|]. intros recovery [= <-]. unfold ensure_appendable, is_clean. simpl.
      destruct (bool_decide_reflect (reason = ReplayStop_CleanEof)) as [->|]; done.
Qed.

(** A recovery of the log [good]. *)
Record recovered (recovery : ReplayWalRecovery) (good : bytes) (rs : list ReplayWalRecord) (m : gmap string ReplayReservation) : Prop := {
  rec_log : replay_log good rs m;
  rec_reservations : rw_reservations recovery = m;
  rec_seq : rw_last_observed_seq recovery = Z.of_nat (length rs);
  rec_count : rw_valid_record_count recovery = length rs;
  rec_offset : rw_last_good_offset recovery = Z.of_nat (length good)
}.

(** A command that goes on from a recovery works on a clean log. *)
Lemma with_recovery_cases {A} st m repair io (k : ReplayWalRecovery -> bytes -> Result A ReplayWalError * bytes) r st' :
  holds st m -> with_recovery st repair io k = (r, st') ->
  (exists e, r = Err e) /\ holds st' m
  \/ exists recovery good rs wal', recovered recovery good rs m /\ k recovery good = (r, wal') /\ rst_wal st' = Some wal'.
Proof.
  unfold with_recovery. intros Hh. destruct (recover_replay_wal st repair io) as [[recovery|e] st1] eqn:Hrec;
    destruct (recover_holds _ _ _ _ _ _ Hh Hrec) as [Hh1 Hgo]; [|intros [= <- <-]; left; eauto].
  destruct (ensure_appendable recovery) as [[]|e] eqn:He; [|intros [= <- <-]; left; eauto].
  destruct (Hgo _ eq_refl He) as (good & rs & -> & Hlog & Hm & Hseq & Hn & Ho).
  destruct (k recovery good) as [r' wal'] eqn:Hk. intros [= <- <-]. right. by exists recovery, good, rs, wal'.
Qed.

(** ** Digest tokens *)

Lemma hex_byte_lower c : forallb is_lower_hex (hex_byte c) = true.
Proof. destruct c as [[] [] [] [] [] [] [] []]; reflexivity. Qed.

Lemma format_sha256_token digest : length digest = 32 -> is_sha256_token (format_sha256 digest) = true.
Proof.
  intros Hd. unfold is_sha256_token, format_sha256. rewrite to_bytes_app, to_of_bytes.
  rewrite take_app_length', drop_app_length' by done.
  assert (forall l, length (concat (map hex_byte l)) = 2 * length l) as Hl.
  { induction l as [|c l IH]; [done|]. simpl. rewrite IH. lia. }
  rewrite Hl, Hd. cbn [andb]. rewrite bool_decide_eq_true_2 by done. apply forallb_In. intros c Hc.
  apply list_elem_of_In, List.in_concat in Hc as (x & Hx & Hc). apply List.in_map_iff in Hx as (y & <- & _).
  pose proof (hex_byte_lower y) as Hy. rewrite forallb_In in Hy. apply Hy. by apply list_elem_of_In.
Qed.

Lemma key_hash_token p a n k : replay_nonce_key_hash p a n = Ok k -> is_sha256_token k = true.
Proof.
  unfold replay_nonce_key_hash, validate_nonblank. intros Hk.
  repeat (destruct (str_is_empty _) in Hk; [done|]). cbn [result_bind] in Hk. injection Hk as <-.
  apply format_sha256_token, sha256_length.
Qed.

Lemma sha256_field_ok field value x : validate_sha256_field field value = Ok x -> is_sha256_token value = true.
Proof. unfold validate_sha256_field. by destruct (is_sha256_token value). Qed.

(** ** Appending *)

Lemma prepared_room {B} recovery good rs m p (f : Z -> bytes -> B) out :
  recovered recovery good rs m ->
  (try seq <- replay_next_sequence (rw_last_observed_seq recovery);
   try record <- encode_payload_record seq p;
   try _ <- ensure_append_capacity recovery (length record);
   Ok (f seq record)) = Ok out ->
  exists v, has_room good rs p v /\ out = f (replay_next rs) (replay_rec_bytes rs p v).
Proof.
  intros [Hlog _ Hseq Hn Ho] Hout. pose proof (replay_log_bounds _ _ _ Hlog) as (Hb & Hr & _).
  unfold replay_next_sequence, u64_checked_add in Hout. rewrite Hseq in Hout. destruct (in_u64 _); [|done].
  cbn [result_bind] in Hout. fold (replay_next rs) in Hout. unfold encode_payload_record in Hout.
  destruct (replay_to_vec p) as [v|] eqn:Hv; [|done].
  destruct (MAX_PAYLOAD_LEN <? _)%Z eqn:El in Hout; [done|]. apply Z.ltb_ge in El.
  rewrite encode_nonce_record in Hout by done. cbn [result_bind] in Hout. fold (replay_rec_bytes rs p v) in Hout.
  unfold ensure_append_capacity in Hout. rewrite Hn, Ho in Hout.
  destruct (REPLAY_WAL_MAX_RECORDS <? _)%Z eqn:E1 in Hout; [done|]. apply Z.ltb_ge in E1.
  destruct (REPLAY_WAL_MAX_BYTES <? _)%Z eqn:E2 in Hout; [done|]. apply Z.ltb_ge in E2.
  exists v. split; [|by injection Hout]. split; [done | done | | lia]. rewrite length_app.
  pose proof (length_replay_rec rs p v) as Hlen. unfold MAX_PAYLOAD_LEN, HEADER_LEN, TRAILER_LEN in *.
  rewrite usize_to_u64_small in E2 by (unfold i64_max; lia).
  unfold u64_saturating_add, u64_max, REPLAY_WAL_MAX_BYTES in *. lia.
Qed.

Lemma append_leaves_image good rs m p v m' io ok wal' :
  replay_log good rs m -> has_room good rs p v -> payload_shape p ->
  replay_apply_record m (replay_rec good rs p v) = Some m' ->
  append_wal good (replay_rec_bytes rs p v) io = (ok, wal') ->
  exists m'' good' rs', replay_image good' rs' m'' wal' /\ (m'' = m \/ m'' = m') /\ (ok = true -> m'' = m').
Proof.
  intros Hlog Hroom Hshape Hap Ha. set (rec := replay_rec_bytes rs p v) in *.
  rewrite <- (f_equal fst Ha : (length rec <=? rio_written io) && rio_append_reported io = ok).
  rewrite <- (f_equal snd Ha : good ++ take (rio_written io) rec = wal').
  destruct (decide (length rec <= rio_written io)) as [Hle|Hgt].
  - rewrite take_ge by done. exists m', (good ++ rec), (rs ++ [replay_rec good rs p v]). split; [|by auto].
    apply replay_clean. by eapply replay_log_snoc.
  - exists m, good, rs. split; [|split; [by left|]].
    + destruct (rio_written io) as [|n] eqn:E; [rewrite take_0, app_nil_r; by apply replay_clean|].
      rewrite <- E in *. apply replay_torn; [done..|]. fold rec. lia.
    + assert (length rec <=? rio_written io = false) as -> by (apply Nat.leb_gt; lia). done.
Qed.

(** ** Commands *)

(** What an acknowledgement says about the nonces before and after. *)
Definition ack_true (s : gmap string Nonce) (ack : replay_ack) (s' : gmap string Nonce) : Prop :=
  match ack with
  | Ack_Reserved k i c => s !! k = None /\ s' = <[k := reserved i c]> s
  | Ack_Consumed k i c => s !! k = Some (reserved i c) /\ s' = <[k := consumed i c]> s
  | Ack_AlreadyConsumed k i c => s !! k = Some (consumed i c) /\ s' = s
  | Ack_Other => nonce_step s s'
  end.

Definition refines (m : gmap string ReplayReservation) (ack : replay_ack) (st' : ReplayStore) : Prop :=
  exists m', holds st' m' /\ ack_true (nonces m) ack (nonces m').

Lemma refines_keep m ack st' : holds st' m -> ack_true (nonces m) ack (nonces m) -> refines m ack st'.
Proof. intros Hh Ha. by exists m. Qed.

Lemma ack_true_step s ack s' : ack_true s ack s' -> nonce_step s s'.
Proof.
  destruct ack as [k i c|k i c|k i c|]; simpl; [intros [? ->]; by constructor | intros [? ->]; by constructor | | done].
  intros [_ ->]. constructor.
Qed.

Lemma apply_reserve good rs m k i c v :
  m !! k = None ->
  replay_apply_record m (replay_rec good rs (reserve_payload k i c) v)
  = Some (<[k := {| rv_key_hash := k; rv_intent_digest := i; rv_commit_digest := c; rv_revision := 1;
                    rv_state := ReplayReservationState_Reserved; rv_reserved_seq := replay_next rs;
                    rv_consumed_seq := None |}]> m).
Proof.
  intros Hk. unfold replay_apply_record. cbn. rewrite Hk. rewrite !bool_decide_eq_false_2 by (by intros []). done.
Qed.

Lemma apply_consume good rs m k r rev v :
  m !! k = Some r -> rv_state r = ReplayReservationState_Reserved -> rv_revision r = rev -> rev = 1%Z ->
  replay_apply_record m (replay_rec good rs (consume_payload k (rv_intent_digest r) (rv_commit_digest r) 2 rev) v)
  = Some (<[k := {| rv_key_hash := rv_key_hash r; rv_intent_digest := rv_intent_digest r;
                    rv_commit_digest := rv_commit_digest r; rv_revision := 2;
                    rv_state := ReplayReservationState_Consumed; rv_reserved_seq := rv_reserved_seq r;
                    rv_consumed_seq := Some (replay_next rs) |}]> m).
Proof.
  intros Hk Hs Hr ->. unfold replay_apply_record. cbn. rewrite Hk, Hs, Hr. rewrite !bool_decide_eq_true_2 by done. done.
Qed.

(** An append refines the step its record stands for, or nothing when it is cut short. *)
Lemma append_refines good rs m p v m' io ok wal' st' ack :
  replay_log good rs m -> has_room good rs p v -> payload_shape p ->
  replay_apply_record m (replay_rec good rs p v) = Some m' ->
  append_wal good (replay_rec_bytes rs p v) io = (ok, wal') -> rst_wal st' = Some wal' ->
  ack_true (nonces m) ack (nonces m') -> refines m (if ok then ack else Ack_Other) st'.
Proof.
  intros Hlog Hroom Hshape Hap Ha Hw Hack.
  destruct (append_leaves_image _ _ _ _ _ _ _ _ _ Hlog Hroom Hshape Hap Ha) as (m'' & good' & rs' & Himg & Hor & Hok).
  exists m''. split; [unfold holds; rewrite Hw; eauto|]. destruct ok; [by rewrite (Hok eq_refl)|].
  simpl. destruct Hor as [->| ->]; [constructor | by eapply ack_true_step].
Qed.

Lemma refines_unchanged good rs m st' : replay_log good rs m -> rst_wal st' = Some good -> refines m Ack_Other st'.
Proof. intros Hlog Hw. exists m. split; [|constructor]. unfold holds. rewrite Hw. eauto using replay_clean. Qed.

Lemma reserve_refines recovery good rs m k i c io r wal' st' :
  recovered recovery good rs m -> is_sha256_token k = true -> is_sha256_token i = true -> is_sha256_token c = true ->
  reserve_replay_nonce_recovered recovery good k i c io = (r, wal') -> rst_wal st' = Some wal' ->
  refines m (ack_reserved r) st'.
Proof.
  intros Hrec Hk Hi Hc Hr Hw. pose proof (rec_log _ _ _ _ Hrec) as Hlog. unfold reserve_replay_nonce_recovered in Hr.
  rewrite (rec_reservations _ _ _ _ Hrec) in Hr.
  destruct (m !! k) as [existing|] eqn:Ek; [injection Hr as <- <-; by eapply refines_unchanged|].
  destruct (result_bind _ _) as [[seq record]|e] eqn:Ep in Hr; [|injection Hr as <- <-; by eapply refines_unchanged].
  destruct (prepared_room _ _ _ _ _ (fun seq record => (seq, record)) _ Hrec Ep) as (v & Hroom & Eout).
  injection Eout as -> ->. destruct (append_wal good _ io) as [ok wal''] eqn:Ea. injection Hr as <- <-.
  assert (ack_true (nonces m) (Ack_Reserved k i c) (nonces (<[k := {| rv_key_hash := k; rv_intent_digest := i;
    rv_commit_digest := c; rv_revision := 1; rv_state := ReplayReservationState_Reserved;
    rv_reserved_seq := replay_next rs; rv_consumed_seq := None |}]> m))) as Hack.
  { cbn. unfold nonces. rewrite fmap_insert, lookup_fmap, Ek. done. }
  pose proof (append_refines _ _ _ _ _ _ _ _ _ st' _ Hlog Hroom (conj eq_refl (conj Hk (conj Hi Hc)))
    (apply_reserve _ _ _ _ _ _ _ Ek) Ea Hw Hack) as Href. by destruct ok.
Qed.

(** A prepared consumption is the record that consumes the reservation of its key. *)
Lemma prepare_consume_ok recovery good rs m k i c rev existing seq record reservation :
  recovered recovery good rs m -> matching_reservation recovery k i c = Ok existing ->
  rv_state existing = ReplayReservationState_Reserved ->
  prepare_consume recovery existing k i c rev = Ok (seq, record, reservation) ->
  exists v p m', has_room good rs p v /\ record = replay_rec_bytes rs p v
    /\ (is_sha256_token k = true -> is_sha256_token i = true -> is_sha256_token c = true -> payload_shape p)
    /\ replay_apply_record m (replay_rec good rs p v) = Some m'
    /\ ack_true (nonces m) (Ack_Consumed (rv_key_hash reservation) (rv_intent_digest reservation) (rv_commit_digest reservation))
         (nonces m').
Proof.
  intros Hrec Hm Hs Hp. unfold matching_reservation in Hm. rewrite (rec_reservations _ _ _ _ Hrec) in Hm.
  destruct (m !! k) as [r|] eqn:Ek; [|done].
  destruct (bool_decide_reflect (rv_intent_digest r = i)) as [<-|]; [|done].
  destruct (bool_decide_reflect (rv_commit_digest r = c)) as [<-|]; [|done]. injection Hm as <-.
  destruct (log_reservations _ _ _ _ _ (rec_log _ _ _ _ Hrec) Ek) as [Hkey Hrev _]. rewrite Hs in Hrev.
  unfold prepare_consume in Hp. destruct (Z.eqb_spec (rv_revision r) rev) as [Er|]; [|done]. rewrite Hrev in Er. subst rev.
  cbn [negb] in Hp. change (u64_checked_add 1 1) with (Some 2%Z) in Hp. cbv iota in Hp.
  destruct (prepared_room _ _ _ _ _ (fun seq record => (seq, record, {|
    rv_key_hash := k; rv_intent_digest := rv_intent_digest r; rv_commit_digest := rv_commit_digest r;
    rv_revision := 2; rv_state := ReplayReservationState_Consumed;
    rv_reserved_seq := rv_reserved_seq r; rv_consumed_seq := Some seq |})) _ Hrec Hp) as (v & Hroom & Eout).
  injection Eout as _ -> ->. eexists v, _, _. split; [exact Hroom|]. split; [done|]. split; [done|].
  split; [by apply apply_consume|]. cbn. unfold nonces. rewrite fmap_insert, lookup_fmap, Ek. cbn.
  unfold nonce_of, reserved, consumed. cbn. by rewrite Hs.
Qed.

Lemma consume_refines recovery good rs m k i c rev io r wal' st' :
  recovered recovery good rs m -> is_sha256_token k = true -> is_sha256_token i = true -> is_sha256_token c = true ->
  consume_replay_recovered recovery good k i c rev io = (r, wal') -> rst_wal st' = Some wal' ->
  refines m (ack_consumed r) st'.
Proof.
  intros Hrec Hk Hi Hc Hr Hw. pose proof (rec_log _ _ _ _ Hrec) as Hlog. unfold consume_replay_recovered in Hr.
  destruct (matching_reservation recovery k i c) as [existing|e] eqn:Hm; [|injection Hr as <- <-; by eapply refines_unchanged].
  destruct (bool_decide_reflect (rv_state existing = ReplayReservationState_Consumed)) as [Hs|Hs].
  { destruct (rev =? _)%Z; injection Hr as <- <-; [|by eapply refines_unchanged].
    apply refines_keep; [unfold holds; rewrite Hw; eauto using replay_clean|]. cbn. split; [|done].
    unfold matching_reservation in Hm. rewrite (rec_reservations _ _ _ _ Hrec) in Hm.
    destruct (m !! k) as [x|] eqn:Ek; [|done]. destruct (negb _) in Hm; [done|]. destruct (negb _) in Hm; [done|]. injection Hm as ->.
    destruct (log_reservations _ _ _ _ _ Hlog Ek) as [<- _ _]. unfold nonces. rewrite lookup_fmap, Ek. cbn.
    unfold nonce_of, consumed. by rewrite Hs. }
  assert (rv_state existing = ReplayReservationState_Reserved) as Hres by (by destruct (rv_state existing)).
  destruct (prepare_consume _ _ _ _ _ _) as [[[seq record] reservation]|e] eqn:Ep;
    [|injection Hr as <- <-; by eapply refines_unchanged].
  destruct (prepare_consume_ok _ _ _ _ _ _ _ _ _ _ _ _ Hrec Hm Hres Ep) as (v & p & m' & Hroom & -> & Hshape & Hap & Hack).
  destruct (append_wal good _ io) as [ok wal''] eqn:Ea. injection Hr as <- <-.
  pose proof (append_refines _ _ _ _ _ _ _ _ _ st' _ Hlog Hroom (Hshape Hk Hi Hc) Hap Ea Hw Hack) as Href. by destruct ok.
Qed.

(** ** Every command *)

Lemma checked_cases {A B} (c : Result A ReplayWalError) st (k : A -> Result B ReplayWalError * ReplayStore) r st' :
  checked c st k = (r, st') -> (exists e, r = Err e) /\ st' = st \/ exists a, c = Ok a /\ k a = (r, st').
Proof. destruct c; simpl; [by eauto|]. intros [= <- <-]. eauto. Qed.

(** Reading changes nothing. *)
Lemma with_recovery_reads {A} st m repair io (f : ReplayWalRecovery -> Result A ReplayWalError) r st' :
  holds st m -> with_recovery st repair io (fun recovery wal => (f recovery, wal)) = (r, st') -> holds st' m.
Proof.
  intros Hh Hr. destruct (with_recovery_cases _ _ _ _ _ _ _ Hh Hr) as [[_ H]|(rec & good & rs & wal' & Hrec & E & Hw)]; [done|].
  injection E as <- <-. unfold holds. rewrite Hw. destruct Hrec. eauto using replay_clean.
Qed.

Ltac step_checked H Hh :=
  match type of H with
  | checked _ _ _ = _ =>
      apply checked_cases in H as [[[? ->] ->]|(? & ? & H)]; [by apply (refines_keep _ Ack_Other); [|constructor]|]
  end.

Lemma initialize_refines st m progress io : holds st m -> refines m Ack_Other (initialize_replay_wal st progress io).2.
Proof.
  intros Hh. apply (refines_keep _ Ack_Other); [|constructor].
  unfold initialize_replay_wal, ensure_replay_initialized_under_lock.
  destruct (rst_manifest st) as [mf|] eqn:Em, (rst_wal st) as [wal|] eqn:Ew; try done.
  - destruct (validate_replay_manifest mf); [|done]. cbn [result_bind].
    destruct (with_recovery _ _ _ _) as [r st'] eqn:Hr. by eapply (with_recovery_reads st m false io (fun _ => Ok false)).
  - unfold holds in Hh. rewrite Ew in Hh. destruct Hh as [-> _].
    destruct progress; simpl; unfold holds; simpl; try (by rewrite Ew); exists [], []; apply replay_clean; constructor.
Qed.

Lemma guard_refines st m scope p a n i c rev io consume ack st' :
  holds st m -> replay_exec st (Cmd_Guard scope p a n i c rev io consume) = (ack, st') -> refines m ack st'.
Proof.
  intros Hh. cbn [replay_exec]. destruct (prepare_replay_guard_state st scope p a n i c rev io) as [r st1] eqn:Hr. intros Hx.
  unfold prepare_replay_guard_state, validate_sha256_digest, validate_commit_digest in Hr.
  do 5 (apply checked_cases in Hr as [[[? ->] ->]|(? & ? & Hr)];
    [injection Hx as <- <-; by apply (refines_keep _ Ack_Other); [|constructor]|]).
  destruct (with_recovery_cases _ _ _ _ _ _ _ Hh Hr) as [[[e ->] H']|(rec & good & rs & wal' & Hrec & E & Hw)].
  { injection Hx as <- <-. by apply (refines_keep _ Ack_Other); [|constructor]. }
  pose proof (rec_log _ _ _ _ Hrec) as Hlog. injection E as E <-.
  destruct r as [guard|e], consume as [io'|]; try (injection Hx as <- <-; by eapply refines_unchanged).
  destruct (matching_reservation _ _ _ _) as [existing|] eqn:Hm; [|done]. cbn [result_bind] in E.
  destruct (bool_decide_reflect (rv_state existing = ReplayReservationState_Reserved)) as [Hs|]; [|done]. cbn [negb] in E.
  destruct (prepare_consume _ _ _ _ _ _) as [[[seq record] reservation]|] eqn:Ep; [|done]. injection E as <-.
  destruct (prepare_consume_ok _ _ _ _ _ _ _ _ _ _ _ _ Hrec Hm Hs Ep) as (v & pl & m' & Hroom & -> & Hshape & Hap & Hack).
  unfold guard_consume in Hx. rewrite Hw in Hx. cbn [rg_bytes] in Hx.
  destruct (append_wal good _ io') as [ok wal''] eqn:Ea. injection Hx as <- <-.
  assert (payload_shape pl) as Hsh by (apply Hshape; eauto using sha256_field_ok, key_hash_token).
  pose proof (append_refines _ _ _ _ _ _ _ _ _ (set_wal st1 wal'') _ Hlog Hroom Hsh Hap Ea eq_refl Hack) as Href. by destruct ok.
Qed.

Lemma exec_refines st m cmd ack st' : holds st m -> replay_exec st cmd = (ack, st') -> refines m ack st'.
Proof.
  intros Hh. assert (holds st m -> refines m Ack_Other st) as Hkeep by (intros; by apply refines_keep; [|constructor]).
  destruct cmd as [progress io|repair io|scope p a n i c io|scope k i c rev io|p a n i c rev io|scope p a n i c rev io consume
    |scope k i c rev io|scope k i c io]; cbn [replay_exec].
  - intros [= <- <-]. by apply initialize_refines.
  - intros [= <- <-]. destruct (recover_replay_wal st repair io) as [r st1] eqn:Hr.
    apply (refines_keep _ Ack_Other); [|constructor]. by eapply recover_holds.
  - destruct (reserve_replay_nonce_under_effect_lock _ _ _ _ _ _ _ _) as [r st1] eqn:Hr. intros [= <- <-].
    unfold reserve_replay_nonce_under_effect_lock, validate_sha256_digest, validate_commit_digest in Hr. repeat step_checked Hr Hh.
    destruct (with_recovery_cases _ _ _ _ _ _ _ Hh Hr) as [[[e ->] H']|(rec & good & rs & wal' & Hrec & E & Hw)].
    + by apply (refines_keep _ Ack_Other); [|constructor].
    + eapply reserve_refines; [exact Hrec | | | | exact E | exact Hw]; eauto using sha256_field_ok, key_hash_token.
  - destruct (consume_replay_key_hash_under_effect_lock _ _ _ _ _ _ _) as [r st1] eqn:Hr. intros [= <- <-].
    unfold consume_replay_key_hash_under_effect_lock, validate_sha256_digest, validate_commit_digest in Hr. repeat step_checked Hr Hh.
    destruct (with_recovery_cases _ _ _ _ _ _ _ Hh Hr) as [[[e ->] H']|(rec & good & rs & wal' & Hrec & E & Hw)].
    + by apply (refines_keep _ Ack_Other); [|constructor].
    + eapply consume_refines; [exact Hrec | | | | exact E | exact Hw]; eauto using sha256_field_ok.
  - destruct (consume_replay_nonce_non_boundary _ _ _ _ _ _ _ _) as [r st1] eqn:Hr. intros [= <- <-].
    unfold consume_replay_nonce_non_boundary, validate_sha256_digest, validate_commit_digest in Hr. repeat step_checked Hr Hh.
    destruct (with_recovery_cases _ _ _ _ _ _ _ Hh Hr) as [[[e ->] H']|(rec & good & rs & wal' & Hrec & E & Hw)].
    + by apply (refines_keep _ Ack_Other); [|constructor].
    + eapply consume_refines; [exact Hrec | | | | exact E | exact Hw]; eauto using sha256_field_ok, key_hash_token.
  - by apply guard_refines.
  - destruct (verify_consumed_replay_key_hash_under_effect_lock _ _ _ _ _ _ _) as [r st1] eqn:Hr. intros [= <- <-].
    unfold verify_consumed_replay_key_hash_under_effect_lock in Hr. repeat step_checked Hr Hh.
    apply (refines_keep _ Ack_Other); [|constructor]. exact (with_recovery_reads _ _ _ _ _ _ _ Hh Hr).
  - destruct (inspect_replay_key_hash_under_effect_lock _ _ _ _ _ _) as [r st1] eqn:Hr. intros [= <- <-].
    unfold inspect_replay_key_hash_under_effect_lock in Hr. repeat step_checked Hr Hh.
    apply (refines_keep _ Ack_Other); [|constructor]. exact (with_recovery_reads _ _ _ _ _ _ _ Hh Hr).
Qed.

(** ** Runs *)

Lemma trace_holds acks st : replay_trace acks st -> holds st (view st).
Proof.
  induction 1 as [|acks st cmd ack st' _ IH Hx]; [done|].
  destruct (exec_refines _ _ _ _ _ IH Hx) as (m' & Hh & _). by rewrite (holds_view _ _ Hh).
Qed.

Lemma step_ack st cmd ack st' :
  holds st (view st) -> replay_exec st cmd = (ack, st') -> ack_true (nonces (view st)) ack (nonces (view st')).
Proof. intros Hh Hx. destruct (exec_refines _ _ _ _ _ Hh Hx) as (m' & Hh' & Ha). by rewrite (holds_view _ _ Hh'). Qed.

(** An initialized store can always be recovered when the disk works. *)
Lemma recover_reads st m io :
  holds st m -> rst_manifest st = Some (Some expected_manifest) ->
  rio_truncated io = true -> rio_truncation_reported io = true ->
  exists recovery st', recover_replay_wal st true io = (Ok recovery, st')
    /\ ensure_appendable recovery = Ok tt /\ rw_reservations recovery = m.
Proof.
  intros Hh Hm Ht Hp. unfold holds in Hh. unfold recover_replay_wal, ensure_replay_initialized_under_lock. rewrite Hm.
  destruct (rst_wal st) as [wal|] eqn:Ew; [|destruct Hh; congruence].
  unfold validate_replay_manifest. rewrite bool_decide_eq_true_2 by done. cbn [result_bind]. rewrite Ew.
  destruct Hh as (good & rs & Hi). destruct (image_decoded _ _ _ _ Hi) as (reason & Hd & Hcase & Hb).
  unfold recover_replay_wal_file. rewrite Hd, Ht, Hp.
  assert ((REPLAY_WAL_MAX_BYTES <? Z.of_nat (length wal))%Z = false) as -> by (apply Z.ltb_ge; lia).
  cbn [rw_stop_reason replay_recovered rw_last_good_offset].
  rewrite usize_to_u64_small by (unfold REPLAY_WAL_MAX_BYTES, i64_max in *; lia).
  destruct Hcase as [[-> ->]|(Hsafe & Hlt & Hgood)].
  - rewrite Z.ltb_irrefl, andb_false_r. simpl. eexists _, _. by split.
  - rewrite bool_decide_eq_false_2 by (by intros ->).
    assert ((Z.of_nat (length good) <? Z.of_nat (length wal))%Z = true) as -> by (apply Z.ltb_lt; lia).
    rewrite Hsafe. simpl. eexists _, _. split; [done|]. unfold ensure_appendable, is_clean. simpl. by rewrite Hsafe, orb_true_r.
Qed.

(** What a run has acknowledged. *)
Definition reserved_keys (acks : list replay_ack) : list string :=
  omap (fun ack => match ack with Ack_Reserved k _ _ => Some k | _ => None end) acks.
Definition consumed_keys (acks : list replay_ack) : list string :=
  omap (fun ack => match ack with Ack_Consumed k _ _ => Some k | _ => None end) acks.

(** What the nonces must look like after an acknowledgement, for good. *)
Definition remembers (s : gmap string Nonce) (ack : replay_ack) : Prop :=
  match ack with
  | Ack_Reserved k i c => exists state, s !! k = Some {| nc_intent := i; nc_commit := c; nc_state := state |}
  | Ack_Consumed k i c | Ack_AlreadyConsumed k i c => s !! k = Some (consumed i c)
  | Ack_Other => True
  end.

Lemma remembers_step s s' ack : nonce_step s s' -> remembers s ack -> remembers s' ack.
Proof.
  intros Hstep Hr.
  assert (forall k x, s !! k = Some x ->
    s' !! k = Some x \/ nc_state x = ReplayReservationState_Reserved /\ s' !! k = Some (consumed (nc_intent x) (nc_commit x))) as Hkeep.
  { intros k x Hx. destruct Hstep as [|k' i c Hk|k' i c Hk]; [by left|..]; rewrite lookup_insert_if;
      case_decide; subst; [congruence | by left | | by left]. right. rewrite Hk in Hx. by injection Hx as <-. }
  destruct ack as [k i c|k i c|k i c|]; simpl in *; [destruct Hr as [state Hs]|..|done];
    [destruct (Hkeep _ _ Hs) as [?|[_ ?]]; by eexists | by destruct (Hkeep _ _ Hr) as [?|[? _]]..].
Qed.

Lemma ack_remembers s ack s' : ack_true s ack s' -> remembers s' ack.
Proof.
  destruct ack as [k i c|k i c|k i c|]; simpl; [intros [_ ->]|intros [_ ->]|intros [Hk ->]|done];
    rewrite ?lookup_insert_if, ?decide_True by done; [by eexists | done | done].
Qed.

Lemma trace_remembers acks st ack : replay_trace acks st -> ack ∈ acks -> remembers (nonces (view st)) ack.
Proof.
  induction 1 as [|acks st cmd a st' Ht IH Hx]; [by intros ?%elem_of_nil|].
  pose proof (step_ack _ _ _ _ (trace_holds _ _ Ht) Hx) as Ha. intros [Hin| ->%list_elem_of_singleton]%elem_of_app.
  - eapply remembers_step; [by eapply ack_true_step | by apply IH].
  - by eapply ack_remembers.
Qed.

Lemma elem_of_reserved_keys k acks : k ∈ reserved_keys acks <-> exists i c, Ack_Reserved k i c ∈ acks.
Proof.
  unfold reserved_keys. rewrite list_elem_of_omap. split.
  - intros ([k' i c|k' i c|k' i c|] & Hin & [= ->]). eauto.
  - intros (i & c & Hin). by exists (Ack_Reserved k i c).
Qed.

Lemma elem_of_consumed_keys k acks : k ∈ consumed_keys acks <-> exists i c, Ack_Consumed k i c ∈ acks.
Proof.
  unfold consumed_keys. rewrite list_elem_of_omap. split.
  - intros ([k' i c|k' i c|k' i c|] & Hin & [= ->]). eauto.
  - intros (i & c & Hin). by exists (Ack_Consumed k i c).
Qed.

Lemma trace_once acks st : replay_trace acks st -> NoDup (reserved_keys acks) /\ NoDup (consumed_keys acks).
Proof.
  induction 1 as [|acks st cmd a st' Ht IH Hx]; [split; constructor|].
  pose proof (step_ack _ _ _ _ (trace_holds _ _ Ht) Hx) as Ha. pose proof (trace_remembers acks st) as Hr.
  unfold reserved_keys, consumed_keys in *. rewrite !omap_app. destruct IH as [IHr IHc].
  destruct a as [k i c|k i c|k i c|]; simpl; rewrite ?app_nil_r; try done; split; try done; apply NoDup_app;
    (split; [done|]; split; [|apply NoDup_singleton]); intros x Hx' ->%list_elem_of_singleton; destruct Ha as [Hk _].
  - apply elem_of_reserved_keys in Hx' as (i' & c' & Hin). destruct (Hr _ Ht Hin) as [? ?]. congruence.
  - apply elem_of_consumed_keys in Hx' as (i' & c' & Hin). specialize (Hr _ Ht Hin). simpl in Hr. unfold reserved, consumed in *. congruence.
Qed.

End safety.
