(* ===== verification/ReplayClaims.v ===== *)
(** * What the replay log promises

    The claims about the replay log, the injectivity of its keys, and a concrete run. *)

From S2P Require Import Prelude RustStr BTree Contracts WalFrame ReplayWal ReplayCommands ReplayLog ReplaySafety.

Local Open Scope forge_scope.

(** ** Keys *)

Lemma hex_digit_inj n m : (n < 16)%N -> (m < 16)%N -> hex_digit n = hex_digit m -> n = m.
Proof.
  intros Hn Hm E. apply (f_equal N_of_ascii) in E. unfold hex_digit in E.
  destruct (N.ltb_spec n 10), (N.ltb_spec m 10); rewrite !Ascii.N_ascii_embedding in E by lia; lia.
Qed.

Lemma hex_byte_inj c d : hex_byte c = hex_byte d -> c = d.
Proof.
  unfold hex_byte. intros E. injection E as E1 E2. unfold code in *.
  pose proof (Ascii.N_ascii_bounded c). pose proof (Ascii.N_ascii_bounded d).
  apply hex_digit_inj in E1; [|apply N.Div0.div_lt_upper_bound; lia..].
  apply hex_digit_inj in E2; [|apply N.mod_lt; lia..].
  rewrite <- (Ascii.ascii_N_embedding c), <- (Ascii.ascii_N_embedding d). f_equal.
  rewrite (N.div_mod (N_of_ascii c) 16), (N.div_mod (N_of_ascii d) 16) by lia. congruence.
Qed.

Lemma format_sha256_inj x y : format_sha256 x = format_sha256 y -> x = y.
Proof.
  unfold format_sha256. intros E%(f_equal to_bytes). rewrite !to_bytes_app, !to_of_bytes in E. apply app_inv_head in E.
  revert y E. induction x as [|c x IH]; intros [|d y] E; [done | done | done |]. simpl in E. injection E as E1 E2 E.
  f_equal; [|by apply IH]. apply hex_byte_inj. unfold hex_byte. congruence.
Qed.

(** The text fits in memory. *)
Definition fits_memory (s : string) : Prop := (Z.of_nat (length (to_bytes s)) <= i64_max)%Z.

Lemma length_prefixed_inj v w x y :
  fits_memory v -> fits_memory w -> (length_prefixed v ++ x = length_prefixed w ++ y)%list -> v = w /\ x = y.
Proof.
  unfold length_prefixed, fits_memory. intros Hv Hw E. rewrite <- !app_assoc in E.
  apply app_inj_1 in E as [El E]; [|by rewrite !length_to_le_bytes].
  rewrite !usize_to_u64_small in El by done. apply (f_equal from_le_bytes) in El.
  rewrite !from_to_le_u64 in El by (unfold in_u64, u64_max, i64_max in *; apply andb_true_iff; rewrite !Z.leb_le; lia).
  apply app_inj_1 in E as [Eb Ex]; [|lia]. split; [|done].
  rewrite <- (of_to_bytes v), <- (of_to_bytes w). by rewrite Eb.
Qed.

Lemma nonce_key_bytes_inj p a n p' a' n' :
  fits_memory p -> fits_memory a -> fits_memory n -> fits_memory p' -> fits_memory a' -> fits_memory n' ->
  nonce_key_bytes p a n = nonce_key_bytes p' a' n' -> p = p' /\ a = a' /\ n = n'.
Proof.
  unfold nonce_key_bytes. intros Hp Ha Hn Hp' Ha' Hn' E. apply app_inv_head in E.
  apply length_prefixed_inj in E as [-> E]; [|done..]. apply length_prefixed_inj in E as [-> E]; [|done..].
  rewrite <- (app_nil_r (length_prefixed n)), <- (app_nil_r (length_prefixed n')) in E.
  by apply length_prefixed_inj in E as [-> _].
Qed.

(** Requests that differ have keys that differ.  When two triples of principal, audience and
    nonce differ anywhere and the digest does not collide on what is hashed for them, their replay
    keys are different texts: the length prefixes keep the three parts apart, and the hexadecimal
    form of the digest loses nothing. *)
Theorem nonce_keys_distinct {codec : ReplayCodec} p a n p' a' n' k k' :
  fits_memory (PrincipalId_0 p) -> fits_memory a -> fits_memory n ->
  fits_memory (PrincipalId_0 p') -> fits_memory a' -> fits_memory n' ->
  (p, a, n) ≠ (p', a', n') ->
  (nonce_key_bytes (PrincipalId_0 p) a n ≠ nonce_key_bytes (PrincipalId_0 p') a' n' ->
   sha256 (nonce_key_bytes (PrincipalId_0 p) a n) ≠ sha256 (nonce_key_bytes (PrincipalId_0 p') a' n')) ->
  replay_nonce_key_hash p a n = Ok k -> replay_nonce_key_hash p' a' n' = Ok k' -> k ≠ k'.
Proof.
  intros Hp Ha Hn Hp' Ha' Hn' Hne Hcol Hk Hk' <-. apply Hcol.
  - intros (E & -> & ->)%nonce_key_bytes_inj; [|done..]. apply Hne. by destruct p, p'; simpl in E; subst.
  - unfold replay_nonce_key_hash in Hk, Hk'. repeat (destruct (validate_nonblank _ _) in Hk; [|done]; cbn [result_bind] in Hk).
    repeat (destruct (validate_nonblank _ _) in Hk'; [|done]; cbn [result_bind] in Hk').
    apply format_sha256_inj. congruence.
Qed.

(** C24: the replay log implements the nonce machine.  On every store that any commands, failures and
    crashes lead to, each command changes the nonces by at most one allowed step, reserving an
    unknown key or consuming a reserved one for the digests it was reserved with; what it
    acknowledges is what happened; and an initialized store can always be recovered, with every
    reservation that was acknowledged. *)
Theorem replay_refines {codec : ReplayCodec} {laws : ReplayCodecLaws codec} acks st cmd ack st' :
  replay_trace acks st -> replay_exec st cmd = (ack, st') ->
  nonce_step (nonces (view st)) (nonces (view st'))
  /\ ack_true (nonces (view st)) ack (nonces (view st'))
  /\ (forall io, rst_manifest st' = Some (Some expected_manifest) ->
        rio_truncated io = true -> rio_truncation_reported io = true ->
        exists recovery st'', recover_replay_wal st' true io = (Ok recovery, st'')
          /\ ensure_appendable recovery = Ok tt /\ rw_reservations recovery = view st').
Proof.
  intros Ht Hx. pose proof (step_ack _ _ _ _ (trace_holds _ _ Ht) Hx) as Ha.
  split; [by eapply ack_true_step|]. split; [done|]. intros io Hm Htr Hrep.
  pose proof (trace_step _ _ _ _ _ Ht Hx) as Ht'. by apply (recover_reads _ _ _ (trace_holds _ _ Ht')).
Qed.

(** C9: a nonce is used once.  In any run from an empty store, no key is acknowledged as reserved
    twice and none as consumed twice, whatever failed or crashed in between; a key acknowledged as
    reserved stays in the store with its intent and commit digests, and one acknowledged as consumed
    stays consumed. *)
Theorem nonce_used_once {codec : ReplayCodec} {laws : ReplayCodecLaws codec} acks st :
  replay_trace acks st ->
  NoDup (reserved_keys acks) /\ NoDup (consumed_keys acks)
  /\ (forall ack, ack ∈ acks -> remembers (nonces (view st)) ack).
Proof.
  intros Ht. destruct (trace_once _ _ Ht) as [Hr Hc]. split; [done|]. split; [done|].
  intros ack Hin. by eapply trace_remembers.
Qed.

(** ** A concrete run *)

Module ReplayRun.

Definition zeros : string := Eval vm_compute in format_sha256 (repeat (ascii_of_N 0) 32).
Definition ones : string := Eval vm_compute in format_sha256 (repeat (ascii_of_N 1) 32).
Definition principal : PrincipalId := mk_PrincipalId "principal-a".

(** The last bytes of the text stand in for its digest. *)
Definition toy_sha256 (b : bytes) : bytes := take 32 (rev b ++ repeat (ascii_of_N 0) 32).

Definition toy_key (principal_id audience nonce : string) : string :=
  format_sha256 (toy_sha256 (nonce_key_bytes principal_id audience nonce)).
Definition key : string := Eval vm_compute in toy_key "principal-a" "aud" "n1".

(** Two payloads, written as their index in unary. *)
Definition table : list ReplayWalPayload := [reserve_payload key zeros ones; consume_payload key zeros ones 2 1].

#[export] Instance payload_eq_dec : EqDecision ReplayWalPayload.
Proof. solve_decision. Defined.

Definition table_codec (tbl : list ReplayWalPayload) : ReplayCodec := {|
  replay_crc32c b := (foldr (fun c n => Z.of_N (code c) + n) 0 b mod 4294967296)%Z;
  replay_to_vec p := (fun n => repeat "x"%char n) <$> index_of p tbl;
  replay_from_slice b := tbl !! length b;
  sha256 := toy_sha256 |}.

Lemma replay_codec_laws tbl : ReplayCodecLaws (table_codec tbl).
Proof.
  split.
  - intros b. cbn. unfold u32_max. pose proof (Z.mod_pos_bound (foldr (fun c n => Z.of_N (code c) + n) 0 b)%Z 4294967296). lia.
  - intros p b. cbn. destruct (index_of p tbl) as [n|] eqn:E; [|done]. intros [= <-]. rewrite repeat_length. by apply index_of_lookup.
  - intros b. cbn. unfold toy_sha256. rewrite length_take, length_app, repeat_length. lia.
Qed.

#[export] Instance codec : ReplayCodec := table_codec table.

Definition good_io : ReplayIo := {|
  rio_truncated := true; rio_truncation_reported := true; rio_written := 1000; rio_append_reported := true |}.
(** An append cut after ten bytes. *)
Definition crash_io : ReplayIo := {|
  rio_truncated := true; rio_truncation_reported := true; rio_written := 10; rio_append_reported := false |}.

Definition commands : list replay_command := [
  Cmd_Initialize Init_Done good_io;
  Cmd_Reserve (Ok tt) principal "aud" "n1" zeros ones crash_io;
  Cmd_Reserve (Ok tt) principal "aud" "n1" zeros ones good_io;
  Cmd_Guard (Ok tt) principal "aud" "n1" zeros ones 1 good_io (Some crash_io);
  Cmd_Guard (Ok tt) principal "aud" "n1" zeros ones 1 good_io (Some good_io);
  Cmd_ConsumeKey (Ok tt) key zeros ones 1 good_io;
  Cmd_Reserve (Ok tt) principal "aud" "n1" zeros ones good_io].

Definition run_all (cmds : list replay_command) : list replay_ack * ReplayStore :=
  foldl (fun '(acks, st) cmd => let '(ack, st') := replay_exec st cmd in (acks ++ [ack], st')) ([], replay_empty) cmds.

Lemma run_all_trace cmds : replay_trace (run_all cmds).1 (run_all cmds).2.
Proof.
  induction cmds as [|cmd cmds IH] using rev_ind; [constructor|]. unfold run_all in *. rewrite foldl_app. cbn [foldl].
  destruct (foldl _ _ cmds) as [acks st]. cbn [fst snd] in *. destruct (replay_exec st cmd) as [ack st'] eqn:E. by eapply trace_step.
Qed.

(** The store after the crash, and after the reservation that follows it. *)
Definition torn_store : ReplayStore := Eval vm_compute in (run_all (take 2 commands)).2.
Definition reserve_again : replay_command := Cmd_Reserve (Ok tt) principal "aud" "n1" zeros ones good_io.
Definition reserved_store : ReplayStore := Eval vm_compute in (replay_exec torn_store reserve_again).2.

Lemma torn_store_trace : replay_trace (run_all (take 2 commands)).1 torn_store.
Proof.
  assert ((run_all (take 2 commands)).2 = torn_store) as E by (vm_compute; reflexivity).
  rewrite <- E. apply run_all_trace.
Qed.

Lemma reserve_again_ok : replay_exec torn_store reserve_again = (Ack_Reserved key zeros ones, reserved_store).
Proof. vm_compute. reflexivity. Qed.

End ReplayRun.

#[local] Existing Instance ReplayRun.codec.

(** The reservation survives its crash, the commit is made once, and the nonce is spent. *)
Example replay_run_acks :
  (ReplayRun.run_all ReplayRun.commands).1
  = [Ack_Other; Ack_Other; Ack_Reserved ReplayRun.key ReplayRun.zeros ReplayRun.ones; Ack_Other;
     Ack_Consumed ReplayRun.key ReplayRun.zeros ReplayRun.ones;
     Ack_AlreadyConsumed ReplayRun.key ReplayRun.zeros ReplayRun.ones; Ack_Other].
Proof. vm_compute. reflexivity. Qed.

Lemma nonce_keys_distinct_witness :
  exists k k', replay_nonce_key_hash (mk_PrincipalId "a") "bc" "n" = Ok k
    /\ replay_nonce_key_hash (mk_PrincipalId "ab") "c" "n" = Ok k' /\ k ≠ k'.
Proof.
  eexists _, _. split; [reflexivity|]. split; [reflexivity|].
  apply (nonce_keys_distinct (mk_PrincipalId "a") "bc" "n" (mk_PrincipalId "ab") "c" "n"); try (vm_compute; discriminate).
  - reflexivity.
  - reflexivity.
Defined.

Lemma replay_refines_witness :
  nonces (view ReplayRun.reserved_store)
  = <[ReplayRun.key := reserved ReplayRun.zeros ReplayRun.ones]> (nonces (view ReplayRun.torn_store)).
Proof.
  destruct (@replay_refines ReplayRun.codec (ReplayRun.replay_codec_laws _) _ ReplayRun.torn_store ReplayRun.reserve_again _
    ReplayRun.reserved_store ReplayRun.torn_store_trace ReplayRun.reserve_again_ok) as (_ & [_ Hs] & _).
  exact Hs.
Defined.

Lemma nonce_used_once_witness :
  NoDup (reserved_keys (ReplayRun.run_all ReplayRun.commands).1)
  /\ remembers (nonces (view (ReplayRun.run_all ReplayRun.commands).2))
       (Ack_Consumed ReplayRun.key ReplayRun.zeros ReplayRun.ones).
Proof.
  destruct (@nonce_used_once ReplayRun.codec (ReplayRun.replay_codec_laws _) _ _ (ReplayRun.run_all_trace ReplayRun.commands))
    as (Hr & _ & Hm).
  split; [exact Hr|]. apply Hm. rewrite replay_run_acks. do 4 right. left.
Defined.
