(* ===== verification/ClaimProjection.v ===== *)
(** * Projection of the claim log

    [ProjectionAccumulator] and [project_claim_wal_recovery] of
    [forge-core-store/src/claim_wal.rs]: folding the recovered records into the latest state of
    every claim, the active, released and handed-over buckets, the diagnostics, and seeding the
    fold from a checkpoint snapshot. *)

From S2P Require Import Prelude RustStr BTree Contracts ClaimEngine WalFrame ClaimWal.

(** ** Data *)

Record ProjectedClaim := {
  pc_claim_contract : ClaimContract;
  pc_last_seq : Z;
  pc_last_operation : ClaimWalOperation;
  pc_recorded_at : string;
  pc_wal_offset : Z
}.

Inductive ClaimWalProjectionDiagnosticSeverity := Severity_Warning | Severity_Error.

Inductive ClaimWalProjectionDiagnosticCode :=
| HeartbeatWithoutActiveClaim | HeartbeatAgentMismatch
| ReleaseWithoutActiveClaim | ReleaseAgentMismatch
| HandoffWithoutActiveClaim | HandoffAgentMismatch
| ReconcileWithoutOpenClaim | ReconcileAgentMismatch
| ReacquireByDifferentAgent | OperationStatusMismatch.

Record ClaimWalProjectionDiagnostic := {
  pd_severity : ClaimWalProjectionDiagnosticSeverity;
  pd_code : ClaimWalProjectionDiagnosticCode;
  pd_seq : Z;
  pd_claim_id : string;
  pd_message : string
}.

Notation ClaimMap := (gmap string ProjectedClaim).

Record ProjectionAccumulator := {
  pa_latest_by_claim_id : ClaimMap;
  pa_active_by_claim_id : ClaimMap;
  pa_released_by_claim_id : ClaimMap;
  pa_handoff_recorded_by_claim_id : ClaimMap;
  pa_diagnostics : list ClaimWalProjectionDiagnostic;
  pa_last_applied_seq : Z;
  pa_applied_records : nat
}.

Definition ProjectionAccumulator_default : ProjectionAccumulator := {|
  pa_latest_by_claim_id := ∅; pa_active_by_claim_id := ∅; pa_released_by_claim_id := ∅;
  pa_handoff_recorded_by_claim_id := ∅; pa_diagnostics := []; pa_last_applied_seq := 0;
  pa_applied_records := 0 |}.

Inductive MissingOp := MissingOp_Heartbeat | MissingOp_Release | MissingOp_Reconcile.

Definition record_claim (record : ClaimWalRecord) : ClaimContract := wp_claim_contract (wr_payload record).
Definition claim_key (c : ClaimContract) : string := ClaimId_0 (cc_id c).
Definition claim_agent (c : ClaimContract) : StableId := ci_claimant_agent_id (cc_claim c).
Definition claim_status (c : ClaimContract) : ClaimStatus := csr_value (cc_status c).

Definition projected_claim (record : ClaimWalRecord) : ProjectedClaim := {|
  pc_claim_contract := record_claim record;
  pc_last_seq := wr_seq record;
  pc_last_operation := wr_operation record;
  pc_recorded_at := wp_recorded_at (wr_payload record);
  pc_wal_offset := wr_offset record
|}.

(** ** Diagnostics *)

Definition projection_warning (code : ClaimWalProjectionDiagnosticCode) (record : ClaimWalRecord)
    (message : string) : ClaimWalProjectionDiagnostic := {|
  pd_severity := Severity_Warning; pd_code := code; pd_seq := wr_seq record;
  pd_claim_id := claim_key (record_claim record); pd_message := message |}.

Definition missing_diag_code (op : MissingOp) : ClaimWalProjectionDiagnosticCode :=
  match op with
  | MissingOp_Heartbeat => HeartbeatWithoutActiveClaim
  | MissingOp_Release => ReleaseWithoutActiveClaim
  | MissingOp_Reconcile => ReconcileWithoutOpenClaim
  end.

Definition mismatch_diag_code (op : MissingOp) : ClaimWalProjectionDiagnosticCode :=
  match op with
  | MissingOp_Heartbeat => HeartbeatAgentMismatch
  | MissingOp_Release => ReleaseAgentMismatch
  | MissingOp_Reconcile => ReconcileAgentMismatch
  end.

Definition missing_message (op : MissingOp) : string :=
  match op with
  | MissingOp_Heartbeat => "heartbeat has no matching active claim"
  | MissingOp_Release => "release has no matching active claim"
  | MissingOp_Reconcile => "reconcile status record has no matching active claim"
  end.

(** The verdict and the diagnostics pushed. *)
Definition matching_active_claim (record : ClaimWalRecord) (active_by_claim_id : ClaimMap)
    (op : MissingOp) : bool * list ClaimWalProjectionDiagnostic :=
  match active_by_claim_id !! claim_key (record_claim record) with
  | None => (false, [projection_warning (missing_diag_code op) record (missing_message op)])
  | Some active =>
      if bool_decide (claim_agent (pc_claim_contract active) ≠ claim_agent (record_claim record))
      then (false, [projection_warning (mismatch_diag_code op) record
                      "claim lifecycle record agent does not match active claim agent"])
      else (true, [])
  end.

Definition matching_open_claim_for_handoff (record : ClaimWalRecord) (latest_by_claim_id : ClaimMap)
    : bool * list ClaimWalProjectionDiagnostic :=
  match latest_by_claim_id !! claim_key (record_claim record) with
  | None => (false, [projection_warning HandoffWithoutActiveClaim record "handoff has no matching open claim"])
  | Some latest =>
      if negb (is_open (pc_claim_contract latest))
      then (false, [projection_warning HandoffWithoutActiveClaim record
                      "handoff target is not open or handoff-required"])
      else if bool_decide (claim_agent (pc_claim_contract latest) ≠ claim_agent (record_claim record))
      then (false, [projection_warning HandoffAgentMismatch record
                      "handoff lifecycle record agent does not match open claim agent"])
      else (true, [])
  end.

Definition operation_matches_status (operation : ClaimWalOperation) (status : ClaimStatus) : bool :=
  match operation with
  | ClaimWalOperation_Acquire | ClaimWalOperation_Heartbeat => bool_decide (status = ClaimStatus_Active)
  | ClaimWalOperation_Release => bool_decide (status = ClaimStatus_Released)
  | ClaimWalOperation_HandoffRecorded => bool_decide (status = ClaimStatus_HandoffRecorded)
  | ClaimWalOperation_ReconcileStatus =>
      match status with
      | ClaimStatus_Stale | ClaimStatus_Expired | ClaimStatus_HandoffRequired => true
      | _ => false
      end
  end.

Definition status_mismatch_diagnostics (record : ClaimWalRecord) : list ClaimWalProjectionDiagnostic :=
  if operation_matches_status (wr_operation record) (claim_status (record_claim record)) then []
  else [projection_warning OperationStatusMismatch record
          "claim WAL operation does not match embedded claim status"].

(** ** The fold *)

Definition push_diagnostics (ds : list ClaimWalProjectionDiagnostic) (a : ProjectionAccumulator)
    : ProjectionAccumulator := {|
  pa_latest_by_claim_id := pa_latest_by_claim_id a; pa_active_by_claim_id := pa_active_by_claim_id a;
  pa_released_by_claim_id := pa_released_by_claim_id a;
  pa_handoff_recorded_by_claim_id := pa_handoff_recorded_by_claim_id a;
  pa_diagnostics := pa_diagnostics a ++ ds; pa_last_applied_seq := pa_last_applied_seq a;
  pa_applied_records := pa_applied_records a |}.

(** The new maps, with [record_applied]. *)
Definition applied (record : ClaimWalRecord) (latest active released handoff : ClaimMap)
    (a : ProjectionAccumulator) : ProjectionAccumulator := {|
  pa_latest_by_claim_id := latest; pa_active_by_claim_id := active; pa_released_by_claim_id := released;
  pa_handoff_recorded_by_claim_id := handoff; pa_diagnostics := pa_diagnostics a;
  pa_last_applied_seq := wr_seq record; pa_applied_records := S (pa_applied_records a) |}.

Definition apply_record (self : ProjectionAccumulator) (record : ClaimWalRecord) : ProjectionAccumulator :=
  let claim_id := claim_key (record_claim record) in
  let projected := projected_claim record in
  let self := push_diagnostics (status_mismatch_diagnostics record) self in
  let latest := pa_latest_by_claim_id self in
  let active := pa_active_by_claim_id self in
  let released := pa_released_by_claim_id self in
  let handoff := pa_handoff_recorded_by_claim_id self in
  match wr_operation record with
  | ClaimWalOperation_Acquire =>
      let ds := match active !! claim_id with
                | Some other =>
                    if bool_decide (claim_agent (pc_claim_contract other)
                                    ≠ claim_agent (pc_claim_contract projected))
                    then [projection_warning ReacquireByDifferentAgent record
                            "acquire replaced an active claim held by another agent"]
                    else []
                | None => []
                end in
      applied record (<[claim_id := projected]> latest) (<[claim_id := projected]> active)
        (delete claim_id released) (delete claim_id handoff) (push_diagnostics ds self)
  | ClaimWalOperation_Heartbeat =>
      let '(ok, ds) := matching_active_claim record active MissingOp_Heartbeat in
      let self := push_diagnostics ds self in
      if ok then applied record (<[claim_id := projected]> latest) (<[claim_id := projected]> active)
                   released handoff self
      else self
  | ClaimWalOperation_Release =>
      let '(ok, ds) := matching_active_claim record active MissingOp_Release in
      let self := push_diagnostics ds self in
      if ok then applied record (<[claim_id := projected]> latest) (delete claim_id active)
                   (<[claim_id := projected]> released) (delete claim_id handoff) self
      else self
  | ClaimWalOperation_HandoffRecorded =>
      let '(ok, ds) := matching_open_claim_for_handoff record latest in
      let self := push_diagnostics ds self in
      if ok then applied record (<[claim_id := projected]> latest) (delete claim_id active)
                   (delete claim_id released) (<[claim_id := projected]> handoff) self
      else self
  | ClaimWalOperation_ReconcileStatus =>
      let '(ok, ds) := matching_active_claim record active MissingOp_Reconcile in
      let self := push_diagnostics ds self in
      if ok then
        applied record (<[claim_id := projected]> latest)
          (if is_active_or_stale (claim_status (pc_claim_contract projected))
           then <[claim_id := projected]> active else delete claim_id active)
          (delete claim_id released) (delete claim_id handoff) self
      else self
  end.

(** The projected claim a snapshot entry seeds. *)
Definition seeded_claim (s : ClaimWalSnapshotClaim) : ProjectedClaim := {|
  pc_claim_contract := sc_claim_contract s; pc_last_seq := sc_last_seq s;
  pc_last_operation := sc_last_operation s; pc_recorded_at := sc_recorded_at s; pc_wal_offset := 0 |}.

Definition seed_claim (self : ProjectionAccumulator) (s : ClaimWalSnapshotClaim) : ProjectionAccumulator :=
  let claim_id := claim_key (sc_claim_contract s) in
  let projected := seeded_claim s in
  let active := pa_active_by_claim_id self in
  let released := pa_released_by_claim_id self in
  let handoff := pa_handoff_recorded_by_claim_id self in
  let '(active, released, handoff) :=
    match claim_status (pc_claim_contract projected) with
    | ClaimStatus_Active | ClaimStatus_Stale =>
        (<[claim_id := projected]> active, delete claim_id released, delete claim_id handoff)
    | ClaimStatus_Released =>
        (delete claim_id active, <[claim_id := projected]> released, delete claim_id handoff)
    | ClaimStatus_HandoffRecorded =>
        (delete claim_id active, delete claim_id released, <[claim_id := projected]> handoff)
    | ClaimStatus_Expired | ClaimStatus_HandoffRequired =>
        (delete claim_id active, delete claim_id released, delete claim_id handoff)
    end in
  {| pa_latest_by_claim_id := <[claim_id := projected]> (pa_latest_by_claim_id self);
     pa_active_by_claim_id := active; pa_released_by_claim_id := released;
     pa_handoff_recorded_by_claim_id := handoff; pa_diagnostics := pa_diagnostics self;
     pa_last_applied_seq := pa_last_applied_seq self; pa_applied_records := pa_applied_records self |}.

Definition seed_snapshot (self : ProjectionAccumulator) (snapshot : ClaimWalSnapshotPayload)
    : ProjectionAccumulator :=
  foldl seed_claim
    {| pa_latest_by_claim_id := pa_latest_by_claim_id self; pa_active_by_claim_id := pa_active_by_claim_id self;
       pa_released_by_claim_id := pa_released_by_claim_id self;
       pa_handoff_recorded_by_claim_id := pa_handoff_recorded_by_claim_id self;
       pa_diagnostics := pa_diagnostics self; pa_last_applied_seq := sp_last_seq snapshot;
       pa_applied_records := pa_applied_records self |}
    (sp_latest_claims snapshot).

(** ** The projection *)

Notation ClaimIdIndex := (gmap string (list string)).

(** [by.entry(key).or_default().push(claim_id)]. *)
Definition index_push (key claim_id : string) (index : ClaimIdIndex) : ClaimIdIndex :=
  <[key := default [] (index !! key) ++ [claim_id]]> index.

Definition sort_index_values (index : ClaimIdIndex) : ClaimIdIndex :=
  (fun values => dedup (sort_strings values)) <$> index.

Definition build_active_indexes (active_by_claim_id : ClaimMap) : ClaimIdIndex * ClaimIdIndex * ClaimIdIndex :=
  let step '(by_agent, by_scope, by_path) claim_id :=
    match active_by_claim_id !! claim_id with
    | None => (by_agent, by_scope, by_path)
    | Some projected =>
        let c := pc_claim_contract projected in
        (index_push (StableId_0 (claim_agent c)) claim_id by_agent,
         index_push (ScopeId_0 (cs_id (cc_scope c))) claim_id by_scope,
         foldl (fun index path => index_push (RepoPath_0 path) claim_id index) by_path (cs_paths (cc_scope c)))
    end in
  let '(by_agent, by_scope, by_path) := foldl step (∅, ∅, ∅) (map_keys active_by_claim_id) in
  (sort_index_values by_agent, sort_index_values by_scope, sort_index_values by_path).

Record ClaimWalProjection := {
  pj_recovery : ClaimWalRecovery;
  pj_last_applied_seq : Z;
  pj_applied_records : nat;
  pj_claims : list ClaimContract;
  pj_latest_by_claim_id : ClaimMap;
  pj_active_by_claim_id : ClaimMap;
  pj_released_by_claim_id : ClaimMap;
  pj_handoff_recorded_by_claim_id : ClaimMap;
  pj_active_claim_ids_by_agent : ClaimIdIndex;
  pj_active_claim_ids_by_scope : ClaimIdIndex;
  pj_active_claim_ids_by_path : ClaimIdIndex;
  pj_diagnostics : list ClaimWalProjectionDiagnostic
}.

Definition accumulate (recovery : ClaimWalRecovery) : ProjectionAccumulator :=
  let accumulator := match rc_checkpoint recovery with
                     | Some checkpoint => seed_snapshot ProjectionAccumulator_default (ck_snapshot checkpoint)
                     | None => ProjectionAccumulator_default
                     end in
  foldl apply_record accumulator (rc_records recovery).

Definition project_claim_wal_recovery (recovery : ClaimWalRecovery) : ClaimWalProjection :=
  let accumulator := accumulate recovery in
  let '(by_agent, by_scope, by_path) := build_active_indexes (pa_active_by_claim_id accumulator) in {|
    pj_recovery := recovery;
    pj_last_applied_seq := pa_last_applied_seq accumulator;
    pj_applied_records := pa_applied_records accumulator;
    pj_claims := map pc_claim_contract (map_values (pa_latest_by_claim_id accumulator));
    pj_latest_by_claim_id := pa_latest_by_claim_id accumulator;
    pj_active_by_claim_id := pa_active_by_claim_id accumulator;
    pj_released_by_claim_id := pa_released_by_claim_id accumulator;
    pj_handoff_recorded_by_claim_id := pa_handoff_recorded_by_claim_id accumulator;
    pj_active_claim_ids_by_agent := by_agent;
    pj_active_claim_ids_by_scope := by_scope;
    pj_active_claim_ids_by_path := by_path;
    pj_diagnostics := pa_diagnostics accumulator
  |}.

Definition snapshot_claims_from_projection (projection : ClaimWalProjection) : list ClaimWalSnapshotClaim :=
  map (fun projected => {| sc_claim_contract := pc_claim_contract projected;
                           sc_last_seq := pc_last_seq projected;
                           sc_last_operation := pc_last_operation projected;
                           sc_recorded_at := pc_recorded_at projected |})
    (map_values (pj_latest_by_claim_id projection)).

(** ** The buckets partition the latest state *)

Definition bucket (f : ClaimStatus -> bool) (o : option ProjectedClaim) : option ProjectedClaim :=
  match o with
  | Some p => if f (claim_status (pc_claim_contract p)) then Some p else None
  | None => None
  end.

Definition is_released (s : ClaimStatus) : bool := bool_decide (s = ClaimStatus_Released).
Definition is_handoff_recorded (s : ClaimStatus) : bool := bool_decide (s = ClaimStatus_HandoffRecorded).

(** Every claim is filed under its own id, and each bucket holds exactly the claims of [latest] in
    its state. *)
Record acc_ok (a : ProjectionAccumulator) : Prop := {
  ok_keys k p : pa_latest_by_claim_id a !! k = Some p -> claim_key (pc_claim_contract p) = k;
  ok_active k : pa_active_by_claim_id a !! k = bucket is_active_or_stale (pa_latest_by_claim_id a !! k);
  ok_released k : pa_released_by_claim_id a !! k = bucket is_released (pa_latest_by_claim_id a !! k);
  ok_handoff k : pa_handoff_recorded_by_claim_id a !! k
                 = bucket is_handoff_recorded (pa_latest_by_claim_id a !! k)
}.

(** The operation of a record fits the status it carries. *)
Definition record_ok (r : ClaimWalRecord) : bool :=
  operation_matches_status (wr_operation r) (claim_status (record_claim r)).

(** The records the fold applies, read off the latest state alone. *)
Definition record_accepted (latest : ClaimMap) (r : ClaimWalRecord) : bool :=
  match wr_operation r with
  | ClaimWalOperation_Acquire => true
  | ClaimWalOperation_HandoffRecorded =>
      match latest !! claim_key (record_claim r) with
      | Some p => is_open (pc_claim_contract p)
                  && bool_decide (claim_agent (pc_claim_contract p) = claim_agent (record_claim r))
      | None => false
      end
  | _ =>
      match latest !! claim_key (record_claim r) with
      | Some p => is_active_or_stale (claim_status (pc_claim_contract p))
                  && bool_decide (claim_agent (pc_claim_contract p) = claim_agent (record_claim r))
      | None => false
      end
  end.

Definition fold_latest (latest : ClaimMap) (r : ClaimWalRecord) : ClaimMap :=
  if record_accepted latest r then <[claim_key (record_claim r) := projected_claim r]> latest else latest.

Lemma acc_ok_default : acc_ok ProjectionAccumulator_default.
Proof. split; intros; simpl in *; rewrite ?lookup_empty in *; done. Qed.

Lemma acc_ok_push ds a : acc_ok (push_diagnostics ds a) <-> acc_ok a.
Proof. by split; intros [? ? ? ?]; split. Qed.

(** Filing a claim at its key, into the bucket of its status and out of the others. *)
Lemma acc_ok_file (a : ProjectionAccumulator) k p active released handoff :
  acc_ok a -> claim_key (pc_claim_contract p) = k ->
  (forall j, active !! j = if decide (j = k) then bucket is_active_or_stale (Some p) else pa_active_by_claim_id a !! j) ->
  (forall j, released !! j = if decide (j = k) then bucket is_released (Some p) else pa_released_by_claim_id a !! j) ->
  (forall j, handoff !! j = if decide (j = k) then bucket is_handoff_recorded (Some p)
                            else pa_handoff_recorded_by_claim_id a !! j) ->
  forall ds seq n,
  acc_ok {| pa_latest_by_claim_id := <[k := p]> (pa_latest_by_claim_id a); pa_active_by_claim_id := active;
            pa_released_by_claim_id := released; pa_handoff_recorded_by_claim_id := handoff;
            pa_diagnostics := ds; pa_last_applied_seq := seq; pa_applied_records := n |}.
Proof.
  intros [Hk Ha Hr Hh] Hp Ea Er Eh ds seq n. split; simpl.
  - intros j q. destruct (decide (j = k)) as [->|Hj].
    + rewrite lookup_insert_eq. by intros [= <-].
    + rewrite lookup_insert_ne by done. apply Hk.
  - intros j. rewrite Ea. destruct (decide (j = k)) as [->|Hj];
      [by rewrite lookup_insert_eq | by rewrite lookup_insert_ne, Ha].
  - intros j. rewrite Er. destruct (decide (j = k)) as [->|Hj];
      [by rewrite lookup_insert_eq | by rewrite lookup_insert_ne, Hr].
  - intros j. rewrite Eh. destruct (decide (j = k)) as [->|Hj];
      [by rewrite lookup_insert_eq | by rewrite lookup_insert_ne, Hh].
Qed.

Lemma matching_active_claim_spec a r op :
  acc_ok a ->
  (matching_active_claim r (pa_active_by_claim_id a) op).1 =
  match pa_latest_by_claim_id a !! claim_key (record_claim r) with
  | Some p => is_active_or_stale (claim_status (pc_claim_contract p))
              && bool_decide (claim_agent (pc_claim_contract p) = claim_agent (record_claim r))
  | None => false
  end
  /\ ((matching_active_claim r (pa_active_by_claim_id a) op).1 = true ->
      (matching_active_claim r (pa_active_by_claim_id a) op).2 = []).
Proof.
  intros Hok. unfold matching_active_claim. rewrite (ok_active _ Hok).
  destruct (pa_latest_by_claim_id a !! _) as [p|]; simpl; [|done].
  destruct (is_active_or_stale _); simpl; [|done]. repeat case_bool_decide; done.
Qed.

Lemma matching_open_claim_spec r latest :
  (matching_open_claim_for_handoff r latest).1 =
  match latest !! claim_key (record_claim r) with
  | Some p => is_open (pc_claim_contract p)
              && bool_decide (claim_agent (pc_claim_contract p) = claim_agent (record_claim r))
  | None => false
  end
  /\ ((matching_open_claim_for_handoff r latest).1 = true -> (matching_open_claim_for_handoff r latest).2 = []).
Proof.
  unfold matching_open_claim_for_handoff. destruct (latest !! _) as [p|]; simpl; [|done].
  destruct (is_open _); simpl; [|done]. repeat case_bool_decide; done.
Qed.

(** A matched lifecycle record finds nothing of its claim in the other buckets. *)
Lemma other_buckets_empty a k p :
  acc_ok a -> pa_latest_by_claim_id a !! k = Some p -> is_active_or_stale (claim_status (pc_claim_contract p)) = true ->
  pa_released_by_claim_id a !! k = None /\ pa_handoff_recorded_by_claim_id a !! k = None.
Proof.
  intros Hok Hk Hs. rewrite (ok_released _ Hok), (ok_handoff _ Hok), Hk. simpl.
  by destruct (claim_status (pc_claim_contract p)).
Qed.

(** Closes the three pointwise map goals [acc_ok_file] leaves. *)
Ltac file_claim a :=
  apply (acc_ok_file a); [assumption | reflexivity | ..];
  intros j; rewrite ?lookup_insert_if, ?lookup_delete_if; cbn;
  (destruct (decide (j = _)) as [->|]; [|reflexivity]); cbn;
  unfold is_released, is_handoff_recorded in *;
  repeat match goal with H : claim_status _ = _ |- _ => rewrite H; clear H end; try reflexivity.

Lemma apply_record_ok a r : acc_ok a -> record_ok r = true -> acc_ok (apply_record a r).
Proof.
  intros Hok Hr. unfold record_ok, operation_matches_status in Hr. unfold apply_record.
  apply (acc_ok_push (status_mismatch_diagnostics r)) in Hok.
  set (a' := push_diagnostics _ a) in *. destruct (wr_operation r).
  - bool_simpl. unfold applied. file_claim a'.
  - bool_simpl. destruct (matching_active_claim_spec a' r MissingOp_Release Hok) as [Hm _].
    destruct (matching_active_claim _ _ _) as [[] ds]; simpl; [|by apply acc_ok_push].
    unfold applied. file_claim a'.
  - bool_simpl. destruct (matching_active_claim_spec a' r MissingOp_Heartbeat Hok) as [Hm _].
    destruct (matching_active_claim _ _ _) as [[] ds]; simpl; [|by apply acc_ok_push].
    simpl in Hm. destruct (pa_latest_by_claim_id a !! _) as [p|] eqn:Hk; [|done].
    symmetry in Hm. bool_simpl.
    destruct (other_buckets_empty a' _ p Hok Hk) as [Hre Hha]; [done|]. simpl in Hre, Hha.
    unfold applied. file_claim a'; done.
  - bool_simpl. destruct (matching_open_claim_for_handoff _ _) as [[] ds]; simpl; [|by apply acc_ok_push].
    unfold applied. file_claim a'.
  - destruct (matching_active_claim _ _ _) as [[] ds]; simpl; [|by apply acc_ok_push].
    unfold applied. destruct (claim_status (record_claim r)) eqn:Hs; try done; simpl; file_claim a'.
Qed.

Lemma apply_record_latest a r :
  acc_ok a -> pa_latest_by_claim_id (apply_record a r) = fold_latest (pa_latest_by_claim_id a) r.
Proof.
  intros Hok. unfold apply_record, fold_latest, record_accepted.
  apply (acc_ok_push (status_mismatch_diagnostics r)) in Hok.
  set (a' := push_diagnostics _ a) in *. change (pa_latest_by_claim_id a) with (pa_latest_by_claim_id a').
  destruct (wr_operation r); [done|..].
  - destruct (matching_active_claim_spec a' r MissingOp_Release Hok) as [Hm _]. rewrite <- Hm.
    by destruct (matching_active_claim _ _ _) as [[] ds].
  - destruct (matching_active_claim_spec a' r MissingOp_Heartbeat Hok) as [Hm _]. rewrite <- Hm.
    by destruct (matching_active_claim _ _ _) as [[] ds].
  - destruct (matching_open_claim_spec r (pa_latest_by_claim_id a')) as [Hm _]. rewrite <- Hm.
    by destruct (matching_open_claim_for_handoff _ _) as [[] ds].
  - destruct (matching_active_claim_spec a' r MissingOp_Reconcile Hok) as [Hm _]. rewrite <- Hm.
    by destruct (matching_active_claim _ _ _) as [[] ds].
Qed.

Lemma fold_records a rs :
  acc_ok a -> Forall (fun r => record_ok r = true) rs ->
  acc_ok (foldl apply_record a rs)
  /\ pa_latest_by_claim_id (foldl apply_record a rs) = foldl fold_latest (pa_latest_by_claim_id a) rs.
Proof.
  intros Hok Hrs. revert a Hok. induction Hrs as [|r rs Hr _ IH]; intros a Hok; simpl; [done|].
  destruct (IH (apply_record a r)) as [H1 H2]; [by apply apply_record_ok|].
  split; [done|]. by rewrite H2, apply_record_latest.
Qed.

(** ** Accumulators up to log offsets *)

(** A claim with the offset it was read at forgotten: a checkpoint does not record it. *)
Definition erase (p : ProjectedClaim) : ProjectedClaim := {|
  pc_claim_contract := pc_claim_contract p; pc_last_seq := pc_last_seq p;
  pc_last_operation := pc_last_operation p; pc_recorded_at := pc_recorded_at p; pc_wal_offset := 0 |}.

Definition map_equiv (m n : ClaimMap) : Prop := erase <$> m = erase <$> n.

Record acc_equiv (a b : ProjectionAccumulator) : Prop := {
  equiv_latest : map_equiv (pa_latest_by_claim_id a) (pa_latest_by_claim_id b);
  equiv_active : map_equiv (pa_active_by_claim_id a) (pa_active_by_claim_id b);
  equiv_released : map_equiv (pa_released_by_claim_id a) (pa_released_by_claim_id b);
  equiv_handoff : map_equiv (pa_handoff_recorded_by_claim_id a) (pa_handoff_recorded_by_claim_id b)
}.

#[export] Instance map_equiv_equivalence : Equivalence map_equiv.
Proof. unfold map_equiv. split; [by intros ? | by intros ? ? -> | by intros ? ? ? -> ->]. Qed.

#[export] Instance acc_equiv_equivalence : Equivalence acc_equiv.
Proof.
  split; [intros a | intros a b [] | intros a b c [] []]; split; try done; by etrans.
Qed.

#[export] Instance insert_map_equiv k p : Proper (map_equiv ==> map_equiv) (insert (M := ClaimMap) k p).
Proof. unfold map_equiv. intros m n E. by rewrite !fmap_insert, E. Qed.

#[export] Instance delete_map_equiv k : Proper (map_equiv ==> map_equiv) (delete (M := ClaimMap) k).
Proof. unfold map_equiv. intros m n E. by rewrite !fmap_delete, E. Qed.

Lemma map_equiv_lookup m n k :
  map_equiv m n -> pc_claim_contract <$> m !! k = pc_claim_contract <$> n !! k.
Proof.
  intros E. apply (f_equal (fun m : ClaimMap => pc_claim_contract <$> m !! k)) in E.
  rewrite !lookup_fmap in E. by destruct (m !! k), (n !! k).
Qed.

Lemma matching_active_claim_equiv r m n op :
  map_equiv m n -> matching_active_claim r m op = matching_active_claim r n op.
Proof.
  intros E. apply (map_equiv_lookup _ _ (claim_key (record_claim r))) in E. unfold matching_active_claim.
  destruct (m !! _), (n !! _); simplify_eq/=; [|done]. by rewrite E.
Qed.

Lemma matching_open_claim_equiv r m n :
  map_equiv m n -> matching_open_claim_for_handoff r m = matching_open_claim_for_handoff r n.
Proof.
  intros E. apply (map_equiv_lookup _ _ (claim_key (record_claim r))) in E. unfold matching_open_claim_for_handoff.
  destruct (m !! _), (n !! _); simplify_eq/=; [|done]. by rewrite E.
Qed.

#[export] Instance apply_record_proper : Proper (acc_equiv ==> eq ==> acc_equiv) apply_record.
Proof.
  intros a b [El Ea Er Eh] r ? <-. unfold apply_record. simpl.
  rewrite (matching_active_claim_equiv r _ _ MissingOp_Release Ea),
    (matching_active_claim_equiv r _ _ MissingOp_Heartbeat Ea),
    (matching_active_claim_equiv r _ _ MissingOp_Reconcile Ea), (matching_open_claim_equiv r _ _ El).
  destruct (wr_operation r).
  - split; simpl; by f_equiv.
  - destruct (matching_active_claim _ _ _) as [[] ds]; split; simpl; first [assumption | by f_equiv].
  - destruct (matching_active_claim _ _ _) as [[] ds]; split; simpl; first [assumption | by f_equiv].
  - destruct (matching_open_claim_for_handoff _ _) as [[] ds]; split; simpl; first [assumption | by f_equiv].
  - destruct (matching_active_claim _ _ _) as [[] ds]; [|by split].
    split; simpl; [by f_equiv | | by f_equiv..]. destruct (is_active_or_stale _); by f_equiv.
Qed.

#[export] Instance fold_records_proper : Proper (acc_equiv ==> eq ==> acc_equiv) (foldl apply_record).
Proof.
  intros a b E rs ? <-. revert a b E. induction rs as [|r rs IH]; intros a b E; simpl; [done|].
  apply IH. by rewrite E.
Qed.

Lemma acc_equiv_claims a b :
  acc_equiv a b ->
  map pc_claim_contract (map_values (pa_latest_by_claim_id a))
  = map pc_claim_contract (map_values (pa_latest_by_claim_id b)).
Proof.
  intros [El _ _ _]. apply (f_equal (fun m => map pc_claim_contract (map_values m))) in El.
  rewrite !map_values_fmap, !map_map in El. done.
Qed.

(** Accumulators in good order are determined by their latest claims. *)
Lemma acc_equiv_of_latest a b :
  acc_ok a -> acc_ok b -> map_equiv (pa_latest_by_claim_id a) (pa_latest_by_claim_id b) -> acc_equiv a b.
Proof.
  intros [_ Aa Ar Ah] [_ Ba Br Bh] El.
  assert (forall f k, erase <$> bucket f (pa_latest_by_claim_id a !! k)
                    = erase <$> bucket f (pa_latest_by_claim_id b !! k)) as Hb.
  { intros f k. apply (f_equal (fun m : ClaimMap => m !! k)) in El. rewrite !lookup_fmap in El.
    destruct (pa_latest_by_claim_id a !! k) as [p|], (pa_latest_by_claim_id b !! k) as [q|]; try done.
    simpl. injection El as E1 E2 E3 E4. rewrite E1. destruct (f _); simpl; [|done].
    unfold erase. by rewrite E1, E2, E3, E4. }
  split; [done|..]; unfold map_equiv; apply map_eq; intros k; rewrite !lookup_fmap.
  - by rewrite Aa, Ba.
  - by rewrite Ar, Br.
  - by rewrite Ah, Bh.
Qed.

(** ** Checkpoints *)

Lemma seed_claim_ok a s : acc_ok a -> acc_ok (seed_claim a s).
Proof.
  intros Hok. unfold seed_claim. simpl.
  destruct (claim_status (sc_claim_contract s)) eqn:Hs; file_claim a.
Qed.

Lemma seed_claims_ok l a : acc_ok a -> acc_ok (foldl seed_claim a l).
Proof. revert a. induction l as [|s l IH]; intros a Hok; simpl; [done|]. apply IH. by apply seed_claim_ok. Qed.

Lemma accumulate_ok recovery :
  Forall (fun r => record_ok r = true) (rc_records recovery) -> acc_ok (accumulate recovery).
Proof.
  intros Hrs. apply fold_records; [|done]. destruct (rc_checkpoint recovery); [|apply acc_ok_default].
  apply seed_claims_ok. by destruct acc_ok_default; split.
Qed.

(** A snapshot of one claim. *)
Definition snapshot_claim (p : ProjectedClaim) : ClaimWalSnapshotClaim := {|
  sc_claim_contract := pc_claim_contract p; sc_last_seq := pc_last_seq p;
  sc_last_operation := pc_last_operation p; sc_recorded_at := pc_recorded_at p |}.

Lemma seed_latest_other l a k :
  (forall p, p ∈ l -> claim_key (pc_claim_contract p) ≠ k) ->
  pa_latest_by_claim_id (foldl seed_claim a (map snapshot_claim l)) !! k = pa_latest_by_claim_id a !! k.
Proof.
  revert a. induction l as [|p l IH]; intros a Hl; simpl; [done|].
  rewrite IH by (intros q Hq; apply Hl; by right). unfold seed_claim.
  assert (claim_key (pc_claim_contract p) ≠ k) as Hne by (apply Hl; by left).
  simpl. destruct (claim_status _); simpl; by rewrite lookup_insert_ne.
Qed.

Lemma seed_latest_in l a p :
  (forall p q, p ∈ l -> q ∈ l -> claim_key (pc_claim_contract p) = claim_key (pc_claim_contract q) -> p = q) ->
  p ∈ l ->
  pa_latest_by_claim_id (foldl seed_claim a (map snapshot_claim l)) !! claim_key (pc_claim_contract p)
  = Some (erase p).
Proof.
  revert a. induction l as [|q l IH]; intros a Hinj Hp; [by apply elem_of_nil in Hp|]. simpl.
  assert (forall p q, p ∈ l -> q ∈ l -> claim_key (pc_claim_contract p) = claim_key (pc_claim_contract q) -> p = q)
    as Hinj' by (intros x y Hx Hy; apply Hinj; by right).
  destruct (decide (claim_key (pc_claim_contract p) ∈ map (fun p => claim_key (pc_claim_contract p)) l)) as [Hin|Hout].
  - apply list_elem_of_In, in_map_iff in Hin as (x & Hx & Hxl). apply list_elem_of_In in Hxl.
    assert (x = p) as -> by (apply Hinj; [by right | done | done]). by apply IH.
  - assert (p = q) as ->.
    { apply elem_of_cons in Hp as [|Hp]; [done|]. destruct Hout.
      apply list_elem_of_In, in_map_iff. exists p. split; [done|]. by apply list_elem_of_In. }
    rewrite seed_latest_other.
    + unfold seed_claim. simpl. destruct (claim_status _); simpl; by rewrite lookup_insert_eq.
    + intros x Hx E. apply Hout. apply list_elem_of_In, in_map_iff. exists x. split; [done|]. by apply list_elem_of_In.
Qed.

Lemma seed_latest a c :
  acc_ok a -> pa_latest_by_claim_id c = ∅ ->
  map_equiv (pa_latest_by_claim_id (foldl seed_claim c (map snapshot_claim (map_values (pa_latest_by_claim_id a)))))
    (pa_latest_by_claim_id a).
Proof.
  intros Hok Hc. unfold map_equiv. apply map_eq. intros k. rewrite !lookup_fmap.
  destruct (pa_latest_by_claim_id a !! k) as [p|] eqn:Hk.
  - rewrite <- (ok_keys _ Hok k p Hk). rewrite seed_latest_in; [done| |].
    + intros x y Hx Hy E. apply elem_of_map_values in Hx as [i Hi], Hy as [j Hj].
      rewrite (ok_keys _ Hok _ _ Hi), (ok_keys _ Hok _ _ Hj) in E. congruence.
    + apply elem_of_map_values. by exists k.
  - rewrite seed_latest_other; [by rewrite Hc|]. intros p Hp E.
    apply elem_of_map_values in Hp as [i Hi]. rewrite (ok_keys _ Hok _ _ Hi) in E. congruence.
Qed.

(** ** Claims about the projection *)

(** The projection files every claim under its own id, its active, released and handed-over
    buckets hold exactly the claims whose latest status is Active/Stale, Released and
    HandoffRecorded, and the claim list handed to the engine is the latest state of every claim. *)
Theorem projection_correct recovery :
  Forall (fun r => record_ok r = true) (rc_records recovery) ->
  let pj := project_claim_wal_recovery recovery in
  acc_ok (accumulate recovery)
  /\ (forall k, pj_active_by_claim_id pj !! k = bucket is_active_or_stale (pj_latest_by_claim_id pj !! k))
  /\ (forall k, pj_released_by_claim_id pj !! k = bucket is_released (pj_latest_by_claim_id pj !! k))
  /\ (forall k, pj_handoff_recorded_by_claim_id pj !! k = bucket is_handoff_recorded (pj_latest_by_claim_id pj !! k))
  /\ (forall c, c ∈ pj_claims pj <-> exists p, pj_latest_by_claim_id pj !! claim_key c = Some p
                                           /\ pc_claim_contract p = c).
Proof.
  intros Hrs. cbv zeta. unfold project_claim_wal_recovery.
  pose proof (accumulate_ok recovery Hrs) as Hok.
  destruct (build_active_indexes _) as [[by_agent by_scope] by_path]. simpl.
  split; [done|]. destruct Hok as [Hk Ha Hr Hh]. repeat (split; [done|]).
  intros c. rewrite map_In_iff. setoid_rewrite elem_of_map_values. split.
  - intros (p & -> & [k Hp]). exists p. by rewrite (Hk k p).
  - intros (p & Hp & <-). exists p. split; [done|]. by eexists.
Qed.

(** Folding a checkpoint snapshot and then the records after it gives the same claims, and the
    same buckets up to log offsets, as folding the whole history. *)
Theorem checkpoint_faithful recovery snapshot later :
  Forall (fun r => record_ok r = true) (rc_records recovery) ->
  sp_latest_claims snapshot = snapshot_claims_from_projection (project_claim_wal_recovery recovery) ->
  let rotated := foldl apply_record (seed_snapshot ProjectionAccumulator_default snapshot) later in
  let original := foldl apply_record (accumulate recovery) later in
  acc_equiv rotated original
  /\ map pc_claim_contract (map_values (pa_latest_by_claim_id rotated))
     = map pc_claim_contract (map_values (pa_latest_by_claim_id original)).
Proof.
  intros Hrs Hs rotated original.
  pose proof (accumulate_ok recovery Hrs) as Hok.
  assert (acc_equiv rotated original) as He; [|split; [done | by apply acc_equiv_claims]].
  unfold rotated, original. f_equiv. unfold seed_snapshot. rewrite Hs.
  assert (snapshot_claims_from_projection (project_claim_wal_recovery recovery)
          = map snapshot_claim (map_values (pa_latest_by_claim_id (accumulate recovery)))) as ->.
  { unfold project_claim_wal_recovery. by destruct (build_active_indexes _) as [[? ?] ?]. }
  apply acc_equiv_of_latest; [|done|by apply seed_latest]. apply seed_claims_ok.
  by destruct acc_ok_default; split.
Qed.
