(* ===== verification/ClaimBus.v ===== *)
(** * The claim bus: commands over the log

    [forge-core-cli/src/claim.rs] and [forge-core-store/src/derive_state.rs]: every command loads
    the claims from the log, asks the engine, appends the accepted claim and refreshes the cache.
    The state is what is on disk.  An [IoOutcome] says how the calls to the file system went, down
    to how many bytes of the record reached the log, so that a run of commands covers every crash
    in the middle of an append.

    Rotation.  An append whose recovery took over 250 ms, or that brings the log over 64 MiB or
    100,000 records, goes on to rotate the log ([ClaimWal.rotation_due], its decision).  The rotation
    itself writes a snapshot, an archive and a checkpoint generation and replaces the log; it is not
    modelled, so [bs_rotation] records that one was begun and the theorems about runs are about the
    states before that.  They are bounded by the threshold instead of by an assumption on the length.
    [ClaimProjection.checkpoint_faithful] covers what a rotation does to the projected claims, and
    [residue_refuses] what one leaves that was interrupted before it replaced the log: a bus that
    refuses every command.  Until then the directory holds no checkpoint file
    ([wd_unselected_residue dir = false]) and the records count from 1. *)

From S2P Require Import Prelude RustStr BTree Contracts Calendar Rfc3339 PathScope ClaimEngine WalFrame ClaimWal ClaimProjection.

Local Open Scope string_scope.

(** ** Disk and I/O outcomes *)

Record BusState := {
  bs_wal : option bytes;
  bs_cache : gmap string ClaimContract;
  bs_rotation : option ClaimWalRotationReason   (* a rotation was begun, and why *)
}.

Record IoOutcome := {
  io_lock : bool;              (* the directory lock was taken *)
  io_artifact : bool;          (* the handoff artifact was written *)
  io_written : option nat;     (* bytes of the record that reached the log, [None] for all *)
  io_append_reported : bool;   (* nothing failed between the write and the return *)
  io_cache_written : bool;     (* the cache file was replaced *)
  io_recovery_elapsed_ms : Z   (* how long the append took to recover the log *)
}.

Inductive DeriveStateError :=
| RecoveryStopped (stop_reason : ClaimWalStopReason) (last_good_offset original_len : Z)
| RepairDidNotRecover (stop_reason : ClaimWalStopReason).

Inductive LoadError :=
| LoadDeriveState (e : DeriveStateError)
| LoadCacheWithoutWal (documents : nat).

Inductive CliEnvelope (T : Type) :=
| EnvOk (value : T)
| EnvInvalidDecisionShape
| EnvConfig
| EnvRejectedByGate (reason : ClaimRejection).
Arguments EnvOk {T} value.
Arguments EnvInvalidDecisionShape {T}.
Arguments EnvConfig {T}.
Arguments EnvRejectedByGate {T} reason.

(** ** Claim references *)

Inductive ClaimRef := ClaimRef_Full (id : ClaimId) | ClaimRef_Scope (id : ScopeId).

Definition CANONICAL_CLAIM_PREFIX : string := "claim.".

Definition is_reserved_claim_prefix (token : string) : bool := String.prefix CANONICAL_CLAIM_PREFIX token.

Definition parse_claim_ref (token : string) : ClaimRef :=
  if is_reserved_claim_prefix token then ClaimRef_Full (mk_ClaimId token) else ClaimRef_Scope (mk_ScopeId token).

Definition resolve_claim (claims : list ClaimContract) (r : ClaimRef) : option ClaimContract :=
  match r with
  | ClaimRef_Full id => List.find (fun c => bool_decide (cc_id c = id)) claims
  | ClaimRef_Scope id => List.find (fun c => bool_decide (cs_id (cc_scope c) = id)) claims
  end.

(** One output character per input character: the continuation bytes of a wide one are dropped. *)
Definition slug_for_file (id : string) : string :=
  of_bytes (map (fun c => if is_ascii_alphanumeric c || bool_decide (c = "-"%char) || bool_decide (c = "_"%char)
                          then c else "-"%char)
              (List.filter (fun c => negb (is_cont c)) (to_bytes id))).

Definition handoff_artifact_ref (claim : ClaimContract) (now_unix : Z) : string :=
  "handoffs/expired-claims/expired-claim-" +:+ slug_for_file (ScopeId_0 (cs_id (cc_scope claim))) +:+ "-"
    +:+ slug_for_file (unix_to_rfc3339 now_unix) +:+ ".yaml".

Section bus.
Context `{ToLowercase} {codec : WalCodec}.

(** ** Loading ([derive_state], [load_claims]) *)

Definition derive_state (dir : WalDirectory) (b : bytes) : Result ClaimWalProjection DeriveStateError * bytes :=
  let '(first, _) := recover_claim_wal dir b false in
  match rc_stop_reason first with
  | CleanEof => (Ok (project_claim_wal_recovery first), b)
  | TruncatedHeader | TruncatedPayload =>
      let '(_, b') := recover_claim_wal dir b true in
      let '(repaired, _) := recover_claim_wal dir b' false in
      if bool_decide (rc_stop_reason repaired = CleanEof)
      then (Ok (project_claim_wal_recovery repaired), b')
      else (Err (RepairDidNotRecover (rc_stop_reason repaired)), b')
  | other => (Err (RecoveryStopped other (rc_last_good_offset first) (rc_original_len first)), b)
  end.

Definition load_claims (dir : WalDirectory) (st : BusState) : Result (list ClaimContract) LoadError * BusState :=
  match bs_wal st with
  | Some b =>
      let '(r, b') := derive_state dir b in
      let st' := {| bs_wal := Some b'; bs_cache := bs_cache st; bs_rotation := bs_rotation st |} in
      match r with
      | Ok projection => (Ok (pj_claims projection), st')
      | Err e => (Err (LoadDeriveState e), st')
      end
  | None =>
      if bool_decide (bs_cache st = ∅) then (Ok [], st)
      else (Err (LoadCacheWithoutWal (size (bs_cache st))), st)
  end.

(** ** Persisting *)

Definition save_claim (claim : ClaimContract) (cache : gmap string ClaimContract) : gmap string ClaimContract :=
  <[slug_for_file (ClaimId_0 (cc_id claim)) := claim]> cache.

(** Whether the mutation was reported done, and the disk afterwards.  Once the record is written
    completely the rotation begins if it is due, whatever is reported. *)
Definition persist_claim_mutation (dir : WalDirectory) (st : BusState) (operation : ClaimWalOperation)
    (claim : ClaimContract) (recorded_at : string) (io : IoOutcome) : bool * BusState :=
  match append_claim_wal_record dir (default [] (bs_wal st)) operation claim recorded_at (io_recovery_elapsed_ms io) with
  | (Err _, b') =>
      (false, {| bs_wal := (fun _ => b') <$> bs_wal st; bs_cache := bs_cache st; bs_rotation := bs_rotation st |})
  | (Ok append, b') =>
      let rec := wa_record append in
      let written := default (length rec) (io_written io) in
      let wal := Some (b' ++ take written rec)%list in
      if (length rec <=? written)%nat then
        let rotation := match bs_rotation st with Some reason => Some reason | None => wa_rotation append end in
        if io_append_reported io && io_cache_written io
        then (true, {| bs_wal := wal; bs_cache := save_claim claim (bs_cache st); bs_rotation := rotation |})
        else (false, {| bs_wal := wal; bs_cache := bs_cache st; bs_rotation := rotation |})
      else (false, {| bs_wal := wal; bs_cache := bs_cache st; bs_rotation := bs_rotation st |})
  end.

(** ** Commands *)

Definition run_acquire (dir : WalDirectory) (st : BusState) (req : AcquireRequest) (now_unix : Z)
    (io : IoOutcome) : CliEnvelope ClaimContract * BusState :=
  if is_reserved_claim_prefix (ScopeId_0 (ar_scope_id req)) then (EnvInvalidDecisionShape, st)
  else if negb (io_lock io) then (EnvConfig, st) else
  match load_claims dir st with
  | (Err _, st) => (EnvConfig, st)
  | (Ok existing, st) =>
      match acquire existing req now_unix with
      | Rejected reason => (EnvRejectedByGate reason, st)
      | Accepted claim =>
          let '(done_, st) := persist_claim_mutation dir st ClaimWalOperation_Acquire claim
                                (cl_acquired_at (cc_lease claim)) io in
          (if done_ then EnvOk claim else EnvConfig, st)
      end
  end.

(** The shape [heartbeat], [release] and [handoff] share: resolve the target, decide, persist. *)
Definition run_on_target (dir : WalDirectory) (st : BusState) (claim_id : string) (io : IoOutcome)
    (operation : ClaimWalOperation) (decide_ : ClaimContract -> ClaimLifecycleDecision)
    (recorded_at : ClaimContract -> string) (needs_artifact : bool)
    : CliEnvelope ClaimContract * BusState :=
  if negb (io_lock io) then (EnvConfig, st) else
  match load_claims dir st with
  | (Err _, st) => (EnvConfig, st)
  | (Ok existing, st) =>
      match resolve_claim existing (parse_claim_ref claim_id) with
      | None => (EnvInvalidDecisionShape, st)
      | Some target =>
          match decide_ target with
          | Rejected reason => (EnvRejectedByGate reason, st)
          | Accepted updated =>
              if needs_artifact && negb (io_artifact io) then (EnvConfig, st) else
              let '(done_, st) := persist_claim_mutation dir st operation updated (recorded_at updated) io in
              (if done_ then EnvOk updated else EnvConfig, st)
          end
      end
  end.

Definition run_heartbeat (dir : WalDirectory) (st : BusState) (claim_id : string) (agent_id : StableId)
    (now_unix : Z) (io : IoOutcome) : CliEnvelope ClaimContract * BusState :=
  run_on_target dir st claim_id io ClaimWalOperation_Heartbeat
    (fun target => heartbeat target agent_id now_unix)
    (fun updated => cl_last_heartbeat_at (cc_lease updated)) false.

Definition run_release (dir : WalDirectory) (st : BusState) (claim_id : string) (agent_id : StableId)
    (now_unix : Z) (io : IoOutcome) : CliEnvelope ClaimContract * BusState :=
  run_on_target dir st claim_id io ClaimWalOperation_Release
    (fun target => release target agent_id now_unix)
    (fun updated => csr_evaluated_at (cc_status updated)) false.

Definition run_handoff (dir : WalDirectory) (st : BusState) (claim_id : string) (agent_id : StableId)
    (summary : string) (evidence_refs : list string) (now_unix : Z) (io : IoOutcome)
    : CliEnvelope ClaimContract * BusState :=
  run_on_target dir st claim_id io ClaimWalOperation_HandoffRecorded
    (fun target => record_handoff target
       {| rh_recorder_agent_id := agent_id; rh_summary := summary;
          rh_evidence_refs := (handoff_artifact_ref target now_unix :: evidence_refs)%list |} now_unix)
    (fun updated => csr_evaluated_at (cc_status updated)) true.

(** The loop over the transitions; one outcome per append, success for those not listed. *)
Definition io_success : IoOutcome := {|
  io_lock := true; io_artifact := true; io_written := None;
  io_append_reported := true; io_cache_written := true; io_recovery_elapsed_ms := 0 |}.

Fixpoint persist_transitions (dir : WalDirectory) (st : BusState) (transitions : list ClaimReconcileTransition)
    (ios : list IoOutcome) : bool * BusState :=
  match transitions with
  | [] => (true, st)
  | transition :: rest =>
      let updated := crt_updated transition in
      let '(done_, st) := persist_claim_mutation dir st ClaimWalOperation_ReconcileStatus updated
                            (csr_evaluated_at (cc_status updated)) (hd io_success ios) in
      if done_ then persist_transitions dir st rest (tl ios) else (false, st)
  end.

Definition run_reconcile_once (dir : WalDirectory) (st : BusState) (now_unix : Z) (lock : bool)
    (ios : list IoOutcome) : CliEnvelope (list ClaimReconcileTransition) * BusState :=
  if negb lock then (EnvConfig, st) else
  match load_claims dir st with
  | (Err _, st) => (EnvConfig, st)
  | (Ok existing, st) =>
      let report := reconcile_claims existing now_unix in
      let '(done_, st) := persist_transitions dir st (crr_transitions report) ios in
      (if done_ then EnvOk (crr_transitions report) else EnvConfig, st)
  end.

(** ** Runs *)

(** No append of the run so far went on to rotate the log. *)
Definition unrotated (st : BusState) : Prop := bs_rotation st = None.

(** One command, with any arguments and any I/O outcome. *)
Inductive bus_step (dir : WalDirectory) (st : BusState) : BusState -> Prop :=
| step_acquire req now io : unrotated st -> bus_step dir st (run_acquire dir st req now io).2
| step_heartbeat id agent now io : unrotated st -> bus_step dir st (run_heartbeat dir st id agent now io).2
| step_release id agent now io : unrotated st -> bus_step dir st (run_release dir st id agent now io).2
| step_handoff id agent summary refs now io :
    unrotated st -> bus_step dir st (run_handoff dir st id agent summary refs now io).2
| step_reconcile now lock ios : unrotated st -> bus_step dir st (run_reconcile_once dir st now lock ios).2.

Definition bus_initial : BusState := {| bs_wal := None; bs_cache := ∅; bs_rotation := None |}.

Definition bus_reachable (dir : WalDirectory) : BusState -> Prop := rtc (bus_step dir) bus_initial.

(** ** The state of the claims in a log *)

Definition latest_of (rs : list ClaimWalRecord) : ClaimMap := foldl fold_latest ∅ rs.
Definition claims_of (rs : list ClaimWalRecord) : list ClaimContract :=
  map pc_claim_contract (map_values (latest_of rs)).

(** No two open claims contend; every claim carries its canonical id and needs a handoff. *)
Record claims_inv (latest : ClaimMap) : Prop := {
  inv_key k p : latest !! k = Some p -> claim_key (pc_claim_contract p) = k;
  inv_id k p : latest !! k = Some p ->
    cc_id (pc_claim_contract p) = claim_id_of (cs_kind (cc_scope (pc_claim_contract p))) (cs_id (cc_scope (pc_claim_contract p)));
  inv_policy k p : latest !! k = Some p -> ep_handoff_required (cc_expiry_policy (pc_claim_contract p)) = true;
  inv_exclusive k j p q : latest !! k = Some p -> latest !! j = Some q -> k ≠ j ->
    is_open (pc_claim_contract p) = true -> is_open (pc_claim_contract q) = true ->
    scopes_contend (cc_scope (pc_claim_contract p)) (cc_scope (pc_claim_contract q)) = false
}.

Lemma elem_of_claims_of rs c :
  claims_inv (latest_of rs) ->
  c ∈ claims_of rs <-> exists p, latest_of rs !! claim_key c = Some p /\ pc_claim_contract p = c.
Proof.
  intros Hinv. unfold claims_of. rewrite map_In_iff. setoid_rewrite elem_of_map_values. split.
  - intros (p & -> & [k Hp]). exists p. by rewrite (inv_key _ Hinv k p).
  - intros (p & Hp & <-). exists p. split; [done|]. by eexists.
Qed.

(** *** Canonical ids are injective *)

Lemma slug_no_dot k : "."%char ∉ to_bytes (scope_kind_slug k).
Proof. apply (bool_decide_unpack _). by destruct k; vm_compute. Qed.

Lemma slug_inj k j : scope_kind_slug k = scope_kind_slug j -> k = j.
Proof. by destruct k, j. Qed.

Lemma app_sep_inj {A} (x y : list A) c l k :
  c ∉ x -> c ∉ y -> (x ++ c :: l)%list = (y ++ c :: k)%list -> x = y /\ l = k.
Proof.
  revert y. induction x as [|a x IH]; intros [|b y] Hx Hy E; simpl in E; simplify_eq; try done.
  - destruct Hy. by left.
  - destruct Hx. by left.
  - destruct (IH y) as [-> ->]; [set_solver..|done|done].
Qed.

Lemma app_same_inj {A} (x y : list A) c : (x ++ c :: x)%list = (y ++ c :: y)%list -> x = y.
Proof.
  intros E. apply app_inj_1 in E as [-> _]; [done|].
  apply (f_equal length) in E. rewrite !length_app in E. simpl in E. lia.
Qed.

Lemma claim_id_of_inj k s j t : claim_id_of k s = claim_id_of j t -> k = j /\ s = t.
Proof.
  intros [= E]. apply (f_equal to_bytes) in E. rewrite !to_bytes_app in E.
  apply app_inv_head in E. apply app_sep_inj in E as [E1 E2]; [|apply slug_no_dot..].
  apply (f_equal of_bytes) in E1. rewrite !of_to_bytes in E1. apply slug_inj in E1.
  apply app_same_inj, (f_equal of_bytes) in E2. rewrite !of_to_bytes in E2.
  split; [done|]. destruct s, t. simpl in E2. congruence.
Qed.

(** *** Granting and updating keep the claims exclusive *)

Lemma open_blocks req now c :
  is_open c = true -> ep_handoff_required (cc_expiry_policy c) = true ->
  scopes_contend (cc_scope c) (req_scope req) = true -> blocks req now c = true.
Proof.
  intros Ho Hp Hs. unfold blocks, is_live, awaits_handoff, is_open in *. rewrite Hs, Hp, andb_true_r. simpl.
  destruct (csr_value (cc_status c)), (is_expired c now); done.
Qed.

Lemma claims_inv_insert latest p :
  claims_inv latest ->
  let c := pc_claim_contract p in
  cc_id c = claim_id_of (cs_kind (cc_scope c)) (cs_id (cc_scope c)) ->
  ep_handoff_required (cc_expiry_policy c) = true ->
  (forall j q, latest !! j = Some q -> j ≠ claim_key c -> is_open c = true ->
     is_open (pc_claim_contract q) = true -> scopes_contend (cc_scope c) (cc_scope (pc_claim_contract q)) = false) ->
  claims_inv (<[claim_key c := p]> latest).
Proof.
  intros [Hk Hi Hp He] c Hid Hpol Hex. split.
  - intros k q. rewrite lookup_insert_if. destruct (decide _); [naive_solver|]. apply Hk.
  - intros k q. rewrite lookup_insert_if. destruct (decide _); [naive_solver|]. apply Hi.
  - intros k q. rewrite lookup_insert_if. destruct (decide _); [naive_solver|]. apply Hp.
  - intros k j q r. rewrite !lookup_insert_if.
    destruct (decide (k = claim_key c)) as [->|Hkc], (decide (j = claim_key c)) as [->|Hjc]; try done.
    + intros [= <-] Hr _ Ho Ho'. by eapply Hex.
    + intros Hq [= <-] _ Ho Ho'. rewrite scopes_contend_sym. by eapply Hex.
    + intros. by eapply He.
Qed.

Lemma claims_inv_acquire rs req now c p :
  claims_inv (latest_of rs) -> acquire (claims_of rs) req now = Accepted c -> pc_claim_contract p = c ->
  claims_inv (<[claim_key c := p]> (latest_of rs)).
Proof.
  intros Hinv Hacq Hp. apply acquire_Accepted in Hacq as (Hb & _ & Hc).
  rewrite <- Hp. apply claims_inv_insert; [done| rewrite Hp, Hc; done..|]. rewrite Hp, Hc. simpl.
  intros j q Hj _ _ Ho. rewrite scopes_contend_sym. apply not_true_iff_false. intros Hs.
  assert (pc_claim_contract q ∈ claims_of rs) as Hin.
  { apply elem_of_claims_of; [done|]. rewrite (inv_key _ Hinv _ _ Hj). naive_solver. }
  rewrite Forall_forall in Hb. specialize (Hb _ Hin).
  rewrite (open_blocks req now) in Hb; [done|done|by eapply inv_policy|done].
Qed.

Lemma claims_inv_op latest k p q :
  claims_inv latest -> latest !! k = Some p -> claim_op (pc_claim_contract p) (pc_claim_contract q) ->
  k = claim_key (pc_claim_contract q) /\ claims_inv (<[k := q]> latest).
Proof.
  intros Hinv Hk Hop. apply claim_op_sound in Hop as [He (Hid & _ & Hs & Hpol)].
  assert (k = claim_key (pc_claim_contract q)) as Ek.
  { unfold claim_key. rewrite Hid. symmetry. by eapply inv_key. }
  split; [done|]. rewrite Ek. apply claims_inv_insert; [done| | |].
  - rewrite Hid, Hs. by eapply inv_id.
  - rewrite Hpol. by eapply inv_policy.
  - intros j r Hj Hne Ho Ho'. rewrite Hs. rewrite <- Ek in Hne. eapply inv_exclusive; [done|done|done|auto| |done].
    unfold is_open in *. inversion He as [s Hs'|Hs'|s Hs'|s Hs'|s Hs'|s Hs'|Hs']; subst;
      destruct (csr_value (cc_status (pc_claim_contract p))); try done;
      match goal with H : _ = csr_value (cc_status (pc_claim_contract q)) |- _ => by rewrite <- H in Ho end.
Qed.

(** *** The projection applies every record the engine accepts *)

Definition op_record (operation : ClaimWalOperation) (c d : ClaimContract) : Prop :=
  match operation with
  | ClaimWalOperation_Acquire => False
  | ClaimWalOperation_Heartbeat => exists agent now, heartbeat c agent now = Accepted d
  | ClaimWalOperation_Release => exists agent now, release c agent now = Accepted d
  | ClaimWalOperation_HandoffRecorded => exists req now, record_handoff c req now = Accepted d
  | ClaimWalOperation_ReconcileStatus => exists now t, reconcile_claim c now = Some t /\ d = crt_updated t
  end.

Lemma op_record_claim_op operation c d : op_record operation c d -> claim_op c d.
Proof.
  destruct operation; simpl; [done|..]; intros (x & y & Hop); [by econstructor|by econstructor|by econstructor|].
  destruct Hop as [Ht ->]. by econstructor.
Qed.

Lemma op_record_accepted latest r p operation :
  op_record operation (pc_claim_contract p) (record_claim r) -> wr_operation r = operation ->
  latest !! claim_key (record_claim r) = Some p ->
  record_accepted latest r = true /\ record_ok r = true.
Proof.
  intros Hop Ho Hl. pose proof (op_record_claim_op _ _ _ Hop) as Hc.
  apply claim_op_sound in Hc as [_ (_ & Hcl & _ & _)].
  assert (claim_agent (pc_claim_contract p) = claim_agent (record_claim r)) as Hag by (unfold claim_agent; by rewrite Hcl).
  unfold record_accepted, record_ok, operation_matches_status, claim_status. rewrite Ho, Hl, Hag.
  rewrite bool_decide_eq_true_2 by done. rewrite andb_true_r.
  destruct operation; simpl in Hop; [done|..]; destruct Hop as (x & now & Hop).
  - apply release_Accepted in Hop as (_ & Hs & _ & ->). done.
  - apply heartbeat_Accepted in Hop as (_ & Hl' & _ & ->). unfold is_live in Hl'. by bool_simpl.
  - apply record_handoff_Accepted in Hop as (_ & _ & Ha & ->). split; [|done].
    unfold awaits_handoff, is_open in *. by destruct (csr_value (cc_status (pc_claim_contract p))).
  - destruct Hop as [Ht Hd]. apply reconcile_claim_Some in Ht as (to & reason & -> & Hs & Hcase).
    split; [done|]. rewrite Hd. simpl. destruct Hcase as [(_ & -> & _)|(_ & _ & -> & _)]; [|done].
    by destruct (ep_handoff_required _).
Qed.

(** ** Loading, persisting and every command keep the bus in good order *)

Definition bus_log (st : BusState) : bytes := default [] (bs_wal st).

(** The disk holds an image of the log [good] of [rs], whose claims are exclusive. *)
Record bus_ok (st : BusState) (rs : list ClaimWalRecord) (good : bytes) : Prop := {
  bus_image : wal_image rs good (bus_log st);
  bus_records : Forall (fun r => record_ok r = true) rs;
  bus_claims : claims_inv (latest_of rs);
  bus_cache_backed : bs_wal st = None -> bs_cache st = ∅;
  bus_small : (Z.of_nat (length good) <= DEFAULT_ROTATE_MAX_WAL_BYTES)%Z
}.

Section inv.
Context {laws : WalCodecLaws codec} (dir : WalDirectory).
Hypothesis no_residue : wd_unselected_residue dir = false.

Lemma recovered_claims r rs :
  Forall (fun r => record_ok r = true) rs -> rc_records r = rs -> rc_checkpoint r = None ->
  pj_claims (project_claim_wal_recovery r) = claims_of rs.
Proof.
  intros Hrs Hr Hc. unfold project_claim_wal_recovery.
  destruct (build_active_indexes _) as [[? ?] ?]. simpl. unfold claims_of, latest_of, accumulate.
  rewrite Hc, Hr. by rewrite (proj2 (fold_records _ rs acc_ok_default Hrs)).
Qed.

Lemma derive_state_image rs good b :
  Forall (fun r => record_ok r = true) rs -> wal_image rs good b -> roomy b ->
  exists pj, derive_state dir b = (Ok pj, good) /\ pj_claims pj = claims_of rs.
Proof.
  intros Hrs Hi Hr. unfold derive_state.
  destruct (recover_read dir rs good b no_residue Hi Hr) as (r & -> & Hrec & Hck & [[-> Hs]|[_ Hs]]).
  - rewrite Hs. eexists. split; [done|]. by apply recovered_claims.
  - assert (wal_image rs good good) as Hi' by (constructor; by eapply wal_image_log).
    assert (roomy good) as Hr' by (pose proof (wal_image_length _ _ _ Hi); unfold roomy in *; lia).
    destruct (recover_repair dir rs good b no_residue Hi Hr) as (r1 & E1 & _ & _).
    destruct (recover_read dir rs good good no_residue Hi' Hr')
      as (r2 & E2 & Hr2 & Hk2 & [[_ Hs2]|[? _]]); [|done].
    rewrite E1, E2, bool_decide_eq_true_2 by done.
    destruct Hs as [-> | ->]; (eexists; split; [done|]; by apply recovered_claims).
Qed.

Lemma ok_roomy st rs good : bus_ok st rs good -> roomy (bus_log st) /\ roomy good.
Proof.
  intros [Hi _ _ _ Hs]. pose proof (wal_image_bound _ _ _ Hi). pose proof (wal_image_length _ _ _ Hi).
  unfold roomy, DEFAULT_ROTATE_MAX_WAL_BYTES, DEFAULT_MAX_PAYLOAD_LEN, i64_max in *. lia.
Qed.

(** Loading an ordered bus never fails; it yields the claims of the log and leaves it intact. *)
Lemma load_ok st rs good :
  bus_ok st rs good ->
  exists st', load_claims dir st = (Ok (claims_of rs), st') /\ bus_ok st' rs good /\ bs_rotation st' = bs_rotation st.
Proof.
  intros Hok. destruct (ok_roomy _ _ _ Hok) as [Hr _]. destruct Hok as [Hi Hrs Hc Hb Hs].
  unfold load_claims, bus_log in *. destruct (bs_wal st) as [b|] eqn:Hw; simpl in *.
  - destruct (derive_state_image rs good b Hrs Hi Hr) as (pj & -> & ->). eexists. split; [done|].
    split; [|done]. split; try done. simpl. constructor. by eapply wal_image_log.
  - rewrite bool_decide_eq_true_2 by auto.
    assert (good = []) as -> by (apply length_zero_iff_nil; pose proof (wal_image_length _ _ _ Hi); simpl in *; lia).
    assert (rs = []) as ->.
    { apply length_zero_iff_nil. pose proof (wal_log_len _ _ (wal_image_log _ _ _ Hi)). simpl in *. lia. }
    exists st. split; [done|]. split; [|done].
    split; [unfold bus_log; by rewrite Hw | done | done | auto | done].
Qed.

(** The record a persisted mutation writes. *)
Definition is_record_of (operation : ClaimWalOperation) (claim : ClaimContract) (r : ClaimWalRecord) : Prop :=
  wr_operation r = operation /\ record_claim r = claim.

(** A rotation that was begun stays recorded. *)
Lemma persist_unrotated st operation claim at_ io :
  unrotated (persist_claim_mutation dir st operation claim at_ io).2 -> unrotated st.
Proof.
  unfold unrotated, persist_claim_mutation. destruct (append_claim_wal_record _ _ _ _ _ _) as [[a|e] b']; simpl; [|done].
  destruct (_ <=? _)%nat; simpl; [|done]. destruct (_ && _); simpl; by destruct (bs_rotation st).
Qed.

Lemma persist_ok st rs good operation claim at_ io :
  bus_ok st rs good ->
  (forall r, is_record_of operation claim r ->
     record_ok r = true /\ claims_inv (fold_latest (latest_of rs) r)) ->
  unrotated (persist_claim_mutation dir st operation claim at_ io).2 ->
  exists rs' good',
    bus_ok (persist_claim_mutation dir st operation claim at_ io).2 rs' good'
    /\ (rs' = rs \/ exists r, is_record_of operation claim r /\ rs' = (rs ++ [r])%list)
    /\ ((persist_claim_mutation dir st operation claim at_ io).1 = true ->
        exists r, is_record_of operation claim r /\ rs' = (rs ++ [r])%list).
Proof.
  intros Hok Hrec Hrot. pose proof (persist_unrotated _ _ _ _ _ Hrot) as Hrot0.
  destruct (ok_roomy _ _ _ Hok) as [Hr _]. destruct Hok as [Hi Hrs Hc Hb Hs]. pose proof (wal_image_length _ _ _ Hi) as Hle.
  pose proof (append_image dir rs good (bus_log st) operation claim at_ (io_recovery_elapsed_ms io) no_residue Hi Hr) as Happ.
  pose proof (wal_image_log _ _ _ Hi) as Hlog. revert Hrot.
  unfold persist_claim_mutation, unrotated in *. fold (bus_log st). rewrite Hrot0.
  destruct (append_claim_wal_record dir (bus_log st) operation claim at_ _) as [[a|e] b'].
  - destruct Happ as (-> & v & Hv & Hlen & Hseq & Ha & Hsmall). rewrite Ha in *.
    set (p := {| wp_schema_version := "0.1"; wp_operation := operation; wp_recorded_at := at_;
                 wp_claim_contract := claim |}) in *.
    set (rec := record_bytes (next_seq rs) (record_type operation) v) in *.
    assert (is_record_of operation claim (log_record good rs p v)) as Hir by done.
    set (written := default (length rec) (io_written io)).
    pose proof (write_image rs good p v written Hlog Hv Hlen Hseq) as Hw.
    cbv zeta in Hw. change (wp_operation p) with operation in Hw. fold rec in Hw.
    destruct (Nat.leb_spec (length rec) written) as [Hk|Hk].
    + intros Hrot. exists (rs ++ [log_record good rs p v])%list, (good ++ rec)%list.
      destruct (Hrec _ Hir) as [Hokr Hinv].
      assert (claims_inv (latest_of (rs ++ [log_record good rs p v]))) as Hinv'.
      { unfold latest_of in *. by rewrite foldl_app. }
      assert (Forall (fun r => record_ok r = true) (rs ++ [log_record good rs p v])) as Hrs'
        by (apply Forall_app; split; [done | by constructor]).
      assert (wa_rotation a = None) as Hnone by (destruct (_ && _) in Hrot; exact Hrot).
      specialize (Hsmall Hnone).
      assert (forall cache rotation, bus_ok {| bs_wal := Some (good ++ take written rec)%list; bs_cache := cache; bs_rotation := rotation |}
                (rs ++ [log_record good rs p v]) (good ++ rec)) as Hbus by (intros cache rotation; split; [exact Hw | done..]).
      destruct (io_append_reported io && io_cache_written io); simpl;
        (split; [apply Hbus | split; [right | intros _]; by exists (log_record good rs p v)]).
    + intros _. exists rs, good. simpl. split; [by split|]. split; [by left|done].
  - intros _. destruct Happ as [-> _]. exists rs, good. simpl. split; [|split; [by left | done]].
    split; try done; unfold bus_log; simpl.
    + destruct (bs_wal st) as [b|] eqn:Hw; simpl; [by constructor|].
      assert (good = []) as <-; [|by constructor]. apply length_zero_iff_nil.
      unfold bus_log in Hle. rewrite Hw in Hle. simpl in Hle. lia.
    + intros Hn. apply Hb. by destruct (bs_wal st).
Qed.

(** What a command leaves, unless it began a rotation: an ordered bus, whose log holds every claim
    it acknowledged. *)
Definition step_good (res : CliEnvelope ClaimContract * BusState) : Prop :=
  unrotated res.2 ->
  exists rs good, bus_ok res.2 rs good
    /\ forall c, res.1 = EnvOk c -> exists p, latest_of rs !! claim_key c = Some p /\ pc_claim_contract p = c.

(** A refusal or a failure before the append leaves the loaded bus. *)
Lemma step_good_keep st rs good env : bus_ok st rs good -> (forall c, env ≠ EnvOk c) -> step_good (env, st).
Proof. intros Hok Hne _. exists rs, good. split; [done|]. intros c E. by destruct (Hne c). Qed.

Lemma latest_of_snoc rs r :
  latest_of (rs ++ [r]) = fold_latest (latest_of rs) r.
Proof. unfold latest_of. by rewrite foldl_app. Qed.

(** A persisted mutation whose record the projection applies. *)
Lemma step_good_persist st rs good operation claim at_ io :
  bus_ok st rs good ->
  (forall r, is_record_of operation claim r ->
     record_ok r = true /\ record_accepted (latest_of rs) r = true
     /\ claims_inv (<[claim_key claim := projected_claim r]> (latest_of rs))) ->
  step_good (let '(done_, st) := persist_claim_mutation dir st operation claim at_ io in
             (if done_ then EnvOk claim else EnvConfig, st)).
Proof.
  intros Hok Hrec Hrot. pose proof (persist_ok st rs good operation claim at_ io Hok) as Hp.
  destruct (persist_claim_mutation dir st operation claim at_ io) as [done_ st']. simpl in *.
  destruct Hp as (rs' & good' & Hok' & _ & Hdone); [|done|].
  - intros r Hir. destruct (Hrec r Hir) as (H1 & H2 & H3). split; [done|].
    unfold fold_latest. by rewrite H2, (proj2 Hir).
  - exists rs', good'. split; [done|]. simpl. intros c E. destruct done_; [|done]. simplify_eq.
    destruct (Hdone eq_refl) as (r & Hir & ->). destruct (Hrec r Hir) as (_ & H2 & _).
    exists (projected_claim r). rewrite latest_of_snoc. unfold fold_latest. rewrite H2, (proj2 Hir).
    rewrite lookup_insert_eq. split; [done | apply Hir].
Qed.

Lemma run_acquire_good st rs good req now io :
  bus_ok st rs good -> step_good (run_acquire dir st req now io).
Proof.
  intros Hok. unfold run_acquire.
  destruct (is_reserved_claim_prefix _); [by eapply step_good_keep|].
  destruct (io_lock io); simpl; [|by eapply step_good_keep].
  destruct (load_ok st rs good Hok) as (st1 & -> & Hok1 & _).
  destruct (acquire (claims_of rs) req now) as [c|reason] eqn:Ha; [|by eapply step_good_keep].
  apply (step_good_persist st1 rs good); [done|].
  intros r [Ho Hc]. unfold record_ok, record_accepted. rewrite Ho, Hc. split; [|split; [done|]].
  - apply acquire_Accepted in Ha as (_ & _ & ->). done.
  - eapply claims_inv_acquire; [apply Hok|done|]. done.
Qed.

Lemma op_record_step rs c operation claim r :
  claims_inv (latest_of rs) -> c ∈ claims_of rs -> op_record operation c claim -> is_record_of operation claim r ->
  record_ok r = true /\ record_accepted (latest_of rs) r = true
  /\ claims_inv (<[claim_key claim := projected_claim r]> (latest_of rs)).
Proof.
  intros Hinv Hin Hop [Ho Hc]. apply elem_of_claims_of in Hin as (p & Hp & <-); [|done].
  destruct (claims_inv_op (latest_of rs) (claim_key (pc_claim_contract p)) p (projected_claim r)) as [Hk Hinv'];
    [done|done| |].
  { simpl. rewrite Hc. by eapply op_record_claim_op. }
  simpl in Hk. rewrite Hc in Hk. rewrite Hk in Hp, Hinv'.
  destruct (op_record_accepted (latest_of rs) r p operation) as [? ?]; [by rewrite Hc|done|by rewrite Hc|]. done.
Qed.

Lemma resolve_claim_In claims r c : resolve_claim claims r = Some c -> c ∈ claims.
Proof. destruct r; simpl; intros Hf; by apply find_some_In in Hf as [? _]. Qed.

Lemma run_on_target_good st rs good id io operation decide_ at_ artifact :
  (forall target updated, decide_ target = Accepted updated -> op_record operation target updated) ->
  bus_ok st rs good ->
  step_good (run_on_target dir st id io operation decide_ at_ artifact).
Proof.
  intros Hdec Hok. unfold run_on_target.
  destruct (io_lock io); simpl; [|by eapply step_good_keep].
  destruct (load_ok st rs good Hok) as (st1 & -> & Hok1 & _).
  destruct (resolve_claim _ _) as [target|] eqn:Ht; [|by eapply step_good_keep].
  destruct (decide_ target) as [updated|reason] eqn:Hd; [|by eapply step_good_keep].
  destruct (artifact && negb (io_artifact io)); [by eapply step_good_keep|].
  apply (step_good_persist st1 rs good); [done|].
  intros r Hir. eapply op_record_step; [apply Hok|by eapply resolve_claim_In|by apply Hdec|done].
Qed.

(** Transitions still to be written: each comes from a claim that is still the latest of its id. *)
Definition pending (rs : list ClaimWalRecord) (now : Z) (ts : list ClaimReconcileTransition) : Prop :=
  NoDup (map (fun t => claim_key (crt_updated t)) ts)
  /\ Forall (fun t => exists c, c ∈ claims_of rs /\ reconcile_claim c now = Some t) ts.

Lemma reconcile_key c now t : reconcile_claim c now = Some t -> claim_key (crt_updated t) = claim_key c.
Proof. intros Ht. apply reconcile_claim_Some in Ht as (to & reason & -> & _). done. Qed.

Lemma pending_start rs now : claims_inv (latest_of rs) -> pending rs now (crr_transitions (reconcile_claims (claims_of rs) now)).
Proof.
  intros Hinv. split.
  - assert (NoDup (map claim_key (claims_of rs))) as Hnd.
    { assert (map claim_key (claims_of rs) = map_keys (latest_of rs)) as ->; [|apply NoDup_map_keys].
      unfold claims_of, map_values. rewrite map_map.
      assert (forall k, k ∈ map_keys (latest_of rs) -> is_Some (latest_of rs !! k)) as Hs
        by (intros k; apply elem_of_map_keys).
      induction (map_keys (latest_of rs)) as [|k l IH]; [done|]. simpl.
      destruct (Hs k) as [p Hp]; [by left|]. rewrite Hp. simpl.
      rewrite (inv_key _ Hinv _ _ Hp). f_equal. apply IH. intros j Hj. apply Hs. by right. }
    simpl. induction (claims_of rs) as [|c l IH]; simpl; [constructor|].
    apply NoDup_cons in Hnd as [Hc Hnd]. destruct (reconcile_claim c now) as [t|] eqn:Ht; [|by apply IH].
    simpl. apply NoDup_cons. split; [|by apply IH]. rewrite (reconcile_key _ _ _ Ht). intros Hin. apply Hc.
    apply map_In_iff in Hin as (t' & E & Ht'). apply list_elem_of_omap in Ht' as (d & Hd & Hdt).
    apply map_In_iff. exists d. split; [|done]. by rewrite E, (reconcile_key _ _ _ Hdt).
  - apply Forall_forall. intros t Ht. simpl in Ht. apply list_elem_of_omap in Ht as (c & Hc & Ht). by exists c.
Qed.

Lemma transitions_unrotated ts ios st : unrotated (persist_transitions dir st ts ios).2 -> unrotated st.
Proof.
  revert ios st. induction ts as [|t ts IH]; intros ios st; simpl; [done|].
  pose proof (persist_unrotated st ClaimWalOperation_ReconcileStatus (crt_updated t)
    (csr_evaluated_at (cc_status (crt_updated t))) (hd io_success ios)) as Hp.
  destruct (persist_claim_mutation _ _ _ _ _ _) as [[] st']; simpl in *; [|done]. intros Hu. by apply Hp, (IH (tl ios)).
Qed.

Lemma persist_transitions_ok now ts ios st rs good :
  bus_ok st rs good -> pending rs now ts -> unrotated (persist_transitions dir st ts ios).2 ->
  exists rs' good', bus_ok (persist_transitions dir st ts ios).2 rs' good'.
Proof.
  revert ios st rs good. induction ts as [|t ts IH]; intros ios st rs good Hok [Hnd Hp] Hrot; simpl in *; [by eauto|].
  apply NoDup_cons in Hnd as [Hnt Hnd]. apply Forall_cons in Hp as [(c & Hc & Ht) Hp].
  assert (forall r, is_record_of ClaimWalOperation_ReconcileStatus (crt_updated t) r ->
    record_ok r = true /\ record_accepted (latest_of rs) r = true
    /\ claims_inv (<[claim_key (crt_updated t) := projected_claim r]> (latest_of rs))) as Hrec.
  { intros r Hir. eapply op_record_step; [apply Hok|done| |done]. by exists now, t. }
  pose proof (persist_ok st rs good ClaimWalOperation_ReconcileStatus (crt_updated t)
    (csr_evaluated_at (cc_status (crt_updated t))) (hd io_success ios) Hok) as Hpk.
  destruct (persist_claim_mutation _ _ _ _ _ _) as [done_ st']. simpl in *.
  assert (unrotated st') as Hrot' by (destruct done_; [by eapply transitions_unrotated|done]).
  destruct Hpk as (rs' & good' & Hok' & _ & Hdone); [|done|].
  { intros r Hir. destruct (Hrec r Hir) as (H1 & H2 & H3). split; [done|].
    unfold fold_latest. by rewrite H2, (proj2 Hir). }
  destruct done_; [|by eauto]. destruct (Hdone eq_refl) as (r & Hir & ->).
  apply (IH (tl ios) st' _ good' Hok'); [|done]. split; [done|].
  apply Forall_forall. intros t' Ht'. rewrite Forall_forall in Hp. destruct (Hp t' Ht') as (d & Hd & Hdt).
  exists d. split; [|done]. apply elem_of_claims_of; [apply Hok'|].
  apply elem_of_claims_of in Hd as (q & Hq & <-); [|apply Hok]. exists q. split; [|done].
  rewrite latest_of_snoc. destruct (Hrec r Hir) as (_ & H2 & _). unfold fold_latest. rewrite H2, (proj2 Hir).
  rewrite lookup_insert_ne; [done|]. rewrite <- (reconcile_key _ _ _ Hdt). intros E. apply Hnt.
  rewrite E. apply map_In_iff. by exists t'.
Qed.

(** An ordered bus, unless a rotation was begun. *)
Definition bus_good (st : BusState) : Prop := unrotated st -> exists rs good, bus_ok st rs good.

Lemma run_reconcile_good st rs good now lock ios :
  bus_ok st rs good -> bus_good (run_reconcile_once dir st now lock ios).2.
Proof.
  intros Hok. unfold run_reconcile_once, bus_good.
  destruct lock; simpl; [|by eauto].
  destruct (load_ok st rs good Hok) as (st1 & -> & Hok1 & _).
  pose proof (persist_transitions_ok now (crr_transitions (reconcile_claims (claims_of rs) now)) ios st1 rs good Hok1
    (pending_start rs now (bus_claims _ _ _ Hok))) as Hp.
  destruct (persist_transitions _ _ _ _) as [done_ st']. simpl in *. by intros Hu%Hp.
Qed.

Lemma bus_step_ok st st' rs good :
  bus_ok st rs good -> bus_step dir st st' -> bus_good st'.
Proof.
  intros Hok Hs Hrot. destruct Hs as [req now io Hb|id agent now io Hb|id agent now io Hb
    |id agent summary refs now io Hb|now lock ios Hb].
  - destruct (run_acquire_good st rs good req now io Hok Hrot) as (rs' & good' & ? & _). eauto.
  - edestruct (run_on_target_good st rs good id io ClaimWalOperation_Heartbeat) as (rs' & good' & Hok' & _);
      [|done|exact Hrot|do 2 eexists; exact Hok']. simpl. eauto.
  - edestruct (run_on_target_good st rs good id io ClaimWalOperation_Release) as (rs' & good' & Hok' & _);
      [|done|exact Hrot|do 2 eexists; exact Hok']. simpl. eauto.
  - edestruct (run_on_target_good st rs good id io ClaimWalOperation_HandoffRecorded) as (rs' & good' & Hok' & _);
      [|done|exact Hrot|do 2 eexists; exact Hok']. simpl. eauto.
  - by apply (run_reconcile_good st rs good now lock ios Hok).
Qed.

Lemma bus_initial_ok : bus_ok bus_initial [] [].
Proof.
  split; [constructor; constructor | constructor | | done | done].
  split; intros; unfold latest_of in *; simpl in *; rewrite ?lookup_empty in *; done.
Qed.

Lemma bus_reachable_ok st : bus_reachable dir st -> bus_good st.
Proof.
  intros Hr. unfold bus_reachable in Hr.
  assert (bus_good bus_initial) as Hgood by (intros _; exists [], []; apply bus_initial_ok).
  revert Hgood. induction Hr as [a|a b c Hab _ IH]; [done|]. intros Hgood. apply IH.
  assert (unrotated a) as Ha by (by destruct Hab). destruct (Hgood Ha) as (rs & good & Hok). by eapply bus_step_ok.
Qed.

End inv.

End bus.

(** ** Claims about the bus *)

(** A command that reported success for the claim [c]. *)
Inductive bus_ack `{ToLowercase} {codec : WalCodec} (dir : WalDirectory) (st : BusState)
    : ClaimContract -> BusState -> Prop :=
| ack_acquire req now io c st' : run_acquire dir st req now io = (EnvOk c, st') -> bus_ack dir st c st'
| ack_heartbeat id agent now io c st' : run_heartbeat dir st id agent now io = (EnvOk c, st') -> bus_ack dir st c st'
| ack_release id agent now io c st' : run_release dir st id agent now io = (EnvOk c, st') -> bus_ack dir st c st'
| ack_handoff id agent summary refs now io c st' :
    run_handoff dir st id agent summary refs now io = (EnvOk c, st') -> bus_ack dir st c st'.

Lemma bus_ack_good `{ToLowercase} {codec : WalCodec} {laws : WalCodecLaws codec} dir st rs good c st' :
  wd_unselected_residue dir = false -> bus_ok st rs good -> bus_ack dir st c st' -> step_good (EnvOk c, st').
Proof.
  intros Hres Hok Ha.
  destruct Ha as [req now io c st' E|id agent now io c st' E|id agent now io c st' E
    |id agent summary refs now io c st' E]; rewrite <- E.
  - by apply (run_acquire_good dir Hres st rs good).
  - apply (run_on_target_good dir Hres st rs good); [|done]. simpl. eauto.
  - apply (run_on_target_good dir Hres st rs good); [|done]. simpl. eauto.
  - apply (run_on_target_good dir Hres st rs good); [|done]. simpl. eauto.
Qed.

(** The claims loaded from a reachable bus, as [bus_mutual_exclusion] describes them. *)
Lemma bus_loaded_exclusive `{ToLowercase} {codec : WalCodec} {laws : WalCodecLaws codec} dir st claims st' :
  wd_unselected_residue dir = false -> bus_reachable dir st -> unrotated st ->
  load_claims dir st = (Ok claims, st') ->
  (forall c d, c ∈ claims -> d ∈ claims -> cc_id c = cc_id d -> c = d)
  /\ (forall c d, c ∈ claims -> d ∈ claims -> c ≠ d -> is_open c = true -> is_open d = true ->
        scopes_contend (cc_scope c) (cc_scope d) = false).
Proof.
  intros Hres Hreach Hb E. destruct (bus_reachable_ok dir Hres st Hreach Hb) as (rs & good & Hok).
  destruct (load_ok dir Hres st rs good Hok) as (st1 & E1 & Hok' & _).
  rewrite E1 in E. simplify_eq. destruct Hok as [_ _ Hinv _ _].
  assert (forall c d, c ∈ claims_of rs -> d ∈ claims_of rs -> claim_key c = claim_key d -> c = d) as Huniq.
  { intros c d Hc Hd E'. apply elem_of_claims_of in Hc as (p & Hp & <-), Hd as (q & Hq & <-); [|done..].
    congruence. }
  split.
  - intros c d Hc Hd Eid. apply Huniq; [done..|]. unfold claim_key. by rewrite Eid.
  - intros c d Hc Hd Hne Ho Ho'. pose proof Hc as Hc'. pose proof Hd as Hd'.
    apply elem_of_claims_of in Hc' as (p & Hp & Ep), Hd' as (q & Hq & Eq); [|done..].
    rewrite <- Ep, <- Eq in *. eapply inv_exclusive; [done..| |done|done].
    intros E'. apply Hne. by apply Huniq.
Qed.

(** A directory where an interrupted rotation left its files beside a log that selects no checkpoint:
    loading fails, and no command grants or changes a claim. *)
Lemma residue_refuses `{ToLowercase} {codec : WalCodec} dir st b :
  wd_unselected_residue dir = true -> bs_wal st = Some b ->
  rc_checkpoint (decode_prefix b (Some (wd_authority dir))) = None ->
  (exists last len, load_claims dir st = (Err (LoadDeriveState (RecoveryStopped CheckpointGenerationInvalid last len)), st))
  /\ (forall req now io, (run_acquire dir st req now io).2 = st /\ forall c, (run_acquire dir st req now io).1 ≠ EnvOk c)
  /\ (forall c st', ~ bus_ack dir st c st').
Proof.
  intros Hres Hw Hck.
  assert (exists last len, load_claims dir st = (Err (LoadDeriveState (RecoveryStopped CheckpointGenerationInvalid last len)), st)) as Hload.
  { unfold load_claims, derive_state, recover_claim_wal. rewrite Hw, Hck, Hres. simpl. do 2 eexists. f_equal.
    by destruct st; simpl in *; subst. }
  assert (forall req now io, (run_acquire dir st req now io).2 = st /\ forall c, (run_acquire dir st req now io).1 ≠ EnvOk c) as Hacq.
  { intros req now io. unfold run_acquire. destruct Hload as (last & len & ->).
    destruct (is_reserved_claim_prefix _); [done|]. by destruct (io_lock io). }
  split; [done|]. split; [done|]. intros c st' Ha.
  assert (forall id io operation decide_ at_ artifact, (run_on_target dir st id io operation decide_ at_ artifact).1 ≠ EnvOk c) as Hon.
  { intros id io operation decide_ at_ artifact. unfold run_on_target. destruct Hload as (last & len & ->). by destruct (io_lock io). }
  destruct Ha as [req now io c st' E|id agent now io c st' E|id agent now io c st' E|id agent summary refs now io c st' E];
    apply (f_equal fst) in E; [by eapply (proj2 (Hacq req now io))|by eapply Hon in E..].
Qed.

(** C3: mutual exclusion end to end.  From an empty bus, after any sequence of acquire, heartbeat,
    release, handoff and reconcile commands, at any clock readings, with any I/O failures and with
    any append cut short by a crash, and as long as none of these appends went on to rotate the log
    (by the thresholds of [rotation_due]: over 64 MiB, over 100,000 records, or a recovery of over
    250 ms), loading the claims succeeds, no claim id appears twice, and no two distinct claims that
    are Active, Stale or awaiting their handoff share a scope or own overlapping paths. *)
Theorem bus_mutual_exclusion `{ToLowercase} {codec : WalCodec} {laws : WalCodecLaws codec} dir st :
  wd_unselected_residue dir = false -> bus_reachable dir st -> unrotated st ->
  exists claims st', load_claims dir st = (Ok claims, st')
    /\ (forall c d, c ∈ claims -> d ∈ claims -> cc_id c = cc_id d -> c = d)
    /\ (forall c d, c ∈ claims -> d ∈ claims -> c ≠ d -> is_open c = true -> is_open d = true ->
          scopes_contend (cc_scope c) (cc_scope d) = false).
Proof.
  intros Hres Hreach Hb. destruct (bus_reachable_ok dir Hres st Hreach Hb) as (rs & good & Hok).
  destruct (load_ok dir Hres st rs good Hok) as (st' & E & _).
  exists (claims_of rs), st'. split; [done|]. by eapply bus_loaded_exclusive.
Qed.

(** C17: acknowledged mutations are durable and visible.  Whenever a command on a reachable bus
    reports success for a claim, and it did not go on to rotate the log, the claims loaded next
    contain exactly that claim. *)
Theorem acknowledged_is_durable `{ToLowercase} {codec : WalCodec} {laws : WalCodecLaws codec} dir st c st' :
  wd_unselected_residue dir = false -> bus_reachable dir st -> unrotated st -> bus_ack dir st c st' ->
  unrotated st' ->
  exists claims st'', load_claims dir st' = (Ok claims, st'') /\ c ∈ claims.
Proof.
  intros Hres Hreach Hb Ha Hb'. destruct (bus_reachable_ok dir Hres st Hreach Hb) as (rs & good & Hok).
  destruct (bus_ack_good dir st rs good c st' Hres Hok Ha Hb') as (rs' & good' & Hok' & Hc). simpl in *.
  destruct (load_ok dir Hres st' rs' good' Hok') as (st'' & E & _ & _).
  exists (claims_of rs'), st''. split; [done|]. apply elem_of_claims_of; [apply Hok'|]. by apply Hc.
Qed.

(** ** A concrete run *)

Module Example.

#[local] Existing Instance ascii_lowercase.

Definition req_s1 : AcquireRequest := {|
  ar_scope_kind := ClaimScopeKind_Story; ar_scope_id := mk_ScopeId "s1"; ar_principal_id := None;
  ar_agent_id := mk_StableId "agent-a"; ar_role := ActorRole_Worker; ar_ttl_seconds := 600;
  ar_heartbeat_interval_seconds := 60; ar_paths := [mk_RepoPath "src/Core"]; ar_product_area := None;
  ar_expected_state_version := None |}%list.

Definition t0 : Z := 1700000000.
Definition claim_s1 : ClaimContract := new_claim req_s1 t0 (t0 + 600).

Definition payload_s1 : ClaimWalPayload := {|
  wp_schema_version := "0.1"; wp_operation := ClaimWalOperation_Acquire;
  wp_recorded_at := cl_acquired_at (cc_lease claim_s1); wp_claim_contract := claim_s1 |}.

#[export] Instance codec_s1 : WalCodec := TableCodec.codec [payload_s1]%list.
#[export] Instance codec_s1_laws : WalCodecLaws codec_s1 := TableCodec.codec_laws [payload_s1]%list.

(** The bus after one acquire. *)
Definition bus_s1 : BusState :=
  Eval vm_compute in (run_acquire TableCodec.fresh_directory bus_initial req_s1 t0 io_success).2.

Lemma bus_s1_run :
  run_acquire TableCodec.fresh_directory bus_initial req_s1 t0 io_success = (EnvOk claim_s1, bus_s1).
Proof. vm_compute. reflexivity. Qed.

Lemma bus_s1_reachable : bus_reachable TableCodec.fresh_directory bus_s1.
Proof.
  apply rtc_once. pose proof (step_acquire TableCodec.fresh_directory bus_initial req_s1 t0 io_success) as Hs.
  rewrite bus_s1_run in Hs. apply Hs. by vm_compute.
Qed.

End Example.

Lemma bus_mutual_exclusion_witness :
  exists claims st', load_claims (codec := Example.codec_s1) TableCodec.fresh_directory Example.bus_s1 = (Ok claims, st').
Proof.
  destruct (@bus_mutual_exclusion ascii_lowercase Example.codec_s1 Example.codec_s1_laws
    TableCodec.fresh_directory Example.bus_s1 eq_refl Example.bus_s1_reachable) as (claims & st' & E & _).
  - by vm_compute.
  - by exists claims, st'.
Defined.

Lemma acknowledged_is_durable_witness :
  exists claims st', load_claims (codec := Example.codec_s1) TableCodec.fresh_directory Example.bus_s1 = (Ok claims, st')
    /\ Example.claim_s1 ∈ claims.
Proof.
  apply (@acknowledged_is_durable ascii_lowercase Example.codec_s1 Example.codec_s1_laws
    TableCodec.fresh_directory bus_initial Example.claim_s1 Example.bus_s1 eq_refl).
  - apply rtc_refl.
  - by vm_compute.
  - eapply ack_acquire. exact Example.bus_s1_run.
  - by vm_compute.
Defined.
