(* ===== verification/WriteCheck.v ===== *)
(** * The write gate

    [forge-core-decisions/src/conflict_detection.rs] on top of [PathScope]: classifying the
    targets of a write against the live claims, and [run_check_write] of
    [forge-core-cli/src/claim.rs], the command an agent calls before it edits a file. *)

From S2P Require Import Prelude RustStr BTree Contracts PathScope ClaimEngine WalFrame ClaimWal ClaimProjection ClaimBus.

Record BlockDetail := {
  bd_blocked_path : RepoPath;
  bd_blocking_claim_id : ClaimId;
  bd_claimant : StableId;
  bd_claimant_principal_id : option PrincipalId;
  bd_conflict_code : ConflictCode
}.

Inductive WriteCheck :=
| WriteCheck_Ok (governed_by_self ungoverned : list RepoPath)
| WriteCheck_Blocked (blocks : list BlockDetail).

Definition is_blocked (w : WriteCheck) : bool :=
  match w with WriteCheck_Blocked _ => true | WriteCheck_Ok _ _ => false end.

Inductive TargetClass :=
| Ungoverned
| GovernedBySelf
| BlockedBy (detail : BlockDetail).

Section write_check.
Context `{ToLowercase}.

Definition scope_covers_any (claim : ClaimContract) (target_segments : list string) : bool :=
  existsb (fun p => claim_path_covers (RepoPath_0 p) target_segments) (cs_paths (cc_scope claim)).

Definition principal_matches (writer_principal_id : option PrincipalId) (claim : ClaimContract) : bool :=
  match writer_principal_id with
  | None => true
  | Some principal_id => bool_decide (ci_claimant_principal_id (cc_claim claim) = Some principal_id)
  end.

Definition block_detail (raw_target : RepoPath) (claim : ClaimContract) : BlockDetail := {|
  bd_blocked_path := raw_target; bd_blocking_claim_id := cc_id claim;
  bd_claimant := ci_claimant_agent_id (cc_claim claim);
  bd_claimant_principal_id := ci_claimant_principal_id (cc_claim claim);
  bd_conflict_code := ConflictCode_WriteTargetClaimed |}.

(** The loop of [classify_target]. *)
Fixpoint classify_loop (raw_target : RepoPath) (target_segments : list string) (claims : list ClaimContract)
    (writer_principal_id : option PrincipalId) (writer_agent_id : StableId) (now_unix : Z)
    (seen_live_self : bool) : TargetClass :=
  match claims with
  | [] => if seen_live_self then GovernedBySelf else Ungoverned
  | claim :: rest =>
      if negb (is_live claim now_unix)
      then classify_loop raw_target target_segments rest writer_principal_id writer_agent_id now_unix seen_live_self
      else if negb (scope_covers_any claim target_segments)
      then classify_loop raw_target target_segments rest writer_principal_id writer_agent_id now_unix seen_live_self
      else if bool_decide (ci_claimant_agent_id (cc_claim claim) = writer_agent_id)
              && principal_matches writer_principal_id claim
      then classify_loop raw_target target_segments rest writer_principal_id writer_agent_id now_unix true
      else BlockedBy (block_detail raw_target claim)
  end.

Definition classify_target (raw_target : RepoPath) (target_segments : list string)
    (claims : list ClaimContract) (writer_principal_id : option PrincipalId) (writer_agent_id : StableId)
    (now_unix : Z) : TargetClass :=
  if escapes_repo_root target_segments then Ungoverned
  else classify_loop raw_target target_segments claims writer_principal_id writer_agent_id now_unix false.

(** The three vectors the loop over the targets fills, in order. *)
Fixpoint sort_targets (targets : list RepoPath) (ordered : list ClaimContract)
    (writer_principal_id : option PrincipalId) (writer_agent_id : StableId) (now_unix : Z)
    : list BlockDetail * list RepoPath * list RepoPath :=
  match targets with
  | [] => ([], [], [])
  | target :: rest =>
      let '(blocks, governed_by_self, ungoverned) :=
        sort_targets rest ordered writer_principal_id writer_agent_id now_unix in
      match classify_target target (normalize_segments (RepoPath_0 target)) ordered writer_principal_id
              writer_agent_id now_unix with
      | Ungoverned => (blocks, governed_by_self, target :: ungoverned)
      | GovernedBySelf => (blocks, target :: governed_by_self, ungoverned)
      | BlockedBy detail => (detail :: blocks, governed_by_self, ungoverned)
      end
  end.

Definition check_write_against_claims_internal (targets : list RepoPath)
    (writer_principal_id : option PrincipalId) (writer_agent_id : StableId)
    (claims : list ClaimContract) (now_unix : Z) : WriteCheck :=
  let ordered := sort_by (fun c => ClaimId_0 (cc_id c)) claims in
  let '(blocks, governed_by_self, ungoverned) :=
    sort_targets targets ordered writer_principal_id writer_agent_id now_unix in
  if bool_decide (blocks = []) then WriteCheck_Ok governed_by_self ungoverned else WriteCheck_Blocked blocks.

Definition check_write_against_claims (targets : list RepoPath) (writer_agent_id : StableId)
    (claims : list ClaimContract) (now_unix : Z) : WriteCheck :=
  check_write_against_claims_internal targets None writer_agent_id claims now_unix.

Definition check_write_against_claims_for_principal (targets : list RepoPath)
    (writer_principal_id : PrincipalId) (writer_agent_id : StableId)
    (claims : list ClaimContract) (now_unix : Z) : WriteCheck :=
  check_write_against_claims_internal targets (Some writer_principal_id) writer_agent_id claims now_unix.

(** ** Specification *)

(** The claim is live and covers the target. *)
Definition governs (now : Z) (segments : list string) (claim : ClaimContract) : bool :=
  negb (escapes_repo_root segments) && is_live claim now && scope_covers_any claim segments.

(** The claim belongs to the writer. *)
Definition is_self (principal : option PrincipalId) (agent : StableId) (claim : ClaimContract) : bool :=
  bool_decide (ci_claimant_agent_id (cc_claim claim) = agent) && principal_matches principal claim.

Definition has_peer (principal : option PrincipalId) (agent : StableId) (now : Z) (segments : list string)
    (claims : list ClaimContract) : bool :=
  existsb (fun c => governs now segments c && negb (is_self principal agent c)) claims.

Definition has_owner (now : Z) (segments : list string) (claims : list ClaimContract) : bool :=
  existsb (governs now segments) claims.

Lemma classify_loop_spec target segments claims principal agent now seen :
  escapes_repo_root segments = false ->
  match classify_loop target segments claims principal agent now seen with
  | BlockedBy d =>
      exists c, c ∈ claims /\ governs now segments c = true /\ is_self principal agent c = false
                /\ d = block_detail target c
  | GovernedBySelf => has_peer principal agent now segments claims = false
                      /\ seen || has_owner now segments claims = true
  | Ungoverned => seen = false /\ has_owner now segments claims = false
  end.
Proof.
  intros He. revert seen. induction claims as [|c claims IH]; intros seen; simpl.
  - by destruct seen.
  - assert (governs now segments c = is_live c now && scope_covers_any c segments) as Eg
      by (unfold governs; by rewrite He).
    unfold has_peer, has_owner in *. simpl. rewrite Eg. fold (is_self principal agent c).
    destruct (is_live c now) eqn:Hl; simpl.
    2: { specialize (IH seen). destruct (classify_loop _ _ _ _ _ _ _); [done|done|].
         destruct IH as (d & Hd & Hrest). exists d. split; [by right | done]. }
    destruct (scope_covers_any c segments) eqn:Hs; simpl.
    2: { specialize (IH seen). destruct (classify_loop _ _ _ _ _ _ _); [done|done|].
         destruct IH as (d & Hd & Hrest). exists d. split; [by right | done]. }
    destruct (is_self principal agent c) eqn:Hself; simpl.
    + specialize (IH true). destruct (classify_loop _ _ _ _ _ _ _); [by destruct IH| |].
      * destruct IH as [-> _]. split; [done|]. by destruct seen.
      * destruct IH as (d & Hd & Hrest). exists d. split; [by right | done].
    + exists c. split; [by left|]. split; [by rewrite Eg | done].
Qed.

Lemma has_peer_In principal agent now segments claims :
  has_peer principal agent now segments claims = true <->
  exists c, c ∈ claims /\ governs now segments c = true /\ is_self principal agent c = false.
Proof.
  unfold has_peer. rewrite existsb_In. split; intros (c & Hc & Hg); exists c; (split; [done|]).
  - by bool_simpl.
  - by destruct Hg as [-> ->].
Qed.

Lemma has_owner_In now segments claims :
  has_owner now segments claims = true <-> exists c, c ∈ claims /\ governs now segments c = true.
Proof. apply existsb_In. Qed.

Lemma escapes_no_owner now segments claims :
  escapes_repo_root segments = true -> has_owner now segments claims = false.
Proof. intros He. apply existsb_not_In. intros c _. unfold governs. by rewrite He. Qed.

Lemma peer_owner principal agent now segments claims :
  has_owner now segments claims = false -> has_peer principal agent now segments claims = false.
Proof.
  unfold has_owner, has_peer. rewrite !existsb_not_In. intros Hn c Hc. by rewrite Hn.
Qed.

(** The class of a target, decided by its owners alone. *)
Lemma classify_target_spec target segments claims principal agent now :
  match classify_target target segments claims principal agent now with
  | BlockedBy d =>
      exists c, c ∈ claims /\ governs now segments c = true /\ is_self principal agent c = false
                /\ d = block_detail target c
  | GovernedBySelf => has_peer principal agent now segments claims = false /\ has_owner now segments claims = true
  | Ungoverned => has_owner now segments claims = false
  end.
Proof.
  unfold classify_target. destruct (escapes_repo_root segments) eqn:He; [by apply escapes_no_owner|].
  pose proof (classify_loop_spec target segments claims principal agent now false He) as Hs.
  destruct (classify_loop _ _ _ _ _ _ _); [apply Hs | done | done].
Qed.

(** Which of the three classes, as a function of the owners. *)
Lemma classify_target_class target segments claims principal agent now :
  (exists d, classify_target target segments claims principal agent now = BlockedBy d)
    <-> has_peer principal agent now segments claims = true.
Proof.
  pose proof (classify_target_spec target segments claims principal agent now) as Hs.
  destruct (classify_target _ _ _ _ _ _) as [| |d].
  - rewrite (peer_owner principal agent _ _ _ Hs). by split; [intros [? ?]|].
  - destruct Hs as [-> _]. by split; [intros [? ?]|].
  - rewrite has_peer_In. split; [|by eexists]. intros _. destruct Hs as (c & ? & ? & ? & _). by exists c.
Qed.

Definition target_segments (t : RepoPath) : list string := normalize_segments (RepoPath_0 t).

(** The three vectors are filters of the targets by their class. *)
Lemma sort_targets_spec targets claims principal agent now :
  let '(blocks, governed, ungoverned) := sort_targets targets claims principal agent now in
  map bd_blocked_path blocks
    = List.filter (fun t => has_peer principal agent now (target_segments t) claims) targets
  /\ Forall (fun d => exists c, c ∈ claims /\ governs now (target_segments (bd_blocked_path d)) c = true
                       /\ is_self principal agent c = false /\ d = block_detail (bd_blocked_path d) c) blocks
  /\ governed = List.filter (fun t => has_owner now (target_segments t) claims
                              && negb (has_peer principal agent now (target_segments t) claims)) targets
  /\ ungoverned = List.filter (fun t => negb (has_owner now (target_segments t) claims)) targets.
Proof.
  induction targets as [|t targets IH]; [by repeat split; constructor|]. simpl.
  destruct (sort_targets targets claims principal agent now) as [[bs gs] us].
  destruct IH as (IHb & IHd & IHg & IHu). fold (target_segments t).
  pose proof (classify_target_spec t (target_segments t) claims principal agent now) as Hs.
  destruct (classify_target _ _ _ _ _ _) as [| |d]; simpl.
  - rewrite Hs, (peer_owner principal agent _ _ _ Hs). simpl. by rewrite IHg, IHu.
  - destruct Hs as [-> ->]. simpl. by rewrite IHg, IHu.
  - destruct Hs as (c & Hc & Hg & Hself & ->).
    assert (has_peer principal agent now (target_segments t) claims = true) as Hp by (apply has_peer_In; eauto).
    assert (has_owner now (target_segments t) claims = true) as Ho by (apply has_owner_In; eauto).
    rewrite Hp, Ho. simpl. rewrite IHb, IHg, IHu. repeat split; try done.
    constructor; [by exists c | done].
Qed.

Lemma has_peer_perm principal agent now segments claims claims' :
  claims ≡ₚ claims' ->
  has_peer principal agent now segments claims = has_peer principal agent now segments claims'.
Proof.
  intros Hp. apply eq_true_iff_eq. rewrite !has_peer_In. by setoid_rewrite Hp.
Qed.

Lemma has_owner_perm now segments claims claims' :
  claims ≡ₚ claims' -> has_owner now segments claims = has_owner now segments claims'.
Proof. intros Hp. apply eq_true_iff_eq. rewrite !has_owner_In. by setoid_rewrite Hp. Qed.

(** What the verdict says, for any set of claims in any order. *)
Definition write_check_spec (targets : list RepoPath) (principal : option PrincipalId) (agent : StableId)
    (claims : list ClaimContract) (now : Z) (w : WriteCheck) : Prop :=
  match w with
  | WriteCheck_Blocked blocks =>
      blocks ≠ []
      /\ map bd_blocked_path blocks
         = List.filter (fun t => has_peer principal agent now (target_segments t) claims) targets
      /\ Forall (fun d => exists c, c ∈ claims /\ governs now (target_segments (bd_blocked_path d)) c = true
                           /\ is_self principal agent c = false
                           /\ d = block_detail (bd_blocked_path d) c) blocks
  | WriteCheck_Ok governed ungoverned =>
      (forall t, t ∈ targets -> has_peer principal agent now (target_segments t) claims = false)
      /\ governed = List.filter (fun t => has_owner now (target_segments t) claims) targets
      /\ ungoverned = List.filter (fun t => negb (has_owner now (target_segments t) claims)) targets
  end.

Lemma check_write_spec targets principal agent claims now :
  write_check_spec targets principal agent claims now
    (check_write_against_claims_internal targets principal agent claims now).
Proof.
  unfold check_write_against_claims_internal.
  set (ordered := sort_by _ claims).
  assert (ordered ≡ₚ claims) as Hp by apply sort_by_perm.
  pose proof (sort_targets_spec targets ordered principal agent now) as Hs.
  destruct (sort_targets targets ordered principal agent now) as [[bs gs] us].
  destruct Hs as (Hb & Hd & Hg & Hu).
  assert (map bd_blocked_path bs
          = List.filter (fun t => has_peer principal agent now (target_segments t) claims) targets) as Hb'.
  { rewrite Hb. apply List.filter_ext. intros t. by apply has_peer_perm. }
  case_bool_decide as Hnil; simpl.
  - subst bs. simpl in Hb'. symmetry in Hb'.
    assert (forall t, t ∈ targets -> has_peer principal agent now (target_segments t) claims = false) as Hno.
    { intros t Ht. apply not_true_iff_false. intros E.
      assert (t ∈ List.filter (fun t => has_peer principal agent now (target_segments t) claims) targets) as Hin
        by (by apply filter_In_iff).
      rewrite Hb' in Hin. by apply elem_of_nil in Hin. }
    split; [done|]. split.
    + rewrite Hg. apply List.filter_ext_in. intros t Ht. apply list_elem_of_In in Ht.
      rewrite (has_peer_perm principal agent now _ ordered claims Hp), Hno by done.
      rewrite andb_true_r. by apply has_owner_perm.
    + rewrite Hu. apply List.filter_ext. intros t. f_equal. by apply has_owner_perm.
  - split; [done|]. split; [done|]. eapply Forall_impl; [exact Hd|].
    simpl. intros d (c & Hc & Hrest). exists c. split; [by rewrite <- Hp | done].
Qed.

End write_check.

(** ** The command *)

Record WriteBlock := {
  wb_blocked_path : string;
  wb_blocking_claim_id : string;
  wb_claimant : string;
  wb_conflict_code : string
}.

Record WriteCheckPayload := {
  wc_writer : string;
  wc_allowed : bool;
  wc_governed_by_self : list string;
  wc_ungoverned : list string;
  wc_blocks : list WriteBlock
}.

Inductive CheckWriteEnvelope :=
| CheckWrite_Ok (payload : WriteCheckPayload)
| CheckWrite_RejectedByGate (payload : WriteCheckPayload)
| CheckWrite_EnvConfig.

Definition conflict_code_str (c : ConflictCode) : string :=
  match c with
  | ConflictCode_WriteTargetClaimed => "write_target_claimed"
  | ConflictCode_OverlappingWriteSet => "overlapping_write_set"
  | ConflictCode_PathOutsideScope => "path_outside_scope"
  | ConflictCode_ReadTargetChanged => "read_target_changed"
  | ConflictCode_WriteTargetChanged => "write_target_changed"
  | ConflictCode_ExpectedStateVersionMismatch => "expected_state_version_mismatch"
  | ConflictCode_CompletionNowDone => "completion_now_done"
  | ConflictCode_MissingInverseForDestructiveWrite => "missing_inverse_for_destructive_write"
  end.

Section run_check_write.
Context `{ToLowercase} {codec : WalCodec}.

Definition run_check_write (dir : WalDirectory) (st : BusState) (writer_agent_id : StableId)
    (targets : list string) (now_unix : Z) : CheckWriteEnvelope * BusState :=
  match load_claims dir st with
  | (Err _, st) => (CheckWrite_EnvConfig, st)
  | (Ok existing, st) =>
      let payload allowed governed ungoverned blocks := {|
        wc_writer := StableId_0 writer_agent_id; wc_allowed := allowed; wc_governed_by_self := governed;
        wc_ungoverned := ungoverned; wc_blocks := blocks |} in
      (match check_write_against_claims (map mk_RepoPath targets) writer_agent_id existing now_unix with
       | WriteCheck_Ok governed ungoverned =>
           let governed := map RepoPath_0 governed in
           let ungoverned := map RepoPath_0 ungoverned in
           if bool_decide (ungoverned = []) then CheckWrite_Ok (payload true governed ungoverned [])
           else CheckWrite_RejectedByGate (payload false governed ungoverned [])
       | WriteCheck_Blocked blocks =>
           CheckWrite_RejectedByGate (payload false [] []
             (map (fun b => {| wb_blocked_path := RepoPath_0 (bd_blocked_path b);
                               wb_blocking_claim_id := ClaimId_0 (bd_blocking_claim_id b);
                               wb_claimant := StableId_0 (bd_claimant b);
                               wb_conflict_code := conflict_code_str (bd_conflict_code b) |}) blocks))
       end, st)
  end.

End run_check_write.

(** ** One live owner per path *)

(** Two live claims on an exclusive bus that cover the same target are the same claim. *)
Lemma single_owner `{ToLowercase} (claims : list ClaimContract) now segments c d :
  (forall c d, c ∈ claims -> d ∈ claims -> c ≠ d -> is_open c = true -> is_open d = true ->
     scopes_contend (cc_scope c) (cc_scope d) = false) ->
  c ∈ claims -> d ∈ claims -> governs now segments c = true -> governs now segments d = true -> c = d.
Proof.
  intros Hex Hc Hd Hgc Hgd. destruct (decide (c = d)) as [|Hne]; [done|exfalso].
  unfold governs in Hgc, Hgd. apply andb_true_iff in Hgc as [Hgc Hcc], Hgd as [Hgd Hcd].
  apply andb_true_iff in Hgc as [Hesc Hlc], Hgd as [_ Hld]. apply negb_true_iff in Hesc.
  assert (forall x, is_live x now = true -> is_open x = true) as Hopen.
  { intros x. unfold is_live, is_open. by destruct (csr_value (cc_status x)). }
  pose proof (Hex c d Hc Hd Hne (Hopen c Hlc) (Hopen d Hld)) as Hs.
  unfold scopes_contend in Hs. apply orb_false_iff in Hs as [_ Hs].
  apply not_true_iff_false in Hs. apply Hs. apply paths_overlap_spec.
  apply existsb_In in Hcc as (p & Hp & Hcp), Hcd as (q & Hq & Hcq). exists p, q.
  split; [done|]. split; [done|]. by eapply cover_both_overlap.
Qed.

(** A write is blocked exactly when some target has a peer. *)
Lemma check_write_blocked `{ToLowercase} targets principal agent claims now :
  is_blocked (check_write_against_claims_internal targets principal agent claims now) = true <->
  exists t, t ∈ targets /\ has_peer principal agent now (target_segments t) claims = true.
Proof.
  pose proof (check_write_spec targets principal agent claims now) as Hs.
  destruct (check_write_against_claims_internal _ _ _ _ _) as [gs us|bs]; simpl in *.
  - destruct Hs as [Hno _]. split; [done|]. intros (t & Ht & Hp). rewrite Hno in Hp; done.
  - destruct Hs as (Hne & Hb & _). split; [|done]. intros _. destruct bs as [|d bs]; [done|].
    exists (bd_blocked_path d).
    apply (filter_In_iff (fun t => has_peer principal agent now (target_segments t) claims)). rewrite <- Hb. by left.
Qed.

(** ** Claims about the write gate *)

(** The write gate is exact.  A write is blocked exactly when some target that stays inside the
    repository is covered by a live claim of a peer; the blocks list every such target, in order,
    each with a live peer claim that covers it.  Otherwise the targets are partitioned, in order,
    into those inside the writer's own live claims and those no live claim covers. *)
Theorem check_write_exact `{ToLowercase} targets principal agent claims now :
  write_check_spec targets principal agent claims now
    (check_write_against_claims_internal targets principal agent claims now)
  /\ (is_blocked (check_write_against_claims_internal targets principal agent claims now) = true <->
      exists t, t ∈ targets /\ has_peer principal agent now (target_segments t) claims = true).
Proof. split; [apply check_write_spec | apply check_write_blocked]. Qed.

(** The verdict does not depend on the order in which the claims are listed, as long as their
    ids are distinct. *)
Theorem check_write_order_independent `{ToLowercase} targets principal agent claims claims' now :
  NoDup (map (fun c => ClaimId_0 (cc_id c)) claims) -> claims ≡ₚ claims' ->
  check_write_against_claims_internal targets principal agent claims now
  = check_write_against_claims_internal targets principal agent claims' now.
Proof.
  intros Hnd Hp. unfold check_write_against_claims_internal. by rewrite (sort_by_unique _ claims claims').
Qed.

(** C6: one writer per path, end to end.  On any bus the commands can reach before its log is rotated,
    the holder of a live claim covering every target of a write inside the repository is allowed to
    write them, and every other agent is refused as soon as one of these targets is in its write set. *)
Theorem single_writer `{ToLowercase} {codec : WalCodec} {laws : WalCodecLaws codec} dir st claims st' now c :
  wd_unselected_residue dir = false -> bus_reachable dir st -> unrotated st ->
  load_claims dir st = (Ok claims, st') -> c ∈ claims ->
  (forall targets, Forall (fun t => governs now (target_segments t) c = true) targets ->
     check_write_against_claims targets (ci_claimant_agent_id (cc_claim c)) claims now = WriteCheck_Ok targets [])
  /\ (forall agent targets t, agent ≠ ci_claimant_agent_id (cc_claim c) -> t ∈ targets ->
     governs now (target_segments t) c = true ->
     is_blocked (check_write_against_claims targets agent claims now) = true).
Proof.
  intros Hres Hreach Hb Hload Hc.
  destruct (bus_loaded_exclusive dir st claims st' Hres Hreach Hb Hload) as [_ Hex]. split.
  - intros targets Hall. rewrite Forall_forall in Hall.
    pose proof (check_write_spec targets None (ci_claimant_agent_id (cc_claim c)) claims now) as Hs.
    unfold check_write_against_claims. destruct (check_write_against_claims_internal _ _ _ _ _) as [gs us|bs].
    + destruct Hs as (_ & -> & ->).
      assert (forall t, t ∈ targets -> has_owner now (target_segments t) claims = true) as Ho.
      { intros t Ht. apply has_owner_In. exists c. auto. }
      f_equal.
      * apply filter_all. intros t Ht. by apply Ho.
      * apply filter_none. intros t Ht. by rewrite Ho.
    + exfalso. destruct Hs as (Hne & Hbl & Hd). destruct bs as [|d bs]; [done|].
      assert (bd_blocked_path d ∈ targets) as Hin.
      { apply (filter_In_iff (fun t => has_peer None (ci_claimant_agent_id (cc_claim c)) now (target_segments t) claims)).
        rewrite <- Hbl. by left. }
      apply Forall_cons in Hd as [(x & Hx & Hg & Hself & _) _].
      assert (x = c) as -> by (eapply single_owner; eauto).
      unfold is_self in Hself. simpl in Hself. by rewrite bool_decide_eq_true_2 in Hself.
  - intros agent targets t Hne Ht Hg.
    apply check_write_blocked. exists t. split; [done|]. apply has_peer_In. exists c. split; [done|]. split; [done|]. unfold is_self.
    by rewrite bool_decide_eq_false_2.
Qed.
