(* ===== verification/ClaimExamples.v ===== *)
(** * Concrete runs of the claim components

    One claim, its log record and small images of its log, on which the theorems about the log,
    the projection and the write gate are instantiated.  The payload codec is the table codec of
    [ClaimWal]; the case mapping is the ASCII one. *)

From S2P Require Import Prelude RustStr BTree Contracts PathScope ClaimEngine WalFrame ClaimWal ClaimProjection ClaimBus WriteCheck.

Local Open Scope string_scope.
Local Open Scope list_scope.

#[local] Existing Instance Example.codec_s1.

Module Scenario.

Import Example.

(** The record of the acquire, the log that holds it and the record list that log stands for. *)
Definition vec_s1 : bytes := Eval vm_compute in default [] (payload_to_vec payload_s1).
Definition record_s1 : bytes := Eval vm_compute in record_bytes 1 (record_type ClaimWalOperation_Acquire) vec_s1.
Definition wal_record_s1 : ClaimWalRecord := log_record [] [] payload_s1 vec_s1.

Lemma log_s1 : wal_log record_s1 [wal_record_s1].
Proof.
  pose proof (wal_log_snoc [] [] payload_s1 vec_s1 wal_log_nil) as Hs.
  apply Hs; [reflexivity | vm_compute; discriminate | vm_compute; discriminate].
Qed.

(** The log with the last byte of its record's checksum changed, followed by an intact copy. *)
Definition damaged : bytes := Eval vm_compute in
  take (length record_s1 - 1) record_s1 ++ ["z"%char] ++ record_s1.

(** The recovery of the one-record log. *)
Definition recovery_s1 : ClaimWalRecovery :=
  (recover_claim_wal TableCodec.fresh_directory record_s1 false).1.

Definition snapshot_s1 : ClaimWalSnapshotPayload := {|
  sp_schema_version := "0.1"; sp_created_at := "2023-11-14T22:13:20Z"; sp_created_at_ms := 1700000000000;
  sp_last_seq := 1;
  sp_latest_claims := snapshot_claims_from_projection (project_claim_wal_recovery recovery_s1) |}.

End Scenario.

Lemma crash_safe_append_witness :
  exists r r' disk,
    disk = Scenario.record_s1 ++ take 10 (record_bytes 2 (record_type ClaimWalOperation_Acquire) Scenario.vec_s1)
    /\ recover_claim_wal TableCodec.fresh_directory disk false = (r, disk)
    /\ rc_records r = [Scenario.wal_record_s1]
    /\ recover_claim_wal TableCodec.fresh_directory disk true = (r', Scenario.record_s1).
Proof.
  destruct (@crash_safe_append Example.codec_s1 Example.codec_s1_laws TableCodec.fresh_directory
    Scenario.record_s1 [Scenario.wal_record_s1] Example.payload_s1 Scenario.vec_s1 10
    eq_refl Scenario.log_s1 eq_refl) as (r & r' & _ & E & Hrec & _ & E').
  - vm_compute. discriminate.
  - vm_compute. discriminate.
  - vm_compute. discriminate.
  - exists r, r'. eexists. split; [reflexivity|]. split; [exact E|]. split; [exact Hrec | exact E'].
Defined.

Lemma append_extends_log_witness :
  exists r, wr_seq r = 2%Z /\ wp_claim_contract (wr_payload r) = Example.claim_s1
    /\ wal_log (Scenario.record_s1 ++ record_bytes 2 (record_type ClaimWalOperation_Acquire) Scenario.vec_s1)
         [Scenario.wal_record_s1; r].
Proof.
  destruct (@append_extends_log Example.codec_s1 Example.codec_s1_laws TableCodec.fresh_directory
    [Scenario.wal_record_s1] Scenario.record_s1 Scenario.record_s1 ClaimWalOperation_Acquire Example.claim_s1
    (wp_recorded_at Example.payload_s1) 0
    {| wa_record := record_bytes 2 (record_type ClaimWalOperation_Acquire) Scenario.vec_s1; wa_rotation := None |}
    Scenario.record_s1 eq_refl (image_clean _ _ Scenario.log_s1)) as (_ & r & Hseq & _ & Hc & Hlog).
  - vm_compute. discriminate.
  - vm_compute. reflexivity.
  - exists r. split; [exact Hseq|]. split; [exact Hc | exact Hlog].
Defined.

Lemma repair_drops_after_corruption_witness :
  exists r, recover_claim_wal TableCodec.fresh_directory (Scenario.record_s1 ++ Scenario.damaged) true
              = (r, Scenario.record_s1)
    /\ ensure_recovered_appendable r = Ok tt.
Proof.
  apply (@repair_drops_after_corruption Example.codec_s1 Example.codec_s1_laws TableCodec.fresh_directory
    Scenario.record_s1 [Scenario.wal_record_s1] Scenario.damaged eq_refl Scenario.log_s1).
  - vm_compute. discriminate.
  - vm_compute. reflexivity.
  - discriminate.
Defined.

Lemma projection_correct_witness :
  acc_ok (accumulate Scenario.recovery_s1)
  /\ Example.claim_s1 ∈ pj_claims (project_claim_wal_recovery Scenario.recovery_s1).
Proof.
  destruct (projection_correct Scenario.recovery_s1) as (Hok & _ & _ & _ & Hcl).
  - repeat constructor.
  - split; [exact Hok|]. apply Hcl. eexists. split; vm_compute; reflexivity.
Defined.

Lemma checkpoint_faithful_witness :
  acc_equiv (foldl apply_record (seed_snapshot ProjectionAccumulator_default Scenario.snapshot_s1) [])
    (accumulate Scenario.recovery_s1).
Proof.
  apply (checkpoint_faithful Scenario.recovery_s1 Scenario.snapshot_s1 []).
  - repeat constructor.
  - reflexivity.
Defined.

Lemma single_writer_witness :
  is_blocked (check_write_against_claims (H := ascii_lowercase) [mk_RepoPath "src/core/a.rs"]
    (mk_StableId "agent-b") [Example.claim_s1] Example.t0) = true.
Proof.
  destruct (load_claims (codec := Example.codec_s1) TableCodec.fresh_directory Example.bus_s1) as [res st'] eqn:E.
  assert (res = Ok [Example.claim_s1]) as Hres.
  { change res with ((res, st').1). rewrite <- E. vm_compute. reflexivity. }
  rewrite Hres in E.
  destruct (@single_writer ascii_lowercase Example.codec_s1 Example.codec_s1_laws TableCodec.fresh_directory
    Example.bus_s1 [Example.claim_s1] st' Example.t0 Example.claim_s1 eq_refl Example.bus_s1_reachable) as [_ Hw].
  - reflexivity.
  - exact E.
  - left.
  - eapply Hw; [discriminate | left | vm_compute; reflexivity].
Defined.
