(* ===== verification/ExecutionAdmission.v ===== *)
(** * Execution admission

    [forge-core-decisions/src/execution_admission.rs]: the decision taken immediately before an
    operation mutates the project.  Every check that fails adds an issue; an operation is admitted
    when there is none.  The content addresses (canonical JSON and SHA-256) are the parameter
    [CanonicalDigest], one per kind of document. *)

From S2P Require Import Prelude RustStr BTree Ordering Contracts PathScope ClaimEngine WriteCheck.
From S2P Require Import OperationContracts AssuranceContracts.

Local Open Scope string_scope.
Local Open Scope Z_scope.
Local Open Scope forge_scope.

Definition EXECUTION_ADMISSION_SCHEMA_VERSION : string := "0.1".
Definition EXECUTION_AUTHORITY_SCOPE : string := "operation.execute".

(** ** Data *)

Record ClaimContractDocument := {
  cld_schema_version : string;
  cld_claim_contract : ClaimContract
}.

Inductive ExecutionPrincipalTrust :=
| ExecutionPrincipalTrust_SelfAsserted | ExecutionPrincipalTrust_SignatureVerified
| ExecutionPrincipalTrust_AuthorizedKeyRegistry | ExecutionPrincipalTrust_OAuthResourceServer.

Inductive ReplayReservationStatus :=
| ReplayReservationStatus_Missing | ReplayReservationStatus_FreshReserved
| ReplayReservationStatus_AlreadySeen | ReplayReservationStatus_Expired.

Inductive SnapshotCompleteness :=
| SnapshotCompleteness_Complete | SnapshotCompleteness_Partial.

Inductive ExecutionCommitStrategy :=
| ExecutionCommitStrategy_SingleEffectWal | ExecutionCommitStrategy_OperationWideWal
| ExecutionCommitStrategy_Saga.

Inductive ExecutionCommitScope :=
| ExecutionCommitScope_SingleEffect | ExecutionCommitScope_WholeOperation
| ExecutionCommitScope_PerEffectOnly.

Inductive GuaranteeStatus :=
| GuaranteeStatus_Verified | GuaranteeStatus_Unavailable.

Inductive CompensationCoverage :=
| CompensationCoverage_NotApplicable | CompensationCoverage_Complete
| CompensationCoverage_Incomplete.

Inductive ExecutionAdmissionStatus :=
| ExecutionAdmissionStatus_Admitted | ExecutionAdmissionStatus_Blocked.

Inductive IssueCode :=
| IssueCode_AssuranceCaseMismatch | IssueCode_AssuranceTokenMismatch
| IssueCode_AssuranceNotReady | IssueCode_AssuranceSnapshotStale
| IssueCode_AssuranceObligationUnresolved | IssueCode_AssuranceDecisionPending
| IssueCode_AssuranceCapabilityGap | IssueCode_OperationMismatch
| IssueCode_OperationTokenMismatch | IssueCode_OperationStateVersionStale
| IssueCode_OperationMutationForbidden | IssueCode_OperationAuthorityIncomplete
| IssueCode_OperationDiagnosticsPresent | IssueCode_OperationGateSummaryNotPassed
| IssueCode_CommandBindingMismatch | IssueCode_CommandTokenMismatch
| IssueCode_RequiredCommandMissing | IssueCode_CommandNotSafelyReadOnly
| IssueCode_EffectBindingMismatch | IssueCode_EffectTokenMismatch
| IssueCode_EffectOperationMismatch | IssueCode_EffectPrincipalMismatch
| IssueCode_PrincipalMismatch | IssueCode_PrincipalRoleMismatch | IssueCode_PrincipalNotTrusted
| IssueCode_PrincipalCredentialMissing | IssueCode_PrincipalAudienceMismatch
| IssueCode_PrincipalScopeMissing | IssueCode_AttestedIntentMismatch
| IssueCode_AuthoritySnapshotTokenMismatch | IssueCode_InvocationNonceMissing
| IssueCode_InvocationReplayRejected | IssueCode_InvocationExpired
| IssueCode_InvocationFromFuture | IssueCode_ReplayIntentMismatch
| IssueCode_ReplayRevisionMismatch | IssueCode_DuplicateBinding
| IssueCode_ClaimSnapshotIncomplete | IssueCode_ClaimSnapshotRevisionMismatch
| IssueCode_ClaimMissing | IssueCode_ClaimRevisionMismatch | IssueCode_ClaimNotLive
| IssueCode_ClaimPrincipalMismatch | IssueCode_ClaimRoleMismatch
| IssueCode_ClaimStateVersionMismatch | IssueCode_ClaimConflict | IssueCode_ClaimCoverageMissing
| IssueCode_GateSnapshotIncomplete | IssueCode_GateSnapshotRevisionMismatch
| IssueCode_GateMissing | IssueCode_GateRevisionMismatch | IssueCode_GateNotPassed
| IssueCode_GateEvidenceMissing | IssueCode_GateStateVersionMismatch
| IssueCode_CommitStrategyUnsupported | IssueCode_CommitScopeInsufficient
| IssueCode_CommitGuaranteeMissing | IssueCode_SagaCompensationIncomplete.

Record ContentAddressedBinding := {
  cab_reference : string;
  cab_token : string
}.

Record RevisionExpectation := {
  rx_reference : string;
  rx_revision : Z
}.

Record EffectContractBinding := {
  ecb_effect_ref : RepoPath;
  ecb_document : ToolEffectContractDocument
}.

Record ExecutionAdmissionRequest := {
  eq_id : StableId;
  eq_principal_id : PrincipalId;
  eq_agent_id : StableId;
  eq_principal_role : CallerRole;
  eq_operation_id : StableId;
  eq_operation_token : string;
  eq_assurance_case_id : StableId;
  eq_assurance_case_token : string;
  eq_command_bindings : list ContentAddressedBinding;
  eq_effect_bindings : list ContentAddressedBinding;
  eq_expected_claim_snapshot_revision : Z;
  eq_expected_claim_revisions : list RevisionExpectation;
  eq_expected_gate_snapshot_revision : Z;
  eq_expected_gate_revisions : list RevisionExpectation;
  eq_authority_snapshot_token : string;
  eq_expected_replay_reservation_revision : Z;
  eq_nonce : string;
  eq_issued_at_unix : Z
}.

Record ExecutionPrincipalObservation := {
  epo_principal_id : PrincipalId;
  epo_agent_id : StableId;
  epo_role : CallerRole;
  epo_trust : ExecutionPrincipalTrust;
  epo_credential_id : string;
  epo_audience : string;
  epo_required_audience : string;
  epo_authority_grants : list StableId;
  epo_attested_intent_digest : string
}.

Record ReplayProtectionObservation := {
  rpo_status : ReplayReservationStatus;
  rpo_nonce : string;
  rpo_reserved_intent_digest : string;
  rpo_reservation_revision : Z
}.

Record ClaimRevisionObservation := {
  cro_claim_ref : RepoPath;
  cro_revision : Z;
  cro_document : ClaimContractDocument
}.

Record ClaimSnapshotObservation := {
  cso_revision : Z;
  cso_completeness : SnapshotCompleteness;
  cso_claims : list ClaimRevisionObservation
}.

Record GateRevisionObservation := {
  gro_gate_ref : RepoPath;
  gro_revision : Z;
  gro_observed_state_version : Z;
  gro_document : GateContractDocument
}.

Record GateSnapshotObservation := {
  gso_revision : Z;
  gso_completeness : SnapshotCompleteness;
  gso_gates : list GateRevisionObservation
}.

Record CommitAssuranceObservation := {
  cao_strategy : ExecutionCommitStrategy;
  cao_scope : ExecutionCommitScope;
  cao_wal_lock : GuaranteeStatus;
  cao_rollback_recovery : GuaranteeStatus;
  cao_durable_commit_record : GuaranteeStatus;
  cao_compensation : CompensationCoverage
}.

Record ExecutionAdmissionInput := {
  ei_request : ExecutionAdmissionRequest;
  ei_assurance_case : AssuranceCaseDocument;
  ei_operation : OperationContractDocument;
  ei_command_contracts : list CommandContractDocument;
  ei_effect_contracts : list EffectContractBinding;
  ei_principal : ExecutionPrincipalObservation;
  ei_replay : ReplayProtectionObservation;
  ei_claim_snapshot : ClaimSnapshotObservation;
  ei_gate_snapshot : GateSnapshotObservation;
  ei_commit : CommitAssuranceObservation;
  ei_current_state_version : Z;
  ei_now_unix : Z;
  ei_max_attestation_age_seconds : Z;
  ei_max_future_skew_seconds : Z
}.

Record ExecutionAdmissionInputDocument := {
  eid_schema_version : string;
  eid_execution_admission : ExecutionAdmissionInput
}.

Record ExecutionAdmissionIssue := {
  eai_code : IssueCode;
  eai_subject : string
}.

Record ExecutionAdmissionDecision := {
  ead_status : ExecutionAdmissionStatus;
  ead_request_id : StableId;
  ead_intent_digest : string;
  ead_issues : list ExecutionAdmissionIssue;
  ead_validated_claim_revisions : list RevisionExpectation;
  ead_validated_gate_revisions : list RevisionExpectation;
  ead_commit_strategy : ExecutionCommitStrategy
}.

Inductive ExecutionAdmissionRejection :=
| ExecutionAdmissionRejection_UnsupportedSchemaVersion (found : string)
| ExecutionAdmissionRejection_Canonicalization (subject : string) (source : string).


(** What [authority_snapshot_token] covers. *)
Record AuthoritySnapshotBinding := {
  asb_claim_snapshot : ClaimSnapshotObservation;
  asb_gate_snapshot : GateSnapshotObservation;
  asb_current_state_version : Z;
  asb_now_unix : Z
}.

Definition authorizes_mutation (self : ExecutionPrincipalTrust) : bool :=
  match self with
  | ExecutionPrincipalTrust_AuthorizedKeyRegistry | ExecutionPrincipalTrust_OAuthResourceServer => true
  | _ => false
  end.

(** The codes in the order of their declaration, which is the derived order. *)
Definition IssueCode_ALL : list IssueCode :=
  [IssueCode_AssuranceCaseMismatch; IssueCode_AssuranceTokenMismatch; IssueCode_AssuranceNotReady;
   IssueCode_AssuranceSnapshotStale; IssueCode_AssuranceObligationUnresolved;
   IssueCode_AssuranceDecisionPending; IssueCode_AssuranceCapabilityGap; IssueCode_OperationMismatch;
   IssueCode_OperationTokenMismatch; IssueCode_OperationStateVersionStale;
   IssueCode_OperationMutationForbidden; IssueCode_OperationAuthorityIncomplete;
   IssueCode_OperationDiagnosticsPresent; IssueCode_OperationGateSummaryNotPassed;
   IssueCode_CommandBindingMismatch; IssueCode_CommandTokenMismatch; IssueCode_RequiredCommandMissing;
   IssueCode_CommandNotSafelyReadOnly; IssueCode_EffectBindingMismatch; IssueCode_EffectTokenMismatch;
   IssueCode_EffectOperationMismatch; IssueCode_EffectPrincipalMismatch; IssueCode_PrincipalMismatch;
   IssueCode_PrincipalRoleMismatch; IssueCode_PrincipalNotTrusted; IssueCode_PrincipalCredentialMissing;
   IssueCode_PrincipalAudienceMismatch; IssueCode_PrincipalScopeMissing; IssueCode_AttestedIntentMismatch;
   IssueCode_AuthoritySnapshotTokenMismatch; IssueCode_InvocationNonceMissing;
   IssueCode_InvocationReplayRejected; IssueCode_InvocationExpired; IssueCode_InvocationFromFuture;
   IssueCode_ReplayIntentMismatch; IssueCode_ReplayRevisionMismatch; IssueCode_DuplicateBinding;
   IssueCode_ClaimSnapshotIncomplete; IssueCode_ClaimSnapshotRevisionMismatch; IssueCode_ClaimMissing;
   IssueCode_ClaimRevisionMismatch; IssueCode_ClaimNotLive; IssueCode_ClaimPrincipalMismatch;
   IssueCode_ClaimRoleMismatch; IssueCode_ClaimStateVersionMismatch; IssueCode_ClaimConflict;
   IssueCode_ClaimCoverageMissing; IssueCode_GateSnapshotIncomplete; IssueCode_GateSnapshotRevisionMismatch;
   IssueCode_GateMissing; IssueCode_GateRevisionMismatch; IssueCode_GateNotPassed;
   IssueCode_GateEvidenceMissing; IssueCode_GateStateVersionMismatch; IssueCode_CommitStrategyUnsupported;
   IssueCode_CommitScopeInsufficient; IssueCode_CommitGuaranteeMissing; IssueCode_SagaCompensationIncomplete].

Definition issue_rank (c : IssueCode) : Z :=
  match c with
  | IssueCode_AssuranceCaseMismatch => 0
  | IssueCode_AssuranceTokenMismatch => 1
  | IssueCode_AssuranceNotReady => 2
  | IssueCode_AssuranceSnapshotStale => 3
  | IssueCode_AssuranceObligationUnresolved => 4
  | IssueCode_AssuranceDecisionPending => 5
  | IssueCode_AssuranceCapabilityGap => 6
  | IssueCode_OperationMismatch => 7
  | IssueCode_OperationTokenMismatch => 8
  | IssueCode_OperationStateVersionStale => 9
  | IssueCode_OperationMutationForbidden => 10
  | IssueCode_OperationAuthorityIncomplete => 11
  | IssueCode_OperationDiagnosticsPresent => 12
  | IssueCode_OperationGateSummaryNotPassed => 13
  | IssueCode_CommandBindingMismatch => 14
  | IssueCode_CommandTokenMismatch => 15
  | IssueCode_RequiredCommandMissing => 16
  | IssueCode_CommandNotSafelyReadOnly => 17
  | IssueCode_EffectBindingMismatch => 18
  | IssueCode_EffectTokenMismatch => 19
  | IssueCode_EffectOperationMismatch => 20
  | IssueCode_EffectPrincipalMismatch => 21
  | IssueCode_PrincipalMismatch => 22
  | IssueCode_PrincipalRoleMismatch => 23
  | IssueCode_PrincipalNotTrusted => 24
  | IssueCode_PrincipalCredentialMissing => 25
  | IssueCode_PrincipalAudienceMismatch => 26
  | IssueCode_PrincipalScopeMissing => 27
  | IssueCode_AttestedIntentMismatch => 28
  | IssueCode_AuthoritySnapshotTokenMismatch => 29
  | IssueCode_InvocationNonceMissing => 30
  | IssueCode_InvocationReplayRejected => 31
  | IssueCode_InvocationExpired => 32
  | IssueCode_InvocationFromFuture => 33
  | IssueCode_ReplayIntentMismatch => 34
  | IssueCode_ReplayRevisionMismatch => 35
  | IssueCode_DuplicateBinding => 36
  | IssueCode_ClaimSnapshotIncomplete => 37
  | IssueCode_ClaimSnapshotRevisionMismatch => 38
  | IssueCode_ClaimMissing => 39
  | IssueCode_ClaimRevisionMismatch => 40
  | IssueCode_ClaimNotLive => 41
  | IssueCode_ClaimPrincipalMismatch => 42
  | IssueCode_ClaimRoleMismatch => 43
  | IssueCode_ClaimStateVersionMismatch => 44
  | IssueCode_ClaimConflict => 45
  | IssueCode_ClaimCoverageMissing => 46
  | IssueCode_GateSnapshotIncomplete => 47
  | IssueCode_GateSnapshotRevisionMismatch => 48
  | IssueCode_GateMissing => 49
  | IssueCode_GateRevisionMismatch => 50
  | IssueCode_GateNotPassed => 51
  | IssueCode_GateEvidenceMissing => 52
  | IssueCode_GateStateVersionMismatch => 53
  | IssueCode_CommitStrategyUnsupported => 54
  | IssueCode_CommitScopeInsufficient => 55
  | IssueCode_CommitGuaranteeMissing => 56
  | IssueCode_SagaCompensationIncomplete => 57
  end.

Lemma issue_rank_lookup c : IssueCode_ALL !! Z.to_nat (issue_rank c) = Some c.
Proof. by destruct c. Qed.

#[export] Instance issue_rank_inj : Inj (=) (=) issue_rank.
Proof. intros c d E. pose proof (issue_rank_lookup c) as H. rewrite E, issue_rank_lookup in H. by simplify_eq. Qed.

#[export] Instance IssueCode_eq_dec : EqDecision IssueCode.
Proof.
  intros c d. destruct (decide (issue_rank c = issue_rank d)) as [E|E]; [left; by apply (inj issue_rank) | right; congruence].
Defined.

#[export] Instance ExecutionAdmissionIssue_eq_dec : EqDecision ExecutionAdmissionIssue.
Proof. solve_decision. Defined.
#[export] Instance ReplayReservationStatus_eq_dec : EqDecision ReplayReservationStatus.
Proof. solve_decision. Defined.
#[export] Instance ExecutionCommitScope_eq_dec : EqDecision ExecutionCommitScope.
Proof. solve_decision. Defined.
#[export] Instance GuaranteeStatus_eq_dec : EqDecision GuaranteeStatus.
Proof. solve_decision. Defined.
#[export] Instance CompensationCoverage_eq_dec : EqDecision CompensationCoverage.
Proof. solve_decision. Defined.
#[export] Instance SnapshotCompleteness_eq_dec : EqDecision SnapshotCompleteness.
Proof. solve_decision. Defined.
#[export] Instance ClaimContractDocument_eq_dec : EqDecision ClaimContractDocument.
Proof. solve_decision. Defined.
#[export] Instance ContentAddressedBinding_eq_dec : EqDecision ContentAddressedBinding.
Proof. solve_decision. Defined.
#[export] Instance RevisionExpectation_eq_dec : EqDecision RevisionExpectation.
Proof. solve_decision. Defined.
#[export] Instance EffectContractBinding_eq_dec : EqDecision EffectContractBinding.
Proof. solve_decision. Defined.
#[export] Instance ExecutionAdmissionRequest_eq_dec : EqDecision ExecutionAdmissionRequest.
Proof. solve_decision. Defined.
#[export] Instance ClaimRevisionObservation_eq_dec : EqDecision ClaimRevisionObservation.
Proof. solve_decision. Defined.
#[export] Instance ClaimSnapshotObservation_eq_dec : EqDecision ClaimSnapshotObservation.
Proof. solve_decision. Defined.
#[export] Instance GateRevisionObservation_eq_dec : EqDecision GateRevisionObservation.
Proof. solve_decision. Defined.
#[export] Instance GateSnapshotObservation_eq_dec : EqDecision GateSnapshotObservation.
Proof. solve_decision. Defined.
#[export] Instance AuthoritySnapshotBinding_eq_dec : EqDecision AuthoritySnapshotBinding.
Proof. solve_decision. Defined.

(** ** Content addresses *)

(** [canonical_digest]: the digest, or the text of the canonicalization error. *)
Class CanonicalDigest (T : Type) := canonical_digest : T -> Result string string.

(** The digests of the documents an admission reads. *)
Class AdmissionDigests := {
  digest_assurance : CanonicalDigest AssuranceCaseDocument;
  digest_operation : CanonicalDigest OperationContractDocument;
  digest_command : CanonicalDigest CommandContractDocument;
  digest_effect : CanonicalDigest ToolEffectContractDocument;
  digest_request : CanonicalDigest ExecutionAdmissionRequest;
  digest_snapshot : CanonicalDigest AuthoritySnapshotBinding
}.

Section tokens.
Context {digests : AdmissionDigests}.

Definition canonical (subject : string) (r : Result string string) : Result string ExecutionAdmissionRejection :=
  map_err (ExecutionAdmissionRejection_Canonicalization subject) r.

Definition assurance_case_token (document : AssuranceCaseDocument) : Result string ExecutionAdmissionRejection :=
  canonical "Assurance Case" (digest_assurance document).
Definition operation_contract_token (document : OperationContractDocument) : Result string ExecutionAdmissionRejection :=
  canonical "Operation Contract" (digest_operation document).
Definition command_contract_token (document : CommandContractDocument) : Result string ExecutionAdmissionRejection :=
  canonical "Command Contract" (digest_command document).
Definition effect_contract_token (document : ToolEffectContractDocument) : Result string ExecutionAdmissionRejection :=
  canonical "Tool Effect Contract" (digest_effect document).
Definition execution_intent_digest (request : ExecutionAdmissionRequest) : Result string ExecutionAdmissionRejection :=
  canonical "execution admission request" (digest_request request).

Definition authority_snapshot_token (claim_snapshot : ClaimSnapshotObservation)
    (gate_snapshot : GateSnapshotObservation) (current_state_version now_unix : Z)
    : Result string ExecutionAdmissionRejection :=
  canonical "execution authority snapshot"
    (digest_snapshot {| asb_claim_snapshot := claim_snapshot; asb_gate_snapshot := gate_snapshot;
                        asb_current_state_version := current_state_version; asb_now_unix := now_unix |}).

End tokens.

(** ** Helpers *)

(** [push_issue] under a condition. *)
Definition issue_if (b : bool) (code : IssueCode) (subject : string) : list ExecutionAdmissionIssue :=
  if b then [{| eai_code := code; eai_subject := subject |}] else [].

Definition stable_ids (values : list StableId) : gset string := list_to_set (map StableId_0 values).
Definition binding_refs (values : list ContentAddressedBinding) : gset string := list_to_set (map cab_reference values).
Definition repo_paths (values : list RepoPath) : gset string := list_to_set (map RepoPath_0 values).

(** The keys are not pairwise distinct. *)
Definition has_duplicates {A} (key : A -> string) (values : list A) : bool :=
  negb (size (list_to_set (C := gset string) (map key values)) =? length values)%nat.

Definition has_duplicate_bindings : list ContentAddressedBinding -> bool := has_duplicates cab_reference.
Definition has_duplicate_stable_ids : list StableId -> bool := has_duplicates StableId_0.
Definition has_duplicate_repo_paths : list RepoPath -> bool := has_duplicates RepoPath_0.
Definition has_duplicate_revision_expectations : list RevisionExpectation -> bool := has_duplicates rx_reference.
Definition has_duplicate_claim_observations : list ClaimRevisionObservation -> bool :=
  has_duplicates (fun value => RepoPath_0 (cro_claim_ref value)).
Definition has_duplicate_gate_observations : list GateRevisionObservation -> bool :=
  has_duplicates (fun value => RepoPath_0 (gro_gate_ref value)).

Definition caller_role_matches_actor (caller : CallerRole) (actor : ActorRole) : bool :=
  match caller, actor with
  | CallerRole_Driver, ActorRole_Driver
  | CallerRole_Worker, ActorRole_Worker
  | CallerRole_Runtime, ActorRole_Runtime
  | CallerRole_Unknown, ActorRole_Unknown => true
  | _, _ => false
  end.

Definition file_backed_effect_target (target_kind : EffectTargetKind) : bool :=
  match target_kind with
  | EffectTargetKind_FilePath | EffectTargetKind_ArtifactId | EffectTargetKind_EvidenceId
  | EffectTargetKind_LedgerStream | EffectTargetKind_RequestStream => true
  | _ => false
  end.

(** [i64::saturating_add], [i64::saturating_sub], [i64::try_from(u64).unwrap_or(i64::MAX)]. *)
Definition i64_saturate (z : Z) : Z := Z.max i64_min (Z.min i64_max z).
Definition seconds_limit (z : Z) : Z := default i64_max (i64_try_from z).

(** ** The evaluation *)

Definition evaluate_commit (input : ExecutionAdmissionInput) : list ExecutionAdmissionIssue :=
  let commit := ei_commit input in
  let effects := ei_effect_contracts input in
  let require_wal_guarantees :=
    issue_if (negb (bool_decide (cao_wal_lock commit = GuaranteeStatus_Verified))
              || negb (bool_decide (cao_rollback_recovery commit = GuaranteeStatus_Verified))
              || negb (bool_decide (cao_durable_commit_record commit = GuaranteeStatus_Verified)))
      IssueCode_CommitGuaranteeMissing "wal" in
  match cao_strategy commit with
  | ExecutionCommitStrategy_SingleEffectWal =>
      issue_if (negb (length effects =? 1)%nat
                || negb (bool_decide (cao_scope commit = ExecutionCommitScope_SingleEffect)))
        IssueCode_CommitScopeInsufficient "single_effect_wal"
      ++ require_wal_guarantees
  | ExecutionCommitStrategy_OperationWideWal =>
      issue_if ((length effects <? 2)%nat
                || negb (bool_decide (cao_scope commit = ExecutionCommitScope_WholeOperation)))
        IssueCode_CommitScopeInsufficient "operation_wide_wal"
      ++ require_wal_guarantees
  | ExecutionCommitStrategy_Saga =>
      issue_if true IssueCode_CommitStrategyUnsupported "saga"
      ++ issue_if (negb (bool_decide (cao_scope commit = ExecutionCommitScope_WholeOperation)))
           IssueCode_CommitScopeInsufficient "saga"
      ++ issue_if (negb (bool_decide (cao_compensation commit = CompensationCoverage_Complete))
                   || existsb (fun binding =>
                        let repair := te_repair (ted_tool_effect_contract (ecb_document binding)) in
                        bool_decide (inv_kind (erp_inverse repair) = InverseKind_None)
                        || negb (erp_stop_if_inverse_missing repair)) effects)
           IssueCode_SagaCompensationIncomplete "saga"
  end%list.

(** One required gate: its issues, and the expectation when it is valid. *)
Definition evaluate_gate (input : ExecutionAdmissionInput) (required : RequiredGate)
    : list ExecutionAdmissionIssue * list RevisionExpectation :=
  let reference := RepoPath_0 (rqg_gate_contract_ref required) in
  match List.find (fun expectation => bool_decide (rx_reference expectation = reference))
          (eq_expected_gate_revisions (ei_request input)) with
  | None => (issue_if true IssueCode_GateRevisionMismatch reference, [])
  | Some expectation =>
      match List.find (fun gate => bool_decide (RepoPath_0 (gro_gate_ref gate) = reference))
              (gso_gates (ei_gate_snapshot input)) with
      | None => (issue_if true IssueCode_GateMissing reference, [])
      | Some observation =>
          if negb (gro_revision observation =? rx_revision expectation)
          then (issue_if true IssueCode_GateRevisionMismatch reference, [])
          else
            let gate := gcd_gate_contract (gro_document observation) in
            let issues :=
              (issue_if (negb (bool_decide (gr_status (gc_gate gate) = GateStatus_Pass)))
                 IssueCode_GateNotPassed reference
               ++ issue_if (match gc_evidence_refs gate with [] => true | _ => false end
                            || str_is_empty (trim (StableId_0 (gr_checked_by (gc_gate gate)))))
                    IssueCode_GateEvidenceMissing reference
               ++ issue_if (negb (gro_observed_state_version observation =? ei_current_state_version input))
                    IssueCode_GateStateVersionMismatch reference)%list in
            (issues, match issues with [] => [expectation] | _ => [] end)
      end
  end.

Definition evaluate_gates (input : ExecutionAdmissionInput)
    : list ExecutionAdmissionIssue * list RevisionExpectation :=
  let request := ei_request input in
  let snapshot := ei_gate_snapshot input in
  let results := map (evaluate_gate input)
    (gap_required_before_mutation (oc_gates (ocd_operation_contract (ei_operation input)))) in
  (issue_if (negb (bool_decide (gso_completeness snapshot = SnapshotCompleteness_Complete)))
     IssueCode_GateSnapshotIncomplete "gate_snapshot"
   ++ issue_if (negb (gso_revision snapshot =? eq_expected_gate_snapshot_revision request))
        IssueCode_GateSnapshotRevisionMismatch "gate_snapshot"
   ++ issue_if (has_duplicate_revision_expectations (eq_expected_gate_revisions request)
                || has_duplicate_gate_observations (gso_gates snapshot))
        IssueCode_DuplicateBinding "gate_revisions"
   ++ concat (map fst results),
   sort_by rx_reference (concat (map snd results)))%list.

(** One expected claim revision. *)
Definition evaluate_expected_claim (snapshot : ClaimSnapshotObservation) (expectation : RevisionExpectation)
    : list ExecutionAdmissionIssue * list RevisionExpectation :=
  match List.find (fun claim => bool_decide (RepoPath_0 (cro_claim_ref claim) = rx_reference expectation))
          (cso_claims snapshot) with
  | None => (issue_if true IssueCode_ClaimMissing (rx_reference expectation), [])
  | Some observation =>
      if negb (cro_revision observation =? rx_revision expectation)
      then (issue_if true IssueCode_ClaimRevisionMismatch (rx_reference expectation), [])
      else ([], [expectation])
  end.

(** The checks of the claim the operation requires. *)
Definition evaluate_required_claim (input : ExecutionAdmissionInput) (required_ref : RepoPath)
    (required : ClaimRevisionObservation) : list ExecutionAdmissionIssue :=
  let principal := ei_principal input in
  let claim := cld_claim_contract (cro_document required) in
  (issue_if (negb (is_live claim (ei_now_unix input))) IssueCode_ClaimNotLive (RepoPath_0 required_ref)
   ++ issue_if (negb (bool_decide (ci_claimant_principal_id (cc_claim claim) = Some (epo_principal_id principal)))
                || negb (bool_decide (ci_claimant_agent_id (cc_claim claim) = epo_agent_id principal)))
        IssueCode_ClaimPrincipalMismatch (RepoPath_0 required_ref)
   ++ issue_if (negb (caller_role_matches_actor (epo_role principal) (ci_claimant_role (cc_claim claim))))
        IssueCode_ClaimRoleMismatch (RepoPath_0 required_ref)
   ++ issue_if (negb (cl_expected_state_version (cc_lease claim) =? ei_current_state_version input))
        IssueCode_ClaimStateVersionMismatch (RepoPath_0 required_ref)
   ++ issue_if (negb (existsb (fun expectation => bool_decide (rx_reference expectation = RepoPath_0 required_ref)
                                 && (rx_revision expectation =? cro_revision required))
                        (eq_expected_claim_revisions (ei_request input))))
        IssueCode_ClaimRevisionMismatch (RepoPath_0 required_ref))%list.

(** The files an operation writes. *)
Definition file_targets (input : ExecutionAdmissionInput) : list RepoPath :=
  map (fun write => mk_RepoPath (ew_reference write))
    (List.filter (fun write => file_backed_effect_target (ew_target_kind write))
       (concat (map (fun binding => te_write_set (ted_tool_effect_contract (ecb_document binding)))
          (ei_effect_contracts input)))).

Definition snapshot_claims (input : ExecutionAdmissionInput) : list ClaimContract :=
  map (fun claim => cld_claim_contract (cro_document claim)) (cso_claims (ei_claim_snapshot input)).

Section evaluation.
Context `{ToLowercase} {digests : AdmissionDigests}.

(** The check of the write set against the claims of the snapshot. *)
Definition evaluate_write_set (input : ExecutionAdmissionInput) : list ExecutionAdmissionIssue :=
  match file_targets input with
  | [] => []
  | targets =>
      match check_write_against_claims_for_principal targets (epo_principal_id (ei_principal input))
              (epo_agent_id (ei_principal input)) (snapshot_claims input) (ei_now_unix input) with
      | WriteCheck_Blocked _ => issue_if true IssueCode_ClaimConflict "effect_write_set"
      | WriteCheck_Ok _ ungoverned =>
          issue_if (match ungoverned with [] => false | _ => true end) IssueCode_ClaimCoverageMissing "effect_write_set"
      end
  end.

(** An operation that requires a claim returns early when the claim is not named or not found. *)
Definition evaluate_claims (input : ExecutionAdmissionInput)
    : list ExecutionAdmissionIssue * list RevisionExpectation :=
  let request := ei_request input in
  let snapshot := ei_claim_snapshot input in
  let results := map (evaluate_expected_claim snapshot) (eq_expected_claim_revisions request) in
  let validated := concat (map snd results) in
  let first :=
    (issue_if (negb (bool_decide (cso_completeness snapshot = SnapshotCompleteness_Complete)))
       IssueCode_ClaimSnapshotIncomplete "claim_snapshot"
     ++ issue_if (negb (cso_revision snapshot =? eq_expected_claim_snapshot_revision request))
          IssueCode_ClaimSnapshotRevisionMismatch "claim_snapshot"
     ++ issue_if (has_duplicate_revision_expectations (eq_expected_claim_revisions request)
                  || has_duplicate_claim_observations (cso_claims snapshot))
          IssueCode_DuplicateBinding "claim_revisions"
     ++ concat (map fst results))%list in
  let write_authority := cos_write_authority (oc_coordination_scope (ocd_operation_contract (ei_operation input))) in
  let finish required_issues :=
    ((first ++ required_issues ++ evaluate_write_set input)%list, sort_by rx_reference validated) in
  if wa_requires_driver_claim write_authority || wa_requires_lane_claim write_authority then
    match wa_claim_contract_ref write_authority with
    | None => ((first ++ issue_if true IssueCode_ClaimMissing "operation.claim_contract_ref")%list, validated)
    | Some required_ref =>
        match List.find (fun claim => bool_decide (cro_claim_ref claim = required_ref)) (cso_claims snapshot) with
        | None => ((first ++ issue_if true IssueCode_ClaimMissing (RepoPath_0 required_ref))%list, validated)
        | Some required => finish (evaluate_required_claim input required_ref required)
        end
    end
  else finish [].

Definition evaluate_principal_and_replay (input : ExecutionAdmissionInput) (intent_digest : string)
    : list ExecutionAdmissionIssue :=
  let request := ei_request input in
  let principal := ei_principal input in
  let replay := ei_replay input in
  let concurrency := cos_concurrency (oc_coordination_scope (ocd_operation_contract (ei_operation input))) in
  let agent_id := StableId_0 (epo_agent_id principal) in
  let id := StableId_0 (eq_id request) in
  let max_age := seconds_limit (ei_max_attestation_age_seconds input) in
  let max_future := seconds_limit (ei_max_future_skew_seconds input) in
  (issue_if (negb (bool_decide (eq_principal_id request = epo_principal_id principal))
             || negb (bool_decide (eq_agent_id request = epo_agent_id principal))
             || match con_agent_id concurrency with
                | Some agent => negb (bool_decide (agent = epo_agent_id principal))
                | None => false
                end)
     IssueCode_PrincipalMismatch agent_id
   ++ issue_if (negb (bool_decide (eq_principal_role request = epo_role principal))
                || negb (bool_decide (con_caller_role concurrency = epo_role principal)))
        IssueCode_PrincipalRoleMismatch agent_id
   ++ issue_if (negb (authorizes_mutation (epo_trust principal))) IssueCode_PrincipalNotTrusted agent_id
   ++ issue_if (str_is_empty (trim (epo_credential_id principal))) IssueCode_PrincipalCredentialMissing agent_id
   ++ issue_if (str_is_empty (trim (epo_audience principal))
                || str_is_empty (trim (epo_required_audience principal))
                || negb (bool_decide (epo_audience principal = epo_required_audience principal)))
        IssueCode_PrincipalAudienceMismatch agent_id
   ++ issue_if (negb (existsb (fun grant => bool_decide (StableId_0 grant = EXECUTION_AUTHORITY_SCOPE))
                        (epo_authority_grants principal)))
        IssueCode_PrincipalScopeMissing agent_id
   ++ issue_if (negb (bool_decide (epo_attested_intent_digest principal = intent_digest)))
        IssueCode_AttestedIntentMismatch id
   ++ issue_if (str_is_empty (trim (eq_nonce request)) || str_is_empty (trim (rpo_nonce replay)))
        IssueCode_InvocationNonceMissing id
   ++ issue_if (negb (bool_decide (rpo_status replay = ReplayReservationStatus_FreshReserved)))
        IssueCode_InvocationReplayRejected id
   ++ issue_if ((rpo_reservation_revision replay =? 0)
                || (eq_expected_replay_reservation_revision request =? 0)
                || negb (rpo_reservation_revision replay =? eq_expected_replay_reservation_revision request))
        IssueCode_ReplayRevisionMismatch id
   ++ issue_if (negb (bool_decide (rpo_nonce replay = eq_nonce request))
                || negb (bool_decide (rpo_reserved_intent_digest replay = intent_digest)))
        IssueCode_ReplayIntentMismatch id
   ++ (if i64_saturate (ei_now_unix input + max_future) <? eq_issued_at_unix request
       then issue_if true IssueCode_InvocationFromFuture id
       else issue_if (max_age <? i64_saturate (ei_now_unix input - eq_issued_at_unix request))
              IssueCode_InvocationExpired id))%list.

Definition evaluate_authority_snapshot (input : ExecutionAdmissionInput)
    : Result (list ExecutionAdmissionIssue) ExecutionAdmissionRejection :=
  try computed <- authority_snapshot_token (ei_claim_snapshot input) (ei_gate_snapshot input)
                    (ei_current_state_version input) (ei_now_unix input);
  Ok (issue_if (negb (bool_decide (eq_authority_snapshot_token (ei_request input) = computed)))
        IssueCode_AuthoritySnapshotTokenMismatch "authority_snapshot").

(** The obligations, decisions and gaps that are due before execution and still open. *)
Definition obligation_unresolved (obligation : Obligation) : bool :=
  (readiness_rank (ob_required_before obligation) <=? readiness_rank ReadinessTarget_Execute)
  && negb (bool_decide (ob_criticality obligation = ObligationCriticality_Advisory))
  && negb (bool_decide (ob_status obligation = ObligationStatus_Satisfied)).
Definition decision_pending (decision : DecisionRequest) : bool :=
  dr_blocking decision && (readiness_rank (dr_blocks_before decision) <=? readiness_rank ReadinessTarget_Execute).
Definition gap_pending (gap : CapabilityGap) : bool :=
  cg_blocking gap && (readiness_rank (cg_blocks_before gap) <=? readiness_rank ReadinessTarget_Execute).

Definition evaluate_assurance (input : ExecutionAdmissionInput)
    : Result (list ExecutionAdmissionIssue) ExecutionAdmissionRejection :=
  let request := ei_request input in
  let case := acd_assurance_case (ei_assurance_case input) in
  let readiness := ac_readiness case in
  try computed_token <- assurance_case_token (ei_assurance_case input);
  Ok (issue_if (negb (bool_decide (eq_assurance_case_id request = ac_id case)))
        IssueCode_AssuranceCaseMismatch (StableId_0 (ac_id case))
      ++ issue_if (negb (bool_decide (eq_assurance_case_token request = computed_token)))
           IssueCode_AssuranceTokenMismatch (StableId_0 (ac_id case))
      ++ issue_if ((readiness_rank (ra_target readiness) <? readiness_rank ReadinessTarget_Execute)
                   || negb (bool_decide (ra_verdict readiness = ReadinessVerdict_Ready))
                   || match ra_blocker_refs readiness with [] => false | _ => true end)
           IssueCode_AssuranceNotReady (StableId_0 (ac_id case))
      ++ issue_if (negb (psn_state_version (ac_project_snapshot case) =? ei_current_state_version input))
           IssueCode_AssuranceSnapshotStale (StableId_0 (psn_id (ac_project_snapshot case)))
      ++ concat (map (fun o => issue_if (obligation_unresolved o)
                       IssueCode_AssuranceObligationUnresolved (StableId_0 (ob_id o))) (ac_obligations case))
      ++ concat (map (fun d => issue_if (decision_pending d)
                       IssueCode_AssuranceDecisionPending (StableId_0 (dr_id d))) (ac_decision_requests case))
      ++ concat (map (fun g => issue_if (gap_pending g)
                       IssueCode_AssuranceCapabilityGap (StableId_0 (cg_id g))) (ac_capability_gaps case)))%list.

(** [find(..).is_some_and(|binding| binding.token == computed_token)]. *)
Definition token_matches (bindings : list ContentAddressedBinding) (reference computed_token : string) : bool :=
  match List.find (fun binding => bool_decide (cab_reference binding = reference)) bindings with
  | Some binding => bool_decide (cab_token binding = computed_token)
  | None => false
  end.

Definition command_safely_read_only (contract : CommandContract) : bool :=
  bool_decide (cmd_side_effect_policy contract = CommandSideEffectPolicy_ReadOnly)
  && bool_decide (cmd_network_policy contract = NetworkPolicy_Disabled)
  && negb (saf_shell_string_allowed (cmd_safety contract)) && negb (saf_writes_files (cmd_safety contract))
  && negb (saf_publishes (cmd_safety contract)) && negb (saf_installs_packages (cmd_safety contract)).

(** The loop over the command contracts. *)
Fixpoint evaluate_commands (request : ExecutionAdmissionRequest) (declared_commands : gset string)
    (commands : list CommandContractDocument) : Result (list ExecutionAdmissionIssue) ExecutionAdmissionRejection :=
  match commands with
  | [] => Ok []
  | command :: rest =>
      let contract := ccd_command_contract command in
      let id := StableId_0 (cmd_id contract) in
      try computed_token <- command_contract_token command;
      try issues <- evaluate_commands request declared_commands rest;
      Ok (issue_if (negb (bool_decide (id ∈ declared_commands))) IssueCode_CommandBindingMismatch id
          ++ issue_if (negb (token_matches (eq_command_bindings request) id computed_token))
               IssueCode_CommandTokenMismatch id
          ++ issue_if (negb (command_safely_read_only contract)) IssueCode_CommandNotSafelyReadOnly id
          ++ issues)%list
  end.

(** The loop over the effect contracts. *)
Fixpoint evaluate_effects (input : ExecutionAdmissionInput) (effects : list EffectContractBinding)
    : Result (list ExecutionAdmissionIssue) ExecutionAdmissionRejection :=
  match effects with
  | [] => Ok []
  | binding :: rest =>
      let effect := ted_tool_effect_contract (ecb_document binding) in
      let reference := RepoPath_0 (ecb_effect_ref binding) in
      try computed_token <- effect_contract_token (ecb_document binding);
      try issues <- evaluate_effects input rest;
      Ok (issue_if (negb (token_matches (eq_effect_bindings (ei_request input)) reference computed_token))
            IssueCode_EffectTokenMismatch reference
          ++ issue_if (negb (bool_decide (te_operation_ref effect
                                          = oc_contract_id (ocd_operation_contract (ei_operation input)))))
               IssueCode_EffectOperationMismatch reference
          ++ issue_if (negb (bool_decide (ea_agent_id (te_actor effect) = epo_agent_id (ei_principal input)))
                       || negb (caller_role_matches_actor (epo_role (ei_principal input)) (ea_role (te_actor effect))))
               IssueCode_EffectPrincipalMismatch reference
          ++ issues)%list
  end.

(** The checks of the operation document itself. *)
Definition evaluate_operation (input : ExecutionAdmissionInput) (operation_token : string)
    : list ExecutionAdmissionIssue :=
  let request := ei_request input in
  let operation := ocd_operation_contract (ei_operation input) in
  let id := StableId_0 (oc_contract_id operation) in
  let state_version := pr_state_version (oc_project_ref operation) in
  let authority := oc_authority operation in
  (issue_if (negb (bool_decide (eq_operation_id request = oc_contract_id operation))) IssueCode_OperationMismatch id
   ++ issue_if (negb (bool_decide (eq_operation_token request = operation_token))) IssueCode_OperationTokenMismatch id
   ++ issue_if (negb (state_version =? ei_current_state_version input)
                || negb (con_expected_state_version (cos_concurrency (oc_coordination_scope operation))
                         =? ei_current_state_version input)
                || negb (state_version =? psn_state_version (ac_project_snapshot
                                             (acd_assurance_case (ei_assurance_case input)))))
        IssueCode_OperationStateVersionStale id
   ++ issue_if (negb (bool_decide (aut_mutation_policy authority = MutationPolicy_Allowed))
                || bool_decide (aut_side_effect_policy authority = OperationSideEffectPolicy_ReadOnly))
        IssueCode_OperationMutationForbidden id
   ++ issue_if (match aut_missing_authority authority with [] => false | _ => true end)
        IssueCode_OperationAuthorityIncomplete id
   ++ issue_if (match dia_errors (oc_diagnostics operation) with [] => false | _ => true end)
        IssueCode_OperationDiagnosticsPresent id
   ++ issue_if (negb (bool_decide (gap_current_gate_status (oc_gates operation) = OperationGateStatus_Pass)))
        IssueCode_OperationGateSummaryNotPassed id)%list.

(** The command references of the operation, the request and the observed documents. *)
Definition evaluate_command_refs (input : ExecutionAdmissionInput) : list ExecutionAdmissionIssue :=
  let request := ei_request input in
  let operation := ocd_operation_contract (ei_operation input) in
  let observed_command_ids := map (fun document => cmd_id (ccd_command_contract document)) (ei_command_contracts input) in
  let observed_commands := stable_ids observed_command_ids in
  (issue_if (has_duplicate_bindings (eq_command_bindings request) || has_duplicate_stable_ids observed_command_ids)
     IssueCode_DuplicateBinding "command_bindings"
   ++ issue_if (negb (bool_decide (binding_refs (eq_command_bindings request) = observed_commands)))
        IssueCode_CommandBindingMismatch (StableId_0 (oc_contract_id operation))
   ++ concat (map (fun required => issue_if (negb (bool_decide (StableId_0 (cmr_id required) ∈ observed_commands)))
                     IssueCode_RequiredCommandMissing (StableId_0 (cmr_id required)))
        (List.filter cmr_required (oc_command_refs operation))))%list.

(** The effect references of the operation, the request and the observed documents. *)
Definition evaluate_effect_refs (input : ExecutionAdmissionInput) : list ExecutionAdmissionIssue :=
  let request := ei_request input in
  let operation := ocd_operation_contract (ei_operation input) in
  let observed_effect_refs := map ecb_effect_ref (ei_effect_contracts input) in
  let observed_effects := repo_paths observed_effect_refs in
  (issue_if (has_duplicate_bindings (eq_effect_bindings request) || has_duplicate_repo_paths observed_effect_refs)
     IssueCode_DuplicateBinding "effect_bindings"
   ++ issue_if (negb (bool_decide (binding_refs (eq_effect_bindings request) = observed_effects))
                || negb (bool_decide (observed_effects = repo_paths (oc_effect_contract_refs operation))))
        IssueCode_EffectBindingMismatch (StableId_0 (oc_contract_id operation)))%list.

Definition evaluate_operation_and_bindings (input : ExecutionAdmissionInput)
    : Result (list ExecutionAdmissionIssue) ExecutionAdmissionRejection :=
  let operation := ocd_operation_contract (ei_operation input) in
  let declared_commands := stable_ids (map cmr_id (oc_command_refs operation)) in
  try operation_token <- operation_contract_token (ei_operation input);
  try command_issues <- evaluate_commands (ei_request input) declared_commands (ei_command_contracts input);
  try effect_issues <- evaluate_effects input (ei_effect_contracts input);
  Ok (evaluate_operation input operation_token ++ evaluate_command_refs input ++ command_issues
      ++ evaluate_effect_refs input ++ effect_issues)%list.

(** The derived order of issues: the code, then the subject. *)
Definition issue_le : ExecutionAdmissionIssue -> ExecutionAdmissionIssue -> bool :=
  le_then (fun issue => issue_rank (eai_code issue)) (le_string eai_subject).

Definition evaluate_execution_admission (document : ExecutionAdmissionInputDocument)
    : Result ExecutionAdmissionDecision ExecutionAdmissionRejection :=
  if negb (bool_decide (eid_schema_version document = EXECUTION_ADMISSION_SCHEMA_VERSION))
  then Err (ExecutionAdmissionRejection_UnsupportedSchemaVersion (eid_schema_version document))
  else
    let input := eid_execution_admission document in
    let request := ei_request input in
    try intent_digest <- execution_intent_digest request;
    try assurance <- evaluate_assurance input;
    try snapshot <- evaluate_authority_snapshot input;
    try operation <- evaluate_operation_and_bindings input;
    let principal := evaluate_principal_and_replay input intent_digest in
    let '(claims, validated_claim_revisions) := evaluate_claims input in
    let '(gates, validated_gate_revisions) := evaluate_gates input in
    let issues := vec_dedup (sort_with issue_le
      (assurance ++ snapshot ++ operation ++ principal ++ claims ++ gates ++ evaluate_commit input)%list) in
    Ok {| ead_status := match issues with [] => ExecutionAdmissionStatus_Admitted
                                        | _ => ExecutionAdmissionStatus_Blocked end;
          ead_request_id := eq_id request; ead_intent_digest := intent_digest; ead_issues := issues;
          ead_validated_claim_revisions := validated_claim_revisions;
          ead_validated_gate_revisions := validated_gate_revisions;
          ead_commit_strategy := cao_strategy (ei_commit input) |}.

End evaluation.
