(* ===== verification/AdmissionSpec.v ===== *)
(** * When an execution is admitted

    The conditions under which [evaluate_execution_admission] answers [Admitted], stated part by
    part on the documents, and what an admission guarantees: its writes are covered by live claims
    of its principal and nobody else's, and everything it was decided on is bound to the intent the
    principal attested. *)

From S2P Require Import Prelude RustStr BTree Ordering Contracts PathScope ClaimEngine WalFrame ClaimWal ClaimProjection ClaimBus.
From S2P Require Import WriteCheck OperationContracts AssuranceContracts ExecutionAdmission.

Local Open Scope string_scope.
Local Open Scope Z_scope.
Local Open Scope forge_scope.

Section admission.
Context `{ToLowercase} {digests : AdmissionDigests}.

(** ** Specification *)

(** The contents of the request are bound to the documents that were read. *)
Definition bound (bindings : list ContentAddressedBinding) (reference : string) (digest : Result string string) : Prop :=
  exists token, digest = Ok token /\ {| cab_reference := reference; cab_token := token |} ∈ bindings.

Record assurance_admissible (input : ExecutionAdmissionInput) : Prop := {
  aa_case : eq_assurance_case_id (ei_request input) = ac_id (acd_assurance_case (ei_assurance_case input));
  aa_token : digest_assurance (ei_assurance_case input) = Ok (eq_assurance_case_token (ei_request input));
  aa_target : ra_target (ac_readiness (acd_assurance_case (ei_assurance_case input))) ≠ ReadinessTarget_Explore;
  aa_verdict : ra_verdict (ac_readiness (acd_assurance_case (ei_assurance_case input))) = ReadinessVerdict_Ready;
  aa_blockers : ra_blocker_refs (ac_readiness (acd_assurance_case (ei_assurance_case input))) = [];
  aa_state : psn_state_version (ac_project_snapshot (acd_assurance_case (ei_assurance_case input)))
             = ei_current_state_version input;
  aa_obligations : forall o, o ∈ ac_obligations (acd_assurance_case (ei_assurance_case input)) ->
    ob_required_before o ≠ ReadinessTarget_Release -> ob_criticality o ≠ ObligationCriticality_Advisory ->
    ob_status o = ObligationStatus_Satisfied;
  aa_decisions : forall d, d ∈ ac_decision_requests (acd_assurance_case (ei_assurance_case input)) ->
    dr_blocking d = true -> dr_blocks_before d = ReadinessTarget_Release;
  aa_gaps : forall g, g ∈ ac_capability_gaps (acd_assurance_case (ei_assurance_case input)) ->
    cg_blocking g = true -> cg_blocks_before g = ReadinessTarget_Release
}.

Record operation_admissible (input : ExecutionAdmissionInput) (operation : OperationContract) : Prop := {
  oa_id : eq_operation_id (ei_request input) = oc_contract_id operation;
  oa_token : digest_operation (ei_operation input) = Ok (eq_operation_token (ei_request input));
  oa_state : pr_state_version (oc_project_ref operation) = ei_current_state_version input;
  oa_expected_state : con_expected_state_version (cos_concurrency (oc_coordination_scope operation))
                      = ei_current_state_version input;
  oa_case_state : pr_state_version (oc_project_ref operation)
                  = psn_state_version (ac_project_snapshot (acd_assurance_case (ei_assurance_case input)));
  oa_mutation : aut_mutation_policy (oc_authority operation) = MutationPolicy_Allowed;
  oa_side_effects : aut_side_effect_policy (oc_authority operation) ≠ OperationSideEffectPolicy_ReadOnly;
  oa_authority : aut_missing_authority (oc_authority operation) = [];
  oa_diagnostics : dia_errors (oc_diagnostics operation) = [];
  oa_gate_summary : gap_current_gate_status (oc_gates operation) = OperationGateStatus_Pass
}.

Record commands_admissible (input : ExecutionAdmissionInput) (operation : OperationContract) : Prop := {
  ca_bindings_unique : NoDup (map cab_reference (eq_command_bindings (ei_request input)));
  ca_observed_unique : NoDup (map (fun d => StableId_0 (cmd_id (ccd_command_contract d))) (ei_command_contracts input));
  ca_bindings_observed : forall id, id ∈ map cab_reference (eq_command_bindings (ei_request input)) <->
    id ∈ map (fun d => StableId_0 (cmd_id (ccd_command_contract d))) (ei_command_contracts input);
  ca_required : forall r, r ∈ oc_command_refs operation -> cmr_required r = true ->
    StableId_0 (cmr_id r) ∈ map (fun d => StableId_0 (cmd_id (ccd_command_contract d))) (ei_command_contracts input);
  ca_each : forall d, d ∈ ei_command_contracts input ->
    StableId_0 (cmd_id (ccd_command_contract d)) ∈ map (fun r => StableId_0 (cmr_id r)) (oc_command_refs operation)
    /\ bound (eq_command_bindings (ei_request input)) (StableId_0 (cmd_id (ccd_command_contract d))) (digest_command d)
    /\ command_safely_read_only (ccd_command_contract d) = true
}.

Record effects_admissible (input : ExecutionAdmissionInput) (operation : OperationContract) : Prop := {
  fa_bindings_unique : NoDup (map cab_reference (eq_effect_bindings (ei_request input)));
  fa_observed_unique : NoDup (map (fun b => RepoPath_0 (ecb_effect_ref b)) (ei_effect_contracts input));
  fa_bindings_observed : forall r, r ∈ map cab_reference (eq_effect_bindings (ei_request input)) <->
    r ∈ map (fun b => RepoPath_0 (ecb_effect_ref b)) (ei_effect_contracts input);
  fa_observed_declared : forall r, r ∈ map (fun b => RepoPath_0 (ecb_effect_ref b)) (ei_effect_contracts input) <->
    r ∈ map RepoPath_0 (oc_effect_contract_refs operation);
  fa_each : forall b, b ∈ ei_effect_contracts input ->
    bound (eq_effect_bindings (ei_request input)) (RepoPath_0 (ecb_effect_ref b)) (digest_effect (ecb_document b))
    /\ te_operation_ref (ted_tool_effect_contract (ecb_document b)) = oc_contract_id operation
    /\ ea_agent_id (te_actor (ted_tool_effect_contract (ecb_document b))) = epo_agent_id (ei_principal input)
    /\ caller_role_matches_actor (epo_role (ei_principal input))
         (ea_role (te_actor (ted_tool_effect_contract (ecb_document b)))) = true
}.

Record principal_admissible (input : ExecutionAdmissionInput) (concurrency : ConcurrencyScope) (intent : string)
    : Prop := {
  pa_principal : eq_principal_id (ei_request input) = epo_principal_id (ei_principal input);
  pa_agent : eq_agent_id (ei_request input) = epo_agent_id (ei_principal input);
  pa_operation_agent : forall agent, con_agent_id concurrency = Some agent -> agent = epo_agent_id (ei_principal input);
  pa_role : eq_principal_role (ei_request input) = epo_role (ei_principal input);
  pa_operation_role : con_caller_role concurrency = epo_role (ei_principal input);
  pa_trust : authorizes_mutation (epo_trust (ei_principal input)) = true;
  pa_credential : trim (epo_credential_id (ei_principal input)) ≠ "";
  pa_audience : trim (epo_audience (ei_principal input)) ≠ "";
  pa_required_audience : epo_audience (ei_principal input) = epo_required_audience (ei_principal input);
  pa_scope : mk_StableId EXECUTION_AUTHORITY_SCOPE ∈ epo_authority_grants (ei_principal input);
  pa_intent : epo_attested_intent_digest (ei_principal input) = intent;
  pa_nonce : trim (eq_nonce (ei_request input)) ≠ "";
  pa_fresh : rpo_status (ei_replay input) = ReplayReservationStatus_FreshReserved;
  pa_reserved : rpo_reservation_revision (ei_replay input) ≠ 0;
  pa_revision : rpo_reservation_revision (ei_replay input) = eq_expected_replay_reservation_revision (ei_request input);
  pa_replay_nonce : rpo_nonce (ei_replay input) = eq_nonce (ei_request input);
  pa_replay_intent : rpo_reserved_intent_digest (ei_replay input) = intent;
  pa_not_future : eq_issued_at_unix (ei_request input)
                  <= ei_now_unix input + Z.min i64_max (ei_max_future_skew_seconds input);
  pa_not_expired : ei_now_unix input - eq_issued_at_unix (ei_request input) <= ei_max_attestation_age_seconds input
                   \/ i64_max <= ei_max_attestation_age_seconds input
}.

Record claims_admissible (input : ExecutionAdmissionInput) (authority : WriteAuthority) : Prop := {
  la_complete : cso_completeness (ei_claim_snapshot input) = SnapshotCompleteness_Complete;
  la_revision : cso_revision (ei_claim_snapshot input) = eq_expected_claim_snapshot_revision (ei_request input);
  la_expected_unique : NoDup (map rx_reference (eq_expected_claim_revisions (ei_request input)));
  la_observed_unique : NoDup (map (fun c => RepoPath_0 (cro_claim_ref c)) (cso_claims (ei_claim_snapshot input)));
  la_expected : forall e, e ∈ eq_expected_claim_revisions (ei_request input) ->
    exists c, c ∈ cso_claims (ei_claim_snapshot input) /\ RepoPath_0 (cro_claim_ref c) = rx_reference e
              /\ cro_revision c = rx_revision e;
  la_required : wa_requires_driver_claim authority || wa_requires_lane_claim authority = true ->
    exists c, wa_claim_contract_ref authority = Some (cro_claim_ref c) /\ c ∈ cso_claims (ei_claim_snapshot input)
      /\ is_live (cld_claim_contract (cro_document c)) (ei_now_unix input) = true
      /\ ci_claimant_principal_id (cc_claim (cld_claim_contract (cro_document c)))
         = Some (epo_principal_id (ei_principal input))
      /\ ci_claimant_agent_id (cc_claim (cld_claim_contract (cro_document c))) = epo_agent_id (ei_principal input)
      /\ caller_role_matches_actor (epo_role (ei_principal input))
           (ci_claimant_role (cc_claim (cld_claim_contract (cro_document c)))) = true
      /\ cl_expected_state_version (cc_lease (cld_claim_contract (cro_document c))) = ei_current_state_version input
      /\ {| rx_reference := RepoPath_0 (cro_claim_ref c); rx_revision := cro_revision c |}
         ∈ eq_expected_claim_revisions (ei_request input);
  la_targets : forall t, t ∈ file_targets input ->
    has_owner (ei_now_unix input) (target_segments t) (snapshot_claims input) = true
    /\ has_peer (Some (epo_principal_id (ei_principal input))) (epo_agent_id (ei_principal input))
         (ei_now_unix input) (target_segments t) (snapshot_claims input) = false
}.

Record gates_admissible (input : ExecutionAdmissionInput) (gates : GatePolicy) : Prop := {
  ga_complete : gso_completeness (ei_gate_snapshot input) = SnapshotCompleteness_Complete;
  ga_revision : gso_revision (ei_gate_snapshot input) = eq_expected_gate_snapshot_revision (ei_request input);
  ga_expected_unique : NoDup (map rx_reference (eq_expected_gate_revisions (ei_request input)));
  ga_observed_unique : NoDup (map (fun g => RepoPath_0 (gro_gate_ref g)) (gso_gates (ei_gate_snapshot input)));
  ga_each : forall required, required ∈ gap_required_before_mutation gates ->
    exists g, g ∈ gso_gates (ei_gate_snapshot input) /\ gro_gate_ref g = rqg_gate_contract_ref required
      /\ {| rx_reference := RepoPath_0 (gro_gate_ref g); rx_revision := gro_revision g |}
         ∈ eq_expected_gate_revisions (ei_request input)
      /\ gr_status (gc_gate (gcd_gate_contract (gro_document g))) = GateStatus_Pass
      /\ gc_evidence_refs (gcd_gate_contract (gro_document g)) ≠ []
      /\ trim (StableId_0 (gr_checked_by (gc_gate (gcd_gate_contract (gro_document g))))) ≠ ""
      /\ gro_observed_state_version g = ei_current_state_version input
}.

Record commit_admissible (input : ExecutionAdmissionInput) : Prop := {
  ma_scope : match cao_strategy (ei_commit input) with
             | ExecutionCommitStrategy_SingleEffectWal =>
                 length (ei_effect_contracts input) = 1%nat
                 /\ cao_scope (ei_commit input) = ExecutionCommitScope_SingleEffect
             | ExecutionCommitStrategy_OperationWideWal =>
                 (2 <= length (ei_effect_contracts input))%nat
                 /\ cao_scope (ei_commit input) = ExecutionCommitScope_WholeOperation
             | ExecutionCommitStrategy_Saga => False
             end;
  ma_lock : cao_wal_lock (ei_commit input) = GuaranteeStatus_Verified;
  ma_rollback : cao_rollback_recovery (ei_commit input) = GuaranteeStatus_Verified;
  ma_record : cao_durable_commit_record (ei_commit input) = GuaranteeStatus_Verified
}.

Record admissible (input : ExecutionAdmissionInput) (intent : string) : Prop := {
  ad_intent : digest_request (ei_request input) = Ok intent;
  ad_assurance : assurance_admissible input;
  ad_snapshot : digest_snapshot {| asb_claim_snapshot := ei_claim_snapshot input;
                                   asb_gate_snapshot := ei_gate_snapshot input;
                                   asb_current_state_version := ei_current_state_version input;
                                   asb_now_unix := ei_now_unix input |}
                = Ok (eq_authority_snapshot_token (ei_request input));
  ad_operation : operation_admissible input (ocd_operation_contract (ei_operation input));
  ad_commands : commands_admissible input (ocd_operation_contract (ei_operation input));
  ad_effects : effects_admissible input (ocd_operation_contract (ei_operation input));
  ad_principal : principal_admissible input
    (cos_concurrency (oc_coordination_scope (ocd_operation_contract (ei_operation input)))) intent;
  ad_claims : claims_admissible input
    (cos_write_authority (oc_coordination_scope (ocd_operation_contract (ei_operation input))));
  ad_gates : gates_admissible input (oc_gates (ocd_operation_contract (ei_operation input)));
  ad_commit : commit_admissible input
}.

(** The fields of the input fit their machine types. *)
Definition admission_in_range (input : ExecutionAdmissionInput) : Prop :=
  in_i64 (ei_now_unix input) = true /\ in_i64 (eq_issued_at_unix (ei_request input)) = true
  /\ in_u64 (ei_max_attestation_age_seconds input) = true /\ in_u64 (ei_max_future_skew_seconds input) = true.

(** ** Correctness *)

Lemma issue_if_nil b code subject : issue_if b code subject = [] <-> b = false.
Proof. by destruct b. Qed.

Lemma has_duplicates_false {A} (key : A -> string) l : has_duplicates key l = false <-> NoDup (map key l).
Proof.
  unfold has_duplicates. by rewrite negb_false_iff, Nat.eqb_eq, <- (length_map key l), size_list_to_set_eq.
Qed.

Lemma token_matches_iff bindings reference token :
  NoDup (map cab_reference bindings) ->
  token_matches bindings reference token = true <-> {| cab_reference := reference; cab_token := token |} ∈ bindings.
Proof.
  intros Hnd. unfold token_matches. destruct (List.find _ _) as [[r t]|] eqn:E.
  - apply find_key in E as [Hin Hr]; [|done]. simpl in *. subst r. rewrite bool_decide_eq_true. split; [by intros -> |].
    intros Hin'. pose proof (key_unique cab_reference _ _ _ Hnd Hin Hin' eq_refl) as E. by simplify_eq.
  - split; [done|]. intros Hin. rewrite (proj2 (find_key cab_reference _ reference _ Hnd) (conj Hin eq_refl)) in E. done.
Qed.

Lemma ok_iff {T E} (x y : T) : @Ok T E x = Ok y <-> x = y.
Proof. split; [by intros [=] | by intros ->]. Qed.

Lemma not_nonempty {A} (l : list A) : match l with [] => false | _ => true end = false <-> l = [].
Proof. by destruct l. Qed.

(** "No issue" as its conditions. *)
Ltac no_issues :=
  rewrite ?ok_iff, ?app_nil_iff, ?concat_map_nil, ?issue_if_nil, ?orb_false_iff, ?not_nonempty, ?negb_false_iff,
    ?bool_decide_eq_true, ?Z.eqb_eq.

Lemma execute_target_iff t :
  (readiness_rank t <=? readiness_rank ReadinessTarget_Execute) = false <-> t = ReadinessTarget_Release.
Proof. by destruct t. Qed.

Lemma obligation_unresolved_false o :
  obligation_unresolved o = false <->
  (ob_required_before o ≠ ReadinessTarget_Release -> ob_criticality o ≠ ObligationCriticality_Advisory ->
   ob_status o = ObligationStatus_Satisfied).
Proof.
  unfold obligation_unresolved. destruct (ob_required_before o), (ob_criticality o), (ob_status o); simpl; (split; [done || intros _ ? ?; done | intuition congruence]).
Qed.

Lemma decision_pending_false d :
  decision_pending d = false <-> (dr_blocking d = true -> dr_blocks_before d = ReadinessTarget_Release).
Proof. unfold decision_pending. destruct (dr_blocking d), (dr_blocks_before d); simpl; naive_solver. Qed.

Lemma gap_pending_false g :
  gap_pending g = false <-> (cg_blocking g = true -> cg_blocks_before g = ReadinessTarget_Release).
Proof. unfold gap_pending. destruct (cg_blocking g), (cg_blocks_before g); simpl; naive_solver. Qed.

Lemma canonical_ok subject r token : canonical subject r = Ok token <-> r = Ok token.
Proof. destruct r; simpl; naive_solver. Qed.

Lemma evaluate_assurance_spec input :
  evaluate_assurance input = Ok [] <-> assurance_admissible input.
Proof.
  unfold evaluate_assurance, assurance_case_token.
  destruct (digest_assurance (ei_assurance_case input)) as [t|e] eqn:E; simpl; [|split; [done | intros []; congruence]].
  set (case := acd_assurance_case _) in *.
  transitivity (eq_assurance_case_id (ei_request input) = ac_id case /\ eq_assurance_case_token (ei_request input) = t
    /\ (readiness_rank (ra_target (ac_readiness case)) <? readiness_rank ReadinessTarget_Execute = false
        /\ ra_verdict (ac_readiness case) = ReadinessVerdict_Ready /\ ra_blocker_refs (ac_readiness case) = [])
    /\ psn_state_version (ac_project_snapshot case) = ei_current_state_version input
    /\ (forall o, o ∈ ac_obligations case -> obligation_unresolved o = false)
    /\ (forall d, d ∈ ac_decision_requests case -> decision_pending d = false)
    /\ (forall g, g ∈ ac_capability_gaps case -> gap_pending g = false)).
  { no_issues. setoid_rewrite issue_if_nil. tauto. }
  assert (readiness_rank (ra_target (ac_readiness case)) <? readiness_rank ReadinessTarget_Execute = false
          <-> ra_target (ac_readiness case) ≠ ReadinessTarget_Explore) as -> by (by destruct (ra_target _)).
  setoid_rewrite obligation_unresolved_false. setoid_rewrite decision_pending_false. setoid_rewrite gap_pending_false.
  split.
  - intros (? & <- & (? & ? & ?) & ? & ? & ? & ?). by constructor.
  - intros []. repeat split; try done. congruence.
Qed.

Lemma i64_try_from_u64 z : in_u64 z = true -> seconds_limit z = Z.min i64_max z.
Proof.
  intros Hu. unfold in_u64 in Hu. bool_simpl. unfold seconds_limit, i64_try_from, in_i64, i64_min, i64_max, u64_max in *.
  destruct (Z.leb_spec (-9223372036854775808) z), (Z.leb_spec z 9223372036854775807); simpl; lia.
Qed.

(** The window of an attestation: the saturating arithmetic never rejects one that is inside its limits. *)
Lemma window_spec input :
  admission_in_range input ->
  (if i64_saturate (ei_now_unix input + seconds_limit (ei_max_future_skew_seconds input)) <? eq_issued_at_unix (ei_request input)
   then true
   else seconds_limit (ei_max_attestation_age_seconds input)
        <? i64_saturate (ei_now_unix input - eq_issued_at_unix (ei_request input))) = false
  <-> eq_issued_at_unix (ei_request input) <= ei_now_unix input + Z.min i64_max (ei_max_future_skew_seconds input)
      /\ (ei_now_unix input - eq_issued_at_unix (ei_request input) <= ei_max_attestation_age_seconds input
          \/ i64_max <= ei_max_attestation_age_seconds input).
Proof.
  intros (Hn & Hi & Ha & Hf). rewrite !i64_try_from_u64 by done.
  unfold in_i64, in_u64, i64_saturate, i64_max, i64_min, u64_max in *. bool_simpl.
  generalize dependent (ei_now_unix input). generalize dependent (eq_issued_at_unix (ei_request input)).
  generalize dependent (ei_max_attestation_age_seconds input). generalize dependent (ei_max_future_skew_seconds input).
  intros f Hf1 Hf2 a Ha1 Ha2 i Hi1 Hi2 n Hn1 Hn2.
  destruct (Z.ltb_spec (Z.max (-9223372036854775808) (Z.min 9223372036854775807 (n + Z.min 9223372036854775807 f))) i);
    [|rewrite Z.ltb_ge]; lia.
Qed.

Lemma str_is_empty_false s : str_is_empty s = false <-> s ≠ "".
Proof. destruct s; simpl; naive_solver. Qed.

Lemma evaluate_principal_spec input intent :
  admission_in_range input ->
  evaluate_principal_and_replay input intent = [] <->
  principal_admissible input
    (cos_concurrency (oc_coordination_scope (ocd_operation_contract (ei_operation input)))) intent.
Proof.
  intros Hr. unfold evaluate_principal_and_replay. set (con := cos_concurrency _).
  match goal with |- context [if ?b then issue_if true ?c ?s else issue_if ?d ?c' ?s] =>
    assert ((if b then issue_if true c s else issue_if d c' s) = [] <-> (if b then true else d) = false) as Hw
      by (destruct b; [done | apply issue_if_nil]) end.
  rewrite !app_nil_iff, Hw, window_spec by done. no_issues. rewrite !str_is_empty_false, !Z.eqb_neq, existsb_In.
  assert ((exists x, x ∈ epo_authority_grants (ei_principal input) /\ bool_decide (StableId_0 x = EXECUTION_AUTHORITY_SCOPE) = true)
          <-> mk_StableId EXECUTION_AUTHORITY_SCOPE ∈ epo_authority_grants (ei_principal input)) as ->.
  { split; [intros ([x] & Hx & Hs); bool_simpl; simpl in Hs; by rewrite <- Hs | intros Hx; by eexists]. }
  assert (match con_agent_id con with Some agent => negb (bool_decide (agent = epo_agent_id (ei_principal input))) | None => false end = false
          <-> forall agent, con_agent_id con = Some agent -> agent = epo_agent_id (ei_principal input)) as ->.
  { destruct (con_agent_id con) as [a|]; [|naive_solver]. rewrite negb_false_iff, bool_decide_eq_true. naive_solver. }
  split.
  - intros. destruct_and!. by constructor.
  - intros []. repeat split; try done; congruence.
Qed.

Lemma evaluate_operation_spec input token :
  digest_operation (ei_operation input) = Ok token ->
  evaluate_operation input token = [] <-> operation_admissible input (ocd_operation_contract (ei_operation input)).
Proof.
  intros E. unfold evaluate_operation. no_issues. rewrite bool_decide_eq_false. split.
  - intros. destruct_and!. by constructor; [..| congruence | | | | | | | |].
  - intros []. repeat split; try done. congruence.
Qed.

Lemma stable_ids_elem ids x : x ∈ stable_ids ids <-> x ∈ map StableId_0 ids.
Proof. unfold stable_ids. by rewrite elem_of_list_to_set. Qed.

Lemma set_ids_eq (l k : list string) :
  (list_to_set (C := gset string) l = list_to_set k) <-> forall x, x ∈ l <-> x ∈ k.
Proof. rewrite set_eq. by setoid_rewrite elem_of_list_to_set. Qed.

Lemma evaluate_commands_spec request declared commands :
  NoDup (map cab_reference (eq_command_bindings request)) ->
  evaluate_commands request declared commands = Ok [] <->
  forall d, d ∈ commands ->
    StableId_0 (cmd_id (ccd_command_contract d)) ∈ declared
    /\ bound (eq_command_bindings request) (StableId_0 (cmd_id (ccd_command_contract d))) (digest_command d)
    /\ command_safely_read_only (ccd_command_contract d) = true.
Proof.
  intros Hnd. induction commands as [|d ds IH]; simpl; [split; [by intros _ ? ?%elem_of_nil | done]|].
  unfold command_contract_token at 1. setoid_rewrite elem_of_cons.
  destruct (digest_command d) as [t|e] eqn:E; simpl.
  2: { split; [done|]. intros Hall. destruct (Hall d (or_introl eq_refl)) as (_ & (t & Ht & _) & _). congruence. }
  destruct (evaluate_commands request declared ds) as [is'|e] eqn:Er; simpl.
  - no_issues. rewrite token_matches_iff by done. rewrite ok_iff in IH. rewrite IH. split.
    + intros (? & ? & ? & ?) x [->|Hx]; [|auto]. unfold bound. rewrite E. repeat split; try done. by exists t.
    + intros Hall. destruct (Hall d (or_introl eq_refl)) as (? & (t' & Ht & ?) & ?). simplify_eq.
      assert (t' = t) as -> by congruence. repeat split; try done; intros; apply Hall; by right.
  - split; [done|]. intros Hall. apply IH. auto.
Qed.

Lemma evaluate_effects_spec input effects :
  NoDup (map cab_reference (eq_effect_bindings (ei_request input))) ->
  evaluate_effects input effects = Ok [] <->
  forall b, b ∈ effects ->
    bound (eq_effect_bindings (ei_request input)) (RepoPath_0 (ecb_effect_ref b)) (digest_effect (ecb_document b))
    /\ te_operation_ref (ted_tool_effect_contract (ecb_document b))
       = oc_contract_id (ocd_operation_contract (ei_operation input))
    /\ ea_agent_id (te_actor (ted_tool_effect_contract (ecb_document b))) = epo_agent_id (ei_principal input)
    /\ caller_role_matches_actor (epo_role (ei_principal input))
         (ea_role (te_actor (ted_tool_effect_contract (ecb_document b)))) = true.
Proof.
  intros Hnd. induction effects as [|d ds IH]; simpl; [split; [by intros _ ? ?%elem_of_nil | done]|].
  unfold effect_contract_token at 1. setoid_rewrite elem_of_cons.
  destruct (digest_effect (ecb_document d)) as [t|e] eqn:E; simpl.
  2: { split; [done|]. intros Hall. destruct (Hall d (or_introl eq_refl)) as ((t & Ht & _) & _). congruence. }
  destruct (evaluate_effects input ds) as [is'|e] eqn:Er; simpl.
  - no_issues. rewrite token_matches_iff by done. rewrite ok_iff in IH. rewrite IH. split.
    + intros (? & ? & (? & ?) & ?) x [->|Hx]; [|auto]. unfold bound. rewrite E. repeat split; try done. by exists t.
    + intros Hall. destruct (Hall d (or_introl eq_refl)) as ((t' & Ht & ?) & ? & ? & ?).
      assert (t' = t) as -> by congruence. repeat split; try done; intros; apply Hall; by right.
  - split; [done|]. intros Hall. apply IH. auto.
Qed.

Lemma evaluate_command_refs_spec input :
  let operation := ocd_operation_contract (ei_operation input) in
  evaluate_command_refs input = [] <->
  NoDup (map cab_reference (eq_command_bindings (ei_request input)))
  /\ NoDup (map (fun d => StableId_0 (cmd_id (ccd_command_contract d))) (ei_command_contracts input))
  /\ (forall id, id ∈ map cab_reference (eq_command_bindings (ei_request input)) <->
        id ∈ map (fun d => StableId_0 (cmd_id (ccd_command_contract d))) (ei_command_contracts input))
  /\ (forall r, r ∈ oc_command_refs operation -> cmr_required r = true ->
        StableId_0 (cmr_id r) ∈ map (fun d => StableId_0 (cmd_id (ccd_command_contract d))) (ei_command_contracts input)).
Proof.
  simpl. unfold evaluate_command_refs. no_issues.
  unfold has_duplicate_bindings, has_duplicate_stable_ids. rewrite !has_duplicates_false, map_map.
  setoid_rewrite issue_if_nil. setoid_rewrite filter_In_iff.
  setoid_rewrite negb_false_iff. setoid_rewrite bool_decide_eq_true. setoid_rewrite stable_ids_elem.
  unfold binding_refs, stable_ids. rewrite set_ids_eq, map_map. naive_solver.
Qed.

Lemma evaluate_effect_refs_spec input :
  let operation := ocd_operation_contract (ei_operation input) in
  evaluate_effect_refs input = [] <->
  NoDup (map cab_reference (eq_effect_bindings (ei_request input)))
  /\ NoDup (map (fun b => RepoPath_0 (ecb_effect_ref b)) (ei_effect_contracts input))
  /\ (forall r, r ∈ map cab_reference (eq_effect_bindings (ei_request input)) <->
        r ∈ map (fun b => RepoPath_0 (ecb_effect_ref b)) (ei_effect_contracts input))
  /\ (forall r, r ∈ map (fun b => RepoPath_0 (ecb_effect_ref b)) (ei_effect_contracts input) <->
        r ∈ map RepoPath_0 (oc_effect_contract_refs operation)).
Proof.
  simpl. unfold evaluate_effect_refs. no_issues. unfold has_duplicate_bindings, has_duplicate_repo_paths.
  rewrite !has_duplicates_false, map_map. unfold binding_refs, repo_paths. rewrite !set_ids_eq, map_map. tauto.
Qed.

Lemma evaluate_operation_and_bindings_spec input :
  let operation := ocd_operation_contract (ei_operation input) in
  evaluate_operation_and_bindings input = Ok [] <->
  operation_admissible input operation /\ commands_admissible input operation /\ effects_admissible input operation.
Proof.
  intros operation. unfold evaluate_operation_and_bindings, operation_contract_token.
  destruct (digest_operation (ei_operation input)) as [t|e] eqn:E; simpl; [|split; [done | intros [[] _]; congruence]].
  fold operation.
  pose proof (fun Hnd => evaluate_commands_spec (ei_request input) (stable_ids (map cmr_id (oc_command_refs operation)))
    (ei_command_contracts input) Hnd) as Hc.
  setoid_rewrite stable_ids_elem in Hc. rewrite map_map in Hc.
  pose proof (fun Hnd => evaluate_effects_spec input (ei_effect_contracts input) Hnd) as He.
  pose proof (evaluate_command_refs_spec input) as Hcr. pose proof (evaluate_effect_refs_spec input) as Her.
  fold operation in He, Hcr, Her. simpl in Hcr, Her.
  transitivity (evaluate_operation input t = [] /\ evaluate_command_refs input = []
    /\ evaluate_commands (ei_request input) (stable_ids (map cmr_id (oc_command_refs operation)))
         (ei_command_contracts input) = Ok []
    /\ evaluate_effect_refs input = [] /\ evaluate_effects input (ei_effect_contracts input) = Ok []).
  { destruct (evaluate_commands _ _ _) as [cs|]; simpl; [|naive_solver].
    destruct (evaluate_effects _ _) as [es|]; simpl; [|naive_solver]. rewrite !ok_iff, !app_nil_iff. tauto. }
  rewrite (evaluate_operation_spec input t E), Hcr, Her. fold operation. split.
  - intros (? & (Hnc & ? & ? & ?) & Hcs & (Hne & ? & ? & ?) & Hes). rewrite Hc in Hcs by done. rewrite He in Hes by done.
    split; [done|]. split; by constructor.
  - intros (? & [] & []). rewrite Hc, He by done. done.
Qed.

Lemma evaluate_commit_spec input : evaluate_commit input = [] <-> commit_admissible input.
Proof.
  unfold evaluate_commit. destruct (cao_strategy (ei_commit input)) eqn:Es; no_issues.
  - rewrite Nat.eqb_eq. split; [intros; destruct_and!; constructor; try rewrite Es; done|].
    intros [Hs]. rewrite Es in Hs. tauto.
  - rewrite Nat.ltb_ge. split; [intros; destruct_and!; constructor; try rewrite Es; done|].
    intros [Hs]. rewrite Es in Hs. tauto.
  - split; [by intros [? _]|]. intros [Hs]. by rewrite Es in Hs.
Qed.

Lemma not_empty_list {A} (l : list A) : match l with [] => true | _ => false end = false <-> l ≠ [].
Proof. by destruct l. Qed.

Lemma RepoPath_0_iff (p q : RepoPath) : RepoPath_0 p = RepoPath_0 q <-> p = q.
Proof. destruct p, q; simpl; naive_solver. Qed.

Lemma expected_In (l : list RevisionExpectation) e : e ∈ l -> {| rx_reference := rx_reference e; rx_revision := rx_revision e |} ∈ l.
Proof. by destruct e. Qed.

Lemma evaluate_gate_spec input required :
  NoDup (map rx_reference (eq_expected_gate_revisions (ei_request input))) ->
  NoDup (map (fun g => RepoPath_0 (gro_gate_ref g)) (gso_gates (ei_gate_snapshot input))) ->
  fst (evaluate_gate input required) = [] <->
  exists g, g ∈ gso_gates (ei_gate_snapshot input) /\ gro_gate_ref g = rqg_gate_contract_ref required
    /\ {| rx_reference := RepoPath_0 (gro_gate_ref g); rx_revision := gro_revision g |}
       ∈ eq_expected_gate_revisions (ei_request input)
    /\ gr_status (gc_gate (gcd_gate_contract (gro_document g))) = GateStatus_Pass
    /\ gc_evidence_refs (gcd_gate_contract (gro_document g)) ≠ []
    /\ trim (StableId_0 (gr_checked_by (gc_gate (gcd_gate_contract (gro_document g))))) ≠ ""
    /\ gro_observed_state_version g = ei_current_state_version input.
Proof.
  intros He Hg. unfold evaluate_gate. set (r := RepoPath_0 _).
  destruct (List.find _ (eq_expected_gate_revisions _)) as [e|] eqn:Ee.
  2: { split; [done|]. intros (g & _ & Hr & Hin & _). exfalso.
       apply (proj1 (find_key_none rx_reference _ r) Ee _ Hin). simpl. by rewrite Hr. }
  apply find_key in Ee as [Hein Her]; [|done].
  destruct (List.find _ (gso_gates _)) as [g|] eqn:Eg.
  2: { split; [done|]. intros (g & Hgin & Hr & _). exfalso.
       apply (proj1 (find_key_none (fun g => RepoPath_0 (gro_gate_ref g)) _ r) Eg _ Hgin). by rewrite Hr. }
  apply (find_key (fun g => RepoPath_0 (gro_gate_ref g))) in Eg as [Hgin Hgr]; [|done].
  assert (forall g', g' ∈ gso_gates (ei_gate_snapshot input) -> gro_gate_ref g' = rqg_gate_contract_ref required -> g' = g) as Hug.
  { intros g' Hg' Hr'. apply (key_unique (fun g => RepoPath_0 (gro_gate_ref g)) _ _ _ Hg Hg' Hgin). by rewrite Hr', Hgr. }
  destruct (Z.eqb_spec (gro_revision g) (rx_revision e)) as [Erev|Erev]; simpl.
  - no_issues. rewrite not_empty_list, str_is_empty_false. split.
    + intros (? & (? & ?) & ?). exists g. repeat split; try done.
      * by apply RepoPath_0_iff.
      * rewrite Hgr, Erev, <- Her. by apply expected_In.
    + intros (g' & Hg' & Hr' & _ & Hrest). rewrite (Hug g' Hg' Hr') in Hrest. tauto.
  - split; [done|]. intros (g' & Hg' & Hr' & Hin & _). exfalso. rewrite (Hug g' Hg' Hr') in Hin.
    apply Erev. rewrite <- (key_unique rx_reference _ _ _ He Hin Hein); [done|]. simpl. by rewrite Hgr, Her.
Qed.

Lemma evaluate_gates_spec input :
  fst (evaluate_gates input) = [] <-> gates_admissible input (oc_gates (ocd_operation_contract (ei_operation input))).
Proof.
  unfold evaluate_gates. simpl. rewrite map_map. no_issues.
  unfold has_duplicate_revision_expectations, has_duplicate_gate_observations. rewrite !has_duplicates_false.
  split.
  - intros (? & ? & (? & ?) & Hall). constructor; try done. intros r Hr. apply evaluate_gate_spec; auto.
  - intros [? ? ? ? Hall]. repeat split; try done. intros r Hr. apply evaluate_gate_spec; auto.
Qed.

Lemma evaluate_expected_claim_spec snapshot e :
  NoDup (map (fun c => RepoPath_0 (cro_claim_ref c)) (cso_claims snapshot)) ->
  fst (evaluate_expected_claim snapshot e) = [] <->
  exists c, c ∈ cso_claims snapshot /\ RepoPath_0 (cro_claim_ref c) = rx_reference e /\ cro_revision c = rx_revision e.
Proof.
  intros Hnd. unfold evaluate_expected_claim. destruct (List.find _ _) as [c|] eqn:Ec.
  - apply (find_key (fun c => RepoPath_0 (cro_claim_ref c))) in Ec as [Hin Hr]; [|done].
    destruct (Z.eqb_spec (cro_revision c) (rx_revision e)) as [Erev|Erev]; simpl; [by split; [exists c|]|].
    split; [done|]. intros (c' & Hc' & Hr' & Hrev'). exfalso. apply Erev. rewrite <- Hrev'. f_equal.
    apply (key_unique (fun c => RepoPath_0 (cro_claim_ref c)) _ _ _ Hnd Hin Hc'). congruence.
  - split; [done|]. intros (c & Hin & Hr & _). exfalso.
    by apply (proj1 (find_key_none (fun c => RepoPath_0 (cro_claim_ref c)) _ (rx_reference e)) Ec _ Hin).
Qed.

Lemma evaluate_required_claim_spec input ref c :
  evaluate_required_claim input ref c = [] <->
  is_live (cld_claim_contract (cro_document c)) (ei_now_unix input) = true
  /\ ci_claimant_principal_id (cc_claim (cld_claim_contract (cro_document c)))
     = Some (epo_principal_id (ei_principal input))
  /\ ci_claimant_agent_id (cc_claim (cld_claim_contract (cro_document c))) = epo_agent_id (ei_principal input)
  /\ caller_role_matches_actor (epo_role (ei_principal input))
       (ci_claimant_role (cc_claim (cld_claim_contract (cro_document c)))) = true
  /\ cl_expected_state_version (cc_lease (cld_claim_contract (cro_document c))) = ei_current_state_version input
  /\ {| rx_reference := RepoPath_0 ref; rx_revision := cro_revision c |}
     ∈ eq_expected_claim_revisions (ei_request input).
Proof.
  unfold evaluate_required_claim. no_issues. rewrite existsb_In.
  assert ((exists x, x ∈ eq_expected_claim_revisions (ei_request input)
            /\ bool_decide (rx_reference x = RepoPath_0 ref) && (rx_revision x =? cro_revision c) = true)
          <-> {| rx_reference := RepoPath_0 ref; rx_revision := cro_revision c |}
              ∈ eq_expected_claim_revisions (ei_request input)) as ->; [|tauto].
  split.
  - intros ([r v] & Hin & Hb). bool_simpl. simpl in *. by subst.
  - intros Hin. eexists. split; [exact Hin|]. simpl. by rewrite bool_decide_eq_true_2, Z.eqb_refl.
Qed.

(** The write set is admitted when every target has a live owner and no peer. *)
Lemma evaluate_write_set_spec input :
  evaluate_write_set input = [] <->
  forall t, t ∈ file_targets input ->
    has_owner (ei_now_unix input) (target_segments t) (snapshot_claims input) = true
    /\ has_peer (Some (epo_principal_id (ei_principal input))) (epo_agent_id (ei_principal input))
         (ei_now_unix input) (target_segments t) (snapshot_claims input) = false.
Proof.
  unfold evaluate_write_set, check_write_against_claims_for_principal.
  pose proof (check_write_spec (file_targets input) (Some (epo_principal_id (ei_principal input)))
    (epo_agent_id (ei_principal input)) (snapshot_claims input) (ei_now_unix input)) as Hs.
  destruct (file_targets input) as [|t ts] eqn:Et; [split; [by intros _ ? ?%elem_of_nil | done]|]. rewrite <- Et in *.
  destruct (check_write_against_claims_internal _ _ _ _ _) as [gs us|bs]; simpl in Hs.
  - destruct Hs as (Hpeer & _ & Hu). rewrite issue_if_nil, not_nonempty. split.
    + intros -> x Hx. split; [|auto]. apply negb_false_iff, not_true_iff_false. intros Hb.
      assert (x ∈ []) as []%elem_of_nil. rewrite Hu. by apply (filter_In_iff (fun t => negb _)).
    + intros Hall. rewrite Hu. apply filter_none. intros x Hx. by rewrite (proj1 (Hall x Hx)).
  - destruct Hs as (Hne & Hb & _). split; [done|]. intros Hall. exfalso. destruct bs as [|d bs]; [done|].
    assert (bd_blocked_path d ∈ map bd_blocked_path (d :: bs)) as Hin by (by left). rewrite Hb in Hin.
    apply filter_In_iff in Hin as [Hin Hp]. by rewrite (proj2 (Hall _ Hin)) in Hp.
Qed.

(** The claim an operation requires, found by its reference. *)
Lemma find_claim_ref (claims : list ClaimRevisionObservation) ref c :
  NoDup (map (fun c => RepoPath_0 (cro_claim_ref c)) claims) ->
  List.find (fun claim => bool_decide (cro_claim_ref claim = ref)) claims = Some c <-> c ∈ claims /\ cro_claim_ref c = ref.
Proof.
  intros Hnd. split; [intros [Hin Hr]%find_some_In; by bool_simpl|]. intros [Hin <-].
  destruct (List.find _ claims) as [d|] eqn:E.
  - apply find_some_In in E as [Hd Hr]. bool_simpl. f_equal.
    apply (key_unique (fun c => RepoPath_0 (cro_claim_ref c)) _ _ _ Hnd Hd Hin). by rewrite Hr.
  - apply (proj1 (find_none_In _ _) E) in Hin. by bool_simpl.
Qed.

Definition snapshot_admissible (input : ExecutionAdmissionInput) : Prop :=
  cso_completeness (ei_claim_snapshot input) = SnapshotCompleteness_Complete
  /\ cso_revision (ei_claim_snapshot input) = eq_expected_claim_snapshot_revision (ei_request input)
  /\ (NoDup (map rx_reference (eq_expected_claim_revisions (ei_request input)))
      /\ NoDup (map (fun c => RepoPath_0 (cro_claim_ref c)) (cso_claims (ei_claim_snapshot input))))
  /\ (forall e, e ∈ eq_expected_claim_revisions (ei_request input) ->
        fst (evaluate_expected_claim (ei_claim_snapshot input) e) = []).

Lemma evaluate_claims_parts input :
  let authority := cos_write_authority (oc_coordination_scope (ocd_operation_contract (ei_operation input))) in
  fst (evaluate_claims input) = [] <->
  snapshot_admissible input
  /\ (wa_requires_driver_claim authority || wa_requires_lane_claim authority = true ->
      exists c, wa_claim_contract_ref authority = Some (cro_claim_ref c) /\ c ∈ cso_claims (ei_claim_snapshot input)
                /\ evaluate_required_claim input (cro_claim_ref c) c = [])
  /\ evaluate_write_set input = [].
Proof.
  intros authority. unfold evaluate_claims. fold authority. set (first := (issue_if _ _ _ ++ _)%list).
  assert (first = [] <-> snapshot_admissible input) as <-.
  { unfold first, snapshot_admissible. rewrite map_map. no_issues.
    unfold has_duplicate_revision_expectations, has_duplicate_claim_observations. by rewrite !has_duplicates_false. }
  assert (first = [] -> NoDup (map (fun c => RepoPath_0 (cro_claim_ref c)) (cso_claims (ei_claim_snapshot input)))) as Hnd.
  { unfold first. rewrite !app_nil_iff, !issue_if_nil, !orb_false_iff. intros (_ & _ & (_ & Hd) & _).
    by apply has_duplicates_false in Hd. }
  clearbody first.
  destruct (wa_requires_driver_claim authority || wa_requires_lane_claim authority); simpl; [|rewrite app_nil_iff; naive_solver].
  destruct (wa_claim_contract_ref authority) as [ref|]; simpl; [|rewrite app_nil_iff; naive_solver].
  destruct (List.find _ _) as [c|] eqn:Ec; simpl; rewrite !app_nil_iff; split.
  - intros (Hf & Hr & Hw). apply find_claim_ref in Ec as [Hin <-]; [|auto]. eauto 10.
  - intros (Hf & Hr & Hw). destruct (Hr eq_refl) as (d & [= ->] & Hd & Hr').
    rewrite (proj2 (find_claim_ref _ _ d (Hnd Hf)) (conj Hd eq_refl)) in Ec. by simplify_eq.
  - by intros [_ ?].
  - intros (Hf & Hr & Hw). destruct (Hr eq_refl) as (d & [= ->] & Hd & _).
    by rewrite (proj2 (find_claim_ref _ _ d (Hnd Hf)) (conj Hd eq_refl)) in Ec.
Qed.

Lemma evaluate_claims_spec input :
  fst (evaluate_claims input) = [] <->
  claims_admissible input (cos_write_authority (oc_coordination_scope (ocd_operation_contract (ei_operation input)))).
Proof.
  rewrite evaluate_claims_parts, evaluate_write_set_spec. unfold snapshot_admissible.
  setoid_rewrite evaluate_required_claim_spec. split.
  - intros ((? & ? & (? & ?) & He) & Hr & Ht). constructor; try done.
    intros e Hin. apply evaluate_expected_claim_spec; auto.
  - intros [? ? ? ? He Hr Ht]. repeat split; try done; try apply Ht; auto.
    intros e Hin. apply evaluate_expected_claim_spec; auto.
Qed.

#[local] Arguments evaluate_gates : simpl never.

Lemma issue_le_total : total_le issue_le.
Proof. unfold issue_le. auto with forge. Qed.

Lemma issue_le_trans : trans_le issue_le.
Proof. unfold issue_le. auto with forge. Qed.

Lemma issue_le_anti x y : issue_le x y = true -> issue_le y x = true -> x = y.
Proof.
  unfold issue_le, le_then, le_string. destruct x as [c s], y as [d t]; simpl.
  destruct (Z.ltb_spec (issue_rank c) (issue_rank d)), (Z.ltb_spec (issue_rank d) (issue_rank c)),
    (Z.eqb_spec (issue_rank c) (issue_rank d)) as [E|], (Z.eqb_spec (issue_rank d) (issue_rank c)); try lia; try done.
  intros Hst Hts. f_equal; [by apply (inj issue_rank)|]. by apply String.leb_antisym.
Qed.

(** The decision, from the parts of the evaluation. *)
Lemma evaluate_execution_admission_ok document decision :
  evaluate_execution_admission document = Ok decision <->
  exists intent assurance snapshot operation,
    let input := eid_execution_admission document in
    eid_schema_version document = EXECUTION_ADMISSION_SCHEMA_VERSION
    /\ digest_request (ei_request input) = Ok intent
    /\ evaluate_assurance input = Ok assurance /\ evaluate_authority_snapshot input = Ok snapshot
    /\ evaluate_operation_and_bindings input = Ok operation
    /\ let issues := vec_dedup (sort_with issue_le
         (assurance ++ snapshot ++ operation ++ evaluate_principal_and_replay input intent
          ++ fst (evaluate_claims input) ++ fst (evaluate_gates input) ++ evaluate_commit input)%list) in
       decision = {| ead_status := match issues with [] => ExecutionAdmissionStatus_Admitted
                                                   | _ => ExecutionAdmissionStatus_Blocked end;
                     ead_request_id := eq_id (ei_request input); ead_intent_digest := intent; ead_issues := issues;
                     ead_validated_claim_revisions := snd (evaluate_claims input);
                     ead_validated_gate_revisions := snd (evaluate_gates input);
                     ead_commit_strategy := cao_strategy (ei_commit input) |}.
Proof.
  unfold evaluate_execution_admission, execution_intent_digest. case_bool_decide as Ev; cbn [result_bind negb canonical map_err]; [|naive_solver].
  destruct (digest_request _) as [intent|]; cbn [result_bind negb canonical map_err]; [|naive_solver].
  destruct (evaluate_assurance _) as [assurance|]; cbn [result_bind negb canonical map_err]; [|naive_solver].
  destruct (evaluate_authority_snapshot _) as [snapshot|]; cbn [result_bind negb canonical map_err]; [|naive_solver].
  destruct (evaluate_operation_and_bindings _) as [operation|]; cbn [result_bind negb canonical map_err]; [|naive_solver].
  destruct (evaluate_claims _) as [cs vcs], (evaluate_gates _) as [gs vgs]; cbn [fst snd]. split.
  - intros [= <-]. do 4 eexists. done.
  - by intros (? & ? & ? & ? & _ & [= ->] & [= ->] & [= ->] & [= ->] & ->).
Qed.

Lemma evaluate_authority_snapshot_spec input :
  evaluate_authority_snapshot input = Ok [] <->
  digest_snapshot {| asb_claim_snapshot := ei_claim_snapshot input; asb_gate_snapshot := ei_gate_snapshot input;
                     asb_current_state_version := ei_current_state_version input; asb_now_unix := ei_now_unix input |}
  = Ok (eq_authority_snapshot_token (ei_request input)).
Proof.
  unfold evaluate_authority_snapshot, authority_snapshot_token. destruct (digest_snapshot _) as [t|]; simpl; [|done].
  no_issues. naive_solver.
Qed.

Lemma admission_spec document :
  admission_in_range (eid_execution_admission document) ->
  (exists decision, evaluate_execution_admission document = Ok decision
     /\ ead_status decision = ExecutionAdmissionStatus_Admitted)
  <-> eid_schema_version document = EXECUTION_ADMISSION_SCHEMA_VERSION
      /\ exists intent, admissible (eid_execution_admission document) intent.
Proof.
  intros Hr. setoid_rewrite evaluate_execution_admission_ok. set (input := eid_execution_admission document) in *. split.
  - intros (d & (intent & a & s & o & Hv & Hi & Ha & Hs & Ho & ->) & Hst). cbn [ead_status] in Hst.
    destruct (vec_dedup _) eqn:E in Hst; [|done]. apply vec_dedup_nil, sort_with_nil in E. rewrite !app_nil_iff in E.
    destruct E as (-> & -> & -> & Hp & Hc & Hg & Hm). split; [done|]. exists intent.
    apply evaluate_operation_and_bindings_spec in Ho as (? & ? & ?).
    constructor; [done | by apply evaluate_assurance_spec | by apply evaluate_authority_snapshot_spec | done | done | done
      | by apply evaluate_principal_spec | by apply evaluate_claims_spec | by apply evaluate_gates_spec
      | by apply evaluate_commit_spec].
  - intros (Hv & intent & []). eexists. split.
    { exists intent, [], [], []. split; [done|]. split; [done|]. split; [by apply evaluate_assurance_spec|].
      split; [by apply evaluate_authority_snapshot_spec|]. split; [by apply evaluate_operation_and_bindings_spec|].
      reflexivity. }
    cbn [ead_status]. fold input. rewrite (proj2 (evaluate_principal_spec input intent Hr)), (proj2 (evaluate_claims_spec input)),
      (proj2 (evaluate_gates_spec input)), (proj2 (evaluate_commit_spec input)) by done. reflexivity.
Qed.

End admission.

(** *** Rejections *)

(** The canonical form of a document of the input cannot be written. *)
Definition uncanonical {digests : AdmissionDigests} (input : ExecutionAdmissionInput) : Prop :=
  is_ok (digest_request (ei_request input)) = false
  \/ is_ok (digest_assurance (ei_assurance_case input)) = false
  \/ is_ok (digest_snapshot {| asb_claim_snapshot := ei_claim_snapshot input; asb_gate_snapshot := ei_gate_snapshot input;
                               asb_current_state_version := ei_current_state_version input;
                               asb_now_unix := ei_now_unix input |}) = false
  \/ is_ok (digest_operation (ei_operation input)) = false
  \/ (exists command, command ∈ ei_command_contracts input /\ is_ok (digest_command command) = false)
  \/ (exists binding, binding ∈ ei_effect_contracts input /\ is_ok (digest_effect (ecb_document binding)) = false).

Lemma canonical_Err subject r e :
  canonical subject r = Err e ->
  is_ok r = false /\ exists subject source, e = ExecutionAdmissionRejection_Canonicalization subject source.
Proof. destruct r; [done|]. intros [= <-]. split; [done|]. by do 2 eexists. Qed.

Lemma evaluate_commands_Err {digests : AdmissionDigests} request declared commands e :
  evaluate_commands request declared commands = Err e ->
  (exists command, command ∈ commands /\ is_ok (digest_command command) = false)
  /\ exists subject source, e = ExecutionAdmissionRejection_Canonicalization subject source.
Proof.
  induction commands as [|c commands IH]; simpl; [done|]. unfold command_contract_token.
  destruct (canonical _ (digest_command c)) as [t|e'] eqn:Ec; simpl.
  - destruct (evaluate_commands _ _ commands); simpl; [done|]. intros [= ->].
    destruct (IH eq_refl) as [(c' & ? & ?) ?]. split; [|done]. exists c'. split; [by right|done].
  - intros [= ->]. apply canonical_Err in Ec as [? ?]. split; [|done]. exists c. split; [by left|done].
Qed.

Lemma evaluate_effects_Err {digests : AdmissionDigests} input effects e :
  evaluate_effects input effects = Err e ->
  (exists binding, binding ∈ effects /\ is_ok (digest_effect (ecb_document binding)) = false)
  /\ exists subject source, e = ExecutionAdmissionRejection_Canonicalization subject source.
Proof.
  induction effects as [|c effects IH]; simpl; [done|]. unfold effect_contract_token.
  destruct (canonical _ (digest_effect (ecb_document c))) as [t|e'] eqn:Ec; simpl.
  - destruct (evaluate_effects _ effects); simpl; [done|]. intros [= ->].
    destruct (IH eq_refl) as [(c' & ? & ?) ?]. split; [|done]. exists c'. split; [by right|done].
  - intros [= ->]. apply canonical_Err in Ec as [? ?]. split; [|done]. exists c. split; [by left|done].
Qed.

Lemma rejection_spec `{ToLowercase} {digests : AdmissionDigests} document e :
  evaluate_execution_admission document = Err e ->
  match e with
  | ExecutionAdmissionRejection_UnsupportedSchemaVersion found =>
      found = eid_schema_version document /\ found ≠ EXECUTION_ADMISSION_SCHEMA_VERSION
  | ExecutionAdmissionRejection_Canonicalization _ _ =>
      eid_schema_version document = EXECUTION_ADMISSION_SCHEMA_VERSION /\ uncanonical (eid_execution_admission document)
  end.
Proof.
  unfold evaluate_execution_admission. set (input := eid_execution_admission document).
  case_bool_decide as Ev; cbn [negb]; [|intros [= <-]; done].
  assert (forall r subject (P : Prop), canonical subject r = Err e -> (is_ok r = false -> P) ->
    match e with
    | ExecutionAdmissionRejection_UnsupportedSchemaVersion found =>
        found = eid_schema_version document /\ found ≠ EXECUTION_ADMISSION_SCHEMA_VERSION
    | ExecutionAdmissionRejection_Canonicalization _ _ =>
        eid_schema_version document = EXECUTION_ADMISSION_SCHEMA_VERSION /\ P
    end) as Hcanon by (intros r subject P [Hr (s & src & ->)]%canonical_Err HP; auto).
  destruct (execution_intent_digest _) as [intent|e1] eqn:E1; cbn [result_bind];
    [|intros [= ->]; apply (Hcanon _ _ _ E1); by left].
  unfold evaluate_assurance. destruct (assurance_case_token _) as [a|e1] eqn:E2; cbn [result_bind];
    [|intros [= ->]; apply (Hcanon _ _ _ E2); by right; left].
  unfold evaluate_authority_snapshot. destruct (authority_snapshot_token _ _ _ _) as [s|e1] eqn:E3; cbn [result_bind];
    [|intros [= ->]; apply (Hcanon _ _ _ E3); by do 2 right; left].
  unfold evaluate_operation_and_bindings. destruct (operation_contract_token _) as [o|e1] eqn:E4; cbn [result_bind];
    [|intros [= ->]; apply (Hcanon _ _ _ E4); by do 3 right; left].
  destruct (evaluate_commands _ _ _) as [cs|e1] eqn:E5; cbn [result_bind].
  2: { intros [= ->]. apply evaluate_commands_Err in E5 as [Hc (subject & source & ->)]. split; [done|]. by do 4 right; left. }
  destruct (evaluate_effects _ _) as [es|e1] eqn:E6; cbn [result_bind].
  2: { intros [= ->]. apply evaluate_effects_Err in E6 as [Hc (subject & source & ->)]. split; [done|]. by do 5 right. }
  by destruct (evaluate_claims _), (evaluate_gates _).
Qed.

(** What an admission leaves established, without any assumption on the ranges. *)
Lemma admitted_inv `{ToLowercase} {digests : AdmissionDigests} document decision :
  evaluate_execution_admission document = Ok decision -> ead_status decision = ExecutionAdmissionStatus_Admitted ->
  let input := eid_execution_admission document in
  digest_request (ei_request input) = Ok (ead_intent_digest decision)
  /\ assurance_admissible input
  /\ evaluate_authority_snapshot input = Ok []
  /\ evaluate_operation_and_bindings input = Ok []
  /\ evaluate_principal_and_replay input (ead_intent_digest decision) = []
  /\ fst (evaluate_claims input) = [] /\ fst (evaluate_gates input) = [] /\ evaluate_commit input = [].
Proof.
  rewrite evaluate_execution_admission_ok. intros (intent & a & s & o & Hv & Hi & Ha & Hs & Ho & ->) Hst.
  cbn [ead_status ead_intent_digest] in *.
  destruct (vec_dedup _) eqn:E in Hst; [|done]. apply vec_dedup_nil, sort_with_nil in E. rewrite !app_nil_iff in E.
  destruct E as (-> & -> & -> & Hp & Hc & Hg & Hm). rewrite <- evaluate_assurance_spec. repeat split; done.
Qed.

(** A target of an admitted execution is governed, and only by claims of its principal. *)
Lemma admitted_target `{ToLowercase} {digests : AdmissionDigests} document decision t c :
  evaluate_execution_admission document = Ok decision -> ead_status decision = ExecutionAdmissionStatus_Admitted ->
  let input := eid_execution_admission document in
  t ∈ file_targets input -> c ∈ snapshot_claims input -> governs (ei_now_unix input) (target_segments t) c = true ->
  ci_claimant_agent_id (cc_claim c) = epo_agent_id (ei_principal input)
  /\ ci_claimant_principal_id (cc_claim c) = Some (epo_principal_id (ei_principal input)).
Proof.
  intros Hok Hst input Ht Hc Hg. destruct (admitted_inv _ _ Hok Hst) as (_ & _ & _ & _ & _ & Hcl & _).
  apply evaluate_claims_spec in Hcl as [_ _ _ _ _ _ Htg]. destruct (Htg t Ht) as [_ Hp].
  unfold has_peer in Hp. apply (proj1 (existsb_not_In _ _)) with (x := c) in Hp; [|done]. fold input in Hp.
  rewrite Hg in Hp. simpl in Hp. unfold is_self in Hp. simpl in Hp. by bool_simpl.
Qed.

(** ** Claims about execution admission *)

(** C5: the admission is exact.  When the numbers fit their machine types, an evaluation has one of
    four outcomes.  The execution is admitted, without an issue, and the document has the supported
    schema and every condition of [admissible] holds: the assurance case is ready for execution at
    the current state version, every document is bound by its digest to the request, the commands
    only read, the effects belong to the operation and the principal, the principal is trusted,
    addressed and has attested this very intent in time, the nonce is freshly reserved, the expected
    claims and gates are observed at their revisions, every written file has a live owner and no peer,
    and the commit is covered by a verified log.  Or it is blocked with an issue, and some of this
    does not hold.  Or the schema is reported as unsupported, and it is another one.  Or the
    canonical form of a document is reported as failing, and that of a document of the input does. *)
Theorem admission_exact `{ToLowercase} {digests : AdmissionDigests} document :
  admission_in_range (eid_execution_admission document) ->
  let conditions := eid_schema_version document = EXECUTION_ADMISSION_SCHEMA_VERSION
                    /\ exists intent, admissible (eid_execution_admission document) intent in
  match evaluate_execution_admission document with
  | Ok decision =>
      ead_status decision = ExecutionAdmissionStatus_Admitted /\ ead_issues decision = [] /\ conditions
      \/ ead_status decision = ExecutionAdmissionStatus_Blocked /\ ead_issues decision ≠ [] /\ ~ conditions
  | Err (ExecutionAdmissionRejection_UnsupportedSchemaVersion found) =>
      found = eid_schema_version document /\ found ≠ EXECUTION_ADMISSION_SCHEMA_VERSION
  | Err (ExecutionAdmissionRejection_Canonicalization _ _) =>
      eid_schema_version document = EXECUTION_ADMISSION_SCHEMA_VERSION
      /\ uncanonical (eid_execution_admission document) /\ ~ conditions
  end.
Proof.
  intros Hr conditions. pose proof (admission_spec document Hr) as Hspec. fold conditions in Hspec.
  destruct (evaluate_execution_admission document) as [decision|e] eqn:E.
  - assert (conditions <-> ead_status decision = ExecutionAdmissionStatus_Admitted) as -> by (rewrite <- Hspec; naive_solver).
    apply evaluate_execution_admission_ok in E as (intent & a & s & o & _ & _ & _ & _ & _ & ->). cbn [ead_status ead_issues].
    destruct (vec_dedup _); [by left|by right].
  - pose proof (rejection_spec document e E) as Hrej. destruct e as [found|subject source]; [done|].
    destruct Hrej as [Hv Hu]. split; [done|]. split; [done|]. intros Hc. apply Hspec in Hc as (d & ? & _). done.
Qed.

(** C7: admitted writes are exclusive, end to end.  When the claims an execution was admitted on are
    those of a bus the claim commands can reach before its log is rotated, every file it writes is covered by exactly one live
    claim, which its principal and agent hold; the write gate refuses that file to every other
    agent, and no execution of another principal or agent that writes the same file is admitted at
    the same instant on the same claims. *)
Theorem admitted_writes_exclusive `{ToLowercase} {digests : AdmissionDigests} {codec : WalCodec} {laws : WalCodecLaws codec}
    dir st claims st' document decision t :
  wd_unselected_residue dir = false -> bus_reachable dir st -> unrotated st ->
  load_claims dir st = (Ok claims, st') ->
  let input := eid_execution_admission document in
  snapshot_claims input ≡ₚ claims ->
  evaluate_execution_admission document = Ok decision -> ead_status decision = ExecutionAdmissionStatus_Admitted ->
  t ∈ file_targets input ->
  exists c, c ∈ claims
    /\ ci_claimant_agent_id (cc_claim c) = epo_agent_id (ei_principal input)
    /\ ci_claimant_principal_id (cc_claim c) = Some (epo_principal_id (ei_principal input))
    /\ (forall d, d ∈ claims -> governs (ei_now_unix input) (target_segments t) d = true <-> d = c)
    /\ (forall agent targets, agent ≠ epo_agent_id (ei_principal input) -> t ∈ targets ->
          is_blocked (check_write_against_claims targets agent claims (ei_now_unix input)) = true)
    /\ (forall document' decision' t', let input' := eid_execution_admission document' in
          snapshot_claims input' ≡ₚ claims -> ei_now_unix input' = ei_now_unix input ->
          evaluate_execution_admission document' = Ok decision' ->
          ead_status decision' = ExecutionAdmissionStatus_Admitted ->
          t' ∈ file_targets input' -> target_segments t' = target_segments t ->
          epo_agent_id (ei_principal input') = epo_agent_id (ei_principal input)
          /\ epo_principal_id (ei_principal input') = epo_principal_id (ei_principal input)).
Proof.
  intros Hres Hreach Hb Hload input Hcl Hok Hst Ht.
  destruct (bus_loaded_exclusive dir st claims st' Hres Hreach Hb Hload) as [_ Hex].
  destruct (admitted_inv _ _ Hok Hst) as (_ & _ & _ & _ & _ & Hci & _).
  apply evaluate_claims_spec in Hci as [_ _ _ _ _ _ Htg]. destruct (Htg t Ht) as [Ho _]. fold input in Ho.
  apply has_owner_In in Ho as (c & Hc & Hg). destruct (admitted_target _ _ t c Hok Hst Ht Hc Hg) as [Ha Hp].
  rewrite Hcl in Hc. exists c. split; [done|]. split; [done|]. split; [done|]. split; [|split].
  - intros d Hd. split; [intros Hgd; by apply (single_owner claims (ei_now_unix input) (target_segments t)) | by intros ->].
  - intros agent targets Hne Hin. apply check_write_blocked. exists t. split; [done|].
    apply has_peer_In. exists c. split; [done|]. split; [done|]. unfold is_self. rewrite Ha.
    rewrite bool_decide_eq_false_2; [done|]. intros E. by apply Hne.
  - intros document' decision' t' input' Hcl' Hnow Hok' Hst' Ht' Hseg.
    destruct (admitted_target document' decision' t' c) as [Ha' Hp']; try done.
    + fold input'. by rewrite Hcl'.
    + fold input'. by rewrite Hnow, Hseg.
    + fold input' in Ha', Hp'. rewrite Ha in Ha'. rewrite Hp in Hp'. by simplify_eq.
Qed.

(** No two documents have the same digest. *)
Definition collision_free {T} (digest : T -> Result string string) : Prop :=
  forall x y token, digest x = Ok token -> digest y = Ok token -> x = y.

Lemma attested_intent input intent :
  evaluate_principal_and_replay input intent = [] -> epo_attested_intent_digest (ei_principal input) = intent.
Proof.
  unfold evaluate_principal_and_replay. rewrite !app_nil_iff. intros (_ & _ & _ & _ & _ & _ & Hi & _).
  by rewrite issue_if_nil, negb_false_iff, bool_decide_eq_true in Hi.
Qed.

(** Documents listed once each and bound to the same request are the same. *)
Lemma bound_same {A D} (key : A -> string) (document : A -> D) (digest : D -> Result string string) bindings (l k : list A) :
  collision_free digest -> (forall x y, key x = key y -> document x = document y -> x = y) ->
  NoDup (map cab_reference bindings) -> NoDup (map key l) -> NoDup (map key k) ->
  (forall r, r ∈ map cab_reference bindings <-> r ∈ map key l) ->
  (forall r, r ∈ map cab_reference bindings <-> r ∈ map key k) ->
  (forall x, x ∈ l -> bound bindings (key x) (digest (document x))) ->
  (forall x, x ∈ k -> bound bindings (key x) (digest (document x))) -> l ≡ₚ k.
Proof.
  intros Hcf Hkd Hb Hl Hk Hbl Hbk Hdl Hdk.
  assert (forall l k, (forall r, r ∈ map key l <-> r ∈ map key k) ->
    (forall x, x ∈ l -> bound bindings (key x) (digest (document x))) ->
    (forall x, x ∈ k -> bound bindings (key x) (digest (document x))) -> forall x, x ∈ l -> x ∈ k) as Hsub.
  { intros l' k' Hiff Hd' Hk' x Hx. assert (key x ∈ map key k') as Hin by (apply Hiff, map_In_iff; eauto).
    apply map_In_iff in Hin as (y & Ey & Hy). destruct (Hd' x Hx) as (t & Et & Ht), (Hk' y Hy) as (u & Eu & Hu).
    rewrite <- Ey in Hu. pose proof (key_unique cab_reference _ _ _ Hb Ht Hu eq_refl) as E. simplify_eq.
    by rewrite (Hkd x y Ey (Hcf _ _ _ Et Eu)). }
  apply NoDup_Permutation; [by eapply NoDup_fmap_1, Hl | by eapply NoDup_fmap_1, Hk|].
  intros x. split; apply Hsub; try done; intros r; rewrite <- Hbl, <- Hbk; done.
Qed.

(** C18: an attested intent fixes everything the execution was admitted on.  When the digests have no
    collisions, two admitted executions whose principals attested the same intent digest have the
    same request, assurance case, operation, claim and gate snapshots, state version and instant,
    and the same command and effect documents: no document can be exchanged behind an attestation. *)
Theorem intent_binds_execution `{ToLowercase} {digests : AdmissionDigests} document1 decision1 document2 decision2 :
  collision_free digest_request -> collision_free digest_assurance -> collision_free digest_operation ->
  collision_free digest_snapshot -> collision_free digest_command -> collision_free digest_effect ->
  evaluate_execution_admission document1 = Ok decision1 -> ead_status decision1 = ExecutionAdmissionStatus_Admitted ->
  evaluate_execution_admission document2 = Ok decision2 -> ead_status decision2 = ExecutionAdmissionStatus_Admitted ->
  let input1 := eid_execution_admission document1 in
  let input2 := eid_execution_admission document2 in
  epo_attested_intent_digest (ei_principal input1) = epo_attested_intent_digest (ei_principal input2) ->
  ei_request input1 = ei_request input2
  /\ ei_assurance_case input1 = ei_assurance_case input2
  /\ ei_operation input1 = ei_operation input2
  /\ ei_claim_snapshot input1 = ei_claim_snapshot input2 /\ ei_gate_snapshot input1 = ei_gate_snapshot input2
  /\ ei_current_state_version input1 = ei_current_state_version input2 /\ ei_now_unix input1 = ei_now_unix input2
  /\ ei_command_contracts input1 ≡ₚ ei_command_contracts input2
  /\ ei_effect_contracts input1 ≡ₚ ei_effect_contracts input2.
Proof.
  intros Hr Ha Ho Hs Hc He Hok1 Hst1 Hok2 Hst2 input1 input2 Hsame.
  destruct (admitted_inv _ _ Hok1 Hst1) as (Hi1 & [_ Hat1 _ _ _ _ _ _ _] & Hs1 & Hob1 & Hp1 & _).
  destruct (admitted_inv _ _ Hok2 Hst2) as (Hi2 & [_ Hat2 _ _ _ _ _ _ _] & Hs2 & Hob2 & Hp2 & _).
  fold input1 in Hi1, Hat1, Hs1, Hob1, Hp1. fold input2 in Hi2, Hat2, Hs2, Hob2, Hp2.
  apply attested_intent in Hp1, Hp2. apply evaluate_authority_snapshot_spec in Hs1, Hs2.
  apply evaluate_operation_and_bindings_spec in Hob1 as ([_ Ht1 _ _ _ _ _ _ _ _] & [Hcb1 Hcu1 Hco1 _ Hce1] & [Hfb1 Hfu1 Hfo1 _ Hfe1]).
  apply evaluate_operation_and_bindings_spec in Hob2 as ([_ Ht2 _ _ _ _ _ _ _ _] & [Hcb2 Hcu2 Hco2 _ Hce2] & [Hfb2 Hfu2 Hfo2 _ Hfe2]).
  assert (ei_request input1 = ei_request input2) as Ereq.
  { apply (Hr _ _ _ Hi1). by rewrite Hi2, <- Hp1, <- Hp2, Hsame. }
  rewrite <- Ereq in *. pose proof (Hs _ _ _ Hs1 Hs2) as Esnap.
  split; [done|]. split; [by apply (Ha _ _ _ Hat1 Hat2)|]. split; [by apply (Ho _ _ _ Ht1 Ht2)|].
  split; [by simplify_eq|]. split; [by simplify_eq|]. split; [by simplify_eq|]. split; [by simplify_eq|]. split.
  - apply (bound_same (fun d => StableId_0 (cmd_id (ccd_command_contract d))) (fun d => d) digest_command
      (eq_command_bindings (ei_request input1))); try done; intros x Hx; [apply (Hce1 x Hx) | apply (Hce2 x Hx)].
  - apply (bound_same (fun b => RepoPath_0 (ecb_effect_ref b)) ecb_document digest_effect
      (eq_effect_bindings (ei_request input1))); try done; [|intros x Hx; apply (Hfe1 x Hx) | intros x Hx; apply (Hfe2 x Hx)].
    intros [[p] d] [[q] e]; simpl. by intros -> ->.
Qed.
