(* ===== verification/AdmissionExamples.v ===== *)
(** * A concrete admission

    A bus with one claim of a verified principal, and an execution that edits one file under it, on
    which the theorems about admission are instantiated.  The digests accept the documents of the
    example only, so that no two documents share one. *)

From S2P Require Import Prelude RustStr BTree Ordering Contracts PathScope ClaimEngine WalFrame ClaimWal ClaimProjection ClaimBus.
From S2P Require Import WriteCheck OperationContracts AssuranceContracts ExecutionAdmission AdmissionSpec.

Local Open Scope string_scope.
Local Open Scope list_scope.
Local Open Scope Z_scope.

#[local] Existing Instance ascii_lowercase.

Module Run.

Definition t0 : Z := 1700000000.
Definition agent : StableId := mk_StableId "agent-a".
Definition principal : PrincipalId := mk_PrincipalId "principal-a".

Definition req : AcquireRequest := {|
  ar_scope_kind := ClaimScopeKind_Story; ar_scope_id := mk_ScopeId "s1"; ar_principal_id := Some principal;
  ar_agent_id := agent; ar_role := ActorRole_Worker; ar_ttl_seconds := 600;
  ar_heartbeat_interval_seconds := 60; ar_paths := [mk_RepoPath "src/core"]; ar_product_area := None;
  ar_expected_state_version := Some 7 |}.

Definition claim : ClaimContract := new_claim req t0 (t0 + 600).

Definition payload : ClaimWalPayload := {|
  wp_schema_version := "0.1"; wp_operation := ClaimWalOperation_Acquire;
  wp_recorded_at := cl_acquired_at (cc_lease claim); wp_claim_contract := claim |}.

#[export] Instance codec : WalCodec := TableCodec.codec [payload].
#[export] Instance codec_laws : WalCodecLaws codec := TableCodec.codec_laws [payload].

Definition bus : BusState :=
  Eval vm_compute in (run_acquire TableCodec.fresh_directory bus_initial req t0 io_success).2.

Lemma bus_run : run_acquire TableCodec.fresh_directory bus_initial req t0 io_success = (EnvOk claim, bus).
Proof. vm_compute. reflexivity. Qed.

Lemma bus_is_reachable : bus_reachable TableCodec.fresh_directory bus.
Proof.
  apply rtc_once. pose proof (step_acquire TableCodec.fresh_directory bus_initial req t0 io_success) as Hs.
  rewrite bus_run in Hs. apply Hs. by vm_compute.
Qed.

Definition claim_ref : RepoPath := mk_RepoPath "contracts/claims/s1.yaml".
Definition gate_ref : RepoPath := mk_RepoPath "contracts/gates/g1.yaml".
Definition effect_ref : RepoPath := mk_RepoPath "contracts/effects/e1.yaml".
Definition test_id : StableId := mk_StableId "cargo-test".

Definition operation : OperationContractDocument := {| ocd_operation_contract := {|
  oc_schema_version := "0.1"; oc_contract_id := mk_StableId "op-1"; oc_created_at := "2023-11-14T22:13:20Z";
  oc_project_ref := {| pr_root := mk_RepoPath "."; pr_project_id := mk_StableId "p"; pr_state_version := 7 |};
  oc_source := {| os_host := mk_StableId "host"; os_surface := OperationSurface_CliJson;
                  os_operation := ForgeOperation_RecordArtifact; os_human_input_digest := "" |};
  oc_autonomy := {| aup_mode := OperationAutonomyMode_Execute; aup_rationale := "" |};
  oc_recommendation := {| rec_next_actor := NextActor_HostAgent; rec_next_operation := None;
    rec_host_action := HostAction_CallOperation; rec_phase := mk_StableId "build";
    rec_workflow := mk_StableId "w"; rec_action := mk_StableId "a" |};
  oc_authority := {| aut_mutation_policy := MutationPolicy_Allowed;
    aut_side_effect_policy := OperationSideEffectPolicy_WriteProjectFiles; aut_authority_sources := [];
    aut_authority_evidence := []; aut_missing_authority := [] |};
  oc_coordination_scope := {|
    cos_target := {| cot_kind := TargetKind_Story; cot_id := None; cot_product_area := None; cot_paths := [] |};
    cos_concurrency := {| con_expected_state_version := 7; con_agent_id := Some agent;
      con_caller_role := CallerRole_Worker; con_fleet_mode := false; con_registry_ref := None |};
    cos_write_authority := {| wa_requires_driver_claim := false; wa_requires_lane_claim := true;
      wa_claim_contract_ref := Some claim_ref |};
    cos_completion := {| cmp_must_check_completion := false; cmp_completion_contract_ref := None |} |};
  oc_execution_policy := {| exp_mode := ExecutionMode_SingleStep; exp_max_steps := 1;
    exp_retry_policy := {| rtp_max_attempts := 1; rtp_on_failure := RetryFailureAction_Stop |};
    exp_branch_policy := {| brp_allowed_branches := []; brp_default_branch := mk_StableId "main" |} |};
  oc_stop_policy := {| stp_stop_when := []; stp_on_stop := {| sth_next_actor := NextActor_Human;
    sth_next_operation := None; sth_host_action := HostAction_ShowStatus |} |};
  oc_request := None; oc_decision_close := None; oc_runtime_handoff := None; oc_allowed_actions := [];
  oc_forbidden_actions := [];
  oc_human := {| hup_input_requirement := HumanInputRequirement_None;
    hup_prompt := {| hpr_mode := PromptMode_None; hpr_text := ""; hpr_options := [] |};
    hup_tone_contract := mk_StableId "t" |};
  oc_loads := {| lds_required := []; lds_optional := [] |};
  oc_gates := {| gap_required_before_mutation := [{| rqg_scope := OperationGateScope_Lane;
      rqg_gate_contract_ref := gate_ref; rqg_reason := None |}];
    gap_current_gate_status := OperationGateStatus_Pass; gap_gate_contract_refs := [gate_ref] |};
  oc_stop_conditions := []; oc_command_refs := [{| cmr_id := test_id; cmr_required := true |}];
  oc_effect_contract_refs := [effect_ref]; oc_risk_boundaries := [];
  oc_diagnostics := {| dia_warnings := []; dia_errors := [] |} |} |}.

Definition command : CommandContractDocument := {| ccd_schema_version := "0.1"; ccd_command_contract := {|
  cmd_id := test_id; cmd_contract_ref := mk_RepoPath "contracts/commands/c1.yaml"; cmd_kind := CommandKind_Test;
  cmd_executor := CommandExecutor_Cargo; cmd_args := ["test"]; cmd_cwd_policy := CwdPolicy_ProjectRoot;
  cmd_side_effect_policy := CommandSideEffectPolicy_ReadOnly; cmd_platforms := [CommandPlatform_Linux];
  cmd_timeout_ms := 1000; cmd_env_policy := {| env_inherit := EnvInheritPolicy_Minimal; env_required := [];
  env_forbidden := [] |}; cmd_network_policy := NetworkPolicy_Disabled;
  cmd_output_policy := {| out_capture := OutputCapture_Summary; out_max_bytes := 1000 |};
  cmd_authority_required := [];
  cmd_safety := {| saf_shell_string_allowed := false; saf_writes_files := false; saf_publishes := false;
                   saf_installs_packages := false |} |} |}.

Definition effect : ToolEffectContractDocument := {| ted_schema_version := "0.1"; ted_tool_effect_contract := {|
  te_id := mk_StableId "e1"; te_contract_ref := effect_ref; te_effect_kind := EffectKind_FileEdit;
  te_operation_ref := mk_StableId "op-1"; te_actor := {| ea_agent_id := agent; ea_role := ActorRole_Worker |};
  te_read_set := [];
  te_write_set := [{| ew_target_kind := EffectTargetKind_FilePath; ew_reference := "src/core/a.rs";
    ew_access_mode := AccessMode_Write; ew_expected_hash := None; ew_expected_version := None;
    ew_destructive := false |}];
  te_conflict_detection := {| cd_check_against := mk_StableId "claims"; cd_granularity := mk_StableId "file";
    cd_conflict_codes := []; cd_policy := EffectConflictPolicy_Block |};
  te_notification := {| en_required := false; en_recipients := []; en_request_contract_ref := None |};
  te_repair := {| erp_strategy := RepairStrategy_None; erp_automatic_repair_allowed := false;
    erp_inverse_operation_ref := None; erp_stop_if_inverse_missing := true;
    erp_inverse := {| inv_kind := InverseKind_ExactRollback; inv_source := InverseSource_Snapshot;
      inv_reference := None; inv_input_mapping_refs := []; inv_validation_gate_refs := [];
      inv_review_required := false |} |} |} |}.

Definition gate : GateContractDocument := {| gcd_schema_version := "0.1"; gcd_gate_contract := {|
  gc_id := mk_StableId "g1"; gc_contract_ref := gate_ref;
  gc_gate := {| gr_scope := GateScope_Lane; gr_status := GateStatus_Pass; gr_checked_at := "";
                gr_checked_by := mk_StableId "ci" |};
  gc_target := {| gtg_kind := GateTargetKind_Lane; gtg_id := mk_StableId "s1"; gtg_product_area := None;
                  gtg_paths := [] |};
  gc_evidence_refs := [{| ger_kind := GateEvidenceKind_TestReport; ger_reference := "report" |}];
  gc_promotion := {| gpr_policy := PromotionPolicy_NoPromotion; gpr_parent_gate_ref := None |};
  gc_blocks := {| gb_operations := [] |} |} |}.

Definition assurance : AssuranceCaseDocument := {| acd_schema_version := "0.1"; acd_assurance_case := {|
  ac_id := mk_StableId "case-1";
  ac_intent := {| ip_id := mk_StableId "i1"; ip_desired_outcome := "edit"; ip_constraints := [];
    ip_preferences := []; ip_unacceptable_outcomes := []; ip_uncertainties := [] |};
  ac_project_snapshot := {| psn_id := mk_StableId "snap"; psn_state_version := 7; psn_observed_at := "";
    psn_evidence_refs := []; psn_phase_projection := None |};
  ac_obligations := []; ac_claims := []; ac_decision_requests := []; ac_capability_gaps := [];
  ac_next_actions := [];
  ac_readiness := {| ra_target := ReadinessTarget_Execute; ra_verdict := ReadinessVerdict_Ready;
                     ra_blocker_refs := []; ra_rationale := "" |} |} |}.

Definition claim_snapshot : ClaimSnapshotObservation := {|
  cso_revision := 3; cso_completeness := SnapshotCompleteness_Complete;
  cso_claims := [{| cro_claim_ref := claim_ref; cro_revision := 5;
    cro_document := {| cld_schema_version := "0.1"; cld_claim_contract := claim |} |}] |}.

Definition gate_snapshot : GateSnapshotObservation := {|
  gso_revision := 2; gso_completeness := SnapshotCompleteness_Complete;
  gso_gates := [{| gro_gate_ref := gate_ref; gro_revision := 4; gro_observed_state_version := 7;
    gro_document := gate |}] |}.

Definition now : Z := t0 + 60.

Definition request : ExecutionAdmissionRequest := {|
  eq_id := mk_StableId "r1"; eq_principal_id := principal; eq_agent_id := agent;
  eq_principal_role := CallerRole_Worker; eq_operation_id := mk_StableId "op-1"; eq_operation_token := "operation";
  eq_assurance_case_id := mk_StableId "case-1"; eq_assurance_case_token := "case";
  eq_command_bindings := [{| cab_reference := "cargo-test"; cab_token := "command" |}];
  eq_effect_bindings := [{| cab_reference := "contracts/effects/e1.yaml"; cab_token := "effect" |}];
  eq_expected_claim_snapshot_revision := 3;
  eq_expected_claim_revisions := [{| rx_reference := "contracts/claims/s1.yaml"; rx_revision := 5 |}];
  eq_expected_gate_snapshot_revision := 2;
  eq_expected_gate_revisions := [{| rx_reference := "contracts/gates/g1.yaml"; rx_revision := 4 |}];
  eq_authority_snapshot_token := "snapshot"; eq_expected_replay_reservation_revision := 1;
  eq_nonce := "n1"; eq_issued_at_unix := now - 5 |}.

Definition input : ExecutionAdmissionInput := {|
  ei_request := request; ei_assurance_case := assurance; ei_operation := operation;
  ei_command_contracts := [command];
  ei_effect_contracts := [{| ecb_effect_ref := effect_ref; ecb_document := effect |}];
  ei_principal := {| epo_principal_id := principal; epo_agent_id := agent; epo_role := CallerRole_Worker;
    epo_trust := ExecutionPrincipalTrust_AuthorizedKeyRegistry; epo_credential_id := "key-1";
    epo_audience := "forge"; epo_required_audience := "forge";
    epo_authority_grants := [mk_StableId "operation.execute"]; epo_attested_intent_digest := "intent" |};
  ei_replay := {| rpo_status := ReplayReservationStatus_FreshReserved; rpo_nonce := "n1";
    rpo_reserved_intent_digest := "intent"; rpo_reservation_revision := 1 |};
  ei_claim_snapshot := claim_snapshot; ei_gate_snapshot := gate_snapshot;
  ei_commit := {| cao_strategy := ExecutionCommitStrategy_SingleEffectWal;
    cao_scope := ExecutionCommitScope_SingleEffect; cao_wal_lock := GuaranteeStatus_Verified;
    cao_rollback_recovery := GuaranteeStatus_Verified; cao_durable_commit_record := GuaranteeStatus_Verified;
    cao_compensation := CompensationCoverage_NotApplicable |};
  ei_current_state_version := 7; ei_now_unix := now; ei_max_attestation_age_seconds := 300;
  ei_max_future_skew_seconds := 30 |}.

Definition document : ExecutionAdmissionInputDocument :=
  {| eid_schema_version := "0.1"; eid_execution_admission := input |}.

(** The digest of one document. *)
Definition only {T} `{EqDecision T} (it : T) (name : string) (x : T) : Result string string :=
  if decide (x = it) then Ok name else Err "unknown document".

Lemma only_collision_free {T} `{EqDecision T} (it : T) name : collision_free (only it name).
Proof. intros x y token. unfold only. by destruct (decide (x = it)) as [-> |], (decide (y = it)) as [-> |]. Qed.

#[export] Instance digests : AdmissionDigests := {|
  digest_assurance := only assurance "case"; digest_operation := only operation "operation";
  digest_command := only command "command"; digest_effect := only effect "effect";
  digest_request := only request "intent";
  digest_snapshot := only {| asb_claim_snapshot := claim_snapshot; asb_gate_snapshot := gate_snapshot;
                             asb_current_state_version := 7; asb_now_unix := now |} "snapshot" |}.

Definition decision : ExecutionAdmissionDecision := {|
  ead_status := ExecutionAdmissionStatus_Admitted; ead_request_id := mk_StableId "r1";
  ead_intent_digest := "intent"; ead_issues := [];
  ead_validated_claim_revisions := [{| rx_reference := "contracts/claims/s1.yaml"; rx_revision := 5 |}];
  ead_validated_gate_revisions := [{| rx_reference := "contracts/gates/g1.yaml"; rx_revision := 4 |}];
  ead_commit_strategy := ExecutionCommitStrategy_SingleEffectWal |}.

Lemma admitted : evaluate_execution_admission document = Ok decision.
Proof. vm_compute. reflexivity. Qed.

End Run.

#[local] Existing Instances Run.digests Run.codec.

Lemma admission_exact_witness :
  ead_issues Run.decision = [] /\ exists intent, admissible Run.input intent.
Proof.
  pose proof (@admission_exact ascii_lowercase Run.digests Run.document ltac:(repeat split)) as H.
  rewrite Run.admitted in H. destruct H as [(_ & Hi & _ & Ha)|(Hb & _)]; [by split|discriminate Hb].
Defined.

Lemma admitted_writes_exclusive_witness :
  is_blocked (check_write_against_claims [mk_RepoPath "src/core/a.rs"] (mk_StableId "agent-b") [Run.claim] Run.now) = true.
Proof.
  destruct (load_claims TableCodec.fresh_directory Run.bus) as [res st'] eqn:E.
  assert (res = Ok [Run.claim]) as Hres.
  { change res with ((res, st').1). rewrite <- E. vm_compute. reflexivity. }
  rewrite Hres in E.
  destruct (@admitted_writes_exclusive ascii_lowercase Run.digests Run.codec Run.codec_laws TableCodec.fresh_directory
    Run.bus [Run.claim] st' Run.document Run.decision (mk_RepoPath "src/core/a.rs") eq_refl Run.bus_is_reachable)
    as (c & _ & _ & _ & _ & Hb & _).
  - reflexivity.
  - exact E.
  - reflexivity.
  - exact Run.admitted.
  - reflexivity.
  - left.
  - apply Hb; [discriminate | left].
Defined.

Lemma intent_binds_execution_witness :
  ei_operation Run.input = Run.operation /\ ei_command_contracts Run.input ≡ₚ [Run.command].
Proof.
  destruct (@intent_binds_execution ascii_lowercase Run.digests Run.document Run.decision Run.document Run.decision)
    as (_ & _ & Ho & _ & _ & _ & _ & Hc & _);
    try apply Run.only_collision_free; try exact Run.admitted; try reflexivity.
  split; [exact Ho | exact Hc].
Defined.
