(* ===== verification/Diagnostics.v ===== *)
(** * Diagnostics

    [ValidationReport], [Diagnostic] and [DiagnosticCode] of [forge-core-validate/src/lib.rs],
    the diagnostic bag every validator fills. *)

From S2P Require Import Prelude RustStr.

Inductive DiagnosticSeverity := DiagnosticSeverity_Error | DiagnosticSeverity_Warning.

#[export] Instance DiagnosticSeverity_eq_dec : EqDecision DiagnosticSeverity.
Proof. solve_decision. Defined.

Inductive DiagnosticCode :=
| DC_YamlReadFailed | DC_YamlParseFailed | DC_SourceIdMustBeString | DC_RepoRefMustBeString
| DC_MissingKnownRepoRef | DC_DuplicateEvidenceSource | DC_MissingEvidenceSourceMetadata
| DC_UnknownEvidenceSourceRef | DC_EmptyInventoryFamilies | DC_DuplicateInventoryFamily
| DC_EmptyInventoryFamilyEvidence | DC_EmptyInventoryFamilyGlob | DC_EmptyCommandArgs
| DC_UnsafeCommandShellString | DC_CommandPublishesWithoutPolicy | DC_EmptyOperationStopConditions
| DC_MissingOperationAuthorityEvidence | DC_MutatingOperationMissingEffectRefs
| DC_FleetOperationMissingAgent | DC_FleetOperationMissingRegistry | DC_HumanPromptRequiredButEmpty
| DC_ClaimTtlMustBePositive | DC_ClaimHeartbeatIntervalMustBePositive | DC_ClaimHandoffPolicyInconsistent
| DC_CompletionDoneMissingProof | DC_CompletionProofRequiredWithoutAcceptedKinds
| DC_GateBlockingStatusWithoutBlocks | DC_RequestMayMutateIntegrationState | DC_RequestResponseMismatch
| DC_RequestAppendOnlyPathMissing | DC_EffectReadSetEmpty | DC_EffectWriteSetEmpty
| DC_DestructiveEffectMissingInverseOrStop | DC_DestructiveEffectInverseIncomplete
| DC_DecisionAuthorityEvidenceMissing | DC_DecisionClosedMissingTimestamp
| DC_DecisionClosedMissingGrillEvidence | DC_DecisionBlockedMissingReason | DC_DecisionBlockedHasTimestamp
| DC_DecisionPhaseTransitionMissingTargetPhase | DC_RuntimeHandoffMissingRegistryEvidence
| DC_RuntimeHandoffMissingCapabilityEvidence | DC_RuntimeHandoffBlockedMissingReason
| DC_RuntimeHandoffBlockedHasCompleteDoubleGate | DC_RuntimeHandoffNonBlockedHasBlockedReason
| DC_RuntimeHandoffPayloadContextEmpty | DC_RuntimeHandoffPayloadAuthorityEmpty
| DC_RuntimeRegistryCapabilityRefsEmpty | DC_RuntimeRegistryUnsafeStateMutationPolicy
| DC_RuntimeCapabilityOutputEvidenceMissing | DC_HostConformanceInvalid | DC_HostSurfaceContractInvalid
| DC_WorkspaceArchitectureInvalid | DC_MarkdownPolicyInvalid | DC_MarkdownScanFailed
| DC_MarkdownLocalLinkMissing | DC_MarkdownPathInvalid | DC_MarkdownAllowlistDuplicate
| DC_MarkdownNotAllowlisted | DC_MarkdownAllowlistedFileMissing | DC_MarkdownEntryInvalid
| DC_MarkdownDebtInvalid | DC_HealthRecoveryTtlMustBePositive | DC_HealthRecoveryAnomalyEvidenceMissing
| DC_HealthRecoveryUnhealthyWithoutAction | DC_HealthRecoveryReviewAllowsAutomaticAction
| DC_HealthRecoveryReviewMissingRefs | DC_HealthRecoveryHandoffContextMissing
| DC_CoordinationEvalDimensionsEmpty | DC_CoordinationEvalDuplicateDimension
| DC_CoordinationEvalMissingRequiredDimension | DC_CoordinationEvalFixtureRefsEmpty
| DC_CoordinationEvalEvidenceRefsEmpty | DC_CoordinationEvalFailureSignalEmpty
| DC_CoordinationEvalThresholdMissing | DC_CoordinationEvalUnexpectedThreshold
| DC_CoordinationEvalManualReviewPolicyUnsafe | DC_AssuranceUnsupportedSchemaVersion
| DC_AssuranceRequiredCollectionEmpty | DC_AssuranceEmptyEntityId | DC_AssuranceDuplicateEntityId
| DC_AssuranceDanglingClaimRef | DC_AssuranceClaimEvidenceMissing | DC_AssuranceWaiverInconsistent
| DC_AssuranceSatisfiedObligationUnsupported | DC_AssuranceDecisionRecommendationInvalid
| DC_AssuranceCapabilityGapResolutionEmpty | DC_AssuranceNextActionRankInvalid
| DC_AssuranceReadinessInconsistent | DC_WorkflowGovernanceInvalid | DC_MissingReference
| DC_ReferenceKindMismatch | DC_RiskAuditRuleMalformed | DC_RiskAuditRuleMissingId
| DC_RiskAuditRuleMissingDetector | DC_RiskAuditRuleMissingPattern | DC_RiskAuditRuleInvalidSeverity
| DC_RiskAuditRuleInvalidDetectorKind | DC_RiskAuditRuleInvalidAppliesTo | DC_RiskAuditRuleMissingFixHint
| DC_RiskAuditRuleSetEmpty | DC_RiskAuditTargetFileUnreadable | DC_RiskAuditAntiPatternMatched
| DC_RiskAuditEvidenceMissing | DC_RiskAuditExternalLinterFailed | DC_RiskAuditRequiredFileMissing
| DC_GovernanceIntentAlreadyExpired | DC_GovernanceIntentExpiryBeforeDeclared
| DC_GovernanceConflictPartiesNotDistinct | DC_GovernanceConflictMissingParty
| DC_GovernanceConflictPolicySilentLastWriterWins | DC_McpAllowlistYamlReadFailed
| DC_McpAllowlistYamlParseFailed | DC_McpAllowlistUnknownTool | DC_McpAllowlistDuplicateTool
| DC_McpAllowlistEmpty | DC_McpAllowlistUnsafeReadOnlyPolicy | DC_McpMutateGateMissingOperationContract
| DC_McpAttestationRequiredMissing | DC_McpAttestationInvalid | DC_UnresolvedSourceId | DC_GraphEmptyGraphId
| DC_GraphUnsupportedSchemaVersion | DC_GraphInvalidGraphKind | DC_GraphEmptyGraph | DC_GraphEmptyNodeId
| DC_GraphDuplicateNodeId | DC_GraphEmptyEdgeEndpoint | DC_GraphMissingEdgeEndpoint | DC_GraphCycleDetected
| DC_GraphEmptyOperationRef | DC_GraphMissingOperationContract | DC_GraphInvalidOperationContract
| DC_GraphDuplicateOperationEvaluation | DC_GraphOperationNotReady
| DC_GraphOperationMutationDeclarationMismatch | DC_GraphClaimPreflightBlocked | DC_GraphDanglingVerifiesRef
| DC_GraphDanglingBudgetNodeRef | DC_GraphEdgeKindSourceKindMismatch | DC_EvalBaselineLabelMismatch
| DC_EvalCandidateLabelMismatch | DC_EvalEmptyRunSet | DC_EvalTaskCountBelowMinimum | DC_EvalTaskSetMismatch
| DC_EvalMissingEvidenceRefs | DC_EvalMissingTraceRefs | DC_EvalInvalidEvidenceRef
| DC_EvalMissingEvidenceFile | DC_EvalEvidenceRefNotFile | DC_EvalEvidenceRefEscapesProject
| DC_EvalDuplicateTaskRun | DC_EvalUnsupportedRunSchemaVersion | DC_HarnessUnsupportedSchemaVersion
| DC_HarnessEmptyArms | DC_HarnessFewerThanTwoArms | DC_HarnessDuplicateArmLabel | DC_HarnessArmCommandEmpty
| DC_HarnessArmTimeoutZero | DC_HarnessEmptyCorpusRef | DC_HarnessEmptyRunDir | DC_HarnessPlaceholderMissing
| DC_ReadFileFailed | DC_ParseYamlFailed | DC_ReadDirFailed | DC_ReadDirEntryFailed
| DC_ReferenceIndexBuildFailed.

Record Diagnostic := {
  dg_severity : DiagnosticSeverity;
  dg_code : DiagnosticCode;
  dg_path : string;
  dg_message : string
}.

Definition Diagnostic_error (code : DiagnosticCode) (path message : string) : Diagnostic :=
  {| dg_severity := DiagnosticSeverity_Error; dg_code := code; dg_path := path; dg_message := message |}.

Definition Diagnostic_warning (code : DiagnosticCode) (path message : string) : Diagnostic :=
  {| dg_severity := DiagnosticSeverity_Warning; dg_code := code; dg_path := path; dg_message := message |}.

Definition is_error (d : Diagnostic) : bool := bool_decide (dg_severity d = DiagnosticSeverity_Error).
Definition is_warning (d : Diagnostic) : bool := bool_decide (dg_severity d = DiagnosticSeverity_Warning).

Record ValidationReport := { vr_diagnostics : list Diagnostic }.

Definition ValidationReport_new : ValidationReport := {| vr_diagnostics := [] |}.
Definition report_push (self : ValidationReport) (d : Diagnostic) : ValidationReport :=
  {| vr_diagnostics := vr_diagnostics self ++ [d] |}.
Definition report_extend (self other : ValidationReport) : ValidationReport :=
  {| vr_diagnostics := vr_diagnostics self ++ vr_diagnostics other |}.

Definition has_errors (self : ValidationReport) : bool := existsb is_error (vr_diagnostics self).
Definition error_count (self : ValidationReport) : nat := length (List.filter is_error (vr_diagnostics self)).
Definition warning_count (self : ValidationReport) : nat := length (List.filter is_warning (vr_diagnostics self)).

Definition abort_if_errors (self : ValidationReport) : Result unit ValidationReport :=
  if has_errors self then Err self else Ok tt.

(** Errors of a list of diagnostics, and how they distribute over accumulation. *)
Definition no_error (ds : list Diagnostic) : Prop := existsb is_error ds = false.

Lemma no_error_nil : no_error [].
Proof. done. Qed.

Lemma no_error_app ds es : no_error (ds ++ es) <-> no_error ds /\ no_error es.
Proof. unfold no_error. by rewrite existsb_app, orb_false_iff. Qed.

Lemma no_error_cons d ds : no_error (d :: ds) <-> is_error d = false /\ no_error ds.
Proof. unfold no_error. simpl. by rewrite orb_false_iff. Qed.

Lemma no_error_error code path message ds : no_error (Diagnostic_error code path message :: ds) <-> False.
Proof. rewrite no_error_cons. by split; [intros [? _]|]. Qed.

Lemma no_error_warning code path message ds : no_error (Diagnostic_warning code path message :: ds) <-> no_error ds.
Proof. rewrite no_error_cons. split; [by intros [_ ?] | by split]. Qed.

Lemma no_error_if (b : bool) ds : no_error (if b then ds else []) <-> (b = true -> no_error ds).
Proof. destruct b; split; try done; auto. Qed.
