(* ===== verification/ObligationEngine.v ===== *)
(** * The obligation engine

    [forge-core-decisions/src/obligation_engine.rs]: the assurance case derived from what a host
    agent observed.  The engine owns the obligations, how critical they are and when they are due;
    the host only reports on them.  Functions that push to shared vectors return what they push. *)

From S2P Require Import Prelude RustStr BTree Ordering Contracts AssuranceContracts.

Local Open Scope string_scope.
Local Open Scope Z_scope.

Definition OBLIGATION_ENGINE_INPUT_SCHEMA_VERSION : string := "0.1".

(** ** Data *)

Inductive RiskLevel :=
| RiskLevel_Low | RiskLevel_Medium | RiskLevel_High | RiskLevel_Critical.

Inductive LensApplicability :=
| LensApplicability_Applicable | LensApplicability_NotApplicable | LensApplicability_Unknown.

Record LensObservation := {
  lo_lens : UniversalAssuranceLens;
  lo_applicability : LensApplicability;
  lo_status : AssuranceClaimStatus;
  lo_evidence_refs : list string;
  lo_waiver : option AssuranceWaiver;
  lo_rationale : option string
}.

Inductive EpistemicRiskSignal :=
| EpistemicRiskSignal_NovelDomain | EpistemicRiskSignal_MethodGap | EpistemicRiskSignal_SingleView
| EpistemicRiskSignal_ArtifactOnlyProgress | EpistemicRiskSignal_LateIntegration
| EpistemicRiskSignal_UnverifiedCapability | EpistemicRiskSignal_WeakProvenance
| EpistemicRiskSignal_LongFeedbackGap.

Inductive CapabilityAvailability :=
| CapabilityAvailability_Available | CapabilityAvailability_Provisional | CapabilityAvailability_Missing.

Record CapabilityObservation := {
  co_id : StableId;
  co_kind : CapabilityGapKind;
  co_availability : CapabilityAvailability;
  co_description : string;
  co_affected_lenses : list UniversalAssuranceLens;
  co_resolution_options : list string
}.

Record DecisionNeed := {
  dn_id : StableId;
  dn_question : string;
  dn_reason : HumanDecisionReason;
  dn_alternatives : list DecisionAlternative;
  dn_recommended_alternative_ref : StableId;
  dn_affected_lenses : list UniversalAssuranceLens;
  dn_blocking : bool;
  dn_blocks_before : ReadinessTarget
}.

Record ObligationEngineInput := {
  oei_case_id : StableId;
  oei_intent : IntentProposal;
  oei_project_snapshot : ProjectSnapshot;
  oei_target : ReadinessTarget;
  oei_risk_level : RiskLevel;
  oei_lens_observations : list LensObservation;
  oei_epistemic_signals : list EpistemicRiskSignal;
  oei_capability_observations : list CapabilityObservation;
  oei_decision_needs : list DecisionNeed
}.

Record ObligationEngineInputDocument := {
  oed_schema_version : string;
  oed_obligation_engine_input : ObligationEngineInput
}.

Inductive ObligationEngineIssue :=
| OEI_UnsupportedSchemaVersion (found : string)
| OEI_EmptyCaseId
| OEI_EmptyDesiredOutcome
| OEI_DuplicateLensObservation (lens : UniversalAssuranceLens)
| OEI_IntendedOutcomeNotApplicable
| OEI_NotApplicableWithoutRationale (lens : UniversalAssuranceLens)
| OEI_EvidenceMissing (lens : UniversalAssuranceLens)
| OEI_WaiverInconsistent (lens : UniversalAssuranceLens)
| OEI_DuplicateEpistemicSignal (signal : EpistemicRiskSignal)
| OEI_EpistemicSignalConflictsWithObservation (signal : EpistemicRiskSignal) (lens : UniversalAssuranceLens)
| OEI_EmptyCapabilityId
| OEI_DuplicateCapabilityId (id : StableId)
| OEI_CapabilityResolutionMissing (id : StableId)
| OEI_CapabilityAffectedLensMissing (id : StableId)
| OEI_EmptyDecisionId
| OEI_DuplicateDecisionId (id : StableId)
| OEI_DecisionAlternativesInvalid (id : StableId)
| OEI_DecisionAffectedLensMissing (id : StableId).

(** [ObligationEngineRejection]: the issues. *)
Definition ObligationEngineRejection : Type := list ObligationEngineIssue.

(** An action before it is ranked. *)
Record ActionDraft := {
  adr_priority : Z;
  adr_stable_key : string;
  adr_action : NextAction
}.

#[export] Instance LensApplicability_eq_dec : EqDecision LensApplicability.
Proof. solve_decision. Defined.
#[export] Instance EpistemicRiskSignal_eq_dec : EqDecision EpistemicRiskSignal.
Proof. solve_decision. Defined.
#[export] Instance CapabilityAvailability_eq_dec : EqDecision CapabilityAvailability.
Proof. solve_decision. Defined.

(** ** Policy *)

Definition requires_early_independent_challenge (self : RiskLevel) : bool :=
  match self with RiskLevel_High | RiskLevel_Critical => true | _ => false end.

Definition lens_statement (lens : UniversalAssuranceLens) : string :=
  match lens with
  | UniversalAssuranceLens_IntendedOutcome => "The integrated result solves the intended human problem."
  | UniversalAssuranceLens_CriticalJourneys => "Representative critical user journeys work end to end."
  | UniversalAssuranceLens_SystemIntegrity => "State, data, effects, authority, and recovery remain coherent."
  | UniversalAssuranceLens_QualityAttributes => "Applicable quality attributes meet explicit expectations."
  | UniversalAssuranceLens_Operability =>
      "The result can be delivered, observed, diagnosed, updated, and recovered as applicable."
  | UniversalAssuranceLens_LifecycleCoverage =>
      "Consequential before, during, and after-use lifecycle concerns are covered."
  | UniversalAssuranceLens_RiskAndFailure =>
      "Unacceptable outcomes have credible prevention, detection, or recovery evidence."
  | UniversalAssuranceLens_EvidenceRepresentativeness =>
      "Readiness evidence exercises the integrated result in a representative environment."
  end.

Definition lens_action_kind (lens : UniversalAssuranceLens) : NextActionKind :=
  match lens with
  | UniversalAssuranceLens_IntendedOutcome | UniversalAssuranceLens_LifecycleCoverage => NextActionKind_Research
  | UniversalAssuranceLens_RiskAndFailure => NextActionKind_Challenge
  | _ => NextActionKind_Evaluate
  end.

Definition target_label (target : ReadinessTarget) : string :=
  match target with
  | ReadinessTarget_Explore => "explore"
  | ReadinessTarget_Execute => "execute"
  | ReadinessTarget_Release => "release"
  end.

(** The derived [Debug] text of a target. *)
Definition target_debug (target : ReadinessTarget) : string :=
  match target with
  | ReadinessTarget_Explore => "Explore"
  | ReadinessTarget_Execute => "Execute"
  | ReadinessTarget_Release => "Release"
  end.

Definition lens_policy (lens : UniversalAssuranceLens) (risk : RiskLevel)
    : ObligationCriticality * ReadinessTarget :=
  match lens with
  | UniversalAssuranceLens_IntendedOutcome => (ObligationCriticality_Critical, ReadinessTarget_Execute)
  | UniversalAssuranceLens_LifecycleCoverage => (ObligationCriticality_Required, ReadinessTarget_Execute)
  | UniversalAssuranceLens_RiskAndFailure =>
      if requires_early_independent_challenge risk
      then (ObligationCriticality_Critical, ReadinessTarget_Execute)
      else (ObligationCriticality_Critical, ReadinessTarget_Release)
  | UniversalAssuranceLens_CriticalJourneys | UniversalAssuranceLens_SystemIntegrity
  | UniversalAssuranceLens_EvidenceRepresentativeness => (ObligationCriticality_Critical, ReadinessTarget_Release)
  | UniversalAssuranceLens_QualityAttributes | UniversalAssuranceLens_Operability =>
      (ObligationCriticality_Required, ReadinessTarget_Release)
  end.

Definition obligation_status_for_claim (status : AssuranceClaimStatus) : ObligationStatus :=
  match status with
  | AssuranceClaimStatus_Verified | AssuranceClaimStatus_Waived => ObligationStatus_Satisfied
  | AssuranceClaimStatus_Disproven => ObligationStatus_Blocked
  | _ => ObligationStatus_Pending
  end.

Definition claim_id_for_lens (lens : UniversalAssuranceLens) : StableId :=
  mk_StableId ("claim.assurance." ++ lens_id lens).
Definition obligation_id_for_lens (lens : UniversalAssuranceLens) : StableId :=
  mk_StableId ("obligation.assurance." ++ lens_id lens).

Definition action_priority (criticality : ObligationCriticality) (required_before target : ReadinessTarget) : Z :=
  if readiness_rank required_before <=? readiness_rank target then
    match criticality with
    | ObligationCriticality_Critical => 1
    | ObligationCriticality_Required => 2
    | ObligationCriticality_Advisory => 3
    end
  else 20 + readiness_rank required_before.

Definition action_for_lens (lens : UniversalAssuranceLens) (claim_id : StableId)
    (criticality : ObligationCriticality) (required_before target : ReadinessTarget) : ActionDraft := {|
  adr_priority := action_priority criticality required_before target;
  adr_stable_key := lens_id lens;
  adr_action := {|
    na_id := mk_StableId ("action.assurance." ++ lens_id lens);
    na_kind := lens_action_kind lens;
    na_description := "Acquire representative evidence for " ++ lens_id lens ++ ".";
    na_addresses_claim_refs := [claim_id];
    na_rationale := "The " ++ lens_id lens ++ " Assurance Claim is not yet verified or waived.";
    na_rank := 0 |} |}.

(** ** Validation of the proposal *)

Definition lens_is_not_applicable (lens : UniversalAssuranceLens) (observations : list LensObservation) : bool :=
  existsb (fun observation => bool_decide (lo_lens observation = lens)
             && bool_decide (lo_applicability observation = LensApplicability_NotApplicable)) observations.

Definition issue_when (b : bool) (issue : ObligationEngineIssue) : list ObligationEngineIssue :=
  if b then [issue] else [].

(** The waiver is filled in. *)
Definition waiver_complete (waiver : AssuranceWaiver) : bool :=
  negb (str_is_empty (trim (PrincipalId_0 (aw_authorized_by waiver)))) && negb (str_is_empty (trim (aw_reason waiver)))
  && negb (is_nil (aw_consequences waiver)).

(** A status that stands on evidence. *)
Definition evidence_bearing (status : AssuranceClaimStatus) : bool :=
  match status with
  | AssuranceClaimStatus_Supported | AssuranceClaimStatus_Verified | AssuranceClaimStatus_Disproven => true
  | _ => false
  end.

(** The checks of one observation that do not depend on the others. *)
Definition validate_observation (observation : LensObservation) : list ObligationEngineIssue :=
  let lens := lo_lens observation in
  (issue_when (bool_decide (lens = UniversalAssuranceLens_IntendedOutcome)
               && bool_decide (lo_applicability observation = LensApplicability_NotApplicable))
     OEI_IntendedOutcomeNotApplicable
   ++ issue_when (bool_decide (lo_applicability observation = LensApplicability_NotApplicable)
                  && match lo_rationale observation with Some r => str_is_empty r | None => true end)
        (OEI_NotApplicableWithoutRationale lens)
   ++ issue_when (evidence_bearing (lo_status observation) && is_nil (lo_evidence_refs observation))
        (OEI_EvidenceMissing lens)
   ++ match lo_status observation, lo_waiver observation with
      | AssuranceClaimStatus_Waived, Some waiver =>
          issue_when (negb (waiver_complete waiver)) (OEI_WaiverInconsistent lens)
      | AssuranceClaimStatus_Waived, None => [OEI_WaiverInconsistent lens]
      | _, Some _ => [OEI_WaiverInconsistent lens]
      | _, None => []
      end)%list.

(** The loop over the observations; [lenses] is the set of the ones seen. *)
Fixpoint validate_observations (lenses : list UniversalAssuranceLens) (observations : list LensObservation)
    : list ObligationEngineIssue :=
  match observations with
  | [] => []
  | observation :: rest =>
      (issue_when (bool_decide (lo_lens observation ∈ lenses)) (OEI_DuplicateLensObservation (lo_lens observation))
       ++ validate_observation observation
       ++ validate_observations (lo_lens observation :: lenses) rest)%list
  end.

Fixpoint validate_signals (signals rest : list EpistemicRiskSignal) : list ObligationEngineIssue :=
  match rest with
  | [] => []
  | signal :: rest =>
      (issue_when (bool_decide (signal ∈ signals)) (OEI_DuplicateEpistemicSignal signal)
       ++ validate_signals (signal :: signals) rest)%list
  end.

Definition validate_signal_conflicts (input : ObligationEngineInput) : list ObligationEngineIssue :=
  concat (map (fun signal => issue_when
      (bool_decide (signal ∈ oei_epistemic_signals input)
       && existsb (fun observation =>
            bool_decide (lo_lens observation = UniversalAssuranceLens_EvidenceRepresentativeness)
            && satisfies_obligation (lo_status observation)) (oei_lens_observations input))
      (OEI_EpistemicSignalConflictsWithObservation signal UniversalAssuranceLens_EvidenceRepresentativeness))
    [EpistemicRiskSignal_ArtifactOnlyProgress; EpistemicRiskSignal_LateIntegration;
     EpistemicRiskSignal_LongFeedbackGap]).

(** No affected lens is left. *)
Definition affected_lens_missing (lenses : list UniversalAssuranceLens) (observations : list LensObservation) : bool :=
  is_nil lenses || forallb (fun lens => lens_is_not_applicable lens observations) lenses.

Fixpoint validate_capabilities (input : ObligationEngineInput) (capability_ids : list string)
    (capabilities : list CapabilityObservation) : list ObligationEngineIssue :=
  match capabilities with
  | [] => []
  | capability :: rest =>
      let id := co_id capability in
      let unavailable := negb (bool_decide (co_availability capability = CapabilityAvailability_Available)) in
      let '(id_issues, seen) :=
        if str_is_empty (trim (StableId_0 id)) then ([OEI_EmptyCapabilityId], capability_ids)
        else if bool_decide (StableId_0 id ∈ capability_ids) then ([OEI_DuplicateCapabilityId id], capability_ids)
        else ([], StableId_0 id :: capability_ids) in
      (id_issues
       ++ issue_when (unavailable && is_nil (co_resolution_options capability)) (OEI_CapabilityResolutionMissing id)
       ++ issue_when (unavailable && affected_lens_missing (co_affected_lenses capability) (oei_lens_observations input))
            (OEI_CapabilityAffectedLensMissing id)
       ++ validate_capabilities input seen rest)%list
  end.

Fixpoint validate_decisions (input : ObligationEngineInput) (decision_ids : list string)
    (decisions : list DecisionNeed) : list ObligationEngineIssue :=
  match decisions with
  | [] => []
  | decision :: rest =>
      let id := dn_id decision in
      let '(id_issues, seen) :=
        if str_is_empty (trim (StableId_0 id)) then ([OEI_EmptyDecisionId], decision_ids)
        else if bool_decide (StableId_0 id ∈ decision_ids) then ([OEI_DuplicateDecisionId id], decision_ids)
        else ([], StableId_0 id :: decision_ids) in
      let alternatives := list_to_set (C := gset string) (map (fun a => StableId_0 (da_id a)) (dn_alternatives decision)) in
      (id_issues
       ++ issue_when ((size alternatives <? 2)%nat
                      || negb (bool_decide (StableId_0 (dn_recommended_alternative_ref decision) ∈ alternatives)))
            (OEI_DecisionAlternativesInvalid id)
       ++ issue_when (affected_lens_missing (dn_affected_lenses decision) (oei_lens_observations input))
            (OEI_DecisionAffectedLensMissing id)
       ++ validate_decisions input seen rest)%list
  end.

Definition validate_input (document : ObligationEngineInputDocument) : list ObligationEngineIssue :=
  let input := oed_obligation_engine_input document in
  (issue_when (negb (bool_decide (oed_schema_version document = OBLIGATION_ENGINE_INPUT_SCHEMA_VERSION)))
     (OEI_UnsupportedSchemaVersion (oed_schema_version document))
   ++ issue_when (str_is_empty (trim (StableId_0 (oei_case_id input)))) OEI_EmptyCaseId
   ++ issue_when (str_is_empty (trim (ip_desired_outcome (oei_intent input)))) OEI_EmptyDesiredOutcome
   ++ validate_observations [] (oei_lens_observations input)
   ++ validate_signals [] (oei_epistemic_signals input)
   ++ validate_signal_conflicts input
   ++ validate_capabilities input [] (oei_capability_observations input)
   ++ validate_decisions input [] (oei_decision_needs input))%list.

(** ** Derivation *)

(** The map collected from the observations: the last one of a lens. *)
Definition observation_of (observations : list LensObservation) (lens : UniversalAssuranceLens) : option LensObservation :=
  List.find (fun observation => bool_decide (lo_lens observation = lens)) (rev observations).

Definition lens_applicable (observations : list LensObservation) (lens : UniversalAssuranceLens) : bool :=
  match observation_of observations lens with
  | Some value => negb (bool_decide (lo_applicability value = LensApplicability_NotApplicable))
  | None => true
  end.

(** What is pushed for one lens that applies. *)
Definition lens_claim (input : ObligationEngineInput) (lens : UniversalAssuranceLens) : AssuranceClaim :=
  let observation := observation_of (oei_lens_observations input) lens in {|
  acl_id := claim_id_for_lens lens;
  acl_statement := lens_statement lens;
  acl_status := match observation with Some value => lo_status value | None => AssuranceClaimStatus_Unknown end;
  acl_evidence_refs := match observation with Some value => lo_evidence_refs value | None => [] end;
  acl_waiver := match observation with Some value => lo_waiver value | None => None end |}.

Definition lens_obligation (input : ObligationEngineInput) (lens : UniversalAssuranceLens) : Obligation :=
  let '(criticality, required_before) := lens_policy lens (oei_risk_level input) in {|
  ob_id := obligation_id_for_lens lens;
  ob_description := "Satisfy the " ++ lens_id lens ++ " assurance lens.";
  ob_criticality := criticality;
  ob_status := obligation_status_for_claim (acl_status (lens_claim input lens));
  ob_required_before := required_before;
  ob_claim_refs := [claim_id_for_lens lens] |}.

Definition lens_actions (input : ObligationEngineInput) (lens : UniversalAssuranceLens) : list ActionDraft :=
  let '(criticality, required_before) := lens_policy lens (oei_risk_level input) in
  if satisfies_obligation (acl_status (lens_claim input lens)) then []
  else [action_for_lens lens (claim_id_for_lens lens) criticality required_before (oei_target input)].

Definition applicable_lenses (input : ObligationEngineInput) : list UniversalAssuranceLens :=
  List.filter (lens_applicable (oei_lens_observations input)) lens_ALL.

(** [add_special_requirement]: the claim, the obligation and the action it pushes. *)
Definition add_special_requirement (suffix statement : string) (criticality : ObligationCriticality)
    (required_before : ReadinessTarget) (action_kind : NextActionKind) (target : ReadinessTarget)
    : AssuranceClaim * Obligation * ActionDraft :=
  let claim_id := mk_StableId ("claim.assurance." ++ suffix) in
  ({| acl_id := claim_id; acl_statement := statement; acl_status := AssuranceClaimStatus_Unknown;
      acl_evidence_refs := []; acl_waiver := None |},
   {| ob_id := mk_StableId ("obligation.assurance." ++ suffix);
      ob_description := "Satisfy the " ++ suffix ++ " assurance requirement.";
      ob_criticality := criticality; ob_status := ObligationStatus_Pending;
      ob_required_before := required_before; ob_claim_refs := [claim_id] |},
   {| adr_priority := action_priority criticality required_before target;
      adr_stable_key := suffix;
      adr_action := {|
        na_id := mk_StableId ("action.assurance." ++ suffix);
        na_kind := action_kind;
        na_description := "Resolve the " ++ suffix ++ " Assurance Claim.";
        na_addresses_claim_refs := [claim_id];
        na_rationale := "An epistemic-risk signal introduced this requirement.";
        na_rank := 0 |} |}).

Definition domain_gap (input : ObligationEngineInput) : bool :=
  let signals := oei_epistemic_signals input in
  bool_decide (EpistemicRiskSignal_NovelDomain ∈ signals) || bool_decide (EpistemicRiskSignal_MethodGap ∈ signals)
  || bool_decide (EpistemicRiskSignal_WeakProvenance ∈ signals).

(** The requirements the signals introduce. *)
Definition domain_requirement (input : ObligationEngineInput) : list (AssuranceClaim * Obligation * ActionDraft) :=
  if domain_gap input then
    [add_special_requirement "domain_method_is_credible"
       "The selected domain method has credible lifecycle, failure-mode, and quality coverage."
       ObligationCriticality_Critical ReadinessTarget_Execute NextActionKind_Research (oei_target input)]
  else [].

Definition challenge_requirement (input : ObligationEngineInput) : list (AssuranceClaim * Obligation * ActionDraft) :=
  if bool_decide (EpistemicRiskSignal_SingleView ∈ oei_epistemic_signals input) then
    [add_special_requirement "assurance_case_survives_independent_challenge"
       "An independent challenge finds no consequential unsupported claim."
       ObligationCriticality_Critical ReadinessTarget_Release NextActionKind_Challenge (oei_target input)]
  else [].

Definition capability_requirement (input : ObligationEngineInput) : list (AssuranceClaim * Obligation * ActionDraft) :=
  if bool_decide (EpistemicRiskSignal_UnverifiedCapability ∈ oei_epistemic_signals input) then
    [add_special_requirement "critical_capabilities_are_verified"
       "Capabilities used by the plan have representative verification evidence."
       ObligationCriticality_Critical ReadinessTarget_Release NextActionKind_Evaluate (oei_target input)]
  else [].

(** The gap and the action for a missing domain method. *)
Definition domain_competence (input : ObligationEngineInput) : list (CapabilityGap * ActionDraft) :=
  let has_domain_capability_observation :=
    existsb (fun capability => match co_kind capability with
                               | CapabilityGapKind_DomainPack | CapabilityGapKind_Knowledge => true
                               | _ => false
                               end) (oei_capability_observations input) in
  if domain_gap input && negb has_domain_capability_observation then
    let claim_ref := mk_StableId "claim.assurance.domain_method_is_credible" in
    [({| cg_id := mk_StableId "gap.assurance.domain_competence"; cg_kind := CapabilityGapKind_DomainPack;
         cg_description := "No verified domain method or Domain Pack is available.";
         cg_affected_claim_refs := [claim_ref];
         cg_resolution_options := ["Research multiple credible domain methods with provenance.";
                                   "Acquire a reviewed Domain Pack or specialist evaluator."];
         cg_blocking := true; cg_blocks_before := ReadinessTarget_Execute |},
      {| adr_priority := action_priority ObligationCriticality_Critical ReadinessTarget_Execute (oei_target input);
         adr_stable_key := "resolve_domain_competence";
         adr_action := {|
           na_id := mk_StableId "action.assurance.resolve_domain_competence";
           na_kind := NextActionKind_AcquireCapability;
           na_description := "Acquire a credible domain method, pack, or evaluator.";
           na_addresses_claim_refs := [claim_ref];
           na_rationale := "Shared human and agent ignorance must be managed before durable execution.";
           na_rank := 0 |} |})]
  else [].

(** [apply_epistemic_signals]: what it pushes to the four vectors. *)
Definition apply_epistemic_signals (input : ObligationEngineInput)
    : list Obligation * list AssuranceClaim * list CapabilityGap * list ActionDraft :=
  let later := (challenge_requirement input ++ capability_requirement input)%list in
  let special := (domain_requirement input ++ later)%list in
  (map (fun s => snd (fst s)) special, map (fun s => fst (fst s)) special, map fst (domain_competence input),
   (map snd (domain_requirement input) ++ map snd (domain_competence input) ++ map snd later)%list).

(** The claims of the affected lenses that apply. *)
Definition affected_claim_refs (input : ObligationEngineInput) (lenses : list UniversalAssuranceLens) : list StableId :=
  map claim_id_for_lens (List.filter (lens_applicable (oei_lens_observations input)) lenses).

(** When a missing or provisional capability starts to block. *)
Definition capability_blocks_before (capability : CapabilityObservation) : option ReadinessTarget :=
  match co_availability capability with
  | CapabilityAvailability_Provisional => Some ReadinessTarget_Release
  | CapabilityAvailability_Missing =>
      match co_kind capability with
      | CapabilityGapKind_Agent | CapabilityGapKind_Evaluator => Some ReadinessTarget_Release
      | _ => Some ReadinessTarget_Execute
      end
  | CapabilityAvailability_Available => None
  end.

Definition capability_gap (input : ObligationEngineInput) (capability : CapabilityObservation)
    (blocks_before : ReadinessTarget) : CapabilityGap := {|
  cg_id := mk_StableId ("gap.assurance." ++ StableId_0 (co_id capability));
  cg_kind := co_kind capability;
  cg_description := co_description capability;
  cg_affected_claim_refs := affected_claim_refs input (co_affected_lenses capability);
  cg_resolution_options := co_resolution_options capability;
  cg_blocking := true;
  cg_blocks_before := blocks_before |}.

Definition capability_action (input : ObligationEngineInput) (capability : CapabilityObservation)
    (blocks_before : ReadinessTarget) : ActionDraft := {|
  adr_priority := action_priority ObligationCriticality_Critical blocks_before (oei_target input);
  adr_stable_key := "capability." ++ StableId_0 (co_id capability);
  adr_action := {|
    na_id := mk_StableId ("action.assurance.resolve." ++ StableId_0 (co_id capability));
    na_kind := NextActionKind_AcquireCapability;
    na_description := "Resolve capability gap " ++ StableId_0 (co_id capability) ++ ".";
    na_addresses_claim_refs := affected_claim_refs input (co_affected_lenses capability);
    na_rationale := "The current capability is missing or only provisional.";
    na_rank := 0 |} |}.

Fixpoint apply_capability_observations (input : ObligationEngineInput) (capabilities : list CapabilityObservation)
    : list CapabilityGap * list ActionDraft :=
  match capabilities with
  | [] => ([], [])
  | capability :: rest =>
      let '(gaps, actions) := apply_capability_observations input rest in
      match capability_blocks_before capability with
      | None => (gaps, actions)
      | Some blocks_before =>
          (capability_gap input capability blocks_before :: gaps,
           capability_action input capability blocks_before :: actions)
      end
  end.

Definition decision_request (decision : DecisionNeed) : DecisionRequest := {|
  dr_id := dn_id decision; dr_question := dn_question decision; dr_reason := dn_reason decision;
  dr_alternatives := dn_alternatives decision;
  dr_recommended_alternative_ref := dn_recommended_alternative_ref decision;
  dr_blocking := dn_blocking decision; dr_blocks_before := dn_blocks_before decision |}.

Definition decision_action (input : ObligationEngineInput) (decision : DecisionNeed) : ActionDraft := {|
  adr_priority := action_priority ObligationCriticality_Required (dn_blocks_before decision) (oei_target input);
  adr_stable_key := "decision." ++ StableId_0 (dn_id decision);
  adr_action := {|
    na_id := mk_StableId ("action.assurance.decide." ++ StableId_0 (dn_id decision));
    na_kind := NextActionKind_AskHuman;
    na_description := dn_question decision;
    na_addresses_claim_refs := affected_claim_refs input (dn_affected_lenses decision);
    na_rationale := "Project evidence cannot resolve this human value or authority choice.";
    na_rank := 0 |} |}.

Definition apply_decision_needs (input : ObligationEngineInput) : list DecisionRequest * list ActionDraft :=
  (map decision_request (oei_decision_needs input), map (decision_action input) (oei_decision_needs input)).

(** Due before the target and still open. *)
Definition obligation_due (target : ReadinessTarget) (obligation : Obligation) : bool :=
  negb (bool_decide (ob_criticality obligation = ObligationCriticality_Advisory))
  && (readiness_rank (ob_required_before obligation) <=? readiness_rank target)
  && negb (bool_decide (ob_status obligation = ObligationStatus_Satisfied)).
Definition gap_due (target : ReadinessTarget) (gap : CapabilityGap) : bool :=
  cg_blocking gap && (readiness_rank (cg_blocks_before gap) <=? readiness_rank target).
Definition request_due (target : ReadinessTarget) (request : DecisionRequest) : bool :=
  dr_blocking request && (readiness_rank (dr_blocks_before request) <=? readiness_rank target).

Definition readiness_blockers (target : ReadinessTarget) (obligations : list Obligation)
    (gaps : list CapabilityGap) (requests : list DecisionRequest) : list StableId :=
  vec_dedup (sort_by StableId_0
    (map ob_id (List.filter (obligation_due target) obligations)
     ++ map cg_id (List.filter (gap_due target) gaps)
     ++ map dr_id (List.filter (request_due target) requests))%list).

Definition readiness_rationale (target : ReadinessTarget) (verdict : ReadinessVerdict) : string :=
  match verdict with
  | ReadinessVerdict_Ready =>
      "No due required obligation, Decision Request, or Capability Gap blocks " ++ target_debug target ++ "."
  | ReadinessVerdict_Blocked =>
      "One or more due obligations, decisions, or capabilities block " ++ target_debug target ++ "."
  end.

(** The action that closes a ready case. *)
Definition proceed_action (target : ReadinessTarget) (claims : list AssuranceClaim) : ActionDraft :=
  let satisfied := map acl_id (List.filter (fun claim => satisfies_obligation (acl_status claim)) claims) in
  {| adr_priority := 0;
     adr_stable_key := "proceed";
     adr_action := {|
       na_id := mk_StableId ("action.proceed." ++ target_label target);
       na_kind := NextActionKind_Proceed;
       na_description := "Proceed with the " ++ target_debug target ++ " readiness target.";
       na_addresses_claim_refs := match satisfied with [] => map acl_id (take 1 claims) | _ => satisfied end;
       na_rationale := "No due required obligation, decision, or capability gap blocks the target.";
       na_rank := 0 |} |}.

(** The order of the actions, and their ranks. *)
Definition draft_le : ActionDraft -> ActionDraft -> bool := le_then adr_priority (le_string adr_stable_key).

Definition set_rank (action : NextAction) (rank : Z) : NextAction := {|
  na_id := na_id action; na_kind := na_kind action; na_description := na_description action;
  na_addresses_claim_refs := na_addresses_claim_refs action; na_rationale := na_rationale action; na_rank := rank |}.

Definition rank_actions (actions : list ActionDraft) : list NextAction :=
  imap (fun index draft => set_rank (adr_action draft) (Z.min u32_max (Z.of_nat index + 1)))
    (sort_with draft_le actions).

(** The vectors of the case, in the order they are filled. *)
Definition case_obligations (input : ObligationEngineInput) : list Obligation :=
  let '(special, _, _, _) := apply_epistemic_signals input in
  (map (lens_obligation input) (applicable_lenses input) ++ special)%list.

Definition case_claims (input : ObligationEngineInput) : list AssuranceClaim :=
  let '(_, special, _, _) := apply_epistemic_signals input in
  (map (lens_claim input) (applicable_lenses input) ++ special)%list.

Definition case_gaps (input : ObligationEngineInput) : list CapabilityGap :=
  let '(_, _, domain, _) := apply_epistemic_signals input in
  let '(capability, _) := apply_capability_observations input (oei_capability_observations input) in
  (domain ++ capability)%list.

Definition case_requests (input : ObligationEngineInput) : list DecisionRequest := fst (apply_decision_needs input).

Definition case_blockers (input : ObligationEngineInput) : list StableId :=
  readiness_blockers (oei_target input) (case_obligations input) (case_gaps input) (case_requests input).

Definition case_verdict (input : ObligationEngineInput) : ReadinessVerdict :=
  if is_nil (case_blockers input) then ReadinessVerdict_Ready else ReadinessVerdict_Blocked.

Definition case_actions (input : ObligationEngineInput) : list ActionDraft :=
  let '(_, _, _, special) := apply_epistemic_signals input in
  let '(_, capability) := apply_capability_observations input (oei_capability_observations input) in
  (concat (map (lens_actions input) (applicable_lenses input)) ++ special ++ capability
   ++ snd (apply_decision_needs input)
   ++ (if bool_decide (case_verdict input = ReadinessVerdict_Ready)
       then [proceed_action (oei_target input) (case_claims input)] else []))%list.

Definition derive_assurance_case (document : ObligationEngineInputDocument)
    : Result AssuranceCaseDocument ObligationEngineRejection :=
  match validate_input document with
  | _ :: _ as issues => Err issues
  | [] =>
      let input := oed_obligation_engine_input document in
      Ok {| acd_schema_version := ASSURANCE_CASE_SCHEMA_VERSION;
            acd_assurance_case := {|
              ac_id := oei_case_id input; ac_intent := oei_intent input;
              ac_project_snapshot := oei_project_snapshot input;
              ac_obligations := case_obligations input; ac_claims := case_claims input;
              ac_decision_requests := case_requests input; ac_capability_gaps := case_gaps input;
              ac_next_actions := rank_actions (case_actions input);
              ac_readiness := {| ra_target := oei_target input; ra_verdict := case_verdict input;
                                 ra_blocker_refs := case_blockers input;
                                 ra_rationale := readiness_rationale (oei_target input) (case_verdict input) |} |} |}
  end.
