(* ===== verification/AssuranceValidation.v ===== *)
(** * Validation of assurance cases

    [forge-core-validate/src/assurance.rs]: the internal invariants of an assurance case, as the
    diagnostics they produce.  The set of entity ids is threaded through the document. *)

From S2P Require Import Prelude RustStr BTree Contracts AssuranceContracts Diagnostics ObligationEngine.

Local Open Scope string_scope.
Local Open Scope Z_scope.

Definition diagnostic_when (b : bool) (code : DiagnosticCode) (path message : string) : list Diagnostic :=
  if b then [Diagnostic_error code path message] else [].

(** The loop of a function that threads the entity ids. *)
Fixpoint thread {A} (f : list string -> A -> list Diagnostic * list string) (ids : list string) (l : list A)
    : list Diagnostic * list string :=
  match l with
  | [] => ([], ids)
  | x :: rest =>
      let '(ds, ids) := f ids x in
      let '(es, ids) := thread f ids rest in
      ((ds ++ es)%list, ids)
  end.

Definition register_assurance_entity (ids : list string) (id path : string) : list Diagnostic * list string :=
  if str_is_empty (trim id)
  then ([Diagnostic_error DC_AssuranceEmptyEntityId path "Assurance Case entity id must not be empty"], ids)
  else if bool_decide (id ∈ ids)
  then ([Diagnostic_error DC_AssuranceDuplicateEntityId path
           ("duplicate Assurance Case entity id '" ++ id ++ "'")], ids)
  else ([], id :: ids).

(** [claim_statuses.get]: the status of the last claim inserted under the id. *)
Definition claim_status_of (claims : list AssuranceClaim) (id : string) : option AssuranceClaimStatus :=
  option_map acl_status (List.find (fun claim => bool_decide (StableId_0 (acl_id claim) = id)) (rev claims)).

Definition validate_assurance_claim_refs (claims : list AssuranceClaim) (refs : list StableId) (path : string)
    : list Diagnostic :=
  (diagnostic_when (is_nil refs) DC_AssuranceDanglingClaimRef path "at least one Assurance Claim ref is required"
   ++ concat (map (fun claim_ref =>
        diagnostic_when (match claim_status_of claims (StableId_0 claim_ref) with Some _ => false | None => true end)
          DC_AssuranceDanglingClaimRef path ("claim ref '" ++ StableId_0 claim_ref ++ "' does not resolve")) refs))%list.

Definition validate_waiver (path : string) (claim : AssuranceClaim) : list Diagnostic :=
  match acl_status claim, acl_waiver claim with
  | AssuranceClaimStatus_Waived, Some waiver =>
      diagnostic_when (str_is_empty (trim (PrincipalId_0 (aw_authorized_by waiver)))
                       || str_is_empty (trim (aw_reason waiver)) || is_nil (aw_consequences waiver))
        DC_AssuranceWaiverInconsistent (path ++ ".waiver") "a waiver requires authority, reason, and explicit consequences"
  | AssuranceClaimStatus_Waived, None =>
      [Diagnostic_error DC_AssuranceWaiverInconsistent (path ++ ".waiver") "a waived claim requires an explicit waiver"]
  | _, Some _ =>
      [Diagnostic_error DC_AssuranceWaiverInconsistent (path ++ ".waiver")
         "only a claim with status waived may carry waiver authority"]
  | _, None => []
  end.

Definition validate_case_claim (case : AssuranceCase) (ids : list string) (claim : AssuranceClaim)
    : list Diagnostic * list string :=
  let path := "assurance_case." ++ StableId_0 (ac_id case) ++ ".claims." ++ StableId_0 (acl_id claim) in
  let '(ds, ids) := register_assurance_entity ids (StableId_0 (acl_id claim)) path in
  ((ds ++ diagnostic_when (evidence_bearing (acl_status claim) && is_nil (acl_evidence_refs claim))
            DC_AssuranceClaimEvidenceMissing (path ++ ".evidence_refs")
            "supported, verified, and disproven claims require evidence"
    ++ validate_waiver path claim)%list, ids).

Definition validate_case_obligation (case : AssuranceCase) (ids : list string) (obligation : Obligation)
    : list Diagnostic * list string :=
  let path := "assurance_case." ++ StableId_0 (ac_id case) ++ ".obligations." ++ StableId_0 (ob_id obligation) in
  let refs := ob_claim_refs obligation in
  let status claim_ref := claim_status_of (ac_claims case) (StableId_0 claim_ref) in
  let all_claims_satisfy :=
    negb (is_nil refs)
    && forallb (fun claim_ref => match status claim_ref with Some s => satisfies_obligation s | None => false end) refs in
  let '(ds, ids) := register_assurance_entity ids (StableId_0 (ob_id obligation)) path in
  ((ds ++ diagnostic_when (is_nil refs) DC_AssuranceDanglingClaimRef (path ++ ".claim_refs")
            "an obligation must reference at least one Assurance Claim"
    ++ concat (map (fun claim_ref =>
         diagnostic_when (match status claim_ref with Some _ => false | None => true end)
           DC_AssuranceDanglingClaimRef (path ++ ".claim_refs")
           ("claim ref '" ++ StableId_0 claim_ref ++ "' does not resolve")) refs)
    ++ diagnostic_when (bool_decide (ob_status obligation = ObligationStatus_Satisfied) && negb all_claims_satisfy)
         DC_AssuranceSatisfiedObligationUnsupported (path ++ ".status")
         "a satisfied obligation requires every referenced claim to be verified or waived")%list, ids).

Definition validate_case_request (case : AssuranceCase) (ids : list string) (request : DecisionRequest)
    : list Diagnostic * list string :=
  let path := "assurance_case." ++ StableId_0 (ac_id case) ++ ".decision_requests." ++ StableId_0 (dr_id request) in
  let '(ds, ids) := register_assurance_entity ids (StableId_0 (dr_id request)) path in
  let '(es, ids) := thread (fun ids alternative =>
      register_assurance_entity ids (StableId_0 (da_id alternative))
        (path ++ ".alternatives." ++ StableId_0 (da_id alternative))) ids (dr_alternatives request) in
  ((ds ++ es
    ++ diagnostic_when ((length (dr_alternatives request) <? 2)%nat
         || negb (existsb (fun alternative => bool_decide (StableId_0 (da_id alternative)
                                   = StableId_0 (dr_recommended_alternative_ref request))) (dr_alternatives request)))
         DC_AssuranceDecisionRecommendationInvalid (path ++ ".recommended_alternative_ref")
         "a Decision Request needs at least two alternatives and a recommendation that resolves")%list, ids).

Definition validate_case_gap (case : AssuranceCase) (ids : list string) (gap : CapabilityGap)
    : list Diagnostic * list string :=
  let path := "assurance_case." ++ StableId_0 (ac_id case) ++ ".capability_gaps." ++ StableId_0 (cg_id gap) in
  let '(ds, ids) := register_assurance_entity ids (StableId_0 (cg_id gap)) path in
  ((ds ++ validate_assurance_claim_refs (ac_claims case) (cg_affected_claim_refs gap) (path ++ ".affected_claim_refs")
    ++ diagnostic_when (is_nil (cg_resolution_options gap)) DC_AssuranceCapabilityGapResolutionEmpty
         (path ++ ".resolution_options") "a Capability Gap must offer at least one resolution option")%list, ids).

(** The loop over the actions; [ranks] is the set of ranks seen. *)
Fixpoint validate_case_actions (case : AssuranceCase) (ids : list string) (ranks : list Z) (actions : list NextAction)
    : list Diagnostic * list Z :=
  match actions with
  | [] => ([], ranks)
  | action :: rest =>
      let path := "assurance_case." ++ StableId_0 (ac_id case) ++ ".next_actions." ++ StableId_0 (na_id action) in
      let '(ds, ids) := register_assurance_entity ids (StableId_0 (na_id action)) path in
      let '(rs, ranks) :=
        if na_rank action =? 0 then (true, ranks)
        else if bool_decide (na_rank action ∈ ranks) then (true, ranks) else (false, na_rank action :: ranks) in
      let '(es, ranks) := validate_case_actions case ids ranks rest in
      ((ds ++ validate_assurance_claim_refs (ac_claims case) (na_addresses_claim_refs action)
                (path ++ ".addresses_claim_refs")
        ++ diagnostic_when rs DC_AssuranceNextActionRankInvalid (path ++ ".rank")
             "next-action ranks must be unique and greater than zero" ++ es)%list, ranks)
  end.

(** [(1..=u32::try_from(len).unwrap_or(u32::MAX)).any(|rank| !contains(rank))]. *)
Definition ranks_not_contiguous (ranks : list Z) : bool :=
  negb (is_nil ranks)
  && existsb (fun rank => negb (bool_decide (rank ∈ ranks))) (seqZ 1 (Z.min u32_max (Z.of_nat (length ranks)))).

Definition validate_due_assurance_blocker (verdict : ReadinessVerdict) (blocker_refs : list StableId)
    (entity_id path : string) : list Diagnostic :=
  diagnostic_when (bool_decide (verdict = ReadinessVerdict_Ready)
                   || negb (bool_decide (entity_id ∈ map StableId_0 blocker_refs)))
    DC_AssuranceReadinessInconsistent path
    ("due blocking entity '" ++ entity_id ++ "' must block readiness and appear in blocker_refs").

(** The claim is unresolved and a critical obligation that is due stands on it. *)
Definition unresolved_critical (case : AssuranceCase) (claim : AssuranceClaim) : bool :=
  match claim_status_of (ac_claims case) (StableId_0 (acl_id claim)) with
  | Some status => negb (satisfies_obligation status)
  | None => false
  end
  && existsb (fun obligation =>
       bool_decide (ob_criticality obligation = ObligationCriticality_Critical)
       && (readiness_rank (ob_required_before obligation) <=? readiness_rank (ra_target (ac_readiness case)))
       && existsb (fun claim_ref => bool_decide (claim_ref = acl_id claim)) (ob_claim_refs obligation))
     (ac_obligations case).

(** The ids a blocker reference may name. *)
Definition blocker_ids (case : AssuranceCase) : list string :=
  (map (fun c => StableId_0 (acl_id c)) (ac_claims case) ++ map (fun o => StableId_0 (ob_id o)) (ac_obligations case)
   ++ map (fun r => StableId_0 (dr_id r)) (ac_decision_requests case)
   ++ map (fun g => StableId_0 (cg_id g)) (ac_capability_gaps case))%list.

Definition validate_assurance_readiness (case : AssuranceCase) : list Diagnostic :=
  let readiness := ac_readiness case in
  let refs := ra_blocker_refs readiness in
  let verdict := ra_verdict readiness in
  let prefix := "assurance_case." ++ StableId_0 (ac_id case) in
  (match verdict with
   | ReadinessVerdict_Blocked =>
       diagnostic_when (is_nil refs) DC_AssuranceReadinessInconsistent (prefix ++ ".readiness.blocker_refs")
         "a blocked readiness verdict requires at least one blocker ref"
   | ReadinessVerdict_Ready =>
       diagnostic_when (negb (is_nil refs)) DC_AssuranceReadinessInconsistent (prefix ++ ".readiness.blocker_refs")
         "a ready verdict cannot carry blocker refs"
   end
   ++ concat (map (fun blocker_ref =>
        diagnostic_when (negb (bool_decide (StableId_0 blocker_ref ∈ blocker_ids case)))
          DC_AssuranceReadinessInconsistent (prefix ++ ".readiness.blocker_refs")
          ("blocker ref '" ++ StableId_0 blocker_ref ++ "' does not resolve")) refs)
   ++ concat (map (fun obligation =>
        if obligation_due (ra_target readiness) obligation
        then validate_due_assurance_blocker verdict refs (StableId_0 (ob_id obligation))
               (prefix ++ ".obligations." ++ StableId_0 (ob_id obligation) ++ ".status")
        else []) (ac_obligations case))
   ++ concat (map (fun request =>
        if request_due (ra_target readiness) request
        then validate_due_assurance_blocker verdict refs (StableId_0 (dr_id request))
               (prefix ++ ".decision_requests." ++ StableId_0 (dr_id request) ++ ".blocking")
        else []) (ac_decision_requests case))
   ++ concat (map (fun gap =>
        if gap_due (ra_target readiness) gap
        then validate_due_assurance_blocker verdict refs (StableId_0 (cg_id gap))
               (prefix ++ ".capability_gaps." ++ StableId_0 (cg_id gap) ++ ".blocking")
        else []) (ac_capability_gaps case))
   ++ diagnostic_when (bool_decide (verdict = ReadinessVerdict_Ready)
        && existsb (fun claim => bool_decide (StableId_0 (acl_id claim) ∈ map StableId_0 refs)
                                 || unresolved_critical case claim) (ac_claims case))
        DC_AssuranceReadinessInconsistent (prefix ++ ".readiness.verdict")
        "ready verdict cannot depend on an unresolved critical claim")%list.

Definition validate_assurance_case (document : AssuranceCaseDocument) : ValidationReport :=
  let case := acd_assurance_case document in
  let prefix := "assurance_case." ++ StableId_0 (ac_id case) in
  let empty {A} (l : list A) name message :=
    diagnostic_when (is_nil l) DC_AssuranceRequiredCollectionEmpty (prefix ++ name) message in
  let '(d1, ids) := register_assurance_entity [] (StableId_0 (ac_id case)) "assurance_case.id" in
  let '(d2, ids) := register_assurance_entity ids (StableId_0 (ip_id (ac_intent case))) "assurance_case.intent.id" in
  let '(d3, ids) := register_assurance_entity ids (StableId_0 (psn_id (ac_project_snapshot case)))
                      "assurance_case.project_snapshot.id" in
  let '(claims, ids) := thread (validate_case_claim case) ids (ac_claims case) in
  let '(obligations, ids) := thread (validate_case_obligation case) ids (ac_obligations case) in
  let '(requests, ids) := thread (validate_case_request case) ids (ac_decision_requests case) in
  let '(gaps, ids) := thread (validate_case_gap case) ids (ac_capability_gaps case) in
  let '(actions, ranks) := validate_case_actions case ids [] (ac_next_actions case) in
  {| vr_diagnostics :=
      (diagnostic_when (negb (bool_decide (acd_schema_version document = ASSURANCE_CASE_SCHEMA_VERSION)))
         DC_AssuranceUnsupportedSchemaVersion "schema_version"
         ("unsupported Assurance Case schema version '" ++ acd_schema_version document ++ "'; expected "
          ++ ASSURANCE_CASE_SCHEMA_VERSION)
       ++ empty (ac_obligations case) ".obligations" "an Assurance Case must declare at least one obligation"
       ++ empty (ac_claims case) ".claims" "an Assurance Case must declare at least one claim"
       ++ empty (ac_next_actions case) ".next_actions" "an Assurance Case must declare at least one next action"
       ++ d1 ++ d2 ++ d3 ++ claims ++ obligations ++ requests ++ gaps ++ actions
       ++ diagnostic_when (ranks_not_contiguous ranks) DC_AssuranceNextActionRankInvalid
            (prefix ++ ".next_actions") "next-action ranks must be contiguous from one"
       ++ validate_assurance_readiness case)%list |}.
