(* ===== verification/DerivedCase.v ===== *)
(** * What the obligation engine derives

    The cases of [ObligationEngine] meet the invariants [AssuranceValidation] checks, and a case
    that is ready for execution meets the conditions an execution admission puts on it. *)

From S2P Require Import Prelude RustStr BTree Ordering Contracts AssuranceContracts Diagnostics ObligationEngine.
From S2P Require Import AssuranceValidation ExecutionAdmission AdmissionSpec.

Local Open Scope string_scope.
Local Open Scope Z_scope.

(** ** Registering entities *)

Definition register_all (ids : list string) (entities : list (string * string)) : list Diagnostic * list string :=
  thread (fun ids p => register_assurance_entity ids (fst p) (snd p)) ids entities.

Lemma register_all_app ids ps qs :
  register_all ids (ps ++ qs) =
  let '(ds, ids) := register_all ids ps in let '(es, ids) := register_all ids qs in ((ds ++ es)%list, ids).
Proof.
  revert ids. induction ps as [|p ps IH]; intros ids; simpl.
  - by destruct (register_all ids qs).
  - unfold register_all in *. simpl. destruct (register_assurance_entity ids _ _) as [d ids1]. rewrite IH.
    destruct (thread _ ids1 ps) as [ds ids2]. destruct (thread _ ids2 qs) as [es ids3]. by rewrite app_assoc.
Qed.

Lemma register_all_cons ids p ps :
  register_all ids (p :: ps) =
  let '(ds, ids) := register_assurance_entity ids (fst p) (snd p) in
  let '(es, ids) := register_all ids ps in ((ds ++ es)%list, ids).
Proof. reflexivity. Qed.

Lemma register_all_one ids p : register_all ids [p] = register_assurance_entity ids (fst p) (snd p).
Proof.
  unfold register_all. simpl. destruct (register_assurance_entity _ _ _). by rewrite app_nil_r.
Qed.

(** A loop whose steps only register entities. *)
Lemma thread_register {A} (f : list string -> A -> list Diagnostic * list string) (g : A -> list (string * string)) ids l :
  (forall ids x, x ∈ l -> f ids x = register_all ids (g x)) ->
  thread f ids l = register_all ids (concat (map g l)).
Proof.
  revert ids. induction l as [|x l IH]; intros ids Hall; [done|]. simpl. rewrite register_all_app, Hall by (by left).
  destruct (register_all ids (g x)) as [ds ids1]. rewrite IH; [done|]. intros. apply Hall. by right.
Qed.

(** The diagnostics of registering are about ids only. *)
Definition about_ids (d : Diagnostic) : Prop :=
  dg_code d = DC_AssuranceEmptyEntityId \/ dg_code d = DC_AssuranceDuplicateEntityId.

Lemma register_about_ids ids ps : Forall about_ids (fst (register_all ids ps)).
Proof.
  revert ids. induction ps as [|[i p] ps IH]; intros ids; [constructor|]. unfold register_all in *. simpl.
  unfold register_assurance_entity at 1.
  destruct (str_is_empty (trim i)); [|case_bool_decide]; simpl;
    match goal with |- context [thread ?f ?i ps] => specialize (IH i); destruct (thread f i ps) end; simpl in *; try done;
    constructor; try done; unfold about_ids; auto.
Qed.

Lemma register_all_nil ids ps :
  fst (register_all ids ps) = [] <->
  NoDup (map fst ps) /\ (forall p, p ∈ ps -> trim (fst p) ≠ "" /\ fst p ∉ ids).
Proof.
  revert ids. induction ps as [|[i p] ps IH]; intros ids.
  { split; [intros _; split; [constructor | by intros ? ?%elem_of_nil] | done]. }
  unfold register_all in *. simpl. unfold register_assurance_entity at 1.
  setoid_rewrite elem_of_cons. rewrite NoDup_cons.
  destruct (str_is_empty (trim i)) eqn:Ei.
  { destruct (thread _ ids ps). split; [done|]. intros [_ Hall]. destruct (Hall (i, p)) as [Hne _]; [by left|].
    simpl in Hne. by destruct (trim i). }
  assert (trim i ≠ "") as Hne by (by destruct (trim i)).
  case_bool_decide as Hin.
  { destruct (thread _ ids ps). split; [done|]. intros [_ Hall]. destruct (Hall (i, p)) as [_ Hni]; [by left | done]. }
  specialize (IH (i :: ids)). destruct (thread _ (i :: ids) ps) as [ds ids']. simpl in *. rewrite IH.
  setoid_rewrite not_elem_of_cons. split.
  - intros [Hnd Hall]. repeat split; try done.
    + intros ([j q] & Ej & Hj)%map_In_iff. simpl in Ej. subst j. by destruct (Hall _ Hj) as (_ & [? _]).
    + destruct H as [->|Hq]; [done | by destruct (Hall _ Hq) as (? & _)].
    + destruct H as [->|Hq]; [done | by destruct (Hall _ Hq) as (_ & _ & ?)].
  - intros [[Hni Hnd] Hall]. split; [done|]. intros q Hq. destruct (Hall q (or_intror Hq)) as [? ?].
    repeat split; try done. intros Eq. apply Hni, map_In_iff. by exists q.
Qed.

(** ** The invariants of a derived case *)

(** The path of an entity of a case. *)
Definition entity_path (case : AssuranceCase) (kind id : string) : string :=
  "assurance_case." +:+ StableId_0 (ac_id case) +:+ kind +:+ id.

Definition entity (case : AssuranceCase) (kind : string) (id : StableId) : string * string :=
  (StableId_0 id, entity_path case kind (StableId_0 id)).

Definition request_entities (case : AssuranceCase) (r : DecisionRequest) : list (string * string) :=
  entity case ".decision_requests." (dr_id r)
  :: map (fun a => (StableId_0 (da_id a), entity_path case ".decision_requests." (StableId_0 (dr_id r))
                                          +:+ ".alternatives." +:+ StableId_0 (da_id a))) (dr_alternatives r).

(** The entities of a case, in the order they are registered, with their paths. *)
Definition entities (case : AssuranceCase) : list (string * string) :=
  ([(StableId_0 (ac_id case), "assurance_case.id"); (StableId_0 (ip_id (ac_intent case)), "assurance_case.intent.id");
    (StableId_0 (psn_id (ac_project_snapshot case)), "assurance_case.project_snapshot.id")]
   ++ concat (map (fun c => [entity case ".claims." (acl_id c)]) (ac_claims case))
   ++ concat (map (fun o => [entity case ".obligations." (ob_id o)]) (ac_obligations case))
   ++ concat (map (request_entities case) (ac_decision_requests case))
   ++ concat (map (fun g => [entity case ".capability_gaps." (cg_id g)]) (ac_capability_gaps case))
   ++ concat (map (fun a => [entity case ".next_actions." (na_id a)]) (ac_next_actions case)))%list.

(** The references resolve. *)
Definition refs_resolve (claims : list AssuranceClaim) (refs : list StableId) : Prop :=
  refs ≠ [] /\ forall r, r ∈ refs -> is_Some (claim_status_of claims (StableId_0 r)).

(** What the validator checks, entity ids apart. *)
Record coherent (case : AssuranceCase) : Prop := {
  ch_obligations_nonempty : ac_obligations case ≠ [];
  ch_claims_nonempty : ac_claims case ≠ [];
  ch_actions_nonempty : ac_next_actions case ≠ [];
  ch_evidence : forall c, c ∈ ac_claims case -> evidence_bearing (acl_status c) = true -> acl_evidence_refs c ≠ [];
  ch_waiver : forall c, c ∈ ac_claims case ->
    match acl_waiver c with
    | Some w => acl_status c = AssuranceClaimStatus_Waived /\ waiver_complete w = true
    | None => acl_status c ≠ AssuranceClaimStatus_Waived
    end;
  ch_obligation_refs : forall o, o ∈ ac_obligations case -> refs_resolve (ac_claims case) (ob_claim_refs o);
  ch_satisfied : forall o r s, o ∈ ac_obligations case -> ob_status o = ObligationStatus_Satisfied ->
    r ∈ ob_claim_refs o -> claim_status_of (ac_claims case) (StableId_0 r) = Some s -> satisfies_obligation s = true;
  ch_alternatives : forall r, r ∈ ac_decision_requests case -> (2 <= length (dr_alternatives r))%nat
    /\ exists a, a ∈ dr_alternatives r /\ da_id a = dr_recommended_alternative_ref r;
  ch_gap_refs : forall g, g ∈ ac_capability_gaps case ->
    refs_resolve (ac_claims case) (cg_affected_claim_refs g) /\ cg_resolution_options g ≠ [];
  ch_action_refs : forall a, a ∈ ac_next_actions case -> refs_resolve (ac_claims case) (na_addresses_claim_refs a);
  ch_ranks : map na_rank (ac_next_actions case) = seqZ 1 (Z.of_nat (length (ac_next_actions case)));
  ch_ranks_fit : Z.of_nat (length (ac_next_actions case)) <= u32_max;
  ch_blocked : ra_verdict (ac_readiness case) = ReadinessVerdict_Blocked <-> ra_blocker_refs (ac_readiness case) ≠ [];
  ch_blockers : forall r, r ∈ ra_blocker_refs (ac_readiness case) <->
    (exists o, o ∈ ac_obligations case /\ obligation_due (ra_target (ac_readiness case)) o = true /\ ob_id o = r)
    \/ (exists g, g ∈ ac_capability_gaps case /\ gap_due (ra_target (ac_readiness case)) g = true /\ cg_id g = r)
    \/ (exists d, d ∈ ac_decision_requests case /\ request_due (ra_target (ac_readiness case)) d = true /\ dr_id d = r)
}.

Lemma diagnostic_when_nil b code path message : diagnostic_when b code path message = [] <-> b = false.
Proof. by destruct b. Qed.

Lemma refs_resolve_ok claims refs path : refs_resolve claims refs -> validate_assurance_claim_refs claims refs path = [].
Proof.
  intros [Hne Hall]. unfold validate_assurance_claim_refs. rewrite (proj2 (is_nil_false refs) Hne). simpl.
  induction refs as [|r refs IH]; [done|]. simpl. destruct (Hall r) as [s ->]; [by left|]. simpl.
  destruct refs as [|r' refs]; [done|]. apply IH; [done|]. intros. apply Hall. by right.
Qed.

Section coherent_valid.
Context (case : AssuranceCase) (Hco : coherent case).

Lemma claim_registers ids c :
  c ∈ ac_claims case ->
  validate_case_claim case ids c
  = register_all ids [entity case ".claims." (acl_id c)].
Proof.
  intros Hc. rewrite register_all_one. unfold validate_case_claim. simpl. destruct (register_assurance_entity _ _ _) as [ds ids'].
  assert (evidence_bearing (acl_status c) && is_nil (acl_evidence_refs c) = false) as ->.
  { destruct (evidence_bearing (acl_status c)) eqn:E; [|done]. simpl. apply is_nil_false. by apply (ch_evidence case Hco c). }
  pose proof (ch_waiver case Hco c Hc) as Hw. unfold validate_waiver.
  destruct (acl_waiver c) as [w|].
  - destruct Hw as [-> Hw]. unfold waiver_complete in Hw.
    destruct (str_is_empty (trim (PrincipalId_0 _))), (str_is_empty (trim (aw_reason w))), (is_nil (aw_consequences w));
      try done. simpl. by rewrite app_nil_r.
  - destruct (acl_status c); try done; simpl; by rewrite app_nil_r.
Qed.

Lemma obligation_registers ids o :
  o ∈ ac_obligations case ->
  validate_case_obligation case ids o
  = register_all ids [entity case ".obligations." (ob_id o)].
Proof.
  intros Ho. rewrite register_all_one. unfold validate_case_obligation. simpl.
  destruct (register_assurance_entity _ _ _) as [ds ids'].
  destruct (ch_obligation_refs case Hco o Ho) as [Hne Hall].
  rewrite (proj2 (is_nil_false (ob_claim_refs o)) Hne). simpl.
  assert (forall path, concat (map (fun claim_ref => diagnostic_when
      match claim_status_of (ac_claims case) (StableId_0 claim_ref) with Some _ => false | None => true end
      DC_AssuranceDanglingClaimRef path ("claim ref '" ++ StableId_0 claim_ref ++ "' does not resolve")) (ob_claim_refs o)) = []) as ->.
  { intros path. clear Hne. induction (ob_claim_refs o) as [|r refs IH]; [done|]. simpl. destruct (Hall r) as [s ->]; [by left|].
    simpl. apply IH. intros. apply Hall. by right. }
  assert (bool_decide (ob_status o = ObligationStatus_Satisfied)
    && negb (forallb (fun r => match claim_status_of (ac_claims case) (StableId_0 r) with
                               | Some s => satisfies_obligation s | None => false end) (ob_claim_refs o)) = false) as ->.
  { case_bool_decide as Es; [|done]. simpl. apply negb_false_iff, forallb_In. intros r Hr.
    destruct (Hall r Hr) as [s Hs]. rewrite Hs. by eapply (ch_satisfied case Hco o r s). }
  simpl. by rewrite app_nil_r.
Qed.

Lemma request_registers ids r :
  r ∈ ac_decision_requests case ->
  validate_case_request case ids r = register_all ids (request_entities case r).
Proof.
  intros Hr. destruct (ch_alternatives case Hco r Hr) as (Hlen & a & Ha & Ea).
  unfold request_entities. rewrite register_all_cons. unfold validate_case_request. simpl.
  change ("assurance_case." +:+ StableId_0 (ac_id case) +:+ ".decision_requests." +:+ StableId_0 (dr_id r))
    with (entity_path case ".decision_requests." (StableId_0 (dr_id r))).
  destruct (register_assurance_entity _ _ _) as [ds ids1].
  rewrite (thread_register _ (fun a => [(StableId_0 (da_id a),
    entity_path case ".decision_requests." (StableId_0 (dr_id r)) +:+ ".alternatives." +:+ StableId_0 (da_id a))])).
  2: { intros ids' x _. by rewrite register_all_one. }
  assert (forall l, concat (map (fun a => [(StableId_0 (da_id a),
    entity_path case ".decision_requests." (StableId_0 (dr_id r)) +:+ ".alternatives." +:+ StableId_0 (da_id a))]) l)
    = map (fun a => (StableId_0 (da_id a), entity_path case ".decision_requests." (StableId_0 (dr_id r))
                                          +:+ ".alternatives." +:+ StableId_0 (da_id a))) l) as ->.
  { induction l as [|x l IH]; [done|]. simpl. by rewrite IH. }
  destruct (register_all ids1 _) as [es ids2].
  assert ((length (dr_alternatives r) <? 2)%nat || negb (existsb (fun alternative =>
    bool_decide (StableId_0 (da_id alternative) = StableId_0 (dr_recommended_alternative_ref r))) (dr_alternatives r)) = false) as ->.
  { apply orb_false_iff. split; [by apply Nat.ltb_ge|]. apply negb_false_iff, existsb_In. exists a. split; [done|].
    rewrite Ea. by apply bool_decide_eq_true_2. }
  simpl. by rewrite app_nil_r.
Qed.

Lemma gap_registers ids g :
  g ∈ ac_capability_gaps case ->
  validate_case_gap case ids g = register_all ids [entity case ".capability_gaps." (cg_id g)].
Proof.
  intros Hg. destruct (ch_gap_refs case Hco g Hg) as [Hrefs Hne].
  rewrite register_all_one. unfold validate_case_gap. simpl. destruct (register_assurance_entity _ _ _) as [ds ids'].
  rewrite refs_resolve_ok, (proj2 (is_nil_false (cg_resolution_options g)) Hne) by done. simpl. by rewrite app_nil_r.
Qed.

(** Actions ranked from [k] on, after the ranks below. *)
Lemma actions_register ids ranks actions k :
  (forall a, a ∈ actions -> refs_resolve (ac_claims case) (na_addresses_claim_refs a)) ->
  0 < k -> (forall z, z ∈ ranks -> 0 < z < k) -> map na_rank actions = seqZ k (Z.of_nat (length actions)) ->
  validate_case_actions case ids ranks actions
  = (fst (register_all ids (concat (map (fun a => [entity case ".next_actions." (na_id a)]) actions))),
     (rev (map na_rank actions) ++ ranks)%list).
Proof.
  revert ids ranks k. induction actions as [|a actions IH]; intros ids ranks k Hrefs Hk Hr Hs; [done|].
  simpl. rewrite register_all_cons. simpl.
  change ("assurance_case." +:+ StableId_0 (ac_id case) +:+ ".next_actions." +:+ StableId_0 (na_id a))
    with (entity_path case ".next_actions." (StableId_0 (na_id a))).
  destruct (register_assurance_entity _ _ _) as [ds ids1].
  simpl in Hs. rewrite seqZ_cons in Hs by lia. injection Hs as Ea Hs.
  replace (Z.pred (Z.of_nat (S (length actions)))) with (Z.of_nat (length actions)) in Hs by lia.
  assert (na_rank a =? 0 = false) as -> by (apply Z.eqb_neq; lia).
  rewrite bool_decide_eq_false_2; [|intros Hin; specialize (Hr _ Hin); lia].
  rewrite (IH ids1 (na_rank a :: ranks) (Z.succ k)); [|auto with forge | lia | | done].
  - destruct (register_all ids1 _) as [es ids2]. simpl. rewrite refs_resolve_ok by auto with forge. simpl.
    by rewrite <- app_assoc.
  - intros z [->|Hz]%elem_of_cons; [lia|]. specialize (Hr z Hz). lia.
Qed.

Lemma ranks_contiguous :
  ranks_not_contiguous (rev (map na_rank (ac_next_actions case)) ++ []) = false.
Proof.
  unfold ranks_not_contiguous. rewrite app_nil_r. apply andb_false_iff. right. apply existsb_not_In.
  intros z Hz. apply negb_false_iff, bool_decide_eq_true. rewrite length_rev, length_map in Hz.
  rewrite Z.min_r in Hz by apply (ch_ranks_fit case Hco). apply list_elem_of_In, List.in_rev.
  rewrite rev_involutive. apply list_elem_of_In. by rewrite (ch_ranks case Hco).
Qed.

(** An entity that is due is one of the blockers, and the verdict is not ready. *)
Lemma due_blocks id path :
  id ∈ ra_blocker_refs (ac_readiness case) ->
  validate_due_assurance_blocker (ra_verdict (ac_readiness case)) (ra_blocker_refs (ac_readiness case))
    (StableId_0 id) path = [].
Proof.
  intros Hin. apply diagnostic_when_nil, orb_false_iff. split.
  - apply bool_decide_eq_false. intros Hr. pose proof (ch_blocked case Hco) as [_ Hb].
    rewrite Hb in Hr; [done|]. intros E. rewrite E in Hin. by apply elem_of_nil in Hin.
  - apply negb_false_iff, bool_decide_eq_true, map_In_iff. eauto.
Qed.

Lemma claim_status_known c : c ∈ ac_claims case -> is_Some (claim_status_of (ac_claims case) (StableId_0 (acl_id c))).
Proof.
  intros Hc. unfold claim_status_of. destruct (List.find _ _) eqn:E; [by eexists|].
  apply find_none_In with (x := c) in E; [by bool_simpl|]. by apply list_elem_of_In, List.in_rev; rewrite rev_involutive; apply list_elem_of_In.
Qed.

(** A ready case has no due obligation that is open. *)
Lemma ready_no_critical c :
  ra_verdict (ac_readiness case) = ReadinessVerdict_Ready -> c ∈ ac_claims case -> unresolved_critical case c = false.
Proof.
  intros Hready Hc. apply not_true_iff_false. unfold unresolved_critical. intros [Hs Ho]%andb_true_iff.
  destruct (claim_status_of _ _) as [s|] eqn:Es; [|done]. apply negb_true_iff in Hs.
  apply existsb_In in Ho as (o & Ho & Hb). apply andb_true_iff in Hb as [Hb Hr]. apply andb_true_iff in Hb as [Hcr Hdue].
  apply existsb_In in Hr as (r & Hr & Er). apply bool_decide_eq_true in Hcr, Er. subst r.
  destruct (decide (ob_status o = ObligationStatus_Satisfied)) as [Hsat|Hsat].
  - by rewrite (ch_satisfied case Hco o _ s Ho Hsat Hr Es) in Hs.
  - assert (ob_id o ∈ ra_blocker_refs (ac_readiness case)) as Hin.
    { apply (ch_blockers case Hco). left. exists o. split; [done|]. split; [|done]. unfold obligation_due.
      rewrite Hcr, Hdue, (bool_decide_eq_false_2 (ob_status o = _)) by done. done. }
    pose proof (ch_blocked case Hco) as [_ Hb]. rewrite Hb in Hready; [done|]. intros E. rewrite E in Hin.
    by apply elem_of_nil in Hin.
Qed.

Lemma concat_map_all_nil {A B} (f : A -> list B) l : (forall x, x ∈ l -> f x = []) -> concat (map f l) = [].
Proof. induction l as [|x l IH]; intros Hall; [done|]. simpl. rewrite Hall, IH; auto with forge. Qed.

Lemma readiness_valid : validate_assurance_readiness case = [].
Proof.
  unfold validate_assurance_readiness. pose proof (ch_blocked case Hco) as Hb. pose proof (ch_blockers case Hco) as Hbl.
  rewrite !concat_map_all_nil; [|intros x Hx..].
  - destruct (ra_verdict (ac_readiness case)) eqn:Ev; simpl.
    + destruct (ra_blocker_refs (ac_readiness case)); [|done]. by destruct Hb as [[] _].
    + destruct (ra_blocker_refs (ac_readiness case)) as [|r rs] eqn:Er; [simpl | by destruct Hb as [_ Hb]; discriminate Hb].
      apply diagnostic_when_nil, existsb_not_In. intros c Hc. by apply ready_no_critical.
  - destruct (gap_due _ x) eqn:E; [|done]. apply due_blocks, Hbl. eauto 10.
  - destruct (request_due _ x) eqn:E; [|done]. apply due_blocks, Hbl. eauto 10.
  - destruct (obligation_due _ x) eqn:E; [|done]. apply due_blocks, Hbl. eauto 10.
  - apply diagnostic_when_nil, negb_false_iff, bool_decide_eq_true. unfold blocker_ids. rewrite !elem_of_app, !map_In_iff.
    apply Hbl in Hx as [(o & Ho & _ & <-) | [(g & Hg & _ & <-) | (d & Hd & _ & <-)]]; eauto 10.
Qed.

End coherent_valid.

(** On a coherent case the validator only registers the entities. *)
Lemma coherent_valid document :
  coherent (acd_assurance_case document) -> acd_schema_version document = ASSURANCE_CASE_SCHEMA_VERSION ->
  vr_diagnostics (validate_assurance_case document) = fst (register_all [] (entities (acd_assurance_case document))).
Proof.
  intros Hco Hv. set (case := acd_assurance_case document) in *. unfold validate_assurance_case, entities. fold case.
  rewrite Hv, bool_decide_eq_true_2 by done.
  rewrite !(proj2 (is_nil_false _)) by apply Hco.
  cbn [app]. rewrite register_all_cons. cbn [fst snd]. destruct (register_assurance_entity [] _ _) as [d1 i1].
  rewrite register_all_cons. cbn [fst snd]. destruct (register_assurance_entity i1 _ _) as [d2 i2].
  rewrite register_all_cons. cbn [fst snd]. destruct (register_assurance_entity i2 _ _) as [d3 i3].
  rewrite register_all_app, (thread_register (validate_case_claim case) _ i3 _ (fun ids c Hc => claim_registers case Hco ids c Hc)).
  destruct (register_all i3 _) as [d4 i4].
  rewrite register_all_app, (thread_register (validate_case_obligation case) _ i4 _ (fun ids c Hc => obligation_registers case Hco ids c Hc)).
  destruct (register_all i4 _) as [d5 i5].
  rewrite register_all_app, (thread_register (validate_case_request case) _ i5 _ (fun ids c Hc => request_registers case Hco ids c Hc)).
  destruct (register_all i5 _) as [d6 i6].
  rewrite register_all_app, (thread_register (validate_case_gap case) _ i6 _ (fun ids c Hc => gap_registers case Hco ids c Hc)).
  destruct (register_all i6 _) as [d7 i7].
  rewrite (actions_register case i7 [] _ 1); [|apply Hco | lia | by intros ? ?%elem_of_nil | apply Hco].
  destruct (register_all i7 _) as [d8 i8]. simpl. rewrite ranks_contiguous, readiness_valid by done. simpl.
  by rewrite app_nil_r, !app_assoc.
Qed.

(** ** The derivation is coherent *)

Lemma issue_when_nil b issue : issue_when b issue = [] <-> b = false.
Proof. by destruct b. Qed.

Lemma validate_observations_each seen l o : validate_observations seen l = [] -> o ∈ l -> validate_observation o = [].
Proof.
  revert seen. induction l as [|x l IH]; intros seen Hv Ho; [by apply elem_of_nil in Ho|]. simpl in Hv.
  apply app_eq_nil in Hv as [_ [Hx Hl]%app_eq_nil]. apply elem_of_cons in Ho as [->|Ho]; [done | by eapply IH].
Qed.

Lemma validate_capabilities_each input seen l c :
  validate_capabilities input seen l = [] -> c ∈ l -> co_availability c ≠ CapabilityAvailability_Available ->
  co_resolution_options c ≠ [] /\ affected_lens_missing (co_affected_lenses c) (oei_lens_observations input) = false.
Proof.
  revert seen. induction l as [|x l IH]; intros seen Hv Hc Ha; [by apply elem_of_nil in Hc|]. simpl in Hv.
  destruct (if str_is_empty _ then _ else _) as [is' seen'].
  apply app_eq_nil in Hv as [_ [H1 [H2 H3]%app_eq_nil]%app_eq_nil].
  apply elem_of_cons in Hc as [->|Hc]; [|by eapply IH]. rewrite bool_decide_eq_false_2 in H1, H2 by done. simpl in H1, H2.
  apply issue_when_nil in H1, H2. split; [by apply is_nil_false | done].
Qed.

Lemma validate_decisions_each input seen l d :
  validate_decisions input seen l = [] -> d ∈ l ->
  (2 <= length (dn_alternatives d))%nat
  /\ (exists a, a ∈ dn_alternatives d /\ da_id a = dn_recommended_alternative_ref d)
  /\ affected_lens_missing (dn_affected_lenses d) (oei_lens_observations input) = false.
Proof.
  revert seen. induction l as [|x l IH]; intros seen Hv Hc; [by apply elem_of_nil in Hc|]. simpl in Hv.
  destruct (if str_is_empty _ then _ else _) as [is' seen'].
  apply app_eq_nil in Hv as [_ [H1 [H2 H3]%app_eq_nil]%app_eq_nil].
  apply elem_of_cons in Hc as [->|Hc]; [|by eapply IH]. apply issue_when_nil in H1, H2.
  apply orb_false_iff in H1 as [Hsize Hrec]. apply Nat.ltb_ge in Hsize. apply negb_false_iff, bool_decide_eq_true in Hrec.
  split; [|split; [|done]].
  - pose proof (size_list_to_set_le (map (fun a => StableId_0 (da_id a)) (dn_alternatives x))) as Hle.
    rewrite length_map in Hle. lia.
  - apply elem_of_list_to_set, map_In_iff in Hrec as (a & Ea & Ha). exists a. split; [done|].
    destruct (da_id a), (dn_recommended_alternative_ref x). simpl in Ea. by subst.
Qed.

Lemma observation_of_In observations lens o :
  observation_of observations lens = Some o -> o ∈ observations /\ lo_lens o = lens.
Proof.
  intros [Hin Hl]%find_some_In. bool_simpl. split; [|done].
  apply list_elem_of_In, List.in_rev, list_elem_of_In, Hin.
Qed.

Lemma applicable_exists lenses observations :
  affected_lens_missing lenses observations = false ->
  exists lens, lens ∈ lenses /\ lens_applicable observations lens = true.
Proof.
  unfold affected_lens_missing. intros [_ Hf]%orb_false_iff. apply not_true_iff_false in Hf.
  destruct (List.find (fun lens => negb (lens_is_not_applicable lens observations)) lenses) as [lens|] eqn:E.
  - apply find_some_In in E as [Hin Hn]. exists lens. split; [done|]. apply negb_true_iff in Hn.
    unfold lens_applicable. destruct (observation_of _ _) as [o|] eqn:Eo; [|done].
    apply observation_of_In in Eo as [Ho Hl]. unfold lens_is_not_applicable in Hn.
    apply (proj1 (existsb_not_In _ _)) with (x := o) in Hn; [|done]. rewrite bool_decide_eq_true_2 in Hn by done.
    simpl in Hn. by rewrite Hn.
  - exfalso. apply Hf, forallb_In. intros x Hx. apply find_none_In with (x := x) in E; [|done]. by apply negb_false_iff.
Qed.

(** The requirements the signals add. *)
Definition special_requirements (input : ObligationEngineInput) : list (AssuranceClaim * Obligation * ActionDraft) :=
  (domain_requirement input ++ challenge_requirement input ++ capability_requirement input)%list.

Lemma case_claims_alt input :
  case_claims input = (map (lens_claim input) (applicable_lenses input)
                       ++ map (fun s => fst (fst s)) (special_requirements input))%list.
Proof. reflexivity. Qed.

Lemma case_obligations_alt input :
  case_obligations input = (map (lens_obligation input) (applicable_lenses input)
                            ++ map (fun s => snd (fst s)) (special_requirements input))%list.
Proof. reflexivity. Qed.

(** Every claim id the engine can issue. *)
Definition all_claim_ids : list string :=
  (map (fun l => StableId_0 (claim_id_for_lens l)) lens_ALL
   ++ ["claim.assurance.domain_method_is_credible"; "claim.assurance.assurance_case_survives_independent_challenge";
       "claim.assurance.critical_capabilities_are_verified"])%list.

Lemma NoDup_all_claim_ids : NoDup all_claim_ids.
Proof. apply (bool_decide_unpack _). vm_compute. exact I. Qed.

Lemma NoDup_case_claims input : NoDup (map (fun c => StableId_0 (acl_id c)) (case_claims input)).
Proof.
  apply (sublist_NoDup _ all_claim_ids NoDup_all_claim_ids). rewrite case_claims_alt, map_app, !map_map.
  apply sublist_app; [apply (map_sublist (fun l => StableId_0 (claim_id_for_lens l))), filter_sublist|].
  unfold special_requirements, domain_requirement, challenge_requirement, capability_requirement.
  destruct (domain_gap input), (bool_decide (EpistemicRiskSignal_SingleView ∈ _)),
    (bool_decide (EpistemicRiskSignal_UnverifiedCapability ∈ _)); simpl; repeat constructor.
Qed.

Section derived.
Context (document : ObligationEngineInputDocument) (Hvalid : validate_input document = []).

Notation input := (oed_obligation_engine_input document).

Lemma input_parts :
  (forall o, o ∈ oei_lens_observations input -> validate_observation o = [])
  /\ validate_capabilities input [] (oei_capability_observations input) = []
  /\ validate_decisions input [] (oei_decision_needs input) = [].
Proof.
  unfold validate_input in Hvalid. rewrite !app_nil_iff in Hvalid. destruct_and! Hvalid.
  split; [|done]. intros o Ho. by eapply validate_observations_each.
Qed.

Lemma observation_good lens o :
  observation_of (oei_lens_observations input) lens = Some o ->
  lo_lens o = lens /\ validate_observation o = [].
Proof. intros [Ho Hl]%observation_of_In. split; [done|]. by apply input_parts. Qed.

Lemma lens_claim_good lens :
  (evidence_bearing (acl_status (lens_claim input lens)) = true -> acl_evidence_refs (lens_claim input lens) ≠ [])
  /\ match acl_waiver (lens_claim input lens) with
     | Some w => acl_status (lens_claim input lens) = AssuranceClaimStatus_Waived /\ waiver_complete w = true
     | None => acl_status (lens_claim input lens) ≠ AssuranceClaimStatus_Waived
     end.
Proof.
  unfold lens_claim. simpl. destruct (observation_of _ lens) as [o|] eqn:Eo; [|done].
  apply observation_good in Eo as [_ Hv]. unfold validate_observation in Hv. rewrite !app_nil_iff, !issue_when_nil in Hv.
  destruct Hv as (_ & _ & He & Hw). split.
  - intros Hb. rewrite Hb in He. by apply is_nil_false.
  - destruct (lo_waiver o) as [w|], (lo_status o); try done.
    apply issue_when_nil, negb_false_iff in Hw. done.
Qed.

Lemma special_inv s :
  s ∈ special_requirements input -> exists suffix statement criticality before kind,
    s = add_special_requirement suffix statement criticality before kind (oei_target input).
Proof.
  unfold special_requirements, domain_requirement, challenge_requirement, capability_requirement.
  rewrite !elem_of_app. intros [Hs|[Hs|Hs]]; split_match_in Hs; try (by apply elem_of_nil in Hs);
    apply list_elem_of_singleton in Hs as ->; by repeat eexists.
Qed.

Lemma claim_inv c :
  c ∈ case_claims input ->
  (exists lens, lens ∈ applicable_lenses input /\ c = lens_claim input lens)
  \/ (exists s, s ∈ special_requirements input /\ c = fst (fst s)).
Proof. rewrite case_claims_alt, elem_of_app, !map_In_iff. naive_solver. Qed.

Lemma obligation_inv o :
  o ∈ case_obligations input ->
  (exists lens, lens ∈ applicable_lenses input /\ o = lens_obligation input lens)
  \/ (exists s, s ∈ special_requirements input /\ o = snd (fst s)).
Proof. rewrite case_obligations_alt, elem_of_app, !map_In_iff. naive_solver. Qed.

Lemma lens_claim_In lens : lens ∈ applicable_lenses input -> lens_claim input lens ∈ case_claims input.
Proof. intros Hl. rewrite case_claims_alt, elem_of_app, map_In_iff. eauto. Qed.

Lemma special_claim_In s : s ∈ special_requirements input -> fst (fst s) ∈ case_claims input.
Proof. intros Hs. rewrite case_claims_alt, elem_of_app, !map_In_iff. eauto. Qed.

(** Claim ids are distinct, so a status is found under its own id. *)
Lemma status_of_claim c :
  c ∈ case_claims input -> claim_status_of (case_claims input) (StableId_0 (acl_id c)) = Some (acl_status c).
Proof.
  intros Hc. unfold claim_status_of.
  assert (NoDup (map (fun c => StableId_0 (acl_id c)) (rev (case_claims input)))) as Hnd
    by (rewrite List.map_rev; apply NoDup_ListNoDup, List.NoDup_rev, NoDup_ListNoDup, NoDup_case_claims).
  rewrite (proj2 (find_key (fun c => StableId_0 (acl_id c)) (rev (case_claims input)) _ c Hnd)); [done|].
  split; [|done]. by apply list_elem_of_In, List.in_rev; rewrite rev_involutive; apply list_elem_of_In.
Qed.

Lemma resolves refs : refs ≠ [] -> (forall r, r ∈ refs -> exists c, c ∈ case_claims input /\ r = acl_id c) ->
  refs_resolve (case_claims input) refs.
Proof. intros Hne Hall. split; [done|]. intros r Hr. destruct (Hall r Hr) as (c & Hc & ->). rewrite status_of_claim by done. by eexists. Qed.

Lemma elem_of_applicable lens :
  lens ∈ applicable_lenses input <-> lens_applicable (oei_lens_observations input) lens = true.
Proof. unfold applicable_lenses. rewrite filter_In_iff. pose proof (elem_of_lens_ALL lens). tauto. Qed.

(** The claims of the affected lenses are claims of the case. *)
Lemma affected_resolve lenses :
  affected_lens_missing lenses (oei_lens_observations input) = false ->
  refs_resolve (case_claims input) (affected_claim_refs input lenses).
Proof.
  intros (lens & Hin & Ha)%applicable_exists. apply resolves.
  - unfold affected_claim_refs. intros E. assert (claim_id_for_lens lens ∈ []) as []%elem_of_nil.
    rewrite <- E. apply map_In_iff. exists lens. split; [done|]. by apply filter_In_iff.
  - unfold affected_claim_refs. intros r (l & -> & [_ Hl]%filter_In_iff)%map_In_iff. exists (lens_claim input l).
    split; [|done]. by apply lens_claim_In, elem_of_applicable.
Qed.

(** Every obligation stands on one claim of the case, and is satisfied only when the claim is. *)
Lemma obligation_claim o :
  o ∈ case_obligations input ->
  exists c, c ∈ case_claims input /\ ob_claim_refs o = [acl_id c]
    /\ (ob_status o = ObligationStatus_Satisfied -> satisfies_obligation (acl_status c) = true).
Proof.
  intros [(lens & Hl & ->) | (s & Hs & ->)]%obligation_inv.
  - exists (lens_claim input lens). split; [by apply lens_claim_In|]. unfold lens_obligation.
    destruct (lens_policy _ _) as [cr rb]. split; [done|].
    cbn [ob_status]. by destruct (acl_status (lens_claim input lens)).
  - exists (fst (fst s)). split; [by apply special_claim_In|]. apply special_inv in Hs as (sf & st & cr & rb & k & ->). done.
Qed.

(** A special requirement's action stands on its own claim. *)
Lemma special_action s :
  s ∈ special_requirements input -> na_addresses_claim_refs (adr_action (snd s)) = [acl_id (fst (fst s))].
Proof. by intros (sf & st & cr & rb & k & ->)%special_inv. Qed.

Lemma capability_gap_inv l g :
  g ∈ fst (apply_capability_observations input l) <->
  exists c b, c ∈ l /\ capability_blocks_before c = Some b /\ g = capability_gap input c b.
Proof.
  induction l as [|c l IH]; simpl; [setoid_rewrite elem_of_nil; naive_solver|].
  destruct (apply_capability_observations input l) as [gs aa]. simpl in *. setoid_rewrite elem_of_cons.
  destruct (capability_blocks_before c) as [b|] eqn:Eb; simpl; rewrite ?elem_of_cons, IH; naive_solver.
Qed.

Lemma capability_action_inv l a :
  a ∈ snd (apply_capability_observations input l) <->
  exists c b, c ∈ l /\ capability_blocks_before c = Some b /\ a = capability_action input c b.
Proof.
  induction l as [|c l IH]; simpl; [setoid_rewrite elem_of_nil; naive_solver|].
  destruct (apply_capability_observations input l) as [gs aa]. simpl in *. setoid_rewrite elem_of_cons.
  destruct (capability_blocks_before c) as [b|] eqn:Eb; simpl; rewrite ?elem_of_cons, IH; naive_solver.
Qed.

Lemma unavailable c b : capability_blocks_before c = Some b -> co_availability c ≠ CapabilityAvailability_Available.
Proof. unfold capability_blocks_before. intros E Ha. by rewrite Ha in E. Qed.

Lemma domain_inv g a :
  (g, a) ∈ domain_competence input -> exists s, s ∈ special_requirements input
    /\ cg_affected_claim_refs g = [acl_id (fst (fst s))] /\ na_addresses_claim_refs (adr_action a) = [acl_id (fst (fst s))]
    /\ cg_resolution_options g ≠ [].
Proof.
  unfold domain_competence, special_requirements, domain_requirement. destruct (domain_gap input); simpl; [|by intros ?%elem_of_nil].
  destruct (negb _); [|by intros ?%elem_of_nil]. intros [= -> ->]%list_elem_of_singleton. eexists. split; [by left|]. done.
Qed.

Lemma gap_inv g :
  g ∈ case_gaps input ->
  (exists a, (g, a) ∈ domain_competence input)
  \/ (exists c b, c ∈ oei_capability_observations input /\ capability_blocks_before c = Some b /\ g = capability_gap input c b).
Proof.
  unfold case_gaps. simpl. pose proof (capability_gap_inv (oei_capability_observations input) g) as Hc.
  destruct (apply_capability_observations _ _) as [gs aa]. simpl in Hc. rewrite elem_of_app. intros [Hg|Hg].
  - left. apply map_In_iff in Hg as ([g' a] & -> & Hg). by exists a.
  - right. by apply Hc.
Qed.

Lemma gap_good g :
  g ∈ case_gaps input ->
  refs_resolve (case_claims input) (cg_affected_claim_refs g) /\ cg_resolution_options g ≠ [].
Proof.
  intros [(a & Ha) | (c & b & Hc & Hb & ->)]%gap_inv.
  - apply domain_inv in Ha as (s & Hs & Hr & _ & Ho). split; [|done]. rewrite Hr. apply resolves; [done|].
    intros r ->%list_elem_of_singleton. exists (fst (fst s)). split; [by apply special_claim_In | done].
  - destruct input_parts as (_ & Hcap & _).
    destruct (validate_capabilities_each _ _ _ _ Hcap Hc (unavailable _ _ Hb)) as [Ho Ha].
    split; [by apply affected_resolve | done].
Qed.

Lemma case_actions_inv a :
  a ∈ case_actions input ->
  (exists lens, lens ∈ applicable_lenses input /\ a ∈ lens_actions input lens)
  \/ (exists s, s ∈ special_requirements input /\ a = snd s)
  \/ (exists g, (g, a) ∈ domain_competence input)
  \/ (exists c b, c ∈ oei_capability_observations input /\ capability_blocks_before c = Some b /\ a = capability_action input c b)
  \/ (exists d, d ∈ oei_decision_needs input /\ a = decision_action input d)
  \/ (case_verdict input = ReadinessVerdict_Ready /\ a = proceed_action (oei_target input) (case_claims input)).
Proof.
  unfold case_actions. simpl. pose proof (capability_action_inv (oei_capability_observations input) a) as Hc.
  destruct (apply_capability_observations _ _) as [gs aa]. simpl in Hc. rewrite !elem_of_app.
  intros [Ha | [[Ha | [Ha | Ha]] | [Ha | [Ha | Ha]]]].
  - apply list_elem_of_In, List.in_concat in Ha as (l & Hl & Ha). apply list_elem_of_In, map_In_iff in Hl as (lens & -> & Hl).
    left. exists lens. split; [done | by apply list_elem_of_In].
  - apply map_In_iff in Ha as (s & -> & Hs). right; left. exists s. split; [|done]. unfold special_requirements.
    rewrite elem_of_app. by left.
  - apply map_In_iff in Ha as ([g a'] & -> & Hs). right; right; left. by exists g.
  - apply map_In_iff in Ha as (s & -> & Hs). right; left. exists s. split; [|done]. unfold special_requirements.
    rewrite elem_of_app. by right.
  - right; right; right; left. by apply Hc.
  - apply map_In_iff in Ha as (d & -> & Hd). eauto 10.
  - case_bool_decide as Ev; [|by apply elem_of_nil in Ha]. apply list_elem_of_singleton in Ha. eauto 10.
Qed.

Lemma intended_outcome_applies : UniversalAssuranceLens_IntendedOutcome ∈ applicable_lenses input.
Proof.
  apply elem_of_applicable. unfold lens_applicable. destruct (observation_of _ _) as [o|] eqn:Eo; [|done].
  apply observation_good in Eo as [Hl Hv]. unfold validate_observation in Hv. rewrite !app_nil_iff, !issue_when_nil in Hv.
  destruct Hv as [Hv _]. rewrite Hl, bool_decide_eq_true_2 in Hv by done. simpl in Hv. by rewrite Hv.
Qed.

Lemma claims_nonempty : case_claims input ≠ [].
Proof.
  intros E. pose proof (lens_claim_In _ intended_outcome_applies) as Hin. rewrite E in Hin. by apply elem_of_nil in Hin.
Qed.

Lemma action_good a :
  a ∈ case_actions input -> refs_resolve (case_claims input) (na_addresses_claim_refs (adr_action a)).
Proof.
  intros [(lens & Hl & Ha) | [(s & Hs & ->) | [(g & Ha) | [(c & b & Hc & Hb & ->) | [(d & Hd & ->) | [_ ->]]]]]]%case_actions_inv.
  - unfold lens_actions in Ha. destruct (lens_policy _ _) as [cr rb]. destruct (satisfies_obligation _); [by apply elem_of_nil in Ha|].
    apply list_elem_of_singleton in Ha as ->. simpl. apply resolves; [done|]. intros r ->%list_elem_of_singleton.
    exists (lens_claim input lens). split; [by apply lens_claim_In | done].
  - rewrite special_action by done. apply resolves; [done|]. intros r ->%list_elem_of_singleton.
    exists (fst (fst s)). split; [by apply special_claim_In | done].
  - apply domain_inv in Ha as (s & Hs & _ & Hr & _). rewrite Hr. apply resolves; [done|].
    intros r ->%list_elem_of_singleton. exists (fst (fst s)). split; [by apply special_claim_In | done].
  - destruct input_parts as (_ & Hcap & _).
    destruct (validate_capabilities_each _ _ _ _ Hcap Hc (unavailable _ _ Hb)) as [_ Ha]. by apply affected_resolve.
  - destruct input_parts as (_ & _ & Hdec). destruct (validate_decisions_each _ _ _ _ Hdec Hd) as (_ & _ & Ha).
    by apply affected_resolve.
  - cbn [proceed_action adr_action na_addresses_claim_refs]. destruct (map acl_id (List.filter _ _)) as [|r rs] eqn:E.
    + pose proof claims_nonempty as Hne. destruct (case_claims input) as [|c cs] eqn:Ec; [done|]. rewrite <- Ec.
      apply resolves; [by rewrite Ec|]. intros r Hr. rewrite Ec in Hr. apply list_elem_of_singleton in Hr as ->.
      exists c. rewrite Ec. split; [by left | done].
    + rewrite <- E. apply resolves; [by rewrite E|]. intros x (c & -> & [Hc _]%filter_In_iff)%map_In_iff. eauto.
Qed.

Lemma blockers_inv r :
  r ∈ case_blockers input <->
  (exists o, o ∈ case_obligations input /\ obligation_due (oei_target input) o = true /\ ob_id o = r)
  \/ (exists g, g ∈ case_gaps input /\ gap_due (oei_target input) g = true /\ cg_id g = r)
  \/ (exists d, d ∈ case_requests input /\ request_due (oei_target input) d = true /\ dr_id d = r).
Proof.
  unfold case_blockers, readiness_blockers. rewrite elem_of_vec_dedup, sort_by_perm, !elem_of_app, !map_In_iff.
  setoid_rewrite filter_In_iff. naive_solver.
Qed.

(** Something is always left to do: a blocked case has the action of its blocker. *)
Lemma actions_nonempty : case_actions input ≠ [].
Proof.
  unfold case_actions. simpl. pose proof (fun a => proj2 (capability_action_inv (oei_capability_observations input) a)) as Hcap.
  destruct (apply_capability_observations _ _) as [gs aa] eqn:Ecap. simpl in Hcap.
  intros E. rewrite !app_nil_iff in E. destruct E as (El & (Es1 & Ed & Es2) & Ec & Edec & Ev).
  assert (special_requirements input = []) as Es.
  { unfold special_requirements. apply map_eq_nil in Es1, Es2. by rewrite Es1, Es2. }
  case_bool_decide as Hv; [done|]. unfold case_verdict in Hv.
  destruct (case_blockers input) as [|r rs] eqn:Eb; [done|].
  assert (r ∈ case_blockers input) as Hr by (rewrite Eb; by left).
  apply blockers_inv in Hr as [(o & Ho & Hdue & _) | [(g & Hg & _) | (d & Hd & _)]].
  - apply obligation_inv in Ho as [(lens & Hl & ->) | (s & Hs & _)]; [|rewrite Es in Hs; by apply elem_of_nil in Hs].
    rewrite concat_map_nil in El. specialize (El lens Hl). unfold lens_actions in El. unfold obligation_due, lens_obligation in Hdue.
    destruct (lens_policy _ _) as [cr rb]. destruct (satisfies_obligation _) eqn:Esat; [|done].
    apply andb_true_iff in Hdue as [_ Hdue]. cbn [ob_status] in Hdue. by destruct (acl_status (lens_claim input lens)).
  - apply gap_inv in Hg as [(a & Ha) | (c & b & Hc & Hb & _)].
    + apply map_eq_nil in Ed. rewrite Ed in Ha. by apply elem_of_nil in Ha.
    + assert (capability_action input c b ∈ aa) as Hin by (apply Hcap; eauto). rewrite Ec in Hin. by apply elem_of_nil in Hin.
  - apply map_eq_nil in Edec. unfold case_requests, apply_decision_needs in Hd. simpl in Hd. rewrite Edec in Hd. by apply elem_of_nil in Hd.
Qed.

Lemma ranks_of_actions :
  Z.of_nat (length (case_actions input)) <= u32_max ->
  map na_rank (rank_actions (case_actions input)) = seqZ 1 (Z.of_nat (length (rank_actions (case_actions input)))).
Proof.
  intros Hfit. unfold rank_actions. rewrite length_imap. set (l := sort_with _ _).
  assert (length l = length (case_actions input)) as Hl by (unfold l; by rewrite sort_with_perm).
  apply list_eq. intros i. change (map na_rank ?x) with (na_rank <$> x).
  rewrite list_lookup_fmap, list_lookup_imap. destruct (l !! i) as [d|] eqn:E; simpl.
  - apply lookup_lt_Some in E. rewrite lookup_seqZ_lt by lia. f_equal. unfold u32_max in *. lia.
  - apply lookup_ge_None in E. by rewrite lookup_seqZ_ge by lia.
Qed.

Lemma ranked_inv a :
  a ∈ rank_actions (case_actions input) ->
  exists d, d ∈ case_actions input /\ na_addresses_claim_refs a = na_addresses_claim_refs (adr_action d).
Proof.
  intros (i & d & -> & Hd)%elem_of_lookup_imap_1. exists d. split; [|done].
  apply list_elem_of_lookup_2 in Hd. by rewrite sort_with_perm in Hd.
Qed.

Lemma derived_coherent :
  Z.of_nat (length (case_actions input)) <= u32_max ->
  coherent {| ac_id := oei_case_id input; ac_intent := oei_intent input;
              ac_project_snapshot := oei_project_snapshot input;
              ac_obligations := case_obligations input; ac_claims := case_claims input;
              ac_decision_requests := case_requests input; ac_capability_gaps := case_gaps input;
              ac_next_actions := rank_actions (case_actions input);
              ac_readiness := {| ra_target := oei_target input; ra_verdict := case_verdict input;
                                 ra_blocker_refs := case_blockers input;
                                 ra_rationale := readiness_rationale (oei_target input) (case_verdict input) |} |}.
Proof.
  intros Hfit. constructor; cbn [ac_obligations ac_claims ac_next_actions ac_decision_requests ac_capability_gaps
    ac_readiness ra_target ra_verdict ra_blocker_refs].
  - intros E. assert (lens_obligation input UniversalAssuranceLens_IntendedOutcome ∈ case_obligations input) as Hin.
    { rewrite case_obligations_alt, elem_of_app, map_In_iff. left. eexists. split; [done | apply intended_outcome_applies]. }
    rewrite E in Hin. by apply elem_of_nil in Hin.
  - apply claims_nonempty.
  - intros E. apply actions_nonempty. apply (sort_with_nil draft_le). apply length_zero_iff_nil.
    apply (f_equal length) in E. unfold rank_actions in E. by rewrite length_imap in E.
  - intros c [(lens & _ & ->) | (s & Hs & ->)]%claim_inv; [apply lens_claim_good|].
    by apply special_inv in Hs as (sf & st & cr & rb & k & ->).
  - intros c [(lens & _ & ->) | (s & Hs & ->)]%claim_inv; [apply lens_claim_good|].
    by apply special_inv in Hs as (sf & st & cr & rb & k & ->).
  - intros o (c & Hc & -> & _)%obligation_claim. apply resolves; [done|]. intros r ->%list_elem_of_singleton. eauto.
  - intros o r s (c & Hc & Hr & Hs)%obligation_claim Hsat Hin Hst. rewrite Hr in Hin.
    apply list_elem_of_singleton in Hin as ->. rewrite status_of_claim in Hst by done. simplify_eq. auto.
  - intros r (d & -> & Hd)%map_In_iff. destruct input_parts as (_ & _ & Hdec).
    destruct (validate_decisions_each _ _ _ _ Hdec Hd) as (? & ? & _). done.
  - apply gap_good.
  - intros a (d & Hd & ->)%ranked_inv. by apply action_good.
  - by apply ranks_of_actions.
  - unfold rank_actions. rewrite length_imap. by rewrite sort_with_perm.
  - unfold case_verdict. by destruct (case_blockers input).
  - apply blockers_inv.
Qed.

End derived.

(** What a derivation returns. *)
Lemma derive_ok document case :
  derive_assurance_case document = Ok case ->
  let input := oed_obligation_engine_input document in
  validate_input document = []
  /\ case = {| acd_schema_version := ASSURANCE_CASE_SCHEMA_VERSION;
       acd_assurance_case := {| ac_id := oei_case_id input; ac_intent := oei_intent input;
              ac_project_snapshot := oei_project_snapshot input;
              ac_obligations := case_obligations input; ac_claims := case_claims input;
              ac_decision_requests := case_requests input; ac_capability_gaps := case_gaps input;
              ac_next_actions := rank_actions (case_actions input);
              ac_readiness := {| ra_target := oei_target input; ra_verdict := case_verdict input;
                                 ra_blocker_refs := case_blockers input;
                                 ra_rationale := readiness_rationale (oei_target input) (case_verdict input) |} |} |}.
Proof. unfold derive_assurance_case. destruct (validate_input document); [|done]. by intros [= <-]. Qed.

(** The lens, as its observation reports it, satisfies its obligation. *)
Definition lens_satisfied (input : ObligationEngineInput) (lens : UniversalAssuranceLens) : bool :=
  match observation_of (oei_lens_observations input) lens with
  | Some o => satisfies_obligation (lo_status o)
  | None => false
  end.

Definition due (before target : ReadinessTarget) : Prop := readiness_rank before <= readiness_rank target.

(** What readiness asks of the input. *)
Definition nothing_due (input : ObligationEngineInput) : Prop :=
  (forall lens, lens_applicable (oei_lens_observations input) lens = true ->
     due (snd (lens_policy lens (oei_risk_level input))) (oei_target input) -> lens_satisfied input lens = true)
  /\ (domain_gap input = true -> oei_target input = ReadinessTarget_Explore)
  /\ (EpistemicRiskSignal_SingleView ∈ oei_epistemic_signals input
      \/ EpistemicRiskSignal_UnverifiedCapability ∈ oei_epistemic_signals input ->
      oei_target input ≠ ReadinessTarget_Release)
  /\ (forall c b, c ∈ oei_capability_observations input -> capability_blocks_before c = Some b -> ~ due b (oei_target input))
  /\ (forall d, d ∈ oei_decision_needs input -> dn_blocking d = true -> ~ due (dn_blocks_before d) (oei_target input)).

Lemma due_leb before target : readiness_rank before <=? readiness_rank target = true <-> due before target.
Proof. apply Z.leb_le. Qed.

Lemma lens_obligation_due input lens :
  obligation_due (oei_target input) (lens_obligation input lens) = true <->
  due (snd (lens_policy lens (oei_risk_level input))) (oei_target input) /\ lens_satisfied input lens = false.
Proof.
  assert (ob_status (lens_obligation input lens) = ObligationStatus_Satisfied <-> lens_satisfied input lens = true) as Hs.
  { unfold lens_obligation, lens_satisfied, lens_claim. destruct (lens_policy _ _) as [cr rb]. simpl.
    destruct (observation_of _ lens) as [o|]; [|done]. by destruct (lo_status o). }
  unfold obligation_due. rewrite !andb_true_iff, !negb_true_iff, !bool_decide_eq_false, Hs, not_true_iff_false, <- due_leb.
  unfold lens_obligation. destruct (lens_policy lens (oei_risk_level input)) as [cr rb] eqn:Ep. simpl.
  assert (cr ≠ ObligationCriticality_Advisory); [|tauto].
  destruct lens, (oei_risk_level input); simpl in Ep; by simplify_eq.
Qed.

Lemma special_obligation_due input :
  (exists s, s ∈ special_requirements input /\ obligation_due (oei_target input) (snd (fst s)) = true) <->
  (domain_gap input = true /\ oei_target input ≠ ReadinessTarget_Explore)
  \/ ((EpistemicRiskSignal_SingleView ∈ oei_epistemic_signals input
       \/ EpistemicRiskSignal_UnverifiedCapability ∈ oei_epistemic_signals input)
      /\ oei_target input = ReadinessTarget_Release).
Proof.
  rewrite <- (existsb_In (fun s => obligation_due (oei_target input) (snd (fst s)))).
  unfold special_requirements, domain_requirement, challenge_requirement, capability_requirement.
  destruct (domain_gap input), (oei_target input);
    (case_bool_decide as Hv; case_bool_decide as Hu; simpl; (split; [intros E; try discriminate E; (by left) || (right; split; [(by left) || (by right) | done]) |];
      intros [[? ?]|[[?|?] ?]]; done)).
Qed.

Lemma case_ready_iff input : case_verdict input = ReadinessVerdict_Ready <-> forall r, r ∉ case_blockers input.
Proof.
  unfold case_verdict. destruct (case_blockers input) as [|r rs]; simpl.
  - split; [by intros _ r ?%elem_of_nil | done].
  - split; [done|]. intros Hn. destruct (Hn r). by left.
Qed.

(** ** Claims about the obligation engine *)

(** C30: a derived case is well formed.  Whatever proposal the engine accepts, the case it returns
    passes every check of [validate_assurance_case] other than the uniqueness of entity ids, which
    the proposal chooses: obligations rest on claims that exist, evidence and waivers are in place,
    gaps offer resolutions, ranks run from one, and the blockers are exactly the due entities.  The
    case is free of diagnostics exactly when its entity ids are distinct and not blank. *)
Theorem derived_case_valid document case :
  derive_assurance_case document = Ok case ->
  Z.of_nat (length (ac_next_actions (acd_assurance_case case))) <= u32_max ->
  Forall about_ids (vr_diagnostics (validate_assurance_case case))
  /\ (vr_diagnostics (validate_assurance_case case) = [] <->
      NoDup (map fst (entities (acd_assurance_case case)))
      /\ forall p, p ∈ entities (acd_assurance_case case) -> trim (fst p) ≠ "").
Proof.
  intros [Hv ->]%derive_ok Hfit. simpl in Hfit. unfold rank_actions in Hfit. rewrite length_imap, sort_with_perm in Hfit.
  rewrite coherent_valid by (done || by apply derived_coherent).
  split; [apply register_about_ids|]. rewrite register_all_nil. split; intros [Hnd Hall]; (split; [done|]); intros p Hp.
  - by apply Hall.
  - split; [by apply Hall | apply not_elem_of_nil].
Qed.

(** C28: readiness is exact.  The case derived from a proposal is ready for its target exactly when
    every applicable lens due by the risk policy is verified or waived, no domain gap was signalled
    unless the target is exploration, no single-view or unverified-capability signal stands before
    a release, no missing or provisional capability blocks the target, and no blocking decision is
    due; it is blocked otherwise. *)
Theorem readiness_exact document case :
  derive_assurance_case document = Ok case ->
  ra_verdict (ac_readiness (acd_assurance_case case)) = ReadinessVerdict_Ready <->
  nothing_due (oed_obligation_engine_input document).
Proof.
  intros [Hv ->]%derive_ok. set (input := oed_obligation_engine_input document) in *. simpl.
  rewrite case_ready_iff. pose proof (blockers_inv document) as Hbl. fold input in Hbl. setoid_rewrite Hbl.
  pose proof (special_obligation_due input) as Hsp. unfold nothing_due. split.
  - intros Hn. split; [|split; [|split; [|split]]].
    + intros lens Ha Hd. apply not_false_iff_true. intros Hs. apply (Hn (ob_id (lens_obligation input lens))). left.
      exists (lens_obligation input lens). split; [|split; [by apply lens_obligation_due | done]].
      rewrite case_obligations_alt, elem_of_app, map_In_iff. left. exists lens. split; [done|]. by apply (elem_of_applicable document).
    + intros Hg. destruct (decide (oei_target input = ReadinessTarget_Explore)) as [|Hne]; [done|exfalso].
      destruct (proj2 Hsp) as (s & Hs & Hd); [by left|]. apply (Hn (ob_id (snd (fst s)))). left. exists (snd (fst s)).
      split; [|done]. rewrite case_obligations_alt, elem_of_app, !map_In_iff. eauto.
    + intros Hg Ht. destruct (proj2 Hsp) as (s & Hs & Hd); [by right|]. apply (Hn (ob_id (snd (fst s)))). left.
      exists (snd (fst s)). split; [|done]. rewrite case_obligations_alt, elem_of_app, !map_In_iff. eauto.
    + intros c b Hc Hb Hd. apply (Hn (cg_id (capability_gap input c b))). right; left. exists (capability_gap input c b).
      split; [|split; [by apply due_leb | done]]. unfold case_gaps. simpl.
      pose proof (proj2 (capability_gap_inv document (oei_capability_observations input) (capability_gap input c b))) as Hin.
      fold input in Hin. destruct (apply_capability_observations _ _) as [gs aa]. rewrite elem_of_app. right. apply Hin. eauto.
    + intros d Hd Hb Hdue. apply (Hn (dn_id d)). right; right. exists (decision_request d).
      split; [by apply map_In_iff; exists d|]. split; [|done]. unfold request_due. simpl. rewrite Hb. by apply due_leb.
  - intros (Hl & Hg & Hs & Hc & Hd) r [(o & Ho & Hdue & _) | [(g & Hgin & Hdue & _) | (d & Hdin & Hdue & _)]].
    + apply (obligation_inv document) in Ho as [(lens & Hlens & ->) | (s & Hsin & ->)].
      * fold input in Hdue. apply lens_obligation_due in Hdue as [Hdue Hns]. apply (elem_of_applicable document) in Hlens.
        by rewrite (Hl lens Hlens Hdue) in Hns.
      * destruct (proj1 Hsp) as [[? ?]|[? ?]]; [by exists s | auto | by apply Hs].
    + apply (gap_inv document) in Hgin as [(a & Ha) | (c & b & Hcin & Hb & ->)].
      * unfold domain_competence in Ha. fold input in Ha. destruct (domain_gap input) eqn:Edg; [|by apply elem_of_nil in Ha].
        simpl in Ha. destruct (negb _); [|by apply elem_of_nil in Ha]. apply list_elem_of_singleton in Ha as [= -> _].
        unfold gap_due in Hdue. simpl in Hdue. by rewrite Hg in Hdue.
      * apply (Hc c b Hcin Hb). by apply due_leb.
    + apply map_In_iff in Hdin as (n & -> & Hn). apply andb_true_iff in Hdue as [Hb Hdue]. apply (Hd n Hn Hb). by apply due_leb.
Qed.

(** C31: a ready derivation is what admission asks for.  When the case derived for an execution or a
    release is ready, an execution with that case passes every assurance check of the admission as
    soon as the request names the case, carries its digest and the state has not moved on. *)
Theorem ready_case_admissible {digests : AdmissionDigests} document case input :
  derive_assurance_case document = Ok case ->
  ra_verdict (ac_readiness (acd_assurance_case case)) = ReadinessVerdict_Ready ->
  oei_target (oed_obligation_engine_input document) ≠ ReadinessTarget_Explore ->
  ei_assurance_case input = case ->
  assurance_admissible input <->
  eq_assurance_case_id (ei_request input) = oei_case_id (oed_obligation_engine_input document)
  /\ digest_assurance case = Ok (eq_assurance_case_token (ei_request input))
  /\ psn_state_version (oei_project_snapshot (oed_obligation_engine_input document)) = ei_current_state_version input.
Proof.
  intros Hok Hready Ht Hcase. pose proof Hok as [Hv Ec]%derive_ok. rewrite <- Hcase in *.
  set (e := oed_obligation_engine_input document) in *.
  split; [intros [? ? _ _ _ ? _ _ _]; rewrite Ec in *; done|]. intros (Hid & Htok & Hst).
  rewrite Ec in Hready. simpl in Hready. pose proof (proj1 (case_ready_iff e) Hready) as Hn.
  pose proof (blockers_inv document) as Hbl. fold e in Hbl. setoid_rewrite Hbl in Hn.
  assert (forall before, before ≠ ReadinessTarget_Release -> readiness_rank before <=? readiness_rank (oei_target e) = true) as Hdue
    by (intros []; destruct (oei_target e); done).
  constructor; try exact Htok; rewrite Ec; simpl; try done.
  - unfold case_verdict in Hready. by destruct (case_blockers e).
  - intros o Ho Hb Hc. destruct (decide (ob_status o = ObligationStatus_Satisfied)) as [|Hs]; [done|exfalso].
    apply (Hn (ob_id o)). left. exists o. split; [done|]. split; [|done]. unfold obligation_due.
    rewrite !bool_decide_eq_false_2, Hdue by done. done.
  - intros d Hd Hb. destruct (decide (dr_blocks_before d = ReadinessTarget_Release)) as [|Hs]; [done|exfalso].
    apply (Hn (dr_id d)). right; right. exists d. split; [done|]. split; [|done]. unfold request_due. by rewrite Hb, Hdue.
  - intros g Hg Hb. destruct (decide (cg_blocks_before g = ReadinessTarget_Release)) as [|Hs]; [done|exfalso].
    apply (Hn (cg_id g)). right; left. exists g. split; [done|]. split; [|done]. unfold gap_due. by rewrite Hb, Hdue.
Qed.
