(* ===== verification/DerivedExamples.v ===== *)
(** * Concrete derivations

    A proposal that is ready for execution, the admission of the case derived from it, and a
    proposal whose ids collide in the case. *)

From S2P Require Import Prelude RustStr BTree Ordering Contracts AssuranceContracts Diagnostics ObligationEngine.
From S2P Require Import AssuranceValidation OperationContracts ExecutionAdmission AdmissionSpec AdmissionExamples DerivedCase.

Local Open Scope string_scope.
Local Open Scope list_scope.
Local Open Scope Z_scope.

Module Proposal.

Definition observed (lens : UniversalAssuranceLens) : LensObservation := {|
  lo_lens := lens; lo_applicability := LensApplicability_Applicable; lo_status := AssuranceClaimStatus_Verified;
  lo_evidence_refs := ["report"]; lo_waiver := None; lo_rationale := None |}.

Definition proposal (signals : list EpistemicRiskSignal) (capabilities : list CapabilityObservation)
    : ObligationEngineInputDocument := {|
  oed_schema_version := "0.1";
  oed_obligation_engine_input := {|
    oei_case_id := mk_StableId "case-1";
    oei_intent := {| ip_id := mk_StableId "i1"; ip_desired_outcome := "edit"; ip_constraints := [];
      ip_preferences := []; ip_unacceptable_outcomes := []; ip_uncertainties := [] |};
    oei_project_snapshot := {| psn_id := mk_StableId "snap"; psn_state_version := 7; psn_observed_at := "";
      psn_evidence_refs := []; psn_phase_projection := None |};
    oei_target := ReadinessTarget_Execute; oei_risk_level := RiskLevel_Low;
    oei_lens_observations := [observed UniversalAssuranceLens_IntendedOutcome;
                              observed UniversalAssuranceLens_LifecycleCoverage];
    oei_epistemic_signals := signals; oei_capability_observations := capabilities; oei_decision_needs := [] |} |}.

Definition document : ObligationEngineInputDocument := proposal [] [].

Definition case : AssuranceCaseDocument := Eval vm_compute in
  match derive_assurance_case document with Ok c => c | Err _ => Run.assurance end.

Lemma derived : derive_assurance_case document = Ok case.
Proof. vm_compute. reflexivity. Qed.

Definition tool : CapabilityObservation := {|
  co_id := mk_StableId "domain_competence"; co_kind := CapabilityGapKind_Tool;
  co_availability := CapabilityAvailability_Missing; co_description := "";
  co_affected_lenses := [UniversalAssuranceLens_IntendedOutcome]; co_resolution_options := ["install"] |}.

(** The input of the concrete admission, on the derived case. *)
Definition execution : ExecutionAdmissionInput := {|
  ei_request := Run.request; ei_assurance_case := case; ei_operation := Run.operation;
  ei_command_contracts := ei_command_contracts Run.input; ei_effect_contracts := ei_effect_contracts Run.input;
  ei_principal := ei_principal Run.input; ei_replay := ei_replay Run.input;
  ei_claim_snapshot := Run.claim_snapshot; ei_gate_snapshot := Run.gate_snapshot; ei_commit := ei_commit Run.input;
  ei_current_state_version := 7; ei_now_unix := Run.now; ei_max_attestation_age_seconds := 300;
  ei_max_future_skew_seconds := 30 |}.

#[export] Instance digests : AdmissionDigests := {|
  digest_assurance := Run.only case "case"; digest_operation := Run.digests.(digest_operation);
  digest_command := Run.digests.(digest_command); digest_effect := Run.digests.(digest_effect);
  digest_request := Run.digests.(digest_request); digest_snapshot := Run.digests.(digest_snapshot) |}.

End Proposal.

(** A missing tool named "domain_competence" and the engine's own gap for a novel domain have the
    same id: the validator reports the derived case. *)
Example gap_ids_can_collide :
  option_map dg_code (head (match derive_assurance_case (Proposal.proposal [EpistemicRiskSignal_NovelDomain] [Proposal.tool]) with
                            | Ok c => vr_diagnostics (validate_assurance_case c)
                            | Err _ => []
                            end)) = Some DC_AssuranceDuplicateEntityId.
Proof. vm_compute. reflexivity. Qed.

Lemma derived_case_valid_witness : vr_diagnostics (validate_assurance_case Proposal.case) = [].
Proof.
  destruct (derived_case_valid Proposal.document Proposal.case Proposal.derived) as [_ Hnil].
  - vm_compute. discriminate.
  - apply Hnil. split; [apply (bool_decide_unpack _); vm_compute; exact I|].
    apply Forall_forall, (bool_decide_unpack _). vm_compute. exact I.
Defined.

Lemma readiness_exact_witness : nothing_due (oed_obligation_engine_input Proposal.document).
Proof.
  apply (readiness_exact Proposal.document Proposal.case Proposal.derived). reflexivity.
Defined.

#[local] Existing Instance Proposal.digests.

Lemma ready_case_admissible_witness : assurance_admissible Proposal.execution.
Proof.
  apply (ready_case_admissible Proposal.document Proposal.case Proposal.execution Proposal.derived).
  - reflexivity.
  - discriminate.
  - reflexivity.
  - repeat split.
Defined.
