(* ===== verification/Isolation.v ===== *)
(** * Worktree isolation

    [forge-core-decisions/src/isolation.rs] and the contract types of
    [forge-core-contracts/src/isolation.rs]: the shape of an isolation contract, collisions between
    contracts, the lifecycle, and the merge plan.  Text is UTF-8 bytes; [std::path::Path::components]
    is the one of a Unix host. *)

From S2P Require Import Prelude RustStr BTree Contracts Calendar Rfc3339 PathScope.

Local Open Scope string_scope.
Local Open Scope Z_scope.
Local Open Scope forge_scope.

(** ** Data *)

Inductive IsolationStatus :=
| IsolationStatus_Proposed | IsolationStatus_Active | IsolationStatus_Merging
| IsolationStatus_Merged | IsolationStatus_Abandoned.

Inductive MergePolicy := MergePolicy_Rebase | MergePolicy_Merge | MergePolicy_Squash.

Record IsolationContract := {
  ic_id : StableId;
  ic_agent_id : StableId;
  ic_branch_name : string;
  ic_worktree_path : RepoPath;
  ic_base_ref : string;
  ic_created_at : string;
  ic_status : IsolationStatus;
  ic_merge_policy : MergePolicy;
  ic_claim_id : option StableId
}.

Inductive GitAction :=
| GitAction_WorktreeAdd | GitAction_WorktreeRemove | GitAction_Checkout | GitAction_Fetch
| GitAction_Rebase | GitAction_Merge | GitAction_Squash | GitAction_BranchDelete.

Record MergeStep := {
  ms_action : GitAction;
  ms_args : list string;
  ms_rationale : string
}.

Record MergePlan := {
  mp_isolation_id : StableId;
  mp_agent_id : StableId;
  mp_branch_name : string;
  mp_base_ref : string;
  mp_policy : MergePolicy;
  mp_steps : list MergeStep
}.

Inductive IsolationError :=
| IllegalBranchName (branch_name reason : string)
| IllegalWorktreePath (worktree_path reason : string)
| DuplicateBranch (branch_name : string) (owner : StableId)
| DuplicateWorktreePath (worktree_path : string) (owner : StableId)
| ClaimAgentMismatch (claim_id expected actual : StableId)
| UnparseableCreatedAt (raw : string)
| EmptyBaseRef
| ShellMetacharInField (field value : string)
| EmptyAgentId
| IllegalIsolationTransition (from to : IsolationStatus).

#[export] Instance IsolationStatus_eq_dec : EqDecision IsolationStatus.
Proof. solve_decision. Defined.
#[export] Instance MergePolicy_eq_dec : EqDecision MergePolicy.
Proof. solve_decision. Defined.
#[export] Instance IsolationContract_eq_dec : EqDecision IsolationContract.
Proof. solve_decision. Defined.

(** ** Characters *)

Definition is_metachar (c : ascii) : bool :=
  existsb (Ascii.eqb c) [";"; "&"; "|"; "$"; "`"; "("; ")"; "<"; ">"; LF; "{"; "}"]%char.

Definition contains_shell_metachar (s : string) : bool := existsb is_metachar (to_bytes s).

Definition shell_metachar_check (s : string) : option string :=
  if contains_shell_metachar s then Some "contains a shell metacharacter" else None.

(** Some suffix of the text starts with a character the predicate recognizes. *)
Fixpoint some_suffix (p : bytes -> bool) (l : bytes) : bool :=
  match l with
  | [] => false
  | _ :: r => p l || some_suffix p r
  end.

Definition starts_whitespace (l : bytes) : bool := match ws_prefix l with Some _ => true | None => false end.

(** [char::is_control]: U+0000 to U+001F, U+007F, and U+0080 to U+009F. *)
Definition starts_control (l : bytes) : bool :=
  match l with
  | a :: b :: _ => (code a <? 32)%N || (code a =? 127)%N || ((code a =? 194)%N && in_range 128 159 (code b))
  | [a] => (code a <? 32)%N || (code a =? 127)%N
  | [] => false
  end.

Definition starts_dotdot (l : bytes) : bool :=
  match l with a :: b :: _ => bool_decide (a = "."%char) && bool_decide (b = "."%char) | _ => false end.

(** [str::ends_with] for a literal suffix. *)
Definition ends_with (suffix s : string) : bool :=
  let l := rev (to_bytes suffix) in bool_decide (take (length l) (rev (to_bytes s)) = l).

(** ** Validators *)

Definition illegal_branch (reason name : string) : IsolationError := IllegalBranchName name reason.
Definition illegal_path (reason path : string) : IsolationError := IllegalWorktreePath path reason.

(** The loop over the components of a branch name. *)
Fixpoint validate_branch_components (name : string) (components : list string) : Result unit IsolationError :=
  match components with
  | [] => Ok tt
  | component :: rest =>
      if str_is_empty component then Err (illegal_branch "contains empty component" name)
      else if ends_with ".lock" (to_ascii_lowercase component) then Err (illegal_branch "component ends in '.lock'" name)
      else validate_branch_components name rest
  end.

Definition validate_branch_name (name : string) : Result unit IsolationError :=
  if str_is_empty (trim name) then Err (illegal_branch "empty" name)
  else if starts_with_char "-" name || starts_with_char "." name
  then Err (illegal_branch "must not start with '-' or '.'" name)
  else if some_suffix starts_dotdot (to_bytes name) then Err (illegal_branch "contains '..'" name)
  else if existsb (Ascii.eqb ":") (to_bytes name) then Err (illegal_branch "contains ':'" name)
  else if some_suffix starts_whitespace (to_bytes name) then Err (illegal_branch "contains whitespace" name)
  else if some_suffix starts_control (to_bytes name) then Err (illegal_branch "contains control character" name)
  else
    try _ <- validate_branch_components name (split (Ascii.eqb "/") name);
    match shell_metachar_check name with
    | Some reason => Err (illegal_branch reason name)
    | None => Ok tt
    end.

(** [std::path::Component] of a Unix path. *)
Inductive Component := RootDir | CurDir | ParentDir | Normal (name : string).

#[export] Instance Component_eq_dec : EqDecision Component.
Proof. solve_decision. Defined.

Definition component_of (part : string) : list Component :=
  if str_is_empty part || bool_decide (part = ".") then []
  else if bool_decide (part = "..") then [ParentDir] else [Normal part].

(** [Path::new(path).components()]: repeated separators and inner [.] are dropped. *)
Definition components (path : string) : list Component :=
  let parts := split (Ascii.eqb "/") path in
  let first := if starts_with_char "/" path then [RootDir]
               else if bool_decide (head parts = Some ".") then [CurDir] else [] in
  (first ++ concat (map component_of parts))%list.

Definition is_normal (c : Component) : bool := match c with Normal _ => true | _ => false end.

Definition validate_isolation_worktree_path (worktree_path : RepoPath) : Result unit IsolationError :=
  let path := RepoPath_0 worktree_path in
  if str_is_empty (trim path) then Err (illegal_path "empty" path)
  else if starts_with_char "-" path then Err (illegal_path "must not start with '-' (looks like a flag)" path)
  else match shell_metachar_check path with
  | Some reason => Err (illegal_path reason path)
  | None =>
      let cs := components path in
      if negb (bool_decide (head cs = Some ParentDir)) || (length cs <? 3)%nat
         || existsb (fun c => negb (is_normal c)) (drop 1 cs)
      then Err (illegal_path "must contain exactly one leading '..' followed by at least two normal components" path)
      else Ok tt
  end.

Definition validate_isolation_contract (c : IsolationContract) : Result unit IsolationError :=
  if str_is_empty (trim (StableId_0 (ic_agent_id c))) then Err EmptyAgentId
  else
    try _ <- validate_branch_name (ic_branch_name c);
    try _ <- validate_isolation_worktree_path (ic_worktree_path c);
    if str_is_empty (trim (ic_base_ref c)) then Err EmptyBaseRef
    else if contains_shell_metachar (ic_base_ref c) then Err (ShellMetacharInField "base_ref" (ic_base_ref c))
    else match rfc3339_to_unix (ic_created_at c) with
         | None => Err (UnparseableCreatedAt (ic_created_at c))
         | Some _ => Ok tt
         end.

Definition validate_isolation_claim_agent (isolation : IsolationContract) (claimant_agent_id : StableId)
    : Result unit IsolationError :=
  match ic_claim_id isolation with
  | None => Ok tt
  | Some claim_id =>
      if bool_decide (claimant_agent_id = ic_agent_id isolation) then Ok tt
      else Err (ClaimAgentMismatch claim_id claimant_agent_id (ic_agent_id isolation))
  end.

(** ** Collisions and lifecycle *)

(** One round of the loop of [normalize_path]; [rout] is the vector [out] reversed. *)
Definition normalize_path_step (rout : list string) (part : string) : list string :=
  if str_is_empty part || bool_decide (part = ".") then rout
  else if bool_decide (part = "..") then
    match rout with
    | s :: rest => if bool_decide (s ≠ "..") then rest else ".." :: rout
    | [] => [".."]
    end
  else to_ascii_lowercase part :: rout.

Definition normalize_path (path : string) : list string :=
  rev (foldl normalize_path_step [] (split is_separator path)).

Definition isolation_is_live (c : IsolationContract) : bool :=
  match ic_status c with IsolationStatus_Merged | IsolationStatus_Abandoned => false | _ => true end.

Fixpoint detect_isolation_conflict (new : IsolationContract) (existing : list IsolationContract)
    : Result unit IsolationError :=
  match existing with
  | [] => Ok tt
  | old :: rest =>
      if negb (isolation_is_live old) then detect_isolation_conflict new rest
      else if eq_ignore_ascii_case (ic_branch_name old) (ic_branch_name new)
      then Err (DuplicateBranch (ic_branch_name new) (ic_agent_id old))
      else if bool_decide (normalize_path (RepoPath_0 (ic_worktree_path old))
                           = normalize_path (RepoPath_0 (ic_worktree_path new)))
      then Err (DuplicateWorktreePath (RepoPath_0 (ic_worktree_path new)) (ic_agent_id old))
      else detect_isolation_conflict new rest
  end.

Definition transition_status (from to : IsolationStatus) : Result IsolationStatus IsolationError :=
  let legal := match from, to with
    | IsolationStatus_Proposed, IsolationStatus_Active | IsolationStatus_Merging, IsolationStatus_Active => true
    | IsolationStatus_Proposed, IsolationStatus_Abandoned | IsolationStatus_Active, IsolationStatus_Abandoned
    | IsolationStatus_Merging, IsolationStatus_Abandoned => true
    | IsolationStatus_Active, IsolationStatus_Merging => true
    | IsolationStatus_Merging, IsolationStatus_Merged => true
    | _, _ => false
    end in
  if legal then Ok to else Err (IllegalIsolationTransition from to).

(** ** Merge plan and branch names *)

Definition merge_step (action : GitAction) (args : list string) (rationale : string) : MergeStep :=
  {| ms_action := action; ms_args := args; ms_rationale := rationale |}.

Definition propose_merge (c : IsolationContract) (now_unix : Z) : MergePlan :=
  let base := ic_base_ref c in
  let branch := ic_branch_name c in {|
  mp_isolation_id := ic_id c; mp_agent_id := ic_agent_id c; mp_branch_name := branch; mp_base_ref := base;
  mp_policy := ic_merge_policy c;
  mp_steps := match ic_merge_policy c with
    | MergePolicy_Rebase =>
        [merge_step GitAction_Checkout [base] ("switch to the base ref '" ++ base ++ "' before rebasing");
         merge_step GitAction_Fetch [] "refresh the base ref in case it moved";
         merge_step GitAction_Rebase [base; branch]
           ("replay '" ++ branch ++ "' onto the current '" ++ base ++ "' (keeps history linear)");
         merge_step GitAction_Checkout [branch] "land on the rebased branch"]
    | MergePolicy_Merge =>
        [merge_step GitAction_Checkout [base] ("switch to '" ++ base ++ "' to receive the merge");
         merge_step GitAction_Merge ["--no-ff"; branch]
           ("create a merge commit recording the '" ++ branch ++ "' branch")]
    | MergePolicy_Squash =>
        [merge_step GitAction_Checkout [base] ("switch to '" ++ base ++ "' to receive the squash");
         merge_step GitAction_Squash [branch] ("fold all commits of '" ++ branch ++ "' into one staged change")]
    end |}.

(** [trim_matches('-')]. *)
Fixpoint drop_dashes (l : bytes) : bytes :=
  match l with c :: r => if Ascii.eqb c "-" then drop_dashes r else l | [] => [] end.
Definition trim_dashes (l : bytes) : bytes := rev (drop_dashes (rev (drop_dashes l))).

(** One [char] of the slug: continuation bytes belong to the character before them. *)
Definition slug_byte (c : ascii) : bytes :=
  if is_cont c then [] else if is_ascii_alphanumeric c then [c] else ["-"%char].

Definition slug_branch_segment (segment : string) : string :=
  of_bytes (trim_dashes (concat (map slug_byte (to_bytes (trim (to_ascii_lowercase segment)))))).

Definition branch_name_for (agent : StableId) (scope : string) : string :=
  slug_branch_segment (StableId_0 agent) ++ "/" ++ slug_branch_segment scope.

(** ** Slugs *)

(** The bytes a slug is made of. *)
Definition slug_char (c : ascii) : bool := is_ascii_alphanumeric c || Ascii.eqb c "-".

Lemma elem_of_drop_dashes c l : c ∈ drop_dashes l -> c ∈ l.
Proof. induction l as [|d l IH]; [done|]. simpl. destruct (Ascii.eqb d "-"); [intros; right; auto | done]. Qed.

Lemma head_drop_dashes c l l' : drop_dashes l = c :: l' -> c ≠ "-"%char.
Proof.
  induction l as [|d l IH]; [done|]. simpl. destruct (Ascii.eqb_spec d "-"); [done|]. by intros [= <- <-].
Qed.

Lemma elem_of_trim_dashes c l : c ∈ trim_dashes l -> c ∈ l.
Proof.
  unfold trim_dashes. rewrite list_elem_of_In, <- List.in_rev, <- list_elem_of_In. intros Hc%elem_of_drop_dashes.
  rewrite list_elem_of_In, <- List.in_rev, <- list_elem_of_In in Hc. by apply elem_of_drop_dashes.
Qed.

(** The dashes at the end are dropped without touching the head. *)
Lemma drop_dashes_rev_head c l : c ≠ "-"%char -> exists l', rev (drop_dashes (rev (c :: l))) = c :: l'.
Proof.
  intros Hc. simpl. induction (rev l) as [|d k IH]; simpl.
  - destruct (Ascii.eqb_spec c "-"); [done|]. by exists [].
  - destruct (Ascii.eqb d "-"); [done|]. simpl. rewrite rev_app_distr. simpl. by eexists.
Qed.

Lemma slug_bytes_spec segment c :
  c ∈ to_bytes (slug_branch_segment segment) -> slug_char c = true.
Proof.
  unfold slug_branch_segment. rewrite to_of_bytes. intros Hc%elem_of_trim_dashes.
  apply list_elem_of_In, List.in_concat in Hc as (l & Hl & Hc). apply list_elem_of_In, map_In_iff in Hl as (d & -> & _).
  apply list_elem_of_In in Hc. unfold slug_byte in Hc. destruct (is_cont d); [by apply elem_of_nil in Hc|].
  destruct (is_ascii_alphanumeric d) eqn:E; apply list_elem_of_singleton in Hc as ->; unfold slug_char; [by rewrite E | done].
Qed.

Lemma slug_head segment :
  slug_branch_segment segment ≠ "" ->
  exists c l, to_bytes (slug_branch_segment segment) = c :: l /\ is_ascii_alphanumeric c = true.
Proof.
  intros Hne. pose proof (slug_bytes_spec segment) as Hall. unfold slug_branch_segment in *. rewrite to_of_bytes in *.
  set (k := concat _) in *. unfold trim_dashes in *. destruct (drop_dashes k) as [|c l] eqn:E; [done|].
  pose proof (head_drop_dashes _ _ _ E) as Hc. destruct (drop_dashes_rev_head c l Hc) as (l' & El). rewrite El in *.
  exists c, l'. split; [done|]. specialize (Hall c (list_elem_of_here _ _)). unfold slug_char in Hall.
  destruct (Ascii.eqb_spec c "-"); [done|]. by rewrite orb_false_r in Hall.
Qed.

(** ** Names made of slug characters *)

(** The bytes of a suggested branch name. *)
Definition branch_char (c : ascii) : bool := slug_char c || Ascii.eqb c "/".

Lemma branch_char_solid c : branch_char c = true -> solid c = true.
Proof. destruct c as [[] [] [] [] [] [] [] []]; vm_compute; done. Qed.

Lemma some_suffix_false p l :
  (forall c r, c ∈ l -> p (c :: r) = false) -> some_suffix p l = false.
Proof.
  induction l as [|c l IH]; intros Hall; [done|]. simpl. rewrite Hall by (by left). apply IH. intros d r Hd. apply Hall. by right.
Qed.

Lemma branch_char_starts c r : branch_char c = true ->
  starts_dotdot (c :: r) = false /\ starts_whitespace (c :: r) = false /\ starts_control (c :: r) = false
  /\ is_metachar c = false /\ c ≠ ":"%char /\ c ≠ "."%char.
Proof.
  intros Hc. split; [|split; [|split]].
  - destruct r as [|d r]; [done|]. simpl. rewrite (bool_decide_eq_false_2 (c = _)); [done|]. by intros ->.
  - unfold starts_whitespace. by rewrite ws_prefix_solid by (by apply branch_char_solid).
  - assert ((code c <? 32)%N = false /\ (code c =? 127)%N = false /\ (code c =? 194)%N = false) as (E1 & E2 & E3).
    { revert Hc. destruct c as [[] [] [] [] [] [] [] []]; vm_compute; done. }
    destruct r; simpl; by rewrite E1, E2, ?E3.
  - revert Hc. destruct c as [[] [] [] [] [] [] [] []]; vm_compute; done.
Qed.

(** Splitting at the one separator. *)
Lemma split_go_none sep cur l : (forall c, c ∈ l -> sep c = false) -> split_go sep cur l = [of_bytes (rev cur ++ l)].
Proof.
  revert cur. induction l as [|c l IH]; intros cur Hall; simpl; [by rewrite app_nil_r|].
  rewrite Hall by (by left). rewrite IH; [|intros; apply Hall; by right]. simpl. by rewrite <- app_assoc.
Qed.

Lemma split_go_one sep cur l c k :
  (forall c, c ∈ l -> sep c = false) -> sep c = true -> (forall c, c ∈ k -> sep c = false) ->
  split_go sep cur (l ++ c :: k) = [of_bytes (rev cur ++ l); of_bytes k].
Proof.
  revert cur. induction l as [|d l IH]; intros cur Hl Hc Hk; simpl.
  - rewrite Hc, split_go_none by done. by rewrite app_nil_r.
  - rewrite Hl by (by left). rewrite IH; [|intros; apply Hl; by right | done | done]. simpl. by rewrite <- app_assoc.
Qed.

Lemma no_lock segment :
  (forall c, c ∈ to_bytes segment -> c ≠ "."%char) -> ends_with ".lock" (to_ascii_lowercase segment) = false.
Proof.
  intros Hall. unfold ends_with. apply bool_decide_eq_false. intros E.
  assert ("."%char ∈ rev (to_bytes (to_ascii_lowercase segment))) as Hin.
  { rewrite <- (take_drop (length (rev (to_bytes ".lock")))), E. rewrite elem_of_app. left. vm_compute. do 4 right. left. }
  rewrite list_elem_of_In, <- List.in_rev, <- list_elem_of_In in Hin. unfold to_ascii_lowercase in Hin. rewrite to_of_bytes in Hin.
  apply map_In_iff in Hin as (c & Ec & Hc). apply (Hall c Hc). by apply lower_byte_dot.
Qed.

(** ** Claims about branch names and paths *)

(** The branch suggested for an agent and a scope is always legal.  When both slugs are non-empty,
    the name passes [validate_branch_name]. *)
Theorem suggested_branch_valid agent scope :
  slug_branch_segment (StableId_0 agent) ≠ "" -> slug_branch_segment scope ≠ "" ->
  validate_branch_name (branch_name_for agent scope) = Ok tt.
Proof.
  intros Ha Hs. unfold branch_name_for. destruct (slug_head _ Ha) as (c & l & Ec & Hc).
  assert (forall d, d ∈ to_bytes (branch_name_for agent scope) -> branch_char d = true) as Hall.
  { unfold branch_name_for. intros d. rewrite !to_bytes_app, !elem_of_app. unfold branch_char.
    intros [Hd|[Hd|Hd]]; [by rewrite (slug_bytes_spec _ _ Hd) | | by rewrite (slug_bytes_spec _ _ Hd)].
    apply list_elem_of_singleton in Hd as ->. done. }
  assert (to_bytes (branch_name_for agent scope) = c :: l ++ "/"%char :: to_bytes (slug_branch_segment scope)) as Eb.
  { unfold branch_name_for. by rewrite !to_bytes_app, Ec. }
  fold (branch_name_for agent scope). set (name := branch_name_for agent scope) in *. unfold validate_branch_name.
  assert (branch_char c = true) as Hbc by (unfold branch_char, slug_char; by rewrite Hc).
  destruct (branch_char_starts c [] Hbc) as (_ & _ & _ & _ & _ & Hdot).
  assert (str_is_empty (trim name) = false) as ->.
  { unfold trim. destruct (trim_bytes_head c (l ++ "/"%char :: to_bytes (slug_branch_segment scope))) as (l' & El);
      [by apply branch_char_solid|]. by rewrite Eb, El. }
  assert (starts_with_char "-" name || starts_with_char "." name = false) as ->.
  { unfold starts_with_char. rewrite Eb. revert Hc. destruct c as [[] [] [] [] [] [] [] []]; vm_compute; done. }
  rewrite !some_suffix_false; [|intros d r Hd; by apply branch_char_starts, Hall..].
  assert (existsb (Ascii.eqb ":") (to_bytes name) = false) as ->.
  { apply existsb_not_In. intros d Hd. apply Ascii.eqb_neq. intros <-. by apply Hall in Hd. }
  assert (split (Ascii.eqb "/") name = [slug_branch_segment (StableId_0 agent); slug_branch_segment scope]) as ->.
  { unfold split, name, branch_name_for. rewrite !to_bytes_app. change (to_bytes "/") with ["/"%char]. cbn [app].
    assert (forall seg d, d ∈ to_bytes (slug_branch_segment seg) -> Ascii.eqb "/" d = false) as Hn.
    { intros seg d Hd%slug_bytes_spec. apply Ascii.eqb_neq. by intros <-. }
    rewrite split_go_one; [|by apply Hn | done | by apply Hn]. cbn [rev app]. by rewrite !of_to_bytes. }
  assert (forall seg d, d ∈ to_bytes (slug_branch_segment seg) -> d ≠ "."%char) as Hnd
    by (intros seg d Hd%slug_bytes_spec; by intros ->).
  assert (forall seg, seg ≠ "" -> str_is_empty seg = false) as Hemp by (by intros []).
  cbn [validate_branch_components]. rewrite !Hemp, !no_lock by (done || apply Hnd).
  cbn [result_bind]. unfold shell_metachar_check, contains_shell_metachar. rewrite (proj2 (existsb_not_In _ _)); [done|].
  intros d Hd. apply Hall in Hd. by apply (branch_char_starts d []).
Qed.

(** Collision paths are normalized as claim scopes are, except that only ASCII letters are folded. *)
Lemma normalize_path_segments path : normalize_path path = @normalize_segments ascii_lowercase path.
Proof.
  unfold normalize_path, normalize_segments. f_equal. generalize (@nil string).
  induction (split is_separator path) as [|part parts IH]; intros rout; [done|]. simpl. rewrite <- IH. f_equal.
  unfold normalize_path_step, normalize_step. destruct part as [|a part]; [done|]. by destruct rout.
Qed.

Lemma suggested_branch_valid_witness : validate_branch_name (branch_name_for (mk_StableId "Alice B.") "Story 5!") = Ok tt.
Proof. apply suggested_branch_valid; vm_compute; discriminate. Defined.
