(* ===== verification/IsolationRegistry.v ===== *)
(** * The isolation registry

    The commands of [forge-core-cli/src/isolation.rs] on a directory of contracts, one YAML file per
    contract: [run_propose], [run_link_claim], [run_transition], [run_merge_plan], and the shell
    commands they suggest.  The lock is held for the whole of a mutating command, so a command is
    one step on the directory; a file that cannot be read or parsed is [None].  Taking the locks
    succeeds: a lock that cannot be taken ends the command with no effect. *)

From S2P Require Import Prelude RustStr BTree Contracts Calendar Rfc3339 PathScope ClaimEngine ClaimBus Isolation.

Local Open Scope string_scope.
Local Open Scope Z_scope.
Local Open Scope forge_scope.

(** The [*.yaml] files of the directory, by name. *)
Definition IsolationDir : Type := gmap string (option IsolationContract).

Definition isolation_file (id : StableId) : string := slug_for_file (StableId_0 id) ++ ".yaml".

(** The files in the order of their names. *)
Definition sorted_files (dir : IsolationDir) : list (string * option IsolationContract) :=
  sort_by fst (map_to_list dir).

(** [load_isolations]: the contracts in path order, and whether some file is malformed. *)
Definition load_isolations (dir : IsolationDir) : list IsolationContract * bool :=
  (omap snd (sorted_files dir), existsb (fun f => bool_decide (snd f = None)) (sorted_files dir)).

(** [save_isolation], when the write succeeds. *)
Definition save_isolation (dir : IsolationDir) (c : IsolationContract) : IsolationDir :=
  <[isolation_file (ic_id c) := Some c]> dir.

(** ** Shell text *)

(** [s.replace('\'', "'\\''")] between quotes. *)
Definition quote_byte (c : ascii) : bytes :=
  if Ascii.eqb c "'" then ["'"; "\"; "'"; "'"]%char else [c].
Definition shell_quote (s : string) : string := "'" ++ of_bytes (concat (map quote_byte (to_bytes s))) ++ "'".

Definition suggested_worktree_commands (c : IsolationContract) : list string :=
  ["git worktree add -b " ++ shell_quote (ic_branch_name c) ++ " "
     ++ shell_quote (RepoPath_0 (ic_worktree_path c)) ++ " " ++ shell_quote (ic_base_ref c);
   "cd " ++ shell_quote (RepoPath_0 (ic_worktree_path c))].

Definition action_subcommand (a : GitAction) : string :=
  match a with
  | GitAction_WorktreeAdd | GitAction_WorktreeRemove => "worktree"
  | GitAction_Checkout => "checkout"
  | GitAction_Fetch => "fetch"
  | GitAction_Rebase => "rebase"
  | GitAction_Merge => "merge"
  | GitAction_Squash => "merge --squash"
  | GitAction_BranchDelete => "branch"
  end.

Definition merge_back_commands (c : IsolationContract) : list string :=
  map (fun s => "git " ++ action_subcommand (ms_action s) ++ " " ++ String.concat " " (map shell_quote (ms_args s)))
    (mp_steps (propose_merge c 0)).

(** ** Commands *)

(** The exit reasons of [CliEnvelope], with what the rejection carries. *)
Inductive IsolationEnvelope :=
| IsoOk (isolation : IsolationContract) (suggested_git_commands : list string)
| IsoRejected (error : IsolationError)
| IsoRejectedByGate (message : string)
| IsoNotFound
| IsoEnvConfig.

(** What reading the claims directory gives: the claims, or a configuration error. *)
Definition ClaimsView : Type := Result (list ClaimContract) unit.

Definition find_claim (claims : list ClaimContract) (claim_id : StableId) : option ClaimContract :=
  List.find (fun claim => bool_decide (ClaimId_0 (cc_id claim) = StableId_0 claim_id)) claims.

Record ProposeRequest := {
  prq_agent_id : StableId;
  prq_branch_name : string;
  prq_worktree_path : string;
  prq_base_ref : string;
  prq_merge_policy : MergePolicy;
  prq_claim_id : option StableId;
  prq_isolation_id : string
}.

Definition proposed_contract (req : ProposeRequest) (now_unix : Z) : IsolationContract := {|
  ic_id := mk_StableId (prq_isolation_id req); ic_agent_id := prq_agent_id req;
  ic_branch_name := prq_branch_name req; ic_worktree_path := mk_RepoPath (prq_worktree_path req);
  ic_base_ref := prq_base_ref req; ic_created_at := unix_to_rfc3339 now_unix;
  ic_status := IsolationStatus_Proposed; ic_merge_policy := prq_merge_policy req; ic_claim_id := prq_claim_id req |}.

(** The resolution of the linked claim; [None] when it does not stop the command. *)
Definition check_linked_claim (claims_dir : option ClaimsView) (contract : IsolationContract) : option IsolationEnvelope :=
  match ic_claim_id contract with
  | None => None
  | Some claim_id =>
      match claims_dir with
      | None | Some (Err _) => Some IsoEnvConfig
      | Some (Ok claims) =>
          match find_claim claims claim_id with
          | None => Some IsoNotFound
          | Some claim =>
              match validate_isolation_claim_agent contract (ci_claimant_agent_id (cc_claim claim)) with
              | Err error => Some (IsoRejected error)
              | Ok _ => None
              end
          end
      end
  end.

(** [written] is whether the write of the file succeeds. *)
Definition run_propose (dir : IsolationDir) (claims_dir : option ClaimsView) (req : ProposeRequest)
    (now_unix : Z) (written : bool) : IsolationEnvelope * IsolationDir :=
  let contract := proposed_contract req now_unix in
  match validate_isolation_contract contract with
  | Err e => (IsoRejected e, dir)
  | Ok _ =>
      match check_linked_claim claims_dir contract with
      | Some env => (env, dir)
      | None =>
          let '(existing, malformed) := load_isolations dir in
          if malformed then (IsoEnvConfig, dir)
          else match detect_isolation_conflict contract existing with
          | Err e => (IsoRejected e, dir)
          | Ok _ => if written then (IsoOk contract (suggested_worktree_commands contract), save_isolation dir contract)
                    else (IsoEnvConfig, dir)
          end
      end
  end.

Definition set_status (c : IsolationContract) (s : IsolationStatus) : IsolationContract := {|
  ic_id := ic_id c; ic_agent_id := ic_agent_id c; ic_branch_name := ic_branch_name c;
  ic_worktree_path := ic_worktree_path c; ic_base_ref := ic_base_ref c; ic_created_at := ic_created_at c;
  ic_status := s; ic_merge_policy := ic_merge_policy c; ic_claim_id := ic_claim_id c |}.

Definition set_claim (c : IsolationContract) (claim_id : StableId) : IsolationContract := {|
  ic_id := ic_id c; ic_agent_id := ic_agent_id c; ic_branch_name := ic_branch_name c;
  ic_worktree_path := ic_worktree_path c; ic_base_ref := ic_base_ref c; ic_created_at := ic_created_at c;
  ic_status := ic_status c; ic_merge_policy := ic_merge_policy c; ic_claim_id := Some claim_id |}.

Definition find_isolation (contracts : list IsolationContract) (id : StableId) : option IsolationContract :=
  List.find (fun c => bool_decide (ic_id c = id)) contracts.

Definition run_transition (dir : IsolationDir) (isolation_id : StableId) (to : IsolationStatus) (written : bool)
    : IsolationEnvelope * IsolationDir :=
  let '(contracts, malformed) := load_isolations dir in
  if malformed then (IsoEnvConfig, dir)
  else match find_isolation contracts isolation_id with
  | None => (IsoNotFound, dir)
  | Some contract =>
      match transition_status (ic_status contract) to with
      | Err e => (IsoRejected e, dir)
      | Ok new =>
          let contract := set_status contract new in
          if written
          then (IsoOk contract (if bool_decide (new = IsolationStatus_Merging) then merge_back_commands contract else []),
                save_isolation dir contract)
          else (IsoEnvConfig, dir)
      end
  end.

Definition run_merge_plan (dir : IsolationDir) (isolation_id : StableId) (now_unix : Z)
    : Result MergePlan IsolationEnvelope :=
  let '(contracts, malformed) := load_isolations dir in
  if malformed then Err IsoEnvConfig
  else match find_isolation contracts isolation_id with
  | None => Err IsoNotFound
  | Some contract => Ok (propose_merge contract now_unix)
  end.

(** The entry of the directory that holds the isolation, with its file name. *)
Definition matching_entries (dir : IsolationDir) (isolation_id : StableId) : list (string * IsolationContract) :=
  omap (fun f => match snd f with
                 | Some c => if bool_decide (ic_id c = isolation_id) then Some (fst f, c) else None
                 | None => None
                 end) (sorted_files dir).

Definition run_link_claim (dir : IsolationDir) (claims_dir : ClaimsView) (isolation_id claim_id : StableId)
    (now_unix : Z) (written : bool) : IsolationEnvelope * IsolationDir :=
  if snd (load_isolations dir) then (IsoEnvConfig, dir)
  else match matching_entries dir isolation_id with
  | [] => (IsoNotFound, dir)
  | (relative_path, contract) :: more =>
      if negb (is_nil more) || negb (bool_decide (relative_path = isolation_file isolation_id)) then (IsoEnvConfig, dir)
      else if negb (bool_decide (ic_status contract = IsolationStatus_Proposed)
                    || bool_decide (ic_status contract = IsolationStatus_Active))
      then (IsoRejectedByGate "claim attachment requires a proposed or active isolation", dir)
      else if match ic_claim_id contract with Some linked => negb (bool_decide (linked = claim_id)) | None => false end
      then (IsoRejectedByGate "isolation is already linked to a different claim", dir)
      else match claims_dir with
      | Err _ => (IsoEnvConfig, dir)
      | Ok claims =>
          match find_claim claims claim_id with
          | None => (IsoNotFound, dir)
          | Some claim =>
              if negb (is_live claim now_unix)
              then (IsoRejectedByGate "linked claim is not live or its lease has expired", dir)
              else
                let already_linked := match ic_claim_id contract with Some _ => true | None => false end in
                let contract := set_claim contract claim_id in
                match validate_isolation_claim_agent contract (ci_claimant_agent_id (cc_claim claim)) with
                | Err error => (IsoRejected error, dir)
                | Ok _ =>
                    if already_linked then (IsoOk contract [], dir)
                    else if written then (IsoOk contract [], save_isolation dir contract)
                    else (IsoEnvConfig, dir)
                end
          end
      end
  end.

(** ** The registry as a state machine *)

Inductive isolation_step (dir : IsolationDir) : IsolationDir -> Prop :=
| step_propose claims req now written : isolation_step dir (run_propose dir claims req now written).2
| step_transition id to written : isolation_step dir (run_transition dir id to written).2
| step_link claims id claim now written : isolation_step dir (run_link_claim dir claims id claim now written).2.

Definition isolation_reachable (dir : IsolationDir) : Prop := rtc isolation_step ∅ dir.

(** Two contracts want the same branch or the same worktree. *)
Definition collides (c d : IsolationContract) : bool :=
  eq_ignore_ascii_case (ic_branch_name c) (ic_branch_name d)
  || bool_decide (normalize_path (RepoPath_0 (ic_worktree_path c)) = normalize_path (RepoPath_0 (ic_worktree_path d))).

Record registry_ok (dir : IsolationDir) : Prop := {
  ro_files : forall f v, dir !! f = Some v -> exists c, v = Some c /\ f = isolation_file (ic_id c)
                         /\ validate_isolation_contract c = Ok tt;
  ro_disjoint : forall f g c d, f ≠ g -> dir !! f = Some (Some c) -> dir !! g = Some (Some d) ->
    isolation_is_live c = true -> isolation_is_live d = true -> collides c d = false
}.

Lemma collides_sym c d : collides c d = collides d c.
Proof.
  unfold collides, eq_ignore_ascii_case. f_equal; apply bool_decide_ext; split; congruence.
Qed.

Lemma elem_of_sorted_files dir f v : (f, v) ∈ sorted_files dir <-> dir !! f = Some v.
Proof. unfold sorted_files. rewrite sort_by_perm. apply elem_of_map_to_list. Qed.

Lemma load_In dir c : c ∈ fst (load_isolations dir) <-> exists f, dir !! f = Some (Some c).
Proof.
  unfold load_isolations. cbn [fst]. rewrite list_elem_of_omap. split.
  - intros ([f v] & Hin & Hv). simpl in Hv. subst v. exists f. by apply elem_of_sorted_files.
  - intros (f & Hf). exists (f, Some c). split; [by apply elem_of_sorted_files | done].
Qed.

Lemma load_well_formed dir : registry_ok dir -> snd (load_isolations dir) = false.
Proof.
  intros Hok. unfold load_isolations. cbn [snd]. apply existsb_not_In. intros [f v] Hin. apply elem_of_sorted_files in Hin.
  destruct (ro_files dir Hok f v Hin) as (c & -> & _). by apply bool_decide_eq_false.
Qed.

Lemma detect_ok new existing :
  detect_isolation_conflict new existing = Ok tt <->
  forall old, old ∈ existing -> isolation_is_live old = true -> collides old new = false.
Proof.
  induction existing as [|old existing IH]; simpl; [split; [by intros _ ? ?%elem_of_nil | done]|].
  setoid_rewrite elem_of_cons. unfold collides.
  destruct (isolation_is_live old) eqn:El; simpl.
  2: { rewrite IH. split; [intros Hall x [->|Hx] Hl; [congruence | by apply Hall] | intros Hall x Hx Hl; apply Hall; auto]. }
  destruct (eq_ignore_ascii_case (ic_branch_name old) (ic_branch_name new)) eqn:Eb.
  { split; [done|]. intros Hall. specialize (Hall old (or_introl eq_refl) El). by rewrite Eb in Hall. }
  case_bool_decide as Ep.
  { split; [done|]. intros Hall. specialize (Hall old (or_introl eq_refl) El).
    rewrite Eb, bool_decide_eq_true_2 in Hall; done. }
  rewrite IH. split; [|intros Hall x Hx Hl; apply Hall; auto].
  intros Hall x [->|Hx] Hl; [by rewrite Eb, bool_decide_eq_false_2 | by apply Hall].
Qed.

Lemma find_isolation_In dir id c :
  registry_ok dir -> find_isolation (fst (load_isolations dir)) id = Some c ->
  dir !! isolation_file id = Some (Some c) /\ ic_id c = id.
Proof.
  intros Hok [Hin Hid]%find_some_In. bool_simpl. apply load_In in Hin as (f & Hf). split; [|done].
  destruct (ro_files dir Hok f _ Hf) as (c' & [= <-] & Hfile & _). by rewrite <- Hid, <- Hfile.
Qed.

(** Saving a valid contract that collides with no other live one keeps the registry in order. *)
Lemma save_ok dir c :
  registry_ok dir -> validate_isolation_contract c = Ok tt ->
  (forall f d, f ≠ isolation_file (ic_id c) -> dir !! f = Some (Some d) -> isolation_is_live c = true ->
     isolation_is_live d = true -> collides c d = false) ->
  registry_ok (save_isolation dir c).
Proof.
  intros Hok Hv Hnew. unfold save_isolation. constructor.
  - intros f v [[<- <-]|[Hne Hf]]%lookup_insert_Some; [eauto | by apply (ro_files dir Hok)].
  - intros f g x y Hne Hf Hg Hlx Hly.
    apply lookup_insert_Some in Hf as [[<- [= <-]]|[Hf' Hf]], Hg as [[<- [= <-]]|[Hg' Hg]].
    + done.
    + eapply Hnew; eauto.
    + rewrite collides_sym. eapply Hnew; eauto.
    + by apply (ro_disjoint dir Hok f g).
Qed.

Lemma transition_live from to new :
  transition_status from to = Ok new ->
  match from with IsolationStatus_Merged | IsolationStatus_Abandoned => false | _ => true end = true.
Proof. by destruct from, to. Qed.

(** A contract changed in place, its branch, path and identity kept, and not brought back to life. *)
Lemma resave_ok dir c c' :
  registry_ok dir -> dir !! isolation_file (ic_id c) = Some (Some c) ->
  ic_id c' = ic_id c -> validate_isolation_contract c' = validate_isolation_contract c ->
  (forall d, collides c' d = collides c d) -> isolation_is_live c = true ->
  registry_ok (save_isolation dir c').
Proof.
  intros Hok Hc Hid Hv Hcol Hl. destruct (ro_files dir Hok _ _ Hc) as (x & [= <-] & _ & Hvc).
  apply save_ok; [done | by rewrite Hv|]. rewrite Hid. intros f d Hne Hf _ Hld. rewrite Hcol.
  by apply (ro_disjoint dir Hok (isolation_file (ic_id c)) f).
Qed.

Lemma step_ok dir dir' : registry_ok dir -> isolation_step dir dir' -> registry_ok dir'.
Proof.
  intros Hok Hs. destruct Hs as [claims req now written | id to written | claims id claim now written].
  - unfold run_propose. set (c := proposed_contract req now).
    destruct (validate_isolation_contract c) as [[]|] eqn:Ev; [|done]. destruct (check_linked_claim claims c); [done|].
    pose proof (load_In dir) as Hload. destruct (load_isolations dir) as [existing malformed]. cbn [fst] in Hload.
    destruct malformed; [done|]. destruct (detect_isolation_conflict c existing) as [[]|] eqn:Ed; [|done].
    destruct written; [|done]. apply save_ok; [done..|]. intros f d _ Hf _ Hl. rewrite collides_sym.
    apply detect_ok with existing; [done | by apply Hload; exists f | done].
  - unfold run_transition. pose proof (fun c => find_isolation_In dir id c Hok) as Hfind.
    destruct (load_isolations dir) as [contracts malformed]. cbn [fst] in Hfind. destruct malformed; [done|].
    destruct (find_isolation contracts id) as [c|] eqn:Ef; [|done]. destruct (Hfind c eq_refl) as [Hf <-].
    destruct (transition_status (ic_status c) to) as [new|] eqn:Et; [|done]. destruct written; [|done].
    apply (resave_ok dir c); try done. unfold isolation_is_live. by apply transition_live in Et.
  - unfold run_link_claim. destruct (snd (load_isolations dir)); [done|].
    destruct (matching_entries dir id) as [|[file c] more] eqn:Em; [done|].
    assert (dir !! file = Some (Some c) /\ ic_id c = id) as [Hf <-].
    { assert ((file, c) ∈ matching_entries dir id) as Hin by (rewrite Em; by left). unfold matching_entries in Hin.
      apply list_elem_of_omap in Hin as ([f [x|]] & Hin & Hx); [|done]. simpl in Hx. case_bool_decide; [|done].
      simplify_eq. split; [by apply elem_of_sorted_files | done]. }
    destruct (negb (is_nil more) || _) eqn:Efile; [done|]. apply orb_false_iff in Efile as [_ Efile].
    apply negb_false_iff, bool_decide_eq_true in Efile. subst file.
    destruct (negb (_ || _)) eqn:Est; [done|]. destruct (match ic_claim_id c with Some _ => _ | None => _ end); [done|].
    destruct claims as [claims|]; [|done]. destruct (find_claim claims claim) as [k|]; [|done].
    destruct (negb (is_live k now)); [done|].
    destruct (validate_isolation_claim_agent _ _); [|done]. destruct (match ic_claim_id c with Some _ => _ | None => _ end); [done|].
    destruct written; [|done]. apply (resave_ok dir c); try done. unfold isolation_is_live.
    apply negb_false_iff, orb_true_iff in Est as [E|E]; apply bool_decide_eq_true in E; by rewrite E.
Qed.

Lemma reachable_ok dir : isolation_reachable dir -> registry_ok dir.
Proof.
  unfold isolation_reachable. assert (registry_ok ∅) as Hempty by (by constructor).
  revert Hempty. generalize (∅ : IsolationDir). intros dir0 H0 Hr. induction Hr as [d|d d' d'' Hs Hr IH]; [done|].
  apply IH. by eapply step_ok.
Qed.

(** ** What a shell reads

    The token rules of a POSIX shell for the text the commands emit: blanks separate words, a single
    quote starts a literal run that ends at the next one, a backslash outside quotes takes the next
    character literally.  Any other character that could mean something to the shell gives [None]. *)

Definition sh_plain (c : ascii) : bool :=
  is_ascii_alphanumeric c || Ascii.eqb c "-" || Ascii.eqb c "_" || Ascii.eqb c "/" || Ascii.eqb c ".".

Definition flush (cur : option bytes) : list string :=
  match cur with Some w => [of_bytes (rev w)] | None => [] end.

Fixpoint sh_lex (quoted : bool) (cur : option bytes) (l : bytes) : option (list string) :=
  match l with
  | [] => if quoted then None else Some (flush cur)
  | c :: r =>
      if quoted then
        if Ascii.eqb c "'" then sh_lex false cur r else sh_lex true (Some (c :: default [] cur)) r
      else if Ascii.eqb c " " then (app (flush cur)) <$> sh_lex false None r
      else if Ascii.eqb c "'" then sh_lex true (Some (default [] cur)) r
      else if Ascii.eqb c "\" then
        match r with d :: r' => sh_lex false (Some (d :: default [] cur)) r' | [] => None end
      else if sh_plain c then sh_lex false (Some (c :: default [] cur)) r
      else None
  end.

Definition sh_words (s : string) : option (list string) := sh_lex false None (to_bytes s).

Lemma sh_quoted_body l w rest :
  sh_lex true (Some w) (concat (map quote_byte l) ++ "'"%char :: rest) = sh_lex false (Some (rev l ++ w)%list) rest.
Proof.
  revert w. induction l as [|c l IH]; intros w; [done|]. simpl map. simpl concat. rewrite <- app_assoc. unfold quote_byte at 1.
  destruct (Ascii.eqb_spec c "'") as [->|Hne].
  - simpl. rewrite IH. by rewrite <- app_assoc.
  - cbn [app]. cbn [sh_lex]. rewrite (proj2 (Ascii.eqb_neq c "'") Hne). cbn [default]. rewrite IH. simpl. by rewrite <- app_assoc.
Qed.

Lemma sh_quote s rest :
  sh_lex false None (to_bytes (shell_quote s) ++ rest) = sh_lex false (Some (rev (to_bytes s))) rest.
Proof.
  unfold shell_quote. rewrite !to_bytes_app, to_of_bytes. change (to_bytes "'") with ["'"%char].
  cbn [app sh_lex]. simpl. rewrite <- app_assoc. simpl. rewrite sh_quoted_body. by rewrite app_nil_r.
Qed.

Lemma sh_quote_end s : sh_lex false None (to_bytes (shell_quote s)) = Some [s].
Proof.
  rewrite <- (app_nil_r (to_bytes (shell_quote s))), sh_quote. simpl. by rewrite rev_involutive, of_to_bytes.
Qed.

Lemma sh_quote_blank s rest :
  sh_lex false None (to_bytes (shell_quote s) ++ to_bytes (" " ++ rest)) = cons s <$> sh_lex false None (to_bytes rest).
Proof.
  rewrite sh_quote, to_bytes_app. change (to_bytes " ") with [" "%char]. cbn [app sh_lex].
  simpl. by rewrite rev_involutive, of_to_bytes.
Qed.

(** A literal head of the command, read word by word. *)
Lemma sh_args args :
  sh_lex false None (to_bytes (String.concat " " (map shell_quote args))) = Some args.
Proof.
  induction args as [|a args IH]; [done|]. destruct args as [|b args]; [apply sh_quote_end|].
  change (String.concat " " (map shell_quote (a :: b :: args)))
    with (shell_quote a ++ " " ++ String.concat " " (map shell_quote (b :: args))).
  rewrite to_bytes_app, sh_quote_blank, IH. done.
Qed.

(** The words of a subcommand. *)
Definition subcommand_words (a : GitAction) : list string :=
  match a with GitAction_Squash => ["merge"; "--squash"] | _ => [action_subcommand a] end.

Lemma sh_head_git rest : sh_lex false None (to_bytes ("git " ++ rest)) = cons "git" <$> sh_lex false None (to_bytes rest).
Proof. reflexivity. Qed.

Lemma sh_subcommand a rest :
  sh_lex false None (to_bytes (action_subcommand a ++ " " ++ rest))
  = app (subcommand_words a) <$> sh_lex false None (to_bytes rest).
Proof.
  destruct a; try reflexivity.
  change (sh_lex false None (to_bytes (action_subcommand GitAction_Squash ++ " " ++ rest)))
    with (app ["merge"] <$> (app ["--squash"] <$> sh_lex false None (to_bytes rest))).
  by destruct (sh_lex false None (to_bytes rest)).
Qed.

Lemma sh_worktree_head rest :
  sh_lex false None (to_bytes ("git worktree add -b " ++ rest))
  = app ["git"; "worktree"; "add"; "-b"] <$> sh_lex false None (to_bytes rest).
Proof.
  change (sh_lex false None (to_bytes ("git worktree add -b " ++ rest)))
    with (app ["git"] <$> (app ["worktree"] <$> (app ["add"] <$> (app ["-b"] <$> sh_lex false None (to_bytes rest))))).
  by destruct (sh_lex false None (to_bytes rest)).
Qed.

(** ** Claims about isolation *)

(** C15: worktrees stay apart.  In every directory the commands can reach, by any sequence of
    proposals, transitions and claim links of any agents, whether their writes succeed or fail,
    every file holds a valid contract named after its id, and two contracts that are not merged or
    abandoned never share a branch, letter case aside, nor a worktree path after normalization. *)
Theorem isolation_registry_safe dir f c :
  isolation_reachable dir -> dir !! f = Some c ->
  exists contract, c = Some contract /\ f = isolation_file (ic_id contract)
    /\ validate_isolation_contract contract = Ok tt
    /\ forall g d, g ≠ f -> dir !! g = Some (Some d) ->
         isolation_is_live contract = true -> isolation_is_live d = true ->
         to_ascii_lowercase (ic_branch_name contract) ≠ to_ascii_lowercase (ic_branch_name d)
         /\ normalize_path (RepoPath_0 (ic_worktree_path contract)) ≠ normalize_path (RepoPath_0 (ic_worktree_path d)).
Proof.
  intros Hr Hf. pose proof (reachable_ok dir Hr) as Hok. destruct (ro_files dir Hok f c Hf) as (x & -> & Hfile & Hv).
  exists x. split; [done|]. split; [done|]. split; [done|]. intros g d Hne Hg Hlx Hld.
  pose proof (ro_disjoint dir Hok f g x d (not_eq_sym Hne) Hf Hg Hlx Hld) as Hc.
  apply orb_false_iff in Hc as [Hb Hp]. unfold eq_ignore_ascii_case in Hb. by bool_simpl.
Qed.

(** What a proposal does, on every branch.  On a directory the commands can reach, a proposal is
    accepted exactly when its contract is well shaped, its linked claim, if any, is known and held
    by the same agent, no live contract has its branch or worktree, and the file can be written;
    the only change is then the file named after its id, whatever that file held before.  Every
    other outcome leaves the directory as it was. *)
Theorem propose_exact dir claims req now written :
  isolation_reachable dir ->
  let contract := proposed_contract req now in
  let result := run_propose dir claims req now written in
  let accepted := validate_isolation_contract contract = Ok tt
    /\ check_linked_claim claims contract = None
    /\ (forall f d, dir !! f = Some (Some d) -> isolation_is_live d = true -> collides d contract = false)
    /\ written = true in
  (accepted -> result = (IsoOk contract (suggested_worktree_commands contract),
                         <[isolation_file (mk_StableId (prq_isolation_id req)) := Some contract]> dir))
  /\ (~ accepted -> result.2 = dir /\ forall c cmds, result.1 ≠ IsoOk c cmds).
Proof.
  intros Hr contract. pose proof (reachable_ok dir Hr) as Hok. pose proof (load_well_formed dir Hok) as Hw.
  pose proof (load_In dir) as Hload. cbv zeta. unfold run_propose. fold contract.
  destruct (load_isolations dir) as [existing malformed]. cbn [fst snd] in *. subst malformed.
  assert ((forall f d, dir !! f = Some (Some d) -> isolation_is_live d = true -> collides d contract = false)
          <-> detect_isolation_conflict contract existing = Ok tt) as ->.
  { rewrite detect_ok. setoid_rewrite Hload. naive_solver. }
  destruct (validate_isolation_contract contract) as [[]|e]; [|split; [naive_solver | intros _; by split]].
  destruct (check_linked_claim claims contract) as [env|] eqn:El.
  { split; [naive_solver|]. intros _. split; [done|]. intros c cmds. simpl. unfold check_linked_claim in El.
    destruct (ic_claim_id contract); [|done]. destruct claims as [[l|]|]; [|by simplify_eq..].
    destruct (find_claim l s); [|by simplify_eq]. destruct (validate_isolation_claim_agent _ _); by simplify_eq. }
  destruct (detect_isolation_conflict contract existing) as [[]|e]; [|split; [naive_solver | intros _; by split]].
  destruct written; split; try naive_solver; intros _; by split.
Qed.

(** The suggested commands are one shell word per value.  Whatever text a contract holds, a
    shell splits the commands suggested for its worktree, and the ones suggested for its merge, into
    the git verb and exactly the contract's branch, path, base and the plan's arguments: quoting is
    the left inverse of the shell's word splitting, and no value can add a word. *)
Theorem suggested_commands_quoted c :
  map sh_words (suggested_worktree_commands c)
  = [Some ["git"; "worktree"; "add"; "-b"; ic_branch_name c; RepoPath_0 (ic_worktree_path c); ic_base_ref c];
     Some ["cd"; RepoPath_0 (ic_worktree_path c)]]
  /\ map sh_words (merge_back_commands c)
     = map (fun s => Some ("git" :: subcommand_words (ms_action s) ++ ms_args s)%list) (mp_steps (propose_merge c 0)).
Proof.
  split.
  - unfold suggested_worktree_commands. simpl map. unfold sh_words. f_equal; [|f_equal].
    + rewrite sh_worktree_head.
      rewrite to_bytes_app, sh_quote_blank, to_bytes_app, sh_quote_blank, sh_quote_end. done.
    + change (sh_lex false None (to_bytes ("cd " ++ ?x))) with (app ["cd"] <$> sh_lex false None (to_bytes x)).
      by rewrite sh_quote_end.
  - unfold merge_back_commands. rewrite map_map. apply map_ext. intros s. unfold sh_words.
    rewrite sh_head_git, sh_subcommand, sh_args. done.
Qed.

(** ** Concrete runs *)

Module IsolationRun.

Definition request (agent branch path base id : string) : ProposeRequest := {|
  prq_agent_id := mk_StableId agent; prq_branch_name := branch; prq_worktree_path := path; prq_base_ref := base;
  prq_merge_policy := MergePolicy_Rebase; prq_claim_id := None; prq_isolation_id := id |}.

Definition now : Z := 1700000000.
Definition propose (dir : IsolationDir) (req : ProposeRequest) : IsolationDir := (run_propose dir None req now true).2.

Definition alice : ProposeRequest := request "alice" "alice/s5" "../wt/a" "main" "iso.a".
Definition bob : ProposeRequest := request "bob" "bob/s6" "../wt/b" "main" "iso-a".
Definition carol : ProposeRequest := request "carol" "Alice/S5" "../wt/./A" "main" "iso-c".

Definition dir1 : IsolationDir := propose ∅ alice.

Lemma dir1_reachable : isolation_reachable dir1.
Proof. apply rtc_once, step_propose. Qed.

Definition accepted (r : IsolationEnvelope * IsolationDir) : bool := match r.1 with IsoOk _ _ => true | _ => false end.

End IsolationRun.

(** A live branch or path is refused to others, letter case and [.] aside. *)
Example collision_refused :
  IsolationRun.accepted (run_propose IsolationRun.dir1 None IsolationRun.carol IsolationRun.now true) = false.
Proof. vm_compute. reflexivity. Qed.

(** A proposal whose id has the same file name replaces a live contract of another agent, and its
    branch and worktree are free for a third one. *)
Example live_contract_overwritten :
  let dir2 := IsolationRun.propose IsolationRun.dir1 IsolationRun.bob in
  (ic_agent_id <$> fst (load_isolations IsolationRun.dir1)) = [mk_StableId "alice"]
  /\ (ic_agent_id <$> fst (load_isolations dir2)) = [mk_StableId "bob"]
  /\ IsolationRun.accepted (run_propose dir2 None IsolationRun.carol IsolationRun.now true) = true.
Proof. vm_compute. repeat split. Qed.

(** A base that looks like an option is accepted and reaches git as one. *)
Example base_ref_option :
  let contract := proposed_contract (IsolationRun.request "a" "a/b" "../wt/a" "--exec=id" "i") IsolationRun.now in
  validate_isolation_contract contract = Ok tt
  /\ sh_words <$> (merge_back_commands contract !! 2%nat) = Some (Some ["git"; "rebase"; "--exec=id"; "a/b"]).
Proof. vm_compute. repeat split. Qed.

Lemma isolation_registry_safe_witness :
  exists contract, IsolationRun.dir1 !! "iso-a.yaml" = Some (Some contract)
    /\ validate_isolation_contract contract = Ok tt.
Proof.
  destruct (isolation_registry_safe IsolationRun.dir1 "iso-a.yaml"
    (Some (proposed_contract IsolationRun.alice IsolationRun.now)) IsolationRun.dir1_reachable)
    as (contract & E & _ & Hv & _); [vm_compute; reflexivity|].
  exists contract. rewrite <- E. split; [vm_compute; reflexivity | exact Hv].
Defined.

Lemma propose_exact_witness :
  (run_propose IsolationRun.dir1 None IsolationRun.bob IsolationRun.now true).1
  = IsoOk (proposed_contract IsolationRun.bob IsolationRun.now)
      (suggested_worktree_commands (proposed_contract IsolationRun.bob IsolationRun.now)).
Proof.
  destruct (propose_exact IsolationRun.dir1 None IsolationRun.bob IsolationRun.now true IsolationRun.dir1_reachable)
    as [Hacc _].
  rewrite Hacc; [reflexivity|]. split; [vm_compute; reflexivity|]. split; [reflexivity|]. split; [|reflexivity].
  intros f d Hf _. assert (d ∈ fst (load_isolations IsolationRun.dir1)) as Hd by (apply load_In; by exists f).
  assert (fst (load_isolations IsolationRun.dir1) = [proposed_contract IsolationRun.alice IsolationRun.now]) as El
    by (vm_compute; reflexivity).
  rewrite El in Hd. apply list_elem_of_singleton in Hd as ->. vm_compute. reflexivity.
Defined.
