(* ===== verification/Promotion.v ===== *)
(** * Governed promotion

    [forge-core-decisions/src/promotion.rs]: the plan that turns the files of a destination into
    those of an isolated source, the effects the plan does not cover, and whether the result may be
    reviewed and applied.  The domain-separated digest (canonical JSON and SHA-256) is the parameter
    [PromotionDigest]. *)

From S2P Require Import Prelude RustStr BTree Ordering Contracts.

Local Open Scope string_scope.
Local Open Scope Z_scope.
Local Open Scope forge_scope.

(** ** Data *)

Record PromotionInventoryFile := {
  pf_relative_path : string;
  pf_content_digest : string;
  pf_byte_length : Z;
  pf_metadata_fingerprint : string
}.

Record PromotionInventoryDirectory := {
  pd_relative_path : string;
  pd_metadata_fingerprint : string
}.

Inductive PromotionDiffEffect :=
| PromotionDiffEffect_CreateRegularFile | PromotionDiffEffect_WriteRegularFile
| PromotionDiffEffect_DeleteRegularFile.

Record PromotionDiffEntry := {
  pe_path : RepoPath;
  pe_effect : PromotionDiffEffect;
  pe_before_content_digest : option string;
  pe_before_byte_length : option Z;
  pe_after_content_digest : option string;
  pe_after_byte_length : option Z;
  pe_before_metadata_fingerprint : option string;
  pe_after_metadata_fingerprint : option string;
  pe_destructive : bool
}.

Inductive PromotionUnsupportedEffectKind :=
| PromotionUnsupportedEffectKind_FileMetadataCreate | PromotionUnsupportedEffectKind_FileModeChange
| PromotionUnsupportedEffectKind_DirectoryCreate | PromotionUnsupportedEffectKind_DirectoryDelete
| PromotionUnsupportedEffectKind_ObjectTypeTransition | PromotionUnsupportedEffectKind_SymlinkOrSpecialObject
| PromotionUnsupportedEffectKind_ExcludedSourceRootContent.

Record PromotionUnsupportedEffect := {
  pu_path : RepoPath;
  pu_kind : PromotionUnsupportedEffectKind;
  pu_detail : string
}.

Inductive PromotionGapCode :=
| PromotionGapCode_NoChanges | PromotionGapCode_OpenObjectiveUncertainties
| PromotionGapCode_MissingSupportingCooperativeEvidence | PromotionGapCode_SourceAssuranceClaimUnsatisfied
| PromotionGapCode_MissingLinkedIsolationClaim | PromotionGapCode_MissingLinkedClaimPrincipal
| PromotionGapCode_UngovernedWriteSet | PromotionGapCode_ConflictingClaim
| PromotionGapCode_DestructiveDeleteRequiresSeparateAuthority | PromotionGapCode_UnsupportedEffect.

Record PromotionGap := {
  pg_code : PromotionGapCode;
  pg_subject_ref : string;
  pg_message : string
}.

Inductive GovernedPromotionPreviewStatus :=
| GovernedPromotionPreviewStatus_NoChanges | GovernedPromotionPreviewStatus_Reviewable
| GovernedPromotionPreviewStatus_Blocked.

Inductive PromotionApplyEligibility :=
| PromotionApplyEligibility_EligibleLocalReversible | PromotionApplyEligibility_NotEligible.

Record PromotionDiffProjection := {
  pp_diff : list PromotionDiffEntry;
  pp_write_set : list RepoPath;
  pp_diff_digest : string;
  pp_write_set_digest : string;
  pp_predicted_result_regular_file_set_digest : string;
  pp_unsupported_effects : list PromotionUnsupportedEffect
}.

Inductive PromotionPlanningError :=
| DuplicatePath (path : string)
| InvalidPath (path : string)
| Canonicalization (error : string).

Record PromotionReadinessInput := {
  pri_diff : list PromotionDiffEntry;
  pri_has_linked_claim : bool;
  pri_ungoverned_paths : list RepoPath;
  pri_conflicting_paths : list RepoPath;
  pri_unsupported_effects : list PromotionUnsupportedEffect;
  pri_supporting_cooperative_evidence : Z;
  pri_blocking_source_claim_refs : list string;
  pri_has_linked_claim_principal : bool;
  pri_open_objective_uncertainties : Z
}.

Record PromotionReadinessEvaluation := {
  pre_status : GovernedPromotionPreviewStatus;
  pre_apply_eligibility : PromotionApplyEligibility;
  pre_unresolved_gaps : list PromotionGap
}.

#[export] Instance PromotionGapCode_eq_dec : EqDecision PromotionGapCode.
Proof. solve_decision. Defined.
#[export] Instance GovernedPromotionPreviewStatus_eq_dec : EqDecision GovernedPromotionPreviewStatus.
Proof. solve_decision. Defined.

(** The derived orders, by declaration. *)
Definition effect_kind_rank (k : PromotionUnsupportedEffectKind) : Z :=
  match k with
  | PromotionUnsupportedEffectKind_FileMetadataCreate => 0
  | PromotionUnsupportedEffectKind_FileModeChange => 1
  | PromotionUnsupportedEffectKind_DirectoryCreate => 2
  | PromotionUnsupportedEffectKind_DirectoryDelete => 3
  | PromotionUnsupportedEffectKind_ObjectTypeTransition => 4
  | PromotionUnsupportedEffectKind_SymlinkOrSpecialObject => 5
  | PromotionUnsupportedEffectKind_ExcludedSourceRootContent => 6
  end.

Definition gap_code_rank (c : PromotionGapCode) : Z :=
  match c with
  | PromotionGapCode_NoChanges => 0
  | PromotionGapCode_OpenObjectiveUncertainties => 1
  | PromotionGapCode_MissingSupportingCooperativeEvidence => 2
  | PromotionGapCode_SourceAssuranceClaimUnsatisfied => 3
  | PromotionGapCode_MissingLinkedIsolationClaim => 4
  | PromotionGapCode_MissingLinkedClaimPrincipal => 5
  | PromotionGapCode_UngovernedWriteSet => 6
  | PromotionGapCode_ConflictingClaim => 7
  | PromotionGapCode_DestructiveDeleteRequiresSeparateAuthority => 8
  | PromotionGapCode_UnsupportedEffect => 9
  end.

(** ** Inventories *)

Definition validate_relative_path (path : string) : Result unit PromotionPlanningError :=
  if str_is_empty path || starts_with_char "/" path || starts_with_char "\" path
     || existsb (Ascii.eqb "\") (to_bytes path)
     || existsb (fun component => str_is_empty component || bool_decide (component = ".") || bool_decide (component = ".."))
          (split (Ascii.eqb "/") path)
  then Err (InvalidPath path) else Ok tt.

(** [file_map] and [directory_map]: the map by relative path, or the first bad or repeated path. *)
Fixpoint inventory_map {A} (path_of : A -> string) (mapped : gmap string A) (entries : list A)
    : Result (gmap string A) PromotionPlanningError :=
  match entries with
  | [] => Ok mapped
  | entry :: rest =>
      try _ <- validate_relative_path (path_of entry);
      match mapped !! path_of entry with
      | Some _ => Err (DuplicatePath (path_of entry))
      | None => inventory_map path_of (<[path_of entry := entry]> mapped) rest
      end
  end.

Definition file_map : list PromotionInventoryFile -> Result (gmap string PromotionInventoryFile) PromotionPlanningError :=
  inventory_map pf_relative_path ∅.
Definition directory_map : list PromotionInventoryDirectory
    -> Result (gmap string PromotionInventoryDirectory) PromotionPlanningError :=
  inventory_map pd_relative_path ∅.

(** ** The plan *)

Definition created (path : string) (after : PromotionInventoryFile) : PromotionDiffEntry := {|
  pe_path := mk_RepoPath path; pe_effect := PromotionDiffEffect_CreateRegularFile;
  pe_before_content_digest := None; pe_before_byte_length := None;
  pe_after_content_digest := Some (pf_content_digest after); pe_after_byte_length := Some (pf_byte_length after);
  pe_before_metadata_fingerprint := None;
  pe_after_metadata_fingerprint := Some (pf_metadata_fingerprint after); pe_destructive := false |}.

Definition deleted (path : string) (before : PromotionInventoryFile) : PromotionDiffEntry := {|
  pe_path := mk_RepoPath path; pe_effect := PromotionDiffEffect_DeleteRegularFile;
  pe_before_content_digest := Some (pf_content_digest before); pe_before_byte_length := Some (pf_byte_length before);
  pe_after_content_digest := None; pe_after_byte_length := None;
  pe_before_metadata_fingerprint := Some (pf_metadata_fingerprint before);
  pe_after_metadata_fingerprint := None; pe_destructive := true |}.

Definition written (path : string) (before after : PromotionInventoryFile) : PromotionDiffEntry := {|
  pe_path := mk_RepoPath path; pe_effect := PromotionDiffEffect_WriteRegularFile;
  pe_before_content_digest := Some (pf_content_digest before); pe_before_byte_length := Some (pf_byte_length before);
  pe_after_content_digest := Some (pf_content_digest after); pe_after_byte_length := Some (pf_byte_length after);
  pe_before_metadata_fingerprint := Some (pf_metadata_fingerprint before);
  pe_after_metadata_fingerprint := Some (pf_metadata_fingerprint after); pe_destructive := false |}.

Definition unsupported (path : string) (kind : PromotionUnsupportedEffectKind) (detail : string)
    : PromotionUnsupportedEffect :=
  {| pu_path := mk_RepoPath path; pu_kind := kind; pu_detail := detail |}.

(** What one path of the two file maps adds; the last case is unreachable on the union of the keys. *)
Definition diff_path (source destination : gmap string PromotionInventoryFile) (path : string)
    : list PromotionDiffEntry * list PromotionUnsupportedEffect :=
  match destination !! path, source !! path with
  | None, Some after =>
      ([created path after],
       if bool_decide (pf_metadata_fingerprint after ≠ "windows:attributes=00000020")
       then [unsupported path PromotionUnsupportedEffectKind_FileMetadataCreate
               ("created regular-file metadata is explicit and unsupported (metadata="
                ++ pf_metadata_fingerprint after ++ ")")]
       else [])
  | Some before, None => ([deleted path before], [])
  | Some before, Some after =>
      (if bool_decide (pf_content_digest before ≠ pf_content_digest after)
          || negb (pf_byte_length before =? pf_byte_length after)
       then [written path before after] else [],
       if bool_decide (pf_metadata_fingerprint before ≠ pf_metadata_fingerprint after)
       then [unsupported path PromotionUnsupportedEffectKind_FileModeChange
               ("regular-file metadata differs (" ++ pf_metadata_fingerprint before ++ " -> "
                ++ pf_metadata_fingerprint after ++ "); preview does not apply metadata")]
       else [])
  | None, None => ([], [])
  end.

(** What one path of the two directory maps adds. *)
Definition diff_directory (source destination : gmap string PromotionInventoryFile)
    (source_dirs destination_dirs : gmap string PromotionInventoryDirectory) (path : string)
    : list PromotionUnsupportedEffect :=
  let has {A} (m : gmap string A) := match m !! path with Some _ => true | None => false end in
  if (has source && has destination_dirs) || (has destination && has source_dirs)
  then [unsupported path PromotionUnsupportedEffectKind_ObjectTypeTransition
          "regular-file/directory type transition requires an explicit later apply model"]
  else match destination_dirs !! path, source_dirs !! path with
  | None, Some after =>
      [unsupported path PromotionUnsupportedEffectKind_DirectoryCreate
         ("directory creation topology is explicit and unsupported (metadata=" ++ pd_metadata_fingerprint after ++ ")")]
  | Some before, None =>
      [unsupported path PromotionUnsupportedEffectKind_DirectoryDelete
         ("directory deletion topology is explicit and unsupported (metadata=" ++ pd_metadata_fingerprint before ++ ")")]
  | Some before, Some after =>
      if bool_decide (pd_metadata_fingerprint before ≠ pd_metadata_fingerprint after)
      then [unsupported path PromotionUnsupportedEffectKind_FileModeChange
              ("directory metadata differs (" ++ pd_metadata_fingerprint before ++ " -> "
               ++ pd_metadata_fingerprint after ++ "); preview does not apply metadata")]
      else []
  | None, None => []
  end.

(** The chain of [BTreeSet] keys of two maps, in order. *)
Definition union_keys {A} (m k : gmap string A) : list string := set_iter (dom m ∪ dom k).

Definition unsupported_le (x y : PromotionUnsupportedEffect) : bool :=
  if bool_decide (RepoPath_0 (pu_path x) = RepoPath_0 (pu_path y))
  then effect_kind_rank (pu_kind x) <=? effect_kind_rank (pu_kind y)
  else String.leb (RepoPath_0 (pu_path x)) (RepoPath_0 (pu_path y)).

(** The three payloads that are digested, each under its own domain. *)
Class PromotionDigest := {
  digest_diff : string -> list PromotionDiffEntry -> Result string string;
  digest_write_set : string -> list RepoPath -> Result string string;
  digest_pairs : string -> list (string * string) -> Result string string
}.

Section diff.
Context {digests : PromotionDigest}.

Definition derive_promotion_diff (source_files destination_files : list PromotionInventoryFile)
    (source_directories destination_directories : list PromotionInventoryDirectory)
    : Result PromotionDiffProjection PromotionPlanningError :=
  try source <- file_map source_files;
  try destination <- file_map destination_files;
  try source_dirs <- directory_map source_directories;
  try destination_dirs <- directory_map destination_directories;
  let file_effects := map (diff_path source destination) (union_keys source destination) in
  let directory_effects := map (diff_directory source destination source_dirs destination_dirs)
                             (union_keys source_dirs destination_dirs) in
  let diff := sort_by (fun entry => RepoPath_0 (pe_path entry)) (concat (map fst file_effects)) in
  let unsupported_effects :=
    sort_with unsupported_le (concat (map snd file_effects) ++ concat directory_effects)%list in
  let write_set := map pe_path diff in
  let predicted_pairs := map (fun file => (pf_relative_path file, pf_content_digest file)) (map_values source) in
  try diff_digest <- map_err Canonicalization (digest_diff "promotion.diff.v1" diff);
  try write_set_digest <- map_err Canonicalization (digest_write_set "promotion.write_set.v1" write_set);
  try predicted <- map_err Canonicalization (digest_pairs "promotion.predicted_regular_file_set.v1" predicted_pairs);
  Ok {| pp_diff := diff; pp_write_set := write_set; pp_diff_digest := diff_digest;
        pp_write_set_digest := write_set_digest; pp_predicted_result_regular_file_set_digest := predicted;
        pp_unsupported_effects := unsupported_effects |}.

End diff.

(** ** Readiness *)

Definition gap (code : PromotionGapCode) (subject_ref message : string) : PromotionGap :=
  {| pg_code := code; pg_subject_ref := subject_ref; pg_message := message |}.

Definition gap_if (b : bool) (code : PromotionGapCode) (subject_ref message : string) : list PromotionGap :=
  if b then [gap code subject_ref message] else [].

Definition evaluate_promotion_readiness (input : PromotionReadinessInput) : PromotionReadinessEvaluation :=
  let no_changes := is_nil (pri_diff input) && is_nil (pri_unsupported_effects input) in
  let gaps :=
    (gap_if no_changes PromotionGapCode_NoChanges "promotion.diff"
       "source and destination filesystem projection is identical"
     ++ gap_if (0 <? pri_open_objective_uncertainties input) PromotionGapCode_OpenObjectiveUncertainties
          "promotion.objective"
          ("accepted objective still carries " +:+ fmt_int (pri_open_objective_uncertainties input)
           +:+ " open uncertainties")
     ++ gap_if (pri_supporting_cooperative_evidence input =? 0)
          PromotionGapCode_MissingSupportingCooperativeEvidence "promotion.evidence"
          "no current supporting cooperative evidence record is bound"
     ++ map (fun claim_ref => gap PromotionGapCode_SourceAssuranceClaimUnsatisfied claim_ref
          "source assurance claim is not verified or waived; same-owner cooperative evidence does not satisfy it")
          (pri_blocking_source_claim_refs input)
     ++ gap_if (negb (pri_has_linked_claim input)) PromotionGapCode_MissingLinkedIsolationClaim
          "promotion.source.isolation" "active isolation text has no linked claim and is not ownership proof"
     ++ gap_if (pri_has_linked_claim input && negb (pri_has_linked_claim_principal input))
          PromotionGapCode_MissingLinkedClaimPrincipal "promotion.source.linked_claim"
          "the current linked claim has no principal identity"
     ++ gap_if (negb (is_nil (pri_ungoverned_paths input))) PromotionGapCode_UngovernedWriteSet "promotion.write_set"
          (fmt_nat (length (pri_ungoverned_paths input))
           +:+ " write-set paths are not covered by the isolation's linked current claim")
     ++ gap_if (negb (is_nil (pri_conflicting_paths input))) PromotionGapCode_ConflictingClaim "promotion.write_set"
          (fmt_nat (length (pri_conflicting_paths input)) +:+ " write-set paths conflict with another live claim")
     ++ gap_if (existsb pe_destructive (pri_diff input))
          PromotionGapCode_DestructiveDeleteRequiresSeparateAuthority "promotion.diff"
          "one or more regular-file deletes require explicit later apply authority"
     ++ gap_if (negb (is_nil (pri_unsupported_effects input))) PromotionGapCode_UnsupportedEffect
          "promotion.unsupported_effects"
          (fmt_nat (length (pri_unsupported_effects input))
           +:+ " filesystem effects are outside the regular-file promotion model"))%list in
  let gaps := sort_with (le_then (fun g => gap_code_rank (pg_code g)) (le_string pg_subject_ref)) gaps in
  let has_blocking_gap := existsb (fun g => bool_decide (pg_code g ≠ PromotionGapCode_OpenObjectiveUncertainties)) gaps in
  let status := if no_changes then GovernedPromotionPreviewStatus_NoChanges
                else if negb has_blocking_gap then GovernedPromotionPreviewStatus_Reviewable
                else GovernedPromotionPreviewStatus_Blocked in
  {| pre_status := status;
     pre_apply_eligibility := if bool_decide (status = GovernedPromotionPreviewStatus_Reviewable)
                              then PromotionApplyEligibility_EligibleLocalReversible
                              else PromotionApplyEligibility_NotEligible;
     pre_unresolved_gaps := gaps |}.

(** ** Inventories are maps *)

Section inventory.
Context {A : Type} (key : A -> string).

Definition keyed (entries : list A) : gmap string A := list_to_map (map (fun x => (key x, x)) entries).

Definition well_keyed (entries : list A) : Prop :=
  (forall x, x ∈ entries -> validate_relative_path (key x) = Ok tt) /\ NoDup (map key entries).

Lemma keys_of_pairs (entries : list A) : (map (fun x => (key x, x)) entries).*1 = map key entries.
Proof. change (fst <$> map (fun x => (key x, x)) entries) with (map fst (map (fun x => (key x, x)) entries)). by rewrite map_map. Qed.

Lemma keyed_lookup entries k x : NoDup (map key entries) -> keyed entries !! k = Some x <-> x ∈ entries /\ key x = k.
Proof.
  intros Hnd. unfold keyed. rewrite <- elem_of_list_to_map by (by rewrite keys_of_pairs). rewrite map_In_iff. split.
  - intros (y & [= -> ->] & Hy). done.
  - intros [Hx <-]. by exists x.
Qed.

Lemma inventory_map_spec mapped entries m :
  inventory_map key mapped entries = Ok m <->
  well_keyed entries /\ (forall x, x ∈ entries -> mapped !! key x = None) /\ m = keyed entries ∪ mapped.
Proof.
  revert mapped. induction entries as [|x entries IH]; intros mapped; simpl.
  { unfold keyed. simpl. rewrite (left_id_L ∅ (∪)). split.
    - intros [= <-]. split; [split; [by intros ? ?%elem_of_nil | constructor]|]. split; [by intros ? ?%elem_of_nil | done].
    - by intros (_ & _ & ->). }
  unfold well_keyed. cbn [map]. rewrite NoDup_cons. setoid_rewrite elem_of_cons.
  destruct (validate_relative_path (key x)) as [[]|e] eqn:Ev; simpl.
  2: { split; [done|]. intros ([Hv _] & _). rewrite Hv in Ev by (by left). done. }
  destruct (mapped !! key x) as [y|] eqn:Ex.
  { split; [done|]. intros (_ & Hn & _). rewrite Hn in Ex by (by left). done. }
  rewrite IH. unfold well_keyed.
  split.
  - intros ([Hv Hnd] & Hn & ->).
    assert (key x ∉ map key entries) as Hx.
    { intros (y & Ey & Hy)%map_In_iff. specialize (Hn y Hy). rewrite <- Ey, lookup_insert in Hn.
      by rewrite decide_True in Hn. }
    split; [split; [intros y [->|Hy]; auto | done]|]. split.
    + intros y [->|Hy]; [done|]. specialize (Hn y Hy). by apply lookup_insert_None in Hn as [? _].
    + unfold keyed. simpl. rewrite <- insert_union_l, <- insert_union_r; [done|]. apply not_elem_of_list_to_map. by rewrite keys_of_pairs.
  - intros ([Hv [Hx Hnd]] & Hn & ->). split; [split; [auto | done]|]. split.
    + intros y Hy. apply lookup_insert_None. split; [auto|]. intros E. apply Hx. rewrite E. apply map_In_iff. eauto.
    + unfold keyed. simpl. rewrite <- insert_union_l, <- insert_union_r; [done|]. apply not_elem_of_list_to_map. by rewrite keys_of_pairs.
Qed.

Lemma inventory_ok entries m :
  inventory_map key ∅ entries = Ok m <-> well_keyed entries /\ m = keyed entries.
Proof.
  rewrite inventory_map_spec, (right_id_L ∅ (∪)). setoid_rewrite lookup_empty. naive_solver.
Qed.

(** The order of an inventory does not matter. *)
Lemma inventory_perm entries entries' m :
  entries ≡ₚ entries' -> inventory_map key ∅ entries = Ok m -> inventory_map key ∅ entries' = Ok m.
Proof.
  intros Hp. rewrite !inventory_ok. intros [[Hv Hnd] ->]. split.
  - split; [by setoid_rewrite <- Hp | by rewrite <- Hp].
  - apply map_eq. intros k. unfold keyed. f_equal. apply list_to_map_proper; [by rewrite keys_of_pairs | by rewrite Hp].
Qed.

End inventory.

(** ** Applying a plan *)

(** The content and length of the files of an inventory. *)
Definition contents (files : gmap string PromotionInventoryFile) : gmap string (string * Z) :=
  (fun f => (pf_content_digest f, pf_byte_length f)) <$> files.

(** What the path of an entry holds afterwards. *)
Definition entry_content (e : PromotionDiffEntry) : option (string * Z) :=
  match pe_effect e with
  | PromotionDiffEffect_DeleteRegularFile => None
  | _ => match pe_after_content_digest e, pe_after_byte_length e with Some d, Some n => Some (d, n) | _, _ => None end
  end.

Definition apply_entry (files : gmap string (string * Z)) (e : PromotionDiffEntry) : gmap string (string * Z) :=
  match entry_content e with
  | Some c => <[RepoPath_0 (pe_path e) := c]> files
  | None => delete (RepoPath_0 (pe_path e)) files
  end.

Definition apply_diff (files : gmap string (string * Z)) (diff : list PromotionDiffEntry) : gmap string (string * Z) :=
  foldl apply_entry files diff.

Definition entry_path (e : PromotionDiffEntry) : string := RepoPath_0 (pe_path e).

Lemma apply_entry_lookup files e k :
  apply_entry files e !! k = if decide (entry_path e = k) then entry_content e else files !! k.
Proof.
  unfold apply_entry, entry_path. destruct (entry_content e) as [c|].
  - rewrite lookup_insert_if. repeat case_decide; by subst.
  - rewrite lookup_delete_if. repeat case_decide; by subst.
Qed.

Lemma apply_diff_other diff files k :
  (forall e, e ∈ diff -> entry_path e ≠ k) -> apply_diff files diff !! k = files !! k.
Proof.
  revert files. induction diff as [|e diff IH]; intros files Hall; [done|]. simpl. unfold apply_diff in IH.
  rewrite IH by (intros x Hx; apply Hall; by right). rewrite apply_entry_lookup, decide_False by (apply Hall; by left). done.
Qed.

Lemma apply_diff_entry diff files e :
  NoDup (map entry_path diff) -> e ∈ diff -> apply_diff files diff !! entry_path e = entry_content e.
Proof.
  revert files. induction diff as [|x diff IH]; intros files Hnd He; [by apply elem_of_nil in He|].
  simpl in Hnd. apply NoDup_cons in Hnd as [Hx Hnd]. simpl.
  apply elem_of_cons in He as [->|He]; [|by apply IH].
  change (foldl apply_entry ?f diff) with (apply_diff f diff). rewrite apply_diff_other.
  - by rewrite apply_entry_lookup, decide_True.
  - intros y Hy E. apply Hx. rewrite <- E. apply map_In_iff. eauto.
Qed.

Lemma elem_of_union_keys {A} (m k : gmap string A) p : p ∈ union_keys m k <-> is_Some (m !! p) \/ is_Some (k !! p).
Proof. unfold union_keys. rewrite elem_of_set_iter, elem_of_union, !elem_of_dom. done. Qed.

Section plan.
Context (source destination : gmap string PromotionInventoryFile).

Definition plan : list PromotionDiffEntry :=
  concat (map fst (map (diff_path source destination) (union_keys source destination))).

Lemma diff_path_path p e : e ∈ fst (diff_path source destination p) -> entry_path e = p.
Proof.
  unfold diff_path. destruct (destination !! p), (source !! p); simpl;
    try (intros ->%list_elem_of_singleton; done); try (by intros ?%elem_of_nil).
  destruct (_ || _); [by intros ->%list_elem_of_singleton | by intros ?%elem_of_nil].
Qed.

Lemma plan_In e : e ∈ plan <-> e ∈ fst (diff_path source destination (entry_path e)).
Proof.
  unfold plan. rewrite map_map, list_elem_of_In, List.in_concat. split.
  - intros (l & Hl & He). apply list_elem_of_In, map_In_iff in Hl as (p & -> & _). apply list_elem_of_In in He.
    by rewrite (diff_path_path p e He).
  - intros He. exists (fst (diff_path source destination (entry_path e))). split; [|by apply list_elem_of_In].
    apply list_elem_of_In, map_In_iff. exists (entry_path e). split; [done|]. apply elem_of_union_keys.
    unfold diff_path in He. destruct (destination !! entry_path e), (source !! entry_path e); eauto. by apply elem_of_nil in He.
Qed.

Lemma plan_NoDup : NoDup (map entry_path plan).
Proof.
  apply (sublist_NoDup _ (union_keys source destination)); [apply NoDup_set_iter|]. unfold plan. rewrite map_map.
  induction (union_keys source destination) as [|p ps IH]; [constructor|]. simpl. rewrite map_app.
  change (p :: ps) with ([p] ++ ps)%list. apply sublist_app; [|done].
  pose proof (diff_path_path p) as Hp. destruct (fst (diff_path source destination p)) as [|e [|e' l]] eqn:E.
  - simpl. by repeat constructor.
  - simpl. rewrite (Hp e) by (by left). by repeat constructor.
  - exfalso. unfold diff_path in E. destruct (destination !! p), (source !! p); try done. simpl in E. by destruct (_ || _).
Qed.

(** A path is in the plan exactly when its content changes. *)
Lemma plan_paths p : (exists e, e ∈ plan /\ entry_path e = p) <-> contents destination !! p ≠ contents source !! p.
Proof.
  unfold contents. rewrite !lookup_fmap. split.
  - intros (e & He & Ep). apply plan_In in He. rewrite Ep in He. unfold diff_path in He.
    destruct (destination !! p) as [b|], (source !! p) as [a|]; simpl in *; try done; [|by apply elem_of_nil in He].
    destruct (bool_decide _) eqn:Ed; simpl in He.
    + bool_simpl. congruence.
    + destruct (Z.eqb_spec (pf_byte_length b) (pf_byte_length a)) as [|Hn]; [by apply elem_of_nil in He | congruence].
  - intros Hne. assert (exists e, e ∈ fst (diff_path source destination p)) as (e & He).
    { unfold diff_path. destruct (destination !! p) as [b|], (source !! p) as [a|]; simpl in *; try done; try (eexists; by left).
      destruct (decide (pf_content_digest b = pf_content_digest a)) as [Ed|Ed].
      - destruct (Z.eqb_spec (pf_byte_length b) (pf_byte_length a)) as [El|El]; [congruence|].
        rewrite orb_true_r. eexists; by left.
      - rewrite bool_decide_eq_true_2 by done. simpl. eexists; by left. }
    pose proof (diff_path_path p e He) as Ep. exists e. split; [|done]. apply plan_In. by rewrite Ep.
Qed.

(** What an entry writes is what the source holds. *)
Lemma plan_content e : e ∈ plan -> entry_content e = contents source !! entry_path e.
Proof.
  rewrite plan_In. generalize (entry_path e). intros p. unfold contents. rewrite lookup_fmap. unfold diff_path.
  destruct (destination !! p) as [b|], (source !! p) as [a|]; simpl; try (by intros ->%list_elem_of_singleton).
  - destruct (_ || _); [by intros ->%list_elem_of_singleton | by intros ?%elem_of_nil].
  - by intros ?%elem_of_nil.
Qed.

(** Applying the plan, in any order, turns the destination into the source. *)
Lemma plan_applies diff : diff ≡ₚ plan -> apply_diff (contents destination) diff = contents source.
Proof.
  intros Hp. apply map_eq. intros k.
  destruct (decide (contents destination !! k = contents source !! k)) as [E|E].
  - rewrite apply_diff_other; [done|]. intros e He <-. rewrite Hp in He. apply (proj1 (plan_paths (entry_path e))); eauto.
  - apply plan_paths in E as (e & He & <-). rewrite apply_diff_entry; [by apply plan_content | | by rewrite Hp].
    rewrite Hp. apply plan_NoDup.
Qed.

End plan.

(** ** Reading a plan back *)

Lemma derive_ok_inv {digests : PromotionDigest} sf df sd dd p :
  derive_promotion_diff sf df sd dd = Ok p ->
  exists source destination source_dirs destination_dirs,
    file_map sf = Ok source /\ file_map df = Ok destination
    /\ directory_map sd = Ok source_dirs /\ directory_map dd = Ok destination_dirs
    /\ pp_diff p = sort_by entry_path (plan source destination)
    /\ pp_write_set p = map pe_path (pp_diff p)
    /\ pp_unsupported_effects p
       = sort_with unsupported_le
           (concat (map snd (map (diff_path source destination) (union_keys source destination)))
            ++ concat (map (diff_directory source destination source_dirs destination_dirs)
                         (union_keys source_dirs destination_dirs)))%list.
Proof.
  unfold derive_promotion_diff. destruct (file_map sf) as [s|] eqn:E1; [|done]. destruct (file_map df) as [d|] eqn:E2; [|done].
  destruct (directory_map sd) as [s'|] eqn:E3; [|done]. destruct (directory_map dd) as [d'|] eqn:E4; [|done].
  cbn [result_bind]. destruct (digest_diff _ _); [|done]. cbn [map_err result_bind]. destruct (digest_write_set _ _); [|done].
  cbn [map_err result_bind]. destruct (digest_pairs _ _); [|done]. intros [= <-]. exists s, d, s', d'. done.
Qed.

(** ** Readiness, gap by gap *)

(** The conditions that keep a promotion from review. *)
Record reviewable (input : PromotionReadinessInput) : Prop := {
  rv_changes : pri_diff input ≠ [];
  rv_evidence : pri_supporting_cooperative_evidence input ≠ 0;
  rv_claims : pri_blocking_source_claim_refs input = [];
  rv_linked : pri_has_linked_claim input = true;
  rv_principal : pri_has_linked_claim_principal input = true;
  rv_governed : pri_ungoverned_paths input = [];
  rv_uncontended : pri_conflicting_paths input = [];
  rv_no_delete : forall e, e ∈ pri_diff input -> pe_destructive e = false;
  rv_supported : pri_unsupported_effects input = []
}.

Definition blocks (g : PromotionGap) : bool := bool_decide (pg_code g ≠ PromotionGapCode_OpenObjectiveUncertainties).

Lemma blocks_gap_if b code subject message :
  code ≠ PromotionGapCode_OpenObjectiveUncertainties -> existsb blocks (gap_if b code subject message) = b.
Proof. intros Hc. destruct b; [|done]. simpl. unfold blocks. simpl. by rewrite bool_decide_eq_true_2. Qed.

Lemma existsb_sort_with {A} (f : A -> bool) le l : existsb f (sort_with le l) = existsb f l.
Proof. apply eq_true_iff_eq. rewrite !existsb_In. by setoid_rewrite sort_with_perm. Qed.

Lemma readiness_status input :
  pre_status (evaluate_promotion_readiness input) = GovernedPromotionPreviewStatus_Reviewable <-> reviewable input.
Proof.
  unfold evaluate_promotion_readiness. cbn [pre_status].
  destruct (is_nil (pri_diff input) && is_nil (pri_unsupported_effects input)) eqn:En.
  { split; [done|]. intros [Hc]. apply andb_true_iff in En as [En _]. by destruct (pri_diff input). }
  fold blocks. rewrite existsb_sort_with, !existsb_app.
  assert (existsb blocks (gap_if (0 <? pri_open_objective_uncertainties input)
    PromotionGapCode_OpenObjectiveUncertainties "promotion.objective"
    ("accepted objective still carries " +:+ fmt_int (pri_open_objective_uncertainties input) +:+ " open uncertainties")) = false) as ->
    by (by destruct (0 <? _)).
  rewrite !blocks_gap_if by done.
  assert (forall l m, existsb blocks (map (fun r => gap PromotionGapCode_SourceAssuranceClaimUnsatisfied r m) l) = negb (is_nil l)) as ->
    by (by intros []).
  assert (forall b : bool, (if negb b then GovernedPromotionPreviewStatus_Reviewable
    else GovernedPromotionPreviewStatus_Blocked) = GovernedPromotionPreviewStatus_Reviewable <-> b = false) as -> by (by intros []).
  rewrite !orb_false_iff, existsb_not_In, Z.eqb_neq, !negb_false_iff.
  assert (forall A (l : list A), is_nil l = true <-> l = []) as Hnil by (by intros A []).
  rewrite !Hnil. split.
  - intros (_ & _ & ? & ? & Hl & Hp & ? & ? & ? & Hu). rewrite Hl in Hp. simpl in Hp. apply negb_false_iff in Hp.
    constructor; try done. rewrite Hu in En. simpl in En. rewrite andb_true_r in En. by apply is_nil_false.
  - intros []. repeat split; try done. by rewrite rv_linked0, rv_principal0.
Qed.

(** No effect outside the plan means the trees agree in everything but contents. *)
Lemma no_unsupported source destination source_dirs destination_dirs :
  concat (map snd (map (diff_path source destination) (union_keys source destination))) = [] ->
  concat (map (diff_directory source destination source_dirs destination_dirs)
            (union_keys source_dirs destination_dirs)) = [] ->
  (forall p b a, destination !! p = Some b -> source !! p = Some a -> pf_metadata_fingerprint b = pf_metadata_fingerprint a)
  /\ dom source_dirs = dom destination_dirs
  /\ (forall p, is_Some (source !! p) -> destination_dirs !! p = None).
Proof.
  rewrite map_map, !concat_map_nil. intros Hf Hd. split; [|split].
  - intros p b a Hb Ha. specialize (Hf p). unfold diff_path in Hf. rewrite Hb, Ha in Hf.
    destruct (decide (pf_metadata_fingerprint b = pf_metadata_fingerprint a)) as [|Hne]; [done|].
    rewrite (bool_decide_eq_true_2 _ Hne) in Hf. discriminate Hf. apply elem_of_union_keys. eauto.
  - apply set_eq. intros p. rewrite !elem_of_dom. specialize (Hd p). unfold diff_directory in Hd.
    destruct (source_dirs !! p) as [a|] eqn:Es, (destination_dirs !! p) as [b|] eqn:Ed; try done;
      exfalso; (destruct (_ || _) in Hd; discriminate Hd; apply elem_of_union_keys; rewrite ?Es, ?Ed; eauto).
  - intros p [a Ha]. specialize (Hd p). unfold diff_directory in Hd. rewrite Ha in Hd.
    destruct (destination_dirs !! p) as [b|] eqn:Ed; [|done]. exfalso. simpl in Hd. discriminate Hd.
    apply elem_of_union_keys. rewrite Ed. eauto.
Qed.

(** ** Claims about promotion *)

(** C26: a promotion plan is correct and minimal.  Applied to the files of the destination, the plan
    derived from two inventories gives exactly the contents of the source; it names each path once,
    in order, and only the paths whose content changes. *)
Theorem promotion_plan_correct {digests : PromotionDigest} sf df sd dd p source destination :
  derive_promotion_diff sf df sd dd = Ok p -> file_map sf = Ok source -> file_map df = Ok destination ->
  apply_diff (contents destination) (pp_diff p) = contents source
  /\ pp_write_set p = map pe_path (pp_diff p)
  /\ NoDup (map entry_path (pp_diff p)) /\ Sorted (key_le entry_path) (pp_diff p)
  /\ (forall path, mk_RepoPath path ∈ pp_write_set p <-> contents destination !! path ≠ contents source !! path).
Proof.
  intros (s & d & s' & d' & Es & Ed & _ & _ & Hdiff & Hw & _)%derive_ok_inv Hs Hd. rewrite Hs in Es. rewrite Hd in Ed.
  injection Es as <-. injection Ed as <-. assert (pp_diff p ≡ₚ plan source destination) as Hp by (rewrite Hdiff; apply sort_by_perm).
  split; [by apply plan_applies|]. split; [done|]. split; [rewrite Hp; apply plan_NoDup|].
  split; [rewrite Hdiff; apply sort_by_sorted|]. intros path. rewrite Hw, map_In_iff, <- plan_paths. split.
  - intros (e & He & Hin). exists e. rewrite <- Hp. split; [done|]. unfold entry_path. by rewrite <- He.
  - intros (e & Hin & <-). exists e. rewrite Hp. split; [|done]. unfold entry_path. by destruct (pe_path e).
Qed.

(** The plan does not depend on the order in which a tree was walked: permuting the four
    inventories gives the same projection, digests included. *)
Theorem promotion_order_irrelevant {digests : PromotionDigest} sf df sd dd sf' df' sd' dd' p :
  derive_promotion_diff sf df sd dd = Ok p ->
  sf ≡ₚ sf' -> df ≡ₚ df' -> sd ≡ₚ sd' -> dd ≡ₚ dd' -> derive_promotion_diff sf' df' sd' dd' = Ok p.
Proof.
  intros Hok Hs Hd Hsd Hdd. pose proof Hok as (s & d & s' & d' & Es & Ed & Esd & Edd & _)%derive_ok_inv.
  revert Hok. unfold derive_promotion_diff. rewrite Es, Ed, Esd, Edd.
  unfold file_map, directory_map in *. by rewrite (inventory_perm _ _ _ _ Hs Es), (inventory_perm _ _ _ _ Hd Ed),
    (inventory_perm _ _ _ _ Hsd Esd), (inventory_perm _ _ _ _ Hdd Edd).
Qed.

(** What an eligible promotion may do.  A promotion is eligible to be applied exactly when it is
    reviewable: it changes something, its evidence, claims and write set are in order, and it has no
    delete and no unsupported effect.  So, for a plan derived from two inventories, applying an
    eligible promotion loses no file of the destination, leaves the metadata of the common files
    and the set of directories as they were, and never turns a directory into a file. *)
Theorem eligible_promotion_safe {digests : PromotionDigest} sf df sd dd p source destination source_dirs destination_dirs input :
  derive_promotion_diff sf df sd dd = Ok p -> file_map sf = Ok source -> file_map df = Ok destination ->
  directory_map sd = Ok source_dirs -> directory_map dd = Ok destination_dirs ->
  pri_diff input = pp_diff p -> pri_unsupported_effects input = pp_unsupported_effects p ->
  (pre_apply_eligibility (evaluate_promotion_readiness input) = PromotionApplyEligibility_EligibleLocalReversible
   <-> reviewable input)
  /\ (reviewable input ->
      dom destination ⊆ dom source
      /\ (forall path b a, destination !! path = Some b -> source !! path = Some a ->
            pf_metadata_fingerprint b = pf_metadata_fingerprint a)
      /\ dom source_dirs = dom destination_dirs
      /\ (forall path, is_Some (source !! path) -> destination_dirs !! path = None)).
Proof.
  intros (s & d & s' & d' & Es & Ed & Es' & Ed' & Hdiff & _ & Hu)%derive_ok_inv Hs Hd Hs' Hd' Hpd Hpu.
  rewrite Hs in Es. rewrite Hd in Ed. rewrite Hs' in Es'. rewrite Hd' in Ed'.
  injection Es as <-. injection Ed as <-. injection Es' as <-. injection Ed' as <-. split.
  - rewrite <- readiness_status. unfold evaluate_promotion_readiness. cbn [pre_status pre_apply_eligibility].
    case_bool_decide as E; split; done.
  - intros [_ _ _ _ _ _ _ Hdel Hun]. rewrite Hpu, Hu in Hun. apply sort_with_nil, app_nil_iff in Hun as [Hf Hdir].
    split; [|by apply no_unsupported]. intros path Hb. apply elem_of_dom in Hb as [b Hb]. apply elem_of_dom.
    destruct (source !! path) as [a|] eqn:Ea; [by eexists|]. exfalso.
    assert (deleted path b ∈ plan source destination) as Hin.
    { apply plan_In. unfold diff_path. change (entry_path (deleted path b)) with path. rewrite Hb, Ea. by left. }
    assert (deleted path b ∈ pri_diff input) as Hin' by (rewrite Hpd, Hdiff; by rewrite sort_by_perm).
    by specialize (Hdel _ Hin').
Qed.

(** ** A concrete promotion *)

Module PromotionRun.

#[export] Instance digests : PromotionDigest := {|
  digest_diff := fun domain _ => Ok domain; digest_write_set := fun domain _ => Ok domain;
  digest_pairs := fun domain _ => Ok domain |}.

Definition file (path digest : string) (n : Z) : PromotionInventoryFile := {|
  pf_relative_path := path; pf_content_digest := digest; pf_byte_length := n;
  pf_metadata_fingerprint := "windows:attributes=00000020" |}.

Definition source : list PromotionInventoryFile := [file "b.txt" "sha256:b" 2; file "a.txt" "sha256:new" 3].
Definition destination : list PromotionInventoryFile := [file "a.txt" "sha256:old" 3].

Definition projection : PromotionDiffProjection := Eval vm_compute in
  match derive_promotion_diff source destination [] [] with Ok p => p | Err _ =>
    {| pp_diff := []; pp_write_set := []; pp_diff_digest := ""; pp_write_set_digest := "";
       pp_predicted_result_regular_file_set_digest := ""; pp_unsupported_effects := [] |} end.

Lemma promotion_derived : derive_promotion_diff source destination [] [] = Ok projection.
Proof. vm_compute. reflexivity. Qed.

Definition readiness : PromotionReadinessInput := {|
  pri_diff := pp_diff projection; pri_has_linked_claim := true; pri_ungoverned_paths := [];
  pri_conflicting_paths := []; pri_unsupported_effects := pp_unsupported_effects projection;
  pri_supporting_cooperative_evidence := 1; pri_blocking_source_claim_refs := [];
  pri_has_linked_claim_principal := true; pri_open_objective_uncertainties := 2 |}.

Definition files (l : list PromotionInventoryFile) : gmap string PromotionInventoryFile := keyed pf_relative_path l.

Lemma source_map : file_map source = Ok (files source).
Proof. vm_compute. reflexivity. Qed.

Lemma destination_map : file_map destination = Ok (files destination).
Proof. vm_compute. reflexivity. Qed.

End PromotionRun.

Lemma promotion_plan_correct_witness :
  apply_diff (contents (PromotionRun.files PromotionRun.destination)) (pp_diff PromotionRun.projection)
  = contents (PromotionRun.files PromotionRun.source).
Proof.
  apply (@promotion_plan_correct PromotionRun.digests PromotionRun.source PromotionRun.destination [] []
    PromotionRun.projection (PromotionRun.files PromotionRun.source) (PromotionRun.files PromotionRun.destination)
    PromotionRun.promotion_derived PromotionRun.source_map PromotionRun.destination_map).
Defined.

Lemma promotion_order_irrelevant_witness :
  @derive_promotion_diff PromotionRun.digests (rev PromotionRun.source) PromotionRun.destination [] []
  = Ok PromotionRun.projection.
Proof.
  apply (@promotion_order_irrelevant PromotionRun.digests PromotionRun.source PromotionRun.destination [] []
    (rev PromotionRun.source) PromotionRun.destination [] [] PromotionRun.projection PromotionRun.promotion_derived);
    [apply Permutation_swap | reflexivity..].
Defined.

Lemma eligible_promotion_safe_witness : reviewable PromotionRun.readiness.
Proof.
  apply (@eligible_promotion_safe PromotionRun.digests PromotionRun.source PromotionRun.destination [] []
    PromotionRun.projection (PromotionRun.files PromotionRun.source) (PromotionRun.files PromotionRun.destination) ∅ ∅
    PromotionRun.readiness PromotionRun.promotion_derived PromotionRun.source_map PromotionRun.destination_map
    eq_refl eq_refl eq_refl eq_refl).
  vm_compute. reflexivity.
Defined.
