(* ===== verification/Graph.v ===== *)
(** * Workflow graphs: contract and validation

    [forge-core-graph/src/lib.rs]: the graph document, and [validate_graph] with its passes over
    identity, nodes, edges and references.  [GraphOrder] has the topological order the cycle check
    uses, [GraphRun] the dry run. *)

From S2P Require Import Prelude RustStr BTree Contracts Diagnostics.

Local Open Scope string_scope.

Definition WORKFLOW_GRAPH_SCHEMA_VERSION : string := "0.1".
Definition WORKFLOW_GRAPH_KIND : string := "workflow_graph".

Inductive GraphNodeKind :=
| GraphNodeKind_Operation | GraphNodeKind_Verifier | GraphNodeKind_HumanGate | GraphNodeKind_MemoryRead
| GraphNodeKind_MemoryWriteCandidate | GraphNodeKind_ProtocolCall | GraphNodeKind_EvalProbe.

Inductive GraphVerifierResult :=
| GraphVerifierResult_Passed | GraphVerifierResult_Failed | GraphVerifierResult_Blocked | GraphVerifierResult_Unknown.

Inductive GraphEdgeKind :=
| GraphEdgeKind_RequiresSuccess | GraphEdgeKind_RequiresCompletion | GraphEdgeKind_BlocksUntilPassed.

Inductive GraphStopCondition :=
| GraphStopCondition_ValidationErrors | GraphStopCondition_BudgetExceeded | GraphStopCondition_HumanRequired
| GraphStopCondition_VerifierFailed | GraphStopCondition_AuthorityMissing | GraphStopCondition_GateBlocked.

#[export] Instance GraphNodeKind_eq_dec : EqDecision GraphNodeKind.
Proof. solve_decision. Defined.
#[export] Instance GraphVerifierResult_eq_dec : EqDecision GraphVerifierResult.
Proof. solve_decision. Defined.
#[export] Instance GraphEdgeKind_eq_dec : EqDecision GraphEdgeKind.
Proof. solve_decision. Defined.

Record GraphBudget := {
  gb_budget_id : option StableId;
  gb_node_id : option StableId;
  gb_max_steps : option Z;
  gb_max_tool_calls : option Z;
  gb_max_model_calls : option Z;
  gb_max_duration_ms : option Z
}.

Record GraphNode := {
  gn_node_id : StableId;
  gn_node_kind : GraphNodeKind;
  gn_operation_ref : option RepoPath;
  gn_mutation_capable : bool;
  gn_verifies : list StableId;
  gn_pass_condition : option string;
  gn_verifier_result : option GraphVerifierResult;
  gn_budget : option GraphBudget;
  gn_human_prompt : option string
}.

Record GraphEdge := {
  ge_from : StableId;
  ge_to : StableId;
  ge_edge_kind : GraphEdgeKind
}.

Record GraphAuthorityBoundary := {
  gab_source_of_truth : string;
  gab_adapters_may_suggest : bool;
  gab_adapters_may_mutate : bool;
  gab_required_authority_refs : list RepoPath
}.

Record WorkflowGraph := {
  wg_schema_version : string;
  wg_kind : string;
  wg_graph_id : StableId;
  wg_created_at : option string;
  wg_nodes : list GraphNode;
  wg_edges : list GraphEdge;
  wg_budgets : list GraphBudget;
  wg_stop_conditions : list GraphStopCondition;
  wg_authority_boundary : GraphAuthorityBoundary
}.

Record GraphValidationReport := {
  gvr_graph_id : StableId;
  gvr_report : ValidationReport
}.

Definition node_name (n : GraphNode) : string := StableId_0 (gn_node_id n).
Definition edge_from (e : GraphEdge) : string := StableId_0 (ge_from e).
Definition edge_to (e : GraphEdge) : string := StableId_0 (ge_to e).

(** [graph.nodes.iter().map(|n| n.node_id.0...).collect()] into a set. *)
Definition node_ids (graph : WorkflowGraph) : gset string := list_to_set (map node_name (wg_nodes graph)).

(** Collecting pairs into a map: the last node of an id wins. *)
Definition nodes_by_id (graph : WorkflowGraph) : gmap string GraphNode :=
  foldl (fun m n => <[node_name n := n]> m) ∅ (wg_nodes graph).

Definition graph_node_kind_name (kind : GraphNodeKind) : string :=
  match kind with
  | GraphNodeKind_Operation => "operation"
  | GraphNodeKind_Verifier => "verifier"
  | GraphNodeKind_HumanGate => "human_gate"
  | GraphNodeKind_MemoryRead => "memory_read"
  | GraphNodeKind_MemoryWriteCandidate => "memory_write_candidate"
  | GraphNodeKind_ProtocolCall => "protocol_call"
  | GraphNodeKind_EvalProbe => "eval_probe"
  end.

(** ** Validation passes: the diagnostics each one pushes *)

Definition validate_graph_identity (graph : WorkflowGraph) : list Diagnostic :=
  ((if str_is_empty (trim (StableId_0 (wg_graph_id graph)))
    then [Diagnostic_error DC_GraphEmptyGraphId "graph_id" "graph_id must not be empty"] else [])
   ++ (if negb (String.eqb (wg_schema_version graph) WORKFLOW_GRAPH_SCHEMA_VERSION)
       then [Diagnostic_error DC_GraphUnsupportedSchemaVersion "schema_version"
               ("workflow graph schema_version must be " +:+ WORKFLOW_GRAPH_SCHEMA_VERSION)] else [])
   ++ (if negb (String.eqb (wg_kind graph) WORKFLOW_GRAPH_KIND)
       then [Diagnostic_error DC_GraphInvalidGraphKind "kind"
               ("workflow graph kind must be " +:+ WORKFLOW_GRAPH_KIND)] else []))%list.

(** One round of the loop over the nodes, [seen] before it. *)
Definition validate_node (index : nat) (node : GraphNode) (seen : gset string) : list Diagnostic :=
  let node_path := "nodes." +:+ fmt_nat index +:+ ".node_id" in
  ((if str_is_empty (trim (node_name node))
    then [Diagnostic_error DC_GraphEmptyNodeId node_path "node_id must not be empty"] else [])
   ++ (if bool_decide (node_name node ∈ seen)
       then [Diagnostic_error DC_GraphDuplicateNodeId node_path
               ("node_id " +:+ node_name node +:+ " must be unique")] else [])
   ++ (if bool_decide (gn_node_kind node = GraphNodeKind_Operation)
          && match gn_operation_ref node with
             | None => true
             | Some reference => str_is_empty (trim (RepoPath_0 reference))
             end
       then [Diagnostic_error DC_GraphEmptyOperationRef ("nodes." +:+ fmt_nat index +:+ ".operation_ref")
               "operation nodes require non-empty operation_ref"] else []))%list.

Fixpoint validate_nodes_loop (index : nat) (nodes : list GraphNode) (seen : gset string) : list Diagnostic :=
  match nodes with
  | [] => []
  | node :: rest =>
      (validate_node index node seen ++ validate_nodes_loop (S index) rest ({[node_name node]} ∪ seen))%list
  end.

Definition validate_nodes (graph : WorkflowGraph) : list Diagnostic :=
  ((match wg_nodes graph with
    | [] => [Diagnostic_error DC_GraphEmptyGraph "nodes" "workflow graph must contain at least one node"]
    | _ => []
    end) ++ validate_nodes_loop 0 (wg_nodes graph) ∅)%list.

Definition validate_endpoint (ids : gset string) (index : nat) (side name : string) : list Diagnostic :=
  let path := "edges." +:+ fmt_nat index +:+ "." +:+ side in
  if str_is_empty (trim name)
  then [Diagnostic_error DC_GraphEmptyEdgeEndpoint path ("edge " +:+ side +:+ " endpoint must not be empty")]
  else if negb (bool_decide (name ∈ ids))
  then [Diagnostic_error DC_GraphMissingEdgeEndpoint path
          ("edge " +:+ side +:+ " endpoint " +:+ name +:+ " does not reference a node")]
  else [].

Definition validate_edges (graph : WorkflowGraph) : list Diagnostic :=
  concat (imap (fun index edge =>
    (validate_endpoint (node_ids graph) index "from" (edge_from edge)
     ++ validate_endpoint (node_ids graph) index "to" (edge_to edge))%list) (wg_edges graph)).

Definition validate_verifies (ids : gset string) (index : nat) (node : GraphNode) : list Diagnostic :=
  concat (imap (fun slot verified =>
    if str_is_empty (trim (StableId_0 verified)) then []
    else if negb (bool_decide (StableId_0 verified ∈ ids))
    then [Diagnostic_error DC_GraphDanglingVerifiesRef
            ("nodes." +:+ fmt_nat index +:+ ".verifies." +:+ fmt_nat slot)
            ("verifies entry " +:+ StableId_0 verified +:+ " does not reference a node")]
    else []) (gn_verifies node)).

Definition validate_budget_ref (ids : gset string) (index : nat) (budget : GraphBudget) : list Diagnostic :=
  match gb_node_id budget with
  | None => []
  | Some node_ref =>
      if str_is_empty (trim (StableId_0 node_ref)) then []
      else if negb (bool_decide (StableId_0 node_ref ∈ ids))
      then [Diagnostic_error DC_GraphDanglingBudgetNodeRef ("budgets." +:+ fmt_nat index +:+ ".node_id")
              ("budget node_id " +:+ StableId_0 node_ref +:+ " does not reference a node")]
      else []
  end.

Definition validate_edge_kind (nodes : gmap string GraphNode) (index : nat) (edge : GraphEdge) : list Diagnostic :=
  if bool_decide (ge_edge_kind edge ≠ GraphEdgeKind_BlocksUntilPassed) then []
  else match nodes !! edge_from edge with
       | None => []
       | Some source =>
           if bool_decide (gn_node_kind source ≠ GraphNodeKind_Verifier)
           then [Diagnostic_warning DC_GraphEdgeKindSourceKindMismatch
                   ("edges." +:+ fmt_nat index +:+ ".edge_kind")
                   ("blocks_until_passed edge originates from " +:+ graph_node_kind_name (gn_node_kind source)
                    +:+ " node " +:+ edge_from edge
                    +:+ "; only verifier nodes carry a verifier_result, so the edge will be treated as a generic upstream dependency")]
           else []
       end.

Definition validate_node_references (graph : WorkflowGraph) : list Diagnostic :=
  (concat (imap (validate_verifies (node_ids graph)) (wg_nodes graph))
   ++ concat (imap (validate_budget_ref (node_ids graph)) (wg_budgets graph))
   ++ concat (imap (validate_edge_kind (nodes_by_id graph)) (wg_edges graph)))%list.

(** ** Lemmas *)

Lemma elem_of_node_ids graph x : x ∈ node_ids graph <-> exists n, n ∈ wg_nodes graph /\ node_name n = x.
Proof.
  unfold node_ids. rewrite elem_of_list_to_set, map_In_iff. naive_solver.
Qed.

Lemma foldl_insert_lookup (nodes : list GraphNode) (m : gmap string GraphNode) :
  NoDup (map node_name nodes) ->
  (forall n, n ∈ nodes -> foldl (fun m n => <[node_name n := n]> m) m nodes !! node_name n = Some n)
  /\ (forall x, x ∉ map node_name nodes -> foldl (fun m n => <[node_name n := n]> m) m nodes !! x = m !! x).
Proof.
  revert m. induction nodes as [|k nodes IH]; intros m Hnd; simpl.
  { split; [intros n Hn; by apply elem_of_nil in Hn | done]. }
  apply NoDup_cons in Hnd as [Hk Hnd]. destruct (IH (<[node_name k := k]> m) Hnd) as [H1 H2]. split.
  - intros n [->|Hn]%elem_of_cons; [|by apply H1]. rewrite H2 by done. apply lookup_insert_eq.
  - intros x Hx. rewrite H2 by set_solver. apply lookup_insert_ne. set_solver.
Qed.

(** With distinct ids, looking a node up by its id finds it. *)
Lemma nodes_by_id_spec graph x n :
  NoDup (map node_name (wg_nodes graph)) ->
  nodes_by_id graph !! x = Some n <-> n ∈ wg_nodes graph /\ node_name n = x.
Proof.
  intros Hnd. unfold nodes_by_id. destruct (foldl_insert_lookup (wg_nodes graph) ∅ Hnd) as [H1 H2]. split.
  - intros Hx. destruct (decide (x ∈ map node_name (wg_nodes graph))) as [Hin|Hout].
    + apply map_In_iff in Hin as (k & -> & Hk). rewrite (H1 k Hk) in Hx. naive_solver.
    + by rewrite (H2 x Hout) in Hx.
  - intros [Hn <-]. by apply H1.
Qed.

Lemma concat_imap_no_error {A} (f : nat -> A -> list Diagnostic) (l : list A) :
  no_error (concat (imap f l)) -> forall i x, l !! i = Some x -> no_error (f i x).
Proof.
  revert f. induction l as [|y l IH]; intros f Hn i x Hx; [done|]. simpl in Hn.
  apply no_error_app in Hn as [Hy Hl]. destruct i as [|i]; simpl in Hx; [by simplify_eq|].
  apply (IH (f ∘ S) Hl i x Hx).
Qed.

Lemma validate_nodes_loop_no_error index nodes seen :
  no_error (validate_nodes_loop index nodes seen) ->
  NoDup (map node_name nodes) /\ (forall n, n ∈ nodes -> node_name n ∉ seen).
Proof.
  revert index seen. induction nodes as [|n nodes IH]; intros index seen Hn; simpl in *.
  { split; [constructor | intros n Hx; by apply elem_of_nil in Hx]. }
  apply no_error_app in Hn as [Hv Hl]. destruct (IH _ _ Hl) as [Hnd Hout].
  assert (node_name n ∉ seen) as Hns.
  { unfold validate_node in Hv. apply no_error_app in Hv as [_ Hv]. apply no_error_app in Hv as [Hv _].
    intros Hin. rewrite bool_decide_eq_true_2 in Hv by done. by apply no_error_error in Hv. }
  split.
  - constructor; [|done]. intros (k & E & Hk)%map_In_iff. apply (Hout k Hk). rewrite <- E. set_solver.
  - intros k [->|Hk]%elem_of_cons; [done|]. specialize (Hout k Hk). set_solver.
Qed.

Lemma validate_edges_no_error graph e :
  no_error (validate_edges graph) -> e ∈ wg_edges graph -> edge_from e ∈ node_ids graph /\ edge_to e ∈ node_ids graph.
Proof.
  intros Hn [i Hi]%list_elem_of_lookup. apply (concat_imap_no_error _ _ Hn) in Hi.
  apply no_error_app in Hi as [Hf Ht].
  assert (forall side name, no_error (validate_endpoint (node_ids graph) i side name) -> name ∈ node_ids graph) as Hv.
  { intros side name. unfold validate_endpoint. destruct (str_is_empty _); [by intros ?%no_error_error|].
    case_bool_decide; simpl; [done|by intros ?%no_error_error]. }
  eauto.
Qed.
