(* ===== verification/GraphOrder.v ===== *)
(** * Topological order of a workflow graph

    [topological_order_if_acyclic] of [forge-core-graph/src/lib.rs]: Kahn's algorithm over ordered
    sets.  The [expect]s on the maps and the subtraction on a [usize] counter can panic; a panic is
    [None] here, and [kahn_total] shows that none happens.  The loop runs on fuel, one more than the
    number of nodes, which the same lemma shows to be enough. *)

From S2P Require Import Prelude RustStr BTree Traversal Contracts Diagnostics Graph.

Notation Indegree := (gmap string nat).
Notation Outgoing := (gmap string (gset string)).

(** ** The algorithm *)

Definition init_indegree (ids : gset string) : Indegree := set_to_map (fun x => (x, 0)) ids.
Definition init_outgoing (ids : gset string) : Outgoing := set_to_map (fun x => (x, ∅)) ids.

(** One edge of the first loop. *)
Definition add_edge (ids : gset string) (edge : GraphEdge) (st : Indegree * Outgoing)
    : option (Indegree * Outgoing) :=
  let '(indegree, outgoing) := st in
  if negb (bool_decide (edge_from edge ∈ ids)) || negb (bool_decide (edge_to edge ∈ ids)) then Some st
  else match outgoing !! edge_from edge with
       | None => None
       | Some children =>
           if bool_decide (edge_to edge ∈ children) then Some st
           else match indegree !! edge_to edge with
                | None => None
                | Some count =>
                    Some (<[edge_to edge := S count]> indegree,
                          <[edge_from edge := {[edge_to edge]} ∪ children]> outgoing)
                end
       end.

Fixpoint add_edges (ids : gset string) (edges : list GraphEdge) (st : Indegree * Outgoing)
    : option (Indegree * Outgoing) :=
  match edges with
  | [] => Some st
  | edge :: rest => match add_edge ids edge st with
                    | None => None
                    | Some st => add_edges ids rest st
                    end
  end.

(** The loop over the children of a node taken off [ready]. *)
Fixpoint relax_children (children : list string) (indegree : Indegree) (ready : gset string)
    : option (Indegree * gset string) :=
  match children with
  | [] => Some (indegree, ready)
  | child :: rest =>
      match indegree !! child with
      | None | Some 0 => None
      | Some (S count) =>
          relax_children rest (<[child := count]> indegree) (if count =? 0 then {[child]} ∪ ready else ready)
      end
  end.

Fixpoint kahn_loop (fuel : nat) (outgoing : Outgoing) (indegree : Indegree) (ready : gset string)
    (order : list string) : option (list string) :=
  match fuel with
  | 0 => None
  | S fuel =>
      match pop_first ready with
      | None => Some order
      | Some (node_id, ready) =>
          match outgoing !! node_id with
          | None => None
          | Some children =>
              match relax_children (set_iter children) indegree ready with
              | None => None
              | Some (indegree, ready) => kahn_loop fuel outgoing indegree ready (order ++ [node_id])
              end
          end
      end
  end.

Definition initial_ready (indegree : Indegree) : gset string :=
  list_to_set (List.filter (fun x => bool_decide (indegree !! x = Some 0)) (map_keys indegree)).

(** [None] is a panic; [Some None] the verdict that the graph has a cycle. *)
Definition kahn (graph : WorkflowGraph) : option (option (list StableId)) :=
  let ids := node_ids graph in
  match add_edges ids (wg_edges graph) (init_indegree ids, init_outgoing ids) with
  | None => None
  | Some (indegree, outgoing) =>
      match kahn_loop (S (size ids)) outgoing indegree (initial_ready indegree) [] with
      | None => None
      | Some order => Some (if length order =? size ids then Some (map mk_StableId order) else None)
      end
  end.

Definition topological_order_if_acyclic (graph : WorkflowGraph) : option (list StableId) :=
  default None (kahn graph).

Definition topological_order (graph : WorkflowGraph) : list StableId :=
  default [] (topological_order_if_acyclic graph).

Definition validate_cycles (graph : WorkflowGraph) : list Diagnostic :=
  match wg_nodes graph with
  | [] => []
  | _ => match topological_order_if_acyclic graph with
         | None => [Diagnostic_error DC_GraphCycleDetected "edges" "workflow graph edges must be acyclic"]
         | Some _ => []
         end
  end.

Definition validate_graph (graph : WorkflowGraph) : GraphValidationReport := {|
  gvr_graph_id := wg_graph_id graph;
  gvr_report := {| vr_diagnostics :=
    validate_graph_identity graph ++ validate_nodes graph ++ validate_edges graph
    ++ validate_cycles graph ++ validate_node_references graph |} |}.

(** ** The edges the algorithm sees *)

(** The edges between nodes of the graph. *)
Definition graph_edge (graph : WorkflowGraph) (x y : string) : Prop :=
  exists e, e ∈ wg_edges graph /\ edge_from e = x /\ edge_to e = y /\ x ∈ node_ids graph /\ y ∈ node_ids graph.

Definition acyclic (graph : WorkflowGraph) : Prop := forall x, ~ tc (graph_edge graph) x x.

Definition succs (outgoing : Outgoing) (x : string) : gset string := default ∅ (outgoing !! x).

(** Predecessors of [y] in the set [s]. *)
Definition preds (outgoing : Outgoing) (s : gset string) (y : string) : gset string :=
  filter (fun x => y ∈ succs outgoing x) s.

Lemma elem_of_preds outgoing s y x : x ∈ preds outgoing s y <-> x ∈ s /\ y ∈ succs outgoing x.
Proof. unfold preds. rewrite elem_of_filter. naive_solver. Qed.

(** Both maps are defined on exactly the nodes, and every counter counts the predecessors. *)
Record edges_ok (ids : gset string) (indegree : Indegree) (outgoing : Outgoing) : Prop := {
  ok_out x : is_Some (outgoing !! x) <-> x ∈ ids;
  ok_in y : y ∈ ids -> indegree !! y = Some (size (preds outgoing ids y));
  ok_in_dom y : is_Some (indegree !! y) -> y ∈ ids;
  ok_succs x y : y ∈ succs outgoing x -> y ∈ ids
}.

Lemma lookup_set_to_map_const {A} (a : A) (ids : gset string) x :
  (set_to_map (fun x => (x, a)) ids : gmap string A) !! x = if decide (x ∈ ids) then Some a else None.
Proof.
  apply option_eq. intros b. rewrite lookup_set_to_map by (simpl; congruence).
  destruct (decide (x ∈ ids)); naive_solver.
Qed.

Lemma edges_ok_init ids : edges_ok ids (init_indegree ids) (init_outgoing ids).
Proof.
  assert (forall x, succs (init_outgoing ids) x = ∅) as Hs.
  { intros x. unfold succs, init_outgoing. rewrite lookup_set_to_map_const. by destruct (decide _). }
  split.
  - intros x. unfold init_outgoing. rewrite lookup_set_to_map_const. destruct (decide _); naive_solver.
  - intros y Hy. unfold init_indegree. rewrite lookup_set_to_map_const, decide_True by done. f_equal.
    symmetry. apply size_empty_iff. intros x. rewrite elem_of_preds, Hs. set_solver.
  - intros y. unfold init_indegree. rewrite lookup_set_to_map_const. destruct (decide _); [done|]. by intros [? ?].
  - intros x y. rewrite Hs. set_solver.
Qed.

Lemma preds_insert outgoing ids x s z y :
  x ∈ ids -> succs outgoing x = s -> z ∉ s ->
  preds (<[x := {[z]} ∪ s]> outgoing) ids y
  = if decide (y = z) then {[x]} ∪ preds outgoing ids y else preds outgoing ids y.
Proof.
  intros Hx Hs Hz. apply set_eq. intros w. rewrite elem_of_preds. unfold succs at 1. destruct (decide (w = x)) as [->|Hw].
  - rewrite lookup_insert_eq. simpl. destruct (decide (y = z)) as [->|Hy]; [set_solver|].
    rewrite elem_of_preds, Hs. set_solver.
  - rewrite lookup_insert_ne by done. fold (succs outgoing w).
    destruct (decide (y = z)) as [->|Hy]; rewrite ?elem_of_union, elem_of_preds; set_solver.
Qed.

Lemma add_edge_ok ids e indegree outgoing :
  edges_ok ids indegree outgoing ->
  exists indegree' outgoing', add_edge ids e (indegree, outgoing) = Some (indegree', outgoing')
    /\ edges_ok ids indegree' outgoing'
    /\ forall x y, y ∈ succs outgoing' x <->
         y ∈ succs outgoing x \/ (edge_from e = x /\ edge_to e = y /\ x ∈ ids /\ y ∈ ids).
Proof.
  intros Hok. unfold add_edge.
  case_bool_decide as Hf; simpl.
  2: { exists indegree, outgoing. split; [done|]. split; [done|]. intros x y. naive_solver. }
  case_bool_decide as Ht; simpl.
  2: { exists indegree, outgoing. split; [done|]. split; [done|]. intros x y. naive_solver. }
  destruct (proj2 (ok_out _ _ _ Hok (edge_from e)) Hf) as [s Hs]. rewrite Hs.
  assert (succs outgoing (edge_from e) = s) as Hs' by (unfold succs; by rewrite Hs).
  case_bool_decide as Hin.
  { exists indegree, outgoing. split; [done|]. split; [done|]. intros x y. split; [by left|].
    intros [?|(<- & <- & _)]; [done | by rewrite Hs']. }
  rewrite (ok_in _ _ _ Hok _ Ht). do 2 eexists. split; [done|].
  assert (forall x y, y ∈ succs (<[edge_from e := {[edge_to e]} ∪ s]> outgoing) x <->
     y ∈ succs outgoing x \/ (edge_from e = x /\ edge_to e = y /\ x ∈ ids /\ y ∈ ids)) as Hsucc.
  { intros x y. unfold succs at 1. destruct (decide (x = edge_from e)) as [->|Hx].
    - rewrite lookup_insert_eq, Hs'. simpl. set_solver.
    - rewrite lookup_insert_ne by done. fold (succs outgoing x). naive_solver. }
  split; [|done]. split.
  - intros x. destruct (decide (x = edge_from e)) as [->|Hx].
    + rewrite lookup_insert_eq. naive_solver.
    + rewrite lookup_insert_ne by done. apply (ok_out _ _ _ Hok).
  - intros y Hy. rewrite (preds_insert _ _ _ s) by done. destruct (decide (y = edge_to e)) as [->|Hne].
    + rewrite lookup_insert_eq, size_union, size_singleton; [done|].
      apply disjoint_singleton_l. rewrite elem_of_preds, Hs'. naive_solver.
    + rewrite lookup_insert_ne by done. apply (ok_in _ _ _ Hok _ Hy).
  - intros y. destruct (decide (y = edge_to e)) as [->|Hne]; [done|].
    rewrite lookup_insert_ne by done. apply (ok_in_dom _ _ _ Hok).
  - intros x y [?|(_ & _ & _ & ?)]%Hsucc; [by eapply ok_succs | done].
Qed.

Lemma add_edges_ok ids edges indegree outgoing :
  edges_ok ids indegree outgoing ->
  exists indegree' outgoing', add_edges ids edges (indegree, outgoing) = Some (indegree', outgoing')
    /\ edges_ok ids indegree' outgoing'
    /\ forall x y, y ∈ succs outgoing' x <->
         y ∈ succs outgoing x \/ exists e, e ∈ edges /\ edge_from e = x /\ edge_to e = y /\ x ∈ ids /\ y ∈ ids.
Proof.
  revert indegree outgoing. induction edges as [|e edges IH]; intros indegree outgoing Hok; cbn [add_edges].
  - exists indegree, outgoing. split; [done|]. split; [done|]. intros x y. split; [by left|].
    intros [?|(e & He & _)]; [done | by apply elem_of_nil in He].
  - destruct (add_edge_ok ids e indegree outgoing Hok) as (i1 & o1 & -> & Hok1 & Hs1).
    destruct (IH i1 o1 Hok1) as (i2 & o2 & -> & Hok2 & Hs2). exists i2, o2. split; [done|]. split; [done|].
    intros x y. rewrite Hs2, Hs1. setoid_rewrite elem_of_cons. naive_solver.
Qed.

(** ** The invariant of the main loop *)

Lemma relax_children_ok l indegree ready :
  NoDup l -> (forall c, c ∈ l -> exists n, indegree !! c = Some (S n)) ->
  exists indegree' ready', relax_children l indegree ready = Some (indegree', ready')
    /\ (forall y, indegree' !! y = if decide (y ∈ l) then pred <$> indegree !! y else indegree !! y)
    /\ (forall y, y ∈ ready' <-> y ∈ ready \/ (y ∈ l /\ indegree !! y = Some 1)).
Proof.
  revert indegree ready. induction l as [|c l IH]; intros indegree ready Hnd Hpos; simpl.
  { exists indegree, ready. split; [done|]. split; [done|]. set_solver. }
  apply NoDup_cons in Hnd as [Hc Hnd]. destruct (Hpos c) as [n Hn]; [set_solver|]. rewrite Hn.
  destruct (IH (<[c := n]> indegree) (if n =? 0 then {[c]} ∪ ready else ready)) as (i & r & -> & Hi & Hr); [done| |].
  { intros d Hd. rewrite lookup_insert_ne by set_solver. apply Hpos. set_solver. }
  exists i, r. split; [done|]. split.
  - intros y. rewrite Hi. destruct (decide (y = c)) as [->|Hy].
    + rewrite decide_False, decide_True by set_solver. by rewrite lookup_insert_eq, Hn.
    + rewrite lookup_insert_ne by done. destruct (decide (y ∈ l)); [rewrite decide_True|rewrite decide_False]; set_solver.
  - intros y. rewrite Hr. destruct (decide (y = c)) as [->|Hy].
    + rewrite Hn. destruct n; simpl; set_solver.
    + rewrite lookup_insert_ne by done. destruct (n =? 0); set_solver.
Qed.

(** Each node comes after its predecessors. *)
Definition respects (outgoing : Outgoing) (order : list string) : Prop :=
  forall j x y, order !! j = Some y -> y ∈ succs outgoing x -> exists i, i < j /\ order !! i = Some x.

Definition rest (ids : gset string) (order : list string) : gset string := ids ∖ list_to_set order.

Record loop_inv (ids : gset string) (outgoing : Outgoing) (indegree : Indegree) (ready : gset string)
    (order : list string) : Prop := {
  li_out x : x ∈ ids -> is_Some (outgoing !! x);
  li_succs x y : y ∈ succs outgoing x -> x ∈ ids /\ y ∈ ids;
  li_nodup : NoDup order;
  li_order x : x ∈ order -> x ∈ ids;
  li_respects : respects outgoing order;
  li_count y : y ∈ ids -> indegree !! y = Some (size (preds outgoing (rest ids order) y));
  li_ready y : y ∈ ready <-> y ∈ rest ids order /\ preds outgoing (rest ids order) y ≡ ∅
}.

Lemma rest_snoc ids order x : rest ids (order ++ [x]) = rest ids order ∖ {[x]}.
Proof. unfold rest. rewrite list_to_set_app_L. set_solver. Qed.

Lemma preds_remove outgoing s x y :
  preds outgoing (s ∖ {[x]}) y = preds outgoing s y ∖ {[x]}.
Proof. apply set_eq. intros z. rewrite elem_of_difference, !elem_of_preds. set_solver. Qed.

Lemma respects_snoc outgoing order x :
  respects outgoing order -> (forall w, x ∈ succs outgoing w -> w ∈ order) -> respects outgoing (order ++ [x]).
Proof.
  intros Hr Hx j w y Hj Hw. destruct (decide (j < length order)) as [Hl|Hl].
  - rewrite lookup_app_l in Hj by done. destruct (Hr j w y Hj Hw) as (i & Hi & Hiw).
    exists i. split; [done|]. rewrite lookup_app_l; [done|lia].
  - rewrite lookup_app_r in Hj by lia. assert (j - length order = 0 /\ y = x) as [E ->].
    { destruct (j - length order) as [|k]; [naive_solver|]. by destruct k. }
    apply Hx in Hw. apply list_elem_of_lookup in Hw as [i Hi].
    exists i. split; [apply lookup_lt_Some in Hi; lia|]. rewrite lookup_app_l; [done|by eapply lookup_lt_Some].
Qed.

(** A node whose predecessors all left has them in the order. *)
Lemma preds_done ids outgoing indegree ready order x w :
  loop_inv ids outgoing indegree ready order -> preds outgoing (rest ids order) x ≡ ∅ ->
  x ∈ succs outgoing w -> w ∈ order.
Proof.
  intros Hi He Hw. destruct (li_succs _ _ _ _ _ Hi _ _ Hw) as [Hwi _].
  destruct (decide (w ∈ order)) as [|Hn]; [done|exfalso].
  assert (w ∈ preds outgoing (rest ids order) x) as Hin.
  { apply elem_of_preds. split; [|done]. unfold rest. set_solver. }
  rewrite He in Hin. set_solver.
Qed.

Lemma loop_inv_step ids outgoing indegree ready order x children indegree' ready' :
  loop_inv ids outgoing indegree ready order -> x ∈ ready -> outgoing !! x = Some children ->
  (forall y, indegree' !! y = if decide (y ∈ set_iter children) then pred <$> indegree !! y else indegree !! y) ->
  (forall y, y ∈ ready' <-> y ∈ ready ∖ {[x]} \/ (y ∈ set_iter children /\ indegree !! y = Some 1)) ->
  loop_inv ids outgoing indegree' ready' (order ++ [x]).
Proof.
  intros Hi Hx Hc Hin Hr. pose proof Hi as [Hout Hsuc Hnd Hord Hresp Hcnt Hrdy].
  apply Hrdy in Hx as [Hxr Hxe].
  assert (x ∈ ids /\ x ∉ order) as [Hxi Hxo] by (unfold rest in Hxr; set_solver).
  assert (forall y, y ∈ set_iter children <-> y ∈ succs outgoing x) as Hch.
  { intros y. rewrite elem_of_set_iter. unfold succs. by rewrite Hc. }
  assert (x ∉ succs outgoing x) as Hloop.
  { intros Hl. assert (x ∈ preds outgoing (rest ids order) x) as Hp by (by apply elem_of_preds). set_solver. }
  assert (forall y, y ∈ succs outgoing x ->
    size (preds outgoing (rest ids order) y) = S (size (preds outgoing (rest ids order ∖ {[x]}) y))) as Hdec.
  { intros y Hy. rewrite preds_remove, size_difference.
    - rewrite size_singleton. assert (size (preds outgoing (rest ids order) y) ≠ 0); [|lia].
      rewrite size_empty_iff. intros E. assert (x ∈ preds outgoing (rest ids order) y) by (by apply elem_of_preds).
      set_solver.
    - intros z ->%elem_of_singleton. by apply elem_of_preds. }
  assert (forall y, y ∉ succs outgoing x ->
    preds outgoing (rest ids order ∖ {[x]}) y = preds outgoing (rest ids order) y) as Hsame.
  { intros y Hy. apply set_eq. intros z. rewrite !elem_of_preds. set_solver. }
  split; [done|done| | | | |].
  - apply NoDup_app. split; [done|]. split; [|apply NoDup_singleton]. intros y Hy ->%list_elem_of_singleton. done.
  - intros y [Hy| ->%list_elem_of_singleton]%elem_of_app; [by apply Hord | done].
  - apply respects_snoc; [done|]. intros w. by apply (preds_done ids outgoing indegree ready).
  - intros y Hy. rewrite Hin, (Hcnt y Hy), rest_snoc.
    destruct (decide (y ∈ set_iter children)) as [Hyc|Hyc].
    + apply Hch in Hyc. by rewrite (Hdec y Hyc).
    + rewrite Hch in Hyc. by rewrite (Hsame y Hyc).
  - intros y. rewrite Hr, Hch, rest_snoc. destruct (decide (y ∈ succs outgoing x)) as [Hy|Hy].
    + destruct (Hsuc _ _ Hy) as [_ Hyi]. rewrite (Hcnt y Hyi), (Hdec y Hy), elem_of_difference, Hrdy.
      assert (y ≠ x) as Hne by (intros ->; done).
      assert (y ∉ order) as Hyo.
      { intros Hyo. apply list_elem_of_lookup in Hyo as [j Hj]. destruct (Hresp j x y Hj Hy) as (i & _ & Hix).
        apply Hxo. by eapply list_elem_of_lookup_2. }
      assert (y ∈ rest ids order) as Hyr by (unfold rest; set_solver).
      split.
      * intros [((_ & He) & _)|(_ & E)].
        -- exfalso. apply size_empty_iff in He. rewrite (Hdec y Hy) in He. done.
        -- split; [set_solver|]. apply size_empty_iff. congruence.
      * intros [_ He]. right. split; [done|]. apply size_empty_iff in He. congruence.
    + rewrite (Hsame y Hy), !elem_of_difference, Hrdy. set_solver.
Qed.

Lemma order_length ids outgoing indegree ready order :
  loop_inv ids outgoing indegree ready order -> length order <= size ids.
Proof.
  intros Hi. rewrite <- (size_list_to_set order (C := gset string)) by apply Hi.
  apply subseteq_size. intros x. rewrite elem_of_list_to_set. apply Hi.
Qed.

(** The loop ends, without a panic, when nothing is ready. *)
Lemma kahn_loop_ok fuel ids outgoing indegree ready order :
  loop_inv ids outgoing indegree ready order -> size ids - length order < fuel ->
  exists indegree' order', kahn_loop fuel outgoing indegree ready order = Some order'
    /\ loop_inv ids outgoing indegree' ∅ order'.
Proof.
  revert indegree ready order. induction fuel as [|fuel IH]; intros indegree ready order Hi Hf; [lia|]. simpl.
  destruct (pop_first ready) as [[x ready1]|] eqn:Hp.
  2: { apply pop_first_None in Hp as ->. by exists indegree, order. }
  apply pop_first_Some in Hp as (Hx & -> & _).
  assert (x ∈ ids /\ x ∉ order) as [Hxi Hxo].
  { apply (li_ready _ _ _ _ _ Hi) in Hx as [Hx _]. unfold rest in Hx. set_solver. }
  destruct (li_out _ _ _ _ _ Hi x Hxi) as [children Hc]. rewrite Hc.
  destruct (relax_children_ok (set_iter children) indegree (ready ∖ {[x]})) as (i & r & -> & Hin & Hr).
  - apply NoDup_set_iter.
  - intros c Hcc. assert (c ∈ succs outgoing x) as Hs.
    { unfold succs. rewrite Hc. by apply elem_of_set_iter. }
    destruct (li_succs _ _ _ _ _ Hi _ _ Hs) as [_ Hci]. rewrite (li_count _ _ _ _ _ Hi c Hci).
    destruct (size (preds outgoing (rest ids order) c)) as [|n] eqn:E; [exfalso|by eexists].
    apply size_empty_iff in E. assert (x ∈ preds outgoing (rest ids order) c) as Hin.
    { apply elem_of_preds. split; [unfold rest; set_solver | done]. }
    set_solver.
  - pose proof (loop_inv_step _ _ _ _ _ x children i r Hi Hx Hc Hin Hr) as Hi'.
    apply IH; [done|]. pose proof (order_length _ _ _ _ _ Hi'). rewrite length_app in *. simpl in *. lia.
Qed.

(** A predecessor inside a set. *)
Definition pick_pred (outgoing : Outgoing) (s : gset string) (y : string) : string :=
  hd "" (elements (preds outgoing s y)).

Lemma pick_pred_spec outgoing s y :
  ~ preds outgoing s y ≡ ∅ -> pick_pred outgoing s y ∈ s /\ y ∈ succs outgoing (pick_pred outgoing s y).
Proof.
  intros Hne. unfold pick_pred. destruct (elements (preds outgoing s y)) as [|x l] eqn:E.
  - exfalso. apply Hne. by apply elements_empty_iff.
  - simpl. apply elem_of_preds. apply elem_of_elements. rewrite E. by left.
Qed.

(** ** The result *)

Lemma initial_loop_inv graph indegree outgoing :
  edges_ok (node_ids graph) indegree outgoing ->
  (forall x y, y ∈ succs outgoing x -> x ∈ node_ids graph) ->
  loop_inv (node_ids graph) outgoing indegree (initial_ready indegree) [].
Proof.
  intros Hok Hsrc. assert (rest (node_ids graph) [] = node_ids graph) as Hrest by (unfold rest; set_solver).
  split.
  - intros x Hx. by apply (ok_out _ _ _ Hok).
  - intros x y Hy. split; [by eapply Hsrc | by eapply ok_succs].
  - constructor.
  - intros x Hx. by apply elem_of_nil in Hx.
  - intros j x y Hj. by rewrite lookup_nil in Hj.
  - intros y Hy. rewrite Hrest. by apply Hok.
  - intros y. rewrite Hrest. unfold initial_ready.
    rewrite elem_of_list_to_set, filter_In_iff, elem_of_map_keys, bool_decide_eq_true.
    split.
    + intros [Hd E]. pose proof (ok_in_dom _ _ _ Hok y Hd) as Hy. split; [done|].
      rewrite (ok_in _ _ _ Hok y Hy) in E. apply size_empty_iff. congruence.
    + intros [Hy E]. rewrite (ok_in _ _ _ Hok y Hy). apply size_empty_iff in E. rewrite E. naive_solver.
Qed.

(** What the algorithm returns: it never panics, and stops with nothing ready. *)
Lemma kahn_total graph :
  exists outgoing indegree order,
    loop_inv (node_ids graph) outgoing indegree ∅ order
    /\ (forall x y, y ∈ succs outgoing x <-> graph_edge graph x y)
    /\ kahn graph = Some (if length order =? size (node_ids graph) then Some (map mk_StableId order) else None).
Proof.
  destruct (add_edges_ok (node_ids graph) (wg_edges graph) _ _ (edges_ok_init (node_ids graph)))
    as (indegree & outgoing & E & Hok & Hs).
  assert (forall x y, y ∈ succs outgoing x <-> graph_edge graph x y) as Hedge.
  { intros x y. rewrite Hs. unfold succs at 1, init_outgoing. rewrite lookup_set_to_map_const. unfold graph_edge.
    destruct (decide (x ∈ node_ids graph)); simpl; set_solver. }
  destruct (kahn_loop_ok (S (size (node_ids graph))) (node_ids graph) outgoing indegree (initial_ready indegree) [])
    as (indegree' & order & E' & Hi).
  - apply initial_loop_inv; [done|]. intros x y (e & _ & _ & _ & ? & _)%Hedge. done.
  - simpl. lia.
  - exists outgoing, indegree', order. split; [done|]. split; [done|]. unfold kahn. by rewrite E, E'.
Qed.

Lemma full_order ids outgoing indegree order :
  loop_inv ids outgoing indegree ∅ order -> length order = size ids -> forall x, x ∈ ids -> x ∈ order.
Proof.
  intros Hi Hl x Hx. cut (x ∈ (list_to_set order : gset string)); [by rewrite elem_of_list_to_set|].
  assert (list_to_set order ≡@{gset string} ids) as ->; [|done]. apply set_subseteq_size_equiv.
  - intros y. rewrite elem_of_list_to_set. apply Hi.
  - rewrite size_list_to_set by apply Hi. lia.
Qed.

(** The order on indices the edges induce. *)
Lemma tc_index graph outgoing order x y :
  (forall x y, y ∈ succs outgoing x <-> graph_edge graph x y) -> respects outgoing order ->
  tc (graph_edge graph) x y -> forall j, order !! j = Some y -> exists i, i < j /\ order !! i = Some x.
Proof.
  intros Hedge Hresp Htc. induction Htc as [x y Hxy|x y z Hxy _ IH]; intros j Hj.
  - apply Hedge in Hxy. by eapply Hresp.
  - destruct (IH j Hj) as (k & Hk & Hky). apply Hedge in Hxy.
    destruct (Hresp k x y Hky Hxy) as (i & Hi & Hix). exists i. split; [lia|done].
Qed.

(** Acyclicity is exactly what the algorithm decides; the order it finds is a topological one. *)
Lemma topological_order_spec graph :
  is_Some (kahn graph) /\
  match topological_order_if_acyclic graph with
  | Some order =>
      acyclic graph /\ NoDup order /\ (forall x, mk_StableId x ∈ order <-> x ∈ node_ids graph)
      /\ (forall x y j, graph_edge graph x y -> order !! j = Some (mk_StableId y) ->
            exists i, i < j /\ order !! i = Some (mk_StableId x))
  | None => ~ acyclic graph
  end.
Proof.
  destruct (kahn_total graph) as (outgoing & indegree & order & Hi & Hedge & E).
  split; [by rewrite E|]. unfold topological_order_if_acyclic. rewrite E. simpl.
  pose proof Hi as [Hout Hsuc Hnd Hord Hresp Hcnt Hrdy].
  destruct (Nat.eqb_spec (length order) (size (node_ids graph))) as [Hl|Hl].
  - pose proof (full_order _ _ _ _ Hi Hl) as Hfull.
    assert (forall i x, map mk_StableId order !! i = Some (mk_StableId x) <-> order !! i = Some x) as Hlk.
    { intros i x. rewrite list_lookup_fmap. destruct (order !! i); simpl; naive_solver. }
    split; [|split; [|split]].
    + intros x Hx. assert (x ∈ order) as Hin.
      { apply Hfull. assert (exists w, graph_edge graph x w) as (w & e & _ & _ & _ & ? & _); [|done].
        inversion Hx; subst; by eexists. }
      apply list_elem_of_lookup in Hin as [j Hj].
      destruct (tc_index graph outgoing order x x Hedge Hresp Hx j Hj) as (i & Hij & Hix).
      pose proof (NoDup_lookup _ _ _ _ Hnd Hix Hj). lia.
    + apply NoDup_fmap_2; [|done]. by intros x y [= ->].
    + intros x. rewrite map_In_iff. split.
      * intros (y & [= ->] & Hy). by apply Hord.
      * intros Hx. exists x. auto.
    + intros x y j Hxy Hj. apply Hlk in Hj. apply Hedge in Hxy.
      destruct (Hresp j x y Hj Hxy) as (i & Hij & Hix). exists i. split; [done|]. by apply Hlk.
  - intros Hac. apply Hl.
    assert (rest (node_ids graph) order ≡ ∅) as Hr.
    { apply (acyclic_no_trap (graph_edge graph) (pick_pred outgoing (rest (node_ids graph) order))); [done|].
      intros z Hz. destruct (pick_pred_spec outgoing (rest (node_ids graph) order) z) as [H1 H2].
      - intros He. assert (z ∈ (∅ : gset string)) as Hz' by (apply Hrdy; done). set_solver.
      - split; [done|]. by apply Hedge. }
    rewrite <- (size_list_to_set order (C := gset string)) by done. f_equal. apply leibniz_equiv.
    intros x. split; [rewrite elem_of_list_to_set; apply Hord|]. intros Hx.
    destruct (decide (x ∈ order)) as [|Hn]; [by apply elem_of_list_to_set|].
    assert (x ∈ rest (node_ids graph) order) as Hin by (unfold rest; set_solver). set_solver.
Qed.

(** ** Claims about the order *)

(** The topological sort never panics and terminates; it returns an order exactly when the
    edges between the nodes are acyclic, and that order lists every node id once with every edge
    going forward. *)
Theorem topological_order_correct graph :
  is_Some (kahn graph) /\
  match topological_order_if_acyclic graph with
  | Some order =>
      acyclic graph /\ NoDup order /\ (forall x, mk_StableId x ∈ order <-> x ∈ node_ids graph)
      /\ (forall x y j, graph_edge graph x y -> order !! j = Some (mk_StableId y) ->
            exists i, i < j /\ order !! i = Some (mk_StableId x))
  | None => ~ acyclic graph
  end.
Proof. apply topological_order_spec. Qed.
