(* ===== verification/GraphValid.v ===== *)
(** * What a valid workflow graph is

    The passes of [validate_graph] against a declarative description of a well-formed graph: the
    validator reports an error exactly when the description fails. *)

From S2P Require Import Prelude RustStr BTree Contracts Diagnostics Graph GraphOrder.

Local Open Scope string_scope.

(** The text is not blank once trimmed. *)
Definition non_blank (s : string) : Prop := str_is_empty (trim s) = false.

(** What [validate_graph] promises about a graph without errors. *)
Record well_formed (graph : WorkflowGraph) : Prop := {
  wf_identity : non_blank (StableId_0 (wg_graph_id graph)) /\ wg_schema_version graph = WORKFLOW_GRAPH_SCHEMA_VERSION
                /\ wg_kind graph = WORKFLOW_GRAPH_KIND;
  wf_nodes : wg_nodes graph ≠ [] /\ NoDup (map node_name (wg_nodes graph))
             /\ (forall n, n ∈ wg_nodes graph -> non_blank (node_name n));
  wf_operations : forall n, n ∈ wg_nodes graph -> gn_node_kind n = GraphNodeKind_Operation ->
                    exists r, gn_operation_ref n = Some r /\ non_blank (RepoPath_0 r);
  wf_edges : forall e, e ∈ wg_edges graph -> edge_from e ∈ node_ids graph /\ edge_to e ∈ node_ids graph;
  wf_acyclic : acyclic graph;
  wf_verifies : forall n v, n ∈ wg_nodes graph -> v ∈ gn_verifies n -> non_blank (StableId_0 v) ->
                  StableId_0 v ∈ node_ids graph;
  wf_budgets : forall b r, b ∈ wg_budgets graph -> gb_node_id b = Some r -> non_blank (StableId_0 r) ->
                 StableId_0 r ∈ node_ids graph
}.

Lemma no_error_concat_imap {A} (f : nat -> A -> list Diagnostic) (l : list A) :
  no_error (concat (imap f l)) <-> forall i x, l !! i = Some x -> no_error (f i x).
Proof.
  split; [apply concat_imap_no_error|]. revert f. induction l as [|y l IH]; intros f Hf; [done|]. simpl.
  apply no_error_app. split; [by apply (Hf 0)|]. apply IH. intros i x Hx. by apply (Hf (S i)).
Qed.

(** An error raised under a boolean condition. *)
Lemma no_error_when (b : bool) code path message :
  no_error (if b then [Diagnostic_error code path message] else []) <-> b = false.
Proof. destruct b; [rewrite no_error_error; naive_solver | done]. Qed.

Lemma identity_no_error graph :
  no_error (validate_graph_identity graph) <->
  non_blank (StableId_0 (wg_graph_id graph)) /\ wg_schema_version graph = WORKFLOW_GRAPH_SCHEMA_VERSION
  /\ wg_kind graph = WORKFLOW_GRAPH_KIND.
Proof.
  unfold validate_graph_identity. rewrite !no_error_app, !no_error_when, !negb_false_iff, !String.eqb_eq. done.
Qed.

Definition operation_ref_missing (n : GraphNode) : bool :=
  bool_decide (gn_node_kind n = GraphNodeKind_Operation)
  && match gn_operation_ref n with
     | None => true
     | Some reference => str_is_empty (trim (RepoPath_0 reference))
     end.

Lemma operation_ref_missing_spec n :
  operation_ref_missing n = false <->
  (gn_node_kind n = GraphNodeKind_Operation -> exists r, gn_operation_ref n = Some r /\ non_blank (RepoPath_0 r)).
Proof.
  unfold operation_ref_missing, non_blank. rewrite andb_false_iff, bool_decide_eq_false.
  destruct (gn_operation_ref n) as [r|].
  - split; [|destruct (decide (gn_node_kind n = GraphNodeKind_Operation)); naive_solver].
    intros [?|?] ?; [done|]. by exists r.
  - split; [naive_solver|]. intros Hx. left. intros Hk. by destruct (Hx Hk) as (? & ? & _).
Qed.

Lemma node_no_error index node seen :
  no_error (validate_node index node seen) <->
  non_blank (node_name node) /\ node_name node ∉ seen /\ operation_ref_missing node = false.
Proof.
  unfold validate_node. rewrite !no_error_app, !no_error_when, bool_decide_eq_false. done.
Qed.

Lemma nodes_loop_no_error index nodes seen :
  no_error (validate_nodes_loop index nodes seen) <->
  NoDup (map node_name nodes)
  /\ (forall n, n ∈ nodes -> node_name n ∉ seen /\ non_blank (node_name n) /\ operation_ref_missing n = false).
Proof.
  revert index seen. induction nodes as [|n nodes IH]; intros index seen; simpl.
  { split; [|done]. intros _. split; [constructor | intros n Hn; by apply elem_of_nil in Hn]. }
  rewrite no_error_app, node_no_error, IH, NoDup_cons. split.
  - intros ((Hb & Hs & Ho) & Hnd & Hall). split; [split; [|done]|].
    + intros (k & E & Hk)%map_In_iff. destruct (Hall k Hk) as [Hx _]. apply Hx. rewrite <- E. set_solver.
    + intros k [->|Hk]%elem_of_cons; [done|]. destruct (Hall k Hk) as (Hx & ? & ?). set_solver.
  - intros ((Hn & Hnd) & Hall). destruct (Hall n) as (? & ? & ?); [by left|]. split; [done|]. split; [done|].
    intros k Hk. destruct (Hall k) as (Hs & ? & ?); [by right|]. split; [|done].
    rewrite elem_of_union, elem_of_singleton. intros [E|]; [|done]. apply Hn, map_In_iff. by exists k.
Qed.

Lemma nodes_no_error graph :
  no_error (validate_nodes graph) <->
  (wg_nodes graph ≠ [] /\ NoDup (map node_name (wg_nodes graph))
   /\ (forall n, n ∈ wg_nodes graph -> non_blank (node_name n)))
  /\ (forall n, n ∈ wg_nodes graph -> operation_ref_missing n = false).
Proof.
  unfold validate_nodes. rewrite no_error_app, nodes_loop_no_error.
  assert (no_error match wg_nodes graph with
    | [] => [Diagnostic_error DC_GraphEmptyGraph "nodes" "workflow graph must contain at least one node"]
    | _ => [] end <-> wg_nodes graph ≠ []) as ->.
  { destruct (wg_nodes graph); [rewrite no_error_error|]; naive_solver. }
  split; [|set_solver]. intros (? & ? & Hall). split; [split; [done|]; split; [done|]|];
    intros n Hn; apply (Hall n Hn).
Qed.

Lemma endpoint_no_error ids index side name :
  no_error (validate_endpoint ids index side name) <-> non_blank name /\ name ∈ ids.
Proof.
  unfold validate_endpoint, non_blank. destruct (str_is_empty _); [rewrite no_error_error; naive_solver|].
  rewrite no_error_when, negb_false_iff, bool_decide_eq_true. naive_solver.
Qed.

(** Membership in a list against lookups at every index. *)
Lemma forall_lookup {A} (P : A -> Prop) (l : list A) :
  (forall (i : nat) x, l !! i = Some x -> P x) <-> (forall x, x ∈ l -> P x).
Proof.
  split; [intros Hl x [i Hi]%list_elem_of_lookup; by apply (Hl i) |].
  intros Hl i x Hx. by apply Hl, list_elem_of_lookup_2 with i.
Qed.

Lemma edges_no_error graph :
  no_error (validate_edges graph) <->
  forall e, e ∈ wg_edges graph -> (non_blank (edge_from e) /\ edge_from e ∈ node_ids graph)
    /\ (non_blank (edge_to e) /\ edge_to e ∈ node_ids graph).
Proof.
  unfold validate_edges. rewrite no_error_concat_imap, <- forall_lookup.
  by setoid_rewrite no_error_app; setoid_rewrite endpoint_no_error.
Qed.

(** A reference that must resolve when it is not blank. *)
Lemma ref_no_error (ids : gset string) name code path message :
  no_error (if str_is_empty (trim name) then []
            else if negb (bool_decide (name ∈ ids)) then [Diagnostic_error code path message] else [])
  <-> (non_blank name -> name ∈ ids).
Proof.
  unfold non_blank. destruct (str_is_empty _); [naive_solver|].
  rewrite no_error_when, negb_false_iff, bool_decide_eq_true. naive_solver.
Qed.

Lemma verifies_no_error ids index n :
  no_error (validate_verifies ids index n) <->
  forall v, v ∈ gn_verifies n -> non_blank (StableId_0 v) -> StableId_0 v ∈ ids.
Proof.
  unfold validate_verifies. rewrite no_error_concat_imap, <- forall_lookup. by setoid_rewrite ref_no_error.
Qed.

Lemma budget_no_error ids index b :
  no_error (validate_budget_ref ids index b) <->
  forall r, gb_node_id b = Some r -> non_blank (StableId_0 r) -> StableId_0 r ∈ ids.
Proof.
  unfold validate_budget_ref. destruct (gb_node_id b) as [r|]; [|naive_solver].
  rewrite ref_no_error. naive_solver.
Qed.

Lemma edge_kind_no_error nodes index e : no_error (validate_edge_kind nodes index e).
Proof.
  unfold validate_edge_kind. case_bool_decide; [done|]. destruct (nodes !! _); [|done].
  case_bool_decide; [|done]. by apply no_error_warning.
Qed.

Lemma references_no_error graph :
  no_error (validate_node_references graph) <->
  (forall n v, n ∈ wg_nodes graph -> v ∈ gn_verifies n -> non_blank (StableId_0 v) -> StableId_0 v ∈ node_ids graph)
  /\ (forall b r, b ∈ wg_budgets graph -> gb_node_id b = Some r -> non_blank (StableId_0 r) ->
        StableId_0 r ∈ node_ids graph).
Proof.
  unfold validate_node_references. rewrite !no_error_app, !no_error_concat_imap.
  setoid_rewrite verifies_no_error. setoid_rewrite budget_no_error.
  rewrite !forall_lookup. split; [naive_solver|]. intros [H1 H2]. split; [naive_solver|]. split; [naive_solver|].
  intros i e _. apply edge_kind_no_error.
Qed.

Lemma cycles_no_error graph :
  wg_nodes graph ≠ [] -> no_error (validate_cycles graph) <-> acyclic graph.
Proof.
  intros Hne. destruct (topological_order_spec graph) as [_ Hs]. unfold validate_cycles.
  destruct (wg_nodes graph); [done|]. destruct (topological_order_if_acyclic graph) as [order|].
  - destruct Hs as [Ha _]. split; [intros _; exact Ha | done].
  - rewrite no_error_error. split; [done | intros Ha; by apply Hs].
Qed.

(** C36: the validator is sound and complete: it reports no error exactly on the well-formed graphs
    (a non-blank identity of the supported version, distinct non-blank node ids, operation nodes
    with a reference, edges, verified nodes and budgets that resolve, and no cycle). *)
Theorem validate_graph_exact graph :
  has_errors (gvr_report (validate_graph graph)) = false <-> well_formed graph.
Proof.
  unfold has_errors. simpl. change (existsb is_error ?l = false) with (no_error l).
  rewrite !no_error_app, identity_no_error, nodes_no_error, edges_no_error, references_no_error. split.
  - intros (Hi & (Hn & Ho) & He & Hc & Hv & Hb). apply cycles_no_error in Hc; [|by destruct Hn].
    split; [done|done| |naive_solver|done|done|done].
    intros n Hin. apply operation_ref_missing_spec. by apply Ho.
  - intros [Hi Hn Ho He Hc Hv Hb]. split; [done|]. split.
    { split; [done|]. intros n Hin. by apply operation_ref_missing_spec, Ho. }
    assert (forall x, x ∈ node_ids graph -> non_blank x) as Hnb.
    { intros x (n & Hx & <-)%elem_of_node_ids. by apply (proj2 (proj2 Hn)). }
    split; [intros e [? ?]%He; auto|]. split; [apply cycles_no_error; [by destruct Hn|done]|]. done.
Qed.
