(* ===== verification/GraphRun.v ===== *)
(** * Dry run of a workflow graph

    The second half of [forge-core-graph/src/lib.rs]: the upstream verifiers that block a mutation,
    the step computed for every node, and [dry_run_graph_with_context]. *)

From S2P Require Import Prelude RustStr BTree Contracts Diagnostics Graph GraphOrder.

Local Open Scope string_scope.

(** ** Data *)

Inductive GraphDryRunStatus := GraphDryRunStatus_Planned | GraphDryRunStatus_Blocked | GraphDryRunStatus_Invalid.
Inductive GraphDryRunStepStatus := GraphDryRunStepStatus_Planned | GraphDryRunStepStatus_Blocked.
Inductive GraphDryRunReason :=
| TopologicalOrder | BlockedByVerifier | OperationContractMissing | OperationContractInvalid
| OperationNotReady | ClaimPreflightBlocked.
Inductive GraphMutationSource := GraphDeclaration | OperationContract.
Inductive GraphOperationStatus :=
| GraphOperationStatus_Ready | GraphOperationStatus_SafeReadOnly | GraphOperationStatus_NotReady
| GraphOperationStatus_Missing | GraphOperationStatus_Invalid.
Inductive GraphClaimPreflightStatus := GraphClaimPreflightStatus_Passed | GraphClaimPreflightStatus_Blocked.

#[export] Instance GraphClaimPreflightStatus_eq_dec : EqDecision GraphClaimPreflightStatus.
Proof. solve_decision. Defined.

Record GraphClaimPreflightBlock := {
  gpb_blocked_path : RepoPath;
  gpb_blocking_claim_id : string;
  gpb_claimant : StableId;
  gpb_conflict_code : string
}.

Record GraphClaimPreflightEvaluation := {
  gpe_status : GraphClaimPreflightStatus;
  gpe_agent_id : option StableId;
  gpe_targets : list RepoPath;
  gpe_governed_by_self : list RepoPath;
  gpe_ungoverned : list RepoPath;
  gpe_blocks : list GraphClaimPreflightBlock;
  gpe_reasons : list string
}.

Record GraphOperationEvaluation := {
  goe_operation_ref : RepoPath;
  goe_contract_id : option StableId;
  goe_mutation_capable : bool;
  goe_runtime_ready : bool;
  goe_plan_allowed : bool;
  goe_status : GraphOperationStatus;
  goe_preview_status : option string;
  goe_ready_status : option string;
  goe_blocking_reasons : list string;
  goe_claim_preflight : option GraphClaimPreflightEvaluation;
  goe_touched_refs : list RepoPath
}.

Record GraphDryRunStep := {
  gs_step_index : nat;
  gs_node_id : StableId;
  gs_node_kind : GraphNodeKind;
  gs_operation_ref : option RepoPath;
  gs_declared_mutation_capable : bool;
  gs_mutation_capable : bool;
  gs_mutation_source : GraphMutationSource;
  gs_operation_contract_id : option StableId;
  gs_operation_status : option GraphOperationStatus;
  gs_operation_preview_status : option string;
  gs_operation_ready_status : option string;
  gs_operation_runtime_ready : option bool;
  gs_operation_plan_allowed : option bool;
  gs_operation_blocking_reasons : list string;
  gs_operation_touched_refs : list RepoPath;
  gs_claim_preflight : option GraphClaimPreflightEvaluation;
  gs_status : GraphDryRunStepStatus;
  gs_reasons : list GraphDryRunReason;
  gs_blocked_by : list StableId
}.

Record GraphDryRunReport := {
  gr_graph_id : StableId;
  gr_status : GraphDryRunStatus;
  gr_steps : list GraphDryRunStep;
  gr_diagnostics : list Diagnostic;
  gr_blocked_node_count : nat
}.

Record GraphDryRunContext := {
  gc_operation_evaluations : list GraphOperationEvaluation;
  gc_require_operation_contracts : bool
}.

Definition GraphDryRunContext_empty : GraphDryRunContext :=
  {| gc_operation_evaluations := []; gc_require_operation_contracts := false |}.

(** ** Upstream verifiers *)

Definition incoming_edges_by_target (graph : WorkflowGraph) : gmap string (list string) :=
  (fun sources => dedup (sort_strings sources)) <$>
  foldl (fun incoming edge =>
    <[edge_to edge := (default [] (incoming !! edge_to edge) ++ [edge_from edge])%list]> incoming) ∅ (wg_edges graph).

Definition is_unpassed_verifier (node : GraphNode) : bool :=
  bool_decide (gn_node_kind node = GraphNodeKind_Verifier)
  && bool_decide (gn_verifier_result node ≠ Some GraphVerifierResult_Passed).

(** [incoming.get(node_id)]. *)
Definition parents (incoming : gmap string (list string)) (node_id : string) : list string :=
  default [] (incoming !! node_id).

(** The traversal; the stack has its top first, [None] is running out of fuel. *)
Fixpoint upstream_loop (fuel : nat) (nodes : gmap string GraphNode) (incoming : gmap string (list string))
    (stack : list string) (visited blockers : gset string) : option (gset string) :=
  match fuel with
  | 0 => None
  | S fuel =>
      match stack with
      | [] => Some blockers
      | node_id :: stack =>
          if bool_decide (node_id ∈ visited) then upstream_loop fuel nodes incoming stack visited blockers
          else
            let blockers := match nodes !! node_id with
                            | Some node => if is_unpassed_verifier node
                                           then {[node_name node]} ∪ blockers else blockers
                            | None => blockers
                            end in
            upstream_loop fuel nodes incoming
              (foldl (fun stack parent => parent :: stack) stack (rev (parents incoming node_id)))
              ({[node_id]} ∪ visited) blockers
      end
  end.

(** Parents still to be pushed: what bounds the number of rounds. *)
Definition pending_parents (incoming : gmap string (list string)) (visited : gset string) : nat :=
  sum_list (map (fun k => if bool_decide (k ∈ visited) then 0 else length (parents incoming k)) (map_keys incoming)).

Definition unpassed_upstream_verifiers (graph : WorkflowGraph) (target_id : string) : list StableId :=
  let nodes := nodes_by_id graph in
  let incoming := incoming_edges_by_target graph in
  let stack := rev (rev (sort_strings (parents incoming target_id))) in
  let fuel := S (length stack + pending_parents incoming ∅) in
  map mk_StableId (set_iter (default ∅ (upstream_loop fuel nodes incoming stack ∅ ∅))).

(** ** Steps *)

Definition operation_block_reason (node : GraphNode) (operation_evaluation : option GraphOperationEvaluation)
    (require_operation_contracts : bool) : option GraphDryRunReason :=
  if bool_decide (gn_node_kind node ≠ GraphNodeKind_Operation) then None else
  match operation_evaluation with
  | None => if require_operation_contracts then Some OperationContractMissing else None
  | Some evaluation =>
      match goe_status evaluation with
      | GraphOperationStatus_Missing => Some OperationContractMissing
      | GraphOperationStatus_Invalid => Some OperationContractInvalid
      | GraphOperationStatus_NotReady => Some OperationNotReady
      | GraphOperationStatus_Ready | GraphOperationStatus_SafeReadOnly => None
      end
  end.

Definition dry_run_step_reasons (operation_block_reason : option GraphDryRunReason)
    (claim_preflight_blocked : bool) (blocked_by : list StableId) : list GraphDryRunReason :=
  let reasons := ((match operation_block_reason with Some reason => [reason] | None => [] end)
                  ++ (if claim_preflight_blocked then [ClaimPreflightBlocked] else [])
                  ++ (match blocked_by with [] => [] | _ => [BlockedByVerifier] end))%list in
  match reasons with [] => [TopologicalOrder] | _ => reasons end.

Definition effective_mutation_capable (node : GraphNode) (operation_evaluation : option GraphOperationEvaluation)
    : bool :=
  match operation_evaluation with Some evaluation => goe_mutation_capable evaluation
                                | None => gn_mutation_capable node end.

Definition preflight_blocked (operation_evaluation : option GraphOperationEvaluation) : bool :=
  match operation_evaluation with
  | Some evaluation => match goe_claim_preflight evaluation with
                       | Some preflight => bool_decide (gpe_status preflight = GraphClaimPreflightStatus_Blocked)
                       | None => false
                       end
  | None => false
  end.

(** [StepComputation]: whether the step is blocked, and the step. *)
Definition dry_run_step (graph : WorkflowGraph) (node : GraphNode) (node_id : StableId) (step_index : nat)
    (operation_evaluation : option GraphOperationEvaluation) (require_operation_contracts : bool)
    : bool * GraphDryRunStep :=
  let mutation_capable := effective_mutation_capable node operation_evaluation in
  let mutation_source := match operation_evaluation with Some _ => OperationContract | None => GraphDeclaration end in
  let block_reason := operation_block_reason node operation_evaluation require_operation_contracts in
  let claim_preflight_blocked := preflight_blocked operation_evaluation in
  let blocked_by := if bool_decide (gn_node_kind node = GraphNodeKind_Operation) && mutation_capable
                    then unpassed_upstream_verifiers graph (StableId_0 node_id) else [] in
  let blocked := (match block_reason with Some _ => true | None => false end)
                 || claim_preflight_blocked || negb (bool_decide (blocked_by = [])) in
  (blocked, {|
    gs_step_index := step_index; gs_node_id := node_id; gs_node_kind := gn_node_kind node;
    gs_operation_ref := gn_operation_ref node;
    gs_declared_mutation_capable := gn_mutation_capable node;
    gs_mutation_capable := mutation_capable; gs_mutation_source := mutation_source;
    gs_operation_contract_id := operation_evaluation ≫= goe_contract_id;
    gs_operation_status := goe_status <$> operation_evaluation;
    gs_operation_preview_status := operation_evaluation ≫= goe_preview_status;
    gs_operation_ready_status := operation_evaluation ≫= goe_ready_status;
    gs_operation_runtime_ready := goe_runtime_ready <$> operation_evaluation;
    gs_operation_plan_allowed := goe_plan_allowed <$> operation_evaluation;
    gs_operation_blocking_reasons := default [] (goe_blocking_reasons <$> operation_evaluation);
    gs_operation_touched_refs := default [] (goe_touched_refs <$> operation_evaluation);
    gs_claim_preflight := operation_evaluation ≫= goe_claim_preflight;
    gs_status := if blocked then GraphDryRunStepStatus_Blocked else GraphDryRunStepStatus_Planned;
    gs_reasons := dry_run_step_reasons block_reason claim_preflight_blocked blocked_by;
    gs_blocked_by := blocked_by |}).

(** ** Diagnostics of a run *)

(** [entry(ref).or_insert(evaluation)]: the first evaluation of a reference wins. *)
Definition operation_evaluations_by_ref (evaluations : list GraphOperationEvaluation)
    : gmap string GraphOperationEvaluation :=
  foldl (fun by_ref evaluation =>
    match by_ref !! RepoPath_0 (goe_operation_ref evaluation) with
    | Some _ => by_ref
    | None => <[RepoPath_0 (goe_operation_ref evaluation) := evaluation]> by_ref
    end) ∅ evaluations.

Definition evaluation_diagnostics (seen : gset string) (evaluation : GraphOperationEvaluation) : list Diagnostic :=
  let reference := RepoPath_0 (goe_operation_ref evaluation) in
  let path := "operation_ref." +:+ reference in
  ((if bool_decide (reference ∈ seen)
    then [Diagnostic_error DC_GraphDuplicateOperationEvaluation path
            ("operation_ref " +:+ reference +:+ " was evaluated more than once")] else [])
   ++ match goe_status evaluation with
      | GraphOperationStatus_Missing =>
          [Diagnostic_error DC_GraphMissingOperationContract path
             ("operation_ref " +:+ reference +:+ " could not be read")]
      | GraphOperationStatus_Invalid =>
          [Diagnostic_error DC_GraphInvalidOperationContract path
             ("operation_ref " +:+ reference +:+ " could not be parsed or evaluated")]
      | GraphOperationStatus_NotReady =>
          [Diagnostic_error DC_GraphOperationNotReady path
             ("operation_ref " +:+ reference +:+ " is not ready for graph planning")]
      | GraphOperationStatus_Ready | GraphOperationStatus_SafeReadOnly => []
      end)%list.

Fixpoint operation_evaluation_diagnostics_loop (evaluations : list GraphOperationEvaluation) (seen : gset string)
    : list Diagnostic :=
  match evaluations with
  | [] => []
  | evaluation :: rest =>
      (evaluation_diagnostics seen evaluation
       ++ operation_evaluation_diagnostics_loop rest ({[RepoPath_0 (goe_operation_ref evaluation)]} ∪ seen))%list
  end.

Definition operation_evaluation_diagnostics (evaluations : list GraphOperationEvaluation) : list Diagnostic :=
  operation_evaluation_diagnostics_loop evaluations ∅.

Definition missing_operation_diagnostic (node : GraphNode) (operation_evaluation : option GraphOperationEvaluation)
    (require_operation_contracts : bool) : list Diagnostic :=
  if negb require_operation_contracts || bool_decide (gn_node_kind node ≠ GraphNodeKind_Operation) then [] else
  match operation_evaluation with
  | Some _ => []
  | None =>
      match gn_operation_ref node with
      | None => []
      | Some reference =>
          [Diagnostic_error DC_GraphMissingOperationContract ("nodes." +:+ node_name node +:+ ".operation_ref")
             ("operation node " +:+ node_name node +:+ " requires operation_ref " +:+ RepoPath_0 reference
              +:+ " to be loaded before dry-run")]
      end
  end.

Definition mutation_declaration_diagnostic (node : GraphNode)
    (operation_evaluation : option GraphOperationEvaluation) : list Diagnostic :=
  match operation_evaluation with
  | None => []
  | Some evaluation =>
      if bool_decide (gn_node_kind node ≠ GraphNodeKind_Operation)
         || Bool.eqb (gn_mutation_capable node) (goe_mutation_capable evaluation) then []
      else [Diagnostic_warning DC_GraphOperationMutationDeclarationMismatch
              ("nodes." +:+ node_name node +:+ ".mutation_capable")
              ("operation node " +:+ node_name node +:+ " declared mutation_capable="
               +:+ fmt_bool (gn_mutation_capable node) +:+ ", but OperationContract "
               +:+ RepoPath_0 (goe_operation_ref evaluation) +:+ " derives mutation_capable="
               +:+ fmt_bool (goe_mutation_capable evaluation))]
  end.

Definition claim_preflight_diagnostic (node : GraphNode)
    (operation_evaluation : option GraphOperationEvaluation) : list Diagnostic :=
  match operation_evaluation ≫= goe_claim_preflight with
  | None => []
  | Some preflight =>
      if bool_decide (gn_node_kind node ≠ GraphNodeKind_Operation)
         || bool_decide (gpe_status preflight ≠ GraphClaimPreflightStatus_Blocked) then []
      else [Diagnostic_error DC_GraphClaimPreflightBlocked ("nodes." +:+ node_name node +:+ ".claim_preflight")
              ("operation node " +:+ node_name node +:+ " failed claim preflight for "
               +:+ fmt_nat (length (gpe_targets preflight)) +:+ " target(s)")]
  end.

(** ** The run *)

(** The locals the main loop updates: diagnostics, blocked count, steps. *)
Definition run_node (graph : WorkflowGraph) (context : GraphDryRunContext)
    (acc : list Diagnostic * nat * list GraphDryRunStep) (item : nat * StableId)
    : list Diagnostic * nat * list GraphDryRunStep :=
  let '(diagnostics, blocked_node_count, steps) := acc in
  let '(step_index, node_id) := item in
  match nodes_by_id graph !! StableId_0 node_id with
  | None => acc
  | Some node =>
      let operation_evaluation :=
        gn_operation_ref node ≫=
          (fun reference => operation_evaluations_by_ref (gc_operation_evaluations context) !! RepoPath_0 reference) in
      let diagnostics := (diagnostics ++ mutation_declaration_diagnostic node operation_evaluation
                          ++ claim_preflight_diagnostic node operation_evaluation
                          ++ missing_operation_diagnostic node operation_evaluation
                               (gc_require_operation_contracts context))%list in
      let '(blocked, step) := dry_run_step graph node node_id step_index operation_evaluation
                                (gc_require_operation_contracts context) in
      (diagnostics, if blocked then S blocked_node_count else blocked_node_count, (steps ++ [step])%list)
  end.

Definition dry_run_graph_with_context (graph : WorkflowGraph) (context : GraphDryRunContext) : GraphDryRunReport :=
  let validation := validate_graph graph in
  if has_errors (gvr_report validation) then
    {| gr_graph_id := wg_graph_id graph; gr_status := GraphDryRunStatus_Invalid; gr_steps := [];
       gr_diagnostics := vr_diagnostics (gvr_report validation); gr_blocked_node_count := 0 |}
  else
    let diagnostics := (vr_diagnostics (gvr_report validation)
                        ++ operation_evaluation_diagnostics (gc_operation_evaluations context))%list in
    let '(diagnostics, blocked_node_count, steps) :=
      foldl (run_node graph context) (diagnostics, 0, []) (imap pair (topological_order graph)) in
    {| gr_graph_id := wg_graph_id graph;
       gr_status := if bool_decide (blocked_node_count = 0) && negb (existsb is_error diagnostics)
                    then GraphDryRunStatus_Planned else GraphDryRunStatus_Blocked;
       gr_steps := steps; gr_diagnostics := diagnostics; gr_blocked_node_count := blocked_node_count |}.

Definition dry_run_graph (graph : WorkflowGraph) : GraphDryRunReport :=
  dry_run_graph_with_context graph GraphDryRunContext_empty.

(** ** Ancestors *)

(** Any edge of the document. *)
Definition raw_edge (graph : WorkflowGraph) (x y : string) : Prop :=
  exists e, e ∈ wg_edges graph /\ edge_from e = x /\ edge_to e = y.

Lemma incoming_spec graph x y :
  x ∈ parents (incoming_edges_by_target graph) y <-> raw_edge graph x y.
Proof.
  unfold parents, incoming_edges_by_target. rewrite lookup_fmap.
  set (step := fun incoming edge => _).
  assert (forall edges m, x ∈ default [] (foldl step m edges !! y) <->
    x ∈ default [] (m !! y) \/ exists e, e ∈ edges /\ edge_from e = x /\ edge_to e = y) as Hf.
  { induction edges as [|e edges IH]; intros m; simpl.
    - split; [by left|]. intros [?|(e & He & _)]; [done | by apply elem_of_nil in He].
    - rewrite IH. unfold step at 1. destruct (decide (edge_to e = y)) as [<-|Hne].
      + rewrite lookup_insert_eq. simpl. rewrite elem_of_app, list_elem_of_singleton.
        setoid_rewrite elem_of_cons. naive_solver.
      + rewrite lookup_insert_ne by done. setoid_rewrite elem_of_cons. naive_solver. }
  specialize (Hf (wg_edges graph) ∅). rewrite lookup_empty in Hf. simpl in Hf. unfold raw_edge.
  destruct (foldl step ∅ (wg_edges graph) !! y) as [l|]; simpl in *.
  - rewrite elem_of_dedup, elem_of_sort_strings, Hf. set_solver.
  - rewrite Hf. set_solver.
Qed.

(** The traversal has seen the ancestors reachable through [visited], and the stack is what is left. *)
Record upstream_inv (graph : WorkflowGraph) (target : string) (stack : list string) (visited blockers : gset string)
    : Prop := {
  ui_sound x : x ∈ visited \/ x ∈ stack -> tc (raw_edge graph) x target;
  ui_start x : raw_edge graph x target -> x ∈ visited \/ x ∈ stack;
  ui_closed x y : y ∈ visited -> raw_edge graph x y -> x ∈ visited \/ x ∈ stack;
  ui_blockers b : b ∈ blockers <-> exists k n, k ∈ visited /\ nodes_by_id graph !! k = Some n
                                  /\ is_unpassed_verifier n = true /\ node_name n = b
}.

Lemma foldl_push (stack l : list string) : foldl (fun s p => p :: s) stack (rev l) = (l ++ stack)%list.
Proof.
  revert stack. induction l as [|x l IH]; intros stack; simpl; [done|].
  rewrite foldl_app, IH. done.
Qed.

Lemma pending_visit incoming visited k :
  k ∉ visited -> length (parents incoming k) + pending_parents incoming ({[k]} ∪ visited) = pending_parents incoming visited.
Proof.
  intros Hk. unfold pending_parents. pose proof (NoDup_map_keys incoming) as Hnd.
  assert (k ∉ map_keys incoming -> parents incoming k = []) as Hout.
  { rewrite elem_of_map_keys, <- eq_None_not_Some. unfold parents. by intros ->. }
  assert (forall l, NoDup l -> k ∉ l ->
    sum_list (map (fun j => if bool_decide (j ∈ {[k]} ∪ visited) then 0 else length (parents incoming j)) l)
    = sum_list (map (fun j => if bool_decide (j ∈ visited) then 0 else length (parents incoming j)) l)) as Hsame.
  { intros l _ Hl. induction l as [|j l IH]; simpl; [done|]. rewrite IH by set_solver. f_equal.
    destruct (decide (j ∈ visited)); [rewrite !bool_decide_eq_true_2 by set_solver; done|].
    rewrite !bool_decide_eq_false_2 by set_solver. done. }
  destruct (decide (k ∈ map_keys incoming)) as [Hin|Hnin].
  - clear Hout. induction (map_keys incoming) as [|j l IH]; [by apply elem_of_nil in Hin|]. simpl.
    apply NoDup_cons in Hnd as [Hj Hnd]. apply elem_of_cons in Hin as [->|Hin].
    + rewrite Hsame by done. rewrite bool_decide_eq_true_2 by set_solver. rewrite bool_decide_eq_false_2 by done. lia.
    + specialize (IH Hnd Hin). assert (j ≠ k) by (intros ->; done).
      rewrite (bool_decide_ext (j ∈ {[k]} ∪ visited) (j ∈ visited)) by set_solver.
      destruct (bool_decide (j ∈ visited)); lia.
  - rewrite (Hout Hnin), Hsame by done. done.
Qed.

Lemma upstream_loop_ok graph target fuel stack visited blockers :
  let incoming := incoming_edges_by_target graph in
  upstream_inv graph target stack visited blockers ->
  length stack + pending_parents incoming visited < fuel ->
  exists visited' blockers', upstream_loop fuel (nodes_by_id graph) incoming stack visited blockers = Some blockers'
    /\ upstream_inv graph target [] visited' blockers'.
Proof.
  intros incoming. revert stack visited blockers.
  induction fuel as [|fuel IH]; intros stack visited blockers Hi Hf; [lia|].
  destruct stack as [|k stack]; simpl; [by eauto|]. pose proof Hi as [Hs Hst Hc Hb].
  case_bool_decide as Hk.
  - apply IH; [|simpl in Hf; lia]. split; [naive_solver set_solver| | |done].
    + intros x Hx. apply Hst in Hx. set_solver.
    + intros x y Hy Hxy. destruct (Hc x y Hy Hxy) as [?|Hin]; [by left|]. set_solver.
  - rewrite foldl_push. apply IH.
    + split.
      * intros x Hx. assert (x ∈ visited \/ x = k \/ x ∈ parents incoming k \/ x ∈ stack) as Hx' by set_solver.
        destruct Hx' as [?|[->|[Hp|?]]]; [apply Hs; set_solver..| |apply Hs; set_solver].
        apply incoming_spec in Hp. eapply tc_l; [exact Hp|]. apply Hs. set_solver.
      * intros x Hx. apply Hst in Hx. set_solver.
      * intros x y Hy Hxy. apply elem_of_union in Hy as [->%elem_of_singleton|Hy].
        -- apply incoming_spec in Hxy. set_solver.
        -- destruct (Hc x y Hy Hxy) as [?|Hin]; set_solver.
      * intros b. destruct (nodes_by_id graph !! k) as [n|] eqn:Hn.
        -- destruct (is_unpassed_verifier n) eqn:Hv.
           ++ rewrite elem_of_union, elem_of_singleton, Hb. split.
              ** intros [->|(j & m & Hj & Hrest)]; [exists k, n | exists j, m]; set_solver.
              ** intros (j & m & Hj & Hm & Hu & Hname). apply elem_of_union in Hj as [->%elem_of_singleton|Hj];
                   [left; congruence | right; by exists j, m].
           ++ rewrite Hb. split; intros (j & m & Hj & Hm & Hu & Hname); exists j, m; [set_solver|].
              apply elem_of_union in Hj as [->%elem_of_singleton|Hj]; [congruence | done].
        -- rewrite Hb. split; intros (j & m & Hj & Hm & Hu & Hname); exists j, m; [set_solver|].
           apply elem_of_union in Hj as [->%elem_of_singleton|Hj]; [congruence | done].
    + rewrite length_app. pose proof (pending_visit incoming visited k Hk). simpl in Hf. lia.
Qed.

(** An unpassed verifier upstream of the target. *)
Definition upstream_blocker (graph : WorkflowGraph) (target b : string) : Prop :=
  exists k n, tc (raw_edge graph) k target /\ nodes_by_id graph !! k = Some n
              /\ is_unpassed_verifier n = true /\ node_name n = b.

Lemma upstream_inv_done graph target visited blockers b :
  upstream_inv graph target [] visited blockers -> b ∈ blockers <-> upstream_blocker graph target b.
Proof.
  intros [Hs Hst Hc Hb]. rewrite Hb. unfold upstream_blocker.
  assert (forall x, x ∈ visited <-> tc (raw_edge graph) x target) as Hv; [|naive_solver].
  intros x. split; [intros Hx; apply Hs; by left|]. intros Htc.
  assert (forall u v, tc (raw_edge graph) u v -> v = target -> u ∈ visited) as Hgen; [|by eapply Hgen].
  induction 1 as [u v Huv|u v w Huv _ IH]; intros ->.
  - apply Hst in Huv. set_solver.
  - specialize (IH eq_refl). destruct (Hc u v IH Huv); set_solver.
Qed.

Lemma unpassed_upstream_spec graph target :
  (forall b, mk_StableId b ∈ unpassed_upstream_verifiers graph target <-> upstream_blocker graph target b)
  /\ NoDup (unpassed_upstream_verifiers graph target)
  /\ Sorted String.le (map StableId_0 (unpassed_upstream_verifiers graph target)).
Proof.
  unfold unpassed_upstream_verifiers. rewrite rev_involutive.
  set (incoming := incoming_edges_by_target graph). set (stack := sort_strings (parents incoming target)).
  assert (forall x, x ∈ stack <-> raw_edge graph x target) as Hstack.
  { intros x. unfold stack. rewrite elem_of_sort_strings. apply incoming_spec. }
  destruct (upstream_loop_ok graph target (S (length stack + pending_parents incoming ∅)) stack ∅ ∅)
    as (visited & blockers & E & Hi); [|unfold incoming; lia|].
  - split.
    + intros x [?|Hx%Hstack]; [set_solver | by apply tc_once].
    + intros x Hx%Hstack. by right.
    + intros x y Hy. set_solver.
    + intros b. split; [set_solver|]. intros (k & n & Hk & _). set_solver.
  - fold incoming in E. rewrite E. simpl. split; [|split].
    + intros b. rewrite map_In_iff. setoid_rewrite elem_of_set_iter.
      rewrite <- (upstream_inv_done graph target visited blockers b Hi). naive_solver.
    + apply NoDup_fmap_2; [by intros x y [= ->] | apply NoDup_set_iter].
    + rewrite map_map. simpl. rewrite map_id. apply set_iter_sorted.
Qed.

(** ** Runs of valid graphs *)

Definition valid (graph : WorkflowGraph) : Prop := has_errors (gvr_report (validate_graph graph)) = false.

(** What a report without errors guarantees of the graph. *)
Lemma valid_graph graph :
  valid graph ->
  NoDup (map node_name (wg_nodes graph))
  /\ (forall e, e ∈ wg_edges graph -> edge_from e ∈ node_ids graph /\ edge_to e ∈ node_ids graph)
  /\ (wg_nodes graph ≠ []) /\ exists order, topological_order_if_acyclic graph = Some order.
Proof.
  unfold valid, has_errors. simpl. intros Hv. change (existsb is_error ?l = false) with (no_error l) in Hv.
  rewrite !no_error_app in Hv. destruct Hv as (_ & Hn & He & Hc & _).
  unfold validate_nodes in Hn. apply no_error_app in Hn as [Hne Hn].
  apply validate_nodes_loop_no_error in Hn as [Hnd _].
  split; [done|]. split; [intros e; by apply validate_edges_no_error|].
  destruct (wg_nodes graph) as [|n ns] eqn:Hg; [by apply no_error_error in Hne|]. split; [done|].
  unfold validate_cycles in Hc. rewrite Hg in Hc.
  destruct (topological_order_if_acyclic graph); [by eexists | by apply no_error_error in Hc].
Qed.

Lemma topological_order_nodes graph node_id :
  valid graph -> node_id ∈ topological_order graph ->
  exists n, nodes_by_id graph !! StableId_0 node_id = Some n /\ n ∈ wg_nodes graph /\ gn_node_id n = node_id.
Proof.
  intros Hv Hin. destruct (valid_graph graph Hv) as (Hnd & _ & _ & order & Ho).
  destruct (topological_order_spec graph) as [_ Ht]. unfold topological_order in Hin. rewrite Ho in *. simpl in Hin.
  destruct Ht as (_ & _ & Hall & _). destruct node_id as [x]. apply Hall, elem_of_node_ids in Hin as (n & Hn & Hx).
  exists n. split; [by apply nodes_by_id_spec|]. split; [done|]. destruct (gn_node_id n) as [y] eqn:Ey.
  unfold node_name in Hx. rewrite Ey in Hx. simpl in Hx. congruence.
Qed.

Definition node_evaluation (context : GraphDryRunContext) (node : GraphNode) : option GraphOperationEvaluation :=
  gn_operation_ref node ≫=
    (fun reference => operation_evaluations_by_ref (gc_operation_evaluations context) !! RepoPath_0 reference).

Definition step_of (graph : WorkflowGraph) (context : GraphDryRunContext) (node : GraphNode) (index : nat)
    : bool * GraphDryRunStep :=
  dry_run_step graph node (gn_node_id node) index (node_evaluation context node) (gc_require_operation_contracts context).

Definition step_blocked (s : GraphDryRunStep) : bool :=
  match gs_status s with GraphDryRunStepStatus_Blocked => true | GraphDryRunStepStatus_Planned => false end.

Lemma step_of_blocked graph context node index :
  step_blocked (step_of graph context node index).2 = (step_of graph context node index).1.
Proof. unfold step_of, dry_run_step, step_blocked. simpl. by destruct (_ || _ || _). Qed.

(** The fold over the order: one step per node, in order, and the count of the blocked ones. *)
Lemma run_nodes graph context ids :
  (forall id, id ∈ ids -> exists n, nodes_by_id graph !! StableId_0 id = Some n /\ gn_node_id n = id) ->
  forall k ds count steps,
  exists ds' new,
    foldl (run_node graph context) (ds, count, steps) (imap (fun i x => (k + i, x)) ids)
    = ((ds ++ ds')%list, count + length (List.filter step_blocked new), (steps ++ new)%list)
    /\ Forall2 (fun '(i, id) s => exists n, nodes_by_id graph !! StableId_0 id = Some n /\ gn_node_id n = id
                                    /\ s = (step_of graph context n i).2) (imap (fun i x => (k + i, x)) ids) new.
Proof.
  induction ids as [|id ids IH]; intros Hids k ds count steps.
  { exists [], []. simpl. rewrite !app_nil_r, Nat.add_0_r. by split; [|constructor]. }
  destruct (Hids id) as (n & Hn & Hid); [by left|]. cbn [imap foldl].
  assert (imap ((fun (i : nat) (x : StableId) => (k + i, x)) ∘ S) ids = imap (fun i x => (S k + i, x)) ids) as ->.
  { apply imap_ext. intros i x _. simpl. f_equal. lia. }
  unfold run_node at 2. rewrite Hn, Nat.add_0_r. fold (node_evaluation context n).
  assert (dry_run_step graph n id k (node_evaluation context n) (gc_require_operation_contracts context)
          = step_of graph context n k) as -> by (unfold step_of; by rewrite Hid).
  pose proof (step_of_blocked graph context n k) as Hb.
  destruct (step_of graph context n k) as [b s] eqn:Es. simpl in Hb.
  destruct (IH (fun i Hi => Hids i (list_elem_of_further _ _ _ Hi)) (S k)
    (ds ++ mutation_declaration_diagnostic n (node_evaluation context n)
        ++ claim_preflight_diagnostic n (node_evaluation context n)
        ++ missing_operation_diagnostic n (node_evaluation context n) (gc_require_operation_contracts context))%list
    (if b then S count else count) (steps ++ [s])%list) as (ds' & new & E & HF).
  exists ((mutation_declaration_diagnostic n (node_evaluation context n)
        ++ claim_preflight_diagnostic n (node_evaluation context n)
        ++ missing_operation_diagnostic n (node_evaluation context n) (gc_require_operation_contracts context)) ++ ds')%list,
    (s :: new). split.
  - rewrite E, <- !app_assoc. simpl. rewrite Hb. destruct b; simpl; [|done]. by rewrite Nat.add_succ_r.
  - constructor; [|done]. exists n. by rewrite Es.
Qed.

(** The report of a valid graph. *)
Lemma dry_run_valid graph context :
  valid graph ->
  let r := dry_run_graph_with_context graph context in
  Forall2 (fun '(i, id) s => exists n, nodes_by_id graph !! StableId_0 id = Some n /\ gn_node_id n = id
                                /\ s = (step_of graph context n i).2) (imap pair (topological_order graph)) (gr_steps r)
  /\ gr_blocked_node_count r = length (List.filter step_blocked (gr_steps r))
  /\ gr_status r = (if bool_decide (gr_blocked_node_count r = 0) && negb (existsb is_error (gr_diagnostics r))
                    then GraphDryRunStatus_Planned else GraphDryRunStatus_Blocked).
Proof.
  intros Hv r. unfold r, dry_run_graph_with_context. rewrite Hv.
  destruct (run_nodes graph context (topological_order graph)) with (k := 0)
    (ds := (vr_diagnostics (gvr_report (validate_graph graph))
            ++ operation_evaluation_diagnostics (gc_operation_evaluations context))%list)
    (count := 0) (steps := @nil GraphDryRunStep) as (ds' & new & E & HF).
  { intros id Hid. destruct (topological_order_nodes graph id Hv Hid) as (n & ? & _ & ?). by exists n. }
  change (imap (fun i x => (0 + i, x)) (topological_order graph)) with (imap pair (topological_order graph)) in E, HF.
  rewrite E. simpl. by split.
Qed.

(** Position [i] of the plan: the node there, and its step. *)
Lemma dry_run_lookup graph context i s :
  valid graph -> gr_steps (dry_run_graph_with_context graph context) !! i = Some s ->
  exists n, n ∈ wg_nodes graph /\ topological_order graph !! i = Some (gn_node_id n)
    /\ nodes_by_id graph !! node_name n = Some n /\ s = (step_of graph context n i).2.
Proof.
  intros Hv Hs. destruct (dry_run_valid graph context Hv) as [HF _].
  destruct (Forall2_lookup_r _ _ _ _ _ HF Hs) as ([j id] & Hj & n & Hn & Hid & ->).
  rewrite list_lookup_imap in Hj. destruct (topological_order graph !! i) as [id'|] eqn:Hi; [|done]. simplify_eq/=.
  destruct (topological_order_nodes graph (gn_node_id n) Hv) as (m & Hm & Hmem & Hmid);
    [by eapply list_elem_of_lookup_2|].
  assert (m = n) as -> by congruence. exists n. auto.
Qed.

Lemma planned_no_blocked graph context s :
  valid graph -> gr_status (dry_run_graph_with_context graph context) = GraphDryRunStatus_Planned ->
  s ∈ gr_steps (dry_run_graph_with_context graph context) -> step_blocked s = false.
Proof.
  intros Hv Hst Hs. destruct (dry_run_valid graph context Hv) as (_ & Hc & Hstat). rewrite Hst in Hstat.
  destruct (bool_decide _) eqn:Hz; [|done]. apply bool_decide_eq_true_1 in Hz. rewrite Hz in Hc.
  apply not_true_iff_false. intros Hb.
  assert (s ∈ List.filter step_blocked (gr_steps (dry_run_graph_with_context graph context))) as Hin
    by (by apply filter_In_iff).
  symmetry in Hc. apply length_zero_iff_nil in Hc. rewrite Hc in Hin. by apply elem_of_nil in Hin.
Qed.

Lemma not_planned_invalid graph context :
  gr_status (dry_run_graph_with_context graph context) = GraphDryRunStatus_Planned -> valid graph.
Proof.
  unfold valid, dry_run_graph_with_context. by destruct (has_errors (gvr_report (validate_graph graph))).
Qed.

(** ** Edge kinds *)

(** The same graph with other edge kinds. *)
Definition with_edge_kinds (f : GraphEdge -> GraphEdgeKind) (graph : WorkflowGraph) : WorkflowGraph := {|
  wg_schema_version := wg_schema_version graph; wg_kind := wg_kind graph; wg_graph_id := wg_graph_id graph;
  wg_created_at := wg_created_at graph; wg_nodes := wg_nodes graph;
  wg_edges := map (fun e => {| ge_from := ge_from e; ge_to := ge_to e; ge_edge_kind := f e |}) (wg_edges graph);
  wg_budgets := wg_budgets graph; wg_stop_conditions := wg_stop_conditions graph;
  wg_authority_boundary := wg_authority_boundary graph |}.

Lemma kinds_topological f graph :
  topological_order_if_acyclic (with_edge_kinds f graph) = topological_order_if_acyclic graph.
Proof.
  unfold topological_order_if_acyclic, kahn. simpl. change (node_ids (with_edge_kinds f graph)) with (node_ids graph).
  assert (forall edges st, add_edges (node_ids graph)
      (map (fun e => {| ge_from := ge_from e; ge_to := ge_to e; ge_edge_kind := f e |}) edges) st
    = add_edges (node_ids graph) edges st) as ->; [|done].
  induction edges as [|e edges IH]; intros st; cbn [map add_edges]; [done|].
  assert (add_edge (node_ids graph) {| ge_from := ge_from e; ge_to := ge_to e; ge_edge_kind := f e |} st
          = add_edge (node_ids graph) e st) as -> by done.
  by destruct (add_edge (node_ids graph) e st).
Qed.

Lemma kinds_upstream f graph target :
  unpassed_upstream_verifiers (with_edge_kinds f graph) target = unpassed_upstream_verifiers graph target.
Proof.
  unfold unpassed_upstream_verifiers.
  assert (incoming_edges_by_target (with_edge_kinds f graph) = incoming_edges_by_target graph) as ->; [|done].
  unfold incoming_edges_by_target. f_equal. simpl. generalize (∅ : gmap string (list string)).
  induction (wg_edges graph) as [|e l IH]; intros m; simpl; [done|]. apply IH.
Qed.

Lemma warnings_no_error nodes edges : no_error (concat (imap (validate_edge_kind nodes) edges)).
Proof.
  assert (forall i e, no_error (validate_edge_kind nodes i e)) as Hw.
  { intros i e. unfold validate_edge_kind. repeat case_bool_decide; [apply no_error_nil|].
    destruct (nodes !! _); [|apply no_error_nil]. case_bool_decide; [by apply no_error_warning|apply no_error_nil]. }
  generalize (validate_edge_kind nodes) Hw. induction edges as [|e edges IH]; intros g Hg; simpl; [apply no_error_nil|].
  apply no_error_app. split; [apply Hg|]. apply IH. intros i x. apply Hg.
Qed.

Lemma imap_kinds f (h : nat -> GraphEdge -> list Diagnostic) edges :
  (forall i e k, h i {| ge_from := ge_from e; ge_to := ge_to e; ge_edge_kind := k |} = h i e) ->
  imap h (map (fun e => {| ge_from := ge_from e; ge_to := ge_to e; ge_edge_kind := f e |}) edges) = imap h edges.
Proof.
  revert h. induction edges as [|e l IH]; intros h Hh; [done|]. cbn. f_equal; [apply Hh|].
  apply (IH (h ∘ S)). intros i x k. apply Hh.
Qed.

Lemma kinds_valid f graph :
  has_errors (gvr_report (validate_graph (with_edge_kinds f graph))) = has_errors (gvr_report (validate_graph graph)).
Proof.
  unfold has_errors. simpl. unfold validate_node_references. rewrite !existsb_app.
  pose proof (warnings_no_error (nodes_by_id graph) (wg_edges graph)) as H1.
  pose proof (warnings_no_error (nodes_by_id (with_edge_kinds f graph)) (wg_edges (with_edge_kinds f graph))) as H2.
  unfold no_error in H1, H2. rewrite H1, H2. unfold validate_cycles. rewrite kinds_topological.
  do 2 f_equal. f_equal. unfold validate_edges. simpl.
  change (node_ids (with_edge_kinds f graph)) with (node_ids graph). f_equal. f_equal.
  by apply imap_kinds.
Qed.

Lemma kinds_run_node f graph context acc item :
  run_node (with_edge_kinds f graph) context acc item = run_node graph context acc item.
Proof.
  unfold run_node. destruct acc as [[ds count] steps], item as [i id].
  change (nodes_by_id (with_edge_kinds f graph)) with (nodes_by_id graph).
  destruct (nodes_by_id graph !! StableId_0 id) as [n|]; [|done].
  unfold dry_run_step. rewrite kinds_upstream. done.
Qed.

(** Two runs over the same nodes agree on their steps whatever diagnostics they start with. *)
Lemma run_kinds f graph context l ds es count steps :
  let a := foldl (run_node (with_edge_kinds f graph) context) (ds, count, steps) l in
  let b := foldl (run_node graph context) (es, count, steps) l in
  a.2 = b.2 /\ a.1.2 = b.1.2.
Proof.
  revert ds es count steps. induction l as [|[i id] l IH]; intros ds es count steps; [done|]. cbn [foldl].
  rewrite kinds_run_node.
  assert (exists ds' es' count' steps', run_node graph context (ds, count, steps) (i, id) = (ds', count', steps')
    /\ run_node graph context (es, count, steps) (i, id) = (es', count', steps')) as (ds' & es' & c' & s' & -> & ->);
    [|apply IH].
  unfold run_node. destruct (nodes_by_id graph !! StableId_0 id) as [n|]; [|by do 4 eexists].
  destruct (dry_run_step _ _ _ _ _ _) as [b s]. by do 4 eexists.
Qed.

Lemma imap_pair_snd {A} (l : list A) k : map snd (imap (fun i x => (k + i, x)) l) = l.
Proof.
  revert k. induction l as [|x l IH]; intros k; [done|]. cbn. f_equal. rewrite <- (IH (S k)) at 2. f_equal.
  apply imap_ext. intros i y _. simpl. f_equal. lia.
Qed.

Lemma Forall2_map_eq {A B C} (f : A -> C) (g : B -> C) (l : list A) (k : list B) :
  Forall2 (fun x y => f x = g y) l k -> map f l = map g k.
Proof. induction 1; simpl; congruence. Qed.

Lemma topological_order_length graph :
  valid graph -> length (topological_order graph) = length (wg_nodes graph).
Proof.
  intros Hv. destruct (valid_graph graph Hv) as (Hnd & _ & _ & order & Ho).
  destruct (topological_order_spec graph) as [_ Hs]. unfold topological_order. rewrite Ho in *. simpl.
  destruct Hs as (_ & Hndo & Hall & _).
  rewrite <- (length_map node_name), <- (length_map mk_StableId (map node_name (wg_nodes graph))).
  apply Permutation_length, NoDup_Permutation; [done| |].
  - apply NoDup_fmap_2; [by intros x y [= ->] | done].
  - intros [x]. rewrite Hall, elem_of_node_ids, map_In_iff. setoid_rewrite map_In_iff. naive_solver.
Qed.

(** ** Claims about the dry run *)

(** The verifiers reported as blocking a node are exactly the ancestors of the node, through
    any chain of edges, that are verifiers whose result is not Passed; they are listed once each,
    in order of their ids. *)
Theorem upstream_verifiers_exact graph target :
  (forall b, mk_StableId b ∈ unpassed_upstream_verifiers graph target <-> upstream_blocker graph target b)
  /\ NoDup (unpassed_upstream_verifiers graph target)
  /\ Sorted String.le (map StableId_0 (unpassed_upstream_verifiers graph target)).
Proof. apply unpassed_upstream_spec. Qed.

(** C16: a plan is safe.  When the dry run reports Planned, no step that would mutate has an
    upstream verifier whose result is not Passed, no operation is missing, invalid or not ready,
    and no claim preflight was blocked. *)
Theorem planned_is_safe graph context s :
  gr_status (dry_run_graph_with_context graph context) = GraphDryRunStatus_Planned ->
  s ∈ gr_steps (dry_run_graph_with_context graph context) ->
  gs_status s = GraphDryRunStepStatus_Planned
  /\ (gs_node_kind s = GraphNodeKind_Operation -> gs_mutation_capable s = true ->
      forall v n, tc (raw_edge graph) v (StableId_0 (gs_node_id s)) -> n ∈ wg_nodes graph -> node_name n = v ->
        gn_node_kind n = GraphNodeKind_Verifier -> gn_verifier_result n = Some GraphVerifierResult_Passed)
  /\ (gs_node_kind s = GraphNodeKind_Operation ->
      match gs_operation_status s with
      | Some GraphOperationStatus_Ready | Some GraphOperationStatus_SafeReadOnly => True
      | None => gc_require_operation_contracts context = false
      | _ => False
      end)
  /\ (forall preflight, gs_claim_preflight s = Some preflight -> gpe_status preflight = GraphClaimPreflightStatus_Passed).
Proof.
  intros Hst Hs. pose proof (not_planned_invalid _ _ Hst) as Hv.
  pose proof (planned_no_blocked _ _ _ Hv Hst Hs) as Hb.
  apply list_elem_of_lookup in Hs as [i Hi].
  destruct (dry_run_lookup graph context i s Hv Hi) as (n & Hn & Ho & Hlk & ->).
  split; [unfold step_blocked in Hb; by destruct (gs_status _)|].
  rewrite step_of_blocked in Hb. unfold step_of, dry_run_step in *. simpl in *.
  apply orb_false_iff in Hb as [Hb Hby]. apply orb_false_iff in Hb as [Hreason Hpre]. split; [|split].
  - intros Hk Hm v m Hvt Hmem Hname Hkind. rewrite Hk, Hm in Hby. simpl in Hby.
    apply negb_false_iff, bool_decide_eq_true_1 in Hby.
    destruct (decide (gn_verifier_result m = Some GraphVerifierResult_Passed)) as [|Hne]; [done|exfalso].
    assert (mk_StableId (node_name m) ∈ unpassed_upstream_verifiers graph (StableId_0 (gn_node_id n))) as Hin;
      [|rewrite Hby in Hin; by apply elem_of_nil in Hin].
    apply unpassed_upstream_spec. exists v, m. split; [done|]. destruct (valid_graph graph Hv) as [Hnd _].
    split; [by apply nodes_by_id_spec|]. split; [|done]. unfold is_unpassed_verifier.
    by rewrite bool_decide_eq_true_2, bool_decide_eq_true_2.
  - intros Hk. unfold operation_block_reason in Hreason. rewrite Hk in Hreason. simpl in Hreason.
    destruct (node_evaluation context n) as [e|]; simpl in *; [by destruct (goe_status e)|].
    by destruct (gc_require_operation_contracts context).
  - intros preflight Hp. unfold preflight_blocked in Hpre. destruct (node_evaluation context n) as [e|]; [|done].
    simpl in Hp. rewrite Hp in Hpre. by destruct (gpe_status preflight).
Qed.

(** The plan of a valid graph has one step per node, numbered in a topological order: whenever
    an edge joins the nodes of two steps, the source step comes first.  An invalid graph gets no
    step at all. *)
Theorem plan_follows_edges graph context :
  let r := dry_run_graph_with_context graph context in
  (gr_status r = GraphDryRunStatus_Invalid <-> has_errors (gvr_report (validate_graph graph)) = true)
  /\ (gr_status r = GraphDryRunStatus_Invalid -> gr_steps r = [])
  /\ (gr_status r ≠ GraphDryRunStatus_Invalid ->
        map gs_node_id (gr_steps r) = topological_order graph
        /\ length (gr_steps r) = length (wg_nodes graph)
        /\ forall e i j s t, e ∈ wg_edges graph -> gr_steps r !! i = Some s -> gr_steps r !! j = Some t ->
             gs_node_id s = ge_from e -> gs_node_id t = ge_to e -> i < j).
Proof.
  cbv zeta. split; [|split].
  - destruct (has_errors _) eqn:Hv; unfold dry_run_graph_with_context; rewrite Hv; [done|].
    destruct (foldl _ _ _) as [[? ?] ?]. simpl. split; [|done]. by destruct (_ && _).
  - unfold dry_run_graph_with_context. destruct (has_errors _); [done|].
    destruct (foldl _ _ _) as [[? ?] ?]. simpl. by destruct (_ && _).
  - intros Hne.
    assert (valid graph) as Hv.
    { unfold valid. apply not_true_iff_false. intros Hv. apply Hne. unfold dry_run_graph_with_context. by rewrite Hv. }
    assert (map gs_node_id (gr_steps (dry_run_graph_with_context graph context)) = topological_order graph) as Hids.
    { destruct (dry_run_valid graph context Hv) as [HF _].
      assert (topological_order graph = map snd (imap pair (topological_order graph))) as ->.
      { symmetry. apply (imap_pair_snd _ 0). }
      symmetry. eapply Forall2_map_eq, Forall2_impl; [exact HF|].
      intros [i id] s (n & _ & Hid & ->). simpl. done. }
    split; [done|]. split.
    + apply (f_equal length) in Hids. rewrite length_map in Hids. rewrite Hids.
      by apply topological_order_length.
    + intros e i j s t He Hi Hj Hs Ht. destruct (topological_order_spec graph) as [_ Hspec].
      destruct (valid_graph graph Hv) as (Hnd & Hends & _ & order & Ho).
      unfold topological_order in Hids. rewrite Ho in *. simpl in Hids.
      destruct Hspec as (_ & Hndo & _ & Hfwd).
      assert (order !! i = Some (ge_from e) /\ order !! j = Some (ge_to e)) as [Hoi Hoj].
      { rewrite <- Hids, !list_lookup_fmap, Hi, Hj. simpl. by rewrite Hs, Ht. }
      destruct (Hends e He) as [Hf Htt].
      destruct (Hfwd (edge_from e) (edge_to e) j) as (k & Hk & Hok).
      * by exists e.
      * rewrite Hoj. unfold edge_to. by destruct (ge_to e).
      * assert (Some (mk_StableId (edge_from e)) = Some (ge_from e)) as Ef by (unfold edge_from; by destruct (ge_from e)).
        rewrite Ef in Hok. pose proof (NoDup_lookup _ _ _ _ Hndo Hok Hoi). lia.
Qed.

(** The kind of an edge plays no part in the plan.  Replacing every edge kind by any other
    leaves the steps, their blockers and the status unchanged, so a [requires_completion] edge from
    a verifier that has not passed blocks a mutation exactly as a [blocks_until_passed] edge does. *)
Theorem edge_kinds_ignored f graph context :
  gr_steps (dry_run_graph_with_context (with_edge_kinds f graph) context)
    = gr_steps (dry_run_graph_with_context graph context)
  /\ gr_blocked_node_count (dry_run_graph_with_context (with_edge_kinds f graph) context)
    = gr_blocked_node_count (dry_run_graph_with_context graph context)
  /\ forall target, unpassed_upstream_verifiers (with_edge_kinds f graph) target
       = unpassed_upstream_verifiers graph target.
Proof.
  unfold dry_run_graph_with_context. rewrite kinds_valid.
  destruct (has_errors _); [split; [done|]; split; [done | intros target; apply kinds_upstream]|].
  unfold topological_order. rewrite kinds_topological.
  set (l := imap pair (default [] (topological_order_if_acyclic graph))).
  match goal with
  | |- context [foldl (run_node (with_edge_kinds f graph) context) (?b, 0, []) l] =>
      match goal with
      | |- context [foldl (run_node graph context) (?a, 0, []) l] =>
          pose proof (run_kinds f graph context l b a 0 []) as Hr
      end
  end. cbv zeta in Hr.
  destruct (foldl (run_node (with_edge_kinds f graph) context) _ l) as [[? ?] ?],
    (foldl (run_node graph context) _ l) as [[? ?] ?].
  simpl in *. destruct Hr as [-> ->]. split; [done|]. split; [done|]. intros target. apply kinds_upstream.
Qed.

(** ** A concrete graph: a verifier that passed, then a mutating operation *)

Module GraphExample.

Definition node (name : string) (kind : GraphNodeKind) (mutates : bool) (res : option GraphVerifierResult) : GraphNode := {|
  gn_node_id := mk_StableId name; gn_node_kind := kind; gn_operation_ref := Some (mk_RepoPath "ops/apply.yaml");
  gn_mutation_capable := mutates; gn_verifies := []; gn_pass_condition := None; gn_verifier_result := res;
  gn_budget := None; gn_human_prompt := None |}.

Definition graph : WorkflowGraph := {|
  wg_schema_version := "0.1"; wg_kind := "workflow_graph"; wg_graph_id := mk_StableId "release";
  wg_created_at := None;
  wg_nodes := [node "apply" GraphNodeKind_Operation true None;
               node "check" GraphNodeKind_Verifier false (Some GraphVerifierResult_Passed)];
  wg_edges := [{| ge_from := mk_StableId "check"; ge_to := mk_StableId "apply";
                  ge_edge_kind := GraphEdgeKind_BlocksUntilPassed |}];
  wg_budgets := []; wg_stop_conditions := [];
  wg_authority_boundary := {| gab_source_of_truth := "core"; gab_adapters_may_suggest := true;
    gab_adapters_may_mutate := false; gab_required_authority_refs := [] |} |}%list.

Definition report : GraphDryRunReport := dry_run_graph_with_context graph GraphDryRunContext_empty.

Lemma report_planned : gr_status report = GraphDryRunStatus_Planned.
Proof. vm_compute. reflexivity. Qed.

End GraphExample.

Lemma planned_is_safe_witness :
  exists s, gr_steps GraphExample.report !! 1 = Some s /\ gs_node_id s = mk_StableId "apply"
    /\ gs_status s = GraphDryRunStepStatus_Planned.
Proof.
  destruct (gr_steps GraphExample.report !! 1) as [s|] eqn:E; [|vm_compute in E; discriminate].
  exists s. split; [reflexivity|]. split; [vm_compute in E; injection E as <-; reflexivity|].
  apply (planned_is_safe GraphExample.graph GraphDryRunContext_empty s GraphExample.report_planned).
  exact (list_elem_of_lookup_2 _ _ _ E).
Defined.

Lemma plan_follows_edges_witness :
  map gs_node_id (gr_steps GraphExample.report) = [mk_StableId "check"; mk_StableId "apply"].
Proof.
  destruct (plan_follows_edges GraphExample.graph GraphDryRunContext_empty) as (_ & _ & Hp).
  destruct Hp as [Hids _].
  - intros E. pose proof GraphExample.report_planned as Hr. unfold GraphExample.report in Hr.
    rewrite E in Hr. discriminate.
  - exact (eq_trans Hids (ltac:(vm_compute; reflexivity))).
Defined.
