(* ===== verification/EventLog.v ===== *)
(** * The event-log transaction engine

    [forge-core-eventlog/src/tcb.rs], [error.rs]: append-only streams of JSON lines, replayed into
    a projection under an exclusive lock.  A stream is the bytes of its file, [None] before the
    first transaction creates it.  The class [EventSourced] is the private trait of the same name;
    [GovernanceLedger] and [MemoryLedger] give its instances, and the theorems below are proved once
    against its laws.  [serde_json] is the parameter [EventCodec], used through [EventCodecLaws].

    What the operating system may do is data: [TxnIo] says whether a transaction starts, whether
    the log can be read, and how many bytes of an append reach the file when it fails. *)

From S2P Require Import Prelude RustStr.

Local Open Scope string_scope.
Local Open Scope Z_scope.
Local Open Scope forge_scope.

(** ** Streams and errors *)

Inductive StreamId := StreamId_Memory | StreamId_Research | StreamId_Governance.

Definition log_path (id : StreamId) : string :=
  match id with
  | StreamId_Memory => "memory/events.ndjson"
  | StreamId_Research => "research/sources.ndjson"
  | StreamId_Governance => "governance/conflicts.ndjson"
  end.

Definition lock_path (id : StreamId) : string :=
  match id with
  | StreamId_Memory => "locks/memory.log.lock"
  | StreamId_Research => "locks/research.sources.lock"
  | StreamId_Governance => "locks/governance.conflicts.lock"
  end.

(** Paths are relative to the state root. *)
Inductive EventLogError (D : Type) :=
| EL_Lock (path source : string)
| EL_Append (path source : string)
| EL_SequenceExhausted
| EL_Serialize (source : string)
| EL_Read (path source : string)
| EL_Parse (path : string) (line_number : nat) (source : string)
| EL_ProjectionDiagnostic (diagnostic : D).
Arguments EL_Lock {D} path source.
Arguments EL_Append {D} path source.
Arguments EL_SequenceExhausted {D}.
Arguments EL_Serialize {D} source.
Arguments EL_Read {D} path source.
Arguments EL_Parse {D} path line_number source.
Arguments EL_ProjectionDiagnostic {D} diagnostic.

Definition CODE_OUT_OF_ORDER_EVENT_IGNORED : string := "out_of_order_event_ignored".
Definition CODE_TORN_FINAL_LINE_SKIPPED : string := "torn_final_line_skipped".

(** ** The interface a domain implements *)

(** [EventSourced] with the [EventEnvelope] accessor it needs: events, projection, diagnostics. *)
Class EventSourced (E P D : Type) := {
  sequence : E -> Z;
  projection_default : P;
  es_apply : P -> E -> P;
  record_diagnostic : P -> D -> P;
  sequence_of : P -> Z;
  advance_sequence : P -> Z -> P;
  diagnostic_out_of_order_event_ignored : Z -> Z -> D;
  diagnostic_torn_final_line_skipped : nat -> string -> D
}.

(** What the engine relies on. *)
Class EventSourcedLaws (E P D : Type) `{EventSourced E P D} : Prop := {
  sequence_default : sequence_of projection_default = 0;
  sequence_advance p s : sequence_of (advance_sequence p s) = s;
  sequence_diagnostic p d : sequence_of (record_diagnostic p d) = sequence_of p
}.

(** [serde_json::to_vec], [serde_json::from_slice::<Value>], [serde_json::from_str]. *)
Class EventCodec (E : Type) := {
  event_to_vec : E -> Result bytes string;
  value_from_slice : bytes -> Result unit string;
  event_from_str : string -> Result E string
}.

(** The values an event may hold and still be read: what the [deserialize_with] functions of its fields
    check.  Writing does not check it. *)
Class EventBounds (E : Type) := readable : E -> bool.

(** An event is written as one JSON object on one line of UTF-8 text (control characters are
    escaped), it reads back as itself unless the value of a field is refused, and no proper part of it
    reads as an event. *)
Class EventCodecLaws (E : Type) `{EventCodec E} `{EventBounds E} : Prop := {
  ec_value e v : event_to_vec e = Ok v -> value_from_slice v = Ok tt;
  ec_roundtrip e v : event_to_vec e = Ok v -> readable e = true -> event_from_str (of_bytes v) = Ok e;
  ec_unreadable e v : event_to_vec e = Ok v -> readable e = false ->
    exists source, event_from_str (of_bytes v) = Err source;
  ec_object e v : event_to_vec e = Ok v -> exists body, v = ("{"%char :: body ++ ["}"%char])%list;
  ec_text e v : event_to_vec e = Ok v -> Utf8 v /\ LF ∉ v;
  ec_torn e v k : event_to_vec e = Ok v -> (0 < k < length v)%nat ->
    exists source, event_from_str (trim (from_utf8_lossy (take k v))) = Err source
}.

(** The beginning, or all, of a written event. *)
Definition event_part {E : Type} `{EventCodec E} (part : bytes) : Prop :=
  exists e v k, event_to_vec e = Ok v /\ (0 < k)%nat /\ part = take k v.

(** Two or more JSON objects, each whole or cut off, do not read as an event when they stand on one line:
    the next opening brace ends a whole object too late, or is no continuation of a cut one, or opens a
    value inside it that leaves it unclosed. *)
Class EventGlueLaws (E : Type) `{EventCodec E} : Prop :=
  ec_glued parts : (2 <= length parts)%nat -> Forall event_part parts ->
    exists source, event_from_str (trim (from_utf8_lossy (concat parts))) = Err source.

(** ** I/O outcomes of a transaction *)

Record TxnIo := {
  tx_begin : Result unit (bool * string);  (* starting; on failure whether it was the lock, and why *)
  tx_read : Result unit string;            (* seeking and reading the log *)
  tx_intact : Result unit string;          (* [reject_detected_replacement] *)
  tx_append : Result unit string;          (* [append_bytes] *)
  tx_written : option nat                  (* bytes written by an append that failed, [None] for all *)
}.

Section engine.
Context {E P D : Type} `{EventSourced E P D} `{EventCodec E}.

(** ** Folding *)

Definition next_sequence (projection : P) : Result Z (EventLogError D) :=
  match u64_checked_add (sequence_of projection) 1 with
  | Some s => Ok s
  | None => Err EL_SequenceExhausted
  end.

Definition apply_event (projection : P) (event : E) : P :=
  let event_seq := sequence event in
  let current := sequence_of projection in
  if (0 <? current) && (event_seq <=? current)
  then record_diagnostic projection (diagnostic_out_of_order_event_ignored event_seq current)
  else advance_sequence (es_apply projection event) event_seq.

Definition replay (events : list E) : P := foldl apply_event projection_default events.

(** The loop of [replay_bytes] over the lines from [index] on. *)
Fixpoint replay_lines (path : string) (total_lines index : nat) (ls : list string) (projection : P)
    : Result P (EventLogError D) :=
  match ls with
  | [] => Ok projection
  | raw_line :: rest =>
      let line := trim raw_line in
      if str_is_empty line then replay_lines path total_lines (S index) rest projection else
      match event_from_str line with
      | Ok event => replay_lines path total_lines (S index) rest (apply_event projection event)
      | Err source =>
          let final_line := (total_lines <=? index + 1)%nat in
          let torn := final_line && (negb (starts_with_char "{"%char line) || negb (ends_with_char "}"%char line)) in
          if torn
          then Ok (record_diagnostic projection (diagnostic_torn_final_line_skipped (index + 1) source))
          else Err (EL_Parse path (index + 1) source)
      end
  end.

Definition replay_bytes (path : string) (b : bytes) : Result P (EventLogError D) :=
  let text := from_utf8_lossy b in
  replay_lines path (length (lines text)) 0 (lines text) projection_default.

(** ** Transactions *)

(** [StreamTxn::begin]: opens the log, creating it when it is absent. *)
Definition txn_begin (id : StreamId) (io : TxnIo) (st : option bytes) : Result bytes (EventLogError D) :=
  match tx_begin io with
  | Ok _ => Ok (default [] st)
  | Err (true, source) => Err (EL_Lock (lock_path id) source)
  | Err (false, source) => Err (EL_Append (log_path id) source)
  end.

Definition txn_project (id : StreamId) (io : TxnIo) (b : bytes) : Result P (EventLogError D) :=
  match tx_read io with
  | Err source => Err (EL_Read (log_path id) source)
  | Ok _ => replay_bytes (log_path id) b
  end.

(** The outcome and the bytes of the log afterwards. *)
Definition txn_append (id : StreamId) (io : TxnIo) (b : bytes) (event : E)
    : Result unit (EventLogError D) * bytes :=
  match tx_intact io with
  | Err source => (Err (EL_Append (log_path id) source), b)
  | Ok _ =>
      match event_to_vec event with
      | Err source => (Err (EL_Serialize source), b)
      | Ok line =>
          match value_from_slice line with
          | Err source => (Err (EL_Serialize source), b)
          | Ok _ =>
              let line := (line ++ [LF])%list in
              match tx_append io with
              | Ok _ => (Ok tt, (b ++ line)%list)
              | Err source => (Err (EL_Append (log_path id) source), (b ++ take (default (length line) (tx_written io)) line)%list)
              end
          end
      end
  end.

(** The shape every command shares: start, project, decide, take the next sequence number, append.
    [verdict] is the decision on the projection: refused with a status, or granted as an event to be
    numbered with the status that reports it. *)
Definition decide_and_append {S : Type} (id : StreamId) (io : TxnIo) (st : option bytes)
    (verdict : P -> Result (Z -> E * S) S) (store_error : EventLogError D -> S) : S * option bytes :=
  match txn_begin id io st with
  | Err e => (store_error e, st)
  | Ok b =>
      match txn_project id io b with
      | Err e => (store_error e, Some b)
      | Ok projection =>
          match verdict projection with
          | Err status => (status, Some b)
          | Ok grant =>
              match next_sequence projection with
              | Err e => (store_error e, Some b)
              | Ok seq =>
                  let '(event, done_) := grant seq in
                  match txn_append id io b event with
                  | (Ok _, b') => (done_, Some b')
                  | (Err e, b') => (store_error e, Some b')
                  end
              end
          end
      end
  end.

(** ** Strict validation of a captured stream *)

Definition line_number (b : bytes) (offset : nat) : nat :=
  (length (List.filter (fun c => bool_decide (c = LF)) (take offset b)) + 1)%nat.

(** The loop over the lines; the text of the UTF-8 error is not reproduced. *)
Fixpoint validate_strict_lines (path : string) (index : nat) (ls : list string) (previous_sequence : option Z)
    : Result unit (EventLogError string) :=
  match ls with
  | [] => Ok tt
  | raw_line :: rest =>
      let current_line := (index + 1)%nat in
      if str_is_empty (trim raw_line)
      then Err (EL_Parse path current_line "event-log snapshot contains an empty record")
      else
        match event_from_str raw_line with
        | Err source => Err (EL_Parse path current_line source)
        | Ok event =>
            match (match previous_sequence with
                   | None => Some 1
                   | Some previous => u64_checked_add previous 1
                   end) with
            | None => Err EL_SequenceExhausted
            | Some expected =>
                if negb (sequence event =? expected)
                then Err (EL_Parse path current_line
                       ("event-log snapshot sequence is " +:+ fmt_int (sequence event)
                        +:+ ", expected " +:+ fmt_int expected))
                else validate_strict_lines path (S index) rest (Some (sequence event))
            end
        end
  end.

Definition validate_strict_snapshot_stream (path : string) (b : bytes) : Result unit (EventLogError string) :=
  match b with
  | [] => Ok tt
  | _ =>
      if negb (bool_decide (last b = Some LF))
      then Err (EL_Parse path (line_number b (length b))
                  "event-log snapshot ends without a complete newline-delimited record")
      else
        match utf8_error b with
        | Some valid_up_to => Err (EL_Parse path (line_number b valid_up_to) "event-log snapshot is not UTF-8")
        | None => validate_strict_lines path 0 (split_terminator (of_bytes b)) None
        end
  end.

End engine.

(** ** Quiesced capture of the three streams *)

(** One open file as a capture pass sees it: the checks of the leaf, its identity and length before
    and after the bytes are read, and the lock check that follows. *)
Record MemberObservation := {
  mo_leaf : Result unit string;
  mo_identity : Z * Z;
  mo_before_length : Z;
  mo_bytes : bytes;
  mo_after_length : Z;
  mo_after_identity : Z * Z;
  mo_lock_after : Result unit string
}.

Record QuiescedEventLogMember := { qm_relative_path : string; qm_bytes : bytes }.

Record CapturedSnapshotMember := { cm_identity : Z * Z; cm_member : QuiescedEventLogMember }.

#[export] Instance QuiescedEventLogMember_eq_dec : EqDecision QuiescedEventLogMember.
Proof. solve_decision. Defined.
#[export] Instance CapturedSnapshotMember_eq_dec : EqDecision CapturedSnapshotMember.
Proof. solve_decision. Defined.

(** A record with one field per stream: [CapturedSnapshotPass], [QuiescedEventLogSnapshot]. *)
Record PerStream (A : Type) := { ps_memory : A; ps_research : A; ps_governance : A }.
Arguments Build_PerStream {A} _ _ _.
Arguments ps_memory {A} _.
Arguments ps_research {A} _.
Arguments ps_governance {A} _.

(** The read of one stream during recovery; no log is created. *)
Definition snapshot_under_quiescence {E P D : Type} `{EventSourced E P D} `{EventCodec E} (id : StreamId)
    (lock : Result unit string) (seen : Result (option MemberObservation) string) : Result P (EventLogError D) :=
  try _ <- map_err (EL_Lock (lock_path id)) lock;
  match seen with
  | Err source => Err (EL_Read (log_path id) source)
  | Ok None => Ok projection_default
  | Ok (Some file) =>
      try _ <- map_err (EL_Read (log_path id)) (mo_leaf file);
      try _ <- map_err (fun source => EL_Read (log_path id)
                          ("stream lock replacement detected during snapshot: " +:+ source)) (mo_lock_after file);
      replay_bytes (log_path id) (mo_bytes file)
  end.

(** [seen]: the lock check or opening the log failed, the log is absent, or what was read. *)
Definition capture_snapshot_member (id : StreamId) (validate : string -> bytes -> Result unit (EventLogError string))
    (seen : Result (option MemberObservation) string) : Result (option CapturedSnapshotMember) (EventLogError string) :=
  let read_error source := EL_Read (log_path id) source in
  match seen with
  | Err source => Err (read_error source)
  | Ok None => Ok None
  | Ok (Some file) =>
      try _ <- map_err read_error (mo_leaf file);
      if negb (in_u64 (Z.of_nat (length (mo_bytes file))))
      then Err (read_error "event-log member is too large to represent")
      else if negb (mo_before_length file =? mo_after_length file)
              || negb (mo_after_length file =? Z.of_nat (length (mo_bytes file)))
              || negb (bool_decide (mo_identity file = mo_after_identity file))
      then Err (read_error "event-log member changed while its quiesced stream lock was held")
      else
        try _ <- map_err read_error (mo_lock_after file);
        try _ <- validate (log_path id) (mo_bytes file);
        Ok (Some {| cm_identity := mo_identity file;
                    cm_member := {| qm_relative_path := log_path id; qm_bytes := mo_bytes file |} |})
  end.

(** The strict validators of the three domains. *)
Record StrictValidators := {
  sv_memory : string -> bytes -> Result unit (EventLogError string);
  sv_research : string -> bytes -> Result unit (EventLogError string);
  sv_governance : string -> bytes -> Result unit (EventLogError string)
}.

Definition capture_pass (validators : StrictValidators) (seen : PerStream (Result (option MemberObservation) string))
    : Result (PerStream (option CapturedSnapshotMember)) (EventLogError string) :=
  try memory <- capture_snapshot_member StreamId_Memory (sv_memory validators) (ps_memory seen);
  try research <- capture_snapshot_member StreamId_Research (sv_research validators) (ps_research seen);
  try governance <- capture_snapshot_member StreamId_Governance (sv_governance validators) (ps_governance seen);
  Ok (Build_PerStream memory research governance).

Definition ensure_matches (self other : PerStream (option CapturedSnapshotMember)) : Result unit (EventLogError string) :=
  let changed id := Err (EL_Read (log_path id) "event-log member changed during stable quiesced re-enumeration") in
  if negb (bool_decide (ps_memory self = ps_memory other)) then changed StreamId_Memory
  else if negb (bool_decide (ps_research self = ps_research other)) then changed StreamId_Research
  else if negb (bool_decide (ps_governance self = ps_governance other)) then changed StreamId_Governance
  else Ok tt.

Definition into_snapshot (self : PerStream (option CapturedSnapshotMember))
    : PerStream (option QuiescedEventLogMember) :=
  Build_PerStream (cm_member <$> ps_memory self) (cm_member <$> ps_research self)
    (cm_member <$> ps_governance self).

(** The locks are the result [locks]; [first_seen] and [second_seen] are the two enumerations. *)
Definition capture_quiesced_event_logs (validators : StrictValidators)
    (locks : Result unit (EventLogError string))
    (first_seen second_seen : PerStream (Result (option MemberObservation) string))
    : Result (PerStream (option QuiescedEventLogMember)) (EventLogError string) :=
  try _ <- locks;
  try first <- capture_pass validators first_seen;
  try second <- capture_pass validators second_seen;
  try _ <- ensure_matches first second;
  Ok (into_snapshot first).

(** ** Logs *)

Section logs.
Context {E P D : Type} `{EventSourced E P D} `{EventCodec E} `{EventBounds E} `{!EventCodecLaws E}.

(** Written, and written so that it reads back. *)
Definition serialized (e : E) (v : bytes) : Prop := event_to_vec e = Ok v.
Definition encoded (e : E) (v : bytes) : Prop := serialized e v /\ readable e = true.

(** The lines [vs], each ended by a line feed. *)
Definition log_bytes (vs : list bytes) : bytes := concat (map (fun v => v ++ [LF])%list vs).

(** The bytes of a completely written log of the events [es]. *)
Definition stream_log (b : bytes) (es : list E) : Prop :=
  exists vs, Forall2 encoded es vs /\ b = log_bytes vs.

(** The events carry the numbers 1, 2, ... *)
Definition contiguous (es : list E) : Prop :=
  forall i e, es !! i = Some e -> sequence e = Z.of_nat i + 1.

Lemma stream_log_nil : stream_log [] [].
Proof. exists []. by split. Qed.

Lemma stream_log_snoc b es e v :
  stream_log b es -> event_to_vec e = Ok v -> readable e = true -> stream_log (b ++ v ++ [LF])%list (es ++ [e])%list.
Proof.
  intros (vs & Hvs & ->) Hv Hr. exists (vs ++ [v])%list. split; [by apply Forall2_app; [|constructor]|].
  unfold log_bytes. rewrite map_app, concat_app. simpl. by rewrite app_nil_r.
Qed.

Lemma contiguous_snoc es e :
  contiguous es -> sequence e = Z.of_nat (length es) + 1 -> contiguous (es ++ [e]).
Proof.
  intros Hc He i x [Hi|[Hi Hx]]%lookup_app_Some; [by apply Hc|].
  apply list_lookup_singleton_Some in Hx as [Hi' ->]. assert (i = length es) as -> by lia. done.
Qed.

Lemma contiguous_app es fs : contiguous (es ++ fs) -> contiguous es.
Proof. intros Hc i e Hi. apply Hc. by apply lookup_app_l_Some. Qed.

(** *** One encoded event *)

Lemma brace_solid : solid "{"%char = true /\ solid "}"%char = true.
Proof. by vm_compute. Qed.

Lemma serialized_trim e v : serialized e v -> trim (of_bytes v) = of_bytes v.
Proof.
  intros Hv. destruct (ec_object e v Hv) as [body ->]. rewrite trim_of_bytes. f_equal.
  apply (trim_bytes_solid _ "{"%char "}"%char); [done| |apply brace_solid..].
  by rewrite app_comm_cons, last_snoc.
Qed.

Lemma serialized_nonempty e v : serialized e v -> str_is_empty (of_bytes v) = false.
Proof. intros Hv. by destruct (ec_object e v Hv) as [body ->]. Qed.

Lemma serialized_line e v : serialized e v -> LF ∉ v /\ last v ≠ Some CR.
Proof.
  intros Hv. split; [by apply (ec_text e v)|]. destruct (ec_object e v Hv) as [body ->].
  by rewrite app_comm_cons, last_snoc.
Qed.

Lemma Utf8_log vs es : Forall2 encoded es vs -> Utf8 (log_bytes vs).
Proof.
  unfold log_bytes. induction 1 as [|e v es vs [Hv _] _ IH]; [constructor|]. simpl.
  apply Utf8_app; [|done]. apply Utf8_app; [by apply (ec_text e v) | by apply Utf8_ascii].
Qed.

(** *** Reading lines *)

Lemma lines_log es vs tail :
  Forall2 encoded es vs -> lines_go [] (log_bytes vs ++ tail) = (map of_bytes vs ++ lines_go [] tail)%list.
Proof.
  unfold log_bytes. induction 1 as [|e v es vs [Hv _] _ IH]; [done|]. simpl. rewrite <- !app_assoc. simpl.
  destruct (serialized_line e v Hv). rewrite lines_go_record by done. simpl. by rewrite IH.
Qed.

Lemma split_log es vs :
  Forall2 encoded es vs -> split_terminator_go [] (log_bytes vs) = map of_bytes vs.
Proof.
  unfold log_bytes. induction 1 as [|e v es vs [Hv _] _ IH]; [done|]. simpl. rewrite <- !app_assoc. simpl.
  destruct (serialized_line e v Hv). rewrite split_terminator_go_record by done. simpl. by rewrite IH.
Qed.

Lemma replay_lines_log path total es vs rest index p :
  Forall2 encoded es vs ->
  replay_lines path total index (map of_bytes vs ++ rest) p
  = replay_lines path total (index + length es) rest (foldl apply_event p es).
Proof.
  intros Hvs. revert index p. induction Hvs as [|e v es vs [Hv Hok] _ IH]; intros index p.
  - simpl. by rewrite Nat.add_0_r.
  - simpl. rewrite (serialized_trim e v Hv), (serialized_nonempty e v Hv), (ec_roundtrip e v Hv Hok), IH.
    f_equal. lia.
Qed.

(** The lines of a log with a tail that holds no line feed. *)
Lemma replay_bytes_tail path es vs tail :
  Forall2 encoded es vs ->
  replay_bytes path (log_bytes vs ++ tail) =
  let ls := lines_go [] (to_bytes (from_utf8_lossy tail)) in
  replay_lines path (length es + length ls) (length es) ls (replay es).
Proof.
  intros Hvs. unfold replay_bytes, lines. rewrite from_utf8_lossy_app by (by eapply Utf8_log).
  rewrite (lines_log es vs _ Hvs), length_app, length_map, <- (Forall2_length _ _ _ Hvs).
  by rewrite (replay_lines_log _ _ es vs).
Qed.

Lemma replay_log path b es : stream_log b es -> replay_bytes path b = Ok (replay es).
Proof.
  intros (vs & Hvs & ->). rewrite <- (app_nil_r (log_bytes vs)). by rewrite (replay_bytes_tail path es vs).
Qed.

(** The text of a non-empty tail that starts with an opening brace and holds no line feed. *)
Lemma tail_line body :
  LF ∉ body ->
  exists line, trim (from_utf8_lossy ("{"%char :: body)) = of_bytes ("{"%char :: line)
    /\ lines_go [] (to_bytes (from_utf8_lossy ("{"%char :: body))) = [from_utf8_lossy ("{"%char :: body)].
Proof.
  intros Hb. destruct (lossy_head "{"%char body eq_refl) as [k Hk].
  assert (from_utf8_lossy ("{"%char :: body) = of_bytes ("{"%char :: k)) as Ht.
  { by rewrite <- (of_to_bytes (from_utf8_lossy _)), Hk. }
  destruct (trim_bytes_head "{"%char k (proj1 brace_solid)) as [l' Hl].
  exists l'. rewrite Ht, trim_of_bytes, Hl. split; [done|]. rewrite to_of_bytes, lines_go_tail; [done| |done].
  rewrite <- Hk. apply lossy_no_LF. apply not_elem_of_cons. split; [|done]. by vm_compute.
Qed.

Lemma serialized_prefix e v k :
  serialized e v -> (0 < k)%nat -> exists body, take k v = ("{"%char :: body)%list /\ LF ∉ body.
Proof.
  intros Hv Hk. destruct (serialized_line e v Hv) as [Hlf _]. destruct (ec_object e v Hv) as [body ->].
  destruct k as [|k]; [lia|]. simpl. eexists. split; [done|]. intros Hin. apply Hlf. right.
  rewrite <- (take_drop k (body ++ _)), elem_of_app. by left.
Qed.

(** A line that is the last, starts with a brace and is no event, with its line feed or without. *)
Lemma replay_bad_line path b es body (ended : bool) source :
  stream_log b es -> LF ∉ body -> (ended = true -> last ("{"%char :: body) = Some "}"%char) ->
  event_from_str (trim (from_utf8_lossy ("{"%char :: body))) = Err source ->
  replay_bytes path (b ++ ("{"%char :: body) ++ (if ended then [LF] else []))
  = if ended || ends_with_char "}"%char (trim (from_utf8_lossy ("{"%char :: body)))
    then Err (EL_Parse path (length es + 1) source)
    else Ok (record_diagnostic (replay es) (diagnostic_torn_final_line_skipped (length es + 1) source)).
Proof.
  intros (vs & Hvs & ->) Hlf Hend Hs. rewrite (replay_bytes_tail path es vs) by done.
  destruct (tail_line body Hlf) as (line & Ht & Hl). cbv zeta.
  assert (lines_go [] (to_bytes (from_utf8_lossy (("{"%char :: body) ++ (if ended then [LF] else []))))
          = [from_utf8_lossy ("{"%char :: body)]) as ->.
  { destruct ended; [|by rewrite app_nil_r]. rewrite (lossy_app_ascii _ LF []) by done.
    specialize (Hend eq_refl). apply last_Some in Hend as [front Hf]. rewrite Hf.
    rewrite (lossy_app_ascii front "}"%char []) by done.
    assert (to_bytes (from_utf8_lossy ["}"%char]) = ["}"%char] /\ to_bytes (from_utf8_lossy [LF]) = [LF]) as [-> ->] by (by vm_compute).
    rewrite lines_go_record; [|apply not_elem_of_app; split; [|set_solver]|rewrite app_nil_l, last_snoc; done].
    - cbn [lines_go]. rewrite app_nil_l. f_equal. rewrite <- (of_to_bytes (from_utf8_lossy (front ++ _))).
      by rewrite (lossy_app_ascii front "}"%char []).
    - apply lossy_no_LF. assert (LF ∉ ("{"%char :: body)) as Hn by (apply not_elem_of_cons; split; [by vm_compute|done]).
      rewrite Hf in Hn. set_solver. }
  cbn [length replay_lines]. rewrite Ht in *. cbn [str_is_empty]. rewrite Hs.
  assert ((length es + 1 <=? length es + 1)%nat = true) as -> by (by apply Nat.leb_le).
  assert (starts_with_char "{"%char (of_bytes ("{"%char :: line)) = true) as ->.
  { unfold starts_with_char. by rewrite to_of_bytes. }
  assert (ended = true -> ends_with_char "}"%char (of_bytes ("{"%char :: line)) = true) as Hends.
  { intros He. specialize (Hend He). apply last_Some in Hend as [front Hf].
    destruct (lossy_head "{"%char body eq_refl) as [k Hk].
    assert (to_bytes (from_utf8_lossy ("{"%char :: body)) = to_bytes (from_utf8_lossy front) ++ ["}"%char])%list as Hb
      by (by rewrite Hf, (lossy_app_ascii front "}"%char [])).
    rewrite <- Ht. unfold ends_with_char, trim. rewrite to_of_bytes, (trim_bytes_solid _ "{"%char "}"%char);
      [by rewrite Hb, rev_app_distr|by rewrite Hk|by rewrite Hb, last_snoc|apply brace_solid..]. }
  destruct ended; cbn [orb negb andb]; [by rewrite Hends|]. by destruct (ends_with_char _ _).
Qed.

(** The outcome of reading a log followed by part of the next line. *)
Lemma replay_torn path b es e v k :
  stream_log b es -> serialized e v -> (0 < k < length v)%nat ->
  exists source, event_from_str (trim (from_utf8_lossy (take k v))) = Err source
    /\ replay_bytes path (b ++ take k v)
       = if ends_with_char "}"%char (trim (from_utf8_lossy (take k v)))
         then Err (EL_Parse path (length es + 1) source)
         else Ok (record_diagnostic (replay es) (diagnostic_torn_final_line_skipped (length es + 1) source)).
Proof.
  intros Hlog Hv Hk. destruct (ec_torn e v k Hv Hk) as [source Hs]. exists source. split; [done|].
  destruct (serialized_prefix e v k Hv ltac:(lia)) as (body & Hb & Hlf). rewrite Hb in *.
  pose proof (replay_bad_line path b es body false source Hlog Hlf ltac:(done) Hs) as Hr. by rewrite app_nil_r in Hr.
Qed.

(** A whole line that is refused for the value of a field. *)
Lemma replay_unreadable path b es e v (ended : bool) :
  stream_log b es -> serialized e v -> readable e = false ->
  exists source, replay_bytes path (b ++ v ++ (if ended then [LF] else [])) = Err (EL_Parse path (length es + 1) source).
Proof.
  intros Hlog Hv Hr. destruct (ec_unreadable e v Hv Hr) as [source Hs]. exists source.
  destruct (ec_text e v Hv) as [Hu Hlf]. destruct (serialized_line e v Hv) as [_ _]. pose proof (serialized_trim e v Hv) as Ht.
  destruct (ec_object e v Hv) as [body ->].
  pose proof (replay_bad_line path b es (body ++ ["}"%char]) ended source Hlog) as Hbad.
  rewrite Utf8_from_lossy, Ht in Hbad by done. rewrite Hbad; [|set_solver|intros _; by rewrite app_comm_cons, last_snoc|done].
  assert (ends_with_char "}"%char (of_bytes ("{"%char :: body ++ ["}"%char])) = true) as ->.
  { unfold ends_with_char. rewrite to_of_bytes, app_comm_cons, rev_app_distr. done. }
  by rewrite orb_true_r.
Qed.

(** A line whose line feed is missing is read as if it were complete. *)
Lemma replay_unterminated path b es e v :
  stream_log b es -> encoded e v -> replay_bytes path (b ++ v) = Ok (replay (es ++ [e])).
Proof.
  intros (vs & Hvs & ->) [Hv Hok]. rewrite (replay_bytes_tail path es vs) by done.
  destruct (serialized_line e v Hv) as [Hlf _]. destruct (ec_text e v Hv) as [Hu _].
  rewrite Utf8_from_lossy, to_of_bytes by done. cbv zeta.
  rewrite lines_go_tail; [|done|by destruct (ec_object e v Hv) as [body ->]].
  simpl rev. simpl app. cbn [length replay_lines].
  rewrite (serialized_trim e v Hv), (serialized_nonempty e v Hv), (ec_roundtrip e v Hv Hok).
  unfold replay. by rewrite foldl_snoc.
Qed.

(** A complete line written after part of another one makes one line of both. *)
Lemma replay_glued path b es e v k e' v' source :
  stream_log b es -> serialized e v -> (0 < k)%nat -> serialized e' v' ->
  event_from_str (of_bytes (to_bytes (from_utf8_lossy (take k v)) ++ v')) = Err source ->
  replay_bytes path (b ++ take k v ++ v' ++ [LF]) = Err (EL_Parse path (length es + 1) source).
Proof.
  intros (vs & Hvs & ->) Hv Hk Hv' Hs. rewrite (replay_bytes_tail path es vs) by done.
  destruct (serialized_prefix e v k Hv Hk) as (body & Eb & Hlf). rewrite Eb in *.
  destruct (lossy_head "{"%char body eq_refl) as [l Hl]. destruct (ec_text e' v' Hv') as [Hu' Hlf'].
  destruct (serialized_line e' v' Hv') as [_ Hcr]. destruct (ec_object e' v' Hv') as [body' Ev'].
  assert (LF ∉ ("{"%char :: l)) as Hnl.
  { rewrite <- Hl. apply lossy_no_LF. apply not_elem_of_cons. split; [by vm_compute | done]. }
  assert (to_bytes (from_utf8_lossy (("{"%char :: body) ++ v' ++ [LF])) = (("{"%char :: l) ++ v') ++ [LF])%list as ->.
  { assert (v' ++ [LF] = "{"%char :: (body' ++ ["}"%char]) ++ [LF])%list as Ec by (by rewrite Ev').
    rewrite Ec, lossy_app_ascii by done. rewrite Hl, <- Ec, from_utf8_lossy_app by done. by rewrite app_assoc. }
  rewrite Hl in Hs. cbv zeta.
  assert (last (("{"%char :: l) ++ v') = Some "}"%char) as Hlast.
  { rewrite Ev', app_comm_cons, app_assoc, last_snoc. done. }
  rewrite lines_go_record; [|set_solver|rewrite app_nil_l, Hlast; done].
  cbn [lines_go length replay_lines]. rewrite app_nil_l.
  assert (trim (of_bytes (("{"%char :: l) ++ v')) = of_bytes (("{"%char :: l) ++ v')) as ->.
  { rewrite trim_of_bytes. f_equal. by apply (trim_bytes_solid _ "{"%char "}"%char); [|done|apply brace_solid..]. }
  rewrite Hs. cbn [app of_bytes String.string_of_list_ascii str_is_empty].
  assert (starts_with_char "{"%char (of_bytes (("{"%char :: l) ++ v')) = true) as Hst.
  { unfold starts_with_char. by rewrite to_of_bytes. }
  assert (ends_with_char "}"%char (of_bytes (("{"%char :: l) ++ v')) = true) as Hen.
  { unfold ends_with_char. rewrite to_of_bytes. apply last_Some in Hlast as [x ->].
    by rewrite rev_app_distr. }
  cbn [app of_bytes String.string_of_list_ascii] in Hst, Hen. rewrite Hst, Hen. by rewrite andb_false_r.
Qed.

(** *** Numbers *)

Section numbers.
Context `{!EventSourcedLaws E P D}.

(** On a contiguous history every event is applied. *)
Definition replay_all (es : list E) : P :=
  foldl (fun p e => advance_sequence (es_apply p e) (sequence e)) projection_default es.

Lemma replay_contiguous es :
  contiguous es -> replay es = replay_all es /\ sequence_of (replay es) = Z.of_nat (length es).
Proof.
  induction es as [|e es IH] using rev_ind; intros Hc; [split; [done | apply sequence_default]|].
  destruct (IH (contiguous_app _ _ Hc)) as [Hr Hs]. unfold replay, replay_all in *. rewrite !foldl_snoc, <- Hr.
  assert (sequence e = Z.of_nat (length es) + 1) as He.
  { apply Hc. rewrite lookup_app_r, Nat.sub_diag by lia. done. }
  clear Hr IH. revert Hs. generalize (foldl apply_event projection_default es) as p. intros p Hs.
  unfold apply_event. rewrite Hs, He.
  assert ((Z.of_nat (length es) + 1 <=? Z.of_nat (length es)) = false) as -> by (apply Z.leb_gt; lia).
  rewrite andb_false_r. split; [done|]. rewrite sequence_advance, length_app. simpl. lia.
Qed.

Lemma replay_snoc es e :
  contiguous (es ++ [e]) -> replay (es ++ [e]) = advance_sequence (es_apply (replay es) e) (sequence e).
Proof.
  intros Hc. destruct (replay_contiguous _ Hc) as [-> _].
  destruct (replay_contiguous _ (contiguous_app _ _ Hc)) as [-> _]. unfold replay_all. by rewrite foldl_snoc.
Qed.

Lemma next_sequence_contiguous es :
  contiguous es ->
  next_sequence (replay es) = if Z.of_nat (length es) + 1 <=? u64_max
                              then Ok (Z.of_nat (length es) + 1) else Err EL_SequenceExhausted.
Proof.
  intros Hc. destruct (replay_contiguous es Hc) as [_ Hs]. unfold next_sequence, u64_checked_add, in_u64.
  rewrite Hs. assert ((0 <=? Z.of_nat (length es) + 1) = true) as -> by (apply Z.leb_le; lia). simpl.
  by destruct (_ <=? u64_max).
Qed.

End numbers.

(** *** Strict validation of a log *)

(** The numbers from [n + 1] on. *)
Definition numbered_from (n : nat) (es : list E) : Prop :=
  forall i e, es !! i = Some e -> sequence e = Z.of_nat (n + i) + 1.

Lemma numbered_cons n e es :
  numbered_from n (e :: es) <-> sequence e = Z.of_nat n + 1 /\ numbered_from (S n) es.
Proof.
  split.
  - intros Hn. split; [rewrite <- (Nat.add_0_r n); by apply Hn|]. intros i x Hi.
    replace (S n + i)%nat with (n + S i)%nat by lia. by apply Hn.
  - intros [He Hn] [|i] x Hi; simplify_eq/=; [by rewrite Nat.add_0_r|].
    replace (n + S i)%nat with (S n + i)%nat by lia. by apply Hn.
Qed.

Lemma validate_strict_log path n es vs index :
  Forall2 encoded es vs ->
  validate_strict_lines path index (map of_bytes vs) (if (n =? 0)%nat then None else Some (Z.of_nat n)) = Ok tt
  <-> numbered_from n es /\ (es = [] \/ Z.of_nat (n + length es) <= u64_max).
Proof.
  intros Hvs. revert n index. induction Hvs as [|e v es vs [Hv Hok] Hvs IH]; intros n index.
  { simpl. split; [|done]. intros _. split; [by intros i x Hi | by left]. }
  cbn [map validate_strict_lines]. rewrite (serialized_trim e v Hv), (serialized_nonempty e v Hv), (ec_roundtrip e v Hv Hok).
  assert (match (if (n =? 0)%nat then None else Some (Z.of_nat n)) with
          | None => Some 1 | Some previous => u64_checked_add previous 1 end
          = if Z.of_nat n + 1 <=? u64_max then Some (Z.of_nat n + 1) else None) as ->.
  { destruct n as [|n]; [done|]. simpl. unfold u64_checked_add, in_u64.
    assert ((0 <=? Z.of_nat (S n) + 1) = true) as -> by (apply Z.leb_le; lia).
    change (Z.of_nat (S n)) with (Z.pos (Pos.of_succ_nat n)). done. }
  rewrite numbered_cons. destruct (Z.leb_spec (Z.of_nat n + 1) u64_max) as [Hle|Hgt].
  - destruct (Z.eqb_spec (sequence e) (Z.of_nat n + 1)) as [He|He]; simpl negb; cbn [negb].
    + rewrite He. replace (Z.of_nat n + 1) with (Z.of_nat (S n)) by lia.
      change (Some (Z.of_nat (S n))) with (if (S n =? 0)%nat then None else Some (Z.of_nat (S n))).
      rewrite IH. cbn [length]. replace (S n + length es)%nat with (n + S (length es))%nat by lia.
      split; [|naive_solver]. intros [Hn [-> |Hb]]; (split; [split; [lia|done]|]); right; simpl; lia.
    + split; [done|]. intros [[? _] _]. lia.
  - split; [done|]. intros [_ [?|Hb]]; [done|]. simpl in Hb. lia.
Qed.

Lemma validate_log path b es :
  stream_log b es ->
  validate_strict_snapshot_stream path b = Ok tt <-> contiguous es /\ Z.of_nat (length es) <= u64_max.
Proof.
  intros (vs & Hvs & ->). pose proof (validate_strict_log path 0 es vs 0 Hvs) as Hl. cbn [Nat.eqb] in Hl.
  assert (validate_strict_snapshot_stream path (log_bytes vs)
          = validate_strict_lines path 0 (map of_bytes vs) None) as ->.
  { unfold validate_strict_snapshot_stream. destruct vs as [|v vs] using rev_ind; [done|].
    pose proof (Utf8_log _ _ Hvs) as Hu.
    destruct (log_bytes (vs ++ [v])) as [|c r] eqn:Eb.
    - exfalso. unfold log_bytes in Eb. rewrite map_app, concat_app in Eb. simpl in Eb.
      apply app_eq_nil in Eb as [_ Eb]. by destruct v.
    - rewrite <- Eb in *. rewrite bool_decide_eq_true_2.
      + simpl negb. cbn [negb]. rewrite Utf8_no_error by done. unfold split_terminator. rewrite to_of_bytes.
        by rewrite (split_log es).
      + unfold log_bytes. rewrite map_app, concat_app. simpl. by rewrite app_nil_r, app_assoc, last_snoc. }
  rewrite Hl. simpl. split; (intros [Hn Hb]; split; [done|]).
  - destruct Hb as [-> |Hb]; [done|lia].
  - right. lia.
Qed.

(** A stream that does not end with a line feed is refused. *)
Lemma validate_unterminated path b c :
  last b = Some c -> c ≠ LF -> exists e, validate_strict_snapshot_stream path b = Err e.
Proof.
  intros Hl Hc. unfold validate_strict_snapshot_stream. destruct b as [|a b]; [done|].
  rewrite bool_decide_eq_false_2 by congruence. by eexists.
Qed.

(** *** One command *)

(** The stream holds the events [es]; an absent file holds none. *)
Definition stream_holds (st : option bytes) (es : list E) : Prop :=
  stream_log (default [] st) es /\ contiguous es.

(** No append is cut in the middle of a line: a failed one wrote nothing or all of it. *)
Definition atomic_io (io : TxnIo) : Prop := tx_written io = Some 0%nat \/ tx_written io = None.

Context `{!EventSourcedLaws E P D}.

Lemma decide_and_append_holds {S : Type} id io st es (verdict : P -> Result (Z -> E * S) S)
    (store_error : EventLogError D -> S) :
  stream_holds st es -> atomic_io io ->
  (forall mk, verdict (replay es) = Ok mk -> forall s, sequence (mk s).1 = s /\ readable (mk s).1 = true) ->
  let r := decide_and_append id io st verdict store_error in
  exists es', stream_holds r.2 es'
    /\ (es' = es \/ exists mk, verdict (replay es) = Ok mk /\ es' = (es ++ [(mk (Z.of_nat (length es) + 1)%Z).1])%list)
    /\ ((exists e, r.1 = store_error e)
        \/ (es' = es /\ verdict (replay es) = Err r.1)
        \/ (exists mk, verdict (replay es) = Ok mk /\ es' = (es ++ [(mk (Z.of_nat (length es) + 1)%Z).1])%list
              /\ r.1 = (mk (Z.of_nat (length es) + 1)).2)).
Proof.
  intros [Hlog Hc] Hat Hmk. cbv zeta. unfold decide_and_append, txn_begin.
  destruct (tx_begin io) as [[]|[lock source]].
  2:{ destruct lock; (exists es; split; [by split|]; split; [by left | left; by eexists]). }
  unfold txn_project. destruct (tx_read io) as [[]|source]; [|exists es; split; [by split|]; split; [by left | left; by eexists]].
  rewrite (replay_log _ _ es Hlog). destruct (verdict (replay es)) as [mk|status] eqn:Hv.
  2:{ exists es. split; [by split|]. split; [by left | right; by left]. }
  rewrite next_sequence_contiguous by done. destruct (Hmk mk eq_refl (Z.of_nat (length es) + 1)) as [Hseq Hread].
  destruct (_ <=? u64_max); [|exists es; split; [by split|]; split; [by left | left; by eexists]].
  unfold txn_append. destruct (mk (Z.of_nat (length es) + 1)) as [event done_] eqn:Emk. simpl in Hseq, Hread.
  destruct (tx_intact io) as [[]|source]; [|exists es; split; [by split|]; split; [by left | left; by eexists]].
  destruct (event_to_vec event) as [v|source] eqn:Ev; [|exists es; split; [by split|]; split; [by left | left; by eexists]].
  rewrite (ec_value event v Ev).
  assert (stream_holds (Some (default [] st ++ v ++ [LF]))%list (es ++ [event])) as Hsnoc.
  { split; [by apply stream_log_snoc | by apply contiguous_snoc]. }
  destruct (tx_append io) as [[]|source]; simpl.
  - exists (es ++ [event])%list. split; [done|].
    split; [right | right; right]; exists mk; rewrite Emk; done.
  - destruct Hat as [-> | ->].
    + exists es. simpl. rewrite app_nil_r. split; [by split|]. split; [by left | left; by eexists].
    + exists (es ++ [event])%list. rewrite take_ge by done.
      split; [done|]. split; [right; exists mk; by rewrite Emk | left; by eexists].
Qed.

(** A transaction in which nothing goes wrong. *)
Definition io_ok : TxnIo :=
  {| tx_begin := Ok tt; tx_read := Ok tt; tx_intact := Ok tt; tx_append := Ok tt; tx_written := None |}.

Lemma holds_None : stream_holds None [].
Proof. split; [exact stream_log_nil|]. by intros i e Hi. Qed.

Lemma decide_and_append_refuses {S : Type} id st es (verdict : P -> Result (Z -> E * S) S) status
    (store_error : EventLogError D -> S) :
  stream_holds st es -> verdict (replay es) = Err status ->
  decide_and_append id io_ok st verdict store_error = (status, Some (default [] st)).
Proof.
  intros [Hlog _] Hv. unfold decide_and_append, txn_begin, txn_project. cbn [tx_begin tx_read io_ok].
  by rewrite (replay_log _ _ es Hlog), Hv.
Qed.

Lemma decide_and_append_accepts {S : Type} id st es (verdict : P -> Result (Z -> E * S) S) mk v
    (store_error : EventLogError D -> S) :
  stream_holds st es -> verdict (replay es) = Ok mk -> sequence_of (replay es) < u64_max ->
  (forall s, sequence (mk s).1 = s) -> readable (mk (sequence_of (replay es) + 1)).1 = true ->
  event_to_vec (mk (sequence_of (replay es) + 1)).1 = Ok v ->
  let r := mk (sequence_of (replay es) + 1) in
  exists st', decide_and_append id io_ok st verdict store_error = (r.2, st')
    /\ stream_holds st' (es ++ [r.1])%list.
Proof.
  intros [Hlog Hc] Hv Hmax Hs Hread Hev. destruct (replay_contiguous es Hc) as [_ Hseq]. cbv zeta. rewrite Hseq in *.
  unfold decide_and_append, txn_begin, txn_project. cbn [tx_begin tx_read io_ok].
  rewrite (replay_log _ _ es Hlog), Hv, next_sequence_contiguous by done.
  destruct (Z.leb_spec (Z.of_nat (length es) + 1) u64_max); [|lia].
  pose proof (Hs (Z.of_nat (length es) + 1)) as Hseq'.
  destruct (mk (Z.of_nat (length es) + 1)) as [event done_]. simpl in *.
  unfold txn_append. cbn [tx_intact tx_append io_ok]. rewrite Hev, (ec_value _ _ Hev). eexists. split; [done|].
  split; [by apply stream_log_snoc | by apply contiguous_snoc].
Qed.

End logs.

(** ** Streams whose appends were interrupted

    With arbitrary I/O a stream is a completely written log, or such a log and a cut line (the whole line
    without its line feed included), or such a log and several lines glued into one.  [good] is what the
    caller knows of an event that was appended to a history. *)

Section interrupted.
Context {E P D : Type} `{EventSourced E P D} `{EventCodec E} `{EventBounds E} `{!EventCodecLaws E} `{!EventGlueLaws E}.
Context `{!EventSourcedLaws E P D} (good : list E -> E -> Prop).

(** The history after one more event of a command. *)
Definition grown (es es' : list E) : Prop := exists e, es' = (es ++ [e])%list /\ contiguous es' /\ good es e.

Inductive stream_state (st : option bytes) (es : list E) : Prop :=
| state_clean : stream_holds st es -> stream_state st es
| state_cut b e v k :
    st = Some (b ++ take k v)%list -> stream_holds (Some b) es -> encoded e v -> (0 < k <= length v)%nat ->
    grown es (es ++ [e]) -> stream_state st es
| state_glued b parts (ended : bool) :
    st = Some (b ++ concat parts ++ (if ended then [LF] else []))%list -> stream_holds (Some b) es ->
    (2 <= length parts)%nat -> Forall event_part parts ->
    (ended = true -> last (concat parts) = Some "}"%char) -> stream_state st es.

(** What a read of such a stream answers. *)
Inductive read_outcome (path : string) (es : list E) : Result P (EventLogError D) -> Prop :=
| read_all es' : es' = es \/ grown es es' -> read_outcome path es (Ok (replay es'))
| read_torn source :
    read_outcome path es (Ok (record_diagnostic (replay es) (diagnostic_torn_final_line_skipped (length es + 1) source)))
| read_fails source : read_outcome path es (Err (EL_Parse path (length es + 1) source)).

Lemma event_part_brace part : event_part part -> exists body, part = ("{"%char :: body)%list /\ LF ∉ body.
Proof. intros (e & v & k & Hv & Hk & ->). by eapply serialized_prefix. Qed.

Lemma glued_brace parts : parts ≠ [] -> Forall event_part parts ->
  exists body, concat parts = ("{"%char :: body)%list /\ LF ∉ body.
Proof.
  intros Hne Hp. destruct parts as [|p parts]; [done|]. apply Forall_cons in Hp as [Hp Hrest].
  destruct (event_part_brace p Hp) as (body & -> & Hb). exists (body ++ concat parts)%list. split; [done|].
  apply not_elem_of_app. split; [done|]. clear Hne Hp Hb. induction Hrest as [|q parts Hq _ IH]; [apply not_elem_of_nil|].
  destruct (event_part_brace q Hq) as (body' & -> & Hb'). simpl. apply not_elem_of_cons. split; [by vm_compute|].
  by apply not_elem_of_app.
Qed.

(** A glued line is skipped, or makes the read fail; with its line feed it always does. *)
Lemma glued_reads path b es parts (ended : bool) :
  stream_log b es -> (2 <= length parts)%nat -> Forall event_part parts -> (ended = true -> last (concat parts) = Some "}"%char) ->
  exists source, let r := replay_bytes path (b ++ concat parts ++ (if ended then [LF] else []))%list in
    r = Err (EL_Parse path (length es + 1) source)
    \/ ended = false /\ r = Ok (record_diagnostic (replay es) (diagnostic_torn_final_line_skipped (length es + 1) source)).
Proof.
  intros Hlog Hlen Hp Hend. destruct (ec_glued parts Hlen Hp) as [source Hs].
  destruct (glued_brace parts) as (body & Hb & Hlf); [by destruct parts; [simpl in Hlen; lia|]|done|].
  rewrite Hb in *. exists source. cbv zeta. rewrite (replay_bad_line path b es body ended source Hlog Hlf Hend Hs).
  destruct ended; cbn [orb]; [by left|]. case_match; [by left|by right].
Qed.

Lemma state_reads path st es : stream_state st es -> read_outcome path es (replay_bytes path (default [] st)).
Proof.
  intros [[Hlog Hc]|b e v k -> [Hlog Hc] He Hk Hg|b parts ended -> [Hlog Hc] Hlen Hp Hend]; simpl in *.
  - rewrite (replay_log path _ es Hlog). apply read_all. by left.
  - destruct (decide (k = length v)) as [->|].
    + rewrite firstn_all, (replay_unterminated path b es e v) by done. apply read_all. by right.
    + destruct (replay_torn path b es e v k Hlog (proj1 He) ltac:(lia)) as (source & _ & ->).
      case_match; [apply read_fails|apply read_torn].
  - destruct (glued_reads path b es parts ended Hlog Hlen Hp Hend) as (source & [-> |[_ ->]]); [apply read_fails|apply read_torn].
Qed.

(** What a command may do to the bytes: nothing, or append part of the line of an event it granted on what
    it read. *)
Lemma decide_and_append_bytes {S : Type} id io st (verdict : P -> Result (Z -> E * S) S) (store_error : EventLogError D -> S) :
  let st' := (decide_and_append id io st verdict store_error).2 in
  st' = st \/ st' = Some (default [] st)
  \/ exists p mk seq v w, replay_bytes (log_path id) (default [] st) = Ok p /\ verdict p = Ok mk
       /\ next_sequence p = Ok seq /\ event_to_vec (mk seq).1 = Ok v
       /\ st' = Some (default [] st ++ take w (v ++ [LF]))%list
       /\ (w = length (v ++ [LF]) \/ tx_written io = Some w).
Proof.
  cbv zeta. unfold decide_and_append, txn_begin, txn_project.
  destruct (tx_begin io) as [[]|[[] source]]; [|by left..]. right.
  destruct (tx_read io); [|by left]. destruct (replay_bytes _ _) as [p|] eqn:Hp; [|by left].
  destruct (verdict p) as [mk|] eqn:Hv; [|by left]. destruct (next_sequence p) as [seq|] eqn:Hn; [|by left].
  destruct (mk seq) as [event done_] eqn:Emk. unfold txn_append. destruct (tx_intact io); [|by left].
  destruct (event_to_vec event) as [v|] eqn:Ev; [|by left]. rewrite (ec_value _ _ Ev). right.
  destruct (tx_append io) as [[]|source].
  - exists p, mk, seq, v, (length (v ++ [LF])). rewrite Emk, firstn_all. split_and!; [done..|by left].
  - exists p, mk, seq, v, (default (length (v ++ [LF])) (tx_written io)). rewrite Emk. split_and!; [done..|].
    destruct (tx_written io); [by right|by left].
Qed.

Lemma take_line w (v : bytes) : take w (v ++ [LF])%list = (take w v ++ (if (length v <? w)%nat then [LF] else []))%list.
Proof.
  destruct (Nat.ltb_spec (length v) w).
  - rewrite !take_ge; [done|lia|rewrite length_app; simpl; lia].
  - by rewrite take_app_le, app_nil_r by lia.
Qed.

(** Gluing one more part, perhaps the last one. *)
Lemma glue_state b es parts e v w :
  stream_holds (Some b) es -> parts ≠ [] -> Forall event_part parts -> event_to_vec e = Ok v -> (0 < w)%nat ->
  stream_state (Some ((b ++ concat parts) ++ take w (v ++ [LF])))%list es.
Proof.
  intros Hst Hne Hp Hv Hw. apply (state_glued _ _ b (parts ++ [take w v]) (length v <? w)%nat); [|done|..].
  - rewrite take_line, concat_app. cbn [concat]. by rewrite app_nil_r, <- !app_assoc.
  - rewrite length_app. destruct parts; [done|simpl; lia].
  - apply Forall_app. split; [done|]. apply Forall_singleton. by exists e, v, w.
  - intros Hlt%Nat.ltb_lt. rewrite concat_app. cbn [concat]. rewrite app_nil_r, take_ge by lia.
    destruct (ec_object e v Hv) as [body ->]. by rewrite app_comm_cons, app_assoc, last_snoc.
Qed.

(** Whatever the I/O, the history keeps its events and gains at most the one that was granted on it. *)
Lemma decide_and_append_any {S : Type} id io st es (verdict : P -> Result (Z -> E * S) S) (store_error : EventLogError D -> S) :
  stream_state st es ->
  (forall mk, verdict (replay es) = Ok mk -> forall s, sequence (mk s).1 = s /\ readable (mk s).1 = true /\ good es (mk s).1) ->
  exists es', stream_state (decide_and_append id io st verdict store_error).2 es' /\ (es' = es \/ grown es es').
Proof.
  intros Hst Hmk. pose proof (decide_and_append_bytes id io st verdict store_error) as Hb. cbv zeta in Hb.
  destruct (decide_and_append id io st verdict store_error) as [status st']. cbn [snd] in *.
  destruct Hb as [->|[->|(p & mk & seq & v & w & Hp & Hverd & Hn & Hv & -> & _)]]; [by exists es; split; [|left]|..].
  { exists es. split; [|by left]. destruct Hst as [Hst|? ? ? ? -> ? ? ? ?|? ? ? -> ? ? ? ?];
      [by apply state_clean|by eapply state_cut|by eapply state_glued]. }
  destruct (decide (w = 0%nat)) as [->|Hw].
  { exists es. split; [|by left]. rewrite take_0, app_nil_r. destruct Hst as [Hst|? ? ? ? -> ? ? ? ?|? ? ? -> ? ? ? ?];
      [by apply state_clean|by eapply state_cut|by eapply state_glued]. }
  destruct Hst as [[Hlog Hc]|b e u k -> Hst He Hk Hg|b parts ended -> Hst Hlen Hparts Hend].
  - rewrite (replay_log _ _ es Hlog) in Hp. simplify_eq. rewrite next_sequence_contiguous in Hn by done.
    destruct (_ <=? u64_max); [|done]. injection Hn as <-.
    destruct (Hmk mk Hverd (Z.of_nat (length es) + 1)) as (Hseq & Hr & Hgood). set (e := (mk _).1) in *.
    assert (grown es (es ++ [e])) as Hg by (exists e; split; [done|]; split; [by apply contiguous_snoc|done]).
    rewrite take_line. destruct (Nat.ltb_spec (length v) w).
    + exists (es ++ [e])%list. split; [|by right]. apply state_clean. rewrite take_ge by lia.
      split; [by apply stream_log_snoc|by apply contiguous_snoc].
    + exists es. split; [|by left]. rewrite app_nil_r. by apply (state_cut _ _ (default [] st) e v w); [|split| |lia|].
  - exists es. split; [|by left]. cbn [from_option]. rewrite <- (app_nil_r (take k u)).
    apply (glue_state b es [take k u] (mk seq).1 v w Hst); [done| |done|lia].
    apply Forall_singleton. exists e, u, k. split; [apply He|]. split; [lia|done].
  - destruct (glued_reads (log_path id) b es parts ended (proj1 Hst) Hlen Hparts Hend) as (source & [Hr|[-> _]]).
    + cbv zeta in Hr. by pose proof (eq_trans (eq_sym Hr) Hp).
    + exists es. split; [|by left]. cbn [from_option]. rewrite app_nil_r.
      apply (glue_state b es parts (mk seq).1 v w Hst); [|done|done|lia]. by intros ->; simpl in Hlen; lia.
Qed.

(** A command on a stream that does not read back leaves it alone. *)
Lemma decide_and_append_unread {S : Type} id io b err (verdict : P -> Result (Z -> E * S) S) (store_error : EventLogError D -> S) :
  replay_bytes (log_path id) b = Err err -> (decide_and_append id io (Some b) verdict store_error).2 = Some b.
Proof.
  intros Hr. destruct (decide_and_append_bytes id io (Some b) verdict store_error) as [->|[->|(p & ? & ? & ? & ? & Hp & _)]]; [done..|].
  by pose proof (eq_trans (eq_sym Hr) Hp).
Qed.

End interrupted.

(** A recovery read gives what the next transaction would project. *)
Lemma snapshot_reads_log {E P D} `{EventSourced E P D} `{EventCodec E} `{EventBounds E} `{!EventCodecLaws E} id st es file :
  stream_holds st es ->
  match st with
  | None => snapshot_under_quiescence id (Ok tt) (Ok None) = Ok (replay es)
  | Some b => mo_bytes file = b -> mo_leaf file = Ok tt -> mo_lock_after file = Ok tt ->
      snapshot_under_quiescence id (Ok tt) (Ok (Some file)) = Ok (replay es)
  end.
Proof.
  intros [Hlog _]. pose proof (replay_log (log_path id) _ es Hlog) as Hr. destruct st as [b|]; simpl in *.
  - intros Hb Hl Hk. unfold snapshot_under_quiescence. simpl. rewrite Hl, Hk, Hb. exact Hr.
  - exact Hr.
Qed.

(** ** Capture *)

(** What a successful capture says about one stream. *)
Definition member_stable (id : StreamId) (validate : string -> bytes -> Result unit (EventLogError string))
    (first second : Result (option MemberObservation) string) (m : option QuiescedEventLogMember) : Prop :=
  match m with
  | None => first = Ok None /\ second = Ok None
  | Some q => exists f g, first = Ok (Some f) /\ second = Ok (Some g)
      /\ qm_relative_path q = log_path id /\ qm_bytes q = mo_bytes f /\ mo_bytes g = mo_bytes f
      /\ mo_identity g = mo_identity f /\ mo_after_identity f = mo_identity f
      /\ mo_before_length f = Z.of_nat (length (mo_bytes f)) /\ mo_after_length f = Z.of_nat (length (mo_bytes f))
      /\ validate (log_path id) (mo_bytes f) = Ok tt
  end.

Lemma capture_member_Ok id validate seen r :
  capture_snapshot_member id validate seen = Ok r ->
  match r with
  | None => seen = Ok None
  | Some m => exists f, seen = Ok (Some f) /\ cm_identity m = mo_identity f
      /\ cm_member m = {| qm_relative_path := log_path id; qm_bytes := mo_bytes f |}
      /\ mo_after_identity f = mo_identity f
      /\ mo_before_length f = Z.of_nat (length (mo_bytes f)) /\ mo_after_length f = Z.of_nat (length (mo_bytes f))
      /\ validate (log_path id) (mo_bytes f) = Ok tt
  end.
Proof.
  unfold capture_snapshot_member. destruct seen as [[f|]|source]; [|by intros [= <-]|done].
  destruct (mo_leaf f) as [[]|]; [|done]. simpl. destruct (in_u64 _); [|done]. simpl.
  destruct (Z.eqb_spec (mo_before_length f) (mo_after_length f)); [|done]. simpl.
  destruct (Z.eqb_spec (mo_after_length f) (Z.of_nat (length (mo_bytes f)))); [|done]. simpl.
  case_bool_decide; [|done]. simpl. destruct (mo_lock_after f) as [[]|]; [|done]. simpl.
  destruct (validate _ _) as [[]|] eqn:Ev; [|done]. simpl. intros [= <-]. exists f. simpl.
  repeat split; congruence.
Qed.

Lemma member_stable_of id validate first second r :
  capture_snapshot_member id validate first = Ok r -> capture_snapshot_member id validate second = Ok r ->
  member_stable id validate first second (cm_member <$> r).
Proof.
  intros H1%capture_member_Ok H2%capture_member_Ok. destruct r as [m|]; simpl in *; [|done].
  destruct H1 as (f & -> & Hi & Hm & ? & ? & ? & ?), H2 as (g & -> & Hi' & Hm' & _).
  exists f, g. rewrite Hm in *. simplify_eq/=. repeat split; congruence.
Qed.

(** ** Claims about the engine *)

(** C34: what a crash during an append leaves readable.  Reading back a log followed by any part of
    the next line gives the fold of the complete events; a line whose only missing byte is the line
    feed counts as complete; any other part is skipped with a diagnostic, unless its text ends in a
    closing brace: then the read fails, although the line is just as torn.  A complete line that holds
    a value its fields refuse makes the read fail. *)
Theorem replay_after_crash {E P D} `{EventSourced E P D} `{EventCodec E} `{EventBounds E} `{!EventCodecLaws E} path b es e v k :
  stream_log b es -> event_to_vec e = Ok v ->
  let disk := (b ++ take k (v ++ [LF]))%list in
  if (k =? 0)%nat then replay_bytes path disk = Ok (replay es)
  else if (length v <=? k)%nat then
    if readable e then replay_bytes path disk = Ok (replay (es ++ [e]))
    else exists source, replay_bytes path disk = Err (EL_Parse path (length es + 1) source)
  else exists source, replay_bytes path disk
         = if ends_with_char "}"%char (trim (from_utf8_lossy (take k v)))
           then Err (EL_Parse path (length es + 1) source)
           else Ok (record_diagnostic (replay es) (diagnostic_torn_final_line_skipped (length es + 1) source)).
Proof.
  intros Hlog Hv disk. unfold disk. destruct (Nat.eqb_spec k 0) as [-> |Hk].
  { simpl. rewrite app_nil_r. by apply replay_log. }
  destruct (Nat.leb_spec (length v) k) as [Hle|Hlt].
  - assert (take k (v ++ [LF]) = v ++ (if (length v <? k)%nat then [LF] else []))%list as ->.
    { destruct (Nat.ltb_spec (length v) k); [by rewrite take_ge by (rewrite length_app; simpl; lia)|].
      assert (k = length v) as -> by lia. by rewrite take_app_length, app_nil_r. }
    destruct (readable e) eqn:Hr; [|by eapply replay_unreadable].
    destruct (_ <? _)%nat; [apply replay_log; by apply stream_log_snoc|rewrite app_nil_r; by apply replay_unterminated].
  - rewrite take_app_le by lia. destruct (replay_torn path b es e v k Hlog Hv ltac:(lia)) as (source & _ & ->).
    by exists source.
Qed.

(** An append after a torn tail is acknowledged and yet lost.  The engine neither removes the
    tail nor ends its line, so the new event is written on the same line; when that line is not an
    event, every later read fails with a parse error and the stream accepts no further command. *)
Theorem append_after_torn_tail_poisons {E P D} `{EventSourced E P D} `{EventCodec E} `{EventBounds E} `{!EventCodecLaws E}
    id io b es e v k e' v' source :
  stream_log b es -> event_to_vec e = Ok v -> (0 < k)%nat -> event_to_vec e' = Ok v' ->
  tx_intact io = Ok tt -> tx_append io = Ok tt ->
  event_from_str (of_bytes (to_bytes (from_utf8_lossy (take k v)) ++ v')) = Err source ->
  exists b', txn_append (D := D) id io (b ++ take k v)%list e' = (Ok tt, b')
    /\ replay_bytes (log_path id) b' = Err (EL_Parse (log_path id) (length es + 1) source)
    /\ forall (S : Type) io' (verdict : P -> Result (Z -> E * S) S) store_error,
         tx_begin io' = Ok tt -> tx_read io' = Ok tt ->
         decide_and_append id io' (Some b') verdict store_error
         = (store_error (EL_Parse (log_path id) (length es + 1) source), Some b').
Proof.
  intros Hlog Hv Hk Hv' Hi Ha Hs.
  assert (replay_bytes (log_path id) (b ++ take k v ++ v' ++ [LF])%list
          = Err (EL_Parse (log_path id) (length es + 1) source)) as Hr by (by eapply replay_glued).
  exists (b ++ take k v ++ v' ++ [LF])%list. split; [|split; [done|]].
  - unfold txn_append. rewrite Hi, Hv', (ec_value e' v' Hv'), Ha. by rewrite <- app_assoc.
  - intros S io' verdict store_error Hb Hrd. unfold decide_and_append, txn_begin, txn_project.
    rewrite Hb, Hrd. cbn [default option_union]. simpl. by rewrite Hr.
Qed.

(** The strict validation used before a backup accepts a completely written log exactly when
    its events are numbered 1, 2, ... without a gap, and refuses every log with a torn tail. *)
Theorem strict_validation_exact {E P D} `{EventSourced E P D} `{EventCodec E} `{EventBounds E} `{!EventCodecLaws E} path b es :
  stream_log b es ->
  (validate_strict_snapshot_stream path b = Ok tt <-> contiguous es /\ Z.of_nat (length es) <= u64_max)
  /\ (forall e v k, event_to_vec e = Ok v -> (0 < k <= length v)%nat ->
        exists err, validate_strict_snapshot_stream path (b ++ take k v)%list = Err err).
Proof.
  intros Hlog. split; [by apply validate_log|]. intros e v k Hv Hk.
  destruct (last (take k v)) as [c|] eqn:Hl.
  - apply (validate_unterminated path _ c).
    + rewrite last_app, Hl. done.
    + intros ->. destruct (ec_text e v Hv) as [_ Hn]. apply Hn.
      apply last_Some in Hl as [x Hx]. rewrite <- (take_drop k v), Hx. set_solver.
  - apply last_None in Hl. apply (f_equal length) in Hl. rewrite length_take in Hl. simpl in Hl. lia.
Qed.

(** A successful capture is stable and strict.  Both enumerations saw the same streams present,
    with the same identity and bytes, each read while its length did not change, and the bytes of
    every member passed the strict validation of its own stream. *)
Theorem capture_is_stable validators locks first second snapshot :
  capture_quiesced_event_logs validators locks first second = Ok snapshot ->
  locks = Ok tt
  /\ member_stable StreamId_Memory (sv_memory validators) (ps_memory first) (ps_memory second) (ps_memory snapshot)
  /\ member_stable StreamId_Research (sv_research validators) (ps_research first) (ps_research second)
       (ps_research snapshot)
  /\ member_stable StreamId_Governance (sv_governance validators) (ps_governance first) (ps_governance second)
       (ps_governance snapshot).
Proof.
  unfold capture_quiesced_event_logs. destruct locks as [[]|]; [|done]. simpl. unfold capture_pass.
  destruct (capture_snapshot_member StreamId_Memory _ (ps_memory first)) as [m1|] eqn:M1; [|done]. simpl.
  destruct (capture_snapshot_member StreamId_Research _ (ps_research first)) as [r1|] eqn:R1; [|done]. simpl.
  destruct (capture_snapshot_member StreamId_Governance _ (ps_governance first)) as [g1|] eqn:G1; [|done]. simpl.
  destruct (capture_snapshot_member StreamId_Memory _ (ps_memory second)) as [m2|] eqn:M2; [|done]. simpl.
  destruct (capture_snapshot_member StreamId_Research _ (ps_research second)) as [r2|] eqn:R2; [|done]. simpl.
  destruct (capture_snapshot_member StreamId_Governance _ (ps_governance second)) as [g2|] eqn:G2; [|done]. simpl.
  unfold ensure_matches. simpl. case_bool_decide as Em; [|done]. simpl. case_bool_decide as Er; [|done]. simpl.
  case_bool_decide as Eg; [|done]. simpl. intros [= <-]. subst m2 r2 g2. simpl.
  split; [done|]. split; [|split]; by apply member_stable_of.
Qed.

(** ** A concrete codec *)

Module TableEventCodec.

Section codec.
Context {E : Type} `{EqDecision E} `{EventBounds E} (tbl : list E).

(** Events drawn from a table, written as their index in unary between braces. *)
Definition line (n : nat) : bytes := ("{"%char :: repeat "x"%char n ++ ["}"%char])%list.

Definition decode (s : string) : Result E string :=
  let n := (length (to_bytes s) - 2)%nat in
  if bool_decide (to_bytes s = line n) then
    match tbl !! n with Some e => if readable e then Ok e else Err "refused value" | None => Err "unknown event" end
  else Err "syntax error".

#[export] Instance codec : EventCodec E := {|
  event_to_vec e := match index_of e tbl with Some n => Ok (line n) | None => Err "unserializable" end;
  value_from_slice _ := Ok tt;
  event_from_str := decode
|}.

Lemma length_line n : length (line n) = (n + 2)%nat.
Proof. unfold line. simpl. rewrite length_app, repeat_length. simpl. lia. Qed.

Lemma code_ascii (l : bytes) : Forall (fun c => (code c <? 128)%N = true) l -> Utf8 l.
Proof.
  induction 1 as [|c l Hc _ IH]; [constructor|]. change (c :: l) with ([c] ++ l)%list.
  apply Utf8_app; [by apply Utf8_ascii | done].
Qed.

Lemma take_repeat {A} (c : A) k n : (k <= n)%nat -> take k (repeat c n) = repeat c k.
Proof. revert n. induction k as [|k IH]; intros [|n] Hk; simpl; [done|done|lia|]. f_equal. apply IH. lia. Qed.

Lemma ascii_repeat n : Forall (fun c => (code c <? 128)%N = true) (repeat "x"%char n).
Proof. by induction n; constructor. Qed.

Lemma decode_line e n : index_of e tbl = Some n ->
  decode (of_bytes (line n)) = if readable e then Ok e else Err "refused value".
Proof.
  intros Hn. unfold decode. rewrite to_of_bytes, length_line, Nat.add_sub, bool_decide_eq_true_2 by done.
  by rewrite (index_of_lookup e tbl n Hn).
Qed.

(** A text of these letters is read as it stands. *)
Definition letter (c : ascii) : Prop := c = "{"%char \/ c = "x"%char \/ c = "}"%char.

Lemma letter_text l c d : Forall letter l -> head l = Some c -> last l = Some d ->
  trim (from_utf8_lossy l) = of_bytes l.
Proof.
  intros Hl Hc Hd. rewrite Utf8_from_lossy.
  - rewrite trim_of_bytes. f_equal. rewrite Forall_forall in Hl.
    apply (trim_bytes_solid _ c d); [done|done|..].
    + destruct (Hl c) as [->|[->| ->]]; [destruct l; [done|simplify_eq/=; by left]|done..].
    + apply last_Some_elem_of in Hd. by destruct (Hl d Hd) as [->|[->| ->]].
  - apply code_ascii. eapply Forall_impl; [exact Hl|]. by intros ? [->|[->| ->]].
Qed.

Lemma letter_line n : Forall letter (line n).
Proof.
  constructor; [by left|]. apply Forall_app. split; [|by repeat constructor; right; right].
  apply Forall_forall. intros c Hc%list_elem_of_In%repeat_spec. right; by left.
Qed.

(** Only the first letter of a line is an opening brace. *)
Lemma decode_two_braces l x : head x = Some "{"%char -> l ≠ [] -> decode (of_bytes (l ++ x)) = Err "syntax error".
Proof.
  intros Hx Hl. unfold decode. rewrite to_of_bytes. rewrite bool_decide_eq_false_2; [done|]. unfold line.
  destruct l as [|c l]; [done|]. destruct x as [|d x]; [done|]. simplify_eq/=. intros [= _ Hin].
  assert ("{"%char ∈ l ++ "{"%char :: x)%list as Hb by set_solver. rewrite Hin in Hb.
  rewrite elem_of_app, list_elem_of_singleton, list_elem_of_In in Hb. by destruct Hb as [?%repeat_spec|?].
Qed.

Lemma event_codec_laws : EventCodecLaws E.
Proof.
  split; cbn; intros e v; [| | | | |intros k]; (destruct (index_of e tbl) as [n|] eqn:Hn; [|done]; intros [= <-]).
  - done.
  - intros Hr. by rewrite (decode_line e n Hn), Hr.
  - intros Hr. rewrite (decode_line e n Hn), Hr. by eexists.
  - by eexists.
  - split.
    + apply code_ascii. constructor; [done|]. apply Forall_app. split; [apply ascii_repeat | by repeat constructor].
    + unfold line. rewrite elem_of_cons, elem_of_app, list_elem_of_singleton, list_elem_of_In.
      intros [?|[?%repeat_spec|?]]; discriminate.
  - rewrite length_line. intros Hk. destruct k as [|k]; [lia|].
    assert (take (S k) (line n) = "{"%char :: repeat "x"%char k)%list as Et.
    { unfold line. simpl. f_equal. rewrite take_app_le by (rewrite repeat_length; lia).
      apply take_repeat. lia. }
    assert (last ("{"%char :: repeat "x"%char k) = Some (if (k =? 0)%nat then "{"%char else "x"%char)) as Hlast.
    { destruct k as [|k]; [done|]. cbn [repeat]. rewrite repeat_cons, app_comm_cons, last_snoc. done. }
    rewrite (letter_text _ "{"%char (if (k =? 0)%nat then "{"%char else "x"%char));
      [|apply Forall_take, letter_line|by rewrite Et|by rewrite Et].
    rewrite Et. unfold decode. rewrite to_of_bytes. rewrite bool_decide_eq_false_2; [by eexists|].
    intros E'. rewrite E' in Hlast. unfold line in Hlast. rewrite (app_comm_cons _ _ "{"%char), last_snoc in Hlast.
    by destruct (k =? 0)%nat.
Qed.

Lemma event_part_letters part : event_part (E := E) part -> Forall letter part /\ head part = Some "{"%char.
Proof.
  intros (e & v & k & Hv & Hk & ->). cbn in Hv. destruct (index_of e tbl) as [n|]; [|done]. injection Hv as <-.
  split; [apply Forall_take, letter_line|]. by destruct k; [lia|].
Qed.

Lemma event_glue_laws : EventGlueLaws E.
Proof.
  intros parts Hlen Hparts. assert (Forall letter (concat parts)) as Hl.
  { apply Forall_concat. eapply Forall_impl; [exact Hparts|]. intros part Hp. by apply event_part_letters. }
  destruct parts as [|p [|q parts]]; [simpl in Hlen; lia..|].
  rewrite !Forall_cons in Hparts. destruct Hparts as ([_ Hp]%event_part_letters & [_ Hq]%event_part_letters & _).
  destruct (last (concat (p :: q :: parts))) as [d|] eqn:Hd.
  2:{ apply last_None in Hd. by destruct p. }
  rewrite (letter_text _ "{"%char d); [|done|by destruct p|done]. simpl. exists "syntax error".
  apply decode_two_braces; [by destruct q|by destruct p].
Qed.

End codec.
End TableEventCodec.
