(* ===== verification/GovernanceLedger.v ===== *)
(** * The arbitration ledger

    [forge-core-eventlog/src/governance/]: conflicts between principals, recorded, resolved and
    escalated through the event log.  The projection maps conflict ids to contracts; the commands
    [record], [arbitrate] and [escalate] decide on it and append one event under the stream lock.
    Their results are modelled by their status; the conflict id they carry is the one asked about.
    The clock reading is an argument.

    The abstract ledger at the end is what the component promises: conflicts are added once, a
    pending one is decided at most once by an authorized principal, and nothing else changes. *)

From S2P Require Import Prelude RustStr BTree Contracts EventLog.

Local Open Scope string_scope.
Local Open Scope Z_scope.

Inductive GovernanceEvent :=
| Detected (sequence at_unix : Z) (conflict : ConflictContract)
| Resolved (sequence at_unix : Z) (conflict_id : StableId) (arbiter : PrincipalId) (decision : ResolutionDecision)
| Escalated (sequence at_unix : Z) (conflict_id : StableId).

#[export] Instance GovernanceEvent_eq_dec : EqDecision GovernanceEvent.
Proof. solve_decision. Defined.

Definition event_sequence (e : GovernanceEvent) : Z :=
  match e with Detected s _ _ | Resolved s _ _ _ _ | Escalated s _ _ => s end.
Definition event_at_unix (e : GovernanceEvent) : Z :=
  match e with Detected _ t _ | Resolved _ t _ _ _ | Escalated _ t _ => t end.

Inductive ArbitrationProjectionSeverity :=
| ArbitrationProjectionSeverity_Warning | ArbitrationProjectionSeverity_Error.

Record ArbitrationProjectionDiagnostic := {
  apd_severity : ArbitrationProjectionSeverity;
  apd_code : string;
  apd_message : string
}.

Record ArbitrationProjection := {
  ap_sequence : Z;
  ap_conflicts : gmap string ConflictContract;
  ap_diagnostics : list ArbitrationProjectionDiagnostic
}.

Definition ArbitrationProjection_default : ArbitrationProjection :=
  {| ap_sequence := 0; ap_conflicts := ∅; ap_diagnostics := [] |}.

Definition ap_push (d : ArbitrationProjectionDiagnostic) (p : ArbitrationProjection) : ArbitrationProjection :=
  {| ap_sequence := ap_sequence p; ap_conflicts := ap_conflicts p; ap_diagnostics := (ap_diagnostics p ++ [d])%list |}.

Definition ap_set_conflicts (m : gmap string ConflictContract) (p : ArbitrationProjection) : ArbitrationProjection :=
  {| ap_sequence := ap_sequence p; ap_conflicts := m; ap_diagnostics := ap_diagnostics p |}.

Definition target_missing (what : string) (conflict_id : StableId) : ArbitrationProjectionDiagnostic :=
  {| apd_severity := ArbitrationProjectionSeverity_Warning; apd_code := "resolution_target_missing";
     apd_message := what +:+ " event targeted unknown conflict " +:+ StableId_0 conflict_id |}.

(** [GovernanceDomain::apply]. *)
Definition governance_apply (p : ArbitrationProjection) (event : GovernanceEvent) : ArbitrationProjection :=
  match event with
  | Detected _ _ conflict =>
      ap_set_conflicts (<[StableId_0 (cf_conflict_id conflict) := conflict]> (ap_conflicts p)) p
  | Resolved _ at_unix conflict_id arbiter decision =>
      match ap_conflicts p !! StableId_0 conflict_id with
      | Some conflict =>
          ap_set_conflicts (<[StableId_0 conflict_id :=
            set_resolution (ConflictResolutionState_Resolved arbiter at_unix decision) conflict]> (ap_conflicts p)) p
      | None => ap_push (target_missing "Resolved" conflict_id) p
      end
  | Escalated _ _ conflict_id =>
      match ap_conflicts p !! StableId_0 conflict_id with
      | Some conflict =>
          ap_set_conflicts (<[StableId_0 conflict_id :=
            set_resolution ConflictResolutionState_Escalated conflict]> (ap_conflicts p)) p
      | None => ap_push (target_missing "Escalated" conflict_id) p
      end
  end.

#[export] Instance GovernanceDomain
    : EventSourced GovernanceEvent ArbitrationProjection ArbitrationProjectionDiagnostic := {|
  sequence := event_sequence;
  projection_default := ArbitrationProjection_default;
  es_apply := governance_apply;
  record_diagnostic p d := ap_push d p;
  sequence_of := ap_sequence;
  advance_sequence p s := {| ap_sequence := s; ap_conflicts := ap_conflicts p; ap_diagnostics := ap_diagnostics p |};
  diagnostic_out_of_order_event_ignored event_seq projection_seq := {|
    apd_severity := ArbitrationProjectionSeverity_Warning; apd_code := CODE_OUT_OF_ORDER_EVENT_IGNORED;
    apd_message := "event sequence " +:+ fmt_int event_seq +:+ " <= projection sequence "
                   +:+ fmt_int projection_seq +:+ "; ignored" |};
  diagnostic_torn_final_line_skipped line_number source := {|
    apd_severity := ArbitrationProjectionSeverity_Warning; apd_code := CODE_TORN_FINAL_LINE_SKIPPED;
    apd_message := "skipped incomplete final line " +:+ fmt_nat line_number +:+ ": " +:+ source |}
|}.

#[export] Instance GovernanceDomain_laws
    : EventSourcedLaws GovernanceEvent ArbitrationProjection ArbitrationProjectionDiagnostic.
Proof. by split. Qed.

(** The contract types of an event are read without checks on their values. *)
#[export] Instance GovernanceBounds : EventBounds GovernanceEvent := fun _ => true.

Definition GovernanceError : Type := EventLogError ArbitrationProjectionDiagnostic.

Inductive RecordStatus :=
| RecordStatus_Recorded (sequence : Z)
| RecordStatus_AlreadyRecorded
| RecordStatus_StoreError (e : GovernanceError).

Inductive ArbitrateStatus :=
| ArbitrateStatus_Resolved (sequence : Z)
| ArbitrateStatus_DeniedByGate
| ArbitrateStatus_ConflictNotFound
| ArbitrateStatus_NotPending
| ArbitrateStatus_StoreError (e : GovernanceError).

Inductive EscalateStatus :=
| EscalateStatus_Escalated (sequence : Z)
| EscalateStatus_DeniedByGate
| EscalateStatus_ConflictNotFound
| EscalateStatus_NotPending
| EscalateStatus_StoreError (e : GovernanceError).

Definition is_pending (c : ConflictContract) : bool :=
  match cf_resolution c with ConflictResolutionState_Pending => true | _ => false end.

Section commands.
Context `{EventCodec GovernanceEvent}.

Definition record_with_durability (io : TxnIo) (st : option bytes) (conflict : ConflictContract) (now_unix : Z)
    : RecordStatus * option bytes :=
  decide_and_append StreamId_Governance io st
    (fun projection =>
       match ap_conflicts projection !! StableId_0 (cf_conflict_id conflict) with
       | Some _ => Err RecordStatus_AlreadyRecorded
       | None => Ok (fun seq => (Detected seq now_unix conflict, RecordStatus_Recorded seq))
       end)
    RecordStatus_StoreError.

Definition arbitrate_with_durability (io : TxnIo) (st : option bytes) (conflict_id : StableId)
    (arbiter : PrincipalId) (decision : ResolutionDecision) (policy : GovernancePolicy) (now_unix : Z)
    : ArbitrateStatus * option bytes :=
  if negb (can_arbitrate policy arbiter) then (ArbitrateStatus_DeniedByGate, st) else
  decide_and_append StreamId_Governance io st
    (fun projection =>
       match ap_conflicts projection !! StableId_0 conflict_id with
       | None => Err ArbitrateStatus_ConflictNotFound
       | Some conflict =>
           if negb (is_pending conflict) then Err ArbitrateStatus_NotPending
           else Ok (fun seq => (Resolved seq now_unix conflict_id arbiter decision, ArbitrateStatus_Resolved seq))
       end)
    ArbitrateStatus_StoreError.

Definition escalate_with_durability (io : TxnIo) (st : option bytes) (conflict_id : StableId)
    (principal : PrincipalId) (policy : GovernancePolicy) (now_unix : Z) : EscalateStatus * option bytes :=
  if negb (can_arbitrate policy principal) then (EscalateStatus_DeniedByGate, st) else
  decide_and_append StreamId_Governance io st
    (fun projection =>
       match ap_conflicts projection !! StableId_0 conflict_id with
       | None => Err EscalateStatus_ConflictNotFound
       | Some conflict =>
           if negb (is_pending conflict) then Err EscalateStatus_NotPending
           else Ok (fun seq => (Escalated seq now_unix conflict_id, EscalateStatus_Escalated seq))
       end)
    EscalateStatus_StoreError.

Definition project (io : TxnIo) (st : option bytes) : Result ArbitrationProjection GovernanceError :=
  match txn_begin StreamId_Governance io st with
  | Err e => Err e
  | Ok b => txn_project StreamId_Governance io b
  end.

Definition list_conflicts (io : TxnIo) (st : option bytes) (filter : option ConflictResolutionState)
    : Result ArbitrationProjection GovernanceError :=
  match project io st with
  | Err e => Err e
  | Ok projection =>
      let conflicts := match filter with
                       | Some want => List.filter (fun c => bool_decide (cf_resolution c = want))
                                        (map_values (ap_conflicts projection))
                       | None => map_values (ap_conflicts projection)
                       end in
      Ok {| ap_sequence := ap_sequence projection;
            ap_conflicts := foldl (fun m c => <[StableId_0 (cf_conflict_id c) := c]> m) ∅ conflicts;
            ap_diagnostics := ap_diagnostics projection |}
  end.

End commands.

(** ** The abstract ledger *)

Abbreviation Ledger := (gmap string ConflictContract).

Definition conflict_key (c : ConflictContract) : string := StableId_0 (cf_conflict_id c).

Inductive ledger_step : Ledger -> Ledger -> Prop :=
| ledger_detect L c : L !! conflict_key c = None -> ledger_step L (<[conflict_key c := c]> L)
| ledger_resolve L k c policy arbiter at_unix decision :
    can_arbitrate policy arbiter = true -> L !! k = Some c -> is_pending c = true ->
    ledger_step L (<[k := set_resolution (ConflictResolutionState_Resolved arbiter at_unix decision) c]> L)
| ledger_escalate L k c policy principal :
    can_arbitrate policy principal = true -> L !! k = Some c -> is_pending c = true ->
    ledger_step L (<[k := set_resolution ConflictResolutionState_Escalated c]> L).

(** Everything but the resolution. *)
Definition same_attribution (c d : ConflictContract) : Prop :=
  set_resolution ConflictResolutionState_Pending c = set_resolution ConflictResolutionState_Pending d.

(** What a step keeps of a conflict: its attribution, and its resolution once decided. *)
Definition conflict_kept (L L' : Ledger) : Prop :=
  forall k c, L !! k = Some c ->
    exists d, L' !! k = Some d /\ same_attribution c d /\ (is_pending c = false -> d = c).

Lemma conflict_kept_refl L : conflict_kept L L.
Proof. intros k c Hk. by exists c. Qed.

Lemma conflict_kept_trans L1 L2 L3 : conflict_kept L1 L2 -> conflict_kept L2 L3 -> conflict_kept L1 L3.
Proof.
  intros H12 H23 k c Hk. destruct (H12 k c Hk) as (d & Hd & Ha & Hp). destruct (H23 k d Hd) as (e & He & Ha' & Hp').
  exists e. split; [done|]. split; [by transitivity (set_resolution ConflictResolutionState_Pending d)|].
  intros Hn. specialize (Hp Hn). subst d. by apply Hp'.
Qed.

Lemma ledger_step_kept L L' : ledger_step L L' -> conflict_kept L L'.
Proof.
  intros Hs k c Hk. destruct Hs as [L x Hx|L j x policy a t d Ha Hj Hp|L j x policy a Ha Hj Hp].
  - destruct (decide (conflict_key x = k)) as [<-|Hne]; [congruence|]. exists c. by rewrite lookup_insert_ne.
  - destruct (decide (j = k)) as [->|Hne]; [|exists c; by rewrite lookup_insert_ne].
    rewrite Hk in Hj. simplify_eq. rewrite lookup_insert_eq. eexists. split; [done|]. split; [done|]. congruence.
  - destruct (decide (j = k)) as [->|Hne]; [|exists c; by rewrite lookup_insert_ne].
    rewrite Hk in Hj. simplify_eq. rewrite lookup_insert_eq. eexists. split; [done|]. split; [done|]. congruence.
Qed.

Section ledger.
Context `{EventCodec GovernanceEvent} `{!EventCodecLaws GovernanceEvent}.

(** ** Runs *)

(** One command, with an I/O outcome among those allowed. *)
Inductive gov_step (allowed : TxnIo -> Prop) (st : option bytes) : option bytes -> Prop :=
| gov_record io conflict now : allowed io -> gov_step allowed st (record_with_durability io st conflict now).2
| gov_arbitrate io id arbiter decision policy now :
    allowed io -> gov_step allowed st (arbitrate_with_durability io st id arbiter decision policy now).2
| gov_escalate io id principal policy now :
    allowed io -> gov_step allowed st (escalate_with_durability io st id principal policy now).2.

(** What the commands reach with any I/O outcome, and without an append that is cut in the middle of a
    line. *)
Definition gov_reachable : option bytes -> Prop := rtc (gov_step (fun _ => True)) None.
Definition gov_atomic_reachable : option bytes -> Prop := rtc (gov_step atomic_io) None.

Definition ledger (es : list GovernanceEvent) : Ledger := ap_conflicts (replay es).

(** The events a command may append. *)
Definition legitimate (L : Ledger) (e : GovernanceEvent) : Prop :=
  match e with
  | Detected _ _ c => L !! conflict_key c = None
  | Resolved _ _ id arbiter _ =>
      exists policy c, can_arbitrate policy arbiter = true /\ L !! StableId_0 id = Some c /\ is_pending c = true
  | Escalated _ _ id =>
      exists policy principal c, can_arbitrate policy principal = true /\ L !! StableId_0 id = Some c
        /\ is_pending c = true
  end.

Lemma legitimate_step es e :
  contiguous (es ++ [e]) -> legitimate (ledger es) e ->
  ledger_step (ledger es) (ledger (es ++ [e])) /\ ap_diagnostics (replay (es ++ [e])) = ap_diagnostics (replay es).
Proof.
  intros Hc Hl. unfold ledger. rewrite (replay_snoc es e Hc). destruct e as [s t c|s t id a d|s t id]; simpl in *.
  - split; [|done]. by apply ledger_detect.
  - destruct Hl as (policy & c & Ha & Hk & Hp). unfold ledger in Hk. rewrite Hk. simpl. split; [|done].
    by eapply ledger_resolve.
  - destruct Hl as (policy & principal & c & Ha & Hk & Hp). unfold ledger in Hk. rewrite Hk. simpl. split; [|done].
    by eapply ledger_escalate.
Qed.

(** A command that only appends legitimate events. *)
Lemma command_refines {S : Type} io st es (verdict : ArbitrationProjection -> Result (Z -> GovernanceEvent * S) S)
    store_error :
  stream_holds st es -> atomic_io io ->
  (forall mk, verdict (replay es) = Ok mk -> forall s, sequence (mk s).1 = s /\ legitimate (ledger es) (mk s).1) ->
  exists es', stream_holds (decide_and_append StreamId_Governance io st verdict store_error).2 es'
    /\ rtc ledger_step (ledger es) (ledger es') /\ ap_diagnostics (replay es') = ap_diagnostics (replay es).
Proof.
  intros Hst Hat Hv.
  destruct (decide_and_append_holds StreamId_Governance io st es verdict store_error Hst Hat)
    as (es' & Hst' & Hes & _); [intros mk Hmk s; split; [by apply Hv|done]|].
  exists es'. split; [done|]. destruct Hes as [-> |(mk & Hmk & ->)]; [done|]. destruct Hst' as [_ Hc].
  destruct (legitimate_step es _ Hc) as [Hs Hd]; [by apply Hv|]. split; [by apply rtc_once | done].
Qed.

(** Every command is a decision on the projection that grants legitimate events only. *)
Lemma gov_step_decides allowed st st' : gov_step allowed st st' ->
  st' = st \/ exists (S : Type) io (verdict : ArbitrationProjection -> Result (Z -> GovernanceEvent * S) S) store_error,
    allowed io /\ st' = (decide_and_append StreamId_Governance io st verdict store_error).2
    /\ forall es mk, verdict (replay es) = Ok mk -> forall s, sequence (mk s).1 = s /\ legitimate (ledger es) (mk s).1.
Proof.
  intros Hs. destruct Hs as [io c now Ha|io id a d policy now Ha|io id a policy now Ha].
  - right. eexists _, io, _, _. split; [done|]. split; [reflexivity|]. intros es mk. cbv beta.
    destruct (ap_conflicts (replay es) !! StableId_0 (cf_conflict_id c)) eqn:Ek; [done|]. intros [= <-] s. done.
  - unfold arbitrate_with_durability. destruct (can_arbitrate policy a) eqn:Hp; simpl; [|by left].
    right. eexists _, io, _, _. split; [done|]. split; [reflexivity|]. intros es mk. cbv beta.
    destruct (ap_conflicts (replay es) !! StableId_0 id) as [c|] eqn:Ek; [|done].
    destruct (is_pending c) eqn:Ep; simpl; [|done]. intros [= <-] s. split; [done|]. by exists policy, c.
  - unfold escalate_with_durability. destruct (can_arbitrate policy a) eqn:Hp; simpl; [|by left].
    right. eexists _, io, _, _. split; [done|]. split; [reflexivity|]. intros es mk. cbv beta.
    destruct (ap_conflicts (replay es) !! StableId_0 id) as [c|] eqn:Ek; [|done].
    destruct (is_pending c) eqn:Ep; simpl; [|done]. intros [= <-] s. split; [done|]. by exists policy, a, c.
Qed.

Lemma gov_step_refines st st' es :
  stream_holds st es -> gov_step atomic_io st st' ->
  exists es', stream_holds st' es' /\ rtc ledger_step (ledger es) (ledger es')
    /\ ap_diagnostics (replay es') = ap_diagnostics (replay es).
Proof.
  intros Hst [->|(S & io & verdict & store_error & Hat & -> & Hv)]%gov_step_decides; [by exists es|].
  by apply command_refines; [..|apply Hv].
Qed.

Lemma gov_run_refines st st' es :
  stream_holds st es -> rtc (gov_step atomic_io) st st' ->
  exists es', stream_holds st' es' /\ rtc ledger_step (ledger es) (ledger es')
    /\ ap_diagnostics (replay es') = ap_diagnostics (replay es).
Proof.
  intros Hst Hr. revert es Hst. induction Hr as [st|st1 st2 st3 Hs _ IH]; intros es Hst; [by exists es|].
  destruct (gov_step_refines _ _ es Hst Hs) as (es2 & Hst2 & Hl & Hd).
  destruct (IH es2 Hst2) as (es3 & Hst3 & Hl' & Hd'). exists es3. split; [done|].
  split; [by etrans | by rewrite Hd'].
Qed.

(** *** Any I/O *)

Definition accepted (es : list GovernanceEvent) (e : GovernanceEvent) : Prop := legitimate (ledger es) e.

(** The histories commands can write: one abstract step for each event, and nothing to complain about. *)
Definition sound_history (es : list GovernanceEvent) : Prop :=
  contiguous es /\ nsteps ledger_step (length es) ∅ (ledger es) /\ ap_diagnostics (replay es) = [].

Lemma sound_grown es es' : sound_history es -> es' = es \/ grown accepted es es' -> sound_history es'.
Proof.
  intros (Hc & Hn & Hd) [->|(e & -> & Hc' & Hl)]; [done|]. destruct (legitimate_step es e Hc' Hl) as [Hs Hd'].
  split; [done|]. split; [|by rewrite Hd']. rewrite length_app, Nat.add_comm. simpl. by eapply nsteps_r.
Qed.

Context `{!EventGlueLaws GovernanceEvent}.

Definition sound_state (st : option bytes) : Prop := exists es, stream_state accepted st es /\ sound_history es.

Lemma gov_step_sound allowed st st' : sound_state st -> gov_step allowed st st' -> sound_state st'.
Proof.
  intros (es & Hst & Hes) [->|(S & io & verdict & store_error & _ & -> & Hv)]%gov_step_decides; [by exists es|].
  destruct (decide_and_append_any accepted StreamId_Governance io st es verdict store_error Hst) as (es' & Hst' & Hg).
  { intros mk Hmk s. by destruct (Hv es mk Hmk s). }
  exists es'. split; [done|]. by eapply sound_grown.
Qed.

Lemma gov_reachable_sound st : gov_reachable st -> sound_state st.
Proof.
  intros Hr. eapply (rtc_ind_r (fun st => sound_state st)); [|intros st1 st2 _ Hs Hsound; by eapply gov_step_sound|exact Hr].
  exists []. split; [apply state_clean, holds_None|]. split; [by intros i e Hi|]. split; [constructor|done].
Qed.

Lemma project_holds st es : stream_holds st es -> project io_ok st = Ok (replay es).
Proof. intros [Hlog _]. unfold project. simpl. by apply replay_log. Qed.

End ledger.

(** ** Claims about the ledger *)

(** C25: the ledger refines its abstract specification.  After any sequence of record, arbitrate and
    escalate commands, with any I/O outcome: a projection that reads back has conflicts reached from the
    empty ledger by adding a new conflict or deciding a pending one with an authorized principal, in as many
    steps as its sequence number says, and its only possible diagnostic is that of a final line cut
    by a failed append; a projection that does not read back fails with a parse error, and no command changes
    the stream any more.  When no append was cut in the middle of a line, the projection reads back without
    diagnostics. *)
Theorem governance_refines `{EventCodec GovernanceEvent} `{!EventCodecLaws GovernanceEvent} `{!EventGlueLaws GovernanceEvent} st :
  gov_reachable st ->
  match project io_ok st with
  | Ok p => exists n, ap_sequence p = Z.of_nat n /\ nsteps ledger_step n ∅ (ap_conflicts p)
      /\ (ap_diagnostics p = [] \/ exists source, ap_diagnostics p = [diagnostic_torn_final_line_skipped (n + 1) source])
  | Err err => (exists line source, err = EL_Parse (log_path StreamId_Governance) line source)
      /\ forall allowed st', rtc (gov_step allowed) st st' -> st' = st
  end
  /\ (gov_atomic_reachable st -> exists p, project io_ok st = Ok p /\ ap_diagnostics p = []).
Proof.
  intros Hr. split.
  - destruct (gov_reachable_sound st Hr) as (es & Hst & Hsound). unfold project, txn_begin, txn_project. cbn [tx_begin tx_read io_ok].
    pose proof (state_reads accepted (log_path StreamId_Governance) st es Hst) as Hread.
    remember (replay_bytes (log_path StreamId_Governance) (default [] st)) as r eqn:Er.
    destruct Hread as [es' Hes'|source|source].
    + destruct (sound_grown es es' Hsound Hes') as (Hc & Hn & Hd). exists (length es').
      split; [apply (replay_contiguous es' Hc)|]. split; [exact Hn|by left].
    + destruct Hsound as (Hc & Hn & Hd). exists (length es). split; [apply (replay_contiguous es Hc)|].
      split; [exact Hn|]. right. exists source. simpl. by rewrite Hd.
    + split; [by eexists _, _|]. intros allowed st' Hrun. destruct st as [b|]; [|by rewrite (replay_log _ [] []) in Er by apply stream_log_nil].
      revert Er. induction Hrun as [|st1 st2 st3 Hs _ IH]; [done|]. intros Er.
      apply gov_step_decides in Hs as [->|(S & io & verdict & store_error & _ & -> & _)]; [by apply IH|].
      destruct st1 as [b1|].
      * rewrite (decide_and_append_unread StreamId_Governance io b1 _ verdict store_error (eq_sym Er)) in *. by apply IH.
      * by rewrite (replay_log _ [] []) in Er by apply stream_log_nil.
  - intros Ha. destruct (gov_run_refines None st [] holds_None Ha) as (es & Hst & _ & Hd).
    exists (replay es). split; [by apply project_holds|]. by rewrite Hd.
Qed.

(** Decisions are final.  Whatever commands follow, a recorded conflict stays in the ledger
    with the same parties, scope and detection data, and once it is resolved or escalated its
    resolution never changes. *)
Theorem decisions_are_final `{EventCodec GovernanceEvent} `{!EventCodecLaws GovernanceEvent} st st' p k c :
  gov_atomic_reachable st -> rtc (gov_step atomic_io) st st' -> project io_ok st = Ok p -> ap_conflicts p !! k = Some c ->
  exists p' d, project io_ok st' = Ok p' /\ ap_conflicts p' !! k = Some d /\ same_attribution c d
    /\ (is_pending c = false -> d = c).
Proof.
  intros Hr Hrun Hp Hk. destruct (gov_run_refines None st [] holds_None Hr) as (es & Hst & _).
  rewrite (project_holds st es Hst) in Hp. simplify_eq.
  destruct (gov_run_refines st st' es Hst Hrun) as (es' & Hst' & Hl & _).
  assert (conflict_kept (ledger es) (ledger es')) as Hkept.
  { clear -Hl. induction Hl as [L|L1 L2 L3 Hs _ IH]; [apply conflict_kept_refl|].
    eapply conflict_kept_trans; [by apply ledger_step_kept | exact IH]. }
  destruct (Hkept k c Hk) as (d & Hd & ? & ?). exists (replay es'), d. split; [by apply project_holds|]. done.
Qed.

(** Arbitration, branch by branch.  Without authority it is denied before the log is touched;
    an unknown or already decided conflict is refused and nothing is written; otherwise the command
    appends one event, and the next projection shows this conflict resolved by the arbiter with the
    decision, every other conflict as it was. *)
Theorem arbitrate_exact `{EventCodec GovernanceEvent} `{!EventCodecLaws GovernanceEvent}
    st p id arbiter decision policy now v :
  gov_atomic_reachable st -> project io_ok st = Ok p -> ap_sequence p < u64_max ->
  event_to_vec (Resolved (ap_sequence p + 1) now id arbiter decision) = Ok v ->
  let r := arbitrate_with_durability io_ok st id arbiter decision policy now in
  if negb (can_arbitrate policy arbiter) then r = (ArbitrateStatus_DeniedByGate, st)
  else match ap_conflicts p !! StableId_0 id with
       | None => r = (ArbitrateStatus_ConflictNotFound, Some (default [] st))
       | Some c =>
           if negb (is_pending c) then r = (ArbitrateStatus_NotPending, Some (default [] st))
           else r.1 = ArbitrateStatus_Resolved (ap_sequence p + 1)
             /\ exists p', project io_ok r.2 = Ok p' /\ ap_sequence p' = ap_sequence p + 1
                  /\ ap_conflicts p' = <[StableId_0 id :=
                       set_resolution (ConflictResolutionState_Resolved arbiter now decision) c]> (ap_conflicts p)
       end.
Proof.
  intros Hr Hp Hs Hv. destruct (gov_run_refines None st [] holds_None Hr) as (es & Hst & _).
  rewrite (project_holds st es Hst) in Hp. simplify_eq. cbv zeta. unfold arbitrate_with_durability.
  destruct (can_arbitrate policy arbiter); cbn [negb]; [|done].
  destruct (ap_conflicts (replay es) !! StableId_0 id) as [c|] eqn:Ek;
    [|apply (decide_and_append_refuses _ st es); [done | by rewrite Ek]].
  destruct (is_pending c) eqn:Ep; cbn [negb];
    [|apply (decide_and_append_refuses _ st es); [done | by rewrite Ek, Ep]].
  match goal with |- context [decide_and_append _ _ _ ?f _] => set (verdict := f) end.
  destruct (decide_and_append_accepts StreamId_Governance st es verdict
    (fun seq => (Resolved seq now id arbiter decision, ArbitrateStatus_Resolved seq)) v ArbitrateStatus_StoreError Hst)
    as (st' & -> & Hst'); [unfold verdict; by rewrite Ek, Ep | done | done | done | done |].
  split; [done|]. eexists. split; [by apply project_holds|]. rewrite replay_snoc by apply Hst'. simpl. by rewrite Ek.
Qed.

(** Recording is idempotent: a conflict whose id is already in the ledger is reported as known
    and nothing is written; a new one is stored exactly as given, whatever its resolution says. *)
Theorem record_exact `{EventCodec GovernanceEvent} `{!EventCodecLaws GovernanceEvent} st p c now v :
  gov_atomic_reachable st -> project io_ok st = Ok p -> ap_sequence p < u64_max ->
  event_to_vec (Detected (ap_sequence p + 1) now c) = Ok v ->
  let r := record_with_durability io_ok st c now in
  match ap_conflicts p !! conflict_key c with
  | Some _ => r = (RecordStatus_AlreadyRecorded, Some (default [] st))
  | None => r.1 = RecordStatus_Recorded (ap_sequence p + 1)
      /\ exists p', project io_ok r.2 = Ok p' /\ ap_conflicts p' = <[conflict_key c := c]> (ap_conflicts p)
  end.
Proof.
  intros Hr Hp Hs Hv. destruct (gov_run_refines None st [] holds_None Hr) as (es & Hst & _).
  rewrite (project_holds st es Hst) in Hp. simplify_eq. cbv zeta. unfold record_with_durability, conflict_key.
  destruct (ap_conflicts (replay es) !! StableId_0 (cf_conflict_id c)) as [d|] eqn:Ek;
    [apply (decide_and_append_refuses _ st es); [done | by rewrite Ek]|].
  match goal with |- context [decide_and_append _ _ _ ?f _] => set (verdict := f) end.
  destruct (decide_and_append_accepts StreamId_Governance st es verdict
    (fun seq => (Detected seq now c, RecordStatus_Recorded seq)) v RecordStatus_StoreError Hst)
    as (st' & -> & Hst'); [unfold verdict; by rewrite Ek | done | done | done | done |].
  split; [done|]. eexists. split; [by apply project_holds|]. by rewrite replay_snoc by apply Hst'.
Qed.
