(* ===== verification/MemoryContract.v ===== *)
(** * Memory entries and their trust gates

    [forge-core-contracts/src/memory.rs]: the entry with its two trust axes, the pure admission and
    promotion gates, and the staleness sweep over a contract.  The gates decide; [MemoryLedger] is
    where their decisions are enforced. *)

From S2P Require Import Prelude RustStr Contracts.

Local Open Scope string_scope.
Local Open Scope Z_scope.

Definition MAX_CONFIDENCE : Z := 100.

(** The value, or the text of the deserialization error. *)
Definition bounded_percent (value : Z) (field : string) : Result Z string :=
  if in_u8 value && (value <=? MAX_CONFIDENCE) then Ok value
  else Err (field +:+ " must be in the inclusive range 0..=100; got " +:+ fmt_int value).

Inductive MemoryScopeKind :=
| MemoryScopeKind_Project | MemoryScopeKind_Repo | MemoryScopeKind_User | MemoryScopeKind_AgentRole.

Record MemoryScope := { ms_kind : MemoryScopeKind; ms_target : StableId }.

Inductive MemoryKind :=
| MemoryKind_Preference | MemoryKind_Decision | MemoryKind_LessonLearned
| MemoryKind_PlaybookRule | MemoryKind_FailurePattern | MemoryKind_GlossaryTerm.

Record MemoryProvenance := {
  mp_source_run_id : option StableId;
  mp_source_agent : option StableId;
  mp_evidence_ref : option string;
  mp_captured_at : string
}.

Record Freshness := {
  fr_ttl_seconds : option Z;
  fr_last_confirmed_at : string;
  fr_stale : bool
}.

Inductive AuthorityLevel := AuthorityLevel_Raw | AuthorityLevel_Provisional | AuthorityLevel_Authority.

Inductive ReviewState := ReviewState_Unreviewed | ReviewState_Reviewed.

Inductive ApprovalState :=
| ApprovalState_Proposed | ApprovalState_InReview | ApprovalState_Approved
| ApprovalState_Rejected | ApprovalState_AutoPromoted.

Record MemoryEntry := {
  me_entry_id : StableId;
  me_kind : MemoryKind;
  me_content : string;
  me_provenance : MemoryProvenance;
  me_freshness : Freshness;
  me_confidence : Z;
  me_approval : ApprovalState;
  me_supersedes : option StableId;
  me_invalidation_reason : option string;
  me_authority_level : option AuthorityLevel;
  me_review_state : option ReviewState;
  me_reviewed_by : option PrincipalId;
  me_reviewed_at : option string
}.

Record MemoryContract := {
  mc_id : StableId;
  mc_scope : MemoryScope;
  mc_entries : list MemoryEntry;
  mc_superseded : list StableId
}.

#[export] Instance MemoryKind_eq_dec : EqDecision MemoryKind.
Proof. solve_decision. Defined.
#[export] Instance MemoryProvenance_eq_dec : EqDecision MemoryProvenance.
Proof. solve_decision. Defined.
#[export] Instance Freshness_eq_dec : EqDecision Freshness.
Proof. solve_decision. Defined.
#[export] Instance AuthorityLevel_eq_dec : EqDecision AuthorityLevel.
Proof. solve_decision. Defined.
#[export] Instance ReviewState_eq_dec : EqDecision ReviewState.
Proof. solve_decision. Defined.
#[export] Instance ApprovalState_eq_dec : EqDecision ApprovalState.
Proof. solve_decision. Defined.
#[export] Instance MemoryEntry_eq_dec : EqDecision MemoryEntry.
Proof. solve_decision. Defined.

Definition set_freshness (f : Freshness) (e : MemoryEntry) : MemoryEntry := {|
  me_entry_id := me_entry_id e; me_kind := me_kind e; me_content := me_content e;
  me_provenance := me_provenance e; me_freshness := f; me_confidence := me_confidence e;
  me_approval := me_approval e; me_supersedes := me_supersedes e;
  me_invalidation_reason := me_invalidation_reason e; me_authority_level := me_authority_level e;
  me_review_state := me_review_state e; me_reviewed_by := me_reviewed_by e; me_reviewed_at := me_reviewed_at e |}.

Definition set_authority_level (a : option AuthorityLevel) (e : MemoryEntry) : MemoryEntry := {|
  me_entry_id := me_entry_id e; me_kind := me_kind e; me_content := me_content e;
  me_provenance := me_provenance e; me_freshness := me_freshness e; me_confidence := me_confidence e;
  me_approval := me_approval e; me_supersedes := me_supersedes e;
  me_invalidation_reason := me_invalidation_reason e; me_authority_level := a;
  me_review_state := me_review_state e; me_reviewed_by := me_reviewed_by e; me_reviewed_at := me_reviewed_at e |}.

(** ** Effective trust *)

Definition authority_level_effective (self : MemoryEntry) : AuthorityLevel :=
  match me_authority_level self with
  | Some explicit => explicit
  | None =>
      match me_approval self with
      | ApprovalState_Approved => AuthorityLevel_Provisional
      | ApprovalState_Proposed | ApprovalState_InReview | ApprovalState_Rejected
      | ApprovalState_AutoPromoted => AuthorityLevel_Raw
      end
  end.

Definition review_state_effective (self : MemoryEntry) : ReviewState :=
  default ReviewState_Unreviewed (me_review_state self).

(** ** Views and the staleness sweep *)

Definition approved (self : MemoryContract) : list MemoryEntry :=
  List.filter (fun entry => bool_decide (me_approval entry = ApprovalState_Approved)) (mc_entries self).

Definition pending_review (self : MemoryContract) : list MemoryEntry :=
  List.filter (fun entry => match me_approval entry with
                            | ApprovalState_Proposed | ApprovalState_InReview => true
                            | _ => false
                            end) (mc_entries self).

(** The new stale flag of one entry. *)
Definition is_stale_at (now_unix_seconds : Z) (f : Freshness) : bool :=
  match fr_ttl_seconds f with
  | None => fr_stale f
  | Some ttl_seconds =>
      match parse_u64 (fr_last_confirmed_at f) ≫= (fun last_confirmed_at => u64_checked_add last_confirmed_at ttl_seconds) with
      | None => true
      | Some expires_at => fr_stale f || (expires_at <=? now_unix_seconds)
      end
  end.

Definition swept (now_unix_seconds : Z) (entry : MemoryEntry) : MemoryEntry :=
  set_freshness {| fr_ttl_seconds := fr_ttl_seconds (me_freshness entry);
                   fr_last_confirmed_at := fr_last_confirmed_at (me_freshness entry);
                   fr_stale := is_stale_at now_unix_seconds (me_freshness entry) |} entry.

Definition mark_stale (now_unix_seconds : Z) (self : MemoryContract) : MemoryContract := {|
  mc_id := mc_id self; mc_scope := mc_scope self;
  mc_entries := map (swept now_unix_seconds) (mc_entries self);
  mc_superseded := mc_superseded self |}.

(** ** Gates *)

Inductive EvidenceField :=
| EvidenceField_ProvenanceEvidenceRef | EvidenceField_SourceRunId | EvidenceField_SourceAgent.

Definition is_present (self : EvidenceField) (p : MemoryProvenance) : bool :=
  match self with
  | EvidenceField_ProvenanceEvidenceRef =>
      match mp_evidence_ref p with Some s => negb (str_is_empty s) | None => false end
  | EvidenceField_SourceRunId => match mp_source_run_id p with Some _ => true | None => false end
  | EvidenceField_SourceAgent => match mp_source_agent p with Some _ => true | None => false end
  end.

Record MemoryPolicy := {
  mpo_permitted_kinds : list MemoryKind;
  mpo_required_evidence_fields : list EvidenceField;
  mpo_min_evidence_refs_for_authority : nat
}.

Record AdmissionEvidence := { ae_evidence_refs : list string }.

Inductive AdmissionDenialReason :=
| KindNotPermitted | MissingRequiredEvidence | InsufficientEvidenceForAuthority | PromoteTargetsReviewAxis.

Inductive AdmissionDecision :=
| AdmissionDecision_Allowed
| AdmissionDecision_Blocked (reasons : list AdmissionDenialReason).

Definition decision_is_allowed (d : AdmissionDecision) : bool :=
  match d with AdmissionDecision_Allowed => true | AdmissionDecision_Blocked _ => false end.

Definition from_denials (denials : list AdmissionDenialReason) : AdmissionDecision :=
  match denials with [] => AdmissionDecision_Allowed | _ => AdmissionDecision_Blocked denials end.

Definition kind_is_permitted (kind : MemoryKind) (permitted : list MemoryKind) : bool :=
  match permitted with [] => false | _ => existsb (fun k => bool_decide (k = kind)) permitted end.

(** One round of the loop over the refs; [seen] in order. *)
Definition see_ref (seen : list string) (r : string) : list string :=
  let trimmed := trim r in
  if str_is_empty trimmed || bool_decide (trimmed ∈ seen) then seen else (seen ++ [trimmed])%list.

Definition distinct_refs (refs : list string) : list string := foldl see_ref [] refs.

Definition count_distinct_non_empty (refs : list string) : nat := length (distinct_refs refs).

Definition can_admit (entry : MemoryEntry) (policy : MemoryPolicy) : AdmissionDecision :=
  from_denials
    ((if kind_is_permitted (me_kind entry) (mpo_permitted_kinds policy) then [] else [KindNotPermitted])
     ++ concat (map (fun field => if is_present field (me_provenance entry) then [] else [MissingRequiredEvidence])
          (mpo_required_evidence_fields policy)))%list.

Definition can_promote (entry : MemoryEntry) (policy : MemoryPolicy) (evidence : AdmissionEvidence)
    : AdmissionDecision :=
  let n := count_distinct_non_empty (ae_evidence_refs evidence) in
  if (n =? 0)%nat || (n <? mpo_min_evidence_refs_for_authority policy)%nat
  then AdmissionDecision_Blocked [InsufficientEvidenceForAuthority]
  else AdmissionDecision_Allowed.

(** ** Lemmas: the gates *)

Lemma kind_is_permitted_iff kind permitted : kind_is_permitted kind permitted = true <-> kind ∈ permitted.
Proof.
  assert (kind_is_permitted kind permitted = existsb (fun k => bool_decide (k = kind)) permitted) as ->
    by (by destruct permitted).
  rewrite existsb_In. split.
  - intros (k & Hk & ->%bool_decide_eq_true_1). done.
  - intros Hk. exists kind. split; [done|]. by apply bool_decide_eq_true_2.
Qed.

Lemma see_ref_spec seen r :
  NoDup seen -> Forall (fun s => s ≠ "") seen ->
  NoDup (see_ref seen r) /\ Forall (fun s => s ≠ "") (see_ref seen r)
  /\ (forall s, s ∈ see_ref seen r <-> s ∈ seen \/ (s = trim r /\ s ≠ "")).
Proof.
  intros Hnd Hne. unfold see_ref. destruct (str_is_empty (trim r)) eqn:Ee; simpl.
  { split; [done|]. split; [done|]. intros s. split; [auto|]. intros [?|[-> Hs]]; [done|]. by destruct (trim r). }
  case_bool_decide as Hin.
  { split; [done|]. split; [done|]. intros s. split; [auto|]. by intros [?|[-> _]]. }
  assert (trim r ≠ "") as Ht by (by destruct (trim r)). split; [|split].
  - apply NoDup_app. split; [done|]. split; [set_solver | apply NoDup_singleton].
  - apply Forall_app. split; [done | by constructor].
  - intros s. rewrite elem_of_app, list_elem_of_singleton. naive_solver.
Qed.

(** The counted refs are the distinct, non-empty trimmed ones. *)
Lemma distinct_refs_spec refs :
  NoDup (distinct_refs refs) /\ (forall s, s ∈ distinct_refs refs <-> s ≠ "" /\ exists r, r ∈ refs /\ trim r = s).
Proof.
  unfold distinct_refs.
  assert (forall seen, NoDup seen -> Forall (fun s => s ≠ "") seen ->
    NoDup (foldl see_ref seen refs)
    /\ (forall s, s ∈ foldl see_ref seen refs <-> s ∈ seen \/ s ≠ "" /\ exists r, r ∈ refs /\ trim r = s)) as Hgen.
  { induction refs as [|r refs IH]; intros seen Hnd Hne; simpl.
    - split; [done|]. intros s. split; [auto|]. intros [?|(_ & r & Hr & _)]; [done|by apply elem_of_nil in Hr].
    - destruct (see_ref_spec seen r Hnd Hne) as (Hnd' & Hne' & Hin). destruct (IH _ Hnd' Hne') as [H1 H2].
      split; [done|]. intros s. rewrite H2, Hin. setoid_rewrite elem_of_cons. naive_solver. }
  destruct (Hgen [] (NoDup_nil_2) (Forall_nil_2 _)) as [H1 H2]. split; [done|]. intros s. rewrite H2.
  rewrite elem_of_nil. naive_solver.
Qed.

(** *** The sweep *)

Lemma is_stale_at_idem now f :
  is_stale_at now {| fr_ttl_seconds := fr_ttl_seconds f; fr_last_confirmed_at := fr_last_confirmed_at f;
                     fr_stale := is_stale_at now f |} = is_stale_at now f.
Proof.
  unfold is_stale_at. simpl. destruct (fr_ttl_seconds f) as [ttl|]; [|done].
  destruct (parse_u64 _ ≫= _) as [x|]; [|done]. by destruct (fr_stale f), (x <=? now).
Qed.

Lemma swept_idem now e : swept now (swept now e) = swept now e.
Proof. unfold swept. simpl. rewrite is_stale_at_idem. by destruct e. Qed.

Lemma is_stale_at_mono now later f : now <= later -> is_stale_at now f = true -> is_stale_at later f = true.
Proof.
  intros Hle. unfold is_stale_at. destruct (fr_ttl_seconds f) as [ttl|]; [|done].
  destruct (parse_u64 _ ≫= _) as [x|]; [|done]. rewrite !orb_true_iff, !Z.leb_le. intros [?|?]; [by left|right; lia].
Qed.

(** The references that count, as a set. *)
Definition evidence_set (refs : list string) : gset string :=
  list_to_set (List.filter (fun s => negb (str_is_empty s)) (map trim refs)).

Lemma count_distinct_size refs : count_distinct_non_empty refs = size (evidence_set refs).
Proof.
  destruct (distinct_refs_spec refs) as [Hnd Hin]. unfold count_distinct_non_empty.
  rewrite <- (size_list_to_set (C := gset string) (distinct_refs refs)) by done. f_equal.
  apply leibniz_equiv. intros s. unfold evidence_set. rewrite !elem_of_list_to_set, Hin, filter_In_iff, map_In_iff.
  split.
  - intros (Hs & r & Hr & <-). split; [by exists r|]. by destruct (trim r).
  - intros [(r & -> & Hr) Hs]. split; [by destruct (trim r)|]. by exists r.
Qed.

(** ** Claims about the gates *)

(** The gates decide exactly what they document.  An entry is admitted if and only if its kind
    is on the policy's list (so an empty list admits nothing) and every required provenance field is
    present; a promotion is allowed if and only if the set of trimmed, non-blank evidence references
    is not empty and reaches the policy's minimum, whatever their order and repetitions. *)
Theorem memory_gates_exact entry policy evidence :
  (can_admit entry policy = AdmissionDecision_Allowed <->
     me_kind entry ∈ mpo_permitted_kinds policy
     /\ forall f, f ∈ mpo_required_evidence_fields policy -> is_present f (me_provenance entry) = true)
  /\ (can_promote entry policy evidence = AdmissionDecision_Allowed <->
     (1 <= size (evidence_set (ae_evidence_refs evidence)))%nat
     /\ (mpo_min_evidence_refs_for_authority policy <= size (evidence_set (ae_evidence_refs evidence)))%nat).
Proof.
  split.
  - unfold can_admit. rewrite <- kind_is_permitted_iff.
    assert (forall l, from_denials l = AdmissionDecision_Allowed <-> l = []) as -> by (by intros [|]).
    destruct (kind_is_permitted _ _); simpl; [|split; [done | by intros [? _]]].
    induction (mpo_required_evidence_fields policy) as [|f fs IH]; simpl.
    { split; [|done]. intros _. split; [done|]. intros f Hf. by apply elem_of_nil in Hf. }
    destruct (is_present f (me_provenance entry)) eqn:Ef; simpl.
    + rewrite IH. setoid_rewrite elem_of_cons. naive_solver.
    + split; [done|]. intros [_ Hall]. rewrite Hall in Ef; [done | by left].
  - unfold can_promote. rewrite count_distinct_size. destruct (_ || _) eqn:Eb.
    + split; [done|]. intros [H1 H2]. apply orb_true_iff in Eb as [E%Nat.eqb_eq|E%Nat.ltb_lt]; lia.
    + split; [|done]. intros _. apply orb_false_iff in Eb as [E1%Nat.eqb_neq E2%Nat.ltb_ge]. lia.
Qed.
