(* ===== verification/MemoryLedger.v ===== *)
(** * The memory ledger

    [forge-core-eventlog/src/memory/]: entries admitted, promoted, forgotten and swept for staleness
    through the event log, under the gates of [MemoryContract].  Results are modelled by their
    status.  The content hash stamped on a forgotten entry (a SHA-256 of its JSON text) is the
    parameter [ContentHash]; the clock reading is an argument. *)

From S2P Require Import Prelude RustStr BTree Contracts EventLog MemoryContract.

Local Open Scope string_scope.
Local Open Scope Z_scope.

(** [MemoryEvent::content_hash_of]. *)
Class ContentHash := content_hash_of : MemoryEntry -> string.

Inductive MemoryEvent :=
| MemoryEvent_Admitted (sequence at_unix : Z) (entry : MemoryEntry)
| MemoryEvent_Promoted (sequence at_unix : Z) (entry_id : StableId) (before after : AuthorityLevel)
    (evidence_refs : list string)
| MemoryEvent_Forgotten (sequence at_unix : Z) (before : MemoryEntry) (content_hash : string).

#[export] Instance MemoryEvent_eq_dec : EqDecision MemoryEvent.
Proof. solve_decision. Defined.

Definition memory_sequence (e : MemoryEvent) : Z :=
  match e with
  | MemoryEvent_Admitted s _ _ | MemoryEvent_Promoted s _ _ _ _ _ | MemoryEvent_Forgotten s _ _ _ => s
  end.

Inductive MemoryProjectionSeverity := MemoryProjectionSeverity_Warning | MemoryProjectionSeverity_Error.

Record MemoryProjectionDiagnostic := {
  mpd_severity : MemoryProjectionSeverity;
  mpd_code : string;
  mpd_message : string
}.

Record MemoryProjection := {
  mpr_sequence : Z;
  mpr_entries : gmap string MemoryEntry;
  mpr_superseded : gset string;
  mpr_diagnostics : list MemoryProjectionDiagnostic
}.

Definition MemoryProjection_default : MemoryProjection :=
  {| mpr_sequence := 0; mpr_entries := ∅; mpr_superseded := ∅; mpr_diagnostics := [] |}.

Definition mpr_push (d : MemoryProjectionDiagnostic) (p : MemoryProjection) : MemoryProjection :=
  {| mpr_sequence := mpr_sequence p; mpr_entries := mpr_entries p; mpr_superseded := mpr_superseded p;
     mpr_diagnostics := (mpr_diagnostics p ++ [d])%list |}.

Definition mpr_set (entries : gmap string MemoryEntry) (superseded : gset string) (p : MemoryProjection)
    : MemoryProjection :=
  {| mpr_sequence := mpr_sequence p; mpr_entries := entries; mpr_superseded := superseded;
     mpr_diagnostics := mpr_diagnostics p |}.

Definition entry_key (e : MemoryEntry) : string := StableId_0 (me_entry_id e).

(** [MemoryDomain::apply]. *)
Definition memory_apply (p : MemoryProjection) (event : MemoryEvent) : MemoryProjection :=
  match event with
  | MemoryEvent_Admitted _ _ entry =>
      mpr_set (<[entry_key entry := entry]> (mpr_entries p)) (mpr_superseded p) p
  | MemoryEvent_Promoted _ _ entry_id _ after _ =>
      match mpr_entries p !! StableId_0 entry_id with
      | Some existing =>
          mpr_set (<[StableId_0 entry_id := set_authority_level (Some after) existing]> (mpr_entries p))
            (mpr_superseded p) p
      | None =>
          mpr_push {| mpd_severity := MemoryProjectionSeverity_Warning; mpd_code := "promote_target_missing";
                      mpd_message := "promote targeted unknown entry " +:+ StableId_0 entry_id |} p
      end
  | MemoryEvent_Forgotten _ _ before _ =>
      mpr_set (delete (entry_key before) (mpr_entries p)) ({[entry_key before]} ∪ mpr_superseded p) p
  end.

#[export] Instance MemoryDomain : EventSourced MemoryEvent MemoryProjection MemoryProjectionDiagnostic := {|
  sequence := memory_sequence;
  projection_default := MemoryProjection_default;
  es_apply := memory_apply;
  record_diagnostic p d := mpr_push d p;
  sequence_of := mpr_sequence;
  advance_sequence p s := {| mpr_sequence := s; mpr_entries := mpr_entries p; mpr_superseded := mpr_superseded p;
                             mpr_diagnostics := mpr_diagnostics p |};
  diagnostic_out_of_order_event_ignored event_seq projection_seq := {|
    mpd_severity := MemoryProjectionSeverity_Warning; mpd_code := CODE_OUT_OF_ORDER_EVENT_IGNORED;
    mpd_message := "event sequence " +:+ fmt_int event_seq +:+ " <= projection sequence "
                   +:+ fmt_int projection_seq +:+ "; ignored" |};
  diagnostic_torn_final_line_skipped line_number source := {|
    mpd_severity := MemoryProjectionSeverity_Warning; mpd_code := CODE_TORN_FINAL_LINE_SKIPPED;
    mpd_message := "skipped incomplete final line " +:+ fmt_nat line_number +:+ ": " +:+ source |}
|}.

#[export] Instance MemoryDomain_laws : EventSourcedLaws MemoryEvent MemoryProjection MemoryProjectionDiagnostic.
Proof. by split. Qed.

(** [deserialize_confidence]: an entry is refused when it is read, and only then, for its confidence. *)
Definition entry_readable (e : MemoryEntry) : bool := is_ok (bounded_percent (me_confidence e) "confidence").

#[export] Instance MemoryBounds : EventBounds MemoryEvent := fun event =>
  match event with
  | MemoryEvent_Admitted _ _ entry | MemoryEvent_Forgotten _ _ entry _ => entry_readable entry
  | MemoryEvent_Promoted _ _ _ _ _ _ => true
  end.

Definition MemoryError : Type := EventLogError MemoryProjectionDiagnostic.

Inductive AdmissionStatus :=
| AdmissionStatus_Admitted (sequence : Z)
| AdmissionStatus_DeniedByGate (reasons : list AdmissionDenialReason)
| AdmissionStatus_StoreError (e : MemoryError).

Inductive PromoteStatus :=
| PromoteStatus_Promoted (sequence : Z) (before after : AuthorityLevel)
| PromoteStatus_NotFound
| PromoteStatus_DeniedByGate (reasons : list AdmissionDenialReason)
| PromoteStatus_StoreError (e : MemoryError).

Inductive ForgetStatus :=
| ForgetStatus_Forgotten (sequence : Z)
| ForgetStatus_AlreadyForgotten
| ForgetStatus_NotFound
| ForgetStatus_StoreError (e : MemoryError).

Inductive ListStatus :=
| ListStatus_Ok (flipped : nat) (entries : list MemoryEntry)
| ListStatus_StoreError (e : MemoryError).

(** [distinct_non_empty] of [promote.rs]: the loop of [count_distinct_non_empty], its list. *)
Definition distinct_non_empty (refs : list string) : list string := distinct_refs refs.

(** [projection_to_contract_doc]: the contract the sweep runs on. *)
Definition projection_to_contract (projection : MemoryProjection) : MemoryContract := {|
  mc_id := mk_StableId "memory.sweep.synthetic";
  mc_scope := {| ms_kind := MemoryScopeKind_Project; ms_target := mk_StableId "sweep" |};
  mc_entries := map_values (mpr_entries projection);
  mc_superseded := map mk_StableId (set_iter (mpr_superseded projection)) |}.

Section commands.
Context `{EventCodec MemoryEvent} {hash : ContentHash}.

Definition admit_with_durability (io : TxnIo) (st : option bytes) (entry : MemoryEntry) (policy : MemoryPolicy)
    (now_unix : Z) : AdmissionStatus * option bytes :=
  match can_admit entry policy with
  | AdmissionDecision_Blocked reasons => (AdmissionStatus_DeniedByGate reasons, st)
  | AdmissionDecision_Allowed =>
      decide_and_append StreamId_Memory io st
        (fun _ => Ok (fun seq => (MemoryEvent_Admitted seq now_unix entry, AdmissionStatus_Admitted seq)))
        AdmissionStatus_StoreError
  end.

Definition promote_with_durability (io : TxnIo) (st : option bytes) (entry_id : StableId) (policy : MemoryPolicy)
    (evidence : AdmissionEvidence) (now_unix : Z) : PromoteStatus * option bytes :=
  decide_and_append StreamId_Memory io st
    (fun projection =>
       match mpr_entries projection !! StableId_0 entry_id with
       | None => Err PromoteStatus_NotFound
       | Some entry =>
           match can_promote entry policy evidence with
           | AdmissionDecision_Blocked reasons => Err (PromoteStatus_DeniedByGate reasons)
           | AdmissionDecision_Allowed =>
               let before := authority_level_effective entry in
               let after := AuthorityLevel_Authority in
               Ok (fun seq => (MemoryEvent_Promoted seq now_unix entry_id before after
                                 (distinct_non_empty (ae_evidence_refs evidence)),
                               PromoteStatus_Promoted seq before after))
           end
       end)
    PromoteStatus_StoreError.

Definition forget_with_durability (io : TxnIo) (st : option bytes) (entry_id : StableId) (now_unix : Z)
    : ForgetStatus * option bytes :=
  decide_and_append StreamId_Memory io st
    (fun projection =>
       if bool_decide (StableId_0 entry_id ∈ mpr_superseded projection) then Err ForgetStatus_AlreadyForgotten
       else match mpr_entries projection !! StableId_0 entry_id with
            | None => Err ForgetStatus_NotFound
            | Some before =>
                Ok (fun seq => (MemoryEvent_Forgotten seq now_unix before (content_hash_of before),
                                ForgetStatus_Forgotten seq))
            end)
    ForgetStatus_StoreError.

(** The loop that persists the flips, one append outcome per entry. *)
Fixpoint persist_flips (ios : list TxnIo) (b : bytes) (seq now_unix : Z) (entries : list MemoryEntry)
    : Result unit MemoryError * bytes :=
  match entries with
  | [] => (Ok tt, b)
  | entry :: rest =>
      match u64_checked_add seq 1 with
      | None => (Err EL_SequenceExhausted, b)
      | Some seq =>
          match txn_append StreamId_Memory (hd io_ok ios) b (MemoryEvent_Admitted seq now_unix entry) with
          | (Err e, b') => (Err e, b')
          | (Ok _, b') => persist_flips (tl ios) b' seq now_unix rest
          end
      end
  end.

(** The entries whose stale flag the sweep sets. *)
Definition newly_stale (projection : MemoryProjection) (swept_entries : list MemoryEntry) : list MemoryEntry :=
  List.filter (fun entry =>
    fr_stale (me_freshness entry)
    && match mpr_entries projection !! entry_key entry with
       | Some original => negb (fr_stale (me_freshness original))
       | None => false
       end) swept_entries.

Definition list_now_with_durability (io : TxnIo) (ios : list TxnIo) (st : option bytes) (now_unix : Z)
    : ListStatus * option bytes :=
  match txn_begin StreamId_Memory io st with
  | Err e => (ListStatus_StoreError e, st)
  | Ok b =>
      match txn_project StreamId_Memory io b with
      | Err e => (ListStatus_StoreError e, Some b)
      | Ok projection =>
          let swept_entries := mc_entries (mark_stale now_unix (projection_to_contract projection)) in
          let flips := newly_stale projection swept_entries in
          match persist_flips ios b (mpr_sequence projection) now_unix flips with
          | (Err e, b') => (ListStatus_StoreError e, Some b')
          | (Ok _, b') =>
              (ListStatus_Ok (length flips)
                 (List.filter (fun e => negb (fr_stale (me_freshness e))) swept_entries), Some b')
          end
      end
  end.

End commands.

(** ** Commands as steps *)

Inductive MemoryCommand :=
| Cmd_Admit (io : TxnIo) (entry : MemoryEntry) (policy : MemoryPolicy) (now : Z)
| Cmd_Promote (io : TxnIo) (entry_id : StableId) (policy : MemoryPolicy) (evidence : AdmissionEvidence) (now : Z)
| Cmd_Forget (io : TxnIo) (entry_id : StableId) (now : Z)
| Cmd_ListNow (io : TxnIo) (ios : list TxnIo) (now : Z).

Definition atomic_command (c : MemoryCommand) : Prop :=
  match c with
  | Cmd_Admit io _ _ _ | Cmd_Promote io _ _ _ _ | Cmd_Forget io _ _ => atomic_io io
  | Cmd_ListNow io ios _ => atomic_io io /\ Forall atomic_io ios
  end.

Section steps.
Context `{EventCodec MemoryEvent} {hash : ContentHash}.

Definition run_command (c : MemoryCommand) (st : option bytes) : option bytes :=
  match c with
  | Cmd_Admit io entry policy now => (admit_with_durability io st entry policy now).2
  | Cmd_Promote io id policy evidence now => (promote_with_durability io st id policy evidence now).2
  | Cmd_Forget io id now => (forget_with_durability io st id now).2
  | Cmd_ListNow io ios now => (list_now_with_durability io ios st now).2
  end.

Definition memory_step (st st' : option bytes) : Prop :=
  exists c, atomic_command c /\ st' = run_command c st.

Definition memory_reachable : option bytes -> Prop := rtc memory_step None.

Definition memory_project (io : TxnIo) (st : option bytes) : Result MemoryProjection MemoryError :=
  match txn_begin StreamId_Memory io st with
  | Err e => Err e
  | Ok b => txn_project StreamId_Memory io b
  end.

End steps.

(** What a command may do to the entry stored under one id. *)
Inductive entry_step (c : MemoryCommand) (k : string) (old : option MemoryEntry) : option MemoryEntry -> Prop :=
| entry_same : entry_step c k old old
| entry_admitted io entry policy now :
    c = Cmd_Admit io entry policy now -> k = entry_key entry -> can_admit entry policy = AdmissionDecision_Allowed ->
    entry_step c k old (Some entry)
| entry_promoted io id policy evidence now e :
    c = Cmd_Promote io id policy evidence now -> k = StableId_0 id -> old = Some e ->
    can_promote e policy evidence = AdmissionDecision_Allowed ->
    entry_step c k old (Some (set_authority_level (Some AuthorityLevel_Authority) e))
| entry_forgotten io id now e :
    c = Cmd_Forget io id now -> k = StableId_0 id -> old = Some e -> entry_step c k old None
| entry_swept io ios now e :
    c = Cmd_ListNow io ios now -> old = Some e -> entry_step c k old (Some (swept now e)).

Section ledger.
Context `{EventCodec MemoryEvent} `{!EventCodecLaws MemoryEvent} {hash : ContentHash}.

Definition entries_of (es : list MemoryEvent) : gmap string MemoryEntry := mpr_entries (replay es).
Definition superseded_of (es : list MemoryEvent) : gset string := mpr_superseded (replay es).

(** Every entry is stored under its id and could be read. *)
Definition keyed (m : gmap string MemoryEntry) : Prop :=
  forall k e, m !! k = Some e -> entry_key e = k /\ entry_readable e = true.

(** The relation of the projections before and after a command. *)
Record related (c : MemoryCommand) (es es' : list MemoryEvent) : Prop := {
  rel_entries k : entry_step c k (entries_of es !! k) (entries_of es' !! k);
  rel_keyed : keyed (entries_of es');
  rel_superseded : superseded_of es ⊆ superseded_of es'
}.

Lemma related_refl c es : keyed (entries_of es) -> related c es es.
Proof. intros Hk. split; [constructor | done | done]. Qed.

Lemma holds_Some st es : stream_holds st es -> stream_holds (Some (default [] st)) es.
Proof. done. Qed.

Lemma swept_key now e : entry_key (swept now e) = entry_key e.
Proof. done. Qed.

(** *** One appended event *)

Lemma entries_snoc es e :
  contiguous (es ++ [e]) ->
  entries_of (es ++ [e]) = mpr_entries (memory_apply (replay es) e)
  /\ superseded_of (es ++ [e]) = mpr_superseded (memory_apply (replay es) e).
Proof. intros Hc. unfold entries_of, superseded_of. by rewrite (replay_snoc es e Hc). Qed.

Lemma insert_related c es es' j x :
  keyed (entries_of es) -> entry_key x = j -> entry_readable x = true ->
  entries_of es' = <[j := x]> (entries_of es) -> superseded_of es ⊆ superseded_of es' ->
  entry_step c j (entries_of es !! j) (Some x) -> related c es es'.
Proof.
  intros Hk Hj Hx He Hs Hstep. split; [|rewrite He|done].
  - intros k. rewrite He. destruct (decide (j = k)) as [<-|Hne];
      [by rewrite lookup_insert_eq | rewrite lookup_insert_ne by done; constructor].
  - intros k e. rewrite lookup_insert_if. destruct (decide (k = j)); [naive_solver | apply Hk].
Qed.

(** The three commands that append at most one event. *)
Lemma command_related {S : Type} c io st es (verdict : MemoryProjection -> Result (Z -> MemoryEvent * S) S) store_error :
  stream_holds st es -> atomic_io io -> keyed (entries_of es) ->
  (forall mk, verdict (replay es) = Ok mk -> forall s, sequence (mk s).1 = s /\ readable (mk s).1 = true
     /\ (contiguous (es ++ [(mk s).1]) -> related c es (es ++ [(mk s).1]))) ->
  exists es', stream_holds (decide_and_append StreamId_Memory io st verdict store_error).2 es' /\ related c es es'.
Proof.
  intros Hst Hat Hk Hv.
  destruct (decide_and_append_holds StreamId_Memory io st es verdict store_error Hst Hat)
    as (es' & Hst' & Hes & _); [intros mk Hmk s; by destruct (Hv mk Hmk s) as (? & ? & _)|].
  exists es'. split; [done|]. destruct Hes as [-> |(mk & Hmk & ->)]; [by apply related_refl|].
  apply (Hv mk Hmk), Hst'.
Qed.

Lemma admit_related io st es entry policy now :
  stream_holds st es -> atomic_io io -> keyed (entries_of es) -> entry_readable entry = true ->
  let c := Cmd_Admit io entry policy now in
  exists es', stream_holds (run_command c st) es' /\ related c es es'.
Proof.
  intros Hst Hat Hk Hread c. simpl. unfold admit_with_durability.
  destruct (can_admit entry policy) as [|reasons] eqn:Ea; [|exists es; split; [done | by apply related_refl]].
  apply command_related; [done..|]. intros mk [= <-] s. split; [done|]. split; [done|]. intros Hc. simpl in Hc.
  destruct (entries_snoc es _ Hc) as [He Hs]. simpl in He, Hs.
  apply (insert_related _ es _ (entry_key entry) entry); [done|done|done|done|by simpl; rewrite Hs|]. by eapply entry_admitted.
Qed.

Lemma promote_related io st es id policy evidence now :
  stream_holds st es -> atomic_io io -> keyed (entries_of es) ->
  let c := Cmd_Promote io id policy evidence now in
  exists es', stream_holds (run_command c st) es' /\ related c es es'.
Proof.
  intros Hst Hat Hk c. simpl. apply command_related; [done..|]. intros mk.
  destruct (mpr_entries (replay es) !! StableId_0 id) as [e|] eqn:Ee; [|done].
  destruct (can_promote e policy evidence) eqn:Ep; [|done]. intros [= <-] s. split; [done|]. split; [done|]. intros Hc. simpl in Hc.
  destruct (entries_snoc es _ Hc) as [He Hs]. simpl in He, Hs. rewrite Ee in He, Hs. simpl in He, Hs.
  apply (insert_related _ es _ (StableId_0 id) (set_authority_level (Some AuthorityLevel_Authority) e));
    [done|by apply (Hk (StableId_0 id) e)|by apply (Hk (StableId_0 id) e)|done|by simpl; rewrite Hs|].
  - by eapply entry_promoted.
Qed.

Lemma forget_related io st es id now :
  stream_holds st es -> atomic_io io -> keyed (entries_of es) ->
  let c := Cmd_Forget io id now in
  exists es', stream_holds (run_command c st) es' /\ related c es es'.
Proof.
  intros Hst Hat Hk c. simpl. apply command_related; [done..|]. intros mk. case_bool_decide; [done|].
  destruct (mpr_entries (replay es) !! StableId_0 id) as [e|] eqn:Ee; [|done].
  intros [= <-] s. split; [done|]. split; [by apply (Hk (StableId_0 id) e)|]. intros Hc. simpl in Hc.
  destruct (entries_snoc es _ Hc) as [He Hs]. simpl in He, Hs. assert (entry_key e = StableId_0 id) as Hkey by (by apply Hk). split.
  - intros k. simpl. rewrite He, Hkey. destruct (decide (StableId_0 id = k)) as [<-|Hne].
    + rewrite lookup_delete_eq. by eapply entry_forgotten.
    + rewrite lookup_delete_ne by done. constructor.
  - intros k x. simpl. rewrite He. intros [_ Hx]%lookup_delete_Some. by apply Hk.
  - simpl. rewrite Hs. unfold superseded_of. set_solver.
Qed.

Lemma entry_in_bounds e : 0 <= me_confidence e <= MAX_CONFIDENCE -> entry_readable e = true.
Proof.
  intros Hc. unfold entry_readable, bounded_percent, in_u8. unfold MAX_CONFIDENCE in *.
  assert ((0 <=? me_confidence e) && (me_confidence e <=? u8_max) && (me_confidence e <=? 100) = true) as ->; [|done].
  rewrite !andb_true_iff, !Z.leb_le. unfold u8_max. lia.
Qed.

(** *** The sweep *)

Definition insert_entries (m : gmap string MemoryEntry) (l : list MemoryEntry) : gmap string MemoryEntry :=
  foldl (fun m x => <[entry_key x := x]> m) m l.

Lemma insert_entries_lookup m l k :
  insert_entries m l !! k = m !! k \/ exists x, x ∈ l /\ entry_key x = k /\ insert_entries m l !! k = Some x.
Proof.
  unfold insert_entries. revert m. induction l as [|y l IH]; intros m; simpl; [by left|].
  destruct (IH (<[entry_key y := y]> m)) as [E|(x & Hx & Hk & E)].
  - rewrite E, lookup_insert_if. destruct (decide (k = entry_key y)) as [-> |]; [|by left].
    right. exists y. split; [by left|]. split; [done|]. done.
  - right. exists x. split; [by right|]. done.
Qed.

Lemma persist_flips_holds now flips : forall ios b es,
  stream_holds (Some b) es -> Forall atomic_io ios -> Forall (fun x => entry_readable x = true) flips ->
  let r := persist_flips ios b (Z.of_nat (length es)) now flips in
  exists n es', stream_holds (Some r.2) es' /\ entries_of es' = insert_entries (entries_of es) (take n flips)
    /\ superseded_of es' = superseded_of es /\ (r.1 = Ok tt -> take n flips = flips).
Proof.
  induction flips as [|x flips IH]; intros ios b es Hst Hat Hread; simpl; [by exists 0%nat, es|].
  apply Forall_cons in Hread as [Hx Hread].
  unfold u64_checked_add. destruct (in_u64 _); [|by exists 0%nat, es].
  assert (atomic_io (hd io_ok ios) /\ Forall atomic_io (tl ios)) as [Hio Htl].
  { destruct Hat; simpl; [split; [by right | done] | done]. }
  set (event := MemoryEvent_Admitted (Z.of_nat (length es) + 1) now x).
  assert (forall v, event_to_vec event = Ok v -> stream_holds (Some (b ++ v ++ [LF])%list) (es ++ [event])) as Hsnoc.
  { intros v Hv. destruct Hst as [Hlog Hc]. split; [by apply stream_log_snoc | by apply contiguous_snoc]. }
  assert (forall v, event_to_vec event = Ok v ->
    entries_of (es ++ [event]) = <[entry_key x := x]> (entries_of es)
    /\ superseded_of (es ++ [event]) = superseded_of es) as Hone.
  { intros v Hv. destruct (entries_snoc es event) as [He Hs]; [by apply (Hsnoc v Hv)|]. done. }
  unfold txn_append. destruct (tx_intact _) as [[]|]; [|by exists 0%nat, es].
  destruct (event_to_vec event) as [v|] eqn:Ev; [|by exists 0%nat, es]. rewrite (ec_value _ _ Ev).
  specialize (Hsnoc v eq_refl). destruct (Hone v eq_refl) as [He Hs].
  destruct (tx_append _) as [[]|source].
  - destruct (IH (tl ios) (b ++ v ++ [LF])%list (es ++ [event])%list Hsnoc Htl Hread) as (n & es' & Hst' & He' & Hs' & Hok).
    rewrite length_app, Nat2Z.inj_add in Hst', Hok. simpl in Hst', Hok.
    exists (S n), es'. split; [done|]. rewrite He', Hs', He, Hs. split; [done|]. split; [done|].
    intros Hr. simpl. by rewrite (Hok Hr).
  - destruct Hio as [-> | ->]; simpl.
    + exists 0%nat, es. by rewrite app_nil_r.
    + exists 1%nat, (es ++ [event])%list. rewrite take_ge by done. split; [done|]. rewrite He, Hs. done.
Qed.

Definition sweep_entries (p : MemoryProjection) (now : Z) : list MemoryEntry :=
  mc_entries (mark_stale now (projection_to_contract p)).

Lemma elem_of_sweep p now x :
  x ∈ sweep_entries p now <-> exists k e, mpr_entries p !! k = Some e /\ x = swept now e.
Proof.
  unfold sweep_entries. simpl. rewrite map_In_iff. setoid_rewrite elem_of_map_values. naive_solver.
Qed.

Lemma elem_of_flips p now x :
  keyed (mpr_entries p) ->
  x ∈ newly_stale p (sweep_entries p now) <->
  exists e, mpr_entries p !! entry_key e = Some e /\ x = swept now e
    /\ fr_stale (me_freshness e) = false /\ is_stale_at now (me_freshness e) = true.
Proof.
  intros Hk. unfold newly_stale. rewrite filter_In_iff, elem_of_sweep. split.
  - intros [(k & e & He & ->) Hf]. destruct (Hk k e He) as [<- _]. rewrite swept_key, He in Hf. simpl in Hf.
    apply andb_true_iff in Hf as [H1 H2%negb_true_iff]. by exists e.
  - intros (e & He & -> & Hf & Hs). split; [by exists (entry_key e), e|]. rewrite swept_key, He. simpl.
    by rewrite Hs, Hf.
Qed.

Lemma flips_readable p now : keyed (mpr_entries p) ->
  Forall (fun x => entry_readable x = true) (newly_stale p (sweep_entries p now)).
Proof. intros Hk. apply Forall_forall. intros x (e & He & -> & _)%elem_of_flips; [|done]. by apply (Hk _ e He). Qed.

Lemma list_now_related io ios st es now :
  stream_holds st es -> atomic_io io -> Forall atomic_io ios -> keyed (entries_of es) ->
  let c := Cmd_ListNow io ios now in
  exists es', stream_holds (run_command c st) es' /\ related c es es'.
Proof.
  intros Hst Hat Hats Hk c. simpl. unfold list_now_with_durability, txn_begin, txn_project.
  assert (exists es', stream_holds st es' /\ related c es es') as Hsame by (exists es; split; [done | by apply related_refl]).
  destruct (tx_begin io) as [[]|[[] source]]; [|done..]. destruct (tx_read io) as [[]|source]; [|done].
  rewrite (replay_log _ _ es (proj1 Hst)). change (mpr_sequence (replay es)) with (sequence_of (replay es)).
  destruct (replay_contiguous es (proj2 Hst)) as [_ ->].
  fold (sweep_entries (replay es) now). set (flips := newly_stale _ _).
  destruct (persist_flips_holds now flips ios (default [] st) es Hst Hats (flips_readable _ now Hk)) as (n & es' & Hst' & He & Hs & _).
  exists es'. split; [by destruct (persist_flips _ _ _ _ _) as [[[]|] ?]|]. split.
  - intros k. rewrite He. destruct (insert_entries_lookup (entries_of es) (take n flips) k) as [->|(x & Hx & Hxk & ->)];
      [constructor|].
    assert (x ∈ flips) as Hin by (rewrite <- (take_drop n flips); set_solver).
    apply elem_of_flips in Hin as (e & Hke & -> & _); [|done]. rewrite swept_key in Hxk. subst k.
    by eapply entry_swept.
  - intros k e. rewrite He. destruct (insert_entries_lookup (entries_of es) (take n flips) k) as [->|(x & Hx & Hxk & ->)];
      [apply Hk|]. intros [= <-]. split; [done|]. revert x Hx Hxk.
    pose proof (Forall_take _ n _ (flips_readable (replay es) now Hk)) as Hf. rewrite Forall_forall in Hf. intros x Hx _. by apply Hf.
  - by rewrite Hs.
Qed.

(** A log whose last line is an event that is refused for a value it holds. *)
Definition poisoned (st : option bytes) : Prop :=
  exists b es e v, st = Some (b ++ v ++ [LF])%list /\ stream_holds (Some b) es /\ serialized e v /\ readable e = false.

Lemma poisoned_reads st : poisoned st ->
  exists n source, forall io, tx_read io = Ok tt ->
    txn_project StreamId_Memory io (default [] st) = Err (EL_Parse (log_path StreamId_Memory) n source).
Proof.
  intros (b & es & e & v & -> & [Hlog _] & Hv & Hr).
  destruct (replay_unreadable (log_path StreamId_Memory) b es e v true Hlog Hv Hr) as [source Hs].
  exists (length es + 1)%nat, source. intros io Hio. unfold txn_project. rewrite Hio. exact Hs.
Qed.

(** Nothing is read from it, and nothing is written to it. *)
Lemma poisoned_stays st c : poisoned st -> run_command c st = st.
Proof.
  intros Hp. destruct (poisoned_reads st Hp) as (n & source & Hr). destruct Hp as (b & es & e & v & -> & _).
  assert (forall S io verdict store_error,
    (decide_and_append (S := S) StreamId_Memory io (Some (b ++ v ++ [LF])%list) verdict store_error).2
    = Some (b ++ v ++ [LF])%list) as Hda.
  { intros S io verdict store_error. eapply decide_and_append_unread. by apply (Hr io_ok). }
  destruct c as [io entry policy now|io id policy evidence now|io id now|io ios now]; simpl.
  - unfold admit_with_durability. destruct (can_admit entry policy); [apply Hda|done].
  - apply Hda.
  - apply Hda.
  - unfold list_now_with_durability, txn_begin. destruct (tx_begin io) as [[]|[[] ?]]; [|done..].
    specialize (Hr io). unfold txn_project in *. cbn [from_option] in *. destruct (tx_read io) as [[]|]; [|done].
    by rewrite Hr.
Qed.

(** Admitting an entry with a confidence that is refused on reading. *)
Lemma admit_unreadable io st es entry policy now :
  stream_holds st es -> atomic_io io -> keyed (entries_of es) -> entry_readable entry = false ->
  let c := Cmd_Admit io entry policy now in
  (exists es', stream_holds (run_command c st) es' /\ related c es es')
  \/ can_admit entry policy = AdmissionDecision_Allowed /\ poisoned (run_command c st).
Proof.
  intros Hst Hat Hk Hread c. simpl. unfold admit_with_durability.
  destruct (can_admit entry policy) as [|reasons] eqn:Ea; [|left; exists es; split; [done | by apply related_refl]].
  match goal with |- context [decide_and_append _ _ _ ?f ?g] => set (verdict := f); set (store_error := g) end.
  destruct (decide_and_append_bytes StreamId_Memory io st verdict store_error)
    as [->|[->|(p & mk & seq & v & w & _ & [= <-] & _ & Hv & -> & Hw)]];
    [left; exists es; split; [done | by apply related_refl]..|].
  destruct Hw as [->|Hw].
  - right. split; [done|]. rewrite firstn_all.
    exists (default [] st), es, (MemoryEvent_Admitted seq now entry), v. done.
  - left. exists es. split; [|by apply related_refl]. destruct Hat as [Hat|Hat]; rewrite Hat in Hw; [|done].
    injection Hw as <-. by rewrite take_0, app_nil_r.
Qed.

Lemma command_step c st es :
  stream_holds st es -> keyed (entries_of es) -> atomic_command c ->
  (exists es', stream_holds (run_command c st) es' /\ related c es es')
  \/ exists io entry policy now, c = Cmd_Admit io entry policy now
       /\ can_admit entry policy = AdmissionDecision_Allowed /\ entry_readable entry = false /\ poisoned (run_command c st).
Proof.
  intros Hst Hk Hat. destruct c as [io entry policy now|io id policy evidence now|io id now|io ios now].
  - destruct (entry_readable entry) eqn:Hr; [left; by apply admit_related|].
    destruct (admit_unreadable io st es entry policy now Hst Hat Hk Hr) as [?|[? ?]]; [by left|right].
    by exists io, entry, policy, now.
  - left. by apply promote_related.
  - left. by apply forget_related.
  - left. destruct Hat. by apply list_now_related.
Qed.

Lemma keyed_nil : keyed (entries_of []).
Proof. intros k e. unfold entries_of. simpl. by rewrite lookup_empty. Qed.

Lemma poisoned_run st st' : poisoned st -> rtc memory_step st st' -> st' = st.
Proof.
  intros Hp Hr. induction Hr as [|st1 st2 st3 (c & _ & ->) _ IH]; [done|]. rewrite (poisoned_stays st1 c Hp) in *. by apply IH.
Qed.

Lemma memory_run st st' es :
  stream_holds st es -> keyed (entries_of es) -> rtc memory_step st st' ->
  (exists es', stream_holds st' es' /\ keyed (entries_of es') /\ superseded_of es ⊆ superseded_of es') \/ poisoned st'.
Proof.
  intros Hst Hk Hr. revert es Hst Hk.
  induction Hr as [st|st1 st2 st3 (c & Hat & ->) Hrun IH]; intros es Hst Hk; [left; by exists es|].
  destruct (command_step c st1 es Hst Hk Hat) as [(es2 & Hst2 & [_ Hk2 Hs2])|(io & entry & policy & now & -> & _ & _ & Hp)].
  - destruct (IH es2 Hst2 Hk2) as [(es3 & Hst3 & Hk3 & Hs3)|]; [left|by right].
    exists es3. split; [done|]. split; [done|]. set_solver.
  - right. by rewrite (poisoned_run _ _ Hp Hrun).
Qed.

Lemma memory_project_holds st es : stream_holds st es -> memory_project io_ok st = Ok (replay es).
Proof. intros [Hlog _]. unfold memory_project. simpl. by apply replay_log. Qed.

Lemma memory_project_poisoned st : poisoned st ->
  exists n source, memory_project io_ok st = Err (EL_Parse (log_path StreamId_Memory) n source).
Proof. intros Hp. destruct (poisoned_reads st Hp) as (n & source & Hr). exists n, source. by apply (Hr io_ok). Qed.

(** A stream that reads back holds a history. *)
Lemma memory_reads st p : memory_reachable st -> memory_project io_ok st = Ok p ->
  exists es, stream_holds st es /\ keyed (entries_of es) /\ p = replay es.
Proof.
  intros Hr Hp. destruct (memory_run None st [] holds_None keyed_nil Hr) as [(es & Hst & Hk & _)|Hpois].
  - exists es. split; [done|]. split; [done|]. rewrite (memory_project_holds st es Hst) in Hp. by simplify_eq.
  - destruct (memory_project_poisoned st Hpois) as (n & source & E). congruence.
Qed.

(** *** A sweep in which every flip is written *)

Lemma persist_flips_ok now flips : forall b es,
  stream_holds (Some b) es -> Z.of_nat (length es + length flips) <= u64_max ->
  (forall i x, flips !! i = Some x ->
     exists v, event_to_vec (MemoryEvent_Admitted (Z.of_nat (length es + i) + 1) now x) = Ok v) ->
  Forall (fun x => entry_readable x = true) flips ->
  (persist_flips [] b (Z.of_nat (length es)) now flips).1 = Ok tt.
Proof.
  induction flips as [|x flips IH]; intros b es Hst Hlen Henc Hread; [done|]. apply Forall_cons in Hread as [Hx Hread]. cbn [persist_flips hd tl].
  unfold u64_checked_add.
  assert (in_u64 (Z.of_nat (length es) + 1) = true) as ->.
  { unfold in_u64. apply andb_true_iff. simpl in Hlen. rewrite !Z.leb_le. lia. }
  destruct (Henc 0%nat x eq_refl) as [v Hv]. rewrite Nat.add_0_r in Hv.
  unfold txn_append. cbn [tx_intact tx_append io_ok]. rewrite Hv, (ec_value _ _ Hv).
  set (event := MemoryEvent_Admitted (Z.of_nat (length es) + 1) now x) in *.
  assert (stream_holds (Some (b ++ v ++ [LF])%list) (es ++ [event])) as Hst'.
  { destruct Hst as [Hlog Hc]. split; [by apply stream_log_snoc | by apply contiguous_snoc]. }
  replace (Z.of_nat (length es) + 1) with (Z.of_nat (length (es ++ [event]))) by (rewrite length_app; simpl; lia).
  apply IH; [done| | |done].
  - rewrite length_app. simpl in *. lia.
  - intros i y Hy. destruct (Henc (S i) y Hy) as [w Hw]. exists w. rewrite <- Hw, length_app. simpl.
    by rewrite <- Nat.add_assoc.
Qed.

(** The entries after the sweep: every live one carries its flag at [now]. *)
Lemma swept_not_flipped now e :
  (fr_stale (me_freshness e) = false -> is_stale_at now (me_freshness e) = false) -> swept now e = e.
Proof.
  intros Hn. unfold swept. destruct e as [id k c pr [ttl lc st] cf ap su ir al rs rb ra]. simpl in *.
  assert (is_stale_at now {| fr_ttl_seconds := ttl; fr_last_confirmed_at := lc; fr_stale := st |} = st) as ->; [|done].
  destruct st; [|by apply Hn]. unfold is_stale_at. simpl. destruct ttl as [t|]; [|done].
  by destruct (parse_u64 _ ≫= _).
Qed.

Lemma insert_entries_in m l k x :
  (forall x y, x ∈ l -> y ∈ l -> entry_key x = entry_key y -> x = y) -> x ∈ l -> entry_key x = k ->
  insert_entries m l !! k = Some x.
Proof.
  unfold insert_entries. revert m. induction l as [|y l IH]; intros m Hinj Hx Hk; [by apply elem_of_nil in Hx|]. simpl.
  destruct (decide (x ∈ l)) as [Hin|Hout].
  - apply IH; [intros a b Ha Hb; apply Hinj; by right | done | done].
  - apply elem_of_cons in Hx as [<-|]; [|done].
    destruct (insert_entries_lookup (<[entry_key x := x]> m) l k) as [E|(z & Hz & Hzk & E)]; unfold insert_entries in E; rewrite E.
    + by rewrite Hk, lookup_insert_eq.
    + f_equal. apply Hinj; [by right | by left | congruence].
Qed.

Lemma sweep_entries_exact p now :
  keyed (mpr_entries p) ->
  insert_entries (mpr_entries p) (newly_stale p (sweep_entries p now)) = swept now <$> mpr_entries p.
Proof.
  intros Hk. apply map_eq. intros k. rewrite lookup_fmap.
  assert (forall x y, x ∈ newly_stale p (sweep_entries p now) -> y ∈ newly_stale p (sweep_entries p now) ->
    entry_key x = entry_key y -> x = y) as Hinj.
  { intros x y (e & He & -> & _)%elem_of_flips (f & Hf & -> & _)%elem_of_flips E; [|done|done].
    rewrite !swept_key in E. rewrite E in He. congruence. }
  destruct (mpr_entries p !! k) as [e|] eqn:He; simpl.
  - destruct (decide (fr_stale (me_freshness e) = false /\ is_stale_at now (me_freshness e) = true)) as [[Hf Hs]|Hn].
    + apply insert_entries_in; [done| |rewrite swept_key; by apply Hk].
      apply elem_of_flips; [done|]. exists e. by rewrite (proj1 (Hk k e He)).
    + rewrite swept_not_flipped.
      2:{ intros Hf. destruct (is_stale_at now (me_freshness e)) eqn:Es; [|done]. by destruct Hn. }
      destruct (insert_entries_lookup (mpr_entries p) (newly_stale p (sweep_entries p now)) k) as [->|(x & Hx & Hxk & E)]; [done|].
      exfalso. apply elem_of_flips in Hx as (f & Hf & -> & Hfs & Hss); [|done]. rewrite swept_key in Hxk. subst k.
      apply Hn. by simplify_eq.
  - destruct (insert_entries_lookup (mpr_entries p) (newly_stale p (sweep_entries p now)) k) as [->|(x & Hx & Hxk & E)]; [done|].
    apply elem_of_flips in Hx as (f & Hf & -> & _); [|done]. rewrite swept_key in Hxk. subst k. congruence.
Qed.

End ledger.

(** ** Claims about the memory ledger *)

(** C33: what each command does to the store, when no append is cut in the middle of a line.  On a
    reachable stream that reads back, with one exception, the projection reads back after the command,
    and under every id the entry is unchanged, or it is the one this command admitted past the gate,
    promoted past the gate, removed, or marked stale; a promotion changes the authority level and
    nothing else, a sweep the stale flag and nothing else.  Forgotten ids stay recorded as superseded.
    The exception is the admission, past the gate, of an entry whose confidence is not in 0..=100: it
    may be written, and then the stream does not read back and no command changes it any more. *)
Theorem memory_step_exact `{EventCodec MemoryEvent} `{!EventCodecLaws MemoryEvent} {hash : ContentHash} st p c :
  memory_reachable st -> memory_project io_ok st = Ok p -> atomic_command c ->
  (exists p', memory_project io_ok (run_command c st) = Ok p'
     /\ (forall k, entry_step c k (mpr_entries p !! k) (mpr_entries p' !! k))
     /\ mpr_superseded p ⊆ mpr_superseded p')
  \/ (exists io entry policy now, c = Cmd_Admit io entry policy now
       /\ can_admit entry policy = AdmissionDecision_Allowed /\ ~ (0 <= me_confidence entry <= MAX_CONFIDENCE))
     /\ (exists line source, memory_project io_ok (run_command c st) = Err (EL_Parse (log_path StreamId_Memory) line source))
     /\ forall c', run_command c' (run_command c st) = run_command c st.
Proof.
  intros Hr Hp Hat. destruct (memory_reads st p Hr Hp) as (es & Hst & Hk & ->).
  destruct (command_step c st es Hst Hk Hat) as [(es' & Hst' & [He _ Hs])|(io & entry & policy & now & -> & Ha & Hread & Hpois)].
  - left. exists (replay es'). split; [by apply memory_project_holds|]. done.
  - right. split; [|split; [by apply memory_project_poisoned|intros c'; by apply poisoned_stays]].
    exists io, entry, policy, now. split; [done|]. split; [done|]. intros Hc.
    apply entry_in_bounds in Hc. congruence.
Qed.

(** Authority comes only through the promotion gate, or with the entry.  If after a command an
    entry counts as ground truth, it did so before, or the command is a promotion with at least one
    and at least the policy's number of distinct non-blank evidence references, or it is the
    admission of an entry that already claims the level for itself, which the admission gate does
    not look at. *)
Theorem authority_needs_a_gate `{EventCodec MemoryEvent} `{!EventCodecLaws MemoryEvent} {hash : ContentHash}
    st p c p' k e' :
  memory_reachable st -> memory_project io_ok st = Ok p -> atomic_command c ->
  memory_project io_ok (run_command c st) = Ok p' -> mpr_entries p' !! k = Some e' ->
  authority_level_effective e' = AuthorityLevel_Authority ->
  (exists e, mpr_entries p !! k = Some e /\ authority_level_effective e = AuthorityLevel_Authority)
  \/ (exists io id policy evidence now, c = Cmd_Promote io id policy evidence now /\ k = StableId_0 id
       /\ (1 <= count_distinct_non_empty (ae_evidence_refs evidence))%nat
       /\ (mpo_min_evidence_refs_for_authority policy <= count_distinct_non_empty (ae_evidence_refs evidence))%nat)
  \/ (exists io policy now, c = Cmd_Admit io e' policy now
       /\ me_authority_level e' = Some AuthorityLevel_Authority).
Proof.
  intros Hr Hp Hat Hp' He' Ha. destruct (memory_reads st p Hr Hp) as (es & Hst & Hk & ->).
  destruct (command_step c st es Hst Hk Hat) as [(es' & Hst' & [He _ _])|(? & ? & ? & ? & _ & _ & _ & Hpois)].
  2:{ destruct (memory_project_poisoned _ Hpois) as (n & source & E). congruence. }
  rewrite (memory_project_holds _ es' Hst') in Hp'. simplify_eq.
  specialize (He k). unfold entries_of in He. rewrite He' in He.
  inversion He as [Hsame|io entry policy now Hc Hkey Hadm Hnew|io id policy evidence now e Hc Hkey Hold Hpr Hnew
    |io id now e Hc Hkey Hold Hnew|io ios now e Hc Hold Hnew].
  - left. exists e'. by rewrite <- Hsame.
  - right; right. exists io, policy, now. subst. split; [done|]. unfold authority_level_effective in Ha.
    destruct (me_authority_level e') as [a|]; [by subst|]. by destruct (me_approval e').
  - right; left. exists io, id, policy, evidence, now. split; [done|]. split; [done|].
    unfold can_promote in Hpr. destruct (_ || _) eqn:Eb in Hpr; [done|]. apply orb_false_iff in Eb as [H1 H2].
    apply Nat.eqb_neq in H1. apply Nat.ltb_ge in H2. lia.
  - left. exists e. split; [done|]. by subst e'.
Qed.

(** A forgotten id that returns can never be forgotten again.  Admission does not look at the
    superseded ids, so the id can be admitted again; from then on, whatever commands follow, forget
    answers that the entry is already gone, and writes nothing, as long as the stream reads back. *)
Theorem forgotten_id_is_never_forgotten_again `{EventCodec MemoryEvent} `{!EventCodecLaws MemoryEvent} {hash : ContentHash}
    st st' p id now :
  memory_reachable st -> memory_project io_ok st = Ok p -> StableId_0 id ∈ mpr_superseded p ->
  rtc memory_step st st' -> is_ok (memory_project io_ok st') = true ->
  forget_with_durability io_ok st' id now = (ForgetStatus_AlreadyForgotten, Some (default [] st'))
  /\ (forall entry policy v, me_entry_id entry = id -> can_admit entry policy = AdmissionDecision_Allowed -> entry_readable entry = true ->
       mpr_sequence p < u64_max -> event_to_vec (MemoryEvent_Admitted (mpr_sequence p + 1) now entry) = Ok v ->
       exists p', memory_project io_ok (admit_with_durability io_ok st entry policy now).2 = Ok p'
         /\ mpr_entries p' !! StableId_0 id = Some entry /\ StableId_0 id ∈ mpr_superseded p').
Proof.
  intros Hr Hp Hin Hrun Hok. destruct (memory_reads st p Hr Hp) as (es & Hst & Hk & ->). split.
  - destruct (memory_run st st' es Hst Hk Hrun) as [(es' & Hst' & _ & Hs)|Hpois].
    2:{ destruct (memory_project_poisoned _ Hpois) as (n & source & E). by rewrite E in Hok. }
    apply (decide_and_append_refuses _ st' es'); [done|]. rewrite bool_decide_eq_true_2; [done|].
    apply Hs. exact Hin.
  - intros entry policy v Hid Hadm Hread Hmax Hv. unfold admit_with_durability. rewrite Hadm.
    match goal with |- context [decide_and_append _ _ _ ?f _] => set (verdict := f) end.
    destruct (decide_and_append_accepts StreamId_Memory st es verdict
      (fun seq => (MemoryEvent_Admitted seq now entry, AdmissionStatus_Admitted seq)) v AdmissionStatus_StoreError Hst)
      as (st1 & -> & Hst1); [done | done | done | done | done |].
    eexists. split; [by apply memory_project_holds|]. rewrite replay_snoc by apply Hst1. simpl.
    unfold entry_key. rewrite Hid, lookup_insert_eq. done.
Qed.

(** Listing sweeps exactly.  When every flip can be written, listing returns the live entries
    that are not stale at the given time, the store then holds every live entry with its stale flag
    brought up to date and nothing else changed, and listing again at the same time flips nothing. *)
Theorem list_now_exact `{EventCodec MemoryEvent} `{!EventCodecLaws MemoryEvent} {hash : ContentHash} st p now :
  memory_reachable st -> memory_project io_ok st = Ok p ->
  let flips := newly_stale p (mc_entries (mark_stale now (projection_to_contract p))) in
  mpr_sequence p + Z.of_nat (length flips) <= u64_max ->
  (forall i x, flips !! i = Some x ->
     exists v, event_to_vec (MemoryEvent_Admitted (mpr_sequence p + Z.of_nat i + 1) now x) = Ok v) ->
  let r := list_now_with_durability io_ok [] st now in
  exists entries p', r.1 = ListStatus_Ok (length flips) entries
    /\ memory_project io_ok r.2 = Ok p' /\ mpr_entries p' = swept now <$> mpr_entries p
    /\ (forall x, x ∈ entries <-> exists k e, mpr_entries p !! k = Some e /\ x = swept now e
                                          /\ is_stale_at now (me_freshness e) = false)
    /\ newly_stale p' (mc_entries (mark_stale now (projection_to_contract p'))) = [].
Proof.
  intros Hr Hp flips Hmax Henc. destruct (memory_reads st p Hr Hp) as (es & Hst & Hk & ->). cbv zeta.
  destruct (replay_contiguous es (proj2 Hst)) as [_ Hseq]. change (sequence_of (replay es)) with (mpr_sequence (replay es)) in Hseq.
  assert (keyed (mpr_entries (replay es))) as Hk' by exact Hk.
  unfold list_now_with_durability, txn_begin, txn_project. cbn [tx_begin tx_read io_ok].
  rewrite (replay_log _ _ es (proj1 Hst)), Hseq in *. fold flips.
  pose proof (persist_flips_holds now flips [] (default [] st) es Hst (Forall_nil_2 _) (flips_readable _ now Hk)) as (n & es' & Hst' & He & _ & Hn).
  pose proof (persist_flips_ok now flips (default [] st) es Hst ltac:(lia)) as Hok.
  specialize (Hok ltac:(intros i x Hi; rewrite Nat2Z.inj_add; by apply Henc) (flips_readable _ now Hk)).
  destruct (persist_flips _ _ _ _ _) as [res b']. simpl in *. subst res. rewrite (Hn eq_refl) in He.
  assert (mpr_entries (replay es') = swept now <$> mpr_entries (replay es)) as Hentries.
  { change (mpr_entries (replay es')) with (entries_of es'). rewrite He. by apply sweep_entries_exact. }
  eexists _, (replay es'). split; [done|]. split; [by apply memory_project_holds|]. split; [done|]. split.
  - intros x. rewrite filter_In_iff. fold (sweep_entries (replay es) now).
    change (map (swept now) (map_values (mpr_entries (replay es)))) with (sweep_entries (replay es) now).
    rewrite elem_of_sweep. split.
    + intros [(k & e & Hke & ->) Hf%negb_true_iff]. exists k, e. done.
    + intros (k & e & Hke & -> & Hf). split; [by exists k, e|]. simpl. by rewrite Hf.
  - apply filter_none. intros x Hx. fold (sweep_entries (replay es') now) in Hx.
    apply elem_of_sweep in Hx as (k & e & Hke & ->). rewrite Hentries, lookup_fmap_Some in Hke.
    destruct Hke as (f & <- & Hf). rewrite !swept_key, Hentries, lookup_fmap, (proj1 (Hk' k f Hf)), Hf. simpl.
    rewrite is_stale_at_idem. by destruct (is_stale_at now (me_freshness f)).
Qed.
