(* ===== verification/ResearchLedger.v ===== *)
(** * The research source ledger

    [forge-core-contracts/src/research.rs] and [forge-core-eventlog/src/research/]: sources harvested
    by agents, admitted past a pure gate and appended to their own event log.  Events that retire a
    source are part of the log's format, but no command writes them: only a log written elsewhere
    holds one.  Results are modelled by their status. *)

From S2P Require Import Prelude RustStr BTree Contracts EventLog.

Local Open Scope string_scope.
Local Open Scope Z_scope.

Inductive ResearchSourceKind :=
| ResearchSourceKind_Paper | ResearchSourceKind_WebUrl | ResearchSourceKind_LocalDoc | ResearchSourceKind_RepoRef.

Record ResearchSource := {
  rs_id : SourceId;
  rs_kind : ResearchSourceKind;
  rs_title : string;
  rs_locator : string;
  rs_fetched_at : Z;
  rs_content_hash : option string;
  rs_harvested_by : string;
  rs_trace_ref : option string
}.

Record ResearchPolicy := {
  rp_permitted_source_kinds : list ResearchSourceKind;
  rp_require_content_hash : bool;
  rp_require_trace_ref : bool
}.

Inductive ResearchAdmissionDenialReason :=
| Research_KindNotPermitted | Research_MissingTitle | Research_MissingLocator
| Research_MissingContentHash | Research_MissingTraceRef.

Inductive ResearchAdmissionDecision :=
| ResearchAdmissionDecision_Allowed
| ResearchAdmissionDecision_Blocked (reasons : list ResearchAdmissionDenialReason).

#[export] Instance ResearchSourceKind_eq_dec : EqDecision ResearchSourceKind.
Proof. solve_decision. Defined.
#[export] Instance ResearchSource_eq_dec : EqDecision ResearchSource.
Proof. solve_decision. Defined.

Definition research_from_denials (denials : list ResearchAdmissionDenialReason) : ResearchAdmissionDecision :=
  match denials with
  | [] => ResearchAdmissionDecision_Allowed
  | _ => ResearchAdmissionDecision_Blocked denials
  end.

Definition research_kind_is_permitted (kind : ResearchSourceKind) (permitted : list ResearchSourceKind) : bool :=
  existsb (fun k => bool_decide (k = kind)) permitted.

(** [text.as_deref().is_none_or(|t| t.trim().is_empty())]. *)
Definition absent_or_blank (text : option string) : bool :=
  match text with None => true | Some t => str_is_empty (trim t) end.

Definition can_admit_source (source : ResearchSource) (policy : ResearchPolicy) : ResearchAdmissionDecision :=
  let deny (b : bool) reason := if b then [reason] else [] in
  research_from_denials
    (deny (negb (research_kind_is_permitted (rs_kind source) (rp_permitted_source_kinds policy))) Research_KindNotPermitted
     ++ deny (str_is_empty (trim (rs_title source))) Research_MissingTitle
     ++ deny (str_is_empty (trim (rs_locator source))) Research_MissingLocator
     ++ deny (rp_require_content_hash policy && absent_or_blank (rs_content_hash source)) Research_MissingContentHash
     ++ deny (rp_require_trace_ref policy && absent_or_blank (rs_trace_ref source)) Research_MissingTraceRef)%list.

(** ** The log *)

Inductive ResearchEvent :=
| SourceAdded (sequence at_unix : Z) (source : ResearchSource)
| SourceRetired (sequence at_unix : Z) (before : ResearchSource).

#[export] Instance ResearchEvent_eq_dec : EqDecision ResearchEvent.
Proof. solve_decision. Defined.

Definition research_sequence (e : ResearchEvent) : Z := match e with SourceAdded s _ _ | SourceRetired s _ _ => s end.

Inductive ResearchProjectionSeverity := ResearchProjectionSeverity_Warning | ResearchProjectionSeverity_Error.

Record ResearchProjectionDiagnostic := {
  rpd_severity : ResearchProjectionSeverity;
  rpd_code : string;
  rpd_message : string
}.

Record ResearchProjection := {
  rpr_sequence : Z;
  rpr_sources : gmap string ResearchSource;
  rpr_superseded : gset string;
  rpr_diagnostics : list ResearchProjectionDiagnostic
}.

Definition ResearchProjection_default : ResearchProjection :=
  {| rpr_sequence := 0; rpr_sources := ∅; rpr_superseded := ∅; rpr_diagnostics := [] |}.

Definition rpr_push (d : ResearchProjectionDiagnostic) (p : ResearchProjection) : ResearchProjection :=
  {| rpr_sequence := rpr_sequence p; rpr_sources := rpr_sources p; rpr_superseded := rpr_superseded p;
     rpr_diagnostics := (rpr_diagnostics p ++ [d])%list |}.

Definition source_key (s : ResearchSource) : string := SourceId_0 (rs_id s).

(** [ResearchDomain::apply]. *)
Definition research_apply (p : ResearchProjection) (event : ResearchEvent) : ResearchProjection :=
  match event with
  | SourceAdded _ _ source =>
      {| rpr_sequence := rpr_sequence p; rpr_sources := <[source_key source := source]> (rpr_sources p);
         rpr_superseded := rpr_superseded p; rpr_diagnostics := rpr_diagnostics p |}
  | SourceRetired _ _ before =>
      {| rpr_sequence := rpr_sequence p; rpr_sources := delete (source_key before) (rpr_sources p);
         rpr_superseded := {[source_key before]} ∪ rpr_superseded p; rpr_diagnostics := rpr_diagnostics p |}
  end.

#[export] Instance ResearchDomain : EventSourced ResearchEvent ResearchProjection ResearchProjectionDiagnostic := {|
  sequence := research_sequence;
  projection_default := ResearchProjection_default;
  es_apply := research_apply;
  record_diagnostic p d := rpr_push d p;
  sequence_of := rpr_sequence;
  advance_sequence p s := {| rpr_sequence := s; rpr_sources := rpr_sources p; rpr_superseded := rpr_superseded p;
                             rpr_diagnostics := rpr_diagnostics p |};
  diagnostic_out_of_order_event_ignored event_seq projection_seq := {|
    rpd_severity := ResearchProjectionSeverity_Warning; rpd_code := CODE_OUT_OF_ORDER_EVENT_IGNORED;
    rpd_message := "event sequence " +:+ fmt_int event_seq +:+ " <= projection sequence "
                   +:+ fmt_int projection_seq +:+ "; ignored" |};
  diagnostic_torn_final_line_skipped line_number source := {|
    rpd_severity := ResearchProjectionSeverity_Warning; rpd_code := CODE_TORN_FINAL_LINE_SKIPPED;
    rpd_message := "skipped incomplete final line " +:+ fmt_nat line_number +:+ ": " +:+ source |}
|}.

#[export] Instance ResearchDomain_laws : EventSourcedLaws ResearchEvent ResearchProjection ResearchProjectionDiagnostic.
Proof. by split. Qed.

(** The fields of a source are read without checks on their values. *)
#[export] Instance ResearchBounds : EventBounds ResearchEvent := fun _ => true.

Definition ResearchAdmitError : Type := EventLogError ResearchProjectionDiagnostic.

Inductive ResearchAdmissionStatus :=
| ResearchAdmissionStatus_Admitted (sequence : Z)
| ResearchAdmissionStatus_DeniedByGate (reasons : list ResearchAdmissionDenialReason)
| ResearchAdmissionStatus_StoreError (e : ResearchAdmitError).

Section commands.
Context `{EventCodec ResearchEvent}.

Definition admit_source_with_durability (io : TxnIo) (st : option bytes) (source : ResearchSource)
    (policy : ResearchPolicy) (now_unix : Z) : ResearchAdmissionStatus * option bytes :=
  match can_admit_source source policy with
  | ResearchAdmissionDecision_Blocked reasons => (ResearchAdmissionStatus_DeniedByGate reasons, st)
  | ResearchAdmissionDecision_Allowed =>
      decide_and_append StreamId_Research io st
        (fun _ => Ok (fun seq => (SourceAdded seq now_unix source, ResearchAdmissionStatus_Admitted seq)))
        ResearchAdmissionStatus_StoreError
  end.

Definition research_project (io : TxnIo) (st : option bytes) : Result ResearchProjection ResearchAdmitError :=
  match txn_begin StreamId_Research io st with
  | Err e => Err e
  | Ok b => txn_project StreamId_Research io b
  end.

(** A run of admissions, with I/O failures that do not cut a line in two. *)
Inductive research_step (st : option bytes) : option bytes -> Prop :=
| research_admit io source policy now :
    atomic_io io -> research_step st (admit_source_with_durability io st source policy now).2.

Definition research_reachable : option bytes -> Prop := rtc research_step None.

End commands.

(** ** Lemmas *)

(** A source a policy accepts, without the list of denials. *)
Definition admissible (source : ResearchSource) (policy : ResearchPolicy) : Prop :=
  rs_kind source ∈ rp_permitted_source_kinds policy
  /\ trim (rs_title source) ≠ "" /\ trim (rs_locator source) ≠ ""
  /\ (rp_require_content_hash policy = true -> exists h, rs_content_hash source = Some h /\ trim h ≠ "")
  /\ (rp_require_trace_ref policy = true -> exists t, rs_trace_ref source = Some t /\ trim t ≠ "").

Lemma str_is_empty_iff s : str_is_empty s = true <-> s = "".
Proof. by destruct s. Qed.

Lemma absent_or_blank_iff (b : bool) text :
  b && absent_or_blank text = false <-> (b = true -> exists t, text = Some t /\ trim t ≠ "").
Proof.
  destruct b; simpl; [|by split]. unfold absent_or_blank. destruct text as [t|]; [|naive_solver].
  rewrite <- not_true_iff_false, str_is_empty_iff. naive_solver.
Qed.

Lemma can_admit_source_iff source policy :
  can_admit_source source policy = ResearchAdmissionDecision_Allowed <-> admissible source policy.
Proof.
  unfold admissible. rewrite <- !absent_or_blank_iff.
  assert (rs_kind source ∈ rp_permitted_source_kinds policy
          <-> research_kind_is_permitted (rs_kind source) (rp_permitted_source_kinds policy) = true) as ->.
  { unfold research_kind_is_permitted. rewrite existsb_In. split.
    - intros Hk. exists (rs_kind source). split; [done | by apply bool_decide_eq_true_2].
    - by intros (k & Hk & ->%bool_decide_eq_true_1). }
  rewrite <- !str_is_empty_iff, !not_true_iff_false. unfold can_admit_source.
  destruct (research_kind_is_permitted _ _), (str_is_empty (trim (rs_title source))),
    (str_is_empty (trim (rs_locator source))), (_ && absent_or_blank (rs_content_hash source)),
    (_ && absent_or_blank (rs_trace_ref source)); simpl; naive_solver.
Qed.

Section ledger.
Context `{EventCodec ResearchEvent} `{!EventCodecLaws ResearchEvent}.

(** Every live source was admissible under some policy, and no id was ever retired. *)
Definition vetted (es : list ResearchEvent) : Prop :=
  (forall k s, rpr_sources (replay es) !! k = Some s -> source_key s = k /\ exists policy, admissible s policy)
  /\ rpr_superseded (replay es) = ∅ /\ rpr_diagnostics (replay es) = [].

Lemma vetted_snoc es seq now source policy :
  contiguous (es ++ [SourceAdded seq now source]) -> vetted es -> admissible source policy ->
  vetted (es ++ [SourceAdded seq now source]).
Proof.
  intros Hc (Hs & Hsup & Hd) Ha. unfold vetted. rewrite (replay_snoc es _ Hc). simpl. split; [|done].
  intros k s. rewrite lookup_insert_if. destruct (decide _) as [->|]; [|apply Hs].
  intros [= <-]. split; [done | by exists policy].
Qed.

Lemma research_project_holds st es : stream_holds st es -> research_project io_ok st = Ok (replay es).
Proof. intros [Hlog _]. unfold research_project. simpl. by apply replay_log. Qed.

Lemma research_step_holds st st' es :
  stream_holds st es -> vetted es -> research_step st st' -> exists es', stream_holds st' es' /\ vetted es'.
Proof.
  intros Hst Hv Hs. destruct Hs as [io source policy now Hat]. unfold admit_source_with_durability.
  destruct (can_admit_source source policy) eqn:Ha; [|by exists es]. apply can_admit_source_iff in Ha.
  match goal with |- context [decide_and_append _ _ _ ?f _] => set (verdict := f) end.
  destruct (decide_and_append_holds StreamId_Research io st es verdict ResearchAdmissionStatus_StoreError Hst Hat)
    as (es' & Hst' & Hes & _); [by intros mk [= <-] s|].
  exists es'. split; [done|]. destruct Hes as [->|(mk & [= <-] & ->)]; [done|].
  eapply vetted_snoc; [apply Hst' | done | exact Ha].
Qed.

Lemma research_run_holds st : research_reachable st -> exists es, stream_holds st es /\ vetted es.
Proof.
  intros Hr. unfold research_reachable in Hr.
  assert (forall st0 es0, rtc research_step st0 st -> stream_holds st0 es0 -> vetted es0 ->
            exists es, stream_holds st es /\ vetted es) as Hgen.
  { intros st0 es0 Hrun. revert es0. induction Hrun as [st0|st0 st1 st2 Hs _ IH]; intros es0 Hst Hv; [by exists es0|].
    destruct (research_step_holds _ _ es0 Hst Hv Hs) as (es1 & Hst1 & Hv1). by apply (IH Hr es1). }
  apply (Hgen None []); [done | exact holds_None|]. split; [|done]. by intros k s.
Qed.

End ledger.

(** ** Claims about the research ledger *)

(** Only vetted sources are citable.  On a stream reached by admissions, every live source has a
    title and a locator that are not blank, is filed under its own id, and met some policy; and an
    admission is granted if and only if the source meets the policy given with it: then the next
    projection holds it under its id, replacing any source with that id and changing no other. *)
Theorem research_admission_exact `{EventCodec ResearchEvent} `{!EventCodecLaws ResearchEvent} st p source policy now v :
  research_reachable st -> research_project io_ok st = Ok p -> rpr_sequence p < u64_max ->
  event_to_vec (SourceAdded (rpr_sequence p + 1) now source) = Ok v ->
  (forall k s, rpr_sources p !! k = Some s -> source_key s = k /\ exists policy, admissible s policy)
  /\ let r := admit_source_with_durability io_ok st source policy now in
     (admissible source policy -> r.1 = ResearchAdmissionStatus_Admitted (rpr_sequence p + 1)
        /\ exists p', research_project io_ok r.2 = Ok p'
             /\ rpr_sources p' = <[source_key source := source]> (rpr_sources p))
     /\ (~ admissible source policy -> exists reasons, r = (ResearchAdmissionStatus_DeniedByGate reasons, st)).
Proof.
  intros Hr Hp Hs Hv. destruct (research_run_holds st Hr) as (es & Hst & Hvet).
  rewrite (research_project_holds st es Hst) in Hp. simplify_eq. split; [apply Hvet|]. cbv zeta.
  unfold admit_source_with_durability. pose proof (can_admit_source_iff source policy) as Hiff.
  destruct (can_admit_source source policy) as [|reasons]; (split; [intros Ha|intros Hn]).
  - match goal with |- context [decide_and_append _ _ _ ?f _] => set (verdict := f) end.
    destruct (decide_and_append_accepts StreamId_Research st es verdict
      (fun seq => (SourceAdded seq now source, ResearchAdmissionStatus_Admitted seq)) v
      ResearchAdmissionStatus_StoreError Hst) as (st' & -> & Hst'); [done | done | done | done | done |].
    split; [done|]. eexists. split; [by apply research_project_holds|]. by rewrite replay_snoc by apply Hst'.
  - by destruct Hn; apply Hiff.
  - by apply Hiff in Ha.
  - by eexists.
Qed.

Module ResearchExample.

Definition paper : ResearchSource := {|
  rs_id := mk_SourceId "source.1"; rs_kind := ResearchSourceKind_Paper; rs_title := "A paper";
  rs_locator := "doi:10.1/1"; rs_fetched_at := 100; rs_content_hash := None; rs_harvested_by := "agent";
  rs_trace_ref := Some "run.1" |}.

Definition rpolicy : ResearchPolicy := {|
  rp_permitted_source_kinds := [ResearchSourceKind_Paper]; rp_require_content_hash := false;
  rp_require_trace_ref := true |}.

#[export] Instance research_codec : EventCodec ResearchEvent := TableEventCodec.codec [SourceAdded 1 100 paper].
#[export] Instance research_laws : EventCodecLaws ResearchEvent := TableEventCodec.event_codec_laws _.

End ResearchExample.

Lemma research_admission_exact_witness :
  (admit_source_with_durability (H := ResearchExample.research_codec) io_ok None ResearchExample.paper
     ResearchExample.rpolicy 100).1 = ResearchAdmissionStatus_Admitted 1.
Proof.
  refine (proj1 (proj1 (proj2 (@research_admission_exact ResearchExample.research_codec ResearchExample.research_laws
    None ResearchProjection_default ResearchExample.paper ResearchExample.rpolicy 100 (TableEventCodec.line 0)
    (rtc_refl _ _) _ _ _)) _)).
  - vm_compute. reflexivity.
  - vm_compute. reflexivity.
  - vm_compute. reflexivity.
  - apply can_admit_source_iff. vm_compute. reflexivity.
Defined.
