(* ===== verification/EventExamples.v ===== *)
(** * Concrete runs of the event-log components

    A pending conflict that is recorded and arbitrated, and a memory entry that is admitted,
    promoted, swept and forgotten, on which the theorems about the log and its ledgers are
    instantiated.  Events are written with the table codec of [EventLog]. *)

From S2P Require Import Prelude RustStr BTree Contracts EventLog GovernanceLedger MemoryContract MemoryLedger.

Local Open Scope string_scope.
Local Open Scope Z_scope.
Local Open Scope list_scope.

(** ** Governance *)

Module GovScenario.

Definition alice : PrincipalId := mk_PrincipalId "alice".
Definition judge : PrincipalId := mk_PrincipalId "judge".

Definition conflict (id : string) (r : ConflictResolutionState) : ConflictContract := {|
  cf_conflict_id := mk_StableId id; cf_intent_a := mk_StableId "intent.a"; cf_intent_b := mk_StableId "intent.b";
  cf_principal_a := alice; cf_principal_b := mk_PrincipalId "bob";
  cf_contested_scope := {| is_kind := IntentScopeKind_Repo; is_target := mk_StableId "repo" |};
  cf_detection_reason := ConflictDetectionReason_PathOverlap; cf_detected_at := 100; cf_resolution := r |}.

Definition award : ResolutionDecision := ResolutionDecision_AwardedTo alice.
Definition pending1 : ConflictContract := conflict "conflict.1" ConflictResolutionState_Pending.

(** A conflict that claims to be decided already, by someone who is not a reviewer. *)
Definition decided2 : ConflictContract := conflict "conflict.2" (ConflictResolutionState_Resolved alice 90 award).

Definition policy : GovernancePolicy := {|
  gp_policy_id := mk_StableId "policy"; gp_permitted_principals := [alice]; gp_authorized_reviewers := [judge];
  gp_conflict_policy := ConflictPolicy_EmitContract |}.

Definition e1 : GovernanceEvent := Detected 1 100 pending1.
Definition e2 : GovernanceEvent := Resolved 2 200 (mk_StableId "conflict.1") judge award.
Definition e2' : GovernanceEvent := Detected 2 200 decided2.
Definition e3 : GovernanceEvent := Escalated 2 200 (mk_StableId "conflict.1").

#[export] Instance codec : EventCodec GovernanceEvent := TableEventCodec.codec [e1; e2; e2'; e3].
#[export] Instance laws : EventCodecLaws GovernanceEvent := TableEventCodec.event_codec_laws _.
#[export] Instance glue_laws : EventGlueLaws GovernanceEvent := TableEventCodec.event_glue_laws _.

Definition bytes_of (e : GovernanceEvent) : bytes := match event_to_vec e with Ok v => v | Err _ => [] end.
Definition v1 : bytes := Eval vm_compute in bytes_of e1.
Definition v2 : bytes := Eval vm_compute in bytes_of e2.
Definition log1 : bytes := Eval vm_compute in v1 ++ [LF].

Definition st1 : option bytes := Eval vm_compute in (record_with_durability io_ok None pending1 100).2.
Definition st2 : option bytes := Eval vm_compute in
  (arbitrate_with_durability io_ok st1 (mk_StableId "conflict.1") judge award policy 200).2.

Lemma log1_holds : stream_log log1 [e1].
Proof. exists [v1]. split; [repeat constructor | done]. Qed.

Lemma step1 : gov_step atomic_io None st1.
Proof. exact (gov_record atomic_io None io_ok pending1 100 (or_intror eq_refl)). Qed.

Lemma step2 : gov_step atomic_io st1 st2.
Proof. exact (gov_arbitrate atomic_io st1 io_ok (mk_StableId "conflict.1") judge award policy 200 (or_intror eq_refl)). Qed.

Lemma reach1 : gov_atomic_reachable st1.
Proof. eapply rtc_once, step1. Qed.

(** The arbitration fails after two bytes of its line. *)
Definition cut_io : TxnIo :=
  {| tx_begin := Ok tt; tx_read := Ok tt; tx_intact := Ok tt; tx_append := Err "no space"; tx_written := Some 2%nat |}.

Definition st2_cut : option bytes := Eval vm_compute in
  (arbitrate_with_durability cut_io st1 (mk_StableId "conflict.1") judge award policy 200).2.

(** Arbitrating again is acknowledged and glued to the cut line. *)
Definition st3_glued : option bytes := Eval vm_compute in
  (arbitrate_with_durability io_ok st2_cut (mk_StableId "conflict.1") judge award policy 200).2.

Lemma reach_cut : gov_reachable st2_cut.
Proof.
  eapply rtc_l; [exact (gov_record _ None io_ok pending1 100 I)|]. apply rtc_once.
  exact (gov_arbitrate _ st1 cut_io (mk_StableId "conflict.1") judge award policy 200 I).
Qed.

Lemma reach_glued : gov_reachable st3_glued.
Proof.
  eapply rtc_r; [exact reach_cut|]. exact (gov_arbitrate _ st2_cut io_ok (mk_StableId "conflict.1") judge award policy 200 I).
Qed.

Definition projection_of (st : option bytes) : ArbitrationProjection :=
  match project io_ok st with Ok p => p | Err _ => ArbitrationProjection_default end.

(** One stream as a capture pass sees it. *)
Definition observed (b : bytes) : MemberObservation := {|
  mo_leaf := Ok tt; mo_identity := (1, 2); mo_before_length := Z.of_nat (length b); mo_bytes := b;
  mo_after_length := Z.of_nat (length b); mo_after_identity := (1, 2); mo_lock_after := Ok tt |}.

Definition seen : PerStream (Result (option MemberObservation) string) :=
  Build_PerStream (Ok None) (Ok None) (Ok (Some (observed log1))).

Definition validators : StrictValidators := {|
  sv_memory _ _ := Ok tt; sv_research _ _ := Ok tt;
  sv_governance := validate_strict_snapshot_stream (P := ArbitrationProjection) |}.

End GovScenario.

Import GovScenario.

(** Two bytes of the second event are on disk. *)
Lemma replay_after_crash_witness :
  exists source, replay_bytes (P := ArbitrationProjection) "log" (log1 ++ take 2 (v2 ++ [LF]))
    = Ok (record_diagnostic (replay [e1]) (diagnostic_torn_final_line_skipped 2 source)).
Proof. exact (replay_after_crash (P := ArbitrationProjection) "log" log1 [e1] e2 v2 2 log1_holds eq_refl). Defined.

Lemma append_after_torn_tail_poisons_witness :
  exists b', txn_append (D := ArbitrationProjectionDiagnostic) StreamId_Governance io_ok (log1 ++ take 2 v2) e2
               = (Ok tt, b')
    /\ replay_bytes (P := ArbitrationProjection) (log_path StreamId_Governance) b'
       = Err (EL_Parse (log_path StreamId_Governance) 2 "syntax error").
Proof.
  destruct (append_after_torn_tail_poisons (P := ArbitrationProjection) StreamId_Governance io_ok log1 [e1] e2 v2 2 e2 v2
    "syntax error" log1_holds eq_refl ltac:(lia) eq_refl eq_refl eq_refl ltac:(vm_compute; reflexivity))
    as (b' & H1 & H2 & _).
  exists b'. by split.
Defined.

Lemma strict_validation_exact_witness :
  validate_strict_snapshot_stream (P := ArbitrationProjection) "log" log1 = Ok tt
  /\ exists err, validate_strict_snapshot_stream (P := ArbitrationProjection) "log" (log1 ++ take 2 v2) = Err err.
Proof.
  destruct (strict_validation_exact (P := ArbitrationProjection) "log" log1 [e1] log1_holds) as [H1 H2]. split.
  - apply H1. split; [|by vm_compute]. intros [|i] e; [by intros [= <-] | done].
  - apply (H2 e2 v2 2%nat); [reflexivity | vm_compute; lia].
Defined.

Lemma capture_is_stable_witness :
  exists snapshot, capture_quiesced_event_logs validators (Ok tt) seen seen = Ok snapshot
    /\ member_stable StreamId_Governance (sv_governance validators) (ps_governance seen) (ps_governance seen)
         (ps_governance snapshot).
Proof.
  eexists. split; [vm_compute; reflexivity|].
  refine (proj2 (proj2 (proj2 (capture_is_stable validators (Ok tt) seen seen _ _)))). vm_compute. reflexivity.
Defined.

(** After the cut the projection shows one step and the torn line; after the second arbitration, which was
    acknowledged, it does not read back and nothing can be written any more. *)
Lemma governance_refines_witness :
  (exists p, project io_ok st2_cut = Ok p /\ ap_sequence p = 1 /\ ledger_step ∅ (ap_conflicts p)
     /\ exists source, ap_diagnostics p = [diagnostic_torn_final_line_skipped 2 source])
  /\ (arbitrate_with_durability io_ok st2_cut (mk_StableId "conflict.1") judge award policy 200).1 = ArbitrateStatus_Resolved 2
  /\ (exists line source, project io_ok st3_glued = Err (EL_Parse (log_path StreamId_Governance) line source))
  /\ forall allowed st', rtc (gov_step allowed) st3_glued st' -> st' = st3_glued.
Proof.
  destruct (governance_refines st2_cut reach_cut) as [Hcut _]. destruct (governance_refines st3_glued reach_glued) as [Hglued _].
  split; [|split; [vm_compute; reflexivity|]].
  - destruct (project io_ok st2_cut) as [p|err] eqn:Ep; [|vm_compute in Ep; discriminate].
    assert (ap_sequence p = 1 /\ ap_diagnostics p ≠ []) as [Hs Hd]
      by (vm_compute in Ep; injection Ep as <-; split; [reflexivity|discriminate]).
    destruct Hcut as (n & Hn & Hsteps & Hdiag). rewrite Hs in Hn. assert (n = 1%nat) as -> by lia.
    exists p. split; [reflexivity|]. split; [exact Hs|]. split; [exact (nsteps_once_inv _ _ Hsteps)|].
    destruct Hdiag as [?|[source Hsrc]]; [contradiction | exists source; exact Hsrc].
  - destruct (project io_ok st3_glued) as [p|err] eqn:Ep; [vm_compute in Ep; discriminate|].
    destruct Hglued as [(line & source & ->) Hstuck]. split; [exists line, source; reflexivity | exact Hstuck].
Defined.

Lemma decisions_are_final_witness :
  exists p' d, project io_ok st2 = Ok p' /\ ap_conflicts p' !! "conflict.1" = Some d /\ same_attribution pending1 d.
Proof.
  destruct (decisions_are_final st1 st2 (projection_of st1) "conflict.1" pending1 reach1 (rtc_once _ _ step2))
    as (p' & d & H1 & H2 & H3 & _); [vm_compute; reflexivity | vm_compute; reflexivity | by exists p', d].
Defined.

Lemma arbitrate_exact_witness :
  (arbitrate_with_durability io_ok st1 (mk_StableId "conflict.1") judge award policy 200).1 = ArbitrateStatus_Resolved 2.
Proof.
  refine (proj1 (arbitrate_exact st1 (projection_of st1) (mk_StableId "conflict.1") judge award policy 200 v2
    reach1 _ _ _)); vm_compute; reflexivity.
Defined.

(** A conflict that arrives already resolved is stored as it is. *)
Lemma record_exact_witness :
  exists p', project io_ok (record_with_durability io_ok st1 decided2 200).2 = Ok p'
    /\ ap_conflicts p' = <[conflict_key decided2 := decided2]> (ap_conflicts (projection_of st1)).
Proof.
  refine (proj2 (record_exact st1 (projection_of st1) decided2 200 (bytes_of e2') reach1 _ _ _));
    vm_compute; reflexivity.
Defined.

(** ** Memory *)

Module MemScenario.

#[export] Instance no_hash : ContentHash := fun _ => "sha256:0".

(** An entry that expires at 150 and claims the highest authority for itself. *)
Definition fact1 : MemoryEntry := {|
  me_entry_id := mk_StableId "memory.1"; me_kind := MemoryKind_Decision; me_content := "use the bus";
  me_provenance := {| mp_source_run_id := Some (mk_StableId "run.1"); mp_source_agent := None;
                      mp_evidence_ref := None; mp_captured_at := "100" |};
  me_freshness := {| fr_ttl_seconds := Some 50; fr_last_confirmed_at := "100"; fr_stale := false |};
  me_confidence := 90; me_approval := ApprovalState_Proposed; me_supersedes := None; me_invalidation_reason := None;
  me_authority_level := Some AuthorityLevel_Authority; me_review_state := None; me_reviewed_by := None;
  me_reviewed_at := None |}.

Definition policy : MemoryPolicy := {|
  mpo_permitted_kinds := [MemoryKind_Decision]; mpo_required_evidence_fields := [EvidenceField_SourceRunId];
  mpo_min_evidence_refs_for_authority := 2 |}.

Definition m1 : MemoryEvent := MemoryEvent_Admitted 1 100 fact1.
Definition m2_sweep : MemoryEvent := MemoryEvent_Admitted 2 200 (swept 200 fact1).
Definition m2_forget : MemoryEvent := MemoryEvent_Forgotten 2 120 fact1 "sha256:0".
Definition m3 : MemoryEvent := MemoryEvent_Admitted 3 130 fact1.

(** An entry with more than full confidence, which no gate looks at. *)
Definition overconfident : MemoryEntry := {|
  me_entry_id := mk_StableId "memory.2"; me_kind := MemoryKind_Decision; me_content := "trust me";
  me_provenance := me_provenance fact1; me_freshness := me_freshness fact1;
  me_confidence := 200; me_approval := ApprovalState_Proposed; me_supersedes := None; me_invalidation_reason := None;
  me_authority_level := None; me_review_state := None; me_reviewed_by := None; me_reviewed_at := None |}.

Definition m2_bad : MemoryEvent := MemoryEvent_Admitted 2 110 overconfident.

#[export] Instance mem_codec : EventCodec MemoryEvent := TableEventCodec.codec [m1; m2_sweep; m2_forget; m3; m2_bad].
#[export] Instance mem_laws : EventCodecLaws MemoryEvent := TableEventCodec.event_codec_laws _.

Definition admit1 : MemoryCommand := Cmd_Admit io_ok fact1 policy 100.
Definition forget1 : MemoryCommand := Cmd_Forget io_ok (mk_StableId "memory.1") 120.

Definition mst1 : option bytes := Eval vm_compute in run_command admit1 None.
Definition mst2 : option bytes := Eval vm_compute in run_command forget1 mst1.

Lemma ok_atomic : atomic_io io_ok.
Proof. by right. Qed.

Lemma mem_reach1 : memory_reachable mst1.
Proof. apply rtc_once. exists admit1. split; [exact ok_atomic | reflexivity]. Qed.

Lemma mem_reach2 : memory_reachable mst2.
Proof. eapply rtc_r; [exact mem_reach1|]. exists forget1. split; [exact ok_atomic | vm_compute; reflexivity]. Qed.

Definition mem_projection_of (st : option bytes) : MemoryProjection :=
  match memory_project io_ok st with Ok p => p | Err _ => MemoryProjection_default end.

End MemScenario.

Import MemScenario.

(** Forgetting takes the entry away; admitting the overconfident one is acknowledged and closes the store. *)
Lemma memory_step_exact_witness :
  (exists p', memory_project io_ok (run_command forget1 mst1) = Ok p'
    /\ (forall k, entry_step forget1 k (mpr_entries (mem_projection_of mst1) !! k) (mpr_entries p' !! k)))
  /\ (admit_with_durability io_ok mst1 overconfident policy 110).1 = AdmissionStatus_Admitted 2
  /\ let st := run_command (Cmd_Admit io_ok overconfident policy 110) mst1 in
     (exists line source, memory_project io_ok st = Err (EL_Parse (log_path StreamId_Memory) line source))
     /\ forall c', run_command c' st = st.
Proof.
  split; [|split; [vm_compute; reflexivity|]].
  - destruct (memory_step_exact mst1 (mem_projection_of mst1) forget1 mem_reach1) as [(p' & H1 & H2 & _)|[(? & ? & ? & ? & Hc & _) _]];
      [vm_compute; reflexivity | exact ok_atomic | exists p'; split; [exact H1 | exact H2] | discriminate Hc].
  - destruct (memory_step_exact mst1 (mem_projection_of mst1) (Cmd_Admit io_ok overconfident policy 110) mem_reach1)
      as [(p' & H1 & _)|[_ Hstuck]]; [vm_compute; reflexivity | exact ok_atomic | vm_compute in H1; discriminate H1 | exact Hstuck].
Defined.

(** The entry enters the store as ground truth without passing the promotion gate. *)
Lemma authority_needs_a_gate_witness :
  (exists e, mpr_entries (mem_projection_of None) !! "memory.1" = Some e
     /\ authority_level_effective e = AuthorityLevel_Authority)
  \/ (exists io id policy evidence now, admit1 = Cmd_Promote io id policy evidence now /\ "memory.1" = StableId_0 id
       /\ (1 <= count_distinct_non_empty (ae_evidence_refs evidence))%nat
       /\ (mpo_min_evidence_refs_for_authority policy <= count_distinct_non_empty (ae_evidence_refs evidence))%nat)
  \/ (exists io policy now, admit1 = Cmd_Admit io fact1 policy now
       /\ me_authority_level fact1 = Some AuthorityLevel_Authority).
Proof.
  refine (authority_needs_a_gate None (mem_projection_of None) admit1 (mem_projection_of mst1) "memory.1" fact1
    (rtc_refl _ _) _ ok_atomic _ _ _); vm_compute; reflexivity.
Defined.

Lemma forgotten_id_is_never_forgotten_again_witness :
  exists p', memory_project io_ok (admit_with_durability io_ok mst2 fact1 policy 130).2 = Ok p'
    /\ mpr_entries p' !! "memory.1" = Some fact1 /\ "memory.1" ∈ mpr_superseded p'.
Proof.
  refine (proj2 (forgotten_id_is_never_forgotten_again mst2 mst2 (mem_projection_of mst2) (mk_StableId "memory.1") 130
    mem_reach2 _ _ (rtc_refl _ _) _) fact1 policy _ eq_refl _ _ _ _).
  - vm_compute. reflexivity.
  - apply (bool_decide_eq_true_1 _). vm_compute. reflexivity.
  - vm_compute. reflexivity.
  - vm_compute. reflexivity.
  - vm_compute. reflexivity.
  - vm_compute. reflexivity.
  - vm_compute. reflexivity.
Defined.

(** At 200 the entry is stale: the flip is written and the list is empty. *)
Lemma list_now_exact_witness :
  exists entries p', (list_now_with_durability io_ok [] mst1 200).1 = ListStatus_Ok 1 entries
    /\ memory_project io_ok (list_now_with_durability io_ok [] mst1 200).2 = Ok p'
    /\ mpr_entries p' = swept 200 <$> mpr_entries (mem_projection_of mst1).
Proof.
  destruct (list_now_exact mst1 (mem_projection_of mst1) 200 mem_reach1) as (entries & p' & H1 & H2 & H3 & _).
  - vm_compute. reflexivity.
  - vm_compute. discriminate.
  - assert (newly_stale (mem_projection_of mst1)
      (mc_entries (mark_stale 200 (projection_to_contract (mem_projection_of mst1)))) = [swept 200 fact1]) as ->
      by (vm_compute; reflexivity).
    intros [|i] x; [|done]. intros [= <-]. eexists. vm_compute. reflexivity.
  - exists entries, p'. split; [exact H1|]. by split.
Defined.
