(* ===== verification/Phase.v ===== *)
(** * Project phases and their hard gates

    [forge-core-contracts/src/phase.rs] and [forge-core-decisions/src/phase_transition.rs]: the seven
    phases, the tags they are written and read with, and the engine's verdict on a requested
    transition.  Ranks are [u8] in the source; they are 0 to 6 here and never overflow. *)

From S2P Require Import Prelude RustStr Contracts.

Local Open Scope string_scope.
Local Open Scope Z_scope.

Inductive Phase :=
| Phase_Route | Phase_Discovery | Phase_Specification | Phase_Plan
| Phase_BuildVerify | Phase_ReadyOperate | Phase_Evolve.

#[export] Instance Phase_eq_dec : EqDecision Phase.
Proof. solve_decision. Defined.

Definition ANYTIME : string := "anytime".

Definition Phase_ALL : list Phase :=
  [Phase_Route; Phase_Discovery; Phase_Specification; Phase_Plan; Phase_BuildVerify; Phase_ReadyOperate; Phase_Evolve].

Definition is_product_lifecycle_stage (self : Phase) : bool :=
  negb (match self with Phase_Route | Phase_Evolve => true | _ => false end).

Definition rank (self : Phase) : Z :=
  match self with
  | Phase_Route => 0
  | Phase_Discovery => 1
  | Phase_Specification => 2
  | Phase_Plan => 3
  | Phase_BuildVerify => 4
  | Phase_ReadyOperate => 5
  | Phase_Evolve => 6
  end.

(** The inner [match n]. *)
Definition phase_of_ordinal (n : Z) : option Phase :=
  if n =? 0 then Some Phase_Route
  else if n =? 1 then Some Phase_Discovery
  else if n =? 2 then Some Phase_Specification
  else if n =? 3 then Some Phase_Plan
  else if n =? 4 then Some Phase_BuildVerify
  else if n =? 5 then Some Phase_ReadyOperate
  else if n =? 6 then Some Phase_Evolve
  else None.

(** The final [match name]. *)
Definition phase_of_name (name : string) : option Phase :=
  let named s := bool_decide (name = s) in
  if named "route" then Some Phase_Route
  else if named "discovery" then Some Phase_Discovery
  else if named "specification" || named "spec" then Some Phase_Specification
  else if named "plan" then Some Phase_Plan
  else if named "build-verify" || named "buildverify" || named "build" then Some Phase_BuildVerify
  else if named "ready-operate" || named "readyoperate" || named "ready" then Some Phase_ReadyOperate
  else if named "evolve" then Some Phase_Evolve
  else None.

(** The text without a leading [<digits>-]; the run of digits may be empty. *)
Definition strip_number (trimmed : string) : string :=
  match split_once "-"%char trimmed with
  | Some (num, rest) => if forallb is_ascii_digit (to_bytes num) then rest else trimmed
  | None => trimmed
  end.

Definition parse_phase (raw : string) : option Phase :=
  let trimmed := to_ascii_lowercase (trim raw) in
  if str_is_empty trimmed || bool_decide (trimmed = ANYTIME) then None
  else match parse_u8 trimmed with
       | Some n => phase_of_ordinal n
       | None => phase_of_name (strip_number trimmed)
       end.

Definition tag_eligible (tag : string) (current : Phase) : bool :=
  eq_ignore_ascii_case (trim tag) ANYTIME || bool_decide (parse_phase tag = Some current).

(** [Display]. *)
Definition phase_to_string (self : Phase) : string :=
  match self with
  | Phase_Route => "0-route"
  | Phase_Discovery => "1-discovery"
  | Phase_Specification => "2-specification"
  | Phase_Plan => "3-plan"
  | Phase_BuildVerify => "4-build-verify"
  | Phase_ReadyOperate => "5-ready-operate"
  | Phase_Evolve => "6-evolve"
  end.

(** ** Transitions *)

Inductive GateKind := Grill | SystemDesign | StoryReady | Readiness | Release.

#[export] Instance GateKind_eq_dec : EqDecision GateKind.
Proof. solve_decision. Defined.

Definition gate_label (self : GateKind) : string :=
  match self with
  | Grill => "grill"
  | SystemDesign => "system-design"
  | StoryReady => "story-ready"
  | Readiness => "readiness"
  | Release => "release"
  end.

Record ProvidedGateResult := { pg_gate_kind : GateKind; pg_status : GateStatus }.

Record Waiver := { wv_owner : StableId; wv_rationale : string }.

Definition waiver_is_valid (self : Waiver) : bool :=
  negb (str_is_empty (trim (StableId_0 (wv_owner self)))) && negb (str_is_empty (trim (wv_rationale self))).

Record TransitionRequest := {
  tr_from : Phase;
  tr_to : Phase;
  tr_gates : list ProvidedGateResult;
  tr_waiver : option Waiver
}.

Inductive TransitionBlockReason :=
| ForwardSkipWithoutWaiver (from to : Phase)
| InvalidWaiver
| RequiredGateMissing (required : GateKind)
| RequiredGateNotPassing (required : GateKind) (status : GateStatus).

Inductive TransitionDecision :=
| TransitionDecision_Allowed
| TransitionDecision_Blocked (reason : TransitionBlockReason).

Definition required_gate_for (from to : Phase) : option GateKind :=
  match from, to with
  | Phase_Specification, Phase_Plan => Some SystemDesign
  | Phase_Discovery, Phase_Specification => Some Grill
  | Phase_Plan, Phase_BuildVerify => Some StoryReady
  | Phase_BuildVerify, Phase_ReadyOperate => Some Readiness
  | Phase_ReadyOperate, Phase_Evolve => Some Release
  | _, _ => None
  end.

Definition required_gates_for_forward_path (from to : Phase) : list GateKind :=
  omap (fun '(edge_from, edge_to) =>
          if (rank from <=? rank edge_from) && (rank edge_to <=? rank to)
          then required_gate_for edge_from edge_to else None)
    (zip Phase_ALL (drop 1 Phase_ALL)).

Definition gate_clears (status : GateStatus) : bool :=
  match status with GateStatus_Pass | GateStatus_NotApplicable => true | _ => false end.

(** [req.gates.iter().find(...)]. *)
Definition provided_gate (gates : list ProvidedGateResult) (required : GateKind) : option ProvidedGateResult :=
  List.find (fun g => bool_decide (pg_gate_kind g = required)) gates.

(** The loop over the required gates. *)
Fixpoint check_required_gates (gates : list ProvidedGateResult) (required_gates : list GateKind) : TransitionDecision :=
  match required_gates with
  | [] => TransitionDecision_Allowed
  | required :: rest =>
      match provided_gate gates required with
      | None => TransitionDecision_Blocked (RequiredGateMissing required)
      | Some g =>
          if negb (gate_clears (pg_status g))
          then TransitionDecision_Blocked (RequiredGateNotPassing required (pg_status g))
          else check_required_gates gates rest
      end
  end.

Definition u8_saturating_sub (a b : Z) : Z := Z.max 0 (a - b).

Definition evaluate_transition (req : TransitionRequest) : TransitionDecision :=
  let rank_delta := u8_saturating_sub (rank (tr_to req)) (rank (tr_from req)) in
  let gates_checked :=
    if 1 <=? rank_delta
    then check_required_gates (tr_gates req) (required_gates_for_forward_path (tr_from req) (tr_to req))
    else TransitionDecision_Allowed in
  if 1 <? rank_delta then
    match tr_waiver req with
    | None => TransitionDecision_Blocked (ForwardSkipWithoutWaiver (tr_from req) (tr_to req))
    | Some w => if negb (waiver_is_valid w) then TransitionDecision_Blocked InvalidWaiver else gates_checked
    end
  else gates_checked.

(** ** The rules, without the loop *)

(** A gate of this kind is among the results and the first one clears. *)
Definition cleared (gates : list ProvidedGateResult) (kind : GateKind) : Prop :=
  exists g, provided_gate gates kind = Some g /\ gate_clears (pg_status g) = true.

(** The gate stands on the edge out of the phase with this rank. *)
Definition gate_at (r : Z) (kind : GateKind) : Prop :=
  exists from to, rank from = r /\ rank to = r + 1 /\ required_gate_for from to = Some kind.

Lemma rank_range p : 0 <= rank p <= 6.
Proof. by destruct p. Qed.

Lemma rank_inj p q : rank p = rank q -> p = q.
Proof. by destruct p, q. Qed.

(** The gates of a path are those on the edges between the two ranks. *)
Lemma required_gates_exact from to kind :
  kind ∈ required_gates_for_forward_path from to <-> exists r, rank from <= r < rank to /\ gate_at r kind.
Proof.
  unfold required_gates_for_forward_path. rewrite list_elem_of_omap. split.
  - intros ([f t] & Hin & Hg). destruct (_ && _) eqn:Eb in Hg; [|done]. bool_simpl.
    exists (rank f). assert (rank t = rank f + 1) as Ht.
    { clear -Hin. simpl in Hin. rewrite !elem_of_cons, elem_of_nil in Hin. naive_solver. }
    split; [lia|]. by exists f, t.
  - intros (r & Hr & f & t & Hf & Ht & Hg). exists (f, t). subst r. split; [by destruct f, t; try done; set_solver|].
    replace ((rank from <=? rank f) && (rank t <=? rank to)) with true; [done|].
    symmetry. apply andb_true_iff. rewrite !Z.leb_le. lia.
Qed.

Lemma check_required_gates_exact gates l :
  match check_required_gates gates l with
  | TransitionDecision_Allowed => forall kind, kind ∈ l -> cleared gates kind
  | TransitionDecision_Blocked (RequiredGateMissing kind) => kind ∈ l /\ forall g, g ∈ gates -> pg_gate_kind g ≠ kind
  | TransitionDecision_Blocked (RequiredGateNotPassing kind status) =>
      kind ∈ l /\ gate_clears status = false
      /\ exists g, provided_gate gates kind = Some g /\ pg_status g = status
  | TransitionDecision_Blocked _ => False
  end.
Proof.
  induction l as [|k l IH]; simpl; [by intros kind ?%elem_of_nil|].
  destruct (provided_gate gates k) as [g|] eqn:Eg.
  - destruct (gate_clears (pg_status g)) eqn:Ec; cbn [negb].
    + destruct (check_required_gates gates l) as [|[]]; [|done|done| |]; try (setoid_rewrite elem_of_cons; naive_solver).
      intros kind [-> |?]%elem_of_cons; [by exists g | by apply IH].
    + split; [by left|]. split; [done|]. by exists g.
  - split; [by left|]. intros g Hg Hk. unfold provided_gate in Eg.
    apply (proj1 (find_none_In _ _) Eg) in Hg. by rewrite bool_decide_eq_true_2 in Hg.
Qed.

Lemma allowed_crosses req r kind :
  evaluate_transition req = TransitionDecision_Allowed ->
  rank (tr_from req) <= r < rank (tr_to req) -> gate_at r kind -> cleared (tr_gates req) kind.
Proof.
  intros He Hr Hg. unfold evaluate_transition, u8_saturating_sub in He.
  destruct (Z.leb_spec 1 (Z.max 0 (rank (tr_to req) - rank (tr_from req)))); [|lia].
  pose proof (check_required_gates_exact (tr_gates req)
    (required_gates_for_forward_path (tr_from req) (tr_to req))) as Hc.
  assert (check_required_gates (tr_gates req) (required_gates_for_forward_path (tr_from req) (tr_to req))
          = TransitionDecision_Allowed) as Ha.
  { destruct (1 <? _) in He; [|done]. destruct (tr_waiver req) as [w|]; [|done]. by destruct (waiver_is_valid w). }
  rewrite Ha in Hc. apply Hc, required_gates_exact. by exists r.
Qed.

(** A refusal names a broken rule. *)
Definition block_justified (req : TransitionRequest) (reason : TransitionBlockReason) : Prop :=
  match reason with
  | ForwardSkipWithoutWaiver from to =>
      from = tr_from req /\ to = tr_to req /\ rank to > rank from + 1 /\ tr_waiver req = None
  | InvalidWaiver =>
      rank (tr_to req) > rank (tr_from req) + 1 /\ exists w, tr_waiver req = Some w /\ waiver_is_valid w = false
  | RequiredGateMissing kind =>
      (exists r, rank (tr_from req) <= r < rank (tr_to req) /\ gate_at r kind)
      /\ forall g, g ∈ tr_gates req -> pg_gate_kind g ≠ kind
  | RequiredGateNotPassing kind status =>
      (exists r, rank (tr_from req) <= r < rank (tr_to req) /\ gate_at r kind)
      /\ gate_clears status = false /\ exists g, provided_gate (tr_gates req) kind = Some g /\ pg_status g = status
  end.

Lemma gates_block_justified req reason :
  check_required_gates (tr_gates req) (required_gates_for_forward_path (tr_from req) (tr_to req))
  = TransitionDecision_Blocked reason -> block_justified req reason.
Proof.
  intros He. pose proof (check_required_gates_exact (tr_gates req)
    (required_gates_for_forward_path (tr_from req) (tr_to req))) as Hc. rewrite He in Hc.
  destruct reason; [done|done| |]; rewrite required_gates_exact in Hc; exact Hc.
Qed.

Lemma evaluate_block_justified req reason :
  evaluate_transition req = TransitionDecision_Blocked reason -> block_justified req reason.
Proof.
  unfold evaluate_transition, u8_saturating_sub.
  destruct (Z.ltb_spec 1 (Z.max 0 (rank (tr_to req) - rank (tr_from req)))) as [H2|H2].
  - destruct (tr_waiver req) as [w|] eqn:Ew; [|intros [= <-]; simpl; repeat split; [lia|done]].
    destruct (waiver_is_valid w) eqn:Ev; cbn [negb].
    + destruct (1 <=? _); [apply gates_block_justified | done].
    + intros [= <-]. split; [lia|]. by exists w.
  - destruct (1 <=? _); [apply gates_block_justified | done].
Qed.

Lemma allowed_waiver req :
  evaluate_transition req = TransitionDecision_Allowed -> rank (tr_to req) > rank (tr_from req) + 1 ->
  exists w, tr_waiver req = Some w /\ waiver_is_valid w = true.
Proof.
  unfold evaluate_transition, u8_saturating_sub. intros He Hr.
  destruct (Z.ltb_spec 1 (Z.max 0 (rank (tr_to req) - rank (tr_from req)))); [|lia].
  destruct (tr_waiver req) as [w|]; [|done]. destruct (waiver_is_valid w) eqn:Ev; [|done]. by exists w.
Qed.

(** *** Tags *)

(** The name part of a tag, with its dash. *)
Definition tag_name (p : Phase) : bytes := drop 1 (to_bytes (phase_to_string p)).

Definition all_digits (ds : bytes) : Prop := Forall (fun c => is_ascii_digit c = true) ds.

Lemma digit_facts c :
  is_ascii_digit c = true -> solid c = true /\ lower_byte c = c /\ c ≠ "-"%char /\ c ≠ "+"%char.
Proof.
  unfold is_ascii_digit, solid, lower_byte, is_ws1, in_range. intros H. bool_simpl.
  apply N.leb_le in H as H1. apply N.leb_le in H0 as H2. split; [|split; [|split]].
  - destruct (N.ltb_spec (code c) 128); [|lia]. destruct (N.leb_spec 9 (code c)), (N.leb_spec (code c) 13),
      (N.eqb_spec (code c) 32); try lia; done.
  - by destruct (N.leb_spec 65 (code c)); [lia|].
  - intros ->. by vm_compute in H1.
  - intros ->. by vm_compute in H1.
Qed.

Lemma parse_digits_dash ds r acc : all_digits ds -> parse_digits acc (ds ++ "-"%char :: r) = None.
Proof.
  intros Hd. revert acc. induction Hd as [|c ds Hc _ IH]; intros acc; [done|]. simpl. unfold digit_value.
  unfold is_ascii_digit in Hc. by rewrite Hc.
Qed.

Lemma split_once_dash ds r :
  all_digits ds -> split_once "-"%char (of_bytes (ds ++ "-"%char :: r)) = Some (of_bytes ds, of_bytes r).
Proof.
  intros Hd. unfold split_once. rewrite to_of_bytes.
  assert (forall cur, split_once_go "-"%char cur (ds ++ "-"%char :: r) = Some (of_bytes (rev cur ++ ds)%list, of_bytes r))
    as Hgo; [|by apply Hgo].
  induction Hd as [|c ds Hc _ IH]; intros cur; simpl; [by rewrite app_nil_r|].
  rewrite bool_decide_eq_false_2 by (intros <-; by apply digit_facts in Hc as (_ & _ & ? & _)).
  rewrite IH. simpl. by rewrite <- app_assoc.
Qed.

(** A tag with any run of digits for its number, through the steps of the parser. *)
Lemma numbered_tag ds r d :
  all_digits ds -> last ("-"%char :: r) = Some d -> solid d = true -> map lower_byte r = r ->
  let tag := (ds ++ "-"%char :: r)%list in
  to_ascii_lowercase (trim (of_bytes tag)) = of_bytes tag /\ parse_u8 (of_bytes tag) = None
  /\ strip_number (of_bytes tag) = of_bytes r.
Proof.
  intros Hd Hl Hs Hlow tag.
  assert (exists c l, tag = c :: l /\ solid c = true /\ c ≠ "+"%char) as (c & l & Hc & Hsc & Hp).
  { unfold tag. destruct Hd as [|c ds Hc _]; [by eexists _, _ |].
    destruct (digit_facts c Hc) as (? & _ & _ & ?). by eexists _, _. }
  split; [|split].
  - rewrite trim_of_bytes, (trim_bytes_solid tag c d); [|by rewrite Hc| |done|done].
    + unfold to_ascii_lowercase. rewrite to_of_bytes. f_equal. unfold tag. rewrite map_app. simpl. rewrite Hlow.
      f_equal. clear -Hd. induction Hd as [|c ds Hc _ IH]; [done|]. simpl. rewrite IH.
      by destruct (digit_facts c Hc) as (_ & -> & _).
    + unfold tag. rewrite last_app, Hl. done.
  - unfold parse_u8, parse_unsigned. rewrite to_of_bytes, Hc, bool_decide_eq_false_2 by done.
    unfold parse_magnitude. rewrite <- Hc. unfold tag. by rewrite parse_digits_dash.
  - unfold strip_number, tag. rewrite split_once_dash by done. rewrite to_of_bytes.
    replace (forallb is_ascii_digit ds) with true; [done|]. symmetry. apply forallb_In.
    intros x Hx. by apply (proj1 (Forall_forall _ _) Hd).
Qed.

Lemma parse_numbered_tag ds p : all_digits ds -> parse_phase (of_bytes (ds ++ tag_name p)) = Some p.
Proof.
  intros Hd. unfold parse_phase.
  destruct (numbered_tag ds (drop 1 (tag_name p)) (default "-"%char (last (tag_name p))) Hd) as (H1 & H2 & H3);
    [by destruct p | by destruct p | by destruct p |].
  replace ("-"%char :: drop 1 (tag_name p)) with (tag_name p) in * by (by destruct p).
  rewrite H1, H2, H3. clear -Hd.
  assert (str_is_empty (of_bytes (ds ++ tag_name p)) = false) as -> by (by destruct ds, p).
  rewrite bool_decide_eq_false_2; [by destruct p|].
  intros E. apply (f_equal to_bytes) in E. rewrite to_of_bytes in E.
  assert ("-"%char ∈ to_bytes ANYTIME) as Hin;
    [|apply (bool_decide_eq_true_2 _) in Hin; by vm_compute in Hin].
  rewrite <- E. apply elem_of_app. right. destruct p; by left.
Qed.

(** A run of the project: allowed transitions, each starting where the last one ended. *)
Inductive phase_run (from : Phase) : list TransitionRequest -> Phase -> Prop :=
| run_nil : phase_run from [] from
| run_snoc reqs req : phase_run from reqs (tr_from req) -> evaluate_transition req = TransitionDecision_Allowed ->
    phase_run from (reqs ++ [req])%list (tr_to req).

(** ** Claims about transitions *)

(** The verdict is exact.  A transition is allowed if and only if a forward skip comes with a
    waiver whose owner and rationale are not blank, and every gate on the edges between the two
    phases was provided with a first result that clears; each refusal names a rule that is broken. *)
Theorem evaluate_transition_exact req :
  (evaluate_transition req = TransitionDecision_Allowed <->
     (rank (tr_to req) > rank (tr_from req) + 1 -> exists w, tr_waiver req = Some w /\ waiver_is_valid w = true)
     /\ (forall r kind, rank (tr_from req) <= r < rank (tr_to req) -> gate_at r kind -> cleared (tr_gates req) kind))
  /\ (forall reason, evaluate_transition req = TransitionDecision_Blocked reason -> block_justified req reason).
Proof.
  split; [|apply evaluate_block_justified]. split.
  - intros He. split; [by apply allowed_waiver|]. intros r kind. by apply allowed_crosses.
  - intros [Hw Hg]. destruct (evaluate_transition req) as [|reason] eqn:He; [done|].
    apply evaluate_block_justified in He. destruct reason as [f t| |k|k s]; simpl in He.
    + destruct He as (-> & -> & Hr & Hn). destruct (Hw Hr) as (w & Hw' & _). congruence.
    + destruct He as (Hr & w & Hw1 & Hw2). destruct (Hw Hr) as (w' & ? & ?). congruence.
    + destruct He as ((r & Hr & Hk) & Hn). destruct (Hg r k Hr Hk) as (g & [Hin Hf]%find_some_In & _).
      apply bool_decide_eq_true_1 in Hf. by destruct (Hn g Hin).
    + destruct He as ((r & Hr & Hk) & Hs & g & Hg' & <-). destruct (Hg r k Hr Hk) as (g' & ? & ?). congruence.
Qed.

(** C29: there is no way around a gate.  Along any run of allowed transitions, with any detours back
    and any waivers, every gate on an edge between the first phase and the phase reached was cleared
    by a result given with one of the transitions. *)
Theorem no_way_around_a_gate from reqs to r kind :
  phase_run from reqs to -> rank from <= r < rank to -> gate_at r kind ->
  exists req, req ∈ reqs /\ rank (tr_from req) <= r < rank (tr_to req) /\ cleared (tr_gates req) kind.
Proof.
  intros Hrun Hr Hg. induction Hrun as [|reqs req Hrun IH He]; [lia|].
  destruct (decide (r < rank (tr_from req))) as [Hlt|Hge].
  - destruct IH as (q & Hq & ?); [lia|]. exists q. split; [set_solver | done].
  - exists req. split; [set_solver|]. split; [lia|]. eapply allowed_crosses; [done| |done]. lia.
Qed.

(** Tags read back.  The tag a phase is printed with parses to that phase, and so does its name
    behind any run of digits, the empty one included: the number in a tag is not compared with the
    name.  A workflow tagged with a phase is eligible in that phase only, one tagged as the wildcard
    in every phase, and the wildcard itself is not a phase. *)
Theorem phase_tags_round_trip p q ds :
  Forall (fun c => is_ascii_digit c = true) ds ->
  parse_phase (phase_to_string p) = Some p
  /\ parse_phase (of_bytes (ds ++ tag_name p)) = Some p
  /\ (tag_eligible (of_bytes (ds ++ tag_name p)) q = true <-> p = q)
  /\ tag_eligible ANYTIME q = true /\ parse_phase ANYTIME = None.
Proof.
  intros Hd. pose proof (parse_numbered_tag ds p Hd) as Hp. split; [by destruct p|]. split; [done|]. split; [|done].
  unfold tag_eligible. rewrite Hp, orb_true_iff, bool_decide_eq_true. split; [|intros ->; by right].
  intros [He|Hs]; [|by simplify_eq]. exfalso. unfold eq_ignore_ascii_case in He. apply bool_decide_eq_true_1 in He.
  unfold parse_phase in Hp. rewrite He in Hp. by vm_compute in Hp.
Qed.

Lemma phase_tags_round_trip_witness : parse_phase "99-plan" = Some Phase_Plan.
Proof. exact (proj1 (proj2 (phase_tags_round_trip Phase_Plan Phase_Plan ["9"%char; "9"%char] ltac:(repeat constructor)))). Defined.

Module PhaseExample.

Definition passed (k : GateKind) : ProvidedGateResult := {| pg_gate_kind := k; pg_status := GateStatus_Pass |}.

(** A skip over the specification, then a step back. *)
Definition skip : TransitionRequest := {|
  tr_from := Phase_Discovery; tr_to := Phase_Plan; tr_gates := [passed SystemDesign; passed Grill];
  tr_waiver := Some {| wv_owner := mk_StableId "owner"; wv_rationale := "prototype" |} |}.
Definition back : TransitionRequest := {|
  tr_from := Phase_Plan; tr_to := Phase_Specification; tr_gates := []; tr_waiver := None |}.

Lemma run : phase_run Phase_Discovery [skip; back] Phase_Specification.
Proof.
  apply (run_snoc Phase_Discovery [skip] back); [|reflexivity].
  apply (run_snoc Phase_Discovery [] skip); [constructor | reflexivity].
Qed.

End PhaseExample.

Lemma no_way_around_a_gate_witness :
  exists req, req ∈ [PhaseExample.skip; PhaseExample.back] /\ rank (tr_from req) <= 1 < rank (tr_to req)
    /\ cleared (tr_gates req) Grill.
Proof.
  refine (no_way_around_a_gate Phase_Discovery _ Phase_Specification 1 Grill PhaseExample.run _ _).
  - simpl. lia.
  - by exists Phase_Discovery, Phase_Specification.
Defined.
