(* ===== verification/AutonomyRouter.v ===== *)
(** * The autonomy router

    [forge-core-decisions/src/autonomy_router.rs] with the policy and verification-goal contracts of
    [forge-core-contracts/src/autonomy_policy.rs] and [verification_goal.rs]: whether a proposed loop
    may take the fast lane.  Risk scores, thresholds and streaks are [u8] and only compared. *)

From S2P Require Import Prelude RustStr Contracts.

Local Open Scope string_scope.
Local Open Scope Z_scope.

(** ** The policy *)

Inductive AutonomyMode :=
| AutonomyMode_Manual | AutonomyMode_Allowlist | AutonomyMode_SandboxAuto
| AutonomyMode_ConfidenceThreshold | AutonomyMode_Yolo.

Inductive ToolClass :=
| ToolClass_FileEdit | ToolClass_TerminalCommand | ToolClass_NetworkEgress | ToolClass_PackageInstall
| ToolClass_SecretAccess | ToolClass_McpToolCall | ToolClass_CodeExec | ToolClass_GitMutation.

#[export] Instance AutonomyMode_eq_dec : EqDecision AutonomyMode.
Proof. solve_decision. Defined.
#[export] Instance ToolClass_eq_dec : EqDecision ToolClass.
Proof. solve_decision. Defined.

Record ToolClassPolicy := {
  tc_class : ToolClass;
  tc_mode : AutonomyMode;
  tc_risk_score : option Z;
  tc_requires_approval_above : option Z
}.

Record EscalationPolicy := {
  es_on_repeated_failure : Z;
  es_on_high_risk_path : bool;
  es_on_semantic_uncertainty : bool;
  es_max_retries_before_human : Z;
  es_cooldown_seconds : Z
}.

Inductive PolicyScopeKind :=
| PolicyScopeKind_Run | PolicyScopeKind_AgentRole | PolicyScopeKind_Lane | PolicyScopeKind_Phase | PolicyScopeKind_Repo.

Record PolicyScope := { pk_kind : PolicyScopeKind; pk_ids : list StableId }.

Record SourcePattern := { sp_source_id : SourceId; sp_supports : string }.

Record EvidenceBasis := {
  eb_direct_patterns : list SourcePattern;
  eb_non_western_coverage_note : option string;
  eb_inference_boundary : string
}.

Record AutonomyPolicyContract := {
  ap_id : StableId;
  ap_applies_to : PolicyScope;
  ap_default_mode : AutonomyMode;
  ap_tool_classes : list ToolClassPolicy;
  ap_escalation : EscalationPolicy;
  ap_evidence_basis : option EvidenceBasis
}.

Definition effective_mode_for (self : AutonomyPolicyContract) (class : ToolClass) : AutonomyMode :=
  match List.find (fun policy => bool_decide (tc_class policy = class)) (ap_tool_classes self) with
  | Some policy => tc_mode policy
  | None => ap_default_mode self
  end.

(** ** Verification goals *)

Inductive GoalKind :=
| GoalKind_UnitTestsPass | GoalKind_LintClean | GoalKind_TypecheckPass | GoalKind_BuildPass
| GoalKind_CiGreen | GoalKind_CustomCommand | GoalKind_CoverageThreshold.

Inductive GoalStatus :=
| GoalStatus_Pending | GoalStatus_Running | GoalStatus_Passed | GoalStatus_Failed
| GoalStatus_Flaky | GoalStatus_Skipped.

Inductive AdapterKind :=
| AdapterKind_Cargo | AdapterKind_Pytest | AdapterKind_Jest | AdapterKind_GoTest
| AdapterKind_Shell | AdapterKind_Ci | AdapterKind_Generic.

Inductive OverallVerdictValue :=
| AllSatisfied | PartiallySatisfied | NotSatisfied | NotEvaluated.

Record VerificationGoal := {
  vg_kind : GoalKind;
  vg_target : string;
  vg_status : GoalStatus;
  vg_adapter : AdapterKind;
  vg_detail : option string
}.

Record OverallVerdict := {
  ov_value : OverallVerdictValue;
  ov_evaluated_at : string;
  ov_satisfied : nat;
  ov_total : nat;
  ov_notes : option string
}.

Record GoalScope := { gs_phase : string; gs_story_ref : option StableId; gs_changed_paths : list RepoPath }.

Record VerificationGoalContract := {
  vc_id : StableId;
  vc_scope : GoalScope;
  vc_goals : list VerificationGoal;
  vc_overall : OverallVerdict;
  vc_evidence_refs : list string
}.

Definition is_satisfied (self : VerificationGoalContract) : bool :=
  match ov_value (vc_overall self) with AllSatisfied => true | _ => false end
  && negb (match vc_goals self with [] => true | _ => false end)
  && (ov_satisfied (vc_overall self) <=? ov_total (vc_overall self))%nat
  && (ov_satisfied (vc_overall self) =? length (vc_goals self))%nat
  && (ov_total (vc_overall self) =? length (vc_goals self))%nat
  && forallb (fun goal => match vg_status goal with GoalStatus_Passed => true | _ => false end) (vc_goals self).

Definition failed_goals (self : VerificationGoalContract) : list VerificationGoal :=
  List.filter (fun goal => match vg_status goal with GoalStatus_Failed => true | _ => false end) (vc_goals self).

(** ** The router *)

Definition HIGH_RISK_THRESHOLD : Z := 70.

Inductive LaneKind := LaneKind_Fast | LaneKind_Rigorous.

Inductive LaneRouteReason :=
| LowRiskVerified | HighRiskNeedsHuman | NoVerificationGoal | ManualMode
| HighRiskToolClass (risk : Z) | RepeatedFailures (streak : Z).

Record LaneDecision := { ld_lane : LaneKind; ld_reason : LaneRouteReason }.

Definition fast (reason : LaneRouteReason) : LaneDecision := {| ld_lane := LaneKind_Fast; ld_reason := reason |}.
Definition rigorous (reason : LaneRouteReason) : LaneDecision :=
  {| ld_lane := LaneKind_Rigorous; ld_reason := reason |}.

Definition has_manual_tool_override (policy : AutonomyPolicyContract) (tool_classes : list ToolClass) : bool :=
  existsb (fun tool_class =>
    existsb (fun class_policy =>
      bool_decide (tc_class class_policy = tool_class) && bool_decide (tc_mode class_policy = AutonomyMode_Manual))
      (ap_tool_classes policy)) tool_classes.

(** The closure of the [filter_map]. *)
Definition approval_required_risk (class_policy : ToolClassPolicy) : option Z :=
  risk_score ← tc_risk_score class_policy;
  let approval_threshold := default HIGH_RISK_THRESHOLD (tc_requires_approval_above class_policy) in
  if approval_threshold <=? risk_score then Some risk_score else None.

(** [Iterator::max]. *)
Definition iter_max (l : list Z) : option Z :=
  foldl (fun best x => Some (match best with None => x | Some b => Z.max b x end)) None l.

Definition highest_approval_required_risk (policy : AutonomyPolicyContract) (tool_classes : list ToolClass) : option Z :=
  if negb (es_on_high_risk_path (ap_escalation policy)) then None
  else iter_max (omap approval_required_risk
         (concat (map (fun tool_class =>
            List.filter (fun class_policy => bool_decide (tc_class class_policy = tool_class)) (ap_tool_classes policy))
            tool_classes))).

Definition route_lane_for_tool_classes (policy : AutonomyPolicyContract) (goal : option VerificationGoalContract)
    (failure_streak : Z) (tool_classes : list ToolClass) : LaneDecision :=
  if bool_decide (ap_default_mode policy = AutonomyMode_Manual) then rigorous ManualMode
  else if has_manual_tool_override policy tool_classes then rigorous ManualMode
  else if es_max_retries_before_human (ap_escalation policy) <=? failure_streak
       then rigorous (RepeatedFailures failure_streak)
  else match goal with
       | None => rigorous NoVerificationGoal
       | Some goal =>
           if negb (is_satisfied goal) then
             match highest_approval_required_risk policy tool_classes with
             | Some risk => rigorous (HighRiskToolClass risk)
             | None => rigorous HighRiskNeedsHuman
             end
           else match highest_approval_required_risk policy tool_classes with
                | Some risk => rigorous (HighRiskToolClass risk)
                | None => fast LowRiskVerified
                end
       end.

Definition route_lane (policy : AutonomyPolicyContract) (goal : option VerificationGoalContract)
    (failure_streak : Z) : LaneDecision :=
  let declared_tool_classes := map tc_class (ap_tool_classes policy) in
  route_lane_for_tool_classes policy goal failure_streak declared_tool_classes.

(** ** Lemmas *)

Lemma iter_max_cons x l :
  iter_max (x :: l) = Some (match iter_max l with None => x | Some m => Z.max x m end).
Proof.
  unfold iter_max. simpl. generalize x. induction l as [|y l IH]; intros z; simpl; [done|]. rewrite (IH (Z.max z y)), (IH y).
  f_equal. destruct (foldl _ None l); lia.
Qed.

(** The maximum of a list, or nothing for the empty one. *)
Lemma iter_max_spec l :
  match iter_max l with
  | None => l = []
  | Some m => m ∈ l /\ forall x, x ∈ l -> x <= m
  end.
Proof.
  induction l as [|x l IH]; [done|]. rewrite iter_max_cons.
  destruct (iter_max l) as [m|].
  - destruct IH as [Hin Hmax]. split.
    + destruct (Z.max_spec x m) as [[_ ->]|[_ ->]]; [by right | by left].
    + intros y [-> |Hy]%elem_of_cons; [lia|]. specialize (Hmax y Hy). lia.
  - subst l. split; [by left|]. intros y [-> |Hy%elem_of_nil]%elem_of_cons; [lia|done].
Qed.

(** The class policies that apply to the classes in scope. *)
Definition in_scope (policy : AutonomyPolicyContract) (tool_classes : list ToolClass) (c : ToolClassPolicy) : Prop :=
  c ∈ ap_tool_classes policy /\ tc_class c ∈ tool_classes.

(** The risk of a class policy needs approval. *)
Definition needs_approval (c : ToolClassPolicy) (risk : Z) : Prop :=
  tc_risk_score c = Some risk /\ default HIGH_RISK_THRESHOLD (tc_requires_approval_above c) <= risk.

Lemma approval_required_risk_iff c risk : approval_required_risk c = Some risk <-> needs_approval c risk.
Proof.
  unfold approval_required_risk, needs_approval. destruct (tc_risk_score c) as [r|]; simpl; [|naive_solver].
  destruct (Z.leb_spec (default HIGH_RISK_THRESHOLD (tc_requires_approval_above c)) r); naive_solver lia.
Qed.

Lemma has_manual_iff policy classes :
  has_manual_tool_override policy classes = true <->
  exists c, in_scope policy classes c /\ tc_mode c = AutonomyMode_Manual.
Proof.
  unfold has_manual_tool_override, in_scope. rewrite existsb_In. setoid_rewrite existsb_In. split.
  - intros (t & Ht & c & Hc & Hb). bool_simpl. subst t. by exists c.
  - intros (c & [Hc Ht] & Hm). exists (tc_class c). split; [done|]. exists c. split; [done|].
    by rewrite !bool_decide_eq_true_2.
Qed.

Lemma risks_in_scope policy classes risk :
  risk ∈ omap approval_required_risk
    (concat (map (fun t => List.filter (fun c => bool_decide (tc_class c = t)) (ap_tool_classes policy)) classes))
  <-> exists c, in_scope policy classes c /\ needs_approval c risk.
Proof.
  rewrite list_elem_of_omap. setoid_rewrite approval_required_risk_iff. unfold in_scope.
  split; intros (c & Hc & Hr); exists c; (split; [|done]).
  - apply list_elem_of_In, in_concat in Hc as (l & Hl & Hc). apply in_map_iff in Hl as (t & <- & Ht).
    apply filter_In in Hc as [Hc Ht'%bool_decide_eq_true_1]. subst t. split; by apply list_elem_of_In.
  - destruct Hc as [Hc Ht]. apply list_elem_of_In, in_concat. eexists. split.
    + apply in_map_iff. exists (tc_class c). split; [done | by apply list_elem_of_In].
    + apply filter_In. split; [by apply list_elem_of_In | by apply bool_decide_eq_true_2].
Qed.

(** The reported risk is the greatest that needs approval. *)
Lemma highest_risk_spec policy classes :
  match highest_approval_required_risk policy classes with
  | Some risk =>
      es_on_high_risk_path (ap_escalation policy) = true
      /\ (exists c, in_scope policy classes c /\ needs_approval c risk)
      /\ forall c r, in_scope policy classes c -> needs_approval c r -> r <= risk
  | None =>
      es_on_high_risk_path (ap_escalation policy) = true ->
      forall c r, in_scope policy classes c -> ~ needs_approval c r
  end.
Proof.
  unfold highest_approval_required_risk. destruct (es_on_high_risk_path _); simpl; [|done].
  match goal with |- context [iter_max ?l] => pose proof (iter_max_spec l) as Hs; destruct (iter_max l) as [m|] end.
  - destruct Hs as [Hin Hmax]. split; [done|]. split; [by apply risks_in_scope in Hin|].
    intros c r Hc Hr. apply Hmax, risks_in_scope. by exists c.
  - intros _ c r Hc Hr. assert (r ∈ @nil Z) as Hn by (rewrite <- Hs; apply risks_in_scope; by exists c).
    by apply elem_of_nil in Hn.
Qed.

(** What the fast lane needs. *)
Definition fast_lane_conditions (policy : AutonomyPolicyContract) (goal : option VerificationGoalContract)
    (failure_streak : Z) (tool_classes : list ToolClass) : Prop :=
  ap_default_mode policy ≠ AutonomyMode_Manual
  /\ (forall c, in_scope policy tool_classes c -> tc_mode c ≠ AutonomyMode_Manual)
  /\ failure_streak < es_max_retries_before_human (ap_escalation policy)
  /\ (exists g, goal = Some g /\ is_satisfied g = true)
  /\ (es_on_high_risk_path (ap_escalation policy) = true ->
      forall c r, in_scope policy tool_classes c -> ~ needs_approval c r).

Lemma route_fast_iff policy goal streak classes :
  ld_lane (route_lane_for_tool_classes policy goal streak classes) = LaneKind_Fast
  <-> fast_lane_conditions policy goal streak classes.
Proof.
  unfold route_lane_for_tool_classes, fast_lane_conditions. pose proof (highest_risk_spec policy classes) as Hr.
  case_bool_decide as Hd; [split; [done | by intros [? _]]|].
  destruct (has_manual_tool_override policy classes) eqn:Hm.
  { split; [done|]. intros (_ & Hn & _). apply has_manual_iff in Hm as (c & Hc & Hmode). by destruct (Hn c Hc). }
  destruct (Z.leb_spec (es_max_retries_before_human (ap_escalation policy)) streak).
  { split; [done|]. intros (_ & _ & ? & _). lia. }
  destruct goal as [g|]; [|split; [done|]; by intros (_ & _ & _ & (g & ? & _) & _)].
  destruct (is_satisfied g) eqn:Hs; cbn [negb].
  2:{ destruct (highest_approval_required_risk policy classes);
        (split; [done|]; intros (_ & _ & _ & (g' & ? & ?) & _); congruence). }
  destruct (highest_approval_required_risk policy classes) as [risk|].
  - split; [done|]. intros (_ & _ & _ & _ & Hn). destruct Hr as (Ho & (c & Hc & Hneed) & _). by destruct (Hn Ho c risk).
  - split; [intros _|done]. split; [done|]. split; [|split; [done|split; [by exists g | done]]].
    intros c Hc Hmode. apply not_true_iff_false in Hm. apply Hm, has_manual_iff. by exists c.
Qed.

(** A reason of the rigorous lane, and what it says. *)
Definition reason_justified (policy : AutonomyPolicyContract) (goal : option VerificationGoalContract)
    (failure_streak : Z) (tool_classes : list ToolClass) (reason : LaneRouteReason) : Prop :=
  match reason with
  | LowRiskVerified => fast_lane_conditions policy goal failure_streak tool_classes
  | ManualMode =>
      ap_default_mode policy = AutonomyMode_Manual
      \/ exists c, in_scope policy tool_classes c /\ tc_mode c = AutonomyMode_Manual
  | RepeatedFailures streak =>
      streak = failure_streak /\ es_max_retries_before_human (ap_escalation policy) <= failure_streak
  | NoVerificationGoal => goal = None
  | HighRiskToolClass risk =>
      es_on_high_risk_path (ap_escalation policy) = true
      /\ (exists c, in_scope policy tool_classes c /\ needs_approval c risk)
      /\ forall c r, in_scope policy tool_classes c -> needs_approval c r -> r <= risk
  | HighRiskNeedsHuman => exists g, goal = Some g /\ is_satisfied g = false
  end.

Lemma route_reason policy goal streak classes :
  reason_justified policy goal streak classes (ld_reason (route_lane_for_tool_classes policy goal streak classes)).
Proof.
  pose proof (highest_risk_spec policy classes) as Hr. pose proof (route_fast_iff policy goal streak classes) as Hf.
  unfold route_lane_for_tool_classes in *. case_bool_decide as Hd; [by left|].
  destruct (has_manual_tool_override policy classes) eqn:Hm; [right; by apply has_manual_iff|].
  destruct (Z.leb_spec (es_max_retries_before_human (ap_escalation policy)) streak); [done|].
  destruct goal as [g|]; [|done]. destruct (is_satisfied g) eqn:Hs; cbn [negb] in *.
  - destruct (highest_approval_required_risk policy classes) as [risk|]; [exact Hr | by apply Hf].
  - destruct (highest_approval_required_risk policy classes) as [risk|]; [exact Hr | by exists g].
Qed.

(** ** Claims about the router *)

(** The router is exact.  The fast lane is chosen if and only if neither the policy nor a class
    in scope is manual, retries remain, every verification goal passed and, when the policy escalates
    high-risk paths, no class in scope has a risk that needs approval; the reason given is always
    true, and a reported risk is the greatest one.  A proposal that takes the fast lane with all
    declared classes in scope takes it with any classes in scope. *)
Theorem route_lane_exact policy goal streak classes :
  let d := route_lane_for_tool_classes policy goal streak classes in
  (ld_lane d = LaneKind_Fast <-> fast_lane_conditions policy goal streak classes)
  /\ reason_justified policy goal streak classes (ld_reason d)
  /\ (ld_lane (route_lane policy goal streak) = LaneKind_Fast -> ld_lane d = LaneKind_Fast).
Proof.
  split; [apply route_fast_iff|]. split; [apply route_reason|].
  assert (forall c, in_scope policy classes c -> in_scope policy (map tc_class (ap_tool_classes policy)) c) as Hin.
  { intros c [Hc _]. split; [done|]. apply map_In_iff. by exists c. }
  unfold route_lane. rewrite !route_fast_iff. intros (Hd & Hm & Hs & Hg & Hr). split; [done|].
  split; [auto|]. split; [done|]. split; [done|]. intros Ho c r Hc. by apply Hr, Hin.
Qed.
