(* ===== verification/WorkflowContracts.v ===== *)
(** * Governance policy contracts

    The authored policy vocabulary of [forge-core-contracts/src/workflow_governance.rs]: what a policy
    routes on, the obligations, claims, evaluators, capabilities and decisions it declares, and the
    bundle and overlay that carry policies.  Domain packs embed these types. *)

From S2P Require Import Prelude RustStr Contracts AssuranceContracts.

(** ** Governance policies ([workflow_governance.rs]) *)

Inductive WorkflowPolicyActivation :=
| WorkflowPolicyActivation_Required | WorkflowPolicyActivation_WhenApplicable
| WorkflowPolicyActivation_OnSignal.

Inductive WorkflowGovernanceSignal :=
| WorkflowGovernanceSignal_ContextRecoveryRequired
| WorkflowGovernanceSignal_CourseCorrectionRequired
| WorkflowGovernanceSignal_AdversarialReviewRequested
| WorkflowGovernanceSignal_ReadinessRequested | WorkflowGovernanceSignal_BuildCompleted.

Inductive WorkflowPrerequisiteRequirement :=
| WorkflowPrerequisiteRequirement_Always | WorkflowPrerequisiteRequirement_WhenApplicable.

Inductive WorkflowAssuranceClaimRole :=
| WorkflowAssuranceClaimRole_LensEvidence
| WorkflowAssuranceClaimRole_RepresentativeSliceDefinition
| WorkflowAssuranceClaimRole_RepresentativeSliceExecution.

Inductive WorkflowClaimWaiverPolicy :=
| WorkflowClaimWaiverPolicy_NotWaivable
| WorkflowClaimWaiverPolicy_Authorized (max_target : ReadinessTarget) (authority_scope : StableId) (max_age_seconds : Z).

Inductive WorkflowEvaluatorProvider :=
| WorkflowEvaluatorProvider_RepositoryInspector | WorkflowEvaluatorProvider_DeterministicTool
| WorkflowEvaluatorProvider_RepresentativeRuntime
| WorkflowEvaluatorProvider_IndependentReviewer | WorkflowEvaluatorProvider_AuthorizedHuman
| WorkflowEvaluatorProvider_ExternalAuthority | WorkflowEvaluatorProvider_ResearchSource.

Inductive WorkflowEvidenceKind :=
| WorkflowEvidenceKind_ArtifactInspection | WorkflowEvidenceKind_DeterministicCheck
| WorkflowEvidenceKind_RepresentativeExecution | WorkflowEvidenceKind_IndependentReview
| WorkflowEvidenceKind_HumanAcceptance | WorkflowEvidenceKind_ExternalAuthority
| WorkflowEvidenceKind_Research.

Inductive WorkflowEvidenceStrength :=
| WorkflowEvidenceStrength_ArtifactPresence | WorkflowEvidenceStrength_InspectedArtifact
| WorkflowEvidenceStrength_DeterministicVerification
| WorkflowEvidenceStrength_RepresentativeExecution
| WorkflowEvidenceStrength_IndependentConfirmation
| WorkflowEvidenceStrength_AuthoritativeAcceptance.

Inductive WorkflowFreshnessRequirement :=
| WorkflowFreshnessRequirement_CurrentOnly | WorkflowFreshnessRequirement_StaleAllowed.

Inductive WorkflowDisproofPolicy :=
| WorkflowDisproofPolicy_RejectAnyDisproof | WorkflowDisproofPolicy_RequireUncontestedSupport.

Inductive WorkflowCapabilityProbeKind :=
| WorkflowCapabilityProbeKind_StaticRegistry | WorkflowCapabilityProbeKind_LocalCommand
| WorkflowCapabilityProbeKind_RuntimeHandshake | WorkflowCapabilityProbeKind_CredentialCheck
| WorkflowCapabilityProbeKind_HumanAttestation
| WorkflowCapabilityProbeKind_ExternalVerification.

Inductive WorkflowDecisionActivation :=
| WorkflowDecisionActivation_ObservedNeed | WorkflowDecisionActivation_ClaimUnresolved
| WorkflowDecisionActivation_ClaimDisproven | WorkflowDecisionActivation_ClaimVerified
| WorkflowDecisionActivation_AllClaimsVerified.

Record WorkflowPolicyRouting := {
  wpr_priority : Z;
  wpr_readiness_target : ReadinessTarget;
  wpr_activation : WorkflowPolicyActivation;
  wpr_signals : list WorkflowGovernanceSignal
}.

Record WorkflowPrerequisite := {
  wpq_policy_ref : StableId;
  wpq_requirement : WorkflowPrerequisiteRequirement
}.

Record WorkflowObligationPolicy := {
  wop_id : StableId;
  wop_description : string;
  wop_criticality : ObligationCriticality;
  wop_required_before : ReadinessTarget;
  wop_claim_refs : list StableId
}.

Record WorkflowClaimPolicy := {
  wcp_id : StableId;
  wcp_statement : string;
  wcp_evaluator_ref : StableId;
  wcp_assurance_lenses : list UniversalAssuranceLens;
  wcp_assurance_role : option WorkflowAssuranceClaimRole;
  wcp_waiver : WorkflowClaimWaiverPolicy
}.

Record WorkflowEvaluatorBinding := {
  web_id : StableId;
  web_provider : WorkflowEvaluatorProvider;
  web_accepted_evidence_kinds : list WorkflowEvidenceKind;
  web_minimum_strength : WorkflowEvidenceStrength;
  web_minimum_passing_observations : nat;
  web_minimum_distinct_principals : nat;
  web_max_age_seconds : Z;
  web_freshness : WorkflowFreshnessRequirement;
  web_disproof_policy : WorkflowDisproofPolicy
}.

Record WorkflowCapabilityRequirement := {
  wcr_id : StableId;
  wcr_kind : CapabilityGapKind;
  wcr_probe_kind : WorkflowCapabilityProbeKind;
  wcr_description : string;
  wcr_affected_claim_refs : list StableId;
  wcr_resolution_options : list string;
  wcr_blocks_before : ReadinessTarget
}.

Record WorkflowDecisionRule := {
  wdr_id : StableId;
  wdr_activation : WorkflowDecisionActivation;
  wdr_claim_ref : option StableId;
  wdr_question : string;
  wdr_reason : HumanDecisionReason;
  wdr_alternatives : list DecisionAlternative;
  wdr_recommended_alternative_ref : StableId;
  wdr_blocking : bool;
  wdr_blocks_before : ReadinessTarget
}.

Record AdvisoryWorkflowPlaybook := {
  awp_id : StableId;
  awp_steps : list string
}.

Record WorkflowGovernancePolicy := {
  wgp_id : StableId;
  wgp_compatibility_workflow_id : StableId;
  wgp_routing : WorkflowPolicyRouting;
  wgp_eligible_phases : list StableId;
  wgp_prerequisites : list WorkflowPrerequisite;
  wgp_obligations : list WorkflowObligationPolicy;
  wgp_claims : list WorkflowClaimPolicy;
  wgp_evaluators : list WorkflowEvaluatorBinding;
  wgp_capability_requirements : list WorkflowCapabilityRequirement;
  wgp_decision_rules : list WorkflowDecisionRule;
  wgp_advisory_playbook : AdvisoryWorkflowPlaybook
}.

Record WorkflowGovernancePolicyOverlay := {
  wgo_id : StableId;
  wgo_base_bundle_id : StableId;
  wgo_policies : list WorkflowGovernancePolicy
}.

Record WorkflowGovernancePolicyOverlayDocument := {
  wgod_schema_version : string;
  wgod_workflow_governance_policy_overlay : WorkflowGovernancePolicyOverlay
}.

Record WorkflowGovernanceBundle := {
  wgb_id : StableId;
  wgb_policies : list WorkflowGovernancePolicy
}.

Record WorkflowGovernanceBundleDocument := {
  wgbd_schema_version : string;
  wgbd_workflow_governance_bundle : WorkflowGovernanceBundle
}.
