(* ===== verification/DomainPackContracts.v ===== *)
(** * Domain pack contracts

    The wire types of domain packs: manifests and content ([domain_pack.rs]), trust and sandbox policy
    ([domain_pack_policy.rs]), and the signed registry, the resolution request and projection and the
    exact lock ([domain_pack_resolution.rs]), all of [forge-core-contracts]. *)

From S2P Require Import Prelude RustStr Contracts AssuranceContracts WorkflowContracts.

(** ** Packs ([domain_pack.rs]) *)

Inductive DomainPackCandidateAuthority :=
| DomainPackCandidateAuthority_CandidateOnly.

Inductive DomainPackSourceKind :=
| DomainPackSourceKind_Repository | DomainPackSourceKind_Registry
| DomainPackSourceKind_LocalCandidate.

Inductive DomainPackConflictReason :=
| DomainPackConflictReason_SemanticIncompatibility | DomainPackConflictReason_NamespaceOwnership
| DomainPackConflictReason_EvaluatorIncompatibility
| DomainPackConflictReason_AdapterIncompatibility
| DomainPackConflictReason_LifecycleIncompatibility.

Inductive DomainPackContributionKind :=
| DomainPackContributionKind_Policy | DomainPackContributionKind_Obligation
| DomainPackContributionKind_Claim | DomainPackContributionKind_Playbook
| DomainPackContributionKind_Hazard | DomainPackContributionKind_LifecycleModel
| DomainPackContributionKind_Evaluator | DomainPackContributionKind_Fixture
| DomainPackContributionKind_Capability | DomainPackContributionKind_Adapter
| DomainPackContributionKind_Domain.

Inductive DomainPackCapabilityKind :=
| DomainPackCapabilityKind_Knowledge | DomainPackCapabilityKind_Evaluator
| DomainPackCapabilityKind_Adapter | DomainPackCapabilityKind_Tool
| DomainPackCapabilityKind_Runtime | DomainPackCapabilityKind_Credential
| DomainPackCapabilityKind_HumanReview | DomainPackCapabilityKind_ExternalAuthority.

Inductive DomainCapabilityDeclarationAuthority :=
| DomainCapabilityDeclarationAuthority_DeclarationOnly.

Inductive DomainHazardCategory :=
| DomainHazardCategory_Safety | DomainHazardCategory_Security | DomainHazardCategory_Privacy
| DomainHazardCategory_Legal | DomainHazardCategory_Reliability | DomainHazardCategory_Quality
| DomainHazardCategory_Accessibility | DomainHazardCategory_DomainSpecific.

Inductive DomainHazardSeverity :=
| DomainHazardSeverity_Low | DomainHazardSeverity_Medium | DomainHazardSeverity_High
| DomainHazardSeverity_Critical.

Inductive DomainAdapterProtocol :=
| DomainAdapterProtocol_BuiltIn | DomainAdapterProtocol_LocalProcess | DomainAdapterProtocol_Mcp
| DomainAdapterProtocol_RuntimeHandshake | DomainAdapterProtocol_ExternalConnector.

Inductive DomainEvaluatorImplementation :=
| DomainEvaluatorImplementation_BuiltIn (provider : WorkflowEvaluatorProvider)
| DomainEvaluatorImplementation_Adapter (adapter_ref : StableId) (protocol : DomainAdapterProtocol).

Inductive DomainEvaluatorDeclarationAuthority :=
| DomainEvaluatorDeclarationAuthority_DeclarationOnly.

Inductive DomainFixtureKind :=
| DomainFixtureKind_Representative | DomainFixtureKind_Adversarial
| DomainFixtureKind_Regression | DomainFixtureKind_Ablation | DomainFixtureKind_Compatibility.

Inductive DomainAdapterDeclarationAuthority :=
| DomainAdapterDeclarationAuthority_DeclarationOnly.

Record DomainPackIdentity := {
  id_publisher : StableId;
  id_name : StableId;
  id_namespace : StableId;
  id_version : string
}.

Record DomainPackCoordinate := {
  co_publisher : StableId;
  co_name : StableId
}.

Record DomainPackVersionReference := {
  vr_publisher : StableId;
  vr_name : StableId;
  vr_version : string
}.

Record DomainPackCompatibility := {
  cp_pack_schema_requirement : string;
  cp_forge_core_requirement : string
}.

Record DomainPackArtifactBinding := {
  ab_artifact_ref : RepoPath;
  ab_raw_sha256 : string;
  ab_canonical_sha256 : string
}.

Record DomainPackContentBinding := {
  cb_content_ref : RepoPath;
  cb_raw_sha256 : string;
  cb_canonical_sha256 : string
}.

Record DomainPackProvenance := {
  pv_source_kind : DomainPackSourceKind;
  pv_source_uri : string;
  pv_source_revision : string;
  pv_source_digest : string;
  pv_authors : list StableId;
  pv_license_spdx_expression : string;
  pv_license_text : DomainPackArtifactBinding
}.

Record DomainPackDependency := {
  dd_pack : DomainPackCoordinate;
  dd_version_requirement : string;
  dd_required_content_digest : option string
}.

Record DomainPackConflict := {
  dc_pack : DomainPackCoordinate;
  dc_version_requirement : string;
  dc_reason : DomainPackConflictReason;
  dc_explanation : string
}.

Record DomainPackReplacementSlot := {
  rs_id : StableId;
  rs_contribution_kind : DomainPackContributionKind;
  rs_target_ref : StableId;
  rs_target_digest : string;
  rs_allowed_replacers : list DomainPackCoordinate;
  rs_replacement_version_requirement : string
}.

Record DomainPackReplacementDeclaration := {
  rd_target_pack : DomainPackCoordinate;
  rd_target_slot_ref : StableId;
  rd_contribution_kind : DomainPackContributionKind;
  rd_target_ref : StableId;
  rd_target_digest : string;
  rd_replacement_ref : StableId
}.

Record DomainPackManifest := {
  dm_identity : DomainPackIdentity;
  dm_authority : DomainPackCandidateAuthority;
  dm_compatibility : DomainPackCompatibility;
  dm_provenance : DomainPackProvenance;
  dm_content : DomainPackContentBinding;
  dm_dependencies : list DomainPackDependency;
  dm_conflicts : list DomainPackConflict;
  dm_replacement_slots : list DomainPackReplacementSlot;
  dm_replacement_declarations : list DomainPackReplacementDeclaration
}.

Record DomainPackManifestDocument := {
  dmd_schema_version : string;
  dmd_domain_pack_manifest : DomainPackManifest
}.

Record DomainPackProvidedDomain := {
  pd_id : StableId;
  pd_description : string;
  pd_policy_refs : list StableId;
  pd_hazard_refs : list StableId;
  pd_lifecycle_model_refs : list StableId
}.

Record DomainPackProvidedCapability := {
  pc_id : StableId;
  pc_kind : DomainPackCapabilityKind;
  pc_description : string;
  pc_evidence_rule_refs : list StableId;
  pc_authority : DomainCapabilityDeclarationAuthority
}.

Record DomainHazard := {
  dh_id : StableId;
  dh_category : DomainHazardCategory;
  dh_severity : DomainHazardSeverity;
  dh_description : string;
  dh_trigger_refs : list StableId;
  dh_mitigation_obligation_refs : list StableId;
  dh_evidence_claim_refs : list StableId
}.

Record DomainLifecycleState := {
  dls_id : StableId;
  dls_description : string;
  dls_entry_obligation_refs : list StableId;
  dls_exit_claim_refs : list StableId
}.

Record DomainLifecycleTransition := {
  dlt_id : StableId;
  dlt_from_state_ref : StableId;
  dlt_to_state_ref : StableId;
  dlt_guard_claim_refs : list StableId;
  dlt_required_capability_refs : list StableId
}.

Record DomainLifecycleModel := {
  dlm_id : StableId;
  dlm_description : string;
  dlm_initial_state_ref : StableId;
  dlm_terminal_state_refs : list StableId;
  dlm_states : list DomainLifecycleState;
  dlm_transitions : list DomainLifecycleTransition
}.

Record DomainEvaluatorDeclaration := {
  ded_id : StableId;
  ded_implementation : DomainEvaluatorImplementation;
  ded_accepted_evidence_kinds : list WorkflowEvidenceKind;
  ded_minimum_strength : WorkflowEvidenceStrength;
  ded_authority : DomainEvaluatorDeclarationAuthority
}.

Record DomainFixtureReference := {
  dfr_id : StableId;
  dfr_kind : DomainFixtureKind;
  dfr_artifact : DomainPackArtifactBinding;
  dfr_subject_refs : list StableId
}.

Record DomainAdapterDeclaration := {
  dad_id : StableId;
  dad_protocol : DomainAdapterProtocol;
  dad_surface : StableId;
  dad_required_capability_refs : list StableId;
  dad_authority : DomainAdapterDeclarationAuthority
}.

Record DomainPackContent := {
  dpc_pack : DomainPackVersionReference;
  dpc_namespace : StableId;
  dpc_workflow_overlay : WorkflowGovernancePolicyOverlay;
  dpc_provided_domains : list DomainPackProvidedDomain;
  dpc_provided_capabilities : list DomainPackProvidedCapability;
  dpc_hazards : list DomainHazard;
  dpc_lifecycle_models : list DomainLifecycleModel;
  dpc_evaluators : list DomainEvaluatorDeclaration;
  dpc_fixtures : list DomainFixtureReference;
  dpc_adapters : list DomainAdapterDeclaration
}.

Record DomainPackContentDocument := {
  dpcd_schema_version : string;
  dpcd_domain_pack_content : DomainPackContent
}.

Record DomainPackDomainRequirement := {
  ddr_id : StableId;
  ddr_domain_id : StableId;
  ddr_pack_version_requirement : string;
  ddr_required_capability_refs : list StableId
}.

Record DomainPackProjectRequirements := {
  dpr_project_id : StableId;
  dpr_requirement_set_id : StableId;
  dpr_required_domains : list DomainPackDomainRequirement
}.

Record DomainPackProjectRequirementsDocument := {
  dprd_schema_version : string;
  dprd_domain_pack_project_requirements : DomainPackProjectRequirements
}.

Record DomainPackCoreBinding := {
  dcb_bundle_id : StableId;
  dcb_bundle_digest : string;
  dcb_policy_set_digest : string;
  dcb_bundle : WorkflowGovernanceBundle
}.

Record DomainPackCandidateInput := {
  dci_manifest_binding : DomainPackArtifactBinding;
  dci_manifest : DomainPackManifestDocument;
  dci_content : DomainPackContentDocument
}.

Record DomainPackCompositionRequest := {
  dcr_request_id : StableId;
  dcr_authority : DomainPackCandidateAuthority;
  dcr_forge_core_version : string;
  dcr_core : DomainPackCoreBinding;
  dcr_requirements : DomainPackProjectRequirements;
  dcr_candidates : list DomainPackCandidateInput
}.

Record DomainPackCompositionRequestDocument := {
  dcrd_schema_version : string;
  dcrd_domain_pack_composition_request : DomainPackCompositionRequest
}.

Inductive DomainPackCompositionGapCode :=
| DomainPackCompositionGapCode_MissingDomain | DomainPackCompositionGapCode_MissingDependency
| DomainPackCompositionGapCode_MissingCapability | DomainPackCompositionGapCode_MissingEvaluator
| DomainPackCompositionGapCode_MissingAdapter.

Record DomainPackCompositionGap := {
  dcg_code : DomainPackCompositionGapCode;
  dcg_requirement_ref : StableId;
  dcg_subject_ref : StableId;
  dcg_message : string;
  dcg_authority : DomainPackCandidateAuthority
}.

(** ** Trust, capabilities and the sandbox ([domain_pack_policy.rs]) *)

Inductive DomainPackRegistryTrustRole :=
| DomainPackRegistryTrustRole_RegistrySigner | DomainPackRegistryTrustRole_RegistryRevoker.

Inductive DomainPackCredentialStatus :=
| DomainPackCredentialStatus_Active | DomainPackCredentialStatus_Revoked.

Inductive DomainPackSourceAssurance :=
| DomainPackSourceAssurance_ExplicitlyUntrusted | DomainPackSourceAssurance_LocalExplicit
| DomainPackSourceAssurance_SupplyChainVerified.

Inductive DomainPackTrustDisposition :=
| DomainPackTrustDisposition_Reject | DomainPackTrustDisposition_InspectOnly
| DomainPackTrustDisposition_ActivateDeclarativeKnowledge
| DomainPackTrustDisposition_ActivateDeclarativeKnowledgeAndBoundBuiltIns.

Record DomainPackRegistryTrustKey := {
  rtk_key_id : StableId;
  rtk_role : DomainPackRegistryTrustRole;
  rtk_public_key_hex : string;
  rtk_status : DomainPackCredentialStatus;
  rtk_valid_from_unix : Z;
  rtk_valid_until_unix : Z
}.

Record DomainPackTrustRule := {
  tr_rule_id : StableId;
  tr_pack : DomainPackCoordinate;
  tr_package_digest : option string;
  tr_content_digest : option string;
  tr_disposition : DomainPackTrustDisposition
}.

Record DomainPackTrustPolicy := {
  tp_policy_id : StableId;
  tp_policy_version : string;
  tp_audience : StableId;
  tp_authority : DomainPackCandidateAuthority;
  tp_registry_keys : list DomainPackRegistryTrustKey;
  tp_required_registry_signature_threshold : Z;
  tp_minimum_activation_assurance : DomainPackSourceAssurance;
  tp_rules : list DomainPackTrustRule;
  tp_default_disposition : DomainPackTrustDisposition
}.

Record DomainPackTrustPolicyDocument := {
  tpd_schema_version : string;
  tpd_domain_pack_trust_policy : DomainPackTrustPolicy
}.

Inductive DomainPackRuntimeProvider :=
| DomainPackRuntimeProvider_CoreBuiltin (provider_id : StableId)
| DomainPackRuntimeProvider_LocalProcess (provider_id : StableId)
| DomainPackRuntimeProvider_Mcp (provider_id : StableId)
| DomainPackRuntimeProvider_RuntimeHandshake (provider_id : StableId)
| DomainPackRuntimeProvider_ExternalConnector (provider_id : StableId).

Inductive DomainPackRuntimeCapabilityStatus :=
| DomainPackRuntimeCapabilityStatus_Available | DomainPackRuntimeCapabilityStatus_Unavailable
| DomainPackRuntimeCapabilityStatus_Disabled | DomainPackRuntimeCapabilityStatus_Revoked.

Record DomainPackRuntimeCapabilityBinding := {
  rcb_binding_id : StableId;
  rcb_pack : DomainPackVersionReference;
  rcb_package_digest : string;
  rcb_subject_ref : StableId;
  rcb_capability_ref : StableId;
  rcb_kind : DomainPackCapabilityKind;
  rcb_provider : DomainPackRuntimeProvider;
  rcb_implementation_digest : string;
  rcb_status : DomainPackRuntimeCapabilityStatus;
  rcb_evidence : DomainPackArtifactBinding
}.

Record DomainPackRuntimeCapabilityRegistry := {
  rcr_registry_id : StableId;
  rcr_registry_version : string;
  rcr_project_id : StableId;
  rcr_authority : DomainPackCandidateAuthority;
  rcr_bindings : list DomainPackRuntimeCapabilityBinding
}.

Record DomainPackRuntimeCapabilityRegistryDocument := {
  rcrd_schema_version : string;
  rcrd_domain_pack_runtime_capability_registry : DomainPackRuntimeCapabilityRegistry
}.

Inductive DomainPackSandboxDefaultDecision :=
| DomainPackSandboxDefaultDecision_Deny.

Inductive DomainPackExternalExecutionPolicy :=
| DomainPackExternalExecutionPolicy_DenyAll.

Inductive DomainPackSandboxDecision :=
| DomainPackSandboxDecision_AllowedBoundBuiltin | DomainPackSandboxDecision_DeniedUndeclared
| DomainPackSandboxDecision_DeniedByPolicy | DomainPackSandboxDecision_Unavailable
| DomainPackSandboxDecision_Revoked.

Record DomainPackCapabilitySandboxPolicy := {
  csp_policy_id : StableId;
  csp_policy_version : string;
  csp_authority : DomainPackCandidateAuthority;
  csp_default_decision : DomainPackSandboxDefaultDecision;
  csp_allowed_builtin_binding_ids : list StableId;
  csp_external_execution : DomainPackExternalExecutionPolicy
}.

Record DomainPackCapabilitySandboxPolicyDocument := {
  cspd_schema_version : string;
  cspd_domain_pack_capability_sandbox_policy : DomainPackCapabilitySandboxPolicy
}.

Record DomainPackLockedCapabilityBinding := {
  lcb_binding_id : StableId;
  lcb_pack : DomainPackVersionReference;
  lcb_package_digest : string;
  lcb_subject_ref : StableId;
  lcb_capability_ref : StableId;
  lcb_provider_id : StableId;
  lcb_implementation_digest : string;
  lcb_decision : DomainPackSandboxDecision
}.

Inductive DomainPackRuntimeCapabilityGapCode :=
| DomainPackRuntimeCapabilityGapCode_MissingBinding
| DomainPackRuntimeCapabilityGapCode_UndeclaredBinding
| DomainPackRuntimeCapabilityGapCode_PackageDigestMismatch
| DomainPackRuntimeCapabilityGapCode_KindMismatch
| DomainPackRuntimeCapabilityGapCode_ExternalProviderDenied
| DomainPackRuntimeCapabilityGapCode_Disabled | DomainPackRuntimeCapabilityGapCode_Unavailable
| DomainPackRuntimeCapabilityGapCode_Revoked.

Record DomainPackRuntimeCapabilityGap := {
  rcg_code : DomainPackRuntimeCapabilityGapCode;
  rcg_pack : DomainPackVersionReference;
  rcg_subject_ref : StableId;
  rcg_capability_ref : StableId;
  rcg_message : string
}.

(** ** Semantic assurance ([domain_pack_learning.rs]) *)

Inductive DomainPackSemanticAssurance :=
| DomainPackSemanticAssurance_Unreviewed | DomainPackSemanticAssurance_ValidatedCandidate
| DomainPackSemanticAssurance_Reviewed.

(** ** Registry, request, projection, lock ([domain_pack_resolution.rs]) *)

Inductive DomainPackRegistryMirrorTransport :=
| DomainPackRegistryMirrorTransport_Https (base_url : string)
| DomainPackRegistryMirrorTransport_OperatorProvisionedLocal (location_id : StableId).

Inductive DomainPackRemoteArtifactKind :=
| DomainPackRemoteArtifactKind_Manifest | DomainPackRemoteArtifactKind_Content
| DomainPackRemoteArtifactKind_License | DomainPackRemoteArtifactKind_Fixture.

Inductive DomainPackRemoteArtifactMediaType :=
| DomainPackRemoteArtifactMediaType_ApplicationYaml
| DomainPackRemoteArtifactMediaType_ApplicationJson
| DomainPackRemoteArtifactMediaType_TextPlain
| DomainPackRemoteArtifactMediaType_ApplicationOctetStream.

Inductive DomainPackRevocationReason :=
| DomainPackRevocationReason_KeyCompromise | DomainPackRevocationReason_ProvenanceFailure
| DomainPackRevocationReason_PackageTamper | DomainPackRevocationReason_OperatorPolicy
| DomainPackRevocationReason_SupersededUnsafe.

Record DomainPackRegistryMirror := {
  rm_mirror_id : StableId;
  rm_priority : Z;
  rm_transport : DomainPackRegistryMirrorTransport
}.

Record DomainPackRemoteArtifactDescriptor := {
  rad_kind : DomainPackRemoteArtifactKind;
  rad_binding : DomainPackArtifactBinding;
  rad_object_path : RepoPath;
  rad_byte_length : Z;
  rad_media_type : DomainPackRemoteArtifactMediaType
}.

Record DomainPackRegistryArtifactSet := {
  ras_manifest : DomainPackRemoteArtifactDescriptor;
  ras_content : DomainPackRemoteArtifactDescriptor;
  ras_license : DomainPackRemoteArtifactDescriptor;
  ras_fixtures : list DomainPackRemoteArtifactDescriptor
}.

Record DomainPackPublisherCredential := {
  pcr_credential_id : StableId;
  pcr_publisher : StableId;
  pcr_public_key_hex : string;
  pcr_status : DomainPackCredentialStatus;
  pcr_valid_from_unix : Z;
  pcr_valid_until_unix : Z
}.

Record DomainPackNamespaceGrant := {
  ng_grant_id : StableId;
  ng_publisher : StableId;
  ng_namespace_prefix : StableId;
  ng_valid_from_unix : Z;
  ng_valid_until_unix : Z
}.

Record DomainPackRegistryPackageRecord := {
  rpr_identity : DomainPackIdentity;
  rpr_package_digest : string;
  rpr_manifest_digest : string;
  rpr_content_digest : string;
  rpr_license_digest : string;
  rpr_fixture_digests : list string;
  rpr_artifacts : DomainPackRegistryArtifactSet;
  rpr_namespace_grant_id : StableId;
  rpr_publisher_credential_id : StableId;
  rpr_publisher_signature_hex : string;
  rpr_record_digest : string
}.

Record DomainPackPackageRevocation := {
  prv_record_digest : string;
  prv_reason : DomainPackRevocationReason;
  prv_explanation : string;
  prv_revoked_at_unix : Z
}.

Record DomainPackRegistrySignature := {
  rsg_signer_key_id : StableId;
  rsg_role : DomainPackRegistryTrustRole;
  rsg_signature_hex : string
}.

Record DomainPackSupplyChainRegistry := {
  scr_registry_id : StableId;
  scr_registry_version : string;
  scr_audience : StableId;
  scr_authority : DomainPackCandidateAuthority;
  scr_generation : Z;
  scr_previous_snapshot_digest : option string;
  scr_issued_at_unix : Z;
  scr_expires_at_unix : Z;
  scr_publisher_credentials : list DomainPackPublisherCredential;
  scr_namespace_grants : list DomainPackNamespaceGrant;
  scr_mirrors : list DomainPackRegistryMirror;
  scr_packages : list DomainPackRegistryPackageRecord;
  scr_revocations : list DomainPackPackageRevocation;
  scr_snapshot_digest : string;
  scr_signatures : list DomainPackRegistrySignature
}.

Record DomainPackSupplyChainRegistryDocument := {
  scrd_schema_version : string;
  scrd_domain_pack_supply_chain_registry : DomainPackSupplyChainRegistry
}.

Record DomainPackPackageBinding := {
  pb_package_ref : RepoPath;
  pb_package_digest : string;
  pb_manifest : DomainPackArtifactBinding;
  pb_content : DomainPackContentBinding;
  pb_license : DomainPackArtifactBinding;
  pb_fixtures : list DomainPackArtifactBinding
}.

Inductive DomainPackResolutionRootReason :=
| DomainPackResolutionRootReason_ExistingProjectRoot
| DomainPackResolutionRootReason_InstallIntent | DomainPackResolutionRootReason_UpgradeIntent
| DomainPackResolutionRootReason_PersistentDomainRequirement
| DomainPackResolutionRootReason_RollbackIntent.

Record DomainPackResolutionRoot := {
  rr_pack : DomainPackCoordinate;
  rr_version_requirement : string;
  rr_required_content_digest : option string;
  rr_reason : DomainPackResolutionRootReason
}.

Record DomainPackResolutionCandidate := {
  rc_input : DomainPackCandidateInput;
  rc_package : DomainPackPackageBinding;
  rc_registry_record_digest : option string
}.

Inductive DomainPackVersionSelectionPolicy :=
| DomainPackVersionSelectionPolicy_MinimalChangeThenHighestCompatible.

Inductive DomainPackPrereleasePolicy :=
| DomainPackPrereleasePolicy_ExplicitOnly.

Inductive DomainPackDuplicateVersionPolicy :=
| DomainPackDuplicateVersionPolicy_RejectDivergentContent.

Inductive DomainPackDependencySourcePolicy :=
| DomainPackDependencySourcePolicy_ExactPublisherOnly.

Inductive DomainPackUnrelatedUpdatePolicy :=
| DomainPackUnrelatedUpdatePolicy_PreserveLocked.

Record DomainPackResolutionPolicy := {
  rpo_selection : DomainPackVersionSelectionPolicy;
  rpo_prerelease : DomainPackPrereleasePolicy;
  rpo_duplicate_version : DomainPackDuplicateVersionPolicy;
  rpo_dependency_source : DomainPackDependencySourcePolicy;
  rpo_unrelated_updates : DomainPackUnrelatedUpdatePolicy
}.

Record DomainPackLockedPackage := {
  lp_identity : DomainPackIdentity;
  lp_package_digest : string;
  lp_manifest_binding : DomainPackArtifactBinding;
  lp_content_binding : DomainPackContentBinding;
  lp_license_binding : DomainPackArtifactBinding;
  lp_fixture_bindings : list DomainPackArtifactBinding;
  lp_namespace_grant_id : StableId;
  lp_registry_record_digest : string;
  lp_source_assurance : DomainPackSourceAssurance;
  lp_semantic_assurance : DomainPackSemanticAssurance;
  lp_reviewed_entry_digest : option string;
  lp_promotion_authorization_digest : option string;
  lp_dependencies : list DomainPackDependency;
  lp_deterministic_order : Z
}.

Record DomainPackExactLockPayload := {
  elp_project_id : StableId;
  elp_core : DomainPackCoreBinding;
  elp_requirements_digest : string;
  elp_roots : list DomainPackResolutionRoot;
  elp_registry_snapshot_digest : string;
  elp_reviewer_registry_digest : string;
  elp_reviewed_registry_digest : string;
  elp_trust_policy_digest : string;
  elp_capability_registry_digest : string;
  elp_sandbox_policy_digest : string;
  elp_resolution_digest : string;
  elp_composition_digest : string;
  elp_packages : list DomainPackLockedPackage;
  elp_verified_capability_bindings : list DomainPackLockedCapabilityBinding;
  elp_unresolved_composition_gaps : list DomainPackCompositionGap;
  elp_unresolved_capability_gaps : list DomainPackRuntimeCapabilityGap
}.

Record DomainPackExactLock := {
  el_payload : DomainPackExactLockPayload;
  el_lock_digest : string
}.

Record DomainPackExactLockDocument := {
  eld_schema_version : string;
  eld_domain_pack_exact_lock : DomainPackExactLock
}.

Record DomainPackResolutionRequest := {
  rq_request_id : StableId;
  rq_authority : DomainPackCandidateAuthority;
  rq_project_id : StableId;
  rq_forge_core_version : string;
  rq_core : DomainPackCoreBinding;
  rq_requirements : DomainPackProjectRequirementsDocument;
  rq_roots : list DomainPackResolutionRoot;
  rq_current_lock : option DomainPackExactLockDocument;
  rq_policy : DomainPackResolutionPolicy;
  rq_registry_snapshot_digest : string;
  rq_candidates : list DomainPackResolutionCandidate
}.

Record DomainPackResolutionRequestDocument := {
  rqd_schema_version : string;
  rqd_domain_pack_resolution_request : DomainPackResolutionRequest
}.

Inductive DomainPackResolutionStatus :=
| DomainPackResolutionStatus_Resolved | DomainPackResolutionStatus_Blocked.

Inductive DomainPackResolutionIssueCode :=
| DomainPackResolutionIssueCode_UnsupportedSchemaVersion
| DomainPackResolutionIssueCode_InvalidIdentity | DomainPackResolutionIssueCode_InvalidDigest
| DomainPackResolutionIssueCode_InvalidVersionRequirement
| DomainPackResolutionIssueCode_RegistryDigestMismatch
| DomainPackResolutionIssueCode_RegistryRecordMissing
| DomainPackResolutionIssueCode_RegistryRecordMismatch
| DomainPackResolutionIssueCode_RegistryExpired
| DomainPackResolutionIssueCode_RegistrySignatureInvalid
| DomainPackResolutionIssueCode_PublisherSignatureInvalid
| DomainPackResolutionIssueCode_NamespaceNotGranted
| DomainPackResolutionIssueCode_RevokedPackage
| DomainPackResolutionIssueCode_ExplicitlyUntrusted
| DomainPackResolutionIssueCode_DuplicateVersionEquivocation
| DomainPackResolutionIssueCode_MissingRoot | DomainPackResolutionIssueCode_MissingDependency
| DomainPackResolutionIssueCode_IncompatibleDependency
| DomainPackResolutionIssueCode_DependencyCycle | DomainPackResolutionIssueCode_DeclaredConflict
| DomainPackResolutionIssueCode_PrereleaseNotExplicit
| DomainPackResolutionIssueCode_CurrentLockMismatch
| DomainPackResolutionIssueCode_ResourceLimitExceeded
| DomainPackResolutionIssueCode_CompositionBlocked.

Record DomainPackResolvedPackage := {
  rp_identity : DomainPackIdentity;
  rp_package : DomainPackPackageBinding;
  rp_registry_record_digest : string;
  rp_namespace_grant_id : StableId;
  rp_source_assurance : DomainPackSourceAssurance;
  rp_semantic_assurance : DomainPackSemanticAssurance;
  rp_reviewed_entry_digest : option string;
  rp_promotion_authorization_digest : option string;
  rp_dependencies : list DomainPackDependency;
  rp_deterministic_order : Z
}.

Record DomainPackResolutionDependencyEdge := {
  de_from : DomainPackVersionReference;
  de_to : DomainPackVersionReference;
  de_required_content_digest : option string
}.

Record DomainPackRejectedCandidate := {
  rj_identity : DomainPackIdentity;
  rj_package_digest : string;
  rj_reasons : list DomainPackResolutionIssueCode
}.

Record DomainPackResolutionIssue := {
  ri_code : DomainPackResolutionIssueCode;
  ri_path : string;
  ri_message : string
}.

Record DomainPackResolutionProjection := {
  rpj_request_id : StableId;
  rpj_authority : DomainPackCandidateAuthority;
  rpj_status : DomainPackResolutionStatus;
  rpj_selected : list DomainPackResolvedPackage;
  rpj_dependency_edges : list DomainPackResolutionDependencyEdge;
  rpj_rejected : list DomainPackRejectedCandidate;
  rpj_issues : list DomainPackResolutionIssue;
  rpj_resolution_digest : string
}.

Record DomainPackResolutionProjectionDocument := {
  rpjd_schema_version : string;
  rpjd_domain_pack_resolution_projection : DomainPackResolutionProjection
}.

(** ** Equality *)

#[export] Instance DomainPackContributionKind_eq_dec : EqDecision DomainPackContributionKind.
Proof. solve_decision. Defined.
#[export] Instance DomainPackCapabilityKind_eq_dec : EqDecision DomainPackCapabilityKind.
Proof. solve_decision. Defined.
#[export] Instance DomainAdapterProtocol_eq_dec : EqDecision DomainAdapterProtocol.
Proof. solve_decision. Defined.
#[export] Instance DomainPackIdentity_eq_dec : EqDecision DomainPackIdentity.
Proof. solve_decision. Defined.
#[export] Instance DomainPackCoordinate_eq_dec : EqDecision DomainPackCoordinate.
Proof. solve_decision. Defined.
#[export] Instance DomainPackVersionReference_eq_dec : EqDecision DomainPackVersionReference.
Proof. solve_decision. Defined.
#[export] Instance DomainPackArtifactBinding_eq_dec : EqDecision DomainPackArtifactBinding.
Proof. solve_decision. Defined.
#[export] Instance DomainPackContentBinding_eq_dec : EqDecision DomainPackContentBinding.
Proof. solve_decision. Defined.
#[export] Instance DomainPackDependency_eq_dec : EqDecision DomainPackDependency.
Proof. solve_decision. Defined.
#[export] Instance DomainPackCredentialStatus_eq_dec : EqDecision DomainPackCredentialStatus.
Proof. solve_decision. Defined.
#[export] Instance DomainPackSourceAssurance_eq_dec : EqDecision DomainPackSourceAssurance.
Proof. solve_decision. Defined.
#[export] Instance DomainPackTrustDisposition_eq_dec : EqDecision DomainPackTrustDisposition.
Proof. solve_decision. Defined.
#[export] Instance DomainPackRuntimeProvider_eq_dec : EqDecision DomainPackRuntimeProvider.
Proof. solve_decision. Defined.
#[export] Instance DomainPackRuntimeCapabilityStatus_eq_dec : EqDecision DomainPackRuntimeCapabilityStatus.
Proof. solve_decision. Defined.
#[export] Instance DomainPackRuntimeCapabilityGapCode_eq_dec : EqDecision DomainPackRuntimeCapabilityGapCode.
Proof. solve_decision. Defined.
#[export] Instance DomainPackSemanticAssurance_eq_dec : EqDecision DomainPackSemanticAssurance.
Proof. solve_decision. Defined.
#[export] Instance DomainPackRemoteArtifactKind_eq_dec : EqDecision DomainPackRemoteArtifactKind.
Proof. solve_decision. Defined.
#[export] Instance DomainPackRemoteArtifactMediaType_eq_dec : EqDecision DomainPackRemoteArtifactMediaType.
Proof. solve_decision. Defined.
#[export] Instance DomainPackRemoteArtifactDescriptor_eq_dec : EqDecision DomainPackRemoteArtifactDescriptor.
Proof. solve_decision. Defined.
#[export] Instance DomainPackRegistryArtifactSet_eq_dec : EqDecision DomainPackRegistryArtifactSet.
Proof. solve_decision. Defined.
#[export] Instance DomainPackRegistryPackageRecord_eq_dec : EqDecision DomainPackRegistryPackageRecord.
Proof. solve_decision. Defined.
#[export] Instance DomainPackResolutionRootReason_eq_dec : EqDecision DomainPackResolutionRootReason.
Proof. solve_decision. Defined.
#[export] Instance DomainPackResolutionStatus_eq_dec : EqDecision DomainPackResolutionStatus.
Proof. solve_decision. Defined.
#[export] Instance DomainPackResolutionIssueCode_eq_dec : EqDecision DomainPackResolutionIssueCode.
Proof. solve_decision. Defined.
#[export] Instance DomainPackResolutionIssue_eq_dec : EqDecision DomainPackResolutionIssue.
Proof. solve_decision. Defined.

(** ** Order of the issue codes: the declaration order, as [derive(Ord)] gives it *)

Definition issue_code_rank (code : DomainPackResolutionIssueCode) : Z :=
  match code with
  | DomainPackResolutionIssueCode_UnsupportedSchemaVersion => 0
  | DomainPackResolutionIssueCode_InvalidIdentity => 1
  | DomainPackResolutionIssueCode_InvalidDigest => 2
  | DomainPackResolutionIssueCode_InvalidVersionRequirement => 3
  | DomainPackResolutionIssueCode_RegistryDigestMismatch => 4
  | DomainPackResolutionIssueCode_RegistryRecordMissing => 5
  | DomainPackResolutionIssueCode_RegistryRecordMismatch => 6
  | DomainPackResolutionIssueCode_RegistryExpired => 7
  | DomainPackResolutionIssueCode_RegistrySignatureInvalid => 8
  | DomainPackResolutionIssueCode_PublisherSignatureInvalid => 9
  | DomainPackResolutionIssueCode_NamespaceNotGranted => 10
  | DomainPackResolutionIssueCode_RevokedPackage => 11
  | DomainPackResolutionIssueCode_ExplicitlyUntrusted => 12
  | DomainPackResolutionIssueCode_DuplicateVersionEquivocation => 13
  | DomainPackResolutionIssueCode_MissingRoot => 14
  | DomainPackResolutionIssueCode_MissingDependency => 15
  | DomainPackResolutionIssueCode_IncompatibleDependency => 16
  | DomainPackResolutionIssueCode_DependencyCycle => 17
  | DomainPackResolutionIssueCode_DeclaredConflict => 18
  | DomainPackResolutionIssueCode_PrereleaseNotExplicit => 19
  | DomainPackResolutionIssueCode_CurrentLockMismatch => 20
  | DomainPackResolutionIssueCode_ResourceLimitExceeded => 21
  | DomainPackResolutionIssueCode_CompositionBlocked => 22
  end.

Lemma issue_code_rank_inj c d : issue_code_rank c = issue_code_rank d -> c = d.
Proof. destruct c, d; done. Qed.

Definition DOMAIN_PACK_SCHEMA_VERSION : string := "0.1".
Definition DOMAIN_PACK_LIFECYCLE_SCHEMA_VERSION : string := "0.5".
