(* ===== verification/PackRegistry.v ===== *)
(** * Signed registry metadata

    The structural part of [forge-core-contracts/src/domain_pack_remote_acquisition.rs] that every
    consumer of a registry snapshot calls first: [validate_remote_acquisition_metadata] with the
    checks of mirrors, artifact descriptors, logical paths and content addresses behind it, and the
    only mirror order a client may try, [domain_pack_remote_signed_mirror_order]. *)

From S2P Require Import Prelude RustStr BTree Ordering Contracts DomainPackContracts.

Local Open Scope string_scope.
Local Open Scope nat_scope.
Local Open Scope forge_scope.

Definition MAX_DOMAIN_PACK_REMOTE_MIRRORS : nat := 32.
Definition MAX_DOMAIN_PACK_REMOTE_ARTIFACTS_PER_PACKAGE : nat := 256.

Inductive DomainPackRemoteAcquisitionContractError :=
| RemoteError_UnsupportedSchemaVersion (found : string)
| RemoteError_InvalidDigest (path : string)
| RemoteError_InvalidIdentifier (path : string)
| RemoteError_InvalidLocation (path : string)
| RemoteError_InvalidCachePolicy (message : string)
| RemoteError_DuplicateMirror (mirror_id : string)
| RemoteError_DuplicateArtifact (path : string)
| RemoteError_UnknownMirror (mirror_id : string)
| RemoteError_ArtifactDescriptorSetMismatch (path : string)
| RemoteError_OfflineLocalHeadRequired
| RemoteError_OfflineLocalHeadMismatch
| RemoteError_OfflineLocalHeadExpired
| RemoteError_InvalidOutcomeBlocks
| RemoteError_Canonicalization (message : string)
| RemoteError_DigestMismatch (path : string).

Notation RemoteResult := (Result unit DomainPackRemoteAcquisitionContractError).

(** ** Loops that stop at the first error *)

Section try_each.
Context {A E : Type} (f : nat -> A -> Result unit E).

Fixpoint try_each_from (i : nat) (l : list A) : Result unit E :=
  match l with
  | [] => Ok tt
  | x :: r => try _ <- f i x; try_each_from (S i) r
  end.

Definition try_each : list A -> Result unit E := try_each_from 0.

Lemma try_each_from_ok i l : try_each_from i l = Ok tt <-> forall j x, l !! j = Some x -> f (i + j) x = Ok tt.
Proof.
  revert i. induction l as [|x l IH]; intros i; simpl; [split; [done|done]|].
  destruct (f i x) as [[]|e] eqn:Ex; simpl.
  - rewrite IH. split.
    + intros H [|j] y Hy; simpl in Hy; [simplify_eq; by rewrite Nat.add_0_r|].
      rewrite Nat.add_succ_r. by apply (H j).
    + intros H j y Hy. specialize (H (S j) y Hy). by rewrite Nat.add_succ_r in H.
  - split; [done|]. intros H. specialize (H 0 x eq_refl). rewrite Nat.add_0_r in H. congruence.
Qed.

Lemma try_each_ok l : try_each l = Ok tt <-> forall j x, l !! j = Some x -> f j x = Ok tt.
Proof. apply try_each_from_ok. Qed.

End try_each.

(** ** Fields *)

(** [byte.is_ascii_control()]. *)
Definition is_ascii_control (c : ascii) : bool := (code c <? 32)%N || (code c =? 127)%N.

Definition contains_any (chars : list ascii) (s : string) : bool :=
  existsb (fun c => existsb (fun d => bool_decide (c = d)) chars) (to_bytes s).

Definition is_digest_hex (byte : ascii) : bool := is_ascii_digit byte || in_range 97 102 (code byte).

(** The test of [require_digest]; [valid_digest] of the resolver is the same expression. *)
Definition digest_shape (value : string) : bool :=
  (String.length value =? 71) && String.prefix "sha256:" value && forallb is_digest_hex (drop 7 (to_bytes value)).

Definition require_digest (value path : string) : RemoteResult :=
  if digest_shape value then Ok tt else Err (RemoteError_InvalidDigest path).

Definition required_id (value : StableId) (path : string) : RemoteResult :=
  if str_is_empty (trim (StableId_0 value)) then Err (RemoteError_InvalidIdentifier path) else Ok tt.

Definition dot_component (component : string) : bool :=
  str_is_empty component || bool_decide (component = ".") || bool_decide (component = "..").

Definition is_slash (c : ascii) : bool := bool_decide (c = "/"%char).

Definition validate_repo_path (path : RepoPath) (field : string) : RemoteResult :=
  let s := RepoPath_0 path in
  if str_is_empty s || starts_with_char "/" s || starts_with_char "\" s || contains_any ["\"%char] s
     || existsb is_ascii_control (to_bytes s) || existsb dot_component (split is_slash s)
  then Err (RemoteError_InvalidLocation field)
  else Ok tt.

(** [&raw_sha256["sha256:".len()..]]. *)
Definition digest_hex (raw_sha256 : string) : string := of_bytes (drop 7 (to_bytes raw_sha256)).

Definition validate_content_addressed_object_path (path : RepoPath) (raw_sha256 field : string) : RemoteResult :=
  try _ <- validate_repo_path path field;
  try _ <- require_digest raw_sha256 field;
  let expected := "objects/sha256/" +:+ digest_hex raw_sha256 in
  if negb (bool_decide (RepoPath_0 path = expected)) then Err (RemoteError_InvalidLocation field) else Ok tt.

Definition validate_https_base_url (value path : string) : RemoteResult :=
  if negb (String.prefix "https://" value) then Err (RemoteError_InvalidLocation path)
  else
    let remainder := of_bytes (drop 8 (to_bytes value)) in
    if str_is_empty remainder || existsb is_ascii_control (to_bytes value)
       || contains_any ["@"%char; "#"%char; "?"%char; "\"%char] value
    then Err (RemoteError_InvalidLocation path)
    else match split is_slash remainder with
         | [] => Err (RemoteError_InvalidLocation path)
         | first :: parts =>
             if str_is_empty first || existsb dot_component parts
             then Err (RemoteError_InvalidLocation path)
             else Ok tt
         end.

Definition validate_mirror_transport (transport : DomainPackRegistryMirrorTransport) (path : string) : RemoteResult :=
  match transport with
  | DomainPackRegistryMirrorTransport_Https base_url => validate_https_base_url base_url (path +:+ ".base_url")
  | DomainPackRegistryMirrorTransport_OperatorProvisionedLocal location_id =>
      required_id location_id (path +:+ ".location_id")
  end.

(** ** Artifact descriptors *)

Definition validate_artifact_descriptor (descriptor : DomainPackRemoteArtifactDescriptor) (path : string) : RemoteResult :=
  let binding := rad_binding descriptor in
  try _ <- validate_repo_path (ab_artifact_ref binding) (path +:+ ".binding.artifact_ref");
  try _ <- require_digest (ab_raw_sha256 binding) (path +:+ ".binding.raw_sha256");
  try _ <- require_digest (ab_canonical_sha256 binding) (path +:+ ".binding.canonical_sha256");
  validate_content_addressed_object_path (rad_object_path descriptor) (ab_raw_sha256 binding) (path +:+ ".object_path").

Definition package_descriptors (artifacts : DomainPackRegistryArtifactSet) : list DomainPackRemoteArtifactDescriptor :=
  ras_manifest artifacts :: ras_content artifacts :: ras_license artifacts :: ras_fixtures artifacts.

(** The loop over the descriptors: [logical_refs] and [object_paths] are the two sets it fills. *)
Fixpoint check_descriptors (path : string) (index : nat) (logical_refs object_paths : gset string)
    (descriptors : list DomainPackRemoteArtifactDescriptor) : RemoteResult :=
  match descriptors with
  | [] => Ok tt
  | descriptor :: rest =>
      try _ <- validate_artifact_descriptor descriptor (path +:+ "[" +:+ fmt_nat index +:+ "]");
      let ref := RepoPath_0 (ab_artifact_ref (rad_binding descriptor)) in
      let object_path := RepoPath_0 (rad_object_path descriptor) in
      if bool_decide (ref ∈ logical_refs)
      then Err (RemoteError_DuplicateArtifact (path +:+ ".binding.artifact_ref"))
      else if bool_decide (object_path ∈ object_paths)
      then Err (RemoteError_DuplicateArtifact (path +:+ ".object_path"))
      else check_descriptors path (S index) ({[ref]} ∪ logical_refs) ({[object_path]} ∪ object_paths) rest
  end.

Definition validate_artifact_set (artifacts : DomainPackRegistryArtifactSet)
    (record : DomainPackRegistryPackageRecord) (path : string) : RemoteResult :=
  let descriptors := package_descriptors artifacts in
  if MAX_DOMAIN_PACK_REMOTE_ARTIFACTS_PER_PACKAGE <? length descriptors
  then Err (RemoteError_ArtifactDescriptorSetMismatch path)
  else if negb (bool_decide (rad_kind (ras_manifest artifacts) = DomainPackRemoteArtifactKind_Manifest))
          || negb (bool_decide (rad_kind (ras_content artifacts) = DomainPackRemoteArtifactKind_Content))
          || negb (bool_decide (rad_kind (ras_license artifacts) = DomainPackRemoteArtifactKind_License))
          || existsb (fun fixture => negb (bool_decide (rad_kind fixture = DomainPackRemoteArtifactKind_Fixture)))
               (ras_fixtures artifacts)
  then Err (RemoteError_ArtifactDescriptorSetMismatch path)
  else
    try _ <- check_descriptors path 0 ∅ ∅ descriptors;
    if negb (bool_decide (rpr_manifest_digest record = ab_raw_sha256 (rad_binding (ras_manifest artifacts))))
       || negb (bool_decide (rpr_content_digest record = ab_raw_sha256 (rad_binding (ras_content artifacts))))
       || negb (bool_decide (rpr_license_digest record = ab_raw_sha256 (rad_binding (ras_license artifacts))))
       || negb (length (rpr_fixture_digests record) =? length (ras_fixtures artifacts))
       || existsb (fun '(digest, fixture) => negb (bool_decide (digest = ab_raw_sha256 (rad_binding fixture))))
            (zip (rpr_fixture_digests record) (ras_fixtures artifacts))
    then Err (RemoteError_ArtifactDescriptorSetMismatch path)
    else Ok tt.

(** ** The registry *)

(** The loop over the mirrors; [mirrors] is the set of ids already seen. *)
Fixpoint check_mirrors (index : nat) (seen : gset string) (mirrors : list DomainPackRegistryMirror) : RemoteResult :=
  match mirrors with
  | [] => Ok tt
  | mirror :: rest =>
      let path := "domain_pack_supply_chain_registry.mirrors[" +:+ fmt_nat index +:+ "]" in
      let id := StableId_0 (rm_mirror_id mirror) in
      try _ <- required_id (rm_mirror_id mirror) (path +:+ ".mirror_id");
      if bool_decide (id ∈ seen) then Err (RemoteError_DuplicateMirror id)
      else
        try _ <- validate_mirror_transport (rm_transport mirror) (path +:+ ".transport");
        check_mirrors (S index) ({[id]} ∪ seen) rest
  end.

Definition check_package (index : nat) (record : DomainPackRegistryPackageRecord) : RemoteResult :=
  let record_path := "domain_pack_supply_chain_registry.packages[" +:+ fmt_nat index +:+ "]" in
  try _ <- try_each (fun _ '(field, digest) => require_digest digest (record_path +:+ "." +:+ field))
    [("package_digest", rpr_package_digest record); ("manifest_digest", rpr_manifest_digest record);
     ("content_digest", rpr_content_digest record); ("license_digest", rpr_license_digest record);
     ("record_digest", rpr_record_digest record)];
  try _ <- try_each (fun fixture_index digest =>
      require_digest digest (record_path +:+ ".fixture_digests[" +:+ fmt_nat fixture_index +:+ "]"))
    (rpr_fixture_digests record);
  validate_artifact_set (rpr_artifacts record) record (record_path +:+ ".artifacts").

Definition validate_remote_acquisition_metadata (document : DomainPackSupplyChainRegistryDocument) : RemoteResult :=
  let registry := scrd_domain_pack_supply_chain_registry document in
  if MAX_DOMAIN_PACK_REMOTE_MIRRORS <? length (scr_mirrors registry)
  then Err (RemoteError_InvalidLocation "domain_pack_supply_chain_registry.mirrors")
  else
    try _ <- check_mirrors 0 ∅ (scr_mirrors registry);
    try_each check_package (scr_packages registry).

(** [left.priority.cmp(&right.priority).then_with(|| left.mirror_id.cmp(&right.mirror_id))]. *)
Definition mirror_le : DomainPackRegistryMirror -> DomainPackRegistryMirror -> bool :=
  le_then rm_priority (le_string (fun mirror => StableId_0 (rm_mirror_id mirror))).

Definition domain_pack_remote_signed_mirror_order (registry : DomainPackSupplyChainRegistryDocument)
    : Result (list DomainPackRegistryMirror) DomainPackRemoteAcquisitionContractError :=
  try _ <- validate_remote_acquisition_metadata registry;
  Ok (sort_with mirror_le (scr_mirrors (scrd_domain_pack_supply_chain_registry registry))).

(** ** What an accepted registry satisfies *)

Definition mirror_ids (mirrors : list DomainPackRegistryMirror) : list string :=
  map (fun mirror => StableId_0 (rm_mirror_id mirror)) mirrors.

Lemma check_mirrors_ok index seen mirrors :
  check_mirrors index seen mirrors = Ok tt -> NoDup (mirror_ids mirrors) /\ forall id, id ∈ mirror_ids mirrors -> id ∉ seen.
Proof.
  revert index seen. induction mirrors as [|m rest IH]; intros index seen; simpl.
  - intros _. split; [constructor | set_solver].
  - destruct (required_id _ _) as [[]|]; simpl; [|done]. case_bool_decide as Hs; [done|].
    destruct (validate_mirror_transport _ _) as [[]|]; simpl; [|done]. intros [Hnd Hout]%IH. split.
    + constructor; [|done]. intros Hin. specialize (Hout _ Hin). set_solver.
    + intros id. rewrite elem_of_cons. intros [->|Hin]; [done|]. specialize (Hout _ Hin). set_solver.
Qed.

(** The descriptor's object path is the content address of its raw digest. *)
Definition content_addressed (descriptor : DomainPackRemoteArtifactDescriptor) : Prop :=
  digest_shape (ab_raw_sha256 (rad_binding descriptor)) = true
  /\ RepoPath_0 (rad_object_path descriptor) = "objects/sha256/" +:+ digest_hex (ab_raw_sha256 (rad_binding descriptor)).

Lemma object_path_ok path raw field :
  validate_content_addressed_object_path path raw field = Ok tt ->
  digest_shape raw = true /\ RepoPath_0 path = "objects/sha256/" +:+ digest_hex raw.
Proof.
  unfold validate_content_addressed_object_path, require_digest. destruct (validate_repo_path _ _) as [[]|]; simpl; [|done].
  destruct (digest_shape raw) eqn:E; simpl; [|done]. case_bool_decide as Hp; [|done]. done.
Qed.

Lemma descriptor_ok descriptor path : validate_artifact_descriptor descriptor path = Ok tt -> content_addressed descriptor.
Proof.
  unfold validate_artifact_descriptor. destruct (validate_repo_path _ _) as [[]|]; simpl; [|done].
  destruct (require_digest _ _) as [[]|]; simpl; [|done]. destruct (require_digest _ _) as [[]|]; simpl; [|done].
  apply object_path_ok.
Qed.

Lemma check_descriptors_ok path index refs paths ds :
  check_descriptors path index refs paths ds = Ok tt ->
  Forall content_addressed ds /\ NoDup (map (fun d => RepoPath_0 (rad_object_path d)) ds)
  /\ forall d, d ∈ ds -> RepoPath_0 (rad_object_path d) ∉ paths.
Proof.
  revert index refs paths. induction ds as [|d rest IH]; intros index refs paths; simpl.
  - intros _. split; [constructor|]. split; [constructor | set_solver].
  - destruct (validate_artifact_descriptor _ _) as [[]|] eqn:Ed; simpl; [|done].
    case_bool_decide; [done|]. case_bool_decide as Hp; [done|]. intros (Ha & Hnd & Hout)%IH.
    apply descriptor_ok in Ed. split; [by constructor|]. split.
    + constructor; [|done]. intros (d' & E & Hin)%list_elem_of_fmap. apply (Hout d' Hin). rewrite <- E. set_solver.
    + intros d'. rewrite elem_of_cons. intros [->|Hin]; [done|]. specialize (Hout _ Hin). set_solver.
Qed.

Lemma validate_artifact_set_ok artifacts record path :
  validate_artifact_set artifacts record path = Ok tt ->
  Forall content_addressed (package_descriptors artifacts)
  /\ NoDup (map (fun d => RepoPath_0 (rad_object_path d)) (package_descriptors artifacts)).
Proof.
  unfold validate_artifact_set. destruct (_ <? _); [done|]. destruct (_ || _); [done|].
  destruct (check_descriptors _ _ _ _ _) as [[]|] eqn:E; simpl; [|done]. intros _.
  apply check_descriptors_ok in E. naive_solver.
Qed.

Lemma metadata_ok document :
  validate_remote_acquisition_metadata document = Ok tt ->
  NoDup (mirror_ids (scr_mirrors (scrd_domain_pack_supply_chain_registry document)))
  /\ forall record, record ∈ scr_packages (scrd_domain_pack_supply_chain_registry document) ->
       Forall content_addressed (package_descriptors (rpr_artifacts record))
       /\ NoDup (map (fun d => RepoPath_0 (rad_object_path d)) (package_descriptors (rpr_artifacts record))).
Proof.
  unfold validate_remote_acquisition_metadata. destruct (_ <? _); [done|].
  destruct (check_mirrors _ _ _) as [[]|] eqn:Em; simpl; [|done]. intros Hp. split; [by eapply check_mirrors_ok|].
  intros record [i Hi]%list_elem_of_lookup. apply (proj1 (try_each_ok _ _) Hp) in Hi. clear Hp. unfold check_package in Hi.
  destruct (try_each _ _) as [[]|] in Hi; cbn [result_bind] in Hi; [|done]. destruct (try_each _ _) as [[]|] in Hi; cbn [result_bind] in Hi; [|done].
  by eapply validate_artifact_set_ok.
Qed.

Lemma mirror_le_antisym m n :
  mirror_le m n = true -> mirror_le n m = true -> StableId_0 (rm_mirror_id m) = StableId_0 (rm_mirror_id n).
Proof.
  unfold mirror_le, le_then, le_string.
  destruct (Z.ltb_spec (rm_priority m) (rm_priority n)), (Z.ltb_spec (rm_priority n) (rm_priority m)),
    (Z.eqb_spec (rm_priority m) (rm_priority n)), (Z.eqb_spec (rm_priority n) (rm_priority m)); try lia; try done.
  intros H1 H2. apply (anti_symm String.le); unfold String.le; [by rewrite H1 | by rewrite H2].
Qed.

Lemma mirror_le_total : total_le mirror_le.
Proof. unfold mirror_le. auto with forge. Qed.

Lemma mirror_le_trans : trans_le mirror_le.
Proof. unfold mirror_le. auto with forge. Qed.

Lemma mirror_by_id (mirrors : list DomainPackRegistryMirror) m n :
  NoDup (mirror_ids mirrors) -> m ∈ mirrors -> n ∈ mirrors ->
  StableId_0 (rm_mirror_id m) = StableId_0 (rm_mirror_id n) -> m = n.
Proof. intros Hnd Hm Hn E. exact (key_unique (fun x => StableId_0 (rm_mirror_id x)) mirrors m n Hnd Hm Hn E). Qed.
