(* ===== verification/PackResolution.v ===== *)
(** * Domain pack resolution

    [forge-core-decisions/src/domain_pack_resolution.rs]: which exact pack versions a project gets.
    Candidates are joined with the signed registry and rejected with codes; what is left is searched
    by backtracking, the locked version first and then the highest, under a budget of states; the
    selection is ordered so that a pack follows its dependencies.

    The [semver] crate is the class [Semver], canonical JSON and SHA-256 are [Canonical] and [Sha256].
    The recursive search takes fuel equal to the state budget and [graph_has_cycle] one more than the
    number of selected packs; PackSearch and PackOrder show that neither runs out. *)

From S2P Require Import Prelude RustStr BTree Ordering Contracts AssuranceContracts WorkflowContracts DomainPackContracts PackRegistry.

Local Open Scope string_scope.
Local Open Scope nat_scope.

(** ** Other crates *)

(** [semver]: [Version] and [VersionReq].  [VersionReq_pre_is_empty] lists [comparator.pre.is_empty()]
    for the comparators of a requirement.  "0.1.0" is a version, which the [expect] relies on. *)
Class Semver := {
  Version : Type;
  VersionReq : Type;
  Version_parse : string -> option Version;
  Version_to_string : Version -> string;
  Version_cmp : Version -> Version -> comparison;
  Version_pre_is_empty : Version -> bool;
  VersionReq_parse : string -> option VersionReq;
  VersionReq_matches : VersionReq -> Version -> bool;
  VersionReq_pre_is_empty : VersionReq -> list bool;
  Version_parse_schema : is_Some (Version_parse (DOMAIN_PACK_SCHEMA_VERSION +:+ ".0"))
}.

(** [Version] derives a total order. *)
Class SemverLaws `{Semver} : Prop := {
  Version_cmp_lawful : lawful_cmp Version_cmp;
  Version_cmp_eq v w : Version_cmp v w = Eq -> v = w
}.

(** [serde_json_canonicalizer::to_vec] at one type, and the lower-case hex of [Sha256::digest]. *)
Class Canonical (T : Type) := canonical_to_vec : T -> option bytes.
Class Sha256 := sha256_hex : bytes -> string.

Definition sha256_bytes `{Sha256} (b : bytes) : string := "sha256:" +:+ sha256_hex b.

Definition canonical_digest {T} `{Canonical T, Sha256} (value : T) : option string :=
  match canonical_to_vec value with Some b => Some (sha256_bytes b) | None => None end.

(** ** Limits *)

Definition MAX_DOMAIN_PACK_RESOLUTION_CANDIDATES : nat := 512.
Definition MAX_DOMAIN_PACK_RESOLUTION_VERSIONS_PER_COORDINATE : nat := 64.
Definition MAX_DOMAIN_PACK_RESOLUTION_ROOTS : nat := 64.
Definition MAX_DOMAIN_PACK_RESOLUTION_DEPENDENCIES_PER_PACK : nat := 64.
Definition MAX_DOMAIN_PACK_RESOLUTION_SEARCH_STATES : N := 10000.
Definition MAX_DOMAIN_PACK_RESOLUTION_DIAGNOSTICS : nat := 1024.

(** ** Identifiers and keys *)

(** [byte.is_ascii_alphanumeric() || matches!(byte, b'.' | b'_' | b'-')]. *)
Definition valid_id_byte (byte : ascii) : bool :=
  is_ascii_alphanumeric byte || bool_decide (byte = "."%char) || bool_decide (byte = "_"%char)
  || bool_decide (byte = "-"%char).

Definition valid_id (value : string) : bool :=
  negb (str_is_empty value)
  && (String.length value <=? 256)
  && forallb (fun c => (code c <? 128)%N) (to_bytes value)
  && negb (starts_with_char "." value || starts_with_char "-" value)
  && negb (ends_with_char "." value || ends_with_char "-" value)
  && forallb valid_id_byte (to_bytes value).

Definition valid_digest (value : string) : bool := digest_shape value.

Definition valid_identity (identity : DomainPackIdentity) : bool :=
  valid_id (StableId_0 (id_publisher identity)) && valid_id (StableId_0 (id_name identity))
  && valid_id (StableId_0 (id_namespace identity)).

Definition valid_coordinate (coordinate : DomainPackCoordinate) : bool :=
  valid_id (StableId_0 (co_publisher coordinate)) && valid_id (StableId_0 (co_name coordinate)).

(** [namespace.strip_prefix(prefix).is_some_and(|suffix| suffix.starts_with('.'))]. *)
Definition extends_namespace (namespace prefix : string) : bool :=
  String.prefix prefix namespace
  && starts_with_char "." (of_bytes (drop (String.length prefix) (to_bytes namespace))).

Definition namespace_is_granted (namespace prefix : string) : bool :=
  valid_id namespace && valid_id prefix && (bool_decide (namespace = prefix) || extends_namespace namespace prefix).

Definition manifest_of (candidate : DomainPackResolutionCandidate) : DomainPackManifest :=
  dmd_domain_pack_manifest (dci_manifest (rc_input candidate)).

Definition candidate_identity (candidate : DomainPackResolutionCandidate) : DomainPackIdentity :=
  dm_identity (manifest_of candidate).

Definition coordinate_key_parts (publisher name : string) : string := publisher +:+ "::" +:+ name.

Definition coordinate_key (coordinate : DomainPackCoordinate) : string :=
  coordinate_key_parts (StableId_0 (co_publisher coordinate)) (StableId_0 (co_name coordinate)).

Definition identity_key (identity : DomainPackIdentity) : string :=
  StableId_0 (id_publisher identity) +:+ "::" +:+ StableId_0 (id_name identity) +:+ "::" +:+ id_version identity.

Definition version_reference (identity : DomainPackIdentity) : DomainPackVersionReference := {|
  vr_publisher := id_publisher identity; vr_name := id_name identity; vr_version := id_version identity |}.

Definition record_equivocation_key (record : DomainPackRegistryPackageRecord) : string :=
  rpr_package_digest record +:+ "|" +:+ rpr_manifest_digest record +:+ "|" +:+ rpr_content_digest record
  +:+ "|" +:+ rpr_license_digest record +:+ "|" +:+ rpr_record_digest record.

Definition candidate_equivocation_key (candidate : DomainPackResolutionCandidate) : string :=
  let package := rc_package candidate in
  pb_package_digest package +:+ "|" +:+ ab_raw_sha256 (pb_manifest package)
  +:+ "|" +:+ cb_raw_sha256 (pb_content package) +:+ "|" +:+ ab_raw_sha256 (pb_license package)
  +:+ "|" +:+ default "" (rc_registry_record_digest candidate).

Definition edge_key (edge : DomainPackResolutionDependencyEdge) : string :=
  StableId_0 (vr_publisher (de_from edge)) +:+ "::" +:+ StableId_0 (vr_name (de_from edge)) +:+ "::" +:+ vr_version (de_from edge)
  +:+ ">" +:+ StableId_0 (vr_publisher (de_to edge)) +:+ "::" +:+ StableId_0 (vr_name (de_to edge)) +:+ "::"
  +:+ vr_version (de_to edge) +:+ "|" +:+ default "" (de_required_content_digest edge).

(** [s.splitn(3, "::")]: the first two pieces, when there is a second one. *)
Fixpoint split_colons_go (cur l : bytes) : bytes * option bytes :=
  match l with
  | a :: ((b :: r) as rest) =>
      if bool_decide (a = ":"%char) && bool_decide (b = ":"%char) then (rev cur, Some r)
      else split_colons_go (a :: cur) rest
  | [a] => (rev (a :: cur), None)
  | [] => (rev cur, None)
  end.

Definition splitn3_coordinate (identity : string) : option string :=
  match split_colons_go [] (to_bytes identity) with
  | (_, None) => None
  | (first, Some rest) =>
      let '(second, _) := split_colons_go [] rest in Some (of_bytes first +:+ "::" +:+ of_bytes second)
  end.

(** ** Issues *)

Definition Issues := list DomainPackResolutionIssue.

Definition issue (issues : Issues) (code : DomainPackResolutionIssueCode) (path message : string) : Issues :=
  if length issues <? MAX_DOMAIN_PACK_RESOLUTION_DIAGNOSTICS
  then (issues ++ [{| ri_code := code; ri_path := path; ri_message := message |}])%list
  else issues.

Definition resource_issue (issues : Issues) (path message : string) : Issues :=
  issue issues DomainPackResolutionIssueCode_ResourceLimitExceeded path message.

(** [if bad { issue(issues, code, path, message) }]. *)
Definition report_if (bad : bool) (code : DomainPackResolutionIssueCode) (path message : string) (issues : Issues) : Issues :=
  if bad then issue issues code path message else issues.

Definition issue_cmp : DomainPackResolutionIssue -> DomainPackResolutionIssue -> comparison :=
  then_with (cmp_on (fun i => issue_code_rank (ri_code i)) Z.compare)
    (then_with (cmp_on ri_path String.compare) (cmp_on ri_message String.compare)).

Definition finish_issues (issues : Issues) : Issues :=
  take MAX_DOMAIN_PACK_RESOLUTION_DIAGNOSTICS (vec_dedup (sort_with (le_of issue_cmp) issues)).

Record SearchFailure := {
  sf_code : option DomainPackResolutionIssueCode;
  sf_path : string;
  sf_message : string;
  sf_resource_exhausted : bool
}.

Definition push_failure (issues : Issues) (failure : SearchFailure) : Issues :=
  issue issues (default DomainPackResolutionIssueCode_IncompatibleDependency (sf_code failure))
    (sf_path failure) (sf_message failure).

(** [BTreeSet<DomainPackResolutionIssueCode>] as its ascending list. *)
Fixpoint code_insert (code : DomainPackResolutionIssueCode) (reasons : list DomainPackResolutionIssueCode)
    : list DomainPackResolutionIssueCode :=
  match reasons with
  | [] => [code]
  | d :: r => if (issue_code_rank code <? issue_code_rank d)%Z then code :: d :: r
              else if bool_decide (code = d) then d :: r else d :: code_insert code r
  end.

Definition insert_if (bad : bool) (code : DomainPackResolutionIssueCode) (reasons : list DomainPackResolutionIssueCode)
    : list DomainPackResolutionIssueCode :=
  if bad then code_insert code reasons else reasons.

(** [BTreeMap] collected from pairs: the last pair of a key stays. *)
Definition collect_map {V} (pairs : list (string * V)) : gmap string V :=
  foldl (fun m '(k, v) => <[k := v]> m) ∅ pairs.

(** [map.entry(key).or_default().push(value)]. *)
Definition entry_push {V} (k : string) (v : V) (m : gmap string (list V)) : gmap string (list V) :=
  <[k := (default [] (m !! k) ++ [v])%list]> m.

(** [map.entry(key).or_default().insert(value)] on a map of sets. *)
Definition entry_insert (k v : string) (m : gmap string (gset string)) : gmap string (gset string) :=
  <[k := {[v]} ∪ default ∅ (m !! k)]> m.

(** ** Request and registry *)

Section resolution.
Context `{Semver} `{Sha256} `{Canonical DomainPackResolutionCandidate} `{Canonical DomainPackExactLockPayload}.


Definition validate_current_lock (request : DomainPackResolutionRequestDocument) (issues : Issues) : Issues :=
  let input := rqd_domain_pack_resolution_request request in
  match rq_current_lock input with
  | None => issues
  | Some lock =>
      let exact := eld_domain_pack_exact_lock lock in
      report_if (negb (valid_digest (el_lock_digest exact))
                || negb (bool_decide (canonical_digest (el_payload exact) = Some (el_lock_digest exact))))
        DomainPackResolutionIssueCode_InvalidDigest "current_lock.lock_digest"
        "current lock digest does not match its canonical payload"
      (report_if (negb (bool_decide (elp_project_id (el_payload exact) = rq_project_id input)))
        DomainPackResolutionIssueCode_CurrentLockMismatch "current_lock.payload.project_id"
        "current lock belongs to a different project"
      (report_if (negb (bool_decide (eld_schema_version lock = DOMAIN_PACK_LIFECYCLE_SCHEMA_VERSION)))
        DomainPackResolutionIssueCode_CurrentLockMismatch "current_lock.schema_version"
        "current lock has an unsupported schema" issues))
  end.

(** One turn of the loop over the roots. *)
Definition validate_root (index : nat) (root : DomainPackResolutionRoot) (issues : Issues) : Issues :=
  let path := "roots." +:+ fmt_nat index in
  report_if (option_any (fun digest => negb (valid_digest digest)) (rr_required_content_digest root))
    DomainPackResolutionIssueCode_InvalidDigest (path +:+ ".required_content_digest") "invalid sha256 digest"
  (report_if (is_none (VersionReq_parse (rr_version_requirement root)))
    DomainPackResolutionIssueCode_InvalidVersionRequirement (path +:+ ".version_requirement")
    "invalid semantic-version requirement"
  (report_if (negb (valid_coordinate (rr_pack root)))
    DomainPackResolutionIssueCode_InvalidIdentity (path +:+ ".pack") "invalid root coordinate" issues)).

Definition validate_ids (ids : list (string * string)) (issues : Issues) : Issues :=
  foldl (fun issues '(path, value) =>
    report_if (negb (valid_id value)) DomainPackResolutionIssueCode_InvalidIdentity path "invalid stable id" issues) issues ids.

Definition validate_digests (digests : list (string * string)) (issues : Issues) : Issues :=
  foldl (fun issues '(path, digest) =>
    report_if (negb (valid_digest digest)) DomainPackResolutionIssueCode_InvalidDigest path "invalid sha256 digest" issues)
    issues digests.

Definition validate_request_and_registry (request : DomainPackResolutionRequestDocument)
    (registry : DomainPackSupplyChainRegistryDocument) (issues : Issues) : Issues :=
  let input := rqd_domain_pack_resolution_request request in
  let registry_value := scrd_domain_pack_supply_chain_registry registry in
  let requirements := dprd_domain_pack_project_requirements (rq_requirements input) in
  let issues := report_if (negb (bool_decide (rqd_schema_version request = DOMAIN_PACK_LIFECYCLE_SCHEMA_VERSION)))
    DomainPackResolutionIssueCode_UnsupportedSchemaVersion "schema_version"
    ("expected " +:+ DOMAIN_PACK_LIFECYCLE_SCHEMA_VERSION +:+ ", found " +:+ rqd_schema_version request) issues in
  let issues := report_if (negb (bool_decide (scrd_schema_version registry = DOMAIN_PACK_LIFECYCLE_SCHEMA_VERSION)))
    DomainPackResolutionIssueCode_UnsupportedSchemaVersion "registry.schema_version"
    ("expected " +:+ DOMAIN_PACK_LIFECYCLE_SCHEMA_VERSION +:+ ", found " +:+ scrd_schema_version registry) issues in
  let issues := validate_ids
    [("request_id", StableId_0 (rq_request_id input)); ("project_id", StableId_0 (rq_project_id input));
     ("registry.registry_id", StableId_0 (scr_registry_id registry_value));
     ("registry.audience", StableId_0 (scr_audience registry_value))] issues in
  let issues := report_if (negb (bool_decide (rq_project_id input = dpr_project_id requirements)))
    DomainPackResolutionIssueCode_InvalidIdentity "requirements.project_id"
    "requirements project differs from resolution project" issues in
  let issues := report_if (negb (bool_decide (dprd_schema_version (rq_requirements input) = DOMAIN_PACK_SCHEMA_VERSION)))
    DomainPackResolutionIssueCode_UnsupportedSchemaVersion "requirements.schema_version"
    "P6a requirements must use schema 0.1" issues in
  let issues := report_if (is_none (Version_parse (rq_forge_core_version input)))
    DomainPackResolutionIssueCode_InvalidVersionRequirement "forge_core_version"
    "forge core version must be strict semantic version" issues in
  let issues := validate_digests
    [("registry_snapshot_digest", rq_registry_snapshot_digest input);
     ("registry.snapshot_digest", scr_snapshot_digest registry_value);
     ("core.bundle_digest", dcb_bundle_digest (rq_core input));
     ("core.policy_set_digest", dcb_policy_set_digest (rq_core input))] issues in
  let issues := report_if (negb (bool_decide (rq_registry_snapshot_digest input = scr_snapshot_digest registry_value)))
    DomainPackResolutionIssueCode_RegistryDigestMismatch "registry_snapshot_digest"
    "request does not bind the supplied registry snapshot" issues in
  let issues := report_if (scr_expires_at_unix registry_value <? scr_issued_at_unix registry_value)%Z
    DomainPackResolutionIssueCode_RegistryExpired "registry.expires_at_unix"
    "registry validity interval is inverted" issues in
  let issues := report_if (match validate_remote_acquisition_metadata registry with Ok _ => false | Err _ => true end)
    DomainPackResolutionIssueCode_RegistryRecordMismatch "registry.remote_acquisition_metadata"
    "registry remote artifact metadata is structurally invalid" issues in
  let issues := report_if (MAX_DOMAIN_PACK_RESOLUTION_ROOTS <? length (rq_roots input))
    DomainPackResolutionIssueCode_ResourceLimitExceeded "roots" "root count exceeds 64" issues in
  let issues := report_if (MAX_DOMAIN_PACK_RESOLUTION_CANDIDATES <? length (rq_candidates input))
    DomainPackResolutionIssueCode_ResourceLimitExceeded "candidates" "candidate count exceeds 512" issues in
  let issues := foldl (fun issues '(index, root) => validate_root index root issues) issues (imap pair (rq_roots input)) in
  validate_current_lock request issues.

(** ** Candidates *)

Definition requirement_explicitly_allows_prerelease (requirement : VersionReq) : bool :=
  existsb negb (VersionReq_pre_is_empty requirement).

(** [Version::parse("0.1.0").expect(..)]. *)
Definition pack_schema : Version := is_Some_proj Version_parse_schema.

Definition artifact_digests_valid (binding : DomainPackArtifactBinding) : bool :=
  valid_digest (ab_raw_sha256 binding) && valid_digest (ab_canonical_sha256 binding).

Definition validate_candidate_shape (candidate : DomainPackResolutionCandidate) (forge_core_version : string)
    (reasons : list DomainPackResolutionIssueCode) : list DomainPackResolutionIssueCode :=
  let manifest_doc := dci_manifest (rc_input candidate) in
  let content_doc := dci_content (rc_input candidate) in
  let manifest := dmd_domain_pack_manifest manifest_doc in
  let package := rc_package candidate in
  let pack := dpc_pack (dpcd_domain_pack_content content_doc) in
  let identity := dm_identity manifest in
  let reasons := insert_if (negb (bool_decide (dmd_schema_version manifest_doc = DOMAIN_PACK_SCHEMA_VERSION))
      || negb (bool_decide (dpcd_schema_version content_doc = DOMAIN_PACK_SCHEMA_VERSION)))
    DomainPackResolutionIssueCode_UnsupportedSchemaVersion reasons in
  let reasons := insert_if (negb (valid_identity identity)
      || negb (bool_decide (vr_publisher pack = id_publisher identity))
      || negb (bool_decide (vr_name pack = id_name identity))
      || negb (bool_decide (vr_version pack = id_version identity)))
    DomainPackResolutionIssueCode_InvalidIdentity reasons in
  match Version_parse (id_version identity) with
  | None => code_insert DomainPackResolutionIssueCode_InvalidVersionRequirement reasons
  | Some version =>
      let reasons := insert_if (negb (bool_decide (Version_to_string version = id_version identity)))
        DomainPackResolutionIssueCode_InvalidVersionRequirement reasons in
      let forge_core := Version_parse forge_core_version in
      let pack_requirement := VersionReq_parse (cp_pack_schema_requirement (dm_compatibility manifest)) in
      let core_requirement := VersionReq_parse (cp_forge_core_requirement (dm_compatibility manifest)) in
      let reasons := insert_if (is_none pack_requirement || is_none core_requirement
          || existsb (fun dependency => is_none (VersionReq_parse (dd_version_requirement dependency))) (dm_dependencies manifest)
          || existsb (fun conflict => is_none (VersionReq_parse (dc_version_requirement conflict))) (dm_conflicts manifest))
        DomainPackResolutionIssueCode_InvalidVersionRequirement reasons in
      let reasons := insert_if (
          option_any (fun requirement => negb (VersionReq_matches requirement pack_schema)) pack_requirement
          || option_any (fun requirement =>
               option_all (fun version => negb (VersionReq_matches requirement version)) forge_core) core_requirement)
        DomainPackResolutionIssueCode_IncompatibleDependency reasons in
      let reasons := insert_if (MAX_DOMAIN_PACK_RESOLUTION_DEPENDENCIES_PER_PACK <? length (dm_dependencies manifest))
        DomainPackResolutionIssueCode_ResourceLimitExceeded reasons in
      let reasons := insert_if (
          existsb (fun binding => negb (artifact_digests_valid binding))
            [dci_manifest_binding (rc_input candidate); pb_manifest package; pb_license package]
          || negb (valid_digest (pb_package_digest package))
          || negb (valid_digest (cb_raw_sha256 (pb_content package)))
          || negb (valid_digest (cb_canonical_sha256 (pb_content package)))
          || existsb (fun binding => negb (artifact_digests_valid binding)) (pb_fixtures package))
        DomainPackResolutionIssueCode_InvalidDigest reasons in
      insert_if (negb (bool_decide (pb_manifest package = dci_manifest_binding (rc_input candidate)))
          || negb (bool_decide (pb_content package = dm_content manifest))
          || negb (bool_decide (pb_license package = pv_license_text (dm_provenance manifest))))
        DomainPackResolutionIssueCode_RegistryRecordMismatch reasons
  end.

Definition record_matches_candidate (record : DomainPackRegistryPackageRecord) (candidate : DomainPackResolutionCandidate) : bool :=
  let package := rc_package candidate in
  let artifacts := rpr_artifacts record in
  let fixture_digests := map ab_raw_sha256 (pb_fixtures package) in
  let content := rad_binding (ras_content artifacts) in
  bool_decide (rpr_identity record = candidate_identity candidate)
  && bool_decide (rpr_package_digest record = pb_package_digest package)
  && bool_decide (rpr_manifest_digest record = ab_raw_sha256 (pb_manifest package))
  && bool_decide (rpr_content_digest record = cb_raw_sha256 (pb_content package))
  && bool_decide (rpr_license_digest record = ab_raw_sha256 (pb_license package))
  && bool_decide (sort_strings (rpr_fixture_digests record) = sort_strings fixture_digests)
  && bool_decide (rad_binding (ras_manifest artifacts) = pb_manifest package)
  && bool_decide (ab_artifact_ref content = cb_content_ref (pb_content package))
  && bool_decide (ab_raw_sha256 content = cb_raw_sha256 (pb_content package))
  && bool_decide (ab_canonical_sha256 content = cb_canonical_sha256 (pb_content package))
  && bool_decide (rad_binding (ras_license artifacts) = pb_license package)
  && (length (ras_fixtures artifacts) =? length (pb_fixtures package))
  && forallb (fun '(descriptor, binding) => bool_decide (rad_binding descriptor = binding))
       (zip (ras_fixtures artifacts) (pb_fixtures package))
  && valid_digest (rpr_record_digest record) && valid_digest (rpr_package_digest record)
  && valid_digest (rpr_manifest_digest record) && valid_digest (rpr_content_digest record)
  && valid_digest (rpr_license_digest record) && forallb valid_digest (rpr_fixture_digests record).

Definition equivocated_coordinates (registry : DomainPackSupplyChainRegistryDocument) (request : DomainPackResolutionRequest)
    : gset string :=
  let by_exact := foldl (fun m record => entry_insert (identity_key (rpr_identity record)) (record_equivocation_key record) m)
    ∅ (scr_packages (scrd_domain_pack_supply_chain_registry registry)) in
  let by_exact := foldl (fun m candidate =>
      entry_insert (identity_key (candidate_identity candidate)) (candidate_equivocation_key candidate) m)
    by_exact (rq_candidates request) in
  list_to_set (omap (fun '(identity, variants) => if 1 <? size variants then splitn3_coordinate identity else None)
    (map_to_list by_exact)).

Record AdmittedCandidate := {
  adm_candidate_index : nat;
  adm_candidate : DomainPackResolutionCandidate;
  adm_record : DomainPackRegistryPackageRecord;
  adm_version : Version
}.

(** [match grant_by_id.get(..) { Some(grant) if .. => {} _ => { reasons.insert(NamespaceNotGranted) } }]. *)
Definition grant_holds (registry_value : DomainPackSupplyChainRegistry) (identity : DomainPackIdentity)
    (grant : DomainPackNamespaceGrant) : bool :=
  bool_decide (ng_publisher grant = id_publisher identity)
  && namespace_is_granted (StableId_0 (id_namespace identity)) (StableId_0 (ng_namespace_prefix grant))
  && (ng_valid_from_unix grant <=? scr_issued_at_unix registry_value)%Z
  && (scr_issued_at_unix registry_value <=? ng_valid_until_unix grant)%Z.

Definition credential_holds (registry_value : DomainPackSupplyChainRegistry) (identity : DomainPackIdentity)
    (credential : DomainPackPublisherCredential) : bool :=
  bool_decide (pcr_publisher credential = id_publisher identity)
  && bool_decide (pcr_status credential = DomainPackCredentialStatus_Active)
  && (pcr_valid_from_unix credential <=? scr_issued_at_unix registry_value)%Z
  && (scr_issued_at_unix registry_value <=? pcr_valid_until_unix credential)%Z.

Definition record_by_digest (registry_value : DomainPackSupplyChainRegistry) : gmap string DomainPackRegistryPackageRecord :=
  collect_map (map (fun record => (rpr_record_digest record, record)) (scr_packages registry_value)).
Definition grant_by_id (registry_value : DomainPackSupplyChainRegistry) : gmap string DomainPackNamespaceGrant :=
  collect_map (map (fun grant => (StableId_0 (ng_grant_id grant), grant)) (scr_namespace_grants registry_value)).
Definition credential_by_id (registry_value : DomainPackSupplyChainRegistry) : gmap string DomainPackPublisherCredential :=
  collect_map (map (fun credential => (StableId_0 (pcr_credential_id credential), credential))
    (scr_publisher_credentials registry_value)).
Definition revoked (registry_value : DomainPackSupplyChainRegistry) : gset string :=
  list_to_set (map prv_record_digest (scr_revocations registry_value)).

(** One turn of the loop over the candidates: the entry of [rejection_codes] for the index, and the
    admitted candidate when there is no reason against it. *)
Definition admit_candidate (input : DomainPackResolutionRequest) (registry_value : DomainPackSupplyChainRegistry)
    (equivocated : gset string) (index : nat) (candidate : DomainPackResolutionCandidate)
    : list DomainPackResolutionIssueCode * option (string * AdmittedCandidate) :=
  let identity := candidate_identity candidate in
  let coordinate := coordinate_key_parts (StableId_0 (id_publisher identity)) (StableId_0 (id_name identity)) in
  let reasons := validate_candidate_shape candidate (rq_forge_core_version input) [] in
  let reasons := insert_if (bool_decide (coordinate ∈ equivocated))
    DomainPackResolutionIssueCode_DuplicateVersionEquivocation reasons in
  match rc_registry_record_digest candidate with
  | None => (code_insert DomainPackResolutionIssueCode_RegistryRecordMissing reasons, None)
  | Some record_digest =>
      match record_by_digest registry_value !! record_digest with
      | None => (code_insert DomainPackResolutionIssueCode_RegistryRecordMissing reasons, None)
      | Some record =>
          let reasons := insert_if (bool_decide (record_digest ∈ revoked registry_value))
            DomainPackResolutionIssueCode_RevokedPackage reasons in
          let reasons := insert_if (negb (record_matches_candidate record candidate))
            DomainPackResolutionIssueCode_RegistryRecordMismatch reasons in
          let reasons := insert_if (negb (option_any (grant_holds registry_value identity)
              (grant_by_id registry_value !! StableId_0 (rpr_namespace_grant_id record))))
            DomainPackResolutionIssueCode_NamespaceNotGranted reasons in
          let reasons := insert_if (negb (option_any (credential_holds registry_value identity)
              (credential_by_id registry_value !! StableId_0 (rpr_publisher_credential_id record))))
            DomainPackResolutionIssueCode_RegistryRecordMismatch reasons in
          (reasons,
           if is_nil reasons then
             match Version_parse (id_version identity) with
             | Some version => Some (coordinate, {| adm_candidate_index := index; adm_candidate := candidate;
                                                    adm_record := record; adm_version := version |})
             | None => None
             end
           else None)
      end
  end.

(** ** Search *)

Record Constraint := {
  con_requirement : VersionReq;
  con_required_content_digest : option string
}.

End resolution.

Arguments AdmittedCandidate {_}.
Arguments Constraint {_}.

Notation Constraints := (gmap string (list Constraint)).
Notation Selection := (gmap string AdmittedCandidate).
Notation SearchResult := (Result Selection SearchFailure).

Section search.
Context `{Semver} `{Sha256} `{Canonical DomainPackResolutionCandidate} `{Canonical DomainPackExactLockPayload}.

(** [SearchContext] without its counter [states], which [search] threads. *)
Record SearchContext := {
  sc_candidates : gmap string (list AdmittedCandidate);
  sc_locked : gmap string string;
  sc_upgrade_targets : gset string;
  sc_root_coordinates : gset string
}.

Definition dependencies (candidate : AdmittedCandidate) : list DomainPackDependency :=
  dm_dependencies (manifest_of (adm_candidate candidate)).

Definition satisfies (candidate : AdmittedCandidate) (constraints : list Constraint) : bool :=
  forallb (fun constraint =>
    VersionReq_matches (con_requirement constraint) (adm_version candidate)
    && option_all (fun digest =>
         bool_decide (digest = cb_canonical_sha256 (pb_content (rc_package (adm_candidate candidate)))))
         (con_required_content_digest constraint)
    && (Version_pre_is_empty (adm_version candidate)
        || requirement_explicitly_allows_prerelease (con_requirement constraint))) constraints.

Definition candidate_order_key (candidate : DomainPackResolutionCandidate) : string :=
  default "" (canonical_digest candidate).

Definition admitted_cmp : AdmittedCandidate -> AdmittedCandidate -> comparison :=
  then_with (rev_cmp (cmp_on adm_version Version_cmp))
    (cmp_on (fun a => candidate_order_key (adm_candidate a)) String.compare).

Definition locked_version (context : SearchContext) (key : string) : option string :=
  if bool_decide (key ∈ sc_upgrade_targets context) then None else sc_locked context !! key.

Definition is_locked (context : SearchContext) (key : string) (candidate : AdmittedCandidate) : bool :=
  option_any (fun version => bool_decide (Version_to_string (adm_version candidate) = version)) (locked_version context key).

Definition choice_cmp (context : SearchContext) (key : string) : AdmittedCandidate -> AdmittedCandidate -> comparison :=
  then_with (rev_cmp (cmp_on (is_locked context key) bool_cmp)) admitted_cmp.

Definition order_choices (context : SearchContext) (key : string) (choices : list AdmittedCandidate) : list AdmittedCandidate :=
  sort_with (le_of (choice_cmp context key)) choices.

Definition conflicts_with_selected (candidate : AdmittedCandidate) (selected : Selection) : bool :=
  existsb (fun conflict =>
    option_any (fun other =>
      option_any (fun requirement => VersionReq_matches requirement (adm_version other))
        (VersionReq_parse (dc_version_requirement conflict)))
      (selected !! coordinate_key (dc_pack conflict)))
    (dm_conflicts (manifest_of (adm_candidate candidate))).

Definition selected_conflict (selected : Selection) : bool :=
  existsb (fun candidate => conflicts_with_selected candidate selected) (map_values selected).

Definition missing_failure (context : SearchContext) (key : string) : SearchFailure :=
  let root := bool_decide (key ∈ sc_root_coordinates context) in {|
  sf_code := Some (if root then DomainPackResolutionIssueCode_MissingRoot
                   else DomainPackResolutionIssueCode_MissingDependency);
  sf_path := "selection." +:+ key;
  sf_message := if root then "no admitted candidate satisfies the root"
                else "no admitted candidate satisfies the dependency";
  sf_resource_exhausted := false |}.

Definition failure (code : DomainPackResolutionIssueCode) (path message : string) : SearchFailure := {|
  sf_code := Some code; sf_path := path; sf_message := message; sf_resource_exhausted := false |}.

Definition states_exhausted : SearchFailure := {|
  sf_code := Some DomainPackResolutionIssueCode_ResourceLimitExceeded;
  sf_path := "resolution.search_states";
  sf_message := "deterministic search exhausted 10000 states";
  sf_resource_exhausted := true |}.

(** The loop of [visit] over the dependencies, on the two sets [visiting] and [visited]; it stops at the
    first cycle. *)
Fixpoint visit_all (visit : string -> gset string * gset string -> option (bool * (gset string * gset string)))
    (deps : list DomainPackDependency) (sets : gset string * gset string) : option (bool * (gset string * gset string)) :=
  match deps with
  | [] => Some (false, sets)
  | dependency :: rest =>
      match visit (coordinate_key (dd_pack dependency)) sets with
      | Some (false, sets) => visit_all visit rest sets
      | other => other
      end
  end.

Definition selected_dependencies (selected : Selection) (key : string) : list DomainPackDependency :=
  match selected !! key with Some candidate => dependencies candidate | None => [] end.

(** [visit] of [graph_has_cycle]; [None] is out of fuel. *)
Fixpoint visit (fuel : nat) (selected : Selection) (key : string) (sets : gset string * gset string)
    : option (bool * (gset string * gset string)) :=
  match fuel with
  | 0 => None
  | S fuel =>
      let '(visiting, visited) := sets in
      if bool_decide (key ∈ visited) then Some (false, sets)
      else if bool_decide (key ∈ visiting) then Some (true, sets)
      else
        match visit_all (visit fuel selected) (selected_dependencies selected key) ({[key]} ∪ visiting, visited) with
        | Some (false, (visiting, visited)) => Some (false, (visiting ∖ {[key]}, {[key]} ∪ visited))
        | other => other
        end
  end.

(** [selected.keys().any(|key| visit(key, ..))]. *)
Fixpoint visit_keys (fuel : nat) (selected : Selection) (keys : list string) (sets : gset string * gset string) : option bool :=
  match keys with
  | [] => Some false
  | key :: rest =>
      match visit fuel selected key sets with
      | Some (false, sets) => visit_keys fuel selected rest sets
      | Some (true, _) => Some true
      | None => None
      end
  end.

Definition cycle_fuel (selected : Selection) : nat := S (S (size selected)).

Definition graph_has_cycle (selected : Selection) : bool :=
  default true (visit_keys (cycle_fuel selected) selected (map_keys selected) (∅, ∅)).

(** The loop that adds the constraints of a choice's dependencies; [None] when a requirement does not
    parse. *)
Fixpoint add_dependencies (deps : list DomainPackDependency) (constraints : Constraints) : option Constraints :=
  match deps with
  | [] => Some constraints
  | dependency :: rest =>
      match VersionReq_parse (dd_version_requirement dependency) with
      | None => None
      | Some requirement =>
          add_dependencies rest (entry_push (coordinate_key (dd_pack dependency))
            {| con_requirement := requirement; con_required_content_digest := dd_required_content_digest dependency |}
            constraints)
      end
  end.

Definition breaks_selected (constraints : Constraints) (selected : Selection) : bool :=
  existsb (fun selected_key =>
    match selected !! selected_key with
    | None => false
    | Some candidate =>
        option_any (fun requirements => negb (satisfies candidate requirements)) (constraints !! selected_key)
    end) (map_keys selected).

(** The body of the loop over the choices before the recursive call: the constraints and the selection
    to go on with, or the failure that skips the choice. *)
Definition extend (key : string) (constraints : Constraints) (selected : Selection) (choice : AdmittedCandidate)
    : Result (Constraints * Selection) SearchFailure :=
  let path := "selection." +:+ key in
  if conflicts_with_selected choice selected
  then Err (failure DomainPackResolutionIssueCode_DeclaredConflict path "candidate declares a conflict with the selected graph")
  else
    let next_selected := <[key := choice]> selected in
    if selected_conflict next_selected
    then Err (failure DomainPackResolutionIssueCode_DeclaredConflict path "selected graph contains a declared conflict")
    else match add_dependencies (dependencies choice) constraints with
         | None => Err (failure DomainPackResolutionIssueCode_InvalidVersionRequirement (path +:+ ".dependencies")
                     "dependency requirement is invalid")
         | Some next_constraints =>
             if breaks_selected next_constraints next_selected
             then Err (failure DomainPackResolutionIssueCode_IncompatibleDependency path
                    "candidate makes an already selected dependency incompatible")
             else Ok (next_constraints, next_selected)
         end.

(** The loop over the choices.  [recur] is the recursive call, [states] the counter it advances. *)
Fixpoint try_choices (recur : Constraints -> Selection -> N -> N * SearchResult)
    (context : SearchContext) (key : string) (constraints : Constraints) (selected : Selection)
    (choices : list AdmittedCandidate) (last_failure : option SearchFailure) (states : N) : N * SearchResult :=
  match choices with
  | [] => (states, Err (default (missing_failure context key) last_failure))
  | choice :: rest =>
      match extend key constraints selected choice with
      | Err f => try_choices recur context key constraints selected rest (Some f) states
      | Ok (next_constraints, next_selected) =>
          match recur next_constraints next_selected states with
          | (states, Ok solution) => (states, Ok solution)
          | (states, Err f) =>
              if sf_resource_exhausted f then (states, Err f)
              else try_choices recur context key constraints selected rest (Some f) states
          end
      end
  end.

(** [constraints.keys().find(|key| !selected.contains_key(key))]. *)
Definition next_key (constraints : Constraints) (selected : Selection) : option string :=
  List.find (fun key => is_none (selected !! key)) (map_keys constraints).

Fixpoint search_go (fuel : nat) (context : SearchContext) (constraints : Constraints) (selected : Selection) (states : N)
    : N * SearchResult :=
  match fuel with
  | 0 => (states, Err states_exhausted)
  | S fuel =>
      if (MAX_DOMAIN_PACK_RESOLUTION_SEARCH_STATES <=? states)%N then (states, Err states_exhausted)
      else
        let states := (states + 1)%N in
        match next_key constraints selected with
        | Some key =>
            match sc_candidates context !! key with
            | None => (states, Err (missing_failure context key))
            | Some universe =>
                let coordinate_constraints := default [] (constraints !! key) in
                let choices := List.filter (fun candidate => satisfies candidate coordinate_constraints) universe in
                if is_nil choices then (states, Err (missing_failure context key))
                else try_choices (search_go fuel context) context key constraints selected
                       (order_choices context key choices) None states
            end
        | None =>
            if selected_conflict selected
            then (states, Err (failure DomainPackResolutionIssueCode_DeclaredConflict "selection"
                    "selected graph contains a declared conflict"))
            else if graph_has_cycle selected
            then (states, Err (failure DomainPackResolutionIssueCode_DependencyCycle "selection"
                    "selected dependency graph contains a cycle"))
            else (states, Ok selected)
        end
  end.

(** Every call counts one state, so the budget bounds the depth too. *)
Definition search (context : SearchContext) (constraints : Constraints) (selected : Selection) (states : N) : N * SearchResult :=
  search_go (N.to_nat MAX_DOMAIN_PACK_RESOLUTION_SEARCH_STATES - N.to_nat states) context constraints selected states.

(** ** Order *)

(** [sort_by_key(edge_key)] is stable; [dependents] and [dependency_count] are the two maps. *)
Record Topology := {
  tp_dependents : gmap string (gset string);
  tp_edges : list DomainPackResolutionDependencyEdge
}.

(** The inner loop over the dependencies of one selected pack. *)
Fixpoint link_dependencies (selected : Selection) (from_key : string) (from : DomainPackVersionReference)
    (deps : list DomainPackDependency) (topology : Topology) : Result Topology SearchFailure :=
  match deps with
  | [] => Ok topology
  | dependency :: rest =>
      let to_key := coordinate_key (dd_pack dependency) in
      match selected !! to_key with
      | None => Err (failure DomainPackResolutionIssueCode_MissingDependency
                  ("selection." +:+ from_key +:+ ".dependencies") "selected dependency is absent")
      | Some to_candidate =>
          link_dependencies selected from_key from rest {|
            tp_dependents := entry_insert to_key from_key (tp_dependents topology);
            tp_edges := (tp_edges topology ++
              [{| de_from := from; de_to := version_reference (candidate_identity (adm_candidate to_candidate));
                  de_required_content_digest := dd_required_content_digest dependency |}])%list |}
      end
  end.

Fixpoint link_selected (selected : Selection) (keys : list string) (topology : Topology) : Result Topology SearchFailure :=
  match keys with
  | [] => Ok topology
  | from_key :: rest =>
      match selected !! from_key with
      | None => link_selected selected rest topology
      | Some candidate =>
          match link_dependencies selected from_key (version_reference (candidate_identity (adm_candidate candidate)))
                  (dependencies candidate) topology with
          | Err f => Err f
          | Ok topology => link_selected selected rest topology
          end
      end
  end.

(** The loop over the dependents of a finished pack; [None] is the underflow of the [usize] counter. *)
Fixpoint release_dependents (dependents : list string) (dependency_count : gmap string nat) (ready : gset string)
    : option (gmap string nat * gset string) :=
  match dependents with
  | [] => Some (dependency_count, ready)
  | dependent :: rest =>
      match dependency_count !! dependent with
      | None => release_dependents rest dependency_count ready
      | Some 0 => None
      | Some (S count) =>
          release_dependents rest (<[dependent := count]> dependency_count)
            (if count =? 0 then {[dependent]} ∪ ready else ready)
      end
  end.

(** [while let Some(key) = ready.pop_first()]; [None] is a panic or out of fuel. *)
Fixpoint order_loop (fuel : nat) (dependents : gmap string (gset string)) (dependency_count : gmap string nat)
    (ready : gset string) (order : list string) : option (list string) :=
  match fuel with
  | 0 => None
  | S fuel =>
      match pop_first ready with
      | None => Some order
      | Some (key, ready) =>
          match release_dependents (set_iter (default ∅ (dependents !! key))) dependency_count ready with
          | None => None
          | Some (dependency_count, ready) => order_loop fuel dependents dependency_count ready (order ++ [key])%list
          end
      end
  end.

Definition initial_counts (selected : Selection) : gmap string nat := (fun candidate => length (dependencies candidate)) <$> selected.

Definition initially_ready (dependency_count : gmap string nat) : gset string :=
  list_to_set (List.filter (fun key => bool_decide (dependency_count !! key = Some 0)) (map_keys dependency_count)).

(** [None] is a panic. *)
Definition topological_go (selected : Selection)
    : option (Result (list DomainPackResolutionDependencyEdge * list string) SearchFailure) :=
  match link_selected selected (map_keys selected) {| tp_dependents := ∅; tp_edges := [] |} with
  | Err f => Some (Err f)
  | Ok topology =>
      let edges := sort_by edge_key (tp_edges topology) in
      let dependency_count := initial_counts selected in
      match order_loop (S (size selected)) (tp_dependents topology) dependency_count (initially_ready dependency_count) [] with
      | None => None
      | Some order =>
          if negb (length order =? size selected)
          then Some (Err (failure DomainPackResolutionIssueCode_DependencyCycle "selection"
                  "selected dependency graph contains a cycle"))
          else Some (Ok (edges, order))
      end
  end.

Definition topological_edges_and_order (selected : Selection)
    : Result (list DomainPackResolutionDependencyEdge * list string) SearchFailure :=
  default (Err (failure DomainPackResolutionIssueCode_DependencyCycle "selection"
    "selected dependency graph contains a cycle")) (topological_go selected).

(** ** Output *)

Definition dependency_cmp : DomainPackDependency -> DomainPackDependency -> comparison :=
  then_with (cmp_on (fun d => coordinate_key (dd_pack d)) String.compare)
    (then_with (cmp_on dd_version_requirement String.compare) (cmp_on dd_required_content_digest option_string_cmp)).

Definition sorted_dependencies (deps : list DomainPackDependency) : list DomainPackDependency :=
  sort_with (le_of dependency_cmp) deps.

(** [u32::try_from(position).unwrap_or(u32::MAX)]. *)
Definition u32_position (position : nat) : Z := Z.min (Z.of_nat position) u32_max.

Definition resolved_package (position : nat) (candidate : AdmittedCandidate) : DomainPackResolvedPackage := {|
  rp_identity := candidate_identity (adm_candidate candidate);
  rp_package := rc_package (adm_candidate candidate);
  rp_registry_record_digest := rpr_record_digest (adm_record candidate);
  rp_namespace_grant_id := rpr_namespace_grant_id (adm_record candidate);
  rp_source_assurance := DomainPackSourceAssurance_ExplicitlyUntrusted;
  rp_semantic_assurance := DomainPackSemanticAssurance_Unreviewed;
  rp_reviewed_entry_digest := None;
  rp_promotion_authorization_digest := None;
  rp_dependencies := sorted_dependencies (dependencies candidate);
  rp_deterministic_order := u32_position position |}.

Definition build_selected (selected : Selection) : list DomainPackResolvedPackage :=
  match topological_edges_and_order selected with
  | Err _ => []
  | Ok (_, order) =>
      omap (fun '(position, key) =>
        match selected !! key with Some candidate => Some (resolved_package position candidate) | None => None end)
        (imap pair order)
  end.

(** [rejection_codes] is the list of its entries, the entry of index [i] at position [i]. *)
Definition build_rejections (input : DomainPackResolutionRequest) (codes : list (list DomainPackResolutionIssueCode))
    : list DomainPackRejectedCandidate :=
  omap (fun '(index, reasons) =>
    if is_nil reasons then None
    else match rq_candidates input !! index with
         | Some candidate => Some {| rj_identity := candidate_identity candidate;
                                     rj_package_digest := pb_package_digest (rc_package candidate);
                                     rj_reasons := reasons |}
         | None => None
         end) (imap pair codes).

Definition rejected_cmp : DomainPackRejectedCandidate -> DomainPackRejectedCandidate -> comparison :=
  then_with (cmp_on (fun r => identity_key (rj_identity r)) String.compare) (cmp_on rj_package_digest String.compare).

Definition compatible_lock_preferences (lock : option DomainPackExactLockDocument) : gmap string string :=
  match lock with
  | None => ∅
  | Some lock =>
      collect_map (map (fun package =>
        (coordinate_key_parts (StableId_0 (id_publisher (lp_identity package))) (StableId_0 (id_name (lp_identity package))),
         id_version (lp_identity package))) (elp_packages (el_payload (eld_domain_pack_exact_lock lock))))
  end.

(** ** Digest *)

(** [format!("{:?}", reason)]. *)
Definition root_reason_debug (reason : DomainPackResolutionRootReason) : string :=
  match reason with
  | DomainPackResolutionRootReason_ExistingProjectRoot => "ExistingProjectRoot"
  | DomainPackResolutionRootReason_InstallIntent => "InstallIntent"
  | DomainPackResolutionRootReason_UpgradeIntent => "UpgradeIntent"
  | DomainPackResolutionRootReason_PersistentDomainRequirement => "PersistentDomainRequirement"
  | DomainPackResolutionRootReason_RollbackIntent => "RollbackIntent"
  end.

Definition lock_root_cmp : DomainPackResolutionRoot -> DomainPackResolutionRoot -> comparison :=
  then_with (cmp_on (fun r => coordinate_key (rr_pack r)) String.compare) (cmp_on rr_version_requirement String.compare).

Definition root_cmp : DomainPackResolutionRoot -> DomainPackResolutionRoot -> comparison :=
  then_with (cmp_on (fun r => coordinate_key (rr_pack r)) String.compare)
    (then_with (cmp_on rr_version_requirement String.compare)
      (then_with (cmp_on rr_required_content_digest option_string_cmp)
        (cmp_on (fun r => root_reason_debug (rr_reason r)) String.compare))).

Context `{Canonical DomainPackRuntimeCapabilityGap}.

Definition normalized_requirement (requirement : DomainPackDomainRequirement) : DomainPackDomainRequirement := {|
  ddr_id := ddr_id requirement;
  ddr_domain_id := ddr_domain_id requirement;
  ddr_pack_version_requirement := ddr_pack_version_requirement requirement;
  ddr_required_capability_refs := sort_by StableId_0 (ddr_required_capability_refs requirement) |}.

Definition normalized_payload (payload : DomainPackExactLockPayload) : DomainPackExactLockPayload := {|
  elp_project_id := elp_project_id payload;
  elp_core := elp_core payload;
  elp_requirements_digest := elp_requirements_digest payload;
  elp_roots := sort_with (le_of lock_root_cmp) (elp_roots payload);
  elp_registry_snapshot_digest := elp_registry_snapshot_digest payload;
  elp_reviewer_registry_digest := elp_reviewer_registry_digest payload;
  elp_reviewed_registry_digest := elp_reviewed_registry_digest payload;
  elp_trust_policy_digest := elp_trust_policy_digest payload;
  elp_capability_registry_digest := elp_capability_registry_digest payload;
  elp_sandbox_policy_digest := elp_sandbox_policy_digest payload;
  elp_resolution_digest := elp_resolution_digest payload;
  elp_composition_digest := elp_composition_digest payload;
  elp_packages := sort_by (fun package => identity_key (lp_identity package)) (elp_packages payload);
  elp_verified_capability_bindings :=
    sort_by (fun binding => StableId_0 (lcb_binding_id binding)) (elp_verified_capability_bindings payload);
  elp_unresolved_composition_gaps := elp_unresolved_composition_gaps payload;
  elp_unresolved_capability_gaps :=
    sort_by (fun gap => default "" (canonical_digest gap)) (elp_unresolved_capability_gaps payload) |}.

Definition normalized_lock (lock : DomainPackExactLockDocument) : DomainPackExactLockDocument := {|
  eld_schema_version := eld_schema_version lock;
  eld_domain_pack_exact_lock := {|
    el_payload := normalized_payload (el_payload (eld_domain_pack_exact_lock lock));
    el_lock_digest := el_lock_digest (eld_domain_pack_exact_lock lock) |} |}.

Definition normalized_request (request : DomainPackResolutionRequestDocument) : DomainPackResolutionRequestDocument :=
  let input := rqd_domain_pack_resolution_request request in
  let requirements := dprd_domain_pack_project_requirements (rq_requirements input) in {|
  rqd_schema_version := rqd_schema_version request;
  rqd_domain_pack_resolution_request := {|
    rq_request_id := rq_request_id input;
    rq_authority := rq_authority input;
    rq_project_id := rq_project_id input;
    rq_forge_core_version := rq_forge_core_version input;
    rq_core := rq_core input;
    rq_requirements := {|
      dprd_schema_version := dprd_schema_version (rq_requirements input);
      dprd_domain_pack_project_requirements := {|
        dpr_project_id := dpr_project_id requirements;
        dpr_requirement_set_id := dpr_requirement_set_id requirements;
        dpr_required_domains := map normalized_requirement
          (sort_by (fun requirement => StableId_0 (ddr_id requirement)) (dpr_required_domains requirements)) |} |};
    rq_roots := sort_with (le_of root_cmp) (rq_roots input);
    rq_current_lock := normalized_lock <$> rq_current_lock input;
    rq_policy := rq_policy input;
    rq_registry_snapshot_digest := rq_registry_snapshot_digest input;
    rq_candidates := sort_by candidate_order_key (rq_candidates input) |} |}.

Record ResolutionDigestSubject := {
  rds_schema_version : string;
  rds_request : DomainPackResolutionRequestDocument;
  rds_registry_snapshot_digest : string;
  rds_authority : DomainPackCandidateAuthority;
  rds_status : DomainPackResolutionStatus;
  rds_selected : list DomainPackResolvedPackage;
  rds_dependency_edges : list DomainPackResolutionDependencyEdge;
  rds_rejected : list DomainPackRejectedCandidate;
  rds_issues : list DomainPackResolutionIssue
}.

Context `{Canonical ResolutionDigestSubject}.

(** [b"domain-pack-resolution-encoding-failed"]. *)
Definition encoding_failed : bytes := to_bytes "domain-pack-resolution-encoding-failed".

Definition resolution_digest (request : DomainPackResolutionRequestDocument) (registry_snapshot_digest : string)
    (status : DomainPackResolutionStatus) (selected : list DomainPackResolvedPackage)
    (dependency_edges : list DomainPackResolutionDependencyEdge) (rejected : list DomainPackRejectedCandidate)
    (issues : Issues) : string :=
  default (sha256_bytes encoding_failed) (canonical_digest {|
    rds_schema_version := DOMAIN_PACK_LIFECYCLE_SCHEMA_VERSION;
    rds_request := normalized_request request;
    rds_registry_snapshot_digest := registry_snapshot_digest;
    rds_authority := DomainPackCandidateAuthority_CandidateOnly;
    rds_status := status;
    rds_selected := selected;
    rds_dependency_edges := dependency_edges;
    rds_rejected := rejected;
    rds_issues := issues |}).

Definition domain_pack_resolution_projection_digest (request : DomainPackResolutionRequestDocument)
    (registry_snapshot_digest : string) (projection : DomainPackResolutionProjection) : string :=
  resolution_digest request registry_snapshot_digest (rpj_status projection) (rpj_selected projection)
    (rpj_dependency_edges projection) (rpj_rejected projection) (rpj_issues projection).

(** ** Resolution *)

(** [rejection_codes] and [admitted_by_coordinate] after the loop over the candidates. *)
Definition admissions (input : DomainPackResolutionRequest) (registry : DomainPackSupplyChainRegistryDocument)
    : list (list DomainPackResolutionIssueCode * option (string * AdmittedCandidate)) :=
  imap (admit_candidate input (scrd_domain_pack_supply_chain_registry registry) (equivocated_coordinates registry input))
    (take MAX_DOMAIN_PACK_RESOLUTION_CANDIDATES (rq_candidates input)).

Definition admitted_by_coordinate (admitted : list (string * AdmittedCandidate)) : gmap string (list AdmittedCandidate) :=
  foldl (fun m '(coordinate, candidate) => entry_push coordinate candidate m) ∅ admitted.

(** One turn of the loop over [admitted_by_coordinate]: sort, and cut after 64 versions. *)
Definition bound_coordinate (coordinate : string)
    (st : Issues * list (list DomainPackResolutionIssueCode) * gmap string (list AdmittedCandidate))
    : Issues * list (list DomainPackResolutionIssueCode) * gmap string (list AdmittedCandidate) :=
  let '(issues, codes, candidates) := st in
  match candidates !! coordinate with
  | None => st
  | Some versions =>
      let versions := sort_with (le_of admitted_cmp) versions in
      if MAX_DOMAIN_PACK_RESOLUTION_VERSIONS_PER_COORDINATE <? length versions
      then (resource_issue issues ("candidates." +:+ coordinate) "version count exceeds 64 for one coordinate",
            foldl (fun codes candidate =>
                alter (code_insert DomainPackResolutionIssueCode_ResourceLimitExceeded) (adm_candidate_index candidate) codes)
              codes (drop MAX_DOMAIN_PACK_RESOLUTION_VERSIONS_PER_COORDINATE versions),
            <[coordinate := take MAX_DOMAIN_PACK_RESOLUTION_VERSIONS_PER_COORDINATE versions]> candidates)
      else (issues, codes, <[coordinate := versions]> candidates)
  end.

(** The roots as the first constraints; a root whose requirement does not parse adds none. *)
Definition root_constraints (roots : list DomainPackResolutionRoot) : Constraints :=
  foldl (fun m root =>
    match VersionReq_parse (rr_version_requirement root) with
    | Some requirement => entry_push (coordinate_key (rr_pack root))
        {| con_requirement := requirement; con_required_content_digest := rr_required_content_digest root |} m
    | None => m
    end) ∅ roots.

Definition search_context (input : DomainPackResolutionRequest) (candidates : gmap string (list AdmittedCandidate)) : SearchContext := {|
  sc_candidates := candidates;
  sc_locked := compatible_lock_preferences (rq_current_lock input);
  sc_upgrade_targets := list_to_set (map (fun root => coordinate_key (rr_pack root))
    (List.filter (fun root => bool_decide (rr_reason root = DomainPackResolutionRootReason_UpgradeIntent)) (rq_roots input)));
  sc_root_coordinates := list_to_set (map (fun root => coordinate_key (rr_pack root)) (rq_roots input)) |}.

(** The search and the order of its solution: the issues, the selection and the edges. *)
Definition select (input : DomainPackResolutionRequest) (candidates : gmap string (list AdmittedCandidate)) (issues : Issues)
    : Issues * Selection * list DomainPackResolutionDependencyEdge :=
  match issues with
  | _ :: _ => (issues, ∅, [])
  | [] =>
      match snd (search (search_context input candidates) (root_constraints (rq_roots input)) ∅ 0%N) with
      | Ok solution =>
          match topological_edges_and_order solution with
          | Ok (edges, _) => (issues, solution, edges)
          | Err f => (push_failure issues f, solution, [])
          end
      | Err f => (push_failure issues f, ∅, [])
      end
  end.

Definition resolve_domain_packs (request : DomainPackResolutionRequestDocument)
    (registry : DomainPackSupplyChainRegistryDocument) : DomainPackResolutionProjectionDocument :=
  let input := rqd_domain_pack_resolution_request request in
  let registry_value := scrd_domain_pack_supply_chain_registry registry in
  let issues := validate_request_and_registry request registry [] in
  let admitted := admissions input registry in
  let candidates := admitted_by_coordinate (omap snd admitted) in
  let '(issues, codes, candidates) :=
    foldl (fun st coordinate => bound_coordinate coordinate st) (issues, admitted.*1, candidates) (map_keys candidates) in
  let '(issues, selected, edges) := select input candidates issues in
  let rejected := sort_with (le_of rejected_cmp) (build_rejections input codes) in
  let issues := finish_issues issues in
  let resolved := is_nil issues in
  let status := if resolved then DomainPackResolutionStatus_Resolved else DomainPackResolutionStatus_Blocked in
  let edges := if resolved then edges else [] in
  let selected_output := if resolved then build_selected selected else [] in
  {| rpjd_schema_version := DOMAIN_PACK_LIFECYCLE_SCHEMA_VERSION;
     rpjd_domain_pack_resolution_projection := {|
       rpj_request_id := rq_request_id input;
       rpj_authority := DomainPackCandidateAuthority_CandidateOnly;
       rpj_status := status;
       rpj_selected := selected_output;
       rpj_dependency_edges := edges;
       rpj_rejected := rejected;
       rpj_issues := issues;
       rpj_resolution_digest := resolution_digest request (scr_snapshot_digest registry_value) status
         selected_output edges rejected issues |} |}.

End search.

Arguments SearchContext {_}.
