(* ===== verification/PackOrder.v ===== *)
(** * The dependency graph of a selection

    [graph_has_cycle] and [topological_edges_and_order] of [domain_pack_resolution.rs] against the
    relation "pack a declares a dependency on pack b": the depth-first search answers exactly whether
    the relation has a cycle, and the ordering succeeds exactly on the acyclic selections in which no
    pack names a coordinate twice. *)

From S2P Require Import Prelude RustStr BTree Traversal Ordering Contracts DomainPackContracts PackRegistry PackResolution.

Local Open Scope nat_scope.

Section order.
Context `{Semver}.
Implicit Types selected : Selection.

Definition dep_keys (candidate : AdmittedCandidate) : list string :=
  map (fun d => coordinate_key (dd_pack d)) (dependencies candidate).

Definition selected_dep_keys selected (key : string) : list string :=
  map (fun d => coordinate_key (dd_pack d)) (selected_dependencies selected key).

(** The selected pack [a] declares a dependency on the coordinate [b]. *)
Definition depends selected (a b : string) : Prop := b ∈ selected_dep_keys selected a.

Definition acyclic_selection selected : Prop := forall key, ~ tc (depends selected) key key.

#[export] Instance depends_dec selected a b : Decision (depends selected a b).
Proof. unfold depends. apply _. Defined.

Lemma selected_dep_keys_Some selected key candidate :
  selected !! key = Some candidate -> selected_dep_keys selected key = dep_keys candidate.
Proof. unfold selected_dep_keys, selected_dependencies. by intros ->. Qed.

Lemma depends_selected selected a b : depends selected a b -> is_Some (selected !! a).
Proof.
  unfold depends, selected_dep_keys, selected_dependencies. destruct (selected !! a); [by eauto|]. set_solver.
Qed.

Lemma depends_mono selected selected' a b : selected ⊆ selected' -> depends selected a b -> depends selected' a b.
Proof.
  intros Hs Hd. destruct (depends_selected _ _ _ Hd) as [c Hc]. unfold depends in *.
  rewrite (selected_dep_keys_Some _ _ _ Hc) in Hd.
  by rewrite (selected_dep_keys_Some _ _ c) by (by eapply lookup_weaken).
Qed.

Lemma acyclic_mono selected selected' : selected ⊆ selected' -> acyclic_selection selected' -> acyclic_selection selected.
Proof.
  intros Hs Hac key Htc. apply (Hac key). revert Htc. generalize key at 2 4. intros b Htc.
  induction Htc as [x y Hxy|x y z Hxy _ IH]; [apply tc_once | eapply tc_l; [|exact IH]]; by eapply depends_mono.
Qed.

(** ** Depth-first search *)

(** [visited] is closed under dependencies, and no cycle passes through it. *)
Record finished selected (visited : gset string) : Prop := {
  fin_closed a b : a ∈ visited -> depends selected a b -> b ∈ visited;
  fin_acyclic a : a ∈ visited -> ~ tc (depends selected) a a
}.

Lemma finished_tc selected visited a b : finished selected visited -> a ∈ visited -> tc (depends selected) a b -> b ∈ visited.
Proof. intros Hf Ha Htc. induction Htc as [x y Hxy|x y z Hxy _ IH]; [|apply IH]; by eapply fin_closed. Qed.

(** A key whose dependencies are all finished can be finished too. *)
Lemma finished_add selected visited key :
  finished selected visited -> key ∉ visited -> (forall b, depends selected key b -> b ∈ visited) ->
  finished selected ({[key]} ∪ visited).
Proof.
  intros Hf Hk Hd. split.
  - intros a b Ha Hab. apply elem_of_union_r. apply elem_of_union in Ha as [->%elem_of_singleton|Ha]; [by apply Hd|].
    by eapply fin_closed.
  - intros a Ha Htc. apply elem_of_union in Ha as [->%elem_of_singleton|Ha]; [|by eapply fin_acyclic].
    apply Hk. inversion Htc as [? ? Hkk|? y ? Hky Hyk]; subst; [by apply Hd|].
    eapply finished_tc; [exact Hf | by apply Hd | exact Hyk].
Qed.

(** What a call may assume: the path [visiting] leads to the key, and is apart from [visited]. *)
Record visit_pre selected (key : string) (visiting visited : gset string) : Prop := {
  vp_finished : finished selected visited;
  vp_disjoint : visiting ## visited;
  vp_path p : p ∈ visiting -> tc (depends selected) p key;
  vp_selected : visiting ⊆ dom selected
}.

(** What it guarantees: a cycle, or the key finished and the path as before. *)
Definition visit_post selected (keys : list string) (visiting visited : gset string)
    (r : option (bool * (gset string * gset string))) : Prop :=
  match r with
  | None => False
  | Some (true, _) => ~ acyclic_selection selected
  | Some (false, (visiting', visited')) =>
      visiting' = visiting /\ visited ⊆ visited' /\ (forall key, key ∈ keys -> key ∈ visited')
      /\ finished selected visited' /\ visiting ## visited'
  end.

Lemma visit_all_spec selected (recur : string -> gset string * gset string -> option (bool * (gset string * gset string)))
    visiting deps visited :
  (forall visited key, visit_pre selected key visiting visited ->
     visit_post selected [key] visiting visited (recur key (visiting, visited))) ->
  finished selected visited -> visiting ## visited -> visiting ⊆ dom selected ->
  (forall d p, d ∈ deps -> p ∈ visiting -> tc (depends selected) p (coordinate_key (dd_pack d))) ->
  visit_post selected (map (fun d => coordinate_key (dd_pack d)) deps) visiting visited
    (visit_all recur deps (visiting, visited)).
Proof.
  intros Hrec. revert visited. induction deps as [|d deps IH]; intros visited Hf Hd Hs Hp; simpl.
  - split_and!; [done|done|set_solver|done|done].
  - assert (visit_pre selected (coordinate_key (dd_pack d)) visiting visited) as Hpre.
    { split; [done|done| |done]. intros p. apply Hp. by left. }
    specialize (Hrec _ _ Hpre). destruct (recur _ _) as [[[] [visiting1 visited1]]|]; simpl in Hrec; [done| |done].
    destruct Hrec as (-> & Hsub & Hin & Hf1 & Hd1).
    assert (forall d' p, d' ∈ deps -> p ∈ visiting -> tc (depends selected) p (coordinate_key (dd_pack d'))) as Hp1.
    { intros d' p Hd'. apply Hp. by right. }
    specialize (IH visited1 Hf1 Hd1 Hs Hp1).
    destruct (visit_all recur deps _) as [[[] [visiting2 visited2]]|]; simpl in *; [done| |done].
    destruct IH as (-> & Hsub2 & Hin2 & Hf2 & Hd2). split_and!; [done|set_solver| |done|done].
    intros key. rewrite elem_of_cons. intros [->|Hk]; [|by apply Hin2]. apply Hsub2, Hin. by left.
Qed.

Lemma visit_spec fuel selected key visiting visited :
  visit_pre selected key visiting visited -> size selected < fuel + size visiting ->
  visit_post selected [key] visiting visited (visit fuel selected key (visiting, visited)).
Proof.
  revert key visiting visited. induction fuel as [|fuel IH]; intros key visiting visited Hpre Hfuel.
  { exfalso. pose proof (subseteq_size _ _ (vp_selected _ _ _ _ Hpre)) as Hs. rewrite size_dom in Hs. lia. }
  simpl. case_bool_decide as Hv.
  { simpl. split_and!; [done|done|intros ? ->%list_elem_of_singleton; done|apply Hpre|apply Hpre]. }
  case_bool_decide as Hp.
  { simpl. intros Hac. by apply (Hac key), Hpre. }
  destruct (decide (key ∈ dom selected)) as [Hk|Hk].
  - assert (visit_post selected (selected_dep_keys selected key) ({[key]} ∪ visiting) visited
      (visit_all (visit fuel selected) (selected_dependencies selected key) ({[key]} ∪ visiting, visited))) as Hall.
    { apply visit_all_spec; [|apply Hpre| | |].
      - intros visited' key' Hpre'. apply IH; [done|]. rewrite size_union by set_solver. rewrite size_singleton. lia.
      - pose proof (vp_disjoint _ _ _ _ Hpre). set_solver.
      - pose proof (vp_selected _ _ _ _ Hpre). set_solver.
      - intros d p Hd Hpp. assert (depends selected key (coordinate_key (dd_pack d))) as Hkd.
        { unfold depends, selected_dep_keys. apply list_elem_of_fmap. eauto. }
        apply elem_of_union in Hpp as [->%elem_of_singleton|Hpp]; [by apply tc_once|].
        eapply tc_r; [by apply Hpre | done]. }
    destruct (visit_all _ _ _) as [[[] [visiting1 visited1]]|]; simpl in Hall; [done| |done].
    destruct Hall as (-> & Hsub & Hin & Hf & Hd). simpl. split_and!.
    + set_solver.
    + set_solver.
    + intros ? ->%list_elem_of_singleton. set_solver.
    + apply finished_add; [done|set_solver|]. intros b Hb. by apply Hin.
    + set_solver.
  - assert (selected !! key = None) as En by (by apply not_elem_of_dom).
    assert (selected_dependencies selected key = []) as -> by (unfold selected_dependencies; by rewrite En).
    simpl. split_and!; [set_solver|set_solver|intros ? ->%list_elem_of_singleton; set_solver| |].
    + apply finished_add; [apply Hpre|done|]. intros b Hb%depends_selected. rewrite En in Hb. by destruct Hb.
    + pose proof (vp_disjoint _ _ _ _ Hpre). set_solver.
Qed.

Lemma visit_keys_spec selected keys visited :
  finished selected visited ->
  match visit_keys (cycle_fuel selected) selected keys (∅, visited) with
  | None => False
  | Some true => ~ acyclic_selection selected
  | Some false => exists visited', finished selected visited' /\ forall key, key ∈ visited \/ key ∈ keys -> key ∈ visited'
  end.
Proof.
  revert visited. induction keys as [|key keys IH]; intros visited Hf; cbn [visit_keys].
  - exists visited. split; [done|]. set_solver.
  - assert (visit_pre selected key ∅ visited) as Hpre by (split; [done|set_solver|set_solver|set_solver]).
    pose proof (visit_spec (cycle_fuel selected) _ _ _ _ Hpre) as Hv.
    specialize (Hv ltac:(unfold cycle_fuel; lia)).
    destruct (visit _ _ _ _) as [[[] [visiting1 visited1]]|]; simpl in Hv; [done| |done].
    destruct Hv as (-> & Hsub & Hin & Hf1 & _). specialize (IH _ Hf1).
    destruct (visit_keys _ _ _ _) as [[]|]; [done| |done]. destruct IH as (visited' & Hf' & Hall).
    exists visited'. split; [done|]. intros k. rewrite elem_of_cons. intros [Hk|[->|Hk]]; apply Hall; [|left|by right].
    + left. by apply Hsub.
    + apply Hin. by left.
Qed.

(** The depth-first search never runs out of fuel, and reports a cycle exactly when there is one. *)
Lemma graph_has_cycle_spec selected : graph_has_cycle selected = false <-> acyclic_selection selected.
Proof.
  unfold graph_has_cycle. assert (finished selected ∅) as Hf by (split; set_solver).
  pose proof (visit_keys_spec selected (map_keys selected) ∅ Hf) as Hv.
  destruct (visit_keys _ _ _ _) as [[]|]; simpl; [|split; [|done]|done].
  - split; [done|]. intros Hac. by destruct Hv.
  - intros _ key Htc. destruct Hv as (visited' & Hf' & Hall). apply (fin_acyclic _ _ Hf' key); [|done].
    apply Hall. right. apply elem_of_map_keys.
    inversion Htc as [? ? Hkk|? ? ? Hky _]; subst; by eapply depends_selected.
Qed.

(** ** Edges and dependents *)

Definition closed_selection selected : Prop := forall a b, depends selected a b -> is_Some (selected !! b).

Definition is_edge selected (from : DomainPackVersionReference) (deps : list DomainPackDependency)
    (edge : DomainPackResolutionDependencyEdge) : Prop :=
  exists d to, d ∈ deps /\ selected !! coordinate_key (dd_pack d) = Some to
    /\ edge = {| de_from := from; de_to := version_reference (candidate_identity (adm_candidate to));
                 de_required_content_digest := dd_required_content_digest d |}.

Lemma elem_of_entry_insert k v m b a :
  a ∈ default ∅ (entry_insert k v m !! b) <-> a ∈ default ∅ (m !! b) \/ (a = v /\ b = k).
Proof.
  unfold entry_insert. rewrite lookup_insert_if. destruct (decide (b = k)) as [->|Hne]; simpl.
  - rewrite elem_of_union, elem_of_singleton. naive_solver.
  - naive_solver.
Qed.

Lemma link_dependencies_spec selected from_key from deps topology :
  (forall d, d ∈ deps -> is_Some (selected !! coordinate_key (dd_pack d))) ->
  exists topology', link_dependencies selected from_key from deps topology = Ok topology'
    /\ (forall a b, a ∈ default ∅ (tp_dependents topology' !! b) <->
          a ∈ default ∅ (tp_dependents topology !! b)
          \/ (a = from_key /\ b ∈ map (fun d => coordinate_key (dd_pack d)) deps))
    /\ (forall e, e ∈ tp_edges topology' <-> e ∈ tp_edges topology \/ is_edge selected from deps e).
Proof.
  revert topology. induction deps as [|d deps IH]; intros topology Hall; simpl.
  - exists topology. split; [done|]. unfold is_edge. split; intros; set_solver.
  - destruct (Hall d) as [to Hto]; [by left|]. rewrite Hto.
    edestruct IH as (topology' & E & Hdep & Hedge); [intros d' Hd'; apply Hall; by right|].
    exists topology'. split; [exact E|]. split.
    + intros a b. rewrite Hdep. cbn [tp_dependents]. rewrite elem_of_entry_insert, elem_of_cons. naive_solver.
    + intros e. rewrite Hedge. cbn [tp_edges]. rewrite elem_of_app, list_elem_of_singleton. unfold is_edge.
      setoid_rewrite elem_of_cons. naive_solver.
Qed.

Definition selected_edge selected (keys : list string) (edge : DomainPackResolutionDependencyEdge) : Prop :=
  exists key candidate, key ∈ keys /\ selected !! key = Some candidate
    /\ is_edge selected (version_reference (candidate_identity (adm_candidate candidate))) (dependencies candidate) edge.

Lemma link_selected_spec selected keys topology :
  closed_selection selected ->
  exists topology', link_selected selected keys topology = Ok topology'
    /\ (forall a b, a ∈ default ∅ (tp_dependents topology' !! b) <->
          a ∈ default ∅ (tp_dependents topology !! b) \/ (a ∈ keys /\ depends selected a b))
    /\ (forall e, e ∈ tp_edges topology' <-> e ∈ tp_edges topology \/ selected_edge selected keys e).
Proof.
  intros Hcl. revert topology. induction keys as [|key keys IH]; intros topology; simpl.
  - exists topology. split; [done|]. unfold selected_edge. split; intros; set_solver.
  - destruct (selected !! key) as [candidate|] eqn:Ek.
    + destruct (link_dependencies_spec selected key (version_reference (candidate_identity (adm_candidate candidate)))
        (dependencies candidate) topology) as (topology1 & E1 & Hdep1 & Hedge1).
      { intros d Hd. apply (Hcl key). unfold depends. rewrite (selected_dep_keys_Some _ _ _ Ek).
        apply list_elem_of_fmap. eauto. }
      rewrite E1. destruct (IH topology1) as (topology' & E & Hdep & Hedge). exists topology'. split; [exact E|]. split.
      * intros a b. rewrite Hdep, Hdep1, elem_of_cons.
        assert (depends selected key b <-> b ∈ map (fun d => coordinate_key (dd_pack d)) (dependencies candidate)) as Hkb.
        { unfold depends. by rewrite (selected_dep_keys_Some _ _ _ Ek). }
        naive_solver.
      * intros e. rewrite Hedge, Hedge1. unfold selected_edge. setoid_rewrite elem_of_cons. naive_solver.
    + destruct (IH topology) as (topology' & E & Hdep & Hedge). exists topology'. split; [exact E|]. split.
      * intros a b. rewrite Hdep, elem_of_cons. split; [naive_solver|]. intros [?|[[->|?] Hd]]; [naive_solver| |naive_solver].
        apply depends_selected in Hd. rewrite Ek in Hd. by destruct Hd.
      * intros e. rewrite Hedge. unfold selected_edge. setoid_rewrite elem_of_cons. naive_solver.
Qed.

(** ** Kahn's loop *)

Lemma release_dependents_spec l count ready :
  NoDup l -> (forall c, c ∈ l -> count !! c <> Some 0) ->
  exists count' ready', release_dependents l count ready = Some (count', ready')
    /\ (forall y, count' !! y = if decide (y ∈ l) then pred <$> count !! y else count !! y)
    /\ (forall y, y ∈ ready' <-> y ∈ ready \/ (y ∈ l /\ count !! y = Some 1)).
Proof.
  revert count ready. induction l as [|c l IH]; intros count ready Hnd Hpos; simpl.
  - exists count, ready. split; [done|]. split; [done|]. set_solver.
  - apply NoDup_cons in Hnd as [Hc Hnd]. pose proof (Hpos c ltac:(by left)) as Hc0.
    destruct (count !! c) as [[|n]|] eqn:Ec; [done| |].
    + destruct (IH (<[c := n]> count) (if n =? 0 then {[c]} ∪ ready else ready) Hnd) as (count' & ready' & E & Hcount & Hready).
      { intros d Hd. rewrite lookup_insert_ne by set_solver. apply Hpos. by right. }
      exists count', ready'. split; [exact E|]. split.
      * intros y. rewrite Hcount, lookup_insert_if. destruct (decide (y = c)) as [->|Hyc].
        -- rewrite (decide_False (P := c ∈ l)) by done. rewrite decide_True by (by left). by rewrite Ec.
        -- apply decide_ext. rewrite elem_of_cons. naive_solver.
      * intros y. rewrite Hready, lookup_insert_if, elem_of_cons. destruct (decide (y = c)) as [->|Hyc].
        -- rewrite Ec. destruct n; simpl; rewrite ?elem_of_union, ?elem_of_singleton; naive_solver.
        -- destruct n; simpl; rewrite ?elem_of_union, ?elem_of_singleton; naive_solver.
    + destruct (IH count ready Hnd) as (count' & ready' & E & Hcount & Hready).
      { intros d Hd. apply Hpos. by right. }
      exists count', ready'. split; [exact E|]. split.
      * intros y. rewrite Hcount. destruct (decide (y = c)) as [->|Hyc].
        -- rewrite (decide_False (P := c ∈ l)) by done. rewrite decide_True by (by left). by rewrite Ec.
        -- apply decide_ext. rewrite elem_of_cons. naive_solver.
      * intros y. rewrite Hready, elem_of_cons. split; [naive_solver|]. intros [?|[[->|?] Hy]]; [naive_solver|congruence|naive_solver].
Qed.

Definition dep_set selected (key : string) : gset string := list_to_set (selected_dep_keys selected key).

(** Dependencies come first. *)
Definition in_order selected : list string -> Prop := precedes (fun x y => depends selected y x).

Record order_inv selected (count : gmap string nat) (ready : gset string) (order : list string) : Prop := {
  oi_count key : count !! key =
    (fun candidate => length (dep_keys candidate) - size (dep_set selected key ∩ list_to_set order)) <$> selected !! key;
  oi_nodup : NoDup order;
  oi_selected key : key ∈ order -> is_Some (selected !! key);
  oi_ready key : key ∈ ready <-> key ∉ order /\ count !! key = Some 0;
  oi_in_order : in_order selected order;
  oi_distinct key : key ∈ order -> NoDup (selected_dep_keys selected key)
}.

Lemma size_dep_set selected key : size (dep_set selected key) <= length (selected_dep_keys selected key).
Proof. apply size_list_to_set_le. Qed.

(** A counter at zero: the coordinates are distinct, and all of them are placed. *)
Lemma count_zero selected (order : list string) key :
  length (selected_dep_keys selected key) - size (dep_set selected key ∩ list_to_set order) = 0 ->
  NoDup (selected_dep_keys selected key) /\ forall b, depends selected key b -> b ∈ order.
Proof.
  intros Hz. pose proof (size_dep_set selected key) as Hle.
  assert (size (dep_set selected key ∩ list_to_set order) <= size (dep_set selected key)) as Hsub
    by (apply subseteq_size; set_solver).
  split.
  - apply size_list_to_set_eq. unfold dep_set in *. lia.
  - intros b Hb. assert (dep_set selected key ∩ list_to_set order ≡ dep_set selected key) as Heq.
    { apply set_subseteq_size_equiv; [set_solver | lia]. }
    assert (b ∈ dep_set selected key) as Hbs by (by apply elem_of_list_to_set). rewrite <- Heq in Hbs. set_solver.
Qed.

Lemma count_positive selected (order : list string) key b :
  depends selected key b -> b ∉ order ->
  size (dep_set selected key ∩ list_to_set order) < length (selected_dep_keys selected key).
Proof.
  intros Hd Hb. pose proof (size_dep_set selected key).
  enough (size (dep_set selected key ∩ list_to_set order) < size (dep_set selected key)) by lia.
  apply subset_size. split; [set_solver|]. intros Hs.
  assert (b ∈ dep_set selected key) as Hbs by (by apply elem_of_list_to_set). set_solver.
Qed.

Lemma size_placed selected (order : list string) key x :
  x ∉ order ->
  size (dep_set selected key ∩ list_to_set (order ++ [x]))
  = size (dep_set selected key ∩ list_to_set order) + (if decide (depends selected key x) then 1 else 0).
Proof.
  intros Hx. rewrite list_to_set_app_L. destruct (decide (depends selected key x)) as [Hd|Hd].
  - assert (x ∈ dep_set selected key) by (by apply elem_of_list_to_set).
    replace (dep_set selected key ∩ (list_to_set order ∪ list_to_set [x]))
      with ({[x]} ∪ dep_set selected key ∩ list_to_set order) by set_solver.
    rewrite size_union by set_solver. rewrite size_singleton. lia.
  - assert (x ∉ dep_set selected key) by (unfold dep_set; by rewrite elem_of_list_to_set).
    rewrite Nat.add_0_r. f_equal. set_solver.
Qed.

(** Nothing depends on a pack that is not placed yet and is itself placed. *)
Lemma placed_deps selected count ready order key b :
  order_inv selected count ready order -> key ∈ order -> depends selected key b -> b ∈ order.
Proof.
  intros Hi [j Hj]%list_elem_of_lookup Hd. destruct (oi_in_order _ _ _ _ Hi j b key Hj Hd) as (i & _ & Hb).
  by eapply list_elem_of_lookup_2.
Qed.

Lemma count_at selected count ready order key n :
  order_inv selected count ready order -> count !! key = Some n ->
  n = length (selected_dep_keys selected key) - size (dep_set selected key ∩ list_to_set order).
Proof.
  intros Hi. rewrite (oi_count _ _ _ _ Hi). destruct (selected !! key) as [c|] eqn:E; simpl; [|done].
  rewrite (selected_dep_keys_Some _ _ _ E). by intros [= <-].
Qed.

Lemma order_inv_step selected count ready order x count' ready' (l : list string) :
  order_inv selected count ready order -> x ∈ ready -> (forall y, y ∈ l <-> depends selected y x) ->
  (forall y, count' !! y = if decide (y ∈ l) then pred <$> count !! y else count !! y) ->
  (forall y, y ∈ ready' <-> y ∈ ready ∖ {[x]} \/ (y ∈ l /\ count !! y = Some 1)) ->
  order_inv selected count' ready' (order ++ [x]).
Proof.
  intros Hi Hx Hl Hcount Hready. apply (oi_ready _ _ _ _ Hi) in Hx as [Hxo Hx0].
  pose proof (count_at _ _ _ _ _ _ Hi Hx0) as Hz. symmetry in Hz. apply count_zero in Hz as [Hnd Hplaced].
  assert (forall y, y ∈ l -> count !! y <> Some 0) as Hpos.
  { intros y Hy Hy0. apply (count_at _ _ _ _ _ _ Hi) in Hy0. apply Hl in Hy.
    pose proof (count_positive _ _ _ _ Hy Hxo). lia. }
  split.
  - intros key. rewrite Hcount, (oi_count _ _ _ _ Hi). destruct (selected !! key) as [c|] eqn:E; simpl; [|by destruct (decide _)].
    rewrite (size_placed selected order key x Hxo). rewrite <- (selected_dep_keys_Some _ _ _ E).
    destruct (decide (key ∈ l)) as [Hk|Hk].
    + rewrite decide_True by (by apply Hl). simpl. f_equal. apply Hl in Hk. pose proof (count_positive _ _ _ _ Hk Hxo). lia.
    + rewrite decide_False by (by rewrite <- Hl). f_equal. lia.
  - apply NoDup_app. split_and!; [apply Hi| |apply NoDup_singleton]. intros y Hy ->%list_elem_of_singleton. done.
  - intros key. rewrite elem_of_app, list_elem_of_singleton. intros [Hk| ->]; [by apply Hi|].
    rewrite (oi_count _ _ _ _ Hi) in Hx0. by destruct (selected !! x).
  - intros y. rewrite Hready, Hcount, not_elem_of_app, list_elem_of_singleton, elem_of_difference, elem_of_singleton.
    rewrite (oi_ready _ _ _ _ Hi). destruct (decide (y ∈ l)) as [Hy|Hy].
    + specialize (Hpos y Hy). split.
      * intros [[[_ ?] _]|[_ ->]]; [done|]. split; [|done]. split; [|by intros ->; apply (Hpos)].
        intros Hyo. apply Hxo. eapply placed_deps; [exact Hi|exact Hyo|by apply Hl].
      * intros [_ Hp]. right. split; [done|]. destruct (count !! y) as [[|[|n]]|]; simpl in Hp; try done.
    + naive_solver.
  - apply precedes_snoc; [apply Hi|]. exact Hplaced.
  - intros key. rewrite elem_of_app, list_elem_of_singleton. intros [Hk| ->]; [by eapply oi_distinct | done].
Qed.

Lemma order_inv_length selected count ready order : order_inv selected count ready order -> length order <= size selected.
Proof.
  intros Hi. rewrite <- (size_list_to_set order (C := gset string)) by apply Hi. rewrite <- (size_dom (D := gset string) selected).
  apply subseteq_size. intros x. rewrite elem_of_list_to_set, elem_of_dom. apply Hi.
Qed.

Lemma order_loop_spec fuel selected dependents count ready order :
  (forall a b, a ∈ default ∅ (dependents !! b) <-> depends selected a b) ->
  order_inv selected count ready order -> size selected - length order < fuel ->
  exists count' order', order_loop fuel dependents count ready order = Some order'
    /\ order_inv selected count' ∅ order'.
Proof.
  intros Hdep. revert count ready order. induction fuel as [|fuel IH]; intros count ready order Hi Hfuel; [lia|].
  cbn [order_loop]. destruct (pop_first ready) as [[x ready1]|] eqn:Ep.
  - apply pop_first_Some in Ep as (Hx & -> & _).
    assert (forall y, y ∈ set_iter (default ∅ (dependents !! x)) <-> depends selected y x) as Hl.
    { intros y. by rewrite elem_of_set_iter, Hdep. }
    destruct (release_dependents_spec (set_iter (default ∅ (dependents !! x))) count (ready ∖ {[x]})) as (c' & r' & E & Hc & Hr).
    { apply NoDup_set_iter. }
    { intros y Hy Hy0. apply (oi_ready _ _ _ _ Hi) in Hx as [Hxo _]. apply (count_at _ _ _ _ _ _ Hi) in Hy0.
      apply Hl in Hy. pose proof (count_positive _ _ _ _ Hy Hxo). lia. }
    rewrite E. pose proof (order_inv_step _ _ _ _ _ _ _ _ Hi Hx Hl Hc Hr) as Hi'.
    apply IH; [done|]. pose proof (order_inv_length _ _ _ _ Hi'). rewrite length_app in *. simpl in *. lia.
  - apply pop_first_None in Ep as ->. by exists count, order.
Qed.

Lemma initial_order_inv selected : order_inv selected (initial_counts selected) (initially_ready (initial_counts selected)) [].
Proof.
  assert (forall key, initial_counts selected !! key = (fun c => length (dependencies c)) <$> selected !! key) as Hc
    by (intros; apply lookup_fmap).
  split; [| constructor | set_solver | | |set_solver].
  - intros key. rewrite Hc. destruct (selected !! key) as [c|]; simpl; [|done]. f_equal. unfold dep_keys. rewrite length_map.
    rewrite intersection_empty_r_L, size_empty. lia.
  - intros key. unfold initially_ready. rewrite elem_of_list_to_set, filter_In_iff, elem_of_map_keys, bool_decide_eq_true.
    split; [set_solver|]. intros [_ E]. rewrite E. eauto.
  - intros j x y Hj. by rewrite lookup_nil in Hj.
Qed.

Lemma tc_flip {A} (R : A -> A -> Prop) x y : tc R x y -> tc (fun a b => R b a) y x.
Proof. induction 1 as [x y Hxy|x y z Hxy _ IH]; [by apply tc_once | by eapply tc_r]. Qed.

(** No selected pack names a coordinate twice. *)
Definition distinct_dependencies selected : Prop := forall key, NoDup (selected_dep_keys selected key).

(** When every pack could be placed. *)
Lemma all_placed selected count order :
  closed_selection selected -> order_inv selected count ∅ order ->
  length order = size selected <-> acyclic_selection selected /\ distinct_dependencies selected.
Proof.
  intros Hcl Hi. assert (length order = size selected <-> forall key, is_Some (selected !! key) -> key ∈ order) as ->.
  { rewrite <- (size_list_to_set order (C := gset string)) by apply Hi. rewrite <- (size_dom (D := gset string) selected).
    assert (list_to_set order ⊆ dom selected) as Hsub by (intros x; rewrite elem_of_list_to_set, elem_of_dom; apply Hi).
    split.
    - intros Hs key Hk. apply elem_of_dom in Hk. rewrite <- (elem_of_list_to_set (C := gset string)).
      assert (list_to_set order ≡ dom selected) as -> by (apply set_subseteq_size_equiv; [done | lia]). done.
    - intros Hall. f_equal. apply set_eq. intros x. split; [apply Hsub|]. intros Hx%elem_of_dom. apply elem_of_list_to_set. by apply Hall. }
  split.
  - intros Hall. split.
    + intros key Htc. assert (is_Some (selected !! key)) as Hk by (inversion Htc; by eapply depends_selected).
      eapply (precedes_acyclic _ order key); [apply Hi|apply Hi|by apply Hall|]. by apply (tc_flip (depends selected)).
    + intros key. destruct (selected !! key) as [c|] eqn:E; [eapply oi_distinct; [exact Hi|apply Hall; eauto]|].
      unfold selected_dep_keys, selected_dependencies. rewrite E. constructor.
  - intros [Hac Hnd] key Hk. destruct (decide (key ∈ order)) as [|Hn]; [done|exfalso].
    assert ((dom selected ∖ list_to_set order : gset string) ≡ ∅) as He.
    { apply (acyclic_no_trap_dec (fun w z => depends selected z w)).
      - intros x Htc. apply (Hac x). by apply (tc_flip (fun a b => depends selected b a)).
      - intros z. rewrite elem_of_difference, elem_of_dom, elem_of_list_to_set. intros [[c Hc] Hz].
        assert (~ dep_set selected z ⊆ list_to_set order) as Hns.
        { intros Hs. cut (z ∈ (∅ : gset string)); [set_solver|]. apply (oi_ready _ _ _ _ Hi). split; [done|].
          rewrite (oi_count _ _ _ _ Hi), Hc. simpl. f_equal. rewrite <- (selected_dep_keys_Some _ _ _ Hc).
          replace (dep_set selected z ∩ list_to_set order) with (dep_set selected z) by set_solver.
          unfold dep_set. rewrite size_list_to_set by apply Hnd. lia. }
        destruct (set_choose_or_empty (dep_set selected z ∖ list_to_set order)) as [[w Hw]|Hw].
        2: { destruct Hns. intros y Hy. destruct (decide (y ∈ order)) as [|Hyo]; [by apply elem_of_list_to_set|].
             exfalso. apply (not_elem_of_empty (C := gset string) y). rewrite <- Hw, elem_of_difference, elem_of_list_to_set. done. }
        exists w. unfold dep_set in Hw. rewrite elem_of_difference, !elem_of_list_to_set in Hw. destruct Hw as [Hw Hwo].
        rewrite elem_of_difference, elem_of_dom, elem_of_list_to_set. split_and!; [by eapply Hcl | done | done]. }
    assert (key ∈ (dom selected ∖ list_to_set order : gset string)) as Hin
      by (rewrite elem_of_difference, elem_of_dom, elem_of_list_to_set; done).
    rewrite He in Hin. set_solver.
Qed.

(** The whole of [topological_edges_and_order] on a selection that contains its dependencies. *)
Lemma topological_spec selected :
  closed_selection selected ->
  exists edges order,
    (forall e, e ∈ edges <-> selected_edge selected (map_keys selected) e)
    /\ NoDup order /\ in_order selected order
    /\ topological_go selected = Some
         (if length order =? size selected then Ok (edges, order)
          else Err (failure DomainPackResolutionIssueCode_DependencyCycle "selection"
                 "selected dependency graph contains a cycle"))
    /\ (length order = size selected <-> acyclic_selection selected /\ distinct_dependencies selected)
    /\ (forall key, key ∈ order -> is_Some (selected !! key)).
Proof.
  intros Hcl. unfold topological_go.
  destruct (link_selected_spec selected (map_keys selected) {| tp_dependents := ∅; tp_edges := [] |} Hcl)
    as (topology & -> & Hdep & Hedge).
  destruct (order_loop_spec (S (size selected)) selected (tp_dependents topology) (initial_counts selected)
    (initially_ready (initial_counts selected)) []) as (count & order & E & Hi).
  { intros a b. rewrite Hdep. simpl. rewrite lookup_empty, elem_of_map_keys. simpl. split; [set_solver|].
    intros Hd. right. split; [by eapply depends_selected | done]. }
  { apply initial_order_inv. }
  { simpl. lia. }
  exists (sort_by edge_key (tp_edges topology)), order. rewrite E. split_and!.
  - intros e. rewrite sort_by_perm, Hedge. simpl. set_solver.
  - apply Hi.
  - apply Hi.
  - by destruct (length order =? size selected).
  - by eapply all_placed.
  - apply Hi.
Qed.

End order.
