(* ===== verification/PackSearch.v ===== *)
(** * The version search

    [search] of [domain_pack_resolution.rs] against its specification [Solution]: a selection that
    meets every constraint, contains a matching pack for every declared dependency, has no declared
    conflict and no cycle.  What the search returns is a solution without idle packs; when it fails
    and the state budget is not the reason there is no solution; among the solutions it returns the
    one preferred at every decision.  The fuel is the state budget and never decides. *)

From S2P Require Import Prelude RustStr BTree Traversal Ordering Contracts DomainPackContracts PackRegistry PackResolution PackOrder.

Local Open Scope nat_scope.

Section search.
Context `{Semver} `{Sha256} `{Canonical DomainPackResolutionCandidate}.
Implicit Types (context : SearchContext) (constraints : Constraints) (selected : Selection).

(** ** Specification *)

Definition meets (candidate : AdmittedCandidate) (requirement : VersionReq) (digest : option string) : Prop :=
  satisfies candidate [{| con_requirement := requirement; con_required_content_digest := digest |}] = true.

Record Solution context constraints selected : Prop := {
  sol_constraints key cs : constraints !! key = Some cs ->
    exists candidate, selected !! key = Some candidate /\ satisfies candidate cs = true;
  sol_admitted key candidate : selected !! key = Some candidate ->
    exists universe, sc_candidates context !! key = Some universe /\ candidate ∈ universe;
  sol_dependencies key candidate d : selected !! key = Some candidate -> d ∈ dependencies candidate ->
    exists requirement other, VersionReq_parse (dd_version_requirement d) = Some requirement
      /\ selected !! coordinate_key (dd_pack d) = Some other /\ meets other requirement (dd_required_content_digest d);
  sol_no_conflict key candidate : selected !! key = Some candidate -> conflicts_with_selected candidate selected = false;
  sol_acyclic : acyclic_selection selected
}.

(** Every selected pack is asked for by a constraint or by another selected pack. *)
Definition no_idle constraints selected : Prop :=
  forall key, is_Some (selected !! key) -> is_Some (constraints !! key) \/ exists other, depends selected other key.

(** ** Constraints *)

Lemma satisfies_app candidate l k : satisfies candidate (l ++ k) = satisfies candidate l && satisfies candidate k.
Proof. apply forallb_app. Qed.

Lemma satisfies_elem candidate l c : satisfies candidate l = true -> c ∈ l -> satisfies candidate [c] = true.
Proof.
  intros Hs Hc. unfold satisfies in *. rewrite forallb_In in Hs. simpl. rewrite andb_true_r. by apply Hs.
Qed.

Definition dep_constraint (d : DomainPackDependency) (requirement : VersionReq) : Constraint :=
  {| con_requirement := requirement; con_required_content_digest := dd_required_content_digest d |}.

(** [add_dependencies] appends one constraint per dependency, under its coordinate. *)
Lemma add_dependencies_spec deps constraints constraints' :
  add_dependencies deps constraints = Some constraints' ->
  (forall d, d ∈ deps -> exists requirement, VersionReq_parse (dd_version_requirement d) = Some requirement
     /\ dep_constraint d requirement ∈ default [] (constraints' !! coordinate_key (dd_pack d)))
  /\ (forall key, is_Some (constraints' !! key) <->
        is_Some (constraints !! key) \/ key ∈ map (fun d => coordinate_key (dd_pack d)) deps)
  /\ (forall key, exists added, default [] (constraints' !! key) = default [] (constraints !! key) ++ added
        /\ forall c, c ∈ added -> exists d requirement, d ∈ deps /\ coordinate_key (dd_pack d) = key
             /\ VersionReq_parse (dd_version_requirement d) = Some requirement /\ c = dep_constraint d requirement).
Proof.
  revert constraints. induction deps as [|d deps IH]; intros constraints; simpl.
  - intros [= <-]. split; [set_solver|]. split; [set_solver|]. intros key. exists []. rewrite app_nil_r. set_solver.
  - destruct (VersionReq_parse (dd_version_requirement d)) as [requirement|] eqn:Er; [|done].
    intros (Hin & Hdom & Happ)%IH.
    assert (forall key, default [] (entry_push (coordinate_key (dd_pack d)) (dep_constraint d requirement) constraints !! key)
      = default [] (constraints !! key) ++ (if decide (key = coordinate_key (dd_pack d)) then [dep_constraint d requirement] else [])) as Hpush.
    { intros key. unfold entry_push. rewrite lookup_insert_if. destruct (decide _) as [->|]; [done|]. by rewrite app_nil_r. }
    split_and!.
    + intros d'. rewrite elem_of_cons. intros [->|Hd']; [|by apply Hin]. exists requirement. split; [done|].
      destruct (Happ (coordinate_key (dd_pack d))) as (added & -> & _). unfold dep_constraint in Hpush at 1. rewrite Hpush.
      rewrite decide_True by done. set_solver.
    + intros key. rewrite Hdom, elem_of_cons. unfold entry_push. rewrite lookup_insert_if.
      destruct (decide _) as [->|]; [|naive_solver]. split; [|by eauto]. intros _. right. by left.
    + intros key. destruct (Happ key) as (added & Eq & Hadded). unfold dep_constraint in Hpush at 1. rewrite Hpush in Eq.
      eexists. rewrite Eq, <- app_assoc. split; [reflexivity|]. intros c. rewrite elem_of_app. intros [Hc|Hc].
      * destruct (decide _) as [->|]; [|by apply elem_of_nil in Hc]. apply list_elem_of_singleton in Hc as ->.
        exists d, requirement. split; [by left|done].
      * destruct (Hadded c Hc) as (d' & r' & Hd' & ?). exists d', r'. split; [by right|done].
Qed.

Lemma add_dependencies_total deps constraints :
  (forall d, d ∈ deps -> is_Some (VersionReq_parse (dd_version_requirement d))) -> is_Some (add_dependencies deps constraints).
Proof.
  revert constraints. induction deps as [|d deps IH]; intros constraints Hall; simpl; [by eauto|].
  destruct (Hall d) as [r ->]; [by left|]. apply IH. intros d' Hd'. apply Hall. by right.
Qed.

(** ** Conflicts *)

Lemma conflicts_mono candidate selected selected' :
  selected ⊆ selected' -> conflicts_with_selected candidate selected = true -> conflicts_with_selected candidate selected' = true.
Proof.
  intros Hs. unfold conflicts_with_selected. rewrite !existsb_In. intros (c & Hc & Hm). exists c. split; [done|].
  destruct (selected !! _) as [other|] eqn:E; [|done]. by rewrite (lookup_weaken _ _ _ _ E Hs).
Qed.

Lemma selected_conflict_false selected :
  selected_conflict selected = false <-> forall key candidate, selected !! key = Some candidate -> conflicts_with_selected candidate selected = false.
Proof.
  unfold selected_conflict. rewrite existsb_not_In. setoid_rewrite elem_of_map_values. naive_solver.
Qed.

Lemma no_conflict_mono selected selected' :
  selected ⊆ selected' -> (forall key c, selected' !! key = Some c -> conflicts_with_selected c selected' = false) ->
  selected_conflict selected = false.
Proof.
  intros Hs Hall. apply selected_conflict_false. intros key c Hc.
  destruct (conflicts_with_selected c selected) eqn:E; [|done].
  rewrite <- (Hall key c) by (by eapply lookup_weaken). symmetry. by eapply conflicts_mono.
Qed.

Lemma breaks_selected_false constraints selected :
  breaks_selected constraints selected = false <->
  forall key candidate cs, selected !! key = Some candidate -> constraints !! key = Some cs -> satisfies candidate cs = true.
Proof.
  unfold breaks_selected. rewrite existsb_not_In. setoid_rewrite elem_of_map_keys. split.
  - intros Hall key candidate cs Hc Hcs. specialize (Hall key ltac:(eauto)). rewrite Hc, Hcs in Hall. simpl in Hall.
    by destruct (satisfies _ _).
  - intros Hall key [candidate Hc]. rewrite Hc. destruct (constraints !! key) as [cs|] eqn:Hcs; [|done]. simpl.
    by rewrite (Hall _ _ _ Hc Hcs).
Qed.

(** ** What holds at every call *)

Record search_inv context constraints selected : Prop := {
  si_admitted key candidate : selected !! key = Some candidate ->
    exists universe, sc_candidates context !! key = Some universe /\ candidate ∈ universe;
  si_satisfies key candidate cs : selected !! key = Some candidate -> constraints !! key = Some cs -> satisfies candidate cs = true;
  si_dependencies key candidate d : selected !! key = Some candidate -> d ∈ dependencies candidate ->
    exists requirement, VersionReq_parse (dd_version_requirement d) = Some requirement
      /\ dep_constraint d requirement ∈ default [] (constraints !! coordinate_key (dd_pack d));
  si_constrained key : is_Some (selected !! key) -> is_Some (constraints !! key)
}.

Lemma search_inv_init context constraints : search_inv context constraints ∅.
Proof. split; intros *; rewrite lookup_empty; try done. Qed.

(** The constraints of [extend] are those before it and those of the new pack's dependencies. *)
Record extends constraints constraints' (choice : AdmittedCandidate) : Prop := {
  ex_deps d : d ∈ dependencies choice -> exists requirement, VersionReq_parse (dd_version_requirement d) = Some requirement
     /\ dep_constraint d requirement ∈ default [] (constraints' !! coordinate_key (dd_pack d));
  ex_dom key : is_Some (constraints' !! key) <-> is_Some (constraints !! key) \/ key ∈ dep_keys choice;
  ex_added key : exists added, default [] (constraints' !! key) = default [] (constraints !! key) ++ added
     /\ forall c, c ∈ added -> exists d requirement, d ∈ dependencies choice /\ coordinate_key (dd_pack d) = key
          /\ VersionReq_parse (dd_version_requirement d) = Some requirement /\ c = dep_constraint d requirement
}.

Lemma extend_ok key constraints selected choice constraints' selected' :
  extend key constraints selected choice = Ok (constraints', selected') ->
  selected' = <[key := choice]> selected /\ extends constraints constraints' choice
  /\ selected_conflict selected' = false /\ breaks_selected constraints' selected' = false.
Proof.
  unfold extend. destruct (conflicts_with_selected _ _); [done|]. destruct (selected_conflict _) eqn:Ec; [done|].
  destruct (add_dependencies _ _) as [c'|] eqn:Ea; [|done]. destruct (breaks_selected _ _) eqn:Eb; [done|].
  intros [= <- <-]. split; [done|]. apply add_dependencies_spec in Ea as (Hd & Hdom & Happ). split; [by split|done].
Qed.

Lemma next_key_Some constraints selected key :
  next_key constraints selected = Some key -> is_Some (constraints !! key) /\ selected !! key = None.
Proof.
  intros [Hin Hn]%find_some_In. apply elem_of_map_keys in Hin. split; [done|]. by destruct (selected !! key).
Qed.

Lemma next_key_None constraints selected :
  next_key constraints selected = None -> forall key, is_Some (constraints !! key) -> is_Some (selected !! key).
Proof.
  intros Hn key Hk. apply elem_of_map_keys in Hk. pose proof (proj1 (find_none_In _ _) Hn key Hk) as Hf.
  simpl in Hf. destruct (selected !! key); [by eauto | done].
Qed.

Lemma search_inv_extend context constraints selected key choice constraints' selected' universe :
  search_inv context constraints selected -> selected !! key = None -> is_Some (constraints !! key) ->
  sc_candidates context !! key = Some universe -> choice ∈ universe ->
  extend key constraints selected choice = Ok (constraints', selected') -> search_inv context constraints' selected'.
Proof.
  intros Hi Hk Hkc Hu Hch (-> & Hex & _ & Hbr)%extend_ok.
  assert (forall k c, c ∈ default [] (constraints !! k) -> c ∈ default [] (constraints' !! k)) as Hmono.
  { intros k c Hc. destruct (ex_added _ _ _ Hex k) as (added & -> & _). set_solver. }
  split.
  - intros k c. rewrite lookup_insert_if. destruct (decide _) as [->|]; [intros [= <-]; eauto | apply Hi].
  - by apply breaks_selected_false.
  - intros k c d. rewrite lookup_insert_if. destruct (decide _) as [->|].
    + intros [= <-]. apply Hex.
    + intros Hc Hd. destruct (si_dependencies _ _ _ Hi k c d Hc Hd) as (r & Hr & Hin). exists r. split; [done|]. by apply Hmono.
  - intros k. rewrite lookup_insert_if, (ex_dom _ _ _ Hex). destruct (decide _) as [->|]; [by left|]. left. by apply Hi.
Qed.

(** ** Soundness *)

(** Constraints only grow. *)
Definition stronger constraints constraints' : Prop :=
  forall key cs, constraints !! key = Some cs -> exists added, constraints' !! key = Some (cs ++ added).

Lemma extends_stronger constraints constraints' choice : extends constraints constraints' choice -> stronger constraints constraints'.
Proof.
  intros Hex key cs Hcs. destruct (ex_added _ _ _ Hex key) as (added & E & _). exists added.
  destruct (proj2 (ex_dom _ _ _ Hex key)) as [cs' Hcs']; [left; by eauto|]. rewrite Hcs, Hcs' in E. simpl in E. by rewrite <- E.
Qed.

(** The needs of the result of a call: its constraints, or a pack of the result. *)
Definition needed constraints selected : Prop :=
  forall key, is_Some (constraints !! key) -> is_Some (selected !! key).

Lemma try_choices_spec (recur : Constraints -> Selection -> N -> N * SearchResult)
    context key constraints selected choices last states (P : Selection -> Prop) states' solution :
  try_choices recur context key constraints selected choices last states = (states', Ok solution) ->
  (forall choice constraints' selected' st st' sol, choice ∈ choices ->
     extend key constraints selected choice = Ok (constraints', selected') ->
     recur constraints' selected' st = (st', Ok sol) -> P sol) -> P solution.
Proof.
  revert last states. induction choices as [|choice rest IH]; intros last states; simpl; [done|].
  intros Ht Hall. assert (forall c cs' s' st st' sol, c ∈ rest -> extend key constraints selected c = Ok (cs', s') ->
    recur cs' s' st = (st', Ok sol) -> P sol) as Hrest by (intros; eapply Hall; eauto; by right).
  destruct (extend key constraints selected choice) as [[constraints1 selected1]|f] eqn:Ee; [|by eapply IH].
  destruct (recur constraints1 selected1 states) as [st [sol|f]] eqn:Er.
  - simplify_eq. eapply Hall; [by left|exact Ee|exact Er].
  - destruct (sf_resource_exhausted f); [done|]. by eapply IH.
Qed.

Lemma search_leaf context constraints selected :
  search_inv context constraints selected -> next_key constraints selected = None ->
  selected_conflict selected = false -> graph_has_cycle selected = false -> Solution context constraints selected.
Proof.
  intros Hi Hn Hc Hg. pose proof (next_key_None _ _ Hn) as Hall. split.
  - intros key cs Hcs. destruct (Hall key) as [c Hck]; [by eauto|]. exists c. split; [done|]. by eapply si_satisfies.
  - apply Hi.
  - intros key c d Hk Hd. destruct (si_dependencies _ _ _ Hi key c d Hk Hd) as (r & Hr & Hin).
    destruct (constraints !! coordinate_key (dd_pack d)) as [cs|] eqn:Ecs; [|by apply elem_of_nil in Hin].
    destruct (Hall (coordinate_key (dd_pack d))) as [other Ho]; [by eauto|]. exists r, other. split_and!; [done|done|].
    eapply satisfies_elem; [|exact Hin]. by eapply si_satisfies.
  - by apply selected_conflict_false.
  - by apply graph_has_cycle_spec.
Qed.

Lemma solution_weaken context constraints constraints' selected :
  stronger constraints constraints' -> Solution context constraints' selected -> Solution context constraints selected.
Proof.
  intros Hst Hs. split; [|apply Hs..]. intros key cs Hcs. destruct (Hst key cs Hcs) as (added & Hcs').
  destruct (sol_constraints _ _ _ Hs key _ Hcs') as (c & Hc & Hsat). exists c. split; [done|].
  rewrite satisfies_app in Hsat. by bool_simpl.
Qed.

(** What a successful call returns extends what it was given. *)
Lemma search_go_sound fuel context constraints selected states states' solution :
  search_inv context constraints selected ->
  search_go fuel context constraints selected states = (states', Ok solution) ->
  Solution context constraints solution /\ selected ⊆ solution
  /\ forall key, is_Some (solution !! key) -> is_Some (constraints !! key) \/ exists other, depends solution other key.
Proof.
  revert constraints selected states states' solution.
  induction fuel as [|fuel IH]; intros constraints selected states states' solution Hi; cbn [search_go]; [done|].
  destruct (_ <=? _)%N; [done|]. destruct (next_key constraints selected) as [key|] eqn:En.
  - destruct (sc_candidates context !! key) as [universe|] eqn:Eu; [|done].
    destruct (is_nil _); [done|]. intros Ht. apply next_key_Some in En as [Hkc Hk].
    pattern solution. eapply try_choices_spec; [exact Ht|]. clear Ht solution states'.
    intros choice constraints' selected' st st' sol Hch He Hr.
    unfold order_choices in Hch. rewrite elem_of_sort_with, filter_In_iff in Hch. destruct Hch as [Hch _].
    pose proof (search_inv_extend _ _ _ _ _ _ _ _ Hi Hk Hkc Eu Hch He) as Hi'.
    destruct (IH _ _ _ _ _ Hi' Hr) as (Hs & Hsub & Hneed). apply extend_ok in He as (-> & Hex & _).
    assert (sol !! key = Some choice) as Hsk by (eapply lookup_weaken; [|exact Hsub]; by rewrite lookup_insert_eq).
    split_and!.
    + eapply solution_weaken; [|exact Hs]. by eapply extends_stronger.
    + etransitivity; [|exact Hsub]. by apply insert_subseteq.
    + intros k Hks. destruct (Hneed k Hks) as [[|Hd]%(ex_dom _ _ _ Hex)|]; [by left| |by right].
      right. exists key. unfold depends. by rewrite (selected_dep_keys_Some _ _ _ Hsk).
  - destruct (selected_conflict selected) eqn:Ec; [done|]. destruct (graph_has_cycle selected) eqn:Eg; [done|].
    intros [= _ <-]. split_and!; [by apply search_leaf|done|]. intros key Hk. left. by eapply si_constrained.
Qed.

(** ** Completeness *)

(** A solution that agrees with the selection made so far passes every check of [extend]. *)
Lemma extend_total context constraints selected key candidate solution :
  Solution context constraints solution -> selected ⊆ solution -> solution !! key = Some candidate ->
  exists constraints', extend key constraints selected candidate = Ok (constraints', <[key := candidate]> selected)
    /\ Solution context constraints' solution /\ <[key := candidate]> selected ⊆ solution.
Proof.
  intros Hs Hsub Hk. assert (<[key := candidate]> selected ⊆ solution) as Hsub'.
  { apply map_subseteq_spec. intros k c. rewrite lookup_insert_if.
    destruct (decide _) as [->|]; [by intros [= <-] | intros; by eapply lookup_weaken]. }
  unfold extend. destruct (conflicts_with_selected candidate selected) eqn:Ec.
  { pose proof (conflicts_mono _ _ _ Hsub Ec) as Hc. rewrite (sol_no_conflict _ _ _ Hs _ _ Hk) in Hc. done. }
  rewrite (no_conflict_mono _ _ Hsub' (sol_no_conflict _ _ _ Hs)).
  destruct (add_dependencies_total (dependencies candidate) constraints) as [constraints' Ea].
  { intros d Hd. destruct (sol_dependencies _ _ _ Hs _ _ _ Hk Hd) as (r & _ & -> & _). by eauto. }
  rewrite Ea. apply add_dependencies_spec in Ea as (_ & Hdom & Happ).
  assert (Solution context constraints' solution) as Hs'.
  { split; [|apply Hs..]. intros k cs Hcs. destruct (Happ k) as (added & E & Hadded). rewrite Hcs in E. simpl in E. subst cs.
    assert (exists c, solution !! k = Some c /\ satisfies c (default [] (constraints !! k)) = true) as (c & Hc & Hsat).
    { destruct (constraints !! k) as [old|] eqn:Eo; [by eapply sol_constraints|]. simpl.
      assert (k ∈ map (fun d => coordinate_key (dd_pack d)) (dependencies candidate)) as (d & -> & Hd)%list_elem_of_fmap.
      { destruct (proj1 (Hdom k)) as [[? ?]|]; [by eauto|congruence|done]. }
      destruct (sol_dependencies _ _ _ Hs _ _ _ Hk Hd) as (_ & other & _ & Ho & _). by eauto. }
    exists c. split; [done|]. rewrite satisfies_app, Hsat. simpl. apply forallb_In. intros x Hx.
    destruct (Hadded x Hx) as (d & r & Hd & Ekey & Er & ->).
    destruct (sol_dependencies _ _ _ Hs _ _ _ Hk Hd) as (r' & other & Er' & Ho & Hm). rewrite Ekey in Ho. simplify_eq.
    unfold meets in Hm. simpl in Hm. by rewrite andb_true_r in Hm. }
  exists constraints'. assert (breaks_selected constraints' (<[key := candidate]> selected) = false) as ->; [|done].
  apply breaks_selected_false. intros k c cs Hc Hcs. apply (lookup_weaken _ _ _ _ Hc) in Hsub'.
  destruct (sol_constraints _ _ _ Hs' _ _ Hcs) as (c' & Hc' & Hsat). congruence.
Qed.

Lemma try_choices_fails (recur : Constraints -> Selection -> N -> N * SearchResult)
    context key constraints selected choices last states states' f :
  try_choices recur context key constraints selected choices last states = (states', Err f) ->
  sf_resource_exhausted f = false ->
  forall choice constraints' selected', choice ∈ choices ->
    extend key constraints selected choice = Ok (constraints', selected') ->
    exists st st' g, recur constraints' selected' st = (st', Err g) /\ sf_resource_exhausted g = false.
Proof.
  revert last states. induction choices as [|choice rest IH]; intros last states; simpl; [set_solver|].
  destruct (extend key constraints selected choice) as [[constraints1 selected1]|g] eqn:Ee.
  - destruct (recur constraints1 selected1 states) as [st [sol|g]] eqn:Er; [done|].
    destruct (sf_resource_exhausted g) eqn:Eg.
    + intros [= _ <-]. congruence.
    + intros Ht Hf c constraints' selected' [->|Hc]%elem_of_cons He.
      * simplify_eq. rewrite He in Ee. simplify_eq. by eauto 6.
      * by eapply IH.
  - intros Ht Hf c constraints' selected' [->|Hc]%elem_of_cons He; [congruence|]. by eapply IH.
Qed.

Lemma search_go_complete fuel context constraints selected states states' f :
  search_go fuel context constraints selected states = (states', Err f) -> sf_resource_exhausted f = false ->
  forall solution, Solution context constraints solution -> selected ⊆ solution -> False.
Proof.
  revert constraints selected states states' f.
  induction fuel as [|fuel IH]; intros constraints selected states states' f; cbn [search_go].
  { intros [= _ <-]. done. }
  destruct (_ <=? _)%N; [intros [= _ <-]; done|]. destruct (next_key constraints selected) as [key|] eqn:En.
  - apply next_key_Some in En as [[cs Hcs] Hk]. intros Hr Hf solution Hs Hsub.
    destruct (sol_constraints _ _ _ Hs key cs Hcs) as (candidate & Hc & Hsat).
    destruct (sol_admitted _ _ _ Hs key candidate Hc) as (universe & Hu & Hin). rewrite Hu, Hcs in Hr. simpl in Hr.
    assert (candidate ∈ List.filter (fun c => satisfies c cs) universe) as Hch by (by apply filter_In_iff).
    destruct (is_nil _) eqn:Enil; [by destruct (List.filter _ _); [apply elem_of_nil in Hch|]|].
    destruct (extend_total _ _ _ _ _ _ Hs Hsub Hc) as (constraints' & He & Hs' & Hsub').
    edestruct (try_choices_fails _ _ _ _ _ _ _ _ _ _ Hr Hf candidate) as (st & st' & g & Hg & Hgf);
      [by apply elem_of_sort_with|exact He|]. by eapply IH.
  - destruct (selected_conflict selected) eqn:Ec.
    { intros _ _ solution Hs Hsub. rewrite (no_conflict_mono _ _ Hsub (sol_no_conflict _ _ _ Hs)) in Ec. done. }
    destruct (graph_has_cycle selected) eqn:Eg; [|done].
    intros _ _ solution Hs Hsub. assert (graph_has_cycle selected = false) as Hg; [|congruence].
    apply graph_has_cycle_spec. eapply acyclic_mono; [exact Hsub|]. apply Hs.
Qed.

(** ** Preference *)

(** At every decision the selection takes the candidate that [order_choices] puts first among those of
    the solutions that agree with it so far: the locked version, then the highest one. *)
Inductive Preferred context : Constraints -> Selection -> Selection -> Prop :=
| Preferred_done constraints selected : next_key constraints selected = None -> Preferred context constraints selected selected
| Preferred_step constraints selected key choice constraints' selected' solution :
    next_key constraints selected = Some key -> solution !! key = Some choice ->
    extend key constraints selected choice = Ok (constraints', selected') ->
    (forall other candidate, Solution context constraints other -> selected ⊆ other -> other !! key = Some candidate ->
       choice_cmp context key candidate choice <> Lt) ->
    Preferred context constraints' selected' solution ->
    Preferred context constraints selected solution.

Lemma try_choices_first (recur : Constraints -> Selection -> N -> N * SearchResult)
    context key constraints selected choices last states states' solution :
  try_choices recur context key constraints selected choices last states = (states', Ok solution) ->
  exists before choice after constraints' selected' st,
    choices = before ++ choice :: after
    /\ extend key constraints selected choice = Ok (constraints', selected')
    /\ recur constraints' selected' st = (states', Ok solution)
    /\ forall c constraints1 selected1, c ∈ before -> extend key constraints selected c = Ok (constraints1, selected1) ->
         exists st st' g, recur constraints1 selected1 st = (st', Err g) /\ sf_resource_exhausted g = false.
Proof.
  revert last states. induction choices as [|choice rest IH]; intros last states; simpl; [done|].
  destruct (extend key constraints selected choice) as [[constraints1 selected1]|g] eqn:Ee.
  - destruct (recur constraints1 selected1 states) as [st [sol|g]] eqn:Er.
    + intros [= <- <-]. exists [], choice, rest, constraints1, selected1, states. split_and!; [done..|]. set_solver.
    + destruct (sf_resource_exhausted g) eqn:Eg; [done|].
      intros (before & c & after & constraints' & selected' & st0 & -> & He & Hr & Hb)%IH.
      exists (choice :: before), c, after, constraints', selected', st0. split_and!; [done..|].
      intros c' constraints2 selected2 [->|Hc]%elem_of_cons He'; [|by eapply Hb].
      rewrite He' in Ee. simplify_eq. by eauto 6.
  - intros (before & c & after & constraints' & selected' & st0 & -> & He & Hr & Hb)%IH.
    exists (choice :: before), c, after, constraints', selected', st0. split_and!; [done..|].
    intros c' constraints2 selected2 [->|Hc]%elem_of_cons He'; [congruence | by eapply Hb].
Qed.

Context `{!SemverLaws}.

Lemma choice_cmp_lawful context key : lawful_cmp (choice_cmp context key).
Proof.
  apply lawful_then; [apply lawful_rev, lawful_bool|]. apply lawful_then; [|apply lawful_string].
  apply lawful_rev. apply lawful_on; [apply Version_cmp_lawful | apply (cmp_trans _ Version_cmp_lawful)].
Qed.

(** Whatever is preferred to an element of the ordered choices stands before it. *)
Lemma order_choices_before context key choices before choice after candidate :
  order_choices context key choices = before ++ choice :: after -> candidate ∈ choices ->
  choice_cmp context key candidate choice = Lt -> candidate ∈ before.
Proof.
  intros E Hc Hlt. pose proof (choice_cmp_lawful context key) as Hl.
  assert (candidate ∈ before ++ choice :: after) as Hin by (rewrite <- E; by apply elem_of_sort_with).
  apply elem_of_app in Hin as [|Hin]; [done|exfalso].
  assert (choice_cmp context key choice candidate = Gt) as Hgt by (rewrite (cmp_antisym _ Hl candidate choice), Hlt; done).
  apply elem_of_cons in Hin as [->|Hin]; [congruence|].
  pose proof (sort_with_strongly_sorted (le_of (choice_cmp context key)) choices (lawful_total _ Hl) (lawful_trans _ Hl)) as Hs.
  unfold order_choices in E. rewrite E in Hs. apply StronglySorted_app in Hs as (_ & _ & Hs). inversion Hs as [|? ? _ Hall]; subst.
  rewrite Forall_forall in Hall. specialize (Hall _ Hin). unfold Le, le_of in Hall. by rewrite Hgt in Hall.
Qed.

Lemma search_go_preferred fuel context constraints selected states states' solution :
  search_inv context constraints selected ->
  search_go fuel context constraints selected states = (states', Ok solution) ->
  Preferred context constraints selected solution.
Proof.
  revert constraints selected states states' solution.
  induction fuel as [|fuel IH]; intros constraints selected states states' solution Hi; cbn [search_go]; [done|].
  destruct (_ <=? _)%N; [done|]. destruct (next_key constraints selected) as [key|] eqn:En.
  - destruct (sc_candidates context !! key) as [universe|] eqn:Eu; [|done].
    destruct (is_nil _) eqn:Enil; [done|].
    intros (before & choice & after & constraints' & selected' & st & Eq & He & Hr & Hb)%try_choices_first.
    pose proof (next_key_Some _ _ _ En) as [[cs Hcs] Hk]. rewrite Hcs in Eq. simpl in Eq.
    assert (choice ∈ universe) as Hch.
    { assert (choice ∈ before ++ choice :: after) as Hin by set_solver. rewrite <- Eq in Hin.
      apply elem_of_sort_with, filter_In_iff in Hin. naive_solver. }
    pose proof (search_inv_extend _ _ _ _ _ _ _ _ Hi Hk ltac:(eauto) Eu Hch He) as Hi'.
    destruct (search_go_sound _ _ _ _ _ _ _ Hi' Hr) as (_ & Hsub & _).
    pose proof (extend_ok _ _ _ _ _ _ He) as (Esel & _).
    eapply Preferred_step; [exact En| |exact He| |by eapply IH].
    { eapply lookup_weaken; [|exact Hsub]. rewrite Esel. by rewrite lookup_insert_eq. }
    intros other candidate Hs Hso Hc Hlt.
    destruct (sol_constraints _ _ _ Hs key cs Hcs) as (c' & Hc' & Hsat). simplify_eq.
    destruct (sol_admitted _ _ _ Hs key _ Hc) as (u & Hu & Hin). simplify_eq.
    destruct (extend_total _ _ _ _ _ _ Hs Hso Hc) as (constraints1 & He1 & Hs1 & Hsub1).
    edestruct (Hb candidate) as (st1 & st2 & g & Hg & Hgf); [|exact He1|by eapply search_go_complete].
    eapply order_choices_before; [exact Eq| |exact Hlt]. by apply filter_In_iff.
  - destruct (selected_conflict selected); [done|]. destruct (graph_has_cycle selected); [done|].
    intros [= _ <-]. by apply Preferred_done.
Qed.

End search.

(** ** Termination *)

Section budget.
Context `{Semver} `{Sha256} `{Canonical DomainPackResolutionCandidate}.
Implicit Types (context : SearchContext) (constraints : Constraints) (selected : Selection).

Notation budget := MAX_DOMAIN_PACK_RESOLUTION_SEARCH_STATES.

Lemma try_choices_states (recur : Constraints -> Selection -> N -> N * SearchResult)
    context key constraints selected choices last states :
  (forall cs sel st, st <= fst (recur cs sel st) <= N.max budget st)%N ->
  (states <= fst (try_choices recur context key constraints selected choices last states) <= N.max budget states)%N.
Proof.
  intros Hrec. revert last states. induction choices as [|choice rest IH]; intros last states; simpl; [lia|].
  destruct (extend key constraints selected choice) as [[constraints1 selected1]|g]; [|apply IH].
  specialize (Hrec constraints1 selected1 states). destruct (recur constraints1 selected1 states) as [st [sol|g]]; simpl in *; [lia|].
  destruct (sf_resource_exhausted g); simpl; [lia|]. specialize (IH (Some g) st). lia.
Qed.

Lemma search_go_states fuel context constraints selected states :
  (states <= fst (search_go fuel context constraints selected states) <= N.max budget states)%N.
Proof.
  revert constraints selected states. induction fuel as [|fuel IH]; intros constraints selected states; cbn [search_go]; [simpl; lia|].
  destruct (budget <=? states)%N eqn:Eb; [simpl; lia|]. apply N.leb_gt in Eb.
  destruct (next_key constraints selected) as [key|].
  - destruct (sc_candidates context !! key) as [universe|]; [|simpl; lia]. destruct (is_nil _); [simpl; lia|].
    pose proof (try_choices_states (search_go fuel context) context key constraints selected
      (order_choices context key (List.filter (fun c => satisfies c (default [] (constraints !! key))) universe)) None (states + 1)%N IH).
    lia.
  - destruct (selected_conflict selected); [simpl; lia|]. destruct (graph_has_cycle selected); simpl; lia.
Qed.

Lemma try_choices_ext (recur recur' : Constraints -> Selection -> N -> N * SearchResult)
    context key constraints selected choices last states :
  (forall cs sel st, (st <= fst (recur cs sel st))%N) ->
  (forall cs sel st, (states <= st)%N -> recur cs sel st = recur' cs sel st) ->
  try_choices recur context key constraints selected choices last states
  = try_choices recur' context key constraints selected choices last states.
Proof.
  intros Hmono. revert last states. induction choices as [|choice rest IH]; intros last states Heq; simpl; [done|].
  destruct (extend key constraints selected choice) as [[constraints1 selected1]|g]; [|by apply IH].
  rewrite <- Heq by lia. specialize (Hmono constraints1 selected1 states).
  destruct (recur constraints1 selected1 states) as [st [sol|g]]; [done|]. destruct (sf_resource_exhausted g); [done|].
  apply IH. intros. apply Heq. simpl in Hmono. lia.
Qed.

(** Fuel beyond the states that are left does not matter. *)
Lemma search_go_fuel fuel fuel' context constraints selected states :
  N.to_nat budget - N.to_nat states <= fuel -> N.to_nat budget - N.to_nat states <= fuel' ->
  search_go fuel context constraints selected states = search_go fuel' context constraints selected states.
Proof.
  revert fuel' constraints selected states. induction fuel as [|fuel IH]; intros fuel' constraints selected states Hf Hf'.
  - destruct fuel' as [|fuel']; [done|]. cbn [search_go]. destruct (N.leb_spec budget states); [done|lia].
  - cbn [search_go]. destruct (N.leb_spec budget states) as [Hb|Hb].
    + destruct fuel' as [|fuel']; [done|]. cbn [search_go]. by rewrite (proj2 (N.leb_le _ _) Hb).
    + destruct fuel' as [|fuel']; [lia|]. cbn [search_go]. rewrite (proj2 (N.leb_gt _ _) Hb).
      destruct (next_key constraints selected) as [key|]; [|done]. destruct (sc_candidates context !! key); [|done].
      destruct (is_nil _); [done|]. apply try_choices_ext; [intros; apply search_go_states|].
      intros cs sel st Hst. apply IH; lia.
Qed.

(** The definition satisfies the recursive equation of the source, without fuel. *)
Lemma search_unfold context constraints selected states :
  search context constraints selected states =
  if (budget <=? states)%N then (states, Err states_exhausted)
  else match next_key constraints selected with
       | Some key =>
           match sc_candidates context !! key with
           | None => ((states + 1)%N, Err (missing_failure context key))
           | Some universe =>
               let choices := List.filter (fun c => satisfies c (default [] (constraints !! key))) universe in
               if is_nil choices then ((states + 1)%N, Err (missing_failure context key))
               else try_choices (search context) context key constraints selected (order_choices context key choices) None (states + 1)%N
           end
       | None =>
           if selected_conflict selected
           then ((states + 1)%N, Err (failure DomainPackResolutionIssueCode_DeclaredConflict "selection"
                   "selected graph contains a declared conflict"))
           else if graph_has_cycle selected
           then ((states + 1)%N, Err (failure DomainPackResolutionIssueCode_DependencyCycle "selection"
                   "selected dependency graph contains a cycle"))
           else ((states + 1)%N, Ok selected)
       end.
Proof.
  unfold search at 1. rewrite (search_go_fuel _ (S (N.to_nat budget - N.to_nat states))) by lia. cbn [search_go].
  destruct (N.leb_spec budget states) as [Hb|Hb]; [done|]. destruct (next_key constraints selected) as [key|]; [|done].
  destruct (sc_candidates context !! key); [|done]. cbv zeta. destruct (is_nil _); [done|].
  apply try_choices_ext; [intros; apply search_go_states|]. intros cs sel st Hst. apply search_go_fuel; lia.
Qed.

End budget.
