(* ===== verification/PackSpec.v ===== *)
(** * What a resolution guarantees

    The theorems about [resolve_domain_packs] as a whole, stated on its output: where a selected
    package comes from, that packages come after what they depend on, that a solution is found when
    there is one, and what the search promises on its own. *)

From S2P Require Import Prelude RustStr BTree Traversal Ordering Contracts AssuranceContracts WorkflowContracts DomainPackContracts PackRegistry PackResolution PackOrder PackSearch.

Local Open Scope nat_scope.

(** ** Coordinates *)

Definition colons (s : string) : nat := length (List.filter (fun c => bool_decide (c = ":"%char)) (to_bytes s)).

Lemma colons_app s t : colons (s +:+ t) = colons s + colons t.
Proof. unfold colons. by rewrite to_bytes_app, List.filter_app, length_app. Qed.

Lemma colons_zero s : colons s = 0 <-> ":"%char ∉ to_bytes s.
Proof.
  unfold colons. rewrite length_zero_iff_nil. split.
  - intros E Hin. assert (":"%char ∈ List.filter (fun c => bool_decide (c = ":"%char)) (to_bytes s)) as H.
    { apply filter_In_iff. split; [done|]. by apply bool_decide_eq_true. }
    rewrite E in H. by apply elem_of_nil in H.
  - intros Hn. apply filter_none. intros c Hc. apply bool_decide_eq_false. by intros ->.
Qed.

Lemma valid_id_no_colon s : valid_id s = true -> colons s = 0.
Proof.
  unfold valid_id. intros Hv. bool_simpl. apply colons_zero. intros Hin.
  match goal with H : forallb valid_id_byte _ = true |- _ => rewrite forallb_In in H; specialize (H _ Hin) end. done.
Qed.

Lemma split_first {A} (c : A) l1 r1 l2 r2 : c ∉ l1 -> c ∉ l2 -> l1 ++ c :: r1 = l2 ++ c :: r2 -> l1 = l2 /\ r1 = r2.
Proof.
  revert l2. induction l1 as [|a l1 IH]; intros [|b l2] H1 H2; simpl.
  - by intros [= ->].
  - intros [= -> _]. set_solver.
  - intros [= -> _]. set_solver.
  - intros [= -> E]. apply IH in E as [-> ->]; [done|set_solver|set_solver].
Qed.

(** A coordinate key names one publisher and one pack, if the ids of one side are valid. *)
Lemma coordinate_key_inj publisher name publisher' name' :
  valid_id publisher = true -> valid_id name = true ->
  coordinate_key_parts publisher name = coordinate_key_parts publisher' name' -> publisher = publisher' /\ name = name'.
Proof.
  intros Hp%valid_id_no_colon Hn%valid_id_no_colon E. unfold coordinate_key_parts in E.
  assert (colons publisher' = 0 /\ colons name' = 0) as [Hp' Hn'].
  { apply (f_equal colons) in E. rewrite !colons_app in E. change (colons "::") with 2 in E. lia. }
  apply (f_equal to_bytes) in E. rewrite !to_bytes_app in E. change (to_bytes "::") with [":"%char; ":"%char] in E. simpl in E.
  apply split_first in E as [E1 [= E2]]; [|by apply colons_zero..].
  split; [by rewrite <- (of_to_bytes publisher), <- (of_to_bytes publisher'), E1
         |by rewrite <- (of_to_bytes name), <- (of_to_bytes name'), E2].
Qed.

(** ** Issues and reasons *)

Lemma issue_not_nil issues code path message : issue issues code path message <> [].
Proof.
  unfold issue. destruct (_ <? _) eqn:E; [by destruct issues|]. intros ->. vm_compute in E. done.
Qed.

Lemma report_if_nil bad code path message issues : report_if bad code path message issues = [] <-> bad = false /\ issues = [].
Proof. unfold report_if. destruct bad; [|naive_solver]. split; [by intros ?%issue_not_nil | naive_solver]. Qed.

Lemma code_insert_not_nil code reasons : code_insert code reasons <> [].
Proof. destruct reasons as [|d r]; simpl; [done|]. destruct (_ <? _)%Z; [done|]. by destruct (bool_decide _). Qed.

Lemma insert_if_nil bad code reasons : insert_if bad code reasons = [] <-> bad = false /\ reasons = [].
Proof. unfold insert_if. destruct bad; [|naive_solver]. split; [by intros ?%code_insert_not_nil | naive_solver]. Qed.

Lemma finish_issues_nil issues : finish_issues issues = [] <-> issues = [].
Proof.
  unfold finish_issues. split; [|by intros ->]. destruct (vec_dedup _) as [|i l] eqn:E; [|done]. intros _.
  apply vec_dedup_nil, sort_with_nil in E. done.
Qed.

Lemma fold_issues_nil {A} (f : Issues -> A -> Issues) (P : A -> Prop) l issues :
  (forall x issues, f issues x = [] -> P x /\ issues = []) -> foldl f issues l = [] -> issues = [] /\ Forall P l.
Proof.
  intros Hf. revert issues. induction l as [|x l IH]; intros issues; simpl; [naive_solver|].
  intros [E Hl]%IH. apply Hf in E as [Hx ->]. split; [done | by constructor].
Qed.

Section spec.
Context `{Semver} `{Sha256} `{Canonical DomainPackResolutionCandidate} `{Canonical DomainPackExactLockPayload}.
Implicit Types (input : DomainPackResolutionRequest) (selected : Selection).

(** ** Validation *)

Lemma validate_root_nil index root issues :
  validate_root index root issues = [] ->
  (is_Some (VersionReq_parse (rr_version_requirement root)) /\ valid_coordinate (rr_pack root) = true) /\ issues = [].
Proof.
  unfold validate_root. rewrite !report_if_nil. intros (_ & Hr & Hc & ->). split; [|done]. split.
  - by destruct (VersionReq_parse _); [eauto|].
  - by apply negb_false_iff.
Qed.

Lemma validate_current_lock_nil request issues : validate_current_lock request issues = [] -> issues = [].
Proof.
  unfold validate_current_lock. destruct (rq_current_lock _); [|done]. rewrite !report_if_nil. naive_solver.
Qed.

(** A request without issues has roots that parse and name valid coordinates. *)
Lemma validate_request_nil request registry :
  validate_request_and_registry request registry [] = [] ->
  Forall (fun root => is_Some (VersionReq_parse (rr_version_requirement root)) /\ valid_coordinate (rr_pack root) = true)
    (rq_roots (rqd_domain_pack_resolution_request request)).
Proof.
  unfold validate_request_and_registry. intros Hv%validate_current_lock_nil.
  apply (fold_issues_nil _ (fun '(_, root) =>
    is_Some (VersionReq_parse (rr_version_requirement root)) /\ valid_coordinate (rr_pack root) = true)) in Hv as [_ Hv].
  - apply Forall_lookup. intros i root Hi. apply (proj1 (Forall_lookup _ _) Hv i (i, root)). by rewrite list_lookup_imap, Hi.
  - intros [index root] issues. apply validate_root_nil.
Qed.

(** ** Admission *)

(** What the loop over the candidates has checked of an admitted candidate. *)
Record Admissible input (registry_value : DomainPackSupplyChainRegistry) (key : string) (a : AdmittedCandidate) : Prop := {
  ad_candidate : rq_candidates input !! adm_candidate_index a = Some (adm_candidate a);
  ad_key : key = coordinate_key_parts (StableId_0 (id_publisher (candidate_identity (adm_candidate a))))
                   (StableId_0 (id_name (candidate_identity (adm_candidate a))));
  ad_identity : valid_identity (candidate_identity (adm_candidate a)) = true;
  ad_version : Version_parse (id_version (candidate_identity (adm_candidate a))) = Some (adm_version a);
  ad_record : adm_record a ∈ scr_packages registry_value;
  ad_digest : rc_registry_record_digest (adm_candidate a) = Some (rpr_record_digest (adm_record a));
  ad_not_revoked : rpr_record_digest (adm_record a) ∉ revoked registry_value;
  ad_matches : record_matches_candidate (adm_record a) (adm_candidate a) = true;
  ad_grant : exists grant, grant ∈ scr_namespace_grants registry_value
    /\ ng_grant_id grant = rpr_namespace_grant_id (adm_record a)
    /\ grant_holds registry_value (candidate_identity (adm_candidate a)) grant = true;
  ad_credential : exists credential, credential ∈ scr_publisher_credentials registry_value
    /\ pcr_credential_id credential = rpr_publisher_credential_id (adm_record a)
    /\ credential_holds registry_value (candidate_identity (adm_candidate a)) credential = true
}.

Lemma collect_map_elem {V} (l : list (string * V)) k v : collect_map l !! k = Some v -> (k, v) ∈ l.
Proof.
  unfold collect_map. cut (forall m : gmap string V, foldl (fun m '(k, v) => <[k := v]> m) m l !! k = Some v ->
    m !! k = Some v \/ (k, v) ∈ l).
  { intros Hc Hk. destruct (Hc ∅ Hk) as [E|]; [by rewrite lookup_empty in E | done]. }
  induction l as [|[k' v'] l IH]; intros m; simpl; [by left|]. intros [E|]%IH; [|set_solver].
  rewrite lookup_insert_if in E. destruct (decide _) as [->|]; [|by left]. simplify_eq. right. by left.
Qed.

Lemma collect_map_by {V} (f : V -> string) (l : list V) k v : collect_map (map (fun x => (f x, x)) l) !! k = Some v -> v ∈ l /\ f v = k.
Proof. intros (x & [= -> ->] & Hx)%collect_map_elem%list_elem_of_fmap. done. Qed.

Lemma validate_candidate_shape_nil candidate core reasons :
  validate_candidate_shape candidate core reasons = [] ->
  reasons = [] /\ valid_identity (candidate_identity candidate) = true
  /\ is_Some (Version_parse (id_version (candidate_identity candidate))).
Proof.
  unfold validate_candidate_shape, candidate_identity, manifest_of.
  destruct (Version_parse _) as [v|]; [|by intros ?%code_insert_not_nil].
  rewrite !insert_if_nil. intros (_ & _ & _ & _ & _ & _ & Hid & _ & ->).
  apply orb_false_iff in Hid as [Hid _]. apply orb_false_iff in Hid as [Hid _]. apply orb_false_iff in Hid as [Hid _].
  apply negb_false_iff in Hid. by eauto.
Qed.

Lemma admit_candidate_ok input registry_value equivocated index candidate reasons key a :
  rq_candidates input !! index = Some candidate ->
  admit_candidate input registry_value equivocated index candidate = (reasons, Some (key, a)) ->
  reasons = [] /\ adm_candidate_index a = index /\ Admissible input registry_value key a.
Proof.
  intros Hi. unfold admit_candidate. destruct (rc_registry_record_digest candidate) as [digest|] eqn:Ed; [|done].
  destruct (record_by_digest registry_value !! digest) as [record|] eqn:Er; [|done].
  apply (collect_map_by rpr_record_digest) in Er as [Hrec Hdig].
  match goal with |- (?r, _) = _ -> _ => destruct (is_nil r) eqn:En; [|done]; destruct r eqn:Ereasons; [|done] end.
  destruct (Version_parse (id_version (candidate_identity candidate))) as [version|] eqn:Ev; [|done].
  intros [= <- <- <-]. split; [done|]. split; [done|].
  rewrite !insert_if_nil in Ereasons. destruct Ereasons as (Hcred & Hgrant & Hmatch & Hrev & _ & Hshape).
  apply validate_candidate_shape_nil in Hshape as (_ & Hid & _).
  apply negb_false_iff in Hcred, Hgrant, Hmatch. apply bool_decide_eq_false in Hrev.
  split; simpl; try done; [by rewrite Ed, Hdig | by rewrite Hdig | |].
  - destruct (grant_by_id registry_value !! _) as [grant|] eqn:Eg; [|done].
    apply (collect_map_by (fun g => StableId_0 (ng_grant_id g))) in Eg as [Hin Heq]. exists grant. split; [done|].
    split; [|done]. destruct (ng_grant_id grant), (rpr_namespace_grant_id record). simpl in Heq. by subst.
  - destruct (credential_by_id registry_value !! _) as [credential|] eqn:Ec; [|done].
    apply (collect_map_by (fun c => StableId_0 (pcr_credential_id c))) in Ec as [Hin Heq]. exists credential. split; [done|].
    split; [|done]. destruct (pcr_credential_id credential), (rpr_publisher_credential_id record). simpl in Heq. by subst.
Qed.

(** ** The candidates of the search *)

Lemma elem_of_entry_push {V} k (v : V) m key u x :
  entry_push k v m !! key = Some u -> x ∈ u -> (exists u0, m !! key = Some u0 /\ x ∈ u0) \/ (key = k /\ x = v).
Proof.
  unfold entry_push. rewrite lookup_insert_if. destruct (decide _) as [->|]; [|naive_solver].
  intros [= <-]. rewrite elem_of_app, list_elem_of_singleton. intros [Hx|Hx]; [|naive_solver].
  destruct (m !! k) as [u0|]; [by eauto|]. by apply elem_of_nil in Hx.
Qed.

Lemma admitted_by_coordinate_elem l key u a : admitted_by_coordinate l !! key = Some u -> a ∈ u -> (key, a) ∈ l.
Proof.
  unfold admitted_by_coordinate. cut (forall m : gmap string (list AdmittedCandidate),
    foldl (fun m '(coordinate, candidate) => entry_push coordinate candidate m) m l !! key = Some u -> a ∈ u ->
    (exists u0, m !! key = Some u0 /\ a ∈ u0) \/ (key, a) ∈ l).
  { intros Hc Hk Ha. destruct (Hc ∅ Hk Ha) as [(u0 & E & _)|]; [by rewrite lookup_empty in E | done]. }
  induction l as [|[k b] l IH]; intros m; simpl; [by eauto|]. intros Hk Ha. destruct (IH _ Hk Ha) as [(u0 & E & Hu0)|]; [|set_solver].
  destruct (elem_of_entry_push _ _ _ _ _ _ E Hu0) as [|[-> ->]]; [by left | right; by left].
Qed.

(** Sorting and cutting a coordinate only drops candidates, and reports that it did. *)
Lemma bound_coordinate_sub coordinate issues codes candidates issues' codes' candidates' :
  bound_coordinate coordinate (issues, codes, candidates) = (issues', codes', candidates') ->
  (issues' = [] -> issues = []) /\
  forall key u a, candidates' !! key = Some u -> a ∈ u -> exists u0, candidates !! key = Some u0 /\ a ∈ u0.
Proof.
  unfold bound_coordinate. destruct (candidates !! coordinate) as [versions|] eqn:Ev.
  - destruct (_ <? _); intros [= <- <- <-].
    + split; [by intros ?%issue_not_nil|]. intros key u a. rewrite lookup_insert_if. destruct (decide _) as [->|]; [|by eauto].
      intros [= <-] Ha. exists versions. split; [done|]. apply elem_of_take in Ha as (i & Hi & _).
      apply list_elem_of_lookup_2 in Hi. by apply elem_of_sort_with in Hi.
    + split; [done|]. intros key u a. rewrite lookup_insert_if. destruct (decide _) as [->|]; [|by eauto].
      intros [= <-] Ha. apply elem_of_sort_with in Ha. by eauto.
  - intros [= <- <- <-]. split; [done|by eauto].
Qed.

Lemma bound_all_sub keys issues codes candidates issues' codes' candidates' :
  foldl (fun st coordinate => bound_coordinate coordinate st) (issues, codes, candidates) keys = (issues', codes', candidates') ->
  (issues' = [] -> issues = []) /\
  forall key u a, candidates' !! key = Some u -> a ∈ u -> exists u0, candidates !! key = Some u0 /\ a ∈ u0.
Proof.
  revert issues codes candidates. induction keys as [|k keys IH]; intros issues codes candidates; cbn [foldl].
  - intros [= <- <- <-]. split; [done|by eauto].
  - destruct (bound_coordinate k (issues, codes, candidates)) as [[issues1 codes1] candidates1] eqn:Eb. intros [Hi Hc]%IH.
    apply bound_coordinate_sub in Eb as [Hi1 Hc1]. split; [by eauto|]. intros key u a Hk Ha.
    destruct (Hc key u a Hk Ha) as (u1 & Hu1 & Ha1). by eapply Hc1.
Qed.

Lemma admissions_elem input registry key a :
  (key, a) ∈ omap snd (admissions input registry) ->
  Admissible input (scrd_domain_pack_supply_chain_registry registry) key a.
Proof.
  intros ([reasons o] & Hin & Ho)%list_elem_of_omap. simpl in Ho. subst o.
  apply list_elem_of_lookup in Hin as [i Hi]. unfold admissions in Hi. rewrite list_lookup_imap in Hi.
  destruct (take _ _ !! i) as [candidate|] eqn:Et; [|done]. simpl in Hi. apply (inj Some) in Hi.
  assert (rq_candidates input !! i = Some candidate) as Hc.
  { apply lookup_take_Some in Et. naive_solver. }
  by destruct (admit_candidate_ok _ _ _ _ _ _ _ _ Hc Hi) as (_ & _ & ?).
Qed.

(** The candidates handed to the search, with the issues and codes at that point. *)
Definition prepared (request : DomainPackResolutionRequestDocument) (registry : DomainPackSupplyChainRegistryDocument)
    : Issues * list (list DomainPackResolutionIssueCode) * gmap string (list AdmittedCandidate) :=
  let input := rqd_domain_pack_resolution_request request in
  let admitted := admissions input registry in
  let candidates := admitted_by_coordinate (omap snd admitted) in
  foldl (fun st coordinate => bound_coordinate coordinate st)
    (validate_request_and_registry request registry [], admitted.*1, candidates) (map_keys candidates).

Lemma prepared_admissible request registry issues codes candidates key u a :
  prepared request registry = (issues, codes, candidates) -> candidates !! key = Some u -> a ∈ u ->
  Admissible (rqd_domain_pack_resolution_request request) (scrd_domain_pack_supply_chain_registry registry) key a.
Proof.
  unfold prepared. intros [_ Hsub]%bound_all_sub Hk Ha. destruct (Hsub key u a Hk Ha) as (u0 & Hu0 & Ha0).
  apply admissions_elem. by eapply admitted_by_coordinate_elem.
Qed.

Lemma prepared_nil request registry codes candidates :
  prepared request registry = ([], codes, candidates) -> validate_request_and_registry request registry [] = [].
Proof. unfold prepared. intros [Hi _]%bound_all_sub. by apply Hi. Qed.

(** ** Roots *)

Lemma root_constraints_elem roots root requirement :
  root ∈ roots -> VersionReq_parse (rr_version_requirement root) = Some requirement ->
  exists cs, root_constraints roots !! coordinate_key (rr_pack root) = Some cs
    /\ {| con_requirement := requirement; con_required_content_digest := rr_required_content_digest root |} ∈ cs.
Proof.
  unfold root_constraints. generalize (∅ : Constraints) as m.
  set (step := fun (m : Constraints) root => match VersionReq_parse (rr_version_requirement root) with
    | Some requirement => entry_push (coordinate_key (rr_pack root))
        {| con_requirement := requirement; con_required_content_digest := rr_required_content_digest root |} m
    | None => m end).
  assert (forall l m key c, (exists cs, m !! key = Some cs /\ c ∈ cs) -> exists cs, foldl step m l !! key = Some cs /\ c ∈ cs) as Hkeep.
  { induction l as [|r l IH]; intros m key c Hc; simpl; [done|]. apply IH. unfold step. destruct (VersionReq_parse _); [|done].
    destruct Hc as (cs & Hcs & Hc). unfold entry_push. rewrite lookup_insert_if. destruct (decide _) as [->|]; [|by eauto].
    rewrite Hcs. simpl. eexists. split; [done|]. set_solver. }
  intros m Hin Hr. revert m Hin. induction roots as [|r roots IH]; intros m; [by intros ?%elem_of_nil|].
  rewrite elem_of_cons. simpl. intros [<-|Hin]; [|by apply IH].
  apply Hkeep. unfold step at 1. rewrite Hr. unfold entry_push. rewrite lookup_insert_eq. eexists. split; [done|]. set_solver.
Qed.

(** ** The list of selected packages *)

Lemma omap_all {A B} (f : A -> option B) (g : A -> B) l : (forall x, x ∈ l -> f x = Some (g x)) -> omap f l = map g l.
Proof.
  induction l as [|x l IH]; intros Hall; [done|]. cbn. rewrite (Hall x) by (by left). f_equal. apply IH.
  intros y Hy. apply Hall. by right.
Qed.

Lemma build_selected_lookup selected edges order :
  topological_edges_and_order selected = Ok (edges, order) -> (forall key, key ∈ order -> is_Some (selected !! key)) ->
  forall i pkg, build_selected selected !! i = Some pkg <->
    exists key a, order !! i = Some key /\ selected !! key = Some a /\ pkg = resolved_package i a.
Proof.
  intros E Hall i pkg. unfold build_selected. rewrite E.
  destruct order as [|k0 order0]; [simpl; rewrite lookup_nil; split; [done|]; intros (? & ? & Hk & _); by rewrite lookup_nil in Hk|].
  destruct (Hall k0) as [a0 _]; [by left|]. set (order := k0 :: order0) in *.
  rewrite (omap_all _ (fun '(position, key) => resolved_package position (default a0 (selected !! key)))).
  - rewrite list_lookup_fmap, list_lookup_imap. destruct (order !! i) as [key|] eqn:Ek; simpl; [|split; [done|naive_solver]].
    destruct (Hall key) as [a Ha]; [by eapply list_elem_of_lookup_2|]. rewrite Ha. simpl. naive_solver.
  - intros [position key] Hin. apply list_elem_of_lookup in Hin as [j Hj]. rewrite list_lookup_imap in Hj.
    destruct (order !! j) as [key'|] eqn:Ek; simpl in Hj; [|done]. simplify_eq.
    destruct (Hall key) as [a Ha]; [by eapply list_elem_of_lookup_2|]. by rewrite Ha.
Qed.

(** A solution contains its dependencies, so ordering it gives edges and an order or reports a cycle. *)
Lemma solution_closed context constraints selected : Solution context constraints selected -> closed_selection selected.
Proof.
  intros Hs a b Hd. destruct (depends_selected _ _ _ Hd) as [c Hc]. unfold depends in Hd.
  rewrite (selected_dep_keys_Some _ _ _ Hc) in Hd. apply list_elem_of_fmap in Hd as (d & -> & Hd).
  destruct (sol_dependencies _ _ _ Hs a c d Hc Hd) as (_ & other & _ & Ho & _). by eauto.
Qed.

Lemma topological_ok selected edges order :
  closed_selection selected -> topological_edges_and_order selected = Ok (edges, order) ->
  NoDup order /\ in_order selected order /\ (forall key, key ∈ order <-> is_Some (selected !! key))
  /\ (forall e, e ∈ edges <-> selected_edge selected (map_keys selected) e).
Proof.
  intros Hcl. destruct (topological_spec selected Hcl) as (edges' & order' & He & Hnd & Hord & Hgo & _ & Hsel).
  unfold topological_edges_and_order. rewrite Hgo. simpl. destruct (Nat.eqb_spec (length order') (size selected)) as [Hl|]; [|done].
  intros [= <- <-]. split_and!; [done|done| |done]. intros key. split; [apply Hsel|]. intros Hk%elem_of_dom.
  rewrite <- (elem_of_list_to_set (C := gset string)).
  assert (list_to_set order' ≡ dom selected) as ->; [|done]. apply set_subseteq_size_equiv.
  - intros x. rewrite elem_of_list_to_set, elem_of_dom. apply Hsel.
  - rewrite size_dom, size_list_to_set by done. lia.
Qed.

(** ** The projection *)

Context `{Canonical DomainPackRuntimeCapabilityGap} `{Canonical ResolutionDigestSubject}.

Definition projection (request : DomainPackResolutionRequestDocument) (registry : DomainPackSupplyChainRegistryDocument)
    : DomainPackResolutionProjection :=
  rpjd_domain_pack_resolution_projection (resolve_domain_packs request registry).

Lemma projection_fields request registry issues codes candidates issues' selected edges :
  prepared request registry = (issues, codes, candidates) ->
  select (rqd_domain_pack_resolution_request request) candidates issues = (issues', selected, edges) ->
  let p := projection request registry in
  rpj_issues p = finish_issues issues'
  /\ rpj_status p = (if is_nil (finish_issues issues') then DomainPackResolutionStatus_Resolved else DomainPackResolutionStatus_Blocked)
  /\ rpj_selected p = (if is_nil (finish_issues issues') then build_selected selected else [])
  /\ rpj_dependency_edges p = (if is_nil (finish_issues issues') then edges else []).
Proof.
  intros Hp Hs. unfold projection, resolve_domain_packs. unfold prepared in Hp. rewrite Hp, Hs. done.
Qed.

(** A resolved projection comes from a successful search over admitted candidates. *)
Lemma resolved_inv request registry :
  rpj_status (projection request registry) = DomainPackResolutionStatus_Resolved ->
  exists codes candidates states solution edges order,
    prepared request registry = ([], codes, candidates)
    /\ search (search_context (rqd_domain_pack_resolution_request request) candidates)
         (root_constraints (rq_roots (rqd_domain_pack_resolution_request request))) ∅ 0%N = (states, Ok solution)
    /\ topological_edges_and_order solution = Ok (edges, order)
    /\ rpj_selected (projection request registry) = build_selected solution
    /\ rpj_dependency_edges (projection request registry) = edges.
Proof.
  destruct (prepared request registry) as [[issues codes] candidates] eqn:Ep.
  destruct (select (rqd_domain_pack_resolution_request request) candidates issues) as [[issues' selected] edges] eqn:Es.
  destruct (projection_fields _ _ _ _ _ _ _ _ Ep Es) as (_ & -> & -> & ->).
  destruct (is_nil (finish_issues issues')) eqn:En; [|done]. intros _.
  assert (issues' = []) as ->. { apply finish_issues_nil. by destruct (finish_issues issues'). }
  unfold select in Es. destruct issues as [|i issues]; [|done].
  destruct (search _ _ _ _) as [states [solution|f]] eqn:Esr; simpl in Es.
  - destruct (topological_edges_and_order solution) as [[edges' order]|f] eqn:Et.
    + simplify_eq. exists codes, candidates, states, selected, edges, order. done.
    + injection Es as Hi _ _. by apply issue_not_nil in Hi.
  - injection Es as Hi _ _. by apply issue_not_nil in Hi.
Qed.

(** The search on its own, from the empty selection. *)
Lemma search_sound context constraints states solution :
  search context constraints ∅ 0%N = (states, Ok solution) -> Solution context constraints solution /\ no_idle constraints solution.
Proof.
  unfold search. intros (Hs & _ & Hn)%search_go_sound; [done|apply search_inv_init].
Qed.

Lemma resolved_solution request registry :
  rpj_status (projection request registry) = DomainPackResolutionStatus_Resolved ->
  exists context solution order,
    Solution context (root_constraints (rq_roots (rqd_domain_pack_resolution_request request))) solution
    /\ (forall key a, solution !! key = Some a ->
          Admissible (rqd_domain_pack_resolution_request request) (scrd_domain_pack_supply_chain_registry registry) key a)
    /\ NoDup order /\ in_order solution order /\ (forall key, key ∈ order <-> is_Some (solution !! key))
    /\ (forall i pkg, rpj_selected (projection request registry) !! i = Some pkg <->
          exists key a, order !! i = Some key /\ solution !! key = Some a /\ pkg = resolved_package i a).
Proof.
  intros (codes & candidates & states & solution & edges & order & Hp & Hsr & Ht & -> & _)%resolved_inv.
  apply search_sound in Hsr as [Hs _]. eexists _, solution, order. split; [exact Hs|].
  destruct (topological_ok _ _ _ (solution_closed _ _ _ Hs) Ht) as (Hnd & Hord & Hkeys & _).
  split_and!; [|done|done|done|eapply build_selected_lookup; [exact Ht|intros; by apply Hkeys]].
  intros key a Ha. destruct (sol_admitted _ _ _ Hs key a Ha) as (u & Hu & Hin). by eapply prepared_admissible.
Qed.

(** C27: a selected package is one of the request's candidates, joined with a record of the signed registry
    that names the same identity and digests and is not revoked, under a namespace grant of its publisher
    that covers its namespace and the active publisher credential the record names, both valid when the snapshot was issued;
    it is marked untrusted and unreviewed. *)
Theorem selected_provenance request registry pkg :
  rpj_status (projection request registry) = DomainPackResolutionStatus_Resolved ->
  pkg ∈ rpj_selected (projection request registry) ->
  let registry_value := scrd_domain_pack_supply_chain_registry registry in
  rp_source_assurance pkg = DomainPackSourceAssurance_ExplicitlyUntrusted
  /\ rp_semantic_assurance pkg = DomainPackSemanticAssurance_Unreviewed
  /\ (forall revocation, revocation ∈ scr_revocations registry_value ->
        prv_record_digest revocation <> rp_registry_record_digest pkg)
  /\ exists candidate record grant credential,
    candidate ∈ rq_candidates (rqd_domain_pack_resolution_request request)
    /\ rp_identity pkg = candidate_identity candidate /\ rp_package pkg = rc_package candidate
    /\ record ∈ scr_packages registry_value /\ rpr_identity record = rp_identity pkg
    /\ rpr_record_digest record = rp_registry_record_digest pkg /\ record_matches_candidate record candidate = true
    /\ grant ∈ scr_namespace_grants registry_value /\ ng_grant_id grant = rp_namespace_grant_id pkg
    /\ ng_publisher grant = id_publisher (rp_identity pkg)
    /\ namespace_is_granted (StableId_0 (id_namespace (rp_identity pkg))) (StableId_0 (ng_namespace_prefix grant)) = true
    /\ (ng_valid_from_unix grant <= scr_issued_at_unix registry_value <= ng_valid_until_unix grant)%Z
    /\ credential ∈ scr_publisher_credentials registry_value
    /\ pcr_credential_id credential = rpr_publisher_credential_id record
    /\ pcr_publisher credential = id_publisher (rp_identity pkg)
    /\ pcr_status credential = DomainPackCredentialStatus_Active
    /\ (pcr_valid_from_unix credential <= scr_issued_at_unix registry_value <= pcr_valid_until_unix credential)%Z.
Proof.
  intros (context & solution & order & _ & Had & _ & _ & _ & Hsel)%resolved_solution [i Hi]%list_elem_of_lookup.
  apply Hsel in Hi as (key & a & _ & Ha & ->). destruct (Had key a Ha) as [Hc Hkey Hid Hv Hr Hd Hrev Hm Hg Hcr].
  destruct Hg as (grant & Hg & Hgid & Hgh). destruct Hcr as (credential & Hcin & Hcid & Hch).
  unfold grant_holds in Hgh. unfold credential_holds in Hch. bool_simpl. cbv zeta. simpl. split_and!; [done|done| |].
  - intros revocation Hin E. apply Hrev. unfold revoked. apply elem_of_list_to_set, list_elem_of_fmap. by eauto.
  - exists (adm_candidate a), (adm_record a), grant, credential.
    assert (rpr_identity (adm_record a) = candidate_identity (adm_candidate a)) as Hri.
    { pose proof Hm as Hm'. unfold record_matches_candidate in Hm'. bool_simpl. done. }
    split_and!; try done; try lia. by eapply list_elem_of_lookup_2.
Qed.

(** The version and content of a selected package meet a requirement. *)
Definition package_meets (pkg : DomainPackResolvedPackage) (requirement : string) (digest : option string) : Prop :=
  exists req version, VersionReq_parse requirement = Some req /\ Version_parse (id_version (rp_identity pkg)) = Some version
    /\ VersionReq_matches req version = true
    /\ (forall d, digest = Some d -> d = cb_canonical_sha256 (pb_content (rp_package pkg)))
    /\ (Version_pre_is_empty version = true \/ requirement_explicitly_allows_prerelease req = true).

Definition is_coordinate (pkg : DomainPackResolvedPackage) (coordinate : DomainPackCoordinate) : Prop :=
  id_publisher (rp_identity pkg) = co_publisher coordinate /\ id_name (rp_identity pkg) = co_name coordinate.

Lemma meets_package input registry_value key a requirement req digest i :
  Admissible input registry_value key a -> VersionReq_parse requirement = Some req -> meets a req digest ->
  package_meets (resolved_package i a) requirement digest.
Proof.
  intros Had Hr Hm. exists req, (adm_version a). unfold meets, satisfies in Hm. simpl in Hm. rewrite andb_true_r in Hm. bool_simpl.
  split_and!; [done|apply Had|done| |].
  - intros d ->. simpl in *. by bool_simpl.
  - by apply orb_true_iff.
Qed.

Lemma admissible_coordinate input registry_value a i coordinate :
  Admissible input registry_value (coordinate_key coordinate) a -> is_coordinate (resolved_package i a) coordinate.
Proof.
  intros Had. pose proof (ad_identity _ _ _ _ Had) as Hid. unfold valid_identity in Hid. bool_simpl.
  pose proof (ad_key _ _ _ _ Had) as E. unfold coordinate_key in E. symmetry in E. apply coordinate_key_inj in E as [E1 E2]; [|done..].
  unfold is_coordinate. simpl. destruct (id_publisher _), (id_name _), (co_publisher _), (co_name _). simpl in *. by subst.
Qed.

(** The selected packages are an install order: position [i] carries order [i], every dependency a
    package declares is met, in publisher, name, version and pinned content, by a package at a smaller
    position, and every root of the request is met by a selected package. *)
Theorem selected_install_order request registry :
  rpj_status (projection request registry) = DomainPackResolutionStatus_Resolved ->
  let selected := rpj_selected (projection request registry) in
  (forall i pkg, selected !! i = Some pkg -> rp_deterministic_order pkg = u32_position i)
  /\ (forall i pkg d, selected !! i = Some pkg -> d ∈ rp_dependencies pkg ->
        exists j other, j < i /\ selected !! j = Some other /\ is_coordinate other (dd_pack d)
          /\ package_meets other (dd_version_requirement d) (dd_required_content_digest d))
  /\ (forall root, root ∈ rq_roots (rqd_domain_pack_resolution_request request) ->
        exists pkg, pkg ∈ selected /\ is_coordinate pkg (rr_pack root)
          /\ package_meets pkg (rr_version_requirement root) (rr_required_content_digest root))
  /\ NoDup (map (fun pkg => (id_publisher (rp_identity pkg), id_name (rp_identity pkg))) selected).
Proof.
  intros Hres selected. pose proof (resolved_inv _ _ Hres) as (? & ? & ? & ? & ? & ? & Hprep & _).
  apply prepared_nil, validate_request_nil in Hprep.
  destruct (resolved_solution _ _ Hres) as (context & solution & order & Hs & Had & Hnd & Hord & Hkeys & Hsel). split_and!.
  - intros i pkg (key & a & _ & _ & ->)%Hsel. done.
  - intros i pkg d (key & a & Hk & Ha & ->)%Hsel Hd. simpl in Hd. apply elem_of_sort_with in Hd.
    destruct (sol_dependencies _ _ _ Hs key a d Ha Hd) as (req & other & Hreq & Hother & Hm).
    assert (depends solution key (coordinate_key (dd_pack d))) as Hdep.
    { unfold depends. rewrite (selected_dep_keys_Some _ _ _ Ha). apply list_elem_of_fmap. by eauto. }
    destruct (Hord i _ key Hk Hdep) as (j & Hj & Hjk). exists j, (resolved_package j other).
    specialize (Had _ _ Hother). split_and!; [done|apply Hsel; by eauto|by eapply admissible_coordinate|by eapply meets_package].
  - intros root Hroot. rewrite Forall_forall in Hprep. destruct (Hprep root Hroot) as [[req Hreq] _].
    destruct (root_constraints_elem _ _ _ Hroot Hreq) as (cs & Hcs & Hin).
    destruct (sol_constraints _ _ _ Hs _ _ Hcs) as (a & Ha & Hsat). specialize (Had _ _ Ha).
    assert (coordinate_key (rr_pack root) ∈ order) as [i Hi]%list_elem_of_lookup by (apply Hkeys; by eauto).
    exists (resolved_package i a). split_and!.
    + eapply list_elem_of_lookup_2. apply Hsel. by eauto.
    + by eapply admissible_coordinate.
    + eapply meets_package; [exact Had|exact Hreq|]. by eapply satisfies_elem.
  - apply NoDup_alt. intros i j coordinate. rewrite !list_lookup_fmap.
    destruct (selected !! i) as [pkg|] eqn:Hi; [|done]. destruct (selected !! j) as [pkg'|] eqn:Hj; [|done]. simpl.
    apply Hsel in Hi as (key & a & Hk & Ha & ->). apply Hsel in Hj as (key' & a' & Hk' & Ha' & ->).
    intros [= <-] [= E1 E2]. assert (key = key') as <-; [|by eapply NoDup_lookup].
    rewrite (ad_key _ _ _ _ (Had _ _ Ha)), (ad_key _ _ _ _ (Had _ _ Ha')). simpl in E1, E2. by rewrite E1, E2.
Qed.

(** ** Completeness *)

(** Only the state budget marks a failure as exhausted. *)
Lemma search_go_exhausted fuel context constraints selected states states' f :
  search_go fuel context constraints selected states = (states', Err f) -> sf_resource_exhausted f = true -> f = states_exhausted.
Proof.
  revert constraints selected states states' f.
  induction fuel as [|fuel IH]; intros constraints selected states states' f; cbn [search_go]; [by intros [= _ <-]|].
  destruct (_ <=? _)%N; [by intros [= _ <-]|]. destruct (next_key constraints selected) as [key|].
  - destruct (sc_candidates context !! key); [|by intros [= _ <-]]. destruct (is_nil _); [by intros [= _ <-]|].
    generalize (order_choices context key (List.filter (fun c => satisfies c (default [] (constraints !! key))) l)).
    assert (forall g, (@None SearchFailure) = Some g -> sf_resource_exhausted g = false) as Hl by done. revert Hl.
    generalize (@None SearchFailure) as last. generalize (states + 1)%N as st.
    intros st last Hl choices. revert st last Hl. induction choices as [|choice rest IHc]; intros st last Hl; cbn [try_choices].
    + intros [= _ <-]. destruct last as [g|]; simpl; [by rewrite (Hl g)|done].
    + destruct (extend key constraints selected choice) as [[cs sel]|g] eqn:Ee.
      * destruct (search_go fuel context cs sel st) as [st' [sol|g]] eqn:Er; [done|]. destruct (sf_resource_exhausted g) eqn:Eg.
        -- intros [= _ <-] _. by eapply IH.
        -- apply IHc. by intros ? [= <-].
      * apply IHc. intros ? [= <-]. unfold extend in Ee. repeat split_match_in Ee; simplify_eq; done.
  - destruct (selected_conflict selected); [by intros [= _ <-]|]. destruct (graph_has_cycle selected); [by intros [= _ <-]|done].
Qed.

Lemma search_spec context constraints :
  match snd (search context constraints ∅ 0%N) with
  | Ok solution => Solution context constraints solution /\ no_idle constraints solution
  | Err f => f = states_exhausted \/ forall solution, ~ Solution context constraints solution
  end.
Proof.
  destruct (search context constraints ∅ 0%N) as [states [solution|f]] eqn:E; simpl; [by eapply search_sound|].
  unfold search in E. destruct (sf_resource_exhausted f) eqn:Ef; [left; by eapply search_go_exhausted|].
  right. intros solution Hs. eapply search_go_complete; [exact E|done|exact Hs|apply map_empty_subseteq].
Qed.

(** C13: the search is exact.  A selection it returns meets every constraint and every dependency with
    admitted candidates, has no declared conflict and no cycle, and holds nothing that is not asked for;
    when it returns a failure other than the exhausted state budget, no such selection exists. *)
Theorem search_exact context constraints :
  match snd (search context constraints ∅ 0%N) with
  | Ok solution => Solution context constraints solution /\ no_idle constraints solution
  | Err f => f = states_exhausted \/ forall solution, ~ Solution context constraints solution
  end.
Proof. apply search_spec. Qed.

(** The selection is the preferred one.  At every decision, in the order the search makes them, no
    solution that agrees with the selection so far has a candidate that [order_choices] ranks higher:
    the locked version comes first unless the pack is to be upgraded, then the highest version. *)
Theorem search_preferred `{!SemverLaws} context constraints states solution :
  search context constraints ∅ 0%N = (states, Ok solution) -> Preferred context constraints ∅ solution.
Proof. unfold search. apply search_go_preferred, search_inv_init. Qed.

(** The search ends within its budget of 10,000 states and is the recursion of the source: the
    counter never passes the budget, and unfolding a call gives the source's body with recursive calls
    in place of fuel. *)
Theorem search_terminates context constraints selected states :
  (states <= MAX_DOMAIN_PACK_RESOLUTION_SEARCH_STATES ->
     fst (search context constraints selected states) <= MAX_DOMAIN_PACK_RESOLUTION_SEARCH_STATES)%N
  /\ search context constraints selected states =
     if (MAX_DOMAIN_PACK_RESOLUTION_SEARCH_STATES <=? states)%N then (states, Err states_exhausted)
     else match next_key constraints selected with
          | Some key =>
              match sc_candidates context !! key with
              | None => ((states + 1)%N, Err (missing_failure context key))
              | Some universe =>
                  let choices := List.filter (fun c => satisfies c (default [] (constraints !! key))) universe in
                  if is_nil choices then ((states + 1)%N, Err (missing_failure context key))
                  else try_choices (search context) context key constraints selected
                         (order_choices context key choices) None (states + 1)%N
              end
          | None =>
              if selected_conflict selected
              then ((states + 1)%N, Err (failure DomainPackResolutionIssueCode_DeclaredConflict "selection"
                      "selected graph contains a declared conflict"))
              else if graph_has_cycle selected
              then ((states + 1)%N, Err (failure DomainPackResolutionIssueCode_DependencyCycle "selection"
                      "selected dependency graph contains a cycle"))
              else ((states + 1)%N, Ok selected)
          end.
Proof.
  split; [|apply search_unfold]. intros Hst. unfold search.
  pose proof (search_go_states (N.to_nat MAX_DOMAIN_PACK_RESOLUTION_SEARCH_STATES - N.to_nat states) context constraints selected states). lia.
Qed.

Lemma order_spec selected :
  closed_selection selected ->
  (graph_has_cycle selected = false <-> acyclic_selection selected)
  /\ match topological_edges_and_order selected with
     | Ok (edges, order) =>
         acyclic_selection selected /\ distinct_dependencies selected
         /\ NoDup order /\ in_order selected order /\ (forall key, key ∈ order <-> is_Some (selected !! key))
         /\ (forall e, e ∈ edges <-> selected_edge selected (map_keys selected) e)
     | Err f =>
         ~ (acyclic_selection selected /\ distinct_dependencies selected)
         /\ sf_code f = Some DomainPackResolutionIssueCode_DependencyCycle
     end.
Proof.
  intros Hcl. split; [apply graph_has_cycle_spec|].
  destruct (topological_edges_and_order selected) as [[edges order]|f] eqn:E.
  - pose proof (topological_ok _ _ _ Hcl E) as (Hnd & Hord & Hkeys & He).
    destruct (topological_spec selected Hcl) as (edges' & order' & _ & _ & _ & Hgo & Hiff & _).
    unfold topological_edges_and_order in E. rewrite Hgo in E. simpl in E.
    destruct (Nat.eqb_spec (length order') (size selected)) as [Hl|]; [|done].
    destruct (proj1 Hiff Hl) as [Hac Hdi]. split_and!; done.
  - destruct (topological_spec selected Hcl) as (edges' & order' & _ & _ & _ & Hgo & Hiff & _).
    unfold topological_edges_and_order in E. rewrite Hgo in E. simpl in E.
    destruct (Nat.eqb_spec (length order') (size selected)) as [|Hl]; [done|]. injection E as <-. rewrite <- Hiff. done.
Qed.

(** C38: ordering a selection that contains its dependencies succeeds exactly when the dependency graph is
    acyclic and no pack names a coordinate twice; otherwise a dependency cycle is reported.  The
    depth-first search before it answers for cycles alone. *)
Theorem order_exact selected :
  closed_selection selected ->
  (graph_has_cycle selected = false <-> acyclic_selection selected)
  /\ match topological_edges_and_order selected with
     | Ok (edges, order) =>
         acyclic_selection selected /\ distinct_dependencies selected
         /\ NoDup order /\ in_order selected order /\ (forall key, key ∈ order <-> is_Some (selected !! key))
         /\ (forall e, e ∈ edges <-> selected_edge selected (map_keys selected) e)
     | Err f =>
         ~ (acyclic_selection selected /\ distinct_dependencies selected)
         /\ sf_code f = Some DomainPackResolutionIssueCode_DependencyCycle
     end.
Proof. apply order_spec. Qed.

(** The failure of an ordering, as it is reported. *)
Lemma order_failure selected f :
  closed_selection selected -> topological_edges_and_order selected = Err f ->
  f = failure DomainPackResolutionIssueCode_DependencyCycle "selection" "selected dependency graph contains a cycle"
  /\ ~ (acyclic_selection selected /\ distinct_dependencies selected).
Proof.
  intros Hcl E. destruct (topological_spec selected Hcl) as (edges & order & _ & _ & _ & Hgo & Hiff & _).
  unfold topological_edges_and_order in E. rewrite Hgo in E. simpl in E.
  destruct (Nat.eqb_spec (length order) (size selected)) as [|Hl]; [done|]. injection E as <-. by rewrite <- Hiff.
Qed.

(** A selection whose dependencies are not distinct has a pack that names a coordinate twice. *)
Lemma not_distinct_dependencies selected :
  ~ distinct_dependencies selected -> exists key, is_Some (selected !! key) /\ ~ NoDup (selected_dep_keys selected key).
Proof.
  intros Hn. destruct (decide (Exists (fun key => ~ NoDup (selected_dep_keys selected key)) (map_keys selected))) as [He|He].
  - apply Exists_exists in He as (key & Hin & Hd). exists key. split; [|done]. by apply elem_of_map_keys in Hin.
  - exfalso. apply Hn. intros key. destruct (selected !! key) as [a|] eqn:Ea.
    + rewrite Exists_exists in He. destruct (decide (NoDup (selected_dep_keys selected key))); [done|].
      exfalso. apply He. exists key. split; [|done]. apply elem_of_map_keys. by exists a.
    + unfold selected_dep_keys, selected_dependencies. rewrite Ea. constructor.
Qed.

(** C39: resolution is complete.  For a request and registry without issues, when some selection
    meets all roots and dependencies without conflict or cycle, the projection is resolved, with two
    exceptions.  The search used up its 10,000 states, which is then the only issue; or the selection
    it settled on, which is as good a solution, has a pack that names a coordinate twice, and then a
    dependency cycle is the only issue although there is none. *)
Theorem resolution_complete request registry codes candidates solution :
  prepared request registry = ([], codes, candidates) ->
  let context := search_context (rqd_domain_pack_resolution_request request) candidates in
  let constraints := root_constraints (rq_roots (rqd_domain_pack_resolution_request request)) in
  Solution context constraints solution ->
  rpj_status (projection request registry) = DomainPackResolutionStatus_Resolved
  \/ rpj_issues (projection request registry)
     = [{| ri_code := DomainPackResolutionIssueCode_ResourceLimitExceeded; ri_path := "resolution.search_states";
           ri_message := "deterministic search exhausted 10000 states" |}]
  \/ (exists found key, snd (search context constraints ∅ 0%N) = Ok found /\ Solution context constraints found
        /\ is_Some (found !! key) /\ ~ NoDup (selected_dep_keys found key))
     /\ rpj_issues (projection request registry)
        = [{| ri_code := DomainPackResolutionIssueCode_DependencyCycle; ri_path := "selection";
              ri_message := "selected dependency graph contains a cycle" |}].
Proof.
  intros Hp context constraints Hs. set (input := rqd_domain_pack_resolution_request request) in *.
  pose proof (search_spec context constraints) as Hex.
  destruct (snd (search context constraints ∅ 0%N)) as [found|f] eqn:E.
  - destruct Hex as [Hf _]. pose proof (solution_closed _ _ _ Hf) as Hcl.
    destruct (topological_edges_and_order found) as [[edges order]|g] eqn:Et.
    + left. destruct (projection_fields request registry [] codes candidates [] found edges Hp) as (_ & -> & _); [|done].
      unfold select. fold input context constraints. by rewrite E, Et.
    + right; right. destruct (order_failure found g Hcl Et) as [-> Hn].
      destruct (projection_fields request registry [] codes candidates
        (push_failure [] (failure DomainPackResolutionIssueCode_DependencyCycle "selection"
           "selected dependency graph contains a cycle")) found [] Hp) as (-> & _).
      { unfold select. fold input context constraints. by rewrite E, Et. }
      destruct (not_distinct_dependencies found) as (key & Hk & Hd); [intros Hd; apply Hn; split; [apply Hf | done]|].
      split; [exists found, key; split_and!; [reflexivity|exact Hf|exact Hk|exact Hd] | vm_compute; done].
  - right; left. destruct Hex as [->|Hno]; [|by destruct (Hno solution)].
    destruct (projection_fields request registry [] codes candidates (push_failure [] states_exhausted) ∅ [] Hp) as (-> & _).
    + unfold select. fold input context constraints. by rewrite E.
    + vm_compute. done.
Qed.

End spec.
