(* ===== verification/PackTrust.v ===== *)
(** * Trust and capability policy

    [forge-core-decisions/src/domain_pack_trust.rs]: which selected packages a project may activate, and
    which runtime bindings may serve the capabilities they demand.  Everything is denied by default;
    the theorems say what a verified binding and an approved evaluation rest on. *)

From S2P Require Import Prelude RustStr BTree Ordering Contracts AssuranceContracts WorkflowContracts DomainPackContracts PackRegistry PackResolution.

Local Open Scope string_scope.
Local Open Scope nat_scope.

(** ** Data *)

Record DomainPackSupplyChainAssessment := {
  sca_package_digest : string;
  sca_registry_record_digest : string;
  sca_publisher_signature_verified : bool;
  sca_registry_signature_threshold_verified : bool;
  sca_namespace_grant_verified : bool;
  sca_revoked : bool
}.

Record DomainPackLifecycleTrustDecision := {
  ltd_package_digest : string;
  ltd_disposition : DomainPackTrustDisposition;
  ltd_rule_ref : StableId
}.

Record DomainPackCapabilityDemand := {
  cdm_subject_ref : StableId;
  cdm_capability_ref : StableId;
  cdm_kind : DomainPackCapabilityKind
}.

Record DomainPackTrustSelectedPackage := {
  tsp_package : DomainPackResolvedPackage;
  tsp_structurally_valid : bool;
  tsp_supply_chain : DomainPackSupplyChainAssessment;
  tsp_capability_demands : list DomainPackCapabilityDemand
}.

Record DomainPackTrustEvaluationInput := {
  tei_project_id : StableId;
  tei_selected : list DomainPackTrustSelectedPackage;
  tei_trust_policy : DomainPackTrustPolicy;
  tei_capability_registry : DomainPackRuntimeCapabilityRegistry;
  tei_sandbox_policy : DomainPackCapabilitySandboxPolicy
}.

Inductive DomainPackTrustEvaluationStatus := TrustStatus_Approved | TrustStatus_Blocked.

Inductive DomainPackTrustIssueCode :=
| TrustIssue_PolicyDefaultNotDeny | TrustIssue_ProjectMismatch | TrustIssue_DuplicateSelectedPackage
| TrustIssue_StructuralAssessmentFailed | TrustIssue_SupplyChainAssessmentMismatch | TrustIssue_SupplyChainRejected
| TrustIssue_BelowMinimumAssurance | TrustIssue_TrustRejected | TrustIssue_AmbiguousTrustRule
| TrustIssue_DuplicateCapabilityDemand | TrustIssue_DuplicateRuntimeBinding | TrustIssue_CapabilityDenied.

Record DomainPackTrustIssue := {
  ti_code : DomainPackTrustIssueCode;
  ti_path : string;
  ti_message : string
}.

#[export] Instance DomainPackTrustIssueCode_eq_dec : EqDecision DomainPackTrustIssueCode.
Proof. solve_decision. Defined.
#[export] Instance DomainPackTrustIssue_eq_dec : EqDecision DomainPackTrustIssue.
Proof. solve_decision. Defined.
#[export] Instance DomainPackRuntimeCapabilityGap_eq_dec : EqDecision DomainPackRuntimeCapabilityGap.
Proof. solve_decision. Defined.

Record DomainPackTrustEvaluation := {
  tev_status : DomainPackTrustEvaluationStatus;
  tev_trust_decisions : list DomainPackLifecycleTrustDecision;
  tev_verified_capability_bindings : list DomainPackLockedCapabilityBinding;
  tev_capability_gaps : list DomainPackRuntimeCapabilityGap;
  tev_issues : list DomainPackTrustIssue;
  tev_evaluation_digest : string
}.

Record PackageKey := { pk_publisher : StableId; pk_name : StableId; pk_version : string }.
Record DemandKey := { dk_package : PackageKey; dk_subject_ref : StableId; dk_capability_ref : StableId }.

#[export] Instance PackageKey_eq_dec : EqDecision PackageKey.
Proof. solve_decision. Defined.
#[export] Instance DemandKey_eq_dec : EqDecision DemandKey.
Proof. solve_decision. Defined.

Record TrustDigestSubject := {
  tds_status : DomainPackTrustEvaluationStatus;
  tds_trust_decisions : list DomainPackLifecycleTrustDecision;
  tds_verified_capability_bindings : list DomainPackLockedCapabilityBinding;
  tds_capability_gaps : list DomainPackRuntimeCapabilityGap;
  tds_issues : list DomainPackTrustIssue
}.

(** ** Orders *)

Definition package_key_cmp : PackageKey -> PackageKey -> comparison :=
  then_with (cmp_on (fun k => StableId_0 (pk_publisher k)) String.compare)
    (then_with (cmp_on (fun k => StableId_0 (pk_name k)) String.compare) (cmp_on pk_version String.compare)).

Definition demand_key_cmp : DemandKey -> DemandKey -> comparison :=
  then_with (cmp_on dk_package package_key_cmp)
    (then_with (cmp_on (fun k => StableId_0 (dk_subject_ref k)) String.compare)
      (cmp_on (fun k => StableId_0 (dk_capability_ref k)) String.compare)).

Definition trust_issue_rank (code : DomainPackTrustIssueCode) : Z :=
  match code with
  | TrustIssue_PolicyDefaultNotDeny => 0
  | TrustIssue_ProjectMismatch => 1
  | TrustIssue_DuplicateSelectedPackage => 2
  | TrustIssue_StructuralAssessmentFailed => 3
  | TrustIssue_SupplyChainAssessmentMismatch => 4
  | TrustIssue_SupplyChainRejected => 5
  | TrustIssue_BelowMinimumAssurance => 6
  | TrustIssue_TrustRejected => 7
  | TrustIssue_AmbiguousTrustRule => 8
  | TrustIssue_DuplicateCapabilityDemand => 9
  | TrustIssue_DuplicateRuntimeBinding => 10
  | TrustIssue_CapabilityDenied => 11
  end.

Definition trust_issue_cmp : DomainPackTrustIssue -> DomainPackTrustIssue -> comparison :=
  then_with (cmp_on (fun i => trust_issue_rank (ti_code i)) Z.compare)
    (then_with (cmp_on ti_path String.compare) (cmp_on ti_message String.compare)).

(** [DomainPackSourceAssurance] derives its order. *)
Definition assurance_rank (a : DomainPackSourceAssurance) : Z :=
  match a with
  | DomainPackSourceAssurance_ExplicitlyUntrusted => 0
  | DomainPackSourceAssurance_LocalExplicit => 1
  | DomainPackSourceAssurance_SupplyChainVerified => 2
  end.

(** [format!("{:?}", kind)] and [format!("{:?}", code)]. *)
Definition capability_kind_debug (kind : DomainPackCapabilityKind) : string :=
  match kind with
  | DomainPackCapabilityKind_Knowledge => "Knowledge"
  | DomainPackCapabilityKind_Evaluator => "Evaluator"
  | DomainPackCapabilityKind_Adapter => "Adapter"
  | DomainPackCapabilityKind_Tool => "Tool"
  | DomainPackCapabilityKind_Runtime => "Runtime"
  | DomainPackCapabilityKind_Credential => "Credential"
  | DomainPackCapabilityKind_HumanReview => "HumanReview"
  | DomainPackCapabilityKind_ExternalAuthority => "ExternalAuthority"
  end.

Definition gap_code_debug (code : DomainPackRuntimeCapabilityGapCode) : string :=
  match code with
  | DomainPackRuntimeCapabilityGapCode_MissingBinding => "MissingBinding"
  | DomainPackRuntimeCapabilityGapCode_UndeclaredBinding => "UndeclaredBinding"
  | DomainPackRuntimeCapabilityGapCode_PackageDigestMismatch => "PackageDigestMismatch"
  | DomainPackRuntimeCapabilityGapCode_KindMismatch => "KindMismatch"
  | DomainPackRuntimeCapabilityGapCode_ExternalProviderDenied => "ExternalProviderDenied"
  | DomainPackRuntimeCapabilityGapCode_Disabled => "Disabled"
  | DomainPackRuntimeCapabilityGapCode_Unavailable => "Unavailable"
  | DomainPackRuntimeCapabilityGapCode_Revoked => "Revoked"
  end.

Definition demand_cmp : DomainPackCapabilityDemand -> DomainPackCapabilityDemand -> comparison :=
  then_with (cmp_on (fun d => StableId_0 (cdm_subject_ref d)) String.compare)
    (then_with (cmp_on (fun d => StableId_0 (cdm_capability_ref d)) String.compare)
      (cmp_on (fun d => capability_kind_debug (cdm_kind d)) String.compare)).

Definition binding_cmp : DomainPackRuntimeCapabilityBinding -> DomainPackRuntimeCapabilityBinding -> comparison :=
  then_with (cmp_on (fun b => StableId_0 (rcb_binding_id b)) String.compare)
    (then_with (cmp_on (fun b => StableId_0 (rcb_subject_ref b)) String.compare)
      (cmp_on (fun b => StableId_0 (rcb_capability_ref b)) String.compare)).

Definition gap_cmp : DomainPackRuntimeCapabilityGap -> DomainPackRuntimeCapabilityGap -> comparison :=
  then_with (cmp_on (fun g => StableId_0 (vr_publisher (rcg_pack g))) String.compare)
    (then_with (cmp_on (fun g => StableId_0 (vr_name (rcg_pack g))) String.compare)
      (then_with (cmp_on (fun g => vr_version (rcg_pack g)) String.compare)
        (then_with (cmp_on (fun g => StableId_0 (rcg_subject_ref g)) String.compare)
          (then_with (cmp_on (fun g => StableId_0 (rcg_capability_ref g)) String.compare)
            (cmp_on (fun g => gap_code_debug (rcg_code g)) String.compare))))).

Definition decision_cmp : DomainPackLifecycleTrustDecision -> DomainPackLifecycleTrustDecision -> comparison :=
  then_with (cmp_on ltd_package_digest String.compare) (cmp_on (fun d => StableId_0 (ltd_rule_ref d)) String.compare).

(** ** Keys and paths *)

Definition package_key (package : DomainPackResolvedPackage) : PackageKey := {|
  pk_publisher := id_publisher (rp_identity package); pk_name := id_name (rp_identity package);
  pk_version := id_version (rp_identity package) |}.

Definition version_ref_matches (version_ref : DomainPackVersionReference) (key : PackageKey) : bool :=
  bool_decide (vr_publisher version_ref = pk_publisher key) && bool_decide (vr_name version_ref = pk_name key)
  && bool_decide (vr_version version_ref = pk_version key).

Definition package_path (key : PackageKey) : string :=
  "selected." +:+ StableId_0 (pk_publisher key) +:+ "." +:+ StableId_0 (pk_name key) +:+ "/" +:+ pk_version key.

Definition demand_path (key : DemandKey) : string :=
  package_path (dk_package key) +:+ ".capability_demands." +:+ StableId_0 (dk_subject_ref key) +:+ "."
  +:+ StableId_0 (dk_capability_ref key).

Definition gap (key : DemandKey) (code : DomainPackRuntimeCapabilityGapCode) (message : string) : DomainPackRuntimeCapabilityGap := {|
  rcg_code := code;
  rcg_pack := {| vr_publisher := pk_publisher (dk_package key); vr_name := pk_name (dk_package key);
                 vr_version := pk_version (dk_package key) |};
  rcg_subject_ref := dk_subject_ref key; rcg_capability_ref := dk_capability_ref key; rcg_message := message |}.

Definition trust_issue (code : DomainPackTrustIssueCode) (path message : string) : DomainPackTrustIssue := {|
  ti_code := code; ti_path := path; ti_message := message |}.

(** [if bad { issue(&mut issues, ..) }], as what is pushed. *)
Definition trust_issue_if (bad : bool) (code : DomainPackTrustIssueCode) (path message : string) : list DomainPackTrustIssue :=
  if bad then [trust_issue code path message] else [].

(** ** Rules *)

Definition rule_matches (package : DomainPackResolvedPackage) (package_digest content_digest : string)
    (rule : DomainPackTrustRule) : bool :=
  bool_decide (co_publisher (tr_pack rule) = id_publisher (rp_identity package))
  && bool_decide (co_name (tr_pack rule) = id_name (rp_identity package))
  && option_all (fun digest => bool_decide (digest = package_digest)) (tr_package_digest rule)
  && option_all (fun digest => bool_decide (digest = content_digest)) (tr_content_digest rule).

Definition specificity (rule : DomainPackTrustRule) : Z :=
  ((if is_none (tr_package_digest rule) then 0 else 1) + (if is_none (tr_content_digest rule) then 0 else 1))%Z.

Definition rule_cmp : DomainPackTrustRule -> DomainPackTrustRule -> comparison :=
  then_with (rev_cmp (cmp_on specificity Z.compare)) (cmp_on (fun r => StableId_0 (tr_rule_id r)) String.compare).

Definition DEFAULT_DISPOSITION_RULE : StableId := mk_StableId "domain-pack.trust.default-disposition".

(** [iter().take_while(..).any(..)]. *)
Fixpoint take_while {A} (f : A -> bool) (l : list A) : list A :=
  match l with
  | x :: r => if f x then x :: take_while f r else []
  | [] => []
  end.

Definition select_rule (policy : DomainPackTrustPolicy) (package : DomainPackResolvedPackage)
    (package_digest content_digest : string) : DomainPackTrustDisposition * StableId * bool :=
  let matches := sort_with (le_of rule_cmp) (List.filter (rule_matches package package_digest content_digest) (tp_rules policy)) in
  match matches with
  | [] => (tp_default_disposition policy, DEFAULT_DISPOSITION_RULE, false)
  | first :: _ =>
      let ambiguous := existsb (fun rule => negb (bool_decide (tr_disposition rule = tr_disposition first)))
        (take_while (fun rule => (specificity rule =? specificity first)%Z) matches) in
      (tr_disposition first, tr_rule_id first, ambiguous)
  end.

(** ** Bindings *)

Inductive BindingOutcome :=
| BindingOutcome_Allowed (binding : DomainPackRuntimeCapabilityBinding) (provider_id : StableId)
| BindingOutcome_Gap (code : DomainPackRuntimeCapabilityGapCode) (message : string).

Definition is_builtin (provider : DomainPackRuntimeProvider) : bool :=
  match provider with DomainPackRuntimeProvider_CoreBuiltin _ => true | _ => false end.

Definition provider_id_of (provider : DomainPackRuntimeProvider) : StableId :=
  match provider with
  | DomainPackRuntimeProvider_CoreBuiltin id | DomainPackRuntimeProvider_LocalProcess id | DomainPackRuntimeProvider_Mcp id
  | DomainPackRuntimeProvider_RuntimeHandshake id | DomainPackRuntimeProvider_ExternalConnector id => id
  end.

Definition has_status (status : DomainPackRuntimeCapabilityStatus) (binding : DomainPackRuntimeCapabilityBinding) : bool :=
  bool_decide (rcb_status binding = status).

(** [min_by_key(|binding| binding.binding_id.clone())]: the first of the least ones. *)
Fixpoint min_binding (l : list DomainPackRuntimeCapabilityBinding) : option DomainPackRuntimeCapabilityBinding :=
  match l with
  | [] => None
  | b :: r =>
      match min_binding r with
      | None => Some b
      | Some c => if String.leb (StableId_0 (rcb_binding_id b)) (StableId_0 (rcb_binding_id c)) then Some b else Some c
      end
  end.

(** The last [let .. else] is [unreachable!]: PackTrust shows that its binding is built in. *)
Definition evaluate_binding_candidates (key : DemandKey) (demand : DomainPackCapabilityDemand) (package : DomainPackResolvedPackage)
    (disposition : DomainPackTrustDisposition) (candidates : list DomainPackRuntimeCapabilityBinding)
    (allowed_binding_ids : list StableId) : BindingOutcome :=
  let exact_pack := List.filter (fun b => version_ref_matches (rcb_pack b) (dk_package key)) candidates in
  let exact_digest := List.filter (fun b => bool_decide (rcb_package_digest b = pb_package_digest (rp_package package))) exact_pack in
  let exact_kind := List.filter (fun b => bool_decide (rcb_kind b = cdm_kind demand)) exact_digest in
  let available := List.filter (has_status DomainPackRuntimeCapabilityStatus_Available) exact_kind in
  if is_nil candidates
  then BindingOutcome_Gap DomainPackRuntimeCapabilityGapCode_MissingBinding
         "no runtime registry binding exists for the exact subject and capability refs"
  else if is_nil exact_pack
  then BindingOutcome_Gap DomainPackRuntimeCapabilityGapCode_UndeclaredBinding
         "runtime binding belongs to a different package coordinate or version"
  else if is_nil exact_digest
  then BindingOutcome_Gap DomainPackRuntimeCapabilityGapCode_PackageDigestMismatch
         "runtime binding package digest does not match the selected package"
  else if is_nil exact_kind
  then BindingOutcome_Gap DomainPackRuntimeCapabilityGapCode_KindMismatch
         "runtime binding capability kind does not match the structural demand"
  else if existsb (has_status DomainPackRuntimeCapabilityStatus_Revoked) exact_kind
  then BindingOutcome_Gap DomainPackRuntimeCapabilityGapCode_Revoked "runtime binding is revoked"
  else if existsb (has_status DomainPackRuntimeCapabilityStatus_Disabled) exact_kind
  then BindingOutcome_Gap DomainPackRuntimeCapabilityGapCode_Disabled "runtime binding is disabled"
  else if forallb (fun b => negb (has_status DomainPackRuntimeCapabilityStatus_Available b)) exact_kind
  then BindingOutcome_Gap DomainPackRuntimeCapabilityGapCode_Unavailable "runtime binding is unavailable"
  else if existsb (fun b => negb (is_builtin (rcb_provider b))) available
  then BindingOutcome_Gap DomainPackRuntimeCapabilityGapCode_ExternalProviderDenied
         "external runtime providers are denied in P6b"
  else if negb (bool_decide (disposition = DomainPackTrustDisposition_ActivateDeclarativeKnowledgeAndBoundBuiltIns))
  then BindingOutcome_Gap DomainPackRuntimeCapabilityGapCode_UndeclaredBinding
         "trust disposition does not permit bound built-in execution"
  else match min_binding (List.filter (fun b => bool_decide (rcb_binding_id b ∈ allowed_binding_ids)) available) with
       | None => BindingOutcome_Gap DomainPackRuntimeCapabilityGapCode_UndeclaredBinding
                   "exact built-in binding is not allowlisted by the sandbox policy"
       | Some binding => BindingOutcome_Allowed binding (provider_id_of (rcb_provider binding))
       end.

(** ** Packages *)

Definition supply_chain_verified (s : DomainPackSupplyChainAssessment) : bool :=
  sca_publisher_signature_verified s && sca_registry_signature_threshold_verified s
  && sca_namespace_grant_verified s && negb (sca_revoked s).

Definition assessment_matches (selected : DomainPackTrustSelectedPackage) : bool :=
  let package := tsp_package selected in
  bool_decide (sca_package_digest (tsp_supply_chain selected) = pb_package_digest (rp_package package))
  && bool_decide (sca_registry_record_digest (tsp_supply_chain selected) = rp_registry_record_digest package).

(** The disposition of a selected package, the rule it comes from and the issues of the turn up to the
    decision; [duplicate] says that its key was seen before. *)
Definition decide_package (policy : DomainPackTrustPolicy) (duplicate : bool) (selected : DomainPackTrustSelectedPackage)
    : DomainPackTrustDisposition * StableId * list DomainPackTrustIssue :=
  let package := tsp_package selected in
  let path := package_path (package_key package) in
  let '(disposition, rule_ref, ambiguous) := select_rule policy package (pb_package_digest (rp_package package))
    (cb_canonical_sha256 (pb_content (rp_package package))) in
  let below := (assurance_rank (rp_source_assurance package) <? assurance_rank (tp_minimum_activation_assurance policy))%Z in
  let default_deny := bool_decide (tp_default_disposition policy = DomainPackTrustDisposition_Reject) in
  let rejected := ambiguous || negb (tsp_structurally_valid selected) || negb (assessment_matches selected)
    || negb (supply_chain_verified (tsp_supply_chain selected)) || below || (duplicate || negb default_deny) in
  let disposition := if rejected then DomainPackTrustDisposition_Reject else disposition in
  (disposition, rule_ref,
   (trust_issue_if duplicate TrustIssue_DuplicateSelectedPackage path "selected package coordinate and version is duplicated"
   ++ trust_issue_if ambiguous TrustIssue_AmbiguousTrustRule (path +:+ ".trust_rule") "equally specific matching trust rules disagree"
   ++ trust_issue_if (negb (tsp_structurally_valid selected)) TrustIssue_StructuralAssessmentFailed
        (path +:+ ".structurally_valid") "package did not pass structural assessment"
   ++ trust_issue_if (negb (assessment_matches selected)) TrustIssue_SupplyChainAssessmentMismatch (path +:+ ".supply_chain")
        "supply-chain assessment does not bind the selected package and registry record"
   ++ trust_issue_if (negb (supply_chain_verified (tsp_supply_chain selected))) TrustIssue_SupplyChainRejected (path +:+ ".supply_chain")
        "package supply-chain assessment is incomplete or revoked"
   ++ trust_issue_if below TrustIssue_BelowMinimumAssurance (path +:+ ".source_assurance")
        "selected package is below the trust policy minimum activation assurance"
   ++ trust_issue_if (bool_decide (disposition = DomainPackTrustDisposition_Reject)) TrustIssue_TrustRejected
        (path +:+ ".disposition") "selected package is rejected by trust policy")%list).

(** A [BTreeMap] as its entries: [insert] replaces the entry of the key. *)
Definition assoc_insert {K V} `{EqDecision K} (k : K) (v : V) (m : list (K * V)) : list (K * V) :=
  (k, v) :: List.filter (fun e => negb (bool_decide (fst e = k))) m.

Definition assoc_get {K V} `{EqDecision K} (k : K) (m : list (K * V)) : option V :=
  match List.find (fun e => bool_decide (fst e = k)) m with Some e => Some (snd e) | None => None end.

Notation Demands := (list (DemandKey * (DomainPackCapabilityDemand * DomainPackResolvedPackage))).
Notation Dispositions := (list (PackageKey * DomainPackTrustDisposition)).

Record TrustState := {
  ts_issues : list DomainPackTrustIssue;
  ts_decisions : list DomainPackLifecycleTrustDecision;
  ts_selected_keys : list PackageKey;
  ts_dispositions : Dispositions;
  ts_demands : Demands
}.

(** One turn of the loop over the demands of a package. *)
Definition add_demand (key : PackageKey) (package : DomainPackResolvedPackage)
    (st : Demands * list DomainPackTrustIssue) (demand : DomainPackCapabilityDemand) : Demands * list DomainPackTrustIssue :=
  let '(demands, issues) := st in
  let demand_key := {| dk_package := key; dk_subject_ref := cdm_subject_ref demand; dk_capability_ref := cdm_capability_ref demand |} in
  (assoc_insert demand_key (demand, package) demands,
   (issues ++ trust_issue_if (negb (is_none (assoc_get demand_key demands))) TrustIssue_DuplicateCapabilityDemand
      (demand_path demand_key) "capability demand is duplicated")%list).

(** One turn of the loop over the selected packages. *)
Definition trust_step (policy : DomainPackTrustPolicy) (st : TrustState) (selected : DomainPackTrustSelectedPackage) : TrustState :=
  let package := tsp_package selected in
  let key := package_key package in
  let duplicate := bool_decide (key ∈ ts_selected_keys st) in
  let '(disposition, rule_ref, issues) := decide_package policy duplicate selected in
  let '(demands, demand_issues) :=
    foldl (add_demand key package) (ts_demands st, []) (sort_with (le_of demand_cmp) (tsp_capability_demands selected)) in {|
  ts_issues := (ts_issues st ++ issues ++ demand_issues)%list;
  ts_decisions := (ts_decisions st ++ [{| ltd_package_digest := pb_package_digest (rp_package package);
                                          ltd_disposition := disposition; ltd_rule_ref := rule_ref |}])%list;
  ts_selected_keys := key :: ts_selected_keys st;
  ts_dispositions := assoc_insert key disposition (ts_dispositions st);
  ts_demands := demands |}.

(** The loop over the sorted bindings that reports repeated ids. *)
Fixpoint duplicate_bindings (seen : list StableId) (bindings : list DomainPackRuntimeCapabilityBinding) : list DomainPackTrustIssue :=
  match bindings with
  | [] => []
  | binding :: rest =>
      (trust_issue_if (bool_decide (rcb_binding_id binding ∈ seen)) TrustIssue_DuplicateRuntimeBinding
         ("capability_registry.bindings." +:+ StableId_0 (rcb_binding_id binding)) "runtime capability binding id is duplicated"
       ++ duplicate_bindings (rcb_binding_id binding :: seen) rest)%list
  end.

Definition locked_binding (binding : DomainPackRuntimeCapabilityBinding) (provider_id : StableId) : DomainPackLockedCapabilityBinding := {|
  lcb_binding_id := rcb_binding_id binding; lcb_pack := rcb_pack binding; lcb_package_digest := rcb_package_digest binding;
  lcb_subject_ref := rcb_subject_ref binding; lcb_capability_ref := rcb_capability_ref binding; lcb_provider_id := provider_id;
  lcb_implementation_digest := rcb_implementation_digest binding; lcb_decision := DomainPackSandboxDecision_AllowedBoundBuiltin |}.

(** The outcome of one demand. *)
Definition demand_outcome (dispositions : Dispositions) (bindings : list DomainPackRuntimeCapabilityBinding) (allowed : list StableId)
    (entry : DemandKey * (DomainPackCapabilityDemand * DomainPackResolvedPackage)) : BindingOutcome :=
  let '(key, (demand, package)) := entry in
  let candidates := List.filter (fun b => bool_decide (rcb_subject_ref b = cdm_subject_ref demand)
    && bool_decide (rcb_capability_ref b = cdm_capability_ref demand)) bindings in
  evaluate_binding_candidates key demand package
    (default DomainPackTrustDisposition_Reject (assoc_get (dk_package key) dispositions)) candidates allowed.

(** The two arms of [match outcome]: verified bindings, gaps and issues of one demand. *)
Definition outcome_effects (dispositions : Dispositions) (bindings : list DomainPackRuntimeCapabilityBinding) (allowed : list StableId)
    (entry : DemandKey * (DomainPackCapabilityDemand * DomainPackResolvedPackage))
    : list DomainPackLockedCapabilityBinding * list DomainPackRuntimeCapabilityGap * list DomainPackTrustIssue :=
  match demand_outcome dispositions bindings allowed entry with
  | BindingOutcome_Allowed binding provider_id => ([locked_binding binding provider_id], [], [])
  | BindingOutcome_Gap code message =>
      ([], [gap (fst entry) code message],
       [trust_issue TrustIssue_CapabilityDenied (demand_path (fst entry))
          "runtime capability demand is not satisfied by an exact allowed built-in"])
  end.

Definition binding_demand_key (binding : DomainPackRuntimeCapabilityBinding) : DemandKey := {|
  dk_package := {| pk_publisher := vr_publisher (rcb_pack binding); pk_name := vr_name (rcb_pack binding);
                   pk_version := vr_version (rcb_pack binding) |};
  dk_subject_ref := rcb_subject_ref binding; dk_capability_ref := rcb_capability_ref binding |}.

(** A registry binding nobody demanded. *)
Definition inert_gap (demands : Demands) (binding : DomainPackRuntimeCapabilityBinding) : list DomainPackRuntimeCapabilityGap :=
  let key := binding_demand_key binding in
  if negb (is_none (assoc_get key demands)) then []
  else [gap key (if is_builtin (rcb_provider binding) then DomainPackRuntimeCapabilityGapCode_UndeclaredBinding
                 else DomainPackRuntimeCapabilityGapCode_ExternalProviderDenied)
          "runtime registry binding has no exact structurally assessed demand"].

Section trust.
Context `{Sha256} `{Canonical TrustDigestSubject}.

(** [canonical_digest] of this module hashes a fixed text when the encoder fails. *)
Definition trust_digest (value : TrustDigestSubject) : string :=
  default (sha256_bytes (to_bytes "domain-pack-trust-encoding-failed")) (canonical_digest value).

Definition initial_issues (input : DomainPackTrustEvaluationInput) : list DomainPackTrustIssue :=
  (trust_issue_if (negb (bool_decide (tp_default_disposition (tei_trust_policy input) = DomainPackTrustDisposition_Reject)))
     TrustIssue_PolicyDefaultNotDeny "trust_policy.default_disposition" "P6b trust policy must default to reject"
   ++ trust_issue_if (negb (bool_decide (rcr_project_id (tei_capability_registry input) = tei_project_id input)))
        TrustIssue_ProjectMismatch "capability_registry.project_id" "runtime capability registry belongs to a different project")%list.

(** The state after the loop over the selected packages. *)
Definition trust_state (input : DomainPackTrustEvaluationInput) : TrustState :=
  foldl (trust_step (tei_trust_policy input))
    {| ts_issues := initial_issues input; ts_decisions := []; ts_selected_keys := []; ts_dispositions := []; ts_demands := [] |}
    (sort_with (le_of (cmp_on (fun s => package_key (tsp_package s)) package_key_cmp)) (tei_selected input)).

Definition evaluate_domain_pack_trust (input : DomainPackTrustEvaluationInput) : DomainPackTrustEvaluation :=
  let st := trust_state input in
  let allowed := csp_allowed_builtin_binding_ids (tei_sandbox_policy input) in
  let bindings := sort_with (le_of binding_cmp) (rcr_bindings (tei_capability_registry input)) in
  let effects := map (outcome_effects (ts_dispositions st) bindings allowed)
    (sort_with (le_of (cmp_on fst demand_key_cmp)) (ts_demands st)) in
  let verified := concat (map (fun e => fst (fst e)) effects) in
  let gaps := (concat (map (fun e => snd (fst e)) effects) ++ concat (map (inert_gap (ts_demands st)) bindings))%list in
  let issues := (ts_issues st ++ duplicate_bindings [] bindings ++ concat (map snd effects))%list in
  let decisions := sort_with (le_of decision_cmp) (ts_decisions st) in
  let verified := sort_by (fun b => StableId_0 (lcb_binding_id b)) verified in
  let gaps := vec_dedup (sort_with (le_of gap_cmp) gaps) in
  let issues := vec_dedup (sort_with (le_of trust_issue_cmp) issues) in
  let status := if is_nil issues && is_nil gaps then TrustStatus_Approved else TrustStatus_Blocked in
  {| tev_status := status; tev_trust_decisions := decisions; tev_verified_capability_bindings := verified;
     tev_capability_gaps := gaps; tev_issues := issues;
     tev_evaluation_digest := trust_digest {|
       tds_status := status; tds_trust_decisions := decisions; tds_verified_capability_bindings := verified;
       tds_capability_gaps := gaps; tds_issues := issues |} |}.

End trust.
