(* ===== verification/PackTrustSpec.v ===== *)
(** * What trust evaluation guarantees

    Default deny, stated on the output of [evaluate_domain_pack_trust]: what a verified binding rests
    on, and what an approved evaluation has established for every package, demand and binding. *)

From S2P Require Import Prelude RustStr BTree Ordering Contracts AssuranceContracts WorkflowContracts DomainPackContracts PackRegistry PackResolution PackTrust.

Local Open Scope nat_scope.

(** ** Association lists *)

Section assoc.
Context {K V : Type} `{EqDecision K}.
Implicit Types m : list (K * V).

Lemma assoc_get_insert k v m j : assoc_get j (assoc_insert k v m) = if decide (j = k) then Some v else assoc_get j m.
Proof.
  unfold assoc_get, assoc_insert. simpl. destruct (decide (j = k)) as [->|Hne].
  - by rewrite bool_decide_eq_true_2.
  - rewrite bool_decide_eq_false_2 by congruence. induction m as [|[i w] m IH]; simpl; [done|].
    destruct (decide (i = k)) as [->|Hik].
    + rewrite bool_decide_eq_true_2 by done. simpl. rewrite (bool_decide_eq_false_2 (k = j)) by congruence. exact IH.
    + rewrite (bool_decide_eq_false_2 (i = k)) by done. simpl. destruct (bool_decide (i = j)); [done | exact IH].
Qed.

Lemma elem_of_assoc_insert k v m e : e ∈ assoc_insert k v m -> e = (k, v) \/ e ∈ m.
Proof. unfold assoc_insert. rewrite elem_of_cons, filter_In_iff. naive_solver. Qed.

Lemma assoc_get_elem k m v : assoc_get k m = Some v -> (k, v) ∈ m.
Proof.
  unfold assoc_get. destruct (List.find _ m) as [[j w]|] eqn:E; [|done]. intros [= <-].
  apply find_some_In in E as [Hin Hk]. simpl in Hk. by apply bool_decide_eq_true in Hk as ->.
Qed.

End assoc.

(** ** Bindings *)

Lemma min_binding_elem l b : min_binding l = Some b -> b ∈ l.
Proof.
  revert b. induction l as [|c l IH]; intros b; simpl; [done|]. destruct (min_binding l) as [d|].
  - destruct (String.leb _ _); intros [= <-]; [by left | right; by apply IH].
  - intros [= <-]. by left.
Qed.

(** What an allowed outcome has checked of its binding. *)
Lemma allowed_binding key demand package disposition candidates allowed binding provider :
  evaluate_binding_candidates key demand package disposition candidates allowed = BindingOutcome_Allowed binding provider ->
  binding ∈ candidates /\ version_ref_matches (rcb_pack binding) (dk_package key) = true
  /\ rcb_package_digest binding = pb_package_digest (rp_package package) /\ rcb_kind binding = cdm_kind demand
  /\ rcb_status binding = DomainPackRuntimeCapabilityStatus_Available
  /\ rcb_provider binding = DomainPackRuntimeProvider_CoreBuiltin provider
  /\ rcb_binding_id binding ∈ allowed
  /\ disposition = DomainPackTrustDisposition_ActivateDeclarativeKnowledgeAndBoundBuiltIns.
Proof.
  unfold evaluate_binding_candidates. do 7 (destruct (_ : bool); [done|]).
  destruct (existsb (fun b => negb (is_builtin (rcb_provider b))) _) eqn:Eb; [done|].
  case_bool_decide as Hd; [|done]. destruct (min_binding _) as [b|] eqn:Em; [|done]. simpl. intros [= -> <-].
  apply min_binding_elem, filter_In_iff in Em as [Hav Hal]. pose proof Hav as Hin.
  rewrite !filter_In_iff in Hin. unfold has_status in Hin. rewrite !bool_decide_eq_true in Hin.
  destruct Hin as ((((Hc & Hp) & Hdg) & Hk) & Hs). apply bool_decide_eq_true in Hal.
  pose proof (proj1 (existsb_not_In _ _) Eb binding Hav) as Hbi. simpl in Hbi.
  split_and!; try done. by destruct (rcb_provider binding).
Qed.

(** ** The loop over the packages *)

(** The verdict on a package that is not a duplicate. *)
Definition verdict (policy : DomainPackTrustPolicy) (s : DomainPackTrustSelectedPackage) : DomainPackTrustDisposition :=
  fst (fst (decide_package policy false s)).

(** What stands behind a verdict other than rejection. *)
Record Trusted (policy : DomainPackTrustPolicy) (s : DomainPackTrustSelectedPackage) (disposition : DomainPackTrustDisposition) : Prop := {
  tr_structural : tsp_structurally_valid s = true;
  tr_assessed : assessment_matches s = true;
  tr_supply_chain : supply_chain_verified (tsp_supply_chain s) = true;
  tr_assurance : (assurance_rank (tp_minimum_activation_assurance policy) <= assurance_rank (rp_source_assurance (tsp_package s)))%Z;
  tr_default_deny : tp_default_disposition policy = DomainPackTrustDisposition_Reject;
  tr_rule : exists rule, rule ∈ tp_rules policy
    /\ rule_matches (tsp_package s) (pb_package_digest (rp_package (tsp_package s)))
         (cb_canonical_sha256 (pb_content (rp_package (tsp_package s)))) rule = true
    /\ tr_disposition rule = disposition
    /\ forall other, other ∈ tp_rules policy ->
         rule_matches (tsp_package s) (pb_package_digest (rp_package (tsp_package s)))
           (cb_canonical_sha256 (pb_content (rp_package (tsp_package s)))) other = true ->
         (specificity other <= specificity rule)%Z
}.

Lemma rule_cmp_lawful : lawful_cmp rule_cmp.
Proof. unfold rule_cmp. auto with forge. Qed.

(** The rule that decides is one of the most specific ones. *)
Lemma select_rule_spec policy package pd cd disposition rule_ref ambiguous :
  select_rule policy package pd cd = (disposition, rule_ref, ambiguous) ->
  disposition = tp_default_disposition policy \/
  exists rule, rule ∈ tp_rules policy /\ rule_matches package pd cd rule = true /\ tr_disposition rule = disposition
    /\ forall other, other ∈ tp_rules policy -> rule_matches package pd cd other = true -> (specificity other <= specificity rule)%Z.
Proof.
  unfold select_rule. set (matching := List.filter (rule_matches package pd cd) (tp_rules policy)).
  pose proof (sort_with_strongly_sorted (le_of rule_cmp) matching (lawful_total _ rule_cmp_lawful) (lawful_trans _ rule_cmp_lawful)) as Hs.
  pose proof (elem_of_sort_with (le_of rule_cmp) matching) as Hel.
  destruct (sort_with (le_of rule_cmp) matching) as [|first rest]; intros [= <- <- _]; [by left|right].
  assert (first ∈ matching) as Hf by (apply Hel; by left). apply filter_In_iff in Hf as [Hf Hm].
  exists first. split_and!; [done|done|done|]. intros other Ho Hmo.
  assert (other ∈ first :: rest) as Hin by (apply Hel, filter_In_iff; done).
  apply elem_of_cons in Hin as [->|Hin]; [lia|]. inversion Hs as [|? ? _ Hall]; subst. rewrite Forall_forall in Hall.
  specialize (Hall _ Hin). unfold Le, le_of, rule_cmp, then_with, rev_cmp, cmp_on in Hall.
  destruct (Z.compare_spec (specificity other) (specificity first)); [lia|lia|done].
Qed.

Lemma decide_package_trusted policy duplicate s disposition rule_ref issues :
  decide_package policy duplicate s = (disposition, rule_ref, issues) ->
  disposition <> DomainPackTrustDisposition_Reject ->
  duplicate = false /\ Trusted policy s disposition.
Proof.
  unfold decide_package. destruct (select_rule _ _ _ _) as [[d r] ambiguous] eqn:Er.
  set (rejected := _ || _ || _ || _ || _ || _). intros [= <- <- _] Hd. destruct rejected eqn:E; [done|].
  unfold rejected in E. repeat match goal with H : _ || _ = false |- _ => apply orb_false_iff in H as [? ?] end.
  repeat match goal with H : negb _ = false |- _ => apply negb_false_iff in H end. bool_simpl.
  split; [done|]. split; try done. apply select_rule_spec in Er as [->|Hr]; [congruence|done].
Qed.

Definition processed_keys (l : list DomainPackTrustSelectedPackage) : list PackageKey := map (fun s => package_key (tsp_package s)) l.

(** The keys, dispositions and demands after the packages [done]. *)
Record trust_inv (policy : DomainPackTrustPolicy) (processed : list DomainPackTrustSelectedPackage) (st : TrustState) : Prop := {
  tv_keys key : key ∈ ts_selected_keys st <-> key ∈ processed_keys processed;
  tv_dispositions key d : assoc_get key (ts_dispositions st) = Some d -> d <> DomainPackTrustDisposition_Reject ->
    forall s, s ∈ processed -> package_key (tsp_package s) = key -> Trusted policy s d;
  tv_demands key demand package : (key, (demand, package)) ∈ ts_demands st ->
    exists s, s ∈ processed /\ tsp_package s = package /\ demand ∈ tsp_capability_demands s
      /\ key = {| dk_package := package_key package; dk_subject_ref := cdm_subject_ref demand; dk_capability_ref := cdm_capability_ref demand |};
  tv_served s demand : s ∈ processed -> demand ∈ tsp_capability_demands s ->
    is_Some (assoc_get {| dk_package := package_key (tsp_package s); dk_subject_ref := cdm_subject_ref demand;
                          dk_capability_ref := cdm_capability_ref demand |} (ts_demands st));
  tv_issues : ts_issues st = [] -> Forall (fun s => exists d, d <> DomainPackTrustDisposition_Reject /\ Trusted policy s d) processed
    /\ NoDup (processed_keys processed)
}.

Definition demand_key_of (key : PackageKey) (demand : DomainPackCapabilityDemand) : DemandKey :=
  {| dk_package := key; dk_subject_ref := cdm_subject_ref demand; dk_capability_ref := cdm_capability_ref demand |}.

Lemma add_demands_spec key package l demands issues demands' issues' :
  foldl (add_demand key package) (demands, issues) l = (demands', issues') ->
  (forall e, e ∈ demands' -> e ∈ demands \/ exists demand, demand ∈ l /\ e = (demand_key_of key demand, (demand, package)))
  /\ (forall k, is_Some (assoc_get k demands') <-> is_Some (assoc_get k demands) \/ exists demand, demand ∈ l /\ k = demand_key_of key demand).
Proof.
  revert demands issues. induction l as [|demand l IH]; intros demands issues; simpl.
  - intros [= <- <-]. set_solver.
  - intros [He Hk]%IH. split.
    + intros e Hin. destruct (He e Hin) as [Hi|(d & Hd & ->)].
      * apply elem_of_assoc_insert in Hi as [->|]; [|by left]. right. exists demand. split; [by left|done].
      * right. exists d. split; [by right|done].
    + intros k. rewrite Hk, assoc_get_insert. fold (demand_key_of key demand). setoid_rewrite elem_of_cons.
      destruct (decide (k = demand_key_of key demand)) as [->|]; naive_solver.
Qed.

Lemma trust_issue_if_nil bad code path message : trust_issue_if bad code path message = [] <-> bad = false.
Proof. by destruct bad. Qed.

Lemma trust_step_inv policy processed st s :
  trust_inv policy processed st -> trust_inv policy (processed ++ [s]) (trust_step policy st s).
Proof.
  intros Hi. unfold trust_step.
  destruct (decide_package policy _ s) as [[disposition rule_ref] issues] eqn:Ed.
  destruct (foldl (add_demand _ _) _ _) as [demands demand_issues] eqn:Ef. apply add_demands_spec in Ef as [He Hk].
  assert (forall x, x ∈ processed ++ [s] <-> x ∈ processed \/ x = s) as Hp
    by (intros x; rewrite elem_of_app, list_elem_of_singleton; done).
  assert (forall key, key ∈ processed_keys (processed ++ [s]) <-> key ∈ processed_keys processed \/ key = package_key (tsp_package s)) as Hpk.
  { intros key. unfold processed_keys. rewrite map_app, elem_of_app. simpl. by rewrite list_elem_of_singleton. }
  split; cbn [ts_issues ts_decisions ts_selected_keys ts_dispositions ts_demands].
  - intros key. rewrite elem_of_cons, Hpk, (tv_keys _ _ _ Hi). naive_solver.
  - intros key d. rewrite assoc_get_insert. destruct (decide (key = _)) as [->|Hne].
    + intros [= ->] Hd x Hx Ex. destruct (decide_package_trusted _ _ _ _ _ _ Ed Hd) as [Hdup Ht].
      apply Hp in Hx as [Hx| ->]; [|done]. exfalso. apply bool_decide_eq_false in Hdup. apply Hdup.
      apply (tv_keys _ _ _ Hi). unfold processed_keys. rewrite <- Ex. apply list_elem_of_fmap. by eauto.
    + intros Hg Hd x Hx Ex. apply Hp in Hx as [Hx| ->]; [by eapply tv_dispositions | congruence].
  - intros key demand package Hin. destruct (He _ Hin) as [Hold|(d & Hd & E)].
    + destruct (tv_demands _ _ _ Hi _ _ _ Hold) as (x & Hx & ?). exists x. split; [apply Hp; by left|done].
    + injection E as -> -> ->. exists s. split_and!; [apply Hp; by right|done|by apply elem_of_sort_with in Hd|done].
  - intros x demand Hx Hd. apply Hk. apply Hp in Hx as [Hx| ->]; [left; by eapply tv_served|].
    right. exists demand. split; [by apply elem_of_sort_with|done].
  - intros E. apply app_nil_iff in E as [E1 E2]. apply app_nil_iff in E2 as [E2 _].
    destruct (tv_issues _ _ _ Hi E1) as [Hall Hnd].
    assert (disposition <> DomainPackTrustDisposition_Reject /\ bool_decide (package_key (tsp_package s) ∈ ts_selected_keys st) = false) as [Hd Hdup].
    { revert Ed. unfold decide_package. destruct (select_rule _ _ _ _) as [[d r] amb]. intros [= Eq1 _ Eq2].
      rewrite Eq1 in Eq2. rewrite <- Eq2 in E2. rewrite !app_nil_iff, !trust_issue_if_nil in E2.
      destruct E2 as (Hdup & _ & _ & _ & _ & _ & Hrej). apply bool_decide_eq_false in Hrej. done. }
    destruct (decide_package_trusted _ _ _ _ _ _ Ed Hd) as [_ Ht]. split.
    + apply Forall_app. split; [done|]. constructor; [by eauto|constructor].
    + unfold processed_keys. rewrite map_app. apply NoDup_app. split_and!; [done| |apply NoDup_singleton].
      intros key Hkey ->%list_elem_of_singleton. apply bool_decide_eq_false in Hdup. apply Hdup. by apply (tv_keys _ _ _ Hi).
Qed.

Lemma trust_fold_inv policy l processed st :
  trust_inv policy processed st -> trust_inv policy (processed ++ l) (foldl (trust_step policy) st l).
Proof.
  revert processed st. induction l as [|s l IH]; intros processed st Hi; cbn [foldl]; [by rewrite app_nil_r|].
  rewrite cons_middle, app_assoc. by apply IH, trust_step_inv.
Qed.

(** The order in which the packages are processed. *)
Definition in_turn (input : DomainPackTrustEvaluationInput) : list DomainPackTrustSelectedPackage :=
  sort_with (le_of (cmp_on (fun s => package_key (tsp_package s)) package_key_cmp)) (tei_selected input).

Lemma trust_state_inv input : trust_inv (tei_trust_policy input) (in_turn input) (trust_state input).
Proof.
  unfold trust_state. apply (trust_fold_inv _ _ []). split; cbn; try set_solver.
  intros _. split; constructor.
Qed.

(** ** The evaluation *)

Section spec.
Context `{Sha256} `{Canonical TrustDigestSubject}.

Definition sorted_bindings (input : DomainPackTrustEvaluationInput) : list DomainPackRuntimeCapabilityBinding :=
  sort_with (le_of binding_cmp) (rcr_bindings (tei_capability_registry input)).

Definition outcome_of (input : DomainPackTrustEvaluationInput) : DemandKey * (DomainPackCapabilityDemand * DomainPackResolvedPackage) -> BindingOutcome :=
  demand_outcome (ts_dispositions (trust_state input)) (sorted_bindings input)
    (csp_allowed_builtin_binding_ids (tei_sandbox_policy input)).

(** A verified binding is the allowed outcome of a demand. *)
Lemma verified_elem input locked :
  locked ∈ tev_verified_capability_bindings (evaluate_domain_pack_trust input) <->
  exists entry binding provider, entry ∈ ts_demands (trust_state input)
    /\ outcome_of input entry = BindingOutcome_Allowed binding provider /\ locked = locked_binding binding provider.
Proof.
  unfold evaluate_domain_pack_trust. cbn [tev_verified_capability_bindings]. rewrite sort_by_perm, map_map. rewrite list_elem_of_In, in_concat.
  split.
  - intros (l & (entry & <- & Hin)%in_map_iff & Hl). apply list_elem_of_In, elem_of_sort_with in Hin.
    exists entry. unfold outcome_effects in Hl. fold (sorted_bindings input) in Hl. fold (outcome_of input entry) in Hl.
    destruct (outcome_of input entry) as [b p|]; simpl in Hl; [|done]. destruct Hl as [<-|[]]. by eauto.
  - intros (entry & binding & provider & Hin & Ho & ->). eexists. split.
    + apply in_map_iff. exists entry. split; [reflexivity|]. by apply list_elem_of_In, elem_of_sort_with.
    + unfold outcome_effects. fold (sorted_bindings input). fold (outcome_of input entry). rewrite Ho. by left.
Qed.

Lemma version_ref_matches_eq r package : version_ref_matches r (package_key package) = true -> r = version_reference (rp_identity package).
Proof. unfold version_ref_matches. intros Hm. bool_simpl. destruct r. simpl in *. subst. done. Qed.

(** C14: nothing runs unless every observation agrees.  A verified binding is a registry binding of the
    project that is available, served by a core built-in and on the sandbox allowlist, for a capability
    that a selected package of exactly that version and digest demands with that kind; the package passed
    structural and supply-chain assessment, meets the minimum assurance, and one of the most specific
    trust rules that match it permits bound built-ins, under a policy that rejects by default. *)
Theorem verified_binding_grounded input locked :
  locked ∈ tev_verified_capability_bindings (evaluate_domain_pack_trust input) ->
  exists s demand binding,
    s ∈ tei_selected input /\ demand ∈ tsp_capability_demands s
    /\ binding ∈ rcr_bindings (tei_capability_registry input)
    /\ locked = locked_binding binding (lcb_provider_id locked)
    /\ rcb_provider binding = DomainPackRuntimeProvider_CoreBuiltin (lcb_provider_id locked)
    /\ rcb_status binding = DomainPackRuntimeCapabilityStatus_Available
    /\ rcb_binding_id binding ∈ csp_allowed_builtin_binding_ids (tei_sandbox_policy input)
    /\ rcb_pack binding = version_reference (rp_identity (tsp_package s))
    /\ rcb_package_digest binding = pb_package_digest (rp_package (tsp_package s))
    /\ rcb_subject_ref binding = cdm_subject_ref demand /\ rcb_capability_ref binding = cdm_capability_ref demand
    /\ rcb_kind binding = cdm_kind demand
    /\ Trusted (tei_trust_policy input) s DomainPackTrustDisposition_ActivateDeclarativeKnowledgeAndBoundBuiltIns.
Proof.
  intros ([key [demand package]] & binding & provider & Hin & Ho & ->)%verified_elem.
  pose proof (trust_state_inv input) as Hi.
  destruct (tv_demands _ _ _ Hi _ _ _ Hin) as (s & Hs & <- & Hd & ->).
  unfold outcome_of, demand_outcome in Ho. apply allowed_binding in Ho as (Hc & Hv & Hdg & Hk & Hst & Hp & Hal & Hdi).
  apply filter_In_iff in Hc as [Hb Hm]. apply elem_of_sort_with in Hb. cbn [dk_package] in Hv, Hdi. bool_simpl.
  exists s, demand, binding. split_and!; try done.
  - by apply elem_of_sort_with in Hs.
  - by apply version_ref_matches_eq.
  - destruct (assoc_get _ _) as [d|] eqn:Eg; simpl in Hdi; [|done]. subst d.
    by eapply (tv_dispositions _ _ _ Hi); [exact Eg|done|exact Hs|].
Qed.

Lemma approved_nil input :
  tev_status (evaluate_domain_pack_trust input) = TrustStatus_Approved ->
  ts_issues (trust_state input) = []
  /\ (forall entry, entry ∈ ts_demands (trust_state input) -> exists binding provider, outcome_of input entry = BindingOutcome_Allowed binding provider)
  /\ (forall binding, binding ∈ rcr_bindings (tei_capability_registry input) ->
        is_Some (assoc_get (binding_demand_key binding) (ts_demands (trust_state input)))).
Proof.
  unfold evaluate_domain_pack_trust. cbn [tev_status].
  destruct (is_nil (vec_dedup (sort_with (le_of trust_issue_cmp) _))) eqn:Ei; [|done].
  destruct (is_nil (vec_dedup (sort_with (le_of gap_cmp) _))) eqn:Eg; [|done]. intros _.
  match type of Ei with is_nil ?l = true => assert (l = []) as Hi by (by destruct l) end.
  match type of Eg with is_nil ?l = true => assert (l = []) as Hg by (by destruct l) end. clear Ei Eg.
  apply vec_dedup_nil, sort_with_nil in Hi, Hg. rewrite !app_nil_iff in Hi. apply app_nil_iff in Hg. destruct Hi as (Hi & _ & _). destruct Hg as [Hg Hb].
  split_and!; [done| |].
  - intros entry Hin. rewrite map_map in Hg. pose proof (proj1 (concat_map_nil _ _) Hg entry (proj2 (elem_of_sort_with _ _ _) Hin)) as He.
    simpl in He. unfold outcome_effects in He. fold (sorted_bindings input) in He. fold (outcome_of input entry) in He.
    destruct (outcome_of input entry); [by eauto | done].
  - intros binding Hin. pose proof (proj1 (concat_map_nil _ _) Hb binding (proj2 (elem_of_sort_with _ _ _) Hin)) as He.
    unfold inert_gap in He. destruct (assoc_get _ _); [by eauto | done].
Qed.

(** An approved evaluation leaves nothing open.  Every selected package is trusted with a disposition
    other than rejection and selected once, every capability a package demands has a verified binding for
    that version, subject and capability, and every binding of the registry answers such a demand. *)
Theorem approved_complete input :
  tev_status (evaluate_domain_pack_trust input) = TrustStatus_Approved ->
  (forall s, s ∈ tei_selected input -> exists d, d <> DomainPackTrustDisposition_Reject /\ Trusted (tei_trust_policy input) s d)
  /\ NoDup (map (fun s => package_key (tsp_package s)) (tei_selected input))
  /\ (forall s demand, s ∈ tei_selected input -> demand ∈ tsp_capability_demands s ->
        exists locked, locked ∈ tev_verified_capability_bindings (evaluate_domain_pack_trust input)
          /\ lcb_pack locked = version_reference (rp_identity (tsp_package s))
          /\ lcb_subject_ref locked = cdm_subject_ref demand /\ lcb_capability_ref locked = cdm_capability_ref demand)
  /\ (forall binding, binding ∈ rcr_bindings (tei_capability_registry input) ->
        exists s demand, s ∈ tei_selected input /\ demand ∈ tsp_capability_demands s
          /\ rcb_pack binding = version_reference (rp_identity (tsp_package s))
          /\ rcb_subject_ref binding = cdm_subject_ref demand /\ rcb_capability_ref binding = cdm_capability_ref demand).
Proof.
  intros (Hi & Ho & Hb)%approved_nil. pose proof (trust_state_inv input) as Hinv.
  destruct (tv_issues _ _ _ Hinv Hi) as [Hall Hnd]. rewrite Forall_forall in Hall.
  assert (forall s, s ∈ in_turn input <-> s ∈ tei_selected input) as Hturn by (intros s; apply elem_of_sort_with).
  split_and!.
  - intros s Hs. by apply Hall, Hturn.
  - unfold processed_keys in Hnd. unfold in_turn in Hnd. by rewrite sort_with_perm in Hnd.
  - intros s demand Hs Hd. apply Hturn in Hs. destruct (tv_served _ _ _ Hinv s demand Hs Hd) as [[demand' package] Hg].
    apply assoc_get_elem in Hg. destruct (Ho _ Hg) as (binding & provider & Hout).
    exists (locked_binding binding provider). split; [apply verified_elem; by eauto 6|].
    destruct (tv_demands _ _ _ Hinv _ _ _ Hg) as (s' & _ & <- & _ & Ek). injection Ek as Ek1 Ek2 Ek3 Ek4 Ek5.
    unfold outcome_of, demand_outcome in Hout. apply allowed_binding in Hout as (Hc & Hv & _). apply filter_In_iff in Hc as [_ Hm].
    bool_simpl. cbn [dk_package] in Hv. apply version_ref_matches_eq in Hv. simpl. split_and!; [done|congruence|congruence].
  - intros binding Hbi. destruct (Hb binding Hbi) as [[demand package] Hg]. apply assoc_get_elem in Hg.
    destruct (tv_demands _ _ _ Hinv _ _ _ Hg) as (s & Hs & <- & Hd & Ek). injection Ek as Ek1 Ek2 Ek3 Ek4 Ek5.
    exists s, demand. split_and!; [by apply Hturn|done| |done|done]. unfold version_reference.
    destruct (rcb_pack binding). simpl in *. by subst.
Qed.

End spec.
