(* ===== verification/PackExamples.v ===== *)
(** * Resolutions of concrete requests

    A small instance of [Semver] (dotted triples; the requirements [*], [=v] and [>=v]) and of the
    encoders, a registry of four packages of one publisher, and the theorems of PackSpec and PackOrder
    at requests over it. *)

From S2P Require Import Prelude RustStr BTree Traversal Ordering Contracts AssuranceContracts WorkflowContracts DomainPackContracts PackRegistry PackResolution PackOrder PackSearch PackSpec PackTrust PackTrustSpec.

Local Open Scope string_scope.
Local Open Scope nat_scope.

(** ** The parameters *)

Definition Triple : Type := Z * Z * Z.

Definition triple_parse (s : string) : option Triple :=
  match split (fun c => bool_decide (c = "."%char)) s with
  | [a; b; c] =>
      match parse_u64 a, parse_u64 b, parse_u64 c with
      | Some x, Some y, Some z => Some (x, y, z)
      | _, _, _ => None
      end
  | _ => None
  end.

Definition triple_to_string (v : Triple) : string :=
  let '(x, y, z) := v in fmt_int x +:+ "." +:+ fmt_int y +:+ "." +:+ fmt_int z.

Definition triple_cmp : Triple -> Triple -> comparison :=
  then_with (cmp_on (fun '(x, _, _) => x) Z.compare)
    (then_with (cmp_on (fun '(_, y, _) => y) Z.compare) (cmp_on (fun '(_, _, z) => z) Z.compare)).

Inductive TripleReq := AnyTriple | ExactTriple (v : Triple) | FromTriple (v : Triple).

Definition triple_req_parse (s : string) : option TripleReq :=
  if String.eqb s "*" then Some AnyTriple
  else if String.prefix ">=" s then FromTriple <$> triple_parse (of_bytes (drop 2 (to_bytes s)))
  else if String.prefix "=" s then ExactTriple <$> triple_parse (of_bytes (drop 1 (to_bytes s)))
  else None.

Definition triple_matches (r : TripleReq) (v : Triple) : bool :=
  match r with
  | AnyTriple => true
  | ExactTriple w => bool_decide (v = w)
  | FromTriple w => le_of triple_cmp w v
  end.

Lemma triple_schema : is_Some (triple_parse (DOMAIN_PACK_SCHEMA_VERSION +:+ ".0")).
Proof. vm_compute. eauto. Defined.

#[local] Instance triple_semver : Semver := {|
  Version := Triple; VersionReq := TripleReq;
  Version_parse := triple_parse; Version_to_string := triple_to_string; Version_cmp := triple_cmp;
  Version_pre_is_empty := fun _ => true;
  VersionReq_parse := triple_req_parse; VersionReq_matches := triple_matches;
  VersionReq_pre_is_empty := fun _ => [true];
  Version_parse_schema := triple_schema |}.

#[local] Instance triple_semver_laws : SemverLaws.
Proof.
  split.
  - simpl. unfold triple_cmp. auto with forge.
  - intros [[x y] z] [[x' y'] z']. cbn. unfold triple_cmp, then_with, cmp_on.
    destruct (Z.compare_spec x x') as [->| |]; [|done..]. destruct (Z.compare_spec y y') as [->| |]; [|done..].
    by intros ->%Z.compare_eq.
Qed.

#[local] Instance plain_sha256 : Sha256 := of_bytes.
#[local] Instance plain_candidate : Canonical DomainPackResolutionCandidate :=
  fun candidate => Some (to_bytes (identity_key (candidate_identity candidate))).
#[local] Instance plain_payload : Canonical DomainPackExactLockPayload := fun _ => None.
#[local] Instance plain_gap : Canonical DomainPackRuntimeCapabilityGap := fun gap => Some (to_bytes (rcg_message gap)).
#[local] Instance plain_subject : Canonical ResolutionDigestSubject := fun _ => None.

(** ** Packages *)

Definition example_digest (c : ascii) : string := "sha256:" +:+ of_bytes (replicate 64 c).

Definition example_identity (name version : string) : DomainPackIdentity := {|
  id_publisher := mk_StableId "acme"; id_name := mk_StableId name; id_namespace := mk_StableId "acme.packs";
  id_version := version |}.

Definition example_coordinate (name : string) : DomainPackCoordinate := {|
  co_publisher := mk_StableId "acme"; co_name := mk_StableId name |}.

Definition example_artifact (ref : string) (c : ascii) : DomainPackArtifactBinding := {|
  ab_artifact_ref := mk_RepoPath ref; ab_raw_sha256 := example_digest c; ab_canonical_sha256 := example_digest "9" |}.

Definition example_content_binding : DomainPackContentBinding := {|
  cb_content_ref := mk_RepoPath "content.yaml"; cb_raw_sha256 := example_digest "b"; cb_canonical_sha256 := example_digest "9" |}.

Definition dependency_on (name requirement : string) : DomainPackDependency := {|
  dd_pack := example_coordinate name; dd_version_requirement := requirement; dd_required_content_digest := None |}.

Definition example_candidate (name version : string) (record : ascii) (deps : list DomainPackDependency)
    (conflicts : list DomainPackConflict) : DomainPackResolutionCandidate := {|
  rc_input := {|
    dci_manifest_binding := example_artifact "manifest.yaml" "a";
    dci_manifest := {|
      dmd_schema_version := DOMAIN_PACK_SCHEMA_VERSION;
      dmd_domain_pack_manifest := {|
        dm_identity := example_identity name version;
        dm_authority := DomainPackCandidateAuthority_CandidateOnly;
        dm_compatibility := {| cp_pack_schema_requirement := "*"; cp_forge_core_requirement := ">=1.0.0" |};
        dm_provenance := {|
          pv_source_kind := DomainPackSourceKind_Registry; pv_source_uri := ""; pv_source_revision := ""; pv_source_digest := "";
          pv_authors := []; pv_license_spdx_expression := "MIT"; pv_license_text := example_artifact "LICENSE" "c" |};
        dm_content := example_content_binding;
        dm_dependencies := deps; dm_conflicts := conflicts; dm_replacement_slots := []; dm_replacement_declarations := [] |} |};
    dci_content := {|
      dpcd_schema_version := DOMAIN_PACK_SCHEMA_VERSION;
      dpcd_domain_pack_content := {|
        dpc_pack := version_reference (example_identity name version); dpc_namespace := mk_StableId "acme.packs";
        dpc_workflow_overlay := {| wgo_id := mk_StableId "overlay"; wgo_base_bundle_id := mk_StableId "bundle"; wgo_policies := [] |};
        dpc_provided_domains := []; dpc_provided_capabilities := []; dpc_hazards := []; dpc_lifecycle_models := [];
        dpc_evaluators := []; dpc_fixtures := []; dpc_adapters := [] |} |} |};
  rc_package := {|
    pb_package_ref := mk_RepoPath name; pb_package_digest := example_digest record;
    pb_manifest := example_artifact "manifest.yaml" "a"; pb_content := example_content_binding;
    pb_license := example_artifact "LICENSE" "c"; pb_fixtures := [] |};
  rc_registry_record_digest := Some (example_digest record) |}.

Definition example_descriptor (kind : DomainPackRemoteArtifactKind) (binding : DomainPackArtifactBinding) (c : ascii)
    : DomainPackRemoteArtifactDescriptor := {|
  rad_kind := kind; rad_binding := binding; rad_object_path := mk_RepoPath ("objects/sha256/" +:+ of_bytes (replicate 64 c));
  rad_byte_length := 1; rad_media_type := DomainPackRemoteArtifactMediaType_ApplicationYaml |}.

Definition example_record (name version : string) (record : ascii) : DomainPackRegistryPackageRecord := {|
  rpr_identity := example_identity name version; rpr_package_digest := example_digest record;
  rpr_manifest_digest := example_digest "a"; rpr_content_digest := example_digest "b"; rpr_license_digest := example_digest "c";
  rpr_fixture_digests := [];
  rpr_artifacts := {|
    ras_manifest := example_descriptor DomainPackRemoteArtifactKind_Manifest (example_artifact "manifest.yaml" "a") "a";
    ras_content := example_descriptor DomainPackRemoteArtifactKind_Content (example_artifact "content.yaml" "b") "b";
    ras_license := example_descriptor DomainPackRemoteArtifactKind_License (example_artifact "LICENSE" "c") "c";
    ras_fixtures := [] |};
  rpr_namespace_grant_id := mk_StableId "grant"; rpr_publisher_credential_id := mk_StableId "credential";
  rpr_publisher_signature_hex := ""; rpr_record_digest := example_digest record |}.

Definition example_registry (revocations : list DomainPackPackageRevocation) : DomainPackSupplyChainRegistryDocument := {|
  scrd_schema_version := DOMAIN_PACK_LIFECYCLE_SCHEMA_VERSION;
  scrd_domain_pack_supply_chain_registry := {|
    scr_registry_id := mk_StableId "registry"; scr_registry_version := "1"; scr_audience := mk_StableId "everyone";
    scr_authority := DomainPackCandidateAuthority_CandidateOnly; scr_generation := 1; scr_previous_snapshot_digest := None;
    scr_issued_at_unix := 100; scr_expires_at_unix := 200;
    scr_publisher_credentials := [{| pcr_credential_id := mk_StableId "credential"; pcr_publisher := mk_StableId "acme";
      pcr_public_key_hex := ""; pcr_status := DomainPackCredentialStatus_Active; pcr_valid_from_unix := 0; pcr_valid_until_unix := 300 |}];
    scr_namespace_grants := [{| ng_grant_id := mk_StableId "grant"; ng_publisher := mk_StableId "acme";
      ng_namespace_prefix := mk_StableId "acme"; ng_valid_from_unix := 0; ng_valid_until_unix := 300 |}];
    scr_mirrors := [{| rm_mirror_id := mk_StableId "m2"; rm_priority := 1;
                       rm_transport := DomainPackRegistryMirrorTransport_Https "https://two.example/packs" |};
                    {| rm_mirror_id := mk_StableId "m1"; rm_priority := 1;
                       rm_transport := DomainPackRegistryMirrorTransport_Https "https://one.example" |}];
    scr_packages := [example_record "app" "1.0.0" "1"; example_record "lib" "1.0.0" "2"; example_record "lib" "1.1.0" "3";
                     example_record "twice" "1.0.0" "4"];
    scr_revocations := revocations; scr_snapshot_digest := example_digest "e"; scr_signatures := [] |} |}.

Definition example_root (name requirement : string) (reason : DomainPackResolutionRootReason) : DomainPackResolutionRoot := {|
  rr_pack := example_coordinate name; rr_version_requirement := requirement; rr_required_content_digest := None; rr_reason := reason |}.

(** [app] needs [lib]; [lib] is there in two versions; [twice] names [lib] twice. *)
Definition example_request (roots : list DomainPackResolutionRoot) : DomainPackResolutionRequestDocument := {|
  rqd_schema_version := DOMAIN_PACK_LIFECYCLE_SCHEMA_VERSION;
  rqd_domain_pack_resolution_request := {|
    rq_request_id := mk_StableId "request"; rq_authority := DomainPackCandidateAuthority_CandidateOnly;
    rq_project_id := mk_StableId "project"; rq_forge_core_version := "1.2.3";
    rq_core := {| dcb_bundle_id := mk_StableId "bundle"; dcb_bundle_digest := example_digest "d"; dcb_policy_set_digest := example_digest "d";
                  dcb_bundle := {| wgb_id := mk_StableId "bundle"; wgb_policies := [] |} |};
    rq_requirements := {| dprd_schema_version := DOMAIN_PACK_SCHEMA_VERSION;
      dprd_domain_pack_project_requirements := {| dpr_project_id := mk_StableId "project";
        dpr_requirement_set_id := mk_StableId "set"; dpr_required_domains := [] |} |};
    rq_roots := roots; rq_current_lock := None;
    rq_policy := {| rpo_selection := DomainPackVersionSelectionPolicy_MinimalChangeThenHighestCompatible;
      rpo_prerelease := DomainPackPrereleasePolicy_ExplicitOnly;
      rpo_duplicate_version := DomainPackDuplicateVersionPolicy_RejectDivergentContent;
      rpo_dependency_source := DomainPackDependencySourcePolicy_ExactPublisherOnly;
      rpo_unrelated_updates := DomainPackUnrelatedUpdatePolicy_PreserveLocked |};
    rq_registry_snapshot_digest := example_digest "e";
    rq_candidates := [example_candidate "lib" "1.0.0" "2" [] []; example_candidate "app" "1.0.0" "1" [dependency_on "lib" ">=1.0.0"] [];
      example_candidate "lib" "1.1.0" "3" [] [];
      example_candidate "twice" "1.0.0" "4" [dependency_on "lib" ">=1.0.0"; dependency_on "lib" "=1.1.0"] []] |} |}.

Definition app_request : DomainPackResolutionRequestDocument :=
  example_request [example_root "app" "*" DomainPackResolutionRootReason_InstallIntent].

Definition twice_request : DomainPackResolutionRequestDocument :=
  example_request [example_root "twice" "*" DomainPackResolutionRootReason_InstallIntent].

Definition selected_versions (p : DomainPackResolutionProjection) : list (string * string) :=
  map (fun pkg => (StableId_0 (id_name (rp_identity pkg)), id_version (rp_identity pkg))) (rpj_selected p).

Example app_resolves :
  rpj_status (projection app_request (example_registry [])) = DomainPackResolutionStatus_Resolved
  /\ selected_versions (projection app_request (example_registry [])) = [("lib", "1.1.0"); ("app", "1.0.0")].
Proof. vm_compute. split; reflexivity. Qed.

(** With the higher version revoked the lower one is selected. *)
Example revoked_version_skipped :
  selected_versions (projection app_request (example_registry
    [{| prv_record_digest := example_digest "3"; prv_reason := DomainPackRevocationReason_KeyCompromise;
        prv_explanation := ""; prv_revoked_at_unix := 50 |}])) = [("lib", "1.0.0"); ("app", "1.0.0")].
Proof. vm_compute. reflexivity. Qed.

(** A pack that names a coordinate twice is reported as a dependency cycle. *)
Example twice_blocked :
  map ri_code (rpj_issues (projection twice_request (example_registry []))) = [DomainPackResolutionIssueCode_DependencyCycle].
Proof. vm_compute. reflexivity. Qed.

(** ** The theorems at these requests *)

Definition context_of (request : DomainPackResolutionRequestDocument) : SearchContext :=
  search_context (rqd_domain_pack_resolution_request request) (snd (prepared request (example_registry []))).

Definition constraints_of (request : DomainPackResolutionRequestDocument) : Constraints :=
  root_constraints (rq_roots (rqd_domain_pack_resolution_request request)).

Definition search_of (request : DomainPackResolutionRequestDocument) : N * Result Selection SearchFailure :=
  search (context_of request) (constraints_of request) ∅ 0%N.

Definition found (request : DomainPackResolutionRequestDocument) : Selection :=
  match snd (search_of request) with Ok solution => solution | Err _ => ∅ end.

Lemma found_eq request :
  is_ok (snd (search_of request)) = true ->
  search (context_of request) (constraints_of request) ∅ 0%N = (fst (search_of request), Ok (found request)).
Proof. unfold found. fold (search_of request). by destruct (search_of request) as [n [s|f]]. Qed.

Lemma selected_provenance_witness :
  exists pkg record, pkg ∈ rpj_selected (projection app_request (example_registry []))
    /\ record ∈ scr_packages (scrd_domain_pack_supply_chain_registry (example_registry []))
    /\ rpr_record_digest record = rp_registry_record_digest pkg.
Proof.
  assert (rpj_status (projection app_request (example_registry [])) = DomainPackResolutionStatus_Resolved) as Hr
    by (vm_compute; reflexivity).
  destruct (rpj_selected (projection app_request (example_registry []))) as [|pkg l] eqn:E; [vm_compute in E; discriminate|].
  assert (pkg ∈ rpj_selected (projection app_request (example_registry []))) as Hp by (rewrite E; left).
  pose proof (selected_provenance app_request (example_registry []) pkg Hr Hp) as Hall. cbv zeta in Hall.
  destruct Hall as (_ & _ & _ & candidate & record & grant & credential & _ & _ & _ & Hrec & _ & Hd & _).
  exists pkg, record. rewrite <- E. split; [exact Hp|]. split; [exact Hrec | exact Hd].
Defined.

Lemma selected_install_order_witness :
  exists pkg, pkg ∈ rpj_selected (projection app_request (example_registry []))
    /\ is_coordinate pkg (example_coordinate "app") /\ package_meets pkg "*" None.
Proof.
  assert (rpj_status (projection app_request (example_registry [])) = DomainPackResolutionStatus_Resolved) as Hr
    by (vm_compute; reflexivity).
  pose proof (selected_install_order app_request (example_registry []) Hr) as Hall. cbv zeta in Hall.
  destruct Hall as (_ & _ & Hroots & _).
  exact (Hroots (example_root "app" "*" DomainPackResolutionRootReason_InstallIntent) ltac:(left)).
Defined.

Lemma search_preferred_witness :
  is_ok (snd (search_of app_request)) = true
  /\ Preferred (context_of app_request) (constraints_of app_request) ∅ (found app_request).
Proof.
  assert (is_ok (snd (search_of app_request)) = true) as Hok by (vm_compute; reflexivity).
  split; [exact Hok|].
  exact (search_preferred (context_of app_request) (constraints_of app_request) (fst (search_of app_request))
    (found app_request) (found_eq app_request Hok)).
Defined.

Lemma found_solution request :
  is_ok (snd (search_of request)) = true -> Solution (context_of request) (constraints_of request) (found request).
Proof. intros E%found_eq. by apply search_sound in E as [Hs _]. Qed.

(** The selection of [twice] has no cycle, yet its ordering reports one. *)
Lemma order_exact_witness :
  graph_has_cycle (found twice_request) = false /\ ~ distinct_dependencies (found twice_request)
  /\ closed_selection (found twice_request).
Proof.
  assert (closed_selection (found twice_request)) as Hcl.
  { eapply solution_closed. apply found_solution. vm_compute. reflexivity. }
  pose proof (order_exact (found twice_request) Hcl) as [Hg Ho].
  assert (graph_has_cycle (found twice_request) = false) as Hc by (vm_compute; reflexivity).
  assert (is_ok (topological_edges_and_order (found twice_request)) = false) as Hno by (vm_compute; reflexivity).
  destruct (topological_edges_and_order (found twice_request)) as [[edges order]|f]; [discriminate|].
  split; [exact Hc|]. split; [|exact Hcl]. intros Hd. destruct Ho as [Hn _]. apply Hn. split; [by apply Hg | exact Hd].
Defined.

Lemma prepared_eq request registry :
  is_nil (fst (fst (prepared request registry))) = true ->
  prepared request registry = ([], snd (fst (prepared request registry)), snd (prepared request registry)).
Proof. by destruct (prepared request registry) as [[[|] codes] candidates]. Qed.

(** [app] is resolved; the selection of [twice] meets everything and still is not. *)
Lemma resolution_complete_witness :
  rpj_status (projection app_request (example_registry [])) = DomainPackResolutionStatus_Resolved
  /\ exists key, ~ NoDup (selected_dep_keys (found twice_request) key).
Proof.
  split.
  - assert (is_nil (fst (fst (prepared app_request (example_registry [])))) = true) as Hn by (vm_compute; reflexivity).
    apply prepared_eq in Hn as Hp. assert (is_ok (snd (search_of app_request)) = true) as Hok by (vm_compute; reflexivity).
    destruct (resolution_complete app_request (example_registry []) _ _ (found app_request) Hp (found_solution app_request Hok))
      as [Hr|[Hi|[_ Hi]]]; [exact Hr | vm_compute in Hi; discriminate..].
  - assert (is_nil (fst (fst (prepared twice_request (example_registry [])))) = true) as Hn by (vm_compute; reflexivity).
    apply prepared_eq in Hn as Hp. assert (is_ok (snd (search_of twice_request)) = true) as Hok by (vm_compute; reflexivity).
    destruct (resolution_complete twice_request (example_registry []) _ _ (found twice_request) Hp (found_solution twice_request Hok))
      as [Hr|[Hi|[(solution & key & Hs & _ & _ & Hd) _]]]; [vm_compute in Hr; discriminate | vm_compute in Hi; discriminate|].
    exists key. unfold found, search_of, context_of, constraints_of. by rewrite Hs.
Defined.

(** ** Trust *)

#[local] Instance plain_trust_subject : Canonical TrustDigestSubject := fun _ => None.

(** The package [lib] as a trusted boundary would hand it over. *)
Definition trusted_package : DomainPackResolvedPackage := {|
  rp_identity := example_identity "lib" "1.1.0";
  rp_package := rc_package (example_candidate "lib" "1.1.0" "3" [] []);
  rp_registry_record_digest := example_digest "3"; rp_namespace_grant_id := mk_StableId "grant";
  rp_source_assurance := DomainPackSourceAssurance_SupplyChainVerified;
  rp_semantic_assurance := DomainPackSemanticAssurance_Unreviewed;
  rp_reviewed_entry_digest := None; rp_promotion_authorization_digest := None; rp_dependencies := []; rp_deterministic_order := 0 |}.

Definition example_demand : DomainPackCapabilityDemand := {|
  cdm_subject_ref := mk_StableId "check"; cdm_capability_ref := mk_StableId "cap"; cdm_kind := DomainPackCapabilityKind_Tool |}.

Definition example_binding (provider : DomainPackRuntimeProvider) : DomainPackRuntimeCapabilityBinding := {|
  rcb_binding_id := mk_StableId "binding"; rcb_pack := version_reference (example_identity "lib" "1.1.0");
  rcb_package_digest := example_digest "3"; rcb_subject_ref := mk_StableId "check"; rcb_capability_ref := mk_StableId "cap";
  rcb_kind := DomainPackCapabilityKind_Tool; rcb_provider := provider; rcb_implementation_digest := example_digest "f";
  rcb_status := DomainPackRuntimeCapabilityStatus_Available; rcb_evidence := example_artifact "evidence" "f" |}.

Definition example_trust (provider : DomainPackRuntimeProvider) : DomainPackTrustEvaluationInput := {|
  tei_project_id := mk_StableId "project";
  tei_selected := [{| tsp_package := trusted_package; tsp_structurally_valid := true;
    tsp_supply_chain := {| sca_package_digest := example_digest "3"; sca_registry_record_digest := example_digest "3";
      sca_publisher_signature_verified := true; sca_registry_signature_threshold_verified := true;
      sca_namespace_grant_verified := true; sca_revoked := false |};
    tsp_capability_demands := [example_demand] |}];
  tei_trust_policy := {| tp_policy_id := mk_StableId "policy"; tp_policy_version := "1"; tp_audience := mk_StableId "everyone";
    tp_authority := DomainPackCandidateAuthority_CandidateOnly; tp_registry_keys := []; tp_required_registry_signature_threshold := 1;
    tp_minimum_activation_assurance := DomainPackSourceAssurance_SupplyChainVerified;
    tp_rules := [{| tr_rule_id := mk_StableId "lib"; tr_pack := example_coordinate "lib"; tr_package_digest := None;
      tr_content_digest := None; tr_disposition := DomainPackTrustDisposition_ActivateDeclarativeKnowledgeAndBoundBuiltIns |}];
    tp_default_disposition := DomainPackTrustDisposition_Reject |};
  tei_capability_registry := {| rcr_registry_id := mk_StableId "runtime"; rcr_registry_version := "1"; rcr_project_id := mk_StableId "project";
    rcr_authority := DomainPackCandidateAuthority_CandidateOnly; rcr_bindings := [example_binding provider] |};
  tei_sandbox_policy := {| csp_policy_id := mk_StableId "sandbox"; csp_policy_version := "1";
    csp_authority := DomainPackCandidateAuthority_CandidateOnly; csp_default_decision := DomainPackSandboxDefaultDecision_Deny;
    csp_allowed_builtin_binding_ids := [mk_StableId "binding"]; csp_external_execution := DomainPackExternalExecutionPolicy_DenyAll |} |}.

Definition builtin_trust : DomainPackTrustEvaluationInput := example_trust (DomainPackRuntimeProvider_CoreBuiltin (mk_StableId "core")).

(** The same binding on an external provider is denied although it is on the allowlist. *)
Example external_denied :
  map rcg_code (tev_capability_gaps (evaluate_domain_pack_trust (example_trust (DomainPackRuntimeProvider_Mcp (mk_StableId "mcp")))))
  = [DomainPackRuntimeCapabilityGapCode_ExternalProviderDenied].
Proof. vm_compute. reflexivity. Qed.

Lemma verified_binding_grounded_witness :
  exists locked binding, locked ∈ tev_verified_capability_bindings (evaluate_domain_pack_trust builtin_trust)
    /\ binding ∈ rcr_bindings (tei_capability_registry builtin_trust)
    /\ rcb_status binding = DomainPackRuntimeCapabilityStatus_Available.
Proof.
  assert (locked_binding (example_binding (DomainPackRuntimeProvider_CoreBuiltin (mk_StableId "core"))) (mk_StableId "core")
    ∈ tev_verified_capability_bindings (evaluate_domain_pack_trust builtin_trust)) as Hl by (vm_compute; left).
  destruct (verified_binding_grounded builtin_trust _ Hl) as (s & demand & binding & _ & _ & Hb & _ & _ & Hst & _).
  eexists _, binding. split; [exact Hl|]. split; [exact Hb | exact Hst].
Defined.

Lemma approved_complete_witness :
  tev_status (evaluate_domain_pack_trust builtin_trust) = TrustStatus_Approved
  /\ NoDup (map (fun s => package_key (tsp_package s)) (tei_selected builtin_trust)).
Proof.
  assert (tev_status (evaluate_domain_pack_trust builtin_trust) = TrustStatus_Approved) as Ha by (vm_compute; reflexivity).
  split; [exact Ha|]. exact (proj1 (proj2 (approved_complete builtin_trust Ha))).
Defined.
