(* ===== verification/StatePaths.v ===== *)
(** * State paths and effect targets

    [forge-core-contracts/src/reserved_state_paths.rs] and the path functions of
    [forge-core-store/src/lib.rs]: which relative paths name a file below the state root, which of them
    belong to the event logs, and to which file the target of an effect is projected.  Paths are those of
    a Unix host: [std::path::Path::components] is written out, drive prefixes do not occur. *)

From S2P Require Import Prelude RustStr Contracts OperationContracts EventLog.

Local Open Scope string_scope.

(** ** [std::path] *)

Inductive Component := Component_RootDir | Component_CurDir | Component_ParentDir | Component_Normal (name : string).

#[export] Instance Component_eq_dec : EqDecision Component.
Proof. solve_decision. Defined.

Definition is_slash (c : ascii) : bool := bool_decide (c = "/"%char).

Definition is_absolute (path : string) : bool := starts_with_char "/" path.

Definition body_component (segment : string) : list Component :=
  if str_is_empty segment || bool_decide (segment = ".") then []
  else if bool_decide (segment = "..") then [Component_ParentDir]
  else [Component_Normal segment].

(** [Path::components]: empty segments and inner dots vanish, a leading dot does not. *)
Definition components (path : string) : list Component :=
  let segments := split is_slash path in
  let body := concat (map body_component segments) in
  if is_absolute path then Component_RootDir :: body
  else match segments with
       | first :: _ => if bool_decide (first = ".") then Component_CurDir :: body else body
       | [] => body
       end.

(** A path of normal components, as its list of names. *)
Fixpoint normal_names (cs : list Component) : option (list string) :=
  match cs with
  | [] => Some []
  | Component_Normal name :: rest => match normal_names rest with Some names => Some (name :: names) | None => None end
  | _ => None
  end.

Definition contains_char (c : ascii) (s : string) : bool := bool_decide (c ∈ to_bytes s).

Definition ends_with (suffix s : string) : bool :=
  bool_decide (drop (String.length s - String.length suffix) (to_bytes s) = to_bytes suffix).

(** ** [reserved_state_paths.rs] *)

Definition LEGACY_STATE_ROOT_COMPONENT : string := ".forge-method".

Inductive ReservedStateArtifact :=
| Reserved_MemoryEventLog | Reserved_ResearchEventLog | Reserved_GovernanceConflictEventLog
| Reserved_MemoryEventLogLock | Reserved_ResearchEventLogLock | Reserved_GovernanceConflictEventLogLock.

Definition canonical_relative_path (self : ReservedStateArtifact) : string :=
  match self with
  | Reserved_MemoryEventLog => "memory/events.ndjson"
  | Reserved_ResearchEventLog => "research/sources.ndjson"
  | Reserved_GovernanceConflictEventLog => "governance/conflicts.ndjson"
  | Reserved_MemoryEventLogLock => "locks/memory.log.lock"
  | Reserved_ResearchEventLogLock => "locks/research.sources.lock"
  | Reserved_GovernanceConflictEventLogLock => "locks/governance.conflicts.lock"
  end.

Definition is_log (self : ReservedStateArtifact) : bool :=
  match self with
  | Reserved_MemoryEventLog | Reserved_ResearchEventLog | Reserved_GovernanceConflictEventLog => true
  | _ => false
  end.

Definition RESERVED_STATE_ARTIFACTS : list ReservedStateArtifact :=
  [Reserved_MemoryEventLog; Reserved_ResearchEventLog; Reserved_GovernanceConflictEventLog;
   Reserved_MemoryEventLogLock; Reserved_ResearchEventLogLock; Reserved_GovernanceConflictEventLogLock].

Inductive ReservedStatePath :=
| ReservedStatePath_Artifact (artifact : ReservedStateArtifact)
| ReservedStatePath_CrashReplaceSibling (artifact : ReservedStateArtifact).

Definition artifact_of (self : ReservedStatePath) : ReservedStateArtifact :=
  match self with ReservedStatePath_Artifact a | ReservedStatePath_CrashReplaceSibling a => a end.

Inductive StateRelativePathError :=
| StatePath_Empty | StatePath_Absolute | StatePath_Parent | StatePath_Dot | StatePath_SeparatorAmbiguity.

(** The loop over the components. *)
Fixpoint collect_normal (cs : list Component) : Result (list string) StateRelativePathError :=
  match cs with
  | [] => Ok []
  | Component_Normal name :: rest =>
      match collect_normal rest with Ok names => Ok (name :: names) | Err e => Err e end
  | Component_CurDir :: _ => Err StatePath_Dot
  | Component_ParentDir :: _ => Err StatePath_Parent
  | Component_RootDir :: _ => Err StatePath_Absolute
  end.

(** The last steps: an empty path, and the legacy first component. *)
Definition strip_legacy_root (names : list string) : Result (list string) StateRelativePathError :=
  match names with
  | [] => Err StatePath_Empty
  | first :: rest =>
      if bool_decide (first = LEGACY_STATE_ROOT_COMPONENT)
      then (if is_nil rest then Err StatePath_Empty else Ok rest)
      else Ok names
  end.

Definition normalize_state_relative_path (value : string) : Result (list string) StateRelativePathError :=
  if str_is_empty value then Err StatePath_Empty
  else if is_absolute value then Err StatePath_Absolute
  else if contains_char "\" value then Err StatePath_SeparatorAmbiguity
  else match collect_normal (components value) with
       | Ok names => strip_legacy_root names
       | Err e => Err e
       end.

(** [parent.join(format!(".{name}.forge-..."))] for the three sidecars. *)
Definition crash_replace_siblings (artifact : ReservedStateArtifact) : list (list string) :=
  let names := default [] (normal_names (components (canonical_relative_path artifact))) in
  let parent := removelast names in
  let name := default "" (last names) in
  map (fun suffix => (parent ++ ["." +:+ name +:+ suffix])%list) [".forge-next"; ".forge-previous"; ".forge-transaction"].

Definition classify_artifact (normalized : list string) (artifact : ReservedStateArtifact) : option ReservedStatePath :=
  if bool_decide (Some normalized = normal_names (components (canonical_relative_path artifact)))
  then Some (ReservedStatePath_Artifact artifact)
  else if existsb (fun sibling => bool_decide (normalized = sibling)) (crash_replace_siblings artifact)
  then Some (ReservedStatePath_CrashReplaceSibling artifact)
  else None.

(** [classify_reserved_state_path] on a path of normal components: it normalizes what it is given. *)
Definition classify_reserved_state_path (value : list string) : option ReservedStatePath :=
  match strip_legacy_root value with
  | Err _ => None
  | Ok normalized => find_map (classify_artifact normalized) RESERVED_STATE_ARTIFACTS
  end.

(** ** Reserved targets in the store *)

Inductive ReservedStateMutationError :=
| ReservedStateMutation_Invalid
| ReservedStateMutation_Reserved (reserved : ReservedStatePath).

Definition reject_reserved_state_mutation (relative_path : string) : Result (list string) ReservedStateMutationError :=
  match normalize_state_relative_path relative_path with
  | Err _ => Err ReservedStateMutation_Invalid
  | Ok normalized =>
      match classify_reserved_state_path normalized with
      | Some reserved => Err (ReservedStateMutation_Reserved reserved)
      | None => Ok normalized
      end
  end.

Definition reserved_state_path (relative_path : string) : option ReservedStatePath :=
  match reject_reserved_state_mutation relative_path with
  | Err (ReservedStateMutation_Reserved reserved) => Some reserved
  | _ => None
  end.

Definition forbidden_relative_component (c : Component) : bool :=
  match c with Component_RootDir | Component_ParentDir => true | _ => false end.

(** The path is kept as its components; [normalize_state_relative_path] has excluded all but normal ones. *)
Definition normalized_effect_relative_path (relative_path : string) : option (list string) :=
  match normalize_state_relative_path relative_path with
  | Err _ => None
  | Ok _ =>
      match reserved_state_path relative_path with
      | Some _ => None
      | None =>
          if str_is_empty relative_path || is_absolute relative_path
             || existsb forbidden_relative_component (components relative_path)
          then None
          else match normal_names (components relative_path) with
               | Some [] | None => None
               | Some names => Some names
               end
      end
  end.

(** ** Targets of an effect *)

Inductive AppendJsonLineError :=
| AppendJsonLine_InvalidRelativePath (path : string)
| AppendJsonLine_ReservedStatePath (path : string) (reserved : ReservedStatePath)
| AppendJsonLine_Serialize
| AppendJsonLine_OpenFile
| AppendJsonLine_Write.

Definition reference_looks_path_like (reference : string) : bool :=
  contains_char "/" reference || contains_char "\" reference.

(** [trim_matches('.')]. *)
Fixpoint drop_dots (l : bytes) : bytes :=
  match l with
  | c :: r => if bool_decide (c = "."%char) then drop_dots r else l
  | [] => []
  end.
Definition trim_dots (s : string) : string := of_bytes (rev (drop_dots (rev (drop_dots (to_bytes s))))).

Definition safe_char (c : ascii) : bool :=
  is_ascii_alphanumeric c || bool_decide (c = "-"%char) || bool_decide (c = "_"%char) || bool_decide (c = "."%char).

(** [chars().map(..)]: a character of several bytes is replaced by one underscore. *)
Fixpoint sanitize (l : bytes) : bytes :=
  match l with
  | [] => []
  | c :: r => if is_cont c then sanitize r else (if safe_char c then c else "_"%char) :: sanitize r
  end.

Definition safe_logical_id (reference : string) : option string :=
  let trimmed := trim_dots (of_bytes (sanitize (to_bytes reference))) in
  if str_is_empty trimmed || negb (existsb is_ascii_alphanumeric (to_bytes trimmed)) then None else Some trimmed.

Definition project_logical_target (reference : string) (allowed_prefixes allowed_exact : list string)
    (base_dir extension : string) : Result string AppendJsonLineError :=
  if reference_looks_path_like reference then
    (if bool_decide (reference ∈ allowed_exact) || existsb (fun prefix => String.prefix prefix reference) allowed_prefixes
     then Ok reference else Err (AppendJsonLine_InvalidRelativePath reference))
  else match safe_logical_id reference with
       | None => Err (AppendJsonLine_InvalidRelativePath reference)
       | Some safe_id =>
           let file_name := if ends_with extension safe_id then safe_id else safe_id +:+ extension in
           Ok (base_dir +:+ "/" +:+ file_name)
       end.

Definition effect_target_physical_reference (target_kind : EffectTargetKind) (reference : string)
    : Result string AppendJsonLineError :=
  match target_kind with
  | EffectTargetKind_FilePath => Ok reference
  | EffectTargetKind_ArtifactId =>
      project_logical_target reference [".forge-method/artifacts/"] [] ".forge-method/artifacts" ".yaml"
  | EffectTargetKind_EvidenceId =>
      project_logical_target reference [".forge-method/evidence/"; ".forge-method/snapshots/"] []
        ".forge-method/evidence" ".json"
  | EffectTargetKind_LedgerStream =>
      project_logical_target reference [".forge-method/ledger/"] [".forge-method/ledger.ndjson"]
        ".forge-method/ledger" ".ndjson"
  | EffectTargetKind_RequestStream =>
      project_logical_target reference [".forge-method/requests/"] [".forge-method/requests.ndjson"]
        ".forge-method/requests" ".ndjson"
  | EffectTargetKind_Glob | EffectTargetKind_StateKey | EffectTargetKind_CompletionId =>
      Err (AppendJsonLine_InvalidRelativePath reference)
  end.

Definition file_backed_target (target_kind : EffectTargetKind) : bool :=
  match target_kind with
  | EffectTargetKind_FilePath | EffectTargetKind_ArtifactId | EffectTargetKind_EvidenceId
  | EffectTargetKind_LedgerStream | EffectTargetKind_RequestStream => true
  | _ => false
  end.

(** [canonical] answers for [fs::canonicalize] along the chain of the components: the resolved path,
    or [None] when it cannot be resolved inside the root. *)
Definition resolve_safe_repo_relative (canonical : list string -> option string) (relative_path : string)
    : Result string AppendJsonLineError :=
  let invalid := Err (AppendJsonLine_InvalidRelativePath relative_path) in
  if str_is_empty relative_path || is_absolute relative_path
     || existsb forbidden_relative_component (components relative_path) then invalid
  else
    let names := omap (fun c => match c with Component_Normal name => Some name | _ => None end) (components relative_path) in
    if is_nil names then invalid
    else match canonical names with Some resolved => Ok resolved | None => invalid end.

Definition resolve_effect_target (canonical : list string -> option string) (target_kind : EffectTargetKind) (reference : string)
    : Result (string * string) AppendJsonLineError :=
  match effect_target_physical_reference target_kind reference with
  | Err e => Err e
  | Ok physical_ref =>
      match reject_reserved_state_mutation physical_ref with
      | Err (ReservedStateMutation_Reserved reserved) => Err (AppendJsonLine_ReservedStatePath physical_ref reserved)
      | Err ReservedStateMutation_Invalid => Err (AppendJsonLine_InvalidRelativePath physical_ref)
      | Ok _ =>
          match resolve_safe_repo_relative canonical physical_ref with
          | Ok path => Ok (path, physical_ref)
          | Err e => Err e
          end
      end
  end.

(** ** Lemmas *)

Lemma normal_names_collect cs names : collect_normal cs = Ok names <-> normal_names cs = Some names.
Proof.
  revert names. induction cs as [|[| | |n] cs IH]; intros names; simpl; try (by split; intros [=]); [naive_solver|].
  destruct (normal_names cs) as [ms|].
  - rewrite (proj2 (IH ms) eq_refl). naive_solver.
  - destruct (collect_normal cs) as [ns|]; [|by split]. specialize (proj1 (IH ns) eq_refl). done.
Qed.

(** The relative path of a target that may be written, as the file it names. *)
Definition target_key (reference : string) : option (list string) := normal_names (components reference).

Lemma normalize_target_key s names : normalize_state_relative_path s = Ok names -> is_Some (target_key s).
Proof.
  unfold normalize_state_relative_path, target_key. intros H. repeat case_match; try done.
  match goal with E : collect_normal _ = Ok _ |- _ => apply normal_names_collect in E end. by eexists.
Qed.

(** What [normalized_effect_relative_path] accepts is exactly the key the path names. *)
Lemma normalized_effect_key s names :
  normalized_effect_relative_path s = Some names -> target_key s = Some names /\ reserved_state_path s = None.
Proof.
  unfold normalized_effect_relative_path, target_key. intros H. repeat case_match; simplify_eq; done.
Qed.

(** A resolved target names a file below the root that no event log owns. *)
Lemma resolved_target_safe canonical kind reference path physical :
  resolve_effect_target canonical kind reference = Ok (path, physical) ->
  effect_target_physical_reference kind reference = Ok physical /\ reserved_state_path physical = None
  /\ is_Some (target_key physical).
Proof.
  unfold resolve_effect_target. intros H. repeat case_match; simplify_eq. split_and!; [done| |].
  - unfold reserved_state_path. by case_match; simplify_eq.
  - unfold reject_reserved_state_mutation in *. repeat case_match; simplify_eq. by eapply normalize_target_key.
Qed.

(** Every path that reaches a log or lock of the event store, in either spelling, is reserved. *)
Lemma event_store_paths_reserved (id : StreamId) :
  is_Some (reserved_state_path (log_path id)) /\ is_Some (reserved_state_path (lock_path id))
  /\ is_Some (reserved_state_path (".forge-method/" +:+ log_path id))
  /\ is_Some (reserved_state_path (".forge-method/" +:+ lock_path id)).
Proof. destruct id; split_and!; vm_compute; eauto. Qed.
