(* ===== verification/EffectTypes.v ===== *)
(** * Records of the effect store

    The types of [forge-core-store/src/lib.rs] that the effect log, its recovery and its metadata index
    read and write.  The [diagnostics] fields hold prose for people, partly from the operating system,
    and are left out; so are [SchemaVersion]-style serialization attributes. *)

From S2P Require Import Prelude RustStr Contracts OperationContracts StatePaths.

Local Open Scope string_scope.

(** ** JSON values ([serde_json::Value]; a number is its text) *)

Inductive Json :=
| Json_Null
| Json_Bool (b : bool)
| Json_Number (text : string)
| Json_String (s : string)
| Json_Array (items : list Json)
| Json_Object (fields : list (string * Json)).

(** [Value::get] with a field name. *)
Definition json_get (name : string) (value : Json) : option Json :=
  match value with
  | Json_Object fields => match List.find (fun f => bool_decide (fst f = name)) fields with Some f => Some (snd f) | None => None end
  | _ => None
  end.

Definition json_as_str (value : Json) : option string :=
  match value with Json_String s => Some s | _ => None end.

(** ** Application of an effect *)

Record EffectApplicationPayload := {
  pl_target_ref : string;
  pl_content : bytes;
  pl_content_hash : string
}.

Inductive EffectTargetMetadataRecordKind := EffectTargetMetadataRecordKind_EffectTarget.

Record EffectTargetMetadataRecord := {
  md_schema_version : string;
  md_record_kind : EffectTargetMetadataRecordKind;
  md_recorded_at : option string;
  md_operation_id : StableId;
  md_effect_id : StableId;
  md_logical_ref : string;
  md_physical_ref : string;
  md_target_kind : EffectTargetKind;
  md_access_mode : AccessMode;
  md_content_hash : option string;
  md_byte_len : Z;
  md_actor_agent_id : StableId;
  md_actor_role : ActorRole;
  md_destructive : bool;
  md_redaction_hint : StableId
}.

Inductive EffectApplicationStatus :=
| EffectApplicationStatus_Applied | EffectApplicationStatus_Blocked
| EffectApplicationStatus_RolledBack | EffectApplicationStatus_RollbackFailed.

Inductive EffectApplicationReason :=
| EffectReason_EffectValidationErrors | EffectReason_InternalInvariant | EffectReason_StoreLockFailed
| EffectReason_ExecutionProvenanceInvalid | EffectReason_WalAppendFailed | EffectReason_UnsupportedTargetKind
| EffectReason_UnsupportedAccessMode | EffectReason_InvalidTargetPath | EffectReason_ReservedStatePath
| EffectReason_MissingPayloadForWrite | EffectReason_PayloadHashMismatch | EffectReason_MissingExpectedHashForOverwrite
| EffectReason_ExpectedHashMismatch | EffectReason_TargetExistsForCreate | EffectReason_TargetMissingForWrite
| EffectReason_TargetMissingForDelete | EffectReason_ApplyFailed | EffectReason_RollbackFailed | EffectReason_Applied.

Record EffectApplicationResult := {
  ear_status : EffectApplicationStatus;
  ear_effect_id : StableId;
  ear_applied_refs : list string;
  ear_metadata_records : list EffectTargetMetadataRecord;
  ear_rolled_back : bool;
  ear_reasons : list EffectApplicationReason;
  ear_validation_error_count : nat;
  ear_validation_warning_count : nat
}.

Inductive EffectPreflightStatus := EffectPreflightStatus_Ready | EffectPreflightStatus_Blocked.

Record EffectPreflightResult := {
  epr_status : EffectPreflightStatus;
  epr_effect_id : StableId;
  epr_metadata_records : list EffectTargetMetadataRecord;
  epr_reasons : list EffectApplicationReason;
  epr_validation_error_count : nat;
  epr_validation_warning_count : nat
}.

(** ** The effect log *)

Definition EFFECT_EXECUTION_PROVENANCE_SCHEMA_VERSION : string := "0.1".

Record EffectExecutionProvenance := {
  eep_schema_version : string;
  eep_digest : string;
  eep_document : Json
}.

Record EffectReplayCommitBinding := {
  erb_key_hash : string;
  erb_intent_digest : string;
  erb_commit_digest : string;
  erb_reservation_revision : Z
}.

Record EffectReplayCompletion := {
  erc_key_hash : string;
  erc_reservation_revision : Z;
  erc_consumed_revision : Z;
  erc_consumed_seq : Z;
  erc_recovered : bool
}.

Record EffectWalCreatedObjectIdentity := {
  coi_volume_serial_number : Z;
  coi_file_index : Z;
  coi_creation_time : Z;
  coi_file_attributes : Z
}.

Record EffectWalCreateEstablished := {
  ces_root : EffectWalCreatedObjectIdentity;
  ces_parent : EffectWalCreatedObjectIdentity;
  ces_file : EffectWalCreatedObjectIdentity
}.

Inductive EffectWalStage :=
| EffectWalStage_Begin | EffectWalStage_BeforeImage
| EffectWalStage_CreateEstablished (progress : EffectWalCreateEstablished)
| EffectWalStage_WriteApplied | EffectWalStage_Commit | EffectWalStage_RollbackComplete
| EffectWalStage_RecoveredRollback | EffectWalStage_ReplayConsumed.

Record EffectWalOriginal := {
  ewo_existed : bool;
  ewo_content : bytes;
  ewo_content_hash : string
}.

Record EffectWalTargetMetadata := {
  etm_operation_id : StableId;
  etm_target_kind : EffectTargetKind;
  etm_access_mode : AccessMode;
  etm_content_hash : option string;
  etm_byte_len : Z;
  etm_actor_agent_id : StableId;
  etm_actor_role : ActorRole;
  etm_destructive : bool;
  etm_redaction_hint : StableId
}.

Record EffectWalRecord := {
  ewr_schema_version : string;
  ewr_tx_id : string;
  ewr_stage : EffectWalStage;
  ewr_effect_id : StableId;
  ewr_target_ref : option string;
  ewr_physical_target_ref : option string;
  ewr_target_metadata : option EffectWalTargetMetadata;
  ewr_original : option EffectWalOriginal;
  ewr_diagnostic : option string;
  ewr_execution_provenance : option EffectExecutionProvenance;
  ewr_replay_binding : option EffectReplayCommitBinding;
  ewr_replay_completion : option EffectReplayCompletion
}.

(** [EffectWalCreateEstablished::is_valid]. *)
Definition create_established_is_valid (self : EffectWalCreateEstablished) : bool :=
  let flag object mask := (Z.land (coi_file_attributes object) mask =? 0)%Z in
  forallb (fun object => negb (coi_file_index object =? 0)%Z && negb (coi_creation_time object =? 0)%Z && flag object 1024%Z)
    [ces_root self; ces_parent self; ces_file self]
  && negb (flag (ces_root self) 16%Z) && negb (flag (ces_parent self) 16%Z) && flag (ces_file self) 16%Z
  && (coi_volume_serial_number (ces_root self) =? coi_volume_serial_number (ces_parent self))%Z
  && (coi_volume_serial_number (ces_parent self) =? coi_volume_serial_number (ces_file self))%Z.

(** ** Recovery and reconciliation *)

Inductive EffectWalRecoveryStatus :=
| EffectWalRecoveryStatus_Noop | EffectWalRecoveryStatus_Recovered | EffectWalRecoveryStatus_RecoveryFailed.

Inductive EffectWalRecoveryReason :=
| RecoveryReason_NoWalFile | RecoveryReason_NoRecoveryNeeded | RecoveryReason_IncompleteTransactionRecovered
| RecoveryReason_StoreLockFailed | RecoveryReason_WalReadFailed | RecoveryReason_WalParseFailed
| RecoveryReason_ReservedStatePath | RecoveryReason_ExternalPublicationUnsupported | RecoveryReason_RollbackFailed.

Record EffectWalRecoveryResult := {
  ewv_status : EffectWalRecoveryStatus;
  ewv_recovered_transactions : list string;
  ewv_reasons : list EffectWalRecoveryReason
}.

Record PendingEffectReplayCommit := {
  per_tx_id : string;
  per_effect_id : StableId;
  per_provenance : EffectExecutionProvenance;
  per_replay_binding : EffectReplayCommitBinding
}.

Record EffectReplayCompletionResult := {
  ecr_tx_id : string;
  ecr_completion : EffectReplayCompletion
}.

(** The paths and sources of the errors are those of the call and of the operating system. *)
Inductive EffectReplayReconciliationError :=
| Reconcile_InvalidRelativePath (path : string)
| Reconcile_ReservedStatePath (path : string) (reserved : ReservedStatePath)
| Reconcile_LockScopeMismatch
| Reconcile_WalRead
| Reconcile_WalParse (line : nat)
| Reconcile_WalRepair
| Reconcile_InvalidProvenance (tx_id : string)
| Reconcile_InvalidReplayBinding (tx_id reason : string)
| Reconcile_ConflictingTransaction (tx_id reason : string)
| Reconcile_WalAppend.

(** ** Decidable equality *)

#[export] Instance EffectApplicationStatus_eq_dec : EqDecision EffectApplicationStatus.
Proof. solve_decision. Defined.
#[export] Instance EffectApplicationReason_eq_dec : EqDecision EffectApplicationReason.
Proof. solve_decision. Defined.
#[export] Instance EffectReplayCommitBinding_eq_dec : EqDecision EffectReplayCommitBinding.
Proof. solve_decision. Defined.
#[export] Instance EffectWalCreatedObjectIdentity_eq_dec : EqDecision EffectWalCreatedObjectIdentity.
Proof. solve_decision. Defined.
#[export] Instance EffectWalCreateEstablished_eq_dec : EqDecision EffectWalCreateEstablished.
Proof. solve_decision. Defined.
#[export] Instance EffectWalStage_eq_dec : EqDecision EffectWalStage.
Proof. solve_decision. Defined.
#[export] Instance EffectWalRecoveryStatus_eq_dec : EqDecision EffectWalRecoveryStatus.
Proof. solve_decision. Defined.
