(* ===== verification/CrashIo.v ===== *)
(** * Input and output with failures and crashes

    A disk is the files below a retained root, by their path components.  An operation takes the next
    fault from a script: it works, it reports a failure, or the process crashes in it; a failure or a
    crash may leave the touched file partly changed.  [Io] threads the disk and the script, and [wp] is
    a weakest precondition with a crash condition, in the style of a crash Hoare logic: every claim on
    stored effects is proved with its rules. *)

From S2P Require Import Prelude RustStr.

Notation Key := (list string).
Notation Disk := (gmap (list string) bytes).

(** What an interrupted operation did to its file: nothing, the first bytes of an append, or any
    content (absence included) in place of the old one. *)
Inductive Partial := Untouched | Wrote (n : nat) | Left (content : option bytes).

Inductive Fault := Works | Fails (p : Partial) | Crashes (p : Partial).

Inductive Outcome (A : Type) := Returned (a : A) | Crashed.
Arguments Returned {A} a.
Arguments Crashed {A}.

Definition Io (A : Type) : Type := Disk -> list Fault -> Outcome A * Disk * list Fault.

Definition io_ret {A} (a : A) : Io A := fun d fs => (Returned a, d, fs).

Definition io_bind {A B} (m : Io A) (k : A -> Io B) : Io B := fun d fs =>
  match m d fs with
  | (Returned a, d, fs) => k a d fs
  | (Crashed, d, fs) => (Crashed, d, fs)
  end.

Notation "'let!' x := m 'in' k" := (io_bind m (fun x => k))
  (at level 200, x pattern, m at level 100, k at level 200) : forge_scope.
Open Scope forge_scope.

Definition next_fault (fs : list Fault) : Fault * list Fault :=
  match fs with [] => (Works, []) | f :: fs => (f, fs) end.

(** One call of the operating system: [works] is what it does when it works, [failed] what it answers
    when it fails, [partial] what is left of the disk when it fails or the process dies in it. *)
Definition operation {A} (works : Disk -> A * Disk) (failed : A) (partial : Partial -> Disk -> Disk) : Io A := fun d fs =>
  let '(f, fs) := next_fault fs in
  match f with
  | Works => let '(a, d) := works d in (Returned a, d, fs)
  | Fails p => (Returned failed, partial p d, fs)
  | Crashes p => (Crashed, partial p d, fs)
  end.

(** The answers of [std::io] that the code tells apart. *)
Inductive IoError := IoError_NotFound | IoError_Other.

Definition put_file (key : Key) (content : option bytes) (d : Disk) : Disk :=
  match content with Some b => <[key := b]> d | None => delete key d end.

Definition left_behind (key : Key) (p : Partial) (d : Disk) : Disk :=
  match p with Left content => put_file key content d | _ => d end.

Definition append_to (key : Key) (line : bytes) (d : Disk) : Disk := <[key := (default [] (d !! key) ++ line)%list]> d.

Definition appended_part (key : Key) (line : bytes) (p : Partial) (d : Disk) : Disk :=
  match p with Wrote n => append_to key (take n line) d | _ => d end.

Definition untouched (p : Partial) (d : Disk) : Disk := d.

(** Reading a file, and asking whether it exists. *)
Definition read_file (key : Key) : Io (Result bytes IoError) :=
  operation (fun d => (match d !! key with Some b => Ok b | None => Err IoError_NotFound end, d)) (Err IoError_Other) untouched.

(** [replace_file_with_validation] under [validate_expected_authority_file], on the files proper: the
    cleanup files it also leaves are below. *)
Definition replace_file (key : Key) (content : bytes) (expected : option bytes) : Io (Result unit IoError) :=
  operation (fun d => if bool_decide (d !! key = expected) then (Ok tt, <[key := content]> d) else (Err IoError_Other, d))
    (Err IoError_Other) (left_behind key).

(** [remove_file_with_validation] under the same check, on the files proper. *)
Definition remove_file (key : Key) (expected : bytes) : Io (Result unit IoError) :=
  operation (fun d => if bool_decide (d !! key = Some expected) then (Ok tt, delete key d) else (Err IoError_Other, d))
    (Err IoError_Other) (left_behind key).

(** Opening a file for appending, writing a line at its end and syncing it. *)
Definition append_file (key : Key) (line : bytes) : Io (Result unit IoError) :=
  operation (fun d => (Ok tt, append_to key line d)) (Err IoError_Other) (appended_part key line).

(** Cutting a file to a length. *)
Definition truncate_file (key : Key) (len : nat) : Io (Result unit IoError) :=
  operation (fun d => (Ok tt, match d !! key with Some b => <[key := take len b]> d | None => d end))
    (Err IoError_Other) (fun p d => match p with Wrote _ => match d !! key with Some b => <[key := take len b]> d | None => d end | _ => d end).

(** [sync_directory] and [sync_root]. *)
Definition sync_directory : Io (Result unit IoError) := operation (fun d => (Ok tt, d)) (Err IoError_Other) untouched.

(** ** Cleanup files

    [retained_dir.rs] never unlinks: what a replacement or a removal displaces stays in the directory of
    its file, under a random name that was free.  The operations above leave these files out.  Here is
    what the two calls do to the whole directory tree, as on Linux, and how the two views agree. *)

(** [quarantine_leaf], and the path it has beside [key]. *)
Definition quarantine_leaf (purpose : string) (pid nonce : Z) (attempt : nat) : string :=
  (".forge-retained-" +:+ purpose +:+ "-" +:+ fmt_int pid +:+ "-" +:+ fmt_int nonce +:+ "-" +:+ fmt_nat attempt +:+ ".quarantine")%string.

Definition quarantine_key (key : Key) (leaf : string) : Key := (removelast key ++ [leaf])%list.

(** [remove_retained_authority_leaf]: an empty placeholder is created under the name [swap] and exchanged
    with the file, then the placeholder is renamed. *)
Definition remove_retained_authority_leaf (swap placeholder key : Key) (tree : Disk) : Disk :=
  match tree !! key with
  | Some old => delete key (<[placeholder := []]> (<[swap := old]> tree))
  | None => tree
  end.

(** [replace_authority_atomically_with_candidates]: the content is written under the name [temp], which is
    exchanged with an existing file, or linked to the missing one and retired. *)
Definition replace_authority_atomically (temp swap placeholder key : Key) (content : bytes) (tree : Disk) : Disk :=
  match tree !! key with
  | Some old => <[key := content]> (<[temp := old]> tree)
  | None => remove_retained_authority_leaf swap placeholder temp (<[key := content]> (<[temp := content]> tree))
  end.

(** A cleanup name beside one of the files of [K], and, being random, none of them. *)
Definition cleanup_beside (K : Key -> Prop) (name : Key) : Prop :=
  ~ K name
  /\ exists key purpose pid nonce attempt, K key /\ name = quarantine_key key (quarantine_leaf purpose pid nonce attempt).

Definition fresh_name (K : Key -> Prop) (tree : Disk) (name : Key) : Prop := cleanup_beside K name /\ tree !! name = None.

(** What the calls on the files of [K] do to a disk and to the whole tree it stands for: they replace and
    remove files of [K], write a file in place (appending, truncating, or what an interruption left of it),
    and create cleanup files (what an interruption left of a replacement). *)
Inductive tree_step (K : Key -> Prop) : Disk * Disk -> Disk * Disk -> Prop :=
| tree_replaced temp swap placeholder key content d tree :
    K key -> Forall (fresh_name K tree) [temp; swap; placeholder] -> NoDup [temp; swap; placeholder] ->
    tree_step K (d, tree) (<[key := content]> d, replace_authority_atomically temp swap placeholder key content tree)
| tree_removed swap placeholder key d tree :
    K key -> Forall (fresh_name K tree) [swap; placeholder] -> NoDup [swap; placeholder] ->
    tree_step K (d, tree) (delete key d, remove_retained_authority_leaf swap placeholder key tree)
| tree_written key content d tree :
    tree !! key = d !! key -> tree_step K (d, tree) (put_file key content d, put_file key content tree)
| tree_isolated name content d tree :
    fresh_name K tree name -> tree_step K (d, tree) (d, <[name := content]> tree).

(** The trees that may stand beside the disk [d] of a run that started with all files in [d0]. *)
Definition tree_of (K : Key -> Prop) (d0 d tree : Disk) : Prop := rtc (tree_step K) (d0, d0) (d, tree).

(** Such a tree has the files of the disk, and besides them only cleanup files beside those of [K]. *)
Definition kept_beside (K : Key -> Prop) (d tree : Disk) : Prop :=
  forall key, tree !! key = d !! key \/ (d !! key = None /\ cleanup_beside K key).

(** [and_then] on what an operation returned. *)
Definition io_and_then {A B E} (m : Io (Result A E)) (k : A -> Io (Result B E)) : Io (Result B E) :=
  let! r := m in match r with Ok a => k a | Err e => io_ret (Err e) end.

Fixpoint io_map {A B} (f : A -> Io B) (l : list A) : Io (list B) :=
  match l with
  | [] => io_ret []
  | x :: r => let! y := f x in let! ys := io_map f r in io_ret (y :: ys)
  end.

Lemma io_map_map {A B C} (f : B -> Io C) (g : A -> B) (l : list A) : io_map f (map g l) = io_map (fun x => f (g x)) l.
Proof. induction l as [|x l IH]; simpl; [done|]. by rewrite IH. Qed.

(** ** The program logic *)

Definition never_fails (P : Fault -> Prop) : Prop := forall p, ~ P (Fails p).

Section logic.
Context (P : Fault -> Prop).

(** Whatever admissible faults occur, [m] returns in [Q] or dies in [C]. *)
Definition wp {A} (m : Io A) (Q : A -> Disk -> Prop) (C : Disk -> Prop) (d : Disk) : Prop :=
  forall fs, Forall P fs ->
  match m d fs with
  | (Returned a, d', fs') => Forall P fs' /\ Q a d'
  | (Crashed, d', _) => C d'
  end.

Lemma wp_ret {A} (a : A) (Q : A -> Disk -> Prop) C d : Q a d -> wp (io_ret a) Q C d.
Proof. by intros H fs Hfs. Qed.

Lemma wp_bind {A B} (m : Io A) (k : A -> Io B) Q C d :
  wp m (fun a d => wp (k a) Q C d) C d -> wp (io_bind m k) Q C d.
Proof.
  intros H fs Hfs. specialize (H fs Hfs). unfold io_bind.
  destruct (m d fs) as [[[a|] d'] fs']; [|done]. destruct H as [Hfs' H]. by apply H.
Qed.

Lemma wp_mono {A} (m : Io A) (Q Q' : A -> Disk -> Prop) (C C' : Disk -> Prop) d :
  wp m Q C d -> (forall a d', Q a d' -> Q' a d') -> (forall d', C d' -> C' d') -> wp m Q' C' d.
Proof.
  intros H HQ HC fs Hfs. specialize (H fs Hfs).
  destruct (m d fs) as [[[a|] d'] fs']; [destruct H as [? H]; auto|auto].
Qed.

Lemma wp_and {A} (m : Io A) (Q Q' : A -> Disk -> Prop) (C C' : Disk -> Prop) d :
  wp m Q C d -> wp m Q' C' d -> wp m (fun a d' => Q a d' /\ Q' a d') (fun d' => C d' /\ C' d') d.
Proof.
  intros H1 H2 fs Hfs. specialize (H1 fs Hfs). specialize (H2 fs Hfs).
  destruct (m d fs) as [[[a|] d'] fs']; naive_solver.
Qed.

Lemma wp_operation {A} works (failed : A) partial Q C d :
  (forall a d', works d = (a, d') -> Q a d') ->
  (forall p, P (Fails p) -> Q failed (partial p d)) ->
  (forall p, P (Crashes p) -> C (partial p d)) ->
  wp (operation works failed partial) Q C d.
Proof.
  intros Hw Hf Hc fs Hfs. unfold operation.
  destruct fs as [|f fs]; simpl; [|inversion Hfs as [|? ? Hp Hr]; subst; destruct f as [|p|p]; auto];
    destruct (works d) as [a d'] eqn:E; auto.
Qed.

Lemma wp_read key Q C d :
  (forall b, d !! key = Some b -> Q (Ok b) d) -> (d !! key = None -> Q (Err IoError_NotFound) d) ->
  (forall p, P (Fails p) -> Q (Err IoError_Other) d) -> (forall p, P (Crashes p) -> C d) -> wp (read_file key) Q C d.
Proof. intros Hs Hn Hf Hc. apply wp_operation; [|done..]. intros a d' [= <- <-]. destruct (d !! key); auto. Qed.

Lemma wp_replace key content expected Q C d :
  (d !! key = expected -> Q (Ok tt) (<[key := content]> d)) -> (d !! key ≠ expected -> Q (Err IoError_Other) d) ->
  (forall p, P (Fails p) -> Q (Err IoError_Other) (left_behind key p d)) -> (forall p, P (Crashes p) -> C (left_behind key p d)) ->
  wp (replace_file key content expected) Q C d.
Proof. intros He Hn Hf Hc. apply wp_operation; [|done..]. intros a d'. case_bool_decide; intros [= <- <-]; auto. Qed.

Lemma wp_remove key expected Q C d :
  (d !! key = Some expected -> Q (Ok tt) (delete key d)) -> (d !! key ≠ Some expected -> Q (Err IoError_Other) d) ->
  (forall p, P (Fails p) -> Q (Err IoError_Other) (left_behind key p d)) -> (forall p, P (Crashes p) -> C (left_behind key p d)) ->
  wp (remove_file key expected) Q C d.
Proof. intros He Hn Hf Hc. apply wp_operation; [|done..]. intros a d'. case_bool_decide; intros [= <- <-]; auto. Qed.

Lemma wp_sync Q C d : Q (Ok tt) d -> (forall p, P (Fails p) -> Q (Err IoError_Other) d) -> (forall p, P (Crashes p) -> C d) ->
  wp sync_directory Q C d.
Proof. intros Hw Hf Hc. apply wp_operation; [|done..]. by intros a d' [= <- <-]. Qed.

(** A list of computations keeps an invariant that each of them keeps. *)
Lemma wp_map {A B} (f : A -> Io B) (I : list A -> list B -> Disk -> Prop) C l d :
  (forall done_ outs x rest d, l = (done_ ++ x :: rest)%list -> I done_ outs d ->
     wp (f x) (fun y d' => I (done_ ++ [x])%list (outs ++ [y])%list d') C d) ->
  I [] [] d -> wp (io_map f l) (fun ys d' => I l ys d') C d.
Proof.
  intros Hstep Hi.
  assert (forall rest done_ outs d, l = (done_ ++ rest)%list -> I done_ outs d ->
    wp (io_map f rest) (fun ys d' => I l (outs ++ ys)%list d') C d) as Hgo; [|by apply (Hgo l [] [])].
  clear d Hi. induction rest as [|x rest IH]; intros done_ outs d Hl Hi; simpl.
  - apply wp_ret. rewrite app_nil_r in *. by subst done_.
  - apply wp_bind. eapply wp_mono; [by eapply Hstep| |done]. intros y d' Hi'. simpl in Hi'. apply wp_bind.
    eapply wp_mono; [eapply (IH (done_ ++ [x])%list); [by rewrite <- app_assoc|exact Hi']| |done].
    intros ys d'' H. apply wp_ret. cbv beta in H. by rewrite <- app_assoc in H.
Qed.

(** A computation that only reads keeps what held before, if that survives a crash. *)
Definition readonly {A} (m : Io A) : Prop := forall (I : Disk -> Prop) d, I d -> wp m (fun _ d' => d' = d) I d.

Lemma readonly_wp {A} (m : Io A) (Q : A -> Disk -> Prop) C d :
  readonly m -> C d -> (forall a, Q a d) -> wp m Q C d.
Proof. intros Hm HC HQ. eapply wp_mono; [by apply (Hm C)| |done]. by intros a d' ->. Qed.

Lemma readonly_ret {A} (a : A) : readonly (io_ret a).
Proof. intros I d HI. by apply wp_ret. Qed.

Lemma readonly_bind {A B} (m : Io A) (k : A -> Io B) : readonly m -> (forall a, readonly (k a)) -> readonly (io_bind m k).
Proof.
  intros Hm Hk I d HI. apply wp_bind. eapply wp_mono; [by apply (Hm I)| |done]. intros a d' ->. by apply Hk.
Qed.

Lemma readonly_read key : readonly (read_file key).
Proof. intros I d HI. by apply wp_operation; [intros a d' [= _ <-]|..]. Qed.

Lemma readonly_sync : readonly sync_directory.
Proof. intros I d HI. by apply wp_operation; [intros a d' [= _ <-]|..]. Qed.

Lemma readonly_map {A B} (f : A -> Io B) l : (forall x, readonly (f x)) -> readonly (io_map f l).
Proof.
  intros Hf. induction l as [|x l IH]; simpl; [apply readonly_ret|].
  apply readonly_bind; [done|intros y]. apply readonly_bind; [done|intros ys]. apply readonly_ret.
Qed.

End logic.

Lemma left_behind_ne key p d k : k ≠ key -> left_behind key p d !! k = d !! k.
Proof. intros Hk. destruct p as [| |[b|]]; simpl; [done|done|by rewrite lookup_insert_ne|by rewrite lookup_delete_ne]. Qed.

(** ** The two views of a run *)

Section cleanup.
Context (K : Key -> Prop).

Lemma kept_refl d : kept_beside K d d.
Proof. intros k. by left. Qed.

Lemma kept_named d tree key : kept_beside K d tree -> K key -> tree !! key = d !! key.
Proof. intros Hk HK. destruct (Hk key) as [|(_ & Hn & _)]; done. Qed.

Lemma kept_change key d tree content : kept_beside K d tree -> kept_beside K (<[key := content]> d) (<[key := content]> tree).
Proof. intros Hk k. destruct (decide (k = key)) as [->|]; [left; by rewrite !lookup_insert_eq|by rewrite !lookup_insert_ne]. Qed.

Lemma kept_delete key d tree : kept_beside K d tree -> kept_beside K (delete key d) (delete key tree).
Proof. intros Hk k. destruct (decide (k = key)) as [->|]; [left; by rewrite !lookup_delete_eq|by rewrite !lookup_delete_ne]. Qed.

(** Creating a cleanup file under a free name. *)
Lemma kept_create d tree name b : kept_beside K d tree -> fresh_name K tree name -> kept_beside K d (<[name := b]> tree).
Proof.
  intros Hk [Hn Hfree] k. destruct (decide (k = name)) as [->|]; [|by rewrite lookup_insert_ne].
  right. split; [|done]. destruct (Hk name) as [<-|[? _]]; done.
Qed.

Lemma fresh_after tree name other b : fresh_name K tree name -> other ≠ name -> fresh_name K (<[other := b]> tree) name.
Proof. intros [? ?] ?. split; [done|]. by rewrite lookup_insert_ne. Qed.

Lemma fresh_not_named tree name key : fresh_name K tree name -> K key -> name ≠ key.
Proof. by intros [[Hn _] _] HK ->. Qed.

Lemma remove_keeps swap placeholder key d tree : K key -> kept_beside K d tree ->
  Forall (fresh_name K tree) [swap; placeholder] -> NoDup [swap; placeholder] ->
  kept_beside K (delete key d) (remove_retained_authority_leaf swap placeholder key tree).
Proof.
  intros HK Hk Hf Hnd. pose proof (kept_named _ _ _ Hk HK) as Heq. unfold remove_retained_authority_leaf.
  rewrite !Forall_cons in Hf. destruct Hf as (Hs & Hp & _). rewrite !NoDup_cons in Hnd.
  assert (swap ≠ placeholder) as Hne by set_solver.
  destruct (tree !! key) as [old|]; [|by rewrite delete_id].
  apply kept_delete, kept_create; [by apply kept_create|by apply fresh_after].
Qed.

Lemma replace_keeps temp swap placeholder key content d tree : K key -> kept_beside K d tree ->
  Forall (fresh_name K tree) [temp; swap; placeholder] -> NoDup [temp; swap; placeholder] ->
  kept_beside K (<[key := content]> d) (replace_authority_atomically temp swap placeholder key content tree).
Proof.
  intros HK Hk Hf Hnd. unfold replace_authority_atomically, remove_retained_authority_leaf.
  rewrite !Forall_cons in Hf. destruct Hf as (Ht & Hs & Hp & _). rewrite !NoDup_cons in Hnd.
  assert (temp ≠ swap /\ temp ≠ placeholder /\ swap ≠ placeholder) as (? & ? & ?) by set_solver.
  pose proof (fresh_not_named _ _ _ Ht HK). pose proof (fresh_not_named _ _ _ Hs HK). pose proof (fresh_not_named _ _ _ Hp HK).
  destruct (tree !! key) as [old|]; [by apply kept_change, kept_create|].
  rewrite lookup_insert_ne, lookup_insert_eq by done.
  assert (delete temp (<[placeholder:=[]]> (<[swap:=content]> (<[key:=content]> (<[temp:=content]> tree))))
    = <[key:=content]> (<[placeholder:=[]]> (<[swap:=content]> tree))) as ->.
  { rewrite (insert_insert_ne tree) by done. rewrite !(insert_insert_ne _ _ temp), delete_insert_eq by done.
    rewrite delete_id by (rewrite !lookup_insert_ne by done; apply Ht).
    rewrite (insert_insert_ne _ swap), (insert_insert_ne _ placeholder) by done. done. }
  apply kept_change, kept_create; [by apply kept_create|by apply fresh_after].
Qed.

Lemma tree_step_keeps p q : tree_step K p q -> kept_beside K p.1 p.2 -> kept_beside K q.1 q.2.
Proof.
  intros [temp swap placeholder key content d tree HK Hf Hnd|swap placeholder key d tree HK Hf Hnd
    |key content d tree Heq|name content d tree Hf]; cbn [fst snd]; intros Hk.
  - by apply replace_keeps.
  - by apply remove_keeps.
  - destruct content; [by apply kept_change|by apply kept_delete].
  - by apply kept_create.
Qed.

Theorem tree_of_keeps d0 d tree : tree_of K d0 d tree -> kept_beside K d tree.
Proof.
  intros Hr. change (kept_beside K (d, tree).1 (d, tree).2). unfold tree_of in Hr.
  refine (rtc_ind_r (fun p => kept_beside K p.1 p.2) (d0, d0) (kept_refl d0) _ (d, tree) Hr).
  intros p q _ Hs Hp. by eapply tree_step_keeps.
Qed.

(** Without replacements and removals the tree may be the disk itself. *)
Lemma tree_of_self d0 d : tree_of K d0 d d.
Proof.
  assert (forall (keys : list Key) e, rtc (tree_step K) (e, e) (foldl (fun e key => put_file key (d !! key) e) e keys,
                                                   foldl (fun e key => put_file key (d !! key) e) e keys)) as Hrun.
  { induction keys as [|key keys IH]; intros e; simpl; [done|]. eapply rtc_l; [by apply tree_written|apply IH]. }
  specialize (Hrun (elements (dom d0 ∪ dom d)) d0). unfold tree_of.
  assert (foldl (fun e key => put_file key (d !! key) e) d0 (elements (dom d0 ∪ dom d)) = d) as E; [|by rewrite E in Hrun].
  apply map_eq. intros k.
  assert (forall (keys : list Key) e, foldl (fun e key => put_file key (d !! key) e) e keys !! k
          = if decide (k ∈ keys) then d !! k else e !! k) as Hget.
  { induction keys as [|key keys IH]; intros e; cbn [foldl]; [done|].
    rewrite IH. destruct (decide (k ∈ keys)) as [Hin|Hin].
    - rewrite decide_True; [done|by right].
    - destruct (decide (k = key)) as [->|Hne].
      + rewrite decide_True by (by left). destruct (d !! key) eqn:Ek; simpl; [by rewrite lookup_insert_eq|by rewrite lookup_delete_eq].
      + rewrite decide_False by (rewrite elem_of_cons; naive_solver).
        destruct (d !! key); simpl; [by rewrite lookup_insert_ne|by rewrite lookup_delete_ne]. }
  rewrite Hget. destruct (decide (k ∈ elements (dom d0 ∪ dom d))) as [|Hn]; [done|].
  rewrite elem_of_elements, elem_of_union, !elem_of_dom in Hn.
  destruct (d !! k) eqn:Hd, (d0 !! k) eqn:Hd0; try done; exfalso; apply Hn; rewrite ?Hd, ?Hd0; eauto.
Qed.

End cleanup.

Create HintDb io discriminated.
#[export] Hint Resolve readonly_ret readonly_bind readonly_read readonly_sync readonly_map : io.

(** Without faults a computation is a function of the disk. *)
Definition runs {A} (m : Io A) (d : Disk) : Outcome A * Disk := fst (m d []).

Lemma wp_runs {A} P (m : Io A) Q C d : wp P m Q C d ->
  match runs m d with (Returned a, d') => Q a d' | (Crashed, d') => C d' end.
Proof. intros H. specialize (H [] ltac:(constructor)). unfold runs. destruct (m d []) as [[[a|] d'] fs]; naive_solver. Qed.

(** Without faults a computation returns. *)
Definition calm {A} (m : Io A) : Prop := forall d, exists a d', m d [] = (Returned a, d', []).

Lemma calm_ret {A} (a : A) : calm (io_ret a).
Proof. intros d. by exists a, d. Qed.

Lemma calm_bind {A B} (m : Io A) (k : A -> Io B) : calm m -> (forall a, calm (k a)) -> calm (io_bind m k).
Proof. intros Hm Hk d. unfold io_bind. destruct (Hm d) as (a & d' & ->). apply Hk. Qed.

Lemma calm_operation {A} works (failed : A) partial : calm (operation works failed partial).
Proof. intros d. unfold operation. simpl. destruct (works d) as [a d']. by exists a, d'. Qed.

Lemma calm_map {A B} (f : A -> Io B) l : (forall x, calm (f x)) -> calm (io_map f l).
Proof.
  intros Hf. induction l as [|x l IH]; simpl; [apply calm_ret|].
  apply calm_bind; [done|intros y]. apply calm_bind; [done|intros ys]. apply calm_ret.
Qed.

(** Follows the structure of a computation. *)
Ltac calm_step :=
  match goal with
  | |- calm (io_ret _) => apply calm_ret
  | |- calm (operation _ _ _) => apply calm_operation
  | |- calm (io_bind _ _) => apply calm_bind; [|intros ?]
  | |- calm (io_map _ _) => apply calm_map; intros ?
  | |- calm (match ?x with _ => _ end) => destruct x
  end.

(** Without faults [m] answers [a] and leaves the disk alone. *)
Definition answers {A} (m : Io A) (d : Disk) (a : A) : Prop := m d [] = (Returned a, d, []).

Lemma answers_ret {A} (a : A) d : answers (io_ret a) d a.
Proof. done. Qed.

Lemma answers_bind {A B} (m : Io A) (k : A -> Io B) d a : answers m d a -> io_bind m k d [] = k a d [].
Proof. unfold answers, io_bind. by intros ->. Qed.

Lemma answers_read key d : answers (read_file key) d (match d !! key with Some b => Ok b | None => Err IoError_NotFound end).
Proof. unfold answers, read_file, operation. simpl. by destruct (d !! key). Qed.
