(* ===== verification/EffectStore.v ===== *)
(** * The effect store

    [forge-core-store/src/lib.rs]: applying the writes of a tool effect under a write-ahead log, rolling
    them back, repairing the log and recovering it after a crash.  Files are those of [CrashIo], so a
    run depends on a script of faults.  [retained_dir.rs] opens files relative to directory handles,
    without following links; its calls are the operations of [CrashIo].  SHA-256 and JSON are
    parameters.  Lock acquisition is not modelled: the callers hold the effect lock throughout. *)

From S2P Require Import Prelude RustStr Contracts OperationContracts Diagnostics StatePaths EffectTypes CrashIo ReplayWal.

Local Open Scope string_scope.
Local Open Scope forge_scope.

(** ** Parameters *)

(** [Sha256::digest], [serde_json] on log records and on index records, and canonical JSON. *)
Class EffectCodec := {
  effect_sha256 : bytes -> bytes;
  record_to_vec : EffectWalRecord -> option bytes;
  record_from_str : string -> option EffectWalRecord;
  metadata_to_vec : EffectTargetMetadataRecord -> option bytes;
  metadata_from_str : string -> option EffectTargetMetadataRecord;
  canonical_to_vec : Json -> option bytes
}.

(** A root directory: the components of its display path, and what [fs::canonicalize] makes of a chain
    of names below it. *)
Record EffectRoot := {
  root_display : list Component;
  root_canonical : Key -> option string
}.

(** ** Retained paths *)

Fixpoint strip_components (prefix cs : list Component) : option (list Component) :=
  match prefix, cs with
  | [], _ => Some cs
  | p :: prefix, c :: cs => if bool_decide (p = c) then strip_components prefix cs else None
  | _ :: _, [] => None
  end.

(** [RetainedDirectory::components]: only normal components, at least one. *)
Definition retained_components (root : EffectRoot) (path : string) : option Key :=
  match (if is_absolute path then strip_components (root_display root) (components path) else Some (components path)) with
  | Some cs => match normal_names cs with Some [] | None => None | Some names => Some names end
  | None => None
  end.

Definition bad_path {A} : Io (Result A IoError) := io_ret (Err IoError_Other).

Definition read_authority_file (relative : option Key) : Io (Result bytes IoError) :=
  match relative with Some key => read_file key | None => bad_path end.

Definition read_source_file (relative : option Key) : Io (Result bytes IoError) :=
  match relative with Some key => read_file key | None => bad_path end.

Definition authority_leaf_exists (relative : option Key) : Io (Result bool IoError) :=
  let! r := read_authority_file relative in
  io_ret (match r with Ok _ => Ok true | Err IoError_NotFound => Ok false | Err e => Err e end).

Definition read_optional_authority_file (relative : option Key) : Io (Result (option bytes) IoError) :=
  let! r := read_authority_file relative in
  io_ret (match r with Ok bytes => Ok (Some bytes) | Err IoError_NotFound => Ok None | Err e => Err e end).

(** [target.to_str().and_then(reserved_state_path)] of a path of normal components. *)
Definition reserved_key (key : Key) : option ReservedStatePath :=
  match strip_legacy_root key with Ok normalized => classify_reserved_state_path normalized | Err _ => None end.

Definition atomic_replace_file_retained (target : option Key) (content : bytes) (expected : option bytes) : Io (Result unit IoError) :=
  match target with
  | None => bad_path
  | Some key => if is_none (reserved_key key) then replace_file key content expected else bad_path
  end.

Definition remove_authority_file_retained (target : option Key) (expected : bytes) : Io (Result unit IoError) :=
  match target with
  | None => bad_path
  | Some key => if is_none (reserved_key key) then remove_file key expected else bad_path
  end.

(** ** Validation of the effect contract ([forge-core-validate]) *)

Definition validate_tool_effect (document : ToolEffectContractDocument) : ValidationReport :=
  let effect := ted_tool_effect_contract document in
  let path := "tool_effect_contract." +:+ StableId_0 (te_id effect) in
  let repair := te_repair effect in
  let inverse := erp_inverse repair in
  let has_inverse := negb (bool_decide (inv_kind inverse = InverseKind_None))
    && negb (bool_decide (inv_source inverse = InverseSource_Unavailable)) && negb (is_none (inv_reference inverse)) in
  let stop_for_review := erp_stop_if_inverse_missing repair && negb (erp_automatic_repair_allowed repair)
    && match cd_policy (te_conflict_detection effect) with
       | EffectConflictPolicy_HumanReview | EffectConflictPolicy_DriverReview | EffectConflictPolicy_Block => true
       | _ => false
       end in
  let destructive := existsb ew_destructive (te_write_set effect) in
  let when (b : bool) (d : Diagnostic) := if b then [d] else [] in
  {| vr_diagnostics :=
       (when (is_nil (te_read_set effect))
          (Diagnostic_error DC_EffectReadSetEmpty (path +:+ ".read_set") "tool effect must declare read_set")
        ++ when (is_nil (te_write_set effect))
             (Diagnostic_error DC_EffectWriteSetEmpty (path +:+ ".write_set") "tool effect must declare write_set")
        ++ when (destructive && negb has_inverse && negb stop_for_review)
             (Diagnostic_error DC_DestructiveEffectMissingInverseOrStop (path +:+ ".repair.inverse")
                "destructive effect requires inverse metadata or explicit stop/review policy")
        ++ when (destructive && has_inverse && erp_automatic_repair_allowed repair && is_nil (inv_validation_gate_refs inverse))
             (Diagnostic_error DC_DestructiveEffectInverseIncomplete (path +:+ ".repair.inverse")
                "automatic inverse repair requires validation gate refs"))%list |}.

(** ** Prepared writes *)

Inductive PreparedAccessMode :=
| PreparedAccessMode_Create | PreparedAccessMode_Write | PreparedAccessMode_Append | PreparedAccessMode_Delete.

#[export] Instance PreparedAccessMode_eq_dec : EqDecision PreparedAccessMode.
Proof. solve_decision. Defined.

Definition from_contract (access_mode : AccessMode) : Result PreparedAccessMode EffectApplicationReason :=
  match access_mode with
  | AccessMode_Create => Ok PreparedAccessMode_Create
  | AccessMode_Write => Ok PreparedAccessMode_Write
  | AccessMode_Append => Ok PreparedAccessMode_Append
  | AccessMode_Delete => Ok PreparedAccessMode_Delete
  | AccessMode_Read => Err EffectReason_UnsupportedAccessMode
  end.

Definition as_contract (self : PreparedAccessMode) : AccessMode :=
  match self with
  | PreparedAccessMode_Create => AccessMode_Create
  | PreparedAccessMode_Write => AccessMode_Write
  | PreparedAccessMode_Append => AccessMode_Append
  | PreparedAccessMode_Delete => AccessMode_Delete
  end.

Definition is_delete (self : PreparedAccessMode) : bool :=
  match self with PreparedAccessMode_Delete => true | _ => false end.

Definition requires_payload (self : PreparedAccessMode) : bool := negb (is_delete self).

Record PreparedWrite := {
  pw_reference : string;
  pw_physical_reference : string;
  pw_target : string;
  pw_target_kind : EffectTargetKind;
  pw_access_mode : PreparedAccessMode;
  pw_destructive : bool;
  pw_expected_hash : option string;
  pw_payload_content : option bytes;
  pw_content : bytes
}.

Definition with_content (write : PreparedWrite) (content : bytes) : PreparedWrite := {|
  pw_reference := pw_reference write; pw_physical_reference := pw_physical_reference write; pw_target := pw_target write;
  pw_target_kind := pw_target_kind write; pw_access_mode := pw_access_mode write; pw_destructive := pw_destructive write;
  pw_expected_hash := pw_expected_hash write; pw_payload_content := pw_payload_content write; pw_content := content |}.

Record OriginalFileState := {
  ofs_target : string;
  ofs_physical_reference : string;
  ofs_existed : bool;
  ofs_content : bytes;
  ofs_installed_content : option bytes
}.

Definition payload_for (payloads : list EffectApplicationPayload) (target_ref : string) : option EffectApplicationPayload :=
  List.find (fun payload => bool_decide (pl_target_ref payload = target_ref)) payloads.

Section store.
Context {codec : EffectCodec} (root : EffectRoot).

Definition sha256_content_hash (content : bytes) : string := format_sha256 (effect_sha256 content).

Definition relative_of (write : PreparedWrite) : option Key := retained_components root (pw_physical_reference write).

(** One turn of [validate_file_backed_reads_retained]: the reason it pushes. *)
Definition validate_file_backed_read (read : EffectRead) : Io (list EffectApplicationReason) :=
  if negb (file_backed_target (er_target_kind read)) then io_ret []
  else match er_expected_hash read with
       | None => io_ret []
       | Some expected_hash =>
           match effect_target_physical_reference (er_target_kind read) (er_reference read) with
           | Err _ => io_ret [EffectReason_InvalidTargetPath]
           | Ok physical_ref =>
               let! r := read_source_file (retained_components root physical_ref) in
               io_ret (match r with
                       | Ok content => if bool_decide (sha256_content_hash content = expected_hash) then []
                                       else [EffectReason_ExpectedHashMismatch]
                       | Err _ => [EffectReason_ExpectedHashMismatch]
                       end)
           end
       end.

Definition validate_file_backed_reads_retained (effect : ToolEffectContractDocument) : Io (list EffectApplicationReason) :=
  let! reasons := io_map validate_file_backed_read (te_read_set (ted_tool_effect_contract effect)) in io_ret (concat reasons).

(** The [match access_mode] on the presence of the target. *)
Definition presence_reason (access_mode : PreparedAccessMode) (target_exists : bool) : option EffectApplicationReason :=
  match access_mode, target_exists with
  | PreparedAccessMode_Create, true => Some EffectReason_TargetExistsForCreate
  | PreparedAccessMode_Write, false => Some EffectReason_TargetMissingForWrite
  | PreparedAccessMode_Delete, false => Some EffectReason_TargetMissingForDelete
  | _, _ => None
  end.

(** Whether the file still has the expected digest; nothing is read when none is expected. *)
Definition expected_hash_holds (relative : option Key) (expected_hash : option string) : Io bool :=
  match expected_hash with
  | None => io_ret true
  | Some expected =>
      let! r := read_authority_file relative in
      io_ret (match r with Ok content => bool_decide (sha256_content_hash content = expected) | Err _ => false end)
  end.

(** The content an append installs: the current one, or nothing, followed by the payload. *)
Definition appended_content (relative : option Key) (payload : bytes) : Io (Result bytes EffectApplicationReason) :=
  let! r := read_authority_file relative in
  io_ret (match r with
          | Ok content => Ok (content ++ payload)%list
          | Err IoError_NotFound => Ok payload
          | Err IoError_Other => Err EffectReason_InvalidTargetPath
          end).

(** The content a write installs. *)
Definition content_for (access_mode : PreparedAccessMode) (relative : option Key) (payload : option bytes)
    : Io (Result bytes EffectApplicationReason) :=
  match access_mode, payload with
  | PreparedAccessMode_Delete, _ => io_ret (Ok [])
  | _, None => io_ret (Err EffectReason_MissingPayloadForWrite)
  | PreparedAccessMode_Append, Some payload => appended_content relative payload
  | _, Some payload => io_ret (Ok payload)
  end.

(** One turn of [prepare_file_writes]: the prepared write, or the reason pushed before [continue]. *)
Definition prepare_file_write (payloads : list EffectApplicationPayload) (write : EffectWrite)
    : Io (Result PreparedWrite EffectApplicationReason) :=
  if negb (file_backed_target (ew_target_kind write)) then io_ret (Err EffectReason_UnsupportedTargetKind) else
  match from_contract (ew_access_mode write) with
  | Err reason => io_ret (Err reason)
  | Ok access_mode =>
  match resolve_effect_target (root_canonical root) (ew_target_kind write) (ew_reference write) with
  | Err (AppendJsonLine_ReservedStatePath _ _) => io_ret (Err EffectReason_ReservedStatePath)
  | Err _ => io_ret (Err EffectReason_InvalidTargetPath)
  | Ok (target, physical_reference) =>
      let payload := if requires_payload access_mode then payload_for payloads (ew_reference write) else None in
      if requires_payload access_mode && is_none payload then io_ret (Err EffectReason_MissingPayloadForWrite)
      else if option_any (fun p => negb (bool_decide (sha256_content_hash (pl_content p) = pl_content_hash p))) payload
      then io_ret (Err EffectReason_PayloadHashMismatch)
      else
        let relative := retained_components root physical_reference in
        let! exists_result := authority_leaf_exists relative in
        match exists_result with
        | Err _ => io_ret (Err EffectReason_InvalidTargetPath)
        | Ok target_exists =>
            match presence_reason access_mode target_exists with
            | Some reason => io_ret (Err reason)
            | None =>
                if bool_decide (access_mode = PreparedAccessMode_Write) && is_none (ew_expected_hash write)
                then io_ret (Err EffectReason_MissingExpectedHashForOverwrite)
                else
                  let! fresh := expected_hash_holds relative (ew_expected_hash write) in
                  if negb fresh then io_ret (Err EffectReason_ExpectedHashMismatch)
                  else
                    let! content := content_for access_mode relative (pl_content <$> payload) in
                    io_ret (match content with
                            | Err reason => Err reason
                            | Ok content => Ok {|
                                pw_reference := ew_reference write; pw_physical_reference := physical_reference;
                                pw_target := target; pw_target_kind := ew_target_kind write; pw_access_mode := access_mode;
                                pw_destructive := ew_destructive write; pw_expected_hash := ew_expected_hash write;
                                pw_payload_content := pl_content <$> payload; pw_content := content |}
                            end)
            end
        end
  end
  end.

Definition oks {A E} (l : list (Result A E)) : list A := omap (fun r => match r with Ok a => Some a | Err _ => None end) l.
Definition errs {A E} (l : list (Result A E)) : list E := omap (fun r => match r with Err e => Some e | Ok _ => None end) l.

(** [reasons] are those pushed before; the writes are returned when none was pushed at all. *)
Definition prepare_file_writes (effect : ToolEffectContractDocument) (payloads : list EffectApplicationPayload)
    (reasons : list EffectApplicationReason) : Io (list EffectApplicationReason * option (list PreparedWrite)) :=
  let! results := io_map (prepare_file_write payloads) (te_write_set (ted_tool_effect_contract effect)) in
  let reasons := (reasons ++ errs results)%list in
  io_ret (reasons, if is_nil reasons then Some (oks results) else None).

(** One turn of [revalidate_prepared_writes_retained]. *)
Definition revalidate_prepared_write (write : PreparedWrite) : Io (Result PreparedWrite EffectApplicationReason) :=
  if negb (is_none (reserved_state_path (pw_physical_reference write))) then io_ret (Err EffectReason_ReservedStatePath) else
  let relative := relative_of write in
  let! exists_result := authority_leaf_exists relative in
  match exists_result with
  | Err _ => io_ret (Err EffectReason_InvalidTargetPath)
  | Ok target_exists =>
      match presence_reason (pw_access_mode write) target_exists with
      | Some reason => io_ret (Err reason)
      | None =>
          let! fresh := expected_hash_holds relative (pw_expected_hash write) in
          if negb fresh then io_ret (Err EffectReason_ExpectedHashMismatch)
          else
            let! content := content_for (pw_access_mode write) relative (pw_payload_content write) in
            io_ret (match content with Err reason => Err reason | Ok content => Ok (with_content write content) end)
      end
  end.

(** The new reasons and, when there are none, the refreshed writes. *)
Definition revalidate_prepared_writes_retained (writes : list PreparedWrite)
    : Io (list EffectApplicationReason * list PreparedWrite) :=
  let! results := io_map revalidate_prepared_write writes in io_ret (errs results, oks results).

Definition effect_target_metadata_records (effect : ToolEffectContractDocument) (writes : list PreparedWrite)
    : list EffectTargetMetadataRecord :=
  let contract := ted_tool_effect_contract effect in
  map (fun write => {|
    md_schema_version := "0.1"; md_record_kind := EffectTargetMetadataRecordKind_EffectTarget; md_recorded_at := None;
    md_operation_id := te_operation_ref contract; md_effect_id := te_id contract;
    md_logical_ref := pw_reference write; md_physical_ref := pw_physical_reference write;
    md_target_kind := pw_target_kind write; md_access_mode := as_contract (pw_access_mode write);
    md_content_hash := if is_delete (pw_access_mode write) then None else Some (sha256_content_hash (pw_content write));
    md_byte_len := Z.of_nat (length (pw_content write));
    md_actor_agent_id := ea_agent_id (te_actor contract); md_actor_role := ea_role (te_actor contract);
    md_destructive := pw_destructive write; md_redaction_hint := mk_StableId "raw_content_not_indexed" |}) writes.

(** ** Before images *)

Definition expected_presence (access_mode : PreparedAccessMode) : option bool :=
  match access_mode with
  | PreparedAccessMode_Create => Some false
  | PreparedAccessMode_Write | PreparedAccessMode_Delete => Some true
  | PreparedAccessMode_Append => None
  end.

(** One turn of [capture_originals_retained]; [None] is an error. *)
Definition capture_original (write : PreparedWrite) : Io (option (PreparedWrite * OriginalFileState)) :=
  let! r := read_optional_authority_file (relative_of write) in
  io_ret (match r with
  | Err _ => None
  | Ok current =>
      let existed := negb (is_none current) in
      let content := default [] current in
      if option_any (fun expected => negb (Bool.eqb existed expected)) (expected_presence (pw_access_mode write)) then None
      else if option_any (fun expected => negb existed || negb (bool_decide (sha256_content_hash content = expected)))
                (pw_expected_hash write) then None
      else
        let captured write := (write, {|
          ofs_target := pw_target write; ofs_physical_reference := pw_physical_reference write; ofs_existed := existed;
          ofs_content := content;
          ofs_installed_content := if is_delete (pw_access_mode write) then None else Some (pw_content write) |}) in
        if bool_decide (pw_access_mode write = PreparedAccessMode_Append)
        then match pw_payload_content write with
             | None => None
             | Some payload => Some (captured (with_content write (content ++ payload)%list))
             end
        else Some (captured write)
  end).

(** [iter_mut().map(..).collect::<io::Result<Vec<_>>>()] stops at the first error. *)
Fixpoint capture_originals_retained (writes : list PreparedWrite) : Io (option (list (PreparedWrite * OriginalFileState))) :=
  match writes with
  | [] => io_ret (Some [])
  | write :: rest =>
      let! captured := capture_original write in
      match captured with
      | None => io_ret None
      | Some first =>
          let! others := capture_originals_retained rest in
          io_ret (match others with Some pairs => Some (first :: pairs) | None => None end)
      end
  end.

(** ** Publication and rollback of files *)

(** [then sync the parent directory]. *)
Definition remove_and_sync (relative : option Key) (expected : bytes) : Io (Result unit IoError) :=
  io_and_then (remove_authority_file_retained relative expected) (fun _ => sync_directory).

Definition apply_prepared_write_for_publication (write : PreparedWrite) (original : OriginalFileState) : Io (Result unit IoError) :=
  if negb (is_none (reserved_state_path (pw_physical_reference write))) then bad_path
  else if negb (bool_decide (ofs_physical_reference original = pw_physical_reference write))
       || negb (bool_decide (ofs_target original = pw_target write))
       || negb (bool_decide (ofs_installed_content original
                             = if is_delete (pw_access_mode write) then None else Some (pw_content write)))
  then bad_path
  else
    let expected := if ofs_existed original then Some (ofs_content original) else None in
    if is_delete (pw_access_mode write)
    then match expected with
         | None => bad_path
         | Some expected => remove_and_sync (relative_of write) expected
         end
    else atomic_replace_file_retained (relative_of write) (pw_content write) expected.

Definition original_matches (original : OriginalFileState) (current : option bytes) : bool :=
  if ofs_existed original then bool_decide (current = Some (ofs_content original)) else is_none current.

(** One turn of [rollback_originals_for_publication]: whether the file is restored. *)
Definition rollback_original (original : OriginalFileState) : Io bool :=
  if negb (is_none (reserved_state_path (ofs_physical_reference original))) then io_ret false
  else
    let relative := retained_components root (ofs_physical_reference original) in
    let! result := io_and_then (read_optional_authority_file relative) (fun current =>
      if original_matches original current then io_ret (Ok tt)
      else if negb (bool_decide (current = ofs_installed_content original)) then io_ret (Err IoError_Other)
      else if ofs_existed original
      then atomic_replace_file_retained relative (ofs_content original) (ofs_installed_content original)
      else match ofs_installed_content original with
           | Some installed => remove_and_sync relative installed
           | None => io_ret (Err IoError_Other)
           end) in
    io_ret (match result with Ok _ => true | Err _ => false end).

Definition rollback_originals_for_publication (originals : list OriginalFileState) : Io bool :=
  let! results := io_map rollback_original (rev originals) in io_ret (forallb id results).

(** ** Log records *)

Definition wal_record (tx_id : string) (stage : EffectWalStage) (effect_id : StableId) : EffectWalRecord := {|
  ewr_schema_version := "0.1"; ewr_tx_id := tx_id; ewr_stage := stage; ewr_effect_id := effect_id;
  ewr_target_ref := None; ewr_physical_target_ref := None; ewr_target_metadata := None; ewr_original := None;
  ewr_diagnostic := None; ewr_execution_provenance := None; ewr_replay_binding := None; ewr_replay_completion := None |}.

Definition record_begin (tx_id : string) (effect_id : StableId) : EffectWalRecord := wal_record tx_id EffectWalStage_Begin effect_id.

Definition begin_with_authority (tx_id : string) (effect_id : StableId) (provenance : EffectExecutionProvenance)
    (binding : EffectReplayCommitBinding) : EffectWalRecord := {|
  ewr_schema_version := "0.1"; ewr_tx_id := tx_id; ewr_stage := EffectWalStage_Begin; ewr_effect_id := effect_id;
  ewr_target_ref := None; ewr_physical_target_ref := None; ewr_target_metadata := None; ewr_original := None;
  ewr_diagnostic := None; ewr_execution_provenance := Some provenance; ewr_replay_binding := Some binding;
  ewr_replay_completion := None |}.

Definition before_image (tx_id : string) (effect_id : StableId) (write : PreparedWrite) (original : OriginalFileState)
    : EffectWalRecord := {|
  ewr_schema_version := "0.1"; ewr_tx_id := tx_id; ewr_stage := EffectWalStage_BeforeImage; ewr_effect_id := effect_id;
  ewr_target_ref := Some (pw_reference write); ewr_physical_target_ref := Some (pw_physical_reference write);
  ewr_target_metadata := None;
  ewr_original := Some {| ewo_existed := ofs_existed original; ewo_content := ofs_content original;
                          ewo_content_hash := sha256_content_hash (ofs_content original) |};
  ewr_diagnostic := None; ewr_execution_provenance := None; ewr_replay_binding := None; ewr_replay_completion := None |}.

Definition write_applied (tx_id : string) (effect : ToolEffectContractDocument) (write : PreparedWrite) : EffectWalRecord :=
  let contract := ted_tool_effect_contract effect in {|
  ewr_schema_version := "0.1"; ewr_tx_id := tx_id; ewr_stage := EffectWalStage_WriteApplied; ewr_effect_id := te_id contract;
  ewr_target_ref := Some (pw_reference write); ewr_physical_target_ref := Some (pw_physical_reference write);
  ewr_target_metadata := Some {|
    etm_operation_id := te_operation_ref contract; etm_target_kind := pw_target_kind write;
    etm_access_mode := as_contract (pw_access_mode write);
    etm_content_hash := if is_delete (pw_access_mode write) then None else Some (sha256_content_hash (pw_content write));
    etm_byte_len := Z.of_nat (length (pw_content write));
    etm_actor_agent_id := ea_agent_id (te_actor contract); etm_actor_role := ea_role (te_actor contract);
    etm_destructive := pw_destructive write; etm_redaction_hint := mk_StableId "raw_content_not_indexed" |};
  ewr_original := None; ewr_diagnostic := None; ewr_execution_provenance := None; ewr_replay_binding := None;
  ewr_replay_completion := None |}.

(** [EffectWalRecord::stage]. *)
Definition record_stage (tx_id : string) (effect_id : StableId) (stage : EffectWalStage) : EffectWalRecord :=
  wal_record tx_id stage effect_id.

Definition replay_consumed (tx_id : string) (effect_id : StableId) (binding : EffectReplayCommitBinding)
    (completion : EffectReplayCompletion) : EffectWalRecord := {|
  ewr_schema_version := "0.1"; ewr_tx_id := tx_id; ewr_stage := EffectWalStage_ReplayConsumed; ewr_effect_id := effect_id;
  ewr_target_ref := None; ewr_physical_target_ref := None; ewr_target_metadata := None; ewr_original := None;
  ewr_diagnostic := None; ewr_execution_provenance := None; ewr_replay_binding := Some binding;
  ewr_replay_completion := Some completion |}.

Definition append_effect_wal_record_for_publication (wal_relative_path : string) (record : EffectWalRecord)
    : Io (Result unit AppendJsonLineError) :=
  match reserved_state_path wal_relative_path with
  | Some reserved => io_ret (Err (AppendJsonLine_ReservedStatePath wal_relative_path reserved))
  | None =>
      match normalized_effect_relative_path wal_relative_path with
      | None => io_ret (Err (AppendJsonLine_InvalidRelativePath wal_relative_path))
      | Some relative =>
          match record_to_vec record with
          | None => io_ret (Err AppendJsonLine_Serialize)
          | Some line =>
              let! r := append_file relative (line ++ [LF])%list in
              io_ret (match r with Ok _ => Ok tt | Err _ => Err AppendJsonLine_Write end)
          end
      end
  end.

End store.
