(* ===== verification/EffectLog.v ===== *)
(** * Effect transactions and their log

    [forge-core-store/src/lib.rs]: the transaction that brackets the writes of an effect with log
    records, the recovery that restores the before images of unfinished transactions, the repair of a
    torn tail, and the projection of committed effects whose replay reservation is still open. *)

From S2P Require Import Prelude RustStr Contracts OperationContracts Diagnostics StatePaths EffectTypes CrashIo ReplayWal ReplayCommands EffectStore.

Local Open Scope string_scope.
Local Open Scope forge_scope.

Definition push_unique_reason (reasons : list EffectApplicationReason) (reason : EffectApplicationReason) : list EffectApplicationReason :=
  if bool_decide (reason ∈ reasons) then reasons else (reasons ++ [reason])%list.

(** ** Reading the log *)

Definition is_closing (stage : EffectWalStage) : bool :=
  match stage with
  | EffectWalStage_Commit | EffectWalStage_RollbackComplete | EffectWalStage_RecoveredRollback => true
  | _ => false
  end.

(** The ids with a [Begin] record, in order, each once. *)
Definition begun_transactions (records : list EffectWalRecord) : list string :=
  foldl (fun begun record =>
    if bool_decide (ewr_stage record = EffectWalStage_Begin) && negb (bool_decide (ewr_tx_id record ∈ begun))
    then (begun ++ [ewr_tx_id record])%list else begun) [] records.

Definition closed_transactions (records : list EffectWalRecord) : list string :=
  map ewr_tx_id (List.filter (fun record => is_closing (ewr_stage record)) records).

Definition incomplete_wal_transactions (records : list EffectWalRecord) : list string :=
  List.filter (fun tx_id => negb (bool_decide (tx_id ∈ closed_transactions records))) (begun_transactions records).

Definition record_target (record : EffectWalRecord) : option string :=
  match ewr_physical_target_ref record with Some physical => Some physical | None => ewr_target_ref record end.

Definition reserved_wal_target (records : list EffectWalRecord) : option (string * ReservedStatePath) :=
  find_map (fun record =>
    match record_target record with
    | Some target => match reserved_state_path target with Some reserved => Some (ewr_tx_id record, reserved) | None => None end
    | None => None
    end) records.

Definition EXTERNAL_PUBLICATION_SCOPE : string := "external_retained_project_tree_v1".

(** A [Begin] whose provenance names the split-root publication scope. *)
Definition names_external_publication (record : EffectWalRecord) : bool :=
  bool_decide (ewr_stage record = EffectWalStage_Begin)
  && bool_decide ((ewr_execution_provenance record ≫= fun provenance =>
       json_get "publication_scope" (eep_document provenance) ≫= fun scope =>
       json_get "kind" scope ≫= json_as_str) = Some EXTERNAL_PUBLICATION_SCOPE).

Section log.
Context {codec : EffectCodec} (root : EffectRoot).

(** The loop of [parse_effect_wal_records_for_recovery]: [Err] is the number of the line that failed. *)
Fixpoint parse_recovery_lines (truncated : bool) (index : nat) (ls : list string) : Result (list EffectWalRecord) nat :=
  match ls with
  | [] => Ok []
  | line :: rest =>
      match record_from_str line with
      | Some record => match parse_recovery_lines truncated (S index) rest with Ok records => Ok (record :: records) | Err e => Err e end
      | None => if truncated && is_nil rest then Ok [] else Err (index + 1)
      end
  end.

Definition parse_effect_wal_records_for_recovery (text : string) : Result (list EffectWalRecord) nat :=
  let truncated := negb (str_is_empty text) && negb (ends_with_char LF text) in
  parse_recovery_lines truncated 0 (lines text).

(** [str::from_utf8]. *)
Definition from_utf8 (b : bytes) : option string := if is_none (utf8_error b) then Some (of_bytes b) else None.

(** The strict parser: blank lines are skipped, a partial last line is an error. *)
Fixpoint parse_strict_lines (index : nat) (ls : list string) : Result (list EffectWalRecord) nat :=
  match ls with
  | [] => Ok []
  | line :: rest =>
      if str_is_empty (trim line) then parse_strict_lines (S index) rest
      else match record_from_str line with
           | Some record => match parse_strict_lines (S index) rest with Ok records => Ok (record :: records) | Err e => Err e end
           | None => Err (index + 1)
           end
  end.

Definition parse_effect_wal_records_strict (content : string) : Result (list EffectWalRecord) EffectReplayReconciliationError :=
  if negb (str_is_empty content) && negb (ends_with_char LF content)
  then Err (Reconcile_WalParse (Nat.max (length (lines content)) 1))
  else map_err Reconcile_WalParse (parse_strict_lines 0 (lines content)).

Definition read_effect_wal_records_strict_retained (wal_relative : Key)
    : Io (Result (list EffectWalRecord) EffectReplayReconciliationError) :=
  let! r := read_authority_file (Some wal_relative) in
  io_ret (match r with
          | Err _ => Err Reconcile_WalRead
          | Ok bytes => match from_utf8 bytes with
                        | None => Err (Reconcile_WalParse 1)
                        | Some content => parse_effect_wal_records_strict content
                        end
          end).

(** [rposition(|byte| byte == LF).map_or(0, |index| index + 1)]: where the last line starts. *)
Fixpoint tail_start_go (i start : nat) (b : bytes) : nat :=
  match b with
  | [] => start
  | c :: r => tail_start_go (S i) (if bool_decide (c = LF) then S i else start) r
  end.
Definition tail_start (b : bytes) : nat := tail_start_go 0 0 b.

Definition repair_effect_wal_tail_retained (wal_relative : Key) : Io (Result bool EffectReplayReconciliationError) :=
  let! r := read_authority_file (Some wal_relative) in
  match r with
  | Err _ => io_ret (Err Reconcile_WalRead)
  | Ok bytes =>
      if is_nil bytes || bool_decide (last bytes = Some LF) then io_ret (Ok false)
      else
        let tail := from_utf8 (drop (tail_start bytes) bytes) in
        let complete_final_record := option_any (fun tail => negb (is_none (record_from_str tail))) tail in
        let! r := if complete_final_record then append_file wal_relative [LF] else truncate_file wal_relative (tail_start bytes) in
        io_ret (match r with Ok _ => Ok true | Err _ => Err Reconcile_WalRepair end)
  end.

Definition reconciliation_relative_path (relative : string) : Result Key EffectReplayReconciliationError :=
  match reserved_state_path relative with
  | Some reserved => Err (Reconcile_ReservedStatePath relative reserved)
  | None => match normalized_effect_relative_path relative with
            | Some key => Ok key
            | None => Err (Reconcile_InvalidRelativePath relative)
            end
  end.

(** [repair_effect_wal_tail_under_lock]; the lock scope is the caller's. *)
Definition repair_effect_wal_tail_under_lock (wal_relative_path : string) : Io (Result bool EffectReplayReconciliationError) :=
  match reconciliation_relative_path wal_relative_path with
  | Err e => io_ret (Err e)
  | Ok wal_relative =>
      let! r := authority_leaf_exists (Some wal_relative) in
      match r with
      | Err _ => io_ret (Err Reconcile_WalRead)
      | Ok false => io_ret (Ok false)
      | Ok true => repair_effect_wal_tail_retained wal_relative
      end
  end.

(** ** Applying a transaction *)

Definition result_of (effect_id : StableId) (errors warnings : nat) (status : EffectApplicationStatus) (applied : list string)
    (metadata : list EffectTargetMetadataRecord) (rolled_back : bool) (reasons : list EffectApplicationReason) : EffectApplicationResult := {|
  ear_status := status; ear_effect_id := effect_id; ear_applied_refs := applied; ear_metadata_records := metadata;
  ear_rolled_back := rolled_back; ear_reasons := reasons; ear_validation_error_count := errors;
  ear_validation_warning_count := warnings |}.

Definition blocked_effect_application_result (effect_id : StableId) (reasons : list EffectApplicationReason) (errors warnings : nat)
    : EffectApplicationResult := result_of effect_id errors warnings EffectApplicationStatus_Blocked [] [] false reasons.

(** What the functions below share of a transaction. *)
Record Transaction := {
  tn_effect : ToolEffectContractDocument;
  tn_wal_relative_path : string;
  tn_tx_id : string;
  tn_errors : nat;
  tn_warnings : nat
}.

Definition tn_effect_id (tn : Transaction) : StableId := te_id (ted_tool_effect_contract (tn_effect tn)).

Definition append_for (tn : Transaction) (record : EffectWalRecord) : Io (Result unit AppendJsonLineError) :=
  append_effect_wal_record_for_publication (tn_wal_relative_path tn) record.

Definition rollback_wal_transaction_result (tn : Transaction) (originals : list OriginalFileState) (applied_refs : list string)
    (reasons : list EffectApplicationReason) : Io EffectApplicationResult :=
  let! rollback := rollback_originals_for_publication root originals in
  let! recorded := append_for tn (record_stage (tn_tx_id tn) (tn_effect_id tn) EffectWalStage_RollbackComplete) in
  let rollback_recorded := is_ok recorded in
  let reasons := if negb rollback || negb rollback_recorded then push_unique_reason reasons EffectReason_RollbackFailed else reasons in
  io_ret (result_of (tn_effect_id tn) (tn_errors tn) (tn_warnings tn)
    (if rollback && rollback_recorded then EffectApplicationStatus_RolledBack else EffectApplicationStatus_RollbackFailed)
    applied_refs [] rollback reasons).

(** The loop over the writes and their before images, then the commit. *)
Fixpoint publish_writes (tn : Transaction) (all : list (PreparedWrite * OriginalFileState))
    (pairs : list (PreparedWrite * OriginalFileState)) (applied_refs : list string) : Io EffectApplicationResult :=
  let originals := map snd all in
  match pairs with
  | [] =>
      let! committed := append_for tn (record_stage (tn_tx_id tn) (tn_effect_id tn) EffectWalStage_Commit) in
      if is_ok committed
      then io_ret (result_of (tn_effect_id tn) (tn_errors tn) (tn_warnings tn) EffectApplicationStatus_Applied applied_refs
             (effect_target_metadata_records (tn_effect tn) (map fst all)) false [EffectReason_Applied])
      else rollback_wal_transaction_result tn originals applied_refs [EffectReason_WalAppendFailed]
  | (write, original) :: rest =>
      let! logged := append_for tn (before_image (tn_tx_id tn) (tn_effect_id tn) write original) in
      if negb (is_ok logged) then
        let! rollback := rollback_originals_for_publication root originals in
        io_ret (result_of (tn_effect_id tn) (tn_errors tn) (tn_warnings tn)
          (if rollback then EffectApplicationStatus_RolledBack else EffectApplicationStatus_RollbackFailed)
          applied_refs [] rollback [EffectReason_WalAppendFailed])
      else
        let! applied := apply_prepared_write_for_publication root write original in
        if negb (is_ok applied) then rollback_wal_transaction_result tn originals applied_refs [EffectReason_ApplyFailed]
        else
          let! recorded := append_for tn (write_applied (tn_tx_id tn) (tn_effect tn) write) in
          if negb (is_ok recorded) then rollback_wal_transaction_result tn originals applied_refs [EffectReason_WalAppendFailed]
          else publish_writes tn all rest (applied_refs ++ [pw_reference write])%list
  end.

Definition begin_record (tn : Transaction) (authority : option (EffectExecutionProvenance * EffectReplayCommitBinding)) : EffectWalRecord :=
  match authority with
  | None => record_begin (tn_tx_id tn) (tn_effect_id tn)
  | Some (provenance, binding) => begin_with_authority (tn_tx_id tn) (tn_effect_id tn) provenance binding
  end.

(** Checks, preparation, revalidation and capture, before anything is written: the pairs of writes and
    before images, or the reasons why the effect is blocked. *)
Definition prepare_transaction (effect : ToolEffectContractDocument) (payloads : list EffectApplicationPayload)
    : Io (Result (list (PreparedWrite * OriginalFileState)) (list EffectApplicationReason)) :=
  let errors := error_count (validate_tool_effect effect) in
  let reasons := if (0 <? errors)%nat then [EffectReason_EffectValidationErrors] else [] in
  let! read_reasons := validate_file_backed_reads_retained root effect in
  let! prepared := prepare_file_writes root effect payloads (reasons ++ read_reasons)%list in
  let '(reasons, prepared) := prepared in
  if negb (is_nil reasons) then io_ret (Err reasons)
  else match prepared with
       | None => io_ret (Err [EffectReason_InternalInvariant])
       | Some writes =>
           let! revalidated := revalidate_prepared_writes_retained root writes in
           let '(new_reasons, writes) := revalidated in
           if negb (is_nil new_reasons) then io_ret (Err new_reasons)
           else
             let! originals := capture_originals_retained root writes in
             io_ret (match originals with None => Err [EffectReason_ApplyFailed] | Some pairs => Ok pairs end)
       end.

Definition apply_file_effect_transaction_with_wal_inner (effect : ToolEffectContractDocument) (payloads : list EffectApplicationPayload)
    (wal_relative_path tx_id : string) (prepared_authority : option (EffectExecutionProvenance * EffectReplayCommitBinding))
    : Io EffectApplicationResult :=
  let report := validate_tool_effect effect in
  let tn := {| tn_effect := effect; tn_wal_relative_path := wal_relative_path; tn_tx_id := tx_id;
               tn_errors := error_count report; tn_warnings := warning_count report |} in
  let blocked reasons := blocked_effect_application_result (tn_effect_id tn) reasons (tn_errors tn) (tn_warnings tn) in
  let! prepared := prepare_transaction effect payloads in
  match prepared with
  | Err reasons => io_ret (blocked reasons)
  | Ok pairs =>
      let! begun := append_for tn (begin_record tn prepared_authority) in
      if negb (is_ok begun) then io_ret (blocked [EffectReason_WalAppendFailed])
      else publish_writes tn pairs pairs []
  end.

(** ** Provenance *)

Definition verify_provenance (self : EffectExecutionProvenance) : bool :=
  bool_decide (eep_schema_version self = EFFECT_EXECUTION_PROVENANCE_SCHEMA_VERSION)
  && match canonical_to_vec (eep_document self) with
     | None => false
     | Some canonical => bool_decide (sha256_content_hash canonical = eep_digest self)
     end.

Definition is_lower_hex_digit (c : ascii) : bool := is_ascii_digit c || in_range 97 102 (code c).

Definition is_lower_sha256_token (value : string) : bool :=
  String.prefix "sha256:" value
  && (String.length value =? 71)%nat && forallb is_lower_hex_digit (drop 7 (to_bytes value)).

Definition validate_effect_replay_binding (binding : EffectReplayCommitBinding) : Result unit string :=
  if negb (is_lower_sha256_token (erb_key_hash binding)) then Err "key_hash must be a lowercase sha256 token"
  else if negb (is_lower_sha256_token (erb_intent_digest binding)) then Err "intent_digest must be a lowercase sha256 token"
  else if negb (is_lower_sha256_token (erb_commit_digest binding)) then Err "commit_digest must be a lowercase sha256 token"
  else if (erb_reservation_revision binding =? 0)%Z then Err "reservation_revision must be greater than zero"
  else Ok tt.

(** The lock scope is the caller's; the durability is fixed to syncing every append. *)
Definition apply_file_effect_transaction_with_provenance_under_lock (effect : ToolEffectContractDocument)
    (payloads : list EffectApplicationPayload) (wal_relative_path tx_id : string) (provenance : EffectExecutionProvenance)
    (replay_binding : EffectReplayCommitBinding) : Io EffectApplicationResult :=
  let effect_id := te_id (ted_tool_effect_contract effect) in
  let invalid := blocked_effect_application_result effect_id [EffectReason_ExecutionProvenanceInvalid] 0 0 in
  if negb (verify_provenance provenance) then io_ret invalid
  else match validate_effect_replay_binding replay_binding with
       | Err _ => io_ret invalid
       | Ok _ => apply_file_effect_transaction_with_wal_inner effect payloads wal_relative_path tx_id (Some (provenance, replay_binding))
       end.

(** [preflight_file_effect_transaction_under_lock]: the same checks, nothing written. *)
Definition preflight_file_effect_transaction_under_lock (effect : ToolEffectContractDocument)
    (payloads : list EffectApplicationPayload) : Io EffectPreflightResult :=
  let report := validate_tool_effect effect in
  let reasons := if (0 <? error_count report)%nat then [EffectReason_EffectValidationErrors] else [] in
  let result reasons metadata := {|
    epr_status := if is_nil reasons then EffectPreflightStatus_Ready else EffectPreflightStatus_Blocked;
    epr_effect_id := te_id (ted_tool_effect_contract effect); epr_metadata_records := metadata; epr_reasons := reasons;
    epr_validation_error_count := error_count report; epr_validation_warning_count := warning_count report |} in
  let! read_reasons := validate_file_backed_reads_retained root effect in
  let! prepared := prepare_file_writes root effect payloads (reasons ++ read_reasons)%list in
  let '(reasons, prepared) := prepared in
  if negb (is_nil reasons) then io_ret (result reasons [])
  else match prepared with
       | None => io_ret (result [EffectReason_InternalInvariant] [])
       | Some writes =>
           let! revalidated := revalidate_prepared_writes_retained root writes in
           let '(new_reasons, writes) := revalidated in
           io_ret (result new_reasons (if is_nil new_reasons then effect_target_metadata_records effect writes else []))
       end.

(** ** Recovery *)

(** One turn of [rollback_wal_before_images_retained]; [true] when nothing went wrong. *)
Definition rollback_before_image (record : EffectWalRecord) : Io bool :=
  match ewr_target_ref record, ewr_original record with
  | Some target_ref, Some original =>
      let physical := default target_ref (ewr_physical_target_ref record) in
      if negb (is_none (reserved_state_path physical)) then io_ret false
      else match normalized_effect_relative_path physical with
           | None => io_ret false
           | Some relative =>
               let! result :=
                 if ewo_existed original then
                   (if bool_decide (sha256_content_hash (ewo_content original) = ewo_content_hash original)
                    then io_and_then (read_optional_authority_file (Some relative)) (fun current =>
                           if bool_decide (current = Some (ewo_content original)) then io_ret (Ok tt)
                           else atomic_replace_file_retained (Some relative) (ewo_content original) current)
                    else io_ret (Err IoError_Other))
                 else io_and_then (read_optional_authority_file (Some relative)) (fun current =>
                        match current with
                        | None => io_ret (Ok tt)
                        | Some current => remove_and_sync (Some relative) current
                        end) in
               io_ret (is_ok result)
           end
  | _, _ => io_ret true
  end.

Definition rollback_wal_before_images_retained (before_images : list EffectWalRecord) : Io bool :=
  let! results := io_map rollback_before_image (rev before_images) in io_ret (forallb id results).

Definition before_images_of (tx_id : string) (records : list EffectWalRecord) : list EffectWalRecord :=
  List.filter (fun record => bool_decide (ewr_tx_id record = tx_id) && bool_decide (ewr_stage record = EffectWalStage_BeforeImage)) records.

(** One turn of the loop over the incomplete transactions: whether it was rolled back, and whether the
    marker was written. *)
Definition recover_transaction (wal_relative_path : string) (records : list EffectWalRecord) (tx_id : string) : Io (bool * bool) :=
  let images := before_images_of tx_id records in
  let! rolled_back := rollback_wal_before_images_retained images in
  if rolled_back then
    let effect_id := match images with image :: _ => ewr_effect_id image | [] => mk_StableId "unknown_effect" end in
    let! marked := append_effect_wal_record_for_publication wal_relative_path
      (record_stage tx_id effect_id EffectWalStage_RecoveredRollback) in
    io_ret (true, is_ok marked)
  else io_ret (false, false).

Definition recovery_result (status : EffectWalRecoveryStatus) (recovered : list string) (reason : EffectWalRecoveryReason)
    : EffectWalRecoveryResult := {| ewv_status := status; ewv_recovered_transactions := recovered; ewv_reasons := [reason] |}.

Definition recovery_failed (reason : EffectWalRecoveryReason) : EffectWalRecoveryResult :=
  recovery_result EffectWalRecoveryStatus_RecoveryFailed [] reason.

(** What recovery does with the parsed records. *)
Definition recover_records (wal_relative_path : string) (records : list EffectWalRecord) : Io EffectWalRecoveryResult :=
  if existsb names_external_publication records
  then io_ret (recovery_failed RecoveryReason_ExternalPublicationUnsupported)
  else match reserved_wal_target records with
       | Some _ => io_ret (recovery_failed RecoveryReason_ReservedStatePath)
       | None =>
           let incomplete := incomplete_wal_transactions records in
           if is_nil incomplete
           then io_ret (recovery_result EffectWalRecoveryStatus_Noop [] RecoveryReason_NoRecoveryNeeded)
           else
             let! outcomes := io_map (recover_transaction wal_relative_path records) incomplete in
             let recovered := omap (fun '(tx_id, (rolled_back, _)) => if rolled_back : bool then Some tx_id else None)
               (zip incomplete outcomes) in
             io_ret (if forallb (fun '(rolled_back, marked) => rolled_back && marked) outcomes
                     then recovery_result EffectWalRecoveryStatus_Recovered recovered RecoveryReason_IncompleteTransactionRecovered
                     else recovery_result EffectWalRecoveryStatus_RecoveryFailed recovered RecoveryReason_RollbackFailed)
       end.

Definition recover_effect_wal_under_publication_root (wal_relative_path : string) : Io EffectWalRecoveryResult :=
  match reserved_state_path wal_relative_path with
  | Some _ => io_ret (recovery_failed RecoveryReason_ReservedStatePath)
  | None =>
      match normalized_effect_relative_path wal_relative_path with
      | None => io_ret (recovery_failed RecoveryReason_WalReadFailed)
      | Some wal_relative =>
          let! r := read_authority_file (Some wal_relative) in
          match r with
          | Err IoError_NotFound => io_ret (recovery_result EffectWalRecoveryStatus_Noop [] RecoveryReason_NoWalFile)
          | Err IoError_Other => io_ret (recovery_failed RecoveryReason_WalReadFailed)
          | Ok bytes =>
              match from_utf8 bytes with
              | None => io_ret (recovery_failed RecoveryReason_WalParseFailed)
              | Some text =>
                  match parse_effect_wal_records_for_recovery text with
                  | Err _ => io_ret (recovery_failed RecoveryReason_WalParseFailed)
                  | Ok records => recover_records wal_relative_path records
                  end
              end
          end
      end
  end.

(** The first half of [reconcile_prepared_execution_commits_under_boundary] in the kernel: repair the
    tail, then recover; a failed repair or recovery ends the reconciliation with an error. *)
Definition reconcile_effects (wal_relative_path : string)
    : Io (Result EffectWalRecoveryResult EffectReplayReconciliationError) :=
  let! repaired := repair_effect_wal_tail_under_lock wal_relative_path in
  match repaired with
  | Err e => io_ret (Err e)
  | Ok _ => let! recovered := recover_effect_wal_under_publication_root wal_relative_path in io_ret (Ok recovered)
  end.

End log.
