(* ===== verification/EffectCrash.v ===== *)
(** * Log encoding, repair and recovery of the effect store

    The log is the concatenation of its records, one line each, perhaps followed by a part of one more
    record that a crash tore off.  [Recoverable] says that of a disk, for an invariant between files and
    records; appending, repairing the tail and recovering keep it whatever faults occur. *)

From S2P Require Import Prelude RustStr Contracts OperationContracts Diagnostics StatePaths EffectTypes CrashIo EffectStore EffectLog.

Local Open Scope string_scope.

(** Every record can be written, as one JSON object on one line of UTF-8 text; it reads back as itself,
    and no proper part of it reads as a record. *)
Class EffectCodecLaws (codec : EffectCodec) : Prop := {
  record_roundtrip r v : record_to_vec r = Some v -> record_from_str (of_bytes v) = Some r;
  record_object r v : record_to_vec r = Some v -> exists body, v = ("{"%char :: body ++ ["}"%char])%list;
  record_text r v : record_to_vec r = Some v -> Utf8 v /\ LF ∉ v;
  record_total r : is_Some (record_to_vec r);
  record_torn r v k : record_to_vec r = Some v -> (0 < k < length v)%nat -> record_from_str (of_bytes (take k v)) = None
}.

Fixpoint encode_log {codec : EffectCodec} (rs : list EffectWalRecord) : option bytes :=
  match rs with
  | [] => Some []
  | r :: rs => match record_to_vec r, encode_log rs with Some v, Some b => Some (v ++ LF :: b)%list | _, _ => None end
  end.

Section encoding.
Context {codec : EffectCodec} {laws : EffectCodecLaws codec}.

Lemma encode_log_app rs1 rs2 b1 b2 :
  encode_log rs1 = Some b1 -> encode_log rs2 = Some b2 -> encode_log (rs1 ++ rs2)%list = Some (b1 ++ b2)%list.
Proof.
  revert b1. induction rs1 as [|r rs1 IH]; simpl; intros b1 H1 H2; [by simplify_eq|].
  destruct (record_to_vec r) as [v|]; [|done]. destruct (encode_log rs1) as [b|]; [|done]. simplify_eq.
  rewrite (IH b) by done. by rewrite <- app_assoc.
Qed.

Lemma encode_log_nil rs : encode_log rs = Some [] -> rs = [].
Proof.
  destruct rs as [|r rs]; simpl; [done|]. destruct (record_to_vec r) as [v|], (encode_log rs); intros H; simplify_eq; by destruct v.
Qed.

Lemma encode_log_snoc rs r b v :
  encode_log rs = Some b -> record_to_vec r = Some v -> encode_log (rs ++ [r])%list = Some (b ++ v ++ [LF])%list.
Proof. intros Hb Hv. apply encode_log_app; [done|]. simpl. by rewrite Hv. Qed.

Lemma record_last r v : record_to_vec r = Some v -> last v ≠ Some CR /\ v ≠ [].
Proof.
  intros (body & ->)%record_object. split; [|done].
  change ("{"%char :: body ++ ["}"%char])%list with (("{"%char :: body) ++ ["}"%char])%list. by rewrite last_snoc.
Qed.

Lemma encode_log_end rs b : encode_log rs = Some b -> b = [] \/ last b = Some LF.
Proof.
  destruct rs as [|r rs _] using rev_ind; [intros [= <-]; by left|]. intros H. right.
  assert (exists b1, b = (b1 ++ [LF])%list) as [b1 ->]; [|by rewrite last_snoc].
  revert b H. induction rs as [|s rs IH]; simpl; intros b H.
  - destruct (record_to_vec r) as [v|]; simplify_eq. by exists v.
  - destruct (record_to_vec s) as [v|]; [|done]. destruct (encode_log (rs ++ [r])%list) as [b'|]; [|done]. simplify_eq.
    destruct (IH b' eq_refl) as [b1 ->]. exists (v ++ LF :: b1)%list. by rewrite <- app_assoc.
Qed.

Lemma encode_log_utf8 rs b : encode_log rs = Some b -> Utf8 b.
Proof.
  revert b. induction rs as [|r rs IH]; simpl; intros b H; [simplify_eq; constructor|]. repeat case_match; simplify_eq.
  apply Utf8_app; [by eapply record_text|]. change (LF :: ?k) with ([LF] ++ k)%list.
  apply Utf8_app; [by apply Utf8_ascii|by apply IH].
Qed.

Lemma from_utf8_ok b : Utf8 b -> from_utf8 b = Some (of_bytes b).
Proof. intros H. unfold from_utf8. by rewrite Utf8_no_error. Qed.

Lemma lines_encode rs b : encode_log rs = Some b ->
  exists vs, Forall2 (fun r v => record_to_vec r = Some v) rs vs /\ lines (of_bytes b) = map of_bytes vs.
Proof.
  unfold lines. rewrite to_of_bytes. revert b. induction rs as [|r rs IH]; simpl; intros b H; [simplify_eq; by exists []|].
  destruct (record_to_vec r) as [v|] eqn:Ev; [|done]. destruct (encode_log rs) as [b'|] eqn:Eb; [|done]. simplify_eq.
  destruct (IH b' eq_refl) as (vs & Hvs & Hl). exists (v :: vs). split; [by constructor|].
  rewrite lines_go_record; simpl; [by rewrite Hl|by eapply record_text|by eapply record_last].
Qed.

Lemma parse_recovery_encoded truncated index rs vs :
  Forall2 (fun r v => record_to_vec r = Some v) rs vs -> parse_recovery_lines truncated index (map of_bytes vs) = Ok rs.
Proof.
  intros H. revert index. induction H as [|r v rs vs Hv _ IH]; intros index; simpl; [done|].
  by rewrite (record_roundtrip r), IH.
Qed.

(** The recovery parser and the strict one read a complete log back. *)
Lemma parse_recovery_ok rs b : encode_log rs = Some b -> parse_effect_wal_records_for_recovery (of_bytes b) = Ok rs.
Proof.
  intros H. destruct (lines_encode _ _ H) as (vs & Hvs & Hl). unfold parse_effect_wal_records_for_recovery.
  rewrite Hl. by apply parse_recovery_encoded.
Qed.

Lemma record_line_not_blank r v : record_to_vec r = Some v -> str_is_empty (trim (of_bytes v)) = false.
Proof.
  intros (body & ->)%record_object. rewrite trim_of_bytes.
  destruct (trim_bytes_head "{"%char (body ++ ["}"%char])%list eq_refl) as [l' ->]. done.
Qed.

Lemma parse_strict_encoded index rs vs :
  Forall2 (fun r v => record_to_vec r = Some v) rs vs -> parse_strict_lines index (map of_bytes vs) = Ok rs.
Proof.
  intros H. revert index. induction H as [|r v rs vs Hv _ IH]; intros index; simpl; [done|].
  by rewrite (record_line_not_blank r), (record_roundtrip r), IH.
Qed.

Lemma ends_with_last b : b = [] \/ last b = Some LF -> negb (str_is_empty (of_bytes b)) && negb (ends_with_char LF (of_bytes b)) = false.
Proof.
  intros [->|H]; [done|]. unfold ends_with_char. rewrite to_of_bytes.
  destruct b as [|c b _] using rev_ind; [done|]. rewrite last_snoc in H. simplify_eq. rewrite rev_unit.
  by rewrite bool_decide_eq_true_2, andb_false_r.
Qed.

Lemma parse_strict_ok rs b : encode_log rs = Some b -> parse_effect_wal_records_strict (of_bytes b) = Ok rs.
Proof.
  intros H. destruct (lines_encode _ _ H) as (vs & Hvs & Hl). unfold parse_effect_wal_records_strict.
  rewrite ends_with_last by (by eapply encode_log_end). rewrite Hl. by rewrite (parse_strict_encoded 0 rs).
Qed.

(** *** The tail *)

Lemma tail_start_go_no_lf i start t : LF ∉ t -> tail_start_go i start t = start.
Proof.
  revert i. induction t as [|c t IH]; intros i H; simpl; [done|]. apply not_elem_of_cons in H as [Hc H].
  rewrite bool_decide_eq_false_2 by congruence. by apply IH.
Qed.

Lemma tail_start_go_app i start b t :
  tail_start_go i start (b ++ t)%list = tail_start_go (i + length b) (tail_start_go i start b) t.
Proof.
  revert i start. induction b as [|c b IH]; intros i start; simpl; [by rewrite Nat.add_0_r|]. rewrite IH. f_equal; lia.
Qed.

Lemma tail_start_log b t : b = [] \/ last b = Some LF -> LF ∉ t -> tail_start (b ++ t)%list = length b.
Proof.
  intros Hb Ht. unfold tail_start. rewrite tail_start_go_app, tail_start_go_no_lf by done.
  destruct b as [|c b _] using rev_ind; [done|]. destruct Hb as [Hb|Hb]; [by destruct b|]. rewrite last_snoc in Hb. simplify_eq.
  rewrite tail_start_go_app, length_app. simpl. lia.
Qed.

Lemma last_app_ne {A} (b t : list A) : t ≠ [] -> last (b ++ t)%list = last t.
Proof. intros H. destruct t as [|x t _] using rev_ind; [done|]. by rewrite app_assoc, !last_snoc. Qed.

Lemma torn_no_lf r v n : record_to_vec r = Some v -> LF ∉ take n v.
Proof. intros [_ H]%record_text Hin. apply H. rewrite <- (take_drop n v). by apply elem_of_app; left. Qed.

End encoding.

(** ** Disks whose log can be repaired *)

Section recoverable.
Context {codec : EffectCodec} {laws : EffectCodecLaws codec} (wal : string) (wk : Key).
Hypothesis Hwk : normalized_effect_relative_path wal = Some wk.

Definition log_bytes (d : Disk) : bytes := default [] (d !! wk).
Definition clean_log (d : Disk) (rs : list EffectWalRecord) : Prop := encode_log rs = Some (log_bytes d).
Definition same_files (d d' : Disk) : Prop := forall key, key ≠ wk -> d !! key = d' !! key.

Lemma same_files_refl d : same_files d d.
Proof. done. Qed.
Lemma same_files_trans d1 d2 d3 : same_files d1 d2 -> same_files d2 d3 -> same_files d1 d3.
Proof. intros H1 H2 key Hk. by rewrite H1, H2. Qed.
Lemma same_files_sym d1 d2 : same_files d1 d2 -> same_files d2 d1.
Proof. intros H key Hk. by rewrite H. Qed.

(** An invariant between files and records that does not look at the log file. *)
Context (Φ : Disk -> list EffectWalRecord -> Prop).
Hypothesis HΦ : forall d d' rs, same_files d d' -> Φ d rs -> Φ d' rs.

(** The log holds the records of the invariant, perhaps followed by a part of one more record, with
    which the invariant holds as well. *)
Definition Recoverable (d : Disk) : Prop :=
  exists rs, Φ d rs /\ (clean_log d rs \/ exists b r v n, encode_log rs = Some b /\ record_to_vec r = Some v
    /\ (n <= length v)%nat /\ log_bytes d = (b ++ take n v)%list /\ Φ d (rs ++ [r])%list).

Lemma clean_recoverable d rs : Φ d rs -> clean_log d rs -> Recoverable d.
Proof. intros. exists rs. auto. Qed.

Lemma write_log_files d b : same_files d (<[wk := b]> d).
Proof. intros key Hk. by rewrite lookup_insert_ne. Qed.

Lemma write_log_bytes d b : log_bytes (<[wk := b]> d) = b.
Proof. unfold log_bytes. by rewrite lookup_insert_eq. Qed.

Lemma append_to_bytes d line : log_bytes (append_to wk line d) = (log_bytes d ++ line)%list.
Proof. apply write_log_bytes. Qed.

Lemma append_part_recoverable d rs r v n :
  clean_log d rs -> Φ d rs -> Φ d (rs ++ [r])%list -> record_to_vec r = Some v ->
  Recoverable (append_to wk (take n (v ++ [LF])%list) d).
Proof.
  intros Hc H1 H2 Hv. destruct (decide (n <= length v)%nat) as [Hn|Hn].
  - exists rs. split; [by eapply HΦ; [apply write_log_files|]|]. right. exists (log_bytes d), r, v, n. split_and!; try done.
    + rewrite append_to_bytes. by rewrite take_app_le.
    + by eapply HΦ; [apply write_log_files|].
  - eapply clean_recoverable; [by eapply HΦ; [apply write_log_files|exact H2]|]. unfold clean_log. rewrite append_to_bytes.
    rewrite take_ge by (rewrite length_app; simpl; lia). by eapply encode_log_snoc.
Qed.

(** Appending a record touches the log alone. *)
Lemma append_same_files_wp P d record :
  wp P (append_effect_wal_record_for_publication wal record) (fun _ d' => same_files d d') (same_files d) d.
Proof.
  unfold append_effect_wal_record_for_publication. rewrite (proj2 (normalized_effect_key _ _ Hwk)), Hwk.
  destruct (record_to_vec record); [|by apply wp_ret].
  apply wp_bind, wp_operation; [intros a d' [= <- <-]; apply wp_ret, write_log_files|intros p _; apply wp_ret|intros p _];
    destruct p; simpl; (done || apply write_log_files).
Qed.

(** Appending a record, whatever faults occur. *)
Lemma append_record_wp P d rs r :
  clean_log d rs -> Φ d rs -> Φ d (rs ++ [r])%list ->
  wp P (append_effect_wal_record_for_publication wal r)
    (fun res d' => same_files d d' /\ (if is_ok res then clean_log d' (rs ++ [r])%list else Recoverable d')
       /\ (never_fails P -> is_ok res = true)) Recoverable d.
Proof.
  intros Hc H1 H2. pose proof (normalized_effect_key _ _ Hwk) as [_ Hres]. pose proof (clean_recoverable _ _ H1 Hc) as HR.
  unfold append_effect_wal_record_for_publication. rewrite Hres, Hwk.
  destruct (record_total r) as [v Ev]. rewrite Ev. pose proof (append_part_recoverable d rs r v) as Hpart.
  apply wp_bind, wp_operation.
  - intros a d' [= <- <-]. apply wp_ret. split_and!; [apply write_log_files| |done]. simpl. unfold clean_log.
    rewrite append_to_bytes. by eapply encode_log_snoc.
  - intros p Hp. apply wp_ret. split_and!; [|simpl|intros Hnf; by destruct (Hnf p)].
    + by destruct p as [|n|]; simpl; [|apply write_log_files|].
    + by destruct p as [|n|]; simpl; [|apply Hpart|].
  - intros p _. destruct p as [|n|]; simpl; [done|by apply Hpart|done].
Qed.

(** A log that ends in a part of a record, as the repair sees it. *)
Lemma torn_tail_seen rs b r v n :
  encode_log rs = Some b -> record_to_vec r = Some v -> (0 < n <= length v)%nat ->
  let bytes := (b ++ take n v)%list in
  is_nil bytes || bool_decide (last bytes = Some LF) = false
  /\ tail_start bytes = length b
  /\ option_any (fun tail => negb (is_none (record_from_str tail))) (from_utf8 (drop (tail_start bytes) bytes))
     = bool_decide (n = length v).
Proof.
  intros He Hv Hn bytes. destruct (record_last _ _ Hv) as [_ Hvne].
  assert (take n v ≠ []) as Htne by (destruct v, n; [done|done|lia|done]).
  assert (LF ∉ take n v) as Hnlf by (by eapply torn_no_lf).
  assert (tail_start bytes = length b) as Hts by (apply tail_start_log; [by eapply encode_log_end|done]).
  split_and!; [|done|rewrite Hts; subst bytes; rewrite drop_app_length].
  - apply orb_false_iff. split; [subst bytes; destruct b; [by destruct (take n v)|done]|].
    apply bool_decide_eq_false. subst bytes. rewrite last_app_ne by done. intros HL%last_Some_elem_of. done.
  - case_bool_decide as Hlen.
    + rewrite take_ge by lia. rewrite from_utf8_ok by (by eapply record_text). simpl. by erewrite record_roundtrip.
    + unfold from_utf8. destruct (is_none _); [|done]. simpl. by rewrite (record_torn r v) by (done || lia).
Qed.

Lemma complete_log_seen rs b : encode_log rs = Some b -> is_nil b || bool_decide (last b = Some LF) = true.
Proof.
  intros [->|HL]%encode_log_end; [done|]. apply orb_true_iff. right. by apply bool_decide_eq_true.
Qed.

(** A log is complete, or ends in a non-empty part of a record. *)
Lemma recoverable_cases d : Recoverable d ->
  (exists rs, Φ d rs /\ clean_log d rs)
  \/ (exists rs b r v n, Φ d rs /\ Φ d (rs ++ [r])%list /\ encode_log rs = Some b /\ record_to_vec r = Some v
        /\ (0 < n <= length v)%nat /\ log_bytes d = (b ++ take n v)%list).
Proof.
  intros (rs & H1 & [Hc|(b & r & v & n & He & Hv & Hn & Ht & H2)]); [by left; exists rs|].
  destruct n as [|n]; [left|right; exists rs, b, r, v, (S n); split_and!; try done; lia].
  exists rs. split; [done|]. unfold clean_log. by rewrite Ht, take_0, app_nil_r.
Qed.

(** Repairing the tail leaves the complete records, or keeps the disk repairable. *)
Lemma repair_tail_wp P d : Recoverable d ->
  wp P (repair_effect_wal_tail_retained wk)
    (fun res d' => same_files d d' /\ (if is_ok res then exists rs, Φ d' rs /\ clean_log d' rs else Recoverable d')
       /\ (never_fails P -> d !! wk ≠ None -> is_ok res = true)) Recoverable d.
Proof.
  intros HR. apply wp_bind, wp_read; [|intros Hn; by apply wp_ret; split_and!|intros p Hp|done].
  2: { apply wp_ret. split_and!; [done|done|]. intros Hnf. by destruct (Hnf p). }
  intros bytes Hb. assert (log_bytes d = bytes) as Hl by (unfold log_bytes; by rewrite Hb).
  destruct (recoverable_cases d HR) as [(rs & H1 & Hc)|(rs & b & r & v & n & H1 & H2 & He & Hv & Hn & Ht)].
  { rewrite (complete_log_seen rs) by (by rewrite <- Hl). apply wp_ret. split_and!; [done|by exists rs|done]. }
  rewrite Hl in Ht. rewrite Ht in Hl, Hb |- *. clear bytes Ht. destruct (torn_tail_seen rs b r v n He Hv Hn) as (Hne & Hts & Hcf).
  rewrite Hne. cbv zeta. rewrite Hcf, Hts. clear Hne Hcf Hts.
  assert (forall c, Φ (<[wk := c]> d) rs /\ Φ (<[wk := c]> d) (rs ++ [r])%list) as Hput
    by (intros c; split; by eapply HΦ; [apply write_log_files|]).
  case_bool_decide as Hlen.
  - rewrite take_ge in Hl by lia.
    assert (forall k, Recoverable (append_to wk (take (S k) [LF]) d) /\ clean_log (append_to wk (take (S k) [LF]) d) (rs ++ [r])%list) as Hnl.
    { intros k. assert (clean_log (append_to wk (take (S k) [LF]) d) (rs ++ [r])%list) as Hc.
      { unfold clean_log. simpl. rewrite take_nil, append_to_bytes, Hl, <- app_assoc. by eapply encode_log_snoc. }
      split; [|done]. eapply clean_recoverable; [apply Hput|done]. }
    assert (append_to wk (take 0 [LF]) d = d) as Hzero.
    { unfold append_to. rewrite Hb. simpl. rewrite app_nil_r. by apply insert_id. }
    apply wp_bind, wp_operation.
    + intros a d' [= <- <-]. apply wp_ret. split_and!; [apply write_log_files| |done].
      exists (rs ++ [r])%list. split; [apply Hput|apply (Hnl 0)].
    + intros p Hp. apply wp_ret. split_and!; [| |intros Hnf; by destruct (Hnf p)]; destruct p as [|[|k]|]; unfold appended_part;
        rewrite ?Hzero; try done; [apply write_log_files|apply Hnl].
    + intros p _. destruct p as [|[|k]|]; unfold appended_part; [done|by rewrite Hzero|apply Hnl|done].
  - assert (clean_log (<[wk := take (length b) (b ++ take n v)%list]> d) rs) as Hc.
    { unfold clean_log. by rewrite write_log_bytes, take_app_length. }
    assert (Recoverable (<[wk := take (length b) (b ++ take n v)%list]> d)) as Hrec
      by (apply (clean_recoverable _ rs); [apply Hput|done]).
    apply wp_bind, wp_operation; rewrite ?Hb.
    + intros a d' [= <- <-]. apply wp_ret. split_and!; [apply write_log_files| |done]. exists rs. split; [apply Hput|done].
    + intros p Hp. apply wp_ret. split_and!; [| |intros Hnf; by destruct (Hnf p)]; destruct p; simpl; rewrite ?Hb; try done;
        apply write_log_files.
    + intros p _. destruct p; simpl; by rewrite ?Hb.
Qed.

End recoverable.
