(* ===== verification/EffectRecovery.v ===== *)
(** * Recovery of the effect store

    A transaction's records and files, at whatever point a run is interrupted: [Settled] or still open
    with a before image of every file it touched.  Recovery keeps this under any faults, and without
    faults it ends with the files of the initial or of the committed disk. *)

From S2P Require Import Prelude RustStr Contracts OperationContracts Diagnostics StatePaths EffectTypes CrashIo EffectStore EffectLog EffectCrash.

Local Open Scope string_scope.

Lemma elem_of_rev_iff {A} (x : A) (l : list A) : x ∈ rev l <-> x ∈ l.
Proof. rewrite !list_elem_of_In. symmetry. apply in_rev. Qed.

(** ** Which transactions are incomplete *)

Lemma begun_snoc records record : begun_transactions (records ++ [record])%list =
  (if bool_decide (ewr_stage record = EffectWalStage_Begin) && negb (bool_decide (ewr_tx_id record ∈ begun_transactions records))
   then begun_transactions records ++ [ewr_tx_id record] else begun_transactions records)%list.
Proof. unfold begun_transactions. by rewrite foldl_app. Qed.

Lemma elem_of_begun records tx : tx ∈ begun_transactions records <->
  exists record, record ∈ records /\ ewr_stage record = EffectWalStage_Begin /\ ewr_tx_id record = tx.
Proof.
  induction records as [|record records IH] using rev_ind; [split; [by intros ?%elem_of_nil|by intros (? & ?%elem_of_nil & _)]|].
  rewrite begun_snoc. setoid_rewrite elem_of_app. setoid_rewrite list_elem_of_singleton.
  case_bool_decide as Hb; simpl; [case_bool_decide as Hin; simpl|].
  - rewrite IH in *. naive_solver.
  - rewrite elem_of_app, list_elem_of_singleton, IH. naive_solver.
  - rewrite IH. naive_solver.
Qed.

Lemma NoDup_begun records : NoDup (begun_transactions records).
Proof.
  induction records as [|record records IH] using rev_ind; [constructor|]. rewrite begun_snoc.
  case_bool_decide; simpl; [|done]. case_bool_decide; simpl; [done|]. apply NoDup_app. split_and!; [done| |by apply NoDup_singleton].
  by intros x Hx ->%list_elem_of_singleton.
Qed.

Lemma elem_of_closed records tx : tx ∈ closed_transactions records <->
  exists record, record ∈ records /\ is_closing (ewr_stage record) = true /\ ewr_tx_id record = tx.
Proof.
  unfold closed_transactions. rewrite list_elem_of_fmap. setoid_rewrite filter_In_iff. naive_solver.
Qed.

Lemma elem_of_incomplete records tx : tx ∈ incomplete_wal_transactions records <->
  tx ∈ begun_transactions records /\ tx ∉ closed_transactions records.
Proof. unfold incomplete_wal_transactions. rewrite filter_In_iff, negb_true_iff, bool_decide_eq_false. done. Qed.

Lemma NoDup_incomplete records : NoDup (incomplete_wal_transactions records).
Proof. apply NoDup_ListNoDup, List.NoDup_filter, NoDup_ListNoDup, NoDup_begun. Qed.

(** ** Files *)

(** Only files of [K] differ. *)
Definition touched_only (K : Key -> Prop) (d d' : Disk) : Prop := forall key, d !! key = d' !! key \/ K key.

Lemma touched_only_trans K d1 d2 d3 : touched_only K d1 d2 -> touched_only K d2 d3 -> touched_only K d1 d3.
Proof. intros H1 H2 key. destruct (H1 key) as [->|]; auto. Qed.

Lemma touched_only_mono (K K' : Key -> Prop) d d' : (forall key, K key -> K' key) -> touched_only K d d' -> touched_only K' d d'.
Proof. intros HK H key. destruct (H key); auto. Qed.

Lemma touched_only_refl K d : touched_only K d d.
Proof. by left. Qed.

Lemma touched_left_behind key p d : touched_only (eq key) d (left_behind key p d).
Proof. intros k. destruct (decide (key = k)); [by right|left]. by rewrite left_behind_ne by congruence. Qed.

Lemma touched_insert key b d : touched_only (eq key) d (<[key := b]> d).
Proof. intros k. destruct (decide (key = k)); [by right|left]. by rewrite lookup_insert_ne. Qed.

Lemma touched_delete key d : touched_only (eq key) d (delete key d).
Proof. intros k. destruct (decide (key = k)); [by right|left]. by rewrite lookup_delete_ne. Qed.

Lemma touched_other K d d' key : touched_only K d d' -> ~ K key -> d !! key = d' !! key.
Proof. intros H Hk. destruct (H key); naive_solver. Qed.

Definition original_state (original : EffectWalOriginal) : option bytes :=
  if ewo_existed original then Some (ewo_content original) else None.

(** ** Single operations *)

Lemma read_optional_wp P key d :
  wp P (read_optional_authority_file (Some key))
    (fun r d' => d' = d /\ (forall current, r = Ok current -> current = d !! key) /\ (never_fails P -> is_ok r = true)) (eq d) d.
Proof.
  apply wp_bind, wp_read; [intros b Hb|intros Hb|intros p Hp|done]; apply wp_ret; split_and!; try done; try congruence.
  intros Hnf. by destruct (Hnf p).
Qed.

(** What a file operation on [key] guarantees, with the content it aims at. *)
Definition file_post (P : Fault -> Prop) (key : Key) (aim : option bytes) (d : Disk) (r : Result unit IoError) (d' : Disk) : Prop :=
  touched_only (eq key) d d' /\ (is_ok r = true -> d' !! key = aim) /\ (never_fails P -> is_ok r = true).

Lemma file_post_failed P key aim d p : P (Fails p) -> file_post P key aim d (Err IoError_Other) (left_behind key p d).
Proof. intros Hp. split_and!; [apply touched_left_behind|done|intros Hnf; by destruct (Hnf p)]. Qed.

Lemma replace_current_wp P key content d :
  reserved_key key = None ->
  wp P (atomic_replace_file_retained (Some key) content (d !! key)) (file_post P key (Some content) d) (touched_only (eq key) d) d.
Proof.
  intros Hres. simpl. rewrite Hres. apply wp_replace; [intros _|done|intros p Hp; by apply file_post_failed|].
  - split_and!; [apply touched_insert|by rewrite lookup_insert_eq|done].
  - intros p _. apply touched_left_behind.
Qed.

Lemma remove_current_wp P key content d :
  reserved_key key = None -> d !! key = Some content ->
  wp P (remove_and_sync (Some key) content) (file_post P key None d) (touched_only (eq key) d) d.
Proof.
  intros Hres Hd. unfold remove_and_sync, io_and_then, remove_authority_file_retained. rewrite Hres. simpl.
  pose proof (touched_delete key d) as Ht.
  apply wp_bind, wp_remove; [intros _|done|intros p Hp; by apply wp_ret, file_post_failed|].
  - apply wp_sync; [|intros p Hp|done]; split_and!; try done; [by rewrite lookup_delete_eq|intros Hnf; by destruct (Hnf p)].
  - intros p _. apply touched_left_behind.
Qed.

Section images.
Context {codec : EffectCodec} (d0 : Disk).

(** A before image of the file [key] as it was on the disk [d0]. *)
Definition image_of (key : Key) (record : EffectWalRecord) : Prop :=
  ewr_stage record = EffectWalStage_BeforeImage
  /\ exists target physical original,
    ewr_target_ref record = Some target /\ ewr_physical_target_ref record = Some physical
    /\ ewr_original record = Some original
    /\ normalized_effect_relative_path physical = Some key /\ reserved_key key = None
    /\ original_state original = d0 !! key
    /\ sha256_content_hash (ewo_content original) = ewo_content_hash original.

Lemma rollback_before_image_wp P key record d :
  image_of key record ->
  wp P (rollback_before_image record)
    (fun ok d' => touched_only (eq key) d d' /\ (ok = true -> d' !! key = d0 !! key) /\ (never_fails P -> ok = true))
    (touched_only (eq key) d) d.
Proof.
  intros (_ & target & physical & original & Ht & Hp & Ho & Hn & Hres & Hs & Hh). unfold rollback_before_image.
  rewrite Ht, Ho, Hp. simpl. rewrite (proj2 (normalized_effect_key _ _ Hn)), Hn. simpl. rewrite <- Hs. unfold original_state.
  apply wp_bind. eapply wp_mono; [| |intros d' Hd'; exact Hd'].
  2: { intros r d' H. apply wp_ret. exact (H : file_post P key _ d r d'). }
  destruct (ewo_existed original).
  - rewrite (bool_decide_eq_true_2 _ Hh). apply wp_bind. eapply wp_mono; [apply read_optional_wp| |intros d' <-; apply touched_only_refl].
    intros [current|e] d' (-> & Hc & Hnf); [|apply wp_ret; split_and!; [apply touched_only_refl|done|by intros []%Hnf]]. rewrite (Hc current) by done.
    case_bool_decide as Heq; [apply wp_ret; split_and!; [apply touched_only_refl|done|done]|]. by apply replace_current_wp.
  - apply wp_bind. eapply wp_mono; [apply read_optional_wp| |intros d' <-; apply touched_only_refl].
    intros [current|e] d' (-> & Hc & Hnf); [|apply wp_ret; split_and!; [apply touched_only_refl|done|by intros []%Hnf]]. rewrite (Hc current) by done.
    destruct (d !! key) as [b|] eqn:Hd; [by apply remove_current_wp|apply wp_ret; split_and!; [apply touched_only_refl|done|done]].
Qed.

Lemma image_of_key key key' record : image_of key record -> image_of key' record -> key = key'.
Proof. intros (_ & t & p & o & _ & Hp & _ & Hn & _) (_ & t' & p' & o' & _ & Hp' & _ & Hn' & _). congruence. Qed.

Definition imaged (records : list EffectWalRecord) (key : Key) : Prop := exists record, record ∈ records /\ image_of key record.

(** Restoring the images of a transaction, last first. *)
Lemma rollback_images_wp P images d :
  (forall record, record ∈ images -> exists key, image_of key record) ->
  wp P (rollback_wal_before_images_retained images)
    (fun ok d' => touched_only (imaged images) d d'
       /\ (ok = true -> forall key, imaged images key -> d' !! key = d0 !! key) /\ (never_fails P -> ok = true))
    (touched_only (imaged images) d) d.
Proof.
  intros Himg. apply wp_bind.
  eapply wp_mono; [apply (wp_map P _ (fun done_ outs d' => touched_only (imaged images) d d'
    /\ (forallb id outs = true -> forall key, imaged done_ key -> d' !! key = d0 !! key)
    /\ (never_fails P -> forallb id outs = true)) (touched_only (imaged images) d))| |done].
  - intros done_ outs record rest d1 Hl (Ht & Hok & Hnf).
    assert (record ∈ images) as Hin by (rewrite <- elem_of_rev_iff, Hl; apply elem_of_app; right; by left).
    destruct (Himg record Hin) as [key Hkey].
    assert (forall d', touched_only (eq key) d1 d' -> touched_only (imaged images) d d') as Hext.
    { intros d' Hd'. eapply touched_only_trans; [exact Ht|]. eapply touched_only_mono; [|exact Hd']. intros k <-. by exists record. }
    eapply wp_mono; [by apply rollback_before_image_wp| |done]. intros ok d' (Hd & Hres & Hf). rewrite forallb_app. simpl.
    rewrite andb_true_r. split_and!; [by apply Hext| |].
    + intros [Ho Hk]%andb_true_iff k (r & [Hr| ->%list_elem_of_singleton]%elem_of_app & Hi).
      * destruct (decide (key = k)) as [<-|Hne]; [by apply Hres|]. rewrite <- (touched_other _ _ _ _ Hd Hne). apply Hok; [done|]. by exists r.
      * rewrite (image_of_key k key record) by done. by apply Hres.
    + intros Hn. rewrite Hnf, Hf by done. done.
  - split_and!; [apply touched_only_refl|by intros _ key (? & ?%elem_of_nil & _)|done].
  - intros outs d' (Ht & Hok & Hnf). apply wp_ret. split_and!; [done| |done]. intros Ho key (r & Hr & Hi). apply Hok; [done|].
    exists r. by rewrite elem_of_rev_iff.
Qed.

End images.

(** ** One transaction over a settled log *)

(** A log that recovery accepts and has nothing to do for. *)
Record settled_log (records : list EffectWalRecord) : Prop := {
  sl_internal : existsb names_external_publication records = false;
  sl_unreserved : reserved_wal_target records = None;
  sl_complete : incomplete_wal_transactions records = []
}.

Lemma reserved_wal_target_None records :
  reserved_wal_target records = None <->
  forall record target, record ∈ records -> record_target record = Some target -> reserved_state_path target = None.
Proof.
  unfold reserved_wal_target. induction records as [|r records IH]; simpl; [split; [by intros _ ? ? ?%elem_of_nil|done]|].
  setoid_rewrite elem_of_cons. destruct (record_target r) as [t|] eqn:Et; [destruct (reserved_state_path t) eqn:Er|]; simpl.
  - split; [done|]. intros H. specialize (H r t (or_introl eq_refl) Et). congruence.
  - rewrite IH. naive_solver.
  - rewrite IH. naive_solver.
Qed.

Section transaction.
Context {codec : EffectCodec} {laws : EffectCodecLaws codec} (wal : string) (wk : Key).
Hypothesis Hwk : normalized_effect_relative_path wal = Some wk.
Context (d0 d1 : Disk) (tx : string) (W : list EffectWalRecord).
Hypothesis HW : settled_log W.
Hypothesis Hfresh : forall record, record ∈ W -> ewr_tx_id record ≠ tx.

(** What a record of the transaction looks like. *)
Record own_record (record : EffectWalRecord) : Prop := {
  or_tx : ewr_tx_id record = tx;
  or_internal : names_external_publication record = false;
  or_unreserved target : record_target record = Some target -> reserved_state_path target = None;
  or_unconsumed : ewr_stage record ≠ EffectWalStage_ReplayConsumed;
  or_image : ewr_stage record = EffectWalStage_BeforeImage -> exists key, key ≠ wk /\ image_of d0 key record
}.

(** The files a closing record stands for. *)
Definition closed_as (d : Disk) (stage : EffectWalStage) : Prop :=
  same_files wk (if bool_decide (stage = EffectWalStage_Commit) then d1 else d0) d.

(** The transaction is open, and every file it changed has its before image in the log; or it is closed,
    and the files are those of the committed disk after a commit, and of the initial one otherwise. *)
Inductive Progress (d : Disk) (records : list EffectWalRecord) : Prop :=
| Progress_open :
    (records = [] \/ exists first rest, records = first :: rest /\ ewr_stage first = EffectWalStage_Begin) ->
    (forall record, record ∈ records -> is_closing (ewr_stage record) = false) ->
    (forall key, key ≠ wk -> d !! key = d0 !! key \/ imaged d0 records key) -> Progress d records
| Progress_closed :
    (exists record, record ∈ records /\ is_closing (ewr_stage record) = true) ->
    (forall record, record ∈ records -> is_closing (ewr_stage record) = true -> closed_as d (ewr_stage record)) -> Progress d records.

(** The records of the transaction in their order: its [Begin], before images and applied writes, and at most
    one that closes it. *)
Context (begin : EffectWalRecord) (effect_id : StableId).
Hypothesis Hbegin : ewr_stage begin = EffectWalStage_Begin.

Definition quiet (record : EffectWalRecord) : Prop :=
  ewr_tx_id record = tx /\ ewr_effect_id record = effect_id
  /\ (ewr_stage record = EffectWalStage_BeforeImage \/ ewr_stage record = EffectWalStage_WriteApplied).

Definition is_image (record : EffectWalRecord) : bool := bool_decide (ewr_stage record = EffectWalStage_BeforeImage).

(** Still open. *)
Definition begun (records : list EffectWalRecord) : Prop := exists rest, records = begin :: rest /\ Forall quiet rest.

(** Closed under its effect id, or by a recovery that found no before image to take the id from. *)
Definition closed_by (opened : list EffectWalRecord) (record : EffectWalRecord) : Prop :=
  exists e stage, record = record_stage tx e stage /\ is_closing stage = true
    /\ (e = effect_id \/ stage = EffectWalStage_RecoveredRollback /\ List.filter is_image opened = [] /\ e = mk_StableId "unknown_effect").

Definition shaped (records : list EffectWalRecord) : Prop :=
  records = [] \/ begun records \/ exists opened record, records = (opened ++ [record])%list /\ begun opened /\ closed_by opened record.

Lemma quiet_open record : quiet record -> is_closing (ewr_stage record) = false.
Proof. by intros (_ & _ & [->| ->]). Qed.

Lemma begun_open records record : begun records -> record ∈ records -> is_closing (ewr_stage record) = false.
Proof.
  intros (rest & -> & Hq) [->|Hr]%elem_of_cons; [by rewrite Hbegin|]. rewrite Forall_forall in Hq. by apply quiet_open, Hq.
Qed.

Lemma begun_app records more : begun records -> Forall quiet more -> begun (records ++ more)%list.
Proof. intros (rest & -> & Hq) Hr. exists (rest ++ more)%list. split; [done|by apply Forall_app]. Qed.

Lemma begun_shaped records : begun records -> shaped records.
Proof. intros. by right; left. Qed.

Lemma closed_shaped records stage : begun records -> is_closing stage = true -> shaped (records ++ [record_stage tx effect_id stage])%list.
Proof. intros Hb Hs. right; right. exists records, (record_stage tx effect_id stage). split_and!; [done|done|]. exists effect_id, stage. auto. Qed.

(** Records that end in none that closes are those of an open transaction. *)
Lemma shaped_begun records :
  shaped records -> (exists r, r ∈ records /\ ewr_stage r = EffectWalStage_Begin) -> (forall r, r ∈ records -> is_closing (ewr_stage r) = false) -> begun records.
Proof.
  intros [->|[Hb|(opened & record & -> & _ & e & stage & -> & Hs & _)]] Hex Hopen; [by destruct Hex as (r & ?%elem_of_nil & _)|done|].
  exfalso. specialize (Hopen (record_stage tx e stage)). simpl in Hopen. rewrite Hopen in Hs; [done|]. apply elem_of_app. right. by left.
Qed.

(** The marker of a recovery. *)
Lemma recovered_shaped records :
  begun records ->
  shaped (records ++ [record_stage tx match List.filter is_image records with image :: _ => ewr_effect_id image | [] => mk_StableId "unknown_effect" end
    EffectWalStage_RecoveredRollback])%list.
Proof.
  intros Hb. right; right. eexists records, _. split_and!; [done|done|]. eexists _, _. split_and!; [done|done|].
  destruct (List.filter is_image records) as [|image rest] eqn:E; [by right|left].
  assert (image ∈ List.filter is_image records) as [Hin Hi]%filter_In_iff by (rewrite E; by left).
  destruct Hb as (mid & -> & Hq). apply elem_of_cons in Hin as [->|Hin].
  - apply bool_decide_eq_true in Hi. congruence.
  - rewrite Forall_forall in Hq. by apply Hq.
Qed.

Definition InProgress (d : Disk) (rs : list EffectWalRecord) : Prop :=
  exists records, rs = (W ++ records)%list /\ Forall own_record records /\ shaped records /\ Progress d records.

Lemma InProgress_files d d' rs : same_files wk d d' -> InProgress d rs -> InProgress d' rs.
Proof.
  intros Hs (records & -> & Ho & Hsh & Hp). exists records. split_and!; [done|done|done|]. destruct Hp as [Hb Hc Hf|Hc Hf].
  - apply Progress_open; [done|done|]. intros key Hk. rewrite <- Hs by done. by apply Hf.
  - apply Progress_closed; [done|]. intros r Hr Hcl. eapply same_files_trans; [by apply Hf|done].
Qed.

Lemma own_settled records : Forall own_record records ->
  existsb names_external_publication (W ++ records)%list = false /\ reserved_wal_target (W ++ records)%list = None.
Proof.
  intros Ho. rewrite Forall_forall in Ho. split.
  - rewrite existsb_app, (sl_internal _ HW). simpl. apply existsb_not_In. intros r Hr. by apply Ho.
  - apply reserved_wal_target_None. intros r t [Hr|Hr]%elem_of_app Ht.
    + by eapply reserved_wal_target_None; [apply HW|..].
    + by eapply or_unreserved; [apply Ho|].
Qed.

Lemma own_incomplete records : Forall own_record records ->
  (incomplete_wal_transactions (W ++ records)%list = [tx] <->
     (exists r, r ∈ records /\ ewr_stage r = EffectWalStage_Begin) /\ forall r, r ∈ records -> is_closing (ewr_stage r) = false)
  /\ (incomplete_wal_transactions (W ++ records)%list = [] \/ incomplete_wal_transactions (W ++ records)%list = [tx]).
Proof.
  intros Ho. rewrite Forall_forall in Ho. set (inc := incomplete_wal_transactions (W ++ records)%list).
  assert (forall t, t ∈ inc -> t = tx) as Hall.
  { intros t Ht. destruct (decide (t = tx)) as [|Hne]; [done|exfalso]. apply elem_of_incomplete in Ht as [Hb Hc].
    apply elem_of_begun in Hb as (r & [Hr|Hr]%elem_of_app & Hs & <-); [|by destruct Hne; apply Ho].
    assert (ewr_tx_id r ∈ incomplete_wal_transactions W) as Hin; [|rewrite (sl_complete _ HW) in Hin; by apply elem_of_nil in Hin].
    apply elem_of_incomplete. split; [apply elem_of_begun; by eauto|]. intros (r' & Hr' & Hcl & He)%elem_of_closed.
    apply Hc, elem_of_closed. exists r'. rewrite elem_of_app. auto. }
  assert (inc = [] \/ inc = [tx]) as Hcases.
  { pose proof (NoDup_incomplete (W ++ records)%list) as Hnd. fold inc in Hnd. destruct inc as [|a [|b l]]; [by left| |].
    - right. by rewrite (Hall a) by left.
    - exfalso. rewrite (Hall a), (Hall b) in Hnd by (repeat constructor). apply NoDup_cons in Hnd as [Hn _]. apply Hn. left. }
  split; [|done].
  assert (tx ∈ inc <-> (exists r, r ∈ records /\ ewr_stage r = EffectWalStage_Begin)
    /\ forall r, r ∈ records -> is_closing (ewr_stage r) = false) as Hiff.
  { subst inc. rewrite elem_of_incomplete, elem_of_begun, elem_of_closed. setoid_rewrite elem_of_app. split.
    - intros [(r & [Hr|Hr] & Hs & He) Hc]; [by apply Hfresh in Hr|]. split; [by eauto|]. intros r' Hr'.
      destruct (is_closing (ewr_stage r')) eqn:E; [|done]. destruct Hc. exists r'. split_and!; [by right|done|by apply Ho].
    - intros [(r & Hr & Hs) Hc]. split; [exists r; split_and!; [by right|done|by apply Ho]|].
      intros (r' & [Hr'|Hr'] & Hcl & He); [by apply Hfresh in Hr'|]. rewrite Hc in Hcl; done. }
  rewrite <- Hiff. destruct Hcases as [->| ->]; [split; [done|by intros ?%elem_of_nil]|split; [constructor|done]].
Qed.

Lemma own_images records : Forall own_record records ->
  before_images_of tx (W ++ records)%list = List.filter (fun r => bool_decide (ewr_stage r = EffectWalStage_BeforeImage)) records.
Proof.
  intros Ho. unfold before_images_of. rewrite List.filter_app. rewrite filter_none.
  - simpl. rewrite Forall_forall in Ho. apply List.filter_ext_in. intros r Hr%list_elem_of_In.
    by rewrite (bool_decide_eq_true_2 _ (or_tx _ (Ho r Hr))).
  - intros r Hr. apply andb_false_iff. left. apply bool_decide_eq_false. by apply Hfresh.
Qed.

Definition committed (records : list EffectWalRecord) : Prop :=
  exists record, record ∈ records /\ ewr_tx_id record = tx /\ ewr_stage record = EffectWalStage_Commit.

(** Everything is decided: the log is settled and the files are those it says. *)
Definition Done (d : Disk) : Prop :=
  exists records, clean_log wk d (W ++ records)%list /\ settled_log (W ++ records)%list /\ Forall own_record records /\ shaped records
    /\ Progress d records /\ (committed (W ++ records)%list /\ same_files wk d1 d \/ ~ committed (W ++ records)%list /\ same_files wk d0 d).

Lemma own_marker e stage :
  stage ≠ EffectWalStage_Begin -> stage ≠ EffectWalStage_BeforeImage -> stage ≠ EffectWalStage_ReplayConsumed ->
  own_record (record_stage tx e stage).
Proof.
  intros Hb Hi Hc. split; simpl; try done. unfold names_external_publication. simpl. by rewrite bool_decide_eq_false_2.
Qed.

Lemma committed_own records : Forall own_record records ->
  (committed (W ++ records)%list <-> exists record, record ∈ records /\ ewr_stage record = EffectWalStage_Commit).
Proof.
  intros Ho. rewrite Forall_forall in Ho. split.
  - intros (r & [Hr|Hr]%elem_of_app & Ht & Hs); [by apply Hfresh in Hr|by exists r].
  - intros (r & Hr & Hs). exists r. split_and!; [apply elem_of_app; by right|by apply Ho|done].
Qed.

Lemma settled_done d records :
  Forall own_record records -> shaped records -> clean_log wk d (W ++ records)%list -> Progress d records ->
  incomplete_wal_transactions (W ++ records)%list = [] -> Done d.
Proof.
  intros Ho Hsh Hc Hp Hn. destruct (own_settled records Ho) as [He Hr]. exists records. split_and!; [done|by split|done|done|done|].
  rewrite committed_own by done. destruct Hp as [Hb Hopen Hf|(r & Hr' & Hcl) Hs].
  - destruct Hb as [->|(first & rest & -> & Hst)].
    + right. split; [by intros (r & ?%elem_of_nil & _)|]. intros key Hne.
      destruct (Hf key Hne) as [->|(r & Hr' & _)]; [done|by apply elem_of_nil in Hr'].
    + exfalso. assert (incomplete_wal_transactions (W ++ first :: rest)%list = [tx]) as Habs; [|congruence].
      apply (own_incomplete _ Ho). split; [exists first; split; [by left|done]|done].
  - destruct (decide (Exists (fun r => ewr_stage r = EffectWalStage_Commit) records)) as [Hex|Hno].
    + apply Exists_exists in Hex as (c & Hin & Hcs). left. split; [by exists c|]. specialize (Hs c Hin). unfold closed_as in Hs.
      rewrite Hcs, bool_decide_eq_true_2 in Hs by done. by apply Hs.
    + right. assert (forall c, c ∈ records -> ewr_stage c ≠ EffectWalStage_Commit) as Hnc.
      { intros c Hin Hcs. apply Hno, Exists_exists. by exists c. }
      split; [intros (c & Hin & Hcs); by eapply Hnc|]. specialize (Hs r Hr' Hcl). unfold closed_as in Hs.
      rewrite bool_decide_eq_false_2 in Hs by (by apply Hnc). done.
Qed.

Lemma closed_push d records record :
  (forall r, r ∈ records -> is_closing (ewr_stage r) = false) -> is_closing (ewr_stage record) = true -> closed_as d (ewr_stage record) ->
  Progress d (records ++ [record])%list.
Proof.
  intros Hopen Hcl Hs. apply Progress_closed; [exists record; split; [apply elem_of_app; right; by left|done]|].
  intros r [Hr| ->%list_elem_of_singleton]%elem_of_app Hc; [by rewrite Hopen in Hc|done].
Qed.

Lemma pushed_settled records record :
  Forall own_record (records ++ [record])%list -> is_closing (ewr_stage record) = true ->
  incomplete_wal_transactions (W ++ records ++ [record])%list = [].
Proof.
  intros Ho Hcl. destruct (own_incomplete _ Ho) as [Hiff [Hn|Htx]]; [done|exfalso]. apply Hiff in Htx as [_ Hno].
  rewrite Hno in Hcl; [done|]. apply elem_of_app. right. by left.
Qed.

Lemma pushed_done d records record :
  Forall own_record (records ++ [record])%list -> shaped (records ++ [record])%list -> clean_log wk d (W ++ records ++ [record])%list ->
  (forall r, r ∈ records -> is_closing (ewr_stage r) = false) -> is_closing (ewr_stage record) = true -> closed_as d (ewr_stage record) -> Done d.
Proof.
  intros Ho Hsh Hc Hopen Hcl Hs. apply (settled_done d (records ++ [record])%list); [done|done|done|by apply closed_push|by apply pushed_settled].
Qed.

(** Rolling back the open transaction. *)
Lemma recover_transaction_wp P d records :
  clean_log wk d (W ++ records)%list -> Forall own_record records -> shaped records -> Progress d records ->
  (exists r, r ∈ records /\ ewr_stage r = EffectWalStage_Begin) -> (forall r, r ∈ records -> is_closing (ewr_stage r) = false) ->
  wp P (recover_transaction wal (W ++ records)%list tx)
    (fun res d' => Recoverable wk InProgress d' /\ (fst res && snd res = true -> Done d') /\ (never_fails P -> res = (true, true)))
    (Recoverable wk InProgress) d.
Proof.
  intros Hc Ho Hsh Hp Hex Hopen. pose proof (shaped_begun records Hsh Hex Hopen) as Hbegun. destruct Hp as [Hb Hcl Hf|(r & Hr & Hrc) _]; [|by rewrite Hopen in Hrc].
  assert (Forall own_record records) as Ho' by done. rewrite Forall_forall in Ho'. unfold recover_transaction. rewrite own_images by done.
  fold is_image. set (images := List.filter is_image records).
  assert (forall r, r ∈ images -> r ∈ records /\ exists key, key ≠ wk /\ image_of d0 key r) as Himg.
  { intros r [Hr Hs]%filter_In_iff. split; [done|]. apply Ho'; [done|]. by apply bool_decide_eq_true in Hs. }
  assert (forall key, imaged d0 images key <-> imaged d0 records key) as Hkeys.
  { intros key. split; intros (r & Hr & Hi); exists r; (split; [|done]); [by apply Himg|].
    apply filter_In_iff. split; [done|]. apply bool_decide_eq_true, Hi. }
  assert (~ imaged d0 images wk) as Hnwk.
  { intros (r & Hr & Hi). destruct (Himg r Hr) as (_ & key & Hne & Hk). by rewrite (image_of_key _ _ _ _ Hk Hi) in Hne. }
  assert (forall d', touched_only (imaged d0 images) d d' -> clean_log wk d' (W ++ records)%list /\ InProgress d' (W ++ records)%list) as Hkeep.
  { intros d' Ht. split; [unfold clean_log, log_bytes in *; by rewrite <- (touched_other _ _ _ _ Ht Hnwk)|].
    exists records. split_and!; [done|done|done|]. apply Progress_open; [done|done|]. intros key Hne.
    destruct (Ht key) as [<-|Him]; [by apply Hf|]. right. by apply Hkeys. }
  apply wp_bind. eapply wp_mono; [apply rollback_images_wp| |].
  { intros r Hr. destruct (Himg r Hr) as (_ & key & _ & Hi). by exists key. }
  2: { intros d' [Hcd Hid]%Hkeep. by eapply clean_recoverable. }
  intros ok d' (Ht & Hrest & Hnf). destruct (Hkeep d' Ht) as [Hcd Hid]. pose proof (clean_recoverable _ _ _ _ Hid Hcd) as Hrec.
  destruct ok; [|apply wp_ret; split_and!; [done|done|by intros []%Hnf]].
  assert (same_files wk d0 d') as Hs.
  { intros key Hne. destruct (Hf key Hne) as [Heq|Him%Hkeys]; [|by rewrite Hrest].
    destruct (Ht key) as [<-|Him]; [done|by rewrite Hrest]. }
  apply wp_bind. set (marker := record_stage tx _ _).
  assert (own_record marker) as Hm by (by apply own_marker).
  assert (Forall own_record (records ++ [marker])%list) as Hom by (apply Forall_app; auto).
  assert (shaped (records ++ [marker])%list) as Hshm by (by apply recovered_shaped).
  assert (forall d, same_files wk d0 d -> InProgress d (W ++ records ++ [marker])%list) as Hclosed.
  { intros d2 Hs2. exists (records ++ [marker])%list. split_and!; [done|done|done|]. by apply closed_push. }
  eapply wp_mono; [apply (append_record_wp wal wk Hwk InProgress InProgress_files P d' (W ++ records)%list marker Hcd Hid)| |done].
  { rewrite <- app_assoc. by apply Hclosed. }
  intros res d'' (Hsame & Hres & Hnf'). apply wp_ret. simpl. rewrite <- app_assoc in Hres.
  assert (same_files wk d0 d'') as Hs' by (by eapply same_files_trans). split_and!.
  - destruct (is_ok res); [|done]. eapply clean_recoverable; [|exact Hres]. by apply Hclosed.
  - intros Hr. rewrite Hr in Hres. by eapply pushed_done.
  - intros Hn. by rewrite Hnf'.
Qed.

(** What recovery promises of its status. *)
Definition recovery_post (P : Fault -> Prop) (res : EffectWalRecoveryResult) (d : Disk) : Prop :=
  Recoverable wk InProgress d
  /\ (ewv_status res ≠ EffectWalRecoveryStatus_RecoveryFailed -> Done d)
  /\ (never_fails P -> ewv_status res ≠ EffectWalRecoveryStatus_RecoveryFailed).

Lemma recover_records_wp P d rs :
  clean_log wk d rs -> InProgress d rs -> wp P (recover_records wal rs) (recovery_post P) (Recoverable wk InProgress) d.
Proof.
  intros Hc (records & -> & Ho & Hsh & Hp).
  assert (InProgress d (W ++ records)%list) as Hi by (by exists records).
  pose proof (clean_recoverable _ _ _ _ Hi Hc) as Hrec. destruct (own_settled records Ho) as [He Hr].
  destruct (own_incomplete records Ho) as [Hiff Hcases]. unfold recover_records. rewrite He, Hr.
  destruct Hcases as [Hn|Htx]; [rewrite Hn|rewrite Htx]; simpl.
  - apply wp_ret. split_and!; [done| |done]. intros _. by eapply settled_done.
  - apply Hiff in Htx as [Hex Hopen]. apply wp_bind. apply wp_bind.
    eapply wp_mono; [by apply recover_transaction_wp| |done]. intros [rolled marked] d' (Hrec' & Hdone & Hnf). simpl in Hdone.
    apply wp_bind, wp_ret, wp_ret, wp_ret. simpl. rewrite andb_true_r. split_and!; [done| |].
    + destruct (rolled && marked) eqn:E; [by intros _; apply Hdone|]. simpl. by intros [].
    + intros Hn. specialize (Hnf Hn). by simplify_eq.
Qed.

Lemma recover_wp P d rs :
  clean_log wk d rs -> InProgress d rs ->
  wp P (recover_effect_wal_under_publication_root wal) (recovery_post P) (Recoverable wk InProgress) d.
Proof.
  intros Hc Hi. pose proof (clean_recoverable _ _ _ _ Hi Hc) as Hrec. unfold recover_effect_wal_under_publication_root.
  rewrite (proj2 (normalized_effect_key _ _ Hwk)), Hwk. apply wp_bind, wp_read; [intros b Hb|intros Hb|intros p Hp|done].
  - assert (encode_log rs = Some b) as He by (unfold clean_log, log_bytes in Hc; by rewrite Hb in Hc).
    rewrite from_utf8_ok by (by eapply encode_log_utf8). rewrite (parse_recovery_ok rs) by done. by apply recover_records_wp.
  - apply wp_ret. split_and!; [done| |done]. intros _.
    assert (rs = []) as -> by (apply encode_log_nil; unfold clean_log, log_bytes in Hc; by rewrite Hb in Hc).
    destruct Hi as (records & Hnil & Ho & Hsh & Hp). symmetry in Hnil. apply app_nil in Hnil as [HWn ->].
    by apply (settled_done d []); [constructor|done|rewrite HWn|done|rewrite HWn].
  - apply wp_ret. split_and!; [done|done|]. intros Hnf. by destruct (Hnf p).
Qed.

(** Reconciling: repair the tail, then recover. *)
Lemma reconcile_effects_wp P d : Recoverable wk InProgress d ->
  wp P (reconcile_effects wal)
    (fun res d' => Recoverable wk InProgress d'
       /\ (forall r, res = Ok r -> recovery_post P r d') /\ (never_fails P -> is_ok res = true)) (Recoverable wk InProgress) d.
Proof.
  intros HR. unfold reconcile_effects, repair_effect_wal_tail_under_lock, reconciliation_relative_path.
  rewrite (proj2 (normalized_effect_key _ _ Hwk)), Hwk. apply wp_bind, wp_bind. unfold authority_leaf_exists.
  apply wp_bind, wp_read; [intros b Hb|intros Hb|intros p Hp|done]; apply wp_ret.
  - eapply wp_mono; [by apply (repair_tail_wp wk InProgress InProgress_files)| |done]. intros res d' (Hs & Hres & Hnf).
    destruct res as [repaired|e]; simpl in *.
    + destruct Hres as (rs & Hi & Hc). apply wp_bind. eapply wp_mono; [by eapply recover_wp| |done]. intros r d'' Hpost.
      apply wp_ret. split_and!; [apply Hpost|by intros ? [= <-]|done].
    + apply wp_ret. split_and!; [done|done|]. intros Hn. by rewrite Hnf in Hn || (specialize (Hnf Hn); rewrite Hb in Hnf; by apply Hnf).
  - apply wp_ret. assert (exists rs, InProgress d rs /\ clean_log wk d rs) as (rs & Hi & Hc).
    { destruct (recoverable_cases wk InProgress d HR) as [(rs & Hi & Hc)|(rs & b & r & v & n & _ & _ & _ & Hv & Hn & Ht)]; [by exists rs|].
      unfold log_bytes in Ht. rewrite Hb in Ht. simpl in Ht. symmetry in Ht. apply app_nil in Ht as [_ Ht].
      destruct v, n; simpl in *; (done || lia). }
    apply wp_bind. eapply wp_mono; [by eapply recover_wp| |done]. intros r d'' Hpost.
    apply wp_ret. split_and!; [apply Hpost|by intros ? [= <-]|done].
  - apply wp_ret, wp_ret. split_and!; [done|done|]. intros Hnf. by destruct (Hnf p).
Qed.

End transaction.
