(* ===== verification/EffectPlan.v ===== *)
(** * What an effect asks for, and what preparing it establishes

    [asked] is the change a write of the effect asks for, read off the contract and the payloads alone.
    Preparing a transaction only reads; the pairs of writes and before images it returns are those
    changes, with the state of the files as it is. *)

From S2P Require Import Prelude RustStr Contracts OperationContracts Diagnostics StatePaths EffectTypes CrashIo EffectStore EffectLog EffectRecovery.

Local Open Scope string_scope.

(** ** Resolved targets *)

Lemma resolved_key root canonical kind reference path physical :
  resolve_effect_target canonical kind reference = Ok (path, physical) ->
  exists key, effect_target_physical_reference kind reference = Ok physical
    /\ target_key physical = Some key /\ normalized_effect_relative_path physical = Some key
    /\ retained_components root physical = Some key /\ reserved_key key = None /\ reserved_state_path physical = None.
Proof.
  intros H. unfold resolve_effect_target in H. destruct (effect_target_physical_reference kind reference) as [p|]; [|done].
  destruct (reject_reserved_state_mutation p) as [n|[|]] eqn:Er; [|done|done].
  destruct (resolve_safe_repo_relative canonical p) eqn:Es; simplify_eq.
  assert (reserved_state_path physical = None) as Hres by (unfold reserved_state_path; by rewrite Er).
  pose proof Er as Er'. unfold reject_reserved_state_mutation in Er. destruct (normalize_state_relative_path physical) as [n'|] eqn:En; [|done].
  destruct (classify_reserved_state_path n') eqn:Ec; [done|]. simplify_eq.
  pose proof En as En'. unfold normalize_state_relative_path in En. destruct (str_is_empty physical) eqn:Ee; [done|].
  destruct (is_absolute physical) eqn:Ea; [done|]. destruct (contains_char _ physical); [done|].
  destruct (collect_normal (components physical)) as [key|] eqn:Ek; [|done]. apply normal_names_collect in Ek.
  assert (key ≠ []) as Hne by (intros ->; done).
  assert (existsb forbidden_relative_component (components physical) = false) as Hforb.
  { unfold resolve_safe_repo_relative in Es. rewrite Ee, Ea in Es. by destruct (existsb _ _). }
  exists key. split_and!; [done|done| | | |done].
  - unfold normalized_effect_relative_path. rewrite En', Hres, Ee, Ea, Hforb, Ek. by destruct key.
  - unfold retained_components. rewrite Ea, Ek. by destruct key.
  - unfold reserved_key. by rewrite En.
Qed.

(** ** The meaning of a write *)

Section plan.
Context {codec : EffectCodec} (root : EffectRoot) (payloads : list EffectApplicationPayload).

(** The file a write names and the content it should have afterwards, [None] for no file. *)
Definition asked (d : Disk) (write : EffectWrite) : option (Key * option bytes) :=
  match effect_target_physical_reference (ew_target_kind write) (ew_reference write) with
  | Err _ => None
  | Ok physical =>
      match target_key physical, ew_access_mode write, payload_for payloads (ew_reference write) with
      | Some key, AccessMode_Delete, _ => Some (key, None)
      | Some key, (AccessMode_Create | AccessMode_Write), Some payload => Some (key, Some (pl_content payload))
      | Some key, AccessMode_Append, Some payload => Some (key, Some (default [] (d !! key) ++ pl_content payload)%list)
      | _, _, _ => None
      end
  end.

(** The preconditions of a write on the disk. *)
Definition write_guard (d : Disk) (write : EffectWrite) (key : Key) : Prop :=
  match ew_access_mode write with
  | AccessMode_Create => d !! key = None
  | AccessMode_Write => is_Some (d !! key) /\ is_Some (ew_expected_hash write)
  | AccessMode_Delete => is_Some (d !! key)
  | _ => True
  end
  /\ forall expected, ew_expected_hash write = Some expected ->
       exists content, d !! key = Some content /\ sha256_content_hash content = expected.

(** A file-backed read with an expected digest finds it. *)
Definition read_guard (d : Disk) (read : EffectRead) : Prop :=
  file_backed_target (er_target_kind read) = true -> forall expected, er_expected_hash read = Some expected ->
  exists physical key content, effect_target_physical_reference (er_target_kind read) (er_reference read) = Ok physical
    /\ retained_components root physical = Some key /\ d !! key = Some content /\ sha256_content_hash content = expected.

(** The disk with all changes made, in the order of the write set. *)
Definition effect_applied (d : Disk) (effect : ToolEffectContractDocument) : Disk :=
  foldl (fun d' change => put_file (fst change) (snd change) d') d
    (omap (asked d) (te_write_set (ted_tool_effect_contract effect))).

(** ** Prepared writes *)

(** A prepared write is the write of the contract with a resolved target. *)
Record prepared_for (write : EffectWrite) (prepared : PreparedWrite) : Prop := {
  pf_reference : pw_reference prepared = ew_reference write;
  pf_mode : from_contract (ew_access_mode write) = Ok (pw_access_mode prepared);
  pf_target : resolve_effect_target (root_canonical root) (ew_target_kind write) (ew_reference write)
              = Ok (pw_target prepared, pw_physical_reference prepared);
  pf_hash : pw_expected_hash prepared = ew_expected_hash write;
  pf_payload : is_delete (pw_access_mode prepared) = false ->
    exists payload, payload_for payloads (ew_reference write) = Some payload
      /\ pw_payload_content prepared = Some (pl_content payload)
      /\ sha256_content_hash (pl_content payload) = pl_content_hash payload;
  pf_overwrite : pw_access_mode prepared = PreparedAccessMode_Write -> is_Some (ew_expected_hash write)
}.

(** A pair of a write and its before image, captured on the disk [d]. *)
Record captured_for (d : Disk) (write : EffectWrite) (pair : PreparedWrite * OriginalFileState) (key : Key) : Prop := {
  cf_prepared : prepared_for write (fst pair);
  cf_relative : relative_of root (fst pair) = Some key;
  cf_normalized : normalized_effect_relative_path (pw_physical_reference (fst pair)) = Some key;
  cf_unreserved : reserved_key key = None /\ reserved_state_path (pw_physical_reference (fst pair)) = None;
  cf_binding : ofs_physical_reference (snd pair) = pw_physical_reference (fst pair)
               /\ ofs_target (snd pair) = pw_target (fst pair);
  cf_original : (if ofs_existed (snd pair) then Some (ofs_content (snd pair)) else None) = d !! key;
  cf_installed : ofs_installed_content (snd pair)
                 = if is_delete (pw_access_mode (fst pair)) then None else Some (pw_content (fst pair));
  cf_asked : asked d write = Some (key, ofs_installed_content (snd pair));
  cf_guard : write_guard d write key
}.

(** ** Reading without changing anything *)

(** [m] answers [R] about the disk it runs on, which it leaves alone; it may crash. *)
Definition observes {A} (m : Io A) (R : A -> Disk -> Prop) : Prop :=
  forall P (C : Disk -> Prop) d, C d -> wp P m (fun a d' => d' = d /\ R a d) C d.

Lemma observes_ret {A} (a : A) (R : A -> Disk -> Prop) : (forall d, R a d) -> observes (io_ret a) R.
Proof. intros HR P C d HC. apply wp_ret. split; [done|apply HR]. Qed.

Lemma observes_bind {A B} (m : Io A) (k : A -> Io B) (S : A -> Disk -> Prop) (R : B -> Disk -> Prop) :
  observes m S -> (forall a, observes (k a) (fun b d => S a d -> R b d)) -> observes (io_bind m k) R.
Proof.
  intros Hm Hk P C d HC. apply wp_bind. eapply wp_mono; [by apply Hm| |done]. intros a d' [-> HS].
  eapply wp_mono; [by apply (Hk a P C)| |done]. intros b d' [-> HR]. auto.
Qed.

(** The continuation may use what does not depend on the disk. *)
Lemma observes_bind_pure {A B} (m : Io A) (k : A -> Io B) (S : A -> Prop) (R : B -> Disk -> Prop) :
  observes m (fun a _ => S a) -> (forall a, S a -> observes (k a) R) -> observes (io_bind m k) R.
Proof.
  intros Hm Hk P C d HC. apply wp_bind. eapply wp_mono; [by apply (Hm P C)| |done]. intros a d' [-> HS]. by apply Hk.
Qed.

Lemma observes_mono {A} (m : Io A) (R R' : A -> Disk -> Prop) : observes m R -> (forall a d, R a d -> R' a d) -> observes m R'.
Proof. intros Hm H P C d HC. eapply wp_mono; [by apply Hm| |done]. intros a d' [-> HR]. auto. Qed.

Lemma observes_read relative : observes (read_authority_file relative)
  (fun r d => forall b, r = Ok b -> exists key, relative = Some key /\ d !! key = Some b).
Proof.
  intros P C d HC. destruct relative as [key|]; [|apply wp_ret; split; [done|by intros b]].
  apply wp_read; [intros b Hb|intros _|intros p _|done]; (split; [done|]); intros b' [= <-]. by exists key.
Qed.

Lemma observes_read_optional relative : observes (read_optional_authority_file relative)
  (fun r d => forall current, r = Ok current -> exists key, relative = Some key /\ d !! key = current).
Proof.
  intros P C d HC. destruct relative as [key|]; [|apply wp_bind, wp_ret, wp_ret; split; [done|by intros b]].
  apply wp_bind, wp_read; [intros b Hb|intros Hb|intros p _|done]; apply wp_ret; (split; [done|]); intros c [= <-]; by exists key.
Qed.

Lemma observes_map {A B} (f : A -> Io B) (R : A -> B -> Disk -> Prop) l :
  (forall x, observes (f x) (R x)) -> observes (io_map f l) (fun ys d => Forall2 (fun x y => R x y d) l ys).
Proof.
  intros Hf. induction l as [|x l IH]; simpl; [apply observes_ret; intros d; constructor|].
  eapply observes_bind; [apply Hf|intros y]. eapply observes_bind; [apply IH|intros ys].
  apply observes_ret. intros d H1 H2. by constructor.
Qed.

Lemma observes_readonly {A} (m : Io A) : observes m (fun _ _ => True) -> forall P, readonly P m.
Proof. intros H P I d HI. eapply wp_mono; [by apply H| |done]. by intros a d' [-> _]. Qed.

(** ** The steps of the preparation *)

Lemma observes_reads read :
  observes (validate_file_backed_read root read) (fun reasons d => reasons = [] -> read_guard d read).
Proof.
  unfold validate_file_backed_read, read_guard. destruct (file_backed_target (er_target_kind read)) eqn:Ek; simpl; [|by apply observes_ret].
  destruct (er_expected_hash read) as [expected|]; [|by apply observes_ret].
  destruct (effect_target_physical_reference _ _) as [physical|e]; [|by apply observes_ret].
  eapply observes_bind; [apply (observes_read (retained_components root physical))|]. intros [content|e]; apply observes_ret; [|done].
  intros d Hr. case_bool_decide as Hh; [|done]. intros _ _ h [= <-]. destruct (Hr content eq_refl) as (key & Hk & Hc). by exists physical, key, content.
Qed.

Lemma observes_exists relative : observes (authority_leaf_exists relative) (fun _ _ => True).
Proof. eapply observes_bind; [apply observes_read|]. intros r. by apply observes_ret. Qed.

Lemma observes_hash relative expected_hash : observes (expected_hash_holds relative expected_hash) (fun _ _ => True).
Proof.
  destruct expected_hash as [h|]; simpl; [|by apply observes_ret].
  eapply observes_bind; [apply observes_read|]. intros r. by apply observes_ret.
Qed.

Lemma observes_content mode relative payload :
  observes (content_for mode relative payload)
    (fun r _ => forall content, r = Ok content -> (mode = PreparedAccessMode_Create \/ mode = PreparedAccessMode_Write) -> payload = Some content).
Proof.
  destruct mode, payload as [payload|]; simpl; try (apply observes_ret; naive_solver).
  eapply observes_bind; [apply observes_read|]. intros r. apply observes_ret. naive_solver.
Qed.

Lemma observes_prepare write :
  observes (prepare_file_write root payloads write) (fun r _ => forall prepared, r = Ok prepared -> prepared_for write prepared).
Proof.
  unfold prepare_file_write. destruct (file_backed_target _); simpl; [|by apply observes_ret].
  destruct (from_contract (ew_access_mode write)) as [mode|reason] eqn:Em; [|by apply observes_ret].
  destruct (resolve_effect_target _ _ _) as [[target physical]|e] eqn:Er; [|destruct e; by apply observes_ret].
  set (payload := if requires_payload mode then payload_for payloads (ew_reference write) else None).
  destruct (requires_payload mode && is_none payload) eqn:Ep; [by apply observes_ret|].
  destruct (option_any _ payload) eqn:Eh; [by apply observes_ret|].
  eapply observes_bind; [apply observes_exists|]. intros [target_exists|e]; [|by apply observes_ret].
  destruct (presence_reason mode target_exists); [by apply observes_ret|].
  destruct (bool_decide (mode = PreparedAccessMode_Write) && is_none (ew_expected_hash write)) eqn:Ew; [by apply observes_ret|].
  eapply observes_bind; [apply observes_hash|]. intros [|]; simpl; [|by apply observes_ret].
  eapply observes_bind; [apply observes_content|]. intros [content|reason]; apply observes_ret; [|done].
  intros d _ _ _ prepared [= <-]. split; simpl; try done.
  - intros Hd. subst payload. unfold requires_payload in *. rewrite Hd in *. simpl in *.
    destruct (payload_for payloads (ew_reference write)) as [p|]; [|done]. simpl in Eh. apply negb_false_iff, bool_decide_eq_true in Eh. by exists p.
  - intros ->. rewrite bool_decide_eq_true_2 in Ew by done. simpl in Ew. destruct (ew_expected_hash write); [by eexists|done].
Qed.

(** Revalidation keeps the write and refreshes its content. *)
Lemma observes_revalidate prepared :
  observes (revalidate_prepared_write root prepared)
    (fun r _ => forall refreshed, r = Ok refreshed -> exists content, refreshed = with_content prepared content
       /\ (pw_access_mode prepared = PreparedAccessMode_Create \/ pw_access_mode prepared = PreparedAccessMode_Write ->
           pw_payload_content prepared = Some content)).
Proof.
  unfold revalidate_prepared_write. destruct (negb _); [by apply observes_ret|].
  eapply observes_bind; [apply observes_exists|]. intros [target_exists|e]; [|by apply observes_ret].
  destruct (presence_reason _ _); [by apply observes_ret|].
  eapply observes_bind; [apply observes_hash|]. intros [|]; simpl; [|by apply observes_ret].
  eapply observes_bind; [apply observes_content|]. intros [content|reason]; apply observes_ret; [|done].
  intros d Hc _ _ refreshed [= <-]. exists content. split; [done|]. by apply Hc.
Qed.

Lemma prepared_with_content write prepared content : prepared_for write prepared -> prepared_for write (with_content prepared content).
Proof. by intros []. Qed.

(** What is captured when the guards hold, and the content is the one of the access mode. *)
Lemma captured_ok d write prepared key :
  prepared_for write prepared ->
  target_key (pw_physical_reference prepared) = Some key ->
  option_any (fun expected => negb (Bool.eqb (negb (is_none (d !! key))) expected)) (expected_presence (pw_access_mode prepared)) = false ->
  option_any (fun expected => negb (negb (is_none (d !! key)))
    || negb (bool_decide (sha256_content_hash (default [] (d !! key)) = expected))) (pw_expected_hash prepared) = false ->
  (forall payload, pw_payload_content prepared = Some payload -> is_delete (pw_access_mode prepared) = false ->
     pw_content prepared = if bool_decide (pw_access_mode prepared = PreparedAccessMode_Append)
                           then (default [] (d !! key) ++ payload)%list else payload) ->
  captured_for d write (prepared, {|
    ofs_target := pw_target prepared; ofs_physical_reference := pw_physical_reference prepared;
    ofs_existed := negb (is_none (d !! key)); ofs_content := default [] (d !! key);
    ofs_installed_content := if is_delete (pw_access_mode prepared) then None else Some (pw_content prepared) |}) key.
Proof.
  intros Hp Htk' Epres Ehash Hcontent.
  destruct (resolved_key root _ _ _ _ _ (pf_target _ _ Hp)) as (key' & Hphys & Htk & Hnorm & Hret & Hkey & Hres). rewrite Htk' in Htk. injection Htk as <-.
  pose proof (pf_mode _ _ Hp) as Hm. pose proof (pf_payload _ _ Hp) as Hpay. pose proof (pf_overwrite _ _ Hp) as Hover.
  split; simpl; [done..|by destruct (d !! key)|done| |].
  - unfold asked. rewrite Hphys, Htk'.
    destruct (pw_access_mode prepared), (ew_access_mode write); simpl in *; simplify_eq; try done;
      destruct (Hpay eq_refl) as (payload & -> & Hpc & _); by rewrite (Hcontent (pl_content payload)).
  - unfold write_guard. rewrite <- (pf_hash _ _ Hp) in *. split.
    + destruct (pw_access_mode prepared), (ew_access_mode write); simpl in *; simplify_eq; try done;
        destruct (d !! key); (done || (split; [by eexists|by apply Hover]) || by eexists).
    + intros expected He. rewrite He in Ehash. simpl in Ehash. destruct (d !! key) as [b|]; [|done]. simpl in Ehash.
      apply negb_false_iff, bool_decide_eq_true in Ehash. by exists b.
Qed.

(** Capturing reads the files once more and checks the guards on what it reads. *)
Lemma observes_capture write prepared :
  prepared_for write prepared ->
  (pw_access_mode prepared = PreparedAccessMode_Create \/ pw_access_mode prepared = PreparedAccessMode_Write ->
     pw_payload_content prepared = Some (pw_content prepared)) ->
  observes (capture_original root prepared) (fun r d => forall pair, r = Some pair -> exists key, captured_for d write pair key).
Proof.
  intros Hp Hcontent. unfold capture_original, relative_of.
  destruct (resolved_key root _ _ _ _ _ (pf_target _ _ Hp)) as (key & Hphys & Htk & Hnorm & Hret & Hkey & Hres).
  eapply observes_bind; [apply observes_read_optional|]. intros [current|e]; apply observes_ret; [|done].
  intros d Hr pair Hpair. rewrite Hret in Hr. destruct (Hr current eq_refl) as (key' & [= <-] & <-). clear Hr. exists key.
  destruct (option_any _ (expected_presence _)) eqn:Epres; [done|]. destruct (option_any _ (pw_expected_hash _)) eqn:Ehash; [done|].
  case_bool_decide as Ha; [destruct (pw_payload_content prepared) as [payload|] eqn:Epay; [|done]|]; simplify_eq; apply captured_ok; try done.
  - by apply prepared_with_content.
  - simpl. intros payload' Hpay' _. rewrite bool_decide_eq_true_2 by done. by simplify_eq.
  - intros payload Hpay Hd. rewrite bool_decide_eq_false_2 by done.
    rewrite Hcontent in Hpay; [by simplify_eq|]. destruct (pw_access_mode prepared); auto; done.
Qed.

(** ** The whole preparation *)

Lemma errs_nil {A E} (l : list (Result A E)) : errs l = [] -> Forall2 (fun r a => r = Ok a) l (oks l).
Proof. induction l as [|[a|e] l IH]; simpl; intros H; [constructor|constructor; [done|by apply IH]|done]. Qed.

Lemma observes_capture_all writes prepared :
  Forall2 (fun write p => prepared_for write p
    /\ (pw_access_mode p = PreparedAccessMode_Create \/ pw_access_mode p = PreparedAccessMode_Write -> pw_payload_content p = Some (pw_content p)))
    writes prepared ->
  observes (capture_originals_retained root prepared)
    (fun r d => forall pairs, r = Some pairs -> Forall2 (fun write pair => exists key, captured_for d write pair key) writes pairs).
Proof.
  induction 1 as [|write p writes prepared [Hp Hc] _ IH]; simpl; [apply observes_ret; intros d pairs [= <-]; constructor|].
  eapply observes_bind; [by apply (observes_capture write)|]. intros [first|]; [|by apply observes_ret].
  eapply observes_bind; [apply IH|]. intros [pairs|]; apply observes_ret; [|done].
  intros d H1 H2 ? [= <-]. constructor; auto.
Qed.

Lemma observes_revalidate_all writes prepared :
  Forall2 prepared_for writes prepared ->
  observes (revalidate_prepared_writes_retained root prepared)
    (fun r _ => fst r = [] -> Forall2 (fun write p => prepared_for write p
       /\ (pw_access_mode p = PreparedAccessMode_Create \/ pw_access_mode p = PreparedAccessMode_Write -> pw_payload_content p = Some (pw_content p)))
       writes (snd r)).
Proof.
  intros Hp. eapply observes_bind; [apply (observes_map _ _ _ observes_revalidate)|]. intros results. apply observes_ret.
  intros d Hr Hn%errs_nil. simpl in *. revert writes Hp results Hr Hn. induction prepared as [|p prepared IH]; intros writes Hp results Hr Hn.
  - inversion Hp; subst. inversion Hr; subst. constructor.
  - inversion Hp as [|write ? writes' ? H1 H2]; subst. inversion Hr as [|? r ? results' H3 H4]; subst.
    destruct r as [refreshed|e]; [|by inversion Hn]. simpl in *. apply Forall2_cons in Hn as [_ Hn]. constructor; [|by apply IH].
    destruct (H3 refreshed eq_refl) as (content & -> & Hc). split; [by apply prepared_with_content|done].
Qed.

Lemma observes_prepare_all effect reasons :
  observes (prepare_file_writes root effect payloads reasons)
    (fun r _ => fst r = [] -> reasons = [] /\ exists prepared, snd r = Some prepared
       /\ Forall2 prepared_for (te_write_set (ted_tool_effect_contract effect)) prepared).
Proof.
  eapply observes_bind; [apply (observes_map _ _ _ observes_prepare)|]. intros results. apply observes_ret. simpl.
  intros d Hr [-> Hn]%app_nil. split; [done|]. exists (oks results). rewrite Hn. simpl. split; [done|].
  apply errs_nil in Hn. clear -Hr Hn. induction Hr as [|write r ws results H3 _ IH]; [constructor|].
  destruct r as [prepared|e]; [|by inversion Hn]. simpl in *. apply Forall2_cons in Hn as [_ Hn]. constructor; auto.
Qed.

Lemma observes_reads_all effect :
  observes (validate_file_backed_reads_retained root effect)
    (fun reasons d => reasons = [] -> Forall (read_guard d) (te_read_set (ted_tool_effect_contract effect))).
Proof.
  eapply observes_bind; [apply (observes_map _ _ _ observes_reads)|]. intros reasons. apply observes_ret.
  intros d Hr Hn. induction Hr as [|read r reads reasons H _ IH]; [constructor|]. simpl in Hn. apply app_nil in Hn as [-> Hn].
  constructor; auto.
Qed.

(** Nothing is written; what is returned has been checked against the contract and the disk. *)
Lemma observes_prepare_transaction effect :
  observes (prepare_transaction root effect payloads)
    (fun r d => forall pairs, r = Ok pairs ->
       error_count (validate_tool_effect effect) = 0
       /\ Forall (read_guard d) (te_read_set (ted_tool_effect_contract effect))
       /\ Forall2 (fun write pair => exists key, captured_for d write pair key) (te_write_set (ted_tool_effect_contract effect)) pairs).
Proof.
  unfold prepare_transaction. eapply observes_bind; [apply observes_reads_all|]. intros read_reasons.
  eapply observes_bind_pure; [apply observes_prepare_all|]. intros [reasons prepared] Hprep. simpl in *.
  destruct reasons as [|reason reasons]; simpl; [|by apply observes_ret].
  destruct Hprep as [[He ->]%app_nil (writes & -> & Hw)]; [done|].
  eapply observes_bind_pure; [by apply observes_revalidate_all|]. intros [new_reasons refreshed] Href. simpl in *.
  destruct new_reasons as [|reason reasons]; simpl; [|by apply observes_ret]. specialize (Href eq_refl).
  eapply observes_bind; [by apply observes_capture_all|]. intros [pairs|]; apply observes_ret; [|done].
  intros d Hc Hreads ? [= <-]. split_and!; [|by apply Hreads|by apply Hc].
  destruct (Nat.ltb_spec 0 (error_count (validate_tool_effect effect))); [done|lia].
Qed.

End plan.
