(* ===== verification/EffectAtomic.v ===== *)
(** * Atomicity of effect transactions

    Publishing the writes of an effect between log records, for any faults: what the returned status says
    of the files, and, when operations do not fail but the process may die in any of them, that the disk
    can always be recovered to the files before the effect or to those after it. *)

From S2P Require Import Prelude RustStr Contracts OperationContracts Diagnostics StatePaths EffectTypes CrashIo EffectStore EffectLog EffectCrash EffectRecovery EffectPlan.

Local Open Scope string_scope.

(** ** Changes *)

Definition put_change (d : Disk) (change : Key * option bytes) : Disk := put_file (fst change) (snd change) d.

Lemma put_file_eq key content d : put_file key content d !! key = content.
Proof. destruct content; simpl; [by rewrite lookup_insert_eq|by rewrite lookup_delete_eq]. Qed.

Lemma put_file_ne key content d k : key ≠ k -> put_file key content d !! k = d !! k.
Proof. intros H. destruct content; simpl; [by rewrite lookup_insert_ne|by rewrite lookup_delete_ne]. Qed.

Lemma touched_put key content d : touched_only (eq key) d (put_file key content d).
Proof. intros k. destruct (decide (key = k)); [by right|left]. by rewrite put_file_ne. Qed.

(** A file is as it was, or as the last change of it says. *)
Lemma put_changes changes d k :
  (foldl put_change d changes !! k = d !! k /\ k ∉ map fst changes) \/ (k, foldl put_change d changes !! k) ∈ changes.
Proof.
  induction changes as [|[key content] changes IH] using rev_ind; [left; split; [done|apply not_elem_of_nil]|].
  rewrite foldl_app, map_app, !elem_of_app. simpl. rewrite !list_elem_of_singleton.
  set (d' := foldl put_change d changes) in *. change (put_change d' (key, content)) with (put_file key content d').
  destruct (decide (key = k)) as [->|Hne]; [right; right; by rewrite put_file_eq|].
  rewrite !put_file_ne by done. destruct IH as [[He Hn]|Hin]; [left|right; by left]. split; [done|]. intros [?| ->]; done.
Qed.

Section publication.
Context {codec : EffectCodec} (root : EffectRoot) (payloads : list EffectApplicationPayload) (wk : Key) (d0 : Disk).

(** A captured pair whose file is [key], not the log. *)
Definition captured (pair : PreparedWrite * OriginalFileState) (key : Key) : Prop :=
  key ≠ wk /\ exists write, captured_for root payloads d0 write pair key.

Definition change_of (pair : PreparedWrite * OriginalFileState) : option (Key * option bytes) :=
  (fun key => (key, ofs_installed_content (snd pair))) <$> relative_of root (fst pair).

Definition changed (pairs : list (PreparedWrite * OriginalFileState)) : Disk := foldl put_change d0 (omap change_of pairs).

Lemma captured_key pair key key' : captured pair key -> captured pair key' -> key = key'.
Proof. intros (_ & w & H) (_ & w' & H'). pose proof (cf_relative _ _ _ _ _ _ H). pose proof (cf_relative _ _ _ _ _ _ H'). congruence. Qed.

Lemma captured_change pair key : captured pair key -> change_of pair = Some (key, ofs_installed_content (snd pair)).
Proof. intros (_ & write & Hc). unfold change_of. by rewrite (cf_relative _ _ _ _ _ _ Hc). Qed.

(** The files of the pairs. *)
Definition named (pairs : list (PreparedWrite * OriginalFileState)) (key : Key) : Prop :=
  exists pair, pair ∈ pairs /\ captured pair key.

Lemma changed_cases pairs key : Forall (fun pair => exists key, captured pair key) pairs ->
  changed pairs !! key = d0 !! key
  \/ exists pair, pair ∈ pairs /\ captured pair key /\ ofs_installed_content (snd pair) = changed pairs !! key.
Proof.
  intros Hp. rewrite Forall_forall in Hp. destruct (put_changes (omap change_of pairs) d0 key) as [[H _]|H]; [by left|right].
  apply list_elem_of_omap in H as (pair & Hin & Hc). destruct (Hp pair Hin) as [key' Hk].
  rewrite (captured_change _ _ Hk) in Hc. simplify_eq. by exists pair.
Qed.

Lemma changed_snoc pairs pair key : captured pair key ->
  changed (pairs ++ [pair])%list = put_file key (ofs_installed_content (snd pair)) (changed pairs).
Proof. intros Hc. unfold changed. rewrite omap_app, foldl_app. simpl. by rewrite (captured_change _ _ Hc). Qed.

Definition dirty (d : Disk) (key : Key) : Prop := d !! key ≠ d0 !! key.

(** ** One file *)

(** Publishing a write changes its file only; it reports success when the file was as captured and is now
    as asked, and without failing operations it otherwise changes nothing. *)
Lemma apply_write_wp P pair key d : captured pair key ->
  wp P (apply_prepared_write_for_publication root (fst pair) (snd pair))
    (fun r d' => touched_only (eq key) d d' /\ (is_ok r = true -> d' !! key = ofs_installed_content (snd pair))
       /\ (never_fails P -> is_ok r = false -> d' = d /\ dirty d key)) (touched_only (eq key) d) d.
Proof.
  intros (_ & write & Hc). unfold apply_prepared_write_for_publication.
  destruct (cf_unreserved _ _ _ _ _ _ Hc) as [Hk ->]. destruct (cf_binding _ _ _ _ _ _ Hc) as [-> ->].
  rewrite (cf_relative _ _ _ _ _ _ Hc), (cf_installed _ _ _ _ _ _ Hc). rewrite !bool_decide_eq_true_2 by done. simpl.
  pose proof (touched_only_refl (eq key) d) as Hrefl. pose proof (cf_original _ _ _ _ _ _ Hc) as Ho. unfold dirty. rewrite <- Ho.
  destruct (is_delete (pw_access_mode (fst pair))) eqn:Ed; [destruct (ofs_existed (snd pair))|].
  - unfold remove_and_sync, io_and_then, remove_authority_file_retained. rewrite Hk. simpl.
    pose proof (touched_delete key d) as Ht. apply wp_bind, wp_remove; [intros _|intros Hne|intros p Hp|intros p _; apply touched_left_behind].
    + apply wp_sync; [|intros p Hp|done]; split_and!; try done; [by rewrite lookup_delete_eq|intros Hnf; by destruct (Hnf p)].
    + apply wp_ret. by split_and!.
    + apply wp_ret. split_and!; [apply touched_left_behind|done|intros Hnf; by destruct (Hnf p)].
  - exfalso. pose proof (pf_mode _ _ _ _ (cf_prepared _ _ _ _ _ _ Hc)) as Hm. destruct (cf_guard _ _ _ _ _ _ Hc) as [Hg _].
    destruct (pw_access_mode (fst pair)), (ew_access_mode write); try done. rewrite <- Ho in Hg. by destruct Hg.
  - rewrite Hk. simpl. apply wp_replace; [intros _|intros Hne; by split_and!|intros p Hp|intros p _; apply touched_left_behind].
    + split_and!; [apply touched_insert|by rewrite lookup_insert_eq|done].
    + split_and!; [apply touched_left_behind|done|intros Hnf; by destruct (Hnf p)].
Qed.

(** Rolling back a write touches its file only when that is not as captured. *)
Lemma rollback_original_wp P pair key d : captured pair key ->
  let K := fun k => k = key /\ dirty d k in
  wp P (rollback_original root (snd pair))
    (fun ok d' => touched_only K d d' /\ (ok = true -> d' !! key = d0 !! key)
       /\ (never_fails P -> d' !! key = d0 !! key \/ d' !! key = d !! key /\ d !! key ≠ ofs_installed_content (snd pair)))
    (touched_only K d) d.
Proof.
  intros (_ & write & Hc) K. unfold rollback_original.
  destruct (cf_unreserved _ _ _ _ _ _ Hc) as [Hk Hres]. destruct (cf_binding _ _ _ _ _ _ Hc) as [-> _]. rewrite Hres. simpl.
  pose proof (cf_relative _ _ _ _ _ _ Hc) as Hrel. unfold relative_of in Hrel. rewrite Hrel. clear Hrel.
  pose proof (cf_original _ _ _ _ _ _ Hc) as Horig. pose proof (touched_only_refl K d) as Hrefl.
  set (post := fun (ok : bool) d' => touched_only K d d' /\ (ok = true -> d' !! key = d0 !! key)
    /\ (never_fails P -> d' !! key = d0 !! key \/ d' !! key = d !! key /\ d !! key ≠ ofs_installed_content (snd pair))).
  apply wp_bind. eapply wp_mono; [|intros r d' H; apply wp_ret; exact (H : post (is_ok r) d')|intros d' H; exact H].
  apply wp_bind. eapply wp_mono; [apply read_optional_wp| |by intros d' <-].
  intros [current|e] d' (-> & Hcur & Hnf); [|apply wp_ret; unfold post; split_and!; [done|done|intros Hn; by specialize (Hnf Hn)]].
  rewrite (Hcur current) by done. clear current Hcur Hnf.
  assert (original_matches (snd pair) (d !! key) = bool_decide (d !! key = d0 !! key)) as ->.
  { rewrite <- Horig. unfold original_matches. destruct (ofs_existed (snd pair)); [done|].
    by destruct (d !! key). }
  case_bool_decide as Hd; [apply wp_ret; unfold post; split_and!; [done|done|by left]|].
  case_bool_decide as Hi; simpl; [|apply wp_ret; unfold post; split_and!; [done|done|by right]].
  assert (forall d', touched_only (eq key) d d' -> touched_only K d d') as HK.
  { intros d' Ht k. destruct (Ht k) as [|<-]; [by left|right; by split]. }
  assert (forall r d', file_post P key (d0 !! key) d r d' -> post (is_ok r) d') as Hfile.
  { intros r d' (Ht & Hok & Hnf). unfold post. split_and!; [by apply HK|done|]. intros Hn. left. by apply Hok, Hnf. }
  rewrite <- Hi, <- Horig in *. destruct (ofs_existed (snd pair)).
  - eapply wp_mono; [by apply replace_current_wp|exact Hfile|exact HK].
  - destruct (d !! key) as [b|] eqn:Eb; [|done]. eapply wp_mono; [by apply remove_current_wp|exact Hfile|exact HK].
Qed.

(** ** All files *)

Lemma dirty_trans (K : Key -> Prop) d d' d'' :
  touched_only (fun k => K k /\ dirty d k) d d' -> touched_only (fun k => K k /\ dirty d' k) d' d'' ->
  touched_only (fun k => K k /\ dirty d k) d d''.
Proof.
  intros H1 H2 k. destruct (H1 k) as [E1|]; [|by right]. destruct (H2 k) as [E2|[HK Hd]]; [left; congruence|right].
  split; [done|]. unfold dirty in *. congruence.
Qed.

(** A file that is not as captured was left by one of the writes that name it. *)
Definition installed_by (pairs : list (PreparedWrite * OriginalFileState)) (d : Disk) : Prop :=
  forall key, dirty d key -> key ≠ wk ->
  exists pair, pair ∈ pairs /\ captured pair key /\ ofs_installed_content (snd pair) = d !! key.

Lemma rollback_originals_wp P pairs d : Forall (fun pair => exists key, captured pair key) pairs ->
  let K := fun k => named pairs k /\ dirty d k in
  wp P (rollback_originals_for_publication root (map snd pairs))
    (fun ok d' => touched_only K d d' /\ (ok = true -> forall key, named pairs key -> d' !! key = d0 !! key)
       /\ (never_fails P -> installed_by pairs d -> forall key, key ≠ wk -> d' !! key = d0 !! key))
    (touched_only K d) d.
Proof.
  intros Hp K. rewrite Forall_forall in Hp. unfold rollback_originals_for_publication. rewrite <- map_rev, io_map_map.
  apply wp_bind. eapply wp_mono; [apply (wp_map P _ (fun done_ outs d' => touched_only K d d'
    /\ (forallb id outs = true -> forall key, named done_ key -> d' !! key = d0 !! key)
    /\ (never_fails P -> forall key, dirty d' key -> d' !! key = d !! key
          /\ forall pair, pair ∈ done_ -> captured pair key -> ofs_installed_content (snd pair) ≠ d !! key)) (touched_only K d))| |done].
  - intros done_ outs pair rest d1 Hl (Ht & Hok & Hnf).
    assert (pair ∈ pairs) as Hin by (rewrite <- elem_of_rev_iff, Hl; apply elem_of_app; right; by left).
    destruct (Hp pair Hin) as [key Hkey].
    assert (forall d', touched_only (fun k => k = key /\ dirty d1 k) d1 d' -> touched_only K d d') as Hext.
    { intros d' Hd'. eapply dirty_trans; [exact Ht|]. eapply touched_only_mono; [|exact Hd']. intros k [-> Hk]. split; [by exists pair|done]. }
    eapply wp_mono; [by apply rollback_original_wp| |done]. intros ok d2 (Hd & Hres & Hf). rewrite forallb_app. simpl.
    rewrite andb_true_r. split_and!; [by apply Hext| |].
    + intros [Ho Hk]%andb_true_iff k (r & Hr & Hc). destruct (decide (k = key)) as [->|Hne]; [by apply Hres|].
      rewrite <- (touched_other _ _ _ k Hd) by naive_solver. apply Hok; [done|].
      apply elem_of_app in Hr as [Hr| ->%list_elem_of_singleton]; [by exists r|]. by rewrite (captured_key _ _ _ Hc Hkey) in Hne.
    + intros Hn k Hdk. destruct (decide (k = key)) as [->|Hne].
      * destruct (Hf Hn) as [|[Heq Hni]]; [done|]. unfold dirty in *. rewrite Heq in *. destruct (Hnf Hn key) as [E H]; [done|].
        split; [done|]. intros r [Hr| ->%list_elem_of_singleton]%elem_of_app Hc; [by apply H|]. congruence.
      * assert (d1 !! k = d2 !! k) as E by (apply (touched_other _ _ _ k Hd); naive_solver). unfold dirty in *. rewrite <- E in *.
        destruct (Hnf Hn k Hdk) as [E' H]. split; [done|]. intros r [Hr| ->%list_elem_of_singleton]%elem_of_app Hc; [by apply H|].
        by rewrite (captured_key _ _ _ Hc Hkey) in Hne.
  - split_and!; [apply touched_only_refl|by intros _ key (? & ?%elem_of_nil & _)|]. intros _ key _. split; [done|]. by intros r ?%elem_of_nil.
  - intros outs d' (Ht & Hok & Hnf). apply wp_ret. split_and!; [done| |].
    + intros Ho key (r & Hr & Hc). apply Hok; [done|]. exists r. by rewrite elem_of_rev_iff.
    + intros Hn Hinst key Hne. destruct (decide (d' !! key = d0 !! key)) as [|Hd]; [done|exfalso]. destruct (Hnf Hn key Hd) as [E H].
      destruct (Hinst key) as (pair & Hin & Hc & Hi); [unfold dirty; congruence|done|]. apply (H pair); [by rewrite elem_of_rev_iff|done|done].
Qed.

(** ** The status and the files, whatever faults occur *)

Context (tn : Transaction) (all : list (PreparedWrite * OriginalFileState)).
Hypothesis Hwk : normalized_effect_relative_path (tn_wal_relative_path tn) = Some wk.
Hypothesis Hall : Forall (fun pair => exists key, captured pair key) all.

(** Only the log and the files of the writes have changed. *)
Definition framed (d : Disk) : Prop := touched_only (fun k => k = wk \/ named all k) d0 d.

(** What a status promises of the files. *)
Definition truthful (res : EffectApplicationResult) (d : Disk) : Prop :=
  framed d /\ match ear_status res with
              | EffectApplicationStatus_Applied => same_files wk (changed all) d
              | EffectApplicationStatus_RolledBack | EffectApplicationStatus_Blocked => same_files wk d0 d
              | EffectApplicationStatus_RollbackFailed => True
              end.

Lemma framed_same d d' : same_files wk d d' -> framed d -> framed d'.
Proof. intros Hs Hf k. destruct (decide (k = wk)); [right; by left|]. rewrite <- Hs by done. apply Hf. Qed.

Lemma framed_touched d d' key : named all key -> touched_only (eq key) d d' -> framed d -> framed d'.
Proof. intros Hk Ht Hf k. destruct (Ht k) as [<-|<-]; [apply Hf|right; by right]. Qed.

Lemma framed_changed done_ rest d : all = (done_ ++ rest)%list -> same_files wk (changed done_) d -> framed d.
Proof.
  intros Hl Hs. eapply framed_same; [exact Hs|]. intros k. pose proof Hall as Hd. rewrite Hl, Forall_app in Hd.
  destruct (changed_cases done_ k (proj1 Hd)) as [->|(pair & Hin & Hc & _)]; [by left|right; right].
  exists pair. split; [rewrite Hl; apply elem_of_app; by left|done].
Qed.

Lemma framed_restored d : framed d -> (forall key, named all key -> d !! key = d0 !! key) -> same_files wk d0 d.
Proof. intros Hf Hr k Hk. destruct (Hf k) as [|[|Hn]]; [done|done|]. symmetry. by apply Hr. Qed.

Lemma append_files_wp P d record :
  wp P (append_effect_wal_record_for_publication (tn_wal_relative_path tn) record) (fun _ d' => same_files wk d d') (same_files wk d) d.
Proof. by apply append_same_files_wp. Qed.

Lemma rollback_files_wp P d : framed d ->
  wp P (rollback_originals_for_publication root (map snd all))
    (fun ok d' => framed d' /\ (ok = true -> same_files wk d0 d')) framed d.
Proof.
  intros Hf. assert (forall d', touched_only (fun k => named all k /\ dirty d k) d d' -> framed d') as Hext.
  { intros d' Ht k. destruct (Ht k) as [<-|[Hn _]]; [apply Hf|right; by right]. }
  eapply wp_mono; [by apply rollback_originals_wp|..]; [|exact Hext]. intros ok d' (Ht & Hok & _). split; [by apply Hext|].
  intros H. by apply framed_restored; [apply Hext|apply Hok].
Qed.

Lemma rollback_result_files_wp P d applied_refs reasons : framed d ->
  wp P (rollback_wal_transaction_result root tn (map snd all) applied_refs reasons) truthful framed d.
Proof.
  intros Hf. apply wp_bind. eapply wp_mono; [by apply rollback_files_wp| |done]. intros ok d' [Hf' Hok]. apply wp_bind.
  eapply wp_mono; [apply append_files_wp| |intros d'' Hs; exact (framed_same _ _ Hs Hf')]. intros r d'' Hs. apply wp_ret.
  split; [exact (framed_same _ _ Hs Hf')|]. simpl. destruct ok, (is_ok r); simpl; try done. eapply same_files_trans; [by apply Hok|done].
Qed.

Lemma publish_files_wp P done_ pairs applied_refs d :
  all = (done_ ++ pairs)%list -> same_files wk (changed done_) d ->
  wp P (publish_writes root tn all pairs applied_refs) truthful framed d.
Proof.
  revert done_ applied_refs d. induction pairs as [|[write original] rest IH]; intros done_ applied_refs d Hl Hs; simpl.
  - pose proof (framed_changed _ _ _ Hl Hs) as Hf. apply wp_bind. eapply wp_mono; [apply append_files_wp| |intros d' H; exact (framed_same _ _ H Hf)].
    intros r d' H. destruct (is_ok r); [apply wp_ret|apply rollback_result_files_wp; exact (framed_same _ _ H Hf)].
    split; [exact (framed_same _ _ H Hf)|]. simpl. rewrite app_nil_r in Hl. subst done_. by eapply same_files_trans.
  - pose proof (framed_changed _ _ _ Hl Hs) as Hf. set (pair := (write, original)) in *.
    assert (pair ∈ all) as Hin by (rewrite Hl; apply elem_of_app; right; by left).
    destruct (proj1 (Forall_forall _ _) Hall pair Hin) as [key Hkey].
    assert (named all key) as Hnamed by (by exists pair).
    apply wp_bind. eapply wp_mono; [apply append_files_wp| |intros d' H; exact (framed_same _ _ H Hf)]. intros r1 d2 H2.
    pose proof (framed_same _ _ H2 Hf) as Hf2. destruct (is_ok r1); simpl.
    2: { apply wp_bind. eapply wp_mono; [by apply rollback_files_wp| |done]. intros ok d3 [Hf3 Hok]. apply wp_ret.
         split; [done|]. simpl. destruct ok; [by apply Hok|done]. }
    apply wp_bind. eapply wp_mono; [apply (apply_write_wp P pair key d2 Hkey)| |intros d' H; exact (framed_touched _ _ _ Hnamed H Hf2)].
    intros r3 d3 (Ht & Hok & _). pose proof (framed_touched _ _ _ Hnamed Ht Hf2) as Hf3.
    destruct (is_ok r3); simpl; [|by apply rollback_result_files_wp].
    apply wp_bind. eapply wp_mono; [apply append_files_wp| |intros d' H; exact (framed_same _ _ H Hf3)]. intros r4 d4 H4.
    destruct (is_ok r4); simpl; [|apply rollback_result_files_wp; exact (framed_same _ _ H4 Hf3)].
    apply (IH (done_ ++ [pair])%list); [by rewrite Hl, <- app_assoc|]. eapply same_files_trans; [|exact H4].
    rewrite (changed_snoc _ _ _ Hkey). intros k Hk. destruct (decide (key = k)) as [<-|Hne]; [by rewrite put_file_eq, Hok|].
    rewrite put_file_ne by done. rewrite Hs, H2 by done. by apply (touched_other _ _ _ _ Ht).
Qed.

(** ** Crashes at any point *)

Context {laws : EffectCodecLaws codec} (W : list EffectWalRecord) (P : Fault -> Prop).
Hypothesis HW : settled_log W.
Hypothesis Hfresh : forall record, record ∈ W -> ewr_tx_id record ≠ tn_tx_id tn.
Hypothesis Hnf : never_fails P.
Context (begin : EffectWalRecord).
Hypothesis Hbegin : ewr_stage begin = EffectWalStage_Begin.

Notation own := (own_record wk d0 (tn_tx_id tn)).
Notation Mid := (InProgress wk d0 (changed all) (tn_tx_id tn) W begin (tn_effect_id tn)).
Notation quiet := (quiet (tn_tx_id tn) (tn_effect_id tn)).
Notation Ended := (Done wk d0 (changed all) (tn_tx_id tn) W begin (tn_effect_id tn)).
Notation begun := (begun (tn_tx_id tn) begin (tn_effect_id tn)).
Notation begun_open := (begun_open (tn_tx_id tn) begin (tn_effect_id tn) Hbegin).

(** The transaction after the writes [done_], between two operations. *)
Record Open (done_ : list (PreparedWrite * OriginalFileState)) (records : list EffectWalRecord) (d : Disk) : Prop := {
  op_log : clean_log wk d (W ++ records)%list;
  op_own : Forall own records;
  op_begun : begun records;
  op_done : exists rest, all = (done_ ++ rest)%list;
  op_files : same_files wk (changed done_) d;
  op_imaged key : named done_ key -> imaged d0 records key
}.

(** The log is settled, and says whether the transaction committed; if so its records are complete. *)
Definition decided (b : Prop) (d : Disk) : Prop :=
  Ended d /\ exists rs, clean_log wk d rs /\ settled_log rs /\ (committed (tn_tx_id tn) rs <-> b)
    /\ (b -> exists records, begun records
         /\ rs = (W ++ records ++ [record_stage (tn_tx_id tn) (tn_effect_id tn) EffectWalStage_Commit])%list).

(** The files of the writes, in order. *)
Definition targets (pairs : list (PreparedWrite * OriginalFileState)) : list Key := omap (fun pair => relative_of root (fst pair)) pairs.

Definition finished (res : EffectApplicationResult) (d : Disk) : Prop :=
  decided (ear_status res = EffectApplicationStatus_Applied) d
  /\ if bool_decide (ear_status res = EffectApplicationStatus_Applied) then same_files wk (changed all) d else same_files wk d0 d.

Lemma open_installed done_ records d : Open done_ records d -> installed_by done_ d.
Proof.
  intros Ho key Hd Hne. destruct (op_done _ _ _ Ho) as [rest Hl]. pose proof Hall as Hc. rewrite Hl, Forall_app in Hc.
  unfold dirty in Hd. rewrite <- (op_files _ _ _ Ho) in * by done.
  by destruct (changed_cases done_ key (proj1 Hc)) as [|(pair & Hin & Hp & Hi)]; [|exists pair].
Qed.

(** Files may be in any state that the before images cover. *)
Lemma open_progress done_ records d d' more : Open done_ records d -> Forall own more -> Forall quiet more ->
  touched_only (fun k => k = wk \/ imaged d0 (records ++ more)%list k) d d' -> Mid d' (W ++ records ++ more)%list.
Proof.
  intros Ho Hm Hc Ht. exists (records ++ more)%list. pose proof (begun_app _ _ _ _ _ (op_begun _ _ _ Ho) Hc) as Hb.
  split_and!; [done|apply Forall_app; split; [apply Ho|done]|by apply begun_shaped|]. apply Progress_open.
  - right. destruct (op_begun _ _ _ Ho) as (rest & -> & _). by exists begin, (rest ++ more)%list.
  - intros r. by apply begun_open.
  - intros key Hne. destruct (Ht key) as [<-|[|]]; [|done|by right].
    destruct (decide (d !! key = d0 !! key)) as [|Hd]; [by left|right].
    destruct (open_installed _ _ _ Ho key Hd Hne) as (pair & Hin & Hp & _).
    destruct (op_imaged _ _ _ Ho key) as (r & Hr & Hi); [by exists pair|]. exists r. split; [apply elem_of_app; by left|done].
Qed.

Lemma open_mid done_ records d : Open done_ records d -> Mid d (W ++ records)%list.
Proof. intros Ho. rewrite <- (app_nil_r records). eapply open_progress; [done|constructor|constructor|apply touched_only_refl]. Qed.

(** Appending one more record that does not close the transaction. *)
Lemma open_append_wp done_ records d record :
  Open done_ records d -> own record -> quiet record ->
  wp P (append_for tn record) (fun res d' => is_ok res = true /\ Open done_ (records ++ [record])%list d') (Recoverable wk Mid) d.
Proof.
  intros Ho Hown Hc.
  eapply wp_mono; [apply (append_record_wp _ wk Hwk Mid (InProgress_files wk d0 _ _ W _ _) P d (W ++ records)%list)| |done].
  - apply Ho.
  - by eapply open_mid.
  - rewrite <- app_assoc. eapply open_progress; [done|by apply Forall_singleton|by apply Forall_singleton|apply touched_only_refl].
  - intros res d' (Hs & Hres & Hok). rewrite (Hok Hnf) in *. split; [done|]. split.
    + by rewrite <- app_assoc in Hres.
    + apply Forall_app. split; [apply Ho|by apply Forall_singleton].
    + apply begun_app; [apply Ho|by apply Forall_singleton].
    + apply Ho.
    + eapply same_files_trans; [apply Ho|done].
    + intros key Hk. destruct (op_imaged _ _ _ Ho key Hk) as (r & Hr & Hi). exists r. split; [apply elem_of_app; by left|done].
Qed.

(** Closing it. *)
Lemma open_close_wp d records stage :
  clean_log wk d (W ++ records)%list -> Forall own records -> Mid d (W ++ records)%list ->
  begun records -> is_closing stage = true -> closed_as wk d0 (changed all) d stage ->
  wp P (append_for tn (record_stage (tn_tx_id tn) (tn_effect_id tn) stage))
    (fun res d' => is_ok res = true /\ same_files wk d d' /\ decided (stage = EffectWalStage_Commit) d') (Recoverable wk Mid) d.
Proof.
  intros Hc Ho Hm Hb Hst Hs. pose proof (fun record => begun_open records record Hb) as Hopen. set (record := record_stage _ _ stage).
  assert (own record) as Hown by (apply own_marker; by intros ->).
  assert (Forall own (records ++ [record])%list) as Hall' by (apply Forall_app; split; [done|by apply Forall_singleton]).
  eapply wp_mono; [apply (append_record_wp _ wk Hwk Mid (InProgress_files wk d0 _ _ W _ _) P d (W ++ records)%list); [done|done|]| |done].
  - rewrite <- app_assoc. exists (records ++ [record])%list. split_and!; [done|done|by apply closed_shaped|]. by apply closed_push.
  - intros res d' (Hs' & Hres & Hok). rewrite (Hok Hnf) in *. rewrite <- app_assoc in Hres. split_and!; [done|done|].
    split; [apply (pushed_done wk d0 (changed all) (tn_tx_id tn) W HW Hfresh begin (tn_effect_id tn) d' records record);
      [done|by apply closed_shaped|done|done|done|by eapply same_files_trans]|].
    exists (W ++ records ++ [record])%list. split_and!; [done| | |intros ->; by exists records].
    + destruct (own_settled _ _ _ W HW _ Hall') as [He Hr]. split; [done|done|]. by eapply pushed_settled.
    + rewrite (committed_own _ _ _ W Hfresh _ Hall'). split; [|intros ->; exists record; split; [apply elem_of_app; right; by left|done]].
      intros (r & [Hr| ->%list_elem_of_singleton]%elem_of_app & Hrs); [|done]. apply Hopen in Hr. by rewrite Hrs in Hr.
Qed.

Lemma rollback_result_crash_wp done_ records d applied_refs reasons : Open done_ records d ->
  wp P (rollback_wal_transaction_result root tn (map snd all) applied_refs reasons) finished (Recoverable wk Mid) d.
Proof.
  intros Ho. assert (forall k, named all k -> k ≠ wk) as Hnwk by (by intros k (pair & _ & Hk & _)).
  assert (forall d', touched_only (fun k => named all k /\ dirty d k) d d' -> clean_log wk d' (W ++ records)%list /\ Mid d' (W ++ records)%list) as Hkeep.
  { intros d' Ht. split.
    - unfold clean_log, log_bytes. rewrite <- (touched_other _ _ _ wk Ht) by (intros [?%Hnwk _]; done). apply Ho.
    - rewrite <- (app_nil_r records). eapply open_progress; [done|constructor|constructor|].
      eapply touched_only_mono; [|exact Ht]. intros k [Hk Hd]. right. rewrite app_nil_r.
      destruct (open_installed _ _ _ Ho k Hd (Hnwk k Hk)) as (pair & Hin & Hp & _). apply (op_imaged _ _ _ Ho). by exists pair. }
  apply wp_bind. eapply wp_mono; [by apply rollback_originals_wp| |intros d' [Hc Hm]%Hkeep; by eapply clean_recoverable].
  intros ok d' (Ht & _ & Hr). destruct (Hkeep d' Ht) as [Hc Hm].
  assert (same_files wk d0 d') as Hs.
  { intros key Hne. symmetry. apply Hr; [done| |done]. intros k Hd Hk. destruct (op_done _ _ _ Ho) as [rest Hl].
    destruct (open_installed _ _ _ Ho k Hd Hk) as (pair & Hin & Hp). exists pair. split; [rewrite Hl; apply elem_of_app; by left|done]. }
  apply wp_bind. eapply wp_mono; [eapply open_close_wp; [exact Hc|apply Ho|exact Hm|apply Ho|done|exact Hs]| |done].
  intros res d'' (Hok & Hs' & Hend & (rs & Hl & Hset & Hcm & _)). rewrite Hok. apply wp_ret. split; simpl.
  - split; [done|]. exists rs. split_and!; [done|done| |by destruct ok]. rewrite Hcm. by destruct ok.
  - rewrite bool_decide_eq_false_2 by (by destruct ok). by eapply same_files_trans.
Qed.

Lemma captured_image pair key : captured pair key ->
  image_of d0 key (before_image (tn_tx_id tn) (tn_effect_id tn) (fst pair) (snd pair)) /\ own (before_image (tn_tx_id tn) (tn_effect_id tn) (fst pair) (snd pair)).
Proof.
  intros Hcap. destruct Hcap as (Hne & write & Hc). destruct (cf_unreserved _ _ _ _ _ _ Hc) as [Hk Hres].
  assert (image_of d0 key (before_image (tn_tx_id tn) (tn_effect_id tn) (fst pair) (snd pair))) as Hi.
  { split; [done|]. eexists _, _, _. split_and!; [done|done|done|apply Hc|done|apply Hc|done]. }
  split; [done|]. split; [done|done| |done|intros _; by exists key]. simpl. by intros target [= <-].
Qed.

Lemma captured_applied pair key : captured pair key -> own (write_applied (tn_tx_id tn) (tn_effect tn) (fst pair)).
Proof.
  intros (_ & write & Hc). destruct (cf_unreserved _ _ _ _ _ _ Hc) as [_ Hres]. split; [done|done| |done|done].
  simpl. by intros target [= <-].
Qed.

(** After the write the files are those of one change more. *)
Lemma open_applied done_ pair rest key records d d' :
  all = (done_ ++ pair :: rest)%list -> captured pair key -> Open done_ records d -> imaged d0 records key ->
  touched_only (eq key) d d' -> d' !! key = ofs_installed_content (snd pair) -> Open (done_ ++ [pair])%list records d'.
Proof.
  intros Hl Hkey Ho Hi Ht Hd. split; try apply Ho.
  - unfold clean_log, log_bytes. rewrite <- (touched_other _ _ _ wk Ht) by apply Hkey. apply Ho.
  - exists rest. by rewrite Hl, <- app_assoc.
  - rewrite (changed_snoc _ _ _ Hkey). intros k Hk. destruct (decide (key = k)) as [<-|Hne]; [by rewrite put_file_eq|].
    rewrite put_file_ne by done. rewrite (op_files _ _ _ Ho) by done. by apply (touched_other _ _ _ _ Ht).
  - intros k (r & [Hr| ->%list_elem_of_singleton]%elem_of_app & Hk); [apply (op_imaged _ _ _ Ho); by exists r|].
    by rewrite (captured_key _ _ _ Hk Hkey).
Qed.

(** A file named once is as captured when its write is published. *)
Lemma targets_clean done_ pair rest key records d :
  all = (done_ ++ pair :: rest)%list -> captured pair key -> Open done_ records d -> NoDup (targets all) -> ~ dirty d key.
Proof.
  intros Hl Hkey Ho Hnd Hd. destruct (open_installed _ _ _ Ho key Hd (proj1 Hkey)) as (pair' & Hin & Hp & _).
  assert (forall p, captured p key -> relative_of root (fst p) = Some key) as Hrel by (intros p (_ & w & Hc); apply Hc).
  unfold targets in Hnd. rewrite Hl, omap_app in Hnd. simpl in Hnd. rewrite (Hrel pair Hkey) in Hnd.
  apply NoDup_app in Hnd as (_ & Hno & _). apply (Hno key); [|by left]. apply list_elem_of_omap. exists pair'. by split; [|apply Hrel].
Qed.

Lemma publish_crash_wp done_ pairs applied_refs records d :
  all = (done_ ++ pairs)%list -> Open done_ records d ->
  wp P (publish_writes root tn all pairs applied_refs)
    (fun res d' => finished res d' /\ (NoDup (targets all) -> ear_status res = EffectApplicationStatus_Applied
       /\ ear_metadata_records res = effect_target_metadata_records (tn_effect tn) (map fst all)))
    (Recoverable wk Mid) d.
Proof.
  revert done_ applied_refs records d. induction pairs as [|[write original] rest IH]; intros done_ applied_refs records d Hl Ho; simpl.
  - apply wp_bind. rewrite app_nil_r in Hl. subst done_.
    eapply wp_mono; [eapply (open_close_wp d records EffectWalStage_Commit); [apply Ho|apply Ho|by eapply open_mid|apply Ho|done|apply Ho]| |done].
    intros res d' (Hok & Hs & Hend & (rs & Hlr & Hset & Hcm & Hshape)). rewrite Hok. apply wp_ret. split; [split|done]; simpl.
    + split; [done|]. exists rs. split_and!; [done|done|by rewrite Hcm|]. intros _. by apply Hshape.
    + eapply same_files_trans; [apply Ho|done].
  - set (pair := (write, original)) in *.
    assert (pair ∈ all) as Hin by (rewrite Hl; apply elem_of_app; right; by left).
    destruct (proj1 (Forall_forall _ _) Hall pair Hin) as [key Hkey]. destruct (captured_image _ _ Hkey) as [Himg Hown].
    apply wp_bind. eapply wp_mono; [apply (open_append_wp _ _ _ (before_image _ _ write original) Ho Hown); split_and!; [done|done|by left]| |done].
    intros r1 d2 [-> Ho2]. set (records2 := (records ++ [_])%list) in *. cbn [negb].
    assert (imaged d0 records2 key) as Hi2 by (eexists; split; [apply elem_of_app; right; by left|exact Himg]).
    apply wp_bind. eapply wp_mono; [apply (apply_write_wp P pair key d2 Hkey)| |].
    2: { intros d' Ht. eapply clean_recoverable.
         - rewrite <- (app_nil_r records2). eapply open_progress; [exact Ho2|constructor|constructor|].
           eapply touched_only_mono; [|exact Ht]. intros k <-. right. by rewrite app_nil_r.
         - rewrite app_nil_r. unfold clean_log, log_bytes. rewrite <- (touched_other _ _ _ wk Ht) by apply Hkey. apply Ho2. }
    intros r3 d3 (Ht & Hok & Hsame). destruct (is_ok r3) eqn:E3; simpl.
    2: { destruct (Hsame Hnf eq_refl) as [-> Hdirty]. eapply wp_mono; [by eapply rollback_result_crash_wp| |done].
         intros res d' Hf. split; [done|]. intros Hnd. by destruct (targets_clean _ _ _ _ _ _ Hl Hkey Ho2 Hnd). }
    pose proof (open_applied _ _ _ _ _ _ _ Hl Hkey Ho2 Hi2 Ht (Hok eq_refl)) as Ho3.
    apply wp_bind. eapply wp_mono; [apply (open_append_wp _ _ _ _ Ho3 (captured_applied _ _ Hkey)); split_and!; [done|done|by right]| |done].
    intros r4 d4 [-> Ho4]. cbn [negb]. eapply (IH (done_ ++ [pair])%list); [by rewrite Hl, <- app_assoc|exact Ho4].
Qed.

End publication.
