(* ===== verification/EffectSafety.v ===== *)
(** * Claims about effect transactions

    [apply_file_effect_transaction_with_provenance_under_lock] against the meaning of an effect in
    [EffectPlan]: what its status says whatever faults occur, and that crashes never leave a part of an
    effect behind once the log has been reconciled. *)

From S2P Require Import Prelude RustStr Contracts OperationContracts Diagnostics StatePaths EffectTypes CrashIo EffectStore EffectLog EffectCrash EffectRecovery EffectPlan EffectAtomic.

Local Open Scope string_scope.

(** Operations do not fail, but the process may die in any of them. *)
Definition crash_only (f : Fault) : Prop := match f with Fails _ => False | _ => True end.

Lemma crash_only_never_fails : never_fails crash_only.
Proof. by intros p []. Qed.

(** Reconciling again and again, each time with the faults of a script. *)
Definition reconcile_all {codec : EffectCodec} (wal : string) (scripts : list (list Fault)) (d : Disk) : Disk :=
  foldl (fun d script => snd (fst (reconcile_effects wal d script))) d scripts.

Lemma Forall2_elem_r {A B} (R : A -> B -> Prop) l k y : Forall2 R l k -> y ∈ k -> exists x, x ∈ l /\ R x y.
Proof.
  induction 1 as [|x y' l k HR _ IH]; [by intros ?%elem_of_nil|]. intros [->|Hy]%elem_of_cons; [exists x; split; [by left|done]|].
  destruct (IH Hy) as (x' & Hx & HR'). exists x'. split; [by right|done].
Qed.

Section effect.
Context {codec : EffectCodec} (root : EffectRoot) (wal : string) (wk : Key).
Context (effect : ToolEffectContractDocument) (payloads : list EffectApplicationPayload) (tx : string) (d0 : Disk).
Hypothesis Hwk : normalized_effect_relative_path wal = Some wk.

Notation writes := (te_write_set (ted_tool_effect_contract effect)).

(** No write of the effect names the log itself. *)
Definition spares_log : Prop := forall write content, write ∈ writes -> asked payloads d0 write ≠ Some (wk, content).

Hypothesis Hspare : spares_log.

(** The effect may be applied to the disk: its contract is valid, what it reads is fresh, and every write
    names an unreserved file that satisfies its guard. *)
Definition admissible : Prop :=
  error_count (validate_tool_effect effect) = 0
  /\ Forall (read_guard root d0) (te_read_set (ted_tool_effect_contract effect))
  /\ Forall (fun write => exists key content, asked payloads d0 write = Some (key, content) /\ reserved_key key = None /\ write_guard d0 write key) writes.

Definition named_by_effect (key : Key) : Prop := exists write content, write ∈ writes /\ asked payloads d0 write = Some (key, content).

(** What a status promises. *)
Definition status_holds (res : EffectApplicationResult) (d : Disk) : Prop :=
  match ear_status res with
  | EffectApplicationStatus_Applied => admissible /\ same_files wk (effect_applied payloads d0 effect) d
  | EffectApplicationStatus_RolledBack | EffectApplicationStatus_Blocked => same_files wk d0 d
  | EffectApplicationStatus_RollbackFailed => True
  end.

Definition effect_frame (d : Disk) : Prop := touched_only (fun key => key = wk \/ named_by_effect key) d0 d.

Section pairs.
Context (pairs : list (PreparedWrite * OriginalFileState)).
Hypothesis Hpairs : Forall2 (fun write pair => exists key, captured_for root payloads d0 write pair key) writes pairs.

Lemma pairs_captured : Forall (fun pair => exists key, captured root payloads wk d0 pair key) pairs.
Proof.
  apply Forall_forall. intros pair Hin. destruct (Forall2_elem_r _ _ _ _ Hpairs Hin) as (write & Hw & key & Hc).
  exists key. split; [|by exists write]. intros ->. exact (Hspare write _ Hw (cf_asked _ _ _ _ _ _ Hc)).
Qed.

Lemma pairs_changed : changed root d0 pairs = effect_applied payloads d0 effect.
Proof.
  unfold changed, effect_applied. f_equal. pose proof Hpairs as H. clear Hspare Hpairs. induction H as [|write pair ws ps (key & Hc) _ IH]; simpl; [done|].
  rewrite (cf_asked _ _ _ _ _ _ Hc). unfold change_of at 1. rewrite (cf_relative _ _ _ _ _ _ Hc). simpl. f_equal. exact IH.
Qed.

Lemma pairs_named key : named root payloads wk d0 pairs key -> named_by_effect key.
Proof.
  intros (pair & Hin & Hne & write' & Hc'). destruct (Forall2_elem_r _ _ _ _ Hpairs Hin) as (write & Hw & key' & Hc).
  pose proof (cf_relative _ _ _ _ _ _ Hc) as H. rewrite (cf_relative _ _ _ _ _ _ Hc') in H. simplify_eq.
  exists write. eexists. split; [done|]. apply Hc.
Qed.

Lemma pairs_admissible : error_count (validate_tool_effect effect) = 0 ->
  Forall (read_guard root d0) (te_read_set (ted_tool_effect_contract effect)) -> admissible.
Proof.
  intros He Hr. split_and!; [done|done|]. pose proof Hpairs as H. clear Hspare Hpairs He Hr. induction H as [|write pair ws ps (key & Hc) _ IH]; constructor; [|done].
  exists key. eexists. split_and!; apply Hc.
Qed.

End pairs.

Lemma frame_refl : effect_frame d0.
Proof. apply touched_only_refl. Qed.

(** ** Any faults *)

Lemma inner_status_wp P authority :
  wp P (apply_file_effect_transaction_with_wal_inner root effect payloads wal tx authority)
    (fun res d => effect_frame d /\ status_holds res d) effect_frame d0.
Proof.
  unfold apply_file_effect_transaction_with_wal_inner. set (tn := {| tn_effect := effect |}).
  apply wp_bind. eapply wp_mono; [apply observes_prepare_transaction, frame_refl| |done].
  intros [pairs|reasons] d [-> Hprep]; [|apply wp_ret; split; [apply frame_refl|done]].
  destruct (Hprep pairs eq_refl) as (He & Hr & Hp). pose proof (pairs_captured pairs Hp) as Hc.
  assert (forall d, framed root payloads wk d0 pairs d -> effect_frame d) as Hframe.
  { intros d Hf. eapply touched_only_mono; [|exact Hf]. intros k [->|Hk]; [by left|right; by eapply pairs_named]. }
  apply wp_bind. eapply wp_mono; [apply (append_files_wp wk tn Hwk)| |].
  2: { intros d Hs. apply Hframe. eapply framed_same; [exact Hs|apply touched_only_refl]. }
  intros r d Hs. destruct (is_ok r); simpl.
  - eapply wp_mono; [eapply (publish_files_wp root payloads wk d0 tn pairs Hwk Hc P [] pairs []); [done|exact Hs]| |done].
    intros res d' [Hf Ht]. split; [by apply Hframe|]. unfold status_holds. destruct (ear_status res); [|done..].
    rewrite <- (pairs_changed pairs Hp). split; [by apply (pairs_admissible pairs)|done].
  - apply wp_ret. split; [|done]. apply Hframe. eapply framed_same; [exact Hs|apply touched_only_refl].
Qed.

(** ** Crashes *)

Context {laws : EffectCodecLaws codec} (W : list EffectWalRecord).
Hypothesis Hlog : clean_log wk d0 W.
Hypothesis HW : settled_log W.
Hypothesis Hfresh : forall record, record ∈ W -> ewr_tx_id record ≠ tx.

Notation applied := (effect_applied payloads d0 effect).
Notation effect_id := (te_id (ted_tool_effect_contract effect)).
Notation Mid begin := (InProgress wk d0 applied tx W begin effect_id).
Notation Ended begin := (Done wk d0 applied tx W begin effect_id).

Lemma uncommitted_start : ~ committed tx W.
Proof. intros (r & Hr & Ht & _). by apply Hfresh in Hr. Qed.

(** The records of a transaction that committed. *)
Definition commit_log (begin : EffectWalRecord) (rs : list EffectWalRecord) : Prop :=
  exists middle, rs = (W ++ (begin :: middle) ++ [record_stage tx effect_id EffectWalStage_Commit])%list
    /\ Forall (quiet tx effect_id) middle.

Definition begin_of (authority : option (EffectExecutionProvenance * EffectReplayCommitBinding)) : EffectWalRecord :=
  match authority with
  | None => record_begin tx effect_id
  | Some (provenance, binding) => begin_with_authority tx effect_id provenance binding
  end.

(** Where a run without failing operations ends. *)
Definition crash_end (begin : EffectWalRecord) (res : EffectApplicationResult) (d : Disk) : Prop :=
  Ended begin d
  /\ (exists rs, clean_log wk d rs /\ settled_log rs /\ (committed tx rs <-> ear_status res = EffectApplicationStatus_Applied)
     /\ (ear_status res = EffectApplicationStatus_Applied -> commit_log begin rs))
  /\ if bool_decide (ear_status res = EffectApplicationStatus_Applied) then same_files wk applied d else same_files wk d0 d.

Lemma finished_end tn begin pairs res d :
  tn_tx_id tn = tx -> tn_effect tn = effect -> changed root d0 pairs = applied ->
  finished root wk d0 tn pairs W begin res d -> crash_end begin res d.
Proof.
  intros Ht He Hc [[Hend (rs & Hl & Hs & Hcm & Hshape)] Hf]. rewrite Hc in *. split_and!; [|clear Hend|exact Hf].
  { unfold tn_effect_id in Hend. by rewrite Ht, He in Hend. }
  rewrite Ht in *. exists rs. split_and!; [done|done|done|]. intros Ha. destruct (Hshape Ha) as (records & (middle & -> & Hq) & ->).
  unfold tn_effect_id in *. rewrite ?He, ?Ht in *. by exists middle.
Qed.

(** Between the preparation and the end. *)
Lemma commit_wp P authority pairs tn : never_fails P -> names_external_publication (begin_of authority) = false ->
  tn_effect tn = effect -> tn_wal_relative_path tn = wal -> tn_tx_id tn = tx ->
  Forall2 (fun write pair => exists key, captured_for root payloads d0 write pair key) writes pairs ->
  wp P (let! begun := append_for tn (begin_record tn authority) in
        if negb (is_ok begun) then io_ret (blocked_effect_application_result (tn_effect_id tn) [EffectReason_WalAppendFailed] (tn_errors tn) (tn_warnings tn))
        else publish_writes root tn pairs pairs [])
    (fun res d => crash_end (begin_of authority) res d
       /\ (NoDup (targets root pairs) -> ear_status res = EffectApplicationStatus_Applied
            /\ ear_metadata_records res = effect_target_metadata_records effect (map fst pairs)))
    (Recoverable wk (Mid (begin_of authority))) d0.
Proof.
  intros Hnf Hext Heff Hwal Htx Hp. pose proof (pairs_captured pairs Hp) as Hcap. pose proof (pairs_changed pairs Hp) as Hch.
  assert (Mid (begin_of authority) d0 W) as Hm.
  { exists []. rewrite app_nil_r. split_and!; [done|constructor|by left|]. apply Progress_open; [by left|by intros r ?%elem_of_nil|by left]. }
  assert (begin_record tn authority = begin_of authority) as ->.
  { unfold begin_record, begin_of, tn_effect_id. by rewrite Heff, Htx. }
  set (begin := begin_of authority) in *.
  assert (own_record wk d0 tx begin) as Hown.
  { split; [by (subst begin; destruct authority as [[]|])|apply Hext|by (subst begin; destruct authority as [[]|])..]. }
  assert (ewr_stage begin = EffectWalStage_Begin) as Hst by (by subst begin; destruct authority as [[]|]). clearbody begin.
  apply wp_bind. unfold append_for. rewrite Hwal.
  eapply wp_mono; [apply (append_record_wp wal wk Hwk (Mid begin) (InProgress_files wk d0 _ _ W _ _) P d0 W begin Hlog Hm)| |done].
  { exists [begin]. split_and!; [done|by apply Forall_singleton|apply begun_shaped; by exists []|].
    apply Progress_open; [right; by eexists _, _|intros r ->%list_elem_of_singleton; by rewrite Hst|by left]. }
  intros r d (Hs & Hres & Hok). rewrite (Hok Hnf) in *. cbn [negb].
  assert (normalized_effect_relative_path (tn_wal_relative_path tn) = Some wk) as Hwk' by (by rewrite Hwal).
  assert (forall record, record ∈ W -> ewr_tx_id record ≠ tn_tx_id tn) as Hfresh' by (by rewrite Htx).
  eapply wp_mono; [eapply (publish_crash_wp root payloads wk d0 tn pairs Hwk' Hcap W P HW Hfresh' Hnf begin Hst [] pairs []); [done|]| |].
  - split; [exact Hres|apply Forall_singleton; by rewrite Htx|by exists []|by exists pairs|done|]. by intros key (? & ?%elem_of_nil & _).
  - intros res d' [Hf Hnd]. split; [exact (finished_end tn begin pairs res d' Htx Heff Hch Hf)|]. by rewrite <- Heff.
  - unfold tn_effect_id. by rewrite Hch, Htx, Heff.
Qed.

Lemma inner_crash_wp P authority : never_fails P -> names_external_publication (begin_of authority) = false ->
  wp P (apply_file_effect_transaction_with_wal_inner root effect payloads wal tx authority) (crash_end (begin_of authority)) (Recoverable wk (Mid (begin_of authority))) d0.
Proof.
  intros Hnf Hext. assert (Recoverable wk (Mid (begin_of authority)) d0) as Hrec.
  { eapply clean_recoverable; [|exact Hlog]. exists []. rewrite app_nil_r. split_and!; [done|constructor|by left|].
    apply Progress_open; [by left|by intros r ?%elem_of_nil|by left]. }
  unfold apply_file_effect_transaction_with_wal_inner. set (tn := {| tn_effect := effect |}).
  apply wp_bind. eapply wp_mono; [by apply observes_prepare_transaction| |done].
  intros [pairs|reasons] d [-> Hprep].
  - destruct (Hprep pairs eq_refl) as (_ & _ & Hp). eapply wp_mono; [by apply (commit_wp P authority pairs tn)|by intros res d' []|done].
  - apply wp_ret. split_and!; [|exists W; split_and!; [done|done|split; [by intros ?%uncommitted_start|done]|done]|done].
    pose proof (settled_done wk d0 applied tx W HW Hfresh (begin_of authority) effect_id d0 []) as Hd.
    rewrite app_nil_r in Hd. apply Hd; [constructor|by left|done|by apply Progress_open; [left|intros r ?%elem_of_nil|left]|by apply HW].
Qed.

End effect.

(** ** Reconciling until it succeeds *)

Section reconcile.
Context {codec : EffectCodec} {laws : EffectCodecLaws codec} (wal : string) (wk : Key).
Hypothesis Hwk : normalized_effect_relative_path wal = Some wk.

Lemma reconcile_all_recoverable d0 d1 tx W begin eid scripts d :
  settled_log W -> (forall record, record ∈ W -> ewr_tx_id record ≠ tx) -> ewr_stage begin = EffectWalStage_Begin ->
  Recoverable wk (InProgress wk d0 d1 tx W begin eid) d -> Recoverable wk (InProgress wk d0 d1 tx W begin eid) (reconcile_all wal scripts d).
Proof.
  intros HW Hf Hb. revert d. unfold reconcile_all. induction scripts as [|script scripts IH]; intros d Hr; simpl; [done|]. apply IH.
  pose proof (reconcile_effects_wp wal wk Hwk d0 d1 tx W HW Hf begin eid Hb (fun _ => True) d Hr script) as H.
  destruct (reconcile_effects wal d script) as [[[res|] d'] fs']; simpl; by apply H, Forall_true.
Qed.

Lemma reconcile_calm : calm (reconcile_effects wal).
Proof.
  repeat first [calm_step|progress (unfold reconcile_effects, repair_effect_wal_tail_under_lock, authority_leaf_exists, repair_effect_wal_tail_retained, read_authority_file,
    read_file, append_file, truncate_file, recover_effect_wal_under_publication_root, recover_records, recover_transaction,
    rollback_wal_before_images_retained, rollback_before_image, io_and_then, read_optional_authority_file, atomic_replace_file_retained,
    remove_and_sync, remove_authority_file_retained, append_effect_wal_record_for_publication, bad_path, replace_file, remove_file, sync_directory)].
Qed.

(** What one undisturbed reconciliation leaves. *)
Definition reconciled (d0 d1 : Disk) (tx : string) (W : list EffectWalRecord) (begin : EffectWalRecord) (eid : StableId) (d : Disk) : Prop :=
  exists r d', runs (reconcile_effects wal) d = (Returned (Ok r), d')
    /\ ewv_status r ≠ EffectWalRecoveryStatus_RecoveryFailed /\ Done wk d0 d1 tx W begin eid d'.

Lemma recoverable_reconciled d0 d1 tx W begin eid scripts d :
  settled_log W -> (forall record, record ∈ W -> ewr_tx_id record ≠ tx) -> ewr_stage begin = EffectWalStage_Begin ->
  Recoverable wk (InProgress wk d0 d1 tx W begin eid) d -> reconciled d0 d1 tx W begin eid (reconcile_all wal scripts d).
Proof.
  intros HW Hf Hb Hr. apply (reconcile_all_recoverable _ _ _ _ _ _ scripts _ HW Hf Hb) in Hr.
  pose proof (wp_runs _ _ _ _ _ (reconcile_effects_wp wal wk Hwk d0 d1 tx W HW Hf begin eid Hb crash_only _ Hr)) as H.
  destruct (reconcile_calm (reconcile_all wal scripts d)) as (res & d' & E). unfold reconciled, runs in *. rewrite E in *. simpl in *.
  destruct H as (_ & Hres & Hok). pose proof crash_only_never_fails as Hnf.
  destruct res as [r|e]; [|by specialize (Hok Hnf)].
  destruct (Hres r eq_refl) as (_ & Hdone & Hst). specialize (Hst Hnf). exists r, d'. by split_and!; [|auto|auto].
Qed.

(** A settled log stays settled, with the same commits and the same files. *)
Lemma settled_reconciled rs tx scripts d : clean_log wk d rs -> settled_log rs ->
  exists r d' rs', runs (reconcile_effects wal) (reconcile_all wal scripts d) = (Returned (Ok r), d')
    /\ ewv_status r ≠ EffectWalRecoveryStatus_RecoveryFailed
    /\ clean_log wk d' rs' /\ settled_log rs' /\ (committed tx rs' <-> committed tx rs) /\ same_files wk d d'.
Proof.
  intros Hc Hs. pose (used := {[ tx ]} ∪ list_to_set (C := gset string) (map ewr_tx_id rs)).
  assert (fresh used ∉ used) as Hfresh by apply is_fresh.
  assert (forall record, record ∈ rs -> ewr_tx_id record ≠ fresh used) as Hf.
  { intros record Hr He. apply Hfresh. rewrite <- He. subst used. apply elem_of_union_r, elem_of_list_to_set, list_elem_of_fmap. by exists record. }
  destruct (recoverable_reconciled d d (fresh used) rs (record_begin (fresh used) (mk_StableId "")) (mk_StableId "") scripts d Hs Hf eq_refl)
    as (r & d' & Hr & Hst & records & Hl & Hset & Ho & _ & _ & Hfiles).
  { eapply clean_recoverable; [|exact Hc]. exists []. rewrite app_nil_r. split_and!; [done|constructor|by left|].
    apply Progress_open; [by left|by intros r ?%elem_of_nil|by left]. }
  exists r, d', (rs ++ records)%list. split_and!; [done|done|done|done| |by destruct Hfiles as [[_ ?]|[_ ?]]].
  rewrite Forall_forall in Ho. split; intros (c & Hin & Ht & Hcs); exists c; split_and!; try done; [|apply elem_of_app; by left].
  apply elem_of_app in Hin as [|Hin]; [done|]. destruct Hfresh. rewrite <- (or_tx _ _ _ _ (Ho c Hin)), Ht. subst used. set_solver.
Qed.

End reconcile.

(** ** The claims *)

(** The files of [d], apart from the log and from cleanup files kept beside those of [K]. *)
Definition same_apart (K : Key -> Prop) (wk : Key) (d tree : Disk) : Prop :=
  forall key, key ≠ wk -> tree !! key = d !! key \/ (d !! key = None /\ cleanup_beside K key).

Lemma same_apart_kept K wk d d' tree : same_files wk d d' -> kept_beside K d' tree -> same_apart K wk d tree.
Proof. intros Hs Hk key Hne. rewrite (Hs key Hne). apply Hk. Qed.

(** What a status promises of the whole directory tree. *)
Definition status_holds_in_tree {codec : EffectCodec} (root : EffectRoot) (wk : Key) (effect : ToolEffectContractDocument)
    (payloads : list EffectApplicationPayload) (d0 : Disk) (res : EffectApplicationResult) (tree : Disk) : Prop :=
  let K := named_by_effect effect payloads d0 in
  match ear_status res with
  | EffectApplicationStatus_Applied =>
      admissible root effect payloads d0 /\ same_apart K wk (effect_applied payloads d0 effect) tree
  | EffectApplicationStatus_RolledBack | EffectApplicationStatus_Blocked => same_apart K wk d0 tree
  | EffectApplicationStatus_RollbackFailed => True
  end.

(** C12: Whatever faults occur, only the log and the files named by the writes change, and the returned
    status is true: applied means that the provenance and the binding were valid, the contract had no
    errors, every expected digest of a read or a write matched, every write met its guard outside the
    reserved paths, and the files are exactly those the effect asks for; rolled back and blocked mean that
    no file differs.  This is said of the whole directory tree as the calls of the run leave it, so up to
    the cleanup files that replacements and removals keep: names that were free, of the quarantine form, in
    the directory of a file the effect names.  No file that existed is lost or changed by them. *)
Theorem effect_status_truthful {codec : EffectCodec} root wal wk effect payloads tx provenance binding d0 fs :
  normalized_effect_relative_path wal = Some wk -> spares_log wk effect payloads d0 ->
  let '(outcome, d, _) :=
    apply_file_effect_transaction_with_provenance_under_lock root effect payloads wal tx provenance binding d0 fs in
  let K := named_by_effect effect payloads d0 in
  forall tree, tree_of K d0 d tree ->
  (forall key, key ≠ wk -> ~ K key -> tree !! key = d0 !! key \/ (d0 !! key = None /\ cleanup_beside K key))
  /\ forall res, outcome = Returned res ->
     (ear_status res = EffectApplicationStatus_Applied ->
        verify_provenance provenance = true /\ validate_effect_replay_binding binding = Ok tt)
     /\ status_holds_in_tree root wk effect payloads d0 res tree.
Proof.
  intros Hwk Hspare. unfold apply_file_effect_transaction_with_provenance_under_lock, status_holds_in_tree.
  destruct (verify_provenance provenance);
    [|intros tree Hk%tree_of_keeps; split; [intros key _ _; apply Hk|intros res [= <-]; split; [done|intros key _; apply Hk]]].
  destruct (validate_effect_replay_binding binding) as [[]|e];
    [|intros tree Hk%tree_of_keeps; split; [intros key _ _; apply Hk|intros res [= <-]; split; [done|intros key _; apply Hk]]].
  cbn [negb]. pose proof (inner_status_wp root wal wk effect payloads tx d0 Hwk Hspare (fun _ => True) (Some (provenance, binding)) fs) as H.
  destruct (apply_file_effect_transaction_with_wal_inner _ _ _ _ _ _ d0 fs) as [[outcome d] fs'].
  assert (effect_frame wk effect payloads d0 d) as Hframe by (destruct outcome; apply H, Forall_true; done).
  intros tree Hk%tree_of_keeps. split.
  - intros key Hne Hn. destruct (Hframe key) as [->|[|]]; [apply Hk|done..].
  - intros res ->. split; [done|]. destruct (H ltac:(by apply Forall_true)) as (_ & _ & Hst). unfold status_holds in Hst.
    destruct (ear_status res); [split; [apply Hst|]| | |done]; (eapply same_apart_kept; [apply Hst|done]).
Qed.

(** What the log and the files say after a reconciliation: committed with the files the effect asks for, or
    not committed with the files as they were; and a status that had been returned agrees. *)
Definition all_or_nothing {codec : EffectCodec} (wk : Key) (effect : ToolEffectContractDocument) (payloads : list EffectApplicationPayload)
    (tx : string) (d0 : Disk) (outcome : Outcome EffectApplicationResult) (rs : list EffectWalRecord) (d : Disk) : Prop :=
  (committed tx rs /\ same_files wk (effect_applied payloads d0 effect) d
   /\ forall res, outcome = Returned res -> ear_status res = EffectApplicationStatus_Applied)
  \/ (~ committed tx rs /\ same_files wk d0 d
     /\ forall res, outcome = Returned res -> ear_status res ≠ EffectApplicationStatus_Applied).

(** C4: Crash atomicity.  If operations do not fail but the process may die in any of them, leaving a torn
    log line or a half-replaced file, then after any number of reconciliations that fail or die themselves,
    one that runs undisturbed succeeds, the log has no open transaction, and either it has the commit and
    the files are those the effect asks for, or it has none and the files are those before the effect.  A
    returned status of applied implies the former, any other status the latter. *)
Theorem effect_crash_atomic {codec : EffectCodec} {laws : EffectCodecLaws codec} root wal wk effect payloads tx provenance binding d0 W fs scripts :
  normalized_effect_relative_path wal = Some wk -> spares_log wk effect payloads d0 ->
  clean_log wk d0 W -> settled_log W -> (forall record, record ∈ W -> ewr_tx_id record ≠ tx) ->
  names_external_publication (begin_with_authority tx (te_id (ted_tool_effect_contract effect)) provenance binding) = false ->
  Forall crash_only fs ->
  let '(outcome, d, _) :=
    apply_file_effect_transaction_with_provenance_under_lock root effect payloads wal tx provenance binding d0 fs in
  exists r d' rs, runs (reconcile_effects wal) (reconcile_all wal scripts d) = (Returned (Ok r), d')
    /\ ewv_status r ≠ EffectWalRecoveryStatus_RecoveryFailed
    /\ clean_log wk d' rs /\ settled_log rs /\ all_or_nothing wk effect payloads tx d0 outcome rs d'.
Proof.
  intros Hwk Hspare Hlog HW Hfresh Hext Hfs. unfold apply_file_effect_transaction_with_provenance_under_lock.
  destruct (settled_reconciled wal wk Hwk W tx scripts d0 Hlog HW) as (r & d' & rs & Hr & Hst & Hl & Hset & Hcm & Hf).
  assert (~ committed tx rs) as Hno by (rewrite Hcm; intros (c & Hin & Ht & _); by apply Hfresh in Hin).
  destruct (verify_provenance provenance); [destruct (validate_effect_replay_binding binding) as [[]|e]|]; cbn [negb];
    [|exists r, d', rs; split_and!; try done; right; split_and!; [done|done|by intros res [= <-]]..].
  clear r d' rs Hr Hst Hl Hset Hcm Hf Hno.
  pose proof (inner_crash_wp root wal wk effect payloads tx d0 Hwk Hspare W Hlog HW Hfresh crash_only (Some (provenance, binding))
    crash_only_never_fails Hext fs Hfs) as H.
  destruct (apply_file_effect_transaction_with_wal_inner _ _ _ _ _ _ d0 fs) as [[[res|] d] fs'].
  - destruct H as (_ & _ & (rs0 & Hl0 & Hs0 & Hc0 & _) & Hfiles).
    destruct (settled_reconciled wal wk Hwk rs0 tx scripts d Hl0 Hs0) as (r & d' & rs & Hr & Hst & Hl & Hset & Hcm & Hf).
    exists r, d', rs. split_and!; [done..|]. rewrite <- Hcm in Hc0. case_bool_decide as Ha; [left|right]; rewrite Hc0;
      (split_and!; [done|by eapply same_files_trans|by intros ? [= <-]]).
  - destruct (recoverable_reconciled wal wk Hwk d0 _ tx W (begin_of effect tx (Some (provenance, binding))) _ scripts d HW Hfresh eq_refl H) as (r & d' & Hr & Hst & records & Hl & Hset & _ & _ & _ & Hf).
    exists r, d', (W ++ records)%list. split_and!; [done..|]. by destruct Hf as [[Hc Hs]|[Hc Hs]]; [left|right].
Qed.
