(* ===== verification/EffectPreflight.v ===== *)
(** * What a preflight promises

    [preflight_file_effect_transaction_under_lock] runs the checks of the application and writes nothing.
    Without faults its answer decides the application that follows: the same reasons when it blocks, and
    for distinct targets the application and the same metadata when it is ready. *)

From S2P Require Import Prelude RustStr Contracts OperationContracts Diagnostics StatePaths EffectTypes CrashIo EffectStore EffectLog EffectCrash EffectRecovery EffectPlan EffectAtomic EffectSafety.

Local Open Scope string_scope.

Lemma observes_answers {A} (m : Io A) R d : calm m -> observes m R -> exists a, answers m d a /\ R a d.
Proof.
  intros Hc Ho. destruct (Hc d) as (a & d' & E). exists a.
  pose proof (Ho (fun _ => False) (fun _ => True) d I [] ltac:(constructor)) as H. unfold answers. rewrite E in *. destruct H as (_ & -> & HR). done.
Qed.

Section preflight.
Context {codec : EffectCodec} (root : EffectRoot) (payloads : list EffectApplicationPayload).

Ltac calm_store :=
  repeat first
    [ calm_step
    | progress unfold validate_file_backed_reads_retained, validate_file_backed_read, prepare_file_writes, prepare_file_write,
        revalidate_prepared_writes_retained, revalidate_prepared_write, authority_leaf_exists, expected_hash_holds, content_for,
        appended_content, read_source_file, read_authority_file, read_file, bad_path ].

Lemma calm_reads effect : calm (validate_file_backed_reads_retained root effect).
Proof. calm_store. Qed.
Lemma calm_prepare effect reasons : calm (prepare_file_writes root effect payloads reasons).
Proof. calm_store. Qed.
Lemma calm_revalidate prepared : calm (revalidate_prepared_writes_retained root prepared).
Proof. calm_store. Qed.

Lemma answers_exists key d : answers (authority_leaf_exists (Some key)) d (Ok (negb (is_none (d !! key)))).
Proof.
  unfold authority_leaf_exists, answers. rewrite (answers_bind _ _ d _ (answers_read key d)). by destruct (d !! key).
Qed.

Lemma answers_fresh key expected_hash d : answers (expected_hash_holds (Some key) expected_hash) d
  (match expected_hash with
   | None => true
   | Some expected => match d !! key with Some content => bool_decide (sha256_content_hash content = expected) | None => false end
   end).
Proof.
  destruct expected_hash as [expected|]; [|done]. unfold expected_hash_holds, answers. rewrite (answers_bind _ _ d _ (answers_read key d)).
  by destruct (d !! key).
Qed.

Definition content_of (mode : PreparedAccessMode) (current payload : option bytes) : Result bytes EffectApplicationReason :=
  match mode, payload with
  | PreparedAccessMode_Delete, _ => Ok []
  | _, None => Err EffectReason_MissingPayloadForWrite
  | PreparedAccessMode_Append, Some payload => Ok (default [] current ++ payload)%list
  | _, Some payload => Ok payload
  end.

Lemma answers_content mode key payload d :
  answers (content_for mode (Some key) payload) d (content_of mode (d !! key) payload).
Proof.
  destruct mode, payload as [payload|]; try done. unfold content_for, appended_content, answers.
  rewrite (answers_bind _ _ d _ (answers_read key d)). by destruct (d !! key).
Qed.

Lemma answers_optional key d : answers (read_optional_authority_file (Some key)) d (Ok (d !! key)).
Proof.
  unfold read_optional_authority_file, answers. rewrite (answers_bind _ _ d _ (answers_read key d)). by destruct (d !! key).
Qed.

(** What has been revalidated can be captured, unchanged, from the same disk. *)
Lemma capture_revalidated d prepared refreshed :
  answers (revalidate_prepared_write root prepared) d (Ok refreshed) ->
  exists original, answers (capture_original root refreshed) d (Some (refreshed, original)).
Proof.
  unfold answers at 1, revalidate_prepared_write, relative_of. destruct (negb _); [done|].
  destruct (retained_components root (pw_physical_reference prepared)) as [key|] eqn:Ek; [|done].
  rewrite (answers_bind _ _ d _ (answers_exists key d)).
  destruct (presence_reason _ _) eqn:Epres; [done|]. rewrite (answers_bind _ _ d _ (answers_fresh key (pw_expected_hash prepared) d)).
  match goal with |- context [negb ?b] => destruct b eqn:Efresh end; [|done]. simpl.
  rewrite (answers_bind _ _ d _ (answers_content _ key _ d)).
  destruct (content_of _ _ _) as [content|reason] eqn:Econtent; [|done]. intros [= <-].
  unfold capture_original, relative_of, answers. simpl. rewrite Ek.
  setoid_rewrite (answers_bind _ _ d _ (answers_optional key d)).
  assert (option_any (fun expected => negb (eqb (negb (is_none (d !! key))) expected)) (expected_presence (pw_access_mode prepared)) = false) as ->
    by (destruct (pw_access_mode prepared), (d !! key); done).
  assert (option_any (fun expected => negb (negb (is_none (d !! key))) || negb (bool_decide (sha256_content_hash (default [] (d !! key)) = expected)))
    (pw_expected_hash prepared) = false) as ->.
  { destruct (pw_expected_hash prepared) as [expected|]; [|done]. destruct (d !! key); [|done]. simpl in *. by rewrite Efresh. }
  case_bool_decide as Ha; [|by eexists].
  rewrite Ha in Econtent. destruct (pw_payload_content prepared) as [payload|]; [|done]. simpl in Econtent. injection Econtent as <-. by eexists.
Qed.

Lemma answers_revalidate prepared d : exists r, answers (revalidate_prepared_write root prepared) d r.
Proof.
  destruct (observes_answers (revalidate_prepared_write root prepared) _ d ltac:(calm_store) (observes_revalidate root prepared)) as (r & Hr & _).
  by exists r.
Qed.

Lemma capture_all_revalidated d writes refreshed :
  answers (revalidate_prepared_writes_retained root writes) d ([], refreshed) ->
  exists pairs, answers (capture_originals_retained root refreshed) d (Some pairs) /\ map fst pairs = refreshed.
Proof.
  assert (exists results, answers (io_map (revalidate_prepared_write root) writes) d results
    /\ (errs results = [] -> exists pairs, answers (capture_originals_retained root (oks results)) d (Some pairs) /\ map fst pairs = oks results))
    as (results & Hr & Hc).
  { induction writes as [|w writes (results & Hr & IH)]; [exists []; split; [done|]; by exists []|].
    destruct (answers_revalidate w d) as [r Hw]. exists (r :: results). split.
    - unfold answers. simpl. rewrite (answers_bind _ _ d _ Hw). by rewrite (answers_bind _ _ d _ Hr).
    - intros He. destruct r as [refreshed'|e]; [|done]. simpl in *. destruct (IH He) as (pairs & Hp & Hm).
      destruct (capture_revalidated d w refreshed' Hw) as [original Ho]. exists ((refreshed', original) :: pairs).
      split; [|simpl; by f_equal]. unfold answers. rewrite (answers_bind _ _ d _ Ho). by rewrite (answers_bind _ _ d _ Hp). }
  unfold revalidate_prepared_writes_retained, answers at 1. rewrite (answers_bind _ _ d _ Hr). intros [= He <-]. by apply Hc.
Qed.

(** The preflight and the preparation of the application go the same way. *)
Lemma preflight_prepares effect d :
  exists r, answers (preflight_file_effect_transaction_under_lock root effect payloads) d r
    /\ match epr_status r with
       | EffectPreflightStatus_Ready => exists pairs, answers (prepare_transaction root effect payloads) d (Ok pairs)
           /\ epr_metadata_records r = effect_target_metadata_records effect (map fst pairs)
       | EffectPreflightStatus_Blocked => answers (prepare_transaction root effect payloads) d (Err (epr_reasons r))
       end.
Proof.
  destruct (observes_answers _ _ d (calm_reads effect) (observes_reads_all root effect)) as (read_reasons & Hreads & _).
  set (reasons0 := ((if (0 <? error_count (validate_tool_effect effect))%nat then [EffectReason_EffectValidationErrors] else []) ++ read_reasons)%list).
  destruct (observes_answers _ _ d (calm_prepare effect reasons0) (observes_prepare_all root payloads effect reasons0)) as ([reasons prepared] & Hprep & Hp).
  unfold answers. destruct (prepare_transaction root effect payloads d []) as [[o d'] fs'] eqn:Ep. unfold prepare_transaction in Ep.
  rewrite (answers_bind _ _ d _ Hreads) in Ep. fold reasons0 in Ep. rewrite (answers_bind _ _ d _ Hprep) in Ep.
  unfold preflight_file_effect_transaction_under_lock. rewrite (answers_bind _ _ d _ Hreads). fold reasons0. rewrite (answers_bind _ _ d _ Hprep).
  destruct reasons as [|reason reasons]; [|eexists; split; [reflexivity|by injection Ep as <- <- <-]].
  destruct Hp as (_ & writes & Hw & _); [done|]. simpl in Hw. subst prepared. cbn [is_nil negb] in *.
  destruct (observes_answers _ (fun _ _ => True) d (calm_revalidate writes)) as ([new_reasons refreshed] & Hrev & _).
  { eapply observes_bind; [apply (observes_map _ _ _ (observes_revalidate root))|]. intros results. by apply observes_ret. }
  rewrite (answers_bind _ _ d _ Hrev) in Ep. rewrite (answers_bind _ _ d _ Hrev).
  destruct new_reasons as [|reason new_reasons]; [|eexists; split; [reflexivity|by injection Ep as <- <- <-]].
  destruct (capture_all_revalidated d writes refreshed Hrev) as (pairs & Hc & Hm). cbn [is_nil negb] in *.
  rewrite (answers_bind _ _ d _ Hc) in Ep. injection Ep as <- <- <-.
  eexists. split; [reflexivity|]. simpl. exists pairs. by rewrite Hm.
Qed.

Ltac calm_publication :=
  repeat first
    [ calm_step
    | progress unfold append_for, append_effect_wal_record_for_publication, append_file, rollback_wal_transaction_result,
        rollback_originals_for_publication, rollback_original, apply_prepared_write_for_publication, read_optional_authority_file,
        read_authority_file, read_file, atomic_replace_file_retained, remove_and_sync, remove_authority_file_retained, io_and_then,
        replace_file, remove_file, sync_directory, bad_path ].

Lemma calm_publish tn all pairs applied_refs : calm (publish_writes root tn all pairs applied_refs).
Proof.
  revert applied_refs. induction pairs as [|[write original] pairs IH]; intros applied_refs; cbn [publish_writes]; cbv zeta; calm_publication.
  apply IH.
Qed.

Lemma calm_commit tn begin blocked pairs :
  calm (io_bind (append_for tn begin) (fun begun => if negb (is_ok begun) then io_ret blocked else publish_writes root tn pairs pairs [])).
Proof. calm_publication. apply calm_publish. Qed.

Lemma answers_prepared effect d pairs : answers (prepare_transaction root effect payloads) d (Ok pairs) ->
  Forall2 (fun write pair => exists key, captured_for root payloads d write pair key) (te_write_set (ted_tool_effect_contract effect)) pairs.
Proof.
  intros Ha. pose proof (observes_prepare_transaction root payloads effect (fun _ => False) (fun _ => True) d I [] ltac:(constructor)) as H.
  unfold answers in Ha. rewrite Ha in H. by destruct H as (_ & _ & H); destruct (H pairs eq_refl) as (_ & _ & ?).
Qed.

Lemma targets_asked writes pairs d :
  Forall2 (fun write pair => exists key, captured_for root payloads d write pair key) writes pairs ->
  targets root pairs = map fst (omap (asked payloads d) writes).
Proof.
  unfold targets. induction 1 as [|write pair writes pairs (key & Hc) _ IH]; [done|]. simpl.
  rewrite (cf_asked _ _ _ _ _ _ Hc), (cf_relative _ _ _ _ _ _ Hc). simpl. f_equal. exact IH.
Qed.

End preflight.

(** C21: A preflight writes nothing, and without faults it decides the application that follows on the same
    disk.  If it blocks, so does the application, for the same reasons and with no file changed; if it is
    ready and no two writes name the same file, the effect is applied: the files are those it asks for, and
    the metadata are those of the preflight. *)
Theorem preflight_decides {codec : EffectCodec} {laws : EffectCodecLaws codec} root wal wk effect payloads tx provenance binding d0 W :
  normalized_effect_relative_path wal = Some wk -> spares_log wk effect payloads d0 ->
  clean_log wk d0 W -> settled_log W -> (forall record, record ∈ W -> ewr_tx_id record ≠ tx) ->
  names_external_publication (begin_with_authority tx (te_id (ted_tool_effect_contract effect)) provenance binding) = false ->
  verify_provenance provenance = true -> validate_effect_replay_binding binding = Ok tt ->
  exists r res d, preflight_file_effect_transaction_under_lock root effect payloads d0 [] = (Returned r, d0, [])
    /\ runs (apply_file_effect_transaction_with_provenance_under_lock root effect payloads wal tx provenance binding) d0 = (Returned res, d)
    /\ match epr_status r with
       | EffectPreflightStatus_Blocked => d = d0 /\ ear_status res = EffectApplicationStatus_Blocked /\ ear_reasons res = epr_reasons r
       | EffectPreflightStatus_Ready =>
           NoDup (map fst (omap (asked payloads d0) (te_write_set (ted_tool_effect_contract effect)))) ->
           ear_status res = EffectApplicationStatus_Applied /\ ear_metadata_records res = epr_metadata_records r
           /\ same_files wk (effect_applied payloads d0 effect) d
       end.
Proof.
  intros Hwk Hspare Hlog HW Hfresh Hext Hv Hb. destruct (preflight_prepares root payloads effect d0) as (r & Hr & Hprep). exists r.
  unfold runs, apply_file_effect_transaction_with_provenance_under_lock, apply_file_effect_transaction_with_wal_inner. rewrite Hv, Hb. cbn [negb].
  destruct (epr_status r).
  - destruct Hprep as (pairs & Hpairs & Hmeta). pose proof (answers_prepared _ _ _ _ _ Hpairs) as Hp.
    rewrite (answers_bind _ _ d0 _ Hpairs).
    set (tn := {| tn_effect := effect |}). set (blocked := blocked_effect_application_result _ _ _ _).
    pose proof (commit_wp root wal wk effect payloads tx d0 Hwk Hspare W Hlog HW Hfresh (fun _ => False) (Some (provenance, binding)) pairs tn
      ltac:(by intros p []) Hext eq_refl eq_refl eq_refl Hp [] ltac:(constructor)) as H. fold blocked in H.
    destruct (calm_commit root tn (begin_record tn (Some (provenance, binding))) blocked pairs d0) as (res & d & E).
    rewrite E in H |- *. exists res, d. split_and!; [exact Hr|done|]. intros Hnd. rewrite <- (targets_asked root payloads _ pairs) in Hnd by done.
    destruct H as (_ & (_ & _ & Hfiles) & Ha). destruct (Ha Hnd) as [Hap Hmd]. rewrite bool_decide_eq_true_2 in Hfiles by done. by rewrite Hmd, Hmeta.
  - rewrite (answers_bind _ _ d0 _ Hprep). by eexists _, _.
Qed.
