(* ===== verification/EffectReplay.v ===== *)
(** * Replay completion of committed effects

    [forge-core-store/src/lib.rs]: which committed effects still have an open replay reservation, read off
    the log, and the record that closes one after the reservation was consumed. *)

From S2P Require Import Prelude RustStr BTree Contracts OperationContracts Diagnostics StatePaths EffectTypes CrashIo ReplayWal EffectStore EffectLog.

Local Open Scope string_scope.
Local Open Scope forge_scope.

Record EffectReplayProjection := {
  prj_effect_id : StableId;
  prj_provenance : EffectExecutionProvenance;
  prj_replay_binding : EffectReplayCommitBinding;
  prj_committed : bool;
  prj_rolled_back : bool;
  prj_completed : bool
}.

Notation Projections := (gmap string EffectReplayProjection).

Definition set_committed (t : EffectReplayProjection) : EffectReplayProjection := {|
  prj_effect_id := prj_effect_id t; prj_provenance := prj_provenance t; prj_replay_binding := prj_replay_binding t;
  prj_committed := true; prj_rolled_back := prj_rolled_back t; prj_completed := prj_completed t |}.
Definition set_rolled_back (t : EffectReplayProjection) : EffectReplayProjection := {|
  prj_effect_id := prj_effect_id t; prj_provenance := prj_provenance t; prj_replay_binding := prj_replay_binding t;
  prj_committed := prj_committed t; prj_rolled_back := true; prj_completed := prj_completed t |}.
Definition set_completed (t : EffectReplayProjection) : EffectReplayProjection := {|
  prj_effect_id := prj_effect_id t; prj_provenance := prj_provenance t; prj_replay_binding := prj_replay_binding t;
  prj_committed := prj_committed t; prj_rolled_back := prj_rolled_back t; prj_completed := true |}.

Definition conflicting {A} (record : EffectWalRecord) (reason : string) : Result A EffectReplayReconciliationError :=
  Err (Reconcile_ConflictingTransaction (ewr_tx_id record) reason).

Section replay.
Context {codec : EffectCodec}.

Definition project_begin (transactions : Projections) (record : EffectWalRecord) : Result Projections EffectReplayReconciliationError :=
  match ewr_execution_provenance record, ewr_replay_binding record with
  | None, None => Ok transactions
  | Some provenance, Some binding =>
      if negb (verify_provenance provenance) then Err (Reconcile_InvalidProvenance (ewr_tx_id record))
      else match validate_effect_replay_binding binding with
           | Err reason => Err (Reconcile_InvalidReplayBinding (ewr_tx_id record) reason)
           | Ok _ =>
               if negb (is_none (transactions !! ewr_tx_id record))
               then conflicting record "multiple provenance-bound begin records"
               else Ok (<[ewr_tx_id record := {|
                      prj_effect_id := ewr_effect_id record; prj_provenance := provenance; prj_replay_binding := binding;
                      prj_committed := false; prj_rolled_back := false; prj_completed := false |}]> transactions)
           end
  | _, _ => conflicting record "begin must carry provenance and replay binding together"
  end.

Definition completion_matches (transaction : EffectReplayProjection) (binding : EffectReplayCommitBinding)
    (completion : EffectReplayCompletion) : bool :=
  bool_decide (binding = prj_replay_binding transaction)
  && bool_decide (erc_key_hash completion = erb_key_hash binding)
  && (erc_reservation_revision completion =? erb_reservation_revision binding)%Z
  && (erc_consumed_revision completion =? Z.min u64_max (erb_reservation_revision binding + 1))%Z.

(** The [match record.stage] on a transaction that has begun. *)
Definition project_stage (transaction : EffectReplayProjection) (record : EffectWalRecord)
    : Result EffectReplayProjection EffectReplayReconciliationError :=
  match ewr_stage record with
  | EffectWalStage_Commit =>
      if prj_committed transaction || prj_rolled_back transaction then conflicting record "duplicate or post-rollback commit"
      else Ok (set_committed transaction)
  | EffectWalStage_RollbackComplete | EffectWalStage_RecoveredRollback =>
      if prj_committed transaction || prj_completed transaction
      then conflicting record "rollback appears after commit or replay completion"
      else Ok (set_rolled_back transaction)
  | EffectWalStage_ReplayConsumed =>
      if negb (prj_committed transaction) || prj_completed transaction
      then conflicting record "replay completion requires one prior commit"
      else match ewr_replay_binding record with
           | None => conflicting record "replay completion is missing its binding"
           | Some binding =>
               match ewr_replay_completion record with
               | None => conflicting record "replay completion evidence is missing"
               | Some completion =>
                   if negb (completion_matches transaction binding completion)
                   then conflicting record "replay completion does not match the begin binding"
                   else Ok (set_completed transaction)
               end
           end
  | EffectWalStage_Begin | EffectWalStage_BeforeImage | EffectWalStage_CreateEstablished _ | EffectWalStage_WriteApplied => Ok transaction
  end.

(** One turn of the loop. *)
Definition project_record (transactions : Projections) (record : EffectWalRecord) : Result Projections EffectReplayReconciliationError :=
  if bool_decide (ewr_stage record = EffectWalStage_Begin) then project_begin transactions record
  else match transactions !! ewr_tx_id record with
       | None =>
           if bool_decide (ewr_stage record = EffectWalStage_ReplayConsumed)
           then conflicting record "replay completion has no provenance-bound begin"
           else Ok transactions
       | Some transaction =>
           if negb (bool_decide (ewr_effect_id record = prj_effect_id transaction))
           then conflicting record "effect id changed within transaction"
           else match project_stage transaction record with
                | Ok transaction => Ok (<[ewr_tx_id record := transaction]> transactions)
                | Err e => Err e
                end
       end.

Fixpoint project_records (transactions : Projections) (records : list EffectWalRecord)
    : Result Projections EffectReplayReconciliationError :=
  match records with
  | [] => Ok transactions
  | record :: rest =>
      match project_record transactions record with
      | Ok transactions => project_records transactions rest
      | Err e => Err e
      end
  end.

Definition pending_commit (transactions : Projections) (tx_id : string) : option PendingEffectReplayCommit :=
  match transactions !! tx_id with
  | Some t =>
      if prj_committed t && negb (prj_rolled_back t) && negb (prj_completed t)
      then Some {| per_tx_id := tx_id; per_effect_id := prj_effect_id t; per_provenance := prj_provenance t;
                   per_replay_binding := prj_replay_binding t |}
      else None
  | None => None
  end.

(** The map is iterated in the order of its keys. *)
Definition pending_commits (transactions : Projections) : list PendingEffectReplayCommit :=
  omap (pending_commit transactions) (map_keys transactions).

Definition project_pending_effect_replay_commits (records : list EffectWalRecord)
    : Result (list PendingEffectReplayCommit) EffectReplayReconciliationError :=
  match project_records ∅ records with Ok transactions => Ok (pending_commits transactions) | Err e => Err e end.

(** [repair_effect_wal_tail_retained], the strict read and the projection, which two functions share. *)
Definition repaired_pending (wal_relative : Key) : Io (Result (list PendingEffectReplayCommit) EffectReplayReconciliationError) :=
  let! repaired := repair_effect_wal_tail_retained wal_relative in
  match repaired with
  | Err e => io_ret (Err e)
  | Ok _ =>
      let! records := read_effect_wal_records_strict_retained wal_relative in
      io_ret (match records with Err e => Err e | Ok records => project_pending_effect_replay_commits records end)
  end.

Definition pending_effect_replay_commits_under_lock (wal_relative_path : string)
    : Io (Result (list PendingEffectReplayCommit) EffectReplayReconciliationError) :=
  match reconciliation_relative_path wal_relative_path with
  | Err e => io_ret (Err e)
  | Ok wal_relative =>
      let! r := authority_leaf_exists (Some wal_relative) in
      match r with
      | Err _ => io_ret (Err Reconcile_WalRead)
      | Ok false => io_ret (Ok [])
      | Ok true => repaired_pending wal_relative
      end
  end.

(** The checks before the log is opened: the completion to record. *)
Definition replay_completion_for (tx_id : string) (binding : EffectReplayCommitBinding) (replay : ReplayConsumeResult) (recovered : bool)
    : Result EffectReplayCompletion EffectReplayReconciliationError :=
  if str_is_empty (trim tx_id) then Err (Reconcile_ConflictingTransaction tx_id "transaction id must not be blank") else
  match validate_effect_replay_binding binding with
  | Err reason => Err (Reconcile_InvalidReplayBinding tx_id reason)
  | Ok _ =>
      match u64_checked_add (erb_reservation_revision binding) 1 with
      | None => Err (Reconcile_InvalidReplayBinding tx_id "reservation revision overflow")
      | Some consumed_revision =>
          let reservation := rcon_reservation replay in
          if negb (bool_decide (rv_key_hash reservation = erb_key_hash binding))
             || negb (bool_decide (rv_intent_digest reservation = erb_intent_digest binding))
             || negb (bool_decide (rv_commit_digest reservation = erb_commit_digest binding))
             || negb (bool_decide (rv_state reservation = ReplayReservationState_Consumed))
             || negb (rv_revision reservation =? consumed_revision)%Z
          then Err (Reconcile_InvalidReplayBinding tx_id "consume result does not match the effect-WAL replay binding")
          else Ok {| erc_key_hash := erb_key_hash binding; erc_reservation_revision := erb_reservation_revision binding;
                     erc_consumed_revision := consumed_revision; erc_consumed_seq := rcon_seq replay; erc_recovered := recovered |}
      end
  end.

Definition is_exact_commit (tx_id : string) (effect_id : StableId) (binding : EffectReplayCommitBinding) (candidate : PendingEffectReplayCommit) : bool :=
  bool_decide (per_tx_id candidate = tx_id) && bool_decide (per_effect_id candidate = effect_id)
  && bool_decide (per_replay_binding candidate = binding).

Definition append_effect_replay_completion_under_lock (wal_relative_path tx_id : string) (effect_id : StableId)
    (replay_binding : EffectReplayCommitBinding) (replay_result : ReplayConsumeResult) (recovered : bool)
    : Io (Result EffectReplayCompletionResult EffectReplayReconciliationError) :=
  match replay_completion_for tx_id replay_binding replay_result recovered with
  | Err e => io_ret (Err e)
  | Ok completion =>
      match reconciliation_relative_path wal_relative_path with
      | Err e => io_ret (Err e)
      | Ok wal_relative =>
          let! r := authority_leaf_exists (Some wal_relative) in
          match r with
          | Err _ => io_ret (Err Reconcile_WalRead)
          | Ok false => io_ret (Err (Reconcile_ConflictingTransaction tx_id "effect WAL is missing after replay consume"))
          | Ok true =>
              let! pending := repaired_pending wal_relative in
              match pending with
              | Err e => io_ret (Err e)
              | Ok pending =>
                  if negb (existsb (is_exact_commit tx_id effect_id replay_binding) pending)
                  then io_ret (Err (Reconcile_ConflictingTransaction tx_id "no exact committed effect is pending replay completion"))
                  else
                    let! appended := append_effect_wal_record_for_publication wal_relative_path
                      (replay_consumed tx_id effect_id replay_binding completion) in
                    io_ret (match appended with
                            | Ok _ => Ok {| ecr_tx_id := tx_id; ecr_completion := completion |}
                            | Err _ => Err Reconcile_WalAppend
                            end)
              end
          end
      end
  end.

End replay.

(** ** What the log says of one transaction *)

Definition is_some {A} (o : option A) : bool := negb (is_none o).

(** A [Begin] that carries a reservation to consume. *)
Definition bound_begin (tx_id : string) (record : EffectWalRecord) : bool :=
  bool_decide (ewr_tx_id record = tx_id) && bool_decide (ewr_stage record = EffectWalStage_Begin)
  && is_some (ewr_execution_provenance record).

(** The first such [Begin] of a transaction, and the records after it. *)
Fixpoint since_begin (tx_id : string) (records : list EffectWalRecord) : option (EffectWalRecord * list EffectWalRecord) :=
  match records with
  | [] => None
  | record :: rest => if bound_begin tx_id record then Some (record, rest) else since_begin tx_id rest
  end.

Definition is_rollback (stage : EffectWalStage) : bool :=
  match stage with EffectWalStage_RollbackComplete | EffectWalStage_RecoveredRollback => true | _ => false end.

Definition has_stage (tx_id : string) (f : EffectWalStage -> bool) (records : list EffectWalRecord) : bool :=
  existsb (fun record => bool_decide (ewr_tx_id record = tx_id) && f (ewr_stage record)) records.

Definition is_commit (stage : EffectWalStage) : bool := bool_decide (stage = EffectWalStage_Commit).
Definition is_consumed (stage : EffectWalStage) : bool := bool_decide (stage = EffectWalStage_ReplayConsumed).

(** The commit that a log leaves open for a transaction: begun with a reservation, committed since, and
    neither rolled back nor completed since. *)
Definition open_commit (records : list EffectWalRecord) (tx_id : string) : option PendingEffectReplayCommit :=
  match since_begin tx_id records with
  | Some (begin, later) =>
      match ewr_execution_provenance begin, ewr_replay_binding begin with
      | Some provenance, Some binding =>
          if has_stage tx_id is_commit later && negb (has_stage tx_id is_rollback later) && negb (has_stage tx_id is_consumed later)
          then Some {| per_tx_id := tx_id; per_effect_id := ewr_effect_id begin; per_provenance := provenance; per_replay_binding := binding |}
          else None
      | _, _ => None
      end
  | None => None
  end.

Section projection.
Context {codec : EffectCodec}.

(** The projected state of a transaction, from its [Begin] and the records after it. *)
Definition projection_of (tx_id : string) (begin : EffectWalRecord) (later : list EffectWalRecord) (t : EffectReplayProjection) : Prop :=
  ewr_execution_provenance begin = Some (prj_provenance t) /\ ewr_replay_binding begin = Some (prj_replay_binding t)
  /\ prj_effect_id t = ewr_effect_id begin /\ prj_committed t = has_stage tx_id is_commit later
  /\ prj_rolled_back t = has_stage tx_id is_rollback later /\ prj_completed t = has_stage tx_id is_consumed later
  /\ verify_provenance (prj_provenance t) = true /\ validate_effect_replay_binding (prj_replay_binding t) = Ok tt.

(** The map holds exactly what the records say. *)
Definition projects (records : list EffectWalRecord) (m : Projections) : Prop :=
  forall tx_id, match since_begin tx_id records with
                | Some (begin, later) => exists t, m !! tx_id = Some t /\ projection_of tx_id begin later t
                | None => m !! tx_id = None
                end.

Lemma since_begin_snoc tx_id records record : since_begin tx_id (records ++ [record])%list =
  match since_begin tx_id records with
  | Some (begin, later) => Some (begin, later ++ [record])%list
  | None => if bound_begin tx_id record then Some (record, []) else None
  end.
Proof. induction records as [|r records IH]; simpl; [done|]. by destruct (bound_begin tx_id r). Qed.

Lemma has_stage_snoc tx_id f records record : has_stage tx_id f (records ++ [record])%list =
  has_stage tx_id f records || (bool_decide (ewr_tx_id record = tx_id) && f (ewr_stage record)).
Proof. unfold has_stage. rewrite existsb_app. simpl. by rewrite orb_false_r. Qed.

(** A record of another transaction, or of a stage that is not counted, changes nothing. *)
Lemma projection_of_quiet tx_id begin later t record :
  ewr_tx_id record ≠ tx_id \/ (is_commit (ewr_stage record) || is_rollback (ewr_stage record) || is_consumed (ewr_stage record) = false) ->
  projection_of tx_id begin later t -> projection_of tx_id begin (later ++ [record])%list t.
Proof.
  unfold projection_of. rewrite !has_stage_snoc. intros H Hp.
  assert (forall f, f = is_commit \/ f = is_rollback \/ f = is_consumed -> bool_decide (ewr_tx_id record = tx_id) && f (ewr_stage record) = false) as Hf.
  { intros f Hf. destruct H as [Hne|Hs]; [by rewrite bool_decide_eq_false_2|]. apply orb_false_iff in Hs as [[H1 H2]%orb_false_iff H3].
    apply andb_false_iff. right. by destruct Hf as [->|[->| ->]]. }
  rewrite !Hf by auto. by rewrite !orb_false_r.
Qed.

Lemma project_stage_ok t record t' later begin :
  ewr_stage record ≠ EffectWalStage_Begin ->
  projection_of (ewr_tx_id record) begin later t -> project_stage t record = Ok t' ->
  projection_of (ewr_tx_id record) begin (later ++ [record])%list t'.
Proof.
  intros Hb Hp Hs. unfold project_stage in Hs.
  destruct (ewr_stage record) eqn:Est; simplify_eq; try (eapply projection_of_quiet; [right; by rewrite Est|done]);
    unfold projection_of in *; rewrite !has_stage_snoc, bool_decide_eq_true_2, Est by done; simpl;
    unfold is_commit, is_consumed in *; repeat case_match; simplify_eq; simpl;
    rewrite ?orb_true_r, ?orb_false_r; naive_solver.
Qed.

Lemma project_record_ok records m record m' :
  projects records m -> project_record m record = Ok m' -> projects (records ++ [record])%list m'.
Proof.
  intros Hm Hr tx_id. rewrite since_begin_snoc. pose proof (Hm tx_id) as Ht. pose proof (Hm (ewr_tx_id record)) as Hown.
  unfold project_record in Hr. case_bool_decide as Hbegin.
  - assert (forall begin later t, projection_of tx_id begin later t -> projection_of tx_id begin (later ++ [record])%list t) as Hq.
    { intros b l t. apply projection_of_quiet. right. by rewrite Hbegin. }
    unfold project_begin in Hr. unfold bound_begin. rewrite (bool_decide_eq_true_2 _ Hbegin).
    destruct (ewr_execution_provenance record) as [provenance|] eqn:Ep, (ewr_replay_binding record) as [binding|] eqn:Eb; simplify_eq; simpl.
    + destruct (verify_provenance provenance) eqn:Ev; [|done]. destruct (validate_effect_replay_binding binding) as [[]|] eqn:Evb; [|done].
      destruct (m !! ewr_tx_id record) eqn:Em; [done|]. simpl in Hr. simplify_eq.
      destruct (decide (ewr_tx_id record = tx_id)) as [<-|Hne].
      * destruct (since_begin (ewr_tx_id record) records) as [[b l]|]; [by destruct Hown as (t & ? & _)|].
        rewrite bool_decide_eq_true_2 by done. simpl. rewrite lookup_insert_eq. eexists. split; [done|]. unfold projection_of. simpl. by split_and!.
      * rewrite lookup_insert_ne by done. rewrite bool_decide_eq_false_2 by done. simpl.
        destruct (since_begin tx_id records) as [[b l]|]; [|done]. destruct Ht as (t & ? & ?). exists t. auto.
    + rewrite andb_false_r. destruct (since_begin tx_id records) as [[b l]|]; [|done]. destruct Ht as (t & ? & ?). exists t. auto.
  - unfold bound_begin. rewrite (bool_decide_eq_false_2 _ Hbegin), andb_false_r. simpl.
    destruct (m !! ewr_tx_id record) as [t0|] eqn:Em.
    + case_bool_decide as Heff; [|done]. simpl in Hr. destruct (project_stage t0 record) as [t1|] eqn:Est; [|done]. simplify_eq.
      destruct (decide (ewr_tx_id record = tx_id)) as [<-|Hne].
      * destruct (since_begin (ewr_tx_id record) records) as [[b l]|]; [|congruence]. destruct Hown as (t & ? & Hp). simplify_eq.
        rewrite lookup_insert_eq. eexists. split; [done|]. by eapply project_stage_ok.
      * rewrite lookup_insert_ne by done. destruct (since_begin tx_id records) as [[b l]|]; [|done].
        destruct Ht as (t & ? & ?). exists t. split; [done|]. apply projection_of_quiet; auto.
    + case_bool_decide; [done|]. simplify_eq. destruct (since_begin tx_id records) as [[b l]|]; [|done].
      destruct Ht as (t & ? & ?). exists t. split; [done|]. apply projection_of_quiet; [left; congruence|done].
Qed.

Lemma projects_nil : projects [] ∅.
Proof. intros tx_id. apply lookup_empty. Qed.

Lemma project_records_app m records more : project_records m (records ++ more)%list =
  match project_records m records with Ok m' => project_records m' more | Err e => Err e end.
Proof. revert m. induction records as [|r records IH]; intros m; simpl; [done|]. by destruct (project_record m r). Qed.

Lemma project_records_ok records more m m' :
  projects records m -> project_records m more = Ok m' -> projects (records ++ more)%list m'.
Proof.
  revert records m. induction more as [|r more IH]; intros records m Hm Hr; simpl in *; [simplify_eq; by rewrite app_nil_r|].
  destruct (project_record m r) as [m1|] eqn:E; [|done]. rewrite cons_middle, app_assoc. eapply IH; [|done]. by eapply project_record_ok.
Qed.

Lemma projects_all records m : project_records ∅ records = Ok m -> projects records m.
Proof. intros H. apply (project_records_ok [] records ∅ m projects_nil H). Qed.

Lemma pending_commit_open records m tx_id : projects records m -> pending_commit m tx_id = open_commit records tx_id.
Proof.
  intros Hm. specialize (Hm tx_id). unfold pending_commit, open_commit. destruct (since_begin tx_id records) as [[b l]|]; [|by rewrite Hm].
  destruct Hm as (t & -> & -> & -> & -> & -> & -> & -> & _). done.
Qed.

Lemma pending_commit_tx m tx_id p : pending_commit m tx_id = Some p -> per_tx_id p = tx_id.
Proof. unfold pending_commit. destruct (m !! tx_id); [|done]. case_match; [|done]. by intros [= <-]. Qed.

Lemma elem_of_pending m p : p ∈ pending_commits m <-> pending_commit m (per_tx_id p) = Some p.
Proof.
  unfold pending_commits. rewrite list_elem_of_omap. split.
  - intros (tx & _ & H). by rewrite (pending_commit_tx _ _ _ H).
  - intros H. exists (per_tx_id p). split; [|done]. apply elem_of_map_keys. unfold pending_commit in H.
    destruct (m !! per_tx_id p); [by eexists|done].
Qed.

Lemma pending_txs m : map per_tx_id (pending_commits m) = List.filter (fun tx => is_some (pending_commit m tx)) (map_keys m).
Proof.
  unfold pending_commits. induction (map_keys m) as [|tx keys IH]; simpl; [done|].
  destruct (pending_commit m tx) as [p|] eqn:E; simpl; [|exact IH]. rewrite (pending_commit_tx _ _ _ E). f_equal. exact IH.
Qed.

Lemma NoDup_pending m : NoDup (map per_tx_id (pending_commits m)).
Proof. rewrite pending_txs. apply NoDup_ListNoDup, List.NoDup_filter, NoDup_ListNoDup, NoDup_map_keys. Qed.

(** A completion is only made for a reservation consumed at the revision after the one of the binding. *)
Lemma replay_completion_ok tx_id binding replay recovered completion :
  replay_completion_for tx_id binding replay recovered = Ok completion ->
  let revision := (erb_reservation_revision binding + 1)%Z in
  rv_revision (rcon_reservation replay) = revision /\ rv_state (rcon_reservation replay) = ReplayReservationState_Consumed
  /\ (revision <= u64_max)%Z
  /\ completion = {| erc_key_hash := erb_key_hash binding; erc_reservation_revision := erb_reservation_revision binding;
                     erc_consumed_revision := revision; erc_consumed_seq := rcon_seq replay; erc_recovered := recovered |}.
Proof.
  unfold replay_completion_for, u64_checked_add. intros Hc.
  destruct (str_is_empty _); [done|]. destruct (validate_effect_replay_binding binding); [|done].
  destruct (in_u64 _) eqn:Eu; [|done]. apply andb_true_iff in Eu as [_ Hle%Z.leb_le].
  destruct (_ || _) eqn:Ebad; [done|]. apply orb_false_iff in Ebad as [[_ Hs]%orb_false_iff Hr].
  apply negb_false_iff, bool_decide_eq_true in Hs. apply negb_false_iff, Z.eqb_eq in Hr. simplify_eq. by split_and!.
Qed.

(** The record that completes a pending commit is accepted, and closes that commit alone. *)
Lemma completion_accepted records m p replay recovered completion :
  project_records ∅ records = Ok m -> p ∈ pending_commits m ->
  replay_completion_for (per_tx_id p) (per_replay_binding p) replay recovered = Ok completion ->
  exists m', project_records ∅ (records ++ [replay_consumed (per_tx_id p) (per_effect_id p) (per_replay_binding p) completion])%list = Ok m'
    /\ forall q, q ∈ pending_commits m' <-> q ∈ pending_commits m /\ per_tx_id q ≠ per_tx_id p.
Proof.
  intros Hr Hp%elem_of_pending Hc. unfold pending_commit in Hp. destruct (m !! per_tx_id p) as [t|] eqn:Et; [|done].
  destruct (prj_committed t && negb (prj_rolled_back t) && negb (prj_completed t)) eqn:Hflags; [|done].
  apply andb_true_iff in Hflags as [[Hcm Hrb]%andb_true_iff Hcp]. apply negb_true_iff in Hrb, Hcp.
  assert (per_effect_id p = prj_effect_id t /\ per_replay_binding p = prj_replay_binding t) as [He Hb] by (destruct p; simpl in *; by simplify_eq).
  assert (completion_matches t (per_replay_binding p) completion = true) as Hmatch.
  { destruct (replay_completion_ok _ _ _ _ _ Hc) as (_ & _ & Hle & ->). unfold completion_matches. simpl. rewrite Hb.
    rewrite !bool_decide_eq_true_2 by done. rewrite Z.eqb_refl. simpl. apply Z.eqb_eq. rewrite Hb in Hle. lia. }
  exists (<[per_tx_id p := set_completed t]> m). rewrite project_records_app, Hr. split.
  - simpl. unfold project_record. simpl. rewrite Et, (bool_decide_eq_true_2 _ He). simpl. unfold project_stage. simpl. by rewrite Hcm, Hcp, Hmatch.
  - intros q. rewrite !elem_of_pending. unfold pending_commit. destruct (decide (per_tx_id q = per_tx_id p)) as [->|Hne].
    + rewrite lookup_insert_eq. simpl. rewrite andb_false_r. split; [done|]. by intros [_ []].
    + rewrite lookup_insert_ne by done. split; [done|by intros []].
Qed.

End projection.
