(* ===== verification/EffectPending.v ===== *)
(** * Claims about replay completion

    The commits left open by a log against their reference definition, the record that closes one, and
    what an applied effect leaves open.  Then logs that are decided: reconciling one writes nothing but the
    repair of its tail, what it leaves open is read off it without faults, and a transaction leaves its own
    commit open exactly when it committed. *)

From S2P Require Import Prelude RustStr BTree Contracts OperationContracts ReplayWal Diagnostics StatePaths EffectTypes CrashIo EffectStore EffectLog EffectCrash EffectRecovery EffectPlan EffectAtomic EffectSafety EffectPreflight EffectReplay.

Local Open Scope string_scope.

Section pending.
Context {codec : EffectCodec} {laws : EffectCodecLaws codec} (wal : string) (wk : Key).
Hypothesis Hwk : normalized_effect_relative_path wal = Some wk.

Lemma reconciliation_path : reconciliation_relative_path wal = Ok wk.
Proof. unfold reconciliation_relative_path. by rewrite (proj2 (normalized_effect_key _ _ Hwk)), Hwk. Qed.

(** On a complete log the repair finds nothing to do, and the records read are those of the log. *)
Lemma repaired_pending_wp P d rs : clean_log wk d rs ->
  wp P (repaired_pending wk)
    (fun r d' => d' = d /\ (forall ps, r = Ok ps -> project_pending_effect_replay_commits rs = Ok ps)
       /\ (never_fails P -> is_Some (d !! wk) -> r = project_pending_effect_replay_commits rs)) (eq d) d.
Proof.
  intros Hc. assert (forall b, d !! wk = Some b -> encode_log rs = Some b) as Hb.
  { intros b Hd. unfold clean_log, log_bytes in Hc. by rewrite Hd in Hc. }
  apply wp_bind, wp_bind, wp_read; [intros b Hd|intros Hd|intros p Hp|done].
  - rewrite (complete_log_seen rs) by (by apply Hb). apply wp_ret, wp_bind, wp_bind, wp_read; [intros b' Hd'|congruence|intros p Hp|done].
    + apply wp_ret, wp_ret. rewrite Hd in Hd'. simplify_eq. rewrite from_utf8_ok by (by eapply encode_log_utf8; apply Hb).
      rewrite (parse_strict_ok rs) by (by apply Hb). by split_and!.
    + apply wp_ret, wp_ret. split_and!; [done|done|]. intros Hnf. by destruct (Hnf p).
  - apply wp_ret, wp_ret. split_and!; [done|done|]. rewrite Hd. by intros _ [b [=]].
  - apply wp_ret, wp_ret. split_and!; [done|done|]. intros Hnf. by destruct (Hnf p).
Qed.

Lemma repaired_pending_calm : calm (repaired_pending wk).
Proof.
  repeat first [calm_step|progress unfold repaired_pending, repair_effect_wal_tail_retained, read_effect_wal_records_strict_retained, read_authority_file, read_file, append_file, truncate_file].
Qed.

(** The log before the completion, after it, or with a part of its record. *)
Definition completing (rs : list EffectWalRecord) (record : EffectWalRecord) (d : Disk) (rs' : list EffectWalRecord) : Prop :=
  rs' = rs \/ rs' = (rs ++ [record])%list.

(** What a crash leaves behind, or a failure. *)
Definition completion_torn (d : Disk) (rs : list EffectWalRecord) (tx_id : string) (effect_id : StableId) (binding : EffectReplayCommitBinding)
    (replay : ReplayConsumeResult) (recovered : bool) (d' : Disk) : Prop :=
  same_files wk d d'
  /\ (d' = d \/ exists completion, replay_completion_for tx_id binding replay recovered = Ok completion
       /\ Recoverable wk (completing rs (replay_consumed tx_id effect_id binding completion)) d').

(** What a run leaves behind: the files, the log with or without the record, and the answer. *)
Definition completion_end (P : Fault -> Prop) (d : Disk) (rs : list EffectWalRecord) (m : Projections) (tx_id : string) (effect_id : StableId)
    (binding : EffectReplayCommitBinding) (replay : ReplayConsumeResult) (recovered : bool)
    (res : Result EffectReplayCompletionResult EffectReplayReconciliationError) (d' : Disk) : Prop :=
  same_files wk d d'
  /\ (forall r, res = Ok r ->
       (exists p, p ∈ pending_commits m /\ per_tx_id p = tx_id /\ per_effect_id p = effect_id /\ per_replay_binding p = binding)
       /\ replay_completion_for tx_id binding replay recovered = Ok (ecr_completion r)
       /\ clean_log wk d' (rs ++ [replay_consumed tx_id effect_id binding (ecr_completion r)])%list)
  /\ (never_fails P -> is_ok res = false ->
       is_ok (replay_completion_for tx_id binding replay recovered) = false \/ d !! wk = None
       \/ existsb (is_exact_commit tx_id effect_id binding) (pending_commits m) = false)
  /\ (is_ok res = false -> completion_torn d rs tx_id effect_id binding replay recovered d').

Lemma completion_wp P d rs tx_id effect_id binding replay recovered m :
  clean_log wk d rs -> project_records ∅ rs = Ok m ->
  wp P (append_effect_replay_completion_under_lock wal tx_id effect_id binding replay recovered)
    (completion_end P d rs m tx_id effect_id binding replay recovered)
    (completion_torn d rs tx_id effect_id binding replay recovered) d.
Proof.
  intros Hc Hm. unfold append_effect_replay_completion_under_lock. rewrite reconciliation_path.
  assert (forall e, (never_fails P -> is_ok (replay_completion_for tx_id binding replay recovered) = false \/ d !! wk = None
       \/ existsb (is_exact_commit tx_id effect_id binding) (pending_commits m) = false) ->
    completion_end P d rs m tx_id effect_id binding replay recovered (Err e) d) as Herr
    by (intros e He; split_and!; [done|done|intros Hn _; by apply He|intros _; split; [done|by left]]).
  assert (completion_torn d rs tx_id effect_id binding replay recovered d) as Htorn by (split; [done|by left]).
  destruct (replay_completion_for tx_id binding replay recovered) as [completion|e] eqn:Ecomp; [|apply wp_ret, Herr; by left].
  apply wp_bind. unfold authority_leaf_exists.
  apply wp_bind, wp_read; [intros b Hb|intros Hb|intros p Hp|done]; apply wp_ret;
    [|apply wp_ret, Herr; auto|apply wp_ret, Herr; intros Hnf; by destruct (Hnf p)].
  apply wp_bind. eapply wp_mono; [by apply repaired_pending_wp| |by intros d' <-]. intros r d' (-> & Hps & Hnf).
  unfold project_pending_effect_replay_commits in *. rewrite Hm in *.
  destruct r as [ps|e]; [|apply wp_ret, Herr; intros Hn; by specialize (Hnf Hn (mk_is_Some _ _ Hb))].
  specialize (Hps ps eq_refl). simplify_eq.
  destruct (existsb _ _) eqn:Eex; simpl; [|apply wp_ret, Herr; auto].
  apply existsb_exists in Eex as (p & Hin%list_elem_of_In & Hexact). unfold is_exact_commit in Hexact.
  apply andb_true_iff in Hexact as [[Ht%bool_decide_eq_true He%bool_decide_eq_true]%andb_true_iff Hbd%bool_decide_eq_true].
  apply wp_bind. eapply wp_mono; [apply wp_and; [by apply append_same_files_wp|]|..].
  - apply (append_record_wp wal wk Hwk (completing rs (replay_consumed tx_id effect_id binding completion))); [by intros ? ? ? _|exact Hc|by left|by right].
  - intros res d' (Hs & _ & Hres & Hok). apply wp_ret. split_and!; [done| | |].
    + intros r Hr. destruct res as [[]|]; [|done]. simplify_eq. simpl. split_and!; [by exists p|done|done].
    + intros Hn. specialize (Hok Hn). by destruct res.
    + intros Hr. split; [done|right]. exists completion. split; [done|]. destruct res as [[]|e]; [done|exact Hres].
  - intros d' [Hs Hrec]. split; [done|]. right. by exists completion.
Qed.

End pending.

(** ** A committed transaction at the end of the log *)

Lemma project_middle {codec : EffectCodec} m tx t middle :
  m !! tx = Some t ->
  Forall (fun record => ewr_tx_id record = tx /\ ewr_effect_id record = prj_effect_id t
    /\ (ewr_stage record = EffectWalStage_BeforeImage \/ ewr_stage record = EffectWalStage_WriteApplied)) middle ->
  project_records m middle = Ok m.
Proof.
  intros Ht. induction 1 as [|record middle (Htx & He & Hs) _ IH]; simpl; [done|].
  assert (project_record m record = Ok m) as ->; [|done]. unfold project_record. rewrite Htx, Ht, (bool_decide_eq_true_2 _ He).
  rewrite bool_decide_eq_false_2 by (by destruct Hs as [->| ->]). simpl. unfold project_stage.
  destruct Hs as [->| ->]; by rewrite insert_id.
Qed.

Lemma since_begin_unknown records tx :
  (forall record, record ∈ records -> ewr_tx_id record ≠ tx) -> since_begin tx records = None.
Proof.
  induction records as [|r records IH]; intros H; simpl; [done|]. unfold bound_begin. rewrite bool_decide_eq_false_2 by (by apply H; left).
  apply IH. intros r' Hr'. apply H. by right.
Qed.

(** The commit that an applied transaction leaves open. *)
Definition committed_as (tx : string) (effect_id : StableId) (provenance : EffectExecutionProvenance) (binding : EffectReplayCommitBinding)
    : PendingEffectReplayCommit :=
  {| per_tx_id := tx; per_effect_id := effect_id; per_provenance := provenance; per_replay_binding := binding |}.

Lemma project_committed {codec : EffectCodec} W m tx effect_id provenance binding middle :
  project_records ∅ W = Ok m -> (forall record, record ∈ W -> ewr_tx_id record ≠ tx) ->
  verify_provenance provenance = true -> validate_effect_replay_binding binding = Ok tt ->
  Forall (fun record => ewr_tx_id record = tx /\ ewr_effect_id record = effect_id
    /\ (ewr_stage record = EffectWalStage_BeforeImage \/ ewr_stage record = EffectWalStage_WriteApplied)) middle ->
  exists m', project_records ∅ (W ++ (begin_with_authority tx effect_id provenance binding :: middle)
                 ++ [record_stage tx effect_id EffectWalStage_Commit])%list = Ok m'
    /\ forall q, q ∈ pending_commits m' <-> q ∈ pending_commits m \/ q = committed_as tx effect_id provenance binding.
Proof.
  intros Hm Hfresh Hv Hb Hmid.
  assert (m !! tx = None) as Hnone by (pose proof (projects_all _ _ Hm tx) as H; by rewrite (since_begin_unknown W tx Hfresh) in H).
  rewrite project_records_app, Hm. simpl. unfold project_record at 1. simpl. unfold project_begin. simpl. rewrite Hv, Hb, Hnone. simpl.
  set (t := {| prj_effect_id := effect_id |}). rewrite project_records_app.
  rewrite (project_middle (<[tx := t]> m) tx t) by (done || by rewrite lookup_insert_eq).
  simpl. unfold project_record. simpl. rewrite lookup_insert_eq. rewrite (bool_decide_eq_true_2 (effect_id = prj_effect_id t)) by done. simpl.
  eexists. split; [done|]. intros q. rewrite !elem_of_pending. unfold pending_commit.
  destruct (decide (per_tx_id q = tx)) as [->|Hne].
  - rewrite lookup_insert_eq, Hnone. simpl. split; [intros [= <-]; by right|by intros [?| ->]].
  - rewrite !lookup_insert_ne by done. split; [by left|]. intros [| ->]; [done|by destruct Hne].
Qed.

(** ** A transaction that died right after its [Begin] *)

Section begun.
Context {codec : EffectCodec} {laws : EffectCodecLaws codec} (wal : string) (wk : Key).
Hypothesis Hwk : normalized_effect_relative_path wal = Some wk.
Context (W : list EffectWalRecord) (tx : string) (effect_id : StableId).
Context (provenance : EffectExecutionProvenance) (binding : EffectReplayCommitBinding).
Hypothesis HW : settled_log W.
Hypothesis Hfresh : forall record, record ∈ W -> ewr_tx_id record ≠ tx.

Notation begin := (begin_with_authority tx effect_id provenance binding).
Notation marker := (record_stage tx (mk_StableId "unknown_effect") EffectWalStage_RecoveredRollback).
Hypothesis Hext : names_external_publication begin = false.

Lemma begun_own d : Forall (own_record wk d tx) [begin].
Proof. apply Forall_singleton. by split. Qed.

(** Recovery closes it, under an effect id of its own. *)
Lemma begun_recovered d : clean_log wk d (W ++ [begin])%list ->
  exists r d', runs (reconcile_effects wal) d = (Returned (Ok r), d') /\ ewv_status r = EffectWalRecoveryStatus_Recovered
    /\ clean_log wk d' ((W ++ [begin]) ++ [marker])%list /\ is_Some (d' !! wk).
Proof.
  intros Hc. destruct (own_settled wk d tx W HW _ (begun_own d)) as [He Hr].
  assert (incomplete_wal_transactions (W ++ [begin])%list = [tx]) as Hinc.
  { apply (own_incomplete wk d tx W HW Hfresh _ (begun_own d)). split; [exists begin; split; [by left|done]|by intros r ->%list_elem_of_singleton]. }
  assert (before_images_of tx (W ++ [begin])%list = []) as Himg by (by rewrite (own_images wk d tx W Hfresh _ (begun_own d))).
  destruct (record_total marker) as [v Hv]. unfold clean_log, log_bytes in Hc.
  destruct (d !! wk) as [b|] eqn:Hd; simpl in Hc; [|apply encode_log_nil in Hc; by destruct W].
  assert (answers (read_authority_file (Some wk)) d (Ok b)) as Hread by (unfold answers; simpl; rewrite (answers_read wk d); by rewrite Hd).
  unfold runs, reconcile_effects, repair_effect_wal_tail_under_lock, recover_effect_wal_under_publication_root.
  rewrite (reconciliation_path wal wk Hwk), (proj2 (normalized_effect_key _ _ Hwk)), Hwk.
  assert (answers (let! r := authority_leaf_exists (Some wk) in match r with
    | Ok true => repair_effect_wal_tail_retained wk | Ok false => io_ret (Ok false) | Err _ => io_ret (Err Reconcile_WalRead) end) d (Ok false)) as Hrep.
  { unfold answers. rewrite (answers_bind _ _ d _ (answers_exists wk d)), Hd. simpl. unfold repair_effect_wal_tail_retained.
    rewrite (answers_bind _ _ d _ Hread). by rewrite (complete_log_seen _ _ Hc). }
  rewrite (answers_bind _ _ d _ Hrep). unfold io_bind at 1. rewrite (answers_bind _ _ d _ Hread).
  rewrite from_utf8_ok by (by eapply encode_log_utf8). rewrite (parse_recovery_ok _ _ Hc).
  unfold recover_records. rewrite He, Hr, Hinc. cbn [is_nil negb].
  assert (append_effect_wal_record_for_publication wal marker d [] = (Returned (Ok tt), append_to wk (v ++ [LF])%list d, [])) as Happ.
  { unfold append_effect_wal_record_for_publication. by rewrite (proj2 (normalized_effect_key _ _ Hwk)), Hwk, Hv. }
  unfold io_map, recover_transaction. rewrite Himg. unfold io_bind. simpl. unfold io_bind, io_ret. rewrite Happ. simpl.
  eexists _, _. split; [reflexivity|]. split; [reflexivity|]. split.
  - unfold clean_log. rewrite append_to_bytes. unfold log_bytes. rewrite Hd. by eapply encode_log_snoc.
  - unfold append_to. rewrite lookup_insert_eq. by eexists.
Qed.

(** The projection then refuses the log. *)
Lemma begun_refused m : project_records ∅ W = Ok m -> verify_provenance provenance = true ->
  validate_effect_replay_binding binding = Ok tt -> effect_id ≠ mk_StableId "unknown_effect" ->
  project_records ∅ ((W ++ [begin]) ++ [marker])%list
  = Err (Reconcile_ConflictingTransaction tx "effect id changed within transaction").
Proof.
  intros Hm Hv Hb Hid. pose proof (projects_all _ _ Hm tx) as Hnone. rewrite (since_begin_unknown W tx Hfresh) in Hnone.
  rewrite !project_records_app, Hm. simpl. unfold project_record at 1. simpl. unfold project_begin. simpl. rewrite Hv, Hb, Hnone. simpl.
  unfold project_record. simpl. rewrite lookup_insert_eq. simpl. by rewrite bool_decide_eq_false_2 by congruence.
Qed.

End begun.

(** ** The claims *)

(** C40: A flaw.  If the process dies after the [Begin] record of a transaction under a reservation and
    before its first before image, reconciling succeeds and reports the recovery, but with an effect id that
    is not the transaction's; from then on the commits left open cannot be read off the log at all, because
    the projection refuses a transaction whose effect id changes. *)
Theorem begun_recovery_blocks_replay {codec : EffectCodec} {laws : EffectCodecLaws codec} wal wk W tx effect_id provenance binding ps d :
  normalized_effect_relative_path wal = Some wk -> settled_log W -> (forall record, record ∈ W -> ewr_tx_id record ≠ tx) ->
  let begin := begin_with_authority tx effect_id provenance binding in
  names_external_publication begin = false -> verify_provenance provenance = true -> validate_effect_replay_binding binding = Ok tt ->
  project_pending_effect_replay_commits W = Ok ps -> effect_id ≠ mk_StableId "unknown_effect" ->
  clean_log wk d (W ++ [begin])%list ->
  exists r d', runs (reconcile_effects wal) d = (Returned (Ok r), d') /\ ewv_status r = EffectWalRecoveryStatus_Recovered
    /\ fst (runs (pending_effect_replay_commits_under_lock wal) d')
       = Returned (Err (Reconcile_ConflictingTransaction tx "effect id changed within transaction")).
Proof.
  intros Hwk HW Hfresh begin Hext Hv Hb Hps Hid Hc. unfold project_pending_effect_replay_commits in Hps.
  destruct (project_records ∅ W) as [m|e] eqn:Em; [|done].
  destruct (begun_recovered wal wk Hwk W tx effect_id provenance binding HW Hfresh Hext d Hc) as (r & d' & Hr & Hst & Hl & Hex).
  exists r, d'. split; [done|]. split; [done|].
  pose proof (repaired_pending_wp wk (fun _ => False) d' _ Hl [] ltac:(constructor)) as H.
  unfold runs, pending_effect_replay_commits_under_lock. rewrite (reconciliation_path wal wk Hwk), (answers_bind _ _ d' _ (answers_exists wk d')).
  destruct Hex as [b Hb']. rewrite Hb' in *. simpl. destruct (repaired_pending_calm wk d') as (res & d2 & E). rewrite E in *. simpl.
  destruct H as (_ & _ & _ & Hres). rewrite (Hres (fun p Hp => Hp) (mk_is_Some _ _ eq_refl)).
  unfold project_pending_effect_replay_commits. by rewrite (begun_refused W tx effect_id provenance binding Hfresh m).
Qed.

(** C23: The commits left open by an accepted log are exactly those of its reference definition: for each
    transaction, the first [Begin] that carries a reservation, if a commit follows it and neither a rollback
    nor a completion does.  Each transaction is listed once, with a provenance and a binding that verify. *)
Theorem pending_exact {codec : EffectCodec} records ps : project_pending_effect_replay_commits records = Ok ps ->
  NoDup (map per_tx_id ps)
  /\ (forall p, p ∈ ps <-> open_commit records (per_tx_id p) = Some p)
  /\ Forall (fun p => verify_provenance (per_provenance p) = true /\ validate_effect_replay_binding (per_replay_binding p) = Ok tt) ps.
Proof.
  unfold project_pending_effect_replay_commits. destruct (project_records ∅ records) as [m|e] eqn:Em; [|done]. intros [= <-].
  pose proof (projects_all _ _ Em) as Hp. split_and!; [apply NoDup_pending|intros p; rewrite <- (pending_commit_open _ m) by done; apply elem_of_pending|].
  apply Forall_forall. intros p Hin%elem_of_pending. specialize (Hp (per_tx_id p)). unfold pending_commit in Hin.
  destruct (m !! per_tx_id p) as [t|] eqn:Et; [|done]. destruct (since_begin _ _) as [[b l]|]; [|done].
  destruct Hp as (t' & ? & Hp). simplify_eq. case_match; [|done]. destruct p; simpl in *; simplify_eq. split; apply Hp.
Qed.

(** C20: Completing a commit.  Whatever faults occur, no file but the log changes.  If the call succeeds, the
    commit was open with exactly this effect and binding, the consumed reservation is the next revision of
    the reservation of the binding, the log holds the records it held and the completion record after them,
    and it is accepted with that commit closed and every other one as it was.  If it fails or the process
    dies, the disk is unchanged, or the log holds the records it held and after them nothing, the completion
    record or a torn part of it.  Without failures it succeeds whenever the checks on its arguments hold. *)
Theorem completion_exact {codec : EffectCodec} {laws : EffectCodecLaws codec} wal wk d rs tx_id effect_id binding replay recovered ps fs :
  normalized_effect_relative_path wal = Some wk -> clean_log wk d rs ->
  project_pending_effect_replay_commits rs = Ok ps ->
  let '(outcome, d', _) := append_effect_replay_completion_under_lock wal tx_id effect_id binding replay recovered d fs in
  same_files wk d d'
  /\ match outcome with
     | Returned (Ok r) =>
         (exists p, p ∈ ps /\ per_tx_id p = tx_id /\ per_effect_id p = effect_id /\ per_replay_binding p = binding)
         /\ rv_revision (rcon_reservation replay) = (erb_reservation_revision binding + 1)%Z
         /\ rv_state (rcon_reservation replay) = ReplayReservationState_Consumed
         /\ replay_completion_for tx_id binding replay recovered = Ok (ecr_completion r)
         /\ let rs' := (rs ++ [replay_consumed tx_id effect_id binding (ecr_completion r)])%list in
            clean_log wk d' rs'
            /\ exists ps', project_pending_effect_replay_commits rs' = Ok ps'
                 /\ forall q, q ∈ ps' <-> q ∈ ps /\ per_tx_id q ≠ tx_id
     | Returned (Err _) =>
         completion_torn wk d rs tx_id effect_id binding replay recovered d'
         /\ (fs = [] -> is_ok (replay_completion_for tx_id binding replay recovered) = false \/ d !! wk = None
                       \/ existsb (is_exact_commit tx_id effect_id binding) ps = false)
     | Crashed => completion_torn wk d rs tx_id effect_id binding replay recovered d'
     end.
Proof.
  intros Hwk Hc Hp. unfold project_pending_effect_replay_commits in Hp. destruct (project_records ∅ rs) as [m|e] eqn:Em; [|done]. simplify_eq.
  pose proof (completion_wp wal wk Hwk (fun _ => True) d rs tx_id effect_id binding replay recovered m Hc Em fs (Forall_true _ _ (fun _ => I))) as H.
  pose proof (completion_wp wal wk Hwk (fun _ => False) d rs tx_id effect_id binding replay recovered m Hc Em []  (Forall_nil_2 _)) as H0.
  assert (never_fails (fun _ => False)) as Hnf by (by intros p []).
  destruct (append_effect_replay_completion_under_lock _ _ _ _ _ _ d fs) as [[[[r|e]|] d'] fs'] eqn:E.
  - destruct H as (_ & Hs & Hok & _). split; [done|]. destruct (Hok r eq_refl) as (Hex & Hcomp & Hl). split; [done|].
    destruct (replay_completion_ok _ _ _ _ _ Hcomp) as (Hrev & Hst & _ & _).
    split_and!; [done|done|done|]. destruct Hex as (p & Hin & <- & <- & <-).
    destruct (completion_accepted rs m p replay recovered _ Em Hin Hcomp) as (m' & Hm' & Hq).
    split; [done|]. exists (pending_commits m').
    split; [unfold project_pending_effect_replay_commits; by rewrite Hm'|done].
  - destruct H as (_ & Hs & _ & _ & Htorn). split; [done|]. split; [by apply Htorn|].
    intros ->. rewrite E in H0. destruct H0 as (_ & _ & _ & Hno & _). by apply Hno.
  - split; [apply H|done].
Qed.

(** C10: An applied effect is a commit to complete.  If the log was settled and accepted, operations do not
    fail, and the effect was applied under its reservation, then the log that results is accepted, and the
    commits open in it are those open before and this one, with its provenance and binding. *)
Theorem applied_effect_pending {codec : EffectCodec} {laws : EffectCodecLaws codec} root wal wk effect payloads tx provenance binding d0 W ps fs :
  normalized_effect_relative_path wal = Some wk -> spares_log wk effect payloads d0 ->
  clean_log wk d0 W -> settled_log W -> (forall record, record ∈ W -> ewr_tx_id record ≠ tx) ->
  names_external_publication (begin_with_authority tx (te_id (ted_tool_effect_contract effect)) provenance binding) = false ->
  project_pending_effect_replay_commits W = Ok ps -> Forall crash_only fs ->
  let '(outcome, d, _) :=
    apply_file_effect_transaction_with_provenance_under_lock root effect payloads wal tx provenance binding d0 fs in
  forall res, outcome = Returned res -> ear_status res = EffectApplicationStatus_Applied ->
  exists rs ps', clean_log wk d rs /\ settled_log rs /\ project_pending_effect_replay_commits rs = Ok ps'
    /\ forall q, q ∈ ps' <-> q ∈ ps \/ q = committed_as tx (te_id (ted_tool_effect_contract effect)) provenance binding.
Proof.
  intros Hwk Hspare Hlog HW Hfresh Hext Hps Hfs. unfold apply_file_effect_transaction_with_provenance_under_lock.
  unfold project_pending_effect_replay_commits in *. destruct (project_records ∅ W) as [m|e] eqn:Em; [|done]. simplify_eq.
  destruct (verify_provenance provenance) eqn:Ev; [destruct (validate_effect_replay_binding binding) as [[]|e] eqn:Eb|]; cbn [negb];
    [|by intros res [= <-]..].
  pose proof (inner_crash_wp root wal wk effect payloads tx d0 Hwk Hspare W Hlog HW Hfresh crash_only (Some (provenance, binding))
    crash_only_never_fails Hext fs Hfs) as H.
  destruct (apply_file_effect_transaction_with_wal_inner _ _ _ _ _ _ d0 fs) as [[[res|] d] fs']; [|by intros]. intros ? [= <-] Ha.
  destruct H as (_ & _ & (rs & Hl & Hs & _ & Hshape) & _). destruct (Hshape Ha) as (middle & -> & Hmid).
  destruct (project_committed W m tx _ provenance binding middle Em Hfresh Ev Eb Hmid) as (m' & Hm' & Hq).
  eexists _, (pending_commits m'). split_and!; [exact Hl|exact Hs|simpl in *; by rewrite Hm'|exact Hq].
Qed.

(** * Settled logs *)

Section settled.
Context {codec : EffectCodec} {laws : EffectCodecLaws codec} (wal : string) (wk : Key).
Hypothesis Hwk : normalized_effect_relative_path wal = Some wk.

Lemma recover_settled_wp P d rs : clean_log wk d rs -> settled_log rs ->
  wp P (recover_effect_wal_under_publication_root wal)
    (fun res d' => d' = d /\ (never_fails P -> ewv_status res ≠ EffectWalRecoveryStatus_RecoveryFailed)) (eq d) d.
Proof.
  intros Hc [Hi Hu Hn]. unfold recover_effect_wal_under_publication_root. rewrite (proj2 (normalized_effect_key _ _ Hwk)), Hwk.
  apply wp_bind, wp_read; [intros b Hb|intros Hb|intros p Hp|done].
  - assert (encode_log rs = Some b) as He by (unfold clean_log, log_bytes in Hc; by rewrite Hb in Hc).
    rewrite from_utf8_ok by (by eapply encode_log_utf8). rewrite (parse_recovery_ok rs) by done. unfold recover_records.
    rewrite Hi, Hu, Hn. by apply wp_ret.
  - by apply wp_ret.
  - apply wp_ret. split; [done|]. intros Hnf. by destruct (Hnf p).
Qed.

Context (Φ : Disk -> list EffectWalRecord -> Prop).
Hypothesis HΦ : forall d d' rs, same_files wk d d' -> Φ d rs -> Φ d' rs.
Hypothesis Hset : forall d rs, Φ d rs -> settled_log rs.

Definition settled_end (P : Fault -> Prop) (d : Disk) (r : Result EffectWalRecoveryResult EffectReplayReconciliationError) (d' : Disk) : Prop :=
  same_files wk d d' /\ Recoverable wk Φ d'
  /\ (forall res, r = Ok res -> exists rs, Φ d' rs /\ clean_log wk d' rs)
  /\ (never_fails P -> exists res, r = Ok res /\ ewv_status res ≠ EffectWalRecoveryStatus_RecoveryFailed).

Lemma settled_recover_wp P d0 d rs : same_files wk d0 d -> clean_log wk d rs -> Φ d rs ->
  wp P (let! r := recover_effect_wal_under_publication_root wal in io_ret (Ok r)) (settled_end P d0)
    (fun d' => same_files wk d0 d' /\ Recoverable wk Φ d') d.
Proof.
  intros Hs Hc HF. pose proof (clean_recoverable wk Φ _ _ HF Hc) as HR.
  apply wp_bind. eapply wp_mono; [by eapply recover_settled_wp; [exact Hc|eauto]| |by intros d' <-].
  intros res d' [-> Hnf]. apply wp_ret. split_and!; [done|done|intros ? _; by exists rs|intros Hn; exists res; auto].
Qed.

(** The invariant at one disk and after it. *)
Definition since (d d' : Disk) (rs : list EffectWalRecord) : Prop := same_files wk d d' /\ Φ d' rs.

Lemma since_files d d1 d2 rs : same_files wk d1 d2 -> since d d1 rs -> since d d2 rs.
Proof. intros Hs [H1 H2]. split; [by eapply same_files_trans|by eapply HΦ]. Qed.

Lemma since_recoverable d d' : Recoverable wk (since d) d' -> same_files wk d d' /\ Recoverable wk Φ d'.
Proof.
  intros (rs & [Hs HF] & H). split; [done|]. exists rs. split; [done|].
  destruct H as [H|(b & r & v & n & ? & ? & ? & ? & [_ ?])]; [by left|right]. by exists b, r, v, n.
Qed.

Lemma recoverable_since d : Recoverable wk Φ d -> Recoverable wk (since d) d.
Proof.
  intros (rs & HF & H). exists rs. split; [done|]. destruct H as [H|(b & r & v & n & ? & ? & ? & ? & ?)]; [by left|right]. by exists b, r, v, n.
Qed.

Lemma reconcile_settled_wp P d : Recoverable wk Φ d ->
  wp P (reconcile_effects wal) (settled_end P d) (fun d' => same_files wk d d' /\ Recoverable wk Φ d') d.
Proof.
  intros HR. unfold reconcile_effects, repair_effect_wal_tail_under_lock. rewrite (reconciliation_path wal wk Hwk).
  assert (same_files wk d d /\ Recoverable wk Φ d) as Hd by done.
  assert (forall e, ~ never_fails P -> settled_end P d (Err e) d) as Hfail by (by intros e Hn).
  apply wp_bind, wp_bind. unfold authority_leaf_exists.
  apply wp_bind, wp_read; [intros b Hb|intros Hb|intros p Hp|done]; apply wp_ret.
  - eapply wp_mono; [apply (repair_tail_wp wk (since d) (since_files d)); by apply recoverable_since| |by apply since_recoverable].
    intros r d1 (Hs & Hr & Hnf). destruct r as [repaired|e]; simpl in Hr.
    + destruct Hr as (rs & [_ HF] & Hc). by apply (settled_recover_wp P d d1 rs).
    + apply wp_ret. apply since_recoverable in Hr as [? ?]. split_and!; [done|done|done|]. intros Hn. specialize (Hnf Hn). rewrite Hb in Hnf. by discriminate Hnf.
  - apply wp_ret. destruct (recoverable_cases wk Φ d HR) as [(rs & HF & Hc)|(rs & b & r & v & n & _ & _ & _ & Hv & Hn & Ht)]; [by apply (settled_recover_wp P d d rs)|].
    unfold log_bytes in Ht. rewrite Hb in Ht. symmetry in Ht. apply app_nil in Ht as [_ Ht]. destruct v, n; simpl in *; (done || lia).
  - apply wp_ret, wp_ret. apply Hfail. intros Hnf. by destruct (Hnf p).
Qed.

End settled.

Section pending.
Context {codec : EffectCodec} {laws : EffectCodecLaws codec} (wal : string) (wk : Key).
Hypothesis Hwk : normalized_effect_relative_path wal = Some wk.

Lemma pending_wp P d rs : clean_log wk d rs ->
  wp P (pending_effect_replay_commits_under_lock wal)
    (fun r d' => d' = d /\ (forall ps, r = Ok ps -> project_pending_effect_replay_commits rs = Ok ps)
       /\ (never_fails P -> r = project_pending_effect_replay_commits rs)) (eq d) d.
Proof.
  intros Hc. unfold pending_effect_replay_commits_under_lock. rewrite (reconciliation_path wal wk Hwk).
  apply wp_bind. unfold authority_leaf_exists. apply wp_bind, wp_read; [intros b Hb|intros Hb|intros p Hp|done]; apply wp_ret.
  - eapply wp_mono; [by apply repaired_pending_wp| |done]. intros r d' (-> & Hps & Hn). split_and!; [done|done|]. intros Hnf. by apply Hn.
  - apply wp_ret. assert (rs = []) as -> by (apply encode_log_nil; unfold clean_log, log_bytes in Hc; by rewrite Hb in Hc).
    split_and!; [done|by intros ps [= <-]|done].
  - apply wp_ret. split_and!; [done|done|]. intros Hnf. by destruct (Hnf p).
Qed.

End pending.

(** ** What a transaction leaves open *)

(** No commit is open, as far as the log is accepted. *)
Definition nothing_open {codec : EffectCodec} (rs : list EffectWalRecord) : Prop :=
  forall ps, project_pending_effect_replay_commits rs = Ok ps -> ps = [].

Lemma since_begin_app tx_id records more :
  (forall record, record ∈ more -> ewr_tx_id record ≠ tx_id) ->
  since_begin tx_id (records ++ more)%list =
  match since_begin tx_id records with Some (begin, later) => Some (begin, later ++ more)%list | None => None end.
Proof.
  intros Hm. induction records as [|r records IH]; simpl; [by apply since_begin_unknown|]. by destruct (bound_begin tx_id r).
Qed.

Lemma has_stage_others tx_id f records more :
  (forall record, record ∈ more -> ewr_tx_id record ≠ tx_id) -> has_stage tx_id f (records ++ more)%list = has_stage tx_id f records.
Proof.
  intros Hm. unfold has_stage. rewrite existsb_app, (proj2 (existsb_not_In _ more)), orb_false_r; [done|].
  intros r Hr. by rewrite bool_decide_eq_false_2 by (by apply Hm).
Qed.

Lemma open_commit_others records more tx_id :
  (forall record, record ∈ more -> ewr_tx_id record ≠ tx_id) -> open_commit (records ++ more)%list tx_id = open_commit records tx_id.
Proof.
  intros Hm. unfold open_commit. rewrite since_begin_app by done. destruct (since_begin tx_id records) as [[begin later]|]; [|done].
  by rewrite !has_stage_others.
Qed.

Lemma open_commit_committed records tx_id p : open_commit records tx_id = Some p -> committed tx_id records.
Proof.
  unfold open_commit. destruct (since_begin tx_id records) as [[begin later]|] eqn:E; [|done].
  destruct (ewr_execution_provenance begin), (ewr_replay_binding begin); try done. destruct (has_stage tx_id is_commit later) eqn:Ec; [|done].
  intros _. apply existsb_exists in Ec as (r & Hr%list_elem_of_In & [Ht%bool_decide_eq_true Hs]%andb_true_iff). apply bool_decide_eq_true in Hs.
  exists r. split_and!; [|done|done]. clear Ht Hs. revert begin later E Hr. induction records as [|r0 records IH]; intros begin later E Hr; simpl in *; [done|].
  destruct (bound_begin tx_id r0); [simplify_eq; by right|]. right. by eapply IH.
Qed.

Lemma pending_iff_open {codec : EffectCodec} rs ps p : project_pending_effect_replay_commits rs = Ok ps ->
  p ∈ ps <-> open_commit rs (per_tx_id p) = Some p.
Proof.
  unfold project_pending_effect_replay_commits. destruct (project_records ∅ rs) as [m|] eqn:Em; [|done]. intros [= <-].
  rewrite <- (pending_commit_open _ m) by (by apply projects_all). apply elem_of_pending.
Qed.

(** After the records of a transaction that did not commit, nothing more is open. *)
Lemma uncommitted_nothing_open {codec : EffectCodec} W records tx :
  project_pending_effect_replay_commits W = Ok [] -> (forall record, record ∈ records -> ewr_tx_id record = tx) ->
  ~ committed tx (W ++ records)%list -> nothing_open (W ++ records)%list.
Proof.
  intros HW Ho Hn ps Hp. destruct ps as [|p ps]; [done|exfalso].
  pose proof (proj1 (pending_iff_open _ _ p Hp) (list_elem_of_here _ _)) as Hopen.
  destruct (decide (per_tx_id p = tx)) as [He|Hne]; [apply Hn; rewrite <- He; by eapply open_commit_committed|].
  rewrite open_commit_others in Hopen by (intros r ->%Ho; congruence).
  apply (pending_iff_open _ _ p HW) in Hopen. by apply elem_of_nil in Hopen.
Qed.

(** The records of a transaction that committed. *)
Lemma shaped_committed tx begin eid records c : ewr_stage begin = EffectWalStage_Begin -> shaped tx begin eid records ->
  c ∈ records -> ewr_stage c = EffectWalStage_Commit ->
  exists middle, records = ((begin :: middle) ++ [record_stage tx eid EffectWalStage_Commit])%list /\ Forall (quiet tx eid) middle.
Proof.
  intros Hb [->|[Hbg|(opened & record & -> & Hbg & e & stage & -> & Hcl & He)]] Hin Hc; [by apply elem_of_nil in Hin| |].
  - pose proof (begun_open tx begin eid Hb records c Hbg Hin) as H. by rewrite Hc in H.
  - apply elem_of_app in Hin as [Hin| ->%list_elem_of_singleton].
    + pose proof (begun_open tx begin eid Hb opened c Hbg Hin) as H. by rewrite Hc in H.
    + simpl in Hc. subst stage. destruct He as [->|(? & _)]; [|done]. destruct Hbg as (middle & -> & Hq). by exists middle.
Qed.

Section committed.
Context {codec : EffectCodec} (W : list EffectWalRecord) (tx : string) (eid : StableId).
Context (provenance : EffectExecutionProvenance) (binding : EffectReplayCommitBinding).
Hypothesis HW : project_pending_effect_replay_commits W = Ok [].
Hypothesis Hfresh : forall record, record ∈ W -> ewr_tx_id record ≠ tx.
Hypothesis Hverify : verify_provenance provenance = true.
Hypothesis Hbinding : validate_effect_replay_binding binding = Ok tt.

Notation begin := (begin_with_authority tx eid provenance binding).
Notation pending := (committed_as tx eid provenance binding).

(** The log once it has committed, and once its reservation is recorded as consumed. *)
Definition committed_log (C : list EffectWalRecord) : Prop :=
  exists middle, C = (W ++ (begin :: middle) ++ [record_stage tx eid EffectWalStage_Commit])%list /\ Forall (quiet tx eid) middle.

Lemma committed_projected C : committed_log C -> exists m, project_records ∅ C = Ok m /\ pending_commits m = [pending].
Proof.
  intros (middle & -> & Hq). unfold project_pending_effect_replay_commits in HW. destruct (project_records ∅ W) as [m0|] eqn:Em; [|done].
  injection HW as Hnil. destruct (project_committed W m0 tx eid provenance binding middle Em Hfresh Hverify Hbinding Hq) as (m & Hm & Hp).
  exists m. split; [done|]. rewrite Hnil in Hp. pose proof (NoDup_pending m) as Hnd.
  assert (forall q, q ∈ pending_commits m <-> q = pending) as Hq' by (intros q; rewrite Hp, elem_of_nil; naive_solver).
  destruct (pending_commits m) as [|p [|p' ps]].
  - exfalso. apply (elem_of_nil pending). by apply Hq'.
  - f_equal. apply Hq'. by left.
  - exfalso. rewrite (proj1 (Hq' p)), (proj1 (Hq' p')) in Hnd by (repeat constructor). apply NoDup_cons in Hnd as [Hn _]. apply Hn. left.
Qed.

Lemma completed_projected C replay recovered completion : committed_log C ->
  replay_completion_for tx binding replay recovered = Ok completion ->
  project_pending_effect_replay_commits (C ++ [replay_consumed tx eid binding completion])%list = Ok [].
Proof.
  intros (m & Hm & Hp)%committed_projected Hc. assert (pending ∈ pending_commits m) as Hin by (rewrite Hp; by left).
  destruct (completion_accepted C m pending replay recovered completion Hm Hin Hc) as (m' & Hm' & Hq). simpl in *.
  unfold project_pending_effect_replay_commits. rewrite Hm'. f_equal. destruct (pending_commits m') as [|q ps] eqn:E; [done|exfalso].
  destruct (proj1 (Hq q)) as [Hq1 Hq2]; [by left|]. rewrite Hp in Hq1. by apply list_elem_of_singleton in Hq1 as ->.
Qed.

End committed.

(** The record that completes a commit leaves the log settled. *)
Lemma settled_completed rs tx eid binding completion : settled_log rs -> settled_log (rs ++ [replay_consumed tx eid binding completion])%list.
Proof.
  intros [Hi Hu Hn]. split.
  - by rewrite existsb_app, Hi.
  - rewrite reserved_wal_target_None in *. intros r t [Hr| ->%list_elem_of_singleton]%elem_of_app Ht; [by eapply Hu|done].
  - destruct (incomplete_wal_transactions (rs ++ _)%list) as [|t l] eqn:E; [done|exfalso].
    assert (t ∈ incomplete_wal_transactions (rs ++ [replay_consumed tx eid binding completion])%list) as [Hb Hc]%elem_of_incomplete by (rewrite E; by left).
    apply elem_of_begun in Hb as (r & [Hr| ->%list_elem_of_singleton]%elem_of_app & Hs & <-); [|done].
    assert (ewr_tx_id r ∈ incomplete_wal_transactions rs) as Hin; [|rewrite Hn in Hin; by apply elem_of_nil in Hin].
    apply elem_of_incomplete. split; [apply elem_of_begun; by exists r|]. intros (r' & Hr' & Hcl & He)%elem_of_closed.
    apply Hc, elem_of_closed. exists r'. rewrite elem_of_app. auto.
Qed.
