(* ===== verification/EffectExamples.v ===== *)
(** * A concrete codec and runs of the effect store

    An encoding of log records that satisfies [EffectCodecLaws]: a record becomes a tree of strings, the
    tree a number, and the number the text of its bits between braces. *)

From stdpp Require Import countable.
From S2P Require Import Prelude RustStr Contracts OperationContracts Diagnostics StatePaths EffectTypes CrashIo ReplayWal EffectStore EffectLog EffectCrash EffectRecovery EffectPlan EffectAtomic EffectSafety EffectPreflight EffectReplay EffectPending.

Local Open Scope string_scope.

(** ** Trees *)

Notation Tree := (gen_tree string).

Class Treeable (A : Type) := {
  tree : A -> Tree;
  untree : Tree -> option A;
  untree_tree a : untree (tree a) = Some a
}.

#[export] Instance tree_string : Treeable string.
Proof. refine {| tree s := GenLeaf s; untree t := match t with GenLeaf s => Some s | _ => None end |}. done. Defined.

#[export] Instance tree_nat : Treeable nat.
Proof. refine {| tree n := GenNode n []; untree t := match t with GenNode n _ => Some n | _ => None end |}. done. Defined.

#[export] Instance tree_Z : Treeable Z.
Proof.
  refine {| tree z := GenNode (match z with Z0 => 0 | Zpos _ => 1 | Zneg _ => 2 end) [GenNode (Z.to_nat (Z.abs z)) []];
            untree t := match t with GenNode s [GenNode n []] => Some (match s with 2 => Z.opp (Z.of_nat n) | _ => Z.of_nat n end) | _ => None end |}.
  intros z. f_equal. destruct z; simpl; lia.
Defined.

#[export] Instance tree_option {A} `{Treeable A} : Treeable (option A).
Proof.
  refine {| tree o := match o with Some a => GenNode 1 [tree a] | None => GenNode 0 [] end;
            untree t := match t with GenNode 1 [t] => Some <$> untree t | GenNode _ _ => Some None | _ => None end |}.
  intros [a|]; [by rewrite untree_tree|done].
Defined.

#[export] Instance tree_pair {A B} `{Treeable A, Treeable B} : Treeable (A * B).
Proof.
  refine {| tree p := GenNode 0 [tree (fst p); tree (snd p)];
            untree t := match t with
                        | GenNode _ [t; u] => match untree t, untree u with Some a, Some b => Some (a, b) | _, _ => None end
                        | _ => None
                        end |}.
  intros [a b]. simpl. by rewrite !untree_tree.
Defined.

Definition tree_iso {A B} `{Treeable B} (f : A -> B) (g : B -> A) (gf : forall a, g (f a) = a) : Treeable A.
Proof.
  refine {| tree a := tree (f a); untree t := g <$> untree t |}. intros a. rewrite untree_tree. simpl. by rewrite gf.
Defined.

#[export] Instance tree_bool : Treeable bool := tree_iso (fun b : bool => if b then 1 else 0) (fun n => match n with 1 => true | _ => false end) ltac:(by intros []).
#[export] Instance tree_bytes : Treeable bytes := tree_iso of_bytes to_bytes to_of_bytes.
#[export] Instance tree_StableId : Treeable StableId := tree_iso StableId_0 mk_StableId ltac:(by intros []).

#[export] Instance tree_EffectTargetKind : Treeable EffectTargetKind := tree_iso
  (fun k => match k with EffectTargetKind_FilePath => 0 | EffectTargetKind_Glob => 1 | EffectTargetKind_StateKey => 2
            | EffectTargetKind_ArtifactId => 3 | EffectTargetKind_EvidenceId => 4 | EffectTargetKind_LedgerStream => 5
            | EffectTargetKind_RequestStream => 6 | EffectTargetKind_CompletionId => 7 end)
  (fun n => match n with 0 => EffectTargetKind_FilePath | 1 => EffectTargetKind_Glob | 2 => EffectTargetKind_StateKey
            | 3 => EffectTargetKind_ArtifactId | 4 => EffectTargetKind_EvidenceId | 5 => EffectTargetKind_LedgerStream
            | 6 => EffectTargetKind_RequestStream | _ => EffectTargetKind_CompletionId end) ltac:(by intros []).
#[export] Instance tree_AccessMode : Treeable AccessMode := tree_iso
  (fun k => match k with AccessMode_Read => 0 | AccessMode_Write => 1 | AccessMode_Append => 2 | AccessMode_Create => 3 | AccessMode_Delete => 4 end)
  (fun n => match n with 0 => AccessMode_Read | 1 => AccessMode_Write | 2 => AccessMode_Append | 3 => AccessMode_Create | _ => AccessMode_Delete end)
  ltac:(by intros []).
#[export] Instance tree_ActorRole : Treeable ActorRole := tree_iso
  (fun k => match k with ActorRole_Driver => 0 | ActorRole_Worker => 1 | ActorRole_Human => 2 | ActorRole_Runtime => 3 | ActorRole_Unknown => 4 end)
  (fun n => match n with 0 => ActorRole_Driver | 1 => ActorRole_Worker | 2 => ActorRole_Human | 3 => ActorRole_Runtime | _ => ActorRole_Unknown end)
  ltac:(by intros []).

(** ** JSON values *)

Fixpoint json_tree (j : Json) : Tree :=
  match j with
  | Json_Null => GenNode 0 []
  | Json_Bool b => GenNode 1 [tree b]
  | Json_Number s => GenNode 2 [GenLeaf s]
  | Json_String s => GenNode 3 [GenLeaf s]
  | Json_Array items => GenNode 4 (map json_tree items)
  | Json_Object fields => GenNode 5 (map (fun f => GenNode 0 [GenLeaf (fst f); json_tree (snd f)]) fields)
  end.

Fixpoint json_untree (t : Tree) : option Json :=
  match t with
  | GenNode 0 _ => Some Json_Null
  | GenNode 1 [b] => Json_Bool <$> untree b
  | GenNode 2 [GenLeaf s] => Some (Json_Number s)
  | GenNode 3 [GenLeaf s] => Some (Json_String s)
  | GenNode 4 items => Json_Array <$> mapM json_untree items
  | GenNode 5 fields => Json_Object <$> mapM (fun f => match f with
      | GenNode _ [GenLeaf name; value] => pair name <$> json_untree value
      | _ => None
      end) fields
  | _ => None
  end.

Lemma json_untree_tree : forall j, json_untree (json_tree j) = Some j.
Proof.
  fix IH 1. intros [| b | s | s | items | fields]; simpl; [done|by destruct b|done|done| |].
  - assert (mapM json_untree (map json_tree items) = Some items) as ->; [|done].
    induction items as [|j items IHl]; simpl; [done|]. rewrite (IH j). simpl. by rewrite IHl.
  - match goal with |- _ <$> ?m = _ => assert (m = Some fields) as ->; [|done] end.
    induction fields as [|[name j] fields IHl]; simpl; [done|]. rewrite (IH j). simpl. by rewrite IHl.
Qed.

#[export] Instance tree_Json : Treeable Json := {| tree := json_tree; untree := json_untree; untree_tree := json_untree_tree |}.

(** ** Records *)

#[export] Instance tree_Provenance : Treeable EffectExecutionProvenance := tree_iso
  (fun r => (eep_schema_version r, (eep_digest r, eep_document r)))
  (fun '(a, (b, c)) => {| eep_schema_version := a; eep_digest := b; eep_document := c |}) ltac:(by intros []).
#[export] Instance tree_Binding : Treeable EffectReplayCommitBinding := tree_iso
  (fun r => (erb_key_hash r, (erb_intent_digest r, (erb_commit_digest r, erb_reservation_revision r))))
  (fun '(a, (b, (c, d))) => {| erb_key_hash := a; erb_intent_digest := b; erb_commit_digest := c; erb_reservation_revision := d |})
  ltac:(by intros []).
#[export] Instance tree_Completion : Treeable EffectReplayCompletion := tree_iso
  (fun r => (erc_key_hash r, (erc_reservation_revision r, (erc_consumed_revision r, (erc_consumed_seq r, erc_recovered r)))))
  (fun '(a, (b, (c, (d, e)))) => {| erc_key_hash := a; erc_reservation_revision := b; erc_consumed_revision := c;
     erc_consumed_seq := d; erc_recovered := e |}) ltac:(by intros []).
#[export] Instance tree_Identity : Treeable EffectWalCreatedObjectIdentity := tree_iso
  (fun r => (coi_volume_serial_number r, (coi_file_index r, (coi_creation_time r, coi_file_attributes r))))
  (fun '(a, (b, (c, d))) => {| coi_volume_serial_number := a; coi_file_index := b; coi_creation_time := c; coi_file_attributes := d |})
  ltac:(by intros []).
#[export] Instance tree_Established : Treeable EffectWalCreateEstablished := tree_iso
  (fun r => (ces_root r, (ces_parent r, ces_file r)))
  (fun '(a, (b, c)) => {| ces_root := a; ces_parent := b; ces_file := c |}) ltac:(by intros []).
#[export] Instance tree_Stage : Treeable EffectWalStage := tree_iso
  (fun s => match s with
            | EffectWalStage_Begin => (0, None) | EffectWalStage_BeforeImage => (1, None)
            | EffectWalStage_CreateEstablished p => (2, Some p) | EffectWalStage_WriteApplied => (3, None)
            | EffectWalStage_Commit => (4, None) | EffectWalStage_RollbackComplete => (5, None)
            | EffectWalStage_RecoveredRollback => (6, None) | EffectWalStage_ReplayConsumed => (7, None) end)
  (fun p => match p with
            | (0, _) => EffectWalStage_Begin | (1, _) => EffectWalStage_BeforeImage
            | (2, Some p) => EffectWalStage_CreateEstablished p | (3, _) => EffectWalStage_WriteApplied
            | (4, _) => EffectWalStage_Commit | (5, _) => EffectWalStage_RollbackComplete
            | (6, _) => EffectWalStage_RecoveredRollback | _ => EffectWalStage_ReplayConsumed end) ltac:(by intros []).
#[export] Instance tree_Original : Treeable EffectWalOriginal := tree_iso
  (fun r => (ewo_existed r, (ewo_content r, ewo_content_hash r)))
  (fun '(a, (b, c)) => {| ewo_existed := a; ewo_content := b; ewo_content_hash := c |}) ltac:(by intros []).
#[export] Instance tree_Metadata : Treeable EffectWalTargetMetadata := tree_iso
  (fun r => (etm_operation_id r, (etm_target_kind r, (etm_access_mode r, (etm_content_hash r, (etm_byte_len r,
     (etm_actor_agent_id r, (etm_actor_role r, (etm_destructive r, etm_redaction_hint r)))))))))
  (fun '(a, (b, (c, (d, (e, (f, (g, (h, i)))))))) => {| etm_operation_id := a; etm_target_kind := b; etm_access_mode := c;
     etm_content_hash := d; etm_byte_len := e; etm_actor_agent_id := f; etm_actor_role := g; etm_destructive := h;
     etm_redaction_hint := i |}) ltac:(by intros []).
#[export] Instance tree_Record : Treeable EffectWalRecord := tree_iso
  (fun r => (ewr_schema_version r, (ewr_tx_id r, (ewr_stage r, (ewr_effect_id r, (ewr_target_ref r, (ewr_physical_target_ref r,
     (ewr_target_metadata r, (ewr_original r, (ewr_diagnostic r, (ewr_execution_provenance r, (ewr_replay_binding r,
     ewr_replay_completion r))))))))))))
  (fun '(a, (b, (c, (d, (e, (f, (g, (h, (i, (j, (k, l))))))))))) => {| ewr_schema_version := a; ewr_tx_id := b; ewr_stage := c;
     ewr_effect_id := d; ewr_target_ref := e; ewr_physical_target_ref := f; ewr_target_metadata := g; ewr_original := h;
     ewr_diagnostic := i; ewr_execution_provenance := j; ewr_replay_binding := k; ewr_replay_completion := l |}) ltac:(by intros []).

(** ** Text *)

(** Three bits a character, a letter for the last ones. *)
Fixpoint octal (p : positive) : bytes :=
  match p with
  | 1 => ["a"] | 2 => ["b"] | 3 => ["c"] | 4 => ["d"] | 5 => ["e"] | 6 => ["f"] | 7 => ["g"]
  | p~0~0~0 => "0" :: octal p | p~0~0~1 => "1" :: octal p | p~0~1~0 => "2" :: octal p | p~0~1~1 => "3" :: octal p
  | p~1~0~0 => "4" :: octal p | p~1~0~1 => "5" :: octal p | p~1~1~0 => "6" :: octal p | p~1~1~1 => "7" :: octal p
  end%positive%char.

(** The number whose text comes first, up to the closing brace. *)
Fixpoint unoctal (b : bytes) : option positive :=
  match b with
  | ["a"; "}"] => Some 1 | ["b"; "}"] => Some 2 | ["c"; "}"] => Some 3 | ["d"; "}"] => Some 4
  | ["e"; "}"] => Some 5 | ["f"; "}"] => Some 6 | ["g"; "}"] => Some 7
  | "0" :: b => (fun p => p~0~0~0) <$> unoctal b | "1" :: b => (fun p => p~0~0~1) <$> unoctal b
  | "2" :: b => (fun p => p~0~1~0) <$> unoctal b | "3" :: b => (fun p => p~0~1~1) <$> unoctal b
  | "4" :: b => (fun p => p~1~0~0) <$> unoctal b | "5" :: b => (fun p => p~1~0~1) <$> unoctal b
  | "6" :: b => (fun p => p~1~1~0) <$> unoctal b | "7" :: b => (fun p => p~1~1~1) <$> unoctal b
  | _ => None
  end%positive%char.

Lemma unoctal_octal : forall p, unoctal (octal p ++ ["}"%char])%list = Some p.
Proof.
  fix IH 1. intros p. destruct p as [p|p|]; [destruct p as [p|p|]; [destruct p|destruct p|]|destruct p as [p|p|]; [destruct p|destruct p|]|];
    try reflexivity; cbn [octal app unoctal]; rewrite IH; reflexivity.
Qed.

Definition plain (c : ascii) : bool := in_range 48 55 (code c) || in_range 97 103 (code c).

Lemma octal_plain : forall p, Forall (fun c => plain c = true) (octal p).
Proof.
  fix IH 1. intros p. destruct p as [p|p|]; [destruct p as [p|p|]; [destruct p|destruct p|]|destruct p as [p|p|]; [destruct p|destruct p|]|];
    cbn [octal]; (constructor; [reflexivity|]); (apply IH || constructor).
Qed.

(** Text without the closing brace is no number. *)
Lemma unoctal_open b : Forall (fun c => plain c = true) b -> unoctal b = None.
Proof.
  induction b as [|c b IH]; intros H; [done|]. apply Forall_cons in H as [Hc H]. specialize (IH H).
  assert (forall rest, b ≠ "}"%char :: rest) as Hb by (intros rest ->; by apply Forall_cons in H as [? _]).
  destruct (in_range 48 55 (code c)) eqn:Hd.
  - clear Hc Hb H. destruct c as [[] [] [] [] [] [] [] []]; try discriminate Hd; cbn [unoctal]; by rewrite IH.
  - destruct b as [|c' b]; [by destruct c as [[] [] [] [] [] [] [] []]|].
    assert (c' ≠ "}"%char) as Hc' by (intros ->; by eapply Hb).
    destruct c as [[] [] [] [] [] [] [] []]; try discriminate Hc; try discriminate Hd; cbn [unoctal];
      destruct c' as [[] [] [] [] [] [] [] []]; done.
Qed.

(** The text of a number in braces; anything else is not the text of a number. *)
Definition braced (p : positive) : bytes := ("{"%char :: octal p ++ ["}"%char])%list.

Definition unbraced (b : bytes) : option positive := match b with "{"%char :: b => unoctal b | _ => None end.

Lemma unbraced_braced p : unbraced (braced p) = Some p.
Proof. apply unoctal_octal. Qed.

Lemma unbraced_torn p k : (0 < k < length (braced p))%nat -> unbraced (take k (braced p)) = None.
Proof.
  unfold braced. intros Hk. destruct k as [|k]; [lia|]. cbn [take unbraced]. cbn [length] in Hk. rewrite length_app in Hk. cbn [length] in Hk.
  rewrite take_app_le by lia. apply unoctal_open, Forall_take, octal_plain.
Qed.

Definition tree_text (t : Tree) : bytes := braced (encode t).
Definition text_tree (s : string) : option Tree := match unbraced (to_bytes s) with Some p => decode p | None => None end.

Lemma text_tree_text t : text_tree (of_bytes (tree_text t)) = Some t.
Proof. unfold text_tree, tree_text. rewrite to_of_bytes, unbraced_braced. apply decode_encode. Qed.

(** A digest of thirty-two bytes, enough to tell the contents of the examples apart. *)
Definition toy_sha256 (b : bytes) : bytes := take 32 (b ++ repeat "x"%char 32)%list.

#[export] Instance toy_codec : EffectCodec := {|
  effect_sha256 := toy_sha256;
  record_to_vec r := Some (tree_text (tree r));
  record_from_str s := text_tree s ≫= untree;
  metadata_to_vec _ := None;
  metadata_from_str _ := None;
  canonical_to_vec j := Some (tree_text (tree j))
|}.

Lemma toy_record_text p : Utf8 (braced p) /\ LF ∉ braced p.
Proof.
  assert (Forall (fun c => (code c <? 128)%N = true /\ c ≠ LF) (braced p)) as H.
  { unfold braced. constructor; [done|]. apply Forall_app. split; [|by repeat constructor].
    eapply Forall_impl; [apply octal_plain|]. intros c Hc. unfold plain, in_range in Hc. split; [|by intros ->].
    apply N.ltb_lt. apply orb_true_iff in Hc as [[_ ?%N.leb_le]%andb_true_iff|[_ ?%N.leb_le]%andb_true_iff]; lia. }
  split.
  - induction (braced p) as [|c b IH]; [constructor|]. apply Forall_cons in H as [[Hc _] H].
    change (c :: b) with ([c] ++ b)%list. apply Utf8_app; [by apply Utf8_ascii|by apply IH].
  - intros Hin. rewrite Forall_forall in H. by destruct (H _ Hin).
Qed.

#[export] Instance toy_laws : EffectCodecLaws toy_codec.
Proof.
  split; cbn [record_to_vec record_from_str toy_codec].
  - intros r v [= <-]. rewrite text_tree_text. exact (untree_tree r).
  - intros r v [= <-]. by eexists.
  - intros r v [= <-]. apply toy_record_text.
  - intros r. by eexists.
  - intros r v k [= <-] Hk. unfold text_tree, tree_text in *. rewrite to_of_bytes. by rewrite unbraced_torn.
Qed.

(** ** An effect of two writes *)

Definition text (s : string) : bytes := to_bytes s.
Definition sha (s : string) : string := sha256_content_hash (text s).

(** Writes a file that is there and creates another; the contract reads the first. *)
Definition demo_effect : ToolEffectContractDocument := {| ted_schema_version := "0.1"; ted_tool_effect_contract := {|
  te_id := mk_StableId "e1"; te_contract_ref := mk_RepoPath "effects/e1.yaml"; te_effect_kind := EffectKind_FileEdit;
  te_operation_ref := mk_StableId "op"; te_actor := {| ea_agent_id := mk_StableId "agent"; ea_role := ActorRole_Worker |};
  te_read_set := [{| er_target_kind := EffectTargetKind_FilePath; er_reference := "docs/a.md"; er_expected_hash := Some (sha "old");
                     er_expected_version := None; er_required_for_plan := true |}];
  te_write_set := [{| ew_target_kind := EffectTargetKind_FilePath; ew_reference := "docs/a.md"; ew_access_mode := AccessMode_Write;
                      ew_expected_hash := Some (sha "old"); ew_expected_version := None; ew_destructive := false |};
                   {| ew_target_kind := EffectTargetKind_FilePath; ew_reference := "docs/b.md"; ew_access_mode := AccessMode_Create;
                      ew_expected_hash := None; ew_expected_version := None; ew_destructive := false |}];
  te_conflict_detection := {| cd_check_against := mk_StableId "ledger"; cd_granularity := mk_StableId "file"; cd_conflict_codes := [];
                              cd_policy := EffectConflictPolicy_Block |};
  te_notification := {| en_required := false; en_recipients := []; en_request_contract_ref := None |};
  te_repair := {| erp_strategy := RepairStrategy_None; erp_automatic_repair_allowed := false; erp_inverse_operation_ref := None;
                  erp_stop_if_inverse_missing := true;
                  erp_inverse := {| inv_kind := InverseKind_None; inv_source := InverseSource_Unavailable; inv_reference := None;
                    inv_input_mapping_refs := []; inv_validation_gate_refs := []; inv_review_required := false |} |} |} |}.

Definition demo_payload (reference content : string) : EffectApplicationPayload :=
  {| pl_target_ref := reference; pl_content := text content; pl_content_hash := sha content |}.
Definition demo_payloads : list EffectApplicationPayload := [demo_payload "docs/a.md" "new"; demo_payload "docs/b.md" "fresh"].

Definition demo_root : EffectRoot := {| root_display := []; root_canonical names := Some (String.concat "/" names) |}.
Definition demo_wal : string := ".forge-method/wal/effects.ndjson".
Definition demo_wk : Key := [".forge-method"; "wal"; "effects.ndjson"].
Definition demo_disk : Disk := <[["docs"; "a.md"] := text "old"]> ∅.
Definition demo_done : Disk := <[["docs"; "a.md"] := text "new"]> (<[["docs"; "b.md"] := text "fresh"]> ∅).

Definition demo_document : Json := Json_Object [("operation", Json_String "op")].
Definition demo_provenance : EffectExecutionProvenance := {| eep_schema_version := "0.1";
  eep_digest := sha256_content_hash (tree_text (tree demo_document)); eep_document := demo_document |}.
Definition demo_binding : EffectReplayCommitBinding := {| erb_key_hash := sha "key"; erb_intent_digest := sha "intent";
  erb_commit_digest := sha "commit"; erb_reservation_revision := 1 |}.

Definition demo_apply : Io EffectApplicationResult :=
  apply_file_effect_transaction_with_provenance_under_lock demo_root demo_effect demo_payloads demo_wal "tx-1" demo_provenance demo_binding.

(** The status a run returns, and whether its files, the log aside, are the given ones. *)
Definition ends {A B} (f : A -> B) (o : Outcome A * Disk * list Fault) : option B :=
  match fst (fst o) with Returned a => Some (f a) | Crashed => None end.
Definition disk_of {A} (o : Outcome A * Disk * list Fault) : Disk := snd (fst o).
Definition has_files (d : Disk) (fs : Disk) : bool := bool_decide (delete demo_wk d = fs).

Definition recovery_status (r : Result EffectWalRecoveryResult EffectReplayReconciliationError) : option EffectWalRecoveryStatus :=
  match r with Ok r => Some (ewv_status r) | Err _ => None end.

(** [n] operations that work, then the given faults. *)
Definition after (n : nat) (fs : list Fault) : list Fault := (repeat Works n ++ fs)%list.

Example demo_applies :
  let o := demo_apply demo_disk [] in ends ear_status o = Some EffectApplicationStatus_Applied /\ has_files (disk_of o) demo_done = true.
Proof. vm_compute. split; reflexivity. Qed.

(** A crash that leaves the second file half written is undone by reconciling. *)
Example demo_crash_recovers :
  let o := demo_apply demo_disk (after 14 [Crashes (Left (Some (text "fr")))]) in
  let r := reconcile_effects demo_wal (disk_of o) [] in
  ends ear_status o = None /\ has_files (disk_of o) (<[["docs"; "b.md"] := text "fr"]> (<[["docs"; "a.md"] := text "new"]> ∅)) = true
  /\ ends recovery_status r = Some (Some EffectWalRecoveryStatus_Recovered) /\ has_files (disk_of r) demo_disk = true.
Proof. vm_compute. repeat split. Qed.

(** ** Witnesses *)

Lemma demo_wal_key : normalized_effect_relative_path demo_wal = Some demo_wk.
Proof. by vm_compute. Qed.

Lemma demo_spares : spares_log demo_wk demo_effect demo_payloads demo_disk.
Proof.
  intros write content Hw. simpl in Hw. repeat (apply elem_of_cons in Hw as [->|Hw]; [vm_compute; congruence|]). by apply elem_of_nil in Hw.
Qed.

Lemma effect_status_truthful_witness :
  let '(outcome, d, _) := demo_apply demo_disk (after 14 [Fails (Left (Some (text "fr")))]) in
  let K := named_by_effect demo_effect demo_payloads demo_disk in
  (forall tree, tree_of K demo_disk d tree ->
   (forall key, key ≠ demo_wk -> ~ K key -> tree !! key = demo_disk !! key \/ (demo_disk !! key = None /\ cleanup_beside K key))
   /\ forall res, outcome = Returned res ->
      (ear_status res = EffectApplicationStatus_Applied ->
         verify_provenance demo_provenance = true /\ validate_effect_replay_binding demo_binding = Ok tt)
      /\ status_holds_in_tree demo_root demo_wk demo_effect demo_payloads demo_disk res tree)
  /\ tree_of K demo_disk d d.
Proof.
  pose proof (effect_status_truthful demo_root demo_wal demo_wk demo_effect demo_payloads "tx-1" demo_provenance demo_binding demo_disk
    (after 14 [Fails (Left (Some (text "fr")))]) demo_wal_key demo_spares) as H.
  unfold demo_apply. destruct (apply_file_effect_transaction_with_provenance_under_lock _ _ _ _ _ _ _ _ _) as [[outcome d] fs'].
  split; [exact H|apply tree_of_self].
Defined.

(** A replaced file leaves its old content beside it, a new one its own content and an empty placeholder. *)
Example cleanup_kept :
  let name purpose := quarantine_key ["src"; "a"] (quarantine_leaf purpose 7 42 0) in
  let replace := replace_authority_atomically (name "replacement") (name "delete-swap") (name "delete-placeholder") ["src"; "a"] in
  let files (tree : Disk) := map (fun key => tree !! key) [["src"; "a"]; name "replacement"; name "delete-swap"; name "delete-placeholder"] in
  name "replacement" = ["src"; ".forge-retained-replacement-7-42-0.quarantine"]
  /\ files (replace (text "new") {[ ["src"; "a"] := text "old" ]}) = [Some (text "new"); Some (text "old"); None; None]
  /\ files (replace (text "new") ∅) = [Some (text "new"); None; Some (text "new"); Some []].
Proof. vm_compute. split_and!; reflexivity. Qed.

(** The crash leaves a torn log line; the first reconciliation fails to read, the second dies in the repair. *)
Lemma effect_crash_atomic_witness :
  let o := demo_apply demo_disk (after 15 [Crashes (Wrote 20)]) in
  let d := reconcile_all demo_wal [[Fails Untouched]; after 2 [Crashes Untouched]] (disk_of o) in
  exists r d' rs, runs (reconcile_effects demo_wal) d = (Returned (Ok r), d')
    /\ ewv_status r ≠ EffectWalRecoveryStatus_RecoveryFailed
    /\ clean_log demo_wk d' rs /\ settled_log rs
    /\ all_or_nothing demo_wk demo_effect demo_payloads "tx-1" demo_disk (fst (fst o)) rs d'.
Proof.
  pose proof (effect_crash_atomic demo_root demo_wal demo_wk demo_effect demo_payloads "tx-1" demo_provenance demo_binding demo_disk []
    (after 15 [Crashes (Wrote 20)]) [[Fails Untouched]; after 2 [Crashes Untouched]] demo_wal_key demo_spares
    ltac:(by vm_compute) ltac:(by split) ltac:(by intros r ?%elem_of_nil) ltac:(by vm_compute) ltac:(by repeat constructor)) as H.
  unfold demo_apply, disk_of. destruct (apply_file_effect_transaction_with_provenance_under_lock _ _ _ _ _ _ _ _ _) as [[outcome d] fs'].
  exact H.
Defined.

(** The preflight is ready, so the effect is applied. *)
Lemma preflight_decides_witness :
  exists r res d, preflight_file_effect_transaction_under_lock demo_root demo_effect demo_payloads demo_disk [] = (Returned r, demo_disk, [])
    /\ runs demo_apply demo_disk = (Returned res, d)
    /\ ear_status res = EffectApplicationStatus_Applied /\ ear_metadata_records res = epr_metadata_records r
    /\ same_files demo_wk (effect_applied demo_payloads demo_disk demo_effect) d.
Proof.
  destruct (preflight_decides demo_root demo_wal demo_wk demo_effect demo_payloads "tx-1" demo_provenance demo_binding demo_disk []
    demo_wal_key demo_spares ltac:(by vm_compute) ltac:(by split) ltac:(by intros r ?%elem_of_nil) ltac:(by vm_compute)
    ltac:(by vm_compute) ltac:(by vm_compute)) as (r & res & d & Hr & Hrun & H).
  assert (ends epr_status (preflight_file_effect_transaction_under_lock demo_root demo_effect demo_payloads demo_disk [])
    = Some EffectPreflightStatus_Ready) as Hready by (by vm_compute).
  rewrite Hr in Hready. unfold ends in Hready. simpl in Hready. injection Hready as Hready. rewrite Hready in H.
  exists r, res, d. split; [exact Hr|]. split; [exact Hrun|]. apply H.
  assert (map fst (omap (asked demo_payloads demo_disk) (te_write_set (ted_tool_effect_contract demo_effect))) = [["docs"; "a.md"]; ["docs"; "b.md"]])
    as -> by (by vm_compute).
  apply NoDup_cons. split; [by intros ?%list_elem_of_singleton|apply NoDup_singleton].
Defined.

Definition demo_commit : PendingEffectReplayCommit := committed_as "tx-1" (mk_StableId "e1") demo_provenance demo_binding.
Definition demo_log : list EffectWalRecord :=
  [begin_with_authority "tx-1" (mk_StableId "e1") demo_provenance demo_binding; record_stage "tx-1" (mk_StableId "e1") EffectWalStage_Commit].

Lemma demo_log_pending : project_pending_effect_replay_commits demo_log = Ok [demo_commit].
Proof. by vm_compute. Qed.

Lemma pending_exact_witness :
  project_pending_effect_replay_commits demo_log = Ok [demo_commit]
  /\ (forall p, p ∈ [demo_commit] <-> open_commit demo_log (per_tx_id p) = Some p).
Proof. split; [apply demo_log_pending|]. destruct (pending_exact demo_log [demo_commit] demo_log_pending) as (_ & H & _). exact H. Defined.

(** The reservation of the binding, consumed at the next revision. *)
Definition demo_consumed : ReplayConsumeResult := {| rcon_seq := 7; rcon_bytes_appended := 100; rcon_appended := true; rcon_reservation := {|
  rv_key_hash := sha "key"; rv_intent_digest := sha "intent"; rv_commit_digest := sha "commit"; rv_revision := 2;
  rv_state := ReplayReservationState_Consumed; rv_reserved_seq := 3; rv_consumed_seq := Some 7%Z |} |}.

Definition demo_log_disk : Disk := <[demo_wk := default [] (encode_log demo_log)]> ∅.
Definition demo_complete : Io (Result EffectReplayCompletionResult EffectReplayReconciliationError) :=
  append_effect_replay_completion_under_lock demo_wal "tx-1" (mk_StableId "e1") demo_binding demo_consumed false.

Lemma completion_exact_witness :
  let '(outcome, d', _) := demo_complete demo_log_disk [] in
  same_files demo_wk demo_log_disk d' /\ exists r, outcome = Returned (Ok r)
    /\ let rs' := (demo_log ++ [replay_consumed "tx-1" (mk_StableId "e1") demo_binding (ecr_completion r)])%list in
       clean_log demo_wk d' rs' /\ exists ps', project_pending_effect_replay_commits rs' = Ok ps'
         /\ forall q, q ∈ ps' <-> q ∈ [demo_commit] /\ per_tx_id q ≠ "tx-1".
Proof.
  pose proof (completion_exact demo_wal demo_wk demo_log_disk demo_log "tx-1" (mk_StableId "e1") demo_binding demo_consumed false [demo_commit] []
    demo_wal_key ltac:(by vm_compute) demo_log_pending) as H.
  assert (ends is_ok (demo_complete demo_log_disk []) = Some true) as Hok by (by vm_compute).
  unfold demo_complete in *. destruct (append_effect_replay_completion_under_lock _ _ _ _ _ _ _ _) as [[[[r|e]|] d'] fs']; [|done..].
  destruct H as (Hs & _ & _ & _ & _ & Hrest). split; [exact Hs|]. exists r. split; [reflexivity|exact Hrest].
Defined.

Lemma applied_effect_pending_witness :
  let '(outcome, d, _) := demo_apply demo_disk [] in
  exists rs ps', clean_log demo_wk d rs /\ settled_log rs /\ project_pending_effect_replay_commits rs = Ok ps'
    /\ forall q, q ∈ ps' <-> q ∈ [] \/ q = demo_commit.
Proof.
  pose proof (applied_effect_pending demo_root demo_wal demo_wk demo_effect demo_payloads "tx-1" demo_provenance demo_binding demo_disk [] [] []
    demo_wal_key demo_spares ltac:(by vm_compute) ltac:(by split) ltac:(by intros r ?%elem_of_nil) ltac:(by vm_compute)
    ltac:(by vm_compute) ltac:(constructor)) as H.
  assert (ends ear_status (demo_apply demo_disk []) = Some EffectApplicationStatus_Applied) as Hok by (by vm_compute).
  unfold demo_apply in *. destruct (apply_file_effect_transaction_with_provenance_under_lock _ _ _ _ _ _ _ _ _) as [[[res|] d] fs']; [|done].
  apply (H res); [reflexivity|]. unfold ends in Hok. simpl in Hok. by injection Hok.
Defined.

Lemma begun_recovery_blocks_replay_witness :
  let d : Disk := {[demo_wk := from_option id [] (encode_log [begin_with_authority "tx-1" (mk_StableId "effect-1") demo_provenance demo_binding])]} in
  exists r d', runs (reconcile_effects demo_wal) d = (Returned (Ok r), d') /\ ewv_status r = EffectWalRecoveryStatus_Recovered
    /\ fst (runs (pending_effect_replay_commits_under_lock demo_wal) d')
       = Returned (Err (Reconcile_ConflictingTransaction "tx-1" "effect id changed within transaction")).
Proof.
  apply (begun_recovery_blocks_replay demo_wal demo_wk [] "tx-1" (mk_StableId "effect-1") demo_provenance demo_binding []); [apply demo_wal_key|by split|
    by intros r ?%elem_of_nil|by vm_compute|by vm_compute|by vm_compute|by vm_compute|by intros [=]|by vm_compute].
Defined.

(** ** What the log does not cover *)

(** The rollback of a failed transaction fails itself, and the log still says [RollbackComplete]: recovery
    finds nothing to do, and the junk stays. *)
Example failed_rollback_is_final :
  let o := demo_apply demo_disk (after 14 [Fails (Left (Some (text "junk")))]) in
  let r := reconcile_effects demo_wal (disk_of o) [] in
  ends ear_status o = Some EffectApplicationStatus_RollbackFailed
  /\ ends recovery_status r = Some (Some EffectWalRecoveryStatus_Noop)
  /\ has_files (disk_of r) (<[["docs"; "b.md"] := text "junk"]> demo_disk) = true.
Proof. vm_compute. repeat split. Qed.

(** A later effect on the first file alone. *)
Definition later_effect : ToolEffectContractDocument := {| ted_schema_version := "0.1"; ted_tool_effect_contract := {|
  te_id := mk_StableId "e2"; te_contract_ref := te_contract_ref (ted_tool_effect_contract demo_effect);
  te_effect_kind := te_effect_kind (ted_tool_effect_contract demo_effect);
  te_operation_ref := te_operation_ref (ted_tool_effect_contract demo_effect); te_actor := te_actor (ted_tool_effect_contract demo_effect);
  te_read_set := te_read_set (ted_tool_effect_contract demo_effect);
  te_write_set := take 1 (te_write_set (ted_tool_effect_contract demo_effect));
  te_conflict_detection := te_conflict_detection (ted_tool_effect_contract demo_effect);
  te_notification := te_notification (ted_tool_effect_contract demo_effect); te_repair := te_repair (ted_tool_effect_contract demo_effect) |} |}.

Definition later_apply : Io EffectApplicationResult :=
  apply_file_effect_transaction_with_provenance_under_lock demo_root later_effect demo_payloads demo_wal "tx-2" demo_provenance demo_binding.

(** When the before image cannot be logged, the transaction is rolled back without a closing record; a
    later transaction commits, and then recovery rolls back the first one over it. *)
Example unmarked_rollback_undoes_commit :
  let o := demo_apply demo_disk (after 13 [Fails Untouched]) in
  let o2 := later_apply (disk_of o) [] in
  let r := reconcile_effects demo_wal (disk_of o2) [] in
  ends ear_status o = Some EffectApplicationStatus_RolledBack /\ ends ear_status o2 = Some EffectApplicationStatus_Applied
  /\ has_files (disk_of o2) (<[["docs"; "a.md"] := text "new"]> ∅) = true
  /\ ends recovery_status r = Some (Some EffectWalRecoveryStatus_Recovered) /\ has_files (disk_of r) demo_disk = true.
Proof. vm_compute. repeat split. Qed.

(** Recovering a log with a torn tail without repairing it first, as a backup does: the marker is glued to
    the torn line, and from then on the log cannot be read. *)
Example unrepaired_recovery_poisons_log :
  let o := demo_apply demo_disk (after 12 [Crashes (Wrote 20)]) in
  let b := recover_effect_wal_under_publication_root demo_wal (disk_of o) [] in
  let r := reconcile_effects demo_wal (disk_of b) [] in
  ends ewv_status b = Some EffectWalRecoveryStatus_Recovered
  /\ ends recovery_status r = Some (Some EffectWalRecoveryStatus_RecoveryFailed).
Proof. vm_compute. repeat split. Qed.

(** A commit record that reached the disk although its append reported a failure: the rollback that
    follows dies half way, and recovery takes the transaction for committed. *)
Example uncertain_commit_tears_effect :
  let o := demo_apply demo_disk (after 16 [Fails (Wrote 100000); Works; Works; Works; Crashes Untouched]) in
  let r := reconcile_effects demo_wal (disk_of o) [] in
  ends recovery_status r = Some (Some EffectWalRecoveryStatus_Noop)
  /\ has_files (disk_of r) (<[["docs"; "a.md"] := text "new"]> ∅) = true.
Proof. vm_compute. repeat split. Qed.

(** A crash after the [Begin] record and before the first image: recovery succeeds, but it marks the
    transaction with an effect id of its own, and from then on no open commit can be read off the log. *)
Example crash_after_begin_blocks_replay :
  let o := demo_apply demo_disk (after 10 [Crashes Untouched]) in
  let r := reconcile_effects demo_wal (disk_of o) [] in
  let p := pending_effect_replay_commits_under_lock demo_wal (disk_of r) [] in
  ends recovery_status r = Some (Some EffectWalRecoveryStatus_Recovered)
  /\ fst (fst p) = Returned (Err (Reconcile_ConflictingTransaction "tx-1" "effect id changed within transaction")).
Proof. vm_compute. repeat split. Qed.
