(* ===== verification/ExecutionAuthority.v ===== *)
(** * Authority for executions

    The verified authority an execution runs under: principals and authorizations of
    [forge-core-authority/src/principal_registry.rs], the structured request of
    [execution_handoff.rs], the principal of [forge-core-contracts/src/execution_principal.rs], and the
    trace events of [forge-core-trace/src/lib.rs].  Signatures were checked before these values exist. *)

From S2P Require Import Prelude RustStr Contracts OperationContracts WalFrame ReplayWal EffectTypes EffectStore.

Local Open Scope string_scope.

(** ** Principals *)

Record ExecutionPrincipal := {
  xp_principal_id : PrincipalId;
  xp_agent_id : StableId;
  xp_role : CallerRole
}.

Record AuthorizedPrincipal := {
  ap_credential_id : string;
  ap_principal_id : PrincipalId;
  ap_agent_id : StableId;
  ap_role : CallerRole;
  ap_audience : string;
  ap_authority_grants : list StableId;
  ap_public_key_fingerprint : string
}.

(** [AuthorizedPrincipalAudit]: the same fields, serializable. *)
Record AuthorizedPrincipalAudit := {
  apa_credential_id : string;
  apa_principal_id : PrincipalId;
  apa_agent_id : StableId;
  apa_role : CallerRole;
  apa_audience : string;
  apa_authority_grants : list StableId;
  apa_public_key_fingerprint : string
}.

Definition principal_audit (self : AuthorizedPrincipal) : AuthorizedPrincipalAudit := {|
  apa_credential_id := ap_credential_id self; apa_principal_id := ap_principal_id self;
  apa_agent_id := ap_agent_id self; apa_role := ap_role self; apa_audience := ap_audience self;
  apa_authority_grants := ap_authority_grants self; apa_public_key_fingerprint := ap_public_key_fingerprint self |}.

Definition execution_principal (self : AuthorizedPrincipalAudit) : ExecutionPrincipal := {|
  xp_principal_id := apa_principal_id self; xp_agent_id := apa_agent_id self; xp_role := apa_role self |}.

Record VerifiedExecutionAuthorization := {
  vea_principal : AuthorizedPrincipal;
  vea_execution_intent_digest : string;
  vea_nonce : string;
  vea_issued_at_unix : Z;
  vea_max_attestation_age_seconds : Z;
  vea_max_future_skew_seconds : Z;
  vea_attestation_digest : string;
  vea_signature_fingerprint : string
}.

Record VerifiedExecutionAuthorizationAudit := {
  vaa_principal : AuthorizedPrincipalAudit;
  vaa_execution_intent_digest : string;
  vaa_nonce_fingerprint : string;
  vaa_issued_at_unix : Z;
  vaa_max_attestation_age_seconds : Z;
  vaa_max_future_skew_seconds : Z;
  vaa_attestation_digest : string;
  vaa_signature_fingerprint : string
}.

Definition NONCE_FINGERPRINT_DOMAIN : bytes := (to_bytes "forge-method:execution-nonce-audit:v1" ++ [ascii_of_N 0])%list.

Definition nonce_fingerprint {codec : EffectCodec} (nonce : string) : string :=
  sha256_content_hash (NONCE_FINGERPRINT_DOMAIN ++ to_le_bytes 8 (usize_to_u64 (length (to_bytes nonce))) ++ to_bytes nonce)%list.

Definition authorization_audit {codec : EffectCodec} (self : VerifiedExecutionAuthorization) : VerifiedExecutionAuthorizationAudit := {|
  vaa_principal := principal_audit (vea_principal self);
  vaa_execution_intent_digest := vea_execution_intent_digest self;
  vaa_nonce_fingerprint := nonce_fingerprint (vea_nonce self);
  vaa_issued_at_unix := vea_issued_at_unix self;
  vaa_max_attestation_age_seconds := vea_max_attestation_age_seconds self;
  vaa_max_future_skew_seconds := vea_max_future_skew_seconds self;
  vaa_attestation_digest := vea_attestation_digest self;
  vaa_signature_fingerprint := vea_signature_fingerprint self |}.

(** ** Requests; a path is its text *)

Record ExecutionPayloadBinding := {
  xpb_target_ref : string;
  xpb_path : string;
  xpb_expected_content_hash : option string
}.

Record ExecutionRequest := {
  xr_operation_contract_ref : string;
  xr_command_contract_refs : list string;
  xr_effect_contract_refs : list string;
  xr_payloads : list ExecutionPayloadBinding;
  xr_risk_audit_rules_ref : option string;
  xr_require_citation : bool
}.

Record VerifiedExecutionCall := {
  vec_authorization : VerifiedExecutionAuthorization;
  vec_request : ExecutionRequest
}.

(** ** Payloads loaded for an execution ([forge-core-kernel/src/wal_orchestration.rs]) *)

Inductive RuntimeEffectPayloadKind :=
| RuntimeEffectPayloadKind_RuntimeGenerated | RuntimeEffectPayloadKind_HumanApproved
| RuntimeEffectPayloadKind_CommandEvidence | RuntimeEffectPayloadKind_ExternalArtifact.

Record RuntimeOperationEffectPayload := {
  rop_target_ref : string;
  rop_payload_kind : RuntimeEffectPayloadKind;
  rop_content_hash : string;
  rop_content : bytes
}.

(** ** Trace events *)

Definition TRACE_EVENT_SCHEMA_VERSION : string := "0.1".
Definition TRACE_EVENT_KIND : string := "trace_event".

Inductive TraceEventKind :=
| TraceEventKind_RunStarted | TraceEventKind_OperationPlanned | TraceEventKind_PreviewCompleted
| TraceEventKind_ReadyCompleted | TraceEventKind_GatePassed | TraceEventKind_GateBlocked
| TraceEventKind_EffectStaged | TraceEventKind_EffectApplied | TraceEventKind_RunCompleted
| TraceEventKind_RunFailed | TraceEventKind_RiskAuditStarted | TraceEventKind_RiskAuditPassed
| TraceEventKind_RiskAuditFailed | TraceEventKind_EvalCompareStarted | TraceEventKind_EvalComparePassed
| TraceEventKind_EvalCompareFailed.

Record TraceActor := { tra_principal_id : string; tra_agent_id : string; tra_role : string }.
Record TraceAuthority := { tau_operation_id : option string; tau_capability_ids : list string }.
Record TraceRef := { trf_ref_kind : string; trf_reference : string }.

Inductive TraceRiskLevel :=
| TraceRiskLevel_Unknown | TraceRiskLevel_Low | TraceRiskLevel_Medium | TraceRiskLevel_High | TraceRiskLevel_Blocked.

Record TraceRisk := { trk_risk_level : TraceRiskLevel; trk_destructive : bool }.
Record TraceCost := { trc_model_calls : Z; trc_tool_calls : Z; trc_estimated_tokens : Z }.

Definition TraceCost_zero : TraceCost := {| trc_model_calls := 0; trc_tool_calls := 0; trc_estimated_tokens := 0 |}.

Record TraceEvent := {
  tev_schema_version : string;
  tev_kind : string;
  tev_project_id : option string;
  tev_trace_id : string;
  tev_event_id : string;
  tev_run_id : string;
  tev_graph_id : option string;
  tev_node_id : option string;
  tev_event_kind : TraceEventKind;
  tev_recorded_at : string;
  tev_actor : TraceActor;
  tev_authority : TraceAuthority;
  tev_inputs : list TraceRef;
  tev_outputs : list TraceRef;
  tev_risk : TraceRisk;
  tev_cost : TraceCost;
  tev_message : string
}.
