(* ===== verification/PrincipalRegistry.v ===== *)
(** * Attestations and the principal registry

    [forge-core-authority/src/attestation.rs] and [principal_registry.rs]: the signed intent of a call, its
    canonical bytes, the freshness window and the signature check; the operator's registry of credentials,
    its validation, and the authorization of an execution.  Ed25519 is a parameter; so is reading YAML.
    Decoding hexadecimal slices the text two bytes at a time, and slicing inside a character panics. *)

From S2P Require Import Prelude RustStr Contracts OperationContracts WalFrame ReplayWal EffectTypes EffectStore ExecutionAuthority.

Local Open Scope string_scope.

(** A computation that may panic: [None]. *)
Definition Fallible (A E : Type) : Type := option (Result A E).
Definition answer {A E} (r : Result A E) : Fallible A E := Some r.
Definition and_then {A B E} (x : Fallible A E) (k : A -> Fallible B E) : Fallible B E :=
  match x with Some (Ok a) => k a | Some (Err e) => Some (Err e) | None => None end.
Definition in_err {A E E'} (f : E -> E') (x : Fallible A E) : Fallible A E' := map_err f <$> x.

Notation "'may' x <- r ; k" := (and_then r (fun x => k)) (at level 200, x pattern, r at level 100, k at level 200) : forge_scope.
Local Open Scope forge_scope.

Lemma and_then_ok {A B E} (x : Fallible A E) (k : A -> Fallible B E) b : and_then x k = Some (Ok b) <-> exists a, x = Some (Ok a) /\ k a = Some (Ok b).
Proof.
  destruct x as [[a|e]|]; simpl; split; first [intros H; by exists a|by intros (? & [= <-] & ?)|by intros (? & ? & _)|done].
Qed.

Lemma in_err_ok {A E E'} (f : E -> E') (x : Fallible A E) a : in_err f x = Some (Ok a) <-> x = Some (Ok a).
Proof. destruct x as [[?|?]|]; simpl; split; first [by intros [= ->]|by intros [=]]. Qed.

(** ** Ed25519 ([ed25519_dalek]) *)

Class Ed25519 := {
  VerifyingKey : Type;
  key_from_bytes : bytes -> Result VerifyingKey string;
  key_verify : VerifyingKey -> bytes -> bytes -> bool
}.

(** ** Intents and attestations *)

Record CanonicalIntent := {
  cit_tool : string;
  cit_arguments : Json;
  cit_credential_id : option string;
  cit_audience : option string;
  cit_execution_intent_digest : option string;
  cit_nonce : string;
  cit_ts : Z
}.

Record AttestationInput := {
  att_credential_id : option string;
  att_audience : option string;
  att_execution_intent_digest : option string;
  att_nonce : string;
  att_ts : Z;
  att_signature : string;
  att_public_key_hex : string
}.

Inductive AttestationError :=
| AttestationError_SignatureDecode (reason : string)
| AttestationError_KeyDecode (reason : string)
| AttestationError_Canonicalize
| AttestationError_Expired
| AttestationError_FromFuture
| AttestationError_Invalid.

Inductive AttestationPolicy := AttestationPolicy_Default | AttestationPolicy_RequireAll | AttestationPolicy_NeverRequired.

Definition requires_for (self : AttestationPolicy) (is_mutate : bool) : bool :=
  match self with
  | AttestationPolicy_Default => is_mutate
  | AttestationPolicy_RequireAll => true
  | AttestationPolicy_NeverRequired => false
  end.

(** ** Hexadecimal *)

Inductive HexDecodeError := HexDecodeError_OddLength (len : nat) | HexDecodeError_InvalidNibble.

(** [Display]; every nibble that does not parse is an invalid digit. *)
Definition hex_error_text (error : HexDecodeError) : string :=
  match error with
  | HexDecodeError_OddLength len => "odd-length hex (" +:+ fmt_nat len +:+ ")"
  | HexDecodeError_InvalidNibble => "invalid hex nibble: invalid digit found in string"
  end.

Definition hex_value (c : ascii) : option N :=
  let n := code c in
  if in_range 48 57 n then Some (n - 48)%N else if in_range 97 102 n then Some (n - 87)%N
  else if in_range 65 70 n then Some (n - 55)%N else None.

(** [u8::from_str_radix(.., 16)] on two bytes: a sign may stand for the first digit. *)
Definition hex_pair (a b : ascii) : option ascii :=
  match (if bool_decide (a = "+"%char) then Some 0%N else hex_value a), hex_value b with
  | Some high, Some low => Some (ascii_of_N (16 * high + low))
  | _, _ => None
  end.

Fixpoint hex_pairs (l : bytes) : Fallible bytes HexDecodeError :=
  match l with
  | a :: b :: rest =>
      if match rest with c :: _ => is_cont c | [] => false end then None else
      match hex_pair a b with
      | None => Some (Err HexDecodeError_InvalidNibble)
      | Some value => may decoded <- hex_pairs rest; answer (Ok (value :: decoded))
      end
  | _ => answer (Ok [])
  end.

Definition hex_decode (s : string) : Fallible bytes HexDecodeError :=
  let l := to_bytes s in
  if Nat.odd (length l) then answer (Err (HexDecodeError_OddLength (length l))) else hex_pairs l.

Definition hex_encode (b : bytes) : string := of_bytes (concat (map hex_byte b)).

(** A decoded value of exactly [n] bytes. *)
Definition sized (n : nat) (error : string -> AttestationError) (text : string) : Fallible bytes AttestationError :=
  may decoded <- in_err (fun e => error (hex_error_text e)) (hex_decode text);
  answer (if (length decoded =? n)%nat then Ok decoded
        else Err (error ("expected " +:+ fmt_nat n +:+ " bytes, got " +:+ fmt_nat (length decoded)))).

(** ** Verification *)

Definition ATTESTATION_DIGEST_DOMAIN : bytes := (to_bytes "forge-method:verified-attestation:v1" ++ [ascii_of_N 0])%list.
Definition SIGNATURE_FINGERPRINT_DOMAIN : bytes := (to_bytes "forge-method:attestation-signature:v1" ++ [ascii_of_N 0])%list.

(** [i64::saturating_add] and [i64::saturating_sub], and [i64::try_from(..).unwrap_or(i64::MAX)]. *)
Definition saturate_i64 (z : Z) : Z := Z.max i64_min (Z.min i64_max z).
Definition clip_i64 (n : Z) : Z := if (n <=? i64_max)%Z then n else i64_max.

Section attestation.
Context {codec : EffectCodec} {ed25519 : Ed25519}.

(** [serde_json::to_value]: an absent option is skipped. *)
Definition optional_field (name : string) (value : option string) : list (string * Json) :=
  match value with Some text => [(name, Json_String text)] | None => [] end.

Definition intent_value (self : CanonicalIntent) : Json :=
  Json_Object ([("tool", Json_String (cit_tool self)); ("arguments", cit_arguments self)]
    ++ optional_field "credential_id" (cit_credential_id self) ++ optional_field "audience" (cit_audience self)
    ++ optional_field "execution_intent_digest" (cit_execution_intent_digest self)
    ++ [("nonce", Json_String (cit_nonce self)); ("ts", Json_Number (fmt_int (cit_ts self)))])%list.

Definition canonical_bytes (self : CanonicalIntent) : Result bytes AttestationError :=
  match canonical_to_vec (intent_value self) with Some canonical => Ok canonical | None => Err AttestationError_Canonicalize end.

Definition intent_digest (self : CanonicalIntent) : Result string AttestationError :=
  try canonical <- canonical_bytes self; Ok (sha256_content_hash canonical).

Definition decode_verifying_key (value : string) : Fallible VerifyingKey AttestationError :=
  may decoded <- sized 32 AttestationError_KeyDecode value;
  answer (map_err AttestationError_KeyDecode (key_from_bytes decoded)).

Definition verify_with_public_key (intent : CanonicalIntent) (attestation : AttestationInput) (authorized_public_key_hex : string)
    : Fallible unit AttestationError :=
  if negb (bool_decide (cit_nonce intent = att_nonce attestation)) || negb (cit_ts intent =? att_ts attestation)%Z
     || negb (bool_decide (cit_credential_id intent = att_credential_id attestation))
     || negb (bool_decide (cit_audience intent = att_audience attestation))
     || negb (bool_decide (cit_execution_intent_digest intent = att_execution_intent_digest attestation))
  then answer (Err AttestationError_Invalid) else
  may canon <- answer (canonical_bytes intent);
  may verifying_key <- decode_verifying_key authorized_public_key_hex;
  may signature <- sized 64 AttestationError_SignatureDecode (att_signature attestation);
  answer (if key_verify verifying_key canon signature then Ok tt else Err AttestationError_Invalid).

Definition verify (intent : CanonicalIntent) (attestation : AttestationInput) : Fallible unit AttestationError :=
  verify_with_public_key intent attestation (att_public_key_hex attestation).

Definition verify_freshness (attestation : AttestationInput) (now_unix max_age_seconds max_future_skew_seconds : Z) : Result unit AttestationError :=
  let max_age := clip_i64 max_age_seconds in
  let max_future := clip_i64 max_future_skew_seconds in
  if (saturate_i64 (now_unix + max_future) <? att_ts attestation)%Z then Err AttestationError_FromFuture
  else if (max_age <? saturate_i64 (now_unix - att_ts attestation))%Z then Err AttestationError_Expired
  else Ok tt.

Definition update_length_prefixed (value : bytes) : bytes := (to_le_bytes 8 (usize_to_u64 (length value)) ++ value)%list.

Definition attestation_fingerprints (intent : CanonicalIntent) (attestation : AttestationInput) : Fallible (string * string) AttestationError :=
  may canonical <- answer (canonical_bytes intent);
  may signature <- sized 64 AttestationError_SignatureDecode (att_signature attestation);
  answer (Ok (sha256_content_hash (ATTESTATION_DIGEST_DOMAIN ++ update_length_prefixed canonical ++ update_length_prefixed signature)%list,
            sha256_content_hash (SIGNATURE_FINGERPRINT_DOMAIN ++ update_length_prefixed signature)%list)).

(** ** What they decide *)

(** The key accepts the signature for this intent, whose fields are those of the attestation. *)
Record signed (intent : CanonicalIntent) (attestation : AttestationInput) (key_hex : string) : Prop := {
  sd_nonce : cit_nonce intent = att_nonce attestation;
  sd_ts : cit_ts intent = att_ts attestation;
  sd_credential : cit_credential_id intent = att_credential_id attestation;
  sd_audience : cit_audience intent = att_audience attestation;
  sd_digest : cit_execution_intent_digest intent = att_execution_intent_digest attestation;
  sd_signature : exists canon key signature, canonical_bytes intent = Ok canon /\ decode_verifying_key key_hex = Some (Ok key)
    /\ hex_decode (att_signature attestation) = Some (Ok signature) /\ length signature = 64 /\ key_verify key canon signature = true
}.

Lemma sized_ok n error text b : sized n error text = Some (Ok b) <-> hex_decode text = Some (Ok b) /\ length b = n.
Proof.
  unfold sized. rewrite and_then_ok. split.
  - intros (decoded & Hd%in_err_ok & Hs). unfold answer in Hs. destruct (Nat.eqb_spec (length decoded) n); [|done]. by injection Hs as ->.
  - intros [Hd <-]. exists b. split; [by apply in_err_ok|]. by rewrite Nat.eqb_refl.
Qed.

Lemma verify_exact intent attestation key_hex : verify_with_public_key intent attestation key_hex = Some (Ok tt) <-> signed intent attestation key_hex.
Proof.
  unfold verify_with_public_key. split.
  - destruct (_ || _) eqn:E; [done|]. apply orb_false_iff in E as [[[[Hn Ht]%orb_false_iff Hc]%orb_false_iff Ha]%orb_false_iff Hd].
    apply negb_false_iff, bool_decide_eq_true in Hn, Hc, Ha, Hd. apply negb_false_iff, Z.eqb_eq in Ht.
    intros (canon & [= Hcanon] & (key & Hk & (signature & [Hs Hl]%sized_ok & Hv)%and_then_ok)%and_then_ok)%and_then_ok.
    split; [done..|]. exists canon, key, signature. split_and!; [done|done|done|done|]. by destruct (key_verify key canon signature).
  - intros [Hn Ht Hc Ha Hd (canon & key & signature & Hcanon & Hk & Hs & Hl & Hv)].
    rewrite !bool_decide_eq_true_2, Ht, Z.eqb_refl by done. cbn [negb orb]. rewrite Hcanon, Hk. cbn [answer and_then].
    rewrite (proj2 (sized_ok _ AttestationError_SignatureDecode _ _) (conj Hs Hl)). cbn [and_then]. by rewrite Hv.
Qed.

(** The window, as long as neither bound leaves the range of the clock. *)
Lemma freshness_exact attestation now age skew : in_i64 (att_ts attestation) = true -> (0 <= now <= i64_max)%Z -> (0 <= age < i64_max)%Z -> (0 <= skew)%Z ->
  verify_freshness attestation now age skew = Ok tt <-> (now - age <= att_ts attestation <= now + skew)%Z.
Proof.
  unfold verify_freshness, in_i64, saturate_i64, clip_i64. intros [Hlo%Z.leb_le Hhi%Z.leb_le]%andb_true_iff Hnow Hage Hskew.
  assert (i64_min = - i64_max - 1)%Z as Hmin by done. assert (0 < i64_max)%Z as Hmax by done.
  destruct (Z.leb_spec skew i64_max), (Z.leb_spec age i64_max); try lia;
    repeat match goal with |- context [(?a <? ?b)%Z] => destruct (Z.ltb_spec a b) end; split; (done || lia).
Qed.

End attestation.

(** ** Hexadecimal reads back what was written *)

Lemma hex_pair_byte c : hex_pair (hex_digit (code c / 16)) (hex_digit (code c mod 16)) = Some c.
Proof. destruct c as [[] [] [] [] [] [] [] []]; reflexivity. Qed.

Lemma hex_byte_not_cont c : is_cont (hex_digit (code c / 16)) = false.
Proof. destruct c as [[] [] [] [] [] [] [] []]; reflexivity. Qed.

Lemma hex_pairs_encode b : hex_pairs (concat (map hex_byte b)) = Some (Ok b).
Proof.
  induction b as [|c b IH]; [done|]. simpl. rewrite hex_pair_byte, IH. simpl.
  destruct b as [|c' b]; [done|]. simpl. by rewrite hex_byte_not_cont.
Qed.

Lemma hex_decode_encode b : hex_decode (hex_encode b) = Some (Ok b).
Proof.
  unfold hex_decode, hex_encode. rewrite to_of_bytes. assert (Nat.odd (length (concat (map hex_byte b))) = false) as ->; [|apply hex_pairs_encode].
  induction b as [|c b IH]; [done|]. exact IH.
Qed.

(** A text with a character of two bytes at an odd offset makes the decoder panic, and a sign is a digit. *)
Example hex_decode_panics : hex_decode (of_bytes ["a"%char; ascii_of_N 195; ascii_of_N 169; "1"%char]) = None.
Proof. vm_compute. reflexivity. Qed.
Example hex_decode_sign : hex_decode "+a" = hex_decode "0a".
Proof. vm_compute. reflexivity. Qed.

(** * The principal registry *)

Definition PRINCIPAL_REGISTRY_SCHEMA_VERSION : string := "0.1".
Definition DEFAULT_MAX_ATTESTATION_AGE_SECONDS : Z := 300.
Definition DEFAULT_MAX_FUTURE_SKEW_SECONDS : Z := 30.

(** The names of [COMMANDS], the shared command surface. *)
Definition command_names : list string :=
  ["guide"; "workflow"; "claim"; "autonomy"; "assurance"; "domain-pack"; "contract"; "isolation"; "memory";
   "governance"; "coordination"; "backup"; "restore"; "lifecycle"; "host-support-matrix"; "host-conformance";
   "host-evidence"; "project"; "graph"; "eval"; "eval-harness"; "telemetry"; "preview"; "ready"; "explain"; "cost";
   "risk-audit"; "validate"; "preflight"; "execute-operation"; "rebuild-effect-index"; "query-effect-index";
   "host-adapter-manifest"; "host-adapter-projection"; "host-adapter-process-policy";
   "host-adapter-admit-invocation"; "host-adapter-distribution-policy"; "host-adapter-admit-distribution";
   "host-adapter-verify-artifact"; "host-adapter-verify-provenance"; "host-adapter-verify-rekor-entry";
   "host-adapter-verify-sigstore-trust-policy"; "host-adapter-verify-fulcio-certificate-identity";
   "host-adapter-verify-sigstore-bundle-subject"; "host-adapter-verify-sigstore-dsse-in-toto-subject";
   "host-adapter-verify-sigstore-timestamp-authority"; "host-adapter-verify-certificate-transparency-sct";
   "host-adapter-verify-certificate-revocation-policy"; "host-adapter-verify-tuf-trusted-root-freshness";
   "host-adapter-verify-certificate-crl-status"; "host-adapter-verify-certificate-ocsp-status"; "start"; "mcp";
   "research"].

(** [command_by_name(..).is_some()]. *)
Definition known_command (name : string) : bool := bool_decide (name ∈ command_names).

(** ** Data *)

Inductive PrincipalCredentialStatus := PrincipalCredentialStatus_Active | PrincipalCredentialStatus_Revoked.

#[export] Instance PrincipalCredentialStatus_eq_dec : EqDecision PrincipalCredentialStatus.
Proof. solve_decision. Defined.

Record PrincipalRegistryEntry := {
  pre_credential_id : string;
  pre_principal_id : PrincipalId;
  pre_agent_id : StableId;
  pre_role : CallerRole;
  pre_public_key_hex : string;
  pre_allowed_tools : list StableId;
  pre_authority_grants : list StableId;
  pre_status : PrincipalCredentialStatus
}.

Record PrincipalRegistryContract := { prc_audience : string; prc_principals : list PrincipalRegistryEntry }.

Record PrincipalRegistryDocument := { prd_schema_version : string; prd_principal_registry : PrincipalRegistryContract }.

Record AuthorizedPrincipalRegistry := { apr_audience : string; apr_principals : list PrincipalRegistryEntry }.

Inductive PrincipalRegistryIssueCode :=
| RegistryIssue_EmptyAudience | RegistryIssue_EmptyRegistry | RegistryIssue_EmptyCredentialId | RegistryIssue_EmptyPrincipalId
| RegistryIssue_EmptyAgentId | RegistryIssue_UnknownRole | RegistryIssue_InvalidPublicKey | RegistryIssue_EmptyAllowedTools
| RegistryIssue_UnknownTool | RegistryIssue_EmptyAuthorityGrants | RegistryIssue_DuplicateCredentialId
| RegistryIssue_DuplicatePublicKey | RegistryIssue_DuplicateAllowedTool | RegistryIssue_DuplicateAuthorityGrant.

Record PrincipalRegistryIssue := { pri_code : PrincipalRegistryIssueCode; pri_path : string; pri_message : string }.

Inductive PrincipalRegistryError :=
| PrincipalRegistryError_UnsupportedSchemaVersion (found : string)
| PrincipalRegistryError_Invalid (issues : list PrincipalRegistryIssue).

Inductive PrincipalAuthorizationError :=
| Authorization_MissingCredentialId
| Authorization_MissingAudience
| Authorization_MissingExecutionIntentDigest
| Authorization_InvalidExecutionIntentDigest
| Authorization_InvalidNonce
| Authorization_UnsupportedExecutionTool (tool : string)
| Authorization_UnknownCredential (credential_id : string)
| Authorization_CredentialRevoked (credential_id : string)
| Authorization_AudienceMismatch (expected found : string)
| Authorization_PublicKeyMismatch (credential_id : string)
| Authorization_ToolNotAllowed (credential_id tool : string)
| Authorization_MissingAuthorityGrant (credential_id grant : string)
| Authorization_Attestation (e : AttestationError).

(** ** Validation *)

Definition registry_issue (code : PrincipalRegistryIssueCode) (path message : string) : PrincipalRegistryIssue :=
  {| pri_code := code; pri_path := path; pri_message := message |}.

Definition issue_when (b : bool) (i : PrincipalRegistryIssue) : list PrincipalRegistryIssue := if b then [i] else [].

Definition at_index (path : string) (index : nat) : string := path +:+ "[" +:+ fmt_nat index +:+ "]".

(** The loop of [validate_stable_id_list]; a blank value is not remembered. *)
Fixpoint stable_id_issues (path : string) (duplicate_code : PrincipalRegistryIssueCode) (index : nat) (seen : gset string) (values : list StableId)
    : list PrincipalRegistryIssue :=
  match values with
  | [] => []
  | value :: rest =>
      let blank := str_is_empty (trim (StableId_0 value)) in
      (issue_when (blank || bool_decide (StableId_0 value ∈ seen))
         (registry_issue duplicate_code (at_index path index) "values must be non-empty and unique")
       ++ stable_id_issues path duplicate_code (S index) (if blank then seen else {[StableId_0 value]} ∪ seen) rest)%list
  end.

Definition validate_stable_id_list (values : list StableId) (path : string) (empty_code duplicate_code : PrincipalRegistryIssueCode)
    : list PrincipalRegistryIssue :=
  (issue_when (is_nil values) (registry_issue empty_code path "list must not be empty") ++ stable_id_issues path duplicate_code 0 ∅ values)%list.

Definition tool_issues (path : string) (tools : list StableId) : list PrincipalRegistryIssue :=
  concat (imap (fun index tool => issue_when (negb (known_command (StableId_0 tool)))
    (registry_issue RegistryIssue_UnknownTool (at_index path index) "tool is not present in the shared Command Surface")) tools).

Section registry.
Context {codec : EffectCodec} {ed25519 : Ed25519}.

(** One turn of the loop over the principals: its issues, and the credentials and keys seen. *)
Definition validate_entry (index : nat) (credentials keys : gset string) (entry : PrincipalRegistryEntry)
    : option (list PrincipalRegistryIssue * gset string * gset string) :=
  let base := at_index "principal_registry.principals" index in
  let id := pre_credential_id entry in
  let blank := str_is_empty (trim id) in
  let key := to_ascii_lowercase (pre_public_key_hex entry) in
  match decode_verifying_key key with
  | None => None
  | Some decoded =>
      let key_issues :=
        match decoded with
        | Err _ => [registry_issue RegistryIssue_InvalidPublicKey (base +:+ ".public_key_hex") "public_key_hex must encode a valid 32-byte ed25519 key"]
        | Ok _ => issue_when (bool_decide (key ∈ keys))
                    (registry_issue RegistryIssue_DuplicatePublicKey (base +:+ ".public_key_hex") "public keys must not authorize multiple credentials")
        end in
      Some ((issue_when blank (registry_issue RegistryIssue_EmptyCredentialId (base +:+ ".credential_id") "credential_id must not be empty")
             ++ issue_when (negb blank && bool_decide (id ∈ credentials))
                  (registry_issue RegistryIssue_DuplicateCredentialId (base +:+ ".credential_id") "credential_id must be unique")
             ++ issue_when (str_is_empty (trim (PrincipalId_0 (pre_principal_id entry))))
                  (registry_issue RegistryIssue_EmptyPrincipalId (base +:+ ".principal_id") "principal_id must not be empty")
             ++ issue_when (str_is_empty (trim (StableId_0 (pre_agent_id entry))))
                  (registry_issue RegistryIssue_EmptyAgentId (base +:+ ".agent_id") "agent_id must not be empty")
             ++ issue_when (bool_decide (pre_role entry = CallerRole_Unknown))
                  (registry_issue RegistryIssue_UnknownRole (base +:+ ".role") "unknown role cannot authorize mutation")
             ++ key_issues
             ++ validate_stable_id_list (pre_allowed_tools entry) (base +:+ ".allowed_tools")
                  RegistryIssue_EmptyAllowedTools RegistryIssue_DuplicateAllowedTool
             ++ tool_issues (base +:+ ".allowed_tools") (pre_allowed_tools entry)
             ++ validate_stable_id_list (pre_authority_grants entry) (base +:+ ".authority_grants")
                  RegistryIssue_EmptyAuthorityGrants RegistryIssue_DuplicateAuthorityGrant)%list,
            if blank then credentials else {[id]} ∪ credentials,
            match decoded with Ok _ => {[key]} ∪ keys | Err _ => keys end)
  end.

Fixpoint validate_entries (index : nat) (credentials keys : gset string) (entries : list PrincipalRegistryEntry) : option (list PrincipalRegistryIssue) :=
  match entries with
  | [] => Some []
  | entry :: rest =>
      match validate_entry index credentials keys entry with
      | None => None
      | Some (issues, credentials, keys) => app issues <$> validate_entries (S index) credentials keys rest
      end
  end.

Definition validate_contract (contract : PrincipalRegistryContract) : option (list PrincipalRegistryIssue) :=
  app (issue_when (str_is_empty (trim (prc_audience contract)))
         (registry_issue RegistryIssue_EmptyAudience "principal_registry.audience" "audience must not be empty")
       ++ issue_when (is_nil (prc_principals contract))
            (registry_issue RegistryIssue_EmptyRegistry "principal_registry.principals" "at least one principal is required"))%list
    <$> validate_entries 0 ∅ ∅ (prc_principals contract).

Definition from_document (document : PrincipalRegistryDocument) : Fallible AuthorizedPrincipalRegistry PrincipalRegistryError :=
  if negb (bool_decide (prd_schema_version document = PRINCIPAL_REGISTRY_SCHEMA_VERSION))
  then answer (Err (PrincipalRegistryError_UnsupportedSchemaVersion (prd_schema_version document))) else
  match validate_contract (prd_principal_registry document) with
  | None => None
  | Some (_ :: _ as issues) => answer (Err (PrincipalRegistryError_Invalid issues))
  | Some [] => answer (Ok {| apr_audience := prc_audience (prd_principal_registry document);
                             apr_principals := prc_principals (prd_principal_registry document) |})
  end.

(** ** Authorization *)

Definition nonempty_option (value : option string) : option string :=
  match value with Some item => if str_is_empty (trim item) then None else Some item | None => None end.

(** [chars().any(char::is_control)]: U+0000 to U+001F and U+007F to U+009F. *)
Fixpoint has_control (l : bytes) : bool :=
  match l with
  | [] => false
  | c :: rest =>
      (code c <? 32)%N || (code c =? 127)%N
      || ((code c =? 194)%N && match rest with d :: _ => in_range 128 159 (code d) | [] => false end)
      || has_control rest
  end.

Definition validate_nonce (nonce : string) : Result unit PrincipalAuthorizationError :=
  let l := to_bytes nonce in
  if negb ((16 <=? length l)%nat && (length l <=? 256)%nat) || has_control l then Err Authorization_InvalidNonce else Ok tt.

(** [is_sha256_token] of this file. *)
Definition is_attested_token (value : string) : bool :=
  String.prefix "sha256:" value
  && let hex := drop 7 (to_bytes value) in (length hex =? 64)%nat && forallb (fun byte => is_ascii_digit byte || in_range 97 102 (code byte)) hex.

Definition public_key_fingerprint (public_key_hex : string) : string := sha256_content_hash (to_bytes (to_ascii_lowercase public_key_hex)).

Definition EXECUTE_OPERATION : string := "execute-operation".

Definition authorized_principal (self : AuthorizedPrincipalRegistry) (entry : PrincipalRegistryEntry) : AuthorizedPrincipal := {|
  ap_credential_id := pre_credential_id entry; ap_principal_id := pre_principal_id entry; ap_agent_id := pre_agent_id entry;
  ap_role := pre_role entry; ap_audience := apr_audience self; ap_authority_grants := pre_authority_grants entry;
  ap_public_key_fingerprint := public_key_fingerprint (pre_public_key_hex entry) |}.

(** The checks of the call itself: its credential and audience. *)
Definition validate_call (intent : CanonicalIntent) (attestation : AttestationInput) : Result (string * string) PrincipalAuthorizationError :=
  match nonempty_option (att_credential_id attestation) with
  | None => Err Authorization_MissingCredentialId
  | Some credential_id =>
      match nonempty_option (att_audience attestation) with
      | None => Err Authorization_MissingAudience
      | Some audience =>
          try _ <- (if bool_decide (cit_tool intent = EXECUTE_OPERATION)
                    then match nonempty_option (att_execution_intent_digest attestation) with
                         | None => Err Authorization_MissingExecutionIntentDigest
                         | Some intent_digest => if is_attested_token intent_digest then Ok tt else Err Authorization_InvalidExecutionIntentDigest
                         end
                    else Ok tt);
          try _ <- validate_nonce (att_nonce attestation);
          Ok (credential_id, audience)
      end
  end.

(** The checks of the credential it names. *)
Definition validate_credential (self : AuthorizedPrincipalRegistry) (intent : CanonicalIntent) (attestation : AttestationInput)
    (credential_id audience : string) (entry : PrincipalRegistryEntry) : Result unit PrincipalAuthorizationError :=
  if negb (bool_decide (pre_status entry = PrincipalCredentialStatus_Active)) then Err (Authorization_CredentialRevoked credential_id)
  else if negb (bool_decide (audience = apr_audience self)) then Err (Authorization_AudienceMismatch (apr_audience self) audience)
  else if negb (eq_ignore_ascii_case (pre_public_key_hex entry) (att_public_key_hex attestation)) then Err (Authorization_PublicKeyMismatch credential_id)
  else if negb (bool_decide (cit_tool intent ∈ map StableId_0 (pre_allowed_tools entry)))
  then Err (Authorization_ToolNotAllowed credential_id (cit_tool intent))
  else if bool_decide (cit_tool intent = EXECUTE_OPERATION)
          && negb (bool_decide ("operation.execute" ∈ map StableId_0 (pre_authority_grants entry)))
  then Err (Authorization_MissingAuthorityGrant credential_id "operation.execute")
  else Ok tt.

Definition authorize (self : AuthorizedPrincipalRegistry) (intent : CanonicalIntent) (attestation : AttestationInput)
    (now_unix max_age_seconds max_future_skew_seconds : Z) : Fallible AuthorizedPrincipal PrincipalAuthorizationError :=
  may call <- answer (validate_call intent attestation);
  let '(credential_id, audience) := call in
  match List.find (fun entry => bool_decide (pre_credential_id entry = credential_id)) (apr_principals self) with
  | None => answer (Err (Authorization_UnknownCredential credential_id))
  | Some entry =>
      may _ <- answer (validate_credential self intent attestation credential_id audience entry);
      may _ <- answer (map_err Authorization_Attestation (verify_freshness attestation now_unix max_age_seconds max_future_skew_seconds));
      may _ <- in_err Authorization_Attestation (verify_with_public_key intent attestation (pre_public_key_hex entry));
      answer (Ok (authorized_principal self entry))
  end.

Definition authorize_execution (self : AuthorizedPrincipalRegistry) (intent : CanonicalIntent) (attestation : AttestationInput)
    (now_unix max_age_seconds max_future_skew_seconds : Z) : Fallible VerifiedExecutionAuthorization PrincipalAuthorizationError :=
  if negb (bool_decide (cit_tool intent = EXECUTE_OPERATION)) then answer (Err (Authorization_UnsupportedExecutionTool (cit_tool intent))) else
  may principal <- authorize self intent attestation now_unix max_age_seconds max_future_skew_seconds;
  match att_execution_intent_digest attestation with
  | None => answer (Err Authorization_MissingExecutionIntentDigest)
  | Some execution_intent_digest =>
      may fingerprints <- in_err Authorization_Attestation (attestation_fingerprints intent attestation);
      answer (Ok {|
        vea_principal := principal; vea_execution_intent_digest := execution_intent_digest; vea_nonce := att_nonce attestation;
        vea_issued_at_unix := att_ts attestation; vea_max_attestation_age_seconds := max_age_seconds;
        vea_max_future_skew_seconds := max_future_skew_seconds; vea_attestation_digest := fst fingerprints;
        vea_signature_fingerprint := snd fingerprints |})
  end.

End registry.

(** ** What a valid registry is *)

Record valid_list (values : list StableId) : Prop := {
  vl_some : values ≠ [];
  vl_named : Forall (fun value => nonblank (StableId_0 value)) values;
  vl_distinct : NoDup (map StableId_0 values)
}.

Record valid_entry {ed25519 : Ed25519} (entry : PrincipalRegistryEntry) : Prop := {
  ve_credential : nonblank (pre_credential_id entry);
  ve_principal : nonblank (PrincipalId_0 (pre_principal_id entry));
  ve_agent : nonblank (StableId_0 (pre_agent_id entry));
  ve_role : pre_role entry ≠ CallerRole_Unknown;
  ve_key : exists key, decode_verifying_key (to_ascii_lowercase (pre_public_key_hex entry)) = Some (Ok key);
  ve_tools : valid_list (pre_allowed_tools entry);
  ve_known : Forall (fun tool => known_command (StableId_0 tool) = true) (pre_allowed_tools entry);
  ve_grants : valid_list (pre_authority_grants entry)
}.

Record valid_registry {ed25519 : Ed25519} (contract : PrincipalRegistryContract) : Prop := {
  vg_audience : nonblank (prc_audience contract);
  vg_some : prc_principals contract ≠ [];
  vg_entries : Forall valid_entry (prc_principals contract);
  vg_credentials : NoDup (map pre_credential_id (prc_principals contract));
  vg_keys : NoDup (map (fun entry => to_ascii_lowercase (pre_public_key_hex entry)) (prc_principals contract))
}.

Lemma no_issue_when b i : issue_when b i = [] <-> b = false.
Proof. by destruct b. Qed.

Lemma stable_id_issues_nil path code index seen values : stable_id_issues path code index seen values = [] <->
  Forall (fun value => nonblank (StableId_0 value)) values /\ NoDup (map StableId_0 values) /\ forall value, value ∈ values -> StableId_0 value ∉ seen.
Proof.
  revert index seen. induction values as [|v values IH]; intros index seen; simpl.
  - split; [intros _; split_and!; [constructor|constructor|by intros ? ?%elem_of_nil]|done].
  - rewrite app_nil, no_issue_when, orb_false_iff, bool_decide_eq_false, IH, Forall_cons, NoDup_cons. unfold nonblank. split.
    + intros [[Hb Hs] (Hf & Hn & Hd)]. rewrite Hb in Hd. split_and!; [done|done| |done|].
      * intros (w & Hw & Hin)%list_elem_of_fmap. apply (Hd w Hin). rewrite <- Hw. set_solver.
      * intros w [->|Hin]%elem_of_cons; [done|]. specialize (Hd w Hin). set_solver.
    + intros ([Hb Hf] & [Hnew Hn] & Hd). rewrite Hb. split_and!; [done|apply Hd; by left|done|done|].
      intros w Hin. specialize (Hd w (list_elem_of_further _ _ _ Hin)). rewrite not_elem_of_union, not_elem_of_singleton. split; [|done].
      intros Hw. apply Hnew. rewrite <- Hw. by apply list_elem_of_fmap_2.
Qed.

Lemma validate_list_nil values path empty_code code : validate_stable_id_list values path empty_code code = [] <-> valid_list values.
Proof.
  unfold validate_stable_id_list. rewrite app_nil, no_issue_when, is_nil_false, stable_id_issues_nil. split.
  - by intros (? & ? & ? & _).
  - intros [? ? ?]. split_and!; [done|done|done|set_solver].
Qed.

Lemma tool_issues_nil path tools : tool_issues path tools = [] <-> Forall (fun tool => known_command (StableId_0 tool) = true) tools.
Proof.
  unfold tool_issues. generalize 0 as n. intros n. assert (forall f : nat -> StableId -> list PrincipalRegistryIssue,
    (forall index tool, f index tool = [] <-> known_command (StableId_0 tool) = true) ->
    concat (imap f tools) = [] <-> Forall (fun tool => known_command (StableId_0 tool) = true) tools) as H.
  { induction tools as [|t tools IH]; intros f Hf; simpl; [by split|]. rewrite app_nil, Hf, Forall_cons. f_equiv. apply IH. intros index tool. apply Hf. }
  apply H. intros index tool. by rewrite no_issue_when, negb_false_iff.
Qed.

Section valid.
Context {codec : EffectCodec} {ed25519 : Ed25519}.

Lemma validate_entry_nil index credentials keys entry issues credentials' keys' :
  validate_entry index credentials keys entry = Some (issues, credentials', keys') ->
  issues = [] <-> valid_entry entry /\ pre_credential_id entry ∉ credentials /\ to_ascii_lowercase (pre_public_key_hex entry) ∉ keys
    /\ credentials' = {[pre_credential_id entry]} ∪ credentials /\ keys' = {[to_ascii_lowercase (pre_public_key_hex entry)]} ∪ keys.
Proof.
  unfold validate_entry. destruct (decode_verifying_key _) as [decoded|] eqn:Ek; [|done]. intros [= <- <- <-].
  rewrite !app_nil, !validate_list_nil, tool_issues_nil, !no_issue_when, bool_decide_eq_false. split.
  - intros (Hb & Hc & Hp & Ha & Hr & Hk & Ht & Hn & Hg). rewrite Hb in *. apply bool_decide_eq_false in Hc.
    destruct decoded as [key|e]; [|done]. apply no_issue_when, bool_decide_eq_false in Hk. split_and!; [|done|done|done|done].
    split; [done|done|done|done|by exists key|done|done|done].
  - intros ([Hb Hp Ha Hr [key Hk] Ht Hn Hg] & Hc & Hd & _). unfold nonblank in *. rewrite Hb. cbn [negb andb].
    rewrite Hk in Ek. injection Ek as <-. rewrite no_issue_when. split_and!; try done; by apply bool_decide_eq_false.
Qed.

Lemma validate_entries_nil index credentials keys entries : validate_entries index credentials keys entries = Some [] <->
  Forall valid_entry entries /\ NoDup (map pre_credential_id entries) /\ NoDup (map (fun entry => to_ascii_lowercase (pre_public_key_hex entry)) entries)
  /\ (forall entry, entry ∈ entries -> pre_credential_id entry ∉ credentials /\ to_ascii_lowercase (pre_public_key_hex entry) ∉ keys).
Proof.
  revert index credentials keys. induction entries as [|e entries IH]; intros index credentials keys; simpl.
  - split; [|done]. intros _. split_and!; [constructor|constructor|constructor|by intros ? ?%elem_of_nil].
  - rewrite Forall_cons, !NoDup_cons. destruct (validate_entry index credentials keys e) as [[[issues credentials'] keys']|] eqn:E.
    2: { split; [done|]. intros ([[_ _ _ _ [key Hk] _ _ _] _] & _). unfold validate_entry in E. by rewrite Hk in E. }
    pose proof (validate_entry_nil _ _ _ _ _ _ _ E) as He. split.
    + intros (rest & Hrest & Hi)%fmap_Some. symmetry in Hi. apply app_nil in Hi as [-> ->].
      destruct (proj1 He eq_refl) as (Hv & Hc & Hk & -> & ->). apply IH in Hrest as (Hf & Hn & Hnk & Hd).
      split_and!; [done|done| |done| |done|].
      * intros (w & Hw & Hin)%list_elem_of_fmap. destruct (Hd w Hin) as [H _]. rewrite <- Hw in H. set_solver.
      * intros (w & Hw & Hin)%list_elem_of_fmap. destruct (Hd w Hin) as [_ H]. rewrite <- Hw in H. set_solver.
      * intros w [->|Hin]%elem_of_cons; [done|]. destruct (Hd w Hin). set_solver.
    + intros ([Hv Hf] & [Hnew Hn] & [Hnewk Hnk] & Hd). destruct (Hd e (list_elem_of_here _ _)) as [Hc Hk].
      assert (credentials' = {[pre_credential_id e]} ∪ credentials /\ keys' = {[to_ascii_lowercase (pre_public_key_hex e)]} ∪ keys) as [-> ->].
      { destruct Hv as [Hb _ _ _ [key Hkey] _ _ _]. unfold validate_entry in E. rewrite Hkey in E. unfold nonblank in Hb. rewrite Hb in E. by injection E as _ <- <-. }
      assert (issues = []) as -> by (by apply He). apply fmap_Some. exists []. split; [|done]. apply IH. split_and!; [done|done|done|].
      intros w Hin. destruct (Hd w (list_elem_of_further _ _ _ Hin)) as [Hwc Hwk]. rewrite !not_elem_of_union, !not_elem_of_singleton. split_and!; [|done| |done].
      * intros Hw. apply Hnew. rewrite <- Hw. by apply list_elem_of_fmap_2.
      * intros Hw. apply Hnewk. rewrite <- Hw. by apply (list_elem_of_fmap_2 (fun entry => to_ascii_lowercase (pre_public_key_hex entry))).
Qed.

(** A document is activated exactly when it is valid. *)
Lemma from_document_exact document registry : from_document document = Some (Ok registry) <->
  prd_schema_version document = PRINCIPAL_REGISTRY_SCHEMA_VERSION /\ valid_registry (prd_principal_registry document)
  /\ registry = {| apr_audience := prc_audience (prd_principal_registry document); apr_principals := prc_principals (prd_principal_registry document) |}.
Proof.
  unfold from_document. case_bool_decide as Hs; cbn [negb]; [|by split; [|intros (? & _)]].
  assert (validate_contract (prd_principal_registry document) = Some [] <-> valid_registry (prd_principal_registry document)) as Hv.
  { unfold validate_contract. split.
    - intros (issues & Hrest & Hi)%fmap_Some. symmetry in Hi. apply app_nil in Hi as [[Ha%no_issue_when Hn%no_issue_when%is_nil_false]%app_nil ->].
      apply validate_entries_nil in Hrest as (Hf & Hc & Hk & _). by split.
    - intros [Ha Hn Hf Hc Hk]. apply fmap_Some. exists []. split; [apply validate_entries_nil; split_and!; [done|done|done|set_solver]|].
      rewrite (proj2 (no_issue_when _ _) Ha), (proj2 (no_issue_when _ _) (proj2 (is_nil_false _) Hn)). done. }
  destruct (validate_contract _) as [[|i issues]|]; split.
  - intros [= <-]. split_and!; [done|by apply Hv|done].
  - by intros (_ & _ & ->).
  - done.
  - by intros (_ & ?%Hv & _).
  - done.
  - by intros (_ & ?%Hv & _).
Qed.

(** ** What an authorization establishes *)

Definition well_formed_nonce (nonce : string) : Prop :=
  16 <= length (to_bytes nonce) <= 256 /\ has_control (to_bytes nonce) = false.

(** The credential [entry] stands for the call. *)
Record stands_for (self : AuthorizedPrincipalRegistry) (intent : CanonicalIntent) (attestation : AttestationInput) (entry : PrincipalRegistryEntry) : Prop := {
  sf_entry : entry ∈ apr_principals self;
  sf_credential : att_credential_id attestation = Some (pre_credential_id entry);
  sf_audience : att_audience attestation = Some (apr_audience self);
  sf_active : pre_status entry = PrincipalCredentialStatus_Active;
  sf_key : eq_ignore_ascii_case (pre_public_key_hex entry) (att_public_key_hex attestation) = true;
  sf_tool : cit_tool intent ∈ map StableId_0 (pre_allowed_tools entry);
  sf_grant : cit_tool intent = EXECUTE_OPERATION -> "operation.execute" ∈ map StableId_0 (pre_authority_grants entry);
  sf_digest : cit_tool intent = EXECUTE_OPERATION ->
    exists digest, att_execution_intent_digest attestation = Some digest /\ nonblank digest /\ is_attested_token digest = true;
  sf_nonce : well_formed_nonce (att_nonce attestation);
  sf_signed : signed intent attestation (pre_public_key_hex entry)
}.

Lemma nonempty_some value item : nonempty_option value = Some item <-> value = Some item /\ nonblank item.
Proof.
  unfold nonempty_option, nonblank. destruct value as [v|]; [|by split; [|intros []]]. destruct (str_is_empty (trim v)) eqn:E; split.
  - done.
  - intros [[= ->] H]. congruence.
  - by intros [= ->].
  - by intros [[= ->] _].
Qed.

Lemma validate_nonce_ok nonce : validate_nonce nonce = Ok tt <-> well_formed_nonce nonce.
Proof.
  unfold validate_nonce, well_formed_nonce. destruct (Nat.leb_spec 16 (length (to_bytes nonce))), (Nat.leb_spec (length (to_bytes nonce)) 256),
    (has_control _); simpl; split; try done; intros [? ?]; (done || lia).
Qed.

Lemma validate_call_ok intent attestation credential_id audience : validate_call intent attestation = Ok (credential_id, audience) <->
  att_credential_id attestation = Some credential_id /\ nonblank credential_id /\ att_audience attestation = Some audience /\ nonblank audience
  /\ (cit_tool intent = EXECUTE_OPERATION -> exists digest, att_execution_intent_digest attestation = Some digest /\ nonblank digest /\ is_attested_token digest = true)
  /\ well_formed_nonce (att_nonce attestation).
Proof.
  unfold validate_call. rewrite <- validate_nonce_ok. split.
  - destruct (nonempty_option (att_credential_id attestation)) as [c|] eqn:Ec; [|done]. destruct (nonempty_option (att_audience attestation)) as [a|] eqn:Ea; [|done].
    apply nonempty_some in Ec as [Ec Hc], Ea as [Ea Ha]. intros H. destruct (if bool_decide _ then _ else _) as [[]|e] eqn:Ed; [|done]. cbn [result_bind] in H.
    destruct (validate_nonce _) as [[]|e]; [|done]. injection H as <- <-. split_and!; try done. intros Ht. rewrite bool_decide_eq_true_2 in Ed by done.
    destruct (nonempty_option (att_execution_intent_digest attestation)) as [digest|] eqn:En; [|done]. apply nonempty_some in En as [En Hn].
    exists digest. split_and!; [done|done|]. by destruct (is_attested_token digest).
  - intros (Hc & Hcb & Ha & Hab & Hd & Hn). rewrite (proj2 (nonempty_some _ _) (conj Hc Hcb)), (proj2 (nonempty_some _ _) (conj Ha Hab)).
    case_bool_decide as Ht; [|by rewrite Hn]. destruct (Hd Ht) as (digest & Hdg & Hdb & Htok). by rewrite (proj2 (nonempty_some _ _) (conj Hdg Hdb)), Htok, Hn.
Qed.

Lemma validate_credential_ok self intent attestation credential_id audience entry :
  validate_credential self intent attestation credential_id audience entry = Ok tt <->
  pre_status entry = PrincipalCredentialStatus_Active /\ audience = apr_audience self
  /\ eq_ignore_ascii_case (pre_public_key_hex entry) (att_public_key_hex attestation) = true
  /\ cit_tool intent ∈ map StableId_0 (pre_allowed_tools entry)
  /\ (cit_tool intent = EXECUTE_OPERATION -> "operation.execute" ∈ map StableId_0 (pre_authority_grants entry)).
Proof.
  unfold validate_credential. case_bool_decide; [|split; [done|tauto]]. case_bool_decide; [|split; [done|tauto]].
  destruct (eq_ignore_ascii_case _ _); [|by split; [|intros (? & ? & ? & _)]]. case_bool_decide; [|split; [done|tauto]]. cbn [negb].
  case_bool_decide; cbn [andb]; [|split; [tauto|done]]. case_bool_decide; split; try done; tauto.
Qed.

Lemma authorize_exact self intent attestation now age skew principal :
  NoDup (map pre_credential_id (apr_principals self)) -> Forall valid_entry (apr_principals self) -> nonblank (apr_audience self) ->
  authorize self intent attestation now age skew = Some (Ok principal) <->
  verify_freshness attestation now age skew = Ok tt
  /\ exists entry, stands_for self intent attestation entry /\ principal = authorized_principal self entry.
Proof.
  intros Hnd Hval Haud. unfold authorize. rewrite and_then_ok. split.
  - intros ([credential_id audience] & [= (Hc & Hcb & Ha & Hab & Hd & Hn)%validate_call_ok] & H).
    destruct (List.find _ _) as [entry|] eqn:Ef; [|done]. apply find_key in Ef as [Hin <-]; [|done].
    apply and_then_ok in H as ([] & [= (Hst & -> & Hk & Ht & Hg)%validate_credential_ok] & H).
    apply and_then_ok in H as ([] & [= Hfr] & H). destruct (verify_freshness attestation now age skew) as [[]|]; [|done].
    apply and_then_ok in H as ([] & Hs%in_err_ok%verify_exact & H). injection H as <-. split; [done|]. exists entry. split; [|done]. by split.
  - intros (Hf & entry & [Hin Hc Ha Hst Hk Ht Hg Hd Hn Hs] & ->). exists (pre_credential_id entry, apr_audience self).
    pose proof (proj1 (Forall_forall _ _) Hval entry Hin) as Hv. split.
    + unfold answer. f_equal. apply validate_call_ok. split_and!; try done. apply Hv.
    + rewrite (proj2 (find_key pre_credential_id _ _ _ Hnd) (conj Hin eq_refl)).
      rewrite (proj2 (validate_credential_ok _ _ _ _ _ _)) by done. cbn [answer and_then]. rewrite Hf. cbn [map_err and_then].
      by rewrite (proj2 (verify_exact _ _ _) Hs).
Qed.

Lemma fingerprints_of_signed intent attestation key_hex : signed intent attestation key_hex ->
  exists fingerprints, attestation_fingerprints intent attestation = Some (Ok fingerprints).
Proof.
  intros [_ _ _ _ _ (canon & key & signature & Hcanon & _ & Hs & Hl & _)]. unfold attestation_fingerprints. rewrite Hcanon. cbn [answer and_then].
  rewrite (proj2 (sized_ok _ _ _ _) (conj Hs Hl)). by eexists.
Qed.

(** The capability of an attested execution. *)
Definition capability (self : AuthorizedPrincipalRegistry) (attestation : AttestationInput) (entry : PrincipalRegistryEntry)
    (digest : string) (age skew : Z) (fingerprints : string * string) : VerifiedExecutionAuthorization := {|
  vea_principal := authorized_principal self entry; vea_execution_intent_digest := digest; vea_nonce := att_nonce attestation;
  vea_issued_at_unix := att_ts attestation; vea_max_attestation_age_seconds := age; vea_max_future_skew_seconds := skew;
  vea_attestation_digest := fst fingerprints; vea_signature_fingerprint := snd fingerprints |}.

Lemma authorize_execution_ok self intent attestation now age skew authorization :
  NoDup (map pre_credential_id (apr_principals self)) -> Forall valid_entry (apr_principals self) -> nonblank (apr_audience self) ->
  authorize_execution self intent attestation now age skew = Some (Ok authorization) <->
  cit_tool intent = EXECUTE_OPERATION /\ verify_freshness attestation now age skew = Ok tt
  /\ exists entry digest fingerprints, stands_for self intent attestation entry /\ att_execution_intent_digest attestation = Some digest
       /\ attestation_fingerprints intent attestation = Some (Ok fingerprints) /\ authorization = capability self attestation entry digest age skew fingerprints.
Proof.
  intros Hnd Hval Haud. unfold authorize_execution. case_bool_decide as Ht; cbn [negb]; [|by split; [|intros (? & _)]]. rewrite and_then_ok. split.
  - intros (principal & (Hf & entry & Hs & ->)%authorize_exact & H); [|done..]. destruct (att_execution_intent_digest attestation) as [digest|]; [|done].
    apply and_then_ok in H as (fingerprints & Hfp%in_err_ok & H). injection H as <-. split_and!; [done|done|]. by exists entry, digest, fingerprints.
  - intros (_ & Hf & entry & digest & fingerprints & Hs & Hd & Hfp & ->). exists (authorized_principal self entry).
    split; [apply authorize_exact; [done..|]; split; [done|by exists entry]|]. by rewrite Hd, Hfp.
Qed.

End valid.

(** C19: The authorization of an execution is exact.  For an activated registry and a window inside the range of
    the clock, an authorization exists exactly when the call is of the execution tool, the attestation lies in
    the window, and some entry of the registry stands for it: active, named by its credential and audience,
    allowed the tool and granted the execution, with its key accepting the signature for exactly this intent,
    whose fields are those of the attestation.  The authorization then carries the identity of that entry, which
    is the only one of its credential, with the digest, the nonce and the time that were signed. *)
Theorem authorization_exact {codec : EffectCodec} {ed25519 : Ed25519} document registry intent attestation now age skew :
  from_document document = Some (Ok registry) -> in_i64 (att_ts attestation) = true -> (0 <= now <= i64_max)%Z -> (0 <= age < i64_max)%Z -> (0 <= skew)%Z ->
  (forall authorization, authorize_execution registry intent attestation now age skew = Some (Ok authorization) ->
     exists entry, stands_for registry intent attestation entry /\ vea_principal authorization = authorized_principal registry entry
       /\ (forall other, other ∈ apr_principals registry -> pre_credential_id other = pre_credential_id entry -> other = entry)
       /\ att_execution_intent_digest attestation = Some (vea_execution_intent_digest authorization)
       /\ vea_nonce authorization = cit_nonce intent /\ vea_issued_at_unix authorization = cit_ts intent)
  /\ ((exists authorization, authorize_execution registry intent attestation now age skew = Some (Ok authorization)) <->
      cit_tool intent = EXECUTE_OPERATION /\ (now - age <= att_ts attestation <= now + skew)%Z /\ exists entry, stands_for registry intent attestation entry).
Proof.
  intros (_ & [Ha _ Hf Hc _] & ->)%from_document_exact Hts Hnow Hage Hskew. rewrite <- (freshness_exact attestation now age skew) by done. split.
  - intros authorization (Ht & _ & entry & digest & fingerprints & Hs & Hd & _ & ->)%authorize_execution_ok; [|done..]. exists entry.
    destruct (sf_signed _ _ _ _ Hs) as [Hn Hi _ _ _ _]. split_and!; try done. intros other Ho Heq. by apply (key_unique pre_credential_id _ _ _ Hc); [|apply Hs|].
  - split.
    + intros (authorization & (Ht & Hfr & entry & digest & fingerprints & Hs & _)%authorize_execution_ok); [|done..]. split_and!; [done|done|by exists entry].
    + intros (Ht & Hfr & entry & Hs). destruct (sf_digest _ _ _ _ Hs Ht) as (digest & Hd & _). destruct (fingerprints_of_signed _ _ _ (sf_signed _ _ _ _ Hs)) as [fingerprints Hfp].
      eexists. apply authorize_execution_ok; [done..|]. split_and!; [done|done|]. exists entry, digest, fingerprints. by split_and!.
Qed.
