(* ===== verification/OperationBundle.v ===== *)
(** * Operation-wide effect bundles

    [forge-core-kernel/src/operation_effect_bundle.rs]: the ordered effects of an operation compiled into
    one transaction envelope, and [validate_operation] of [forge-core-validate/src/lib.rs], which it calls
    first.  The file names of the writes of a bundle are pairwise distinct, so its order does not matter. *)

From S2P Require Import Prelude RustStr BTree Contracts OperationContracts Diagnostics StatePaths EffectTypes CrashIo EffectStore EffectPlan.

Local Open Scope string_scope.
Local Open Scope forge_scope.

Definition OPERATION_EFFECT_BUNDLE_SCHEMA_VERSION : string := "0.1".

(** ** [validate_operation] *)

Definition blank_id (id : option StableId) : bool :=
  match id with Some id => str_is_empty (trim (StableId_0 id)) | None => true end.

Definition blank_ref (path : option RepoPath) : bool :=
  match path with Some path => str_is_empty (trim (RepoPath_0 path)) | None => true end.

Definition validate_operation (document : OperationContractDocument) : ValidationReport :=
  let operation := ocd_operation_contract document in
  let authority := oc_authority operation in
  let concurrency := cos_concurrency (oc_coordination_scope operation) in
  let path := "operation_contract." +:+ StableId_0 (oc_contract_id operation) in
  let when (b : bool) (d : Diagnostic) := if b then [d] else [] in
  {| vr_diagnostics :=
       (when (is_nil (oc_stop_conditions operation))
          (Diagnostic_error DC_EmptyOperationStopConditions path "operation must declare stop conditions")
        ++ when (is_nil (aut_authority_evidence authority) && is_nil (aut_missing_authority authority)
                 && negb (bool_decide (aut_mutation_policy authority = MutationPolicy_Forbidden)))
             (Diagnostic_error DC_MissingOperationAuthorityEvidence (path +:+ ".authority")
                "non-forbidden operation requires authority evidence or explicit missing authority")
        ++ when (bool_decide (aut_mutation_policy authority = MutationPolicy_Allowed)
                 && (match aut_side_effect_policy authority with
                     | OperationSideEffectPolicy_WriteProjectFiles | OperationSideEffectPolicy_RunCommands
                     | OperationSideEffectPolicy_Publish => true
                     | _ => false
                     end)
                 && is_nil (oc_effect_contract_refs operation))
             (Diagnostic_error DC_MutatingOperationMissingEffectRefs (path +:+ ".effect_contract_refs")
                "mutating operation must declare effect contract refs")
        ++ when (con_fleet_mode concurrency && blank_id (con_agent_id concurrency))
             (Diagnostic_error DC_FleetOperationMissingAgent (path +:+ ".concurrency.agent_id") "fleet operation requires agent_id")
        ++ when (con_fleet_mode concurrency && blank_ref (con_registry_ref concurrency))
             (Diagnostic_error DC_FleetOperationMissingRegistry (path +:+ ".concurrency.registry_ref")
                "fleet operation requires registry_ref")
        ++ when (bool_decide (hup_input_requirement (oc_human operation) = HumanInputRequirement_Required)
                 && str_is_empty (trim (hpr_text (hup_prompt (oc_human operation)))))
             (Diagnostic_error DC_HumanPromptRequiredButEmpty (path +:+ ".human.prompt")
                "required human input needs prompt text"))%list |}.

(** ** Bundles *)

Inductive OperationEffectBundleError :=
| Bundle_MultipleEffectsRequired (observed : nat)
| Bundle_EffectSetMismatch
| Bundle_InvalidOperation
| Bundle_InvalidEffect (effect_id : string) (reasons : list string)
| Bundle_InvalidTransactionEnvelope
| Bundle_EffectBindingMismatch (effect_id : string)
| Bundle_DuplicateEffectId (effect_id : string)
| Bundle_ActorMismatch (effect_id : string)
| Bundle_UnsupportedTarget (effect_id reference : string)
| Bundle_ConflictingRead (reference : string)
| Bundle_OverlappingWrite (reference first_effect second_effect : string).

Record OperationEffectBundle := {
  oeb_operation_id : StableId;
  oeb_effect_refs : list RepoPath;
  oeb_effect_ids : list StableId;
  oeb_transaction_effect : ToolEffectContractDocument
}.

(** [format!("{:?}")] of a target kind. *)
Definition target_kind_debug (kind : EffectTargetKind) : string :=
  match kind with
  | EffectTargetKind_FilePath => "FilePath" | EffectTargetKind_Glob => "Glob" | EffectTargetKind_StateKey => "StateKey"
  | EffectTargetKind_ArtifactId => "ArtifactId" | EffectTargetKind_EvidenceId => "EvidenceId"
  | EffectTargetKind_LedgerStream => "LedgerStream" | EffectTargetKind_RequestStream => "RequestStream"
  | EffectTargetKind_CompletionId => "CompletionId"
  end.

Definition operation_wide_repair (destructive : bool) : EffectRepair :=
  if destructive then {|
    erp_strategy := RepairStrategy_CompensateThenRetry; erp_automatic_repair_allowed := false;
    erp_inverse_operation_ref := None; erp_stop_if_inverse_missing := false;
    erp_inverse := {| inv_kind := InverseKind_RestoreSnapshot; inv_source := InverseSource_Snapshot;
      inv_reference := Some "effect_wal_before_images"; inv_input_mapping_refs := []; inv_validation_gate_refs := [];
      inv_review_required := false |} |}
  else {|
    erp_strategy := RepairStrategy_None; erp_automatic_repair_allowed := false;
    erp_inverse_operation_ref := None; erp_stop_if_inverse_missing := false;
    erp_inverse := {| inv_kind := InverseKind_None; inv_source := InverseSource_Unavailable;
      inv_reference := None; inv_input_mapping_refs := []; inv_validation_gate_refs := [];
      inv_review_required := false |} |}.

(** [value.replace('\\', "/")]. *)
Definition forward_slashes (value : string) : string :=
  of_bytes (map (fun c => if bool_decide (c = "\"%char) then "/"%char else c) (to_bytes value)).

(** The locals of the loop over the effects. *)
Record BundleState := {
  bs_effect_ids : list StableId;
  bs_seen_ids : gset string;
  bs_actor : option EffectActor;
  bs_reads_by_target : gmap string EffectRead;
  bs_writes : list EffectWrite;
  bs_seen_write_targets : gmap string string;
  bs_recipients : gset string;
  bs_notification_required : bool;
  bs_destructive : bool
}.

Definition bundle_start : BundleState := {|
  bs_effect_ids := []; bs_seen_ids := ∅; bs_actor := None; bs_reads_by_target := ∅; bs_writes := [];
  bs_seen_write_targets := ∅; bs_recipients := ∅; bs_notification_required := false; bs_destructive := false |}.

Section bundle.
Context {lower : ToLowercase} (root : EffectRoot).

(** [normalized_target]; [Err] carries nothing there. *)
Definition normalized_target (kind : EffectTargetKind) (reference : string) : option string :=
  match resolve_effect_target (root_canonical root) kind reference with
  | Err _ => None
  | Ok (_, physical) =>
      let segments := split (fun c => bool_decide (c = "/"%char)) (forward_slashes physical) in
      Some (to_lowercase (String.concat "/" (List.filter (fun segment => negb (str_is_empty segment) && negb (bool_decide (segment = "."))) segments)))
  end.

Definition read_key (read : EffectRead) : option string :=
  if file_backed_target (er_target_kind read) then normalized_target (er_target_kind read) (er_reference read)
  else Some (to_lowercase ("logical:" +:+ target_kind_debug (er_target_kind read) +:+ ":" +:+ er_reference read)).

(** The loop over the read set of an effect. *)
Fixpoint bundle_reads (effect_id : string) (reads : list EffectRead) (by_target : gmap string EffectRead)
    : Result (gmap string EffectRead) OperationEffectBundleError :=
  match reads with
  | [] => Ok by_target
  | read :: rest =>
      match read_key read with
      | None => Err (Bundle_UnsupportedTarget effect_id (er_reference read))
      | Some key =>
          match by_target !! key with
          | Some existing =>
              if bool_decide (existing = read) then bundle_reads effect_id rest by_target
              else Err (Bundle_ConflictingRead (er_reference read))
          | None => bundle_reads effect_id rest (<[key := read]> by_target)
          end
      end
  end.

(** The loop over its write set. *)
Fixpoint bundle_writes (effect_id : string) (writes : list EffectWrite) (seen : gmap string string)
    : Result (gmap string string) OperationEffectBundleError :=
  match writes with
  | [] => Ok seen
  | write :: rest =>
      if negb (file_backed_target (ew_target_kind write)) then Err (Bundle_UnsupportedTarget effect_id (ew_reference write)) else
      match normalized_target (ew_target_kind write) (ew_reference write) with
      | None => Err (Bundle_UnsupportedTarget effect_id (ew_reference write))
      | Some key =>
          match seen !! key with
          | Some first_effect => Err (Bundle_OverlappingWrite (ew_reference write) first_effect effect_id)
          | None => bundle_writes effect_id rest (<[key := effect_id]> seen)
          end
      end
  end.

(** One turn of the loop. *)
Definition bundle_effect (operation_id : StableId) (s : BundleState) (document : ToolEffectContractDocument)
    : Result BundleState OperationEffectBundleError :=
  let effect := ted_tool_effect_contract document in
  let id := StableId_0 (te_id effect) in
  let validation := validate_tool_effect document in
  if has_errors validation
  then Err (Bundle_InvalidEffect id (map dg_message (List.filter is_error (vr_diagnostics validation)))) else
  if negb (bool_decide (te_operation_ref effect = operation_id)) then Err (Bundle_EffectBindingMismatch id) else
  if bool_decide (id ∈ bs_seen_ids s) then Err (Bundle_DuplicateEffectId id) else
  if match bs_actor s with Some expected => negb (bool_decide (expected = te_actor effect)) | None => false end
  then Err (Bundle_ActorMismatch id) else
  try reads <- bundle_reads id (te_read_set effect) (bs_reads_by_target s);
  try targets <- bundle_writes id (te_write_set effect) (bs_seen_write_targets s);
  Ok {|
    bs_effect_ids := (bs_effect_ids s ++ [te_id effect])%list;
    bs_seen_ids := {[id]} ∪ bs_seen_ids s;
    bs_actor := Some (default (te_actor effect) (bs_actor s));
    bs_reads_by_target := reads;
    bs_writes := (bs_writes s ++ te_write_set effect)%list;
    bs_seen_write_targets := targets;
    bs_recipients := bs_recipients s ∪ list_to_set (map StableId_0 (en_recipients (te_notification effect)));
    bs_notification_required := bs_notification_required s || en_required (te_notification effect);
    bs_destructive := bs_destructive s || existsb ew_destructive (te_write_set effect) |}.

Fixpoint bundle_effects (operation_id : StableId) (s : BundleState) (effects : list ToolEffectContractDocument)
    : Result BundleState OperationEffectBundleError :=
  match effects with
  | [] => Ok s
  | document :: rest => try s <- bundle_effect operation_id s document; bundle_effects operation_id s rest
  end.

Definition bundle_envelope (operation_id : StableId) (actor : EffectActor) (s : BundleState) : ToolEffectContractDocument := {|
  ted_schema_version := OPERATION_EFFECT_BUNDLE_SCHEMA_VERSION;
  ted_tool_effect_contract := {|
    te_id := mk_StableId ("operation-wide." +:+ StableId_0 operation_id);
    te_contract_ref := mk_RepoPath (".forge-method/runtime/operation-wide/" +:+ StableId_0 operation_id +:+ ".yaml");
    te_effect_kind := EffectKind_OperationTransaction;
    te_operation_ref := operation_id;
    te_actor := actor;
    te_read_set := map_values (bs_reads_by_target s);
    te_write_set := bs_writes s;
    te_conflict_detection := {|
      cd_check_against := mk_StableId "operation-wide-effect-set"; cd_granularity := mk_StableId "normalized-target";
      cd_conflict_codes := [ConflictCode_ReadTargetChanged; ConflictCode_WriteTargetChanged;
                            ConflictCode_WriteTargetClaimed; ConflictCode_OverlappingWriteSet];
      cd_policy := EffectConflictPolicy_Block |};
    te_notification := {| en_required := bs_notification_required s;
      en_recipients := map mk_StableId (set_iter (bs_recipients s)); en_request_contract_ref := None |};
    te_repair := operation_wide_repair (bs_destructive s) |} |}.

Definition compose_operation_effect_bundle (operation : OperationContractDocument) (effect_refs : list RepoPath)
    (effects : list ToolEffectContractDocument) : Result OperationEffectBundle OperationEffectBundleError :=
  let operation_id := oc_contract_id (ocd_operation_contract operation) in
  if has_errors (validate_operation operation) then Err Bundle_InvalidOperation else
  if (length effects <? 2)%nat then Err (Bundle_MultipleEffectsRequired (length effects)) else
  if negb (length effect_refs =? length effects)%nat
     || negb (bool_decide (oc_effect_contract_refs (ocd_operation_contract operation) = effect_refs))
  then Err Bundle_EffectSetMismatch else
  try s <- bundle_effects operation_id bundle_start effects;
  match bs_actor s with
  | None => Err Bundle_EffectSetMismatch
  | Some actor =>
      let transaction_effect := bundle_envelope operation_id actor s in
      if has_errors (validate_tool_effect transaction_effect) then Err Bundle_InvalidTransactionEnvelope
      else Ok {| oeb_operation_id := operation_id; oeb_effect_refs := effect_refs; oeb_effect_ids := bs_effect_ids s;
                 oeb_transaction_effect := transaction_effect |}
  end.

End bundle.

(** ** What a bundle is *)

Lemma forward_slashes_id s : contains_char "\" s = false -> forward_slashes s = s.
Proof.
  intros H%bool_decide_eq_false. unfold forward_slashes. rewrite <- (of_to_bytes s) at 2. f_equal.
  induction (to_bytes s) as [|c l IH]; simpl; [done|]. apply not_elem_of_cons in H as [Hc Hl].
  rewrite bool_decide_eq_false_2 by congruence. f_equal. by apply IH.
Qed.

(** The segments that are not dropped are the names of the path. *)
Lemma normal_segments segments names : normal_names (concat (map body_component segments)) = Some names ->
  List.filter (fun segment => negb (str_is_empty segment) && negb (bool_decide (segment = "."))) segments = names.
Proof.
  revert names. induction segments as [|s segments IH]; intros names; simpl; [by intros [= <-]|]. unfold body_component at 1.
  destruct (str_is_empty s) eqn:Ee; simpl; [apply IH|]. case_bool_decide; simpl; [apply IH|].
  case_bool_decide; simpl; [done|]. destruct (normal_names _) as [rest|] eqn:En; [|done]. intros [= <-]. by rewrite (IH rest).
Qed.

Lemma target_segments path key : target_key path = Some key ->
  List.filter (fun segment => negb (str_is_empty segment) && negb (bool_decide (segment = "."))) (split is_slash path) = key.
Proof.
  unfold target_key, components. intros H. apply normal_segments. destruct (is_absolute path); [done|].
  destruct (split is_slash path) as [|first rest]; [done|]. by destruct (bool_decide (first = ".")).
Qed.

Section claims.
Context {lower : ToLowercase} (root : EffectRoot).

(** The normal form of a target is the lower case of the file it names. *)
Lemma normalized_target_key kind reference target : normalized_target root kind reference = Some target ->
  exists physical key, effect_target_physical_reference kind reference = Ok physical /\ target_key physical = Some key
    /\ target = to_lowercase (String.concat "/" key).
Proof.
  unfold normalized_target. destruct (resolve_effect_target _ _ _) as [[path physical]|e] eqn:Er; [|done]. intros [= <-].
  destruct (resolved_key root _ _ _ _ _ Er) as (key & Hp & Hk & Hn & _). exists physical, key. split_and!; [done|done|].
  rewrite forward_slashes_id; [by rewrite <- (target_segments _ _ Hk)|].
  unfold normalized_effect_relative_path, normalize_state_relative_path in Hn. destruct (str_is_empty physical), (is_absolute physical); try done.
  by destruct (contains_char "\" physical).
Qed.

(** *** The writes *)

Definition write_target (write : EffectWrite) : option string := normalized_target root (ew_target_kind write) (ew_reference write).

Lemma bundle_writes_ok id writes seen seen' : bundle_writes root id writes seen = Ok seen' ->
  Forall (fun write => file_backed_target (ew_target_kind write) = true) writes
  /\ exists targets, Forall2 (fun write target => write_target write = Some target) writes targets
    /\ NoDup targets /\ (forall target, target ∈ targets -> seen !! target = None)
    /\ forall target, is_Some (seen' !! target) <-> is_Some (seen !! target) \/ target ∈ targets.
Proof.
  revert seen. induction writes as [|w writes IH]; intros seen; simpl.
  - intros [= <-]. split; [done|]. exists []. split_and!; [done|constructor|by intros ? ?%elem_of_nil|]. intros t. split; [by left|by intros [?|?%elem_of_nil]].
  - destruct (file_backed_target _) eqn:Ef; [|done]. simpl. destruct (normalized_target root _ _) as [key|] eqn:Ek; [|done].
    destruct (seen !! key) as [first|] eqn:Es; [done|]. intros (Hf & targets & Ht & Hnd & Hnew & Hs)%IH.
    split; [by constructor|]. exists (key :: targets). split_and!; [by constructor| | |].
    + constructor; [|done]. intros Hin. specialize (Hnew key Hin). by rewrite lookup_insert_eq in Hnew.
    + intros t [->|Hin]%elem_of_cons; [done|]. specialize (Hnew t Hin). by apply lookup_insert_None in Hnew as [].
    + intros t. rewrite Hs, lookup_insert_is_Some, elem_of_cons. split; [intros [[->|[_ ?]]|?]; auto|]. intros [?|[->|?]]; auto.
      destruct (decide (key = t)) as [->|]; auto.
Qed.

(** *** The reads *)

Lemma bundle_reads_ok id reads by_target by_target' : bundle_reads root id reads by_target = Ok by_target' ->
  (forall key read, by_target !! key = Some read -> by_target' !! key = Some read)
  /\ (forall read, read ∈ reads -> exists key, by_target' !! key = Some read)
  /\ (forall key read, by_target' !! key = Some read -> by_target !! key = Some read \/ read ∈ reads).
Proof.
  revert by_target. induction reads as [|r reads IH]; intros by_target; simpl.
  - intros [= <-]. split_and!; [done|by intros ? ?%elem_of_nil|by left].
  - destruct (read_key root r) as [key|]; [|done]. destruct (by_target !! key) as [existing|] eqn:Ee.
    + case_bool_decide as Hr; [|done]. subst existing. intros (Hk & Hin & Hb)%IH. split_and!; [done| |].
      * intros r' [->|Hr]%elem_of_cons; [exists key; by apply Hk|by apply Hin].
      * intros k r' Hr. destruct (Hb k r' Hr); [by left|right; by right].
    + intros (Hk & Hin & Hb)%IH. split_and!.
      * intros k r' Hr. apply Hk. rewrite lookup_insert_ne by congruence. done.
      * intros r' [->|Hr]%elem_of_cons; [exists key; apply Hk, lookup_insert_eq|by apply Hin].
      * intros k r' Hr. destruct (Hb k r' Hr) as [Hi|]; [|right; by right]. apply lookup_insert_Some in Hi as [[_ <-]|[_ ?]]; [right; by left|by left].
Qed.

(** *** The loop *)

Notation contract := ted_tool_effect_contract.

(** What the locals hold after the effects [effects]. *)
Record bundled (operation_id : StableId) (effects : list ToolEffectContractDocument) (s : BundleState) : Prop := {
  bd_ids : bs_effect_ids s = map (fun e => te_id (contract e)) effects;
  bd_seen : bs_seen_ids s = list_to_set (map (fun e => StableId_0 (te_id (contract e))) effects);
  bd_distinct : NoDup (map (fun e => StableId_0 (te_id (contract e))) effects);
  bd_actor : Forall (fun e => bs_actor s = Some (te_actor (contract e))) effects;
  bd_operation : Forall (fun e => te_operation_ref (contract e) = operation_id) effects;
  bd_valid : Forall (fun e => has_errors (validate_tool_effect e) = false) effects;
  bd_writes : bs_writes s = concat (map (fun e => te_write_set (contract e)) effects);
  bd_destructive : bs_destructive s = existsb ew_destructive (bs_writes s);
  bd_files : Forall (fun write => file_backed_target (ew_target_kind write) = true) (bs_writes s);
  bd_targets : exists targets, Forall2 (fun write target => write_target write = Some target) (bs_writes s) targets
    /\ NoDup targets /\ forall target, is_Some (bs_seen_write_targets s !! target) <-> target ∈ targets;
  bd_reads read : (exists key, bs_reads_by_target s !! key = Some read) <-> exists e, e ∈ effects /\ read ∈ te_read_set (contract e)
}.

Lemma bundled_start operation_id : bundled operation_id [] bundle_start.
Proof.
  split; try done; [constructor| |].
  - exists []. split_and!; [constructor|constructor|]. intros t. simpl. rewrite lookup_empty. split; [by intros []|by intros ?%elem_of_nil].
  - intros read. simpl. split; [intros (k & Hk); by rewrite lookup_empty in Hk|by intros (e & ?%elem_of_nil & _)].
Qed.

Lemma bundle_effect_ok operation_id effects s e s' : bundled operation_id effects s ->
  bundle_effect root operation_id s e = Ok s' -> bundled operation_id (effects ++ [e]) s'.
Proof.
  intros Hs. unfold bundle_effect. destruct (has_errors (validate_tool_effect e)) eqn:Ev; [done|].
  case_bool_decide as Hop; [|done]. simpl. case_bool_decide as Hseen; [done|].
  destruct (match bs_actor s with Some _ => _ | None => _ end) eqn:Ea; [done|].
  destruct (bundle_reads _ _ _ _) as [reads|] eqn:Er; [|done]. simpl. destruct (bundle_writes _ _ _ _) as [targets|] eqn:Ew; [|done]. simpl.
  intros [= <-]. destruct Hs as [Hids Hse Hd Hac Hopr Hva Hwr Hde Hfi (ts & Hts & Hnd & Hdom) Hre].
  destruct (bundle_writes_ok _ _ _ _ Ew) as (Hf' & ts' & Hts' & Hnd' & Hnew & Hdom'). destruct (bundle_reads_ok _ _ _ _ Er) as (Hk & Hin & Hb).
  split; simpl.
  - by rewrite Hids, map_app.
  - rewrite Hse, map_app, list_to_set_app_L. simpl. set_solver.
  - rewrite map_app. apply NoDup_app. split_and!; [done| |apply NoDup_singleton]. intros x Hx ->%list_elem_of_singleton.
    apply Hseen. rewrite Hse. by apply elem_of_list_to_set.
  - apply Forall_app. split.
    + eapply Forall_impl; [exact Hac|]. intros e' He'. simpl in *. by rewrite He' in *.
    + apply Forall_singleton. destruct (bs_actor s) as [a|]; simpl; [|done]. by apply negb_false_iff, bool_decide_eq_true in Ea as ->.
  - apply Forall_app. split; [done|by apply Forall_singleton].
  - apply Forall_app. split; [done|by apply Forall_singleton].
  - rewrite Hwr, map_app, concat_app. simpl. by rewrite app_nil_r.
  - by rewrite existsb_app, Hde.
  - by apply Forall_app.
  - exists (ts ++ ts')%list. split_and!; [by apply Forall2_app| |].
    + apply NoDup_app. split_and!; [done| |done]. intros t Ht Ht'. specialize (Hnew t Ht'). apply Hdom in Ht as [? Ht]. congruence.
    + intros t. rewrite Hdom', Hdom, elem_of_app. done.
  - intros read. setoid_rewrite elem_of_app. split.
    + intros (key & [Hr|Hr]%Hb).
      * destruct (proj1 (Hre read) (ex_intro _ key Hr)) as (e' & ? & ?). exists e'. split; [by left|done].
      * exists e. split; [right; by left|done].
    + intros (e' & [He'| ->%list_elem_of_singleton] & Hr); [|by apply Hin].
      destruct (proj2 (Hre read) (ex_intro _ e' (conj He' Hr))) as [key Hkey]. exists key. by apply Hk.
Qed.

Lemma bundle_effects_ok operation_id effects done_ s s' : bundled operation_id done_ s ->
  bundle_effects root operation_id s effects = Ok s' -> bundled operation_id (done_ ++ effects) s'.
Proof.
  revert done_ s. induction effects as [|e effects IH]; intros done_ s Hs; simpl; [intros [= <-]; by rewrite app_nil_r|].
  destruct (bundle_effect root operation_id s e) as [s1|] eqn:E; [|done]. simpl. intros H.
  rewrite cons_middle, app_assoc. eapply IH; [|exact H]. by eapply bundle_effect_ok.
Qed.

(** Writes with distinct normal forms name distinct files, whatever the payloads and the disk are. *)
Lemma distinct_targets_keys {codec : EffectCodec} payloads d writes targets :
  Forall2 (fun write target => write_target write = Some target) writes targets -> NoDup targets ->
  NoDup (map fst (omap (asked payloads d) writes)).
Proof.
  assert (forall write key content target, asked payloads d write = Some (key, content) -> write_target write = Some target ->
    target = to_lowercase (String.concat "/" key)) as Hkey.
  { intros write key content target Ha (physical & key' & Hp & Hk & ->)%normalized_target_key. unfold asked in Ha. rewrite Hp, Hk in Ha.
    destruct (ew_access_mode write), (payload_for payloads (ew_reference write)); by simplify_eq. }
  induction 1 as [|w t writes targets Hw Hall IH]; intros Hnd; simpl; [constructor|]. apply NoDup_cons in Hnd as [Hn Hnd].
  destruct (asked payloads d w) as [[key content]|] eqn:Ea; simpl; [|by apply IH]. apply NoDup_cons. split; [|by apply IH].
  intros ([key' content'] & Heq & (w' & Hw' & Ha')%list_elem_of_omap)%list_elem_of_fmap. simpl in Heq. subst key'.
  apply list_elem_of_lookup in Hw' as [i Hi]. destruct (Forall2_lookup_l _ _ _ _ _ Hall Hi) as (t' & Ht' & Hwt').
  apply Hn, list_elem_of_lookup. exists i. by rewrite (Hkey w key content t Ea Hw), <- (Hkey w' key content' t' Ha' Hwt').
Qed.

Lemma compose_bundled operation effect_refs effects bundle :
  compose_operation_effect_bundle root operation effect_refs effects = Ok bundle ->
  exists s actor, bundled (oc_contract_id (ocd_operation_contract operation)) effects s /\ bs_actor s = Some actor
    /\ bundle = {| oeb_operation_id := oc_contract_id (ocd_operation_contract operation); oeb_effect_refs := effect_refs;
         oeb_effect_ids := bs_effect_ids s; oeb_transaction_effect := bundle_envelope (oc_contract_id (ocd_operation_contract operation)) actor s |}
    /\ 2 <= length effects /\ length effect_refs = length effects /\ effect_refs = oc_effect_contract_refs (ocd_operation_contract operation)
    /\ has_errors (validate_tool_effect (oeb_transaction_effect bundle)) = false.
Proof.
  unfold compose_operation_effect_bundle. destruct (has_errors (validate_operation operation)); [done|].
  destruct (Nat.ltb_spec (length effects) 2); [done|]. destruct (Nat.eqb_spec (length effect_refs) (length effects)) as [Hl|]; [|done]. simpl.
  case_bool_decide as Hr; [|done]. simpl. destruct (bundle_effects _ _ _ _) as [s|] eqn:E; [|done]. simpl.
  destruct (bs_actor s) as [actor|] eqn:Ea; [|done]. destruct (has_errors (validate_tool_effect _)) eqn:Ev; [done|]. intros [= <-].
  exists s, actor. split_and!; try done. apply (bundle_effects_ok _ effects [] _ _ (bundled_start _) E).
Qed.

End claims.

(** C22: An operation-wide bundle is the union of its effects.  If effects compose, each is valid, of this
    operation and of one actor, under an id of its own; the writes of the bundle are their writes in
    order, all file backed, and no two of them name the same file, whatever the payloads and the disk are;
    its reads are exactly their reads; and it asks for a restoration of the snapshot when a write is destructive. *)
Theorem bundle_disjoint {codec : EffectCodec} {lower : ToLowercase} root operation effect_refs effects bundle payloads d :
  compose_operation_effect_bundle root operation effect_refs effects = Ok bundle ->
  let whole := ted_tool_effect_contract (oeb_transaction_effect bundle) in
  oeb_effect_ids bundle = map (fun e => te_id (ted_tool_effect_contract e)) effects /\ NoDup (oeb_effect_ids bundle)
  /\ Forall (fun e => has_errors (validate_tool_effect e) = false /\ te_actor (ted_tool_effect_contract e) = te_actor whole
       /\ te_operation_ref (ted_tool_effect_contract e) = te_operation_ref whole) effects
  /\ te_write_set whole = concat (map (fun e => te_write_set (ted_tool_effect_contract e)) effects)
  /\ Forall (fun write => file_backed_target (ew_target_kind write) = true) (te_write_set whole)
  /\ NoDup (map fst (omap (asked payloads d) (te_write_set whole)))
  /\ (forall read, read ∈ te_read_set whole <-> exists e, e ∈ effects /\ read ∈ te_read_set (ted_tool_effect_contract e))
  /\ te_repair whole = operation_wide_repair (existsb ew_destructive (te_write_set whole))
  /\ has_errors (validate_tool_effect (oeb_transaction_effect bundle)) = false.
Proof.
  intros (s & actor & Hs & Ha & -> & _ & _ & _ & Hv)%compose_bundled. simpl in *.
  pose proof (bd_targets _ _ _ _ Hs) as (targets & Hts & Hnd & _). split_and!.
  - apply Hs.
  - rewrite (bd_ids _ _ _ _ Hs). pose proof (bd_distinct _ _ _ _ Hs) as Hd. rewrite <- map_map in Hd. by eapply NoDup_fmap_1.
  - pose proof (bd_actor _ _ _ _ Hs) as H1. pose proof (bd_operation _ _ _ _ Hs) as H2. pose proof (bd_valid _ _ _ _ Hs) as H3.
    rewrite Forall_forall in *. intros e He. split_and!; [by apply H3| |by apply H2]. specialize (H1 e He). congruence.
  - apply Hs.
  - apply Hs.
  - by eapply distinct_targets_keys.
  - intros read. rewrite <- (bd_reads _ _ _ _ Hs). split.
    + intros Hin. apply elem_of_map_values in Hin. done.
    + intros Hk. by apply elem_of_map_values.
  - by rewrite (bd_destructive _ _ _ _ Hs).
  - done.
Qed.
