(* ===== verification/ReplayDisk.v ===== *)
(** * The replay log among the files of the state root

    The two files of [ReplayCommands] on the disk of [CrashIo], so that replay commands run in the same
    script of faults as the effect store, and what the commands of an execution do to a log that holds
    the reservation of its nonce: [guarded] before the reservation is consumed, perhaps with a torn part
    of the consuming record, and [spent] after. *)

From S2P Require Import Prelude RustStr BTree Contracts WalFrame ReplayWal ReplayCommands ReplayLog ReplaySafety CrashIo.

Local Open Scope string_scope.
Local Open Scope forge_scope.

Definition FORGE_STATE_DIR : string := ".forge-method".

(** [replay_wal_path] and [replay_manifest_path], by their components below the parent of the state root. *)
Definition replay_wal_key : Key := [FORGE_STATE_DIR; "wal"; "replay.fmr1"].
Definition replay_manifest_key : Key := [FORGE_STATE_DIR; "replay-wal.manifest.json"].

(** [serde_json::from_slice] on a manifest. *)
Class ManifestCodec := manifest_from_slice : bytes -> option ReplayWalManifest.

Section disk.
Context {codec : ReplayCodec} {manifest : ManifestCodec}.

Definition replay_store (d : Disk) : ReplayStore := {|
  rst_manifest := manifest_from_slice <$> d !! replay_manifest_key;
  rst_wal := d !! replay_wal_key |}.

Definition store_wal (d : Disk) (st : ReplayStore) : Disk :=
  match rst_wal st with Some wal => <[replay_wal_key := wal]> d | None => d end.

(** At least the length of every record. *)
Definition whole_append : nat := Z.to_nat (Z.of_nat HEADER_LEN + MAX_PAYLOAD_LEN + Z.of_nat TRAILER_LEN).

(** What the operating system does in one command: a command cuts a torn tail off and appends one record. *)
Definition replay_io (f : Fault) : ReplayIo :=
  let stopped truncated reported written := {| rio_truncated := truncated; rio_truncation_reported := reported;
    rio_written := written; rio_append_reported := false |} in
  match f with
  | Works => {| rio_truncated := true; rio_truncation_reported := true; rio_written := whole_append; rio_append_reported := true |}
  | Fails Untouched | Crashes Untouched => stopped false false 0
  | Fails (Left _) | Crashes (Left _) => stopped true false 0
  | Fails (Wrote n) | Crashes (Wrote n) => stopped true true n
  end.

(** A replay command as one operation. *)
Definition replay_call {A} (call : ReplayStore -> ReplayIo -> Result A ReplayWalError * ReplayStore) : Io (Result A ReplayWalError) := fun d fs =>
  let '(f, fs) := next_fault fs in
  let '(r, st) := call (replay_store d) (replay_io f) in
  (match f with Crashes _ => Crashed | _ => Returned r end, store_wal d st, fs).

Lemma wp_replay {A} P (call : ReplayStore -> ReplayIo -> Result A ReplayWalError * ReplayStore) Q C d :
  (forall f r st, call (replay_store d) (replay_io f) = (r, st) -> (f = Works \/ exists p, f = Fails p /\ P f) -> Q r (store_wal d st)) ->
  (forall f r st, call (replay_store d) (replay_io f) = (r, st) -> (exists p, f = Crashes p /\ P f) -> C (store_wal d st)) ->
  wp P (replay_call call) Q C d.
Proof.
  intros Hq Hc fs Hfs. unfold replay_call. destruct fs as [|f fs]; simpl.
  - destruct (call _ _) as [r st] eqn:E. split; [done|]. apply (Hq Works); auto.
  - inversion Hfs as [|? ? Hp Hr]; subst. destruct (call _ _) as [r st] eqn:E. destruct f as [|p|p]; [split; [done|]..|].
    + apply (Hq Works); auto.
    + apply (Hq (Fails p)); eauto.
    + apply (Hc (Crashes p) r); eauto.
Qed.

Lemma replay_calm {A} (call : ReplayStore -> ReplayIo -> Result A ReplayWalError * ReplayStore) : calm (replay_call call).
Proof. intros d. unfold replay_call. simpl. destruct (call _ _) as [r st]. by eexists _, _. Qed.

(** The store is initialized, and its log is that of the records [rs], perhaps with a torn tail. *)
Definition replay_ready (d : Disk) (good : bytes) (rs : list ReplayWalRecord) (m : gmap string ReplayReservation) : Prop :=
  rst_manifest (replay_store d) = Some (Some expected_manifest)
  /\ exists wal, d !! replay_wal_key = Some wal /\ replay_image good rs m wal.

Definition same_manifest (d d' : Disk) : Prop := d !! replay_manifest_key = d' !! replay_manifest_key.

Context {laws : ReplayCodecLaws codec}.

(** ** One command on an initialized store *)

Lemma recover_exact st good rs m wal io :
  rst_manifest st = Some (Some expected_manifest) -> rst_wal st = Some wal -> replay_image good rs m wal ->
  exists recovery, recovered recovery good rs m /\ ensure_appendable recovery = Ok tt
    /\ (recover_replay_wal st true io = (Ok recovery, set_wal st good)
        \/ rio_truncated io && rio_truncation_reported io = false /\ exists wal', (wal' = wal \/ wal' = good)
             /\ recover_replay_wal st true io = (Err Replay_RepairWal, set_wal st wal')).
Proof.
  intros Em Ew Hi. destruct (image_decoded _ _ _ _ Hi) as (reason & Hd & Hcase & Hb). pose proof (image_log _ _ _ _ Hi) as Hlog.
  unfold recover_replay_wal, ensure_replay_initialized_under_lock. rewrite Em, Ew. simpl. rewrite Ew.
  unfold recover_replay_wal_file. rewrite Hd.
  assert ((REPLAY_WAL_MAX_BYTES <? Z.of_nat (length wal))%Z = false) as -> by (apply Z.ltb_ge; lia).
  cbn [rw_stop_reason replay_recovered rw_last_good_offset].
  rewrite usize_to_u64_small, Nat2Z.id by (unfold REPLAY_WAL_MAX_BYTES, i64_max in *; lia).
  destruct Hcase as [[-> ->]|(Hsafe & Hlt & Hgood)].
  - rewrite Z.ltb_irrefl, andb_false_r. simpl. exists (replay_recovered good rs m (length good) ReplayStop_CleanEof).
    split_and!; [by split|done|by left].
  - rewrite bool_decide_eq_false_2 by (by intros ->).
    assert ((Z.of_nat (length good) <? Z.of_nat (length wal))%Z = true) as -> by (apply Z.ltb_lt; lia). rewrite Hsafe. cbn [andb].
    rewrite <- Hgood. eexists {| rw_records := rs; rw_reservations := m; rw_last_observed_seq := Z.of_nat (length rs);
      rw_valid_record_count := length rs; rw_last_good_offset := Z.of_nat (length good); rw_original_len := Z.of_nat (length wal);
      rw_repaired := true; rw_stop_reason := reason |}.
    split_and!; [by split| |].
    + unfold ensure_appendable, is_clean. simpl. rewrite Hsafe. by rewrite orb_true_r.
    + destruct (rio_truncated io), (rio_truncation_reported io); simpl; [by left|right; split; [done|]; eexists; split; [|done]; auto..].
Qed.

(** A command on the log either ends in the repair or goes on with the repaired log. *)
Lemma with_recovery_exact {A} st good rs m wal io (k : ReplayWalRecovery -> bytes -> Result A ReplayWalError * bytes) r st' :
  rst_manifest st = Some (Some expected_manifest) -> rst_wal st = Some wal -> replay_image good rs m wal ->
  with_recovery st true io k = (r, st') ->
  rst_manifest st' = rst_manifest st
  /\ ((rio_truncated io && rio_truncation_reported io = false /\ is_ok r = false /\ (rst_wal st' = Some wal \/ rst_wal st' = Some good))
      \/ exists recovery wal', recovered recovery good rs m /\ k recovery good = (r, wal') /\ rst_wal st' = Some wal').
Proof.
  intros Em Ew Hi. destruct (recover_exact st good rs m wal io Em Ew Hi) as (recovery & Hrec & Ha & Hcases).
  unfold with_recovery. destruct Hcases as [->|(Hio & wal' & Hw' & ->)].
  - rewrite Ha. cbn [rst_wal set_wal]. destruct (k recovery good) as [r' wal'] eqn:Ek. intros [= <- <-]. split; [done|]. right. by exists recovery, wal'.
  - intros [= <- <-]. split; [done|]. left. split_and!; [done|done|]. by destruct Hw' as [->| ->]; [left|right].
Qed.

(** A record that fits can be prepared. *)
Lemma room_prepared {B} recovery good rs m p v (f : Z -> bytes -> B) :
  recovered recovery good rs m -> has_room good rs p v ->
  (try seq <- replay_next_sequence (rw_last_observed_seq recovery);
   try record <- encode_payload_record seq p;
   try _ <- ensure_append_capacity recovery (length record);
   Ok (f seq record)) = Ok (f (replay_next rs) (replay_rec_bytes rs p v)).
Proof.
  intros [Hlog _ Hseq Hn Ho] [Hv Hp Hb Hr]. pose proof (replay_log_bounds _ _ _ Hlog) as (Hb0 & Hr0 & _).
  unfold replay_next_sequence, u64_checked_add. rewrite Hseq.
  assert (in_u64 (Z.of_nat (length rs) + 1) = true) as ->.
  { unfold in_u64, u64_max, REPLAY_WAL_MAX_RECORDS in *. apply andb_true_iff. rewrite !Z.leb_le. lia. }
  cbn [result_bind]. fold (replay_next rs). unfold encode_payload_record. rewrite Hv.
  assert ((MAX_PAYLOAD_LEN <? Z.of_nat (length v))%Z = false) as -> by (apply Z.ltb_ge; lia).
  rewrite encode_nonce_record by done. cbn [result_bind]. fold (replay_rec_bytes rs p v). unfold ensure_append_capacity. rewrite Hn, Ho.
  assert ((REPLAY_WAL_MAX_RECORDS <? Z.of_nat (length rs) + 1)%Z = false) as -> by (apply Z.ltb_ge; lia).
  rewrite length_app in Hb. rewrite usize_to_u64_small by (unfold REPLAY_WAL_MAX_BYTES, i64_max in *; lia).
  assert ((REPLAY_WAL_MAX_BYTES <? u64_saturating_add (Z.of_nat (length good)) (Z.of_nat (length (replay_rec_bytes rs p v))))%Z = false) as ->; [|done].
  apply Z.ltb_ge. unfold u64_saturating_add, u64_max, REPLAY_WAL_MAX_BYTES in *. lia.
Qed.

Lemma whole_append_enough good rs p v : has_room good rs p v -> length (replay_rec_bytes rs p v) <= whole_append.
Proof.
  intros [_ Hp _ _]. rewrite length_replay_rec. unfold whole_append, MAX_PAYLOAD_LEN, HEADER_LEN, TRAILER_LEN in *. lia.
Qed.

(** An append that works leaves the record; any other leaves a part of it. *)
Lemma append_works good rs p v : has_room good rs p v ->
  append_wal good (replay_rec_bytes rs p v) (replay_io Works) = (true, (good ++ replay_rec_bytes rs p v)%list).
Proof.
  intros H%whole_append_enough. unfold append_wal. cbn [replay_io rio_written rio_append_reported].
  rewrite (proj2 (Nat.leb_le _ _) H), take_ge by done. done.
Qed.

(** ** The reservation of one nonce *)

Section nonce.
Context (key intent commit : string) (good : bytes) (rs : list ReplayWalRecord) (m : gmap string ReplayReservation).
Context (reservation : ReplayReservation) (v : bytes).

Notation payload := (consume_payload key intent commit 2 1).
Notation record := (replay_rec_bytes rs payload v).

(** The log holds the reservation, and there is room for the record that consumes it. *)
Record reserves : Prop := {
  rs_log : replay_log good rs m;
  rs_key : m !! key = Some reservation;
  rs_intent : rv_intent_digest reservation = intent;
  rs_commit : rv_commit_digest reservation = commit;
  rs_state : rv_state reservation = ReplayReservationState_Reserved;
  rs_room : has_room good rs payload v;
  rs_tokens : is_sha256_token key = true /\ is_sha256_token intent = true /\ is_sha256_token commit = true
}.

(** The reservation after it was consumed, and the log that says so. *)
Definition spent_reservation : ReplayReservation := {|
  rv_key_hash := key; rv_intent_digest := intent; rv_commit_digest := commit; rv_revision := 2;
  rv_state := ReplayReservationState_Consumed; rv_reserved_seq := rv_reserved_seq reservation;
  rv_consumed_seq := Some (replay_next rs) |}.

Definition spent_log : list ReplayWalRecord := (rs ++ [replay_rec good rs payload v])%list.

Definition guarded (d : Disk) : Prop :=
  rst_manifest (replay_store d) = Some (Some expected_manifest)
  /\ exists n, n < length record /\ d !! replay_wal_key = Some (good ++ take n record)%list.

Definition spent (d : Disk) : Prop :=
  rst_manifest (replay_store d) = Some (Some expected_manifest) /\ d !! replay_wal_key = Some (good ++ record)%list.

Hypothesis Hres : reserves.

Lemma reservation_facts : rv_key_hash reservation = key /\ rv_revision reservation = 1%Z.
Proof.
  destruct (log_reservations _ _ _ _ _ (rs_log Hres) (rs_key Hres)) as [Hk Hr _]. by rewrite (rs_state Hres) in Hr.
Qed.

Lemma spent_is_log : replay_log (good ++ record) spent_log (<[key := spent_reservation]> m).
Proof.
  destruct reservation_facts as [Hk Hr]. eapply replay_log_snoc; [apply Hres|apply Hres| |].
  - split; [done|]. apply Hres.
  - rewrite <- (rs_intent Hres), <- (rs_commit Hres). rewrite (apply_consume _ _ _ key reservation 1%Z) by (done || apply Hres).
    unfold spent_reservation. by rewrite Hk, (rs_intent Hres), (rs_commit Hres).
Qed.

Lemma guarded_image n : n < length record -> replay_image good rs m (good ++ take n record)%list.
Proof.
  intros Hn. destruct n as [|n]; [rewrite take_0, app_nil_r; apply replay_clean, Hres|].
  apply replay_torn; [apply Hres|apply Hres|lia].
Qed.

(** After any part of the append. *)
Lemma part_appended (d : Disk) n : rst_manifest (replay_store d) = Some (Some expected_manifest) ->
  d !! replay_wal_key = Some (good ++ take n record)%list -> guarded d \/ spent d.
Proof.
  intros Hm Hw. destruct (decide (n < length record)) as [Hn|Hn]; [left; split; [done|by exists n]|right; split; [done|]].
  by rewrite take_ge in Hw by lia.
Qed.

(** Whether this call appended the record or an earlier one did. *)
Definition consumption (appended : bool) : ReplayConsumeResult := {|
  rcon_seq := replay_next rs; rcon_bytes_appended := if appended then usize_to_u64 (length record) else 0;
  rcon_appended := appended; rcon_reservation := spent_reservation |}.

Lemma prepare_consume_exact recovery : recovered recovery good rs m ->
  prepare_consume recovery reservation key intent commit 1 = Ok (replay_next rs, record, spent_reservation).
Proof.
  intros Hrec. destruct reservation_facts as [_ Hr]. unfold prepare_consume. rewrite Hr. cbn [negb Z.eqb Pos.eqb].
  change (u64_checked_add 1 1) with (Some 2%Z). cbv iota.
  rewrite (room_prepared recovery good rs m payload v (fun seq record => (seq, record, {|
    rv_key_hash := key; rv_intent_digest := intent; rv_commit_digest := commit; rv_revision := 2;
    rv_state := ReplayReservationState_Consumed; rv_reserved_seq := rv_reserved_seq reservation; rv_consumed_seq := Some seq |})) Hrec (rs_room Hres)).
  done.
Qed.

Lemma matching_exact recovery : recovered recovery good rs m -> matching_reservation recovery key intent commit = Ok reservation.
Proof.
  intros Hrec. unfold matching_reservation. rewrite (rec_reservations _ _ _ _ Hrec), (rs_key Hres).
  by rewrite !bool_decide_eq_true_2 by apply Hres.
Qed.

(** What a command that consumes leaves and answers. *)
Definition consume_end (result : Result ReplayConsumeResult ReplayWalError) (d : Disk) : Prop :=
  match result with Ok r => spent d /\ exists appended, r = consumption appended | Err _ => guarded d \/ spent d end.

Lemma appended_end (io : ReplayIo) (r : Result ReplayConsumeResult ReplayWalError) (wal' : bytes) (d' : Disk) :
  rst_manifest (replay_store d') = Some (Some expected_manifest) -> d' !! replay_wal_key = Some wal' ->
  (let '(appended, w) := append_wal good record io in
   (if appended then Ok (consumption true) else Err Replay_WriteWal, w)) = (r, wal') ->
  consume_end r d'.
Proof.
  intros Hm Hw. unfold append_wal. intros [<- <-]%pair_equal_spec.
  destruct (length record <=? rio_written io)%nat eqn:El; cbn [andb]; [|by eapply part_appended].
  apply Nat.leb_le in El. rewrite take_ge in Hw by done.
  destruct (rio_append_reported io); [split; [by split|by exists true]|right; by split].
Qed.

(** ** Consuming by key, from either state *)

Lemma consume_spent (recovery : ReplayWalRecovery) (io : ReplayIo) (r : Result ReplayConsumeResult ReplayWalError) (wal' : bytes) :
  recovered recovery (good ++ record) spent_log (<[key := spent_reservation]> m) ->
  consume_replay_recovered recovery (good ++ record)%list key intent commit 1 io = (r, wal') ->
  r = Ok (consumption false) /\ wal' = (good ++ record)%list.
Proof.
  intros Hrec. unfold consume_replay_recovered, matching_reservation.
  rewrite (rec_reservations _ _ _ _ Hrec), lookup_insert_eq. cbn [spent_reservation rv_intent_digest rv_commit_digest rv_state].
  rewrite !bool_decide_eq_true_2 by done. cbn [negb rv_revision rv_consumed_seq]. by intros [<- <-]%pair_equal_spec.
Qed.

Lemma consume_guarded (recovery : ReplayWalRecovery) (io : ReplayIo) (r : Result ReplayConsumeResult ReplayWalError) (wal' : bytes) (d' : Disk) : recovered recovery good rs m ->
  rst_manifest (replay_store d') = Some (Some expected_manifest) -> d' !! replay_wal_key = Some wal' ->
  consume_replay_recovered recovery good key intent commit 1 io = (r, wal') -> consume_end r d'.
Proof.
  intros Hrec Hm Hw. unfold consume_replay_recovered. rewrite matching_exact by done. rewrite (rs_state Hres).
  rewrite bool_decide_eq_false_2 by done. rewrite prepare_consume_exact by done. by eapply appended_end.
Qed.

Lemma store_wal_manifest d st : rst_manifest (replay_store (store_wal d st)) = rst_manifest (replay_store d).
Proof. unfold replay_store, store_wal. simpl. destruct (rst_wal st); [|done]. by rewrite lookup_insert_ne. Qed.

Lemma store_wal_wal d st wal : rst_wal st = Some wal -> store_wal d st !! replay_wal_key = Some wal.
Proof. intros H. unfold store_wal. rewrite H. by rewrite lookup_insert_eq. Qed.

Lemma checks_pass {A} (st : ReplayStore) (k : unit -> Result A ReplayWalError * ReplayStore) :
  checked (validate_sha256_field "key_hash" key) st (fun _ =>
  checked (validate_sha256_digest intent) st (fun _ =>
  checked (validate_commit_digest commit) st (fun _ =>
  checked (validate_revision "expected_revision" 1) st (fun _ =>
  checked (Ok tt) st k)))) = k tt.
Proof.
  destruct (rs_tokens Hres) as (Hk & Hi & Hc).
  unfold validate_sha256_digest, validate_commit_digest, validate_sha256_field. by rewrite Hk, Hi, Hc.
Qed.

(** The image the log is, in either state, with what it decodes to. *)
Lemma phase_image d : guarded d \/ spent d ->
  exists wal, rst_manifest (replay_store d) = Some (Some expected_manifest) /\ d !! replay_wal_key = Some wal
    /\ (replay_image good rs m wal \/ wal = (good ++ record)%list).
Proof.
  intros [[Hm (n & Hn & Hw)]|[Hm Hw]]; eexists; (split_and!; [done|done|]); [left; by apply guarded_image|by right].
Qed.

Lemma consume_key_cases (d : Disk) (io : ReplayIo) (r : Result ReplayConsumeResult ReplayWalError) st' : guarded d \/ spent d ->
  consume_replay_key_hash_under_effect_lock (replay_store d) (Ok tt) key intent commit 1 io = (r, st') ->
  consume_end r (store_wal d st') /\ (rio_truncated io && rio_truncation_reported io = true ->
    whole_append <= rio_written io -> rio_append_reported io = true -> is_ok r = true).
Proof.
  intros Hd. unfold consume_replay_key_hash_under_effect_lock. rewrite checks_pass. intros Hr.
  destruct Hd as [[Hm (n & Hn & Hw)]|[Hm Hw]].
  - pose proof (guarded_image n Hn) as Hi.
    destruct (with_recovery_exact (replay_store d) good rs m _ io _ r st' Hm Hw Hi Hr) as [Hm' [(Hio & Herr & Hw')|(recovery & wal' & Hrec & Hk & Hw')]].
    + split; [|by rewrite Hio]. destruct r as [|e]; [done|]. left. split; [by rewrite store_wal_manifest|].
      destruct Hw' as [Hw'|Hw']; apply store_wal_wal with (d := d) in Hw'; [by exists n|]. exists 0. split; [lia|]. by rewrite take_0, app_nil_r.
    + split; [eapply consume_guarded; [exact Hrec|by rewrite store_wal_manifest|by apply store_wal_wal|exact Hk]|].
      intros _ Hwr Hrep. pose proof (whole_append_enough _ _ _ _ (rs_room Hres)) as Hl.
      unfold consume_replay_recovered in Hk. rewrite matching_exact, (rs_state Hres), bool_decide_eq_false_2, prepare_consume_exact in Hk by done.
      unfold append_wal in Hk. rewrite (proj2 (Nat.leb_le _ _)), Hrep in Hk by lia. by injection Hk as <-.
  - pose proof (replay_clean _ _ _ spent_is_log) as Hi.
    destruct (with_recovery_exact (replay_store d) _ _ _ _ io _ r st' Hm Hw Hi Hr) as [Hm' [(Hio & Herr & Hw')|(recovery & wal' & Hrec & Hk & Hw')]].
    + split; [|by rewrite Hio]. destruct r as [|e]; [done|]. right. split; [by rewrite store_wal_manifest|].
      apply store_wal_wal. by destruct Hw'.
    + destruct (consume_spent recovery io r wal' Hrec Hk) as [-> ->]. split; [|done]. split; [|by exists false].
      split; [by rewrite store_wal_manifest|by apply store_wal_wal].
Qed.

(** The files besides the log are as they were. *)
Definition same_but_replay (d d' : Disk) : Prop := forall k, k ≠ replay_wal_key -> d !! k = d' !! k.

Lemma store_wal_files d st : same_but_replay d (store_wal d st).
Proof. intros k Hk. unfold store_wal. destruct (rst_wal st); [|done]. by rewrite lookup_insert_ne. Qed.

Lemma consume_key_wp P d : guarded d \/ spent d ->
  wp P (replay_call (fun st io => consume_replay_key_hash_under_effect_lock st (Ok tt) key intent commit 1 io))
    (fun r d' => consume_end r d' /\ same_but_replay d d' /\ (never_fails P -> is_ok r = true))
    (fun d' => (guarded d' \/ spent d') /\ same_but_replay d d') d.
Proof.
  intros Hd. apply wp_replay; intros f r st' Hr Hf; destruct (consume_key_cases d _ _ _ Hd Hr) as [He Hok].
  - split_and!; [done|apply store_wal_files|]. intros Hn. destruct Hf as [->|(p & -> & Hp)]; [by apply Hok|by destruct (Hn p)].
  - split; [|apply store_wal_files]. destruct r as [x|]; [|done]. right. apply He.
Qed.

(** ** Consuming through the guard *)

Definition guard_state : ReplayGuardState := {|
  rg_reserved := reservation; rg_seq := replay_next rs; rg_bytes := record; rg_consumed := spent_reservation |}.

Lemma guard_consume_wp P d : rst_manifest (replay_store d) = Some (Some expected_manifest) -> d !! replay_wal_key = Some good ->
  wp P (replay_call (fun st io => guard_consume st guard_state io))
    (fun r d' => consume_end r d' /\ same_but_replay d d' /\ (never_fails P -> is_ok r = true))
    (fun d' => (guarded d' \/ spent d') /\ same_but_replay d d') d.
Proof.
  intros Hm Hw.
  assert (forall f r st', guard_consume (replay_store d) guard_state (replay_io f) = (r, st') ->
    consume_end r (store_wal d st') /\ (f = Works -> is_ok r = true)) as Hcase.
  { intros f r st' Hr. unfold guard_consume in Hr. cbn [replay_store rst_wal] in Hr. rewrite Hw in Hr. cbn [guard_state rg_bytes rg_seq rg_consumed] in Hr.
    destruct (append_wal good record (replay_io f)) as [appended w] eqn:Ea. injection Hr as <- <-. split.
    - eapply appended_end; [by rewrite store_wal_manifest|by apply store_wal_wal|]. by rewrite Ea.
    - intros ->. rewrite (append_works good rs payload v (rs_room Hres)) in Ea. by injection Ea as <- <-. }
  apply wp_replay; intros f r st' Hr Hf; destruct (Hcase f r st' Hr) as [He Hok].
  - split_and!; [done|apply store_wal_files|]. intros Hn. destruct Hf as [->|(p & -> & Hp)]; [by apply Hok|by destruct (Hn p)].
  - split; [|apply store_wal_files]. destruct r as [x|]; [|done]. right. apply He.
Qed.

End nonce.

(** ** Reserving, and taking the guard *)

(** The replay store reads back as these nonces. *)
Definition replay_holds (d : Disk) (s : gmap string Nonce) : Prop := exists good rs m, replay_ready d good rs m /\ nonces m = s.

Lemma ready_files d d' good rs m : same_manifest d d' -> d !! replay_wal_key = d' !! replay_wal_key ->
  replay_ready d good rs m -> replay_ready d' good rs m.
Proof. intros Hm Hw. unfold replay_ready, replay_store. simpl. by rewrite Hm, Hw. Qed.

Lemma same_but_replay_manifest d d' : same_but_replay d d' -> same_manifest d d'.
Proof. intros H. by apply H. Qed.

Lemma guarded_holds key intent commit good rs m reservation v d : reserves key intent commit good rs m reservation v ->
  guarded key intent commit good rs v d -> replay_holds d (nonces m).
Proof.
  intros Hres [Hm (n & Hn & Hw)]. exists good, rs, m. split; [|done]. split; [done|]. eexists. split; [done|]. by eapply guarded_image.
Qed.

Lemma spent_holds key intent commit good rs m reservation v d : reserves key intent commit good rs m reservation v ->
  spent key intent commit good rs v d -> replay_holds d (<[key := consumed intent commit]> (nonces m)).
Proof.
  intros Hres [Hm Hw]. pose proof (spent_is_log _ _ _ _ _ _ _ _ Hres) as Hlog. eexists _, _, _. split.
  - split; [done|]. eexists. split; [done|]. by apply replay_clean.
  - unfold nonces. rewrite fmap_insert. done.
Qed.

Section reserving.
Context (principal_id : PrincipalId) (audience nonce intent commit : string).
Context (good : bytes) (rs : list ReplayWalRecord) (m : gmap string ReplayReservation).

Definition fresh_reservation (key : string) : ReplayReservation := {|
  rv_key_hash := key; rv_intent_digest := intent; rv_commit_digest := commit; rv_revision := 1;
  rv_state := ReplayReservationState_Reserved; rv_reserved_seq := replay_next rs; rv_consumed_seq := None |}.

(** The nonces before and after a call that may have reserved this one. *)
Definition maybe_reserved (d : Disk) : Prop :=
  replay_holds d (nonces m)
  \/ exists key, replay_nonce_key_hash principal_id audience nonce = Ok key /\ nonces m !! key = None
       /\ replay_holds d (<[key := reserved intent commit]> (nonces m)).

(** The nonce is reserved, and the log is complete. *)
Record reserved_on (d : Disk) (key : string) (good' : bytes) (rs' : list ReplayWalRecord) : Prop := {
  ro_key : replay_nonce_key_hash principal_id audience nonce = Ok key;
  ro_new : m !! key = None;
  ro_tokens : is_sha256_token key = true /\ is_sha256_token intent = true /\ is_sha256_token commit = true;
  ro_manifest : rst_manifest (replay_store d) = Some (Some expected_manifest);
  ro_wal : d !! replay_wal_key = Some good';
  ro_log : replay_log good' rs' (<[key := fresh_reservation key]> m)
}.

Lemma nonces_fresh key : nonces (<[key := fresh_reservation key]> m) = <[key := reserved intent commit]> (nonces m).
Proof. unfold nonces. by rewrite fmap_insert. Qed.

Lemma reserved_on_maybe d key good' rs' : reserved_on d key good' rs' -> maybe_reserved d.
Proof.
  intros [Hk Hn _ Hm Hw Hl]. right. exists key. split_and!; [done|unfold nonces; by rewrite lookup_fmap, Hn|].
  exists good', rs', (<[key := fresh_reservation key]> m). split; [|apply nonces_fresh]. split; [done|]. exists good'. split; [done|by apply replay_clean].
Qed.

Definition reserve_end (r : Result ReplayReserveResult ReplayWalError) (d : Disk) : Prop :=
  match r with
  | Ok res => exists key good' rs', reserved_on d key good' rs' /\ rres_reservation res = fresh_reservation key
  | Err _ => maybe_reserved d
  end.

Lemma reserve_cases (d : Disk) (io : ReplayIo) (r : Result ReplayReserveResult ReplayWalError) st' : replay_ready d good rs m ->
  reserve_replay_nonce_under_effect_lock (replay_store d) (Ok tt) principal_id audience nonce intent commit io = (r, st') ->
  reserve_end r (store_wal d st').
Proof.
  intros [Hm (wal & Hw & Hi)]. unfold reserve_replay_nonce_under_effect_lock.
  assert (forall e (st0 : ReplayStore), rst_wal st0 = Some wal \/ rst_wal st0 = Some good -> reserve_end (Err e) (store_wal d st0)) as Hkeep.
  { intros e st0 Hst. left. exists good, rs, m. split; [|done]. split; [by rewrite store_wal_manifest|].
    destruct Hst as [Hst|Hst]; apply (store_wal_wal d) in Hst; eexists; (split; [done|]); [done|]. apply replay_clean. by eapply image_log. }
  intros Hr.
  apply checked_cases in Hr as [[[? ->] ->]|(? & Hi1 & Hr)]; [apply Hkeep; by left|].
  apply checked_cases in Hr as [[[? ->] ->]|(? & Hc1 & Hr)]; [apply Hkeep; by left|].
  apply checked_cases in Hr as [[[? ->] ->]|(key & Hkey & Hr)]; [apply Hkeep; by left|].
  cbn [checked] in Hr.
  destruct (with_recovery_exact (replay_store d) good rs m wal io _ r st' Hm Hw Hi Hr) as [Hm' [(_ & Herr & Hw')|(recovery & wal' & Hrec & Hk & Hw')]].
  { destruct r; [done|]. by apply Hkeep. }
  unfold reserve_replay_nonce_recovered in Hk. rewrite (rec_reservations _ _ _ _ Hrec) in Hk.
  destruct (m !! key) as [existing|] eqn:Ek; [apply pair_equal_spec in Hk as [<- <-]; apply Hkeep; by right|].
  destruct (result_bind _ _) as [[seq record]|e] eqn:Ep in Hk; [|apply pair_equal_spec in Hk as [<- <-]; apply Hkeep; by right].
  destruct (prepared_room _ _ _ _ _ (fun seq record => (seq, record)) _ Hrec Ep) as (v & Hroom & Eout).
  apply pair_equal_spec in Eout as [-> ->].
  assert (payload_shape (reserve_payload key intent commit)) as Hshape by (split_and!; eauto using sha256_field_ok, key_hash_token).
  pose proof (apply_reserve good rs m key intent commit v Ek) as Hap. pose proof (image_log _ _ _ _ Hi) as Hlog.
  pose proof (replay_log_snoc _ _ _ _ _ _ Hlog Hroom Hshape Hap) as Hlog'.
  destruct (append_wal good _ io) as [ok wal''] eqn:Ea. apply pair_equal_spec in Hk as [<- <-].
  assert (forall good' rs', wal'' = good' -> replay_log good' rs' (<[key := fresh_reservation key]> m) -> reserved_on (store_wal d st') key good' rs') as Hon.
  { intros good' rs' -> Hl. destruct Hshape as (_ & ? & ? & ?). split; [done|done|done|by rewrite store_wal_manifest|by apply store_wal_wal|exact Hl]. }
  unfold append_wal in Ea. apply pair_equal_spec in Ea as [<- <-].
  destruct (decide (length (replay_rec_bytes rs (reserve_payload key intent commit) v) <= rio_written io)) as [Hle|Hgt].
  - rewrite take_ge in * by done. specialize (Hon _ _ eq_refl Hlog'). destruct (_ && _); [by eexists _, _, _|by eapply reserved_on_maybe].
  - rewrite (proj2 (Nat.leb_gt _ _)) by lia. cbn [andb]. left. exists good, rs, m. split; [|done]. split; [by rewrite store_wal_manifest|].
    eexists. split; [by apply store_wal_wal|]. destruct (rio_written io) as [|n]; [rewrite take_0, app_nil_r; by apply replay_clean|].
    apply replay_torn; [done|done|lia].
Qed.

Lemma reserve_wp P d : replay_ready d good rs m ->
  wp P (replay_call (fun st io => reserve_replay_nonce_under_effect_lock st (Ok tt) principal_id audience nonce intent commit io))
    (fun r d' => reserve_end r d' /\ same_but_replay d d') (fun d' => maybe_reserved d' /\ same_but_replay d d') d.
Proof.
  intros Hd. apply wp_replay; intros f r st' Hr Hf; pose proof (reserve_cases d _ _ _ Hd Hr) as He; (split; [|apply store_wal_files]); [done|].
  destruct r as [res|e]; [|done]. destruct He as (key & good' & rs' & He & _). by eapply reserved_on_maybe.
Qed.

(** The guard of a reservation just made. *)
Definition guard_end (key : string) (good' : bytes) (rs' : list ReplayWalRecord) (r : Result ReplayGuardState ReplayWalError) : Prop :=
  forall guard, r = Ok guard -> exists v,
    reserves key intent commit good' rs' (<[key := fresh_reservation key]> m) (fresh_reservation key) v
    /\ guard = guard_state key intent commit rs' (fresh_reservation key) v.

Lemma guard_cases (d : Disk) key good' rs' (io : ReplayIo) (r : Result ReplayGuardState ReplayWalError) st' : reserved_on d key good' rs' ->
  prepare_replay_guard_state (replay_store d) (Ok tt) principal_id audience nonce intent commit 1 io = (r, st') ->
  store_wal d st' = d /\ guard_end key good' rs' r.
Proof.
  intros [Hkey Hnew Htok Hm Hw Hlog]. unfold prepare_replay_guard_state.
  assert (forall st0, rst_wal st0 = Some good' -> store_wal d st0 = d) as Hkeep by (intros st0 Hst; unfold store_wal; rewrite Hst; by apply insert_id).
  intros Hr. do 5 (apply checked_cases in Hr as [[[? ->] ->]|(? & ? & Hr)]; [split; [by apply Hkeep|done]|]).
  match goal with E : replay_nonce_key_hash _ _ _ = Ok ?k |- _ => lazymatch k with key => fail | _ => assert (k = key) as -> by congruence end end.
  destruct (with_recovery_exact (replay_store d) good' rs' _ good' io _ r st' Hm Hw (replay_clean _ _ _ Hlog) Hr)
    as [Hm' [(_ & Herr & Hw')|(recovery & wal' & Hrec & Hk & Hw')]].
  { destruct r; [done|]. split; [apply Hkeep; by destruct Hw'|done]. }
  apply pair_equal_spec in Hk as [Hg <-]. split; [by apply Hkeep|]. intros guard ->.
  assert (matching_reservation recovery key intent commit = Ok (fresh_reservation key)) as Hmatch.
  { unfold matching_reservation. rewrite (rec_reservations _ _ _ _ Hrec), lookup_insert_eq. simpl. by rewrite !bool_decide_eq_true_2. }
  rewrite Hmatch in Hg. cbn [result_bind fresh_reservation rv_state] in Hg. rewrite bool_decide_eq_true_2 in Hg by done. cbn [negb] in Hg.
  destruct (prepare_consume _ _ _ _ _ _) as [[[seq record] reservation]|] eqn:Ep; [|done]. cbn [result_bind] in Hg.
  unfold prepare_consume in Ep. cbn [fresh_reservation rv_revision Z.eqb Pos.eqb negb] in Ep. change (u64_checked_add 1 1) with (Some 2%Z) in Ep. cbv iota in Ep.
  destruct (prepared_room _ _ _ _ _ (fun seq record => (seq, record, {|
    rv_key_hash := key; rv_intent_digest := intent; rv_commit_digest := commit; rv_revision := 2;
    rv_state := ReplayReservationState_Consumed; rv_reserved_seq := rv_reserved_seq (fresh_reservation key); rv_consumed_seq := Some seq |})) _ Hrec Ep)
    as (v & Hroom & Eout). exists v. split; [split; [done|by rewrite lookup_insert_eq|done|done|done|exact Hroom|done]|].
  apply pair_equal_spec in Eout as [[-> ->]%pair_equal_spec ->]. by injection Hg.
Qed.

Lemma guard_wp P d key good' rs' : reserved_on d key good' rs' ->
  wp P (replay_call (fun st io => prepare_replay_guard_state st (Ok tt) principal_id audience nonce intent commit 1 io))
    (fun r d' => d' = d /\ guard_end key good' rs' r) (eq d) d.
Proof.
  intros Hd. apply wp_replay; intros f r st' Hr Hf; by destruct (guard_cases d key good' rs' _ _ _ Hd Hr) as [-> ?].
Qed.

End reserving.

End disk.
