(* ===== verification/PreparedPlan.v ===== *)
(** * Planning an execution

    [forge-core-kernel/src/prepared_execution.rs]: what a trusted host supplies, the descriptor of a
    commit, the provenance written into the effect log, what each stage of an execution answers, and
    [prepare_execution_transaction] up to its first operation on the stores: the checks of the material
    against the verified authority, the single transaction effect, and the descriptor whose digest the
    reservation binds.  Paths are texts; loading the risk-audit rules and the citation material has been
    done, and what auditing the project with them reports is data of the material. *)

From S2P Require Import Prelude RustStr BTree Ordering Contracts OperationContracts AssuranceContracts WalFrame ReplayWal ReplayCommands ExecutionAdmission Diagnostics StatePaths EffectTypes CrashIo EffectStore EffectPlan ExecutionAuthority OperationBundle.

Local Open Scope string_scope.
Local Open Scope forge_scope.

Definition PREPARED_EXECUTION_SCHEMA_VERSION : string := "0.1".
Definition EXECUTION_COMMIT_PROVENANCE_SCHEMA_VERSION : string := "0.1".
Definition PREPARED_EFFECT_LOCK_RELATIVE_PATH : string := ".forge-method/locks/effects.lock".
Definition PREPARED_EFFECT_WAL_RELATIVE_PATH : string := ".forge-method/wal/effects.ndjson".

(** ** What the host supplies *)

(** The canonical roots; the state root is [.forge-method] below the root of the effect store. *)
Record TrustedExecutionEnvironment := {
  tee_project_root : string;
  tee_effect_store_root : EffectRoot;
  tee_required_audience : string
}.

(** Auditing the project with a rule set: the structure of the rules, the walk over the targets, the rules. *)
Record RiskAuditMaterial := {
  ram_structure : list Diagnostic;
  ram_targets_error : option string;
  ram_report : list Diagnostic
}.

(** Validating the citations of the project: collecting the documents, then the references. *)
Record TrustedCitationMaterial := {
  tcm_documents : list Diagnostic;
  tcm_references : list Diagnostic
}.

Record PreparedExecutionMaterial := {
  pem_call : VerifiedExecutionCall;
  pem_admission_request : ExecutionAdmissionRequest;
  pem_operation : OperationContractDocument;
  pem_commands : list CommandContractDocument;
  pem_effects : list ToolEffectContractDocument;
  pem_payloads : list RuntimeOperationEffectPayload;
  pem_risk_audit_rules : option RiskAuditMaterial;
  pem_citation_material : option TrustedCitationMaterial
}.

Record LateExecutionSnapshot := {
  les_assurance_case : AssuranceCaseDocument;
  les_claim_snapshot : ClaimSnapshotObservation;
  les_gate_snapshot : GateSnapshotObservation;
  les_current_state_version : Z;
  les_now_unix : Z
}.

(** ** The descriptor of a commit *)

Record PreparedCommandBinding := { pcb_source_ref : string; pcb_command_id : StableId; pcb_token : string }.
Record PreparedEffectBinding := { peb_source_ref : string; peb_effect_id : StableId; peb_token : string }.
Record PreparedPayloadBinding := {
  ppb_target_ref : string;
  ppb_source_ref : string;
  ppb_content_hash : string;
  ppb_byte_len : Z;
  ppb_payload_kind : RuntimeEffectPayloadKind
}.

Record PreparedCommitDescriptor := {
  pcd_schema_version : string;
  pcd_project_root : string;
  pcd_audience : string;
  pcd_operation_ref : string;
  pcd_operation_id : StableId;
  pcd_operation_token : string;
  pcd_commands : list PreparedCommandBinding;
  pcd_effect : PreparedEffectBinding;
  pcd_constituent_effects : list PreparedEffectBinding;
  pcd_commit_strategy : ExecutionCommitStrategy;
  pcd_payloads : list PreparedPayloadBinding;
  pcd_effect_lock_relative_path : string;
  pcd_effect_wal_relative_path : string;
  pcd_tx_id : string;
  pcd_durability : string
}.

(** ** Provenance *)

Record ExecutionCommitProvenanceDocument := {
  ecp_schema_version : string;
  ecp_tx_id : string;
  ecp_project_root : string;
  ecp_audience : string;
  ecp_execution_principal : ExecutionPrincipal;
  ecp_authorization : VerifiedExecutionAuthorizationAudit;
  ecp_late_admission_input : Json;
  ecp_late_admission_decision : ExecutionAdmissionDecision;
  ecp_commit_admission_input : Json;
  ecp_commit_admission_decision : ExecutionAdmissionDecision;
  ecp_initial_preflight : EffectPreflightResult;
  ecp_late_preflight : EffectPreflightResult;
  ecp_commit_preflight : EffectPreflightResult;
  ecp_commit_descriptor : PreparedCommitDescriptor;
  ecp_commit_digest : string;
  ecp_replay_reservation : ReplayReservation
}.

(** What recovery reads of it; the fields it only requires to be present are left out. *)
Record RecoveryPreparedEffectBinding := { rpb_source_ref : string; rpb_effect_id : StableId; rpb_token : string }.

Record RecoveryCommitDescriptor := {
  rcd_project_root : string;
  rcd_audience : string;
  rcd_tx_id : string;
  rcd_effect_lock_relative_path : string;
  rcd_effect_wal_relative_path : string;
  rcd_effect : RecoveryPreparedEffectBinding;
  rcd_constituent_effects : option (list RecoveryPreparedEffectBinding);
  rcd_commit_strategy : option ExecutionCommitStrategy
}.

Record RecoveryReplayReservation := {
  rrr_key_hash : string;
  rrr_intent_digest : string;
  rrr_commit_digest : string;
  rrr_revision : Z;
  rrr_state : string
}.

Record RecoveryProvenanceView := {
  rpv_schema_version : string;
  rpv_tx_id : string;
  rpv_project_root : string;
  rpv_audience : string;
  rpv_execution_principal : ExecutionPrincipal;
  rpv_authorization : Json;
  rpv_commit_descriptor : RecoveryCommitDescriptor;
  rpv_commit_digest : string;
  rpv_replay_reservation : RecoveryReplayReservation
}.

(** ** Outcomes and errors (their prose is left out) *)

Inductive PrepareExecutionError :=
| Prepare_AudienceMismatch
| Prepare_IntentDigest (e : ExecutionAdmissionRejection)
| Prepare_ContractBinding (e : ExecutionAdmissionRejection)
| Prepare_AuthorityIntentMismatch
| Prepare_PrincipalMismatch
| Prepare_NonceMismatch
| Prepare_IssuedAtMismatch
| Prepare_ReplayRevisionMustStartAtOne (found : Z)
| Prepare_OperationBindingMismatch
| Prepare_CommandBindingMismatch
| Prepare_EffectBindingMismatch
| Prepare_EffectSetMismatch (requested loaded admitted declared : nat)
| Prepare_OperationBundle (e : OperationEffectBundleError)
| Prepare_PayloadBindingMismatch
| Prepare_AdapterRequirementNotIntegrated (requirement : string)
| Prepare_AdapterRequirementRejected (requirement : string) (diagnostics : list string)
| Prepare_CommitDescriptor (reason : string)
| Prepare_CommitDescriptorToken (e : ExecutionAdmissionRejection)
| Prepare_EffectPreflightBlocked (result : EffectPreflightResult)
| Prepare_Replay (e : ReplayWalError).

Inductive LateAdmissionError :=
| Late_SnapshotCapture (message : string)
| Late_EffectPreflightChanged (initial current : EffectPreflightResult)
| Late_Evaluation (e : ExecutionAdmissionRejection).

Inductive ExecutionCommitError :=
| Commit_SnapshotCapture (message : string)
| Commit_EffectPreflightChanged (admitted current : EffectPreflightResult)
| Commit_Evaluation (e : ExecutionAdmissionRejection)
| Commit_Provenance (reason : string)
| Commit_ProvenanceEnvelope
| Commit_PrincipalTrace (e : AppendJsonLineError).

Inductive ExecutionCommitStatus :=
| ExecutionCommitStatus_Committed | ExecutionCommitStatus_EffectCommittedReplayPending
| ExecutionCommitStatus_EffectCommittedCompletionPending.

Record ExecutionCommitReceipt := {
  ecr_status : ExecutionCommitStatus;
  ecr_receipt_tx_id : string;
  ecr_effect_id : StableId;
  ecr_effect_ids : list StableId;
  ecr_commit_digest : string;
  ecr_provenance_digest : string;
  ecr_execution_principal : ExecutionPrincipal;
  ecr_principal_trace_event_id : string;
  ecr_application : EffectApplicationResult;
  ecr_replay : option ReplayConsumeResult;
  ecr_receipt_completion : option EffectReplayCompletionResult
}.

Inductive ExecutionCommitOutcome :=
| Outcome_Committed (receipt : ExecutionCommitReceipt)
| Outcome_NotCommitted (application : EffectApplicationResult) (provenance_digest : string)
    (execution_principal : ExecutionPrincipal) (principal_trace_event_id : string)
| Outcome_Blocked (decision : ExecutionAdmissionDecision) (commit_preflight : EffectPreflightResult).

Inductive ExecutionReplayReconciliationStatus :=
| ReplayReconciliation_Noop | ReplayReconciliation_Reconciled.

Record ExecutionReplayReconciliationResult := {
  err_status : ExecutionReplayReconciliationStatus;
  err_recovered_effect_transactions : list string;
  err_reconciled_transactions : list string;
  err_replay_results : list ReplayConsumeResult;
  err_completion_records : list EffectReplayCompletionResult
}.

Inductive ExecutionReplayReconciliationError :=
| ReplayReconciliation_EffectRecovery (reasons : list EffectWalRecoveryReason)
| ReplayReconciliation_EffectWal (e : EffectReplayReconciliationError)
| ReplayReconciliation_Provenance (tx_id reason : string)
| ReplayReconciliation_Replay (tx_id : string) (source : ReplayWalError)
| ReplayReconciliation_Completion (tx_id : string) (source : EffectReplayReconciliationError).

(** ** Decidable equality *)

#[export] Instance EffectTargetMetadataRecordKind_eq_dec : EqDecision EffectTargetMetadataRecordKind.
Proof. solve_decision. Defined.
#[export] Instance EffectTargetMetadataRecord_eq_dec : EqDecision EffectTargetMetadataRecord.
Proof. solve_decision. Defined.
#[export] Instance EffectPreflightStatus_eq_dec : EqDecision EffectPreflightStatus.
Proof. solve_decision. Defined.
#[export] Instance EffectPreflightResult_eq_dec : EqDecision EffectPreflightResult.
Proof. solve_decision. Defined.
#[export] Instance ExecutionCommitStrategy_eq_dec : EqDecision ExecutionCommitStrategy.
Proof. solve_decision. Defined.
#[export] Instance ExecutionAdmissionStatus_eq_dec : EqDecision ExecutionAdmissionStatus.
Proof. solve_decision. Defined.
#[export] Instance RecoveryPreparedEffectBinding_eq_dec : EqDecision RecoveryPreparedEffectBinding.
Proof. solve_decision. Defined.

(** ** [serde_json] and the canonical form of a descriptor *)

Class KernelCodec := {
  provenance_to_value : ExecutionCommitProvenanceDocument -> Result Json string;
  admission_to_value : ExecutionAdmissionInputDocument -> Result Json string;
  role_to_value : CallerRole -> option Json;
  recovery_from_value : Json -> Result RecoveryProvenanceView string;
  descriptor_to_vec : PreparedCommitDescriptor -> Result bytes string;
  trace_to_vec : TraceEvent -> option bytes
}.

Definition recovery_binding (binding : PreparedEffectBinding) : RecoveryPreparedEffectBinding := {|
  rpb_source_ref := peb_source_ref binding; rpb_effect_id := peb_effect_id binding; rpb_token := peb_token binding |}.

(** A role serializes as a string; a document serialized has the fields of its struct, and reads back field by
    field: a field of the view has the name of the field of the document it was written from. *)
Record reads_back {codec : KernelCodec} (document : ExecutionCommitProvenanceDocument) (view : RecoveryProvenanceView) : Prop := {
  rb_schema : rpv_schema_version view = ecp_schema_version document;
  rb_tx : rpv_tx_id view = ecp_tx_id document;
  rb_root : rpv_project_root view = ecp_project_root document;
  rb_audience : rpv_audience view = ecp_audience document;
  rb_principal : rpv_execution_principal view = ecp_execution_principal document;
  rb_digest : rpv_commit_digest view = ecp_commit_digest document;
  rb_authorization : exists principal, json_get "principal" (rpv_authorization view) = Some principal
    /\ json_get "principal_id" principal = Some (Json_String (PrincipalId_0 (apa_principal_id (vaa_principal (ecp_authorization document)))))
    /\ json_get "agent_id" principal = Some (Json_String (StableId_0 (apa_agent_id (vaa_principal (ecp_authorization document)))))
    /\ json_get "role" principal = role_to_value (apa_role (vaa_principal (ecp_authorization document)));
  rb_descriptor : rpv_commit_descriptor view =
    let descriptor := ecp_commit_descriptor document in {|
      rcd_project_root := pcd_project_root descriptor; rcd_audience := pcd_audience descriptor; rcd_tx_id := pcd_tx_id descriptor;
      rcd_effect_lock_relative_path := pcd_effect_lock_relative_path descriptor;
      rcd_effect_wal_relative_path := pcd_effect_wal_relative_path descriptor; rcd_effect := recovery_binding (pcd_effect descriptor);
      rcd_constituent_effects := Some (map recovery_binding (pcd_constituent_effects descriptor));
      rcd_commit_strategy := Some (pcd_commit_strategy descriptor) |};
  rb_reservation : rpv_replay_reservation view =
    let reservation := ecp_replay_reservation document in {|
      rrr_key_hash := rv_key_hash reservation; rrr_intent_digest := rv_intent_digest reservation;
      rrr_commit_digest := rv_commit_digest reservation; rrr_revision := rv_revision reservation;
      rrr_state := match rv_state reservation with ReplayReservationState_Reserved => "reserved" | ReplayReservationState_Consumed => "consumed" end |}
}.

Class KernelCodecLaws (codec : KernelCodec) : Prop := {
  role_string role : exists text, role_to_value role = Some (Json_String text);
  provenance_reads_back document value : provenance_to_value document = Ok value ->
    json_get "publication_scope" value = None
    /\ exists view, recovery_from_value value = Ok view /\ reads_back document view
}.

(** * Planning *)

(** [path_string]: every path is text here. *)
Definition path_string (path : string) : string := forward_slashes path.

(** Paths are compared by their components. *)
Definition distinct_paths (paths : list string) : bool := bool_decide (NoDup (map components paths)).
Definition distinct_texts (texts : list string) : bool := bool_decide (NoDup texts).

(** ** Adapter requirements *)

Definition requirement_rejection (requirement : string) (diagnostics : list Diagnostic) : PrepareExecutionError :=
  let errors := List.filter is_error diagnostics in
  Prepare_AdapterRequirementRejected requirement
    (map (fun item => dg_path item +:+ ": " +:+ dg_message item) (take 16 errors)
     ++ (if (16 <? length errors)%nat then ["additional diagnostics omitted"] else []))%list.

Definition validate_risk_audit (request : ExecutionRequest) (risk_audit_rules : option RiskAuditMaterial) : Result unit PrepareExecutionError :=
  match xr_risk_audit_rules_ref request, risk_audit_rules with
  | Some _, Some rules =>
      if existsb is_error (ram_structure rules) then Err (requirement_rejection "risk_audit" (ram_structure rules)) else
      match ram_targets_error rules with
      | Some error => Err (Prepare_AdapterRequirementRejected "risk_audit" [error])
      | None => if existsb is_error (ram_report rules) then Err (requirement_rejection "risk_audit" (ram_report rules)) else Ok tt
      end
  | Some _, None => Err (Prepare_AdapterRequirementNotIntegrated "risk_audit_rules_ref")
  | None, Some _ => Err (Prepare_AdapterRequirementRejected "risk_audit" ["unrequested risk-audit material supplied"])
  | None, None => Ok tt
  end.

Definition validate_citation (request : ExecutionRequest) (citation_material : option TrustedCitationMaterial) : Result unit PrepareExecutionError :=
  match xr_require_citation request, citation_material with
  | true, Some material =>
      let diagnostics := (tcm_documents material ++ tcm_references material)%list in
      if existsb is_error diagnostics then Err (requirement_rejection "citation" diagnostics) else Ok tt
  | true, None => Err (Prepare_AdapterRequirementNotIntegrated "require_citation")
  | false, Some _ => Err (Prepare_AdapterRequirementRejected "citation" ["unrequested citation material supplied"])
  | false, None => Ok tt
  end.

Definition validate_adapter_requirements (request : ExecutionRequest) (risk_audit_rules : option RiskAuditMaterial)
    (citation_material : option TrustedCitationMaterial) : Result unit PrepareExecutionError :=
  try _ <- validate_risk_audit request risk_audit_rules;
  validate_citation request citation_material.

(** ** Bindings *)

Definition payload_bindings_match (request : ExecutionRequest) (effect : ToolEffectContractDocument)
    (payloads : list RuntimeOperationEffectPayload) : bool :=
  let requested := map xpb_target_ref (xr_payloads request) in
  let supplied := map rop_target_ref payloads in
  let required := map ew_reference (List.filter (fun write => negb (bool_decide (ew_access_mode write = AccessMode_Delete)))
                                      (te_write_set (ted_tool_effect_contract effect))) in
  distinct_texts requested && distinct_texts supplied
  && bool_decide (list_to_set (C := gset string) requested = list_to_set supplied)
  && bool_decide (list_to_set (C := gset string) supplied = list_to_set required).

Definition store_effect_payloads (payloads : list RuntimeOperationEffectPayload) : list EffectApplicationPayload :=
  map (fun payload => {| pl_target_ref := rop_target_ref payload; pl_content := rop_content payload;
                         pl_content_hash := rop_content_hash payload |}) payloads.

(** ** The id of a transaction *)

(** [chars().map(..)]: a character of several bytes becomes one dash. *)
Fixpoint sanitize_id (l : bytes) : bytes :=
  match l with
  | [] => []
  | c :: r => if is_cont c then sanitize_id r
              else (if is_ascii_alphanumeric c || bool_decide (c = "-"%char) || bool_decide (c = "_"%char) then c else "-"%char) :: sanitize_id r
  end.

(** [chars().take(n)]. *)
Fixpoint take_chars (n : nat) (l : bytes) : bytes :=
  match l with
  | [] => []
  | c :: r => if is_cont c then c :: take_chars n r else match n with O => [] | S n => c :: take_chars n r end
  end.

(** [strip_prefix(prefix).unwrap_or(value)]. *)
Definition without_prefix (prefix value : string) : string :=
  if String.prefix prefix value then of_bytes (drop (String.length prefix) (to_bytes value)) else value.

Definition derived_tx_id (request_id effect_id : StableId) (intent_digest : string) : string :=
  let sanitize value := of_bytes (sanitize_id (to_bytes value)) in
  "prepared-" +:+ sanitize (StableId_0 request_id) +:+ "-" +:+ sanitize (StableId_0 effect_id) +:+ "-"
    +:+ of_bytes (take_chars 12 (to_bytes (without_prefix "sha256:" intent_digest))).

(** The locals of [prepare_execution_transaction] when it takes the first lock. *)
Record ExecutionPlan := {
  xpl_operation_ref : string;
  xpl_effect_refs : list RepoPath;
  xpl_transaction_effect : ToolEffectContractDocument;
  xpl_commit_strategy : ExecutionCommitStrategy;
  xpl_store_payloads : list EffectApplicationPayload;
  xpl_intent_digest : string;
  xpl_descriptor : PreparedCommitDescriptor;
  xpl_commit_digest : string
}.

Section plan.
Context {effect_codec : EffectCodec} {digests : AdmissionDigests} {lower : ToLowercase} {kernel : KernelCodec}.

Fixpoint command_tokens_match (requested : list ContentAddressedBinding) (commands : list CommandContractDocument)
    : Result bool PrepareExecutionError :=
  match commands with
  | [] => Ok true
  | command :: rest =>
      try token <- map_err Prepare_ContractBinding (command_contract_token command);
      if existsb (fun binding => bool_decide (cab_reference binding = StableId_0 (cmd_id (ccd_command_contract command)))
                   && bool_decide (cab_token binding = token)) requested
      then command_tokens_match requested rest else Ok false
  end.

Definition command_bindings_match (requested : list ContentAddressedBinding) (commands : list CommandContractDocument)
    : Result bool PrepareExecutionError :=
  if negb (length requested =? length commands)%nat then Ok false
  else if negb (distinct_texts (map cab_reference requested)) then Ok false
  else command_tokens_match requested commands.

(** The loop over the effects of the request. *)
Fixpoint effect_bindings_match (items : list ((RepoPath * ToolEffectContractDocument) * ContentAddressedBinding)) : Result unit PrepareExecutionError :=
  match items with
  | [] => Ok tt
  | ((effect_ref, effect), request_effect) :: rest =>
      try token <- map_err Prepare_ContractBinding (effect_contract_token effect);
      if negb (bool_decide (cab_reference request_effect = RepoPath_0 effect_ref)) || negb (bool_decide (cab_token request_effect = token))
      then Err Prepare_EffectBindingMismatch else effect_bindings_match rest
  end.

(** ** The descriptor *)

Fixpoint prepared_commands (items : list (string * CommandContractDocument)) : Result (list PreparedCommandBinding) PrepareExecutionError :=
  match items with
  | [] => Ok []
  | (source_ref, command) :: rest =>
      try token <- map_err Prepare_CommitDescriptorToken (command_contract_token command);
      try bindings <- prepared_commands rest;
      Ok ({| pcb_source_ref := source_ref; pcb_command_id := cmd_id (ccd_command_contract command); pcb_token := token |} :: bindings)
  end.

Fixpoint prepared_payloads (bindings : list ExecutionPayloadBinding) (payloads : list RuntimeOperationEffectPayload)
    : Result (list PreparedPayloadBinding) PrepareExecutionError :=
  match payloads with
  | [] => Ok []
  | payload :: rest =>
      match List.find (fun binding => bool_decide (xpb_target_ref binding = rop_target_ref payload)) bindings with
      | None => Err Prepare_PayloadBindingMismatch
      | Some binding =>
          try prepared <- prepared_payloads bindings rest;
          Ok ({| ppb_target_ref := rop_target_ref payload; ppb_source_ref := path_string (xpb_path binding);
                 ppb_content_hash := rop_content_hash payload; ppb_byte_len := usize_to_u64 (length (rop_content payload));
                 ppb_payload_kind := rop_payload_kind payload |} :: prepared)
      end
  end.

Fixpoint constituent_effects (items : list (RepoPath * ToolEffectContractDocument)) : Result (list PreparedEffectBinding) PrepareExecutionError :=
  match items with
  | [] => Ok []
  | (effect_ref, effect) :: rest =>
      try token <- map_err Prepare_CommitDescriptorToken (effect_contract_token effect);
      try bindings <- constituent_effects rest;
      Ok ({| peb_source_ref := RepoPath_0 effect_ref; peb_effect_id := te_id (ted_tool_effect_contract effect); peb_token := token |} :: bindings)
  end.

Definition build_commit_descriptor (environment : TrustedExecutionEnvironment) (operation_ref : string) (operation : OperationContractDocument)
    (operation_token : string) (command_refs : list string) (commands : list CommandContractDocument) (effect_refs : list RepoPath)
    (effects : list ToolEffectContractDocument) (transaction_effect : ToolEffectContractDocument) (commit_strategy : ExecutionCommitStrategy)
    (payload_bindings : list ExecutionPayloadBinding) (payloads : list RuntimeOperationEffectPayload) (intent_digest : string) (request_id : StableId)
    : Result PreparedCommitDescriptor PrepareExecutionError :=
  try commands <- prepared_commands (zip command_refs commands);
  try payloads <- prepared_payloads payload_bindings payloads;
  try transaction_token <- map_err Prepare_CommitDescriptorToken (effect_contract_token transaction_effect);
  try constituents <- constituent_effects (zip effect_refs effects);
  let effect := ted_tool_effect_contract transaction_effect in
  Ok {| pcd_schema_version := PREPARED_EXECUTION_SCHEMA_VERSION; pcd_project_root := path_string (tee_project_root environment);
        pcd_audience := tee_required_audience environment; pcd_operation_ref := operation_ref;
        pcd_operation_id := oc_contract_id (ocd_operation_contract operation); pcd_operation_token := operation_token;
        pcd_commands := sort_by (fun binding => StableId_0 (pcb_command_id binding)) commands;
        pcd_effect := {|
          peb_source_ref := if bool_decide (commit_strategy = ExecutionCommitStrategy_SingleEffectWal)
                            then match effect_refs with effect_ref :: _ => RepoPath_0 effect_ref | [] => "" end
                            else RepoPath_0 (te_contract_ref effect);
          peb_effect_id := te_id effect; peb_token := transaction_token |};
        pcd_constituent_effects := constituents; pcd_commit_strategy := commit_strategy;
        pcd_payloads := sort_by ppb_target_ref payloads;
        pcd_effect_lock_relative_path := PREPARED_EFFECT_LOCK_RELATIVE_PATH; pcd_effect_wal_relative_path := PREPARED_EFFECT_WAL_RELATIVE_PATH;
        pcd_tx_id := derived_tx_id request_id (te_id effect) intent_digest; pcd_durability := "sync_on_append" |}.

(** ** The plan *)

(** The checks of the request against the authority. *)
Definition authority_matches (authorization : VerifiedExecutionAuthorization) (environment : TrustedExecutionEnvironment)
    (request : ExecutionAdmissionRequest) (intent_digest : string) : Result unit PrepareExecutionError :=
  let principal := vea_principal authorization in
  if negb (bool_decide (vea_execution_intent_digest authorization = intent_digest)) then Err Prepare_AuthorityIntentMismatch
  else if negb (bool_decide (ap_audience principal = tee_required_audience environment)) then Err Prepare_AudienceMismatch
  else if negb (bool_decide (eq_principal_id request = ap_principal_id principal))
          || negb (bool_decide (eq_agent_id request = ap_agent_id principal))
          || negb (bool_decide (eq_principal_role request = ap_role principal)) then Err Prepare_PrincipalMismatch
  else if negb (bool_decide (eq_nonce request = vea_nonce authorization)) then Err Prepare_NonceMismatch
  else if negb (eq_issued_at_unix request =? vea_issued_at_unix authorization)%Z then Err Prepare_IssuedAtMismatch
  else if negb (eq_expected_replay_reservation_revision request =? 1)%Z
  then Err (Prepare_ReplayRevisionMustStartAtOne (eq_expected_replay_reservation_revision request))
  else Ok tt.

(** One effect is the transaction itself; several are compiled into one envelope. *)
Definition transaction_of (environment : TrustedExecutionEnvironment) (operation : OperationContractDocument) (effect_refs : list RepoPath)
    (effects : list ToolEffectContractDocument) : Result (ToolEffectContractDocument * ExecutionCommitStrategy) PrepareExecutionError :=
  match effects with
  | [effect] => Ok (effect, ExecutionCommitStrategy_SingleEffectWal)
  | _ =>
      try bundle <- map_err Prepare_OperationBundle
        (compose_operation_effect_bundle (tee_effect_store_root environment) operation effect_refs effects);
      Ok (oeb_transaction_effect bundle, ExecutionCommitStrategy_OperationWideWal)
  end.

Definition plan_execution (material : PreparedExecutionMaterial) (environment : TrustedExecutionEnvironment)
    : Result ExecutionPlan PrepareExecutionError :=
  let authorization := vec_authorization (pem_call material) in
  let execution_request := vec_request (pem_call material) in
  let request := pem_admission_request material in
  let operation := pem_operation material in
  let commands := pem_commands material in
  let effects := pem_effects material in
  let payloads := pem_payloads material in
  try _ <- validate_adapter_requirements execution_request (pem_risk_audit_rules material) (pem_citation_material material);
  try intent_digest <- map_err Prepare_IntentDigest (execution_intent_digest request);
  try _ <- authority_matches authorization environment request intent_digest;
  try operation_token <- map_err Prepare_ContractBinding (operation_contract_token operation);
  if negb (bool_decide (eq_operation_id request = oc_contract_id (ocd_operation_contract operation)))
     || negb (bool_decide (eq_operation_token request = operation_token)) then Err Prepare_OperationBindingMismatch else
  let command_refs := xr_command_contract_refs execution_request in
  if negb (length command_refs =? length commands)%nat || negb (distinct_paths command_refs) then Err Prepare_CommandBindingMismatch else
  try commands_match <- command_bindings_match (eq_command_bindings request) commands;
  if negb commands_match then Err Prepare_CommandBindingMismatch else
  let requested := xr_effect_contract_refs execution_request in
  let declared := oc_effect_contract_refs (ocd_operation_contract operation) in
  if is_nil requested || negb (length requested =? length effects)%nat
     || negb (length (eq_effect_bindings request) =? length effects)%nat || negb (length declared =? length effects)%nat
  then Err (Prepare_EffectSetMismatch (length requested) (length effects) (length (eq_effect_bindings request)) (length declared)) else
  let effect_refs := map (fun path => mk_RepoPath (path_string path)) requested in
  if negb (distinct_texts (map RepoPath_0 effect_refs)) || negb (bool_decide (declared = effect_refs)) then Err Prepare_EffectBindingMismatch else
  try _ <- effect_bindings_match (zip (zip effect_refs effects) (eq_effect_bindings request));
  try transaction <- transaction_of environment operation effect_refs effects;
  let '(transaction_effect, commit_strategy) := transaction in
  if negb (payload_bindings_match execution_request transaction_effect payloads) then Err Prepare_PayloadBindingMismatch else
  let operation_ref := path_string (xr_operation_contract_ref execution_request) in
  try descriptor <- build_commit_descriptor environment operation_ref operation operation_token (map path_string command_refs) commands
    effect_refs effects transaction_effect commit_strategy (xr_payloads execution_request) payloads intent_digest (eq_id request);
  try canonical <- map_err Prepare_CommitDescriptor (descriptor_to_vec descriptor);
  Ok {| xpl_operation_ref := operation_ref; xpl_effect_refs := effect_refs; xpl_transaction_effect := transaction_effect;
        xpl_commit_strategy := commit_strategy; xpl_store_payloads := store_effect_payloads payloads; xpl_intent_digest := intent_digest;
        xpl_descriptor := descriptor; xpl_commit_digest := sha256_content_hash canonical |}.

End plan.
