(* ===== verification/PreparedExecution.v ===== *)
(** * Prepared executions

    [forge-core-kernel/src/prepared_execution.rs]: preparing an execution (the reservation of its nonce and
    the guard), admitting it, committing it, and reconciling what a crash left; and the order in which
    [execute_without_anchor] of [forge-core-protocol-mcp/src/trusted_runtime.rs] runs them.  The producer
    admission and the locks are held throughout; a snapshot is what its source returned.  The second part
    shows that the provenance a commit writes is one that recovery accepts for the same environment: the
    descriptor of the plan names its effect completely, and what is serialized reads back. *)

From S2P Require Import Prelude RustStr BTree Ordering Contracts OperationContracts AssuranceContracts Rfc3339 WalFrame ReplayWal ReplayCommands ExecutionAdmission Diagnostics StatePaths EffectTypes CrashIo EffectStore EffectLog EffectReplay ExecutionAuthority OperationBundle ReplayDisk PreparedPlan.

Local Open Scope string_scope.
Local Open Scope forge_scope.

Definition DEFAULT_TRACE_LOG_RELATIVE_PATH : string := "traces/events.ndjson".

(** The trace log below the parent of the state root. *)
Definition trace_log_key : Key := [FORGE_STATE_DIR; "traces"; "events.ndjson"].

Section execution.
Context {effect_codec : EffectCodec} {replay_codec : ReplayCodec} {manifest : ManifestCodec}.
Context {digests : AdmissionDigests} {lower : ToLowercase} {kernel : KernelCodec}.

(** ** Preparing *)

Record PreparedExecutionTransaction := {
  pet_environment : TrustedExecutionEnvironment;
  pet_authorization : VerifiedExecutionAuthorization;
  pet_admission_request : ExecutionAdmissionRequest;
  pet_operation : OperationContractDocument;
  pet_commands : list CommandContractDocument;
  pet_effect_refs : list RepoPath;
  pet_effects : list ToolEffectContractDocument;
  pet_transaction_effect : ToolEffectContractDocument;
  pet_commit_strategy : ExecutionCommitStrategy;
  pet_store_payloads : list EffectApplicationPayload;
  pet_commit_descriptor : PreparedCommitDescriptor;
  pet_commit_digest : string;
  pet_initial_preflight : EffectPreflightResult;
  pet_replay_guard : ReplayGuardState
}.

Definition prepared_with (material : PreparedExecutionMaterial) (environment : TrustedExecutionEnvironment) (plan : ExecutionPlan)
    (initial_preflight : EffectPreflightResult) (replay_guard : ReplayGuardState) : PreparedExecutionTransaction := {|
  pet_environment := environment; pet_authorization := vec_authorization (pem_call material);
  pet_admission_request := pem_admission_request material; pet_operation := pem_operation material;
  pet_commands := pem_commands material; pet_effect_refs := xpl_effect_refs plan; pet_effects := pem_effects material;
  pet_transaction_effect := xpl_transaction_effect plan; pet_commit_strategy := xpl_commit_strategy plan;
  pet_store_payloads := xpl_store_payloads plan; pet_commit_descriptor := xpl_descriptor plan;
  pet_commit_digest := xpl_commit_digest plan; pet_initial_preflight := initial_preflight; pet_replay_guard := replay_guard |}.

Definition prepare_execution_transaction (material : PreparedExecutionMaterial) (environment : TrustedExecutionEnvironment)
    : Io (Result PreparedExecutionTransaction PrepareExecutionError) :=
  match plan_execution material environment with
  | Err e => io_ret (Err e)
  | Ok plan =>
      let authorization := vec_authorization (pem_call material) in
      let principal := vea_principal authorization in
      let! initial_preflight := preflight_file_effect_transaction_under_lock (tee_effect_store_root environment)
        (xpl_transaction_effect plan) (xpl_store_payloads plan) in
      if negb (bool_decide (epr_status initial_preflight = EffectPreflightStatus_Ready))
      then io_ret (Err (Prepare_EffectPreflightBlocked initial_preflight)) else
      let! reservation := replay_call (fun st io => reserve_replay_nonce_under_effect_lock st (Ok tt) (ap_principal_id principal)
        (ap_audience principal) (vea_nonce authorization) (xpl_intent_digest plan) (xpl_commit_digest plan) io) in
      match reservation with
      | Err e => io_ret (Err (Prepare_Replay e))
      | Ok reservation =>
          let! replay_guard := replay_call (fun st io => prepare_replay_guard_state st (Ok tt) (ap_principal_id principal)
            (ap_audience principal) (vea_nonce authorization) (xpl_intent_digest plan) (xpl_commit_digest plan)
            (rv_revision (rres_reservation reservation)) io) in
          io_ret (match replay_guard with
                  | Err e => Err (Prepare_Replay e)
                  | Ok replay_guard => Ok (prepared_with material environment plan initial_preflight replay_guard)
                  end)
      end
  end.

(** ** Admission under the retained locks *)

Definition admission_document (self : PreparedExecutionTransaction) (snapshot : LateExecutionSnapshot) : ExecutionAdmissionInputDocument :=
  let principal := vea_principal (pet_authorization self) in
  let reservation := rg_reserved (pet_replay_guard self) in {|
  eid_schema_version := EXECUTION_ADMISSION_SCHEMA_VERSION;
  eid_execution_admission := {|
    ei_request := pet_admission_request self; ei_assurance_case := les_assurance_case snapshot; ei_operation := pet_operation self;
    ei_command_contracts := pet_commands self;
    ei_effect_contracts := map (fun '(effect_ref, document) => {| ecb_effect_ref := effect_ref; ecb_document := document |})
                             (zip (pet_effect_refs self) (pet_effects self));
    ei_principal := {|
      epo_principal_id := ap_principal_id principal; epo_agent_id := ap_agent_id principal; epo_role := ap_role principal;
      epo_trust := ExecutionPrincipalTrust_AuthorizedKeyRegistry; epo_credential_id := ap_credential_id principal;
      epo_audience := ap_audience principal; epo_required_audience := ap_audience principal;
      epo_authority_grants := ap_authority_grants principal;
      epo_attested_intent_digest := vea_execution_intent_digest (pet_authorization self) |};
    ei_replay := {|
      rpo_status := ReplayReservationStatus_FreshReserved; rpo_nonce := vea_nonce (pet_authorization self);
      rpo_reserved_intent_digest := rv_intent_digest reservation; rpo_reservation_revision := rv_revision reservation |};
    ei_claim_snapshot := les_claim_snapshot snapshot; ei_gate_snapshot := les_gate_snapshot snapshot;
    ei_commit := {|
      cao_strategy := pet_commit_strategy self;
      cao_scope := if bool_decide (pet_commit_strategy self = ExecutionCommitStrategy_OperationWideWal)
                   then ExecutionCommitScope_WholeOperation else ExecutionCommitScope_SingleEffect;
      cao_wal_lock := GuaranteeStatus_Verified; cao_rollback_recovery := GuaranteeStatus_Verified;
      cao_durable_commit_record := GuaranteeStatus_Verified; cao_compensation := CompensationCoverage_NotApplicable |};
    ei_current_state_version := les_current_state_version snapshot; ei_now_unix := les_now_unix snapshot;
    ei_max_attestation_age_seconds := vea_max_attestation_age_seconds (pet_authorization self);
    ei_max_future_skew_seconds := vea_max_future_skew_seconds (pet_authorization self) |} |}.

Record LateAdmittedExecutionTransaction := {
  lat_prepared : PreparedExecutionTransaction;
  lat_admission_document : ExecutionAdmissionInputDocument;
  lat_decision : ExecutionAdmissionDecision;
  lat_final_preflight : EffectPreflightResult
}.

Inductive LateAdmissionOutcome :=
| LateOutcome_Admitted (admitted : LateAdmittedExecutionTransaction)
| LateOutcome_Blocked (decision : ExecutionAdmissionDecision) (final_preflight : EffectPreflightResult).

Definition is_ready (preflight expected : EffectPreflightResult) : bool :=
  bool_decide (epr_status preflight = EffectPreflightStatus_Ready) && bool_decide (preflight = expected).

Definition evaluate_late (self : PreparedExecutionTransaction) (source : Result LateExecutionSnapshot string)
    : Io (Result LateAdmissionOutcome LateAdmissionError) :=
  let! final_preflight := preflight_file_effect_transaction_under_lock (tee_effect_store_root (pet_environment self))
    (pet_transaction_effect self) (pet_store_payloads self) in
  io_ret (
    if negb (is_ready final_preflight (pet_initial_preflight self))
    then Err (Late_EffectPreflightChanged (pet_initial_preflight self) final_preflight) else
    try snapshot <- map_err Late_SnapshotCapture source;
    let document := admission_document self snapshot in
    try decision <- map_err Late_Evaluation (evaluate_execution_admission document);
    Ok (if bool_decide (ead_status decision = ExecutionAdmissionStatus_Admitted)
        then LateOutcome_Admitted {| lat_prepared := self; lat_admission_document := document; lat_decision := decision;
                                     lat_final_preflight := final_preflight |}
        else LateOutcome_Blocked decision final_preflight)).

(** ** Committing *)

(** [Value::get(..).and_then(Value::as_object)], and assigning to a field that exists. *)
Definition json_get_object (name : string) (value : Json) : option (list (string * Json)) :=
  match json_get name value with Some (Json_Object fields) => Some fields | _ => None end.

Definition set_field (name : string) (value : Json) (fields : list (string * Json)) : list (string * Json) :=
  map (fun field => if bool_decide (fst field = name) then (name, value) else field) fields.

(** One turn of the loop over the sections. *)
Definition redact_section (nonce_fingerprint section : string) (admission : list (string * Json)) : Result (list (string * Json)) ExecutionCommitError :=
  match json_get_object section (Json_Object admission) with
  | None => Err (Commit_Provenance ("serialized Admission input has no " +:+ section +:+ " object"))
  | Some object =>
      match json_get "nonce" (Json_Object object) with
      | None => Err (Commit_Provenance ("serialized Admission " +:+ section +:+ " has no nonce"))
      | Some _ => Ok (set_field section (Json_Object (set_field "nonce" (Json_String ("redacted:" +:+ nonce_fingerprint)) object)) admission)
      end
  end.

Definition redacted_admission_projection (document : ExecutionAdmissionInputDocument) (nonce_fingerprint : string) : Result Json ExecutionCommitError :=
  try value <- map_err Commit_Provenance (admission_to_value document);
  match value, json_get_object "execution_admission" value with
  | Json_Object fields, Some admission =>
      try admission <- redact_section nonce_fingerprint "request" admission;
      try admission <- redact_section nonce_fingerprint "replay" admission;
      Ok (Json_Object (set_field "execution_admission" (Json_Object admission) fields))
  | _, _ => Err (Commit_Provenance "serialized Admission input has no execution_admission object")
  end.

(** [EffectExecutionProvenance::new]. *)
Definition EffectExecutionProvenance_new (document : Json) : Result EffectExecutionProvenance ExecutionCommitError :=
  match canonical_to_vec document with
  | None => Err Commit_ProvenanceEnvelope
  | Some canonical => Ok {| eep_schema_version := EFFECT_EXECUTION_PROVENANCE_SCHEMA_VERSION;
                            eep_digest := sha256_content_hash canonical; eep_document := document |}
  end.

Definition trace_role (role : CallerRole) : string :=
  match role with
  | CallerRole_Human => "human" | CallerRole_Driver => "driver" | CallerRole_Worker => "worker"
  | CallerRole_Runtime => "runtime" | CallerRole_Unknown => "unknown"
  end.

Definition execution_principal_trace_event (tx_id : string) (principal : ExecutionPrincipal) (effect_refs : list RepoPath)
    (effects : list ToolEffectContractDocument) (transaction_effect : ToolEffectContractDocument) (recorded_at_unix : Z)
    (authority_grants : list StableId) : TraceEvent :=
  let contract := ted_tool_effect_contract transaction_effect in
  let destructive := existsb ew_destructive (te_write_set contract) in {|
  tev_schema_version := TRACE_EVENT_SCHEMA_VERSION; tev_kind := TRACE_EVENT_KIND; tev_project_id := None;
  tev_trace_id := "execution." +:+ tx_id; tev_event_id := tx_id +:+ ".principal.effect-staged"; tev_run_id := tx_id;
  tev_graph_id := None; tev_node_id := None; tev_event_kind := TraceEventKind_EffectStaged;
  tev_recorded_at := unix_to_rfc3339 recorded_at_unix;
  tev_actor := {| tra_principal_id := PrincipalId_0 (xp_principal_id principal); tra_agent_id := StableId_0 (xp_agent_id principal);
                  tra_role := trace_role (xp_role principal) |};
  tev_authority := {| tau_operation_id := Some (StableId_0 (te_operation_ref contract)); tau_capability_ids := map StableId_0 authority_grants |};
  tev_inputs := map (fun effect_ref => {| trf_ref_kind := "effect_contract"; trf_reference := RepoPath_0 effect_ref |}) effect_refs;
  tev_outputs := map (fun write => {| trf_ref_kind := "effect_target"; trf_reference := ew_reference write |}) (te_write_set contract);
  tev_risk := {| trk_risk_level := if destructive then TraceRiskLevel_High else TraceRiskLevel_Low; trk_destructive := destructive |};
  tev_cost := TraceCost_zero;
  tev_message := "verified execution principal staged " +:+ fmt_nat (length effects) +:+ " governed effect contract(s) in one transaction" |}.

(** [append_trace_event_under_boundary]; the chain of names is resolved below the state root. *)
Definition append_trace_event_under_boundary (root : EffectRoot) (event : TraceEvent) : Io (Result unit AppendJsonLineError) :=
  match resolve_safe_repo_relative (fun names => root_canonical root (FORGE_STATE_DIR :: names)) DEFAULT_TRACE_LOG_RELATIVE_PATH,
        normalized_effect_relative_path DEFAULT_TRACE_LOG_RELATIVE_PATH with
  | Err e, _ => io_ret (Err e)
  | Ok _, None => io_ret (Err (AppendJsonLine_InvalidRelativePath DEFAULT_TRACE_LOG_RELATIVE_PATH))
  | Ok _, Some relative =>
      match trace_to_vec event with
      | None => io_ret (Err AppendJsonLine_Serialize)
      | Some line =>
          let! appended := append_file (FORGE_STATE_DIR :: relative) (line ++ [LF])%list in
          io_ret (match appended with Ok _ => Ok tt | Err _ => Err AppendJsonLine_Write end)
      end
  end.

(** Everything [commit] builds between the admission and the trace event. *)
Definition commit_evidence (self : LateAdmittedExecutionTransaction) (commit_preflight : EffectPreflightResult)
    (input : ExecutionAdmissionInputDocument) (decision : ExecutionAdmissionDecision) : Result EffectExecutionProvenance ExecutionCommitError :=
  let prepared := lat_prepared self in
  let authorization := authorization_audit (pet_authorization prepared) in
  try late_admission_input <- redacted_admission_projection (lat_admission_document self) (vaa_nonce_fingerprint authorization);
  try commit_admission_input <- redacted_admission_projection input (vaa_nonce_fingerprint authorization);
  try value <- map_err Commit_Provenance (provenance_to_value {|
    ecp_schema_version := EXECUTION_COMMIT_PROVENANCE_SCHEMA_VERSION;
    ecp_tx_id := pcd_tx_id (pet_commit_descriptor prepared);
    ecp_project_root := path_string (tee_project_root (pet_environment prepared));
    ecp_audience := tee_required_audience (pet_environment prepared);
    ecp_execution_principal := execution_principal (vaa_principal authorization);
    ecp_authorization := authorization;
    ecp_late_admission_input := late_admission_input; ecp_late_admission_decision := lat_decision self;
    ecp_commit_admission_input := commit_admission_input; ecp_commit_admission_decision := decision;
    ecp_initial_preflight := pet_initial_preflight prepared; ecp_late_preflight := lat_final_preflight self;
    ecp_commit_preflight := commit_preflight; ecp_commit_descriptor := pet_commit_descriptor prepared;
    ecp_commit_digest := pet_commit_digest prepared; ecp_replay_reservation := rg_reserved (pet_replay_guard prepared) |});
  EffectExecutionProvenance_new value.

(** [EffectReplayCommitBinding::new] on the reservation. *)
Definition replay_binding_of (reservation : ReplayReservation) : EffectReplayCommitBinding := {|
  erb_key_hash := rv_key_hash reservation; erb_intent_digest := rv_intent_digest reservation;
  erb_commit_digest := rv_commit_digest reservation; erb_reservation_revision := rv_revision reservation |}.

(** From the application on. *)
Definition commit_effect (self : LateAdmittedExecutionTransaction) (provenance : EffectExecutionProvenance) (principal_trace_event_id : string)
    : Io ExecutionCommitOutcome :=
  let prepared := lat_prepared self in
  let tx_id := pcd_tx_id (pet_commit_descriptor prepared) in
  let effect_id := te_id (ted_tool_effect_contract (pet_transaction_effect prepared)) in
  let principal := execution_principal (vaa_principal (authorization_audit (pet_authorization prepared))) in
  let binding := replay_binding_of (rg_reserved (pet_replay_guard prepared)) in
  let! application := apply_file_effect_transaction_with_provenance_under_lock (tee_effect_store_root (pet_environment prepared))
    (pet_transaction_effect prepared) (pet_store_payloads prepared) PREPARED_EFFECT_WAL_RELATIVE_PATH tx_id provenance binding in
  if negb (bool_decide (ear_status application = EffectApplicationStatus_Applied))
  then io_ret (Outcome_NotCommitted application (eep_digest provenance) principal principal_trace_event_id) else
  let receipt status replay completion := Outcome_Committed {|
    ecr_status := status; ecr_receipt_tx_id := tx_id; ecr_effect_id := effect_id;
    ecr_effect_ids := map (fun effect => te_id (ted_tool_effect_contract effect)) (pet_effects prepared);
    ecr_commit_digest := pet_commit_digest prepared; ecr_provenance_digest := eep_digest provenance; ecr_execution_principal := principal;
    ecr_principal_trace_event_id := principal_trace_event_id; ecr_application := application; ecr_replay := replay;
    ecr_receipt_completion := completion |} in
  let! consumed := replay_call (fun st io => guard_consume st (pet_replay_guard prepared) io) in
  match consumed with
  | Err _ => io_ret (receipt ExecutionCommitStatus_EffectCommittedReplayPending None None)
  | Ok replay =>
      let! completion := append_effect_replay_completion_under_lock PREPARED_EFFECT_WAL_RELATIVE_PATH tx_id effect_id binding replay false in
      io_ret (match completion with
              | Ok completion => receipt ExecutionCommitStatus_Committed (Some replay) (Some completion)
              | Err _ => receipt ExecutionCommitStatus_EffectCommittedCompletionPending (Some replay) None
              end)
  end.

Definition commit (self : LateAdmittedExecutionTransaction) (source : Result LateExecutionSnapshot string)
    : Io (Result ExecutionCommitOutcome ExecutionCommitError) :=
  let prepared := lat_prepared self in
  let root := tee_effect_store_root (pet_environment prepared) in
  let! commit_preflight := preflight_file_effect_transaction_under_lock root (pet_transaction_effect prepared) (pet_store_payloads prepared) in
  if negb (is_ready commit_preflight (lat_final_preflight self))
  then io_ret (Err (Commit_EffectPreflightChanged (lat_final_preflight self) commit_preflight)) else
  match source with
  | Err message => io_ret (Err (Commit_SnapshotCapture message))
  | Ok snapshot =>
      let input := admission_document prepared snapshot in
      match evaluate_execution_admission input with
      | Err e => io_ret (Err (Commit_Evaluation e))
      | Ok decision =>
          if negb (bool_decide (ead_status decision = ExecutionAdmissionStatus_Admitted))
          then io_ret (Ok (Outcome_Blocked decision commit_preflight)) else
          match commit_evidence self commit_preflight input decision with
          | Err e => io_ret (Err e)
          | Ok provenance =>
              let event := execution_principal_trace_event (pcd_tx_id (pet_commit_descriptor prepared))
                (execution_principal (vaa_principal (authorization_audit (pet_authorization prepared)))) (pet_effect_refs prepared)
                (pet_effects prepared) (pet_transaction_effect prepared) (les_now_unix snapshot)
                (apa_authority_grants (vaa_principal (authorization_audit (pet_authorization prepared)))) in
              let! traced := append_trace_event_under_boundary root event in
              match traced with
              | Err e => io_ret (Err (Commit_PrincipalTrace e))
              | Ok _ => let! outcome := commit_effect self provenance (tev_event_id event) in io_ret (Ok outcome)
              end
          end
      end
  end.

(** ** [execute_without_anchor]; the material is loaded, and the payload is the outcome its JSON is written from *)

Inductive ExecutionStatus := ExecutionStatus_Applied | ExecutionStatus_Blocked | ExecutionStatus_RecoveryRequired.

Inductive ExecutionError :=
| Execution_RejectedPrepare (e : PrepareExecutionError)
| Execution_RejectedLate (e : LateAdmissionError)
| Execution_Internal (e : ExecutionCommitError).

Inductive ExecutionPayload :=
| Payload_LateAdmission (decision : ExecutionAdmissionDecision) (final_preflight : EffectPreflightResult)
| Payload_Commit (outcome : ExecutionCommitOutcome).

Definition commit_execution_status (outcome : ExecutionCommitOutcome) : ExecutionStatus :=
  match outcome with
  | Outcome_Committed receipt =>
      match ecr_status receipt with
      | ExecutionCommitStatus_Committed => ExecutionStatus_Applied
      | ExecutionCommitStatus_EffectCommittedReplayPending | ExecutionCommitStatus_EffectCommittedCompletionPending => ExecutionStatus_RecoveryRequired
      end
  | Outcome_NotCommitted _ _ _ _ | Outcome_Blocked _ _ => ExecutionStatus_Blocked
  end.

(** The snapshots are those the source returns for the late and for the commit admission. *)
Definition execute_without_anchor (material : PreparedExecutionMaterial) (environment : TrustedExecutionEnvironment)
    (late_snapshot commit_snapshot : Result LateExecutionSnapshot string) : Io (Result (ExecutionStatus * ExecutionPayload) ExecutionError) :=
  let! prepared := prepare_execution_transaction material environment in
  match prepared with
  | Err e => io_ret (Err (Execution_RejectedPrepare e))
  | Ok prepared =>
      let! late := evaluate_late prepared late_snapshot in
      match late with
      | Err e => io_ret (Err (Execution_RejectedLate e))
      | Ok (LateOutcome_Blocked decision final_preflight) =>
          io_ret (Ok (ExecutionStatus_Blocked, Payload_LateAdmission decision final_preflight))
      | Ok (LateOutcome_Admitted admitted) =>
          let! outcome := commit admitted commit_snapshot in
          io_ret (match outcome with
                  | Err e => Err (Execution_Internal e)
                  | Ok outcome => Ok (commit_execution_status outcome, Payload_Commit outcome)
                  end)
      end
  end.

(** ** Reconciling *)

Definition complete_binding (binding : RecoveryPreparedEffectBinding) : bool :=
  negb (str_is_empty (trim (rpb_source_ref binding))) && negb (str_is_empty (trim (StableId_0 (rpb_effect_id binding))))
  && String.prefix "sha256:" (rpb_token binding).

Definition valid_effect_scope (commit_strategy : ExecutionCommitStrategy) (effect : RecoveryPreparedEffectBinding)
    (constituents : list RecoveryPreparedEffectBinding) : bool :=
  match commit_strategy with
  | ExecutionCommitStrategy_SingleEffectWal => match constituents with [only] => bool_decide (effect = only) | _ => false end
  | ExecutionCommitStrategy_OperationWideWal =>
      (2 <=? length constituents)%nat && String.prefix "operation-wide." (StableId_0 (rpb_effect_id effect))
      && String.prefix ".forge-method/runtime/operation-wide/" (rpb_source_ref effect)
  | ExecutionCommitStrategy_Saga => false
  end.

Definition json_is_string (value : option Json) (text : string) : bool :=
  match value with Some (Json_String s) => bool_decide (s = text) | _ => false end.

(** The role is compared as JSON; a role is serialized as a string. *)
Definition json_is (value expected : option Json) : bool :=
  match value, expected with
  | Some (Json_String s), Some (Json_String t) => bool_decide (s = t)
  | None, None => true
  | _, _ => false
  end.

Definition principal_matches_authorization (view : RecoveryProvenanceView) : bool :=
  match json_get "principal" (rpv_authorization view) with
  | None => false
  | Some principal =>
      json_is_string (json_get "principal_id" principal) (PrincipalId_0 (xp_principal_id (rpv_execution_principal view)))
      && json_is_string (json_get "agent_id" principal) (StableId_0 (xp_agent_id (rpv_execution_principal view)))
      && json_is (json_get "role" principal) (role_to_value (xp_role (rpv_execution_principal view)))
  end.

Definition recovery_view_valid (view : RecoveryProvenanceView) (tx_id : string) (committed_effect_id : StableId)
    (replay_binding : EffectReplayCommitBinding) (expected_project_root expected_audience : string) : bool :=
  let reservation := rpv_replay_reservation view in
  let descriptor := rpv_commit_descriptor view in
  let constituents := default [rcd_effect descriptor] (rcd_constituent_effects descriptor) in
  bool_decide (rpv_schema_version view = EXECUTION_COMMIT_PROVENANCE_SCHEMA_VERSION)
  && bool_decide (rpv_tx_id view = tx_id) && bool_decide (rpv_project_root view = expected_project_root)
  && bool_decide (rpv_audience view = expected_audience) && principal_matches_authorization view
  && bool_decide (rpv_commit_digest view = erb_commit_digest replay_binding)
  && bool_decide (rcd_project_root descriptor = expected_project_root) && bool_decide (rcd_audience descriptor = expected_audience)
  && bool_decide (rcd_tx_id descriptor = tx_id) && bool_decide (rpb_effect_id (rcd_effect descriptor) = committed_effect_id)
  && distinct_texts (map (fun binding => StableId_0 (rpb_effect_id binding)) constituents)
  && forallb complete_binding (constituents ++ [rcd_effect descriptor])%list
  && valid_effect_scope (default ExecutionCommitStrategy_SingleEffectWal (rcd_commit_strategy descriptor)) (rcd_effect descriptor) constituents
  && bool_decide (rcd_effect_lock_relative_path descriptor = PREPARED_EFFECT_LOCK_RELATIVE_PATH)
  && bool_decide (rcd_effect_wal_relative_path descriptor = PREPARED_EFFECT_WAL_RELATIVE_PATH)
  && bool_decide (rrr_key_hash reservation = erb_key_hash replay_binding)
  && bool_decide (rrr_intent_digest reservation = erb_intent_digest replay_binding)
  && bool_decide (rrr_commit_digest reservation = erb_commit_digest replay_binding)
  && (rrr_revision reservation =? erb_reservation_revision replay_binding)%Z && bool_decide (rrr_state reservation = "reserved").

Definition validate_recovery_provenance (tx_id : string) (committed_effect_id : StableId) (document : Json)
    (replay_binding : EffectReplayCommitBinding) (expected_project_root expected_audience : string)
    : Result unit ExecutionReplayReconciliationError :=
  match recovery_from_value document with
  | Err error => Err (ReplayReconciliation_Provenance tx_id ("complete P4b.2c provenance shape is invalid: " +:+ error))
  | Ok view =>
      if recovery_view_valid view tx_id committed_effect_id replay_binding expected_project_root expected_audience then Ok tt
      else Err (ReplayReconciliation_Provenance tx_id
             "root, audience, descriptor, effect scope, or replay reservation binding changed")
  end.

(** The loop over the pending commits: the transactions, consumptions and completions in order. *)
Fixpoint reconcile_pending (environment : TrustedExecutionEnvironment) (pending : list PendingEffectReplayCommit)
    : Io (Result (list (string * ReplayConsumeResult * EffectReplayCompletionResult)) ExecutionReplayReconciliationError) :=
  match pending with
  | [] => io_ret (Ok [])
  | candidate :: rest =>
      let tx_id := per_tx_id candidate in
      let binding := per_replay_binding candidate in
      match validate_recovery_provenance tx_id (per_effect_id candidate) (eep_document (per_provenance candidate)) binding
              (path_string (tee_project_root environment)) (tee_required_audience environment) with
      | Err e => io_ret (Err e)
      | Ok _ =>
          let! replay := replay_call (fun st io => consume_replay_key_hash_under_effect_lock st (Ok tt) (erb_key_hash binding)
            (erb_intent_digest binding) (erb_commit_digest binding) (erb_reservation_revision binding) io) in
          match replay with
          | Err source => io_ret (Err (ReplayReconciliation_Replay tx_id source))
          | Ok replay =>
              let! completion := append_effect_replay_completion_under_lock PREPARED_EFFECT_WAL_RELATIVE_PATH tx_id
                (per_effect_id candidate) binding replay true in
              match completion with
              | Err source => io_ret (Err (ReplayReconciliation_Completion tx_id source))
              | Ok completion =>
                  let! others := reconcile_pending environment rest in
                  io_ret (match others with Ok others => Ok ((tx_id, replay, completion) :: others) | Err e => Err e end)
              end
          end
      end
  end.

(** [reconcile_prepared_execution_commits] once the effect log is recovered. *)
Definition reconcile_recovered (environment : TrustedExecutionEnvironment) (recovered_transactions : list string)
    : Io (Result ExecutionReplayReconciliationResult ExecutionReplayReconciliationError) :=
  let! pending := pending_effect_replay_commits_under_lock PREPARED_EFFECT_WAL_RELATIVE_PATH in
  match pending with
  | Err e => io_ret (Err (ReplayReconciliation_EffectWal e))
  | Ok pending =>
      let! reconciled := reconcile_pending environment pending in
      io_ret (match reconciled with
              | Err e => Err e
              | Ok reconciled => Ok {|
                  err_status := if is_nil recovered_transactions && is_nil reconciled
                                then ReplayReconciliation_Noop else ReplayReconciliation_Reconciled;
                  err_recovered_effect_transactions := recovered_transactions;
                  err_reconciled_transactions := map (fun '(tx_id, _, _) => tx_id) reconciled;
                  err_replay_results := map (fun '(_, replay, _) => replay) reconciled;
                  err_completion_records := map (fun '(_, _, completion) => completion) reconciled |}
              end)
  end.

Definition reconcile_prepared_execution_commits (environment : TrustedExecutionEnvironment)
    : Io (Result ExecutionReplayReconciliationResult ExecutionReplayReconciliationError) :=
  let! recovered := reconcile_effects PREPARED_EFFECT_WAL_RELATIVE_PATH in
  match recovered with
  | Err e => io_ret (Err (ReplayReconciliation_EffectWal e))
  | Ok recovery =>
      if bool_decide (ewv_status recovery = EffectWalRecoveryStatus_RecoveryFailed)
      then io_ret (Err (ReplayReconciliation_EffectRecovery (ewv_reasons recovery)))
      else reconcile_recovered environment (ewv_recovered_transactions recovery)
  end.

End execution.

(** * The evidence of a commit *)

(** The token of a contract names its algorithm. *)
Class TokenLaws (digests : AdmissionDigests) : Prop :=
  effect_token_prefix document token : effect_contract_token document = Ok token -> String.prefix "sha256:" token = true.

Lemma bind_ok {A B E} (x : Result A E) (f : A -> Result B E) b : result_bind x f = Ok b -> exists a, x = Ok a /\ f a = Ok b.
Proof. destruct x as [a|e]; [by exists a|done]. Qed.

Lemma map_err_ok {A E E'} (f : E -> E') (x : Result A E) a : map_err f x = Ok a -> x = Ok a.
Proof. by destruct x; simpl; [intros [= ->]|]. Qed.

Lemma nonblank_solid c s : solid c = true -> nonblank (String c s).
Proof. intros Hc. unfold nonblank, trim. simpl. by destruct (trim_bytes_head c (to_bytes s) Hc) as [l' ->]. Qed.

(** ** The descriptor of a plan *)

Section plan.
Context {codec : EffectCodec} {digests : AdmissionDigests} {lower : ToLowercase} {kernel : KernelCodec}.

(** The step of [plan_execution] that succeeded. *)
Ltac plan_step H :=
  match type of H with
  | result_bind _ _ = Ok _ => let x := fresh "x" in let Hx := fresh "Hx" in apply bind_ok in H as (x & Hx & H)
  | (if ?c then Err _ else _) = Ok _ => let E := fresh "E" in destruct c eqn:E; [done|]
  end.

Record descriptor_of (environment : TrustedExecutionEnvironment) (effect_refs : list RepoPath) (effects : list ToolEffectContractDocument)
    (transaction_effect : ToolEffectContractDocument) (strategy : ExecutionCommitStrategy) (descriptor : PreparedCommitDescriptor) : Prop := {
  ds_root : pcd_project_root descriptor = path_string (tee_project_root environment);
  ds_audience : pcd_audience descriptor = tee_required_audience environment;
  ds_lock : pcd_effect_lock_relative_path descriptor = PREPARED_EFFECT_LOCK_RELATIVE_PATH;
  ds_wal : pcd_effect_wal_relative_path descriptor = PREPARED_EFFECT_WAL_RELATIVE_PATH;
  ds_tx : exists request_id intent_digest, pcd_tx_id descriptor = derived_tx_id request_id (te_id (ted_tool_effect_contract transaction_effect)) intent_digest;
  ds_strategy : pcd_commit_strategy descriptor = strategy;
  ds_effect : exists token, effect_contract_token transaction_effect = Ok token
    /\ pcd_effect descriptor = {|
         peb_source_ref := if bool_decide (strategy = ExecutionCommitStrategy_SingleEffectWal)
                           then match effect_refs with effect_ref :: _ => RepoPath_0 effect_ref | [] => "" end
                           else RepoPath_0 (te_contract_ref (ted_tool_effect_contract transaction_effect));
         peb_effect_id := te_id (ted_tool_effect_contract transaction_effect); peb_token := token |};
  ds_constituents : constituent_effects (zip effect_refs effects) = Ok (pcd_constituent_effects descriptor)
}.

Lemma build_descriptor environment operation_ref operation operation_token command_refs commands effect_refs effects transaction_effect
    commit_strategy payload_bindings payloads intent_digest request_id descriptor :
  build_commit_descriptor environment operation_ref operation operation_token command_refs commands effect_refs effects transaction_effect
    commit_strategy payload_bindings payloads intent_digest request_id = Ok descriptor ->
  descriptor_of environment effect_refs effects transaction_effect commit_strategy descriptor.
Proof.
  unfold build_commit_descriptor. intros H. repeat plan_step H. apply map_err_ok in Hx1. injection H as <-.
  split; simpl; try done; by eexists _, _ || eexists.
Qed.

Lemma plan_facts material environment plan : plan_execution material environment = Ok plan ->
  transaction_of environment (pem_operation material) (xpl_effect_refs plan) (pem_effects material)
    = Ok (xpl_transaction_effect plan, xpl_commit_strategy plan)
  /\ length (xpl_effect_refs plan) = length (pem_effects material)
  /\ descriptor_of environment (xpl_effect_refs plan) (pem_effects material) (xpl_transaction_effect plan) (xpl_commit_strategy plan)
       (xpl_descriptor plan).
Proof.
  unfold plan_execution. cbv zeta. intros H. repeat plan_step H.
  match type of H with (let '(_, _) := ?t in _) = _ => destruct t as [transaction_effect commit_strategy] end.
  repeat plan_step H. injection H as <-. cbn [xpl_transaction_effect xpl_commit_strategy xpl_effect_refs xpl_descriptor].
  match goal with E : is_nil _ || _ || _ || _ = false |- _ => apply orb_false_iff in E as [[[_ El%negb_false_iff]%orb_false_iff _]%orb_false_iff _] end.
  split_and!; [done|by rewrite length_map; apply Nat.eqb_eq|by eapply build_descriptor].
Qed.

Lemma plan_authority material environment plan : plan_execution material environment = Ok plan ->
  execution_intent_digest (pem_admission_request material) = Ok (xpl_intent_digest plan)
  /\ authority_matches (vec_authorization (pem_call material)) environment (pem_admission_request material) (xpl_intent_digest plan) = Ok tt.
Proof.
  unfold plan_execution. cbv zeta. intros H. repeat plan_step H.
  match type of H with (let '(_, _) := ?t in _) = _ => destruct t as [transaction_effect commit_strategy] end.
  repeat plan_step H. injection H as <-. cbn [xpl_intent_digest].
  match goal with E : map_err Prepare_IntentDigest _ = Ok _ |- _ => apply map_err_ok in E end. split; [done|].
  match goal with E : authority_matches _ _ _ _ = Ok ?u |- _ => by destruct u end.
Qed.

Lemma authority_matches_ok authorization environment request intent_digest : authority_matches authorization environment request intent_digest = Ok tt ->
  vea_execution_intent_digest authorization = intent_digest
  /\ ap_audience (vea_principal authorization) = tee_required_audience environment
  /\ eq_principal_id request = ap_principal_id (vea_principal authorization) /\ eq_agent_id request = ap_agent_id (vea_principal authorization)
  /\ eq_principal_role request = ap_role (vea_principal authorization) /\ eq_nonce request = vea_nonce authorization
  /\ eq_issued_at_unix request = vea_issued_at_unix authorization /\ eq_expected_replay_reservation_revision request = 1%Z.
Proof.
  unfold authority_matches. intros H. repeat (plan_step H). rewrite !orb_false_iff, !negb_false_iff, !bool_decide_eq_true, !Z.eqb_eq in *.
  destruct_and?. by split_and!.
Qed.

(** ** Recovery accepts it *)

Context {tokens : TokenLaws digests}.

Definition binding_of (item : RepoPath * ToolEffectContractDocument) (binding : PreparedEffectBinding) : Prop :=
  peb_source_ref binding = RepoPath_0 (fst item) /\ peb_effect_id binding = te_id (ted_tool_effect_contract (snd item))
  /\ effect_contract_token (snd item) = Ok (peb_token binding).

Lemma constituents_ok items bindings : constituent_effects items = Ok bindings -> Forall2 binding_of items bindings.
Proof.
  revert bindings. induction items as [|[effect_ref effect] items IH]; simpl; intros bindings H; [injection H as <-; constructor|].
  repeat plan_step H. apply map_err_ok in Hx. injection H as <-. constructor; [by split_and!|by apply IH].
Qed.

Lemma binding_complete item binding : binding_of item binding -> nonblank (RepoPath_0 (fst item)) ->
  nonblank (StableId_0 (te_id (ted_tool_effect_contract (snd item)))) -> complete_binding (recovery_binding binding) = true.
Proof.
  intros (Hs & Hi & Ht) Hr He. unfold complete_binding. simpl. unfold nonblank in *. by rewrite Hs, Hi, Hr, He, (effect_token_prefix _ _ Ht).
Qed.

(** The references and ids of the effects are not blank. *)
Definition named_effects (effect_refs : list RepoPath) (effects : list ToolEffectContractDocument) : Prop :=
  Forall (fun effect_ref => nonblank (RepoPath_0 effect_ref)) effect_refs
  /\ Forall (fun effect => nonblank (StableId_0 (te_id (ted_tool_effect_contract effect)))) effects.

Lemma zip_complete effect_refs effects bindings : named_effects effect_refs effects ->
  Forall2 binding_of (zip effect_refs effects) bindings -> forallb complete_binding (map recovery_binding bindings) = true.
Proof.
  intros [Hr He]. revert effects bindings He. induction Hr as [|effect_ref effect_refs Hn _ IH]; intros effects bindings He H; simpl in H.
  - by inversion H.
  - destruct effects as [|effect effects]; [by inversion H|]. inversion He; subst. inversion H as [|? binding ? bindings' Hb Hbs]; subst. simpl.
    by rewrite (binding_complete _ _ Hb), (IH effects bindings').
Qed.

Lemma zip_ids effect_refs effects bindings : length effect_refs = length effects -> Forall2 binding_of (zip effect_refs effects) bindings ->
  map (fun binding => StableId_0 (rpb_effect_id binding)) (map recovery_binding bindings)
  = map (fun effect => StableId_0 (te_id (ted_tool_effect_contract effect))) effects.
Proof.
  revert effects bindings. induction effect_refs as [|effect_ref effect_refs IH]; intros [|effect effects] bindings Hl H; simpl in *; try done; [by inversion H|].
  inversion H as [|? binding ? bindings' (_ & Hi & _) Hbs]; subst. simpl. rewrite Hi. f_equal. apply IH; [lia|done].
Qed.

Lemma operation_wide_binding operation_id actor s token : String.prefix "sha256:" token = true ->
  let contract := ted_tool_effect_contract (bundle_envelope operation_id actor s) in
  complete_binding {| rpb_source_ref := RepoPath_0 (te_contract_ref contract); rpb_effect_id := te_id contract; rpb_token := token |} = true
  /\ String.prefix "operation-wide." (StableId_0 (te_id contract)) = true
  /\ String.prefix ".forge-method/runtime/operation-wide/" (RepoPath_0 (te_contract_ref contract)) = true.
Proof.
  intros Ht. unfold complete_binding. cbn [bundle_envelope ted_tool_effect_contract te_id te_contract_ref rpb_source_ref rpb_effect_id rpb_token StableId_0 RepoPath_0].
  assert (forall s, nonblank ("operation-wide." +:+ s)) as H1 by (intros s0; by apply (nonblank_solid "o")).
  assert (forall s, nonblank (".forge-method/runtime/operation-wide/" +:+ s)) as H2 by (intros s0; by apply (nonblank_solid ".")).
  unfold nonblank in *. rewrite H1, H2, Ht. split_and!; [done|simpl; by destruct (StableId_0 operation_id)..].
Qed.

Lemma descriptor_recoverable environment operation effect_refs effects transaction_effect strategy descriptor :
  transaction_of environment operation effect_refs effects = Ok (transaction_effect, strategy) -> length effect_refs = length effects ->
  named_effects effect_refs effects ->
  descriptor_of environment effect_refs effects transaction_effect strategy descriptor ->
  let constituents := map recovery_binding (pcd_constituent_effects descriptor) in
  let effect := recovery_binding (pcd_effect descriptor) in
  distinct_texts (map (fun binding => StableId_0 (rpb_effect_id binding)) constituents) = true
  /\ forallb complete_binding (constituents ++ [effect])%list = true
  /\ valid_effect_scope (pcd_commit_strategy descriptor) effect constituents = true
  /\ rpb_effect_id effect = te_id (ted_tool_effect_contract transaction_effect).
Proof.
  intros Ht Hl Hn [_ _ _ _ _ Hs (token & Htok & He) Hc%constituents_ok] constituents effect.
  pose proof (zip_complete _ _ _ Hn Hc) as Hcomplete. pose proof (zip_ids _ _ _ Hl Hc) as Hids. fold constituents in Hcomplete, Hids.
  rewrite forallb_app, Hcomplete, Hs, Hids. unfold effect. rewrite He. cbn [recovery_binding rpb_effect_id peb_effect_id].
  unfold transaction_of in Ht. destruct effects as [|first [|second rest]].
  2: { injection Ht as <- <-. destruct effect_refs as [|effect_ref [|? ?]]; try done. simpl in Hc.
       apply Forall2_cons_inv_l in Hc as (binding & nil' & Hb & ->%Forall2_nil_inv_l & Ecs). pose proof Hb as (Hb1 & Hb2 & Hb3). simpl in *.
       assert (binding = {| peb_source_ref := RepoPath_0 effect_ref; peb_effect_id := te_id (ted_tool_effect_contract first); peb_token := token |}) as ->
         by (destruct binding; simpl in *; congruence).
       split_and!; [by apply bool_decide_eq_true, NoDup_singleton| | |done]; rewrite ?bool_decide_eq_true_2 by done.
       - subst constituents. rewrite Ecs in Hcomplete. simpl in *. by rewrite andb_true_r in *.
       - subst constituents. rewrite Ecs. simpl. by rewrite bool_decide_eq_true_2. }
  all: apply bind_ok in Ht as (bundle & Hb%map_err_ok & [= <- <-]); pose proof Hb as (s & actor & Hbd & _ & -> & Hlen & _)%compose_bundled.
  all: rewrite bool_decide_eq_false_2 by done; cbn [oeb_transaction_effect] in *.
  all: destruct (operation_wide_binding (oc_contract_id (ocd_operation_contract operation)) actor s token (effect_token_prefix _ _ Htok)) as (H1 & H2 & H3).
  all: unfold recovery_binding; cbn [peb_source_ref peb_effect_id peb_token]; cbn [forallb]; rewrite H1.
  all: split_and!; [apply bool_decide_eq_true, Hbd|done| |done].
  all: unfold valid_effect_scope; cbn [rpb_effect_id rpb_source_ref]; rewrite H2, H3, !andb_true_r; apply Nat.leb_le.
  all: pose proof (f_equal length Hids) as Hlen'; rewrite !length_map in Hlen'; simpl in *; lia.
Qed.

(** ** The provenance *)

Context {kernel_laws : KernelCodecLaws kernel}.

Lemma new_verifies document provenance : EffectExecutionProvenance_new document = Ok provenance ->
  verify_provenance provenance = true /\ eep_document provenance = document.
Proof.
  unfold EffectExecutionProvenance_new, verify_provenance. destruct (canonical_to_vec document) as [canonical|] eqn:E; [|done].
  intros [= <-]. simpl. by rewrite E, !bool_decide_eq_true_2.
Qed.

(** What a view of a serialized document says of its authorization. *)
Lemma view_authorized document view : reads_back document view ->
  ecp_execution_principal document = execution_principal (vaa_principal (ecp_authorization document)) -> principal_matches_authorization view = true.
Proof.
  intros Hb Hp. destruct (rb_authorization _ _ Hb) as (principal & Hget & H1 & H2 & H3). unfold principal_matches_authorization.
  rewrite Hget, (rb_principal _ _ Hb), Hp, H1, H2, H3. simpl. destruct (role_string (apa_role (vaa_principal (ecp_authorization document)))) as [text ->].
  simpl. by rewrite !bool_decide_eq_true_2.
Qed.

Lemma evidence_recoverable material environment plan preflight guard admitted commit_preflight input decision provenance :
  plan_execution material environment = Ok plan -> named_effects (xpl_effect_refs plan) (pem_effects material) ->
  lat_prepared admitted = prepared_with material environment plan preflight guard ->
  rv_commit_digest (rg_reserved guard) = xpl_commit_digest plan -> rv_state (rg_reserved guard) = ReplayReservationState_Reserved ->
  commit_evidence admitted commit_preflight input decision = Ok provenance ->
  verify_provenance provenance = true /\ json_get "publication_scope" (eep_document provenance) = None
  /\ validate_recovery_provenance (pcd_tx_id (xpl_descriptor plan)) (te_id (ted_tool_effect_contract (xpl_transaction_effect plan)))
       (eep_document provenance) (replay_binding_of (rg_reserved guard)) (path_string (tee_project_root environment))
       (tee_required_audience environment) = Ok tt.
Proof.
  intros Hplan Hn Hlate Hcommit Hstate He. destruct (plan_facts _ _ _ Hplan) as (Ht & Hl & Hd).
  destruct (descriptor_recoverable _ _ _ _ _ _ _ Ht Hl Hn Hd) as (Hdistinct & Hcomplete & Hscope & Hid).
  unfold commit_evidence in He. rewrite Hlate in He. cbv zeta in He. repeat plan_step He. apply map_err_ok in Hx1.
  apply new_verifies in He as [Hv ->]. apply provenance_reads_back in Hx1 as (Hnone & view & Hview & Hback). split_and!; [done|done|].
  unfold validate_recovery_provenance. rewrite Hview. unfold recovery_view_valid.
  rewrite (view_authorized _ _ Hback eq_refl), (rb_schema _ _ Hback), (rb_tx _ _ Hback), (rb_root _ _ Hback), (rb_audience _ _ Hback), (rb_digest _ _ Hback),
    (rb_descriptor _ _ Hback), (rb_reservation _ _ Hback).
  cbn -[String.prefix PREPARED_EFFECT_LOCK_RELATIVE_PATH PREPARED_EFFECT_WAL_RELATIVE_PATH recovery_binding complete_binding forallb valid_effect_scope distinct_texts path_string
    rpb_effect_id].
  rewrite (ds_root _ _ _ _ _ _ Hd), (ds_audience _ _ _ _ _ _ Hd), (ds_lock _ _ _ _ _ _ Hd), (ds_wal _ _ _ _ _ _ Hd), Hcomplete, Hscope, Hdistinct, Hstate, Hcommit, Hid.
  rewrite !bool_decide_eq_true_2 by done. by rewrite Z.eqb_refl.
Qed.

Lemma plan_tx_nonblank material environment plan : plan_execution material environment = Ok plan -> nonblank (pcd_tx_id (xpl_descriptor plan)).
Proof.
  intros (_ & _ & Hd)%plan_facts. destruct (ds_tx _ _ _ _ _ _ Hd) as (request_id & intent_digest & ->). by apply (nonblank_solid "p").
Qed.

End plan.
