(* ===== verification/ExecutionCrash.v ===== *)
(** * Crashes of prepared executions

    The states an execution can leave the store in when its process dies, or when it ends: [unapplied], with
    the nonce at most reserved; [applying], inside the application of its effect; and [applied], with the
    commit in the log and the nonce consumed or about to be.  Reconciling keeps them whatever faults occur,
    and an undisturbed reconciliation ends in one of two. *)

From S2P Require Import Prelude RustStr BTree Contracts OperationContracts AssuranceContracts Diagnostics StatePaths EffectTypes CrashIo WalFrame ReplayWal ReplayCommands ReplayLog ReplaySafety ReplayDisk EffectStore EffectLog EffectCrash EffectRecovery EffectPlan EffectAtomic EffectSafety EffectPreflight EffectReplay EffectPending ExecutionAdmission ExecutionAuthority OperationBundle PreparedPlan PreparedExecution.

Local Open Scope string_scope.

Definition effect_wal_key : Key := [FORGE_STATE_DIR; "wal"; "effects.ndjson"].

Lemma effect_wal_path : normalized_effect_relative_path PREPARED_EFFECT_WAL_RELATIVE_PATH = Some effect_wal_key.
Proof. by vm_compute. Qed.

Lemma omap_ext_in {A B} (f g : A -> option B) (l : list A) : (forall x, x ∈ l -> f x = g x) -> omap f l = omap g l.
Proof.
  induction l as [|x l IH]; intros H; simpl; [done|]. rewrite (H x) by (by left).
  assert (omap f l = omap g l) as E by (apply IH; intros y Hy; apply H; by right). destruct (g x); [f_equal|]; exact E.
Qed.

(** ** Files of the state root that an execution keeps itself *)

Definition execution_logs : list Key := [effect_wal_key; replay_wal_key; trace_log_key].
Definition execution_files : list Key := replay_manifest_key :: execution_logs.

(** The other files. *)
Definition same_state (d d' : Disk) : Prop := forall key, key ∉ execution_logs -> d !! key = d' !! key.

Lemma same_state_refl d : same_state d d.
Proof. done. Qed.
Lemma same_state_trans d1 d2 d3 : same_state d1 d2 -> same_state d2 d3 -> same_state d1 d3.
Proof. intros H1 H2 key Hk. by rewrite H1, H2. Qed.
Lemma same_state_sym d1 d2 : same_state d1 d2 -> same_state d2 d1.
Proof. intros H key Hk. by rewrite H. Qed.

Lemma logs_state key d d' : key ∈ execution_logs -> same_files key d d' -> same_state d d'.
Proof. intros Hk Hs k Hn. apply Hs. by intros ->. Qed.

Lemma effect_log_state d d' : same_files effect_wal_key d d' -> same_state d d'.
Proof. apply logs_state. by left. Qed.
Lemma replay_log_state d d' : same_but_replay d d' -> same_state d d'.
Proof. apply logs_state. right. by left. Qed.

Lemma state_manifest d d' : same_state d d' -> same_manifest d d'.
Proof. intros H. apply H. by apply (bool_decide_unpack (replay_manifest_key ∉ execution_logs)). Qed.

(** The manifest and the log of the nonces, which the effect log is not part of. *)
Lemma effect_log_manifest d d' : same_files effect_wal_key d d' -> same_manifest d d' /\ d !! replay_wal_key = d' !! replay_wal_key.
Proof. intros H. split; by apply H. Qed.

Lemma replay_log_clean {codec : EffectCodec} d d' rs : same_but_replay d d' -> clean_log effect_wal_key d rs -> clean_log effect_wal_key d' rs.
Proof. intros H. unfold clean_log, log_bytes. by rewrite (H effect_wal_key). Qed.

(** ** The meaning of an effect that spares them *)

Definition write_file (write : EffectWrite) : option Key :=
  match effect_target_physical_reference (ew_target_kind write) (ew_reference write) with
  | Ok physical => target_key physical
  | Err _ => None
  end.

Definition spares_execution (effect : ToolEffectContractDocument) : Prop :=
  Forall (fun write => forall key, write_file write = Some key -> key ∉ execution_files) (te_write_set (ted_tool_effect_contract effect)).

Section applied.
Context {codec : EffectCodec} (payloads : list EffectApplicationPayload) (effect : ToolEffectContractDocument).
Hypothesis Hspare : spares_execution effect.

Lemma asked_file d write key content : asked payloads d write = Some (key, content) -> write_file write = Some key.
Proof. unfold asked, write_file. intros H. repeat case_match; by simplify_eq. Qed.

Lemma asked_spares d write key content : write ∈ te_write_set (ted_tool_effect_contract effect) ->
  asked payloads d write = Some (key, content) -> key ∉ execution_files.
Proof.
  intros Hin Ha. pose proof Hspare as Hs. unfold spares_execution in Hs. rewrite Forall_forall in Hs. eapply Hs; [done|]. by eapply asked_file.
Qed.

Lemma spares_effect_log d : spares_log effect_wal_key effect payloads d.
Proof. intros write content Hin Ha. eapply asked_spares; [done..|]. by apply (bool_decide_unpack (effect_wal_key ∈ execution_files)). Qed.

(** The files of the execution are left alone. *)
Lemma applied_spares d key : key ∈ execution_files -> effect_applied payloads d effect !! key = d !! key.
Proof.
  intros Hk. unfold effect_applied. destruct (put_changes (omap (asked payloads d) (te_write_set (ted_tool_effect_contract effect))) d key) as [[H _]|H]; [exact H|].
  apply list_elem_of_omap in H as (write & Hin & Ha). by destruct (asked_spares d write key _ Hin Ha).
Qed.

Lemma applied_state d d' : same_state d d' -> same_state (effect_applied payloads d effect) (effect_applied payloads d' effect).
Proof.
  intros Hs. unfold effect_applied. set (writes := te_write_set (ted_tool_effect_contract effect)).
  assert (omap (asked payloads d) writes = omap (asked payloads d') writes) as ->.
  { apply omap_ext_in. intros write Hi'.
    destruct (write_file write) as [key|] eqn:Ek.
    - assert (d !! key = d' !! key) as Hd; [|unfold asked, write_file in *; destruct (effect_target_physical_reference _ _); [|done]; rewrite Ek; by rewrite Hd].
      apply Hs. pose proof Hspare as Hsp. unfold spares_execution in Hsp. rewrite Forall_forall in Hsp. specialize (Hsp write Hi' key Ek). by intros Hin; apply Hsp; right.
    - unfold asked, write_file in *. by destruct (effect_target_physical_reference _ _); [rewrite Ek|]. }
  generalize (omap (asked payloads d') writes). intros changes. revert d d' Hs. induction changes as [|[key content] changes IH]; intros d d' Hs; simpl; [done|].
  apply IH. intros k Hk. destruct (decide (key = k)) as [<-|Hne]; [by rewrite !put_file_eq|]. rewrite !put_file_ne by done. by apply Hs.
Qed.

End applied.

(** ** The states *)

(** What an execution has settled when its effect begins. *)
Record Run := {
  rn_key : string;
  rn_good : bytes;
  rn_records : list ReplayWalRecord;
  rn_vec : bytes;
  rn_provenance : EffectExecutionProvenance;
  rn_disk : Disk
}.

Section run.
Context {codec : EffectCodec} {laws : EffectCodecLaws codec} {replay_codec : ReplayCodec} {replay_laws : ReplayCodecLaws replay_codec}.
Context {manifest : ManifestCodec} {kernel : KernelCodec}.
Context (environment : TrustedExecutionEnvironment) (effect : ToolEffectContractDocument) (payloads : list EffectApplicationPayload) (tx : string).
Context (principal_id : PrincipalId) (audience nonce intent commit : string).
Context (rs0 : list ReplayWalRecord) (m : gmap string ReplayReservation) (d0 : Disk) (W : list EffectWalRecord).

Notation wk := effect_wal_key.
Notation eid := (te_id (ted_tool_effect_contract effect)).
Notation maybe_reserved := (maybe_reserved principal_id audience nonce intent commit m).
Notation applied_disk := (effect_applied payloads d0 effect).

(** The nonce is at most reserved, the log has no commit to complete, and the files are as they were. *)
Definition unapplied (d : Disk) : Prop :=
  exists L, clean_log wk d L /\ settled_log L /\ nothing_open L /\ same_state d0 d /\ maybe_reserved d.

Definition run_reservation (rn : Run) : ReplayReservation := fresh_reservation intent commit rs0 (rn_key rn).
Definition run_binding (rn : Run) : EffectReplayCommitBinding := replay_binding_of (run_reservation rn).
Definition run_begin (rn : Run) : EffectWalRecord := begin_with_authority tx eid (rn_provenance rn) (run_binding rn).
Definition run_guarded (rn : Run) : Disk -> Prop := guarded (rn_key rn) intent commit (rn_good rn) (rn_records rn) (rn_vec rn).
Definition run_spent (rn : Run) : Disk -> Prop := spent (rn_key rn) intent commit (rn_good rn) (rn_records rn) (rn_vec rn).

Record staged (rn : Run) : Prop := {
  sg_key : replay_nonce_key_hash principal_id audience nonce = Ok (rn_key rn);
  sg_new : m !! rn_key rn = None;
  sg_reserves : reserves (rn_key rn) intent commit (rn_good rn) (rn_records rn) (<[rn_key rn := run_reservation rn]> m) (run_reservation rn) (rn_vec rn);
  sg_manifest : rst_manifest (replay_store (rn_disk rn)) = Some (Some expected_manifest);
  sg_wal : rn_disk rn !! replay_wal_key = Some (rn_good rn);
  sg_state : same_state d0 (rn_disk rn);
  sg_log : clean_log wk (rn_disk rn) W;
  sg_verify : verify_provenance (rn_provenance rn) = true;
  sg_binding : validate_effect_replay_binding (run_binding rn) = Ok tt;
  sg_internal : names_external_publication (run_begin rn) = false;
  sg_valid : validate_recovery_provenance tx eid (eep_document (rn_provenance rn)) (run_binding rn)
               (path_string (tee_project_root environment)) (tee_required_audience environment) = Ok tt
}.

(** Inside the application of the effect. *)
Definition applying (rn : Run) (d : Disk) : Prop :=
  Recoverable wk (InProgress wk (rn_disk rn) (effect_applied payloads (rn_disk rn) effect) tx W (run_begin rn) eid) d.

(** The records of the log from the commit on: completed only once the nonce is consumed. *)
Definition closing (rn : Run) (C : list EffectWalRecord) (d : Disk) (rs : list EffectWalRecord) : Prop :=
  rs = C \/ run_spent rn d /\ exists replay recovered completion,
    replay_completion_for tx (run_binding rn) replay recovered = Ok completion
    /\ rs = (C ++ [replay_consumed tx eid (run_binding rn) completion])%list.

Notation commits rn C := (committed_log W tx eid (rn_provenance rn) (run_binding rn) C /\ settled_log C).

(** The effect is applied and committed. *)
Definition applied (rn : Run) (d : Disk) : Prop :=
  exists C, commits rn C /\ Recoverable wk (closing rn C) d /\ same_state applied_disk d /\ (run_guarded rn d \/ run_spent rn d).

(** And nothing is left to do. *)
Definition completed (rn : Run) (d : Disk) : Prop :=
  run_spent rn d /\ same_state applied_disk d /\ exists rs, clean_log wk d rs /\ settled_log rs /\ project_pending_effect_replay_commits rs = Ok [].

Definition crashed (d : Disk) : Prop := unapplied d \/ exists rn, staged rn /\ (applying rn d \/ applied rn d).

Hypothesis HW : settled_log W.
Hypothesis Hpending : project_pending_effect_replay_commits W = Ok [].
Hypothesis Hfresh : forall record, record ∈ W -> ewr_tx_id record ≠ tx.
Hypothesis Hspare : spares_execution effect.
Hypothesis Htx : str_is_empty (trim tx) = false.

(** ** Frames *)

Lemma maybe_reserved_files d d' : same_manifest d d' -> d !! replay_wal_key = d' !! replay_wal_key -> maybe_reserved d -> maybe_reserved d'.
Proof.
  intros Hm Hw. assert (forall s, replay_holds d s -> replay_holds d' s) as H.
  { intros s (good & rs & m' & Hr & Hs). exists good, rs, m'. split; [|exact Hs]. by eapply ready_files. }
  intros [Hn|(key & Hk & Hnew & Hr)]; [left; by apply H|right; exists key; split_and!; [exact Hk|exact Hnew|by apply H]].
Qed.

Lemma run_files rn d d' : same_manifest d d' -> d !! replay_wal_key = d' !! replay_wal_key ->
  (run_guarded rn d -> run_guarded rn d') /\ (run_spent rn d -> run_spent rn d').
Proof.
  intros Hm Hw. unfold run_guarded, run_spent, guarded, spent, replay_store, same_manifest in *. cbn [rst_manifest]. by rewrite Hm, Hw.
Qed.

Lemma run_same rn d d' : same_files wk d d' -> (run_guarded rn d -> run_guarded rn d') /\ (run_spent rn d -> run_spent rn d').
Proof. intros [Hm Hw]%effect_log_manifest. by apply run_files. Qed.

Lemma closing_files rn C d d' rs : same_files wk d d' -> closing rn C d rs -> closing rn C d' rs.
Proof. intros Hs [->|[Hsp H]]; [by left|right]. split; [|exact H]. by apply (run_same rn d d'). Qed.

Lemma closing_settled rn C d rs : settled_log C -> closing rn C d rs -> settled_log rs.
Proof. intros HC [->|(_ & replay & recovered & completion & _ & ->)]; [exact HC|by apply settled_completed]. Qed.

Lemma unapplied_files d d' L : same_files wk d d' -> clean_log wk d' L -> settled_log L -> nothing_open L ->
  same_state d0 d -> maybe_reserved d -> unapplied d'.
Proof.
  intros Hs Hc Hl Hn Hst Hr. exists L. split_and!; [exact Hc|exact Hl|exact Hn| |].
  - eapply same_state_trans; [exact Hst|by apply effect_log_state].
  - apply effect_log_manifest in Hs as [Hm Hw]. by eapply maybe_reserved_files.
Qed.

(** A log of just one list of records cannot be torn. *)
Lemma recoverable_only L d : Recoverable wk (fun _ rs => rs = L) d -> clean_log wk d L.
Proof.
  intros H. destruct (recoverable_cases wk _ d H) as [(rs & -> & Hc)|(rs & b & r & v & n & -> & Hl & _)]; [exact Hc|].
  apply (f_equal length) in Hl. rewrite length_app in Hl. simpl in Hl. lia.
Qed.

(** ** Reconciling *)

Lemma rest_unapplied_wp P recovered d : unapplied d -> wp P (reconcile_recovered environment recovered) (fun _ d' => unapplied d') unapplied d.
Proof.
  intros Hd. pose proof Hd as (L & Hc & _ & Hn & _). apply wp_bind.
  eapply wp_mono; [by apply (pending_wp _ _ effect_wal_path)| |by intros d' <-]. intros r d' (-> & Hps & _).
  destruct r as [ps|e]; [|by apply wp_ret]. rewrite (Hn ps) by (by apply Hps). by apply wp_bind, wp_ret, wp_ret.
Qed.

Lemma reconcile_unapplied_wp P d : unapplied d ->
  wp P (reconcile_prepared_execution_commits environment) (fun _ d' => unapplied d') unapplied d.
Proof.
  intros (L & Hc & Hl & Hn & Hst & Hr). apply wp_bind.
  eapply wp_mono; [apply (reconcile_settled_wp _ _ effect_wal_path (fun _ rs => rs = L)); [done|by intros ? ? ->|by eapply clean_recoverable]| |].
  2: { intros d' [Hs Hrec]. apply (unapplied_files d d' L Hs); [by apply recoverable_only|exact Hl|exact Hn|exact Hst|exact Hr]. }
  intros r d' (Hs & Hrec & _). assert (unapplied d') as Hd by (apply (unapplied_files d d' L Hs); [by apply recoverable_only|exact Hl|exact Hn|exact Hst|exact Hr]).
  destruct r as [recovery|e]; [|by apply wp_ret]. case_bool_decide; [by apply wp_ret|]. by apply rest_unapplied_wp.
Qed.

(** ** From the commit on *)

Lemma run_tokens rn : staged rn -> is_sha256_token (rn_key rn) = true /\ is_sha256_token intent = true /\ is_sha256_token commit = true.
Proof. intros Hst. apply (rs_tokens _ _ _ _ _ _ _ _ (sg_reserves rn Hst)). Qed.

(** Consuming the nonce, whether now or before, gives what the completion asks for. *)
Lemma consumption_completes rn appended recovered : staged rn ->
  is_ok (replay_completion_for tx (run_binding rn)
    (consumption (rn_key rn) intent commit (rn_records rn) (run_reservation rn) (rn_vec rn) appended) recovered) = true.
Proof.
  intros Hst. unfold replay_completion_for. rewrite Htx, (sg_binding rn Hst). simpl. by rewrite !bool_decide_eq_true_2 by done.
Qed.

Lemma clean_written C d : C ≠ [] -> clean_log wk d C -> d !! wk ≠ None.
Proof. intros Hne Hc Hd. apply Hne, encode_log_nil. unfold clean_log, log_bytes in Hc. by rewrite Hd in Hc. Qed.

Lemma applied_committed rn C d : commits rn C -> clean_log wk d C -> same_state applied_disk d -> run_guarded rn d \/ run_spent rn d -> applied rn d.
Proof. intros HC Hc Hs Hr. exists C. split_and!; [apply HC|apply HC| |exact Hs|exact Hr]. eapply clean_recoverable; [by left|exact Hc]. Qed.

(** The completion, from a consumed nonce. *)
Definition after_completion (P : Fault -> Prop) (rn : Run) (res : Result EffectReplayCompletionResult EffectReplayReconciliationError) (d : Disk) : Prop :=
  applied rn d /\ (is_ok res = true -> completed rn d) /\ (never_fails P -> is_ok res = true).

Lemma completion_applied_wp P rn C d appended recovered : staged rn -> commits rn C ->
  clean_log wk d C -> same_state applied_disk d -> run_spent rn d ->
  wp P (append_effect_replay_completion_under_lock PREPARED_EFFECT_WAL_RELATIVE_PATH tx eid (run_binding rn)
      (consumption (rn_key rn) intent commit (rn_records rn) (run_reservation rn) (rn_vec rn) appended) recovered)
    (after_completion P rn) (applied rn) d.
Proof.
  intros Hst [HC HCs] Hc Hs Hsp. set (replay := consumption _ _ _ _ _ _ _).
  destruct (committed_projected W tx eid _ _ Hpending Hfresh (sg_verify rn Hst) (sg_binding rn Hst) C HC) as (mp & Hmp & Hpend).
  assert (forall d', completion_torn wk d C tx eid (run_binding rn) replay recovered d' -> applied rn d') as Htorn.
  { intros d' [Hf Hcase]. destruct (run_same rn d d' Hf) as [_ Hsp']. exists C. split_and!; [exact HC|exact HCs| | |right; by apply Hsp'].
    - destruct Hcase as [->|(completion & Hcomp & rs & Hrs & H)]; [eapply clean_recoverable; [by left|exact Hc]|].
      assert (forall rs, completing C (replay_consumed tx eid (run_binding rn) completion) d' rs -> closing rn C d' rs) as Hcl.
      { intros rs' [->| ->]; [by left|right]. split; [by apply Hsp'|]. by exists replay, recovered, completion. }
      exists rs. split; [by apply Hcl|]. destruct H as [H|(b & r & v & n & ? & ? & ? & ? & H)]; [by left|right]. exists b, r, v, n. split_and!; [done..|by apply Hcl].
    - eapply same_state_trans; [exact Hs|by apply effect_log_state]. }
  eapply wp_mono; [by apply (completion_wp _ _ effect_wal_path P d C tx eid (run_binding rn) replay recovered mp)| |exact Htorn].
  intros res d' (Hf & Hok & Hno & Herr). destruct (run_same rn d d' Hf) as [_ Hsp'].
  assert (same_state applied_disk d') as Hs' by (eapply same_state_trans; [exact Hs|by apply effect_log_state]).
  destruct res as [r|e].
  - destruct (Hok r eq_refl) as (_ & Hcomp & Hl). assert (closing rn C d' (C ++ [replay_consumed tx eid (run_binding rn) (ecr_completion r)])%list) as Hcl.
    { right. split; [by apply Hsp'|]. by exists replay, recovered, (ecr_completion r). }
    split_and!; [|intros _|done].
    + exists C. split_and!; [exact HC|exact HCs|by eapply clean_recoverable|exact Hs'|right; by apply Hsp'].
    + split_and!; [by apply Hsp'|exact Hs'|]. eexists. split_and!; [exact Hl|by apply settled_completed|].
      eapply (completed_projected W tx eid); [exact Hpending|exact Hfresh|apply (sg_verify rn Hst)|apply (sg_binding rn Hst)|exact HC|exact Hcomp].
  - split_and!; [by apply Htorn, Herr|done|]. intros Hnf. destruct (Hno Hnf eq_refl) as [Hn|[Hn|Hn]]; exfalso.
    + pose proof (consumption_completes rn appended recovered Hst) as Hcomp. fold replay in Hcomp. congruence.
    + revert Hn. eapply clean_written; [|exact Hc]. destruct HC as (middle & -> & _). by destruct W.
    + rewrite Hpend in Hn. simpl in Hn. unfold is_exact_commit in Hn. simpl in Hn. by rewrite !bool_decide_eq_true_2 in Hn by done.
Qed.

Lemma pending_applied_wp P rn C d : staged rn -> commits rn C ->
  clean_log wk d C -> same_state applied_disk d -> run_guarded rn d \/ run_spent rn d ->
  wp P (reconcile_pending environment [committed_as tx eid (rn_provenance rn) (run_binding rn)])
    (fun r d' => applied rn d' /\ (is_ok r = true -> completed rn d') /\ (never_fails P -> is_ok r = true)) (applied rn) d.
Proof.
  intros Hst HC Hc Hs Hr. cbn [reconcile_pending committed_as per_tx_id per_effect_id per_provenance per_replay_binding].
  rewrite (sg_valid rn Hst). apply wp_bind.
  assert (forall d', same_but_replay d d' -> run_guarded rn d' \/ run_spent rn d' -> applied rn d') as Hsame.
  { intros d' Hf Hr'. apply (applied_committed rn C); [exact HC|by eapply replay_log_clean| |exact Hr'].
    eapply same_state_trans; [exact Hs|by apply replay_log_state]. }
  eapply wp_mono; [apply (consume_key_wp (rn_key rn) intent commit (rn_good rn) (rn_records rn) _ (run_reservation rn) (rn_vec rn) (sg_reserves rn Hst) P d Hr)| |
    by intros d' [Hr' Hf]; apply Hsame].
  intros r d' (Hend & Hf & Hok). destruct r as [replay|e].
  - destruct Hend as [Hsp [appended ->]]. apply wp_bind.
    eapply wp_mono; [apply (completion_applied_wp P rn C d' appended true Hst HC)| |done].
    + by eapply replay_log_clean.
    + eapply same_state_trans; [exact Hs|by apply replay_log_state].
    + exact Hsp.
    + intros res d2 (Ha & Hcomp & Hnf). destruct res as [completion|e]; [by apply wp_bind, wp_ret, wp_ret|].
      apply wp_ret. split_and!; [exact Ha|done|exact Hnf].
  - apply wp_ret. split_and!; [by apply Hsame|done|exact Hok].
Qed.

Definition reconciled_applied (P : Fault -> Prop) (rn : Run)
    (r : Result ExecutionReplayReconciliationResult ExecutionReplayReconciliationError) (d : Disk) : Prop :=
  applied rn d /\ (never_fails P -> is_ok r = true /\ completed rn d).

Lemma rest_committed_wp P rn C d recovered : staged rn -> commits rn C ->
  clean_log wk d C -> same_state applied_disk d -> run_guarded rn d \/ run_spent rn d ->
  wp P (reconcile_recovered environment recovered) (reconciled_applied P rn) (applied rn) d.
Proof.
  intros Hst HC Hc Hs Hr. pose proof (applied_committed rn C d HC Hc Hs Hr) as Ha.
  destruct (committed_projected W tx eid _ _ Hpending Hfresh (sg_verify rn Hst) (sg_binding rn Hst) C (proj1 HC)) as (mp & Hmp & Hpend).
  assert (project_pending_effect_replay_commits C = Ok [committed_as tx eid (rn_provenance rn) (run_binding rn)]) as Hproj
    by (unfold project_pending_effect_replay_commits; by rewrite Hmp, Hpend).
  apply wp_bind. eapply wp_mono; [by apply (pending_wp _ _ effect_wal_path)| |by intros d' <-]. intros r d' (-> & Hps & Hnf).
  destruct r as [ps|e]; [|apply wp_ret; split; [exact Ha|intros Hn; specialize (Hnf Hn); congruence]].
  assert (ps = [committed_as tx eid (rn_provenance rn) (run_binding rn)]) as -> by (specialize (Hps ps eq_refl); congruence).
  apply wp_bind. eapply wp_mono; [by apply (pending_applied_wp P rn C d)| |done]. intros res d' (Ha' & Hcomp & Hok).
  apply wp_ret. split; [exact Ha'|]. intros Hn. specialize (Hok Hn). destruct res; [split; [done|by apply Hcomp]|done].
Qed.

Lemma rest_completed_wp P rn d recovered : staged rn -> applied rn d -> completed rn d ->
  wp P (reconcile_recovered environment recovered) (reconciled_applied P rn) (applied rn) d.
Proof.
  intros Hst Ha Hcomp. pose proof Hcomp as (_ & _ & rs & Hc & _ & Hp). apply wp_bind.
  eapply wp_mono; [by apply (pending_wp _ _ effect_wal_path)| |by intros d' <-]. intros r d' (-> & Hps & Hnf).
  destruct r as [ps|e]; [|apply wp_ret; split; [exact Ha|intros Hn; specialize (Hnf Hn); congruence]].
  assert (ps = []) as -> by (specialize (Hps ps eq_refl); congruence).
  by apply wp_bind, wp_ret, wp_ret.
Qed.

Lemma reconcile_applied_wp P rn d : staged rn -> applied rn d ->
  wp P (reconcile_prepared_execution_commits environment) (reconciled_applied P rn) (applied rn) d.
Proof.
  intros Hst (C & HC & Hrec & Hs & Hr).
  assert (forall d', same_files wk d d' -> Recoverable wk (closing rn C) d' -> applied rn d') as Hkeep.
  { intros d' Hf Hrec'. destruct (run_same rn d d' Hf) as [Hg Hsp]. exists C. split_and!; [apply HC|apply HC|exact Hrec'| |destruct Hr; auto].
    eapply same_state_trans; [exact Hs|by apply effect_log_state]. }
  apply wp_bind. eapply wp_mono; [apply (reconcile_settled_wp _ _ effect_wal_path (closing rn C)); [exact (closing_files rn C)|exact (fun d rs => closing_settled rn C d rs (proj2 HC))|exact Hrec]| |
    by intros d' [Hf Hrec']; apply Hkeep].
  intros r d' (Hf & Hrec' & Hok & Hnf). pose proof (Hkeep d' Hf Hrec') as Ha.
  destruct r as [recovery|e]; [|apply wp_ret; split; [exact Ha|by intros Hn; destruct (Hnf Hn) as (? & ? & _)]].
  case_bool_decide as Hfail; [apply wp_ret; split; [exact Ha|intros Hn; destruct (Hnf Hn) as (? & [= <-] & ?); done]|].
  destruct (Hok recovery eq_refl) as (rs & [->|(Hsp & replay & recovered & completion & Hcomp & ->)] & Hc).
  - apply (rest_committed_wp P rn C); [exact Hst|exact HC|exact Hc| |].
    + eapply same_state_trans; [exact Hs|by apply effect_log_state].
    + destruct (run_same rn d d' Hf) as [Hg Hsp]. destruct Hr; auto.
  - apply rest_completed_wp; [exact Hst|exact Ha|]. split_and!; [exact Hsp| |].
    + eapply same_state_trans; [exact Hs|by apply effect_log_state].
    + eexists. split_and!; [exact Hc|by apply settled_completed, HC|].
      eapply (completed_projected W tx eid); [exact Hpending|exact Hfresh|apply (sg_verify rn Hst)|apply (sg_binding rn Hst)|apply HC|exact Hcomp].
Qed.

(** ** Inside the application *)

Lemma run_nonces rn : nonces (<[rn_key rn := run_reservation rn]> m) = <[rn_key rn := reserved intent commit]> (nonces m).
Proof. unfold nonces. by rewrite fmap_insert. Qed.

Lemma guarded_maybe rn d : staged rn -> run_guarded rn d -> maybe_reserved d.
Proof.
  intros Hst Hg. right. exists (rn_key rn). split_and!; [apply Hst|unfold nonces; by rewrite lookup_fmap, (sg_new rn Hst)|].
  rewrite <- run_nonces. by eapply guarded_holds; [apply (sg_reserves rn Hst)|].
Qed.

Lemma staged_guarded rn d : staged rn -> same_manifest (rn_disk rn) d -> rn_disk rn !! replay_wal_key = d !! replay_wal_key -> run_guarded rn d.
Proof.
  intros Hst Hm Hw. unfold run_guarded, guarded. split.
  - pose proof (sg_manifest rn Hst) as H. unfold replay_store, same_manifest in *. cbn [rst_manifest] in *. by rewrite <- Hm.
  - exists 0. split; [rewrite length_replay_rec; unfold HEADER_LEN; lia|]. by rewrite take_0, app_nil_r, <- Hw, (sg_wal rn Hst).
Qed.

Lemma applying_done rn d : staged rn ->
  Done wk (rn_disk rn) (effect_applied payloads (rn_disk rn) effect) tx W (run_begin rn) eid d ->
  unapplied d \/ exists C, commits rn C /\ clean_log wk d C /\ same_state applied_disk d /\ run_guarded rn d.
Proof.
  intros Hst (records & Hc & Hset & Ho & Hsh & _ & [[Hcm Hf]|[Hcm Hf]]); [right|left].
  - apply (committed_own wk (rn_disk rn) tx W Hfresh _ Ho) in Hcm as (c & Hin & Hcs).
    destruct (shaped_committed tx (run_begin rn) eid records c eq_refl Hsh Hin Hcs) as (middle & -> & Hq).
    exists (W ++ (run_begin rn :: middle) ++ [record_stage tx eid EffectWalStage_Commit])%list. split_and!; [by exists middle|exact Hset|exact Hc| |].
    + eapply same_state_trans; [apply (applied_state payloads effect Hspare), (sg_state rn Hst)|by apply effect_log_state].
    + destruct (effect_log_manifest _ _ Hf) as [Hm Hw]. unfold same_manifest in Hm.
      rewrite (applied_spares payloads effect Hspare) in Hm, Hw by (by apply (bool_decide_unpack (_ ∈ execution_files))).
      by apply staged_guarded.
  - apply (unapplied_files (rn_disk rn) d (W ++ records)%list Hf Hc Hset).
    + apply (uncommitted_nothing_open W records tx Hpending); [|exact Hcm]. intros r Hr. rewrite Forall_forall in Ho. by apply Ho.
    + apply (sg_state rn Hst).
    + apply (guarded_maybe rn); [exact Hst|by apply staged_guarded].
Qed.

(** Where a run can be found after a crash of its own or of a reconciliation. *)
Definition run_crashed (rn : Run) (d : Disk) : Prop := unapplied d \/ applying rn d \/ applied rn d.

Definition reconciled_run (P : Fault -> Prop) (rn : Run)
    (r : Result ExecutionReplayReconciliationResult ExecutionReplayReconciliationError) (d : Disk) : Prop :=
  run_crashed rn d /\ (never_fails P -> unapplied d \/ is_ok r = true /\ completed rn d).

Lemma reconcile_applying_wp P rn d : staged rn -> applying rn d ->
  wp P (reconcile_prepared_execution_commits environment) (reconciled_run P rn) (run_crashed rn) d.
Proof.
  intros Hst Hd. apply wp_bind.
  eapply wp_mono; [apply (reconcile_effects_wp _ wk effect_wal_path (rn_disk rn) (effect_applied payloads (rn_disk rn) effect) tx W HW Hfresh (run_begin rn) eid eq_refl P d Hd)| |
    by right; left].
  intros r d' (Hrec & Hpost & Hnf). assert (run_crashed rn d') as Hcr by (by right; left).
  destruct r as [recovery|e]; [|apply wp_ret; split; [exact Hcr|intros Hn; by specialize (Hnf Hn)]].
  destruct (Hpost recovery eq_refl) as (_ & Hdone & Hst').
  case_bool_decide as Hfail; [apply wp_ret; split; [exact Hcr|intros Hn; by destruct (Hst' Hn)]|].
  destruct (applying_done rn d' Hst (Hdone Hfail)) as [Hu|(C & HC & Hc & Hs & Hg)].
  - eapply wp_mono; [by apply rest_unapplied_wp|intros r d2 Hu'|intros d2 Hu'; by left]. split; [by left|intros _; by left].
  - eapply wp_mono; [apply (rest_committed_wp P rn C d' _ Hst HC Hc Hs); by left|intros r d2 [Ha Hn]|intros d2 Ha; by right; right].
    split; [by right; right|]. intros Hnf'. right. by apply Hn.
Qed.

Lemma reconcile_run_wp P rn d : staged rn -> run_crashed rn d ->
  wp P (reconcile_prepared_execution_commits environment) (reconciled_run P rn) (run_crashed rn) d.
Proof.
  intros Hst [Hu|[Hd|Ha]].
  - eapply wp_mono; [by apply reconcile_unapplied_wp|intros r d2 Hu'|intros d2 Hu'; by left]. split; [by left|intros _; by left].
  - by apply reconcile_applying_wp.
  - eapply wp_mono; [by apply (reconcile_applied_wp P rn)|intros r d2 [Ha' Hn]|intros d2 Ha'; by right; right].
    split; [by right; right|]. intros Hnf'. right. by apply Hn.
Qed.

End run.
