(* ===== verification/ExecutionRun.v ===== *)
(** * Where an execution ends

    [execute_without_anchor] run step by step against the states of [ExecutionCrash], for operations that do
    not fail in a process that may die: what it answers says which state it ends in, and dying leaves one of
    them.  Then the claims: an execution takes effect entirely or not at all, once, whatever the process dies
    in; a nonce that was used never executes again; and what is committed was authorized. *)

From S2P Require Import Prelude RustStr BTree Contracts OperationContracts AssuranceContracts WalFrame ReplayWal ReplayCommands ReplayLog ReplaySafety ExecutionAdmission AdmissionSpec Diagnostics StatePaths EffectTypes CrashIo EffectStore EffectLog EffectCrash EffectRecovery EffectPlan EffectAtomic EffectSafety EffectPreflight EffectReplay EffectPending ExecutionAuthority PrincipalRegistry OperationBundle ReplayDisk PreparedPlan PreparedExecution ExecutionCrash.

Local Open Scope string_scope.

(** ** Steps that write nothing, or a trace *)

Lemma readonly_preflight {codec : EffectCodec} P root effect payloads : readonly P (preflight_file_effect_transaction_under_lock root effect payloads).
Proof.
  apply observes_readonly. unfold preflight_file_effect_transaction_under_lock.
  eapply (observes_bind_pure _ _ (fun _ => True)); [eapply observes_mono; [apply observes_reads_all|done]|]. intros read_reasons _.
  eapply (observes_bind_pure _ _ (fun _ => True)); [eapply observes_mono; [apply observes_prepare_all|done]|]. intros [reasons prepared] _.
  destruct (negb (is_nil reasons)); [by apply observes_ret|]. destruct prepared as [writes|]; [|by apply observes_ret].
  eapply (observes_bind_pure _ _ (fun _ => True)); [|intros [? ?] _; by apply observes_ret].
  eapply observes_bind; [apply (observes_map _ _ _ (observes_revalidate root))|]. intros results. by apply observes_ret.
Qed.

Lemma clean_log_unique {codec : EffectCodec} {laws : EffectCodecLaws codec} wk d rs rs' : clean_log wk d rs -> clean_log wk d rs' -> rs = rs'.
Proof. unfold clean_log. intros H%parse_recovery_ok H'%parse_recovery_ok. congruence. Qed.

Lemma trace_wp {kernel : KernelCodec} P root event d :
  wp P (append_trace_event_under_boundary root event) (fun _ d' => same_files trace_log_key d d') (same_files trace_log_key d) d.
Proof.
  unfold append_trace_event_under_boundary. destruct (resolve_safe_repo_relative _ _); [|by apply wp_ret].
  assert (normalized_effect_relative_path DEFAULT_TRACE_LOG_RELATIVE_PATH = Some ["traces"; "events.ndjson"]) as -> by (by vm_compute).
  fold trace_log_key. destruct (trace_to_vec event) as [line|]; [|by apply wp_ret]. apply wp_bind.
  assert (forall b, same_files trace_log_key d (append_to trace_log_key b d)) as Happ by (intros b k Hk; unfold append_to; by rewrite lookup_insert_ne).
  apply wp_operation; [intros a d' [= <- <-]; by apply wp_ret|intros p _; apply wp_ret|intros p _]; destruct p; simpl; (done || apply Happ).
Qed.

Section run.
Context {codec : EffectCodec} {laws : EffectCodecLaws codec} {replay_codec : ReplayCodec} {replay_laws : ReplayCodecLaws replay_codec}.
Context {manifest : ManifestCodec} {kernel : KernelCodec} {digests : AdmissionDigests} {lower : ToLowercase}.
Context {kernel_laws : KernelCodecLaws kernel} {tokens : TokenLaws digests}.
Context (material : PreparedExecutionMaterial) (environment : TrustedExecutionEnvironment) (plan : ExecutionPlan).
Context (good0 : bytes) (rs0 : list ReplayWalRecord) (m : gmap string ReplayReservation) (d0 : Disk) (W : list EffectWalRecord).

Notation wk := effect_wal_key.
Notation effect := (xpl_transaction_effect plan).
Notation payloads := (xpl_store_payloads plan).
Notation eid := (te_id (ted_tool_effect_contract effect)).
Notation tx := (pcd_tx_id (xpl_descriptor plan)).
Notation authorization := (vec_authorization (pem_call material)).
Notation principal_id := (ap_principal_id (vea_principal authorization)).
Notation audience := (ap_audience (vea_principal authorization)).
Notation nonce := (vea_nonce authorization).
Notation intent := (xpl_intent_digest plan).
Notation commit_digest := (xpl_commit_digest plan).
Notation unapplied := (unapplied principal_id audience nonce intent commit_digest m d0).
Notation staged := (staged environment effect tx principal_id audience nonce intent commit_digest rs0 m d0 W).
Notation applying := (applying effect payloads tx intent commit_digest rs0 W).
Notation applied := (applied effect payloads tx intent commit_digest rs0 d0 W).
Notation completed := (completed effect payloads intent commit_digest d0).
Notation crashed := (crashed environment effect payloads tx principal_id audience nonce intent commit_digest rs0 m d0 W).
Notation fresh := (fresh_reservation intent commit_digest rs0).

Hypothesis Hplan : plan_execution material environment = Ok plan.
Hypothesis HW : settled_log W.
Hypothesis Hpending : project_pending_effect_replay_commits W = Ok [].
Hypothesis Hfresh : forall record, record ∈ W -> ewr_tx_id record ≠ tx.
Hypothesis Hspare : spares_execution effect.
Hypothesis Hnamed : named_effects (xpl_effect_refs plan) (pem_effects material).
Hypothesis Hlog : clean_log wk d0 W.
Hypothesis Hready : replay_ready d0 good0 rs0 m.

(** The nonce is reserved and its consumption prepared; nothing else has changed. *)
Record prepared_on (key : string) (good : bytes) (rs : list ReplayWalRecord) (v : bytes) (d : Disk) : Prop := {
  po_reserved : reserved_on principal_id audience nonce intent commit_digest rs0 m d key good rs;
  po_reserves : reserves key intent commit_digest good rs (<[key := fresh key]> m) (fresh key) v;
  po_state : same_state d0 d;
  po_log : clean_log wk d W
}.

Definition guard_of (key : string) (rs : list ReplayWalRecord) (v : bytes) : ReplayGuardState :=
  guard_state key intent commit_digest rs (fresh key) v.

Lemma nothing_open_before : nothing_open W.
Proof. intros ps Hp. congruence. Qed.

Lemma unapplied_before d : same_state d0 d -> clean_log wk d W -> maybe_reserved principal_id audience nonce intent commit_digest m d -> unapplied d.
Proof. intros Hs Hc Hr. exists W. split_and!; [exact Hc|exact HW|exact nothing_open_before|exact Hs|exact Hr]. Qed.

Lemma unapplied_start : unapplied d0.
Proof. apply unapplied_before; [done|exact Hlog|]. left. by exists good0, rs0, m. Qed.

Lemma unapplied_replay d : same_but_replay d0 d -> maybe_reserved principal_id audience nonce intent commit_digest m d -> unapplied d.
Proof. intros Hf. apply unapplied_before; [by apply replay_log_state|by eapply replay_log_clean]. Qed.

Lemma prepared_unapplied key good rs v d : prepared_on key good rs v d -> unapplied d.
Proof. intros Hp. apply unapplied_before; [apply Hp|apply Hp|]. eapply reserved_on_maybe, Hp. Qed.

(** ** Preparing *)

Definition prepared_end (r : Result PreparedExecutionTransaction PrepareExecutionError) (d : Disk) : Prop :=
  match r with
  | Err _ => unapplied d
  | Ok prepared => exists preflight key good rs v,
      prepared = prepared_with material environment plan preflight (guard_of key rs v) /\ prepared_on key good rs v d
  end.

Lemma prepare_wp P : wp P (prepare_execution_transaction material environment) prepared_end unapplied d0.
Proof.
  unfold prepare_execution_transaction. rewrite Hplan. pose proof unapplied_start as Hstart.
  apply wp_bind. eapply wp_mono; [by apply readonly_preflight| |done]. intros preflight d ->.
  case_bool_decide; [cbn [negb]|by apply wp_ret].
  apply wp_bind. eapply wp_mono; [by apply (reserve_wp principal_id audience nonce intent commit_digest good0 rs0 m)| |].
  2: { intros d' [Hr Hf]. by apply unapplied_replay. }
  intros r d [Hend Hf]. destruct r as [reservation|e]; [|by apply wp_ret, unapplied_replay].
  destruct Hend as (key & good & rs & Hon & ->). change (rv_revision (fresh key)) with 1%Z.
  assert (unapplied d) as Hd by (eapply unapplied_replay, reserved_on_maybe; done).
  apply wp_bind. eapply wp_mono; [by apply (guard_wp principal_id audience nonce intent commit_digest rs0 m)| |by intros d' <-].
  intros r d' [-> Hg]. apply wp_ret. destruct r as [guard|e]; [|done].
  destruct (Hg guard eq_refl) as (v & Hres & ->). exists preflight, key, good, rs, v. split; [done|].
  split; [exact Hon|exact Hres|by apply replay_log_state|by eapply replay_log_clean].
Qed.

Lemma late_wp P prepared source d C : C d ->
  wp P (evaluate_late prepared source)
    (fun r d' => d' = d /\ forall admitted, r = Ok (LateOutcome_Admitted admitted) -> lat_prepared admitted = prepared) C d.
Proof.
  intros Hd. apply wp_bind. eapply wp_mono; [by apply (readonly_preflight P _ _ _ C)| |done]. intros preflight d' ->. apply wp_ret.
  split; [done|]. intros admitted. destruct (negb _); [done|]. destruct source as [snapshot|]; [|done]. cbn [map_err result_bind].
  destruct (evaluate_execution_admission _) as [decision|]; [|done]. cbn [map_err result_bind]. case_bool_decide; [|done]. by intros [= <-].
Qed.

(** ** Committing *)

(** The state an answer of an execution stands for. *)
Definition ended (status : ExecutionStatus) (d : Disk) : Prop :=
  match status with
  | ExecutionStatus_Blocked => unapplied d
  | ExecutionStatus_RecoveryRequired => exists rn, staged rn /\ applied rn d
  | ExecutionStatus_Applied => exists rn, staged rn /\ applied rn d /\ completed rn d
  end.

Lemma prepared_traced key good rs v d d' : same_files trace_log_key d d' -> prepared_on key good rs v d -> prepared_on key good rs v d'.
Proof.
  intros Hs [[Hk Hn Ht Hm Hw Hl] Hres Hst Hc]. pose proof (logs_state trace_log_key d d') as Hstate.
  split; [split; [exact Hk|exact Hn|exact Ht| |by rewrite <- (Hs replay_wal_key)|exact Hl]|exact Hres| |].
  - unfold replay_store in *. cbn [rst_manifest] in *. by rewrite <- (Hs replay_manifest_key).
  - eapply same_state_trans; [exact Hst|]. apply Hstate; [|exact Hs]. by apply (bool_decide_unpack (trace_log_key ∈ execution_logs)).
  - unfold clean_log, log_bytes in *. by rewrite <- (Hs wk).
Qed.

Section commit.
Context (prepared : PreparedExecutionTransaction) (admitted : LateAdmittedExecutionTransaction) (provenance : EffectExecutionProvenance).
Context (key : string) (good : bytes) (rs : list ReplayWalRecord) (v : bytes) (d : Disk) (preflight : EffectPreflightResult).
Hypothesis Hlate : lat_prepared admitted = prepared.
Hypothesis Hprep : prepared = prepared_with material environment plan preflight (guard_of key rs v).
Hypothesis Hon : prepared_on key good rs v d.
Hypothesis Hverify : verify_provenance provenance = true.
Hypothesis Hscope : json_get "publication_scope" (eep_document provenance) = None.
Hypothesis Hvalid : validate_recovery_provenance tx eid (eep_document provenance) (replay_binding_of (fresh key))
  (path_string (tee_project_root environment)) (tee_required_audience environment) = Ok tt.

Definition commit_run : Run := {| rn_key := key; rn_good := good; rn_records := rs; rn_vec := v; rn_provenance := provenance; rn_disk := d |}.

Lemma commit_staged : validate_effect_replay_binding (replay_binding_of (fresh key)) = Ok tt -> staged commit_run.
Proof.
  intros Hb. pose proof (po_reserved _ _ _ _ _ Hon) as Hro. split; try done; try apply Hro; try apply Hon.
  unfold names_external_publication. simpl. by rewrite Hscope.
Qed.

Lemma not_applied_unapplied res d' : staged commit_run ->
  crash_end wk effect payloads tx d W (run_begin effect tx intent commit_digest rs0 commit_run) res d' ->
  ear_status res ≠ EffectApplicationStatus_Applied -> unapplied d'.
Proof.
  intros Hst (Hdone & (rs' & Hc & _ & Hcm & _) & _) Hna.
  destruct (applying_done environment effect payloads tx principal_id audience nonce intent commit_digest rs0 m d0 W Hpending Hfresh Hspare
    commit_run d' Hst Hdone) as [|(C & [HC _] & Hc' & _)]; [done|]. exfalso. apply Hna, Hcm.
  rewrite (clean_log_unique _ _ _ _ Hc Hc'). destruct HC as (middle & -> & _). exists (record_stage tx eid EffectWalStage_Commit). split_and!; [|done|done].
  rewrite !elem_of_app. right; right. by apply list_elem_of_singleton.
Qed.

(** Once the effect is applied. *)
Lemma applied_end res d' : staged commit_run ->
  crash_end wk effect payloads tx d W (run_begin effect tx intent commit_digest rs0 commit_run) res d' ->
  ear_status res = EffectApplicationStatus_Applied ->
  exists C, (committed_log W tx eid provenance (run_binding intent commit_digest rs0 commit_run) C /\ settled_log C) /\ clean_log wk d' C
    /\ same_state (effect_applied payloads d0 effect) d'
    /\ rst_manifest (replay_store d') = Some (Some expected_manifest) /\ d' !! replay_wal_key = Some good.
Proof.
  intros Hst (_ & (rs' & Hc & Hs & _ & Hshape) & Hf) Ha. rewrite bool_decide_eq_true_2 in Hf by done.
  destruct (Hshape Ha) as (middle & Hl & Hq). exists rs'. split_and!; [by exists middle|exact Hs|exact Hc| | |].
  - eapply same_state_trans; [apply (applied_state payloads effect Hspare), (sg_state _ _ _ _ _ _ _ _ _ _ _ _ _ Hst)|by apply effect_log_state].
  - pose proof (sg_manifest _ _ _ _ _ _ _ _ _ _ _ _ _ Hst) as Hm. unfold replay_store in *. cbn [rst_manifest] in *.
    rewrite <- (Hf replay_manifest_key), (applied_spares payloads effect Hspare) by (done || by apply (bool_decide_unpack (_ ∈ execution_files))). done.
  - rewrite <- (Hf replay_wal_key), (applied_spares payloads effect Hspare) by (done || by apply (bool_decide_unpack (_ ∈ execution_files))).
    apply (sg_wal _ _ _ _ _ _ _ _ _ _ _ _ _ Hst).
Qed.

(** The nonce is consumed and the commit completed, once the effect is applied. *)
Lemma commit_tail_wp {A} P C d' (unconsumed : A) (finished : ReplayConsumeResult -> EffectReplayCompletionResult -> A) (consumed_only : ReplayConsumeResult -> A) :
  staged commit_run ->
  committed_log W tx eid provenance (run_binding intent commit_digest rs0 commit_run) C /\ settled_log C -> clean_log wk d' C ->
  same_state (effect_applied payloads d0 effect) d' ->
  rst_manifest (replay_store d') = Some (Some expected_manifest) -> d' !! replay_wal_key = Some good ->
  wp P (let! consumed := replay_call (fun st io => guard_consume st (guard_of key rs v) io) in
        match consumed with
        | Err _ => io_ret unconsumed
        | Ok replay =>
            let! completion := append_effect_replay_completion_under_lock PREPARED_EFFECT_WAL_RELATIVE_PATH tx eid
              (replay_binding_of (fresh key)) replay false in
            io_ret (match completion with Ok completion => finished replay completion | Err _ => consumed_only replay end)
        end)
    (fun out d2 => applied commit_run d2
       /\ ((exists replay completion, out = finished replay completion) /\ completed commit_run d2
           \/ out = unconsumed \/ exists replay, out = consumed_only replay)) (applied commit_run) d'.
Proof.
  intros Hst HC Hc Hs Hm Hw. pose proof (sg_reserves _ _ _ _ _ _ _ _ _ _ _ _ _ Hst) as Hres.
  assert (forall d2, same_but_replay d' d2 ->
    run_guarded intent commit_digest commit_run d2 \/ run_spent intent commit_digest commit_run d2 -> applied commit_run d2) as Hsame.
  { intros d2 Hf Hr. apply (applied_committed effect payloads tx intent commit_digest rs0 d0 W commit_run C); [exact HC|by eapply replay_log_clean| |exact Hr].
    eapply same_state_trans; [exact Hs|by apply replay_log_state]. }
  apply wp_bind. eapply wp_mono; [by apply (guard_consume_wp key intent commit_digest good rs _ (fresh key) v Hres P d' Hm Hw)| |by intros d2 [Hr Hf]; apply Hsame].
  intros r d2 (Hend & Hf & _). destruct r as [replay|e]; [|apply wp_ret; split; [by apply Hsame|right; by left]].
  destruct Hend as [Hsp [appended ->]]. apply wp_bind.
  eapply wp_mono; [apply (completion_applied_wp environment effect payloads tx principal_id audience nonce intent commit_digest rs0 m d0 W
    HW Hpending Hfresh (plan_tx_nonblank _ _ _ Hplan) P commit_run C d2 appended false Hst HC)| |done].
  - by eapply replay_log_clean.
  - eapply same_state_trans; [exact Hs|by apply replay_log_state].
  - exact Hsp.
  - intros res d3 (Ha & Hcomp & _). apply wp_ret. split; [exact Ha|]. destruct res as [completion|e]; [left; split; [by eexists _, completion|by apply Hcomp]|right; right; by eexists].
Qed.

Lemma commit_effect_wp P event_id : never_fails P ->
  wp P (commit_effect admitted provenance event_id) (fun outcome d' => ended (commit_execution_status outcome) d') crashed d.
Proof.
  intros Hnf. unfold commit_effect. rewrite Hlate, Hprep. cbv zeta.
  cbn [prepared_with pet_environment pet_transaction_effect pet_store_payloads pet_commit_descriptor pet_replay_guard guard_of guard_state rg_reserved].
  unfold apply_file_effect_transaction_with_provenance_under_lock. rewrite Hverify. cbn [negb].
  pose proof (prepared_unapplied _ _ _ _ _ Hon) as Hu.
  destruct (validate_effect_replay_binding (replay_binding_of (fresh key))) as [[]|e] eqn:Eb; [|by apply wp_bind, wp_ret, wp_ret].
  pose proof (commit_staged Eb) as Hst. apply wp_bind.
  eapply wp_mono; [apply (inner_crash_wp (tee_effect_store_root environment) PREPARED_EFFECT_WAL_RELATIVE_PATH wk effect payloads tx d effect_wal_path
    (spares_effect_log payloads effect Hspare d) W (po_log _ _ _ _ _ Hon) HW Hfresh P (Some (provenance, replay_binding_of (fresh key))) Hnf)| |].
  - apply (sg_internal _ _ _ _ _ _ _ _ _ _ _ _ _ Hst).
  - intros res d' Hend. case_bool_decide as Ha; cbn [negb].
    + destruct (applied_end res d' Hst Hend Ha) as (C & HC & Hc & Hs & Hm & Hw).
      eapply wp_mono; [by apply (commit_tail_wp P C d')| |].
      * intros outcome d2 (Hap & [[(replay & completion & ->) Hcomp]|[->|(replay & ->)]]); exists commit_run; by split_and!.
      * intros d2 Hap. right. exists commit_run. split; [exact Hst|by right].
    + apply wp_ret. by eapply not_applied_unapplied.
  - intros d' Hrec. right. exists commit_run. split; [exact Hst|by left].
Qed.

End commit.

Lemma commit_execution_wp P admitted source key good rs v d preflight : never_fails P ->
  lat_prepared admitted = prepared_with material environment plan preflight (guard_of key rs v) -> prepared_on key good rs v d ->
  wp P (commit admitted source)
    (fun r d' => match r with Ok outcome => ended (commit_execution_status outcome) d' | Err _ => unapplied d' end) crashed d.
Proof.
  intros Hnf Hlate Hon. pose proof (prepared_unapplied _ _ _ _ _ Hon) as Hu. assert (crashed d) as Hcr by (by left).
  unfold commit. cbv zeta. apply wp_bind. eapply wp_mono; [by apply (readonly_preflight P _ _ _ crashed)| |done]. intros commit_preflight d' ->.
  destruct (negb (is_ready _ _)); [by apply wp_ret|]. destruct source as [snapshot|message]; [|by apply wp_ret].
  destruct (evaluate_execution_admission _) as [decision|e]; [|by apply wp_ret].
  destruct (negb _); [by apply wp_ret|]. destruct (commit_evidence _ _ _ _) as [provenance|e] eqn:Ee; [|by apply wp_ret].
  destruct (evidence_recoverable _ _ _ _ _ _ _ _ _ _ Hplan Hnamed Hlate eq_refl eq_refl Ee) as (Hverify & Hscope & Hvalid).
  apply wp_bind. eapply wp_mono; [apply trace_wp| |intros d' Hs; left; by eapply prepared_unapplied, prepared_traced].
  intros traced d' Hs. pose proof (prepared_traced _ _ _ _ _ _ Hs Hon) as Hon'.
  destruct traced as [[]|e]; [|by eapply wp_ret, prepared_unapplied]. apply wp_bind.
  eapply wp_mono; [by eapply (commit_effect_wp _ admitted provenance key good rs v d' preflight Hlate eq_refl Hon')| |done].
  intros outcome d2 Hend. by apply wp_ret.
Qed.

(** ** The whole execution *)

Definition answered (answer : Result (ExecutionStatus * ExecutionPayload) ExecutionError) (d : Disk) : Prop :=
  match answer with Ok (status, _) => ended status d | Err _ => unapplied d end.

Lemma execute_wp P late_snapshot commit_snapshot : never_fails P ->
  wp P (execute_without_anchor material environment late_snapshot commit_snapshot) answered crashed d0.
Proof.
  intros Hnf. apply wp_bind. eapply wp_mono; [apply prepare_wp| |intros d Hu; by left]. intros r d Hend.
  destruct r as [prepared|e]; [|by apply wp_ret]. destruct Hend as (preflight & key & good & rs & v & Hprep & Hon).
  pose proof (prepared_unapplied _ _ _ _ _ Hon) as Hu. apply wp_bind.
  eapply wp_mono; [apply (late_wp P prepared late_snapshot d crashed); by left| |done]. intros late d' [-> Hlate].
  destruct late as [[admitted|decision final]|e]; [|by apply wp_ret..].
  apply wp_bind. eapply wp_mono; [eapply (commit_execution_wp P admitted commit_snapshot key good rs v d preflight Hnf); [|exact Hon]; by rewrite (Hlate admitted eq_refl)| |done].
  intros outcome d2 Hend. apply wp_ret. by destruct outcome.
Qed.

End run.

(** * Claims *)

(** Reconciling again and again, each time with the faults of a script. *)
Definition reconcile_executions {codec : EffectCodec} {replay_codec : ReplayCodec} {manifest : ManifestCodec} {kernel : KernelCodec}
    (environment : TrustedExecutionEnvironment) (scripts : list (list Fault)) (d : Disk) : Disk :=
  foldl (fun d script => snd (fst (reconcile_prepared_execution_commits environment d script))) d scripts.

(** The answer says that the effect was committed. *)
Definition reports_commit (answer : Result (ExecutionStatus * ExecutionPayload) ExecutionError) : bool :=
  match answer with Ok (ExecutionStatus_Applied, _) | Ok (ExecutionStatus_RecoveryRequired, _) => true | _ => false end.

Section claims.
Context {codec : EffectCodec} {laws : EffectCodecLaws codec} {replay_codec : ReplayCodec} {replay_laws : ReplayCodecLaws replay_codec}.
Context {manifest : ManifestCodec} {kernel : KernelCodec}.

(** A state root between executions: its effect log decided with no commit open, its replay log that of the
    nonces, perhaps with a torn tail. *)
Record at_rest (d : Disk) (W : list EffectWalRecord) (m : gmap string ReplayReservation) : Prop := {
  ar_log : clean_log effect_wal_key d W;
  ar_settled : settled_log W;
  ar_pending : project_pending_effect_replay_commits W = Ok [];
  ar_replay : exists good rs, replay_ready d good rs m
}.

(** The nonce of a call, and its key. *)
Definition nonce_key (material : PreparedExecutionMaterial) : Result string ReplayWalError :=
  let authorization := vec_authorization (pem_call material) in
  replay_nonce_key_hash (ap_principal_id (vea_principal authorization)) (ap_audience (vea_principal authorization)) (vea_nonce authorization).

(** What an execution that took effect leaves: the files its effect asks for, its nonce consumed for its intent
    and its commit, and a decided log with no commit open. *)
Definition executed (material : PreparedExecutionMaterial) (plan : ExecutionPlan) (m : gmap string ReplayReservation) (d0 d : Disk) : Prop :=
  same_state (effect_applied (xpl_store_payloads plan) d0 (xpl_transaction_effect plan)) d
  /\ (exists key, nonce_key material = Ok key /\ nonces m !! key = None
       /\ replay_holds d (<[key := consumed (xpl_intent_digest plan) (xpl_commit_digest plan)]> (nonces m)))
  /\ exists rs, clean_log effect_wal_key d rs /\ settled_log rs /\ project_pending_effect_replay_commits rs = Ok [].

(** What one that did not leaves: the files as they were, its nonce at most reserved, and no commit open as far
    as the log is accepted. *)
Definition not_executed (material : PreparedExecutionMaterial) (plan : ExecutionPlan) (m : gmap string ReplayReservation) (d0 d : Disk) : Prop :=
  same_state d0 d
  /\ (replay_holds d (nonces m) \/ exists key, nonce_key material = Ok key /\ nonces m !! key = None
       /\ replay_holds d (<[key := reserved (xpl_intent_digest plan) (xpl_commit_digest plan)]> (nonces m)))
  /\ exists rs, clean_log effect_wal_key d rs /\ settled_log rs /\ nothing_open rs.

Lemma pending_calm pending environment : calm (reconcile_pending environment pending).
Proof.
  induction pending as [|p pending IH]; cbn [reconcile_pending]; [apply calm_ret|]. destruct (validate_recovery_provenance _ _ _ _ _ _); [|apply calm_ret].
  apply calm_bind; [apply replay_calm|intros r]. destruct r as [replay|e]; [|apply calm_ret].
  apply calm_bind; [|intros r; destruct r; [apply calm_bind; [exact IH|intros others; apply calm_ret]|apply calm_ret]].
  repeat first [calm_step|progress unfold append_effect_replay_completion_under_lock, authority_leaf_exists, repaired_pending, repair_effect_wal_tail_retained,
    read_effect_wal_records_strict_retained, append_effect_wal_record_for_publication, read_authority_file, read_file, append_file, truncate_file, bad_path].
Qed.

Lemma reconcile_executions_calm environment : calm (reconcile_prepared_execution_commits environment).
Proof.
  apply calm_bind; [by eapply reconcile_calm, effect_wal_path|intros r]. destruct r as [recovery|e]; [|apply calm_ret]. case_bool_decide; [apply calm_ret|].
  apply calm_bind; [|intros r; destruct r as [pending|e]; [apply calm_bind; [apply pending_calm|intros r; apply calm_ret]|apply calm_ret]].
  repeat first [calm_step|progress unfold pending_effect_replay_commits_under_lock, authority_leaf_exists, repaired_pending, repair_effect_wal_tail_retained,
    read_effect_wal_records_strict_retained, read_authority_file, read_file, append_file, truncate_file, bad_path].
Qed.

(** ** From a state of the execution to the end *)

Section reconciling.
Context (material : PreparedExecutionMaterial) (environment : TrustedExecutionEnvironment) (plan : ExecutionPlan).
Context (rs0 : list ReplayWalRecord) (m : gmap string ReplayReservation) (d0 : Disk) (W : list EffectWalRecord).

Notation effect := (xpl_transaction_effect plan).
Notation payloads := (xpl_store_payloads plan).
Notation tx := (pcd_tx_id (xpl_descriptor plan)).
Notation authorization := (vec_authorization (pem_call material)).
Notation principal_id := (ap_principal_id (vea_principal authorization)).
Notation audience := (ap_audience (vea_principal authorization)).
Notation nonce := (vea_nonce authorization).
Notation intent := (xpl_intent_digest plan).
Notation commit_digest := (xpl_commit_digest plan).
Notation unapplied := (unapplied principal_id audience nonce intent commit_digest m d0).
Notation staged := (staged environment effect tx principal_id audience nonce intent commit_digest rs0 m d0 W).
Notation applied := (applied effect payloads tx intent commit_digest rs0 d0 W).
Notation completed := (completed effect payloads intent commit_digest d0).
Notation run_crashed := (run_crashed effect payloads tx principal_id audience nonce intent commit_digest rs0 m d0 W).

Hypothesis HW : settled_log W.
Hypothesis Hpending : project_pending_effect_replay_commits W = Ok [].
Hypothesis Hfresh : forall record, record ∈ W -> ewr_tx_id record ≠ tx.
Hypothesis Hspare : spares_execution effect.
Hypothesis Htx : nonblank tx.

Lemma unapplied_not_executed d : unapplied d -> not_executed material plan m d0 d.
Proof. intros (L & Hc & Hl & Hn & Hs & Hr). split_and!; [exact Hs|exact Hr|]. exists L. by split_and!. Qed.

Lemma completed_executed rn d : staged rn -> completed rn d -> executed material plan m d0 d.
Proof.
  intros Hst (Hsp & Hs & Hlog). split_and!; [exact Hs| |exact Hlog]. exists (rn_key rn). split_and!; [apply Hst|unfold nonces; by rewrite lookup_fmap, (sg_new _ _ _ _ _ _ _ _ _ _ _ _ _ Hst)|].
  pose proof (spent_holds _ _ _ _ _ _ _ _ _ (sg_reserves _ _ _ _ _ _ _ _ _ _ _ _ _ Hst) Hsp) as Hh. by rewrite run_nonces, insert_insert_eq in Hh.
Qed.

(** What each state is after any number of reconciliations. *)
Lemma keeps (I : Disk -> Prop) scripts d :
  (forall d, I d -> wp (fun _ => True) (reconcile_prepared_execution_commits environment) (fun _ => I) I d) ->
  I d -> I (reconcile_executions environment scripts d).
Proof.
  intros Hstep. revert d. unfold reconcile_executions. induction scripts as [|script scripts IH]; intros d Hd; simpl; [done|]. apply IH.
  pose proof (Hstep d Hd script) as H. destruct (reconcile_prepared_execution_commits environment d script) as [[[r|] d'] fs']; simpl; by apply H, Forall_true.
Qed.

Lemma undisturbed (Q : Result ExecutionReplayReconciliationResult ExecutionReplayReconciliationError -> Disk -> Prop) C d :
  wp crash_only (reconcile_prepared_execution_commits environment) Q C d ->
  exists r d', runs (reconcile_prepared_execution_commits environment) d = (Returned r, d') /\ Q r d'.
Proof.
  intros H%wp_runs. destruct (reconcile_executions_calm environment d) as (r & d' & E). exists r, d'. unfold runs in *. by rewrite E in *.
Qed.

Lemma unapplied_outcome scripts d : unapplied d ->
  exists r d', runs (reconcile_prepared_execution_commits environment) (reconcile_executions environment scripts d) = (Returned r, d')
    /\ not_executed material plan m d0 d'.
Proof.
  intros Hu. apply (keeps unapplied scripts) in Hu; [|intros d1 Hd1; eapply wp_mono; [by eapply reconcile_unapplied_wp|done|done]].
  destruct (undisturbed _ _ _ (reconcile_unapplied_wp environment _ _ _ _ _ _ _ crash_only _ Hu)) as (r & d' & Hr & Hd').
  exists r, d'. split; [done|by apply unapplied_not_executed].
Qed.

Lemma applied_outcome scripts rn d : staged rn -> applied rn d ->
  exists r d', runs (reconcile_prepared_execution_commits environment) (reconcile_executions environment scripts d) = (Returned r, d')
    /\ is_ok r = true /\ executed material plan m d0 d'.
Proof.
  intros Hst Ha. pose proof (fun P d => reconcile_applied_wp environment effect payloads tx principal_id audience nonce intent commit_digest rs0 m d0 W
    HW Hpending Hfresh Htx P rn d Hst) as Hstep.
  apply (keeps (applied rn) scripts) in Ha; [|intros d1 Hd1; eapply wp_mono; [by apply Hstep|by intros r d' []|done]].
  destruct (undisturbed _ _ _ (Hstep crash_only _ Ha)) as (r & d' & Hr & _ & Hn). exists r, d'.
  destruct (Hn crash_only_never_fails) as [Hok Hc]. split_and!; [done|done|by eapply completed_executed].
Qed.

Lemma crashed_outcome scripts rn d : staged rn -> run_crashed rn d ->
  exists r d', runs (reconcile_prepared_execution_commits environment) (reconcile_executions environment scripts d) = (Returned r, d')
    /\ (is_ok r = true /\ executed material plan m d0 d' \/ not_executed material plan m d0 d').
Proof.
  intros Hst Hc. pose proof (fun P d => reconcile_run_wp environment effect payloads tx principal_id audience nonce intent commit_digest rs0 m d0 W
    HW Hpending Hfresh Hspare Htx P rn d Hst) as Hstep.
  apply (keeps (run_crashed rn) scripts) in Hc; [|intros d1 Hd1; eapply wp_mono; [by apply Hstep|by intros r d' []|done]].
  destruct (undisturbed _ _ _ (Hstep crash_only _ Hc)) as (r & d' & Hr & _ & Hn). exists r, d'. split; [done|].
  destruct (Hn crash_only_never_fails) as [Hu|[Hok Hcomp]]; [right; by apply unapplied_not_executed|left; split; [done|by eapply completed_executed]].
Qed.

End reconciling.

(** ** A nonce that was used *)

Lemma reserve_used_wp P d good rs m principal_id audience nonce key intent commit : replay_ready d good rs m ->
  replay_nonce_key_hash principal_id audience nonce = Ok key -> is_Some (nonces m !! key) ->
  wp P (replay_call (fun st io => reserve_replay_nonce_under_effect_lock st (Ok tt) principal_id audience nonce intent commit io))
    (fun r d' => is_ok r = false /\ same_but_replay d d' /\ replay_holds d' (nonces m))
    (fun d' => same_but_replay d d' /\ replay_holds d' (nonces m)) d.
Proof.
  intros Hd Hk [n Hn].
  assert (forall d', maybe_reserved principal_id audience nonce intent commit m d' -> replay_holds d' (nonces m)) as Hheld.
  { intros d' [H|(key' & Hk' & Hnew & _)]; [exact H|]. congruence. }
  eapply wp_mono; [by apply (reserve_wp principal_id audience nonce intent commit good rs m)| |].
  - intros [res|e] d' [Hend Hf]; [|split_and!; [done|exact Hf|by apply Hheld]].
    destruct Hend as (key' & good' & rs' & [Hk' Hnew _ _ _ _] & _). exfalso. unfold nonces in Hn. rewrite lookup_fmap in Hn.
    assert (key' = key) as -> by congruence. by rewrite Hnew in Hn.
  - intros d' [Hr Hf]. split; [exact Hf|by apply Hheld].
Qed.

(** Preparing is refused before anything but the replay log is written. *)
Definition refused (d : Disk) (s : gmap string Nonce) (answer : Result (ExecutionStatus * ExecutionPayload) ExecutionError) (d' : Disk) : Prop :=
  (exists e, answer = Err (Execution_RejectedPrepare e)) /\ same_but_replay d d' /\ replay_holds d' s.

Context {digests : AdmissionDigests} {lower : ToLowercase}.

Lemma execute_used_wp P material environment late_snapshot commit_snapshot d good rs m key : replay_ready d good rs m ->
  nonce_key material = Ok key -> is_Some (nonces m !! key) ->
  wp P (execute_without_anchor material environment late_snapshot commit_snapshot) (refused d (nonces m))
    (fun d' => same_but_replay d d' /\ replay_holds d' (nonces m)) d.
Proof.
  intros Hd Hk Hn. assert (replay_holds d (nonces m)) as Hh by (by exists good, rs, m).
  assert (forall e, refused d (nonces m) (Err (Execution_RejectedPrepare e)) d) as Herr by (intros e; split_and!; [by exists e|done|done]).
  apply wp_bind. unfold prepare_execution_transaction. destruct (plan_execution material environment) as [plan|e]; [|by apply wp_ret, wp_ret].
  apply wp_bind. eapply wp_mono; [by apply (readonly_preflight P _ _ _ (fun d' => same_but_replay d d' /\ replay_holds d' (nonces m)))| |done].
  intros preflight d' ->. destruct (negb _); [by apply wp_ret, wp_ret|].
  apply wp_bind. eapply wp_mono; [by eapply (reserve_used_wp P d good rs m)| |done]. intros r d' (Hr & Hf & Hh').
  destruct r as [reservation|e]; [done|]. apply wp_ret, wp_ret. split_and!; [by eexists|exact Hf|exact Hh'].
Qed.

End claims.

(** ** What a commit has passed *)

Section passed.
Context {codec : EffectCodec} {replay_codec : ReplayCodec} {manifest : ManifestCodec} {kernel : KernelCodec}.
Context {digests : AdmissionDigests} {lower : ToLowercase}.

Lemma bind_returned {A B} (m : Io A) (k : A -> Io B) d fs b d' fs' : io_bind m k d fs = (Returned b, d', fs') ->
  exists a d1 fs1, m d fs = (Returned a, d1, fs1) /\ k a d1 fs1 = (Returned b, d', fs').
Proof. unfold io_bind. destruct (m d fs) as [[[a|] d1] fs1]; [|done]. intros H. by exists a, d1, fs1. Qed.

Lemma ret_returned {A} (a b : A) d fs d' fs' : io_ret a d fs = (Returned b, d', fs') -> a = b.
Proof. by intros [= ->]. Qed.

(** The admission of a snapshot. *)
Definition admits (prepared : PreparedExecutionTransaction) (source : Result LateExecutionSnapshot string) : Prop :=
  exists snapshot decision, source = Ok snapshot /\ evaluate_execution_admission (admission_document prepared snapshot) = Ok decision
    /\ ead_status decision = ExecutionAdmissionStatus_Admitted.

Lemma prepare_returned material environment prepared d fs d' fs' :
  prepare_execution_transaction material environment d fs = (Returned (Ok prepared), d', fs') ->
  exists plan preflight guard, plan_execution material environment = Ok plan /\ prepared = prepared_with material environment plan preflight guard.
Proof.
  unfold prepare_execution_transaction. destruct (plan_execution material environment) as [plan|]; [|by intros ?%ret_returned].
  intros (preflight & d1 & fs1 & _ & H)%bind_returned. destruct (negb _); [by apply ret_returned in H|].
  apply bind_returned in H as (r & d2 & fs2 & _ & H). destruct r as [reservation|e]; [|by apply ret_returned in H].
  apply bind_returned in H as (r & d3 & fs3 & _ & H). destruct r as [guard|e]; [|by apply ret_returned in H].
  apply ret_returned in H as [= <-]. by exists plan, preflight, guard.
Qed.

Lemma late_returned prepared source admitted d fs d' fs' :
  evaluate_late prepared source d fs = (Returned (Ok (LateOutcome_Admitted admitted)), d', fs') -> lat_prepared admitted = prepared /\ admits prepared source.
Proof.
  intros (preflight & d1 & fs1 & _ & H%ret_returned)%bind_returned. destruct (negb _); [done|]. destruct source as [snapshot|]; [|done].
  cbn [map_err result_bind] in H. destruct (evaluate_execution_admission _) as [decision|] eqn:E; [|done]. cbn [map_err result_bind] in H.
  case_bool_decide; [|done]. injection H as <-. split; [done|]. by exists snapshot, decision.
Qed.

Lemma commit_returned admitted source outcome d fs d' fs' : commit admitted source d fs = (Returned (Ok outcome), d', fs') ->
  commit_execution_status outcome ≠ ExecutionStatus_Blocked -> admits (lat_prepared admitted) source.
Proof.
  intros (preflight & d1 & fs1 & _ & H)%bind_returned Hs. destruct (negb _); [by apply ret_returned in H|]. destruct source as [snapshot|]; [|by apply ret_returned in H].
  cbv zeta in H. destruct (evaluate_execution_admission _) as [decision|] eqn:E; [|by apply ret_returned in H].
  case_bool_decide; cbn [negb] in H; [by exists snapshot, decision|]. apply ret_returned in H as [= <-]. done.
Qed.

Lemma admits_ok prepared source : admits prepared source -> is_ok source = true.
Proof. intros (snapshot & decision & -> & _). done. Qed.

(** An execution that reports a commit was planned, and admitted on both snapshots. *)
Lemma reported_passed material environment late_snapshot commit_snapshot answer d fs d' fs' :
  execute_without_anchor material environment late_snapshot commit_snapshot d fs = (Returned answer, d', fs') -> reports_commit answer = true ->
  exists plan preflight guard, plan_execution material environment = Ok plan
    /\ admits (prepared_with material environment plan preflight guard) late_snapshot
    /\ admits (prepared_with material environment plan preflight guard) commit_snapshot.
Proof.
  intros (r & d1 & fs1 & Hp & H)%bind_returned Hr. destruct r as [prepared|e]; [|by apply ret_returned in H as <-].
  destruct (prepare_returned _ _ _ _ _ _ _ Hp) as (plan & preflight & guard & Hplan & ->). exists plan, preflight, guard.
  apply bind_returned in H as (r & d2 & fs2 & Hl & H). destruct r as [[admitted|]|e]; [|by apply ret_returned in H as <-|by apply ret_returned in H as <-].
  apply late_returned in Hl as [Hprep Hl]. apply bind_returned in H as (r & d3 & fs3 & Hc & H). apply ret_returned in H as <-. destruct r as [outcome|e]; [|done].
  split_and!; [done|done|]. rewrite <- Hprep. eapply commit_returned; [done|]. simpl in Hr. by destruct (commit_execution_status outcome).
Qed.

Lemma admits_admissible material environment plan preflight guard source snapshot :
  plan_execution material environment = Ok plan -> admits (prepared_with material environment plan preflight guard) source -> source = Ok snapshot ->
  let input := eid_execution_admission (admission_document (prepared_with material environment plan preflight guard) snapshot) in
  admission_in_range input -> AdmissionSpec.admissible input (xpl_intent_digest plan).
Proof.
  intros Hplan (snapshot' & decision & -> & He & Ha) [= ->] input Hr. destruct (proj1 (admission_spec _ Hr)) as [_ [intent Hi]]; [by exists decision|].
  assert (digest_request (pem_admission_request material) = Ok intent) as Hd by exact (ad_intent _ _ Hi). destruct (plan_authority _ _ _ Hplan) as [Hx _]. unfold execution_intent_digest, canonical in Hx. apply map_err_ok in Hx.
  assert (intent = xpl_intent_digest plan) as <- by congruence. exact Hi.
Qed.

End passed.

(** ** The claims *)

(** C1: An execution takes effect exactly once or not at all.  On a state root at rest, let a planned
    execution run by the runtime's order of preparing, admitting and committing, where operations do not fail
    but the process may die in any of them.  Then, after any number of reconciliations that fail or die
    themselves, one that runs undisturbed ends in one of two states.  Either it succeeds, the files are those
    the effect asks for, the nonce is consumed for this intent and this commit, and no commit is open; or the
    files are as they were, the nonce is at most reserved, and no commit is read off the log as open (it may be
    refused, as [EffectPending.begun_recovery_blocks_replay] shows).  An answer that was given
    agrees with which: it reports a commit in the first case only, and when it says that the effect was
    applied nothing was left to reconcile. *)
Theorem execution_exactly_once {codec : EffectCodec} {laws : EffectCodecLaws codec} {replay_codec : ReplayCodec}
    {replay_laws : ReplayCodecLaws replay_codec} {manifest : ManifestCodec} {kernel : KernelCodec} {kernel_laws : KernelCodecLaws kernel}
    {digests : AdmissionDigests} {tokens : TokenLaws digests} {lower : ToLowercase}
    material environment plan late_snapshot commit_snapshot m d0 W fs scripts :
  plan_execution material environment = Ok plan -> named_effects (xpl_effect_refs plan) (pem_effects material) ->
  spares_execution (xpl_transaction_effect plan) -> at_rest d0 W m ->
  (forall record, record ∈ W -> ewr_tx_id record ≠ pcd_tx_id (xpl_descriptor plan)) -> Forall crash_only fs ->
  let '(outcome, d, _) := execute_without_anchor material environment late_snapshot commit_snapshot d0 fs in
  (exists r d', runs (reconcile_prepared_execution_commits environment) (reconcile_executions environment scripts d) = (Returned r, d')
    /\ (is_ok r = true /\ executed material plan m d0 d' /\ (forall answer, outcome = Returned answer -> reports_commit answer = true)
        \/ not_executed material plan m d0 d' /\ forall answer, outcome = Returned answer -> reports_commit answer = false))
  /\ forall payload, outcome = Returned (Ok (ExecutionStatus_Applied, payload)) -> executed material plan m d0 d.
Proof.
  intros Hplan Hnamed Hspare [Hlog HW Hp (good & rs & Hready)] Hfresh Hfs. pose proof (plan_tx_nonblank _ _ _ Hplan) as Htx.
  pose proof (execute_wp material environment plan good rs m d0 W Hplan HW Hp Hfresh Hspare Hnamed Hlog Hready crash_only late_snapshot commit_snapshot
    crash_only_never_fails fs Hfs) as H.
  destruct (execute_without_anchor material environment late_snapshot commit_snapshot d0 fs) as [[[answer|] d] fs'].
  - destruct H as [_ H]. destruct answer as [[[| |] payload]|e]; simpl in H.
    + destruct H as (rn & Hst & Ha & Hc). pose proof (completed_executed _ _ _ _ _ _ _ _ _ Hst Hc) as He.
      destruct (applied_outcome _ _ _ _ _ _ _ HW Hp Hfresh Htx scripts rn d Hst Ha) as (r & d' & Hr & Hok & Hd'). split; [|done].
      exists r, d'. split; [done|left; split_and!; [done|done|by intros ? [= <-]]].
    + destruct (unapplied_outcome _ environment plan m d0 scripts d H) as (r & d' & Hr & Hd'). split; [|done]. exists r, d'.
      split; [done|right; split; [done|by intros ? [= <-]]].
    + destruct H as (rn & Hst & Ha). destruct (applied_outcome _ _ _ _ _ _ _ HW Hp Hfresh Htx scripts rn d Hst Ha) as (r & d' & Hr & Hok & Hd'). split; [|done].
      exists r, d'. split; [done|left; split_and!; [done|done|by intros ? [= <-]]].
    + destruct (unapplied_outcome _ environment plan m d0 scripts d H) as (r & d' & Hr & Hd'). split; [|done]. exists r, d'.
      split; [done|right; split; [done|by intros ? [= <-]]].
  - split; [|done]. destruct H as [Hu|(rn & Hst & Hc)].
    + destruct (unapplied_outcome _ environment plan m d0 scripts d Hu) as (r & d' & Hr & Hd'). exists r, d'. split; [done|by right].
    + destruct (crashed_outcome _ _ _ _ _ _ _ HW Hp Hfresh Hspare Htx scripts rn d Hst (or_intror Hc)) as (r & d' & Hr & [[Hok Hd']|Hd']);
        exists r, d'; (split; [done|]); [by left|by right].
Qed.

(** C8: A nonce is executed at most once.  Once a state root holds a nonce, reserved or consumed, any later
    execution under it is refused, whatever faults occur and whatever it asks for: no file but the replay log
    is written, and the nonces it holds stay the same. *)
Theorem used_nonce_refused {codec : EffectCodec} {replay_codec : ReplayCodec} {replay_laws : ReplayCodecLaws replay_codec}
    {manifest : ManifestCodec} {kernel : KernelCodec} {digests : AdmissionDigests} {lower : ToLowercase}
    material environment late_snapshot commit_snapshot d s key fs :
  replay_holds d s -> nonce_key material = Ok key -> is_Some (s !! key) ->
  let '(outcome, d', _) := execute_without_anchor material environment late_snapshot commit_snapshot d fs in
  same_but_replay d d' /\ replay_holds d' s
  /\ forall answer, outcome = Returned answer -> exists e, answer = Err (Execution_RejectedPrepare e).
Proof.
  intros (good & rs & m & Hd & <-) Hk Hn.
  pose proof (execute_used_wp (fun _ => True) material environment late_snapshot commit_snapshot d good rs m key Hd Hk Hn fs (Forall_true _ _ (fun _ => I))) as H.
  destruct (execute_without_anchor material environment late_snapshot commit_snapshot d fs) as [[[answer|] d'] fs'].
  - destruct H as (_ & He & Hf & Hh). split_and!; [done|done|by intros ? [= <-]].
  - destruct H as [Hf Hh]. by split_and!.
Qed.

(** C2: What an execution commits was signed, granted and admitted.  Let the authority of a call come from an
    activated registry.  Whatever faults occur, if the execution reports a commit, then an active entry of the
    registry stands for the call: its key accepted the signature of an intent for the execution tool, it is
    allowed that tool and granted the execution, and the digest that was signed is that of this very admission
    request, which names the entry's principal, agent and role, the nonce and the time of the attestation, in
    the environment's audience.  And every condition of admission held, for that intent, on the snapshot taken
    under the locks and again on the one taken right before the commit. *)
Theorem committed_is_authorized {codec : EffectCodec} {replay_codec : ReplayCodec} {manifest : ManifestCodec} {kernel : KernelCodec}
    {digests : AdmissionDigests} {lower : ToLowercase} {ed25519 : Ed25519}
    document registry intent attestation now age skew material environment late_snapshot commit_snapshot d fs answer d' fs' :
  from_document document = Some (Ok registry) ->
  authorize_execution registry intent attestation now age skew = Some (Ok (vec_authorization (pem_call material))) ->
  execute_without_anchor material environment late_snapshot commit_snapshot d fs = (Returned answer, d', fs') -> reports_commit answer = true ->
  let request := pem_admission_request material in
  exists entry digest, stands_for registry intent attestation entry /\ cit_tool intent = EXECUTE_OPERATION
    /\ "operation.execute" ∈ map StableId_0 (pre_authority_grants entry)
    /\ att_execution_intent_digest attestation = Some digest /\ execution_intent_digest request = Ok digest
    /\ eq_principal_id request = pre_principal_id entry /\ eq_agent_id request = pre_agent_id entry /\ eq_principal_role request = pre_role entry
    /\ eq_nonce request = att_nonce attestation /\ eq_issued_at_unix request = att_ts attestation
    /\ att_audience attestation = Some (tee_required_audience environment)
    /\ is_ok late_snapshot = true /\ is_ok commit_snapshot = true
    /\ exists plan preflight guard, plan_execution material environment = Ok plan
         /\ forall snapshot, late_snapshot = Ok snapshot \/ commit_snapshot = Ok snapshot ->
              let input := eid_execution_admission (admission_document (prepared_with material environment plan preflight guard) snapshot) in
              admission_in_range input -> AdmissionSpec.admissible input digest.
Proof.
  intros (_ & [Ha _ Hf Hc _] & ->)%from_document_exact (Ht & _ & entry & digest & fingerprints & Hs & Hd & _ & Hauth)%authorize_execution_ok Hrun Hr; [|done..].
  destruct (reported_passed _ _ _ _ _ _ _ _ _ Hrun Hr) as (plan & preflight & guard & Hplan & Hl & Hcm).
  destruct (plan_authority _ _ _ Hplan) as [Hintent Hm]. apply authority_matches_ok in Hm. rewrite Hauth in Hm.
  destruct Hm as (Hx & Haud & Hp & Hag & Hro & Hn & Hi & _). simpl in *. subst digest. exists entry, (xpl_intent_digest plan). rewrite <- Haud.
  split_and!; try done; [by apply (sf_grant _ _ _ _ Hs)|apply Hs|by eapply admits_ok|by eapply admits_ok|].
  exists plan, preflight, guard. split; [done|]. intros snapshot [Hsn|Hsn].
  - exact (admits_admissible _ _ _ _ _ _ _ Hplan Hl Hsn).
  - exact (admits_admissible _ _ _ _ _ _ _ Hplan Hcm Hsn).
Qed.
