(* ===== verification/ExecutionExamples.v ===== *)
(** * A concrete execution

    An operation that edits one file, executed on a state root with an empty effect log and an initialized
    replay log: the codecs, the material of the call, its run, and the witnesses of the claims. *)

From stdpp Require Import countable.
From S2P Require Import Prelude RustStr BTree Contracts ClaimEngine OperationContracts AssuranceContracts Diagnostics StatePaths EffectTypes CrashIo WalFrame ReplayWal ReplayCommands ReplayLog ReplaySafety ReplayDisk EffectStore EffectLog EffectCrash EffectRecovery EffectPlan EffectAtomic EffectSafety EffectPreflight EffectReplay EffectPending EffectExamples ExecutionAdmission AdmissionSpec AdmissionExamples ExecutionAuthority PrincipalRegistry OperationBundle PreparedPlan PreparedExecution ExecutionCrash ExecutionRun.

Local Open Scope string_scope.

#[local] Existing Instance ascii_lowercase.

(** ** Codecs *)

#[export] Instance tree_list {A} `{Treeable A} : Treeable (list A).
Proof.
  refine {| tree l := GenNode 0 (map tree l); untree t := match t with GenNode _ ts => mapM untree ts | _ => None end |}.
  induction a as [|a l IH]; simpl; [done|]. rewrite untree_tree. simpl in *. by rewrite IH.
Defined.

#[export] Instance tree_PrincipalId : Treeable PrincipalId := tree_iso PrincipalId_0 mk_PrincipalId ltac:(by intros []).
#[export] Instance tree_CallerRole : Treeable CallerRole := tree_iso
  (fun r => match r with CallerRole_Human => 0 | CallerRole_Driver => 1 | CallerRole_Worker => 2 | CallerRole_Runtime => 3 | CallerRole_Unknown => 4 end)
  (fun n => match n with 0 => CallerRole_Human | 1 => CallerRole_Driver | 2 => CallerRole_Worker | 3 => CallerRole_Runtime | _ => CallerRole_Unknown end)
  ltac:(by intros []).
#[export] Instance tree_Strategy : Treeable ExecutionCommitStrategy := tree_iso
  (fun r => match r with ExecutionCommitStrategy_SingleEffectWal => 0 | ExecutionCommitStrategy_OperationWideWal => 1 | ExecutionCommitStrategy_Saga => 2 end)
  (fun n => match n with 0 => ExecutionCommitStrategy_SingleEffectWal | 1 => ExecutionCommitStrategy_OperationWideWal | _ => ExecutionCommitStrategy_Saga end)
  ltac:(by intros []).
#[export] Instance tree_Principal : Treeable ExecutionPrincipal := tree_iso
  (fun p => (xp_principal_id p, (xp_agent_id p, xp_role p)))
  (fun '(a, (b, c)) => {| xp_principal_id := a; xp_agent_id := b; xp_role := c |}) ltac:(by intros []).
#[export] Instance tree_RecoveryBinding : Treeable RecoveryPreparedEffectBinding := tree_iso
  (fun b => (rpb_source_ref b, (rpb_effect_id b, rpb_token b)))
  (fun '(a, (b, c)) => {| rpb_source_ref := a; rpb_effect_id := b; rpb_token := c |}) ltac:(by intros []).
#[export] Instance tree_RecoveryDescriptor : Treeable RecoveryCommitDescriptor := tree_iso
  (fun r => (rcd_project_root r, (rcd_audience r, (rcd_tx_id r, (rcd_effect_lock_relative_path r, (rcd_effect_wal_relative_path r,
     (rcd_effect r, (rcd_constituent_effects r, rcd_commit_strategy r))))))))
  (fun '(a, (b, (c, (d, (e, (f, (g, h))))))) => {| rcd_project_root := a; rcd_audience := b; rcd_tx_id := c; rcd_effect_lock_relative_path := d;
     rcd_effect_wal_relative_path := e; rcd_effect := f; rcd_constituent_effects := g; rcd_commit_strategy := h |}) ltac:(by intros []).
#[export] Instance tree_RecoveryReservation : Treeable RecoveryReplayReservation := tree_iso
  (fun r => (rrr_key_hash r, (rrr_intent_digest r, (rrr_commit_digest r, (rrr_revision r, rrr_state r)))))
  (fun '(a, (b, (c, (d, e)))) => {| rrr_key_hash := a; rrr_intent_digest := b; rrr_commit_digest := c; rrr_revision := d; rrr_state := e |})
  ltac:(by intros []).
#[export] Instance tree_View : Treeable RecoveryProvenanceView := tree_iso
  (fun v => (rpv_schema_version v, (rpv_tx_id v, (rpv_project_root v, (rpv_audience v, (rpv_execution_principal v, (rpv_authorization v,
     (rpv_commit_descriptor v, (rpv_commit_digest v, rpv_replay_reservation v)))))))))
  (fun '(a, (b, (c, (d, (e, (f, (g, (h, i)))))))) => {| rpv_schema_version := a; rpv_tx_id := b; rpv_project_root := c; rpv_audience := d;
     rpv_execution_principal := e; rpv_authorization := f; rpv_commit_descriptor := g; rpv_commit_digest := h; rpv_replay_reservation := i |})
  ltac:(by intros []).
#[export] Instance tree_WalOperation : Treeable ReplayWalOperation := tree_iso
  (fun o => match o with ReplayWalOperation_Reserve => 0 | ReplayWalOperation_Consume => 1 end)
  (fun n => match n with 0 => ReplayWalOperation_Reserve | _ => ReplayWalOperation_Consume end) ltac:(by intros []).
#[export] Instance tree_WalPayload : Treeable ReplayWalPayload := tree_iso
  (fun p => (rp_schema_version p, (rp_operation p, (rp_key_hash p, (rp_intent_digest p, (rp_commit_digest p, (rp_revision p, rp_expected_revision p)))))))
  (fun '(a, (b, (c, (d, (e, (f, g)))))) => {| rp_schema_version := a; rp_operation := b; rp_key_hash := c; rp_intent_digest := d;
     rp_commit_digest := e; rp_revision := f; rp_expected_revision := g |}) ltac:(by intros []).

Module Host.

(** The last bytes of a text stand in for its digest. *)
Definition sha256 (b : bytes) : bytes := take 32 (rev b ++ repeat (ascii_of_N 0) 32)%list.

#[export] Instance replay_codec : ReplayCodec := {|
  replay_crc32c b := (foldr (fun c n => Z.of_N (code c) + n) 0 b mod 4294967296)%Z;
  replay_to_vec p := Some (tree_text (tree p));
  replay_from_slice b := text_tree (of_bytes b) ≫= untree;
  ReplayWal.sha256 := sha256 |}.

#[export] Instance replay_laws : ReplayCodecLaws replay_codec.
Proof.
  split.
  - intros b. cbn. unfold u32_max. pose proof (Z.mod_pos_bound (foldr (fun c n => Z.of_N (code c) + n) 0 b)%Z 4294967296). lia.
  - intros p b. cbn. intros [= <-]. rewrite text_tree_text. exact (untree_tree p).
  - intros b. cbn. unfold sha256. rewrite length_take, length_app, repeat_length. lia.
Defined.

Definition manifest_text : bytes := to_bytes "manifest".
#[export] Instance manifest : ManifestCodec := fun b => if decide (b = manifest_text) then Some expected_manifest else None.

(** What recovery reads of a document, and a serialization that writes just that. *)
Definition view_of (document : ExecutionCommitProvenanceDocument) : RecoveryProvenanceView :=
  let principal := vaa_principal (ecp_authorization document) in
  let descriptor := ecp_commit_descriptor document in
  let reservation := ecp_replay_reservation document in {|
  rpv_schema_version := ecp_schema_version document; rpv_tx_id := ecp_tx_id document; rpv_project_root := ecp_project_root document;
  rpv_audience := ecp_audience document; rpv_execution_principal := ecp_execution_principal document;
  rpv_authorization := Json_Object [("principal", Json_Object [
    ("principal_id", Json_String (PrincipalId_0 (apa_principal_id principal))); ("agent_id", Json_String (StableId_0 (apa_agent_id principal)));
    ("role", Json_String (trace_role (apa_role principal)))])];
  rpv_commit_descriptor := {|
    rcd_project_root := pcd_project_root descriptor; rcd_audience := pcd_audience descriptor; rcd_tx_id := pcd_tx_id descriptor;
    rcd_effect_lock_relative_path := pcd_effect_lock_relative_path descriptor;
    rcd_effect_wal_relative_path := pcd_effect_wal_relative_path descriptor; rcd_effect := recovery_binding (pcd_effect descriptor);
    rcd_constituent_effects := Some (map recovery_binding (pcd_constituent_effects descriptor));
    rcd_commit_strategy := Some (pcd_commit_strategy descriptor) |};
  rpv_commit_digest := ecp_commit_digest document;
  rpv_replay_reservation := {| rrr_key_hash := rv_key_hash reservation; rrr_intent_digest := rv_intent_digest reservation;
    rrr_commit_digest := rv_commit_digest reservation; rrr_revision := rv_revision reservation;
    rrr_state := match rv_state reservation with ReplayReservationState_Reserved => "reserved" | ReplayReservationState_Consumed => "consumed" end |} |}.

Definition nonce_object : Json := Json_Object [("nonce", Json_String "n1")].

(** A tree as JSON: a number as that many nulls. *)
Fixpoint tree_value (t : Tree) : Json :=
  match t with
  | GenLeaf s => Json_String s
  | GenNode n ts => Json_Array (Json_Array (repeat Json_Null n) :: map tree_value ts)
  end.

Fixpoint value_tree (j : Json) : option Tree :=
  match j with
  | Json_String s => Some (GenLeaf s)
  | Json_Array (Json_Array nulls :: items) => GenNode (length nulls) <$> mapM value_tree items
  | _ => None
  end.

Lemma value_tree_value : forall t, value_tree (tree_value t) = Some t.
Proof.
  fix IH 1. intros [s|n ts]; simpl; [done|]. rewrite repeat_length.
  match goal with |- _ <$> ?m = _ => assert (m = Some ts) as ->; [|done] end.
  induction ts as [|t ts IHl]; simpl; [done|]. rewrite (IH t). simpl. by rewrite IHl.
Qed.

Definition view_value (view : RecoveryProvenanceView) : Json := tree_value (tree view).
Definition value_view (value : Json) : option RecoveryProvenanceView := value_tree value ≫= untree.

Lemma value_view_value view : value_view (view_value view) = Some view.
Proof. unfold value_view, view_value. rewrite value_tree_value. exact (untree_tree view). Qed.

#[export] Instance kernel : KernelCodec := {|
  provenance_to_value document := Ok (Json_Object [("view", view_value (view_of document))]);
  admission_to_value _ := Ok (Json_Object [("execution_admission", Json_Object [("request", nonce_object); ("replay", nonce_object)])]);
  role_to_value role := Some (Json_String (trace_role role));
  recovery_from_value value := match json_get "view" value with
                               | Some value => match value_view value with Some view => Ok view | None => Err "not a view" end
                               | None => Err "no view"
                               end;
  descriptor_to_vec descriptor := Ok (to_bytes (pcd_tx_id descriptor +:+ pcd_operation_token descriptor));
  trace_to_vec event := Some (to_bytes (tev_event_id event)) |}.

Lemma view_reads_back document : reads_back document (view_of document).
Proof. split; try reflexivity. eexists. repeat (split; [reflexivity|]). reflexivity. Qed.

Lemma Ok_eq {A E} (a b : A) : Ok (E := E) a = Ok b -> a = b.
Proof. by intros [=]. Qed.

#[export] Instance kernel_laws : KernelCodecLaws kernel.
Proof.
  split; [intros role; by eexists|]. intros document value Hv%Ok_eq. subst value. split; [reflexivity|].
  exists (view_of document). split; [|apply view_reads_back]. cbn [recovery_from_value kernel].
  change (match value_view (view_value (view_of document)) with Some view => Ok view | None => Err "not a view" end = Ok (view_of document)).
  by rewrite value_view_value.
Qed.

(** Every document of a kind has the same digest here; the digest of an intent is one of the replay log. *)
Definition intent : string := Eval vm_compute in format_sha256 (repeat (ascii_of_N 0) 32).

#[export] Instance digests : AdmissionDigests := {|
  digest_assurance _ := Ok "sha256:case"; digest_operation _ := Ok "sha256:operation"; digest_command _ := Ok "sha256:command";
  digest_effect _ := Ok "sha256:effect"; digest_request _ := Ok intent; digest_snapshot _ := Ok "sha256:snapshot" |}.

#[export] Instance token_laws : TokenLaws digests.
Proof. intros document token [= <-]. done. Defined.

(** ** The call *)

Definition effect_named (id : StableId) : ToolEffectContractDocument :=
  let contract := ted_tool_effect_contract Run.effect in {| ted_schema_version := "0.1"; ted_tool_effect_contract := {|
  te_id := id; te_contract_ref := te_contract_ref contract; te_effect_kind := te_effect_kind contract;
  te_operation_ref := te_operation_ref contract; te_actor := te_actor contract;
  te_read_set := [{| er_target_kind := EffectTargetKind_FilePath; er_reference := "src/core/a.rs"; er_expected_hash := Some (sha "old");
                     er_expected_version := None; er_required_for_plan := true |}];
  te_write_set := [{| ew_target_kind := EffectTargetKind_FilePath; ew_reference := "src/core/a.rs"; ew_access_mode := AccessMode_Write;
                      ew_expected_hash := Some (sha "old"); ew_expected_version := None; ew_destructive := false |}];
  te_conflict_detection := te_conflict_detection contract; te_notification := te_notification contract; te_repair := te_repair contract |} |}.
Definition effect : ToolEffectContractDocument := effect_named (te_id (ted_tool_effect_contract Run.effect)).

Definition nonce : string := "nonce-0000000001".

Definition request : ExecutionAdmissionRequest := {|
  eq_id := mk_StableId "r1"; eq_principal_id := Run.principal; eq_agent_id := Run.agent;
  eq_principal_role := CallerRole_Worker; eq_operation_id := mk_StableId "op-1"; eq_operation_token := "sha256:operation";
  eq_assurance_case_id := mk_StableId "case-1"; eq_assurance_case_token := "sha256:case";
  eq_command_bindings := [{| cab_reference := "cargo-test"; cab_token := "sha256:command" |}];
  eq_effect_bindings := [{| cab_reference := "contracts/effects/e1.yaml"; cab_token := "sha256:effect" |}];
  eq_expected_claim_snapshot_revision := 3;
  eq_expected_claim_revisions := [{| rx_reference := "contracts/claims/s1.yaml"; rx_revision := 5 |}];
  eq_expected_gate_snapshot_revision := 2;
  eq_expected_gate_revisions := [{| rx_reference := "contracts/gates/g1.yaml"; rx_revision := 4 |}];
  eq_authority_snapshot_token := "sha256:snapshot"; eq_expected_replay_reservation_revision := 1;
  eq_nonce := nonce; eq_issued_at_unix := Run.now - 5 |}.

(** A signature that anyone can make: the key and the start of the message. *)
#[export] Instance ed25519 : Ed25519 := {|
  VerifyingKey := bytes; key_from_bytes b := Ok b;
  key_verify key message signature := bool_decide (signature = key ++ take 32 (message ++ repeat (ascii_of_N 0) 32))%list |}.

Definition key_hex : string := hex_encode (repeat "k"%char 32).

Definition registry_of (principals : list PrincipalRegistryEntry) : PrincipalRegistryDocument :=
  {| prd_schema_version := "0.1"; prd_principal_registry := {| prc_audience := "forge"; prc_principals := principals |} |}.

Definition entry_of (credential_id public_key_hex : string) : PrincipalRegistryEntry := {|
  pre_credential_id := credential_id; pre_principal_id := Run.principal; pre_agent_id := Run.agent; pre_role := CallerRole_Worker;
  pre_public_key_hex := public_key_hex; pre_allowed_tools := [mk_StableId EXECUTE_OPERATION];
  pre_authority_grants := [mk_StableId "operation.execute"]; pre_status := PrincipalCredentialStatus_Active |}.

Definition registry_document : PrincipalRegistryDocument := registry_of [entry_of "key-1" key_hex].
Definition registry : AuthorizedPrincipalRegistry := {| apr_audience := "forge"; apr_principals := [entry_of "key-1" key_hex] |}.

Definition call_intent : CanonicalIntent := {|
  cit_tool := EXECUTE_OPERATION; cit_arguments := Json_Object []; cit_credential_id := Some "key-1"; cit_audience := Some "forge";
  cit_execution_intent_digest := Some intent; cit_nonce := nonce; cit_ts := Run.now - 5 |}.

Definition attestation_with (signature : string) : AttestationInput := {|
  att_credential_id := Some "key-1"; att_audience := Some "forge"; att_execution_intent_digest := Some intent; att_nonce := nonce;
  att_ts := Run.now - 5; att_signature := signature; att_public_key_hex := key_hex |}.
Definition attestation : AttestationInput := attestation_with
  match canonical_bytes call_intent with Ok canonical => hex_encode (repeat "k"%char 32 ++ take 32 canonical)%list | Err _ => "" end.

(** What the registry makes of it. *)
Definition authorization : VerifiedExecutionAuthorization :=
  ltac:(let r := eval vm_compute in (authorize_execution registry call_intent attestation (Run.now - 3) 300 30) in
        match r with Some (Ok ?authorization) => exact authorization end).

Lemma authorized : authorize_execution registry call_intent attestation (Run.now - 3) 300 30 = Some (Ok authorization).
Proof. vm_compute. reflexivity. Qed.

Definition material_of (effect : ToolEffectContractDocument) : PreparedExecutionMaterial := {|
  pem_call := {|
    vec_authorization := authorization;
    vec_request := {| xr_operation_contract_ref := "contracts/operations/op-1.yaml"; xr_command_contract_refs := ["contracts/commands/c1.yaml"];
      xr_effect_contract_refs := ["contracts/effects/e1.yaml"];
      xr_payloads := [{| xpb_target_ref := "src/core/a.rs"; xpb_path := "payloads/a.rs"; xpb_expected_content_hash := None |}];
      xr_risk_audit_rules_ref := None; xr_require_citation := false |} |};
  pem_admission_request := request; pem_operation := Run.operation; pem_commands := [Run.command]; pem_effects := [effect];
  pem_payloads := [{| rop_target_ref := "src/core/a.rs"; rop_payload_kind := RuntimeEffectPayloadKind_HumanApproved;
                      rop_content_hash := sha "new"; rop_content := text "new" |}];
  pem_risk_audit_rules := None; pem_citation_material := None |}.
Definition material : PreparedExecutionMaterial := material_of effect.

Definition environment : TrustedExecutionEnvironment := {| tee_project_root := "/work"; tee_effect_store_root := demo_root; tee_required_audience := "forge" |}.

Definition snapshot : LateExecutionSnapshot := {|
  les_assurance_case := Run.assurance; les_claim_snapshot := Run.claim_snapshot; les_gate_snapshot := Run.gate_snapshot;
  les_current_state_version := 7; les_now_unix := Run.now |}.

Definition start : Disk :=
  <[["src"; "core"; "a.rs"] := text "old"]> (<[replay_manifest_key := manifest_text]> (<[replay_wal_key := []]> ∅)).

Definition execute : Io (Result (ExecutionStatus * ExecutionPayload) ExecutionError) :=
  execute_without_anchor material environment (Ok snapshot) (Ok snapshot).

(** The status an execution answers, and whether the files besides its logs are those of another disk. *)
Definition status_of (answer : Result (ExecutionStatus * ExecutionPayload) ExecutionError) : option ExecutionStatus :=
  match answer with Ok (status, _) => Some status | Err _ => None end.
Definition state_of (d : Disk) : Disk := foldr delete d execution_logs.
Definition edited : Disk := <[["src"; "core"; "a.rs"] := text "new"]> (<[replay_manifest_key := manifest_text]> ∅).

Definition plan : ExecutionPlan :=
  ltac:(let r := eval vm_compute in (plan_execution material environment) in match r with Ok ?plan => exact plan end).

Lemma plan_ok : plan_execution material environment = Ok plan.
Proof. vm_compute. reflexivity. Qed.

End Host.

Import Host.

(** Undisturbed, it is applied, and reconciling finds nothing to do. *)
Example host_applies :
  let o := execute start [] in
  let r := reconcile_prepared_execution_commits environment (disk_of o) [] in
  ends status_of o = Some (Some ExecutionStatus_Applied) /\ bool_decide (state_of (disk_of o) = edited) = true
  /\ ends (fun r => match r with Ok r => Some (err_status r) | Err _ => None end) r = Some (Some ReplayReconciliation_Noop).
Proof. vm_compute. repeat split. Qed.

(** The process dies while it writes the record that consumes the nonce; reconciling finishes the work. *)
Example host_crash_recovers :
  let o := execute start (after 29 [Crashes (Wrote 20)]) in
  let r := reconcile_prepared_execution_commits environment (disk_of o) [] in
  ends status_of o = None /\ bool_decide (state_of (disk_of r) = edited) = true
  /\ ends (fun r => match r with Ok r => Some (err_reconciled_transactions r) | Err _ => None end) r = Some (Some ["prepared-r1-e1-000000000000"]).
Proof. vm_compute. repeat split. Qed.

(** What such a crash leaves is also refused a second execution. *)
Example host_refuses_again :
  let o := execute start (after 29 [Crashes (Wrote 20)]) in
  ends status_of (execute (disk_of o) []) = Some None.
Proof. vm_compute. reflexivity. Qed.

(** An effect whose id is blank is admitted and applied; if the process dies as above, its commit is in the log
    and no reconciliation can complete it. *)
Example blank_commit_never_completes :
  let blank := material_of (effect_named (mk_StableId " ")) in
  let call := execute_without_anchor blank environment (Ok snapshot) (Ok snapshot) in
  let o := call start (after 29 [Crashes (Wrote 20)]) in
  let r := reconcile_prepared_execution_commits environment (disk_of o) [] in
  ends status_of (call start []) = Some (Some ExecutionStatus_Applied) /\ ends is_ok r = Some false
  /\ bool_decide (state_of (disk_of r) = edited) = true
  /\ ends is_ok (reconcile_prepared_execution_commits environment (disk_of r) []) = Some false.
Proof. vm_compute. repeat split. Qed.

(** ** Witnesses *)

Lemma host_spares : spares_execution (xpl_transaction_effect plan).
Proof.
  apply Forall_singleton. intros key Hk. assert (key = ["src"; "core"; "a.rs"]) as -> by (vm_compute in Hk; congruence).
  by apply (bool_decide_unpack (_ ∉ execution_files)).
Qed.

Lemma host_named : named_effects (xpl_effect_refs plan) (pem_effects material).
Proof. split; apply Forall_singleton; by vm_compute. Qed.

Lemma start_ready : replay_ready start [] [] ∅.
Proof. split; [by vm_compute|]. exists []. split; [by vm_compute|]. apply replay_clean, replay_log_nil. Qed.

Lemma start_at_rest : at_rest start [] ∅.
Proof. split; [by vm_compute|by split|done|]. exists [], []. apply start_ready. Qed.

(** The crash above; the first reconciliation fails to read, the second dies. *)
Lemma execution_exactly_once_witness :
  let o := execute start (after 29 [Crashes (Wrote 20)]) in
  let d := reconcile_executions environment [[Fails Untouched]; after 3 [Crashes Untouched]] (disk_of o) in
  exists r d', runs (reconcile_prepared_execution_commits environment) d = (Returned r, d')
    /\ (is_ok r = true /\ executed material plan ∅ start d' \/ not_executed material plan ∅ start d').
Proof.
  pose proof (execution_exactly_once material environment plan (Ok snapshot) (Ok snapshot) ∅ start [] (after 29 [Crashes (Wrote 20)])
    [[Fails Untouched]; after 3 [Crashes Untouched]] plan_ok host_named host_spares start_at_rest ltac:(by intros r ?%elem_of_nil)
    ltac:(by repeat constructor)) as H.
  unfold execute, disk_of. destruct (execute_without_anchor material environment (Ok snapshot) (Ok snapshot) start _) as [[outcome d] fs'].
  destruct H as [(r & d' & Hr & H) _]. exists r, d'. split; [exact Hr|]. destruct H as [(Hok & He & _)|[Hn _]]; [left; split; [exact Hok|exact He]|right; exact Hn].
Defined.

(** A log that holds the reservation of the call. *)
Definition used_key : string := match nonce_key material with Ok key => key | Err _ => "" end.
Definition used_payload : ReplayWalPayload := reserve_payload used_key intent (xpl_commit_digest plan).
Definition used_record : bytes := replay_rec_bytes [] used_payload (tree_text (tree used_payload)).
Definition used_disk : Disk := <[replay_wal_key := used_record]> start.

Lemma used_holds : replay_holds used_disk {[used_key := reserved intent (xpl_commit_digest plan)]}.
Proof.
  exists ([] ++ used_record)%list, [replay_rec [] [] used_payload (tree_text (tree used_payload))], (<[used_key := fresh_reservation intent (xpl_commit_digest plan) [] used_key]> ∅).
  split; [|unfold nonces; by rewrite fmap_insert, fmap_empty]. split; [by vm_compute|]. exists ([] ++ used_record)%list.
  split; [unfold used_disk; by rewrite lookup_insert_eq|]. apply replay_clean.
  apply (replay_log_snoc [] [] ∅ used_payload); [apply replay_log_nil|by split; [|apply Z.leb_le; vm_compute..|]|by split_and!; vm_compute|].
  by apply apply_reserve.
Qed.

Lemma used_nonce_refused_witness :
  let '(outcome, d', _) := execute used_disk [Works; Fails Untouched] in
  same_but_replay used_disk d' /\ replay_holds d' {[used_key := reserved intent (xpl_commit_digest plan)]}
  /\ forall answer, outcome = Returned answer -> exists e, answer = Err (Execution_RejectedPrepare e).
Proof.
  apply (used_nonce_refused material environment (Ok snapshot) (Ok snapshot) used_disk _ used_key [Works; Fails Untouched] used_holds);
    [by vm_compute|rewrite lookup_singleton_eq; by eexists].
Defined.

(** ** A bundle of two effects *)

Definition two_refs : list RepoPath := [mk_RepoPath "contracts/effects/e1.yaml"; mk_RepoPath "contracts/effects/e2.yaml"].

Definition two_operation : OperationContractDocument := let base := ocd_operation_contract Run.operation in {| ocd_operation_contract := {|
  oc_schema_version := oc_schema_version base; oc_contract_id := oc_contract_id base; oc_created_at := oc_created_at base;
  oc_project_ref := oc_project_ref base; oc_source := oc_source base; oc_autonomy := oc_autonomy base; oc_recommendation :=
  oc_recommendation base; oc_authority := {| aut_mutation_policy := aut_mutation_policy (oc_authority base);
  aut_side_effect_policy := aut_side_effect_policy (oc_authority base); aut_authority_sources := []; aut_authority_evidence := [];
  aut_missing_authority := [mk_StableId "operation.execute"] |}; oc_coordination_scope := oc_coordination_scope base;
  oc_execution_policy := oc_execution_policy base; oc_stop_policy := oc_stop_policy base; oc_request := oc_request base;
  oc_decision_close := oc_decision_close base; oc_runtime_handoff := oc_runtime_handoff base; oc_allowed_actions :=
  oc_allowed_actions base; oc_forbidden_actions := oc_forbidden_actions base; oc_human := oc_human base; oc_loads := oc_loads
  base; oc_gates := oc_gates base; oc_stop_conditions := [mk_StableId "done"]; oc_command_refs := oc_command_refs base;
  oc_effect_contract_refs := two_refs; oc_risk_boundaries := oc_risk_boundaries base; oc_diagnostics := oc_diagnostics base |} |}.

(** Creates a file next to the one [effect] edits. *)
Definition second_effect : ToolEffectContractDocument :=
  let contract := ted_tool_effect_contract effect in {| ted_schema_version := "0.1"; ted_tool_effect_contract := {|
  te_id := mk_StableId "e2"; te_contract_ref := mk_RepoPath "contracts/effects/e2.yaml"; te_effect_kind := te_effect_kind contract;
  te_operation_ref := te_operation_ref contract; te_actor := te_actor contract; te_read_set := te_read_set contract;
  te_write_set := [{| ew_target_kind := EffectTargetKind_FilePath; ew_reference := "src/core/b.rs"; ew_access_mode := AccessMode_Create;
                      ew_expected_hash := None; ew_expected_version := None; ew_destructive := false |}];
  te_conflict_detection := te_conflict_detection contract; te_notification := te_notification contract; te_repair := te_repair contract |} |}.

Lemma bundle_disjoint_witness :
  exists bundle, compose_operation_effect_bundle demo_root two_operation two_refs [effect; second_effect] = Ok bundle
    /\ te_write_set (ted_tool_effect_contract (oeb_transaction_effect bundle))
       = (te_write_set (ted_tool_effect_contract effect) ++ te_write_set (ted_tool_effect_contract second_effect))%list
    /\ NoDup (map fst (omap (asked [] start) (te_write_set (ted_tool_effect_contract (oeb_transaction_effect bundle))))).
Proof.
  destruct (compose_operation_effect_bundle demo_root two_operation two_refs [effect; second_effect]) as [bundle|e] eqn:E; [|exfalso; by vm_compute in E].
  exists bundle. split; [reflexivity|].
  destruct (bundle_disjoint demo_root two_operation two_refs [effect; second_effect] bundle [] start E) as (_ & _ & _ & Hw & _ & Hn & _).
  split; [exact Hw|exact Hn].
Defined.

(** The same name in another case is not bundled. *)
Example overlapping_bundle_refused :
  let other := {| ted_schema_version := "0.1"; ted_tool_effect_contract := let contract := ted_tool_effect_contract second_effect in {|
    te_id := te_id contract; te_contract_ref := te_contract_ref contract; te_effect_kind := te_effect_kind contract;
    te_operation_ref := te_operation_ref contract; te_actor := te_actor contract; te_read_set := te_read_set contract;
    te_write_set := [{| ew_target_kind := EffectTargetKind_FilePath; ew_reference := "src/core/A.rs"; ew_access_mode := AccessMode_Create;
                        ew_expected_hash := None; ew_expected_version := None; ew_destructive := false |}];
    te_conflict_detection := te_conflict_detection contract; te_notification := te_notification contract; te_repair := te_repair contract |} |} in
  compose_operation_effect_bundle demo_root two_operation two_refs [effect; other] = Err (Bundle_OverlappingWrite "src/core/A.rs" "e1" "e2").
Proof. vm_compute. reflexivity. Qed.

(** ** A file of the execution as a target *)

(** The logs an execution relies on are not reserved: an effect may append to the log of the nonces, and the
    preflight is ready. *)
Example replay_log_is_a_target :
  let contract := ted_tool_effect_contract second_effect in
  let on_log := {| ted_schema_version := "0.1"; ted_tool_effect_contract := {|
    te_id := te_id contract; te_contract_ref := te_contract_ref contract; te_effect_kind := te_effect_kind contract;
    te_operation_ref := te_operation_ref contract; te_actor := te_actor contract; te_read_set := te_read_set contract;
    te_write_set := [{| ew_target_kind := EffectTargetKind_FilePath; ew_reference := ".forge-method/wal/replay.fmr1"; ew_access_mode := AccessMode_Append;
                        ew_expected_hash := None; ew_expected_version := None; ew_destructive := false |}];
    te_conflict_detection := te_conflict_detection contract; te_notification := te_notification contract; te_repair := te_repair contract |} |} in
  ends epr_status (preflight_file_effect_transaction_under_lock demo_root on_log [demo_payload ".forge-method/wal/replay.fmr1" "x"] start [])
  = Some EffectPreflightStatus_Ready.
Proof. vm_compute. reflexivity. Qed.

(** ** Authority *)

(** A key whose hexadecimal has a sign in place of a digit is another text for the same key, so a registry may
    give one key two credentials. *)
Example shared_key_registry :
  let principals := [entry_of "key-1" (String "0" (String "a" (hex_encode (repeat "k"%char 31))));
                     entry_of "key-2" (String "+" (String "a" (hex_encode (repeat "k"%char 31))))] in
  from_document (registry_of principals) = Some (Ok {| apr_audience := "forge"; apr_principals := principals |})
  /\ map (fun entry => decode_verifying_key (pre_public_key_hex entry)) principals
     = [Some (Ok (ascii_of_N 10 :: repeat "k"%char 31)); Some (Ok (ascii_of_N 10 :: repeat "k"%char 31))].
Proof. split; vm_compute; reflexivity. Qed.

(** A signature with a character of two bytes at an odd offset makes the authorization panic. *)
Example signature_panics :
  authorize_execution registry call_intent (attestation_with (of_bytes ["a"%char; ascii_of_N 195; ascii_of_N 169; "1"%char])) (Run.now - 3) 300 30 = None.
Proof. vm_compute. reflexivity. Qed.

Lemma registry_active : from_document registry_document = Some (Ok registry).
Proof. vm_compute. reflexivity. Qed.

Lemma authorization_exact_witness :
  exists authorization, authorize_execution registry call_intent attestation (Run.now - 3) 300 30 = Some (Ok authorization).
Proof.
  apply (authorization_exact registry_document registry call_intent attestation (Run.now - 3) 300 30 registry_active);
    [by vm_compute|by split; apply Z.leb_le; vm_compute|by split; [apply Z.leb_le|apply Z.ltb_lt]; vm_compute|by apply Z.leb_le; vm_compute|].
  destruct (authorization_exact registry_document registry call_intent attestation (Run.now - 3) 300 30 registry_active) as [Hsound _];
    [by vm_compute|by split; apply Z.leb_le; vm_compute|by split; [apply Z.leb_le|apply Z.ltb_lt]; vm_compute|by apply Z.leb_le; vm_compute|].
  destruct (Hsound _ authorized) as (entry & Hs & _). split_and!; [done|by apply Z.leb_le; vm_compute|by apply Z.leb_le; vm_compute|by exists entry].
Defined.

Lemma committed_is_authorized_witness :
  exists entry digest, stands_for registry call_intent attestation entry /\ execution_intent_digest request = Ok digest
    /\ att_execution_intent_digest attestation = Some digest /\ eq_principal_id request = pre_principal_id entry.
Proof.
  assert (ends reports_commit (execute start []) = Some true) as Hr by (vm_compute; reflexivity).
  destruct (execute start []) as [[[answer|] d'] fs'] eqn:E; [injection Hr as Hr|done].
  destruct (committed_is_authorized registry_document registry call_intent attestation (Run.now - 3) 300 30 material environment (Ok snapshot) (Ok snapshot)
    start [] answer d' fs' registry_active authorized E Hr) as (entry & digest & Hs & _ & _ & Hd & Hi & Hp & _).
  exists entry, digest. by split_and!.
Defined.
